(* ===== verification/_CoqProject ===== *)
-Q . S2P
Prelude.v
Endian.v
Hasher.v
Sha256.v
Sha1.v
Ripemd160.v
Hash.v
IntSerialization.v
Outcome.v
BigInt.v
ScriptNum.v
LimitedStack.v
Opcodes.v
Script.v
Serialize.v
Amount.v
Transaction.v
ScriptChecks.v
PubKey.v
SigHash.v
Interpreter.v
InterpreterSafety.v
InterpreterSpec.v
SigChecker.v
Spend.v
ArithUint256.v
Block.v
Merkle.v
MerkleBlock.v
BlockIndex.v
Chain.v
Pow.v
Difficulty.v
SafeMode.v
ChainState.v
Coins.v
CoinsDB.v
Undo.v
Compressor.v
Disk.v
Replay.v
Validation.v
SequenceLocks.v
BlockCheck.v
Headers.v
BlockFiles.v
Receive.v
AcceptBlock.v
ConnectBlock.v
Supply.v
