(* ===== verification/Prelude.v ===== *)
(** * TBCNODE, verified

    A verification library for the node of TuringBitChain (C++, under src/src/, derived from Bitcoin SV):
    the part of it that decides which blocks and transactions are valid, which chain is the best one,
    and what is stored. The definitions are translated from the C++ functions whose names they bear and
    can be run; the theorems state what the code guarantees.

    ** The program and its parts

    Blocks and headers arrive from peers. A header is checked and becomes an entry of the index of blocks
    ([mapBlockIndex]); a block is checked, written to a numbered block file and recorded in its entry,
    which makes it a candidate for the best chain. The best candidate is connected: its transactions
    spend and create coins in a cache over a database, every spending runs two scripts in the script
    interpreter, and undo data is written so that the block can be taken back. From time to time all
    of this is flushed to disk and old files are pruned; after a crash the coins are brought up to date
    from the stored blocks. The files follow this path from the bottom up.

    - Bytes, hashes, formats. Endian (crypto/common.h); Hasher, Sha256, Sha1, Ripemd160 (crypto/); Hash
      (hash.h, hash.cpp); Serialize (serialize.h); Amount (amount.h); Transaction, Block (primitives/);
      Compressor (compressor.cpp).
    - Scripts. IntSerialization, BigInt, ScriptNum, LimitedStack, Opcodes, Script, ScriptChecks (script/,
      big_int.cpp); Interpreter (script/interpreter.cpp) with InterpreterSafety and InterpreterSpec;
      PubKey (pubkey.cpp); SigHash and SigChecker (script/interpreter.cpp); Spend runs the whole engine.
    - Chains. ArithUint256 (arith_uint256.cpp); Merkle (consensus/merkle.cpp); MerkleBlock
      (merkleblock.cpp); BlockIndex and Chain (chain.h, chain.cpp); Pow and Difficulty (pow.cpp);
      SafeMode and ChainState (validation.cpp).
    - Coins and storage. Coins (coins.cpp); CoinsDB (txdb.cpp); Undo (undo.h, validation.cpp); Disk
      (validation.cpp); Replay (ReplayBlocks); BlockFiles (blockfileinfostore.cpp, FlushStateToDisk).
    - Validation. Validation, SequenceLocks, BlockCheck, Headers, Receive, AcceptBlock, ConnectBlock and
      Supply (validation.cpp, checkpoints.cpp, config.cpp).

    ** How the code is modelled

    Bytes are [list Z] and machine words are [Z] with their wrap-around written out ([u8] to [u64], [i32],
    [i64] below). A function that can fail returns [outcome] (Outcome): a value, a script error, a C++
    exception, cancellation, or [Abort], which stands for a failed assertion and for every operation
    that C++ leaves undefined: reading outside a container, signed overflow, a null pointer. That a
    theorem gives a result [Ok] therefore also says that none of these happens. Globals and members
    are records that are passed on: [stacks], [state] of the interpreter, [node], [world],
    [chain_state]. Entries of the index live in a heap from pointers to objects, since the code shares
    and changes them; a new one is at an address that is only assumed to be free.

    Code outside the repository is an interface: [BIGNUM] (OpenSSL), [Secp256k1] (libsecp256k1), the
    key-value store of CoinsDB (LevelDB). The laws assumed of it are those its documentation states, and
    each interface has an instance for which the examples are evaluated. Inside the repository the
    components meet at classes too: [CCoinsView] is what a cache needs of the view behind it, and the
    cache and the database are its instances; the interpreter is proved against an abstract signature
    checker, and SigChecker discharges its promises. The scheduling of threads, the clocks, the
    directory of files, and answers of the operating system are arguments.

    Loops that are not structural take fuel, with the bound next to the definition: the bytes left in a
    script, the height of a block for walks along predecessors, the number of candidates, waiting
    blocks or files for the loops over them. Running out of fuel is [Abort], so every theorem with a
    result [Ok] shows that the fuel is enough.

    ** What is proved

    - Consensus. Coins are worth at most the sum of the subsidies, below 21 million ([supply_bounded]);
      a header commits to one list of transactions ([header_commits], [merkle_correct],
      [merkle_binding], [partial_tree_sound]); transactions are checked as specified
      ([CheckRegularTransaction_correct], [SequenceLocks_correct], [lock_points_reusable],
      [miner_bill_enforced]); the next difficulty is defined but in two cases, moves in bounded steps
      and falls when blocks are slow ([GetNextWorkRequired_defined], [difficulty_bounded],
      [slow_chain_recovers]).
    - Scripts. Within limits of 2 GiB evaluation always ends and never reaches undefined behaviour, up to
      two opcodes and one assertion on flags that are characterised exactly ([EvalScript_defined],
      [VerifyScript_defined], [undefined_reads]); above 2 GiB an assertion can fail ([split_correct]); what
      spends a payment to a key hash, and what multisig accepts ([p2pkh_correct],
      [multisig_correct]); what signatures sign ([sighash_binding], [legacy_digest_correct]);
      SHA-256 is FIPS 180-4 ([CSHA256_correct]).
    - The index. Every entry is backed by work, whatever headers arrive ([headers_backed_by_work]); only
      blocks that pass all checks are stored ([only_checked_blocks_stored]); the arrival of a block
      connects all that waited for it ([ReceivedBlockTransactions_correct]); the search for the best
      chain ends with the best candidate that can be connected ([FindMostWorkChain_correct]); ancestors
      and locators are found ([GetAncestor_correct], [locator_finds_fork]); the forks that put the node
      in safe mode, and its level, are what the thresholds say ([safe_mode_correct]).
    - Storage. A stored block is read back ([stored_block_readable]); positions never overlap and pruning
      keeps recent blocks ([positions_disjoint], [pruning_keeps_recent], [FindFilesToPrune_correct]);
      undo data takes a block back ([undo_roundtrip]); the cache refines the set of coins
      ([coins_cache_correct]); an interrupted flush is recovered from ([coins_db_crash_safe],
      [crash_recovery]); coins survive compression ([stored_coins_roundtrip]).
    - Flaws. [pruned_file_still_recorded], [undo_position_wraps], [split_correct], [coinbase_undefined]
      and [undefined_reads] show inputs for which the code does not do what it means to; the exact
      statement of [safe_mode_correct] shows that a new fork can lower the level of safe mode.

    Theorems about hashes speak of collisions instead of assuming that there are none: two inputs are
    equal, or a collision of SHA-256 is exhibited. Where counters have a width, the hypotheses say how
    much fits: fewer than 2^32 transactions up to any block in [counts_ok], files of at most 4 GiB in
    [positions_disjoint], limits of at most 2 GiB on the stack in [EvalScript_defined].

    ** Not modelled

    - ActivateBestChain, ConnectTip, DisconnectTip and InvalidateBlock: they combine the modelled search,
      connection and disconnection with the memory pool and its journal, and give up the main lock
      while scripts are checked. The check queue is modelled as run in order.
    - The memory pool, acceptance to it, and mining: policy over a Boost container, checked again when
      a block arrives.
    - Network, remote procedure calls, wallet, command line, logging and notifications: input and
      output. Blocks and headers are arbitrary values here, so nothing is assumed of peers.
    - Loading the databases at startup, apart from the recovery of the coins and the test for missing
      block files; a disk that fails in the middle of a write; the threads.
    - Floating point and text: priorities, [getdouble], hexadecimal and JSON.

    This first file holds what all others use: words and bytes, lemmas on lists, options and integers, the
    tactics and the hint databases. *)

From Stdlib Require Export ZArith List Lia Bool.
Export ListNotations.
#[export] Set Default Goal Selector "!".

Declare Scope word_scope.
Delimit Scope word_scope with word.
Open Scope Z_scope.

(** ** Machine words

    A [w]-bit unsigned integer is a [Z]; the wrap-around is written out by
    masking, which is what the C++ type does on every assignment. *)

Definition u8 (x : Z) : Z := Z.land x 0xff.
Definition u16 (x : Z) : Z := Z.land x 0xffff.
Definition u32 (x : Z) : Z := Z.land x 0xffffffff.
Definition u64 (x : Z) : Z := Z.land x 0xffffffffffffffff.

(** Two's complement reading of the low [w] bits, for the signed types. *)
Definition sint (w : Z) (x : Z) : Z :=
  let y := x mod 2 ^ w in if y <? 2 ^ (w - 1) then y else y - 2 ^ w.

Definition i32 : Z -> Z := sint 32.
Definition i64 : Z -> Z := sint 64.

(** Left shift of a 32-bit and of a 64-bit value. *)
Definition shl32 (x n : Z) : Z := u32 (Z.shiftl x n).
Definition shl64 (x n : Z) : Z := u64 (Z.shiftl x n).
(** Complement of a 32-bit value. *)
Definition not32 (x : Z) : Z := Z.lxor x 0xffffffff.

Infix "&&&" := Z.land (at level 40, left associativity) : word_scope.
Infix "^^^" := Z.lxor (at level 48, left associativity) : word_scope.
Infix "|||" := Z.lor (at level 50, left associativity) : word_scope.
Infix ">>>" := Z.shiftr (at level 38, left associativity) : word_scope.
Infix "<<<" := shl32 (at level 38, left associativity) : word_scope.

(** ** Bytes *)

Abbreviation bytes := (list Z).

Definition is_byte (b : Z) : Prop := 0 <= b < 256.
Definition bytes_ok (l : bytes) : Prop := Forall is_byte l.

(** [std::vector::size] and the pointer difference [end - begin]. *)
Definition len {A} (l : list A) : Z := Z.of_nat (length l).

(** [memcpy(buf + off, data, n)] for a [buf] that has the room. *)
Definition memcpy {A} (buf : list A) (off : nat) (data : list A) : list A :=
  firstn off buf ++ data ++ skipn (off + length data) buf.

(** ** Automation *)

Create HintDb tbc.
Create Rewrite HintDb len.

(** Turns every boolean comparison of [Z] and [nat] into the proposition. *)
Ltac zbool :=
  repeat match goal with
  | H : negb _ = true |- _ => apply negb_true_iff in H
  | H : negb _ = false |- _ => apply negb_false_iff in H
  | H : _ && _ = true |- _ => apply andb_true_iff in H; destruct H
  | H : _ || _ = false |- _ => apply orb_false_iff in H; destruct H
  | H : _ && _ = false |- _ => apply andb_false_iff in H
  | H : _ || _ = true |- _ => apply orb_true_iff in H
  | H : (_ <? _) = true |- _ => apply Z.ltb_lt in H
  | H : (_ <? _) = false |- _ => apply Z.ltb_ge in H
  | H : (_ <=? _) = true |- _ => apply Z.leb_le in H
  | H : (_ <=? _) = false |- _ => apply Z.leb_gt in H
  | H : (_ =? _) = true |- _ => apply Z.eqb_eq in H
  | H : (_ =? _) = false |- _ => apply Z.eqb_neq in H
  | H : (_ >? _) = _ |- _ => rewrite Z.gtb_ltb in H
  | H : (_ >=? _) = _ |- _ => rewrite Z.geb_leb in H
  | H : (_ <? _)%nat = true |- _ => apply Nat.ltb_lt in H
  | H : (_ <? _)%nat = false |- _ => apply Nat.ltb_ge in H
  | H : (_ <=? _)%nat = true |- _ => apply Nat.leb_le in H
  | H : (_ <=? _)%nat = false |- _ => apply Nat.leb_gt in H
  | H : (_ =? _)%nat = true |- _ => apply Nat.eqb_eq in H
  | H : (_ =? _)%nat = false |- _ => apply Nat.eqb_neq in H
  end.

(** Inverts an equation between constructors. *)
Ltac inv H := inversion H; subst; clear H.

(** Case analysis on the scrutinee of a [match] or [if] of hypothesis [H]. *)
Ltac dmatch H :=
  match type of H with
  | context [match ?x with _ => _ end] => destruct x eqn:?
  end.

(** The same on the goal. *)
Ltac dgoal :=
  match goal with
  | |- context [match ?x with _ => _ end] => destruct x eqn:?
  end.

(** ** Words: lemmas *)

Lemma u8_mod x : u8 x = x mod 2 ^ 8.
Proof. unfold u8. change 0xff with (Z.ones 8). now rewrite Z.land_ones by lia. Qed.

Lemma u16_mod x : u16 x = x mod 2 ^ 16.
Proof. unfold u16. change 0xffff with (Z.ones 16). now rewrite Z.land_ones by lia. Qed.

Lemma u32_mod x : u32 x = x mod 2 ^ 32.
Proof. unfold u32. change 0xffffffff with (Z.ones 32). now rewrite Z.land_ones by lia. Qed.

Lemma u64_mod x : u64 x = x mod 2 ^ 64.
Proof.
  unfold u64. change 0xffffffffffffffff with (Z.ones 64). now rewrite Z.land_ones by lia.
Qed.

Lemma u32_range x : 0 <= u32 x < 2 ^ 32.
Proof. rewrite u32_mod. apply Z.mod_pos_bound. lia. Qed.

Lemma u64_range x : 0 <= u64 x < 2 ^ 64.
Proof. rewrite u64_mod. apply Z.mod_pos_bound. lia. Qed.

Lemma u8_range x : is_byte (u8 x).
Proof. unfold is_byte. rewrite u8_mod. apply Z.mod_pos_bound. lia. Qed.

Lemma u32_small x : 0 <= x < 2 ^ 32 -> u32 x = x.
Proof. intros. rewrite u32_mod. now apply Z.mod_small. Qed.

Lemma u64_small x : 0 <= x < 2 ^ 64 -> u64 x = x.
Proof. intros. rewrite u64_mod. now apply Z.mod_small. Qed.

Lemma u8_small x : is_byte x -> u8 x = x.
Proof. unfold is_byte. intros. rewrite u8_mod. apply Z.mod_small. lia. Qed.

Lemma land_255 x : Z.land x 255 = x mod 256.
Proof. exact (u8_mod x). Qed.

(** ** Lists: lemmas *)

Lemma len_nonneg {A} (l : list A) : 0 <= len l.
Proof. unfold len. lia. Qed.

Lemma len_app {A} (l m : list A) : len (l ++ m) = len l + len m.
Proof. unfold len. rewrite length_app. lia. Qed.

Lemma len_cons {A} (x : A) l : len (x :: l) = 1 + len l.
Proof. unfold len. cbn [length]. lia. Qed.

Lemma len_nil {A} : len (@nil A) = 0.
Proof. reflexivity. Qed.

Lemma len_skipn {A} n (l : list A) : len (skipn n l) = Z.max 0 (len l - Z.of_nat n).
Proof. unfold len. rewrite length_skipn. lia. Qed.

Lemma len_firstn {A} n (l : list A) : len (firstn n l) = Z.min (Z.of_nat n) (len l).
Proof. unfold len. rewrite length_firstn. lia. Qed.

Lemma len_rev {A} (l : list A) : len (rev l) = len l.
Proof. unfold len. now rewrite length_rev. Qed.

Lemma len_map {A B} (f : A -> B) l : len (map f l) = len l.
Proof. unfold len. now rewrite length_map. Qed.

Lemma len_repeat {A} (x : A) n : len (repeat x n) = Z.of_nat n.
Proof. unfold len. now rewrite repeat_length. Qed.

#[export] Hint Rewrite @len_app @len_cons @len_nil @len_skipn @len_firstn @len_rev
  @len_map @len_repeat : len.

Lemma length_memcpy {A} (buf : list A) off data :
  (off + length data <= length buf)%nat -> length (memcpy buf off data) = length buf.
Proof.
  intros H. unfold memcpy. rewrite !length_app, length_firstn, length_skipn. lia.
Qed.

Lemma firstn_memcpy {A} (buf : list A) off data :
  (off <= length buf)%nat ->
  firstn (off + length data) (memcpy buf off data) = firstn off buf ++ data.
Proof.
  intros H. unfold memcpy. rewrite app_assoc, firstn_app, firstn_all2.
  - rewrite length_app, length_firstn, Nat.min_l by lia.
    replace (off + length data - (off + length data))%nat with 0%nat by lia.
    cbn. apply app_nil_r.
  - rewrite length_app, length_firstn. lia.
Qed.

Lemma bytes_ok_app l m : bytes_ok (l ++ m) <-> bytes_ok l /\ bytes_ok m.
Proof. apply Forall_app. Qed.

(** Concrete byte lists are checked by evaluation. *)
Lemma bytes_okb l : forallb (fun b => (0 <=? b) && (b <? 256)) l = true -> bytes_ok l.
Proof.
  intros H. apply Forall_forall. intros b Hb. rewrite forallb_forall in H.
  apply H in Hb. unfold is_byte. apply andb_true_iff in Hb as [H1 H2].
  apply Z.leb_le in H1. apply Z.ltb_lt in H2. lia.
Qed.

Lemma bytes_ok_snoc l x : bytes_ok l -> is_byte x -> bytes_ok (l ++ [x]).
Proof. intros Hl Hx. apply bytes_ok_app. split; [exact Hl|]. now constructor. Qed.

Lemma Forall_firstn {A} (P : A -> Prop) n l : Forall P l -> Forall P (firstn n l).
Proof. intros H. revert n. induction H; intros [|n]; cbn; constructor; auto. Qed.

Lemma Forall_skipn {A} (P : A -> Prop) n l : Forall P l -> Forall P (skipn n l).
Proof. intros H. revert n. induction H; intros [|n]; cbn; auto. Qed.

#[export] Hint Resolve Forall_firstn Forall_skipn u8_range : tbc.

Lemma exists_last_or_nil {A} (l : list A) : l = [] \/ exists p x, l = p ++ [x].
Proof.
  destruct l as [|a l]; [now left | right].
  destruct (exists_last (l := a :: l)) as (p & x & E); [discriminate | now exists p, x].
Qed.

Lemma firstn_repeat {A} n (x : A) m : firstn n (repeat x m) = repeat x (min n m).
Proof.
  revert m; induction n as [|n IH]; intros [|m]; cbn; auto. now rewrite IH.
Qed.

(** [injection] also simplifies the two sides; this does not. *)
Lemma Some_inj {A} (a b : A) : Some a = Some b -> a = b.
Proof. congruence. Qed.

Lemma land_7 x : Z.land x 7 = x mod 8.
Proof. apply (Z.land_ones x 3). lia. Qed.

Lemma land_range n a b : 0 <= n -> 0 <= a < 2 ^ n -> 0 <= Z.land a b < 2 ^ n.
Proof.
  intros Hn Ha. replace (Z.land a b) with (Z.land a b mod 2 ^ n).
  - apply Z.mod_pos_bound. lia.
  - rewrite <- Z.land_ones, <- Z.land_assoc, (Z.land_comm b), Z.land_assoc by lia.
    now rewrite Z.land_ones, Z.mod_small by lia.
Qed.

(** A boolean property of one byte is checked on all 256. *)
Lemma byte_forall (P : Z -> bool) :
  forallb P (map Z.of_nat (seq 0 256)) = true -> forall b, is_byte b -> P b = true.
Proof.
  intros H b Hb. rewrite forallb_forall in H. apply H.
  rewrite <- (Z2Nat.id b) by (unfold is_byte in Hb; lia). apply in_map, in_seq.
  unfold is_byte in Hb. lia.
Qed.

Lemma byte_land_7f b : is_byte b -> Z.land b 0x7f = b mod 128.
Proof. intros _. apply (Z.land_ones b 7). lia. Qed.

Lemma byte_land_80 b : is_byte b -> (Z.land b 0x80 =? 0) = (b <? 128).
Proof.
  intros Hb. apply eqb_prop.
  now apply (byte_forall (fun b => Bool.eqb (Z.land b 0x80 =? 0) (b <? 128))).
Qed.

(** Or-ing a shifted value above the bits in use adds it. *)
Lemma land_shiftl_disjoint t b k : 0 <= k -> 0 <= t < 2 ^ k -> Z.land t (Z.shiftl b k) = 0.
Proof.
  intros Hk Ht. apply Z.bits_inj'; intros n Hn. rewrite Z.land_spec, Z.bits_0.
  destruct (Z.lt_ge_cases n k).
  - rewrite Z.shiftl_spec_low by lia. apply andb_false_r.
  - destruct (Z.eq_dec t 0) as [->|]; [now rewrite Z.bits_0|].
    rewrite Z.bits_above_log2; [reflexivity | lia |].
    apply Z.log2_lt_pow2; [lia|]. pose proof (Z.pow_le_mono_r 2 k n). lia.
Qed.

Lemma lor_shiftl_add t b k : 0 <= k -> 0 <= t < 2 ^ k -> Z.lor t (Z.shiftl b k) = t + 2 ^ k * b.
Proof.
  intros Hk Ht. pose proof (land_shiftl_disjoint t b k Hk Ht).
  rewrite <- Z.lxor_lor, <- Z.add_nocarry_lxor by assumption.
  rewrite Z.shiftl_mul_pow2 by lia. lia.
Qed.

Lemma byte_lor_80 b : 0 <= b < 128 -> Z.lor b 0x80 = b + 128.
Proof. intros H. apply (lor_shiftl_add b 1 7); lia. Qed.

(** ** Assignments

    [var x ::= e ;; k] is the C statement [x = e;] followed by [k].  It is a constant
    and not a [let], so that long straight-line code is not expanded when it is
    compared with its reference. *)
Definition assign {A B} (e : A) (k : A -> B) : B := k e.

Notation "'var' x ::= e ;; k" := (assign e (fun x => k))
  (at level 10, x name, e at level 99, k at level 200) : word_scope.

Lemma assign_abs {A B} (e : A) (k r : A -> B) : (forall x, k x = r x) -> assign e k = r e.
Proof. intros H. exact (H e). Qed.

(** Replaces the value assigned by a variable on both sides of the goal. *)
Ltac abstract_assign :=
  lazymatch goal with
  | |- assign ?e ?k = ?r =>
      lazymatch eval pattern e in r with
      | ?r' _ => apply (assign_abs e k r'); let w := fresh "w" in intro w; cbv beta
      end
  end.

(** Testing one bit of a word. *)
Lemma land_bit w n : 0 <= n < 32 -> negb (Z.land w (shl32 1 n) =? 0) = Z.testbit w n.
Proof.
  intros Hn. assert (E : shl32 1 n = 2 ^ n).
  { unfold shl32. rewrite Z.shiftl_1_l. apply u32_small. split; [apply Z.pow_nonneg; lia | apply Z.pow_lt_mono_r; lia]. }
  rewrite E. destruct (Z.testbit w n) eqn:T.
  - apply negb_true_iff, Z.eqb_neq. intros C. assert (X : Z.testbit (Z.land w (2 ^ n)) n = false) by (rewrite C; apply Z.bits_0).
    rewrite Z.land_spec, T, Z.pow2_bits_true in X by lia. discriminate.
  - apply negb_false_iff, Z.eqb_eq, Z.bits_inj'. intros i Hi. rewrite Z.land_spec, Z.pow2_bits_eqb, Z.bits_0 by lia.
    destruct (Z.eqb_spec n i) as [<-|]; [now rewrite T | apply andb_false_r].
Qed.

Lemma last_nth {A} (l : list A) d : last l d = nth (length l - 1) l d.
Proof.
  induction l as [|a [|b l] IH]; [reflexivity | reflexivity |]. change (last (a :: b :: l) d) with (last (b :: l) d).
  rewrite IH. cbn [length Nat.sub nth]. now rewrite Nat.sub_0_r.
Qed.

Lemma skipn_nth_error {A} (l : list A) k a : nth_error l k = Some a -> skipn k l = a :: skipn (S k) l.
Proof. revert l. induction k as [|k IH]; intros [|b l] E; try discriminate; [now injection E as -> | exact (IH l E)]. Qed.

Lemma firstn_nth_error {A} (l : list A) k a : nth_error l k = Some a -> firstn (S k) l = firstn k l ++ [a].
Proof.
  revert l. induction k as [|k IH]; intros [|b l] E; try discriminate; [now injection E as ->|].
  change (firstn (S (S k)) (b :: l)) with (b :: firstn (S k) l). now rewrite (IH l E).
Qed.
