(* ===== verification/Endian.v ===== *)
(** * Endianness helpers (src/src/crypto/common.h)

    [ReadLE16] ... [WriteBE64] copy an integer to and from memory in a fixed byte
    order.  A pointer into a buffer is the list of bytes from there on; a write
    returns the bytes written.  All readers and writers are instances of one
    decoder and one encoder, whose round trips are proved here once. *)

From S2P Require Import Prelude.

(** ** Definitions *)

Fixpoint le_decode (l : bytes) : Z :=
  match l with
  | [] => 0
  | b :: l' => b + 256 * le_decode l'
  end.

Fixpoint le_encode (n : nat) (x : Z) : bytes :=
  match n with
  | O => []
  | S n' => Z.land x 255 :: le_encode n' (Z.shiftr x 8)
  end.

Definition ReadLE16 (p : bytes) : Z := le_decode (firstn 2 p).
Definition ReadLE32 (p : bytes) : Z := le_decode (firstn 4 p).
Definition ReadLE64 (p : bytes) : Z := le_decode (firstn 8 p).
Definition WriteLE16 (x : Z) : bytes := le_encode 2 x.
Definition WriteLE32 (x : Z) : bytes := le_encode 4 x.
Definition WriteLE64 (x : Z) : bytes := le_encode 8 x.
Definition ReadBE32 (p : bytes) : Z := le_decode (rev (firstn 4 p)).
Definition ReadBE64 (p : bytes) : Z := le_decode (rev (firstn 8 p)).
Definition WriteBE32 (x : Z) : bytes := rev (le_encode 4 x).
Definition WriteBE64 (x : Z) : bytes := rev (le_encode 8 x).

(** [CountBits]: the portable loop; at most 64 iterations for a 64-bit word. *)
Fixpoint CountBits_loop (fuel : nat) (x ret : Z) : Z :=
  match fuel with
  | O => ret
  | S fuel' => if x =? 0 then ret else CountBits_loop fuel' (Z.shiftr x 1) (ret + 1)
  end.

Definition CountBits (x : Z) : Z := CountBits_loop 64 x 0.

(** ** Lemmas *)

Lemma length_le_encode n x : length (le_encode n x) = n.
Proof. revert x; induction n; intros; cbn; auto. Qed.

Lemma len_le_encode n x : len (le_encode n x) = Z.of_nat n.
Proof. unfold len. now rewrite length_le_encode. Qed.

Lemma le_encode_ok n x : bytes_ok (le_encode n x).
Proof.
  revert x; induction n as [|n IH]; intros; cbn; constructor.
  - unfold is_byte. rewrite land_255. apply Z.mod_pos_bound. lia.
  - apply IH.
Qed.

Lemma le_decode_encode n x : le_decode (le_encode n x) = x mod 2 ^ (8 * Z.of_nat n).
Proof.
  revert x; induction n as [|n IH]; intros x.
  - cbn. now rewrite Z.mod_1_r.
  - cbn [le_encode le_decode]. rewrite IH, land_255, Z.shiftr_div_pow2 by lia.
    replace (8 * Z.of_nat (S n)) with (8 + 8 * Z.of_nat n) by lia.
    rewrite Z.pow_add_r by lia. change (2 ^ 8) with 256.
    now rewrite Z.rem_mul_r by lia.
Qed.

Lemma le_decode_range l : bytes_ok l -> 0 <= le_decode l < 2 ^ (8 * len l).
Proof.
  induction 1 as [|b l Hb Hl IH]; [cbn; lia|].
  rewrite len_cons. replace (8 * (1 + len l)) with (8 + 8 * len l) by lia.
  pose proof (len_nonneg l).
  rewrite Z.pow_add_r by lia. unfold is_byte in Hb. cbn [le_decode].
  change (2 ^ 8) with 256. nia.
Qed.

Lemma le_encode_decode l : bytes_ok l -> le_encode (length l) (le_decode l) = l.
Proof.
  induction 1 as [|b l Hb Hl IH]; [reflexivity|].
  cbn [length le_decode le_encode].
  rewrite land_255, Z.shiftr_div_pow2 by lia. change (2 ^ 8) with 256.
  unfold is_byte in Hb.
  replace ((b + 256 * le_decode l) mod 256) with b
    by (rewrite Z.add_comm, Z.mul_comm, Z.add_comm, Z.mod_add by lia;
        symmetry; apply Z.mod_small; lia).
  replace ((b + 256 * le_decode l) / 256) with (le_decode l)
    by (rewrite Z.mul_comm, Z.div_add by lia; rewrite Z.div_small by lia; lia).
  now rewrite IH.
Qed.

Lemma le_encode_inj n x y :
  0 <= x < 2 ^ (8 * Z.of_nat n) -> 0 <= y < 2 ^ (8 * Z.of_nat n) ->
  le_encode n x = le_encode n y -> x = y.
Proof.
  intros Hx Hy E. apply (f_equal le_decode) in E.
  rewrite !le_decode_encode, !Z.mod_small in E by lia. exact E.
Qed.

Lemma le_decode_app l m : le_decode (l ++ m) = le_decode l + 2 ^ (8 * len l) * le_decode m.
Proof.
  induction l as [|b l IH]; cbn [app le_decode].
  - change (len (@nil Z)) with 0. change (2 ^ (8 * 0)) with 1. lia.
  - rewrite IH, len_cons. pose proof (len_nonneg l).
    replace (8 * (1 + len l)) with (8 + 8 * len l) by lia.
    rewrite Z.pow_add_r by lia. change (2 ^ 8) with 256. ring.
Qed.

Lemma le_encode_mod n x : le_encode n (x mod 2 ^ (8 * Z.of_nat n)) = le_encode n x.
Proof.
  pose proof (le_encode_decode _ (le_encode_ok n x)) as H.
  now rewrite length_le_encode, le_decode_encode in H.
Qed.

(** Round trips of the C++ readers and writers. *)
Lemma ReadLE16_WriteLE16 x rest : ReadLE16 (WriteLE16 x ++ rest) = x mod 2 ^ 16.
Proof.
  unfold ReadLE16, WriteLE16. rewrite firstn_app, length_le_encode.
  rewrite firstn_all2 by (rewrite length_le_encode; lia).
  cbn [Nat.sub firstn]. rewrite app_nil_r. apply (le_decode_encode 2).
Qed.

Lemma ReadLE32_WriteLE32 x rest : ReadLE32 (WriteLE32 x ++ rest) = x mod 2 ^ 32.
Proof.
  unfold ReadLE32, WriteLE32. rewrite firstn_app, length_le_encode.
  rewrite firstn_all2 by (rewrite length_le_encode; lia).
  cbn [Nat.sub firstn]. rewrite app_nil_r. apply (le_decode_encode 4).
Qed.

Lemma ReadLE64_WriteLE64 x rest : ReadLE64 (WriteLE64 x ++ rest) = x mod 2 ^ 64.
Proof.
  unfold ReadLE64, WriteLE64. rewrite firstn_app, length_le_encode.
  rewrite firstn_all2 by (rewrite length_le_encode; lia).
  cbn [Nat.sub firstn]. rewrite app_nil_r. apply (le_decode_encode 8).
Qed.

Lemma length_WriteBE32 x : length (WriteBE32 x) = 4%nat.
Proof. reflexivity. Qed.

Lemma length_WriteBE64 x : length (WriteBE64 x) = 8%nat.
Proof. reflexivity. Qed.

Lemma WriteBE32_ok x : bytes_ok (WriteBE32 x).
Proof. apply Forall_rev, le_encode_ok. Qed.

Lemma WriteBE64_ok x : bytes_ok (WriteBE64 x).
Proof. apply Forall_rev, le_encode_ok. Qed.

Lemma ReadBE32_WriteBE32 x rest : ReadBE32 (WriteBE32 x ++ rest) = x mod 2 ^ 32.
Proof.
  unfold ReadBE32, WriteBE32. rewrite firstn_app, length_rev, length_le_encode.
  rewrite firstn_all2 by (rewrite length_rev, length_le_encode; lia).
  cbn [Nat.sub firstn]. rewrite app_nil_r, rev_involutive. apply (le_decode_encode 4).
Qed.

Lemma ReadBE32_range p : bytes_ok p -> 0 <= ReadBE32 p < 2 ^ 32.
Proof.
  intros H. unfold ReadBE32.
  pose proof (le_decode_range (rev (firstn 4 p)) (Forall_rev (Forall_firstn _ _ _ H))) as R.
  assert (8 * len (rev (firstn 4 p)) <= 32) by (autorewrite with len; lia).
  pose proof (Z.pow_le_mono_r 2 _ 32 ltac:(lia) H0). lia.
Qed.

#[export] Hint Resolve le_encode_ok WriteBE32_ok WriteBE64_ok : tbc.

(** Reading a word at an offset where it was written. *)
Lemma ReadBE32_at buf k x rest :
  skipn k buf = WriteBE32 x ++ rest -> 0 <= x < 2 ^ 32 -> ReadBE32 (skipn k buf) = x.
Proof. intros -> H. rewrite ReadBE32_WriteBE32. now apply Z.mod_small. Qed.

Lemma length_WriteLE64 x : length (WriteLE64 x) = 8%nat.
Proof. apply length_le_encode. Qed.

(** Bits of a value split at its lowest byte. *)
Lemma testbit_byte b X n :
  0 <= b < 256 -> 0 <= n ->
  Z.testbit (b + 256 * X) n = if n <? 8 then Z.testbit b n else Z.testbit X (n - 8).
Proof.
  intros Hb Hn. change 256 with (2 ^ 8). rewrite <- lor_shiftl_add by lia.
  rewrite Z.lor_spec, Z.shiftl_spec by lia. destruct (Z.ltb_spec n 8).
  - rewrite (Z.testbit_neg_r X) by lia. apply orb_false_r.
  - rewrite (Z.bits_above_log2 b n); [reflexivity | lia |].
    destruct (Z.eq_dec b 0) as [->|]; [cbn; lia|].
    apply Z.lt_le_trans with 8; [apply Z.log2_lt_pow2; lia | lia].
Qed.

Lemma land_byte b c X Y :
  0 <= b < 256 -> 0 <= c < 256 ->
  Z.land (b + 256 * X) (c + 256 * Y) = Z.land b c + 256 * Z.land X Y.
Proof.
  intros Hb Hc. apply Z.bits_inj'; intros n Hn.
  pose proof (land_range 8 b c ltac:(lia) Hb). change (2 ^ 8) with 256 in *.
  rewrite Z.land_spec, !testbit_byte by lia.
  destruct (n <? 8); now rewrite Z.land_spec.
Qed.

(** Bytewise conjunction, the second list at least as long. *)
Lemma le_decode_land x y :
  bytes_ok x -> bytes_ok y -> (length x <= length y)%nat ->
  le_decode (map (fun p => Z.land (fst p) (snd p)) (combine x y)) =
  Z.land (le_decode x) (le_decode y).
Proof.
  intros Hx. revert y; induction Hx as [|b x Hb Hx IH]; intros y Hy Hl; [reflexivity|].
  destruct Hy as [|c y Hc Hy]; cbn [length] in Hl; [lia|].
  cbn [combine map le_decode fst snd]. rewrite IH by (auto; lia).
  now rewrite land_byte.
Qed.
