(* ===== verification/Hasher.v ===== *)
(** * Block-buffered hashers

    [CSHA256], [CSHA1] and [CRIPEMD160] (src/src/crypto/) share one buffering
    scheme: a chaining state, a one-block buffer and a 64-bit byte count; [Write]
    completes a started block, consumes whole blocks straight from the input and
    keeps the rest in the buffer; [Finalize] pads.  This file holds the scheme
    over an arbitrary compression function; Sha256.v, Sha1.v and Ripemd160.v
    instantiate it.  The buffer of a fresh C++ object is uninitialised memory, so
    its contents are an argument of the constructors, and the theorems show that
    no digest depends on them. *)

From S2P Require Import Prelude Endian.

Section BlockHasher.
Context {St : Type}.
(** Block size in bytes; it divides [2^64], so the wrap-around of the byte count
    keeps the position inside the block. *)
Context (B : nat).
(** One application of the compression function to one block. *)
Context (Transform1 : St -> bytes -> St).

Record hasher := mkHasher { hs : St; hbuf : bytes; hbytes : Z }.

(** [while (blocks--) { ...; chunk += B; }] *)
Fixpoint Transform (s : St) (chunk : bytes) (blocks : nat) : St :=
  match blocks with
  | O => s
  | S n => Transform (Transform1 s (firstn B chunk)) (skipn B chunk) n
  end.

(** First step of [Write]: fill a started block, if the input completes it.
    Returns the object, the rest of the input and the new [bufsize]. *)
Definition Write_fill (h : hasher) (data : bytes) : hasher * bytes * nat :=
  let bufsize := Z.to_nat (hbytes h mod Z.of_nat B) in
  if negb (bufsize =? 0)%nat && (B <=? bufsize + length data)%nat then
    let buf := memcpy (hbuf h) bufsize (firstn (B - bufsize) data) in
    (mkHasher (Transform1 (hs h) buf) buf
       (u64 (hbytes h + Z.of_nat (B - bufsize))),
     skipn (B - bufsize) data, 0%nat)
  else (h, data, bufsize).

(** Second step: whole blocks directly from the source. *)
Definition Write_blocks (h : hasher) (data : bytes) : hasher * bytes :=
  if (B <=? length data)%nat then
    let blocks := (length data / B)%nat in
    (mkHasher (Transform (hs h) data blocks) (hbuf h)
       (u64 (hbytes h + Z.of_nat (B * blocks))),
     skipn (B * blocks) data)
  else (h, data).

(** [Write] *)
Definition Write (h : hasher) (data : bytes) : hasher :=
  let '(h, data, bufsize) := Write_fill h data in
  let '(h, data) := Write_blocks h data in
  if (0 <? length data)%nat then
    mkHasher (hs h) (memcpy (hbuf h) bufsize data)
      (u64 (hbytes h + Z.of_nat (length data)))
  else h.

(** [CSHA1::Write] and [CRIPEMD160::Write] take whole blocks one at a time,
    [while (end >= data + 64)]; [fuel] is the number of bytes left. *)
Fixpoint Write_while (fuel : nat) (h : hasher) (data : bytes) : hasher * bytes :=
  match fuel with
  | O => (h, data)
  | S fuel' =>
      if (B <=? length data)%nat then
        Write_while fuel'
          (mkHasher (Transform1 (hs h) (firstn B data)) (hbuf h)
             (u64 (hbytes h + Z.of_nat B)))
          (skipn B data)
      else (h, data)
  end.

Definition WriteLoop (h : hasher) (data : bytes) : hasher :=
  let '(h, data, bufsize) := Write_fill h data in
  let '(h, data) := Write_while (length data) h data in
  if (0 <? length data)%nat then
    mkHasher (hs h) (memcpy (hbuf h) bufsize data)
      (u64 (hbytes h + Z.of_nat (length data)))
  else h.

(** [Finalize], over the encoding of the length and the output of the state. *)
Context (sizedesc : Z -> bytes) (output : St -> bytes).
Context (L : nat).

Definition pad : bytes := 0x80 :: repeat 0 (B - 1).

Definition Finalize (h : hasher) : bytes :=
  let size := sizedesc (shl64 (hbytes h) 3) in
  let npad :=
    (1 + Z.to_nat ((2 * Z.of_nat B - 1 - Z.of_nat L - hbytes h mod Z.of_nat B)
                   mod Z.of_nat B))%nat in
  output (hs (Write (Write h (firstn npad pad)) size)).

(** [Finalize] of the classes whose [Write] is [WriteLoop]. *)
Definition FinalizeLoop (h : hasher) : bytes :=
  let size := sizedesc (shl64 (hbytes h) 3) in
  let npad :=
    (1 + Z.to_nat ((2 * Z.of_nat B - 1 - Z.of_nat L - hbytes h mod Z.of_nat B)
                   mod Z.of_nat B))%nat in
  output (hs (WriteLoop (WriteLoop h (firstn npad pad)) size)).

(** ** Specification

    A hasher that started in state [s0] represents the bytes written so far: the
    whole blocks are compressed, the rest is in the buffer. *)

Definition repr (s0 : St) (h : hasher) (d : bytes) : Prop :=
  exists k full rest,
    d = full ++ rest /\ length full = (k * B)%nat /\ (length rest < B)%nat /\
    hs h = Transform s0 full k /\
    firstn (length rest) (hbuf h) = rest /\ length (hbuf h) = B /\
    hbytes h = u64 (len d).

(** The padded message of [d], and its digest from state [s0]. *)
Definition pad_message (d : bytes) : bytes :=
  d ++ firstn (1 + Z.to_nat ((2 * Z.of_nat B - 1 - Z.of_nat L - len d mod Z.of_nat B)
                             mod Z.of_nat B)) pad
    ++ sizedesc (shl64 (u64 (len d)) 3).

Definition digest (s0 : St) (d : bytes) : bytes :=
  output (Transform s0 (pad_message d) (length (pad_message d) / B)).

(** ** Lemmas *)

Lemma Transform_app s k a b m :
  length a = (k * B)%nat ->
  Transform s (a ++ b) (k + m) = Transform (Transform s a k) b m.
Proof.
  revert s a; induction k as [|k IH]; intros s a Ha.
  - destruct a; [reflexivity | cbn in Ha; lia].
  - cbn [Transform Nat.add].
    rewrite firstn_app, skipn_app.
    replace (B - length a)%nat with 0%nat by nia.
    cbn [firstn skipn]. rewrite app_nil_r. apply IH.
    rewrite length_skipn. nia.
Qed.

Context (B_pos : (0 < B)%nat) (B_div : (Z.of_nat B | 2 ^ 64)).

Lemma mod_u64 x : u64 x mod Z.of_nat B = x mod Z.of_nat B.
Proof.
  rewrite u64_mod. now apply Z.mod_mod_divide.
Qed.

Lemma u64_add x y : u64 (u64 x + y) = u64 (x + y).
Proof. rewrite !u64_mod. apply Zplus_mod_idemp_l. Qed.

(** Taking the whole blocks one at a time or all at once is the same. *)
Lemma Write_while_blocks fuel h data :
  (length data <= fuel)%nat -> Write_while fuel h data = Write_blocks h data.
Proof.
  revert h data; induction fuel as [|fuel IH]; intros h data H; unfold Write_blocks;
    cbn [Write_while].
  - destruct (Nat.leb_spec B (length data)); [lia | reflexivity].
  - destruct (Nat.leb_spec B (length data)) as [HB|HB]; [|reflexivity].
    rewrite IH by (rewrite length_skipn; lia).
    unfold Write_blocks. rewrite length_skipn.
    replace (length data / B)%nat with (S ((length data - B) / B)).
    2:{ replace (length data) with (length data - B + 1 * B)%nat at 2 by lia.
        rewrite Nat.div_add by lia. lia. }
    set (q := ((length data - B) / B)%nat).
    destruct (Nat.leb_spec B (length data - B)) as [HB2|HB2]; cbn [hs hbuf hbytes Transform].
    + f_equal; [f_equal|].
      * rewrite u64_add. f_equal. lia.
      * rewrite skipn_skipn. f_equal. lia.
    + replace q with 0%nat by (symmetry; apply Nat.div_small; exact HB2).
      f_equal; [|f_equal; lia]. cbn [Transform]. f_equal. f_equal. lia.
Qed.

Lemma WriteLoop_Write h data : WriteLoop h data = Write h data.
Proof.
  unfold WriteLoop, Write. destruct (Write_fill h data) as [[h1 d1] r].
  now rewrite Write_while_blocks.
Qed.

Lemma FinalizeLoop_Finalize h : FinalizeLoop h = Finalize h.
Proof using B_pos B_div. unfold FinalizeLoop, Finalize. now rewrite !WriteLoop_Write. Qed.

Lemma repr_bufsize s0 h d k full rest :
  d = full ++ rest -> length full = (k * B)%nat -> (length rest < B)%nat ->
  hbytes h = u64 (len d) -> repr s0 h d ->
  Z.to_nat (hbytes h mod Z.of_nat B) = length rest.
Proof.
  intros -> Hf Hr Hb _. rewrite Hb, mod_u64. unfold len.
  rewrite length_app, Hf, <- Nat2Z.inj_mod, Nat2Z.id, Nat.add_comm, Nat.Div0.mod_add.
  now apply Nat.mod_small.
Qed.

(** After the first step the buffer is empty or no whole block can be completed. *)
Lemma Write_fill_repr s0 h d data :
  repr s0 h d ->
  exists h1 data1 r d1,
    Write_fill h data = (h1, data1, r) /\ repr s0 h1 d1 /\ d ++ data = d1 ++ data1 /\
    r = (length d1 mod B)%nat /\ (r = 0%nat \/ (r + length data1 < B)%nat).
Proof.
  intros R. pose proof R as (k & full & rest & Hd & Hf & Hr & Hs & Hbuf & Hlb & Hb).
  pose proof (repr_bufsize _ _ _ _ _ _ Hd Hf Hr Hb R) as Hsz.
  assert (Hmod : (length d mod B = length rest)%nat).
  { rewrite Hd, length_app, Hf, Nat.add_comm, Nat.Div0.mod_add. now apply Nat.mod_small. }
  unfold Write_fill. rewrite Hsz.
  destruct (negb (length rest =? 0)%nat && (B <=? length rest + length data)%nat) eqn:C.
  - zbool. set (n := (B - length rest)%nat).
    eexists _, _, _, (d ++ firstn n data). split; [reflexivity|].
    assert (Hn : length (firstn n data) = n) by (rewrite length_firstn; lia).
    assert (Hnew : length (d ++ firstn n data) = (S k * B)%nat).
    { rewrite length_app, Hn, Hd, length_app, Hf. nia. }
    assert (Hmem : memcpy (hbuf h) (length rest) (firstn n data) = rest ++ firstn n data).
    { unfold memcpy. rewrite Hbuf, Hn, skipn_all2 by lia. now rewrite app_nil_r. }
    repeat split.
    + exists (S k), (d ++ firstn n data), []. cbn [hs hbuf hbytes length firstn].
      rewrite app_nil_r. repeat split; auto.
      * rewrite Hmem, Hs, Hd, <- app_assoc, <- (Nat.add_1_r k).
        rewrite Transform_app by auto. cbn [Transform].
        rewrite (firstn_all2 (n := B) (rest ++ _)); [reflexivity|].
        rewrite length_app, Hn. lia.
      * rewrite Hmem, length_app, Hn. lia.
      * rewrite Hb, u64_add, len_app. do 2 f_equal. unfold len. now rewrite Hn.
    + now rewrite <- app_assoc, firstn_skipn.
    + rewrite Hnew. symmetry. apply Nat.Div0.mod_mul.
    + now left.
  - exists h, data, (length rest), d. rewrite Hmod. repeat split; auto.
    zbool. destruct C as [C|C]; zbool; [left; lia | right; lia].
Qed.

Lemma Write_blocks_repr s0 h d data :
  repr s0 h d -> (length d mod B = 0)%nat ->
  exists h1 data1 d1,
    Write_blocks h data = (h1, data1) /\ repr s0 h1 d1 /\ d ++ data = d1 ++ data1 /\
    (length d1 mod B = 0)%nat /\ (length data1 < B)%nat.
Proof.
  intros R Hm. pose proof R as (k & full & rest & Hd & Hf & Hr & Hs & Hbuf & Hlb & Hb).
  assert (rest = []) as ->.
  { apply length_zero_iff_nil. rewrite <- Hm, Hd, length_app, Hf, Nat.add_comm,
      Nat.Div0.mod_add. symmetry. now apply Nat.mod_small. }
  rewrite app_nil_r in Hd. subst full.
  unfold Write_blocks. destruct (B <=? length data)%nat eqn:C; zbool.
  - set (m := (length data / B)%nat).
    pose proof (Nat.div_mod_eq (length data) B). fold m in H.
    pose proof (Nat.mod_upper_bound (length data) B ltac:(lia)).
    assert (Hn : length (firstn (B * m) data) = (m * B)%nat) by (rewrite length_firstn; lia).
    eexists _, _, (d ++ firstn (B * m) data). split; [reflexivity|].
    repeat split.
    + exists (k + m)%nat, (d ++ firstn (B * m) data), []. cbn [hs hbuf hbytes length firstn].
      rewrite app_nil_r. repeat split; auto.
      * rewrite length_app, Hn, Hf. lia.
      * rewrite Hs, Transform_app by auto.
        pose proof (Transform_app (Transform s0 d k) m (firstn (B * m) data)
                      (skipn (B * m) data) 0 Hn) as T.
        now rewrite firstn_skipn, Nat.add_0_r in T.
      * rewrite Hb, u64_add, len_app. do 2 f_equal. unfold len. rewrite Hn. lia.
    + now rewrite <- app_assoc, firstn_skipn.
    + rewrite length_app, Hn, Hf, <- Nat.mul_add_distr_r. apply Nat.Div0.mod_mul.
    + rewrite length_skipn. lia.
  - exists h, data, d. auto 10.
Qed.

Lemma Write_rest_repr s0 h d data :
  repr s0 h d -> (length d mod B + length data < B)%nat ->
  repr s0 (if (0 <? length data)%nat
           then mkHasher (hs h) (memcpy (hbuf h) (length d mod B) data)
                  (u64 (hbytes h + Z.of_nat (length data)))
           else h) (d ++ data).
Proof.
  intros R Hl. pose proof R as (k & full & rest & Hd & Hf & Hr & Hs & Hbuf & Hlb & Hb).
  destruct data as [|x data]; [cbn; now rewrite app_nil_r|].
  assert (Hmod : (length d mod B = length rest)%nat).
  { rewrite Hd, length_app, Hf, Nat.add_comm, Nat.Div0.mod_add. now apply Nat.mod_small. }
  rewrite Hmod in *. cbn [Nat.ltb Nat.leb length].
  exists k, full, (rest ++ x :: data). cbn [hs hbuf hbytes].
  rewrite length_app. cbn [length] in *. repeat split; auto.
  - now rewrite Hd, <- app_assoc.
  - change (S (length data)) with (length (x :: data)).
    rewrite firstn_memcpy by lia. now rewrite Hbuf.
  - rewrite length_memcpy; cbn [length]; lia.
  - rewrite Hb, u64_add, len_app. reflexivity.
Qed.

(** [Write] appends to the represented input, whatever the split into calls. *)
Lemma Write_repr s0 h d data : repr s0 h d -> repr s0 (Write h data) (d ++ data).
Proof.
  intros R. unfold Write.
  destruct (Write_fill_repr s0 h d data R) as (h1 & data1 & r & d1 & -> & R1 & E & Hr & C).
  destruct (Nat.eq_dec r 0) as [Hr0|Hr0].
  - rewrite Hr in Hr0.
    destruct (Write_blocks_repr s0 h1 d1 data1 R1 Hr0)
      as (h2 & data2 & d2 & -> & R2 & E2 & Hm2 & Hl2).
    rewrite E, E2. replace r with (length d2 mod B)%nat by congruence.
    apply Write_rest_repr; auto. lia.
  - destruct C as [C|C]; [congruence|].
    unfold Write_blocks.
    destruct (B <=? length data1)%nat eqn:F; zbool; [lia|].
    rewrite E, Hr. apply Write_rest_repr; auto. lia.
Qed.

Lemma Writes_repr s0 h d chunks :
  repr s0 h d -> repr s0 (fold_left Write chunks h) (d ++ concat chunks).
Proof.
  revert h d; induction chunks as [|c cs IH]; intros h d R; cbn [fold_left concat].
  - now rewrite app_nil_r.
  - rewrite app_assoc. now apply IH, Write_repr.
Qed.

Lemma repr_init s0 buf0 : length buf0 = B -> repr s0 (mkHasher s0 buf0 0) [].
Proof. intros H. exists 0%nat, [], []. cbn. repeat split; auto. Qed.

Lemma repr_digest_state s0 h d :
  repr s0 h d -> (length d mod B = 0)%nat -> hs h = Transform s0 d (length d / B).
Proof.
  intros (k & full & rest & Hd & Hf & Hr & Hs & Hbuf & Hlb & Hb) Hm.
  assert (rest = []) as ->.
  { apply length_zero_iff_nil. rewrite <- Hm, Hd, length_app, Hf, Nat.add_comm,
      Nat.Div0.mod_add. symmetry. now apply Nat.mod_small. }
  rewrite app_nil_r in Hd. subst full. rewrite Hs, Hf. f_equal.
  now rewrite Nat.div_mul by lia.
Qed.

Context (sizedesc_length : forall x, length (sizedesc x) = L) (L_small : (L < B)%nat).

Lemma pad_message_length d : (length (pad_message d) mod B = 0)%nat.
Proof.
  unfold pad_message. rewrite !length_app, length_firstn, sizedesc_length.
  unfold pad. cbn [length]. rewrite repeat_length. unfold len.
  set (n := length d).
  rewrite <- Nat2Z.inj_mod.
  pose proof (Nat.mod_upper_bound n B ltac:(lia)).
  replace (2 * Z.of_nat B - 1 - Z.of_nat L - Z.of_nat (n mod B))
    with (Z.of_nat (2 * B - 1 - L - n mod B)) by lia.
  rewrite <- Nat2Z.inj_mod, Nat2Z.id.
  set (x := (2 * B - 1 - L - n mod B)%nat).
  pose proof (Nat.mod_upper_bound x B ltac:(lia)).
  rewrite Nat.min_l by lia.
  pose proof (Nat.div_mod_eq n B). pose proof (Nat.div_mod_eq x B).
  replace (n + (1 + x mod B + L))%nat with ((n / B + 2 - x / B) * B)%nat; [apply Nat.Div0.mod_mul|].
  assert (x / B <= 1)%nat by (apply Nat.lt_succ_r, Nat.Div0.div_lt_upper_bound; lia).
  nia.
Qed.

(** [Finalize] computes the digest of what was written. *)
Lemma Finalize_repr s0 h d : repr s0 h d -> Finalize h = digest s0 d.
Proof.
  intros R. pose proof R as (k & full & rest & Hd & Hf & Hr & Hs & Hbuf & Hlb & Hb).
  unfold Finalize, digest. f_equal.
  rewrite Hb, mod_u64.
  assert (R2 := Write_repr s0 _ _ (sizedesc (shl64 (u64 (len d)) 3))
                  (Write_repr s0 h d (firstn (1 + Z.to_nat
                     ((2 * Z.of_nat B - 1 - Z.of_nat L - len d mod Z.of_nat B)
                      mod Z.of_nat B)) pad) R)).
  rewrite <- app_assoc in R2.
  exact (repr_digest_state _ _ _ R2 (pad_message_length d)).
Qed.

(** A hasher built from the chaining state reached after whole blocks, and from
    their size, represents those blocks. *)
Lemma repr_resume s0 d buf0 :
  (length d mod B = 0)%nat -> length buf0 = B ->
  repr s0 (mkHasher (Transform s0 d (length d / B)) buf0 (u64 (len d))) d.
Proof using B_pos.
  intros Hm Hl. exists (length d / B)%nat, d, [].
  cbn [hs hbuf hbytes length firstn]. rewrite app_nil_r. repeat split; auto.
  pose proof (Nat.div_mod_eq (length d) B). rewrite Hm in *. clear - H. lia.
Qed.

End BlockHasher.

Arguments hasher : clear implicits.
Arguments mkHasher {St}.

(** ** Blocks of 64 bytes with a length of 8 bytes

    The padding as the standards state it: a one bit, zeros up to 56 modulo 64,
    the length in bits. *)
Definition std_pad (sizedesc : Z -> bytes) (d : bytes) : bytes :=
  d ++ [0x80] ++ repeat 0 (Z.to_nat ((55 - len d) mod 64)) ++ sizedesc (u64 (8 * len d)).

(** The digest as the standards state it. *)
Definition std_digest {St} (compress : St -> bytes -> St) (sizedesc : Z -> bytes)
    (output : St -> bytes) (s0 : St) (d : bytes) : bytes :=
  let m := std_pad sizedesc d in
  output (fst (Nat.iter (length m / 64)
                 (fun '(s, m) => (compress s (firstn 64 m), skipn 64 m)) (s0, m))).

Lemma pad_std sizedesc d : pad_message 64 sizedesc 8 d = std_pad sizedesc d.
Proof.
  unfold pad_message, std_pad, pad. cbn [firstn Nat.add Nat.sub]. f_equal. cbn [app]. f_equal.
  replace ((2 * Z.of_nat 64 - 1 - Z.of_nat 8 - len d mod Z.of_nat 64) mod Z.of_nat 64)
    with ((55 - len d) mod 64).
  2:{ change (Z.of_nat 64) with 64. change (Z.of_nat 8) with 8.
      rewrite <- (Z.mod_add (55 - len d) 1 64), (Zminus_mod_idemp_r _ (len d)) by lia.
      f_equal. lia. }
  f_equal.
  - rewrite firstn_repeat. f_equal.
    pose proof (Z.mod_pos_bound (55 - len d) 64 ltac:(lia)). lia.
  - f_equal. unfold shl64. rewrite !u64_mod, Z.shiftl_mul_pow2 by lia.
    rewrite Zmult_mod_idemp_l. f_equal. lia.
Qed.

Lemma Transform_iter {St} (f g : St -> bytes -> St) s d n :
  (forall s b, f s b = g s b) ->
  Transform 64 f s d n =
  fst (Nat.iter n (fun '(s, m) => (g s (firstn 64 m), skipn 64 m)) (s, d)).
Proof.
  intros E. revert s d; induction n as [|n IH]; intros s d; [reflexivity|].
  cbn [Transform]. rewrite IH, E.
  change (g s (firstn 64 d), skipn 64 d) with
    ((fun '(s, m) => (g s (firstn 64 m), skipn 64 m)) (s, d)).
  now rewrite <- Nat.iter_succ_r.
Qed.

Section Standard.
Context {St : Type} (Transform1 compress : St -> bytes -> St).
Context (sizedesc : Z -> bytes) (output : St -> bytes) (Initialize : St).
Context (compress_eq : forall s b, Transform1 s b = compress s b).
Context (sizedesc_length : forall x, length (sizedesc x) = 8%nat).

Lemma div64 : (Z.of_nat 64 | 2 ^ 64).
Proof. now exists (2 ^ 58). Qed.

Lemma Finalize_std h d :
  repr 64 Transform1 Initialize h d ->
  Finalize 64 Transform1 sizedesc output 8 h = std_digest compress sizedesc output Initialize d.
Proof.
  intros R. rewrite (Finalize_repr 64) with (s0 := Initialize) (d := d)
    by (auto using div64; lia).
  unfold digest, std_digest. now rewrite pad_std, (Transform_iter _ compress).
Qed.

(** What every class computes, in whatever pieces the data comes. *)
Lemma Finalize_Writes buf0 chunks :
  length buf0 = 64%nat ->
  Finalize 64 Transform1 sizedesc output 8
    (fold_left (Write 64 Transform1) chunks (mkHasher Initialize buf0 0)) =
  std_digest compress sizedesc output Initialize (concat chunks).
Proof.
  intros H. apply Finalize_std. change (concat chunks) with ([] ++ concat chunks).
  apply Writes_repr; [lia | apply div64 |]. apply repr_init; [lia | exact H].
Qed.

Lemma FinalizeLoop_Writes buf0 chunks :
  length buf0 = 64%nat ->
  FinalizeLoop 64 Transform1 sizedesc output 8
    (fold_left (WriteLoop 64 Transform1) chunks (mkHasher Initialize buf0 0)) =
  std_digest compress sizedesc output Initialize (concat chunks).
Proof.
  intros H. rewrite FinalizeLoop_Finalize by first [apply div64 | lia].
  rewrite <- (Finalize_Writes buf0) by exact H. f_equal.
  generalize (mkHasher Initialize buf0 0). induction chunks as [|c cs IH]; intros h; cbn; auto.
  rewrite WriteLoop_Write by first [lia | apply div64]. apply IH.
Qed.

End Standard.
