(* ===== verification/Sha256.v ===== *)
(** * SHA-256 (src/src/crypto/sha256.cpp)

    [Module Sha256] translates the portable implementation: the round functions,
    the 64 unrolled rounds of [sha256::Transform], the class [CSHA256] with its
    resuming constructor (the one behind the opcode [OP_PARTIAL_HASH]) and the
    start-up self test.  The unrolled rounds are proved equal to the compression
    function of FIPS 180-4, and the class to the digest of the bytes written. *)

From S2P Require Import Prelude Endian Hasher.

Module Sha256.
Local Open Scope word_scope.

(** ** Definitions *)

Definition Ch (x y z : Z) : Z := z ^^^ (x &&& (y ^^^ z)).
Definition Maj (x y z : Z) : Z := (x &&& y) ||| (z &&& (x ||| y)).
Definition Sigma0 (x : Z) : Z :=
  ((x >>> 2) ||| (x <<< 30)) ^^^ ((x >>> 13) ||| (x <<< 19)) ^^^ ((x >>> 22) ||| (x <<< 10)).
Definition Sigma1 (x : Z) : Z :=
  ((x >>> 6) ||| (x <<< 26)) ^^^ ((x >>> 11) ||| (x <<< 21)) ^^^ ((x >>> 25) ||| (x <<< 7)).
Definition sigma0 (x : Z) : Z :=
  ((x >>> 7) ||| (x <<< 25)) ^^^ ((x >>> 18) ||| (x <<< 14)) ^^^ (x >>> 3).
Definition sigma1 (x : Z) : Z :=
  ((x >>> 17) ||| (x <<< 15)) ^^^ ((x >>> 19) ||| (x <<< 13)) ^^^ (x >>> 10).

(** One round; the two variables it assigns are returned. *)
Definition Round (a b c d e f g h k w : Z) : Z * Z :=
  let t1 := u32 (h + Sigma1 e + Ch e f g + k + w) in
  let t2 := u32 (Sigma0 a + Maj a b c) in
  (u32 (d + t1), u32 (t1 + t2)).

(** [uint32_t s[8]] *)
Record Regs := mk8 { r0 : Z; r1 : Z; r2 : Z; r3 : Z; r4 : Z; r5 : Z; r6 : Z; r7 : Z }.

Definition Initialize : Regs :=
  mk8 0x6a09e667 0xbb67ae85 0x3c6ef372 0xa54ff53a
      0x510e527f 0x9b05688c 0x1f83d9ab 0x5be0cd19.

(** The body of [sha256::Transform] on one 64-byte chunk. *)
Definition Transform1 (s : Regs) (chunk : bytes) : Regs :=
  let '(mk8 a b c d e f g h) := s in
  var w0 ::= ReadBE32 chunk ;;
  let '(d, h) := Round a b c d e f g h 0x428a2f98 w0 in
  var w1 ::= ReadBE32 (skipn 4 chunk) ;;
  let '(c, g) := Round h a b c d e f g 0x71374491 w1 in
  var w2 ::= ReadBE32 (skipn 8 chunk) ;;
  let '(b, f) := Round g h a b c d e f 0xb5c0fbcf w2 in
  var w3 ::= ReadBE32 (skipn 12 chunk) ;;
  let '(a, e) := Round f g h a b c d e 0xe9b5dba5 w3 in
  var w4 ::= ReadBE32 (skipn 16 chunk) ;;
  let '(h, d) := Round e f g h a b c d 0x3956c25b w4 in
  var w5 ::= ReadBE32 (skipn 20 chunk) ;;
  let '(g, c) := Round d e f g h a b c 0x59f111f1 w5 in
  var w6 ::= ReadBE32 (skipn 24 chunk) ;;
  let '(f, b) := Round c d e f g h a b 0x923f82a4 w6 in
  var w7 ::= ReadBE32 (skipn 28 chunk) ;;
  let '(e, a) := Round b c d e f g h a 0xab1c5ed5 w7 in
  var w8 ::= ReadBE32 (skipn 32 chunk) ;;
  let '(d, h) := Round a b c d e f g h 0xd807aa98 w8 in
  var w9 ::= ReadBE32 (skipn 36 chunk) ;;
  let '(c, g) := Round h a b c d e f g 0x12835b01 w9 in
  var w10 ::= ReadBE32 (skipn 40 chunk) ;;
  let '(b, f) := Round g h a b c d e f 0x243185be w10 in
  var w11 ::= ReadBE32 (skipn 44 chunk) ;;
  let '(a, e) := Round f g h a b c d e 0x550c7dc3 w11 in
  var w12 ::= ReadBE32 (skipn 48 chunk) ;;
  let '(h, d) := Round e f g h a b c d 0x72be5d74 w12 in
  var w13 ::= ReadBE32 (skipn 52 chunk) ;;
  let '(g, c) := Round d e f g h a b c 0x80deb1fe w13 in
  var w14 ::= ReadBE32 (skipn 56 chunk) ;;
  let '(f, b) := Round c d e f g h a b 0x9bdc06a7 w14 in
  var w15 ::= ReadBE32 (skipn 60 chunk) ;;
  let '(e, a) := Round b c d e f g h a 0xc19bf174 w15 in
  var w0 ::= u32 (w0 + (sigma1 w14 + w9 + sigma0 w1)) ;;
  let '(d, h) := Round a b c d e f g h 0xe49b69c1 w0 in
  var w1 ::= u32 (w1 + (sigma1 w15 + w10 + sigma0 w2)) ;;
  let '(c, g) := Round h a b c d e f g 0xefbe4786 w1 in
  var w2 ::= u32 (w2 + (sigma1 w0 + w11 + sigma0 w3)) ;;
  let '(b, f) := Round g h a b c d e f 0x0fc19dc6 w2 in
  var w3 ::= u32 (w3 + (sigma1 w1 + w12 + sigma0 w4)) ;;
  let '(a, e) := Round f g h a b c d e 0x240ca1cc w3 in
  var w4 ::= u32 (w4 + (sigma1 w2 + w13 + sigma0 w5)) ;;
  let '(h, d) := Round e f g h a b c d 0x2de92c6f w4 in
  var w5 ::= u32 (w5 + (sigma1 w3 + w14 + sigma0 w6)) ;;
  let '(g, c) := Round d e f g h a b c 0x4a7484aa w5 in
  var w6 ::= u32 (w6 + (sigma1 w4 + w15 + sigma0 w7)) ;;
  let '(f, b) := Round c d e f g h a b 0x5cb0a9dc w6 in
  var w7 ::= u32 (w7 + (sigma1 w5 + w0 + sigma0 w8)) ;;
  let '(e, a) := Round b c d e f g h a 0x76f988da w7 in
  var w8 ::= u32 (w8 + (sigma1 w6 + w1 + sigma0 w9)) ;;
  let '(d, h) := Round a b c d e f g h 0x983e5152 w8 in
  var w9 ::= u32 (w9 + (sigma1 w7 + w2 + sigma0 w10)) ;;
  let '(c, g) := Round h a b c d e f g 0xa831c66d w9 in
  var w10 ::= u32 (w10 + (sigma1 w8 + w3 + sigma0 w11)) ;;
  let '(b, f) := Round g h a b c d e f 0xb00327c8 w10 in
  var w11 ::= u32 (w11 + (sigma1 w9 + w4 + sigma0 w12)) ;;
  let '(a, e) := Round f g h a b c d e 0xbf597fc7 w11 in
  var w12 ::= u32 (w12 + (sigma1 w10 + w5 + sigma0 w13)) ;;
  let '(h, d) := Round e f g h a b c d 0xc6e00bf3 w12 in
  var w13 ::= u32 (w13 + (sigma1 w11 + w6 + sigma0 w14)) ;;
  let '(g, c) := Round d e f g h a b c 0xd5a79147 w13 in
  var w14 ::= u32 (w14 + (sigma1 w12 + w7 + sigma0 w15)) ;;
  let '(f, b) := Round c d e f g h a b 0x06ca6351 w14 in
  var w15 ::= u32 (w15 + (sigma1 w13 + w8 + sigma0 w0)) ;;
  let '(e, a) := Round b c d e f g h a 0x14292967 w15 in
  var w0 ::= u32 (w0 + (sigma1 w14 + w9 + sigma0 w1)) ;;
  let '(d, h) := Round a b c d e f g h 0x27b70a85 w0 in
  var w1 ::= u32 (w1 + (sigma1 w15 + w10 + sigma0 w2)) ;;
  let '(c, g) := Round h a b c d e f g 0x2e1b2138 w1 in
  var w2 ::= u32 (w2 + (sigma1 w0 + w11 + sigma0 w3)) ;;
  let '(b, f) := Round g h a b c d e f 0x4d2c6dfc w2 in
  var w3 ::= u32 (w3 + (sigma1 w1 + w12 + sigma0 w4)) ;;
  let '(a, e) := Round f g h a b c d e 0x53380d13 w3 in
  var w4 ::= u32 (w4 + (sigma1 w2 + w13 + sigma0 w5)) ;;
  let '(h, d) := Round e f g h a b c d 0x650a7354 w4 in
  var w5 ::= u32 (w5 + (sigma1 w3 + w14 + sigma0 w6)) ;;
  let '(g, c) := Round d e f g h a b c 0x766a0abb w5 in
  var w6 ::= u32 (w6 + (sigma1 w4 + w15 + sigma0 w7)) ;;
  let '(f, b) := Round c d e f g h a b 0x81c2c92e w6 in
  var w7 ::= u32 (w7 + (sigma1 w5 + w0 + sigma0 w8)) ;;
  let '(e, a) := Round b c d e f g h a 0x92722c85 w7 in
  var w8 ::= u32 (w8 + (sigma1 w6 + w1 + sigma0 w9)) ;;
  let '(d, h) := Round a b c d e f g h 0xa2bfe8a1 w8 in
  var w9 ::= u32 (w9 + (sigma1 w7 + w2 + sigma0 w10)) ;;
  let '(c, g) := Round h a b c d e f g 0xa81a664b w9 in
  var w10 ::= u32 (w10 + (sigma1 w8 + w3 + sigma0 w11)) ;;
  let '(b, f) := Round g h a b c d e f 0xc24b8b70 w10 in
  var w11 ::= u32 (w11 + (sigma1 w9 + w4 + sigma0 w12)) ;;
  let '(a, e) := Round f g h a b c d e 0xc76c51a3 w11 in
  var w12 ::= u32 (w12 + (sigma1 w10 + w5 + sigma0 w13)) ;;
  let '(h, d) := Round e f g h a b c d 0xd192e819 w12 in
  var w13 ::= u32 (w13 + (sigma1 w11 + w6 + sigma0 w14)) ;;
  let '(g, c) := Round d e f g h a b c 0xd6990624 w13 in
  var w14 ::= u32 (w14 + (sigma1 w12 + w7 + sigma0 w15)) ;;
  let '(f, b) := Round c d e f g h a b 0xf40e3585 w14 in
  var w15 ::= u32 (w15 + (sigma1 w13 + w8 + sigma0 w0)) ;;
  let '(e, a) := Round b c d e f g h a 0x106aa070 w15 in
  var w0 ::= u32 (w0 + (sigma1 w14 + w9 + sigma0 w1)) ;;
  let '(d, h) := Round a b c d e f g h 0x19a4c116 w0 in
  var w1 ::= u32 (w1 + (sigma1 w15 + w10 + sigma0 w2)) ;;
  let '(c, g) := Round h a b c d e f g 0x1e376c08 w1 in
  var w2 ::= u32 (w2 + (sigma1 w0 + w11 + sigma0 w3)) ;;
  let '(b, f) := Round g h a b c d e f 0x2748774c w2 in
  var w3 ::= u32 (w3 + (sigma1 w1 + w12 + sigma0 w4)) ;;
  let '(a, e) := Round f g h a b c d e 0x34b0bcb5 w3 in
  var w4 ::= u32 (w4 + (sigma1 w2 + w13 + sigma0 w5)) ;;
  let '(h, d) := Round e f g h a b c d 0x391c0cb3 w4 in
  var w5 ::= u32 (w5 + (sigma1 w3 + w14 + sigma0 w6)) ;;
  let '(g, c) := Round d e f g h a b c 0x4ed8aa4a w5 in
  var w6 ::= u32 (w6 + (sigma1 w4 + w15 + sigma0 w7)) ;;
  let '(f, b) := Round c d e f g h a b 0x5b9cca4f w6 in
  var w7 ::= u32 (w7 + (sigma1 w5 + w0 + sigma0 w8)) ;;
  let '(e, a) := Round b c d e f g h a 0x682e6ff3 w7 in
  var w8 ::= u32 (w8 + (sigma1 w6 + w1 + sigma0 w9)) ;;
  let '(d, h) := Round a b c d e f g h 0x748f82ee w8 in
  var w9 ::= u32 (w9 + (sigma1 w7 + w2 + sigma0 w10)) ;;
  let '(c, g) := Round h a b c d e f g 0x78a5636f w9 in
  var w10 ::= u32 (w10 + (sigma1 w8 + w3 + sigma0 w11)) ;;
  let '(b, f) := Round g h a b c d e f 0x84c87814 w10 in
  var w11 ::= u32 (w11 + (sigma1 w9 + w4 + sigma0 w12)) ;;
  let '(a, e) := Round f g h a b c d e 0x8cc70208 w11 in
  var w12 ::= u32 (w12 + (sigma1 w10 + w5 + sigma0 w13)) ;;
  let '(h, d) := Round e f g h a b c d 0x90befffa w12 in
  var w13 ::= u32 (w13 + (sigma1 w11 + w6 + sigma0 w14)) ;;
  let '(g, c) := Round d e f g h a b c 0xa4506ceb w13 in
  let '(f, b) := Round c d e f g h a b 0xbef9a3f7 (u32 (w14 + sigma1 w12 + w7 + sigma0 w15)) in
  let '(e, a) := Round b c d e f g h a 0xc67178f2 (u32 (w15 + sigma1 w13 + w8 + sigma0 w0)) in
  mk8 (u32 (r0 s + a)) (u32 (r1 s + b)) (u32 (r2 s + c)) (u32 (r3 s + d))
      (u32 (r4 s + e)) (u32 (r5 s + f)) (u32 (r6 s + g)) (u32 (r7 s + h)).

(** [sha256::Transform(s, chunk, blocks)] *)
Definition Transform : Regs -> bytes -> nat -> Regs := Hasher.Transform 64 Transform1.

Definition CSHA256 : Type := hasher Regs.

(** [CSHA256::CSHA256()]; [buf0] is what the uninitialised buffer holds. *)
Definition CSHA256_init (buf0 : bytes) : CSHA256 := mkHasher Initialize buf0 0.

(** [CSHA256::CSHA256(partial_hash, hash_size)] *)
Definition CSHA256_partial (buf0 partial_hash hash_size : bytes) : CSHA256 :=
  mkHasher
    (mk8 (ReadBE32 partial_hash) (ReadBE32 (skipn 4 partial_hash))
         (ReadBE32 (skipn 8 partial_hash)) (ReadBE32 (skipn 12 partial_hash))
         (ReadBE32 (skipn 16 partial_hash)) (ReadBE32 (skipn 20 partial_hash))
         (ReadBE32 (skipn 24 partial_hash)) (ReadBE32 (skipn 28 partial_hash)))
    buf0 (ReadLE64 hash_size).

Definition CSHA256_Write : CSHA256 -> bytes -> CSHA256 := Write 64 Transform1.

(** The eight [WriteBE32] calls that end [Finalize]. *)
Definition output (s : Regs) : bytes :=
  WriteBE32 (r0 s) ++ WriteBE32 (r1 s) ++ WriteBE32 (r2 s) ++ WriteBE32 (r3 s) ++
  WriteBE32 (r4 s) ++ WriteBE32 (r5 s) ++ WriteBE32 (r6 s) ++ WriteBE32 (r7 s).

Definition CSHA256_Finalize : CSHA256 -> bytes := Finalize 64 Transform1 WriteBE64 output 8.

(** [CSHA256::Reset] *)
Definition CSHA256_Reset (h : CSHA256) : CSHA256 := mkHasher Initialize (hbuf h) 0.

(** The common use [CSHA256().Write(data, len).Finalize(hash)]. *)
Definition sha256_with (buf0 data : bytes) : bytes :=
  CSHA256_Finalize (CSHA256_Write (CSHA256_init buf0) data).

Definition sha256 : bytes -> bytes := sha256_with (repeat 0 64).

(** [SelfTest]: [tr] is run on the padded empty string and on 64 spaces. *)
Definition SelfTest (tr : Regs -> bytes -> nat -> Regs) : bool :=
  let in1 := 0x80 :: repeat 0 63 in
  let in2 := repeat 32 64 ++ 0x80 :: repeat 0 61 ++ [2; 0] in
  let out1 := mk8 0xe3b0c442 0x98fc1c14 0x9afbf4c8 0x996fb924
                  0x27ae41e4 0x649b934c 0xa495991b 0x7852b855 in
  let out2 := mk8 0xce4153b0 0x147c2a86 0x3ed4298e 0xe0676bc8
                  0x79fc77a1 0x2abe1f49 0xb2b055df 0x1069523e in
  let memeq x y := forallb (fun p => fst p =? snd p)
    (combine [r0 x; r1 x; r2 x; r3 x; r4 x; r5 x; r6 x; r7 x]
             [r0 y; r1 y; r2 y; r3 y; r4 y; r5 y; r6 y; r7 y]) in
  memeq (tr Initialize [] 0%nat) Initialize &&
  memeq (tr Initialize in1 1%nat) out1 &&
  memeq (tr Initialize in2 2%nat) out2.

(** ** Reference: FIPS 180-4, sections 4.1.2 and 6.2.2

    The message schedule is kept as the window of its last sixteen words. *)

Definition fips_Ch (x y z : Z) : Z := (x &&& y) ^^^ (Z.lnot x &&& z).
Definition fips_Maj (x y z : Z) : Z := (x &&& y) ^^^ (x &&& z) ^^^ (y &&& z).
Definition ROTR (n x : Z) : Z := (x >>> n) ||| (x <<< (32 - n)).
Definition fips_Sigma0 (x : Z) : Z := ROTR 2 x ^^^ ROTR 13 x ^^^ ROTR 22 x.
Definition fips_Sigma1 (x : Z) : Z := ROTR 6 x ^^^ ROTR 11 x ^^^ ROTR 25 x.
Definition fips_sigma0 (x : Z) : Z := ROTR 7 x ^^^ ROTR 18 x ^^^ (x >>> 3).
Definition fips_sigma1 (x : Z) : Z := ROTR 17 x ^^^ ROTR 19 x ^^^ (x >>> 10).

Definition primes64 : list Z :=
  [2; 3; 5; 7; 11; 13; 17; 19; 23; 29; 31; 37; 41; 43; 47; 53;
   59; 61; 67; 71; 73; 79; 83; 89; 97; 101; 103; 107; 109; 113; 127; 131;
   137; 139; 149; 151; 157; 163; 167; 173; 179; 181; 191; 193; 197; 199; 211; 223;
   227; 229; 233; 239; 241; 251; 257; 263; 269; 271; 277; 281; 283; 293; 307; 311].

(** The integer cube root below [2 ^ n], bit by bit. *)
Fixpoint icbrt_bits (n : nat) (x r : Z) : Z :=
  match n with
  | O => r
  | S n' =>
      let r' := r + 2 ^ Z.of_nat n' in
      icbrt_bits n' x (if r' * r' * r' <=? x then r' else r)
  end.

(** The first 32 bits of the fractional parts of the cube roots of the first 64
    primes (section 4.2.2). *)
Definition fips_K : list Z := map (fun p => u32 (icbrt_bits 40 (p * 2 ^ 96) 0)) primes64.

Definition fips_step (r : Regs) (k w : Z) : Regs :=
  let '(mk8 a b c d e f g h) := r in
  let T1 := u32 (h + fips_Sigma1 e + fips_Ch e f g + k + w) in
  let T2 := u32 (fips_Sigma0 a + fips_Maj a b c) in
  mk8 (u32 (T1 + T2)) a b c (u32 (d + T1)) e f g.

(** [W_t = sigma1(W_(t-2)) + W_(t-7) + sigma0(W_(t-15)) + W_(t-16)] *)
Definition fips_word (win : list Z) : Z :=
  u32 (fips_sigma1 (nth 14 win 0) + nth 9 win 0 + fips_sigma0 (nth 1 win 0) + nth 0 win 0).

Fixpoint fips_rounds (ks win : list Z) (r : Regs) : Regs :=
  match ks, win with
  | k :: ks', w :: win' => fips_rounds ks' (win' ++ [fips_word win]) (fips_step r k w)
  | _, _ => r
  end.

Definition fips_compress (s : Regs) (chunk : bytes) : Regs :=
  let win := map (fun i => ReadBE32 (skipn (4 * i) chunk)) (seq 0 16) in
  let '(mk8 a b c d e f g h) := fips_rounds fips_K win s in
  mk8 (u32 (r0 s + a)) (u32 (r1 s + b)) (u32 (r2 s + c)) (u32 (r3 s + d))
      (u32 (r4 s + e)) (u32 (r5 s + f)) (u32 (r6 s + g)) (u32 (r7 s + h)).

Definition fips_sha256 : bytes -> bytes :=
  std_digest fips_compress WriteBE64 output Initialize.

(** ** Lemmas *)

Lemma Ch_fips x y z : Ch x y z = fips_Ch x y z.
Proof.
  unfold Ch, fips_Ch. apply Z.bits_inj'; intros n Hn.
  rewrite !Z.lxor_spec, !Z.land_spec, !Z.lxor_spec, Z.lnot_spec by lia.
  now destruct (Z.testbit x n), (Z.testbit y n), (Z.testbit z n).
Qed.

Lemma Maj_fips x y z : Maj x y z = fips_Maj x y z.
Proof.
  unfold Maj, fips_Maj. apply Z.bits_inj'; intros n Hn.
  rewrite !Z.lxor_spec, !Z.lor_spec, !Z.land_spec, !Z.lor_spec.
  now destruct (Z.testbit x n), (Z.testbit y n), (Z.testbit z n).
Qed.

(** A macro call of the source assigns the registers that the step of the
    standard moves to the fifth and the first place. *)
Lemma fips_step_Round a b c d e f g h k w :
  fips_step (mk8 a b c d e f g h) k w =
  let '(d', h') := Round a b c d e f g h k w in mk8 h' a b c d' e f g.
Proof. unfold fips_step, Round. now rewrite Ch_fips, Maj_fips. Qed.

Lemma fips_word_eq w0 w1 w2 w3 w4 w5 w6 w7 w8 w9 w10 w11 w12 w13 w14 w15 :
  fips_word [w0; w1; w2; w3; w4; w5; w6; w7; w8; w9; w10; w11; w12; w13; w14; w15] =
  u32 (w0 + (sigma1 w14 + w9 + sigma0 w1)).
Proof.
  unfold fips_word; cbn [nth]. f_equal.
  change (fips_sigma1 w14) with (sigma1 w14). change (fips_sigma0 w1) with (sigma0 w1). lia.
Qed.

Lemma fips_rounds_Round ks k a b c d e f g h
    w0 w1 w2 w3 w4 w5 w6 w7 w8 w9 w10 w11 w12 w13 w14 w15 :
  fips_rounds (k :: ks)
    [w0; w1; w2; w3; w4; w5; w6; w7; w8; w9; w10; w11; w12; w13; w14; w15]
    (mk8 a b c d e f g h) =
  let '(d', h') := Round a b c d e f g h k w0 in
  fips_rounds ks
    [w1; w2; w3; w4; w5; w6; w7; w8; w9; w10; w11; w12; w13; w14; w15;
     u32 (w0 + (sigma1 w14 + w9 + sigma0 w1))]
    (mk8 h' a b c d' e f g).
Proof.
  cbn [fips_rounds]. rewrite fips_step_Round, fips_word_eq.
  now destruct (Round a b c d e f g h k w0).
Qed.

(** One line of the source on both sides, the new registers or the new word of
    the schedule replaced by variables so that terms stay small. *)
Ltac source_line :=
  lazymatch goal with
  | |- assign _ _ = _ => abstract_assign
  | |- (let '(_, _) := Round ?a ?b ?c ?d ?e ?f ?g ?h ?k ?w in _) = _ =>
      rewrite fips_rounds_Round; destruct (Round a b c d e f g h k w); cbv beta match
  end.

(** The unrolled rounds compute the compression function of the standard. *)
Lemma Transform1_fips s chunk : Transform1 s chunk = fips_compress s chunk.
Proof.
  destruct s as [a b c d e f g h]. cbv delta [fips_compress].
  let k := eval vm_compute in fips_K in change fips_K with k.
  cbn [map seq Nat.mul Nat.add]. change (skipn 0 chunk) with chunk.
  cbv delta [Transform1]. cbv beta match.
  do 124 source_line. rewrite !Z.add_assoc. do 2 source_line. reflexivity.
Qed.

(** The registers are 32-bit words. *)
Definition regs_ok (s : Regs) : Prop :=
  Forall (fun x => 0 <= x < 2 ^ 32) [r0 s; r1 s; r2 s; r3 s; r4 s; r5 s; r6 s; r7 s].

Lemma fips_compress_ok s chunk : regs_ok (fips_compress s chunk).
Proof.
  unfold fips_compress. cbv zeta. destruct (fips_rounds _ _ _).
  unfold regs_ok. repeat constructor; cbn [r0 r1 r2 r3 r4 r5 r6 r7]; apply u32_range.
Qed.

Lemma Transform_ok s d n : regs_ok s -> regs_ok (Transform s d n).
Proof.
  unfold Transform. revert s d; induction n as [|n IH]; intros s d H; [exact H|].
  cbn [Hasher.Transform]. apply IH. rewrite Transform1_fips. apply fips_compress_ok.
Qed.

Lemma Initialize_ok : regs_ok Initialize.
Proof. unfold regs_ok. repeat constructor; cbn; lia. Qed.

Lemma length_output s : length (output s) = 32%nat.
Proof. reflexivity. Qed.

Lemma fips_sha256_ok d : bytes_ok (fips_sha256 d).
Proof.
  unfold fips_sha256, std_digest. cbv zeta. unfold output. rewrite !bytes_ok_app. auto 10 using WriteBE32_ok.
Qed.

(** Reading a state back from its serialisation. *)
Lemma CSHA256_partial_output buf0 s n :
  regs_ok s -> 0 <= n < 2 ^ 64 ->
  CSHA256_partial buf0 (output s) (WriteLE64 n) = mkHasher s buf0 n.
Proof.
  intros H Hn. destruct s as [a b c d e f g h].
  unfold regs_ok in H. cbn [r0 r1 r2 r3 r4 r5 r6 r7] in H.
  repeat match goal with H : Forall _ (_ :: _) |- _ => inversion_clear H end.
  unfold CSHA256_partial. f_equal.
  - f_equal; first [eapply (ReadBE32_at _ 0) | eapply ReadBE32_at]; (reflexivity || lia).
  - rewrite <- (app_nil_r (WriteLE64 n)), ReadLE64_WriteLE64. now apply Z.mod_small.
Qed.

(** ** Theorems *)

(** C31: whatever the pieces in which the data is written and whatever the fresh
    object's buffer held, [CSHA256] computes the SHA-256 of FIPS 180-4. *)
Theorem CSHA256_correct (buf0 : bytes) (chunks : list bytes) :
  length buf0 = 64%nat ->
  CSHA256_Finalize (fold_left CSHA256_Write chunks (CSHA256_init buf0)) =
  fips_sha256 (concat chunks).
Proof.
  exact (Finalize_Writes _ _ _ _ _ Transform1_fips length_WriteBE64 buf0 chunks).
Qed.

Lemma CSHA256_correct_witness :
  CSHA256_Finalize (fold_left CSHA256_Write [[97]; [98; 99]] (CSHA256_init (repeat 7 64))) =
  fips_sha256 [97; 98; 99].
Proof. exact (CSHA256_correct (repeat 7 64) [[97]; [98; 99]] eq_refl). Defined.

(** An object resumed from the serialised state reached after whole blocks
    and from the size of those blocks, as [OP_PARTIAL_HASH] does, finishes with
    the SHA-256 of the whole message. *)
Lemma CSHA256_partial_resumes (buf0 prefix rest : bytes) :
  length buf0 = 64%nat -> (length prefix mod 64 = 0)%nat -> len prefix < 2 ^ 64 ->
  CSHA256_Finalize
    (CSHA256_Write
       (CSHA256_partial buf0 (output (Transform Initialize prefix (length prefix / 64)))
          (WriteLE64 (len prefix))) rest) =
  fips_sha256 (prefix ++ rest).
Proof.
  intros Hb Hp Hl. pose proof (len_nonneg prefix).
  rewrite CSHA256_partial_output by (auto using Transform_ok, Initialize_ok; lia).
  apply (Finalize_std _ _ _ _ _ Transform1_fips length_WriteBE64).
  apply Write_repr; [lia | apply div64 |].
  rewrite <- (u64_small (len prefix)) by lia. apply repr_resume; (assumption || lia).
Qed.

(** One piece. *)
Lemma CSHA256_digest buf0 d :
  length buf0 = 64%nat -> CSHA256_Finalize (CSHA256_Write (CSHA256_init buf0) d) = fips_sha256 d.
Proof.
  intros Hb. pose proof (Finalize_Writes _ _ _ output Initialize Transform1_fips length_WriteBE64 buf0 [d] Hb) as E.
  cbn [concat] in E. rewrite app_nil_r in E. exact E.
Qed.

(** The start-up assertion holds of the portable implementation. *)
Lemma SelfTest_Transform : SelfTest Transform = true.
Proof. vm_compute. reflexivity. Qed.

End Sha256.
