(* ===== verification/Sha1.v ===== *)
(** * SHA-1 (src/src/crypto/sha1.cpp)

    [Module Sha1]: the 80 unrolled rounds, the class [CSHA1], and their agreement
    with FIPS 180-4. *)

From S2P Require Import Prelude Endian Hasher.

Module Sha1.
Local Open Scope word_scope.

(** ** Definitions *)

(** [Round] assigns its arguments [b] and [e]. *)
Definition Round (a b c d e f k w : Z) : Z * Z :=
  let e := u32 (e + (((a <<< 5) ||| (a >>> 27)) + f + k + w)) in
  let b := (b <<< 30) ||| (b >>> 2) in
  (b, e).

Definition f1 (b c d : Z) : Z := d ^^^ (b &&& (c ^^^ d)).
Definition f2 (b c d : Z) : Z := b ^^^ c ^^^ d.
Definition f3 (b c d : Z) : Z := (b &&& c) ||| (d &&& (b ||| c)).

Definition left (x : Z) : Z := (x <<< 1) ||| (x >>> 31).

Record Regs := mk5 { r0 : Z; r1 : Z; r2 : Z; r3 : Z; r4 : Z }.

Definition Initialize : Regs := mk5 0x67452301 0xEFCDAB89 0x98BADCFE 0x10325476 0xC3D2E1F0.

Definition k1 : Z := 0x5A827999.
Definition k2 : Z := 0x6ED9EBA1.
Definition k3 : Z := 0x8F1BBCDC.
Definition k4 : Z := 0xCA62C1D6.

Definition Transform1 (s : Regs) (chunk : bytes) : Regs :=
  let '(mk5 a b c d e) := s in
  var w0 ::= ReadBE32 chunk ;;
  let '(b, e) := Round a b c d e (f1 b c d) k1 w0 in
  var w1 ::= ReadBE32 (skipn 4 chunk) ;;
  let '(a, d) := Round e a b c d (f1 a b c) k1 w1 in
  var w2 ::= ReadBE32 (skipn 8 chunk) ;;
  let '(e, c) := Round d e a b c (f1 e a b) k1 w2 in
  var w3 ::= ReadBE32 (skipn 12 chunk) ;;
  let '(d, b) := Round c d e a b (f1 d e a) k1 w3 in
  var w4 ::= ReadBE32 (skipn 16 chunk) ;;
  let '(c, a) := Round b c d e a (f1 c d e) k1 w4 in
  var w5 ::= ReadBE32 (skipn 20 chunk) ;;
  let '(b, e) := Round a b c d e (f1 b c d) k1 w5 in
  var w6 ::= ReadBE32 (skipn 24 chunk) ;;
  let '(a, d) := Round e a b c d (f1 a b c) k1 w6 in
  var w7 ::= ReadBE32 (skipn 28 chunk) ;;
  let '(e, c) := Round d e a b c (f1 e a b) k1 w7 in
  var w8 ::= ReadBE32 (skipn 32 chunk) ;;
  let '(d, b) := Round c d e a b (f1 d e a) k1 w8 in
  var w9 ::= ReadBE32 (skipn 36 chunk) ;;
  let '(c, a) := Round b c d e a (f1 c d e) k1 w9 in
  var w10 ::= ReadBE32 (skipn 40 chunk) ;;
  let '(b, e) := Round a b c d e (f1 b c d) k1 w10 in
  var w11 ::= ReadBE32 (skipn 44 chunk) ;;
  let '(a, d) := Round e a b c d (f1 a b c) k1 w11 in
  var w12 ::= ReadBE32 (skipn 48 chunk) ;;
  let '(e, c) := Round d e a b c (f1 e a b) k1 w12 in
  var w13 ::= ReadBE32 (skipn 52 chunk) ;;
  let '(d, b) := Round c d e a b (f1 d e a) k1 w13 in
  var w14 ::= ReadBE32 (skipn 56 chunk) ;;
  let '(c, a) := Round b c d e a (f1 c d e) k1 w14 in
  var w15 ::= ReadBE32 (skipn 60 chunk) ;;
  let '(b, e) := Round a b c d e (f1 b c d) k1 w15 in
  var w0 ::= left (w0 ^^^ w13 ^^^ w8 ^^^ w2) ;;
  let '(a, d) := Round e a b c d (f1 a b c) k1 w0 in
  var w1 ::= left (w1 ^^^ w14 ^^^ w9 ^^^ w3) ;;
  let '(e, c) := Round d e a b c (f1 e a b) k1 w1 in
  var w2 ::= left (w2 ^^^ w15 ^^^ w10 ^^^ w4) ;;
  let '(d, b) := Round c d e a b (f1 d e a) k1 w2 in
  var w3 ::= left (w3 ^^^ w0 ^^^ w11 ^^^ w5) ;;
  let '(c, a) := Round b c d e a (f1 c d e) k1 w3 in
  var w4 ::= left (w4 ^^^ w1 ^^^ w12 ^^^ w6) ;;
  let '(b, e) := Round a b c d e (f2 b c d) k2 w4 in
  var w5 ::= left (w5 ^^^ w2 ^^^ w13 ^^^ w7) ;;
  let '(a, d) := Round e a b c d (f2 a b c) k2 w5 in
  var w6 ::= left (w6 ^^^ w3 ^^^ w14 ^^^ w8) ;;
  let '(e, c) := Round d e a b c (f2 e a b) k2 w6 in
  var w7 ::= left (w7 ^^^ w4 ^^^ w15 ^^^ w9) ;;
  let '(d, b) := Round c d e a b (f2 d e a) k2 w7 in
  var w8 ::= left (w8 ^^^ w5 ^^^ w0 ^^^ w10) ;;
  let '(c, a) := Round b c d e a (f2 c d e) k2 w8 in
  var w9 ::= left (w9 ^^^ w6 ^^^ w1 ^^^ w11) ;;
  let '(b, e) := Round a b c d e (f2 b c d) k2 w9 in
  var w10 ::= left (w10 ^^^ w7 ^^^ w2 ^^^ w12) ;;
  let '(a, d) := Round e a b c d (f2 a b c) k2 w10 in
  var w11 ::= left (w11 ^^^ w8 ^^^ w3 ^^^ w13) ;;
  let '(e, c) := Round d e a b c (f2 e a b) k2 w11 in
  var w12 ::= left (w12 ^^^ w9 ^^^ w4 ^^^ w14) ;;
  let '(d, b) := Round c d e a b (f2 d e a) k2 w12 in
  var w13 ::= left (w13 ^^^ w10 ^^^ w5 ^^^ w15) ;;
  let '(c, a) := Round b c d e a (f2 c d e) k2 w13 in
  var w14 ::= left (w14 ^^^ w11 ^^^ w6 ^^^ w0) ;;
  let '(b, e) := Round a b c d e (f2 b c d) k2 w14 in
  var w15 ::= left (w15 ^^^ w12 ^^^ w7 ^^^ w1) ;;
  let '(a, d) := Round e a b c d (f2 a b c) k2 w15 in
  var w0 ::= left (w0 ^^^ w13 ^^^ w8 ^^^ w2) ;;
  let '(e, c) := Round d e a b c (f2 e a b) k2 w0 in
  var w1 ::= left (w1 ^^^ w14 ^^^ w9 ^^^ w3) ;;
  let '(d, b) := Round c d e a b (f2 d e a) k2 w1 in
  var w2 ::= left (w2 ^^^ w15 ^^^ w10 ^^^ w4) ;;
  let '(c, a) := Round b c d e a (f2 c d e) k2 w2 in
  var w3 ::= left (w3 ^^^ w0 ^^^ w11 ^^^ w5) ;;
  let '(b, e) := Round a b c d e (f2 b c d) k2 w3 in
  var w4 ::= left (w4 ^^^ w1 ^^^ w12 ^^^ w6) ;;
  let '(a, d) := Round e a b c d (f2 a b c) k2 w4 in
  var w5 ::= left (w5 ^^^ w2 ^^^ w13 ^^^ w7) ;;
  let '(e, c) := Round d e a b c (f2 e a b) k2 w5 in
  var w6 ::= left (w6 ^^^ w3 ^^^ w14 ^^^ w8) ;;
  let '(d, b) := Round c d e a b (f2 d e a) k2 w6 in
  var w7 ::= left (w7 ^^^ w4 ^^^ w15 ^^^ w9) ;;
  let '(c, a) := Round b c d e a (f2 c d e) k2 w7 in
  var w8 ::= left (w8 ^^^ w5 ^^^ w0 ^^^ w10) ;;
  let '(b, e) := Round a b c d e (f3 b c d) k3 w8 in
  var w9 ::= left (w9 ^^^ w6 ^^^ w1 ^^^ w11) ;;
  let '(a, d) := Round e a b c d (f3 a b c) k3 w9 in
  var w10 ::= left (w10 ^^^ w7 ^^^ w2 ^^^ w12) ;;
  let '(e, c) := Round d e a b c (f3 e a b) k3 w10 in
  var w11 ::= left (w11 ^^^ w8 ^^^ w3 ^^^ w13) ;;
  let '(d, b) := Round c d e a b (f3 d e a) k3 w11 in
  var w12 ::= left (w12 ^^^ w9 ^^^ w4 ^^^ w14) ;;
  let '(c, a) := Round b c d e a (f3 c d e) k3 w12 in
  var w13 ::= left (w13 ^^^ w10 ^^^ w5 ^^^ w15) ;;
  let '(b, e) := Round a b c d e (f3 b c d) k3 w13 in
  var w14 ::= left (w14 ^^^ w11 ^^^ w6 ^^^ w0) ;;
  let '(a, d) := Round e a b c d (f3 a b c) k3 w14 in
  var w15 ::= left (w15 ^^^ w12 ^^^ w7 ^^^ w1) ;;
  let '(e, c) := Round d e a b c (f3 e a b) k3 w15 in
  var w0 ::= left (w0 ^^^ w13 ^^^ w8 ^^^ w2) ;;
  let '(d, b) := Round c d e a b (f3 d e a) k3 w0 in
  var w1 ::= left (w1 ^^^ w14 ^^^ w9 ^^^ w3) ;;
  let '(c, a) := Round b c d e a (f3 c d e) k3 w1 in
  var w2 ::= left (w2 ^^^ w15 ^^^ w10 ^^^ w4) ;;
  let '(b, e) := Round a b c d e (f3 b c d) k3 w2 in
  var w3 ::= left (w3 ^^^ w0 ^^^ w11 ^^^ w5) ;;
  let '(a, d) := Round e a b c d (f3 a b c) k3 w3 in
  var w4 ::= left (w4 ^^^ w1 ^^^ w12 ^^^ w6) ;;
  let '(e, c) := Round d e a b c (f3 e a b) k3 w4 in
  var w5 ::= left (w5 ^^^ w2 ^^^ w13 ^^^ w7) ;;
  let '(d, b) := Round c d e a b (f3 d e a) k3 w5 in
  var w6 ::= left (w6 ^^^ w3 ^^^ w14 ^^^ w8) ;;
  let '(c, a) := Round b c d e a (f3 c d e) k3 w6 in
  var w7 ::= left (w7 ^^^ w4 ^^^ w15 ^^^ w9) ;;
  let '(b, e) := Round a b c d e (f3 b c d) k3 w7 in
  var w8 ::= left (w8 ^^^ w5 ^^^ w0 ^^^ w10) ;;
  let '(a, d) := Round e a b c d (f3 a b c) k3 w8 in
  var w9 ::= left (w9 ^^^ w6 ^^^ w1 ^^^ w11) ;;
  let '(e, c) := Round d e a b c (f3 e a b) k3 w9 in
  var w10 ::= left (w10 ^^^ w7 ^^^ w2 ^^^ w12) ;;
  let '(d, b) := Round c d e a b (f3 d e a) k3 w10 in
  var w11 ::= left (w11 ^^^ w8 ^^^ w3 ^^^ w13) ;;
  let '(c, a) := Round b c d e a (f3 c d e) k3 w11 in
  var w12 ::= left (w12 ^^^ w9 ^^^ w4 ^^^ w14) ;;
  let '(b, e) := Round a b c d e (f2 b c d) k4 w12 in
  var w13 ::= left (w13 ^^^ w10 ^^^ w5 ^^^ w15) ;;
  let '(a, d) := Round e a b c d (f2 a b c) k4 w13 in
  var w14 ::= left (w14 ^^^ w11 ^^^ w6 ^^^ w0) ;;
  let '(e, c) := Round d e a b c (f2 e a b) k4 w14 in
  var w15 ::= left (w15 ^^^ w12 ^^^ w7 ^^^ w1) ;;
  let '(d, b) := Round c d e a b (f2 d e a) k4 w15 in
  var w0 ::= left (w0 ^^^ w13 ^^^ w8 ^^^ w2) ;;
  let '(c, a) := Round b c d e a (f2 c d e) k4 w0 in
  var w1 ::= left (w1 ^^^ w14 ^^^ w9 ^^^ w3) ;;
  let '(b, e) := Round a b c d e (f2 b c d) k4 w1 in
  var w2 ::= left (w2 ^^^ w15 ^^^ w10 ^^^ w4) ;;
  let '(a, d) := Round e a b c d (f2 a b c) k4 w2 in
  var w3 ::= left (w3 ^^^ w0 ^^^ w11 ^^^ w5) ;;
  let '(e, c) := Round d e a b c (f2 e a b) k4 w3 in
  var w4 ::= left (w4 ^^^ w1 ^^^ w12 ^^^ w6) ;;
  let '(d, b) := Round c d e a b (f2 d e a) k4 w4 in
  var w5 ::= left (w5 ^^^ w2 ^^^ w13 ^^^ w7) ;;
  let '(c, a) := Round b c d e a (f2 c d e) k4 w5 in
  var w6 ::= left (w6 ^^^ w3 ^^^ w14 ^^^ w8) ;;
  let '(b, e) := Round a b c d e (f2 b c d) k4 w6 in
  var w7 ::= left (w7 ^^^ w4 ^^^ w15 ^^^ w9) ;;
  let '(a, d) := Round e a b c d (f2 a b c) k4 w7 in
  var w8 ::= left (w8 ^^^ w5 ^^^ w0 ^^^ w10) ;;
  let '(e, c) := Round d e a b c (f2 e a b) k4 w8 in
  var w9 ::= left (w9 ^^^ w6 ^^^ w1 ^^^ w11) ;;
  let '(d, b) := Round c d e a b (f2 d e a) k4 w9 in
  var w10 ::= left (w10 ^^^ w7 ^^^ w2 ^^^ w12) ;;
  let '(c, a) := Round b c d e a (f2 c d e) k4 w10 in
  var w11 ::= left (w11 ^^^ w8 ^^^ w3 ^^^ w13) ;;
  let '(b, e) := Round a b c d e (f2 b c d) k4 w11 in
  var w12 ::= left (w12 ^^^ w9 ^^^ w4 ^^^ w14) ;;
  let '(a, d) := Round e a b c d (f2 a b c) k4 w12 in
  let '(e, c) := Round d e a b c (f2 e a b) k4 (left (w13 ^^^ w10 ^^^ w5 ^^^ w15)) in
  let '(d, b) := Round c d e a b (f2 d e a) k4 (left (w14 ^^^ w11 ^^^ w6 ^^^ w0)) in
  let '(c, a) := Round b c d e a (f2 c d e) k4 (left (w15 ^^^ w12 ^^^ w7 ^^^ w1)) in
  mk5 (u32 (r0 s + a)) (u32 (r1 s + b)) (u32 (r2 s + c)) (u32 (r3 s + d)) (u32 (r4 s + e)).

Definition CSHA1 : Type := hasher Regs.
Definition CSHA1_init (buf0 : bytes) : CSHA1 := mkHasher Initialize buf0 0.
Definition CSHA1_Write : CSHA1 -> bytes -> CSHA1 := WriteLoop 64 Transform1.
Definition output (s : Regs) : bytes :=
  WriteBE32 (r0 s) ++ WriteBE32 (r1 s) ++ WriteBE32 (r2 s) ++ WriteBE32 (r3 s) ++
  WriteBE32 (r4 s).
Definition CSHA1_Finalize : CSHA1 -> bytes := FinalizeLoop 64 Transform1 WriteBE64 output 8.
Definition CSHA1_Reset (h : CSHA1) : CSHA1 := mkHasher Initialize (hbuf h) 0.

(** [CSHA1().Write(data, len).Finalize(hash)] *)
Definition sha1 (data : bytes) : bytes :=
  CSHA1_Finalize (CSHA1_Write (CSHA1_init (repeat 0 64)) data).

(** ** Reference: FIPS 180-4, sections 4.1.1 and 6.1.2 *)

Definition ROTL (n x : Z) : Z := (x <<< n) ||| (x >>> (32 - n)).
Definition Ch (x y z : Z) : Z := (x &&& y) ^^^ (Z.lnot x &&& z).
Definition Parity (x y z : Z) : Z := x ^^^ y ^^^ z.
Definition Maj (x y z : Z) : Z := (x &&& y) ^^^ (x &&& z) ^^^ (y &&& z).

(** The function and the constant of each of the 80 rounds. *)
Definition fips_sched : list ((Z -> Z -> Z -> Z) * Z) :=
  repeat (Ch, 0x5A827999) 20 ++ repeat (Parity, 0x6ED9EBA1) 20 ++
  repeat (Maj, 0x8F1BBCDC) 20 ++ repeat (Parity, 0xCA62C1D6) 20.

Definition fips_step (r : Regs) (f : Z -> Z -> Z -> Z) (k w : Z) : Regs :=
  let '(mk5 a b c d e) := r in
  let T := u32 (ROTL 5 a + f b c d + e + k + w) in
  mk5 T a (ROTL 30 b) c d.

(** [W_t = ROTL1(W_(t-3) xor W_(t-8) xor W_(t-14) xor W_(t-16))] *)
Definition fips_word (win : list Z) : Z :=
  ROTL 1 (nth 13 win 0 ^^^ nth 8 win 0 ^^^ nth 2 win 0 ^^^ nth 0 win 0).

Fixpoint fips_rounds (sched : list ((Z -> Z -> Z -> Z) * Z)) (win : list Z) (r : Regs) : Regs :=
  match sched, win with
  | (f, k) :: sched', w :: win' =>
      fips_rounds sched' (win' ++ [fips_word win]) (fips_step r f k w)
  | _, _ => r
  end.

Definition fips_compress (s : Regs) (chunk : bytes) : Regs :=
  let win := map (fun i => ReadBE32 (skipn (4 * i) chunk)) (seq 0 16) in
  let '(mk5 a b c d e) := fips_rounds fips_sched win s in
  mk5 (u32 (r0 s + a)) (u32 (r1 s + b)) (u32 (r2 s + c)) (u32 (r3 s + d)) (u32 (r4 s + e)).

Definition fips_sha1 : bytes -> bytes := std_digest fips_compress WriteBE64 output Initialize.

(** ** Lemmas *)

Lemma f1_Ch x y z : f1 x y z = Ch x y z.
Proof.
  unfold f1, Ch. apply Z.bits_inj'; intros n Hn.
  rewrite !Z.lxor_spec, !Z.land_spec, !Z.lxor_spec, Z.lnot_spec by lia.
  now destruct (Z.testbit x n), (Z.testbit y n), (Z.testbit z n).
Qed.

Lemma f3_Maj x y z : f3 x y z = Maj x y z.
Proof.
  unfold f3, Maj. apply Z.bits_inj'; intros n Hn.
  rewrite !Z.lxor_spec, !Z.lor_spec, !Z.land_spec, !Z.lor_spec.
  now destruct (Z.testbit x n), (Z.testbit y n), (Z.testbit z n).
Qed.

Lemma fips_sched_eq :
  fips_sched = repeat (Ch, k1) 20 ++ repeat (f2, k2) 20 ++ repeat (Maj, k3) 20 ++
               repeat (f2, k4) 20.
Proof. reflexivity. Qed.

Lemma fips_word_eq1 w0 w1 w2 w3 w4 w5 w6 w7 w8 w9 w10 w11 w12 w13 w14 w15 :
  fips_word [w0; w1; w2; w3; w4; w5; w6; w7; w8; w9; w10; w11; w12; w13; w14; w15] =
  left (w0 ^^^ w13 ^^^ w8 ^^^ w2).
Proof.
  unfold fips_word; cbn [nth]. change (ROTL 1) with left. f_equal.
  rewrite (Z.lxor_comm _ w0), !Z.lxor_assoc. reflexivity.
Qed.

Lemma fips_rounds_Round1 sched f k a b c d e
    w0 w1 w2 w3 w4 w5 w6 w7 w8 w9 w10 w11 w12 w13 w14 w15 :
  fips_rounds ((f, k) :: sched)
    [w0; w1; w2; w3; w4; w5; w6; w7; w8; w9; w10; w11; w12; w13; w14; w15]
    (mk5 a b c d e) =
  let '(b', e') := Round a b c d e (f b c d) k w0 in
  fips_rounds sched
    [w1; w2; w3; w4; w5; w6; w7; w8; w9; w10; w11; w12; w13; w14; w15;
     left (w0 ^^^ w13 ^^^ w8 ^^^ w2)]
    (mk5 e' a b' c d).
Proof.
  cbn [fips_rounds]. rewrite fips_word_eq1. cbn [app].
  unfold fips_step, Round. cbv zeta.
  change (ROTL 5 a) with ((a <<< 5) ||| (a >>> 27)).
  change (ROTL 30 b) with ((b <<< 30) ||| (b >>> 2)).
  do 2 f_equal. f_equal. lia.
Qed.

Ltac source_line :=
  lazymatch goal with
  | |- assign _ _ = _ => abstract_assign
  | |- (let '(_, _) := Round ?a ?b ?c ?d ?e ?f ?k ?w in _) = _ =>
      rewrite fips_rounds_Round1, <- ?f1_Ch, <- ?f3_Maj;
      destruct (Round a b c d e f k w); cbv beta match
  end.

Lemma Transform1_fips1 s chunk : Transform1 s chunk = fips_compress s chunk.
Proof.
  destruct s as [a b c d e]. cbv delta [fips_compress]. rewrite fips_sched_eq.
  cbn [map seq Nat.mul Nat.add app repeat]. change (skipn 0 chunk) with chunk.
  cbv delta [Transform1]. cbv beta match.
  do 157 source_line. reflexivity.
Qed.

(** ** Theorem *)

(** [CSHA1] computes the SHA-1 of FIPS 180-4, whatever the pieces. *)
Theorem CSHA1_correct (buf0 : bytes) (chunks : list bytes) :
  length buf0 = 64%nat ->
  CSHA1_Finalize (fold_left CSHA1_Write chunks (CSHA1_init buf0)) = fips_sha1 (concat chunks).
Proof. exact (FinalizeLoop_Writes _ _ _ _ _ Transform1_fips1 length_WriteBE64 buf0 chunks). Qed.

Lemma CSHA1_correct_witness :
  CSHA1_Finalize (fold_left CSHA1_Write [[97]; [98; 99]] (CSHA1_init (repeat 7 64))) =
  fips_sha1 [97; 98; 99].
Proof. exact (CSHA1_correct (repeat 7 64) [[97]; [98; 99]] eq_refl). Defined.

(** The test vector of the standard. *)
Lemma sha1_abc :
  sha1 [97; 98; 99] =
  [0xa9; 0x99; 0x3e; 0x36; 0x47; 0x06; 0x81; 0x6a; 0xba; 0x3e;
   0x25; 0x71; 0x78; 0x50; 0xc2; 0x6c; 0x9c; 0xd0; 0xd8; 0x9d].
Proof. vm_compute. reflexivity. Qed.

End Sha1.
