(* ===== verification/Ripemd160.v ===== *)
(** * RIPEMD-160 (src/src/crypto/ripemd160.cpp)

    [Module Ripemd160]: the two interleaved lines of 80 unrolled rounds, the class
    [CRIPEMD160], and their agreement with the RIPEMD-160 specification, which
    runs the two lines one after the other from tables. *)

From S2P Require Import Prelude Endian Hasher.

Module Ripemd160.
Local Open Scope word_scope.

(** ** Definitions *)

Definition f1 (x y z : Z) : Z := x ^^^ y ^^^ z.
Definition f2 (x y z : Z) : Z := (x &&& y) ||| (not32 x &&& z).
Definition f3 (x y z : Z) : Z := (x ||| not32 y) ^^^ z.
Definition f4 (x y z : Z) : Z := (x &&& z) ||| (y &&& not32 z).
Definition f5 (x y z : Z) : Z := x ^^^ (y ||| not32 z).

Record Regs := mk5 { r0 : Z; r1 : Z; r2 : Z; r3 : Z; r4 : Z }.

Definition Initialize : Regs := mk5 0x67452301 0xEFCDAB89 0x98BADCFE 0x10325476 0xC3D2E1F0.

Definition rol (x i : Z) : Z := (x <<< i) ||| (x >>> (32 - i)).

(** [Round] assigns its arguments [a] and [c]. *)
Definition Round (a b c d e f x k r : Z) : Z * Z :=
  let a := u32 (rol (u32 (a + f + x + k)) r + e) in
  let c := rol c 10 in
  (a, c).

Definition R11 (a b c d e x r : Z) : Z * Z := Round a b c d e (f1 b c d) x 0 r.
Definition R21 (a b c d e x r : Z) : Z * Z := Round a b c d e (f2 b c d) x 0x5A827999 r.
Definition R31 (a b c d e x r : Z) : Z * Z := Round a b c d e (f3 b c d) x 0x6ED9EBA1 r.
Definition R41 (a b c d e x r : Z) : Z * Z := Round a b c d e (f4 b c d) x 0x8F1BBCDC r.
Definition R51 (a b c d e x r : Z) : Z * Z := Round a b c d e (f5 b c d) x 0xA953FD4E r.
Definition R12 (a b c d e x r : Z) : Z * Z := Round a b c d e (f5 b c d) x 0x50A28BE6 r.
Definition R22 (a b c d e x r : Z) : Z * Z := Round a b c d e (f4 b c d) x 0x5C4DD124 r.
Definition R32 (a b c d e x r : Z) : Z * Z := Round a b c d e (f3 b c d) x 0x6D703EF3 r.
Definition R42 (a b c d e x r : Z) : Z * Z := Round a b c d e (f2 b c d) x 0x7A6D76E9 r.
Definition R52 (a b c d e x r : Z) : Z * Z := Round a b c d e (f1 b c d) x 0 r.

Definition Transform1 (s : Regs) (chunk : bytes) : Regs :=
  let '(mk5 a1 b1 c1 d1 e1) := s in
  let '(mk5 a2 b2 c2 d2 e2) := s in
  var w0 ::= ReadLE32 chunk ;;
  var w1 ::= ReadLE32 (skipn 4 chunk) ;;
  var w2 ::= ReadLE32 (skipn 8 chunk) ;;
  var w3 ::= ReadLE32 (skipn 12 chunk) ;;
  var w4 ::= ReadLE32 (skipn 16 chunk) ;;
  var w5 ::= ReadLE32 (skipn 20 chunk) ;;
  var w6 ::= ReadLE32 (skipn 24 chunk) ;;
  var w7 ::= ReadLE32 (skipn 28 chunk) ;;
  var w8 ::= ReadLE32 (skipn 32 chunk) ;;
  var w9 ::= ReadLE32 (skipn 36 chunk) ;;
  var w10 ::= ReadLE32 (skipn 40 chunk) ;;
  var w11 ::= ReadLE32 (skipn 44 chunk) ;;
  var w12 ::= ReadLE32 (skipn 48 chunk) ;;
  var w13 ::= ReadLE32 (skipn 52 chunk) ;;
  var w14 ::= ReadLE32 (skipn 56 chunk) ;;
  var w15 ::= ReadLE32 (skipn 60 chunk) ;;
  let '(a1, c1) := R11 a1 b1 c1 d1 e1 w0 11 in
  let '(a2, c2) := R12 a2 b2 c2 d2 e2 w5 8 in
  let '(e1, b1) := R11 e1 a1 b1 c1 d1 w1 14 in
  let '(e2, b2) := R12 e2 a2 b2 c2 d2 w14 9 in
  let '(d1, a1) := R11 d1 e1 a1 b1 c1 w2 15 in
  let '(d2, a2) := R12 d2 e2 a2 b2 c2 w7 9 in
  let '(c1, e1) := R11 c1 d1 e1 a1 b1 w3 12 in
  let '(c2, e2) := R12 c2 d2 e2 a2 b2 w0 11 in
  let '(b1, d1) := R11 b1 c1 d1 e1 a1 w4 5 in
  let '(b2, d2) := R12 b2 c2 d2 e2 a2 w9 13 in
  let '(a1, c1) := R11 a1 b1 c1 d1 e1 w5 8 in
  let '(a2, c2) := R12 a2 b2 c2 d2 e2 w2 15 in
  let '(e1, b1) := R11 e1 a1 b1 c1 d1 w6 7 in
  let '(e2, b2) := R12 e2 a2 b2 c2 d2 w11 15 in
  let '(d1, a1) := R11 d1 e1 a1 b1 c1 w7 9 in
  let '(d2, a2) := R12 d2 e2 a2 b2 c2 w4 5 in
  let '(c1, e1) := R11 c1 d1 e1 a1 b1 w8 11 in
  let '(c2, e2) := R12 c2 d2 e2 a2 b2 w13 7 in
  let '(b1, d1) := R11 b1 c1 d1 e1 a1 w9 13 in
  let '(b2, d2) := R12 b2 c2 d2 e2 a2 w6 7 in
  let '(a1, c1) := R11 a1 b1 c1 d1 e1 w10 14 in
  let '(a2, c2) := R12 a2 b2 c2 d2 e2 w15 8 in
  let '(e1, b1) := R11 e1 a1 b1 c1 d1 w11 15 in
  let '(e2, b2) := R12 e2 a2 b2 c2 d2 w8 11 in
  let '(d1, a1) := R11 d1 e1 a1 b1 c1 w12 6 in
  let '(d2, a2) := R12 d2 e2 a2 b2 c2 w1 14 in
  let '(c1, e1) := R11 c1 d1 e1 a1 b1 w13 7 in
  let '(c2, e2) := R12 c2 d2 e2 a2 b2 w10 14 in
  let '(b1, d1) := R11 b1 c1 d1 e1 a1 w14 9 in
  let '(b2, d2) := R12 b2 c2 d2 e2 a2 w3 12 in
  let '(a1, c1) := R11 a1 b1 c1 d1 e1 w15 8 in
  let '(a2, c2) := R12 a2 b2 c2 d2 e2 w12 6 in
  let '(e1, b1) := R21 e1 a1 b1 c1 d1 w7 7 in
  let '(e2, b2) := R22 e2 a2 b2 c2 d2 w6 9 in
  let '(d1, a1) := R21 d1 e1 a1 b1 c1 w4 6 in
  let '(d2, a2) := R22 d2 e2 a2 b2 c2 w11 13 in
  let '(c1, e1) := R21 c1 d1 e1 a1 b1 w13 8 in
  let '(c2, e2) := R22 c2 d2 e2 a2 b2 w3 15 in
  let '(b1, d1) := R21 b1 c1 d1 e1 a1 w1 13 in
  let '(b2, d2) := R22 b2 c2 d2 e2 a2 w7 7 in
  let '(a1, c1) := R21 a1 b1 c1 d1 e1 w10 11 in
  let '(a2, c2) := R22 a2 b2 c2 d2 e2 w0 12 in
  let '(e1, b1) := R21 e1 a1 b1 c1 d1 w6 9 in
  let '(e2, b2) := R22 e2 a2 b2 c2 d2 w13 8 in
  let '(d1, a1) := R21 d1 e1 a1 b1 c1 w15 7 in
  let '(d2, a2) := R22 d2 e2 a2 b2 c2 w5 9 in
  let '(c1, e1) := R21 c1 d1 e1 a1 b1 w3 15 in
  let '(c2, e2) := R22 c2 d2 e2 a2 b2 w10 11 in
  let '(b1, d1) := R21 b1 c1 d1 e1 a1 w12 7 in
  let '(b2, d2) := R22 b2 c2 d2 e2 a2 w14 7 in
  let '(a1, c1) := R21 a1 b1 c1 d1 e1 w0 12 in
  let '(a2, c2) := R22 a2 b2 c2 d2 e2 w15 7 in
  let '(e1, b1) := R21 e1 a1 b1 c1 d1 w9 15 in
  let '(e2, b2) := R22 e2 a2 b2 c2 d2 w8 12 in
  let '(d1, a1) := R21 d1 e1 a1 b1 c1 w5 9 in
  let '(d2, a2) := R22 d2 e2 a2 b2 c2 w12 7 in
  let '(c1, e1) := R21 c1 d1 e1 a1 b1 w2 11 in
  let '(c2, e2) := R22 c2 d2 e2 a2 b2 w4 6 in
  let '(b1, d1) := R21 b1 c1 d1 e1 a1 w14 7 in
  let '(b2, d2) := R22 b2 c2 d2 e2 a2 w9 15 in
  let '(a1, c1) := R21 a1 b1 c1 d1 e1 w11 13 in
  let '(a2, c2) := R22 a2 b2 c2 d2 e2 w1 13 in
  let '(e1, b1) := R21 e1 a1 b1 c1 d1 w8 12 in
  let '(e2, b2) := R22 e2 a2 b2 c2 d2 w2 11 in
  let '(d1, a1) := R31 d1 e1 a1 b1 c1 w3 11 in
  let '(d2, a2) := R32 d2 e2 a2 b2 c2 w15 9 in
  let '(c1, e1) := R31 c1 d1 e1 a1 b1 w10 13 in
  let '(c2, e2) := R32 c2 d2 e2 a2 b2 w5 7 in
  let '(b1, d1) := R31 b1 c1 d1 e1 a1 w14 6 in
  let '(b2, d2) := R32 b2 c2 d2 e2 a2 w1 15 in
  let '(a1, c1) := R31 a1 b1 c1 d1 e1 w4 7 in
  let '(a2, c2) := R32 a2 b2 c2 d2 e2 w3 11 in
  let '(e1, b1) := R31 e1 a1 b1 c1 d1 w9 14 in
  let '(e2, b2) := R32 e2 a2 b2 c2 d2 w7 8 in
  let '(d1, a1) := R31 d1 e1 a1 b1 c1 w15 9 in
  let '(d2, a2) := R32 d2 e2 a2 b2 c2 w14 6 in
  let '(c1, e1) := R31 c1 d1 e1 a1 b1 w8 13 in
  let '(c2, e2) := R32 c2 d2 e2 a2 b2 w6 6 in
  let '(b1, d1) := R31 b1 c1 d1 e1 a1 w1 15 in
  let '(b2, d2) := R32 b2 c2 d2 e2 a2 w9 14 in
  let '(a1, c1) := R31 a1 b1 c1 d1 e1 w2 14 in
  let '(a2, c2) := R32 a2 b2 c2 d2 e2 w11 12 in
  let '(e1, b1) := R31 e1 a1 b1 c1 d1 w7 8 in
  let '(e2, b2) := R32 e2 a2 b2 c2 d2 w8 13 in
  let '(d1, a1) := R31 d1 e1 a1 b1 c1 w0 13 in
  let '(d2, a2) := R32 d2 e2 a2 b2 c2 w12 5 in
  let '(c1, e1) := R31 c1 d1 e1 a1 b1 w6 6 in
  let '(c2, e2) := R32 c2 d2 e2 a2 b2 w2 14 in
  let '(b1, d1) := R31 b1 c1 d1 e1 a1 w13 5 in
  let '(b2, d2) := R32 b2 c2 d2 e2 a2 w10 13 in
  let '(a1, c1) := R31 a1 b1 c1 d1 e1 w11 12 in
  let '(a2, c2) := R32 a2 b2 c2 d2 e2 w0 13 in
  let '(e1, b1) := R31 e1 a1 b1 c1 d1 w5 7 in
  let '(e2, b2) := R32 e2 a2 b2 c2 d2 w4 7 in
  let '(d1, a1) := R31 d1 e1 a1 b1 c1 w12 5 in
  let '(d2, a2) := R32 d2 e2 a2 b2 c2 w13 5 in
  let '(c1, e1) := R41 c1 d1 e1 a1 b1 w1 11 in
  let '(c2, e2) := R42 c2 d2 e2 a2 b2 w8 15 in
  let '(b1, d1) := R41 b1 c1 d1 e1 a1 w9 12 in
  let '(b2, d2) := R42 b2 c2 d2 e2 a2 w6 5 in
  let '(a1, c1) := R41 a1 b1 c1 d1 e1 w11 14 in
  let '(a2, c2) := R42 a2 b2 c2 d2 e2 w4 8 in
  let '(e1, b1) := R41 e1 a1 b1 c1 d1 w10 15 in
  let '(e2, b2) := R42 e2 a2 b2 c2 d2 w1 11 in
  let '(d1, a1) := R41 d1 e1 a1 b1 c1 w0 14 in
  let '(d2, a2) := R42 d2 e2 a2 b2 c2 w3 14 in
  let '(c1, e1) := R41 c1 d1 e1 a1 b1 w8 15 in
  let '(c2, e2) := R42 c2 d2 e2 a2 b2 w11 14 in
  let '(b1, d1) := R41 b1 c1 d1 e1 a1 w12 9 in
  let '(b2, d2) := R42 b2 c2 d2 e2 a2 w15 6 in
  let '(a1, c1) := R41 a1 b1 c1 d1 e1 w4 8 in
  let '(a2, c2) := R42 a2 b2 c2 d2 e2 w0 14 in
  let '(e1, b1) := R41 e1 a1 b1 c1 d1 w13 9 in
  let '(e2, b2) := R42 e2 a2 b2 c2 d2 w5 6 in
  let '(d1, a1) := R41 d1 e1 a1 b1 c1 w3 14 in
  let '(d2, a2) := R42 d2 e2 a2 b2 c2 w12 9 in
  let '(c1, e1) := R41 c1 d1 e1 a1 b1 w7 5 in
  let '(c2, e2) := R42 c2 d2 e2 a2 b2 w2 12 in
  let '(b1, d1) := R41 b1 c1 d1 e1 a1 w15 6 in
  let '(b2, d2) := R42 b2 c2 d2 e2 a2 w13 9 in
  let '(a1, c1) := R41 a1 b1 c1 d1 e1 w14 8 in
  let '(a2, c2) := R42 a2 b2 c2 d2 e2 w9 12 in
  let '(e1, b1) := R41 e1 a1 b1 c1 d1 w5 6 in
  let '(e2, b2) := R42 e2 a2 b2 c2 d2 w7 5 in
  let '(d1, a1) := R41 d1 e1 a1 b1 c1 w6 5 in
  let '(d2, a2) := R42 d2 e2 a2 b2 c2 w10 15 in
  let '(c1, e1) := R41 c1 d1 e1 a1 b1 w2 12 in
  let '(c2, e2) := R42 c2 d2 e2 a2 b2 w14 8 in
  let '(b1, d1) := R51 b1 c1 d1 e1 a1 w4 9 in
  let '(b2, d2) := R52 b2 c2 d2 e2 a2 w12 8 in
  let '(a1, c1) := R51 a1 b1 c1 d1 e1 w0 15 in
  let '(a2, c2) := R52 a2 b2 c2 d2 e2 w15 5 in
  let '(e1, b1) := R51 e1 a1 b1 c1 d1 w5 5 in
  let '(e2, b2) := R52 e2 a2 b2 c2 d2 w10 12 in
  let '(d1, a1) := R51 d1 e1 a1 b1 c1 w9 11 in
  let '(d2, a2) := R52 d2 e2 a2 b2 c2 w4 9 in
  let '(c1, e1) := R51 c1 d1 e1 a1 b1 w7 6 in
  let '(c2, e2) := R52 c2 d2 e2 a2 b2 w1 12 in
  let '(b1, d1) := R51 b1 c1 d1 e1 a1 w12 8 in
  let '(b2, d2) := R52 b2 c2 d2 e2 a2 w5 5 in
  let '(a1, c1) := R51 a1 b1 c1 d1 e1 w2 13 in
  let '(a2, c2) := R52 a2 b2 c2 d2 e2 w8 14 in
  let '(e1, b1) := R51 e1 a1 b1 c1 d1 w10 12 in
  let '(e2, b2) := R52 e2 a2 b2 c2 d2 w7 6 in
  let '(d1, a1) := R51 d1 e1 a1 b1 c1 w14 5 in
  let '(d2, a2) := R52 d2 e2 a2 b2 c2 w6 8 in
  let '(c1, e1) := R51 c1 d1 e1 a1 b1 w1 12 in
  let '(c2, e2) := R52 c2 d2 e2 a2 b2 w2 13 in
  let '(b1, d1) := R51 b1 c1 d1 e1 a1 w3 13 in
  let '(b2, d2) := R52 b2 c2 d2 e2 a2 w13 6 in
  let '(a1, c1) := R51 a1 b1 c1 d1 e1 w8 14 in
  let '(a2, c2) := R52 a2 b2 c2 d2 e2 w14 5 in
  let '(e1, b1) := R51 e1 a1 b1 c1 d1 w11 11 in
  let '(e2, b2) := R52 e2 a2 b2 c2 d2 w0 15 in
  let '(d1, a1) := R51 d1 e1 a1 b1 c1 w6 8 in
  let '(d2, a2) := R52 d2 e2 a2 b2 c2 w3 13 in
  let '(c1, e1) := R51 c1 d1 e1 a1 b1 w15 5 in
  let '(c2, e2) := R52 c2 d2 e2 a2 b2 w9 11 in
  let '(b1, d1) := R51 b1 c1 d1 e1 a1 w13 6 in
  let '(b2, d2) := R52 b2 c2 d2 e2 a2 w11 11 in
  let t := r0 s in
  mk5 (u32 (r1 s + c1 + d2)) (u32 (r2 s + d1 + e2)) (u32 (r3 s + e1 + a2))
      (u32 (r4 s + a1 + b2)) (u32 (t + b1 + c2)).

Definition CRIPEMD160 : Type := hasher Regs.
Definition CRIPEMD160_init (buf0 : bytes) : CRIPEMD160 := mkHasher Initialize buf0 0.
Definition CRIPEMD160_Write : CRIPEMD160 -> bytes -> CRIPEMD160 := WriteLoop 64 Transform1.
Definition output (s : Regs) : bytes :=
  WriteLE32 (r0 s) ++ WriteLE32 (r1 s) ++ WriteLE32 (r2 s) ++ WriteLE32 (r3 s) ++
  WriteLE32 (r4 s).
Definition CRIPEMD160_Finalize : CRIPEMD160 -> bytes :=
  FinalizeLoop 64 Transform1 WriteLE64 output 8.
Definition CRIPEMD160_Reset (h : CRIPEMD160) : CRIPEMD160 := mkHasher Initialize (hbuf h) 0.

(** [CRIPEMD160().Write(data, len).Finalize(hash)] *)
Definition ripemd160 (data : bytes) : bytes :=
  CRIPEMD160_Finalize (CRIPEMD160_Write (CRIPEMD160_init (repeat 0 64)) data).

(** ** Reference: the tables of the RIPEMD-160 specification *)

Definition spec_r : list nat :=
  [0; 1; 2; 3; 4; 5; 6; 7; 8; 9; 10; 11; 12; 13; 14; 15;
   7; 4; 13; 1; 10; 6; 15; 3; 12; 0; 9; 5; 2; 14; 11; 8;
   3; 10; 14; 4; 9; 15; 8; 1; 2; 7; 0; 6; 13; 11; 5; 12;
   1; 9; 11; 10; 0; 8; 12; 4; 13; 3; 7; 15; 14; 5; 6; 2;
   4; 0; 5; 9; 7; 12; 2; 10; 14; 1; 3; 8; 11; 6; 15; 13]%nat.

Definition spec_r' : list nat :=
  [5; 14; 7; 0; 9; 2; 11; 4; 13; 6; 15; 8; 1; 10; 3; 12;
   6; 11; 3; 7; 0; 13; 5; 10; 14; 15; 8; 12; 4; 9; 1; 2;
   15; 5; 1; 3; 7; 14; 6; 9; 11; 8; 12; 2; 10; 0; 4; 13;
   8; 6; 4; 1; 3; 11; 15; 0; 5; 12; 2; 13; 9; 7; 10; 14;
   12; 15; 10; 4; 1; 5; 8; 7; 6; 2; 13; 14; 0; 3; 9; 11]%nat.

Definition spec_s : list Z :=
  [11; 14; 15; 12; 5; 8; 7; 9; 11; 13; 14; 15; 6; 7; 9; 8;
   7; 6; 8; 13; 11; 9; 7; 15; 7; 12; 15; 9; 11; 7; 13; 12;
   11; 13; 6; 7; 14; 9; 13; 15; 14; 8; 13; 6; 5; 12; 7; 5;
   11; 12; 14; 15; 14; 15; 9; 8; 9; 14; 5; 6; 8; 6; 5; 12;
   9; 15; 5; 11; 6; 8; 13; 12; 5; 12; 13; 14; 11; 8; 5; 6].

Definition spec_s' : list Z :=
  [8; 9; 9; 11; 13; 15; 15; 5; 7; 7; 8; 11; 14; 14; 12; 6;
   9; 13; 15; 7; 12; 8; 9; 11; 7; 7; 12; 7; 6; 15; 13; 11;
   9; 7; 15; 11; 8; 6; 6; 14; 12; 13; 5; 14; 13; 13; 7; 5;
   15; 5; 8; 11; 14; 14; 6; 14; 6; 9; 12; 9; 12; 5; 15; 8;
   8; 5; 12; 9; 12; 5; 14; 6; 8; 13; 6; 5; 15; 13; 11; 11].

(** The functions and constants, each used in sixteen rounds. *)
Definition spec_f : list (Z -> Z -> Z -> Z) := [f1; f2; f3; f4; f5].
Definition spec_K : list Z := [0; 0x5A827999; 0x6ED9EBA1; 0x8F1BBCDC; 0xA953FD4E].
Definition spec_K' : list Z := [0x50A28BE6; 0x5C4DD124; 0x6D703EF3; 0x7A6D76E9; 0].

Definition spec_sched (fs : list (Z -> Z -> Z -> Z)) (ks : list Z) (rs : list nat) (ss : list Z) :
    list ((Z -> Z -> Z -> Z) * Z * (nat * Z)) :=
  combine (flat_map (fun p => repeat p 16) (combine fs ks)) (combine rs ss).

(** One step of one line, on the words [X] of the block. *)
Definition spec_step (X : list Z) (st : Regs) (p : (Z -> Z -> Z -> Z) * Z * (nat * Z)) : Regs :=
  let '(mk5 A B C D E) := st in
  let '(f, K, (r, s)) := p in
  let T := u32 (rol (u32 (A + f B C D + nth r X 0 + K)) s + E) in
  mk5 E T B (rol C 10) D.

Definition spec_line (X : list Z) (st : Regs)
    (sched : list ((Z -> Z -> Z -> Z) * Z * (nat * Z))) : Regs := fold_left (spec_step X) sched st.

Definition spec_compress (h : Regs) (chunk : bytes) : Regs :=
  let X := map (fun i => ReadLE32 (skipn (4 * i) chunk)) (seq 0 16) in
  let '(mk5 A B C D E) := spec_line X h (spec_sched spec_f spec_K spec_r spec_s) in
  let '(mk5 A' B' C' D' E') :=
    spec_line X h (spec_sched (rev spec_f) spec_K' spec_r' spec_s') in
  mk5 (u32 (r1 h + C + D')) (u32 (r2 h + D + E')) (u32 (r3 h + E + A'))
      (u32 (r4 h + A + B')) (u32 (r0 h + B + C')).

Definition spec_ripemd160 : bytes -> bytes :=
  std_digest spec_compress WriteLE64 output Initialize.

(** ** Lemmas *)

Lemma spec_line_Round X a b c d e f k r s sched :
  spec_line X (mk5 a b c d e) ((f, k, (r, s)) :: sched) =
  let '(a', c') := Round a b c d e (f b c d) (nth r X 0) k s in
  spec_line X (mk5 e a' b c' d) sched.
Proof. reflexivity. Qed.

Ltac source_line :=
  lazymatch goal with
  | |- assign _ _ = _ => abstract_assign
  | |- (let '(_, _) := Round ?a ?b ?c ?d ?e ?f ?x ?k ?r in _) = _ =>
      rewrite (spec_line_Round _ a b c d e); cbv match fix delta [nth];
      destruct (Round a b c d e f x k r); cbv beta match
  end.

Lemma Transform1_spec s chunk : Transform1 s chunk = spec_compress s chunk.
Proof.
  destruct s as [a b c d e]. cbv delta [spec_compress].
  cbv [spec_sched spec_f spec_K spec_K' spec_r spec_r' spec_s spec_s' rev app].
  cbn [map seq Nat.mul Nat.add app repeat combine flat_map].
  change (skipn 0 chunk) with chunk.
  cbv delta [Transform1 R11 R21 R31 R41 R51 R12 R22 R32 R42 R52]. cbv beta match.
  do 176 source_line. reflexivity.
Qed.

(** ** Theorem *)

(** [CRIPEMD160] computes RIPEMD-160, whatever the pieces in which the data
    is written. *)
Theorem CRIPEMD160_correct (buf0 : bytes) (chunks : list bytes) :
  length buf0 = 64%nat ->
  CRIPEMD160_Finalize (fold_left CRIPEMD160_Write chunks (CRIPEMD160_init buf0)) =
  spec_ripemd160 (concat chunks).
Proof. exact (FinalizeLoop_Writes _ _ _ _ _ Transform1_spec length_WriteLE64 buf0 chunks). Qed.

Lemma CRIPEMD160_correct_witness :
  CRIPEMD160_Finalize
    (fold_left CRIPEMD160_Write [[97]; [98; 99]] (CRIPEMD160_init (repeat 7 64))) =
  spec_ripemd160 [97; 98; 99].
Proof. exact (CRIPEMD160_correct (repeat 7 64) [[97]; [98; 99]] eq_refl). Defined.

(** The test vector of the specification. *)
Lemma ripemd160_abc :
  ripemd160 [97; 98; 99] =
  [0x8e; 0xb2; 0x08; 0xf7; 0xe0; 0x5d; 0x98; 0x7a; 0x9b; 0x04;
   0x4a; 0x8e; 0x98; 0xc6; 0xb0; 0x87; 0xf1; 0x5a; 0x0b; 0xfc].
Proof. vm_compute. reflexivity. Qed.

End Ripemd160.
