(* ===== verification/Hash.v ===== *)
(** * Hashes (src/src/hash.h, src/src/hash.cpp)

    [CHash256], [CHash160] and the [Hash]/[Hash160] templates over the hashers of
    src/src/crypto/; MurmurHash3 for the bloom filters; SipHash-2-4 with the two
    specialised versions the short-id and salted-hasher code calls. *)

From S2P Require Import Prelude Endian Hasher Sha256 Ripemd160.

Module Hash.
Local Open Scope word_scope.
Import Ripemd160 Sha256.

(** ** CHash256 and CHash160 *)

(** [CHash256::Finalize]: the inner object is reset and hashes its own digest. *)
Definition CHash256_Finalize (sha : CSHA256) : bytes :=
  let buf := CSHA256_Finalize sha in
  CSHA256_Finalize (CSHA256_Write (CSHA256_Reset sha) buf).

Definition CHash256_SingleFinalize (sha : CSHA256) : bytes := CSHA256_Finalize sha.
Definition CHash256_Write : CSHA256 -> bytes -> CSHA256 := CSHA256_Write.
Definition CHash256_Reset : CSHA256 -> CSHA256 := CSHA256_Reset.

Definition CHash160_Finalize (rbuf0 : bytes) (sha : CSHA256) : bytes :=
  let buf := CSHA256_Finalize sha in
  CRIPEMD160_Finalize (CRIPEMD160_Write (CRIPEMD160_init rbuf0) buf).

(** [Hash(pbegin, pend)], and the versions on two and three ranges; the members'
    uninitialised buffers hold zeros here, which [CSHA256_correct] shows to be
    immaterial. *)
Definition Hash1 (a : bytes) : bytes :=
  CHash256_Finalize (CHash256_Write (CSHA256_init (repeat 0 64)) a).
Definition Hash2 (a b : bytes) : bytes :=
  CHash256_Finalize (CHash256_Write (CHash256_Write (CSHA256_init (repeat 0 64)) a) b).
Definition Hash3 (a b c : bytes) : bytes :=
  CHash256_Finalize
    (CHash256_Write (CHash256_Write (CHash256_Write (CSHA256_init (repeat 0 64)) a) b) c).

Definition Hash160 (a : bytes) : bytes :=
  CHash160_Finalize (repeat 0 64) (CSHA256_Write (CSHA256_init (repeat 0 64)) a).

(** ** MurmurHash3 *)

Definition ROTL32 (x r : Z) : Z := (x <<< r) ||| (x >>> (32 - r)).

Definition murmur_c1 : Z := 0xcc9e2d51.
Definition murmur_c2 : Z := 0x1b873593.

Definition murmur_mix_k (k1 : Z) : Z :=
  let k1 := u32 (k1 * murmur_c1) in
  let k1 := ROTL32 k1 15 in
  u32 (k1 * murmur_c2).

(** The body loop over the [nblocks] whole words. *)
Fixpoint murmur_body (nblocks : nat) (data : bytes) (h1 : Z) : Z :=
  match nblocks with
  | O => h1
  | S n =>
      let k1 := murmur_mix_k (ReadLE32 data) in
      let h1 := h1 ^^^ k1 in
      let h1 := ROTL32 h1 13 in
      let h1 := u32 (h1 * 5 + 0xe6546b64) in
      murmur_body n (skipn 4 data) h1
  end.

(** The fall-through switch on the last one to three bytes. *)
Definition murmur_tail (size : Z) (tail : bytes) (h1 : Z) : Z :=
  let n := size &&& 3 in
  let k1 := 0 in
  let k1 := if n =? 3 then k1 ^^^ Z.shiftl (nth 2 tail 0) 16 else k1 in
  let k1 := if 2 <=? n then k1 ^^^ Z.shiftl (nth 1 tail 0) 8 else k1 in
  if 1 <=? n then h1 ^^^ murmur_mix_k (k1 ^^^ nth 0 tail 0) else h1.

Definition murmur_final (h1 : Z) : Z :=
  let h1 := h1 ^^^ (h1 >>> 16) in
  let h1 := u32 (h1 * 0x85ebca6b) in
  let h1 := h1 ^^^ (h1 >>> 13) in
  let h1 := u32 (h1 * 0xc2b2ae35) in
  h1 ^^^ (h1 >>> 16).

Definition MurmurHash3 (nHashSeed : Z) (vDataToHash : bytes) : Z :=
  let h1 := nHashSeed in
  let h1 :=
    if 0 <? len vDataToHash then
      let nblocks := (length vDataToHash / 4)%nat in
      let h1 := murmur_body nblocks vDataToHash h1 in
      murmur_tail (len vDataToHash) (skipn (nblocks * 4) vDataToHash) h1
    else h1 in
  murmur_final (u32 (h1 ^^^ len vDataToHash)).

(** ** SipHash-2-4 *)

Definition ROTL (x b : Z) : Z := u64 (shl64 x b ||| (x >>> (64 - b))).

Record sipv := mkV { v0 : Z; v1 : Z; v2 : Z; v3 : Z }.

(** [SIPROUND] *)
Definition SIPROUND (v : sipv) : sipv :=
  let '(mkV v0 v1 v2 v3) := v in
  let v0 := u64 (v0 + v1) in
  let v1 := ROTL v1 13 in
  let v1 := v1 ^^^ v0 in
  let v0 := ROTL v0 32 in
  let v2 := u64 (v2 + v3) in
  let v3 := ROTL v3 16 in
  let v3 := v3 ^^^ v2 in
  let v0 := u64 (v0 + v3) in
  let v3 := ROTL v3 21 in
  let v3 := v3 ^^^ v0 in
  let v2 := u64 (v2 + v1) in
  let v1 := ROTL v1 17 in
  let v1 := v1 ^^^ v2 in
  let v2 := ROTL v2 32 in
  mkV v0 v1 v2 v3.

(** [v3 ^= d; SIPROUND; SIPROUND; v0 ^= d;] *)
Definition sip_absorb (v : sipv) (d : Z) : sipv :=
  let v := mkV (v0 v) (v1 v) (v2 v) (v3 v ^^^ d) in
  let v := SIPROUND (SIPROUND v) in
  mkV (v0 v ^^^ d) (v1 v) (v2 v) (v3 v).

(** [v2 ^= 0xFF;], four rounds and the result. *)
Definition sip_finish (v : sipv) : Z :=
  let v := mkV (v0 v) (v1 v) (v2 v ^^^ 0xFF) (v3 v) in
  let v := SIPROUND (SIPROUND (SIPROUND (SIPROUND v))) in
  v0 v ^^^ v1 v ^^^ v2 v ^^^ v3 v.

Record CSipHasher := mkSip { sv : sipv; stmp : Z; scount : Z }.

Definition CSipHasher_init (k0 k1 : Z) : CSipHasher :=
  mkSip (mkV (0x736f6d6570736575 ^^^ k0) (0x646f72616e646f6d ^^^ k1)
             (0x6c7967656e657261 ^^^ k0) (0x7465646279746573 ^^^ k1)) 0 0.

(** [Write(uint64_t)]; [None] is the failed assertion. *)
Definition CSipHasher_Write64 (h : CSipHasher) (data : Z) : option CSipHasher :=
  if scount h mod 8 =? 0 then
    Some (mkSip (sip_absorb (sv h) data) (stmp h) (scount h + 8))
  else None.

(** The loop body of [Write(const uint8_t *, size_t)]. *)
Definition sip_byte (h : CSipHasher) (b : Z) : CSipHasher :=
  let t := stmp h ||| shl64 b (8 * (scount h mod 8)) in
  let c := scount h + 1 in
  if (c &&& 7) =? 0 then mkSip (sip_absorb (sv h) t) 0 c
  else mkSip (sv h) t c.

Definition CSipHasher_Write (h : CSipHasher) (data : bytes) : CSipHasher :=
  fold_left sip_byte data h.

Definition CSipHasher_Finalize (h : CSipHasher) : Z :=
  let t := stmp h ||| shl64 (scount h) 56 in
  sip_finish (sip_absorb (sv h) t).

(** [uint256::GetUint64(pos)] *)
Definition GetUint64 (val : bytes) (pos : nat) : Z :=
  let ptr := skipn (pos * 8) val in
  nth 0 ptr 0 ||| shl64 (nth 1 ptr 0) 8 ||| shl64 (nth 2 ptr 0) 16 |||
  shl64 (nth 3 ptr 0) 24 ||| shl64 (nth 4 ptr 0) 32 ||| shl64 (nth 5 ptr 0) 40 |||
  shl64 (nth 6 ptr 0) 48 ||| shl64 (nth 7 ptr 0) 56.

Definition SipHashUint256 (k0 k1 : Z) (val : bytes) : Z :=
  let d := GetUint64 val 0 in
  let v := mkV (0x736f6d6570736575 ^^^ k0) (0x646f72616e646f6d ^^^ k1)
               (0x6c7967656e657261 ^^^ k0) (0x7465646279746573 ^^^ k1 ^^^ d) in
  let v := SIPROUND (SIPROUND v) in
  let v := mkV (v0 v ^^^ d) (v1 v) (v2 v) (v3 v) in
  let v := sip_absorb v (GetUint64 val 1) in
  let v := sip_absorb v (GetUint64 val 2) in
  let v := sip_absorb v (GetUint64 val 3) in
  let v := sip_absorb v (shl64 4 59) in
  sip_finish v.

Definition SipHashUint256Extra (k0 k1 : Z) (val : bytes) (extra : Z) : Z :=
  let d := GetUint64 val 0 in
  let v := mkV (0x736f6d6570736575 ^^^ k0) (0x646f72616e646f6d ^^^ k1)
               (0x6c7967656e657261 ^^^ k0) (0x7465646279746573 ^^^ k1 ^^^ d) in
  let v := SIPROUND (SIPROUND v) in
  let v := mkV (v0 v ^^^ d) (v1 v) (v2 v) (v3 v) in
  let v := sip_absorb v (GetUint64 val 1) in
  let v := sip_absorb v (GetUint64 val 2) in
  let v := sip_absorb v (GetUint64 val 3) in
  let v := sip_absorb v (shl64 36 56 ||| extra) in
  sip_finish v.

(** ** Lemmas *)

Lemma shl64_byte b k : is_byte b -> 0 <= k <= 56 -> shl64 b k = Z.shiftl b k.
Proof.
  unfold is_byte. intros Hb Hk. unfold shl64. apply u64_small.
  rewrite Z.shiftl_mul_pow2 by lia.
  pose proof (Z.pow_le_mono_r 2 k 56 ltac:(lia) ltac:(lia)).
  change (2 ^ 64) with (256 * 2 ^ 56). nia.
Qed.

(** Or-ing the next byte in extends the little-endian value. *)
Lemma lor_next_byte p b :
  bytes_ok p -> is_byte b -> (length p <= 7)%nat ->
  le_decode p ||| shl64 b (8 * len p) = le_decode (p ++ [b]).
Proof.
  intros Hp Hb Hl. pose proof (le_decode_range p Hp).
  rewrite shl64_byte by (unfold len; auto; lia).
  rewrite lor_shiftl_add by (unfold len in *; lia).
  rewrite le_decode_app. cbn [le_decode]. lia.
Qed.

Lemma lor_next_byte_at p b x k :
  bytes_ok (p ++ [b]) -> x = le_decode p -> k = 8 * len p -> (length p <= 7)%nat ->
  x ||| shl64 b k = le_decode (p ++ [b]).
Proof.
  intros H -> -> Hl. apply bytes_ok_app in H as [Hp Hb].
  inversion Hb; subst. now apply lor_next_byte.
Qed.

Lemma GetUint64_word w rest pos val :
  skipn (pos * 8) val = w ++ rest -> length w = 8%nat -> bytes_ok w ->
  GetUint64 val pos = le_decode w.
Proof.
  intros E Hl Hw. unfold GetUint64. cbv zeta. rewrite E.
  destruct w as [|a [|b [|c [|d [|e [|f [|g [|h [|]]]]]]]]]; try discriminate Hl.
  cbn [nth app].
  assert (P : forall n, bytes_ok (firstn n [a; b; c; d; e; f; g; h]))
    by (intros; now apply Forall_firstn).
  rewrite (lor_next_byte_at [a] b a 8 (P 2%nat)) by (cbn; lia).
  rewrite (lor_next_byte_at [a; b] c _ 16 (P 3%nat)) by (reflexivity || cbn; lia).
  rewrite (lor_next_byte_at [a; b; c] d _ 24 (P 4%nat)) by (reflexivity || cbn; lia).
  rewrite (lor_next_byte_at [a; b; c; d] e _ 32 (P 5%nat)) by (reflexivity || cbn; lia).
  rewrite (lor_next_byte_at [a; b; c; d; e] f _ 40 (P 6%nat)) by (reflexivity || cbn; lia).
  rewrite (lor_next_byte_at [a; b; c; d; e; f] g _ 48 (P 7%nat)) by (reflexivity || cbn; lia).
  now rewrite (lor_next_byte_at [a; b; c; d; e; f; g] h _ 56 (P 8%nat)) by (reflexivity || cbn; lia).
Qed.

(** Bytes that do not complete a word accumulate. *)
Lemma sip_bytes_partial w p v c :
  bytes_ok (p ++ w) -> (length p + length w < 8)%nat -> c mod 8 = len p ->
  fold_left sip_byte w (mkSip v (le_decode p) c) = mkSip v (le_decode (p ++ w)) (c + len w).
Proof.
  revert p c; induction w as [|b w IH]; intros p c Hok Hl Hc.
  - change (len (@nil Z)) with 0. now rewrite app_nil_r, Z.add_0_r.
  - cbn [length] in Hl. replace (p ++ b :: w) with ((p ++ [b]) ++ w) in * by now rewrite <- app_assoc.
    pose proof (proj1 (proj1 (bytes_ok_app _ _) Hok)) as Hp1.
    pose proof (Z.div_mod c 8 ltac:(lia)). unfold len in Hc.
    assert (Hc1 : (c + 1) mod 8 = len (p ++ [b])).
    { rewrite len_app. replace (c + 1) with (c mod 8 + 1 + c / 8 * 8) by lia.
      rewrite Z.mod_add, Z.mod_small by lia. unfold len. cbn [length]. lia. }
    cbn [fold_left]. unfold sip_byte at 2. cbn [stmp scount sv].
    rewrite land_7, Hc1. destruct (Z.eqb_spec (len (p ++ [b])) 0) as [E|_].
    { rewrite len_app in E. unfold len in E. cbn [length] in E. lia. }
    rewrite (lor_next_byte_at p b) by (auto; unfold len; lia).
    rewrite IH; auto; [|rewrite length_app; cbn [length]; lia].
    f_equal. rewrite len_cons. lia.
Qed.

(** Eight bytes at a word boundary are one [Write(uint64_t)]. *)
Lemma sip_bytes_word w v c :
  bytes_ok w -> length w = 8%nat -> c mod 8 = 0 ->
  fold_left sip_byte w (mkSip v 0 c) = mkSip (sip_absorb v (le_decode w)) 0 (c + 8).
Proof.
  intros Hok Hl Hc. destruct (exists_last (l := w)) as (p & b & ->); [now destruct w|].
  rewrite length_app in Hl. cbn [length] in Hl.
  rewrite fold_left_app. change 0 with (le_decode []) at 1.
  pose proof (proj1 (proj1 (bytes_ok_app _ _) Hok)) as Hp.
  rewrite (sip_bytes_partial p []) by (auto; cbn [length]; lia).
  cbn [app fold_left]. unfold sip_byte. cbn [stmp scount sv].
  replace (len p) with 7 by (unfold len; lia).
  assert (M : (c + 7) mod 8 = 7 /\ (c + 7 + 1) mod 8 = 0).
  { pose proof (Z.div_mod c 8 ltac:(lia)). split;
      [replace (c + 7) with (7 + c / 8 * 8) by lia | replace (c + 7 + 1) with (8 + c / 8 * 8) by lia];
      now rewrite Z.mod_add by lia. }
  destruct M as [M1 M2]. rewrite M1.
  rewrite land_7, M2. cbn [Z.eqb]. rewrite (lor_next_byte_at p b) by (auto; unfold len; lia).
  f_equal; lia.
Qed.

(** The state of the general hasher after the 32 bytes of a [uint256]. *)
Lemma sip_write_uint256 k0 k1 val :
  length val = 32%nat -> bytes_ok val ->
  CSipHasher_Write (CSipHasher_init k0 k1) val =
  mkSip (sip_absorb (sip_absorb (sip_absorb (sip_absorb (sv (CSipHasher_init k0 k1))
           (GetUint64 val 0)) (GetUint64 val 1)) (GetUint64 val 2)) (GetUint64 val 3)) 0 32.
Proof.
  intros Hl Hok.
  set (w i := firstn 8 (skipn (i * 8) val)).
  assert (Hw : forall i, (i < 4)%nat -> length (w i) = 8%nat)
    by (intros; unfold w; rewrite length_firstn, length_skipn; lia).
  assert (Hb : forall i, bytes_ok (w i))
    by (intros; unfold w; apply Forall_firstn, Forall_skipn, Hok).
  assert (G : forall i, (i < 4)%nat -> GetUint64 val i = le_decode (w i)).
  { intros i Hi. apply GetUint64_word with (rest := skipn 8 (skipn (i * 8) val)); auto.
    unfold w. now rewrite firstn_skipn. }
  rewrite !G by lia.
  assert (E : val = w 0%nat ++ w 1%nat ++ w 2%nat ++ w 3%nat).
  { unfold w. cbn [Nat.mul Nat.add]. change (skipn 0 val) with val.
    do 3 (etransitivity; [symmetry; apply (firstn_skipn 8)|];
          rewrite ?skipn_skipn; apply f_equal).
    symmetry. apply firstn_all2. rewrite length_skipn. lia. }
  clearbody w. subst val. unfold CSipHasher_Write, CSipHasher_init. rewrite !fold_left_app.
  rewrite !sip_bytes_word by (auto; apply Hw; lia). reflexivity.
Qed.

Lemma CSipHasher_Finalize_32 v :
  CSipHasher_Finalize (mkSip v 0 32) = sip_finish (sip_absorb v (shl64 4 59)).
Proof.
  unfold CSipHasher_Finalize. cbn [sv stmp scount].
  change (0 ||| shl64 32 56) with (shl64 4 59). reflexivity.
Qed.

(** The specialised versions start with the first word already mixed in. *)
Lemma SipHashUint256_absorb k0 k1 val :
  SipHashUint256 k0 k1 val =
  sip_finish (sip_absorb (sip_absorb (sip_absorb (sip_absorb (sip_absorb
    (sv (CSipHasher_init k0 k1)) (GetUint64 val 0)) (GetUint64 val 1)) (GetUint64 val 2))
    (GetUint64 val 3)) (shl64 4 59)).
Proof.
  unfold SipHashUint256.
  set (d := shl64 4 59). generalize (GetUint64 val 0), (GetUint64 val 1), (GetUint64 val 2),
    (GetUint64 val 3), d. clear. intros a b c e f.
  cbv zeta. do 5 f_equal.
Qed.

Lemma SipHashUint256Extra_absorb k0 k1 val extra :
  SipHashUint256Extra k0 k1 val extra =
  sip_finish (sip_absorb (sip_absorb (sip_absorb (sip_absorb (sip_absorb
    (sv (CSipHasher_init k0 k1)) (GetUint64 val 0)) (GetUint64 val 1)) (GetUint64 val 2))
    (GetUint64 val 3)) (shl64 36 56 ||| extra)).
Proof.
  unfold SipHashUint256Extra.
  set (d := shl64 36 56 ||| extra). generalize (GetUint64 val 0), (GetUint64 val 1),
    (GetUint64 val 2), (GetUint64 val 3), d. clear. intros a b c e f.
  cbv zeta. do 5 f_equal.
Qed.

(** The double hash and the 160-bit hash in terms of the standards. *)
Lemma CHash256_Finalize_repr h d :
  repr 64 Transform1 Initialize h d ->
  CHash256_Finalize h = fips_sha256 (fips_sha256 d).
Proof.
  intros R. unfold CHash256_Finalize. cbv zeta.
  rewrite (Finalize_std _ _ _ _ _ Sha256.Transform1_fips length_WriteBE64 h d R : CSHA256_Finalize h = _).
  apply (Finalize_std _ _ _ _ _ Sha256.Transform1_fips length_WriteBE64).
  change (fips_sha256 d) with ([] ++ fips_sha256 d).
  apply Write_repr; [lia | apply div64 |]. apply repr_init; [lia|].
  now destruct R as (k & full & rest & _ & _ & _ & _ & _ & Hlb & _).
Qed.

(** ** Theorems *)

Lemma Write_std h d e : repr 64 Transform1 Initialize h d -> repr 64 Transform1 Initialize (CSHA256_Write h e) (d ++ e).
Proof. intros. apply Write_repr; [lia | apply div64 | assumption]. Qed.

Lemma init_std : repr 64 Transform1 Initialize (CSHA256_init (repeat 0 64)) [].
Proof. apply repr_init; [lia | reflexivity]. Qed.

Lemma Hash1_spec (a : bytes) : Hash1 a = fips_sha256 (fips_sha256 a).
Proof. apply CHash256_Finalize_repr, (Write_std _ [] a init_std). Qed.

Lemma Hash2_spec (a b : bytes) : Hash2 a b = fips_sha256 (fips_sha256 (a ++ b)).
Proof. apply CHash256_Finalize_repr, (Write_std _ _ b (Write_std _ [] a init_std)). Qed.

(** the [Hash] templates compute SHA-256 twice over the concatenation of
    their ranges, and [Hash160] RIPEMD-160 over SHA-256. *)
Theorem Hash_correct (a b c : bytes) :
  Hash1 a = fips_sha256 (fips_sha256 a) /\
  Hash2 a b = fips_sha256 (fips_sha256 (a ++ b)) /\
  Hash3 a b c = fips_sha256 (fips_sha256 (a ++ b ++ c)) /\
  Hash160 a = spec_ripemd160 (fips_sha256 a).
Proof.
  split; [apply Hash1_spec|]. split; [apply Hash2_spec|]. split.
  - rewrite app_assoc. apply CHash256_Finalize_repr, (Write_std _ _ c (Write_std _ _ b (Write_std _ [] a init_std))).
  - unfold Hash160, CHash160_Finalize. cbv zeta.
    rewrite (Finalize_std _ _ _ _ _ Sha256.Transform1_fips length_WriteBE64 _ a (Write_std _ [] a init_std)
      : CSHA256_Finalize (CSHA256_Write (CSHA256_init (repeat 0 64)) a) = fips_sha256 a).
    pose proof (FinalizeLoop_Writes _ _ _ Ripemd160.output Ripemd160.Initialize
                  Ripemd160.Transform1_spec length_WriteLE64 (repeat 0 64) [fips_sha256 a] eq_refl)
      as E.
    cbn [concat] in E. rewrite app_nil_r in E. exact E.
Qed.

(** the specialised [SipHashUint256] is the general hasher fed with the four
    words of the value, and with its 32 bytes, as hash.h says. *)
Theorem SipHashUint256_general (k0 k1 : Z) (val : bytes) :
  length val = 32%nat -> bytes_ok val ->
  SipHashUint256 k0 k1 val = CSipHasher_Finalize (CSipHasher_Write (CSipHasher_init k0 k1) val) /\
  (exists h1 h2 h3 h4,
     CSipHasher_Write64 (CSipHasher_init k0 k1) (GetUint64 val 0) = Some h1 /\
     CSipHasher_Write64 h1 (GetUint64 val 1) = Some h2 /\
     CSipHasher_Write64 h2 (GetUint64 val 2) = Some h3 /\
     CSipHasher_Write64 h3 (GetUint64 val 3) = Some h4 /\
     SipHashUint256 k0 k1 val = CSipHasher_Finalize h4).
Proof.
  intros Hl Hok. rewrite SipHashUint256_absorb. split.
  - rewrite (sip_write_uint256 k0 k1 val Hl Hok). symmetry. apply CSipHasher_Finalize_32.
  - do 4 eexists. do 4 (split; [reflexivity|]). symmetry. apply CSipHasher_Finalize_32.
Qed.

Lemma SipHashUint256_general_witness :
  SipHashUint256 1 2 (repeat 7 32) =
  CSipHasher_Finalize (CSipHasher_Write (CSipHasher_init 1 2) (repeat 7 32)).
Proof.
  apply (SipHashUint256_general 1 2 (repeat 7 32));
    [reflexivity | repeat constructor; cbn; lia].
Defined.

(** [SipHashUint256Extra] is the general hasher fed with the value and the
    four little-endian bytes of the extra word. *)
Theorem SipHashUint256Extra_general (k0 k1 : Z) (val : bytes) (extra : Z) :
  length val = 32%nat -> bytes_ok val -> 0 <= extra < 2 ^ 32 ->
  SipHashUint256Extra k0 k1 val extra =
  CSipHasher_Finalize
    (CSipHasher_Write (CSipHasher_Write (CSipHasher_init k0 k1) val) (WriteLE32 extra)).
Proof.
  intros Hl Hok He. rewrite SipHashUint256Extra_absorb, (sip_write_uint256 k0 k1 val Hl Hok).
  unfold CSipHasher_Write. change (mkSip ?v 0 32) with (mkSip v (le_decode []) 32).
  rewrite sip_bytes_partial by first [apply le_encode_ok | reflexivity | cbn; lia].
  unfold CSipHasher_Finalize. cbn [sv stmp scount app].
  unfold WriteLE32. rewrite (le_decode_encode 4 extra), Z.mod_small by lia.
  rewrite (Z.lor_comm extra). reflexivity.
Qed.

Lemma SipHashUint256Extra_general_witness :
  SipHashUint256Extra 1 2 (repeat 7 32) 5 =
  CSipHasher_Finalize
    (CSipHasher_Write (CSipHasher_Write (CSipHasher_init 1 2) (repeat 7 32)) (WriteLE32 5)).
Proof.
  apply (SipHashUint256Extra_general 1 2 (repeat 7 32) 5);
    [reflexivity | repeat constructor; cbn; lia | lia].
Defined.

End Hash.
