(* ===== verification/IntSerialization.v ===== *)
(** * Script integers as bytes (src/src/script/int_serialization.h)

    Little-endian sign-and-magnitude encoding: [serialize] and [deserialize] on
    64-bit integers, the minimality test and the in-place minimal re-encoding.
    The specification is the pair [sm_value] / [sm_encode] on integers of any
    size; the four functions are proved to compute it. *)

From S2P Require Import Prelude Endian.

Module IntSerialization.
Local Open Scope word_scope.

(** ** Definitions *)

(** [bsv::abs]: the magnitude of an [int64_t] as a [uint64_t]. *)
Definition abs64 (value : Z) : Z :=
  let neg := value <? 0 in
  if neg then u64 (- u64 value) else u64 value.

(** The loop [while(absvalue != 0)] of [serialize]; each round drops a byte, so
    the fuel is the number of bytes. *)
Fixpoint serialize_loop (fuel : nat) (neg : bool) (absvalue : Z) : bytes :=
  match fuel with
  | O => []
  | S fuel' =>
      if absvalue =? 0 then []
      else
        let tmp := absvalue &&& 0xff in
        let absvalue := absvalue >>> 8 in
        if negb (absvalue =? 0) then tmp :: serialize_loop fuel' neg absvalue
        else if negb ((tmp &&& 0x80) =? 0) then [tmp; if neg then 0x80 else 0]
        else [if neg then tmp ||| 0x80 else tmp]
  end.

(** [bsv::serialize<int64_t>] *)
Definition serialize (value : Z) : bytes :=
  if value =? 0 then []
  else serialize_loop 8 (value <? 0) (abs64 value).

(** The loop of [deserialize<int64_t>] over all bytes but the last.  A shift by 64
    or more has no defined value in C++: [None]. *)
Fixpoint deserialize_loop (i : Z) (l : bytes) (result : Z) : option Z :=
  match l with
  | [] => Some result
  | b :: l' =>
      if 64 <=? 8 * i then None
      else deserialize_loop (i + 1) l' (i64 (result ||| i64 (Z.shiftl b (8 * i))))
  end.

(** [bsv::deserialize<int64_t>]; the empty range fails the assertion. *)
Definition deserialize (l : bytes) : option Z :=
  match l with
  | [] => None
  | _ :: _ =>
      let d := len l in
      match deserialize_loop 0 (removelast l) 0 with
      | None => None
      | Some result =>
          if 8 <? d then Some result
          else
            let tmp := last l 0 in
            let negative := negb ((tmp &&& 0x80) =? 0) in
            let tmp := if negative then tmp &&& 0x7f else tmp in
            let result := i64 (result ||| i64 (Z.shiftl tmp (8 * (d - 1)))) in
            Some (if negative then i64 (- result) else result)
      end
  end.

Definition IsMinimallyEncoded (span : bytes) (nMaxNumSize : Z) : bool :=
  let size := len span in
  if nMaxNumSize <? size then false
  else if 0 <? size then
    if (last span 0 &&& 0x7f) =? 0 then
      if (size <=? 1) || ((nth (length span - 2) span 0 &&& 0x80) =? 0) then false
      else true
    else true
  else true.

(** [data[i] = x] *)
Definition upd (data : bytes) (i : nat) (x : Z) : bytes :=
  firstn i data ++ x :: skipn (S i) data.

(** The trimming loop of [MinimallyEncode], from [i] downwards. *)
Fixpoint MinimallyEncode_loop (i : nat) (data : bytes) (last : Z) : bytes :=
  match i with
  | O => []
  | S i' =>
      if negb (nth i' data 0 =? 0) then
        if negb ((nth i' data 0 &&& 0x80) =? 0) then firstn (S i) (upd data i last)
        else firstn i (upd data i' (nth i' data 0 ||| last))
      else MinimallyEncode_loop i' data last
  end.

(** [MinimallyEncode]: the new contents and whether they changed. *)
Definition MinimallyEncode (data : bytes) : bytes * bool :=
  if len data =? 0 then (data, false)
  else
    let last := last data 0 in
    if negb ((last &&& 0x7f) =? 0) then (data, false)
    else if len data =? 1 then ([], true)
    else if negb ((nth (length data - 2) data 0 &&& 0x80) =? 0) then (data, false)
    else (MinimallyEncode_loop (length data - 1) data last, true).

(** ** Specification *)

(** Sign and magnitude of an encoding: the sign is the top bit of the last byte. *)
Fixpoint sm_neg (l : bytes) : bool :=
  match l with
  | [] => false
  | [t] => 128 <=? t
  | _ :: l' => sm_neg l'
  end.

Fixpoint sm_mag (l : bytes) : Z :=
  match l with
  | [] => 0
  | [t] => t mod 128
  | b :: l' => b + 256 * sm_mag l'
  end.

Definition sm_value (l : bytes) : Z := if sm_neg l then - sm_mag l else sm_mag l.

(** The minimal encoding of an integer of any size. *)
Definition sm_encode (v : Z) : bytes :=
  serialize_loop (S (Z.to_nat (Z.log2 (Z.abs v)))) (v <? 0) (Z.abs v).

(** No shorter encoding has the same value: the last byte carries magnitude, or
    is there only because the byte before it uses its top bit. *)
Fixpoint minimal (l : bytes) : bool :=
  match l with
  | [] => true
  | [t] => negb (t mod 128 =? 0)
  | [b; t] => negb (t mod 128 =? 0) || (128 <=? b)
  | _ :: l' => minimal l'
  end.

(** ** Lemmas *)

Lemma sm_neg_cons b l : l <> [] -> sm_neg (b :: l) = sm_neg l.
Proof. now destruct l. Qed.

Lemma sm_mag_cons b l : l <> [] -> sm_mag (b :: l) = b + 256 * sm_mag l.
Proof. now destruct l. Qed.

Lemma minimal_cons b c d l : minimal (b :: c :: d :: l) = minimal (c :: d :: l).
Proof. reflexivity. Qed.

Lemma sm_mag_nonneg l : bytes_ok l -> 0 <= sm_mag l.
Proof.
  induction 1 as [|b l Hb Hl IH]; [cbn; lia|]. unfold is_byte in Hb.
  destruct l as [|c l]; [apply Z.mod_pos_bound; lia|].
  rewrite sm_mag_cons by discriminate. lia.
Qed.

(** A minimal encoding that is not empty is not zero. *)
Lemma minimal_mag_pos l : bytes_ok l -> l <> [] -> minimal l = true -> 0 < sm_mag l.
Proof.
  induction 1 as [|b l Hb Hl IH]; intros Hne Hm; [easy|]. unfold is_byte in Hb.
  destruct l as [|c [|d l]].
  - cbn [minimal sm_mag] in *. zbool. pose proof (Z.mod_pos_bound b 128). lia.
  - cbn [minimal sm_mag] in *. inversion Hl; subst. unfold is_byte in *.
    pose proof (Z.mod_pos_bound c 128 ltac:(lia)).
    apply orb_true_iff in Hm as [Hm|Hm]; zbool; lia.
  - rewrite sm_mag_cons by discriminate. specialize (IH ltac:(discriminate) Hm). lia.
Qed.

(** One round of the loop on a magnitude [b + 256 * r]. *)
Lemma serialize_loop_more fuel neg b r :
  is_byte b -> 0 < r ->
  serialize_loop (S fuel) neg (b + 256 * r) = b :: serialize_loop fuel neg r.
Proof.
  unfold is_byte. intros Hb Hr. cbn [serialize_loop].
  destruct (Z.eqb_spec (b + 256 * r) 0); [lia|].
  rewrite land_255, Z.shiftr_div_pow2 by lia. change (2 ^ 8) with 256.
  replace ((b + 256 * r) mod 256) with b by (apply Z.mod_unique with r; lia).
  replace ((b + 256 * r) / 256) with r by (apply Z.div_unique with b; lia).
  destruct (Z.eqb_spec r 0); [lia | reflexivity].
Qed.

Lemma serialize_loop_last fuel neg b :
  is_byte b -> b <> 0 ->
  serialize_loop (S fuel) neg b =
  if b <? 128 then [if neg then b + 128 else b] else [b; if neg then 0x80 else 0].
Proof.
  intros Hb Hb0. cbn [serialize_loop]. destruct (Z.eqb_spec b 0); [lia|].
  unfold is_byte in Hb. rewrite land_255, Z.mod_small, Z.shiftr_div_pow2 by lia.
  rewrite Z.div_small by (change (2 ^ 8) with 256; lia). cbn [Z.eqb negb].
  rewrite byte_land_80 by exact Hb.
  destruct (Z.ltb_spec b 128); cbn [negb]; [|reflexivity].
  now rewrite byte_lor_80 by lia.
Qed.

(** Minimal encodings are what the loop writes. *)
Lemma serialize_loop_minimal l fuel :
  bytes_ok l -> minimal l = true -> (length l <= fuel)%nat ->
  serialize_loop fuel (sm_neg l) (sm_mag l) = l.
Proof.
  intros Hok. revert fuel; induction Hok as [|b l Hb Hl IH]; intros fuel Hm Hf.
  - now destruct fuel.
  - destruct fuel as [|fuel]; cbn [length] in Hf; [lia|].
    destruct l as [|t [|d l]].
    + cbn [minimal sm_neg sm_mag] in *. pose proof (Z.mod_pos_bound b 128 ltac:(lia)).
      unfold is_byte in Hb. zbool. rewrite serialize_loop_last by (unfold is_byte; lia).
      destruct (Z.ltb_spec (b mod 128) 128); [|lia].
      destruct (Z.leb_spec 128 b); f_equal; [|apply Z.mod_small; lia].
      pose proof (Z.div_mod b 128 ltac:(lia)). assert (b / 128 = 1); [|lia].
      symmetry. apply Z.div_unique with (b - 128); lia.
    + rewrite sm_neg_cons, sm_mag_cons by discriminate.
      destruct (Z.eqb_spec (t mod 128) 0) as [E|E].
      * cbn [minimal sm_mag sm_neg] in *. rewrite E in *. cbn [Z.eqb negb orb] in Hm. zbool.
        rewrite Z.mul_0_r, Z.add_0_r, serialize_loop_last by (exact Hb || lia).
        destruct (Z.ltb_spec b 128); [lia|]. inversion Hl as [|? ? Ht _]; subst.
        unfold is_byte in Ht. pose proof (Z.div_mod t 128 ltac:(lia)).
        repeat f_equal. assert (0 <= t / 128 < 2) by (split; [apply Z.div_pos; lia |
          apply Z.div_lt_upper_bound; lia]).
        destruct (Z.leb_spec 128 t); lia.
      * assert (minimal [t] = true) by (cbn; now apply negb_true_iff, Z.eqb_neq).
        rewrite serialize_loop_more by
          first [exact Hb | apply minimal_mag_pos; (assumption || discriminate)].
        f_equal. apply IH; [assumption | cbn [length] in *; lia].
    + rewrite sm_neg_cons, sm_mag_cons by discriminate.
      rewrite serialize_loop_more by
        first [exact Hb | apply minimal_mag_pos; (assumption || discriminate)].
      f_equal. apply IH; [assumption | cbn [length] in *; lia].
Qed.

(** The loop writes a minimal encoding of what it is given. *)
Definition encodes (neg : bool) (a : Z) (l : bytes) : Prop :=
  bytes_ok l /\ minimal l = true /\ l <> [] /\ sm_mag l = a /\ sm_neg l = neg.

Lemma encodes_cons neg b a l :
  is_byte b -> encodes neg a l -> encodes neg (b + 256 * a) (b :: l).
Proof.
  intros Hb (Hok & Hm & Hne & Ha & Hn). repeat split.
  - now constructor.
  - destruct l as [|t [|d l]]; [easy | | exact Hm].
    cbn [minimal] in *. now rewrite Hm.
  - discriminate.
  - now rewrite sm_mag_cons, Ha.
  - now rewrite sm_neg_cons.
Qed.

Lemma encodes_byte (neg : bool) b :
  0 < b < 256 ->
  encodes neg b (if b <? 128 then [if neg then b + 128 else b]
                 else [b; if neg then 0x80 else 0]).
Proof.
  intros Hb. destruct (Z.ltb_spec b 128).
  - assert (E : (if neg then b + 128 else b) mod 128 = b).
    { destruct neg; [|apply Z.mod_small; lia].
      symmetry. apply Z.mod_unique with 1; lia. }
    repeat split; cbn [minimal sm_mag sm_neg]; rewrite ?E.
    + constructor; [|constructor]. unfold is_byte. destruct neg; lia.
    + apply negb_true_iff, Z.eqb_neq. lia.
    + discriminate.
    + reflexivity.
    + destruct neg; [apply Z.leb_le | apply Z.leb_gt]; lia.
  - repeat split; cbn [minimal sm_mag sm_neg].
    + constructor; [unfold is_byte; lia|]. constructor; [|constructor].
      unfold is_byte. destruct neg; lia.
    + replace (128 <=? b) with true by (symmetry; apply Z.leb_le; lia). apply orb_true_r.
    + discriminate.
    + destruct neg; cbn; lia.
    + now destruct neg.
Qed.

Lemma serialize_loop_encodes fuel neg a :
  0 < a < 256 ^ Z.of_nat fuel -> encodes neg a (serialize_loop fuel neg a).
Proof.
  revert a; induction fuel as [|fuel IH]; intros a Ha; [cbn in Ha; lia|].
  pose proof (Z.mod_pos_bound a 256 ltac:(lia)) as Hmod.
  pose proof (Z.div_mod a 256 ltac:(lia)) as E.
  rewrite Nat2Z.inj_succ, Z.pow_succ_r in Ha by lia.
  assert (Hq : 0 <= a / 256 < 256 ^ Z.of_nat fuel)
    by (split; [apply Z.div_pos | apply Z.div_lt_upper_bound]; lia).
  destruct (Z.eq_dec (a / 256) 0) as [E0|E0].
  - rewrite serialize_loop_last by (unfold is_byte; lia). apply encodes_byte. lia.
  - replace a with (a mod 256 + 256 * (a / 256)) by lia.
    rewrite serialize_loop_more by (unfold is_byte; lia).
    apply encodes_cons; [exact Hmod|]. apply IH. lia.
Qed.

Lemma encodes_value neg a l :
  encodes neg a l -> sm_value l = (if neg then - a else a).
Proof. intros (_ & _ & _ & Ha & Hn). unfold sm_value. now rewrite Ha, Hn. Qed.

Lemma serialize_loop_fuel fuel fuel' neg a :
  0 <= a < 256 ^ Z.of_nat fuel -> a < 256 ^ Z.of_nat fuel' ->
  serialize_loop fuel neg a = serialize_loop fuel' neg a.
Proof.
  intros H H'. destruct (Z.eq_dec a 0) as [->|Hne]; [now destruct fuel, fuel'|].
  assert (E := serialize_loop_encodes fuel neg a ltac:(lia)).
  assert (E' := serialize_loop_encodes fuel' neg a ltac:(lia)).
  destruct E as (Hok & Hm & _ & Ha & Hn), E' as (Hok' & Hm' & _ & Ha' & Hn').
  set (F := Nat.max (length (serialize_loop fuel neg a)) (length (serialize_loop fuel' neg a))).
  rewrite <- (serialize_loop_minimal _ F Hok Hm) by lia.
  rewrite <- (serialize_loop_minimal _ F Hok' Hm') by lia. congruence.
Qed.

Lemma log2_fuel a : 0 <= a -> a < 256 ^ Z.of_nat (S (Z.to_nat (Z.log2 a))).
Proof.
  intros Ha. pose proof (Z.log2_nonneg a).
  rewrite Nat2Z.inj_succ, Z2Nat.id by lia. change 256 with (2 ^ 8).
  rewrite <- Z.pow_mul_r by lia.
  apply Z.lt_le_trans with (2 ^ Z.succ (Z.log2 a)).
  - destruct (Z.eq_dec a 0) as [->|]; [cbn; lia|]. apply Z.log2_spec. lia.
  - apply Z.pow_le_mono_r; lia.
Qed.

Lemma sm_encode_0 : sm_encode 0 = [].
Proof. reflexivity. Qed.

Lemma sm_encode_spec v :
  bytes_ok (sm_encode v) /\ minimal (sm_encode v) = true /\ sm_value (sm_encode v) = v.
Proof.
  destruct (Z.eq_dec v 0) as [->|Hv].
  - repeat split. constructor.
  - assert (E : encodes (v <? 0) (Z.abs v) (sm_encode v))
      by (apply serialize_loop_encodes; pose proof (log2_fuel (Z.abs v)); lia).
    pose proof (encodes_value _ _ _ E) as V.
    destruct E as (Hok & Hm & _). repeat split; auto.
    rewrite V. destruct (Z.ltb_spec v 0); lia.
Qed.

Lemma sm_encode_value l : bytes_ok l -> minimal l = true -> sm_encode (sm_value l) = l.
Proof.
  intros Hok Hm. destruct l as [|b l]; [reflexivity|].
  pose proof (minimal_mag_pos _ Hok ltac:(discriminate) Hm) as Hpos.
  set (l' := b :: l) in *.
  assert (Ha : Z.abs (sm_value l') = sm_mag l') by (unfold sm_value; destruct (sm_neg l'); lia).
  assert (Hn : (sm_value l' <? 0) = sm_neg l').
  { unfold sm_value. destruct (sm_neg l'); [apply Z.ltb_lt | apply Z.ltb_ge]; lia. }
  unfold sm_encode. rewrite Ha, Hn.
  pose proof (log2_fuel (sm_mag l') ltac:(lia)) as Hf.
  set (F := Nat.max (length l') (S (Z.to_nat (Z.log2 (sm_mag l'))))).
  rewrite <- (serialize_loop_minimal l' F Hok Hm) at 4 by lia.
  apply serialize_loop_fuel; [lia|].
  eapply Z.lt_le_trans; [exact Hf|]. apply Z.pow_le_mono_r; lia.
Qed.

(** Minimality is being one's own re-encoding. *)
Lemma minimal_iff l : bytes_ok l -> (minimal l = true <-> sm_encode (sm_value l) = l).
Proof.
  intros Hok. split; [now apply sm_encode_value|].
  intros E. rewrite <- E. apply sm_encode_spec.
Qed.

Lemma sm_neg_app p t : sm_neg (p ++ [t]) = (128 <=? t).
Proof.
  induction p as [|b p IH]; [reflexivity|]. cbn [app].
  rewrite sm_neg_cons; [exact IH | now destruct p].
Qed.

Lemma sm_mag_app p t : sm_mag (p ++ [t]) = le_decode p + 2 ^ (8 * len p) * (t mod 128).
Proof.
  induction p as [|b p IH]; [cbn [app sm_mag le_decode]; change (2 ^ (8 * len (@nil Z))) with 1; lia|].
  cbn [app le_decode]. rewrite sm_mag_cons by now destruct p. rewrite IH, len_cons.
  pose proof (len_nonneg p). replace (8 * (1 + len p)) with (8 + 8 * len p) by lia.
  rewrite Z.pow_add_r by lia. change (2 ^ 8) with 256. ring.
Qed.

Lemma minimal_app p b t : minimal (p ++ [b; t]) = negb (t mod 128 =? 0) || (128 <=? b).
Proof.
  induction p as [|c p IH]; [reflexivity|]. cbn [app].
  destruct p as [|d [|e p]]; exact IH.
Qed.

(** A list is empty, one byte, or ends in two bytes. *)
Lemma last_two_cases (l : bytes) : l = [] \/ (exists t, l = [t]) \/ exists p b t, l = p ++ [b; t].
Proof.
  destruct (rev l) as [|t [|b p]] eqn:E.
  - left. now rewrite <- (rev_involutive l), E.
  - right; left. exists t. now rewrite <- (rev_involutive l), E.
  - right; right. exists (rev p), b, t. rewrite <- (rev_involutive l), E.
    cbn. now rewrite <- app_assoc.
Qed.

Lemma last_app2 (p : bytes) b t : last (p ++ [b; t]) 0 = t.
Proof. change [b; t] with ([b] ++ [t]). rewrite app_assoc. apply last_last. Qed.

Lemma nth_app2 (p : bytes) b t : nth (length (p ++ [b; t]) - 2) (p ++ [b; t]) 0 = b.
Proof.
  rewrite length_app. cbn [length]. rewrite app_nth2 by lia.
  replace (length p + 2 - 2 - length p)%nat with 0%nat by lia. reflexivity.
Qed.

Lemma IsMinimallyEncoded_minimal l max :
  bytes_ok l -> IsMinimallyEncoded l max = (len l <=? max) && minimal l.
Proof.
  intros Hok. unfold IsMinimallyEncoded. rewrite Z.ltb_antisym.
  destruct (len l <=? max); cbn [negb andb]; [|reflexivity].
  destruct (last_two_cases l) as [-> | [[t ->] | (p & b & t & ->)]]; [reflexivity | |].
  - inversion Hok; subst. change (len [t]) with 1. cbn [Z.ltb Z.compare last].
    rewrite byte_land_7f by assumption. cbn [minimal]. now destruct (t mod 128 =? 0).
  - apply bytes_ok_app in Hok as [_ Hok]. inversion Hok as [|? ? Hb Ht]; inversion Ht; subst.
    rewrite last_app2, nth_app2, byte_land_7f, byte_land_80, minimal_app, len_app by assumption.
    change (len [b; t]) with 2. pose proof (len_nonneg p).
    destruct (Z.ltb_spec 0 (len p + 2)); [|lia]. destruct (Z.leb_spec (len p + 2) 1); [lia|].
    rewrite Z.ltb_antisym. now destruct (t mod 128 =? 0), (128 <=? b).
Qed.

(** The loop of [deserialize] adds up the bytes it passes. *)
Lemma i64_small x : - 2 ^ 63 <= x < 2 ^ 63 -> i64 x = x.
Proof.
  intros H. unfold i64, sint. change (2 ^ (64 - 1)) with (2 ^ 63).
  destruct (Z.lt_ge_cases x 0).
  - replace (x mod 2 ^ 64) with (x + 2 ^ 64) by (apply Z.mod_unique with (-1); lia).
    destruct (Z.ltb_spec (x + 2 ^ 64) (2 ^ 63)); lia.
  - rewrite Z.mod_small by lia. destruct (Z.ltb_spec x (2 ^ 63)); lia.
Qed.

Lemma deserialize_or r x i :
  0 <= i <= 7 -> 0 <= r < 2 ^ (8 * i) -> 0 <= x < (if i =? 7 then 128 else 256) ->
  i64 (r ||| i64 (Z.shiftl x (8 * i))) = r + 2 ^ (8 * i) * x.
Proof.
  intros Hi Hr Hx.
  assert (2 ^ (8 * i) * (if i =? 7 then 128 else 256) <= 2 ^ 63).
  { destruct (Z.eqb_spec i 7) as [->|]; [lia|]. change 256 with (2 ^ 8).
    rewrite <- Z.pow_add_r by lia. apply Z.pow_le_mono_r; lia. }
  rewrite (i64_small (Z.shiftl _ _)) by (rewrite Z.shiftl_mul_pow2 by lia; nia).
  rewrite lor_shiftl_add by lia. apply i64_small. nia.
Qed.

Lemma deserialize_loop_spec l i r :
  bytes_ok l -> 0 <= i -> i + len l <= 7 -> 0 <= r < 2 ^ (8 * i) ->
  deserialize_loop i l r = Some (r + 2 ^ (8 * i) * le_decode l).
Proof.
  intros Hok. revert i r; induction Hok as [|b l Hb Hl IH]; intros i r Hi Hlen Hr.
  - cbn. f_equal. lia.
  - cbn [deserialize_loop le_decode]. rewrite len_cons in Hlen. pose proof (len_nonneg l).
    unfold is_byte in Hb.
    destruct (Z.leb_spec 64 (8 * i)); [lia|].
    rewrite deserialize_or by (destruct (Z.eqb_spec i 7); lia).
    assert (E : 2 ^ (8 * (i + 1)) = 2 ^ (8 * i) * 256)
      by (replace (8 * (i + 1)) with (8 * i + 8) by lia; now rewrite Z.pow_add_r by lia).
    rewrite IH by (rewrite ?E; nia). f_equal. rewrite E. ring.
Qed.

Lemma deserialize_value l :
  bytes_ok l -> 1 <= len l <= 8 -> deserialize l = Some (sm_value l).
Proof.
  intros Hok Hlen. destruct (exists_last (l := l)) as (p & t & ->);
    [intros ->; cbn in Hlen; lia|].
  rewrite len_app in Hlen. change (len [t]) with 1 in Hlen.
  pose proof Hok as Hok2. apply bytes_ok_app in Hok2 as [Hp Ht]. inversion Ht as [|? ? Hb _]; subst.
  pose proof (le_decode_range p Hp) as Hr. pose proof (len_nonneg p).
  unfold deserialize. destruct (p ++ [t]) eqn:E; [now destruct p|]. rewrite <- E. clear E.
  rewrite removelast_last, last_last, deserialize_loop_spec by (cbn; auto; lia).
  rewrite len_app. change (len [t]) with 1.
  destruct (Z.ltb_spec 8 (len p + 1)); [lia|].
  replace (len p + 1 - 1) with (len p) by lia.
  rewrite byte_land_80, byte_land_7f, Z.ltb_antisym, negb_involutive by assumption.
  change (2 ^ (8 * 0)) with 1. rewrite Z.add_0_l, Z.mul_1_l.
  unfold sm_value. rewrite sm_neg_app, sm_mag_app. unfold is_byte in Hb.
  pose proof (Z.mod_pos_bound t 128 ltac:(lia)).
  replace (if 128 <=? t then t mod 128 else t) with (t mod 128)
    by (destruct (Z.leb_spec 128 t); [reflexivity | apply Z.mod_small; lia]).
  rewrite deserialize_or by (destruct (Z.eqb_spec (len p) 7); lia).
  assert (2 ^ (8 * len p) * 128 <= 2 ^ 63)
    by (change 128 with (2 ^ 7); rewrite <- Z.pow_add_r by lia; apply Z.pow_le_mono_r; lia).
  destruct (128 <=? t); f_equal. apply i64_small. nia.
Qed.

Lemma sm_value_abs l n :
  bytes_ok l -> len l <= n -> 1 <= n -> Z.abs (sm_value l) < 2 ^ (8 * n - 1).
Proof.
  intros Hok Hl Hn. pose proof (Z.pow_pos_nonneg 2 (8 * n - 1) ltac:(lia) ltac:(lia)).
  destruct (exists_last_or_nil l) as [->|(p & t & ->)]; [change (sm_value []) with 0; lia|].
  apply bytes_ok_app in Hok as [Hp _]. pose proof (le_decode_range p Hp) as Hr.
  rewrite len_app in Hl. change (len [t]) with 1 in Hl. pose proof (len_nonneg p).
  pose proof (Z.mod_pos_bound t 128 ltac:(lia)).
  assert (2 ^ (8 * len p) * 128 <= 2 ^ (8 * n - 1))
    by (change 128 with (2 ^ 7); rewrite <- Z.pow_add_r by lia; apply Z.pow_le_mono_r; lia).
  assert (0 <= sm_mag (p ++ [t]) < 2 ^ (8 * n - 1)) by (rewrite sm_mag_app; nia).
  unfold sm_value. destruct (sm_neg _); lia.
Qed.

Lemma sm_value_range l : bytes_ok l -> len l <= 8 -> - 2 ^ 63 < sm_value l < 2 ^ 63.
Proof. intros Hok Hl. pose proof (sm_value_abs l 8 Hok Hl ltac:(lia)). cbn in *. lia. Qed.

Lemma serialize_sm_encode v : - 2 ^ 63 <= v < 2 ^ 63 -> serialize v = sm_encode v.
Proof.
  intros Hv. unfold serialize. destruct (Z.eqb_spec v 0) as [->|Hne]; [reflexivity|].
  assert (Ha : abs64 v = Z.abs v).
  { unfold abs64. destruct (Z.ltb_spec v 0); rewrite ?u64_mod.
    - symmetry. rewrite Z.abs_neq by lia.
      replace (v mod 2 ^ 64) with (v + 2 ^ 64) by (apply Z.mod_unique with (-1); lia).
      apply Z.mod_unique with (-1); lia.
    - rewrite Z.mod_small by lia. lia. }
  rewrite Ha. pose proof (log2_fuel (Z.abs v)). apply serialize_loop_fuel; [|lia].
  change (256 ^ Z.of_nat 8) with (2 ^ 64). lia.
Qed.

Lemma minimal_snoc p t : t mod 128 <> 0 -> minimal (p ++ [t]) = true.
Proof.
  intros H. apply Z.eqb_neq in H. destruct (exists_last_or_nil p) as [->|(q & b & ->)].
  - cbn. now rewrite H.
  - rewrite <- app_assoc. cbn [app]. now rewrite minimal_app, H.
Qed.

Lemma le_decode_zeros k : le_decode (repeat 0 k) = 0.
Proof. induction k as [|k IH]; cbn [repeat le_decode]; lia. Qed.

(** Zero bytes below the sign byte do not count. *)
Lemma sm_value_zeros p k t :
  t mod 128 = 0 ->
  sm_value (p ++ repeat 0 k ++ [t]) = if 128 <=? t then - le_decode p else le_decode p.
Proof.
  intros Ht. rewrite app_assoc. unfold sm_value. rewrite sm_neg_app, sm_mag_app, Ht.
  rewrite le_decode_app, le_decode_zeros. destruct (128 <=? t); lia.
Qed.

Lemma firstn_upd (p q : bytes) x y :
  firstn (S (length p)) (upd (p ++ x :: q) (length p) y) = p ++ [y].
Proof.
  unfold upd. replace (firstn (length p) (p ++ x :: q)) with p
    by (rewrite firstn_app, Nat.sub_diag, firstn_all; cbn; now rewrite app_nil_r).
  rewrite firstn_app, firstn_all2 by lia.
  replace (S (length p) - length p)%nat with 1%nat by lia. reflexivity.
Qed.

(** The byte that takes over the sign. *)
Lemma sign_byte x t :
  0 < x < 128 -> is_byte t -> t mod 128 = 0 ->
  is_byte (x ||| t) /\ (x ||| t) mod 128 = x /\ (128 <=? (x ||| t)) = (128 <=? t).
Proof.
  unfold is_byte. intros Hx Ht H0.
  assert (t = 0 \/ t = 128) as [->| ->].
  { pose proof (Z.div_mod t 128 ltac:(lia)). assert (0 <= t / 128 < 2); [|lia].
    split; [apply Z.div_pos | apply Z.div_lt_upper_bound]; lia. }
  - rewrite Z.lor_0_r, Z.mod_small by lia. repeat split; lia.
  - rewrite byte_lor_80 by lia. repeat split; try lia.
    symmetry. apply Z.mod_unique with 1; lia.
Qed.

Lemma MinimallyEncode_loop_spec p k t :
  bytes_ok p -> is_byte t -> t mod 128 = 0 ->
  let data := p ++ repeat 0 k ++ [t] in
  let r := MinimallyEncode_loop (length p) data t in
  bytes_ok r /\ minimal r = true /\ (length r <= S (length p))%nat /\
  sm_value r = sm_value data.
Proof.
  intros Hp Ht H0. revert k; induction p as [|x p IH] using rev_ind; intros k; cbv zeta.
  - cbn [length MinimallyEncode_loop]. repeat split; [constructor | cbn; lia |].
    rewrite sm_value_zeros by exact H0. cbn. now destruct (128 <=? t).
  - pose proof Hp as Hp0. apply bytes_ok_app in Hp0 as [Hp1 Hx].
    inversion Hx as [|? ? Hbx _]; subst. rewrite length_app, Nat.add_1_r.
    cbn [MinimallyEncode_loop]. rewrite sm_value_zeros by exact H0. rewrite <- app_assoc.
    cbn [app]. rewrite app_nth2, Nat.sub_diag by lia. cbn [nth].
    destruct (Z.eqb_spec x 0) as [->|Hx0]; cbn [negb].
    + specialize (IH Hp1 (S k)). cbv zeta in IH. cbn [repeat app] in IH.
      destruct IH as (H1 & H2 & H3 & H4). repeat split; auto. rewrite H4.
      change (0 :: repeat 0 k ++ [t]) with (repeat 0 (S k) ++ [t]).
      rewrite sm_value_zeros, le_decode_app by exact H0. cbn [le_decode].
      destruct (128 <=? t); lia.
    + rewrite byte_land_80 by exact Hbx. unfold is_byte in Hbx.
      destruct (Z.ltb_spec x 128) as [Hlt|Hge]; cbn [negb].
      * destruct (sign_byte x t ltac:(lia) Ht H0) as (S1 & S2 & S3).
        rewrite firstn_upd. repeat split.
        -- now apply bytes_ok_snoc.
        -- apply minimal_snoc. lia.
        -- rewrite length_app. cbn. lia.
        -- unfold sm_value. rewrite sm_neg_app, sm_mag_app, le_decode_app, S2, S3.
           cbn [le_decode]. destruct (128 <=? t); lia.
      * assert (exists y q, repeat 0 k ++ [t] = y :: q) as (y & q & ->)
          by (destruct k; cbn; eauto).
        change (p ++ x :: y :: q) with (p ++ [x] ++ y :: q).
        rewrite app_assoc. replace (S (length p)) with (length (p ++ [x]))
          by (rewrite length_app; cbn; lia).
        rewrite firstn_upd. repeat split; [now apply bytes_ok_snoc | | rewrite length_app; cbn; lia |];
          rewrite <- app_assoc; cbn [app].
        -- rewrite minimal_app. replace (128 <=? x) with true by (symmetry; apply Z.leb_le; lia).
           apply orb_true_r.
        -- change (p ++ [x; t]) with (p ++ [x] ++ repeat 0 0 ++ [t]). rewrite app_assoc.
           now rewrite sm_value_zeros.
Qed.

Lemma MinimallyEncode_spec data :
  bytes_ok data ->
  fst (MinimallyEncode data) = sm_encode (sm_value data) /\
  snd (MinimallyEncode data) = negb (minimal data) /\
  (length (fst (MinimallyEncode data)) <= length data)%nat.
Proof.
  intros Hok. unfold MinimallyEncode.
  destruct (last_two_cases data) as [-> | [[t ->] | (p & b & t & ->)]].
  - repeat split; cbn; lia.
  - inversion Hok as [|? ? Ht _]; subst. change (len [t]) with 1. cbn [Z.eqb last Pos.eqb].
    rewrite byte_land_7f by assumption. cbn [minimal].
    destruct (Z.eqb_spec (t mod 128) 0) as [E|E]; cbn [negb fst snd];
      (split; [|split; [reflexivity | cbn; lia]]).
    + unfold sm_value. cbn [sm_neg sm_mag]. rewrite E. now destruct (128 <=? t).
    + symmetry. apply sm_encode_value; [assumption|]. now apply (minimal_snoc []).
  - pose proof Hok as Hok2. apply bytes_ok_app in Hok2 as [Hp Hbt].
    inversion Hbt as [|? ? Hb Ht]; inversion Ht as [|? ? Ht' _]; subst.
    rewrite len_app. change (len [b; t]) with 2. pose proof (len_nonneg p).
    destruct (Z.eqb_spec (len p + 2) 0); [lia|]. destruct (Z.eqb_spec (len p + 2) 1); [lia|].
    rewrite last_app2, nth_app2, byte_land_7f, byte_land_80, minimal_app by assumption.
    destruct (Z.eqb_spec (t mod 128) 0) as [E|E]; cbn [negb orb fst snd].
    2:{ split; [|split; [reflexivity | cbn; lia]]. symmetry. apply sm_encode_value; [assumption|].
        apply Z.eqb_neq in E. now rewrite minimal_app, E. }
    rewrite Z.ltb_antisym, negb_involutive. destruct (128 <=? b) eqn:Eb; cbn [negb fst snd].
    + split; [|split; [reflexivity | cbn; lia]]. symmetry. apply sm_encode_value; [assumption|].
      rewrite minimal_app, Eb. apply orb_true_r.
    + change [b; t] with ([b] ++ repeat 0 0 ++ [t]). rewrite app_assoc.
      replace (length ((p ++ [b]) ++ repeat 0%Z 0 ++ [t]) - 1)%nat with (length (p ++ [b]))
        by (rewrite !length_app; cbn; lia).
      destruct (MinimallyEncode_loop_spec (p ++ [b]) 0 t) as (H1 & H2 & H3 & H4);
        [now apply bytes_ok_snoc | assumption | assumption |].
      rewrite <- H4. repeat split.
      * symmetry. now apply sm_encode_value.
      * etransitivity; [exact H3|]. rewrite !length_app. cbn. lia.
Qed.

(** Two encodings of one length and value differ at most in the sign of zero. *)
Lemma same_value_same_length l l' :
  bytes_ok l -> bytes_ok l' -> minimal l = true ->
  sm_value l' = sm_value l -> length l = length l' -> l' = l.
Proof.
  intros Hok Hok' Hm E EL. destruct (exists_last_or_nil l) as [->|(p & t & ->)].
  { now destruct l'. }
  pose proof (minimal_mag_pos _ Hok ltac:(now destruct p) Hm) as Hpos.
  pose proof (sm_mag_nonneg _ Hok') as Hnn.
  destruct (exists_last_or_nil l') as [->|(p' & t' & ->)]; [now destruct p|].
  rewrite !length_app in EL. cbn [length] in EL.
  apply bytes_ok_app in Hok as [Hp Ht], Hok' as [Hp' Ht'].
  inversion Ht as [|? ? Hb _]; inversion Ht' as [|? ? Hb' _]; subst. unfold is_byte in Hb, Hb'.
  unfold sm_value in E. rewrite !sm_neg_app in E.
  assert (EM : sm_mag (p' ++ [t']) = sm_mag (p ++ [t]))
    by (destruct (128 <=? t), (128 <=? t'); lia).
  assert (EN : (128 <=? t') = (128 <=? t)) by (destruct (128 <=? t), (128 <=? t'); lia).
  rewrite !sm_mag_app in EM.
  assert (ED : le_decode (p' ++ [t' mod 128]) = le_decode (p ++ [t mod 128]))
    by (rewrite !le_decode_app; cbn [le_decode]; lia).
  pose proof (Z.mod_pos_bound t 128 ltac:(lia)). pose proof (Z.mod_pos_bound t' 128 ltac:(lia)).
  apply (f_equal (le_encode (length (p ++ [t mod 128])))) in ED.
  replace (length (p ++ [t mod 128])) with (length (p' ++ [t' mod 128])) in ED at 1
    by (rewrite !length_app; cbn; lia).
  rewrite !le_encode_decode in ED by (apply bytes_ok_snoc; [assumption | unfold is_byte; lia]).
  apply app_inj_tail in ED as [-> ET]. f_equal. f_equal.
  pose proof (Z.div_mod t 128 ltac:(lia)). pose proof (Z.div_mod t' 128 ltac:(lia)).
  destruct (Z.leb_spec 128 t), (Z.leb_spec 128 t'); try discriminate; nia.
Qed.

(** The size of a minimal encoding is bounded by the magnitude. *)
Lemma minimal_lower l :
  bytes_ok l -> minimal l = true -> l <> [] -> 2 ^ (8 * len l - 9) <= sm_mag l.
Proof.
  intros Hok Hm Hne. pose proof (minimal_mag_pos l Hok Hne Hm) as Hpos.
  destruct (last_two_cases l) as [-> | [[t ->] | (p & b & t & ->)]]; [easy | cbn; cbn in Hpos; lia |].
  rewrite minimal_app in Hm.
  replace (p ++ [b; t]) with ((p ++ [b]) ++ [t]) by now rewrite <- app_assoc.
  rewrite sm_mag_app, le_decode_app, !len_app. cbn [le_decode].
  change (len [b]) with 1. change (len [t]) with 1. pose proof (len_nonneg p).
  apply bytes_ok_app in Hok as [Hp Hbt]. inversion Hbt as [|? ? Hb Ht]; subst.
  pose proof (le_decode_range p Hp). unfold is_byte in Hb.
  pose proof (Z.mod_pos_bound t 128 ltac:(lia)).
  replace (8 * (len p + 1 + 1) - 9) with (8 * len p + 7) by lia.
  replace (8 * (len p + 1)) with (8 * len p + 8) by lia.
  rewrite !Z.pow_add_r by lia. change (2 ^ 7) with 128. change (2 ^ 8) with 256.
  apply orb_true_iff in Hm as [Hm|Hm]; zbool; nia.
Qed.

Lemma sm_encode_len v : - 2 ^ 63 < v < 2 ^ 63 -> len (sm_encode v) <= 8.
Proof.
  intros Hv. destruct (sm_encode_spec v) as (Hok & Hm & Hval).
  destruct (list_eq_dec Z.eq_dec (sm_encode v) []) as [->|Hne]; [cbn; lia|].
  pose proof (minimal_lower _ Hok Hm Hne) as HL.
  assert (HM : sm_mag (sm_encode v) < 2 ^ 63).
  { unfold sm_value in Hval. destruct (sm_neg (sm_encode v)); lia. }
  destruct (Z.lt_ge_cases 8 (len (sm_encode v))) as [H8|]; [|assumption].
  pose proof (Z.pow_le_mono_r 2 63 (8 * len (sm_encode v) - 9) ltac:(lia) ltac:(lia)). lia.
Qed.

Lemma sm_encode_len9 v : - 2 ^ 63 <= v < 2 ^ 63 -> len (sm_encode v) <= 9.
Proof.
  intros Hv. destruct (Z.eq_dec v (- 2 ^ 63)) as [->|]; [now vm_compute|].
  pose proof (sm_encode_len v). lia.
Qed.

(** ** Theorems *)

(** every [int64_t] but the most negative one survives [serialize] and
    [deserialize], and what is written is minimally encoded in at most 8 bytes;
    zero is written as no bytes. *)
Theorem serialize_deserialize (v : Z) :
  - 2 ^ 63 < v < 2 ^ 63 ->
  IsMinimallyEncoded (serialize v) 8 = true /\
  (v = 0 -> serialize v = []) /\ (v <> 0 -> deserialize (serialize v) = Some v).
Proof.
  intros Hv. destruct (sm_encode_spec v) as (Hok & Hm & Hval).
  assert (Hlen : len (sm_encode v) <= 8) by (apply sm_encode_len; exact Hv).
  rewrite serialize_sm_encode by lia. repeat split.
  - rewrite IsMinimallyEncoded_minimal, Hm by assumption.
    rewrite andb_true_r. now apply Z.leb_le.
  - intros ->. reflexivity.
  - intros Hne. rewrite <- Hval at 2. apply deserialize_value; [assumption|].
    split; [|assumption]. pose proof (len_nonneg (sm_encode v)).
    destruct (sm_encode v) as [|b l]; [now subst v|].
    rewrite len_cons. pose proof (len_nonneg l). lia.
Qed.

Lemma serialize_deserialize_witness :
  IsMinimallyEncoded (serialize (-255)) 8 = true /\
  (-255 = 0 -> serialize (-255) = []) /\ (-255 <> 0 -> deserialize (serialize (-255)) = Some (-255)).
Proof. apply (serialize_deserialize (-255)). lia. Defined.

(** [IsMinimallyEncoded] accepts an element exactly when it fits the size
    limit and no shorter encoding has the same value; there is then only one. *)
Theorem IsMinimallyEncoded_iff (l : bytes) (max : Z) :
  bytes_ok l ->
  (IsMinimallyEncoded l max = true <->
   len l <= max /\
   forall l', bytes_ok l' -> sm_value l' = sm_value l -> l' = l \/ len l < len l').
Proof.
  intros Hok. rewrite IsMinimallyEncoded_minimal, andb_true_iff, Z.leb_le by assumption.
  split; intros [Hlen H]; split; auto.
  - intros l' Hok' E. destruct (MinimallyEncode_spec l' Hok') as (F & _ & L).
    rewrite E, (sm_encode_value l) in F by assumption. rewrite F in L.
    destruct (Nat.eq_dec (length l) (length l')) as [EL|NL]; [|right; unfold len; lia].
    left. apply same_value_same_length; auto.
  - destruct (sm_encode_spec (sm_value l)) as (H1 & H2 & H3).
    destruct (MinimallyEncode_spec l Hok) as (F & _ & L). rewrite F in L.
    destruct (H _ H1 H3) as [E|E]; [now rewrite <- E|]. unfold len in E. lia.
Qed.

Lemma IsMinimallyEncoded_iff_witness :
  IsMinimallyEncoded [255; 128] 4 = true <->
  len [255; 128] <= 4 /\
  forall l', bytes_ok l' -> sm_value l' = sm_value [255; 128] ->
             l' = [255; 128] \/ len [255; 128] < len l'.
Proof.
  apply (IsMinimallyEncoded_iff [255; 128] 4). repeat constructor; cbn; lia.
Defined.

(** [MinimallyEncode] leaves the minimal encoding of the value it was given,
    and reports a change exactly when that differs from its input. *)
Theorem MinimallyEncode_correct (data : bytes) :
  bytes_ok data ->
  fst (MinimallyEncode data) = sm_encode (sm_value data) /\
  sm_value (fst (MinimallyEncode data)) = sm_value data /\
  IsMinimallyEncoded (fst (MinimallyEncode data)) (len data) = true /\
  snd (MinimallyEncode data) = negb (IsMinimallyEncoded data (len data)).
Proof.
  intros Hok. destruct (MinimallyEncode_spec data Hok) as (E1 & E2 & E3).
  destruct (sm_encode_spec (sm_value data)) as (H1 & H2 & H3).
  rewrite E1 in *. rewrite E2, !IsMinimallyEncoded_minimal, H2, Z.leb_refl by assumption.
  repeat split; auto. rewrite andb_true_r. apply Z.leb_le. unfold len. lia.
Qed.

Lemma MinimallyEncode_correct_witness :
  fst (MinimallyEncode [1; 0; 128]) = sm_encode (sm_value [1; 0; 128]).
Proof. apply (MinimallyEncode_correct [1; 0; 128]). repeat constructor; cbn; lia. Defined.

End IntSerialization.
