(* ===== verification/Outcome.v ===== *)
(** * Outcomes of script code

    [ScriptError] is src/src/script/script_error.h.  A computation of the script
    engine ends in one of five ways, and [outcome] keeps them apart: a value, a
    script error set with [set_error], a C++ exception, cancellation of the
    evaluation, or [Abort]: a failed assertion or an operation C++ leaves
    undefined, after which nothing is known of the program. *)

From S2P Require Import Prelude.

Inductive ScriptError : Set :=
| SCRIPT_ERR_OK
| SCRIPT_ERR_UNKNOWN_ERROR
| SCRIPT_ERR_EVAL_FALSE
| SCRIPT_ERR_OP_RETURN
| SCRIPT_ERR_SCRIPT_SIZE
| SCRIPT_ERR_PUSH_SIZE
| SCRIPT_ERR_OP_COUNT
| SCRIPT_ERR_STACK_SIZE
| SCRIPT_ERR_SIG_COUNT
| SCRIPT_ERR_PUBKEY_COUNT
| SCRIPT_ERR_INVALID_OPERAND_SIZE
| SCRIPT_ERR_INVALID_NUMBER_RANGE
| SCRIPT_ERR_IMPOSSIBLE_ENCODING
| SCRIPT_ERR_INVALID_SPLIT_RANGE
| SCRIPT_ERR_SCRIPTNUM_OVERFLOW
| SCRIPT_ERR_SCRIPTNUM_MINENCODE
| SCRIPT_ERR_VERIFY
| SCRIPT_ERR_EQUALVERIFY
| SCRIPT_ERR_CHECKMULTISIGVERIFY
| SCRIPT_ERR_CHECKSIGVERIFY
| SCRIPT_ERR_NUMEQUALVERIFY
| SCRIPT_ERR_BAD_OPCODE
| SCRIPT_ERR_DISABLED_OPCODE
| SCRIPT_ERR_INVALID_STACK_OPERATION
| SCRIPT_ERR_INVALID_ALTSTACK_OPERATION
| SCRIPT_ERR_UNBALANCED_CONDITIONAL
| SCRIPT_ERR_DIV_BY_ZERO
| SCRIPT_ERR_MOD_BY_ZERO
| SCRIPT_ERR_NEGATIVE_LOCKTIME
| SCRIPT_ERR_UNSATISFIED_LOCKTIME
| SCRIPT_ERR_SIG_HASHTYPE
| SCRIPT_ERR_SIG_DER
| SCRIPT_ERR_MINIMALDATA
| SCRIPT_ERR_SIG_PUSHONLY
| SCRIPT_ERR_SIG_HIGH_S
| SCRIPT_ERR_SIG_NULLDUMMY
| SCRIPT_ERR_PUBKEYTYPE
| SCRIPT_ERR_CLEANSTACK
| SCRIPT_ERR_MINIMALIF
| SCRIPT_ERR_SIG_NULLFAIL
| SCRIPT_ERR_DISCOURAGE_UPGRADABLE_NOPS
| SCRIPT_ERR_NONCOMPRESSED_PUBKEY
| SCRIPT_ERR_ILLEGAL_FORKID
| SCRIPT_ERR_MUST_USE_FORKID
| SCRIPT_ERR_BIG_INT
| SCRIPT_ERR_ERROR_COUNT.

Definition ScriptError_eq_dec (a b : ScriptError) : {a = b} + {a <> b}.
Proof. decide equality. Defined.

(** The exceptions the engine throws; [std_exception] is any the outer handler
    does not name ([std::invalid_argument], [std::out_of_range], ...). *)
Inductive exn : Set :=
| scriptnum_overflow_error
| scriptnum_minencode_error
| stack_overflow_error
| big_int_error
| std_exception.

Inductive outcome (A : Type) : Type :=
| Ok (a : A)
| Err (e : ScriptError)
| Throw (x : exn)
| Canceled
| Abort.

Arguments Ok {A} a.
Arguments Err {A} e.
Arguments Throw {A} x.
Arguments Canceled {A}.
Arguments Abort {A}.

Definition obind {A B} (m : outcome A) (k : A -> outcome B) : outcome B :=
  match m with
  | Ok a => k a
  | Err e => Err e
  | Throw x => Throw x
  | Canceled => Canceled
  | Abort => Abort
  end.

Declare Scope outcome_scope.
Delimit Scope outcome_scope with outcome.
Notation "'let*' x := m 'in' k" := (obind m (fun x => k))
  (at level 10, x pattern, m at level 99, k at level 200) : outcome_scope.

(** [if(cond) return set_error(serror, e);] *)
Definition error_if {A} (cond : bool) (e : ScriptError) (k : outcome A) : outcome A :=
  if cond then Err e else k.

Notation "'fail_if' c 'with' e ;; k" := (error_if c e k)
  (at level 10, c at level 99, e at level 99, k at level 200) : outcome_scope.

(** [assert(cond);] *)
Definition assert_ {A} (cond : bool) (k : outcome A) : outcome A :=
  if cond then k else Abort.

(** A library call that reports failure, after which the wrapper throws [x]. *)
Definition or_throw {A} (x : exn) (m : option A) : outcome A :=
  match m with Some a => Ok a | None => Throw x end.

Definition or_abort {A} (m : option A) : outcome A :=
  match m with Some a => Ok a | None => Abort end.

(** ** Lemmas *)

Lemma Ok_inj {A} (a b : A) : Ok a = Ok b -> a = b.
Proof. congruence. Qed.

Lemma obind_ok {A B} (m : outcome A) (k : A -> outcome B) b :
  obind m k = Ok b -> exists a, m = Ok a /\ k a = Ok b.
Proof. destruct m; cbn; try discriminate. intros H. now exists a. Qed.

Lemma error_if_ok {A} c e (k : outcome A) b : error_if c e k = Ok b -> c = false /\ k = Ok b.
Proof. destruct c; cbn; [discriminate | auto]. Qed.

Lemma assert_ok {A} c (k : outcome A) b : assert_ c k = Ok b -> c = true /\ k = Ok b.
Proof. destruct c; cbn; [auto | discriminate]. Qed.

(** Takes a successful computation apart step by step. *)
Ltac ok_inv :=
  repeat match goal with
  | H : obind _ _ = Ok _ |- _ =>
      let a := fresh "a" in let E := fresh "E" in
      apply obind_ok in H; destruct H as (a & E & H)
  | H : error_if _ _ _ = Ok _ |- _ =>
      let E := fresh "E" in apply error_if_ok in H; destruct H as (E & H)
  | H : assert_ _ _ = Ok _ |- _ =>
      let E := fresh "E" in apply assert_ok in H; destruct H as (E & H)
  | H : or_throw _ ?m = Ok _ |- _ => destruct m eqn:?; cbn [or_throw] in H; [|discriminate]
  | H : or_abort ?m = Ok _ |- _ => destruct m eqn:?; cbn [or_abort] in H; [|discriminate]
  | H : Ok _ = Ok _ |- _ => apply Ok_inj in H; subst
  | H : Err _ = Ok _ |- _ => discriminate H
  | H : Throw _ = Ok _ |- _ => discriminate H
  | H : Abort = Ok _ |- _ => discriminate H
  | H : Canceled = Ok _ |- _ => discriminate H
  end.

(** ** No undefined behaviour *)

(** A computation that does not reach an undefined operation or a failed assertion, and
    whose result, if there is one, satisfies [P]. *)
Definition safe {A} (P : A -> Prop) (m : outcome A) : Prop :=
  match m with Ok a => P a | Abort => False | _ => True end.

Create HintDb safe.

Lemma safe_bind {A B} (Q : A -> Prop) (P : B -> Prop) m (k : A -> outcome B) :
  safe Q m -> (forall a, Q a -> safe P (k a)) -> safe P (obind m k).
Proof. destruct m; cbn; auto. Qed.

Lemma safe_mono {A} (Q P : A -> Prop) m : safe Q m -> (forall a, Q a -> P a) -> safe P m.
Proof. destruct m; cbn; auto. Qed.

Lemma safe_error_if {A} (P : A -> Prop) c e m :
  (c = false -> safe P m) -> safe P (error_if c e m).
Proof. destruct c; cbn; auto. Qed.

Lemma safe_if {A} (P : A -> Prop) (c : bool) m1 m2 :
  (c = true -> safe P m1) -> (c = false -> safe P m2) -> safe P (if c then m1 else m2).
Proof. destruct c; auto. Qed.

Lemma safe_ok {A} (P : A -> Prop) a : P a -> safe P (Ok a).
Proof. exact (fun H => H). Qed.

Lemma safe_throw {A} (P : A -> Prop) x (m : option A) :
  (forall a, m = Some a -> P a) -> safe P (or_throw x m).
Proof. destruct m; cbn; auto. Qed.

Lemma safe_abort {A} (P : A -> Prop) (m : option A) :
  m <> None -> (forall a, m = Some a -> P a) -> safe P (or_abort m).
Proof. destruct m; cbn; auto. Qed.

Lemma safe_assert {A} (P : A -> Prop) c m : c = true -> safe P m -> safe P (assert_ c m).
Proof. now intros ->. Qed.

(** From an equation for the successful case; the other outcomes only need not be
    [Abort]. *)
Lemma safe_intro {A} (P : A -> Prop) m : m <> Abort -> (forall a, m = Ok a -> P a) -> safe P m.
Proof. destruct m; cbn; auto. Qed.

Lemma safe_ok_inv {A} (P : A -> Prop) m a : safe P m -> m = Ok a -> P a.
Proof. now intros H ->. Qed.

(** One step through a computation; the first part of a bind is left to [tac]. *)
Ltac safe_step tac :=
  match goal with
  | |- safe _ (obind _ _) =>
      eapply safe_bind; [tac | let a := fresh "a" in let H := fresh "H" in intros a H; cbv beta in H]
  | |- safe _ (error_if _ _ _) => apply safe_error_if; intros ?
  | |- safe _ (if _ then _ else _) => apply safe_if; intros ?
  | |- safe _ (Err _) => exact I
  | |- safe _ (Throw _) => exact I
  | |- safe _ Canceled => exact I
  | |- safe _ (Ok _) => apply safe_ok
  end.
