(* ===== verification/BigInt.v ===== *)
(** * Big integers (src/src/big_int.cpp, src/src/big_int.h)

    [bsv::bint] wraps an OpenSSL BIGNUM.  OpenSSL is not part of the repository:
    the class [BIGNUM] lists the functions the wrapper calls and
    [BIGNUM_Laws] what their manual pages promise.  [Z_BIGNUM] is a concrete
    implementation on [Z], which shows that the promises can be kept and runs the
    examples. *)

From S2P Require Import Prelude Endian IntSerialization Outcome.
Import IntSerialization.

(** ** The library *)

(** [None] is the failure the wrapper turns into [big_int_error]. *)
Class BIGNUM : Type := {
  bn : Type;
  BN_set_word : Z -> option bn;
  BN_set_negative : bn -> bool -> bn;
  BN_value_one : bn;
  BN_add : bn -> bn -> option bn;
  BN_sub : bn -> bn -> option bn;
  BN_mul : bn -> bn -> option bn;
  BN_div : bn -> bn -> option bn;
  BN_mod : bn -> bn -> option bn;
  BN_lshift : bn -> Z -> option bn;
  BN_rshift : bn -> Z -> option bn;
  BN_cmp : bn -> bn -> Z;
  BN_is_negative : bn -> bool;
  BN_bn2bin : bn -> bytes;
  BN_bin2bn : bytes -> bn;
  BN_bn2mpi : bn -> bytes;
  BN_mpi2bn : bytes -> option bn;
  (** [BN_to_ASN1_INTEGER] followed by [ASN1_INTEGER_get] *)
  BN_to_long : bn -> option Z
}.

Definition be_decode (l : bytes) : Z := le_decode (rev l).

(** The body of the MPI format, from the sign and the big-endian magnitude: a
    zero byte in front if the top bit is taken, then the top bit for the sign. *)
Definition mpi_body (neg : bool) (mag : bytes) : bytes :=
  match mag with
  | [] => []
  | h :: r =>
      if 128 <=? h then (if neg then 128 else 0) :: mag
      else (if neg then h + 128 else h) :: r
  end.

Definition mpi_value (m : bytes) : Z :=
  match m with
  | [] => 0
  | h :: r => if 128 <=? h then - be_decode (h - 128 :: r) else be_decode m
  end.

(** The documented behaviour, in terms of the integer a BIGNUM stands for. *)
Class BIGNUM_Laws (B : BIGNUM) : Type := {
  bnZ : bn -> Z;
  BN_set_word_Z w b : 0 <= w < 2 ^ 64 -> BN_set_word w = Some b -> bnZ b = w;
  BN_set_negative_Z b n :
    bnZ (BN_set_negative b n) = if n then - Z.abs (bnZ b) else Z.abs (bnZ b);
  BN_value_one_Z : bnZ BN_value_one = 1;
  BN_add_Z a b c : BN_add a b = Some c -> bnZ c = bnZ a + bnZ b;
  BN_sub_Z a b c : BN_sub a b = Some c -> bnZ c = bnZ a - bnZ b;
  BN_mul_Z a b c : BN_mul a b = Some c -> bnZ c = bnZ a * bnZ b;
  BN_div_Z a b c : BN_div a b = Some c -> bnZ b <> 0 /\ bnZ c = Z.quot (bnZ a) (bnZ b);
  BN_mod_Z a b c : BN_mod a b = Some c -> bnZ b <> 0 /\ bnZ c = Z.rem (bnZ a) (bnZ b);
  BN_lshift_Z a n c : 0 <= n -> BN_lshift a n = Some c -> bnZ c = bnZ a * 2 ^ n;
  BN_rshift_Z a n c : 0 <= n -> BN_rshift a n = Some c -> bnZ c = Z.quot (bnZ a) (2 ^ n);
  BN_cmp_Z a b : Z.sgn (BN_cmp a b) = Z.sgn (bnZ a - bnZ b);
  BN_is_negative_Z b : BN_is_negative b = (bnZ b <? 0);
  BN_bn2bin_ok b : bytes_ok (BN_bn2bin b);
  BN_bn2bin_Z b : be_decode (BN_bn2bin b) = Z.abs (bnZ b);
  BN_bn2bin_top b h r : BN_bn2bin b = h :: r -> h <> 0;
  BN_bin2bn_Z l : bytes_ok l -> bnZ (BN_bin2bn l) = be_decode l;
  BN_bn2mpi_body b :
    BN_bn2mpi b =
    let body := mpi_body (bnZ b <? 0) (BN_bn2bin b) in WriteBE32 (len body) ++ body;
  BN_mpi2bn_Z m b :
    bytes_ok m -> len m < 2 ^ 31 -> BN_mpi2bn (WriteBE32 (len m) ++ m) = Some b ->
    bnZ b = mpi_value m;
  BN_to_long_Z b z : - 2 ^ 63 < bnZ b < 2 ^ 63 -> BN_to_long b = Some z -> z = bnZ b
}.

(** The library's calls succeed: they fail only if memory runs out, the divisor is zero,
    the size in front of a number does not fit the data, or a number does not fit the
    machine word it is converted to. *)
Class BIGNUM_Alloc (B : BIGNUM) {L : BIGNUM_Laws B} : Prop := {
  BN_mpi2bn_some m : bytes_ok m -> len m < 2 ^ 31 -> BN_mpi2bn (WriteBE32 (len m) ++ m) <> None;
  BN_set_word_some w : 0 <= w < 2 ^ 64 -> BN_set_word w <> None;
  BN_add_some a b : BN_add a b <> None;
  BN_sub_some a b : BN_sub a b <> None;
  BN_mul_some a b : BN_mul a b <> None;
  BN_div_some a b : bnZ b <> 0 -> BN_div a b <> None;
  BN_mod_some a b : bnZ b <> 0 -> BN_mod a b <> None;
  BN_to_long_some b : - 2 ^ 63 < bnZ b < 2 ^ 63 -> BN_to_long b <> None
}.

(** ** An implementation on [Z] *)

(** The minimal big-endian bytes of a natural number. *)
Definition be_bytes (x : Z) : bytes :=
  rev (le_encode (if x =? 0 then 0 else S (Z.to_nat (Z.log2 x / 8))) x).

Lemma be_bytes_decode x : 0 <= x -> be_decode (be_bytes x) = x.
Proof.
  intros Hx. unfold be_decode, be_bytes. rewrite rev_involutive, le_decode_encode.
  destruct (Z.eqb_spec x 0) as [->|Hne]; [reflexivity|].
  apply Z.mod_small. split; [lia|].
  pose proof (Z.log2_nonneg x). pose proof (Z.div_pos (Z.log2 x) 8 ltac:(lia) ltac:(lia)).
  rewrite Nat2Z.inj_succ, Z2Nat.id by lia.
  apply Z.log2_lt_pow2; [lia|]. pose proof (Z.mod_pos_bound (Z.log2 x) 8 ltac:(lia)).
  pose proof (Z.div_mod (Z.log2 x) 8 ltac:(lia)). lia.
Qed.

Lemma be_bytes_top x h r : 0 <= x -> be_bytes x = h :: r -> h <> 0.
Proof.
  intros Hx E Hh. pose proof (be_bytes_decode x Hx) as D. rewrite E, Hh in D.
  unfold be_decode in D. cbn [rev] in D. rewrite le_decode_app in D. cbn [le_decode] in D.
  assert (Hok : bytes_ok (rev r)).
  { apply Forall_rev. assert (bytes_ok (h :: r)) as H by (rewrite <- E; apply Forall_rev, le_encode_ok).
    now inversion H. }
  pose proof (le_decode_range _ Hok) as R. rewrite len_rev in R.
  assert (HL : len (h :: r) = if x =? 0 then 0 else 1 + Z.log2 x / 8).
  { rewrite <- E. unfold be_bytes, len. rewrite length_rev, length_le_encode.
    destruct (x =? 0); [reflexivity|]. pose proof (Z.log2_nonneg x).
    pose proof (Z.div_pos (Z.log2 x) 8 ltac:(lia) ltac:(lia)). lia. }
  rewrite len_cons in HL. pose proof (len_nonneg r).
  destruct (Z.eqb_spec x 0); [lia|].
  assert (2 ^ (8 * len r) <= x); [|lia].
  apply Z.log2_le_pow2; [lia|]. pose proof (Z.mul_div_le (Z.log2 x) 8). lia.
Qed.

#[export] Instance Z_BIGNUM : BIGNUM := {|
  bn := Z;
  BN_set_word w := Some w;
  BN_set_negative b n := if n then - Z.abs b else Z.abs b;
  BN_value_one := 1;
  BN_add a b := Some (a + b);
  BN_sub a b := Some (a - b);
  BN_mul a b := Some (a * b);
  BN_div a b := if b =? 0 then None else Some (Z.quot a b);
  BN_mod a b := if b =? 0 then None else Some (Z.rem a b);
  BN_lshift a n := Some (a * 2 ^ n);
  BN_rshift a n := Some (Z.quot a (2 ^ n));
  BN_cmp a b := Z.sgn (a - b);
  BN_is_negative b := b <? 0;
  BN_bn2bin b := be_bytes (Z.abs b);
  BN_bin2bn l := be_decode l;
  BN_bn2mpi b :=
    let body := mpi_body (b <? 0) (be_bytes (Z.abs b)) in WriteBE32 (len body) ++ body;
  BN_mpi2bn l := Some (mpi_value (skipn 4 l));
  BN_to_long b := Some b
|}.

#[export] Instance Z_BIGNUM_Laws : BIGNUM_Laws Z_BIGNUM.
Proof.
  refine {| bnZ := fun b : @bn Z_BIGNUM => b |}; cbn; intros; try congruence.
  - destruct (Z.eqb_spec b 0); [discriminate|]. split; congruence.
  - destruct (Z.eqb_spec b 0); [discriminate|]. split; congruence.
  - now destruct (a - b).
  - apply Forall_rev, le_encode_ok.
  - apply be_bytes_decode. lia.
  - apply be_bytes_top with (Z.abs b) r; [lia | assumption].
Defined.

#[export] Instance Z_BIGNUM_Alloc : BIGNUM_Alloc Z_BIGNUM (L := Z_BIGNUM_Laws).
Proof.
  constructor; try (intros; discriminate); intros a b Hb; cbn in *; now destruct (Z.eqb_spec b 0).
Qed.

Module BigInt.
Local Open Scope outcome_scope.
Local Open Scope word_scope.

Section Bint.
Context {B : BIGNUM}.

(** ** Definitions *)

Definition bint : Type := bn.

Definition INT64_MIN : Z := - 2 ^ 63.

(** [bint(int64_t)]; the branch for the minimum adds one before the negation and
    takes it off again. *)
Definition bint_of_int64 (i : Z) : outcome bint :=
  if 0 <=? i then or_throw big_int_error (BN_set_word i)
  else if INT64_MIN <? i then
    let* v := or_throw big_int_error (BN_set_word (- i)) in
    Ok (BN_set_negative v true)
  else
    let ii := i + 1 in
    let* v := or_throw big_int_error (BN_set_word (- ii)) in
    let v := BN_set_negative v true in
    or_throw big_int_error (BN_sub v BN_value_one).

(** [bint(int)] *)
Definition INT_MIN : Z := - 2 ^ 31.
Definition INT_MAX : Z := 2 ^ 31 - 1.

Definition bint_of_int (i : Z) : outcome bint :=
  if 0 <=? i then or_throw big_int_error (BN_set_word i)
  else if INT_MIN <? i then
    let* v := or_throw big_int_error (BN_set_word (- i)) in
    Ok (BN_set_negative v true)
  else
    let ii := i + 1 in
    let* v := or_throw big_int_error (BN_set_word (- ii)) in
    let v := BN_set_negative v true in
    or_throw big_int_error (BN_sub v BN_value_one).

(** [bint(size_t)] *)
Definition bint_of_size_t (i : Z) : outcome bint := or_throw big_int_error (BN_set_word i).

Definition spaceship_operator (a b : bint) : Z := BN_cmp a b.
Definition bint_lt (a b : bint) : bool := spaceship_operator a b <? 0.
Definition bint_eq (a b : bint) : bool := spaceship_operator a b =? 0.

Definition bint_add (a b : bint) : outcome bint := or_throw big_int_error (BN_add a b).
Definition bint_sub (a b : bint) : outcome bint := or_throw big_int_error (BN_sub a b).
Definition bint_mul (a b : bint) : outcome bint := or_throw big_int_error (BN_mul a b).
Definition bint_div (a b : bint) : outcome bint := or_throw big_int_error (BN_div a b).
Definition bint_mod (a b : bint) : outcome bint := or_throw big_int_error (BN_mod a b).

Definition is_negative (n : bint) : bool := BN_is_negative n.

(** [negate] *)
Definition negate (n : bint) : bint :=
  if is_negative n then BN_set_negative n false else BN_set_negative n true.

Definition bint_neg (n : bint) : bint := negate n.
Definition bint_abs (n : bint) : bint := if is_negative n then bint_neg n else n.

Definition to_bin (n : bint) : bytes := BN_bn2bin n.

(** [empty()]: no bytes of magnitude. *)
Definition bint_empty (n : bint) : bool := len (to_bin n) =? 0.

(** [transform(rbegin(a), rend(a), rbegin(b), rbegin(a), f)]: pairs the bytes of
    [a] from the least significant end with those of [b]; [a] is not longer. *)
Definition rtransform (f : Z -> Z -> Z) (a b : bytes) : bytes :=
  rev (map (fun p => f (fst p) (snd p)) (combine (rev a) (rev b))).

(** The bytes of [b] that [transform] into [b] leaves as they were. *)
Definition rtransform_into (f : Z -> Z -> Z) (a b : bytes) : bytes :=
  firstn (length b - length a) b ++ rtransform f a b.

(** [operator&=]; [self] is whether both operands are one object. *)
Definition bint_and (self : bool) (this other : bint) : outcome bint :=
  if self then Ok this
  else if bint_empty other then bint_of_int 0
  else
    let negate_ := is_negative this && is_negative other in
    let bytes_other := to_bin other in
    let bytes_this := to_bin this in
    let v :=
      if len bytes_other <=? len bytes_this then
        BN_bin2bn (rtransform Z.land bytes_other bytes_this)
      else
        BN_bin2bn (rtransform Z.land bytes_this bytes_other) in
    Ok (if negate_ then negate v else v).

(** [operator|=] *)
Definition bint_or (self : bool) (this other : bint) : outcome bint :=
  if self then Ok this
  else if bint_empty other then Ok this
  else
    let negate_ :=
      (is_negative other && negb (is_negative this)) ||
      (is_negative this && negb (is_negative other)) in
    let bytes_other := to_bin other in
    let bytes_this := to_bin this in
    let v :=
      if len bytes_other <=? len bytes_this then
        BN_bin2bn (rtransform_into Z.lor bytes_other bytes_this)
      else
        BN_bin2bn (rtransform_into Z.lor bytes_this bytes_other) in
    Ok (if negate_ then negate v else v).

Definition bint_shl (a : bint) (n : Z) : outcome bint :=
  if n <=? 0 then Ok a else or_throw big_int_error (BN_lshift a n).

Definition bint_shr (a : bint) (n : Z) : outcome bint :=
  if n <=? 0 then Ok a else or_throw big_int_error (BN_rshift a n).

(** [lsb]: the last byte of the big-endian magnitude. *)
Definition lsb (n : bint) : Z :=
  let buffer := to_bin n in
  match buffer with
  | [] => 0
  | _ => nth (length buffer - 1) buffer 0
  end.

Definition to_long (n : bint) : outcome Z := or_throw big_int_error (BN_to_long n).

(** [bsv::to_size_t_limited] *)
Definition bint_to_size_t_limited (n : bint) : outcome Z :=
  let* i := to_long n in Ok (u64 i).

Definition length_in_bytes : nat := 4.

(** [bint::serialize] *)
Definition bint_serialize (n : bint) : bytes := rev (skipn length_in_bytes (BN_bn2mpi n)).

(** [bint::deserialize]; [None] is the null pointer a failed conversion leaves. *)
Definition bint_deserialize (s : bytes) : option bint :=
  let size := len s in
  BN_mpi2bn
    ([(size >>> 24) &&& 0xff; (size >>> 16) &&& 0xff; (size >>> 8) &&& 0xff;
      (size >>> 0) &&& 0xff] ++ rev s).

(** ** Lemmas *)

Context {L : BIGNUM_Laws B}.

Lemma bint_of_int64_Z i b :
  - 2 ^ 63 <= i < 2 ^ 63 -> bint_of_int64 i = Ok b -> bnZ b = i.
Proof.
  intros Hi H. unfold bint_of_int64, INT64_MIN in H.
  destruct (Z.leb_spec 0 i); [|destruct (Z.ltb_spec (- 2 ^ 63) i)]; ok_inv.
  - apply BN_set_word_Z in Heqo; lia.
  - apply BN_set_word_Z in Heqo; [|lia]. rewrite BN_set_negative_Z. lia.
  - apply BN_set_word_Z in Heqo0; [|lia]. apply BN_sub_Z in Heqo.
    rewrite Heqo, BN_value_one_Z, BN_set_negative_Z. lia.
Qed.

Lemma bint_of_int_Z i b :
  - 2 ^ 31 <= i < 2 ^ 31 -> bint_of_int i = Ok b -> bnZ b = i.
Proof.
  intros Hi H. unfold bint_of_int, INT_MIN in H.
  destruct (Z.leb_spec 0 i); [|destruct (Z.ltb_spec (- 2 ^ 31) i)]; ok_inv.
  - apply BN_set_word_Z in Heqo; lia.
  - apply BN_set_word_Z in Heqo; [|lia]. rewrite BN_set_negative_Z. lia.
  - apply BN_set_word_Z in Heqo0; [|lia]. apply BN_sub_Z in Heqo.
    rewrite Heqo, BN_value_one_Z, BN_set_negative_Z. lia.
Qed.

Lemma bint_lt_Z a b : bint_lt a b = (bnZ a <? bnZ b).
Proof.
  unfold bint_lt, spaceship_operator. pose proof (BN_cmp_Z a b).
  destruct (Z.ltb_spec (BN_cmp a b) 0), (Z.ltb_spec (bnZ a) (bnZ b)); lia.
Qed.

Lemma bint_eq_Z a b : bint_eq a b = (bnZ a =? bnZ b).
Proof.
  unfold bint_eq, spaceship_operator. pose proof (BN_cmp_Z a b).
  destruct (Z.eqb_spec (BN_cmp a b) 0), (Z.eqb_spec (bnZ a) (bnZ b)); lia.
Qed.

Lemma negate_Z n : bnZ (negate n) = - bnZ n.
Proof.
  unfold negate, is_negative. rewrite BN_is_negative_Z.
  destruct (Z.ltb_spec (bnZ n) 0); rewrite BN_set_negative_Z; lia.
Qed.

Lemma bint_abs_Z n : bnZ (bint_abs n) = Z.abs (bnZ n).
Proof.
  unfold bint_abs, is_negative. rewrite BN_is_negative_Z.
  destruct (Z.ltb_spec (bnZ n) 0); [unfold bint_neg; rewrite negate_Z|]; lia.
Qed.

Lemma bint_empty_Z n : bint_empty n = (bnZ n =? 0).
Proof.
  unfold bint_empty, to_bin. pose proof (BN_bn2bin_Z n) as HZ.
  pose proof (BN_bn2bin_top n) as HT. pose proof (BN_bn2bin_ok n) as Hok.
  destruct (BN_bn2bin n) as [|h r]; symmetry.
  - cbn in *. apply Z.eqb_eq. lia.
  - rewrite len_cons. pose proof (len_nonneg r). specialize (HT h r eq_refl).
    unfold be_decode in HZ. cbn [rev] in HZ. rewrite le_decode_app in HZ. cbn [le_decode] in HZ.
    inversion Hok as [|? ? Hh Hr]; subst.
    pose proof (le_decode_range (rev r) (Forall_rev Hr)). unfold is_byte in Hh.
    destruct (Z.eqb_spec (1 + len r) 0); [lia|]. apply Z.eqb_neq. nia.
Qed.

Lemma be_decode_rtransform a b :
  bytes_ok a -> bytes_ok b -> len a <= len b ->
  be_decode (rtransform Z.land a b) = Z.land (be_decode a) (be_decode b).
Proof.
  intros Ha Hb Hl. unfold be_decode, rtransform. rewrite rev_involutive.
  apply le_decode_land; [now apply Forall_rev .. | rewrite !length_rev; unfold len in Hl; lia].
Qed.

Lemma rtransform_ok a b :
  bytes_ok a -> bytes_ok b -> bytes_ok (rtransform Z.land a b).
Proof.
  intros Ha Hb. apply Forall_rev, Forall_map, Forall_forall. intros [x y] Hin.
  pose proof (in_combine_l _ _ _ _ Hin) as Hx. apply in_rev in Hx.
  apply (proj1 (Forall_forall _ _) Ha) in Hx. unfold is_byte in *. cbn [fst snd].
  apply (land_range 8 x y); lia.
Qed.

(** Conjunction of magnitudes, negative when both operands are. *)
Lemma bint_and_Z a b c :
  bint_and false a b = Ok c ->
  bnZ c = (if (bnZ a <? 0) && (bnZ b <? 0) then -1 else 1) * Z.land (Z.abs (bnZ a)) (Z.abs (bnZ b)).
Proof.
  unfold bint_and. rewrite bint_empty_Z. intros H.
  destruct (Z.eqb_spec (bnZ b) 0) as [E|E].
  - apply bint_of_int_Z in H; [|lia]. rewrite H, E. cbn [Z.abs]. rewrite Z.land_0_r. lia.
  - injection H as <-. unfold is_negative, to_bin. rewrite !BN_is_negative_Z.
    set (v := if _ <=? _ then _ else _).
    assert (Hv : bnZ v = Z.land (Z.abs (bnZ a)) (Z.abs (bnZ b))).
    { rewrite <- !BN_bn2bin_Z. subst v.
      destruct (Z.leb_spec (len (BN_bn2bin b)) (len (BN_bn2bin a)));
        rewrite BN_bin2bn_Z, be_decode_rtransform
          by (auto using rtransform_ok, BN_bn2bin_ok; lia); [apply Z.land_comm | reflexivity]. }
    destruct ((bnZ a <? 0) && (bnZ b <? 0)); rewrite ?negate_Z, Hv; lia.
Qed.

(** The serialised form is the minimal sign-and-magnitude encoding. *)
Lemma mpi_body_sm neg h r :
  is_byte h -> h <> 0 -> bytes_ok r ->
  encodes neg (be_decode (h :: r)) (rev (mpi_body neg (h :: r))).
Proof.
  intros Hh Hne Hr. pose proof (Forall_rev Hr) as Hr'. unfold is_byte in Hh.
  unfold mpi_body, be_decode. cbn [rev]. rewrite le_decode_app. cbn [le_decode].
  destruct (Z.leb_spec 128 h); cbn [rev].
  - rewrite <- app_assoc. cbn [app].
    assert (Ht : (if neg then 128 else 0) mod 128 = 0) by now destruct neg.
    repeat split.
    + apply bytes_ok_app. split; [exact Hr'|]. constructor; [exact Hh|].
      constructor; [unfold is_byte; destruct neg; lia | constructor].
    + rewrite minimal_app. replace (128 <=? h) with true by (symmetry; apply Z.leb_le; lia).
      apply orb_true_r.
    + now destruct (rev r).
    + change (rev r ++ [h; if neg then 128 else 0]) with (rev r ++ [h] ++ [if neg then 128 else 0]).
      rewrite app_assoc, sm_mag_app, Ht, le_decode_app. cbn [le_decode]. lia.
    + change (rev r ++ [h; if neg then 128 else 0]) with (rev r ++ [h] ++ [if neg then 128 else 0]).
      rewrite app_assoc, sm_neg_app. now destruct neg.
  - assert (Ht : (if neg then h + 128 else h) mod 128 = h).
    { destruct neg; [symmetry; apply Z.mod_unique with 1; lia | apply Z.mod_small; lia]. }
    repeat split.
    + apply bytes_ok_snoc; [exact Hr'|]. unfold is_byte. destruct neg; lia.
    + apply minimal_snoc. lia.
    + now destruct (rev r).
    + rewrite sm_mag_app, Ht. lia.
    + rewrite sm_neg_app. destruct neg; [apply Z.leb_le | apply Z.leb_gt]; lia.
Qed.

Lemma bint_serialize_sm n : bint_serialize n = sm_encode (bnZ n).
Proof.
  unfold bint_serialize, length_in_bytes. rewrite BN_bn2mpi_body. cbv zeta.
  set (body := mpi_body _ _). change (skipn 4 (WriteBE32 (len body) ++ body)) with body.
  subst body. pose proof (BN_bn2bin_Z n) as HZ.
  pose proof (BN_bn2bin_top n) as HT. pose proof (BN_bn2bin_ok n) as Hok.
  destruct (BN_bn2bin n) as [|h r].
  - cbn in *. replace (bnZ n) with 0 by lia. reflexivity.
  - specialize (HT h r eq_refl). inversion Hok as [|? ? Hh Hr]; subst.
    pose proof (mpi_body_sm (bnZ n <? 0) h r Hh HT Hr) as E.
    pose proof (encodes_value _ _ _ E) as V. destruct E as (E1 & E2 & _).
    rewrite <- (sm_encode_value _ E1 E2), V, HZ. f_equal.
    destruct (Z.ltb_spec (bnZ n) 0); lia.
Qed.

Lemma mpi_value_sm s : bytes_ok s -> mpi_value (rev s) = sm_value s.
Proof.
  intros Hok. destruct (exists_last_or_nil s) as [->|(p & t & ->)]; [reflexivity|].
  rewrite rev_app_distr. cbn [rev app mpi_value]. unfold sm_value.
  rewrite sm_neg_app, sm_mag_app. unfold be_decode. cbn [rev]. rewrite rev_involutive.
  rewrite !le_decode_app. cbn [le_decode].
  apply bytes_ok_app in Hok as [_ Ht]. inversion Ht as [|? ? Hb _]; subst. unfold is_byte in Hb.
  destruct (Z.leb_spec 128 t).
  - replace (t mod 128) with (t - 128) by (apply Z.mod_unique with 1; lia). lia.
  - rewrite Z.mod_small by lia. lia.
Qed.

Lemma size_bytes_BE32 n :
  [(n >>> 24) &&& 0xff; (n >>> 16) &&& 0xff; (n >>> 8) &&& 0xff; (n >>> 0) &&& 0xff] =
  WriteBE32 n.
Proof.
  unfold WriteBE32. cbn [le_encode rev app].
  rewrite !Z.shiftr_shiftr, Z.shiftr_0_r by lia. reflexivity.
Qed.

Lemma bint_deserialize_Z s b :
  bytes_ok s -> len s < 2 ^ 31 -> bint_deserialize s = Some b -> bnZ b = sm_value s.
Proof.
  intros Hok Hl H. unfold bint_deserialize in H. cbv zeta in H.
  rewrite size_bytes_BE32, <- (len_rev s) in H. rewrite <- mpi_value_sm by assumption.
  apply (BN_mpi2bn_Z (rev s)); [now apply Forall_rev | now rewrite len_rev | exact H].
Qed.

Lemma bint_deserialize_some (A : BIGNUM_Alloc B (L := L)) s :
  bytes_ok s -> len s < 2 ^ 31 -> bint_deserialize s <> None.
Proof.
  intros Hok Hl. unfold bint_deserialize. cbv zeta. rewrite size_bytes_BE32, <- (len_rev s).
  apply A; [now apply Forall_rev | now rewrite len_rev].
Qed.

(** ** Theorems *)

(** a [bint] is serialised as the minimal script encoding of its integer,
    and reading the bytes back gives the same integer. *)
Theorem bint_roundtrip (n b : bint) :
  len (bint_serialize n) < 2 ^ 31 -> bint_deserialize (bint_serialize n) = Some b ->
  bint_serialize n = sm_encode (bnZ n) /\ bnZ b = bnZ n /\ bint_eq b n = true /\
  bint_serialize b = bint_serialize n.
Proof.
  intros Hl H. destruct (sm_encode_spec (bnZ n)) as (Hok & _ & Hv).
  assert (E : bnZ b = bnZ n).
  { apply bint_deserialize_Z in H; [|rewrite bint_serialize_sm; exact Hok | exact Hl].
    now rewrite H, bint_serialize_sm. }
  rewrite !bint_serialize_sm, bint_eq_Z, E. repeat split. apply Z.eqb_refl.
Qed.

(** the constructor from [int64_t] is exact on the whole range, the minimum
    included; comparison, negation, [abs] and [&=] then work on the integers. *)
Theorem bint_operations_exact (i j : Z) (a b c : bint) :
  - 2 ^ 63 <= i < 2 ^ 63 -> - 2 ^ 63 <= j < 2 ^ 63 ->
  bint_of_int64 i = Ok a -> bint_of_int64 j = Ok b -> bint_and false a b = Ok c ->
  bnZ a = i /\ bint_lt a b = (i <? j) /\ bint_eq a b = (i =? j) /\
  bnZ (bint_neg a) = - i /\ bnZ (bint_abs a) = Z.abs i /\
  bnZ c = (if (i <? 0) && (j <? 0) then -1 else 1) * Z.land (Z.abs i) (Z.abs j).
Proof.
  intros Hi Hj Ha Hb Hc. apply bint_of_int64_Z in Ha, Hb; auto. apply bint_and_Z in Hc.
  rewrite bint_lt_Z, bint_eq_Z, bint_abs_Z. unfold bint_neg. rewrite negate_Z, Hc, Ha, Hb.
  repeat split.
Qed.

End Bint.

Lemma bint_roundtrip_witness :
  bint_serialize (-255 : @bint Z_BIGNUM) = sm_encode (-255) /\
  bint_serialize (-255 : @bint Z_BIGNUM) = [255; 128].
Proof.
  split; [|reflexivity].
  apply (bint_roundtrip (B := Z_BIGNUM) (L := Z_BIGNUM_Laws) (-255) (-255)); reflexivity.
Defined.

Lemma bint_operations_exact_witness :
  bint_lt (B := Z_BIGNUM) (- 2 ^ 63) 5 = (- 2 ^ 63 <? 5).
Proof.
  refine (proj1 (proj2 (bint_operations_exact (B := Z_BIGNUM) (L := Z_BIGNUM_Laws)
    (- 2 ^ 63) 5 (- 2 ^ 63) 5 0 _ _ _ _ _))); try lia; reflexivity.
Defined.

End BigInt.
