(* ===== verification/ScriptNum.v ===== *)
(** * Script numbers (src/src/script/script_num.cpp, script_num.h)

    [CScriptNum] holds an [int64_t] (before the Genesis upgrade) or a [bsv::bint]
    (after it).  Both representations are related to one integer, [num_value]; the
    theorems say that reading, writing and arithmetic follow the integers in
    either representation, and that the 4-byte operands of the old rules never
    reach an undefined operation. *)

From S2P Require Import Prelude Endian IntSerialization Outcome BigInt.
Import IntSerialization BigInt.

Module ScriptNum.
Local Open Scope outcome_scope.

Section Num.
Context {B : BIGNUM}.

(** ** Definitions *)

(** [std::variant<int64_t, bsv::bint>] *)
Inductive CScriptNum : Type :=
| Int64 (n : Z)
| BigN (n : bint).

Definition MAXIMUM_ELEMENT_SIZE : Z := 4.
Definition INT64_MAX : Z := 2 ^ 63 - 1.

(** The constructor from stack bytes.  A failed conversion would leave a null
    pointer in the object, and its first use is undefined: [Abort]. *)
Definition CScriptNum_of_span (span : bytes) (fRequireMinimal : bool) (nMaxNumSize : Z)
    (big_int : bool) : outcome CScriptNum :=
  if nMaxNumSize <? len span then Throw scriptnum_overflow_error
  else if fRequireMinimal && negb (IsMinimallyEncoded span nMaxNumSize) then
    Throw scriptnum_minencode_error
  else if len span =? 0 then
    if big_int then let* b := bint_of_int 0 in Ok (BigN b) else Ok (Int64 0)
  else if big_int then
    let* b := or_abort (bint_deserialize span) in Ok (BigN b)
  else
    let* n := or_abort (deserialize span) in Ok (Int64 n).

Definition fits64 (n : Z) : bool := (INT64_MIN <=? n) && (n <=? INT64_MAX).

(** Signed arithmetic that leaves the range of [int64_t] is undefined. *)
Definition checked64 (n : Z) : outcome CScriptNum :=
  if fits64 n then Ok (Int64 n) else Abort.

(** The assertions [equal_index] abort on mixed operands. *)
Definition num_and (a b : CScriptNum) : outcome CScriptNum :=
  match a, b with
  | Int64 x, Int64 y => Ok (Int64 (Z.land x y))
  | BigN x, BigN y => let* r := bint_and false x y in Ok (BigN r)
  | _, _ => Abort
  end.

Definition num_and_int64 (a : CScriptNum) (other : Z) : outcome CScriptNum :=
  match a with
  | Int64 x => Ok (Int64 (Z.land x other))
  | BigN x => let* o := bint_of_int64 other in let* r := bint_and false x o in Ok (BigN r)
  end.

Definition num_eq (a b : CScriptNum) : outcome bool :=
  match a, b with
  | Int64 x, Int64 y => Ok (x =? y)
  | BigN x, BigN y => Ok (bint_eq x y)
  | BigN x, Int64 y => let* y := bint_of_int64 y in Ok (bint_eq x y)
  | Int64 x, BigN y => let* x := bint_of_int64 x in Ok (bint_eq x y)
  end.

Definition num_lt (a b : CScriptNum) : outcome bool :=
  match a, b with
  | Int64 x, Int64 y => Ok (x <? y)
  | BigN x, BigN y => Ok (bint_lt x y)
  | BigN x, Int64 y => let* y := bint_of_int64 y in Ok (bint_lt x y)
  | Int64 x, BigN y => let* x := bint_of_int64 x in Ok (bint_lt x y)
  end.

Definition num_lt_int64 (a : CScriptNum) (b : Z) : outcome bool :=
  match a with
  | Int64 x => Ok (x <? b)
  | BigN x => let* b := bint_of_int64 b in Ok (bint_lt x b)
  end.

Definition num_gt_int64 (a : CScriptNum) (b : Z) : outcome bool :=
  match a with
  | Int64 x => Ok (b <? x)
  | BigN x => let* b := bint_of_int64 b in Ok (bint_lt b x)
  end.

Definition num_ne (a b : CScriptNum) : outcome bool := let* r := num_eq a b in Ok (negb r).
Definition num_gt (a b : CScriptNum) : outcome bool := num_lt b a.
Definition num_le (a b : CScriptNum) : outcome bool := let* r := num_lt b a in Ok (negb r).
Definition num_ge (a b : CScriptNum) : outcome bool := let* r := num_lt a b in Ok (negb r).
Definition num_ge_int64 (a : CScriptNum) (b : Z) : outcome bool :=
  let* r := num_lt_int64 a b in Ok (negb r).

(** [operator+=], with the overflow assertion of the [int64_t] branch. *)
Definition num_add (a b : CScriptNum) : outcome CScriptNum :=
  match a, b with
  | Int64 x, Int64 y =>
      assert_ ((y =? 0) || ((0 <? y) && (x <=? INT64_MAX - y)) ||
               ((y <? 0) && (INT64_MIN - y <=? x))) (checked64 (x + y))
  | BigN x, BigN y => let* r := bint_add x y in Ok (BigN r)
  | _, _ => Abort
  end.

Definition num_sub (a b : CScriptNum) : outcome CScriptNum :=
  match a, b with
  | Int64 x, Int64 y =>
      assert_ ((y =? 0) || ((0 <? y) && (INT64_MIN + y <=? x)) ||
               ((y <? 0) && (x <=? INT64_MAX + y))) (checked64 (x - y))
  | BigN x, BigN y => let* r := bint_sub x y in Ok (BigN r)
  | _, _ => Abort
  end.

Definition num_mul (a b : CScriptNum) : outcome CScriptNum :=
  match a, b with
  | Int64 x, Int64 y => checked64 (x * y)
  | BigN x, BigN y => let* r := bint_mul x y in Ok (BigN r)
  | _, _ => Abort
  end.

Definition num_div (a b : CScriptNum) : outcome CScriptNum :=
  match a, b with
  | Int64 x, Int64 y => if y =? 0 then Abort else checked64 (Z.quot x y)
  | BigN x, BigN y => let* r := bint_div x y in Ok (BigN r)
  | _, _ => Abort
  end.

(** [INT64_MIN % -1] is undefined like the quotient. *)
Definition num_mod (a b : CScriptNum) : outcome CScriptNum :=
  match a, b with
  | Int64 x, Int64 y =>
      if (y =? 0) || negb (fits64 (Z.quot x y)) then Abort else Ok (Int64 (Z.rem x y))
  | BigN x, BigN y => let* r := bint_mod x y in Ok (BigN r)
  | _, _ => Abort
  end.

Definition num_neg (a : CScriptNum) : outcome CScriptNum :=
  match a with
  | Int64 x => checked64 (- x)
  | BigN x => Ok (BigN (bint_neg x))
  end.

(** [getint]: clamped to the range of [int]. *)
Definition getint (a : CScriptNum) : outcome Z :=
  match a with
  | BigN n =>
      let* bn_int_min := bint_of_int INT_MIN in
      let* bn_int_max := bint_of_int INT_MAX in
      if bint_lt bn_int_max n then Ok INT_MAX
      else if bint_lt n bn_int_min then Ok INT_MIN
      else let* l := to_long n in Ok (i32 l)
  | Int64 n =>
      if INT_MAX <? n then Ok INT_MAX
      else if n <? INT_MIN then Ok INT_MIN
      else Ok (i32 n)
  end.

(** [to_size_t_limited]; the assertion compares with an [int] in the [bint] case. *)
Definition to_size_t_limited (a : CScriptNum) : outcome Z :=
  match a with
  | BigN n =>
      let* zero := bint_of_int64 0 in
      let* imax := bint_of_int64 INT_MAX in
      assert_ (negb (bint_lt n zero) && negb (bint_lt imax n)) (bint_to_size_t_limited n)
  | Int64 n => assert_ ((0 <=? n) && (n <=? INT_MAX)) (Ok (u64 n))
  end.

Definition getvch (a : CScriptNum) : bytes :=
  match a with
  | BigN n => bint_serialize n
  | Int64 n => serialize n
  end.

(** ** Specification *)

Context {L : BIGNUM_Laws B}.

Definition num_value (a : CScriptNum) : Z :=
  match a with Int64 n => n | BigN n => bnZ n end.

(** The integer of an [int64_t] fits, and operands share a representation. *)
Definition num_ok (a : CScriptNum) : Prop :=
  match a with Int64 n => - 2 ^ 63 <= n < 2 ^ 63 | BigN _ => True end.

Definition is_big (a : CScriptNum) : bool :=
  match a with Int64 _ => false | BigN _ => true end.

(** ** Lemmas *)

Lemma checked64_ok n r : checked64 n = Ok r -> num_value r = n /\ num_ok r.
Proof.
  unfold checked64, fits64, INT64_MIN, INT64_MAX. destruct (_ && _) eqn:E; [|discriminate].
  intros H. injection H as <-. zbool. cbn. lia.
Qed.

Lemma checked64_fits n : - 2 ^ 63 <= n < 2 ^ 63 -> checked64 n = Ok (Int64 n).
Proof.
  intros H. unfold checked64, fits64, INT64_MIN, INT64_MAX.
  replace ((- 2 ^ 63 <=? n) && (n <=? 2 ^ 63 - 1)) with true; [reflexivity|].
  symmetry. apply andb_true_iff. split; apply Z.leb_le; lia.
Qed.

Lemma CScriptNum_of_span_value span min max big n :
  bytes_ok span -> len span < 2 ^ 31 -> (big = false -> max <= 8) ->
  CScriptNum_of_span span min max big = Ok n ->
  num_value n = sm_value span /\ is_big n = big /\ len span <= max /\ num_ok n.
Proof.
  intros Hok Hl Hmax H. unfold CScriptNum_of_span in H. pose proof (len_nonneg span).
  destruct (Z.ltb_spec max (len span)); [discriminate|].
  destruct (min && negb _); [discriminate|].
  destruct (Z.eqb_spec (len span) 0) as [E|E].
  - destruct span; [|rewrite len_cons in E; pose proof (len_nonneg span); lia].
    destruct big; ok_inv; cbn; [|lia]. apply bint_of_int_Z in E0; [|lia]. now rewrite E0.
  - destruct big; ok_inv; cbn [num_value is_big num_ok].
    + apply bint_deserialize_Z in Heqo; auto.
    + rewrite deserialize_value in Heqo by (auto; specialize (Hmax eq_refl); lia).
      injection Heqo as <-. repeat split; auto.
      * pose proof (sm_value_range span Hok ltac:(specialize (Hmax eq_refl); lia)). lia.
      * pose proof (sm_value_range span Hok ltac:(specialize (Hmax eq_refl); lia)). lia.
Qed.

Lemma num_eq_value a b r :
  num_ok a -> num_ok b -> num_eq a b = Ok r -> r = (num_value a =? num_value b).
Proof.
  intros Ha Hb H. destruct a, b; cbn in *; ok_inv; auto using bint_eq_Z;
    match goal with E : bint_of_int64 _ = _ |- _ => apply bint_of_int64_Z in E; [|lia] end;
    rewrite bint_eq_Z; congruence.
Qed.

Lemma num_lt_value a b r :
  num_ok a -> num_ok b -> num_lt a b = Ok r -> r = (num_value a <? num_value b).
Proof.
  intros Ha Hb H. destruct a, b; cbn in *; ok_inv; auto using bint_lt_Z;
    match goal with E : bint_of_int64 _ = _ |- _ => apply bint_of_int64_Z in E; [|lia] end;
    rewrite bint_lt_Z; congruence.
Qed.

Lemma num_lt_int64_value a b r :
  - 2 ^ 63 <= b < 2 ^ 63 -> num_lt_int64 a b = Ok r -> r = (num_value a <? b).
Proof.
  intros Hb H. destruct a; cbn in *; ok_inv; auto.
  apply bint_of_int64_Z in E; [|lia]. rewrite bint_lt_Z. congruence.
Qed.

Lemma num_gt_int64_value a b r :
  - 2 ^ 63 <= b < 2 ^ 63 -> num_gt_int64 a b = Ok r -> r = (b <? num_value a).
Proof.
  intros Hb H. destruct a; cbn in *; ok_inv; auto.
  apply bint_of_int64_Z in E; [|lia]. rewrite bint_lt_Z. congruence.
Qed.

Lemma num_neg_value a r : num_neg a = Ok r -> num_value r = - num_value a /\ num_ok r.
Proof.
  intros H. destruct a; cbn in *; [now apply checked64_ok in H|].
  ok_inv. cbn. unfold bint_neg. now rewrite negate_Z.
Qed.

Lemma i32_small x : - 2 ^ 31 <= x < 2 ^ 31 -> i32 x = x.
Proof.
  intros H. unfold i32, sint. change (2 ^ (32 - 1)) with (2 ^ 31).
  destruct (Z.lt_ge_cases x 0).
  - replace (x mod 2 ^ 32) with (x + 2 ^ 32) by (apply Z.mod_unique with (-1); lia).
    destruct (Z.ltb_spec (x + 2 ^ 32) (2 ^ 31)); lia.
  - rewrite Z.mod_small by lia. destruct (Z.ltb_spec x (2 ^ 31)); lia.
Qed.

(** [getint] clamps. *)
Lemma getint_value a r :
  getint a = Ok r -> r = Z.max (- 2 ^ 31) (Z.min (num_value a) (2 ^ 31 - 1)).
Proof.
  intros H. destruct a as [n|n]; cbn [getint num_value] in *; unfold INT_MIN, INT_MAX in *.
  - destruct (Z.ltb_spec (2 ^ 31 - 1) n); [|destruct (Z.ltb_spec n (- 2 ^ 31))]; ok_inv; try lia.
    rewrite i32_small; lia.
  - apply obind_ok in H as (mn & E1 & H). apply obind_ok in H as (mx & E2 & H).
    apply bint_of_int_Z in E1, E2; try lia. rewrite !bint_lt_Z, E1, E2 in H.
    destruct (Z.ltb_spec (2 ^ 31 - 1) (bnZ n)); [|destruct (Z.ltb_spec (bnZ n) (- 2 ^ 31))];
      ok_inv; try lia.
    unfold to_long in E. ok_inv. apply BN_to_long_Z in Heqo; [|lia]. rewrite i32_small; lia.
Qed.

Lemma to_size_t_limited_value a r :
  to_size_t_limited a = Ok r -> r = num_value a /\ 0 <= r < 2 ^ 31.
Proof.
  intros H. destruct a as [n|n]; cbn [to_size_t_limited num_value] in *; unfold INT_MAX in *.
  - ok_inv. zbool. rewrite u64_small; lia.
  - apply obind_ok in H as (z & E1 & H). apply obind_ok in H as (mx & E2 & H).
    apply bint_of_int64_Z in E1, E2; try lia. rewrite !bint_lt_Z, E1, E2 in H.
    apply assert_ok in H as (E & H). zbool.
    unfold bint_to_size_t_limited, to_long in H. ok_inv. apply BN_to_long_Z in Heqo; [|lia].
    rewrite u64_small; lia.
Qed.

Lemma getvch_value a : num_ok a -> getvch a = sm_encode (num_value a).
Proof.
  destruct a as [n|n]; cbn; intros H; [now apply serialize_sm_encode | apply bint_serialize_sm].
Qed.

(** The binary operations and the integer operations they stand for. *)
Inductive arith_op : Set := Add | Sub | Mul | Div | Mod.

Definition num_op (o : arith_op) : CScriptNum -> CScriptNum -> outcome CScriptNum :=
  match o with
  | Add => num_add | Sub => num_sub | Mul => num_mul | Div => num_div | Mod => num_mod
  end.

Definition Z_op (o : arith_op) : Z -> Z -> Z :=
  match o with
  | Add => Z.add | Sub => Z.sub | Mul => Z.mul | Div => Z.quot | Mod => Z.rem
  end.

Lemma rem_fits x y : - 2 ^ 63 <= y < 2 ^ 63 -> y <> 0 -> - 2 ^ 63 <= Z.rem x y < 2 ^ 63.
Proof. intros Hy H0. pose proof (Z.rem_bound_abs x y H0). lia. Qed.

Lemma num_op_value o a b r :
  num_ok a -> num_ok b -> num_op o a b = Ok r ->
  num_value r = Z_op o (num_value a) (num_value b) /\ num_ok r.
Proof.
  intros Ha Hb H. destruct a as [x|x], b as [y|y]; try (destruct o; discriminate H).
  - destruct o; cbn [num_op num_add num_sub num_mul num_div num_mod num_value Z_op] in *; ok_inv.
    + now apply checked64_ok.
    + now apply checked64_ok.
    + now apply checked64_ok.
    + destruct (y =? 0); [discriminate | now apply checked64_ok].
    + destruct (Z.eqb_spec y 0); [discriminate|]. destruct (negb _); [discriminate|].
      cbn [orb] in H. ok_inv. cbn in *. split; [reflexivity | now apply rem_fits].
  - destruct o; cbn [num_op num_add num_sub num_mul num_div num_mod num_value Z_op] in *; ok_inv;
      cbn [num_value num_ok]; (split; [|exact I]).
    + unfold bint_add in E. ok_inv. now apply BN_add_Z.
    + unfold bint_sub in E. ok_inv. now apply BN_sub_Z.
    + unfold bint_mul in E. ok_inv. now apply BN_mul_Z.
    + unfold bint_div in E. ok_inv. now apply BN_div_Z.
    + unfold bint_mod in E. ok_inv. now apply BN_mod_Z.
Qed.

Lemma quot_small x y : Z.abs x < 2 ^ 31 -> y <> 0 -> - 2 ^ 63 <= Z.quot x y < 2 ^ 63.
Proof.
  intros Hx Hy. pose proof (Z.quot_abs x y Hy). pose proof (Z.quot_le_upper_bound (Z.abs x) (Z.abs y) (2 ^ 31)).
  pose proof (Z.quot_pos (Z.abs x) (Z.abs y)). nia.
Qed.

Lemma checked64_big n r : checked64 n = Ok r -> is_big r = false.
Proof. unfold checked64. destruct (fits64 n); intros H; ok_inv. reflexivity. Qed.

Lemma num_op_big o a b r : num_op o a b = Ok r -> is_big r = is_big a.
Proof.
  intros H. destruct a as [x|x], b as [y|y]; try (destruct o; discriminate H);
    destruct o; cbn [num_op num_add num_sub num_mul num_div num_mod is_big] in *; ok_inv;
    try reflexivity; try (now apply checked64_big in H).
  - destruct (y =? 0); [discriminate | now apply checked64_big in H].
  - destruct (_ || _); [discriminate|]. ok_inv. reflexivity.
Qed.

(** The overflow assertions hold of small operands. *)
Lemma add_guard x y :
  Z.abs x < 2 ^ 31 -> Z.abs y < 2 ^ 31 ->
  (y =? 0) || ((0 <? y) && (x <=? 2 ^ 63 - 1 - y)) || ((y <? 0) && (- 2 ^ 63 - y <=? x)) = true.
Proof.
  intros. destruct (Z.eqb_spec y 0), (Z.ltb_spec 0 y), (Z.ltb_spec y 0),
    (Z.leb_spec x (2 ^ 63 - 1 - y)), (Z.leb_spec (- 2 ^ 63 - y) x); try reflexivity; lia.
Qed.

Lemma sub_guard x y :
  Z.abs x < 2 ^ 31 -> Z.abs y < 2 ^ 31 ->
  (y =? 0) || ((0 <? y) && (- 2 ^ 63 + y <=? x)) || ((y <? 0) && (x <=? 2 ^ 63 - 1 + y)) = true.
Proof.
  intros. destruct (Z.eqb_spec y 0), (Z.ltb_spec 0 y), (Z.ltb_spec y 0),
    (Z.leb_spec (- 2 ^ 63 + y) x), (Z.leb_spec x (2 ^ 63 - 1 + y)); try reflexivity; lia.
Qed.

(** Four-byte operands of the [int64_t] representation. *)
Lemma num_op_small (o : arith_op) (x y : Z) :
  Z.abs x < 2 ^ 31 -> Z.abs y < 2 ^ 31 -> (o = Div \/ o = Mod -> y <> 0) ->
  num_op o (Int64 x) (Int64 y) = Ok (Int64 (Z_op o x y)) /\
  num_neg (Int64 x) = Ok (Int64 (- x)).
Proof.
  intros Hx Hy H0. split; [|apply checked64_fits; lia].
  destruct o; cbn [num_op num_add num_sub num_mul num_div num_mod Z_op];
    unfold INT64_MIN, INT64_MAX.
  - replace (_ || _) with true; [apply checked64_fits; lia|]. symmetry. apply add_guard; lia.
  - replace (_ || _) with true; [apply checked64_fits; lia|]. symmetry. apply sub_guard; lia.
  - apply checked64_fits. nia.
  - destruct (Z.eqb_spec y 0) as [E|E]; [destruct H0; auto|]. apply checked64_fits.
    now apply quot_small.
  - destruct (Z.eqb_spec y 0) as [E|E]; [destruct H0; auto|].
    pose proof (quot_small x y Hx E). unfold fits64, INT64_MIN, INT64_MAX.
    replace ((- 2 ^ 63 <=? Z.quot x y) && (Z.quot x y <=? 2 ^ 63 - 1)) with true; [reflexivity|].
    symmetry. apply andb_true_iff. split; apply Z.leb_le; lia.
Qed.

(** ** Theorems *)

(** what the constructor does on every input: too long and non-minimal
    elements raise their own exceptions, and any number read has the value of the
    element and is written back as its minimal encoding, which is the element
    itself when minimality is required. *)
Theorem CScriptNum_of_span_correct (span : bytes) (min : bool) (max : Z) (big : bool) :
  bytes_ok span -> len span < 2 ^ 31 -> (big = false -> max <= 8) ->
  (max < len span -> CScriptNum_of_span span min max big = Throw scriptnum_overflow_error) /\
  (len span <= max -> min = true -> IsMinimallyEncoded span max = false ->
   CScriptNum_of_span span min max big = Throw scriptnum_minencode_error) /\
  (forall n, CScriptNum_of_span span min max big = Ok n ->
   num_value n = sm_value span /\ is_big n = big /\ getvch n = sm_encode (sm_value span) /\
   (min = true -> getvch n = span)).
Proof.
  intros Hok Hl Hmax. unfold CScriptNum_of_span at 1 2. repeat split.
  - intros H. apply Z.ltb_lt in H. now rewrite H.
  - intros H Hm HI. apply Z.ltb_ge in H. now rewrite H, Hm, HI.
  - now apply (CScriptNum_of_span_value span min max big n).
  - now apply (CScriptNum_of_span_value span min max big n).
  - destruct (CScriptNum_of_span_value span min max big n) as (E & _ & _ & H4); auto.
    now rewrite getvch_value, E.
  - intros ->. destruct (CScriptNum_of_span_value span true max big n) as (E & _ & _ & H4); auto.
    rewrite getvch_value, E by assumption. unfold CScriptNum_of_span in H.
    destruct (max <? len span); [discriminate|].
    destruct (IsMinimallyEncoded span max) eqn:HI; [|discriminate].
    rewrite IsMinimallyEncoded_minimal in HI by assumption. zbool. now apply sm_encode_value.
Qed.

(** addition, subtraction, multiplication, truncated division and remainder
    compute the integer operation, in the 64-bit and in the big-integer mode. *)
Theorem num_op_exact (o : arith_op) (a b r : CScriptNum) :
  num_ok a -> num_ok b -> num_op o a b = Ok r ->
  num_value r = Z_op o (num_value a) (num_value b) /\
  getvch r = sm_encode (Z_op o (num_value a) (num_value b)) /\ is_big r = is_big a.
Proof.
  intros Ha Hb H. destruct (num_op_value o a b r Ha Hb H) as [V K].
  rewrite getvch_value, V by assumption. repeat split. exact (num_op_big o a b r H).
Qed.

(** operands of at most four bytes, as the rules before Genesis demand, never
    reach undefined 64-bit arithmetic or a failed assertion: every operation and
    negation returns its exact result, given a non-zero divisor. *)
Theorem num_op_four_bytes (o : arith_op) (x y : Z) :
  Z.abs x < 2 ^ 31 -> Z.abs y < 2 ^ 31 -> (o = Div \/ o = Mod -> y <> 0) ->
  num_op o (Int64 x) (Int64 y) = Ok (Int64 (Z_op o x y)) /\
  num_neg (Int64 x) = Ok (Int64 (- x)).
Proof. apply num_op_small. Qed.

End Num.

Lemma CScriptNum_of_span_correct_witness :
  CScriptNum_of_span (B := Z_BIGNUM) [255; 128] true 4 true = Ok (BigN (B := Z_BIGNUM) (-255)) /\
  getvch (BigN (B := Z_BIGNUM) (-255)) = [255; 128].
Proof.
  assert (H : CScriptNum_of_span (B := Z_BIGNUM) [255; 128] true 4 true =
              Ok (BigN (B := Z_BIGNUM) (-255))) by reflexivity.
  destruct (CScriptNum_of_span_correct (L := Z_BIGNUM_Laws) [255; 128] true 4 true)
    as (_ & _ & C); [apply bytes_okb; reflexivity | cbn; lia | discriminate |].
  destruct (C _ H) as (_ & _ & _ & G). split; [exact H | exact (G eq_refl)].
Defined.

Lemma num_op_exact_witness :
  num_value (B := Z_BIGNUM) (BigN (B := Z_BIGNUM) (-3)) = Z_op Div (-7) 2.
Proof.
  refine (proj1 (num_op_exact (B := Z_BIGNUM) (L := Z_BIGNUM_Laws) Div
    (BigN (B := Z_BIGNUM) (-7)) (BigN (B := Z_BIGNUM) 2) (BigN (B := Z_BIGNUM) (-3)) I I eq_refl)).
Defined.

Lemma num_op_four_bytes_witness :
  num_op (B := Z_BIGNUM) Mul (Int64 (B := Z_BIGNUM) (2 ^ 31 - 1)) (Int64 (B := Z_BIGNUM) (1 - 2 ^ 31)) =
  Ok (Int64 (B := Z_BIGNUM) ((2 ^ 31 - 1) * (1 - 2 ^ 31))).
Proof.
  refine (proj1 (num_op_four_bytes (B := Z_BIGNUM) Mul (2 ^ 31 - 1) (1 - 2 ^ 31) _ _ _));
    [lia | lia | intros [H|H]; discriminate H].
Defined.

End ScriptNum.
