(* ===== verification/LimitedStack.v ===== *)
(** * The memory-limited stack (src/src/script/limitedstack.cpp)

    A root [LimitedStack] and the child made from it by [makeChildStack] (the
    alternative stack) share one counter of the memory in use, kept at the root.
    [stacks] is the pair with the counter; element lists have the top first.  The
    invariant [stacks_ok] says that the counter is the exact size of both stacks
    and within the limit; every operation is proved to keep it.

    The counter is a [uint64_t] in the code.  No [std::vector] is longer than
    [2^63 - 1] bytes and the limit is at most [2^63 - 1], so the sums below do not
    wrap and are written in [Z].  A [LimitedVector] also carries a reference to its
    stack, which [push_back] and [insert] compare: script elements are always
    created in the main stack, so the comparison never fails here. *)

From S2P Require Import Prelude IntSerialization Outcome.
Import IntSerialization.

Module LimitedStack.
Local Open Scope outcome_scope.

(** ** Definitions *)

Abbreviation valtype := (list Z).

Definition ELEMENT_OVERHEAD : Z := 32.

Record stacks := mkStacks {
  stack : list valtype;
  altstack : list valtype;
  combinedStackSize : Z;
  maxStackSize : Z
}.

(** [LimitedStack(uint64_t)], with the child made from it. *)
Definition LimitedStack_new (maxStackSizeIn : Z) : stacks := mkStacks [] [] 0 maxStackSizeIn.

Definition decreaseCombinedStackSize (s : stacks) (n : Z) : stacks :=
  mkStacks (stack s) (altstack s) (combinedStackSize s - n) (maxStackSize s).

Definition increaseCombinedStackSize (s : stacks) (n : Z) : outcome stacks :=
  if maxStackSize s <? combinedStackSize s + n then Throw stack_overflow_error
  else Ok (mkStacks (stack s) (altstack s) (combinedStackSize s + n) (maxStackSize s)).

Definition with_stack (s : stacks) (l : list valtype) : stacks :=
  mkStacks l (altstack s) (combinedStackSize s) (maxStackSize s).

(** [stack.at(stack.size() + index)] as a position from the top; [at] throws out
    of range. *)
Definition top_index (l : list valtype) (index : Z) : outcome nat :=
  if 0 <=? index then Throw std_exception
  else if len l <? - index then Throw std_exception
  else Ok (Z.to_nat (- index - 1)).

Definition stacktop (s : stacks) (index : Z) : outcome valtype :=
  let* i := top_index (stack s) index in Ok (nth i (stack s) []).

Definition elem_size (x : valtype) : Z := len x + ELEMENT_OVERHEAD.

Definition pop_back (s : stacks) : outcome stacks :=
  match stack s with
  | [] => Throw std_exception
  | x :: l => Ok (decreaseCombinedStackSize (with_stack s l) (elem_size x))
  end.

Definition push_back (s : stacks) (x : valtype) : outcome stacks :=
  let* s := increaseCombinedStackSize s (elem_size x) in
  Ok (with_stack s (x :: stack s)).

(** [LimitedStack(elements, max)]: pushes bottom first. *)
Fixpoint push_all (s : stacks) (xs : list valtype) : outcome stacks :=
  match xs with
  | [] => Ok s
  | x :: xs => let* s := push_back s x in push_all s xs
  end.

Definition stack_size (s : stacks) : Z := len (stack s).
Definition altstack_size (s : stacks) : Z := len (altstack s).
Definition getCombinedStackSize (s : stacks) : Z := combinedStackSize s.

Definition sum_size (l : list valtype) : Z := fold_right (fun x n => elem_size x + n) 0 l.

(** [erase(first, last)]: iterators before the beginning are undefined. *)
Definition erase_range (s : stacks) (first last : Z) : outcome stacks :=
  if (0 <=? last) || (last <=? first) then Throw std_exception
  else if len (stack s) <? - first then Abort
  else
    let a := Z.to_nat (- last) in
    let b := Z.to_nat (- first) in
    let removed := firstn (b - a) (skipn a (stack s)) in
    Ok (with_stack (decreaseCombinedStackSize s (sum_size removed))
          (firstn a (stack s) ++ skipn b (stack s))).

(** [erase(index)] *)
Definition erase (s : stacks) (index : Z) : outcome stacks :=
  let* i := top_index (stack s) index in
  let s := decreaseCombinedStackSize s (elem_size (nth i (stack s) [])) in
  Ok (with_stack s (firstn i (stack s) ++ skipn (S i) (stack s))).

(** [insert(position, element)] *)
Definition insert (s : stacks) (position : Z) (x : valtype) : outcome stacks :=
  if 0 <=? position then Throw std_exception
  else
    let* s := increaseCombinedStackSize s (elem_size x) in
    if len (stack s) <? - position then Abort
    else
      let i := Z.to_nat (- position) in
      Ok (with_stack s (firstn i (stack s) ++ x :: skipn i (stack s))).

(** Replaces the element at a position from the top. *)
Definition set_nth (l : list valtype) (i : nat) (x : valtype) : list valtype :=
  firstn i l ++ match skipn i l with [] => [] | _ :: r => x :: r end.

(** [swapElements(index1, index2)], with indices from the bottom. *)
Definition swapElements (s : stacks) (index1 index2 : Z) : outcome stacks :=
  let n := len (stack s) in
  if (0 <=? index1) && (index1 <? n) && (0 <=? index2) && (index2 <? n) then
    let i := Z.to_nat (n - 1 - index1) in
    let j := Z.to_nat (n - 1 - index2) in
    let x := nth i (stack s) [] in
    let y := nth j (stack s) [] in
    Ok (with_stack s (set_nth (set_nth (stack s) i y) j x))
  else Throw std_exception.

(** [altstack.moveTopToStack(stack)]: takes the top of the main stack. *)
Definition moveTopToAlt (s : stacks) : outcome stacks :=
  match stack s with
  | [] => Throw std_exception
  | x :: l => Ok (mkStacks l (x :: altstack s) (combinedStackSize s) (maxStackSize s))
  end.

(** [stack.moveTopToStack(altstack)] *)
Definition moveTopFromAlt (s : stacks) : outcome stacks :=
  match altstack s with
  | [] => Throw std_exception
  | x :: l => Ok (mkStacks (x :: stack s) l (combinedStackSize s) (maxStackSize s))
  end.

(** [makeChildStack] for a root whose earlier child is gone: the new child is empty,
    and the counter is the root's. *)
Definition makeChildStack (s : stacks) : stacks :=
  mkStacks (stack s) [] (combinedStackSize s) (maxStackSize s).

(** [MoveToValtypes]: bottom first; the stack is left empty. *)
Definition MoveToValtypes (s : stacks) : list valtype * stacks :=
  (rev (stack s), with_stack (decreaseCombinedStackSize s (sum_size (stack s))) []).

(** *** Elements in place ([LimitedVector])

    [i] is the position of the element from the top. *)

Definition elem (s : stacks) (i : nat) : valtype := nth i (stack s) [].

Definition set_elem (s : stacks) (i : nat) (x : valtype) : stacks :=
  with_stack s (set_nth (stack s) i x).

(** [LimitedVector::append] *)
Definition append (s : stacks) (i : nat) (second : valtype) : outcome stacks :=
  let* s := increaseCombinedStackSize s (len second) in
  Ok (set_elem s i (elem s i ++ second)).

(** [LimitedVector::push_back] *)
Definition elem_push_back (s : stacks) (i : nat) (b : Z) : outcome stacks :=
  let* s := increaseCombinedStackSize s 1 in
  Ok (set_elem s i (elem s i ++ [b])).

(** [LimitedVector::padRight] *)
Definition padRight (s : stacks) (i : nat) (size signbit : Z) : outcome stacks :=
  let x := elem s i in
  if len x <? size then
    let* s := increaseCombinedStackSize s (size - len x) in
    Ok (set_elem s i (removelast (x ++ repeat 0 (Z.to_nat (size - len x))) ++ [signbit]))
  else Ok s.

(** [LimitedVector::MinimallyEncode] *)
Definition elem_MinimallyEncode (s : stacks) (i : nat) : outcome stacks :=
  let x := elem s i in
  let s := decreaseCombinedStackSize s (len x) in
  let x' := fst (MinimallyEncode x) in
  let* s := increaseCombinedStackSize s (len x') in
  Ok (set_elem s i x').

(** ** Invariant *)

(** The counter is the size of both stacks plus [k]: bytes counted for child stacks
    that no longer exist. *)
Definition stacks_acc (k : Z) (s : stacks) : Prop :=
  combinedStackSize s = sum_size (stack s) + sum_size (altstack s) + k /\
  combinedStackSize s <= maxStackSize s /\
  Forall bytes_ok (stack s) /\ Forall bytes_ok (altstack s).

Definition stacks_ok : stacks -> Prop := stacks_acc 0.

(** Every public operation that changes a stack, as one alphabet. *)
Inductive stack_op : Type :=
| OpPush (x : valtype)
| OpPop
| OpEraseRange (first last : Z)
| OpErase (index : Z)
| OpInsert (position : Z) (x : valtype)
| OpSwap (i j : Z)
| OpToAlt
| OpFromAlt
| OpMoveToValtypes
| OpAppend (i : nat) (second : valtype)
| OpElemPush (i : nat) (b : Z)
| OpPadRight (i : nat) (size signbit : Z)
| OpMinimallyEncode (i : nat).

Definition run_op (o : stack_op) (s : stacks) : outcome stacks :=
  match o with
  | OpPush x => push_back s x
  | OpPop => pop_back s
  | OpEraseRange f l => erase_range s f l
  | OpErase i => erase s i
  | OpInsert p x => insert s p x
  | OpSwap i j => swapElements s i j
  | OpToAlt => moveTopToAlt s
  | OpFromAlt => moveTopFromAlt s
  | OpMoveToValtypes => Ok (snd (MoveToValtypes s))
  | OpAppend i x => append s i x
  | OpElemPush i b => elem_push_back s i b
  | OpPadRight i n b => padRight s i n b
  | OpMinimallyEncode i => elem_MinimallyEncode s i
  end.

(** Arguments are bytes, and an element operation names an element. *)
Definition op_ok (o : stack_op) (s : stacks) : Prop :=
  match o with
  | OpPush x | OpInsert _ x => bytes_ok x
  | OpAppend i x => bytes_ok x /\ (i < length (stack s))%nat
  | OpElemPush i b | OpPadRight i _ b => is_byte b /\ (i < length (stack s))%nat
  | OpMinimallyEncode i => (i < length (stack s))%nat
  | _ => True
  end.

(** ** Lemmas *)

Lemma elem_size_pos x : 32 <= elem_size x.
Proof. unfold elem_size, ELEMENT_OVERHEAD. pose proof (len_nonneg x). lia. Qed.

Lemma sum_size_nonneg l : 0 <= sum_size l.
Proof.
  unfold sum_size. induction l as [|x l IH]; cbn [fold_right]; [lia|].
  pose proof (elem_size_pos x). lia.
Qed.

Lemma sum_size_cons x l : sum_size (x :: l) = elem_size x + sum_size l.
Proof. reflexivity. Qed.

Lemma sum_size_app l m : sum_size (l ++ m) = sum_size l + sum_size m.
Proof.
  induction l as [|x l IH]; cbn [app]; [reflexivity|]. rewrite !sum_size_cons, IH. lia.
Qed.

Lemma sum_size_split i l : sum_size l = sum_size (firstn i l) + sum_size (skipn i l).
Proof. rewrite <- sum_size_app. now rewrite firstn_skipn. Qed.

Lemma skipn_nth_cons (l : list valtype) i :
  (i < length l)%nat -> skipn i l = nth i l [] :: skipn (S i) l.
Proof.
  revert l; induction i as [|i IH]; intros [|x l] H; cbn [length] in H; try lia; [reflexivity|].
  cbn [skipn nth]. apply IH. lia.
Qed.

Lemma set_nth_split l i x :
  (i < length l)%nat -> set_nth l i x = firstn i l ++ x :: skipn (S i) l.
Proof. intros H. unfold set_nth. now rewrite (skipn_nth_cons l i H). Qed.

Lemma sum_size_set_nth l i x :
  (i < length l)%nat -> sum_size (set_nth l i x) = sum_size l - elem_size (nth i l []) + elem_size x.
Proof.
  intros H. rewrite set_nth_split, sum_size_app, sum_size_cons by assumption.
  rewrite (sum_size_split i l), (skipn_nth_cons l i H), sum_size_cons. lia.
Qed.

Lemma length_set_nth l i x : length (set_nth l i x) = length l.
Proof.
  destruct (Nat.lt_ge_cases i (length l)) as [H|H].
  - rewrite set_nth_split, length_app, length_firstn by assumption. cbn [length].
    rewrite length_skipn. lia.
  - unfold set_nth. rewrite skipn_all2, app_nil_r, firstn_all2 by lia. reflexivity.
Qed.

Lemma nth_set_nth_same l i x : (i < length l)%nat -> nth i (set_nth l i x) [] = x.
Proof.
  intros H. rewrite set_nth_split, app_nth2 by (rewrite ?length_firstn; lia).
  rewrite length_firstn. replace (i - Nat.min i (length l))%nat with 0%nat by lia. reflexivity.
Qed.

Lemma nth_set_nth_other l i j x : i <> j -> nth j (set_nth l i x) [] = nth j l [].
Proof.
  intros H. revert i j H; induction l as [|y l IH]; intros [|i] [|j] H; try reflexivity; try lia.
  cbn [nth]. unfold set_nth in *. cbn [firstn skipn app]. apply IH. lia.
Qed.

Lemma Forall_set_nth l i x : Forall bytes_ok l -> bytes_ok x -> Forall bytes_ok (set_nth l i x).
Proof.
  intros H Hx. unfold set_nth. apply Forall_app. split; [now apply Forall_firstn|].
  pose proof (Forall_skipn bytes_ok i l H) as Hs.
  destruct (skipn i l); [constructor|]. inversion Hs; now constructor.
Qed.

Lemma elem_ok s i : Forall bytes_ok (stack s) -> bytes_ok (elem s i).
Proof.
  intros H. unfold elem. destruct (nth_in_or_default i (stack s) []) as [Hin| ->]; [|constructor].
  rewrite Forall_forall in H. now apply H.
Qed.

Lemma top_index_ok l index i :
  top_index l index = Ok i -> (i < length l)%nat /\ Z.of_nat i = - index - 1 /\ index < 0.
Proof.
  unfold top_index. destruct (Z.leb_spec 0 index); [discriminate|].
  destruct (Z.ltb_spec (len l) (- index)); [discriminate|]. intros H1. injection H1 as <-.
  unfold len in *. lia.
Qed.

Lemma increase_ok s n s' :
  increaseCombinedStackSize s n = Ok s' ->
  s' = mkStacks (stack s) (altstack s) (combinedStackSize s + n) (maxStackSize s) /\
  combinedStackSize s + n <= maxStackSize s.
Proof.
  unfold increaseCombinedStackSize. destruct (Z.ltb_spec (maxStackSize s) (combinedStackSize s + n));
    [discriminate|]. intros E. injection E as <-. split; [reflexivity | lia].
Qed.

Ltac stk_cbn :=
  cbn [stack altstack combinedStackSize maxStackSize with_stack decreaseCombinedStackSize
       MoveToValtypes snd].

Section Accounting.
Context {k : Z}.

(** The shape shared by the element operations: the counter moves by as much as
    the element grows. *)
Lemma set_elem_acc s i x n :
  stacks_acc k s -> (i < length (stack s))%nat -> bytes_ok x ->
  n = len x - len (elem s i) -> combinedStackSize s + n <= maxStackSize s ->
  stacks_acc k (set_elem (mkStacks (stack s) (altstack s) (combinedStackSize s + n) (maxStackSize s)) i x).
Proof.
  intros (E & Hm & Hs & Ha) Hi Hx -> Hle. unfold stacks_acc, set_elem, with_stack.
  cbn [stack altstack combinedStackSize maxStackSize]. repeat split; auto.
  - rewrite sum_size_set_nth by assumption. unfold elem, elem_size in *. lia.
  - now apply Forall_set_nth.
Qed.

Lemma push_back_ok s x s' :
  stacks_acc k s -> bytes_ok x -> push_back s x = Ok s' ->
  stacks_acc k s' /\ stack s' = x :: stack s /\ altstack s' = altstack s.
Proof.
  intros (E & Hm & Hs & Ha) Hx H. unfold push_back in H. ok_inv.
  apply increase_ok in E0 as [-> Hle]. repeat split; stk_cbn; auto. rewrite sum_size_cons. lia.
Qed.

Lemma pop_back_ok s s' :
  stacks_acc k s -> pop_back s = Ok s' ->
  stacks_acc k s' /\ (exists x, stack s = x :: stack s') /\ altstack s' = altstack s.
Proof.
  intros (E & Hm & Hs & Ha) H. unfold pop_back in H.
  destruct (stack s) as [|x l] eqn:El; [discriminate|]. injection H as <-.
  rewrite sum_size_cons in E. pose proof (elem_size_pos x). inversion Hs; subst.
  repeat split; stk_cbn; auto; try lia. now exists x.
Qed.

Lemma erase_range_ok s f l s' : stacks_acc k s -> erase_range s f l = Ok s' -> stacks_acc k s'.
Proof.
  intros (E & Hm & Hs & Ha) H. unfold erase_range in H.
  destruct (_ || _) eqn:G; [discriminate|]. zbool.
  destruct (Z.ltb_spec (len (stack s)) (- f)); [discriminate|]. injection H as <-.
  set (a := Z.to_nat (- l)) in *. set (b := Z.to_nat (- f)) in *.
  assert (Hab : (a <= b)%nat) by lia.
  assert (S : sum_size (stack s) =
    sum_size (firstn a (stack s)) + sum_size (firstn (b - a) (skipn a (stack s))) +
    sum_size (skipn b (stack s))).
  { rewrite (sum_size_split a (stack s)), (sum_size_split (b - a) (skipn a (stack s))).
    rewrite skipn_skipn. replace (b - a + a)%nat with b by lia. lia. }
  pose proof (sum_size_nonneg (firstn (b - a) (skipn a (stack s)))).
  repeat split; stk_cbn; auto; rewrite ?sum_size_app; try lia.
  apply Forall_app. split; [now apply Forall_firstn | now apply Forall_skipn].
Qed.

Lemma erase_ok s i s' : stacks_acc k s -> erase s i = Ok s' -> stacks_acc k s'.
Proof.
  intros (E & Hm & Hs & Ha) H. unfold erase in H. ok_inv. apply top_index_ok in E0 as (Hi & _).
  pose proof (elem_size_pos (nth a (stack s) [])).
  pose proof (sum_size_split a (stack s)) as S. rewrite (skipn_nth_cons _ a Hi), sum_size_cons in S.
  repeat split; stk_cbn; auto; rewrite ?sum_size_app; try lia.
  apply Forall_app. split; [now apply Forall_firstn | now apply Forall_skipn].
Qed.

Lemma insert_ok s p x s' : stacks_acc k s -> bytes_ok x -> insert s p x = Ok s' -> stacks_acc k s'.
Proof.
  intros (E & Hm & Hs & Ha) Hx H. unfold insert in H.
  destruct (Z.leb_spec 0 p); [discriminate|]. ok_inv. apply increase_ok in E0 as [-> Hle].
  cbn [stack] in H. destruct (_ <? _); [discriminate|]. injection H as <-.
  pose proof (sum_size_split (Z.to_nat (- p)) (stack s)).
  repeat split; stk_cbn; auto; rewrite ?sum_size_app, ?sum_size_cons; try lia.
  apply Forall_app. split; [now apply Forall_firstn|]. constructor; [exact Hx|].
  now apply Forall_skipn.
Qed.

Lemma nth_bytes_ok l i : Forall bytes_ok l -> bytes_ok (nth i l []).
Proof.
  intros H. destruct (nth_in_or_default i l []) as [Hin| ->]; [|constructor].
  rewrite Forall_forall in H. now apply H.
Qed.

Lemma swapElements_ok s i j s' : stacks_acc k s -> swapElements s i j = Ok s' -> stacks_acc k s'.
Proof.
  intros (E & Hm & Hs & Ha) H. unfold swapElements in H.
  destruct (_ && _) eqn:G; [|discriminate]. zbool. injection H as <-.
  set (a := Z.to_nat _). set (b := Z.to_nat (_ - _ - j)).
  assert ((a < length (stack s))%nat /\ (b < length (stack s))%nat) as [Ha' Hb']
    by (unfold a, b, len in *; lia).
  repeat split; stk_cbn; auto.
  - rewrite !sum_size_set_nth by (rewrite ?length_set_nth; lia).
    destruct (Nat.eq_dec a b) as [<-|Hne]; [rewrite nth_set_nth_same by lia|
      rewrite nth_set_nth_other by lia]; lia.
  - apply Forall_set_nth; [apply Forall_set_nth|]; auto using nth_bytes_ok.
Qed.

Lemma append_ok s i x s' :
  stacks_acc k s -> (i < length (stack s))%nat -> bytes_ok x -> append s i x = Ok s' -> stacks_acc k s'.
Proof.
  intros Hok Hi Hx H. unfold append in H. ok_inv. apply increase_ok in E as [-> Hle].
  apply set_elem_acc; auto.
  - apply bytes_ok_app. split; [|exact Hx]. apply elem_ok, Hok.
  - unfold elem. cbn [stack]. rewrite len_app. lia.
Qed.

Lemma padRight_ok s i n b s' :
  stacks_acc k s -> (i < length (stack s))%nat -> is_byte b -> padRight s i n b = Ok s' -> stacks_acc k s'.
Proof.
  intros Hok Hi Hb H. unfold padRight in H.
  destruct (Z.ltb_spec (len (elem s i)) n) as [Hlt|]; [|now injection H as <-].
  ok_inv. apply increase_ok in E as [-> Hle].
  pose proof (elem_ok s i (proj1 (proj2 (proj2 Hok)))) as Hex.
  assert (exists q y, elem s i ++ repeat 0 (Z.to_nat (n - len (elem s i))) = q ++ [y] /\
                      bytes_ok q /\ len q = n - 1) as (q & y & Eq & Hq & Hlq).
  { destruct (Z.to_nat (n - len (elem s i))) as [|m] eqn:Ek; [lia|].
    exists (elem s i ++ repeat 0 m), 0. replace (S m) with (m + 1)%nat by lia.
    rewrite repeat_app, app_assoc. repeat split.
    - apply bytes_ok_app. split; [exact Hex|]. apply Forall_forall. intros z Hz.
      apply repeat_spec in Hz. subst. unfold is_byte. lia.
    - rewrite len_app, len_repeat. lia. }
  rewrite Eq, removelast_last. apply set_elem_acc; auto.
  - now apply bytes_ok_snoc.
  - rewrite len_app. change (len [b]) with 1. lia.
Qed.

Lemma elem_MinimallyEncode_ok s i s' :
  stacks_acc k s -> (i < length (stack s))%nat -> elem_MinimallyEncode s i = Ok s' -> stacks_acc k s'.
Proof.
  intros Hok Hi H. unfold elem_MinimallyEncode in H. ok_inv. apply increase_ok in E as [-> Hle].
  cbn [stack altstack combinedStackSize maxStackSize decreaseCombinedStackSize] in *.
  pose proof (elem_ok s i (proj1 (proj2 (proj2 Hok)))) as Hex.
  destruct (MinimallyEncode_spec _ Hex) as (E1 & _ & _).
  destruct (sm_encode_spec (sm_value (elem s i))) as (H1 & _ & _).
  set (x' := fst (MinimallyEncode (elem s i))) in *.
  replace (combinedStackSize s - len (elem s i) + len x')
    with (combinedStackSize s + (len x' - len (elem s i))) in * by lia.
  apply set_elem_acc; auto; now rewrite E1.
Qed.

Lemma run_op_ok o s s' : stacks_acc k s -> op_ok o s -> run_op o s = Ok s' -> stacks_acc k s'.
Proof.
  intros Hok Ho H. destruct o; cbn [run_op op_ok] in *.
  - now apply (push_back_ok s x s').
  - now apply (pop_back_ok s s').
  - eapply erase_range_ok; eassumption.
  - eapply erase_ok; eassumption.
  - eapply insert_ok; eassumption.
  - eapply swapElements_ok; eassumption.
  - destruct Hok as (E & Hm & Hs & Ha). unfold moveTopToAlt in H.
    destruct (stack s); [discriminate|]. injection H as <-. inversion Hs; subst.
    rewrite sum_size_cons in E. repeat split; stk_cbn; auto. rewrite sum_size_cons. lia.
  - destruct Hok as (E & Hm & Hs & Ha). unfold moveTopFromAlt in H.
    destruct (altstack s); [discriminate|]. injection H as <-. inversion Ha; subst.
    rewrite sum_size_cons in E. repeat split; stk_cbn; auto. rewrite sum_size_cons. lia.
  - destruct Hok as (E & Hm & Hs & Ha). injection H as <-.
    pose proof (sum_size_nonneg (stack s)). repeat split; stk_cbn; auto; [|lia].
    change (sum_size []) with 0. lia.
  - eapply append_ok; try eassumption; apply Ho.
  - eapply append_ok with (x := [b]); [eassumption | apply Ho | | exact H].
    constructor; [apply Ho | constructor].
  - eapply padRight_ok; try eassumption; apply Ho.
  - eapply elem_MinimallyEncode_ok; eassumption.
Qed.
End Accounting.

Lemma sum_size_count l : 32 * len l <= sum_size l.
Proof.
  induction l as [|x l IH]; [cbn; lia|]. rewrite len_cons, sum_size_cons.
  pose proof (elem_size_pos x). lia.
Qed.

(** A child stack that is dropped leaves its elements on the root's counter. *)
Lemma makeChildStack_acc k s :
  stacks_acc k s -> stacks_acc (k + sum_size (altstack s)) (makeChildStack s).
Proof.
  intros (E & Hm & Hs & Ha). repeat split; cbn [makeChildStack stack altstack combinedStackSize maxStackSize];
    auto. change (sum_size []) with 0. lia.
Qed.

(** No operation touches the limit. *)
Lemma run_op_max o s s' : run_op o s = Ok s' -> maxStackSize s' = maxStackSize s.
Proof.
  intros H. destruct o; cbn [run_op] in H;
    unfold push_back, pop_back, erase_range, erase, insert, swapElements, moveTopToAlt,
      moveTopFromAlt, append, elem_push_back, padRight, elem_MinimallyEncode in H;
    repeat match goal with
    | H : match ?l with [] => _ | _ :: _ => _ end = Ok _ |- _ => destruct l; try discriminate H
    | H : (if ?c then _ else _) = Ok _ |- _ => destruct c; try discriminate H
    | H : increaseCombinedStackSize _ _ = Ok _ |- _ => apply increase_ok in H as [-> _]
    | _ => progress ok_inv
    end; try reflexivity.
Qed.

(** Sequences of operations; a failed one ends the run. *)
Inductive reachable (max : Z) : stacks -> Prop :=
| reach_new : reachable max (LimitedStack_new max)
| reach_step o s s' :
    reachable max s -> op_ok o s -> run_op o s = Ok s' -> reachable max s'.

(** ** Theorems *)

(** however the two stacks are worked on, the shared counter is exactly the
    memory of all elements, 32 bytes of overhead each, and never exceeds the
    limit; so neither stack can hold more than [max / 32] elements. *)
Theorem stacks_within_limit (max : Z) (s : stacks) :
  0 <= max -> reachable max s ->
  stacks_ok s /\ maxStackSize s = max /\
  getCombinedStackSize s = sum_size (stack s ++ altstack s) /\
  32 * (stack_size s + altstack_size s) <= max.
Proof.
  intros Hmax R. assert (Hok : stacks_ok s /\ maxStackSize s = max).
  { induction R as [|o s s' R [IH1 IH2] Ho H].
    - repeat split; cbn; auto; lia.
    - split; [now apply (run_op_ok o s)|]. rewrite <- IH2. now apply (run_op_max o s s'). }
  destruct Hok as [Hok Hm]. split; [exact Hok|]. split; [exact Hm|].
  destruct Hok as (E & Hle & _). unfold getCombinedStackSize. rewrite sum_size_app.
  rewrite Z.add_0_r in E. split; [exact E|]. unfold stack_size, altstack_size.
  pose proof (sum_size_count (stack s)). pose proof (sum_size_count (altstack s)). lia.
Qed.

Lemma stacks_within_limit_witness :
  stacks_ok (mkStacks [[1; 2]] [] 34 40) /\
  exists s, reachable 40 s /\ stack s = [[1; 2]] /\ push_back s [] = Throw stack_overflow_error.
Proof.
  assert (R : reachable 40 (mkStacks [[1; 2]] [] 34 40)).
  { apply (reach_step 40 (OpPush [1; 2]) (LimitedStack_new 40)); [constructor | | reflexivity].
    repeat constructor; cbn; lia. }
  split.
  - apply (stacks_within_limit 40 (mkStacks [[1; 2]] [] 34 40)); [lia | exact R].
  - eexists. split; [exact R | split; reflexivity].
Defined.

End LimitedStack.
