(* ===== verification/Script.v ===== *)
(** * Scripts (src/src/script/script.h, script.cpp, instruction_iterator.h)

    A script is its bytes.  This file holds the two instruction decoders of the
    code ([CScript::GetOp2], which the interpreter uses, and
    [bsv::decode_instruction], which the iterator uses), the encoder
    [operator<<], [FindAndDelete], the classification predicates and the counting
    of signature operations. *)

From S2P Require Import Prelude Endian IntSerialization Outcome BigInt ScriptNum Opcodes.
Import IntSerialization ScriptNum.
Export Opcodes.

Module Script.
Local Open Scope outcome_scope.

(** ** Definitions *)

Abbreviation CScript := (list Z).

Definition MAX_SCRIPT_ELEMENT_SIZE_BEFORE_GENESIS : Z := 520.
Definition MAX_STACK_ELEMENTS_BEFORE_GENESIS : Z := 1000.
Definition LOCKTIME_THRESHOLD : Z := 500000000.
Definition MAX_PUBKEYS_PER_MULTISIG_BEFORE_GENESIS : Z := 20.
Definition MAX_SCRIPT_SIZE_BEFORE_GENESIS : Z := 10000.

(** [CScript::GetOp2] from the position [pc]: the opcode, its immediate operand and
    the position after it; [None] is [return false].  The remaining size is
    compared as an [unsigned int]. *)
Definition GetOp2 (pc : bytes) : option (Z * bytes * bytes) :=
  match pc with
  | [] => None
  | opcode :: pc =>
      if opcode <=? OP_PUSHDATA4 then
        let size_and_pc :=
          if opcode <? OP_PUSHDATA1 then Some (opcode, pc)
          else if opcode =? OP_PUSHDATA1 then
            if len pc <? 1 then None else Some (nth 0 pc 0, skipn 1 pc)
          else if opcode =? OP_PUSHDATA2 then
            if len pc <? 2 then None else Some (ReadLE16 pc, skipn 2 pc)
          else
            if len pc <? 4 then None else Some (ReadLE32 pc, skipn 4 pc) in
        match size_and_pc with
        | None => None
        | Some (nSize, pc) =>
            if u32 (len pc) <? nSize then None
            else Some (opcode, firstn (Z.to_nat nSize) pc, skipn (Z.to_nat nSize) pc)
        end
      else Some (opcode, [], pc)
  end.

(** [bsv::decode_instruction]: opcode, offset of the operand and its length. *)
Definition decode_instruction (s : bytes) : Z * Z * Z :=
  match s with
  | [] => (OP_INVALIDOPCODE, 0, 0)
  | opcode :: s =>
      if (OP_PUSHDATA4 <? opcode) || (opcode =? 0) then (opcode, 0, 0)
      else if len s =? 0 then (OP_INVALIDOPCODE, 0, 0)
      else if opcode <? OP_PUSHDATA1 then
        if opcode <=? len s then (opcode, 0, opcode) else (OP_INVALIDOPCODE, 0, 0)
      else if opcode =? OP_PUSHDATA1 then
        if len s - 1 <? nth 0 s 0 then (OP_INVALIDOPCODE, 0, 0)
        else (opcode, 1, nth 0 s 0)
      else if opcode =? OP_PUSHDATA2 then
        if len s <? 2 then (OP_INVALIDOPCODE, 0, 0)
        else if len s - 2 <? ReadLE16 s then (OP_INVALIDOPCODE, 0, 0)
        else (opcode, 2, ReadLE16 s)
      else if opcode =? OP_PUSHDATA4 then
        if len s <? 4 then (OP_INVALIDOPCODE, 0, 0)
        else if len s - 4 <? ReadLE32 s then (OP_INVALIDOPCODE, 0, 0)
        else (opcode, 4, ReadLE32 s)
      else (opcode, 0, 0)
  end.

Record instruction := mkInst { opcode : Z; offset : Z; operand : bytes }.

(** [instruction_iterator::next] *)
Definition next_instruction (s : bytes) : instruction :=
  let '(op, off, n) := decode_instruction s in
  mkInst op off (firstn (Z.to_nat n) (skipn (Z.to_nat (1 + off)) s)).

(** [instruction_iterator::operator++]: the rest of the script. *)
Definition advance (s : bytes) (i : instruction) : bytes :=
  if opcode i =? OP_INVALIDOPCODE then []
  else skipn (Z.to_nat (1 + offset i + len (operand i))) s.

(** The instructions from [begin_instructions()] to [end_instructions()]; each step
    consumes a byte, so the length of the script is enough fuel. *)
Fixpoint instructions_fuel (fuel : nat) (s : bytes) : list instruction :=
  match fuel, s with
  | O, _ | _, [] => []
  | S fuel', _ =>
      let i := next_instruction s in
      i :: instructions_fuel fuel' (advance s i)
  end.

Definition instructions (s : CScript) : list instruction := instructions_fuel (length s) s.

(** [operator<<(opcodetype)] *)
Definition push_opcode (s : CScript) (op : Z) : outcome CScript :=
  if (op <? 0) || (0xff <? op) then Throw std_exception else Ok (s ++ [op]).

(** [operator<<(const std::vector<uint8_t> &)] *)
Definition push_data (s : CScript) (b : bytes) : CScript :=
  let s :=
    if len b <? OP_PUSHDATA1 then s ++ [u8 (len b)]
    else if len b <=? 0xff then s ++ [OP_PUSHDATA1] ++ [u8 (len b)]
    else if len b <=? 0xffff then s ++ [OP_PUSHDATA2] ++ WriteLE16 (len b)
    else s ++ [OP_PUSHDATA4] ++ WriteLE32 (len b) in
  s ++ b.

Definition push_int64 (s : CScript) (n : Z) : CScript :=
  if (n =? -1) || ((1 <=? n) && (n <=? 16)) then s ++ [u8 (n + (OP_1 - 1))]
  else if n =? 0 then s ++ [OP_0]
  else push_data s (serialize n).

Definition DecodeOP_N (op : Z) : outcome Z :=
  if op =? OP_0 then Ok 0
  else assert_ ((OP_1 <=? op) && (op <=? OP_16)) (Ok (op - (OP_1 - 1))).

Definition EncodeOP_N (n : Z) : outcome Z :=
  assert_ ((0 <=? n) && (n <=? 16)) (if n =? 0 then Ok OP_0 else Ok (OP_1 + n - 1)).

Definition bytes_eqb (a b : bytes) : bool :=
  (length a =? length b)%nat && forallb (fun p => fst p =? snd p) (combine a b).

(** The inner loop of [FindAndDelete]: skips matches of [b] at [pc]. *)
Fixpoint skip_matches (fuel : nat) (b pc : bytes) (nFound : Z) : bytes * Z :=
  match fuel with
  | O => (pc, nFound)
  | S fuel' =>
      if (len b <=? len pc) && bytes_eqb b (firstn (length b) pc) then
        skip_matches fuel' b (skipn (length b) pc) (nFound + 1)
      else (pc, nFound)
  end.

(** The outer loop: [pc2] is the start of the bytes not yet copied and [taken] the
    bytes between it and [pc].  Returns the copied bytes, the position of [pc2]
    when [GetOp] fails, and the count. *)
Fixpoint FindAndDelete_loop (fuel : nat) (b result taken pc : bytes) (nFound : Z) :
    bytes * bytes * Z :=
  match fuel with
  | O => (result, taken ++ pc, nFound)
  | S fuel' =>
      let result := result ++ taken in
      let '(pc, nFound) := skip_matches (length pc) b pc nFound in
      match GetOp2 pc with
      | None => (result, pc, nFound)
      | Some (_, _, rest) =>
          FindAndDelete_loop fuel' b result (firstn (length pc - length rest) pc) rest nFound
      end
  end.

Definition FindAndDelete (s b : CScript) : CScript * Z :=
  match b with
  | [] => (s, 0)
  | _ =>
      let '(result, pc2, nFound) := FindAndDelete_loop (S (length s)) b [] [] s 0 in
      if 0 <? nFound then (result ++ pc2, nFound) else (s, nFound)
  end.

(** [CScript::IsPushOnly(pc)] *)
Fixpoint IsPushOnly_fuel (fuel : nat) (pc : bytes) : bool :=
  match fuel, pc with
  | O, _ | _, [] => true
  | S fuel', _ =>
      match GetOp2 pc with
      | None => false
      | Some (op, _, rest) => if OP_16 <? op then false else IsPushOnly_fuel fuel' rest
      end
  end.

Definition IsPushOnly (s : CScript) : bool := IsPushOnly_fuel (length s) s.

Definition at_ (s : bytes) (i : nat) : Z := nth i s 0.

Definition IsP2SH (s : CScript) : bool :=
  (len s =? 23) && (at_ s 0 =? OP_HASH160) && (at_ s 1 =? 0x14) && (at_ s 22 =? OP_EQUAL).

Definition IsP2PKH (s : CScript) : bool :=
  (26 <? len s) && (at_ s 0 =? OP_DUP) && (at_ s 1 =? OP_HASH160) && (at_ s 2 =? 0x14) &&
  (at_ s 23 =? OP_EQUALVERIFY) && (at_ s 24 =? OP_CHECKSIG) && (at_ s 25 =? OP_RETURN).

Definition IsUnspendable (s : CScript) (isGenesisEnabled : bool) : bool :=
  if isGenesisEnabled then
    (1 <? len s) && (at_ s 0 =? OP_FALSE) && (at_ s 1 =? OP_RETURN)
  else
    ((0 <? len s) && (at_ s 0 =? OP_RETURN)) ||
    ((1 <? len s) && (at_ s 0 =? OP_FALSE) && (at_ s 1 =? OP_RETURN)) ||
    (MAX_SCRIPT_SIZE_BEFORE_GENESIS <? len s).

Definition IsKnownOpReturn (s : CScript) : bool :=
  ((0 <? len s) && (at_ s 0 =? OP_RETURN)) ||
  ((1 <? len s) && (at_ s 0 =? OP_FALSE) && (at_ s 1 =? OP_RETURN)).

Definition CountOp (s : CScript) (op : Z) : Z :=
  len (filter (fun i => opcode i =? op) (instructions s)).

(** *** Counting signature operations *)

Section SigOps.
Context {B : BIGNUM}.

(** The contribution of [OP_CHECKMULTISIG]; [None] sets [sigOpCountError]. *)
Definition multisig_count (fAccurate isGenesisEnabled : bool) (last_instruction : instruction) :
    outcome (option Z) :=
  let lastOpcode := opcode last_instruction in
  if (fAccurate || isGenesisEnabled) && (OP_1 <=? lastOpcode) && (lastOpcode <=? OP_16) then
    let* k := DecodeOP_N lastOpcode in Ok (Some k)
  else if isGenesisEnabled then
    if lastOpcode =? OP_0 then Ok (Some 0)
    else if MAXIMUM_ELEMENT_SIZE <? len (operand last_instruction) then Ok None
    else if negb (IsMinimallyEncoded (operand last_instruction) MAXIMUM_ELEMENT_SIZE) then Ok None
    else
      let* n := CScriptNum_of_span (operand last_instruction) true MAXIMUM_ELEMENT_SIZE false in
      let* numSigs := getint n in
      if numSigs <? 0 then Ok None else Ok (Some numSigs)
  else Ok (Some MAX_PUBKEYS_PER_MULTISIG_BEFORE_GENESIS).

(** The loop over the instructions: the count and [sigOpCountError]. *)
Fixpoint sigop_loop (fAccurate isGenesisEnabled : bool) (last_instruction : instruction) (n : Z)
    (insts : list instruction) : outcome (Z * bool) :=
  match insts with
  | [] => Ok (n, false)
  | it :: insts =>
      if opcode it =? OP_INVALIDOPCODE then Ok (n, false)
      else if (opcode it =? OP_CHECKSIG) || (opcode it =? OP_CHECKSIGVERIFY) then
        sigop_loop fAccurate isGenesisEnabled it (u64 (n + 1)) insts
      else if (opcode it =? OP_CHECKMULTISIG) || (opcode it =? OP_CHECKMULTISIGVERIFY) then
        let* k := multisig_count fAccurate isGenesisEnabled last_instruction in
        match k with
        | None => Ok (0, true)
        | Some k => sigop_loop fAccurate isGenesisEnabled it (u64 (n + k)) insts
        end
      else sigop_loop fAccurate isGenesisEnabled it n insts
  end.

(** [GetSigOpCount(fAccurate, isGenesisEnabled, sigOpCountError)] *)
Definition GetSigOpCount (s : CScript) (fAccurate isGenesisEnabled : bool) : outcome (Z * bool) :=
  sigop_loop fAccurate isGenesisEnabled (mkInst OP_INVALIDOPCODE 0 []) 0 (instructions s).

(** [all_of] with the operand of the last instruction seen; [None] is [false]. *)
Fixpoint last_push (data : bytes) (insts : list instruction) : option bytes :=
  match insts with
  | [] => Some data
  | i :: insts =>
      if (OP_16 <? opcode i) || (opcode i =? OP_INVALIDOPCODE) then None
      else last_push (operand i) insts
  end.

(** [GetSigOpCount(scriptSig, isGenesisEnabled, sigOpCountError)] *)
Definition GetSigOpCount_p2sh (s scriptSig : CScript) (isGenesisEnabled : bool) :
    outcome (Z * bool) :=
  if negb (IsP2SH s) then GetSigOpCount s true isGenesisEnabled
  else
    match last_push [] (instructions scriptSig) with
    | None => Ok (0, false)
    | Some data =>
        if isGenesisEnabled then Ok (0, false)
        else GetSigOpCount data true isGenesisEnabled
    end.

End SigOps.

(** ** Specification of [FindAndDelete]

    Every occurrence of [b] that starts where an instruction can start, or right
    after another occurrence, is removed. *)
Inductive deleted (b : bytes) : bytes -> bytes -> Z -> Prop :=
| deleted_match s r n :
    firstn (length b) s = b -> deleted b (skipn (length b) s) r n -> deleted b s r (1 + n)
| deleted_step s op data rest r n :
    firstn (length b) s <> b -> GetOp2 s = Some (op, data, rest) -> deleted b rest r n ->
    deleted b s (firstn (length s - length rest) s ++ r) n
| deleted_stop s :
    firstn (length b) s <> b -> GetOp2 s = None -> deleted b s s 0.

(** ** Lemmas *)

(** [GetOp2] splits off a non-empty prefix: the header and the operand. *)
Lemma GetOp2_split s op data rest :
  GetOp2 s = Some (op, data, rest) ->
  exists hdr, s = op :: hdr ++ data ++ rest /\ (len hdr = 0 \/ len hdr = 1 \/ len hdr = 2 \/ len hdr = 4).
Proof.
  unfold GetOp2. destruct s as [|o pc]; [discriminate|].
  destruct (o <=? OP_PUSHDATA4).
  2:{ intros H. injection H as <- <- <-. exists []. split; [reflexivity | now left]. }
  set (sp := if o <? OP_PUSHDATA1 then _ else _).
  assert (Hsp : forall n p, sp = Some (n, p) ->
            exists hdr, pc = hdr ++ p /\ (len hdr = 0 \/ len hdr = 1 \/ len hdr = 2 \/ len hdr = 4)).
  { intros n p. subst sp. destruct (o <? OP_PUSHDATA1).
    { intros H. injection H as <- <-. exists []. split; [reflexivity | now left]. }
    destruct (o =? OP_PUSHDATA1).
    { destruct (Z.ltb_spec (len pc) 1); [discriminate|]. intros H1. injection H1 as <- <-.
      exists (firstn 1 pc). split; [symmetry; apply firstn_skipn|].
      unfold len in *. rewrite length_firstn. lia. }
    destruct (o =? OP_PUSHDATA2).
    { destruct (Z.ltb_spec (len pc) 2); [discriminate|]. intros H1. injection H1 as <- <-.
      exists (firstn 2 pc). split; [symmetry; apply firstn_skipn|].
      unfold len in *. rewrite length_firstn. lia. }
    destruct (Z.ltb_spec (len pc) 4); [discriminate|]. intros H1. injection H1 as <- <-.
    exists (firstn 4 pc). split; [symmetry; apply firstn_skipn|].
    unfold len in *. rewrite length_firstn. lia. }
  clearbody sp. destruct sp as [[n p]|]; [|discriminate].
  destruct (Hsp n p eq_refl) as (hdr & -> & Hh).
  destruct (_ <? n); [discriminate|]. intros H. injection H as <- <- <-.
  exists hdr. split; [|exact Hh]. now rewrite firstn_skipn.
Qed.

Lemma GetOp2_shorter s op data rest :
  GetOp2 s = Some (op, data, rest) -> (length rest < length s)%nat.
Proof.
  intros H. apply GetOp2_split in H as (hdr & -> & _). cbn [length].
  rewrite !length_app. lia.
Qed.

Lemma GetOp2_ok s op data rest :
  bytes_ok s -> GetOp2 s = Some (op, data, rest) -> is_byte op /\ bytes_ok data /\ bytes_ok rest.
Proof.
  intros Hok H. apply GetOp2_split in H as (hdr & -> & _). inversion Hok as [|? ? Hop Hr]; subst.
  apply bytes_ok_app in Hr as [_ Hr]. apply bytes_ok_app in Hr. now split.
Qed.

Lemma ReadLE16_nonneg p : bytes_ok p -> 0 <= ReadLE16 p.
Proof. intros H. apply le_decode_range. now apply Forall_firstn. Qed.

Lemma ReadLE32_nonneg p : bytes_ok p -> 0 <= ReadLE32 p.
Proof. intros H. apply le_decode_range. now apply Forall_firstn. Qed.

Lemma skipn_firstn_len {A} (l : list A) n : (n <= length l)%nat -> len (firstn n l) = Z.of_nat n.
Proof. intros H. unfold len. rewrite length_firstn. lia. Qed.

(** The shape shared by the branches of both decoders: an operand of [n] bytes
    behind a header of [k] bytes. *)
Lemma operand_branch op s n k :
  len s < 2 ^ 32 -> 0 <= n -> (k <= length s)%nat -> op <> OP_INVALIDOPCODE ->
  let dec := if len s - Z.of_nat k <? n then (OP_INVALIDOPCODE, 0, 0) else (op, Z.of_nat k, n) in
  let got := if u32 (len (skipn k s)) <? n then None
             else Some (op, firstn (Z.to_nat n) (skipn k s), skipn (Z.to_nat n) (skipn k s)) in
  match got with
  | None => dec = (OP_INVALIDOPCODE, 0, 0)
  | Some (o, data, rest) =>
      o = op /\ dec = (op, Z.of_nat k, len data) /\
      data = firstn (length data) (skipn (1 + k) (op :: s)) /\
      rest = skipn (1 + k + length data) (op :: s)
  end.
Proof.
  intros Hs Hn Hk Hop dec got. assert (HL : len (skipn k s) = len s - Z.of_nat k)
    by (unfold len; rewrite length_skipn; lia).
  pose proof (len_nonneg (skipn k s)). unfold dec, got.
  rewrite u32_small, HL by lia. destruct (Z.ltb_spec (len s - Z.of_nat k) n); [reflexivity|].
  assert (Hlen : length (firstn (Z.to_nat n) (skipn k s)) = Z.to_nat n)
    by (rewrite length_firstn, length_skipn; unfold len in *; lia).
  unfold len at 1. rewrite Hlen, Z2Nat.id by lia. cbn [Nat.add skipn].
  rewrite skipn_skipn. replace (Z.to_nat n + k)%nat with (k + Z.to_nat n)%nat by lia. auto.
Qed.

(** The two decoders agree. *)
Lemma decode_GetOp2 s :
  bytes_ok s -> s <> [] -> len s < 2 ^ 32 ->
  match GetOp2 s with
  | None => decode_instruction s = (OP_INVALIDOPCODE, 0, 0)
  | Some (op, data, rest) =>
      exists off, decode_instruction s = (op, Z.of_nat off, len data) /\
        data = firstn (length data) (skipn (1 + off) s) /\ rest = skipn (1 + off + length data) s
  end.
Proof.
  intros Hok Hne Hl. destruct s as [|op s]; [easy|]. inversion Hok as [|? ? Hop Hs]; subst.
  unfold is_byte in Hop. rewrite len_cons in Hl. pose proof (len_nonneg s).
  unfold GetOp2, decode_instruction. rewrite (Z.ltb_antisym op OP_PUSHDATA4).
  destruct (Z.leb_spec op OP_PUSHDATA4) as [H4|H4]; cbn [negb orb].
  2:{ exists 0%nat. repeat split. }
  assert (Hinv : op <> OP_INVALIDOPCODE) by (unfold OP_PUSHDATA4, OP_INVALIDOPCODE in *; lia).
  assert (Conv : forall n k dec, (k <= length s)%nat -> 0 <= n ->
    dec = (if len s - Z.of_nat k <? n then (OP_INVALIDOPCODE, 0, 0) else (op, Z.of_nat k, n)) ->
    match (if u32 (len (skipn k s)) <? n then None
           else Some (op, firstn (Z.to_nat n) (skipn k s), skipn (Z.to_nat n) (skipn k s))) with
    | None => dec = (OP_INVALIDOPCODE, 0, 0)
    | Some (o, data, rest) =>
        exists off, dec = (o, Z.of_nat off, len data) /\
          data = firstn (length data) (skipn (1 + off) (op :: s)) /\
          rest = skipn (1 + off + length data) (op :: s)
    end).
  { intros n k dec Hk Hn ->. pose proof (operand_branch op s n k ltac:(lia) Hn Hk Hinv) as Br.
    cbv zeta in Br. destruct (u32 _ <? n); [exact Br|].
    destruct Br as (_ & B1 & B2 & B3). exists k. auto. }
  clear Hinv. unfold OP_PUSHDATA1, OP_PUSHDATA2, OP_PUSHDATA4 in *.
  destruct (Z.eqb_spec op 0) as [->|H0].
  { apply (Conv 0 0%nat); try lia. destruct (Z.ltb_spec (len s - Z.of_nat 0) 0); [lia | reflexivity]. }
  destruct (Z.ltb_spec op 0x4c) as [Hlt|Hge].
  { apply (Conv op 0%nat); try lia. change (Z.of_nat 0) with 0. rewrite Z.sub_0_r.
    destruct (Z.eqb_spec (len s) 0), (Z.leb_spec op (len s)), (Z.ltb_spec (len s) op);
      try lia; reflexivity. }
  destruct (Z.eqb_spec op 0x4c).
  { destruct (Z.ltb_spec (len s) 1), (Z.eqb_spec (len s) 0); try lia; [reflexivity|].
    apply (Conv (nth 0 s 0) 1%nat); [unfold len in *; lia | | reflexivity].
    destruct s; [cbn; lia|]. inversion Hs; subst. unfold is_byte in *. cbn; lia. }
  destruct (Z.eqb_spec op 0x4d).
  { destruct (Z.ltb_spec (len s) 2); [destruct (len s =? 0); reflexivity|].
    destruct (Z.eqb_spec (len s) 0); [lia|].
    apply (Conv (ReadLE16 s) 2%nat); [unfold len in *; lia | now apply ReadLE16_nonneg | reflexivity]. }
  destruct (Z.eqb_spec op 0x4e); [|lia].
  destruct (Z.ltb_spec (len s) 4); [destruct (len s =? 0); reflexivity|].
  destruct (Z.eqb_spec (len s) 0); [lia|].
  apply (Conv (ReadLE32 s) 4%nat); [unfold len in *; lia | now apply ReadLE32_nonneg | reflexivity].
Qed.

(** Reading back what [operator<<] wrote. *)
Lemma firstn_app_exact {A} (a b : list A) : firstn (length a) (a ++ b) = a.
Proof. rewrite firstn_app, Nat.sub_diag, firstn_all. cbn. apply app_nil_r. Qed.

Lemma skipn_app_exact {A} (a b : list A) : skipn (length a) (a ++ b) = b.
Proof. rewrite skipn_app, Nat.sub_diag, skipn_all. reflexivity. Qed.

Lemma GetOp2_operand (op : Z) (b rest : bytes) :
  len b + len rest < 2 ^ 32 ->
  (if u32 (len (b ++ rest)) <? len b then None
   else Some (op, firstn (Z.to_nat (len b)) (b ++ rest), skipn (Z.to_nat (len b)) (b ++ rest))) =
  Some (op, b, rest).
Proof.
  intros H. pose proof (len_nonneg b). pose proof (len_nonneg rest).
  rewrite len_app, u32_small by lia. destruct (Z.ltb_spec (len b + len rest) (len b)); [lia|].
  unfold len. rewrite Nat2Z.id, firstn_app_exact, skipn_app_exact. reflexivity.
Qed.

Lemma push_data_app s b : push_data s b = s ++ push_data [] b.
Proof.
  unfold push_data. destruct (_ <? _); [|destruct (_ <=? _); [|destruct (_ <=? _)]];
    cbn [app]; now rewrite <- !app_assoc.
Qed.

(** The opcode [operator<<] chooses for a size. *)
Definition push_opcode_of (n : Z) : Z :=
  if n <? OP_PUSHDATA1 then n
  else if n <=? 0xff then OP_PUSHDATA1
  else if n <=? 0xffff then OP_PUSHDATA2 else OP_PUSHDATA4.

Lemma GetOp2_push_data b rest :
  len b + len rest < 2 ^ 32 ->
  GetOp2 (push_data [] b ++ rest) = Some (push_opcode_of (len b), b, rest).
Proof.
  intros H. pose proof (len_nonneg b). pose proof (len_nonneg rest).
  unfold push_data, push_opcode_of, OP_PUSHDATA1, OP_PUSHDATA2, OP_PUSHDATA4.
  destruct (Z.ltb_spec (len b) 0x4c);
    [|destruct (Z.leb_spec (len b) 0xff); [|destruct (Z.leb_spec (len b) 0xffff)]];
    cbn [app]; rewrite <- ?app_assoc; cbn [app].
  - rewrite u8_small by (unfold is_byte; lia). unfold GetOp2, OP_PUSHDATA1, OP_PUSHDATA2, OP_PUSHDATA4.
    destruct (Z.leb_spec (len b) 0x4e); [|lia]. destruct (Z.ltb_spec (len b) 0x4c); [|lia].
    now apply GetOp2_operand.
  - rewrite u8_small by (unfold is_byte; lia). unfold GetOp2, OP_PUSHDATA1, OP_PUSHDATA2, OP_PUSHDATA4.
    cbn [Z.leb Z.ltb Z.eqb Z.compare Pos.compare Pos.compare_cont Pos.eqb].
    rewrite len_cons, len_app. destruct (Z.ltb_spec (1 + (len b + len rest)) 1); [lia|].
    cbn [nth skipn]. now apply GetOp2_operand.
  - unfold GetOp2, OP_PUSHDATA1, OP_PUSHDATA2, OP_PUSHDATA4.
    cbn [Z.leb Z.ltb Z.eqb Z.compare Pos.compare Pos.compare_cont Pos.eqb].
    rewrite !len_app. change (len (WriteLE16 (len b))) with 2.
    destruct (Z.ltb_spec (2 + (len b + len rest)) 2); [lia|].
    rewrite ReadLE16_WriteLE16, Z.mod_small by lia.
    change 2%nat with (length (WriteLE16 (len b))). rewrite skipn_app_exact.
    now apply GetOp2_operand.
  - unfold GetOp2, OP_PUSHDATA1, OP_PUSHDATA2, OP_PUSHDATA4.
    cbn [Z.leb Z.ltb Z.eqb Z.compare Pos.compare Pos.compare_cont Pos.eqb].
    rewrite !len_app. change (len (WriteLE32 (len b))) with 4.
    destruct (Z.ltb_spec (4 + (len b + len rest)) 4); [lia|].
    rewrite ReadLE32_WriteLE32, Z.mod_small by lia.
    change 4%nat with (length (WriteLE32 (len b))). rewrite skipn_app_exact.
    now apply GetOp2_operand.
Qed.

(** *** FindAndDelete *)

Lemma bytes_eqb_eq a b : bytes_eqb a b = true <-> a = b.
Proof.
  unfold bytes_eqb. rewrite andb_true_iff, Nat.eqb_eq. split.
  - intros [Hl H]. revert b Hl H; induction a as [|x a IH]; intros [|y b] Hl H; try discriminate; auto.
    cbn in H. apply andb_true_iff in H as [E H]. apply Z.eqb_eq in E. injection Hl as Hl.
    now rewrite E, (IH b Hl H).
  - intros ->. split; [reflexivity|]. induction b as [|y b IH]; [reflexivity|].
    cbn. now rewrite Z.eqb_refl, IH.
Qed.

Lemma match_test b pc :
  (len b <=? len pc) && bytes_eqb b (firstn (length b) pc) = true <-> firstn (length b) pc = b.
Proof.
  rewrite andb_true_iff, bytes_eqb_eq, Z.leb_le. split; [now intros [_ H]|].
  intros E. split; [|auto]. rewrite <- E. unfold len. rewrite length_firstn. lia.
Qed.

(** The inner loop removes all matches at the position. *)
Lemma skip_matches_spec fuel b pc n pc' n' :
  b <> [] -> (length pc <= fuel)%nat -> skip_matches fuel b pc n = (pc', n') ->
  firstn (length b) pc' <> b /\ (length pc' <= length pc)%nat /\
  forall r m, deleted b pc' r m -> deleted b pc r (n' - n + m).
Proof.
  intros Hb. revert pc n; induction fuel as [|fuel IH]; intros pc n Hf H; cbn [skip_matches] in H.
  - injection H as <- <-. destruct pc; [|cbn in Hf; lia]. repeat split; auto.
    + rewrite firstn_nil. auto.
    + intros r m D. now replace (n - n + m) with m by lia.
  - destruct (_ && _) eqn:E.
    + apply match_test in E. assert (0 < length b)%nat by (destruct b; [easy | cbn; lia]).
      assert (length b <= length pc)%nat by (rewrite <- E, length_firstn; lia).
      apply IH in H as (K1 & K2 & K3); [|rewrite length_skipn; lia].
      repeat split; auto; [rewrite length_skipn in K2; lia|].
      intros r m D. replace (n' - n + m) with (1 + (n' - (n + 1) + m)) by lia.
      now apply deleted_match, K3.
    + injection H as <- <-. assert (firstn (length b) pc <> b) by
        (intros C; apply match_test in C; congruence).
      repeat split; auto. intros r m D. now replace (n - n + m) with m by lia.
Qed.

Lemma FindAndDelete_loop_spec fuel b result taken pc n result' pc2 n' :
  b <> [] -> (length pc < fuel)%nat ->
  FindAndDelete_loop fuel b result taken pc n = (result', pc2, n') ->
  exists r, result' ++ pc2 = result ++ taken ++ r /\ deleted b pc r (n' - n).
Proof.
  intros Hb. revert result taken pc n; induction fuel as [|fuel IH];
    intros result taken pc n Hf H; [lia|]. cbn [FindAndDelete_loop] in H.
  destruct (skip_matches (length pc) b pc n) as [pc1 n1] eqn:Es.
  apply skip_matches_spec in Es as (H1 & H2 & H3); [|exact Hb | lia].
  destruct (GetOp2 pc1) as [[[op data] rest]|] eqn:Eg.
  - pose proof (GetOp2_shorter _ _ _ _ Eg) as Hsh.
    apply IH in H as (r & E & D); [|lia].
    exists (firstn (length pc1 - length rest) pc1 ++ r). split.
    + rewrite E. now rewrite <- !app_assoc.
    + replace (n' - n) with (n1 - n + (n' - n1)) by lia. apply H3.
      eapply deleted_step; eassumption.
  - injection H as <- <- <-. exists pc1. split; [now rewrite <- app_assoc|].
    replace (n1 - n) with (n1 - n + 0) by lia. apply H3. now apply deleted_stop.
Qed.

(** What is deleted accounts for the difference in size. *)
Lemma deleted_size b s r n : deleted b s r n -> 0 <= n /\ len r + n * len b = len s.
Proof.
  induction 1 as [s r n E D [IH1 IH2]|s op data rest r n E G D [IH1 IH2]|s E G].
  - split; [lia|]. assert (length b <= length s)%nat by (rewrite <- E, length_firstn; lia).
    unfold len in *. rewrite length_skipn in IH2. lia.
  - split; [lia|]. pose proof (GetOp2_shorter _ _ _ _ G).
    rewrite len_app. unfold len in *. rewrite length_firstn. lia.
  - lia.
Qed.

(** Without a match the script is left as it is. *)
Lemma deleted_none b s r n : deleted b s r n -> n = 0 -> r = s.
Proof.
  induction 1 as [s r n E D IH|s op data rest r n E G D IH|s E G]; intros Hn; auto.
  - apply deleted_size in D. lia.
  - rewrite (IH Hn). apply GetOp2_split in G as (hdr & -> & _).
    replace (op :: hdr ++ data ++ rest) with ((op :: hdr ++ data) ++ rest)
      by (cbn; now rewrite <- app_assoc).
    rewrite length_app. replace (length (op :: hdr ++ data) + length rest - length rest)%nat
      with (length (op :: hdr ++ data)) by lia.
    now rewrite firstn_app_exact.
Qed.

Lemma FindAndDelete_deleted s b :
  b <> [] -> deleted b s (fst (FindAndDelete s b)) (snd (FindAndDelete s b)).
Proof.
  intros Hb. unfold FindAndDelete. destruct b as [|x b]; [easy|].
  destruct (FindAndDelete_loop _ _ _ _ _ _) as [[result pc2] n] eqn:E.
  apply FindAndDelete_loop_spec in E as (r & Er & D); [|discriminate | lia].
  cbn [app] in Er. rewrite Z.sub_0_r in D.
  destruct (Z.ltb_spec 0 n); cbn [fst snd]; [now rewrite Er|].
  pose proof (deleted_size _ _ _ _ D) as [Hn _]. now rewrite <- (deleted_none _ _ _ _ D ltac:(lia)) at 2.
Qed.

Lemma deleted_det b s r n r' n' : deleted b s r n -> deleted b s r' n' -> r = r' /\ n = n'.
Proof.
  intros D. revert r' n'. induction D as [s r n E D IH|s op data rest r n E G D IH|s E G]; intros r' n' D'.
  - inversion D' as [? r1 n1 E1 D1|? ? ? ? ? ? E1|? E1]; subst; try contradiction.
    destruct (IH _ _ D1). now subst.
  - inversion D' as [? ? ? E1|? op1 data1 rest1 r1 n1 E1 G1 D1|? E1 G1]; subst; try contradiction; try congruence.
    rewrite G in G1. injection G1 as <- <- <-. destruct (IH _ _ D1). now subst.
  - inversion D' as [? ? ? E1|? ? ? ? ? ? E1 G1|? E1]; subst; try contradiction; try congruence. auto.
Qed.

(** *** Instructions *)

Lemma next_instruction_GetOp2 s :
  bytes_ok s -> s <> [] -> len s < 2 ^ 32 ->
  match GetOp2 s with
  | None => opcode (next_instruction s) = OP_INVALIDOPCODE
  | Some (op, data, rest) =>
      opcode (next_instruction s) = op /\ operand (next_instruction s) = data /\
      (op <> OP_INVALIDOPCODE -> advance s (next_instruction s) = rest)
  end.
Proof.
  intros Hok Hne Hl. pose proof (decode_GetOp2 s Hok Hne Hl) as D. unfold next_instruction.
  destruct (GetOp2 s) as [[[op data] rest]|].
  - destruct D as (off & -> & E1 & E2). cbn [opcode operand].
    assert (Ed : firstn (Z.to_nat (len data)) (skipn (Z.to_nat (1 + Z.of_nat off)) s) = data).
    { unfold len. rewrite Nat2Z.id. replace (Z.to_nat (1 + Z.of_nat off)) with (1 + off)%nat by lia.
      now rewrite <- E1. }
    rewrite Ed. repeat split. intros Hop. unfold advance. cbn [opcode offset operand].
    apply Z.eqb_neq in Hop. rewrite Hop, E2. f_equal. unfold len. lia.
  - now rewrite D.
Qed.

Lemma IsPushOnly_fuel_instructions fuel s :
  bytes_ok s -> len s < 2 ^ 32 ->
  IsPushOnly_fuel fuel s = forallb (fun i => opcode i <=? OP_16) (instructions_fuel fuel s).
Proof.
  revert s; induction fuel as [|fuel IH]; intros s Hok Hl; [reflexivity|].
  destruct s as [|b s]; [reflexivity|]. set (s' := b :: s) in *.
  pose proof (next_instruction_GetOp2 s' Hok ltac:(discriminate) Hl) as N.
  change (IsPushOnly_fuel (S fuel) s') with
    (match GetOp2 s' with
     | None => false
     | Some (op, _, rest) => if OP_16 <? op then false else IsPushOnly_fuel fuel rest
     end).
  change (instructions_fuel (S fuel) s') with
    (next_instruction s' :: instructions_fuel fuel (advance s' (next_instruction s'))).
  cbn [forallb]. destruct (GetOp2 s') as [[[op data] rest]|] eqn:G.
  - destruct N as (-> & _ & Ha). rewrite Z.ltb_antisym.
    destruct (Z.leb_spec op OP_16) as [Hle|Hgt]; [|reflexivity]. cbn [negb andb].
    rewrite Ha by (unfold OP_16, OP_INVALIDOPCODE in *; lia).
    pose proof (GetOp2_ok _ _ _ _ Hok G) as (_ & _ & Hr). pose proof (GetOp2_shorter _ _ _ _ G).
    apply IH; [exact Hr | unfold len in *; lia].
  - rewrite N. reflexivity.
Qed.

Lemma instructions_fuel_operands fuel s :
  bytes_ok s -> Forall (fun i => bytes_ok (operand i)) (instructions_fuel fuel s).
Proof.
  revert s; induction fuel as [|fuel IH]; intros s Hok; [constructor|].
  destruct s as [|b s]; [constructor|]. set (s' := b :: s) in *.
  change (instructions_fuel (S fuel) s') with
    (next_instruction s' :: instructions_fuel fuel (advance s' (next_instruction s'))).
  constructor.
  - unfold next_instruction. destruct (decode_instruction s') as [[op off] n]. cbn [operand].
    apply Forall_firstn, Forall_skipn, Hok.
  - apply IH. unfold advance. destruct (_ =? _); [constructor | apply Forall_skipn, Hok].
Qed.

Lemma length_instructions_fuel fuel s : (length (instructions_fuel fuel s) <= fuel)%nat.
Proof.
  revert s; induction fuel as [|fuel IH]; intros s; [cbn; lia|].
  destruct s as [|b s]; [cbn; lia|]. cbn [instructions_fuel length].
  specialize (IH (advance (b :: s) (next_instruction (b :: s)))). lia.
Qed.

Section SigOpsLemmas.
Context {B : BIGNUM}.

(** A four-byte minimal element is read and clamped without an exception. *)
Lemma small_element_int l :
  bytes_ok l -> len l <= 4 -> IsMinimallyEncoded l 4 = true ->
  exists n v, CScriptNum_of_span l true 4 false = Ok n /\ getint n = Ok v /\ - 2 ^ 31 <= v < 2 ^ 31.
Proof.
  intros Hok Hle EM. unfold CScriptNum_of_span. rewrite EM. cbn [negb andb].
  destruct (Z.ltb_spec 4 (len l)); [lia|]. pose proof (len_nonneg l).
  assert (exists n, (if len l =? 0 then Ok (Int64 0)
      else let* n := or_abort (deserialize l) in Ok (Int64 n))%outcome = Ok (Int64 n)) as [n ->].
  { destruct (Z.eqb_spec (len l) 0); [now eexists|].
    rewrite deserialize_value by (auto; lia). now eexists. }
  exists (Int64 n). cbn [getint]. unfold BigInt.INT_MAX, BigInt.INT_MIN.
  destruct (Z.ltb_spec (2 ^ 31 - 1) n); [eexists; repeat split; lia|].
  destruct (Z.ltb_spec n (- 2 ^ 31)); [eexists; repeat split; lia|].
  eexists. repeat split; rewrite i32_small; lia.
Qed.

Lemma multisig_count_total acc gen i :
  bytes_ok (operand i) ->
  exists k, multisig_count acc gen i = Ok k /\
    match k with
    | Some v => 0 <= v < 2 ^ 31 /\ (gen = false -> v <= 20)
    | None => gen = true
    end.
Proof.
  intros Hok. unfold multisig_count.
  destruct (_ && _) eqn:E1.
  { zbool. unfold DecodeOP_N. destruct (Z.eqb_spec (opcode i) OP_0); [unfold OP_0, OP_1 in *; lia|].
    replace ((OP_1 <=? opcode i) && (opcode i <=? OP_16)) with true
      by (symmetry; apply andb_true_iff; split; apply Z.leb_le; lia).
    unfold OP_1, OP_16 in *. cbn [assert_ obind]. eexists. split; [reflexivity | cbn; lia]. }
  destruct gen.
  2:{ eexists. split; [reflexivity|]. unfold MAX_PUBKEYS_PER_MULTISIG_BEFORE_GENESIS. lia. }
  destruct (opcode i =? OP_0); [eexists; split; [reflexivity | cbn; split; [lia | discriminate]]|].
  unfold MAXIMUM_ELEMENT_SIZE.
  destruct (Z.ltb_spec 4 (len (operand i))) as [|Hle]; [now eexists|].
  destruct (IsMinimallyEncoded (operand i) 4) eqn:EM; cbn [negb]; [|now eexists].
  destruct (small_element_int _ Hok Hle EM) as (n & v & -> & E & Hv).
  cbn [obind]. rewrite E. cbn [obind].
  destruct (Z.ltb_spec v 0); eexists; (split; [reflexivity|]); [reflexivity|].
  split; [lia | discriminate].
Qed.

(** The count of the loop, from [n] counted so far. *)
Lemma sigop_loop_total acc gen insts : forall last n,
  Forall (fun i => bytes_ok (operand i)) (last :: insts) -> 0 <= n < 2 ^ 64 ->
  exists m e, sigop_loop acc gen last n insts = Ok (m, e) /\ 0 <= m < 2 ^ 64 /\
    (gen = false -> n + 20 * len insts < 2 ^ 64 -> e = false /\ m <= n + 20 * len insts).
Proof.
  induction insts as [|it insts IH]; intros last n Hf Hn; cbn [sigop_loop].
  { exists n, false. repeat split; try lia. change (len (@nil instruction)) with 0. lia. }
  inversion Hf as [|? ? Hlast Hf']; subst. rewrite len_cons. pose proof (len_nonneg insts).
  destruct (opcode it =? OP_INVALIDOPCODE); [exists n, false; repeat split; lia|].
  assert (Hstep : forall k, 0 <= k < 2 ^ 31 -> (gen = false -> k <= 20) ->
    exists m e, sigop_loop acc gen it (u64 (n + k)) insts = Ok (m, e) /\ 0 <= m < 2 ^ 64 /\
      (gen = false -> n + 20 * (1 + len insts) < 2 ^ 64 ->
       e = false /\ m <= n + 20 * (1 + len insts))).
  { intros k Hk Hg. destruct (IH it (u64 (n + k)) Hf' (u64_range _)) as (m & e & E & Hm & Hb).
    exists m, e. split; [exact E|]. split; [exact Hm|]. intros Hgen Hlt. specialize (Hg Hgen).
    rewrite u64_small in Hb by lia. destruct (Hb Hgen ltac:(lia)). split; [assumption | lia]. }
  destruct (_ || _); [apply Hstep; lia|].
  destruct (_ || _).
  - destruct (multisig_count_total acc gen last Hlast) as ([v|] & -> & Hk); cbn [obind].
    + apply Hstep; apply Hk.
    + exists 0, true. repeat split; try lia; congruence.
  - destruct (IH it n Hf' Hn) as (m & e & E & Hm & Hb). exists m, e.
    split; [exact E|]. split; [exact Hm|]. intros Hgen Hlt.
    destruct (Hb Hgen ltac:(lia)). split; [assumption | lia].
Qed.

(** ** Theorems *)

Lemma GetSigOpCount_ok (s : CScript) (fAccurate isGenesisEnabled : bool) :
  bytes_ok s -> len s < 2 ^ 32 ->
  exists n e, GetSigOpCount s fAccurate isGenesisEnabled = Ok (n, e) /\ 0 <= n < 2 ^ 64 /\
    (isGenesisEnabled = false -> e = false /\ n <= 20 * len s).
Proof.
  intros Hok Hl. unfold GetSigOpCount, instructions.
  destruct (sigop_loop_total fAccurate isGenesisEnabled (instructions_fuel (length s) s)
              (mkInst OP_INVALIDOPCODE 0 []) 0) as (n & e & E & Hn & Hb); [|lia|].
  - constructor; [constructor | now apply instructions_fuel_operands].
  - exists n, e. split; [exact E|]. split; [exact Hn|]. intros Hg.
    pose proof (length_instructions_fuel (length s) s).
    destruct (Hb Hg) as [-> Hle]; unfold len in *; [lia|]. split; [reflexivity | lia].
Qed.

(** counting signature operations ends normally on every script: the checks
    before the [CScriptNum] constructor and [DecodeOP_N] rule out their exception
    and assertion.  Before Genesis no error is reported and the count is at most
    twenty per byte. *)
Theorem GetSigOpCount_total (s : CScript) (fAccurate isGenesisEnabled : bool) :
  bytes_ok s -> len s < 2 ^ 32 ->
  exists n e, GetSigOpCount s fAccurate isGenesisEnabled = Ok (n, e) /\ 0 <= n < 2 ^ 64 /\
    (isGenesisEnabled = false -> e = false /\ n <= 20 * len s).
Proof. apply GetSigOpCount_ok. Qed.

End SigOpsLemmas.

Lemma GetSigOpCount_total_witness :
  exists n e, GetSigOpCount (B := Z_BIGNUM) [OP_CHECKSIG; 1; 5; OP_CHECKMULTISIG] false true = Ok (n, e) /\
    0 <= n < 2 ^ 64 /\ (true = false -> e = false /\ n <= 20 * len [OP_CHECKSIG; 1; 5; OP_CHECKMULTISIG]).
Proof.
  apply (GetSigOpCount_total (B := Z_BIGNUM) [OP_CHECKSIG; 1; 5; OP_CHECKMULTISIG] false true);
    [apply bytes_okb; reflexivity | cbn; lia].
Defined.

(** the instruction iterator and the interpreter's [GetOp2] read the same
    instruction at every position, and treat the same positions as malformed. *)
Theorem decoders_agree (s : CScript) :
  bytes_ok s -> s <> [] -> len s < 2 ^ 32 ->
  match GetOp2 s with
  | None => opcode (next_instruction s) = OP_INVALIDOPCODE
  | Some (op, data, rest) =>
      opcode (next_instruction s) = op /\ operand (next_instruction s) = data /\
      (op <> OP_INVALIDOPCODE -> advance s (next_instruction s) = rest)
  end /\
  IsPushOnly s = forallb (fun i => opcode i <=? OP_16) (instructions s).
Proof.
  intros Hok Hne Hl. split; [now apply next_instruction_GetOp2|].
  now apply IsPushOnly_fuel_instructions.
Qed.

Lemma decoders_agree_witness :
  IsPushOnly [OP_PUSHDATA1; 2; 7; 8; OP_16] =
  forallb (fun i => opcode i <=? OP_16) (instructions [OP_PUSHDATA1; 2; 7; 8; OP_16]).
Proof.
  apply (decoders_agree [OP_PUSHDATA1; 2; 7; 8; OP_16]);
    [apply bytes_okb; reflexivity | discriminate | cbn; lia].
Defined.

(** what [operator<<] appends for data is read back by [GetOp2] as one push of
    exactly that data, and what it appends for an integer as a push of the script
    encoding of the integer or as the one-byte opcode that stands for it. *)
Theorem push_roundtrip (b rest : bytes) (n : Z) :
  len b + len rest < 2 ^ 32 -> - 2 ^ 63 <= n < 2 ^ 63 -> 9 + len rest < 2 ^ 32 ->
  GetOp2 (push_data [] b ++ rest) = Some (push_opcode_of (len b), b, rest) /\
  GetOp2 (push_int64 [] n ++ rest) =
    (if (n =? -1) || ((1 <=? n) && (n <=? 16)) then Some (n + 80, [], rest)
     else Some (push_opcode_of (len (sm_encode n)), sm_encode n, rest)).
Proof.
  intros Hb Hn Hr. split; [now apply GetOp2_push_data|]. unfold push_int64.
  destruct (_ || _) eqn:E.
  - assert (Hsmall : n = -1 \/ 1 <= n <= 16) by (zbool; destruct E; zbool; lia).
    rewrite u8_small by (unfold is_byte, OP_1; lia).
    cbn [app]. unfold GetOp2, OP_PUSHDATA4, OP_1.
    destruct (Z.leb_spec (n + (0x51 - 1)) 0x4e); [lia|]. reflexivity.
  - destruct (Z.eqb_spec n 0) as [->|Hne].
    { apply (GetOp2_push_data [] rest). change (len (@nil Z)) with 0. lia. }
    rewrite serialize_sm_encode by lia. apply GetOp2_push_data.
    pose proof (sm_encode_len9 n Hn). lia.
Qed.

Lemma push_roundtrip_witness :
  GetOp2 (push_data [] [1; 2; 3] ++ [OP_DROP]) = Some (3, [1; 2; 3], [OP_DROP]).
Proof. apply (push_roundtrip [1; 2; 3] [OP_DROP] 1000); cbn; lia. Defined.

(** [FindAndDelete] terminates with the script its specification describes:
    the occurrences at instruction boundaries are gone, the count is theirs, and
    the sizes add up. *)
Theorem FindAndDelete_correct (s b : CScript) :
  b <> [] ->
  deleted b s (fst (FindAndDelete s b)) (snd (FindAndDelete s b)) /\
  len (fst (FindAndDelete s b)) + snd (FindAndDelete s b) * len b = len s.
Proof.
  intros Hb. pose proof (FindAndDelete_deleted s b Hb) as D.
  split; [exact D | exact (proj2 (deleted_size _ _ _ _ D))].
Qed.

Lemma FindAndDelete_correct_witness :
  deleted [OP_CODESEPARATOR] [1; OP_CODESEPARATOR; OP_CODESEPARATOR; OP_1]
    (fst (FindAndDelete [1; OP_CODESEPARATOR; OP_CODESEPARATOR; OP_1] [OP_CODESEPARATOR]))
    (snd (FindAndDelete [1; OP_CODESEPARATOR; OP_CODESEPARATOR; OP_1] [OP_CODESEPARATOR])) /\
  FindAndDelete [1; OP_CODESEPARATOR; OP_CODESEPARATOR; OP_1] [OP_CODESEPARATOR] =
    ([1; OP_CODESEPARATOR; OP_1], 1).
Proof.
  split; [|reflexivity].
  apply (FindAndDelete_correct [1; OP_CODESEPARATOR; OP_CODESEPARATOR; OP_1] [OP_CODESEPARATOR]).
  discriminate.
Defined.

End Script.
