(* ===== verification/Serialize.v ===== *)
(** * Serialization (src/src/serialize.h)

    A value is written to and read from a stream of bytes.  [codec] pairs the
    [Serialize] and [Unserialize] of a type, as the two actions of a class's
    [SerializationOp] do; [Lawful] is what the rest of the program relies on: writing
    then reading gives the value back and leaves the rest of the stream, and what is
    read is the unique encoding of the value.  [None] is the exception thrown at the
    end of the data, on an oversized object and on a non-canonical size. *)

From S2P Require Import Prelude Endian.

Module Serialize.

(** ** Streams *)

Definition reader (A : Type) : Type := bytes -> option (A * bytes).

Definition rbind {A B} (m : reader A) (k : A -> reader B) : reader B :=
  fun s => match m s with Some (a, s') => k a s' | None => None end.
Definition rret {A} (a : A) : reader A := fun s => Some (a, s).
Definition rfail {A} : reader A := fun _ => None.

Declare Scope reader_scope.
Delimit Scope reader_scope with reader.
Notation "x <- m ;; k" := (rbind m (fun x => k))
  (at level 62, m at next level, right associativity) : reader_scope.
Local Open Scope reader_scope.

(** [is.read(pch, n)]: throws when the stream holds fewer bytes. *)
Definition read (n : nat) : reader bytes :=
  fun s => if (length s <? n)%nat then None else Some (firstn n s, skipn n s).

Definition wbind (m k : option bytes) : option bytes :=
  match m, k with Some a, Some b => Some (a ++ b) | _, _ => None end.

(** ** Integers *)

Definition ser_writedata8 (obj : Z) : bytes := le_encode 1 obj.
Definition ser_writedata16 (obj : Z) : bytes := WriteLE16 obj.
Definition ser_writedata32 (obj : Z) : bytes := WriteLE32 obj.
Definition ser_writedata64 (obj : Z) : bytes := WriteLE64 obj.

Definition ser_readdata8 : reader Z := b <- read 1 ;; rret (le_decode b).
Definition ser_readdata16 : reader Z := b <- read 2 ;; rret (ReadLE16 b).
Definition ser_readdata32 : reader Z := b <- read 4 ;; rret (ReadLE32 b).
Definition ser_readdata64 : reader Z := b <- read 8 ;; rret (ReadLE64 b).

(** ** Compact sizes *)

Definition MAX_SIZE : Z := 0xffffffff.

Definition GetSizeOfCompactSize (nSize : Z) : Z :=
  if nSize <? 253 then 1
  else if nSize <=? 0xffff then 1 + 2
  else if nSize <=? 0xffffffff then 1 + 4
  else 1 + 8.

Definition WriteCompactSize (nSize : Z) : option bytes :=
  if MAX_SIZE <? nSize then None
  else Some (
    if nSize <? 253 then ser_writedata8 nSize
    else if nSize <=? 0xffff then ser_writedata8 253 ++ ser_writedata16 nSize
    else if nSize <=? 0xffffffff then ser_writedata8 254 ++ ser_writedata32 nSize
    else ser_writedata8 255 ++ ser_writedata64 nSize).

Definition ReadCompactSize : reader Z :=
  chSize <- ser_readdata8 ;;
  nSizeRet <-
    (if chSize <? 253 then rret chSize
     else if chSize =? 253 then
       n <- ser_readdata16 ;; if n <? 253 then rfail else rret n
     else if chSize =? 254 then
       n <- ser_readdata32 ;; if n <? 0x10000 then rfail else rret n
     else
       n <- ser_readdata64 ;; if n <? 0x100000000 then rfail else rret n) ;;
  if MAX_SIZE <? nSizeRet then rfail else rret nSizeRet.

(** ** Variable-length integers

    [I] is an unsigned type of [w] bits; the array [tmp] has [(w + 6) / 7] entries. *)

Definition varint_size (w : Z) : nat := Z.to_nat ((w + 6) / 7).

Fixpoint GetSizeOfVarInt_loop (fuel : nat) (n nRet : Z) : option Z :=
  match fuel with
  | O => None
  | S fuel =>
      let nRet := nRet + 1 in
      if n <=? 0x7f then Some nRet
      else GetSizeOfVarInt_loop fuel (Z.shiftr n 7 - 1) nRet
  end.

Definition GetSizeOfVarInt (w n : Z) : option Z := GetSizeOfVarInt_loop (varint_size w) n 0.

(** The first loop of [WriteVarInt] fills [tmp] from index [len]; the second writes
    it backwards, which [tmp], held with its last entry first, already is.  [None]
    is a write past the array. *)
Fixpoint WriteVarInt_loop (fuel : nat) (n : Z) (tmp : bytes) : option bytes :=
  match fuel with
  | O => None
  | S fuel =>
      let tmp := u8 (Z.lor (Z.land n 0x7f) (match tmp with [] => 0x00 | _ => 0x80 end)) :: tmp in
      if n <=? 0x7f then Some tmp
      else WriteVarInt_loop fuel (Z.shiftr n 7 - 1) tmp
  end.

Definition WriteVarInt (w n : Z) : option bytes := WriteVarInt_loop (varint_size w) n [].

(** [n] is a [uintmax_t], and [maxSize] is the number of its 7-bit digits. *)
Fixpoint ReadVarInt_loop (maxSize : nat) (overflow n : Z) : reader Z :=
  match maxSize with
  | O => rfail
  | S maxSize =>
      if overflow <? n then rfail
      else
        chData <- ser_readdata8 ;;
        let n := Z.lor (shl64 n 7) (Z.land chData 0x7f) in
        if Z.land chData 0x80 =? 0 then rret n
        else ReadVarInt_loop maxSize overflow (u64 (n + 1))
  end.

Definition ReadVarInt (w : Z) : reader Z :=
  n <- ReadVarInt_loop (varint_size 64) (Z.shiftr (2 ^ w - 1) 7) 0 ;; rret (n mod 2 ^ w).

(** ** Vectors *)

Definition STARTING_CHUNK_SIZE : Z := 16000000.
Definition CHUNK_GROWTH_RATE : Z := 3.

(** [Unserialize_impl] for bytes reads the announced size chunk by chunk.  Every
    chunk takes at least one byte, so the length of the stream bounds the loop. *)
Fixpoint read_chunks (fuel : nat) (nSize i chunkSize : Z) (v : bytes) : reader bytes :=
  fun s =>
  if nSize <=? i then Some (v, s)
  else
    match fuel with
    | O => None
    | S fuel =>
        let blk := Z.min (nSize - i) (1 + u64 (chunkSize - 1)) in
        (b <- read (Z.to_nat blk) ;;
         read_chunks fuel nSize (i + blk) (u64 (chunkSize * CHUNK_GROWTH_RATE)) (v ++ b)) s
    end.

Definition Unserialize_bytes : reader bytes :=
  nSize <- ReadCompactSize ;;
  fun s => read_chunks (S (length s)) nSize 0 STARTING_CHUNK_SIZE [] s.

Definition Serialize_bytes (v : bytes) : option bytes :=
  wbind (WriteCompactSize (len v)) (Some v).

(** [Serialize_impl] for any other element type. *)
Fixpoint Serialize_elems {A} (f : A -> option bytes) (v : list A) : option bytes :=
  match v with
  | [] => Some []
  | i :: v => wbind (f i) (Serialize_elems f v)
  end.

Definition Serialize_vector {A} (f : A -> option bytes) (v : list A) : option bytes :=
  wbind (WriteCompactSize (len v)) (Serialize_elems f v).

(** The loop [for(; i < nMid; i++) Unserialize(is, v[i]);]: an element takes at
    least one byte. *)
Fixpoint read_elems {A} (r : reader A) (fuel : nat) (n : Z) (v : list A) : reader (list A) :=
  fun s =>
  if n <=? 0 then Some (v, s)
  else
    match fuel with
    | O => None
    | S fuel => (a <- r ;; read_elems r fuel (n - 1) (v ++ [a])) s
    end.

(** The loop over [nMid], which grows the vector before it reads its elements. *)
Fixpoint read_vector {A} (r : reader A) (sizeofT : Z) (fuel : nat) (nSize nMid chunkSize : Z)
    (v : list A) : reader (list A) :=
  fun s =>
  if nSize <=? nMid then Some (v, s)
  else
    match fuel with
    | O => None
    | S fuel =>
        let nMid := nMid + Z.min nSize (1 + u64 (chunkSize - 1) / sizeofT) in
        let chunkSize := u64 (chunkSize * CHUNK_GROWTH_RATE) in
        let nMid := if nSize <? nMid then nSize else nMid in
        (v <- (fun s => read_elems r (S (length s)) (nMid - len v) v s) ;;
         read_vector r sizeofT fuel nSize nMid chunkSize v) s
    end.

Definition Unserialize_vector {A} (r : reader A) (sizeofT : Z) : reader (list A) :=
  nSize <- ReadCompactSize ;;
  fun s => read_vector r sizeofT (S (length s)) nSize 0 STARTING_CHUNK_SIZE [] s.

(** ** Codecs *)

Record codec (A : Type) : Type := Codec {
  Serialize : A -> option bytes;
  Unserialize : reader A
}.
Arguments Codec {A}.
Arguments Serialize {A}.
Arguments Unserialize {A}.

Definition uint_codec (n : nat) : codec Z :=
  Codec (fun x => Some (le_encode n x)) (b <- read n ;; rret (le_decode b)).

(** [int32_t] and [int64_t] go through the unsigned type. *)
Definition int_codec (n : nat) : codec Z :=
  Codec (fun x => Some (le_encode n x))
        (b <- read n ;; rret (sint (8 * Z.of_nat n) (le_decode b))).

(** A [base_blob]: its bytes as they are. *)
Definition blob_codec (n : nat) : codec bytes :=
  Codec (fun x => Some x) (read n).

Definition bytes_codec : codec bytes := Codec Serialize_bytes Unserialize_bytes.

Definition vector_codec {A} (c : codec A) (sizeofT : Z) : codec (list A) :=
  Codec (Serialize_vector (Serialize c)) (Unserialize_vector (Unserialize c) sizeofT).

(** [READWRITE(a); READWRITE(b);] *)
Definition pair_codec {A B} (a : codec A) (b : codec B) : codec (A * B) :=
  Codec (fun p => wbind (Serialize a (fst p)) (Serialize b (snd p)))
        (x <- Unserialize a ;; y <- Unserialize b ;; rret (x, y)).

(** The members of a class as a tuple. *)
Definition class_codec {A B} (members : B -> A) (build : A -> B) (c : codec A) : codec B :=
  Codec (fun x => Serialize c (members x)) (x <- Unserialize c ;; rret (build x)).

(** What a client may assume of a codec on the values [valid] describes. *)
Class Lawful {A} (c : codec A) (valid : A -> Prop) : Prop := {
  ser_some : forall a, valid a -> exists p, Serialize c a = Some p /\ bytes_ok p;
  ser_read : forall a p rest, bytes_ok rest -> valid a -> Serialize c a = Some p ->
    Unserialize c (p ++ rest) = Some (a, rest);
  read_ser : forall s a rest, bytes_ok s -> Unserialize c s = Some (a, rest) ->
    valid a /\ exists p, Serialize c a = Some p /\ s = p ++ rest
}.

(** The first half: what is written is read back. *)
Class Readable {A} (c : codec A) (valid : A -> Prop) : Prop := {
  rd_some : forall a, valid a -> exists p, Serialize c a = Some p /\ bytes_ok p;
  rd_read : forall a p rest, bytes_ok rest -> valid a -> Serialize c a = Some p ->
    Unserialize c (p ++ rest) = Some (a, rest)
}.

(** An element of a vector takes at least one byte. *)
Class NonEmpty {A} (c : codec A) (valid : A -> Prop) : Prop :=
  ser_nonempty : forall a p, valid a -> Serialize c a = Some p -> (0 < length p)%nat.

(** The readers without chunks. *)
Fixpoint read_many {A} (r : reader A) (n : nat) : reader (list A) :=
  match n with
  | O => rret []
  | S n => a <- r ;; l <- read_many r n ;; rret (a :: l)
  end.

(** ** Lemmas *)

Lemma read_app n p rest : length p = n -> read n (p ++ rest) = Some (p, rest).
Proof.
  intros <-. unfold read. rewrite length_app.
  destruct (Nat.ltb_spec (length p + length rest) (length p)); [lia|].
  now rewrite firstn_app, firstn_all, Nat.sub_diag, app_nil_r, skipn_app, skipn_all, Nat.sub_diag.
Qed.

Lemma read_some n s p rest : read n s = Some (p, rest) -> s = p ++ rest /\ length p = n.
Proof.
  unfold read. destruct (Nat.ltb_spec (length s) n); [discriminate|].
  intros E. injection E as <- <-. rewrite firstn_skipn, length_firstn. split; [reflexivity | lia].
Qed.

Lemma rbind_some {A B} (m : reader A) (k : A -> reader B) s b s' :
  rbind m k s = Some (b, s') -> exists a s1, m s = Some (a, s1) /\ k a s1 = Some (b, s').
Proof.
  unfold rbind. destruct (m s) as [[a s1]|]; [|discriminate]. intros H. now exists a, s1.
Qed.

Lemma wbind_some a b p : wbind a b = Some p -> exists x y, a = Some x /\ b = Some y /\ p = x ++ y.
Proof.
  destruct a as [x|], b as [y|]; try discriminate. intros E. injection E as <-. now exists x, y.
Qed.

Lemma rret_some {A} (a b : A) s s' : rret a s = Some (b, s') -> a = b /\ s = s'.
Proof. unfold rret. split; congruence. Qed.

(** Takes a successful read or write apart. *)
Ltac some_inv :=
  repeat match goal with
  | H : rbind _ _ _ = Some _ |- _ =>
      let a := fresh "a" in let s := fresh "s" in let E := fresh "E" in
      apply rbind_some in H; destruct H as (a & s & E & H)
  | H : wbind _ _ = Some _ |- _ =>
      let x := fresh "x" in let y := fresh "y" in let Ex := fresh "E" in let Ey := fresh "E" in
      apply wbind_some in H; destruct H as (x & y & Ex & Ey & ->)
  | H : rret _ _ = Some _ |- _ => apply rret_some in H; destruct H; subst
  | H : rfail _ = Some _ |- _ => discriminate H
  | H : read _ _ = Some _ |- _ =>
      let L := fresh "L" in apply read_some in H; destruct H as (-> & L)
  | H : Some _ = Some _ |- _ => apply Some_inj in H; subst
  | H : (_, _) = (_, _) |- _ => injection H; clear H; intros; subst
  | H : bytes_ok (_ ++ _) |- _ => apply bytes_ok_app in H; destruct H
  end.

Lemma uint_read n x rest :
  0 <= x < 2 ^ (8 * Z.of_nat n) -> Unserialize (uint_codec n) (le_encode n x ++ rest) = Some (x, rest).
Proof.
  intros H. cbn [Unserialize uint_codec]. unfold rbind, rret.
  rewrite read_app by apply length_le_encode. now rewrite le_decode_encode, Z.mod_small.
Qed.

#[export] Instance uint_codec_lawful n :
  Lawful (uint_codec n) (fun x => 0 <= x < 2 ^ (8 * Z.of_nat n)).
Proof.
  split; cbn [Serialize Unserialize uint_codec].
  - intros a _. eexists. split; [reflexivity | apply le_encode_ok].
  - intros a p rest _ Ha E. apply Some_inj in E as <-. now apply uint_read.
  - intros s a rest Hs E. some_inv. subst n. pose proof (le_decode_range a0 H) as R. unfold len in R.
    split; [exact R|]. eexists. split; [reflexivity|]. now rewrite le_encode_decode.
Qed.

Lemma sint_spec w x : 0 < w -> (sint w x) mod 2 ^ w = x mod 2 ^ w /\ - 2 ^ (w - 1) <= sint w x < 2 ^ (w - 1).
Proof.
  intros Hw. unfold sint. pose proof (Z.mod_pos_bound x (2 ^ w) ltac:(lia)).
  assert (2 ^ w = 2 * 2 ^ (w - 1)) by (rewrite <- Z.pow_succ_r by lia; f_equal; lia).
  destruct (Z.ltb_spec (x mod 2 ^ w) (2 ^ (w - 1))).
  - rewrite Z.mod_mod by lia. lia.
  - split; [|lia]. rewrite <- (Z_mod_plus_full _ 1), Z.mul_1_l, Z.sub_add. apply Z.mod_mod. lia.
Qed.

Lemma sint_mod w x : 0 < w -> - 2 ^ (w - 1) <= x < 2 ^ (w - 1) -> sint w (x mod 2 ^ w) = x.
Proof.
  intros Hw Hx. pose proof (sint_spec w (x mod 2 ^ w) Hw) as [E R]. rewrite Z.mod_mod in E by lia.
  assert (2 ^ w = 2 * 2 ^ (w - 1)) by (rewrite <- Z.pow_succ_r by lia; f_equal; lia).
  set (y := sint w (x mod 2 ^ w)) in *. clearbody y.
  pose proof (Z.div_mod y (2 ^ w) ltac:(lia)). pose proof (Z.div_mod x (2 ^ w) ltac:(lia)).
  set (M := 2 ^ w) in *. assert (E2 : y - x = M * (y / M - x / M)) by lia.
  assert (y / M - x / M = 0) by nia. lia.
Qed.

#[export] Instance int_codec_lawful n : (0 < n)%nat ->
  Lawful (int_codec n) (fun x => - 2 ^ (8 * Z.of_nat n - 1) <= x < 2 ^ (8 * Z.of_nat n - 1)).
Proof.
  intros Hn. split; cbn [Serialize Unserialize int_codec].
  - intros a _. eexists. split; [reflexivity | apply le_encode_ok].
  - intros a p rest _ Ha E. injection E as <-. unfold rbind.
    rewrite read_app by apply length_le_encode. unfold rret.
    rewrite le_decode_encode, sint_mod by lia. reflexivity.
  - intros s a rest Hs E. some_inv. subst n. pose proof (le_decode_range a0 H) as R. unfold len in R.
    destruct (sint_spec (8 * Z.of_nat (length a0)) (le_decode a0)) as [Em Er]; [lia|].
    split; [exact Er|]. eexists. split; [reflexivity|].
    rewrite <- le_encode_mod, Em, Z.mod_small by lia. now rewrite le_encode_decode.
Qed.

#[export] Instance blob_codec_lawful n :
  Lawful (blob_codec n) (fun x => bytes_ok x /\ length x = n).
Proof.
  split; cbn [Serialize Unserialize blob_codec].
  - intros a [Ha _]. now exists a.
  - intros a p rest _ [_ Ha] E. injection E as <-. now apply read_app.
  - intros s a rest Hs E. some_inv. split; [auto|]. now exists a.
Qed.

#[export] Instance pair_codec_lawful {A B} (a : codec A) (b : codec B) va vb :
  Lawful a va -> Lawful b vb ->
  Lawful (pair_codec a b) (fun p => va (fst p) /\ vb (snd p)).
Proof.
  intros LA LB. split; cbn [Serialize Unserialize pair_codec].
  - intros [x y] [Hx Hy]. destruct (ser_some x Hx) as (p & Ep & Hp).
    destruct (ser_some y Hy) as (q & Eq & Hq). exists (p ++ q). cbn [fst snd]. rewrite Ep, Eq.
    split; [reflexivity | now apply bytes_ok_app].
  - intros [x y] p rest Hr [Hx Hy] E. some_inv. cbn [fst snd] in *. unfold rbind.
    destruct (ser_some y Hy) as (q & Eq & Hq). rewrite E1 in Eq. injection Eq as ->.
    rewrite <- app_assoc, (ser_read x _ (q ++ rest) ltac:(now apply bytes_ok_app) Hx E0), (ser_read y _ _ Hr Hy E1).
    reflexivity.
  - intros s [x y] rest Hs E. some_inv. destruct (read_ser _ _ _ Hs E0) as (Hx & p & Ep & ->).
    apply bytes_ok_app in Hs as [Hp Hs]. destruct (read_ser _ _ _ Hs E1) as (Hy & q & Eq & ->).
    split; [now split|]. exists (p ++ q). cbn [fst snd]. rewrite Ep, Eq, app_assoc. auto.
Qed.

#[export] Instance class_codec_lawful {A B} (members : B -> A) (build : A -> B) (c : codec A) v :
  (forall a, members (build a) = a) -> (forall b, build (members b) = b) -> Lawful c v ->
  Lawful (class_codec members build c) (fun b => v (members b)).
Proof.
  intros H1 H2 L. split; cbn [Serialize Unserialize class_codec].
  - intros b Hb. now apply ser_some.
  - intros b p rest Hr Hb E. unfold rbind. rewrite (ser_read _ _ _ Hr Hb E). unfold rret. now rewrite H2.
  - intros s b rest Hs E. some_inv. rewrite H1. now apply read_ser.
Qed.

(** *** Compact sizes *)

Lemma read_rret_ext {A} (f g : bytes -> A) n :
  (forall b, length b = n -> f b = g b) ->
  forall s, (b <- read n ;; rret (f b)) s = (b <- read n ;; rret (g b)) s.
Proof.
  intros H s. unfold rbind. destruct (read n s) as [[b s']|] eqn:E; [|reflexivity].
  apply read_some in E as [_ E]. unfold rret. now rewrite H.
Qed.

Lemma ser_readdata16_uint s : ser_readdata16 s = Unserialize (uint_codec 2) s.
Proof. apply read_rret_ext. intros b H. unfold ReadLE16. now rewrite firstn_all2 by lia. Qed.

Lemma ser_readdata32_uint s : ser_readdata32 s = Unserialize (uint_codec 4) s.
Proof. apply read_rret_ext. intros b H. unfold ReadLE32. now rewrite firstn_all2 by lia. Qed.

Lemma ser_readdata64_uint s : ser_readdata64 s = Unserialize (uint_codec 8) s.
Proof. apply read_rret_ext. intros b H. unfold ReadLE64. now rewrite firstn_all2 by lia. Qed.

Lemma uint_read_inv n s x rest :
  bytes_ok s -> Unserialize (uint_codec n) s = Some (x, rest) ->
  0 <= x < 2 ^ (8 * Z.of_nat n) /\ s = le_encode n x ++ rest.
Proof.
  intros Hs E. destruct (read_ser (c := uint_codec n) _ _ _ Hs E) as (Hx & p & Ep & ->).
  injection Ep as <-. auto.
Qed.

Definition compact_codec : codec Z := Codec WriteCompactSize ReadCompactSize.

Lemma ReadCompactSize_Write n p rest :
  0 <= n -> WriteCompactSize n = Some p -> ReadCompactSize (p ++ rest) = Some (n, rest).
Proof.
  unfold WriteCompactSize, MAX_SIZE. intros Hn E. destruct (Z.ltb_spec 0xffffffff n); [discriminate|].
  apply Some_inj in E as <-. unfold ReadCompactSize, MAX_SIZE, rbind, ser_writedata8, ser_writedata16,
    ser_writedata32, ser_writedata64, WriteLE16, WriteLE32, WriteLE64.
  change (ser_readdata8) with (Unserialize (uint_codec 1)).
  destruct (Z.ltb_spec n 253); [|destruct (Z.leb_spec n 0xffff); [|destruct (Z.leb_spec n 0xffffffff); [|lia]]];
    rewrite <- ?app_assoc, uint_read by lia.
  - destruct (Z.ltb_spec n 253); [|lia]. unfold rret. destruct (Z.ltb_spec 0xffffffff n); [lia | reflexivity].
  - cbn [Z.ltb Z.eqb Z.compare Pos.compare Pos.compare_cont Pos.eqb].
    rewrite ser_readdata16_uint, uint_read by lia. destruct (Z.ltb_spec n 253); [lia|].
    unfold rret. destruct (Z.ltb_spec 0xffffffff n); [lia | reflexivity].
  - cbn [Z.ltb Z.eqb Z.compare Pos.compare Pos.compare_cont Pos.eqb].
    rewrite ser_readdata32_uint, uint_read by lia. destruct (Z.ltb_spec n 0x10000); [lia|].
    unfold rret. destruct (Z.ltb_spec 0xffffffff n); [lia | reflexivity].
Qed.

Lemma WriteCompactSize_Read s n rest :
  bytes_ok s -> ReadCompactSize s = Some (n, rest) ->
  0 <= n <= MAX_SIZE /\ exists p, WriteCompactSize n = Some p /\ s = p ++ rest.
Proof.
  unfold ReadCompactSize. change (ser_readdata8) with (Unserialize (uint_codec 1)).
  intros Hs H. apply rbind_some in H as (c & s1 & E1 & H). apply rbind_some in H as (m & s2 & E2 & H).
  destruct (Z.ltb_spec MAX_SIZE m); [discriminate|]. apply rret_some in H as [<- <-].
  apply uint_read_inv in E1 as [Hc ->]; [|assumption]. apply bytes_ok_app in Hs as [_ Hs].
  unfold WriteCompactSize. destruct (Z.ltb_spec MAX_SIZE m); [lia|]. unfold MAX_SIZE in *.
  destruct (Z.ltb_spec c 253).
  { apply rret_some in E2 as [<- <-]. split; [lia|]. eexists. split; [reflexivity|].
    destruct (Z.ltb_spec c 253); [reflexivity | lia]. }
  destruct (Z.eqb_spec c 253) as [->|]; [|destruct (Z.eqb_spec c 254) as [->|]].
  - apply rbind_some in E2 as (k & s3 & E2 & E3). rewrite ser_readdata16_uint in E2.
    apply uint_read_inv in E2 as [Hk ->]; [|assumption].
    destruct (Z.ltb_spec k 253); [discriminate|]. apply rret_some in E3 as [<- <-].
    split; [lia|]. eexists. split; [reflexivity|]. destruct (Z.ltb_spec k 253); [lia|].
    destruct (Z.leb_spec k 0xffff); [apply app_assoc | lia].
  - apply rbind_some in E2 as (k & s3 & E2 & E3). rewrite ser_readdata32_uint in E2.
    apply uint_read_inv in E2 as [Hk ->]; [|assumption].
    destruct (Z.ltb_spec k 0x10000); [discriminate|]. apply rret_some in E3 as [<- <-].
    split; [lia|]. eexists. split; [reflexivity|]. destruct (Z.ltb_spec k 253); [lia|].
    destruct (Z.leb_spec k 0xffff); [lia|]. destruct (Z.leb_spec k 0xffffffff); [apply app_assoc | lia].
  - apply rbind_some in E2 as (k & s3 & E2 & E3).
    destruct (Z.ltb_spec k 0x100000000); [discriminate|]. apply rret_some in E3 as [<- <-]. lia.
Qed.

#[export] Instance compact_codec_lawful : Lawful compact_codec (fun n => 0 <= n <= MAX_SIZE).
Proof.
  split; cbn [Serialize Unserialize compact_codec].
  - intros a Ha. unfold WriteCompactSize. destruct (Z.ltb_spec MAX_SIZE a); [lia|].
    eexists. split; [reflexivity|]. unfold ser_writedata8, ser_writedata16, ser_writedata32,
      ser_writedata64, WriteLE16, WriteLE32, WriteLE64.
    repeat destruct (_ <? _); repeat destruct (_ <=? _);
      repeat (apply bytes_ok_app; split); apply le_encode_ok.
  - intros a p rest _ [Ha _]. now apply ReadCompactSize_Write.
  - apply WriteCompactSize_Read.
Qed.

Lemma GetSizeOfCompactSize_correct n p :
  WriteCompactSize n = Some p -> len p = GetSizeOfCompactSize n.
Proof.
  unfold WriteCompactSize, GetSizeOfCompactSize. destruct (MAX_SIZE <? n); [discriminate|].
  intros E. apply Some_inj in E as <-. unfold ser_writedata8, ser_writedata16, ser_writedata32,
    ser_writedata64, WriteLE16, WriteLE32, WriteLE64.
  repeat dgoal; rewrite ?len_app; unfold len; now rewrite !length_le_encode.
Qed.

(** *** Vectors: the chunked loops read what the plain loops read *)

Lemma firstn_plus {A} a b (l : list A) : firstn (a + b) l = firstn a l ++ firstn b (skipn a l).
Proof. revert l; induction a; intros [|x l]; cbn; rewrite ?firstn_nil; auto. now rewrite IHa. Qed.

Lemma read_add a b s :
  read (a + b) s = (x <- read a ;; y <- read b ;; rret (x ++ y)) s.
Proof.
  unfold rbind, rret, read. destruct (Nat.ltb_spec (length s) a).
  - destruct (Nat.ltb_spec (length s) (a + b)); [reflexivity | lia].
  - rewrite length_skipn, skipn_skipn, (Nat.add_comm b a).
    destruct (Nat.ltb_spec (length s) (a + b)), (Nat.ltb_spec (length s - a) b); try lia; auto.
    now rewrite firstn_plus.
Qed.

Lemma read_chunks_plain fuel nSize i chunkSize v s :
  i <= nSize -> (length s < fuel)%nat ->
  read_chunks fuel nSize i chunkSize v s =
  (b <- read (Z.to_nat (nSize - i)) ;; rret (v ++ b)) s.
Proof.
  revert i chunkSize v s; induction fuel as [|fuel IH]; intros i chunkSize v s Hi Hf; [lia|].
  cbn [read_chunks]. destruct (Z.leb_spec nSize i).
  { replace (nSize - i) with 0 by lia. unfold rbind, read, rret. cbn. now rewrite app_nil_r. }
  set (blk := Z.min (nSize - i) (1 + u64 (chunkSize - 1))).
  assert (1 <= blk <= nSize - i) by (subst blk; pose proof (u64_range (chunkSize - 1)); lia).
  clearbody blk. replace (nSize - i) with (blk + (nSize - (i + blk))) by lia.
  rewrite Z2Nat.inj_add by lia. unfold rbind at 1 2. rewrite read_add. unfold rbind at 1.
  destruct (read (Z.to_nat blk) s) as [[b s1]|] eqn:E; [|reflexivity].
  apply read_some in E as [-> E]. rewrite length_app in Hf. rewrite IH by lia.
  unfold rbind, rret. destruct (read _ s1) as [[y s2]|]; [|reflexivity]. now rewrite app_assoc.
Qed.

Definition consumes {A} (r : reader A) : Prop :=
  forall s a s', bytes_ok s -> r s = Some (a, s') -> bytes_ok s' /\ (length s' < length s)%nat.

Lemma consumes_codec {A} (c : codec A) valid :
  Lawful c valid -> NonEmpty c valid -> consumes (Unserialize c).
Proof.
  intros L N s a s' Hs E. destruct (read_ser _ _ _ Hs E) as (Ha & p & Ep & ->).
  apply bytes_ok_app in Hs as [_ Hs]. rewrite length_app. pose proof (N _ _ Ha Ep). split; [auto|lia].
Qed.

Section read_vectors.
Context {A : Type} (r : reader A) (Hr : consumes r).

Lemma read_many_consumes n s l s' :
  bytes_ok s -> read_many r n s = Some (l, s') ->
  bytes_ok s' /\ (length s' + n <= length s)%nat /\ length l = n.
Proof using Hr.
  revert s l; induction n as [|n IH]; intros s l Hs E; cbn [read_many] in E.
  - some_inv. split; [auto|]. cbn [length]. lia.
  - some_inv. destruct (Hr _ _ _ Hs E0) as [Hs1 H1]. destruct (IH _ _ Hs1 E1) as (H2 & H3 & H4).
    cbn [length]. split; [auto|lia].
Qed.

Lemma read_many_add n m s :
  read_many r (n + m) s = (x <- read_many r n ;; y <- read_many r m ;; rret (x ++ y)) s.
Proof.
  revert s; induction n as [|n IH]; intros s; cbn [Nat.add read_many].
  - unfold rbind, rret. cbn [app]. now destruct (read_many r m s) as [[]|].
  - unfold rbind in *. destruct (r s) as [[a s1]|]; [|reflexivity]. rewrite IH.
    unfold rret. destruct (read_many r n s1) as [[x s2]|]; [|reflexivity].
    now destruct (read_many r m s2) as [[y s3]|].
Qed.

Lemma read_elems_many fuel n v s :
  bytes_ok s -> (length s < fuel)%nat ->
  read_elems r fuel n v s = (l <- read_many r (Z.to_nat n) ;; rret (v ++ l)) s.
Proof using Hr.
  revert n v s; induction fuel as [|fuel IH]; intros n v s Hs Hf; [lia|].
  cbn [read_elems]. destruct (Z.leb_spec n 0).
  { replace (Z.to_nat n) with 0%nat by lia. unfold rbind, rret. cbn. now rewrite app_nil_r. }
  replace (Z.to_nat n) with (S (Z.to_nat (n - 1))) by lia. cbn [read_many]. unfold rbind at 1 2 3.
  destruct (r s) as [[a s1]|] eqn:E; [|reflexivity]. destruct (Hr _ _ _ Hs E) as [Hs1 H1].
  rewrite IH by (auto; lia). unfold rbind, rret.
  destruct (read_many r _ s1) as [[l s2]|]; [|reflexivity]. now rewrite <- app_assoc.
Qed.

Lemma read_vector_many sizeofT fuel nSize nMid chunkSize v s :
  0 < sizeofT -> bytes_ok s -> (length s < fuel)%nat -> len v = nMid -> nMid <= nSize ->
  read_vector r sizeofT fuel nSize nMid chunkSize v s =
  (l <- read_many r (Z.to_nat (nSize - nMid)) ;; rret (v ++ l)) s.
Proof using Hr.
  intros HT. revert nMid chunkSize v s; induction fuel as [|fuel IH];
    intros nMid chunkSize v s Hs Hf Hv Hm; [lia|].
  cbn [read_vector]. destruct (Z.leb_spec nSize nMid).
  { replace (nSize - nMid) with 0 by lia. unfold rbind, rret. cbn. now rewrite app_nil_r. }
  set (step := Z.min nSize (1 + u64 (chunkSize - 1) / sizeofT)).
  assert (1 <= step).
  { pose proof (u64_range (chunkSize - 1)). pose proof (len_nonneg v).
    pose proof (Z.div_pos (u64 (chunkSize - 1)) sizeofT). lia. }
  set (mid := if nSize <? nMid + step then nSize else nMid + step).
  assert (nMid < mid <= nSize) by (subst mid; destruct (Z.ltb_spec nSize (nMid + step)); lia).
  clearbody mid step. replace (nSize - nMid) with ((mid - len v) + (nSize - mid)) by lia.
  rewrite Z2Nat.inj_add by lia. unfold rbind at 1 2. rewrite read_many_add, read_elems_many by (auto; lia).
  unfold rbind at 1 2. destruct (read_many r _ s) as [[l s1]|] eqn:E; [|reflexivity].
  destruct (read_many_consumes _ _ _ _ Hs E) as (Hs1 & Hl1 & Hl2). unfold rret at 1.
  rewrite IH; try (assumption || lia); [|rewrite len_app; unfold len at 2; lia].
  unfold rbind, rret. destruct (read_many r _ s1) as [[y s2]|]; [|reflexivity]. now rewrite app_assoc.
Qed.
End read_vectors.

#[export] Instance bytes_codec_lawful : Lawful bytes_codec (fun v => bytes_ok v /\ len v <= MAX_SIZE).
Proof.
  split; cbn [Serialize Unserialize bytes_codec]; unfold Serialize_bytes, Unserialize_bytes.
  - intros v [Hv Hl]. destruct (ser_some (c := compact_codec) (len v)) as (p & E & Hp);
      [pose proof (len_nonneg v); lia|].
    cbn in E. rewrite E. exists (p ++ v). split; [reflexivity | now apply bytes_ok_app].
  - intros v p rest _ [Hv Hl] E. apply wbind_some in E as (x & y & Ex & Ey & ->).
    apply Some_inj in Ey as <-. unfold rbind at 1.
    rewrite <- app_assoc, (ReadCompactSize_Write _ _ _ (len_nonneg v) Ex).
    rewrite read_chunks_plain by (pose proof (len_nonneg v); lia).
    unfold rbind. rewrite read_app by (unfold len; lia). reflexivity.
  - intros s v rest Hs E. some_inv.
    destruct (WriteCompactSize_Read _ _ _ Hs E0) as (Ha & p & Ep & ->). apply bytes_ok_app in Hs as [_ Hs].
    rewrite read_chunks_plain in E by lia. apply rbind_some in E as (v' & s' & E1 & E2).
    apply read_some in E1 as [-> Hv']. apply rret_some in E2 as [<- <-]. cbn [app].
    apply bytes_ok_app in Hs as [Hs _]. rename v' into v.
    assert (len v = a) as Hl by (unfold len; lia). rewrite Hl, Ep. split; [split; [auto|lia]|].
    exists (p ++ v). split; [reflexivity | now rewrite app_assoc].
Qed.

Lemma Lawful_Readable {A} (c : codec A) valid : Lawful c valid -> Readable c valid.
Proof. intros [S R _]. now split. Qed.

Lemma Serialize_elems_some {A} (c : codec A) valid l :
  Readable c valid -> Forall valid l ->
  exists p, Serialize_elems (Serialize c) l = Some p /\ bytes_ok p.
Proof.
  intros L. induction 1 as [|a l Ha Hl (q & Eq & Hq)]; [exists []; split; [reflexivity | constructor]|].
  destruct (rd_some a Ha) as (x & Ex & Hx). exists (x ++ q). cbn. rewrite Ex, Eq.
  split; [reflexivity | now apply bytes_ok_app].
Qed.

Lemma read_many_Serialize {A} (c : codec A) valid l p rest :
  Readable c valid -> bytes_ok rest -> Forall valid l -> Serialize_elems (Serialize c) l = Some p ->
  read_many (Unserialize c) (length l) (p ++ rest) = Some (l, rest).
Proof.
  intros L Hr H. revert p; induction H as [|a l Ha Hl IH]; intros p E; cbn [Serialize_elems] in E.
  - some_inv. reflexivity.
  - some_inv. destruct (Serialize_elems_some c valid l L Hl) as (q & Eq & Hq).
    rewrite E1 in Eq. injection Eq as ->. cbn [length read_many].
    rewrite <- app_assoc. unfold rbind.
    rewrite (rd_read _ _ (q ++ rest) ltac:(now apply bytes_ok_app) Ha E0), IH by assumption. reflexivity.
Qed.

Lemma Serialize_read_many {A} (c : codec A) valid n s l rest :
  Lawful c valid -> bytes_ok s -> read_many (Unserialize c) n s = Some (l, rest) ->
  Forall valid l /\ length l = n /\ exists p, Serialize_elems (Serialize c) l = Some p /\ s = p ++ rest.
Proof.
  intros L. revert s l; induction n as [|n IH]; intros s l Hs E; cbn [read_many] in E; some_inv.
  - repeat split; auto. now exists [].
  - destruct (read_ser _ _ _ Hs E0) as (Ha & p & Ep & ->). apply bytes_ok_app in Hs as [_ Hs].
    destruct (IH _ _ Hs E1) as (Hl & <- & q & Eq & ->). repeat split; auto.
    exists (p ++ q). cbn. rewrite Ep, Eq, app_assoc. auto.
Qed.

Lemma vector_codec_readable {A} (c : codec A) sizeofT valid :
  Readable c valid -> consumes (Unserialize c) -> 0 < sizeofT ->
  Readable (vector_codec c sizeofT) (fun v => Forall valid v /\ len v <= MAX_SIZE).
Proof.
  intros L Hr HT. split; cbn [Serialize Unserialize vector_codec]; unfold Serialize_vector, Unserialize_vector.
  - intros v [Hv Hl]. destruct (ser_some (c := compact_codec) (len v)) as (p & E & Hp);
      [pose proof (len_nonneg v); lia|]. cbn [Serialize compact_codec] in E. rewrite E.
    destruct (Serialize_elems_some c valid v L Hv) as (q & -> & Hq).
    exists (p ++ q). split; [reflexivity | now apply bytes_ok_app].
  - intros v p rest Hrest [Hv Hl] E. apply wbind_some in E as (x & y & Ex & Ey & ->).
    destruct (Serialize_elems_some c valid v L Hv) as (q & Eq & Hq).
    rewrite Ey in Eq. injection Eq as ->. unfold rbind at 1.
    rewrite <- app_assoc, (ReadCompactSize_Write _ _ _ (len_nonneg v) Ex).
    rewrite (read_vector_many _ Hr) by
      (reflexivity || apply len_nonneg || (now apply bytes_ok_app) || lia).
    unfold rbind. replace (Z.to_nat (len v - 0)) with (length v) by (unfold len; lia).
    now rewrite (read_many_Serialize c valid v q rest L Hrest Hv Ey).
Qed.

#[export] Instance vector_codec_lawful {A} (c : codec A) sizeofT valid :
  Lawful c valid -> NonEmpty c valid -> 0 < sizeofT ->
  Lawful (vector_codec c sizeofT) (fun v => Forall valid v /\ len v <= MAX_SIZE).
Proof.
  intros L N HT. pose proof (consumes_codec c valid L N) as Hr.
  destruct (vector_codec_readable c sizeofT valid (Lawful_Readable c valid L) Hr HT) as [V1 V2].
  split; [exact V1 | exact V2|]. cbn [Serialize Unserialize vector_codec]; unfold Serialize_vector, Unserialize_vector.
  - intros s v rest Hs E. some_inv.
    destruct (WriteCompactSize_Read _ _ _ Hs E0) as (Ha & p & Ep & ->). apply bytes_ok_app in Hs as [_ Hs].
    rewrite (read_vector_many _ Hr) in E by (auto; try reflexivity; lia).
    apply rbind_some in E as (v' & s' & E1 & E2). apply rret_some in E2 as [<- <-]. cbn [app].
    rename v' into v. rewrite Z.sub_0_r in E1. destruct (Serialize_read_many _ _ _ _ _ _ L Hs E1) as (Hv & Hl & q & Eq & ->).
    assert (len v = a) as Hl' by (unfold len; lia). split; [split; [auto|lia]|].
    rewrite Hl', Ep, Eq. exists (p ++ q). split; [reflexivity | now rewrite app_assoc].
Qed.

(** *** Variable-length integers *)

Lemma varint_digit n flag :
  0 <= n -> (flag = 0 \/ flag = 0x80) ->
  u8 (Z.lor (Z.land n 0x7f) flag) = n mod 128 + flag.
Proof.
  intros Hn Hf. change (Z.land n 0x7f) with (Z.land n (Z.ones 7)). rewrite Z.land_ones by lia.
  change (2 ^ 7) with 128. pose proof (Z.mod_pos_bound n 128 ltac:(lia)).
  destruct Hf as [-> | ->]; [rewrite Z.lor_0_r | rewrite byte_lor_80 by lia];
    rewrite u8_small; unfold is_byte; lia.
Qed.

(** One step of the reader on a digit with its flag. *)
Lemma varint_read_digit m ov n d flag rest :
  0 <= n <= ov -> ov < 2 ^ 57 -> 0 <= d < 128 -> (flag = 0 \/ flag = 0x80) ->
  ReadVarInt_loop (S m) ov n ((d + flag) :: rest) =
  if flag =? 0 then Some (n * 128 + d, rest)
  else ReadVarInt_loop m ov (u64 (n * 128 + d + 1)) rest.
Proof.
  intros Hn Hov Hd Hf. cbn [ReadVarInt_loop]. destruct (Z.ltb_spec ov n); [lia|].
  unfold rbind. change (ser_readdata8) with (Unserialize (uint_codec 1)).
  assert (is_byte (d + flag)) by (unfold is_byte; destruct Hf; subst; lia).
  replace ((d + flag) :: rest) with (le_encode 1 (d + flag) ++ rest)
    by (cbn [le_encode app]; f_equal; now apply u8_small).
  rewrite uint_read by (cbn; unfold is_byte in *; lia).
  rewrite byte_land_7f, byte_land_80 by assumption. unfold shl64.
  rewrite Z.shiftl_mul_pow2, u64_small by lia. change (2 ^ 7) with 128.
  replace ((d + flag) mod 128) with d by
    (destruct Hf; subst; [rewrite Z.add_0_r | rewrite <- (Z.mul_1_l 0x80), Z_mod_plus_full];
     now rewrite Z.mod_small).
  replace (Z.lor (n * 128) d) with (n * 128 + d)
    by (rewrite Z.lor_comm; change 128 with (2 ^ 7); rewrite <- Z.shiftl_mul_pow2 by lia;
        rewrite lor_shiftl_add, Z.shiftl_mul_pow2 by lia; lia).
  destruct Hf; subst; cbn [Z.eqb];
    match goal with |- context [?x <? 128] => destruct (Z.ltb_spec x 128) end; auto; lia.
Qed.

(** Reading what the first loop wrote, up to the digits that follow it. *)
Lemma varint_write_read fuel n tmp p ov rest :
  0 <= n -> n / 128 <= ov -> 0 <= ov < 2 ^ 57 -> (tmp <> [] -> n + 1 < 2 ^ 64) ->
  WriteVarInt_loop fuel n tmp = Some p ->
  exists k, (1 <= k <= fuel)%nat /\ forall m,
  ReadVarInt_loop (k + m) ov 0 (p ++ rest) =
  match tmp with [] => Some (n, rest) | _ => ReadVarInt_loop m ov (n + 1) (tmp ++ rest) end.
Proof.
  revert n tmp; induction fuel as [|fuel IH]; intros n tmp Hn Ho Hov Ht E; [discriminate|].
  cbn [WriteVarInt_loop] in E.
  set (flag := match tmp with [] => 0x00 | _ => 0x80 end) in E.
  assert (Hf : flag = 0 \/ flag = 0x80) by (subst flag; destruct tmp; auto).
  rewrite varint_digit in E by assumption. pose proof (Z.mod_pos_bound n 128 ltac:(lia)).
  pose proof (Z.div_mod n 128 ltac:(lia)).
  assert (Hstep : forall m, ReadVarInt_loop (S m) ov (n / 128) ((n mod 128 + flag) :: tmp ++ rest) =
     match tmp with [] => Some (n, rest) | _ => ReadVarInt_loop m ov (n + 1) (tmp ++ rest) end).
  { intros m. pose proof (Z.div_pos n 128 Hn ltac:(lia)). rewrite varint_read_digit by (assumption || lia).
    replace (n / 128 * 128 + n mod 128) with n by lia.
    subst flag; destruct tmp; cbn [Z.eqb]; [reflexivity|].
    now rewrite u64_small by (specialize (Ht ltac:(discriminate)); lia). }
  destruct (Z.leb_spec n 0x7f).
  - injection E as <-. exists 1%nat. split; [lia|]. intros m. cbn [Nat.add app].
    rewrite <- Hstep. now rewrite (Z.div_small n 128) by lia.
  - rewrite Z.shiftr_div_pow2 in E by lia. change (2 ^ 7) with 128 in E.
    pose proof (Z.div_le_lower_bound n 128 1 ltac:(lia) ltac:(lia)).
    destruct (IH (n / 128 - 1) ((n mod 128 + flag) :: tmp)) as (k & Hk & Hread);
      [lia | apply Z.div_le_upper_bound; lia | lia | intros _; lia | exact E |].
    exists (S k). split; [lia|]. intros m. replace (S k + m)%nat with (k + S m)%nat by lia.
    rewrite Hread. replace (n / 128 - 1 + 1) with (n / 128) by lia. apply Hstep.
Qed.

Lemma varint_total fuel n tmp :
  (0 < fuel)%nat -> 0 <= n < 2 ^ (7 * Z.of_nat fuel) ->
  exists p, WriteVarInt_loop fuel n tmp = Some p.
Proof.
  revert n tmp; induction fuel as [|fuel IH]; intros n tmp Hf Hn; [lia|].
  cbn [WriteVarInt_loop]. destruct (Z.leb_spec n 0x7f); [eauto|].
  apply IH; [destruct fuel; [cbn in Hn|]; lia|].
  rewrite Z.shiftr_div_pow2 by lia. change (2 ^ 7) with 128.
  pose proof (Z.div_le_lower_bound n 128 1 ltac:(lia) ltac:(lia)). split; [lia|].
  replace (7 * Z.of_nat (S fuel)) with (7 * Z.of_nat fuel + 7) in Hn by lia.
  rewrite Z.pow_add_r in Hn by lia. change (2 ^ 7) with 128 in Hn.
  pose proof (Z.div_lt_upper_bound n 128 (2 ^ (7 * Z.of_nat fuel))). lia.
Qed.

(** The types the program uses: 32 and 64 bits. *)
Definition varint_width (w : Z) : Prop := w = 32 \/ w = 64.

Lemma varint_size_bound w : varint_width w -> (varint_size w <= varint_size 64)%nat /\ w <= 7 * Z.of_nat (varint_size w).
Proof. intros [-> | ->]; vm_compute; split; (discriminate || lia). Qed.

Lemma WriteVarInt_total w n : varint_width w -> 0 <= n < 2 ^ w -> exists p, WriteVarInt w n = Some p.
Proof.
  intros Hw Hn. destruct (varint_size_bound w Hw) as [_ H].
  apply varint_total; [destruct Hw as [-> | ->]; vm_compute; lia|].
  pose proof (Z.pow_le_mono_r 2 w _ ltac:(lia) H). lia.
Qed.

Lemma ReadVarInt_WriteVarInt w n p rest :
  varint_width w -> 0 <= n < 2 ^ w -> WriteVarInt w n = Some p ->
  ReadVarInt w (p ++ rest) = Some (n, rest).
Proof.
  intros Hw Hn E. unfold ReadVarInt, rbind, rret.
  assert (Hov : 0 <= Z.shiftr (2 ^ w - 1) 7 < 2 ^ 57 /\ n / 128 <= Z.shiftr (2 ^ w - 1) 7).
  { rewrite Z.shiftr_div_pow2 by lia. change (2 ^ 7) with 128.
    split; [destruct Hw as [-> | ->]; now vm_compute | apply Z.div_le_mono; lia]. }
  destruct (varint_write_read _ n [] p (Z.shiftr (2 ^ w - 1) 7) rest (proj1 Hn) (proj2 Hov)
    (proj1 Hov) ltac:(congruence) E) as (k & Hk & Hread).
  destruct (varint_size_bound w Hw) as [Hs _].
  replace (varint_size 64) with (k + (varint_size 64 - k))%nat by lia.
  rewrite Hread. now rewrite Z.mod_small by lia.
Qed.

(** More room in [tmp] does not change what is written. *)
Lemma varint_fuel f f' n tmp p q :
  WriteVarInt_loop f n tmp = Some p -> WriteVarInt_loop f' n tmp = Some q -> p = q.
Proof.
  revert f' n tmp; induction f as [|f IH]; intros [|f'] n tmp; cbn [WriteVarInt_loop]; try discriminate.
  destruct (n <=? 0x7f); [congruence | apply IH].
Qed.

(** [128 + 128^2 + ... + 128^j], times 127: the largest accumulator after [j] digits. *)
Definition varint_acc_ok (n : Z) (j : nat) : Prop := 0 <= n /\ 127 * n <= 128 * 128 ^ Z.of_nat j - 128.

Lemma varint_acc_step n j d :
  varint_acc_ok n j -> 0 <= d < 128 -> varint_acc_ok (n * 128 + d + 1) (S j).
Proof.
  unfold varint_acc_ok. intros H Hd. rewrite Nat2Z.inj_succ, Z.pow_succ_r by lia. lia.
Qed.

Lemma varint_acc_small n j : varint_acc_ok n j -> (j <= 9)%nat -> n < 2 ^ 64.
Proof.
  intros [H0 H] Hj. pose proof (Z.pow_le_mono_r 128 (Z.of_nat j) 9 ltac:(lia) ltac:(lia)).
  change (128 ^ 9) with 9223372036854775808 in *. lia.
Qed.

(** One step of the writer, on an accumulator and a digit. *)
Lemma varint_write_digit f n d tmp :
  0 <= n -> 0 <= d < 128 ->
  WriteVarInt_loop (S f) (n * 128 + d) tmp =
  let tmp := d + match tmp with [] => 0x00 | _ => 0x80 end :: tmp in
  if n =? 0 then Some tmp else WriteVarInt_loop f (n - 1) tmp.
Proof.
  intros Hn Hd. cbn [WriteVarInt_loop].
  rewrite varint_digit by (lia || destruct tmp; auto).
  replace ((n * 128 + d) mod 128) with d by (rewrite Z.add_comm, Z_mod_plus_full, Z.mod_small; lia).
  destruct (Z.eqb_spec n 0), (Z.leb_spec (n * 128 + d) 0x7f); try lia; [reflexivity|].
  rewrite Z.shiftr_div_pow2 by lia. change (2 ^ 7) with 128.
  now rewrite Z.div_add_l, (Z.div_small d), Z.add_0_r by lia.
Qed.

(** What is read is what is written for the result. *)
Lemma varint_read_write m ov n s r rest :
  bytes_ok s -> 0 <= ov < 2 ^ 57 -> varint_acc_ok n (10 - m) -> (m <= 10)%nat ->
  ReadVarInt_loop m ov n s = Some (r, rest) ->
  0 <= r < (ov + 1) * 128 /\
  exists p, s = p ++ rest /\ p <> [] /\ forall f,
  WriteVarInt_loop (length p + f) r [] =
  if n =? 0 then Some p else WriteVarInt_loop f (n - 1) p.
Proof.
  revert n s; induction m as [|m IH]; intros n s Hs Hov Hacc Hm E; [discriminate|].
  destruct Hs as [|b s Hb Hs].
  { cbn in E. destruct (ov <? n); discriminate. }
  destruct (Z.ltb_spec ov n) as [Hlt|Hle].
  { cbn [ReadVarInt_loop] in E. apply Z.ltb_lt in Hlt. rewrite Hlt in E. discriminate. }
  set (d := b mod 128). set (flag := if b <? 128 then 0 else 0x80).
  assert (Hd : 0 <= d < 128) by (apply Z.mod_pos_bound; lia).
  assert (Hf : flag = 0 \/ flag = 0x80) by (subst flag; destruct (b <? 128); auto).
  assert (Eb : b = d + flag).
  { subst d flag. unfold is_byte in Hb. destruct (Z.ltb_spec b 128); [rewrite Z.mod_small; lia|].
    rewrite <- (Z_mod_plus_full b (-1) 128), Z.mod_small; lia. }
  clearbody d flag. pose proof (proj1 Hacc) as Hn.
  rewrite Eb, varint_read_digit in E by (assumption || lia).
  destruct Hf; subst b flag; cbn [Z.eqb] in E.
  - apply Some_inj in E. injection E as <- <-. split; [lia|]. exists [d + 0].
    split; [reflexivity|]. split; [discriminate|]. intros f. apply varint_write_digit; assumption.
  - pose proof (varint_acc_step n _ d Hacc Hd) as Hacc'.
    destruct m as [|m]; [discriminate|]. replace (S (10 - S (S m))) with (10 - S m)%nat in Hacc' by lia.
    pose proof (varint_acc_small _ _ Hacc' ltac:(lia)).
    rewrite u64_small in E by lia. destruct (IH _ _ Hs Hov Hacc' ltac:(lia) E) as (Hr & p & -> & Hp & Hw).
    split; [exact Hr|]. exists ((d + 0x80) :: p). split; [reflexivity|]. split; [discriminate|].
    intros f. replace (length ((d + 0x80)%Z :: p) + f)%nat with (length p + S f)%nat by (cbn [length]; lia).
    rewrite Hw. destruct (Z.eqb_spec (n * 128 + d + 1) 0); [lia|].
    replace (n * 128 + d + 1 - 1) with (n * 128 + d) by lia. rewrite varint_write_digit by assumption.
    destruct p; [congruence|]. reflexivity.
Qed.

Lemma WriteVarInt_ReadVarInt w s n rest :
  varint_width w -> bytes_ok s -> ReadVarInt w s = Some (n, rest) ->
  0 <= n < 2 ^ w /\ exists p, WriteVarInt w n = Some p /\ s = p ++ rest.
Proof.
  intros Hw Hs E. unfold ReadVarInt in E. some_inv. change (varint_size 64) with 10%nat in E0.
  assert (Hov : 0 <= Z.shiftr (2 ^ w - 1) 7 < 2 ^ 57 /\ (Z.shiftr (2 ^ w - 1) 7 + 1) * 128 = 2 ^ w)
    by (destruct Hw as [-> | ->]; (split; [split; [apply Z.leb_le | apply Z.ltb_lt] |]); reflexivity).
  destruct (varint_read_write 10 _ 0 s a rest Hs (proj1 Hov) ltac:(split; cbn; lia) ltac:(lia) E0)
    as (Hr & p & -> & _ & Hp).
  rewrite Z.mod_small by lia. split; [lia|]. exists p. split; [|reflexivity].
  destruct (WriteVarInt_total w a Hw ltac:(lia)) as (q & Eq). rewrite Eq. f_equal.
  apply (varint_fuel _ _ _ _ _ _ Eq (Hp 0%nat)).
Qed.

Definition varint_codec (w : Z) : codec Z := Codec (WriteVarInt w) (ReadVarInt w).

Lemma varint_bytes fuel n tmp p : bytes_ok tmp -> WriteVarInt_loop fuel n tmp = Some p -> bytes_ok p.
Proof.
  revert n tmp; induction fuel as [|fuel IH]; intros n tmp Ht E; cbn [WriteVarInt_loop] in E; [discriminate|].
  destruct (n <=? 0x7f); [injection E as <- | apply IH in E; [exact E|]]; constructor; auto using u8_range.
Qed.

#[export] Instance varint_codec_lawful w :
  varint_width w -> Lawful (varint_codec w) (fun n => 0 <= n < 2 ^ w).
Proof.
  intros Hw. split; cbn [Serialize Unserialize varint_codec].
  - intros n Hn. destruct (WriteVarInt_total w n Hw Hn) as (p & E). exists p. split; [exact E|].
    refine (varint_bytes _ _ _ _ _ E). constructor.
  - intros a p rest _ Ha E. now apply ReadVarInt_WriteVarInt.
  - intros s a rest. now apply WriteVarInt_ReadVarInt.
Qed.

(** ** Properties *)

(** every 32-bit and 64-bit integer has exactly one variable-length encoding:
    writing succeeds within the array [tmp] and is read back, the rest of the stream
    untouched; and whatever bytes the reader accepts are those the writer produces
    for its result. *)
Theorem VarInt_bijective w :
  varint_width w ->
  (forall n rest, 0 <= n < 2 ^ w ->
     exists p, WriteVarInt w n = Some p /\ ReadVarInt w (p ++ rest) = Some (n, rest)) /\
  (forall s n rest, bytes_ok s -> ReadVarInt w s = Some (n, rest) ->
     0 <= n < 2 ^ w /\ exists p, WriteVarInt w n = Some p /\ s = p ++ rest).
Proof.
  intros Hw. split.
  - intros n rest Hn. destruct (WriteVarInt_total w n Hw Hn) as (p & E). exists p. split; [exact E|].
    now apply ReadVarInt_WriteVarInt.
  - intros s n rest. now apply WriteVarInt_ReadVarInt.
Qed.

Lemma VarInt_bijective_witness :
  WriteVarInt 32 65535 = Some [0x82; 0xfe; 0x7f] /\
  exists p, WriteVarInt 64 (2 ^ 64 - 1) = Some p /\ ReadVarInt 64 (p ++ [7]) = Some (2 ^ 64 - 1, [7]).
Proof.
  split; [reflexivity|].
  exact (proj1 (VarInt_bijective 64 (or_intror eq_refl)) (2 ^ 64 - 1) [7] ltac:(lia)).
Defined.

(** a vector is read back whatever the chunks it is read in: for elements with
    a lawful codec of at least one byte, the chunked loop of [Unserialize_impl] gives
    back the vector written and stops after it, and accepts only the bytes that
    [Serialize_impl] writes for its result (sizes in non-canonical form are refused). *)
Theorem vector_roundtrip {A} (c : codec A) valid sizeofT :
  Lawful c valid -> NonEmpty c valid -> 0 < sizeofT ->
  (forall v rest, Forall valid v -> len v <= MAX_SIZE -> bytes_ok rest ->
     exists p, Serialize_vector (Serialize c) v = Some p /\
               Unserialize_vector (Unserialize c) sizeofT (p ++ rest) = Some (v, rest)) /\
  (forall s v rest, bytes_ok s -> Unserialize_vector (Unserialize c) sizeofT s = Some (v, rest) ->
     Forall valid v /\ exists p, Serialize_vector (Serialize c) v = Some p /\ s = p ++ rest).
Proof.
  intros L N HT. pose proof (vector_codec_lawful c sizeofT valid L N HT) as V. split.
  - intros v rest Hv Hl Hr. destruct (ser_some (c := vector_codec c sizeofT) v (conj Hv Hl)) as (p & E & _).
    exists p. split; [exact E|]. exact (ser_read (c := vector_codec c sizeofT) v p rest Hr (conj Hv Hl) E).
  - intros s v rest Hs E. destruct (read_ser (c := vector_codec c sizeofT) s v rest Hs E) as ([Hv _] & H).
    auto.
Qed.

Lemma vector_roundtrip_witness :
  exists p, Serialize_vector (Serialize (uint_codec 4)) [1; 2] = Some p /\
            Unserialize_vector (Unserialize (uint_codec 4)) 4 (p ++ [9]) = Some ([1; 2], [9]).
Proof.
  refine (proj1 (vector_roundtrip (uint_codec 4) _ 4 (uint_codec_lawful 4) _ ltac:(lia)) [1; 2] [9] _ _ _).
  - intros a p _ E. apply Some_inj in E as <-. cbn. lia.
  - repeat constructor; lia.
  - now vm_compute.
  - apply bytes_okb. reflexivity.
Defined.
End Serialize.
