(* ===== verification/Amount.v ===== *)
(** * Amounts and fee rates (src/src/amount.h, src/src/amount.cpp)

    An [Amount] is an [int64_t].  Signed overflow is undefined in C++, so the
    operators that can overflow are computations that end in [Abort] when the exact
    result does not fit. *)

From S2P Require Import Prelude Outcome.

Module Amount.
Local Open Scope outcome_scope.

Definition Amount : Set := Z.

Definition is_int64 (x : Z) : bool := (- 2 ^ 63 <=? x) && (x <=? 2 ^ 63 - 1).
Definition in_int64 (x : Z) : outcome Z := if is_int64 x then Ok x else Abort.

Definition amount_add (a b : Amount) : outcome Amount := in_int64 (a + b).
Definition amount_neg (a : Amount) : outcome Amount := in_int64 (- a).
Definition amount_sub (a b : Amount) : outcome Amount := let* nb := amount_neg b in amount_add a nb.
Definition amount_mul (k : Z) (a : Amount) : outcome Amount := in_int64 (k * a).
(** Division truncates; the quotient of the smallest value by -1 overflows. *)
Definition amount_div (a : Amount) (k : Z) : outcome Amount :=
  if k =? 0 then Abort else in_int64 (Z.quot a k).
Definition amount_mod (a : Amount) (k : Z) : outcome Amount :=
  if k =? 0 then Abort else let* _ := in_int64 (Z.quot a k) in Ok (Z.rem a k).

Definition COIN : Amount := 100000000.
Definition TBCCOIN : Amount := 1000000.
Definition MAX_MONEY : Amount := 21000000 * COIN.

Definition MoneyRange (nValue : Amount) : bool := (0 <=? nValue) && (nValue <=? MAX_MONEY).

(** ** Fee rates *)

Record CFeeRate := mkFeeRate { nSatoshisPerK : Amount }.

(** [CFeeRate(nFeePaid, nBytes_)] *)
Definition CFeeRate_of (nFeePaid : Amount) (nBytes : Z) : outcome CFeeRate :=
  assert_ (nBytes <=? 2 ^ 63 - 1) (
    let nSize := nBytes in
    if 0 <? nSize then
      let* a := amount_mul 1000 nFeePaid in
      let* q := amount_div a nSize in
      Ok (mkFeeRate q)
    else Ok (mkFeeRate 0)).

Definition GetFee (r : CFeeRate) (nBytes : Z) : outcome Amount :=
  assert_ (nBytes <=? 2 ^ 63 - 1) (
    let nSize := nBytes in
    let* a := amount_mul nSize (nSatoshisPerK r) in
    let* nFee := amount_div a 1000 in
    if (nFee =? 0) && negb (nSize =? 0) then
      let nFee := if 0 <? nSatoshisPerK r then 1 else nFee in
      let nFee := if nSatoshisPerK r <? 0 then -1 else nFee in
      Ok nFee
    else Ok nFee).

Definition GetFeePerK (r : CFeeRate) : outcome Amount := GetFee r 1000.

(** ** Lemmas *)

Lemma in_int64_ok x y : in_int64 x = Ok y -> y = x /\ - 2 ^ 63 <= x < 2 ^ 63.
Proof.
  unfold in_int64, is_int64. destruct (_ && _) eqn:E; [|discriminate]. intros H. ok_inv. zbool. lia.
Qed.

Lemma in_int64_fits x : - 2 ^ 63 <= x < 2 ^ 63 -> in_int64 x = Ok x.
Proof.
  intros H. unfold in_int64, is_int64.
  destruct (Z.leb_spec (- 2 ^ 63) x), (Z.leb_spec x (2 ^ 63 - 1)); cbn [andb]; (reflexivity || lia).
Qed.

Lemma MoneyRange_iff x : MoneyRange x = true <-> 0 <= x <= MAX_MONEY.
Proof. unfold MoneyRange. rewrite andb_true_iff, Z.leb_le, Z.leb_le. reflexivity. Qed.

(** ** Properties *)

(** as long as the product of rate and size fits an [int64_t], the fee of a
    positive rate is defined, monotone in the size, zero for an empty object, at least
    one satoshi for any other and else the exact quotient rounded down. *)
Theorem GetFee_correct (r : CFeeRate) (n m : Z) :
  0 < nSatoshisPerK r -> 0 <= n <= m -> m * nSatoshisPerK r < 2 ^ 63 ->
  exists f g, GetFee r n = Ok f /\ GetFee r m = Ok g /\ f <= g /\
    (n = 0 -> f = 0) /\
    (0 < n -> f = Z.max 1 (n * nSatoshisPerK r / 1000)).
Proof.
  intros Hr Hn Hm.
  assert (E : forall k, 0 <= k <= m ->
    GetFee r k = Ok (if k =? 0 then 0 else Z.max 1 (k * nSatoshisPerK r / 1000))).
  { intros k Hk. assert (0 <= k * nSatoshisPerK r <= m * nSatoshisPerK r) by nia.
    assert (k <= k * nSatoshisPerK r) by nia.
    unfold GetFee. destruct (Z.leb_spec k (2 ^ 63 - 1)); [|lia].
    cbn [assert_]. unfold amount_mul. rewrite in_int64_fits by lia. cbn [obind].
    unfold amount_div. cbn [Z.eqb]. rewrite Z.quot_div_nonneg by lia.
    pose proof (Z.div_pos (k * nSatoshisPerK r) 1000 ltac:(lia) ltac:(lia)).
    pose proof (Z.div_le_upper_bound (k * nSatoshisPerK r) 1000 (2 ^ 62) ltac:(lia) ltac:(lia)).
    rewrite in_int64_fits by lia. cbn [obind].
    destruct (Z.eqb_spec k 0) as [->|]; [now rewrite andb_false_r|].
    destruct (Z.eqb_spec (k * nSatoshisPerK r / 1000) 0) as [->|]; cbn [andb negb]; [|f_equal; lia].
    destruct (Z.ltb_spec 0 (nSatoshisPerK r)); [|lia].
    destruct (Z.ltb_spec (nSatoshisPerK r) 0); [lia | reflexivity]. }
  rewrite !E by lia. eexists _, _. split; [reflexivity|]. split; [reflexivity|].
  pose proof (Z.div_le_mono (n * nSatoshisPerK r) (m * nSatoshisPerK r) 1000 ltac:(lia) ltac:(nia)).
  destruct (Z.eqb_spec n 0), (Z.eqb_spec m 0); lia.
Qed.

Lemma GetFee_correct_witness :
  exists f g, GetFee (mkFeeRate 500) 1 = Ok f /\ GetFee (mkFeeRate 500) 226 = Ok g /\ f <= g /\
    (1 = 0 -> f = 0) /\ (0 < 1 -> f = Z.max 1 (1 * 500 / 1000)).
Proof. exact (GetFee_correct (mkFeeRate 500) 1 226 eq_refl ltac:(lia) eq_refl). Defined.
End Amount.
