(* ===== verification/Transaction.v ===== *)
(** * Transactions (src/src/primitives/transaction.h, transaction.cpp; src/src/hash.h)

    The transaction types with their serialization, the transaction identifier
    ([TxSerializeHash], which for version 10 and later hashes the parts separately),
    and the methods of [CTransaction].  [CHashWriter] is a hasher fed by [<<]. *)

From S2P Require Import Prelude Endian Hasher Sha256 Hash Outcome Script Amount Serialize.

Module Transaction.
Local Open Scope outcome_scope.
Import Sha256 Hash Script Amount Serialize.

(** ** Types *)

Record COutPoint := mkOutPoint { txid : bytes; n : Z }.
Record CTxIn := mkTxIn { prevout : COutPoint; scriptSig : bytes; nSequence : Z }.
Record CTxOut := mkTxOut { nValue : Amount; scriptPubKey : bytes }.
Record CTransaction := mkTx {
  nVersion : Z; vin : list CTxIn; vout : list CTxOut; nLockTime : Z }.

Definition uint256_zero : bytes := repeat 0 32.

(** [COutPoint()], [IsNull] *)
Definition COutPoint_null : COutPoint := mkOutPoint uint256_zero 0xffffffff.
Definition COutPoint_IsNull (p : COutPoint) : bool :=
  forallb (fun b => b =? 0) (txid p) && (n p =? 0xffffffff).

Definition SEQUENCE_FINAL : Z := 0xffffffff.
Definition SEQUENCE_LOCKTIME_DISABLE_FLAG : Z := Z.shiftl 1 31.
Definition SEQUENCE_LOCKTIME_TYPE_FLAG : Z := Z.shiftl 1 22.
Definition SEQUENCE_LOCKTIME_MASK : Z := 0x0000ffff.

(** [CTxOut()]: the null output. *)
Definition CTxOut_null : CTxOut := mkTxOut (-1) [].
Definition CTxOut_IsNull (o : CTxOut) : bool := nValue o =? -1.

Definition CURRENT_VERSION : Z := 10.
Definition MAX_STANDARD_VERSION : Z := 12.

(** [CTransaction()] *)
Definition CTransaction_null : CTransaction := mkTx CURRENT_VERSION [] [] 0.
Definition CTransaction_IsNull (tx : CTransaction) : bool :=
  match vin tx, vout tx with [], [] => true | _, _ => false end.

(** ** Serialization

    [sizeofIn] and [sizeofOut] are [sizeof(CTxIn)] and [sizeof(CTxOut)], which only
    decide how many elements are allocated at a time. *)

Definition COutPoint_codec : codec COutPoint :=
  class_codec (fun p => (txid p, n p)) (fun p => mkOutPoint (fst p) (snd p))
    (pair_codec (blob_codec 32) (uint_codec 4)).

Definition CTxIn_codec : codec CTxIn :=
  class_codec (fun i => (prevout i, (scriptSig i, nSequence i)))
    (fun p => mkTxIn (fst p) (fst (snd p)) (snd (snd p)))
    (pair_codec COutPoint_codec (pair_codec bytes_codec (uint_codec 4))).

Definition CTxOut_codec : codec CTxOut :=
  class_codec (fun o => (nValue o, scriptPubKey o)) (fun p => mkTxOut (fst p) (snd p))
    (pair_codec (int_codec 8) bytes_codec).

(** [SerializeTransaction] and [UnserializeTransaction] *)
Definition CTransaction_codec (sizeofIn sizeofOut : Z) : codec CTransaction :=
  class_codec (fun t => (nVersion t, (vin t, (vout t, nLockTime t))))
    (fun p => mkTx (fst p) (fst (snd p)) (fst (snd (snd p))) (snd (snd (snd p))))
    (pair_codec (int_codec 4)
      (pair_codec (vector_codec CTxIn_codec sizeofIn)
        (pair_codec (vector_codec CTxOut_codec sizeofOut) (uint_codec 4)))).

(** Writing does not depend on the allocation. *)
Definition SerializeTransaction (tx : CTransaction) : option bytes :=
  Serialize (CTransaction_codec 1 1) tx.

(** ** CHashWriter

    [ss << obj] feeds the serialization of [obj] to the hasher; an exception of the
    serialization is [None].  The fresh object's buffer holds zeros here, which
    [CSHA256_correct] shows to be immaterial, as are the pieces in which the members
    of a class are written. *)

Definition CHashWriter : Type := option CSHA256.
Definition CHashWriter_new : CHashWriter := Some (CSHA256_init (repeat 0 64)).

Definition stream_out {A} (ss : CHashWriter) (c : codec A) (obj : A) : CHashWriter :=
  match ss, Serialize c obj with
  | Some ctx, Some p => Some (CHash256_Write ctx p)
  | _, _ => None
  end.

Definition GetHash (ss : CHashWriter) : option bytes := option_map CHash256_Finalize ss.
Definition GetSingleHash (ss : CHashWriter) : option bytes := option_map CHash256_SingleFinalize ss.

(** A hash that may have failed, written to another hasher. *)
Definition stream_hash (ss : CHashWriter) (h : option bytes) : CHashWriter :=
  match h with Some h => stream_out ss (blob_codec 32) h | None => None end.

(** [SerializeSingleHash_OpNoCSize]: every byte on its own, no size in front. *)
Definition SerializeSingleHash_OpNoCSize (script : bytes) : option bytes :=
  GetSingleHash (fold_left (fun ss i => stream_out ss (uint_codec 1) i) script CHashWriter_new).

(** The bodies of the two loops of [TxSerializeHash]. *)
Definition hash_in (ss_in : CHashWriter) (iin : CTxIn) : CHashWriter :=
  let ss_in := stream_out ss_in COutPoint_codec (prevout iin) in
  stream_out ss_in (uint_codec 4) (nSequence iin).
Definition hash_in_unlock (ss_in_unlock : CHashWriter) (iin : CTxIn) : CHashWriter :=
  stream_hash ss_in_unlock (SerializeSingleHash_OpNoCSize (scriptSig iin)).
Definition hash_out (ss_out : CHashWriter) (iout : CTxOut) : CHashWriter :=
  let ss_out := stream_out ss_out (int_codec 8) (nValue iout) in
  stream_hash ss_out (SerializeSingleHash_OpNoCSize (scriptPubKey iout)).

(** The loop over the inputs feeds two hashers, which do not interact. *)
Definition TxSerializeHash (obj : CTransaction) : option bytes :=
  if 10 <=? nVersion obj then
    let ss_root := CHashWriter_new in
    let ss_root := stream_out ss_root (int_codec 4) (nVersion obj) in
    let ss_root := stream_out ss_root (uint_codec 4) (nLockTime obj) in
    let ss_root := stream_out ss_root (uint_codec 4) (u32 (len (vin obj))) in
    let ss_root := stream_out ss_root (uint_codec 4) (u32 (len (vout obj))) in
    let hash_ss_in := GetSingleHash (fold_left hash_in (vin obj) CHashWriter_new) in
    let ss_root := stream_hash ss_root hash_ss_in in
    let hash_ss_in_unlock := GetSingleHash (fold_left hash_in_unlock (vin obj) CHashWriter_new) in
    let ss_root := stream_hash ss_root hash_ss_in_unlock in
    let ss_out := fold_left hash_out (vout obj) CHashWriter_new in
    let ss_root := stream_hash ss_root (GetSingleHash ss_out) in
    GetHash ss_root
  else
    GetHash (stream_out CHashWriter_new (CTransaction_codec 1 1) obj).

(** [CTransaction::ComputeHash], whose result the object caches. *)
Definition ComputeHash (tx : CTransaction) : option bytes := TxSerializeHash tx.

(** ** Methods *)

Definition IsCoinBase (tx : CTransaction) : bool :=
  match vin tx with [i] => COutPoint_IsNull (prevout i) | _ => false end.

Definition GetValueOut_step (acc : outcome Amount) (o : CTxOut) : outcome Amount :=
  let* nValueOut := acc in
  let* nValueOut := amount_add nValueOut (nValue o) in
  if negb (MoneyRange (nValue o)) || negb (MoneyRange nValueOut) then Throw std_exception
  else Ok nValueOut.
Definition GetValueOut (tx : CTransaction) : outcome Amount :=
  fold_left GetValueOut_step (vout tx) (Ok 0).

(** [GetSerializeSize] with a [CSizeComputer]: the number of bytes that would be
    written; the computer's [WriteCompactSize] does not limit the size. *)
Definition script_size (s : bytes) : Z := GetSizeOfCompactSize (len s) + len s.
Definition CTxIn_size (i : CTxIn) : Z := 36 + script_size (scriptSig i) + 4.
Definition CTxOut_size (o : CTxOut) : Z := 8 + script_size (scriptPubKey o).
Definition tx_size (tx : CTransaction) : Z :=
  4 + GetSizeOfCompactSize (len (vin tx)) + fold_right Z.add 0 (map CTxIn_size (vin tx))
    + GetSizeOfCompactSize (len (vout tx)) + fold_right Z.add 0 (map CTxOut_size (vout tx)) + 4.
Definition GetTotalSize (tx : CTransaction) : Z := u32 (tx_size tx).

Definition CalculateModifiedSize (tx : CTransaction) (nTxSize : Z) : Z :=
  let nTxSize := if nTxSize =? 0 then GetTotalSize tx else nTxSize in
  fold_left (fun nTxSize it =>
    let offset := 41 + Z.min 110 (u32 (len (scriptSig it))) in
    if offset <? nTxSize then nTxSize - offset else nTxSize) (vin tx) nTxSize.

Definition HasP2SHOutput (tx : CTransaction) : bool :=
  existsb (fun o => IsP2SH (scriptPubKey o)) (vout tx).

Definition GetDustThreshold (o : CTxOut) (minRelayTxFee : CFeeRate) (isGenesisEnabled : bool)
    : outcome Amount :=
  if IsUnspendable (scriptPubKey o) isGenesisEnabled then Ok 0
  else
    let nSize := CTxOut_size o in
    let nSize := nSize + (32 + 4 + 1 + 107 + 4) in
    let* fee := GetFee minRelayTxFee nSize in
    amount_mul 3 fee.

Definition IsDust (o : CTxOut) (minRelayTxFee : CFeeRate) (isGenesisEnabled : bool) : outcome bool :=
  let* t := GetDustThreshold o minRelayTxFee isGenesisEnabled in Ok (nValue o <? t).

(** ** Specification of the identifier *)

Definition sha256d (d : bytes) : bytes := fips_sha256 (fips_sha256 d).

Definition outpoint_bytes (p : COutPoint) : bytes := txid p ++ le_encode 4 (n p).
Definition in_bytes (i : CTxIn) : bytes := outpoint_bytes (prevout i) ++ le_encode 4 (nSequence i).
Definition unlock_bytes (i : CTxIn) : bytes := fips_sha256 (scriptSig i).
Definition out_bytes (o : CTxOut) : bytes := le_encode 8 (nValue o) ++ fips_sha256 (scriptPubKey o).

Definition ins_preimage (tx : CTransaction) : bytes := concat (map in_bytes (vin tx)).
Definition unlocks_preimage (tx : CTransaction) : bytes := concat (map unlock_bytes (vin tx)).
Definition outs_preimage (tx : CTransaction) : bytes := concat (map out_bytes (vout tx)).

Definition root_preimage (tx : CTransaction) : bytes :=
  le_encode 4 (nVersion tx) ++ le_encode 4 (nLockTime tx) ++
  le_encode 4 (len (vin tx)) ++ le_encode 4 (len (vout tx)) ++
  fips_sha256 (ins_preimage tx) ++ fips_sha256 (unlocks_preimage tx) ++
  fips_sha256 (outs_preimage tx).

(** Well-formed values: every field within its C++ type. *)
Definition outpoint_valid (p : COutPoint) : Prop :=
  (bytes_ok (txid p) /\ length (txid p) = 32%nat) /\ 0 <= n p < 2 ^ 32.
Definition txin_valid (i : CTxIn) : Prop :=
  outpoint_valid (prevout i) /\
  (bytes_ok (scriptSig i) /\ len (scriptSig i) <= MAX_SIZE) /\ 0 <= nSequence i < 2 ^ 32.
Definition txout_valid (o : CTxOut) : Prop :=
  (- 2 ^ 63 <= nValue o < 2 ^ 63) /\ (bytes_ok (scriptPubKey o) /\ len (scriptPubKey o) <= MAX_SIZE).
Definition tx_valid (t : CTransaction) : Prop :=
  (- 2 ^ 31 <= nVersion t < 2 ^ 31) /\
  (Forall txin_valid (vin t) /\ len (vin t) <= MAX_SIZE) /\
  (Forall txout_valid (vout t) /\ len (vout t) <= MAX_SIZE) /\ 0 <= nLockTime t < 2 ^ 32.

(** ** Lemmas *)

#[export] Instance COutPoint_lawful : Lawful COutPoint_codec outpoint_valid.
Proof.
  refine (class_codec_lawful _ _ _ _ _ _
    (pair_codec_lawful _ _ _ _ (blob_codec_lawful 32) (uint_codec_lawful 4))); now intros [].
Qed.

#[export] Instance CTxIn_lawful : Lawful CTxIn_codec txin_valid.
Proof.
  refine (class_codec_lawful _ _ _ _ _ _
    (pair_codec_lawful _ _ _ _ COutPoint_lawful
      (pair_codec_lawful _ _ _ _ bytes_codec_lawful (uint_codec_lawful 4)))); [now intros [? []] | now intros []].
Qed.

#[export] Instance CTxOut_lawful : Lawful CTxOut_codec txout_valid.
Proof.
  refine (class_codec_lawful _ _ _ _ _ _
    (pair_codec_lawful _ _ _ _ (int_codec_lawful 8 ltac:(lia)) bytes_codec_lawful)); now intros [].
Qed.

#[export] Instance CTxIn_nonempty : NonEmpty CTxIn_codec txin_valid.
Proof.
  intros i p Hi E. cbn [CTxIn_codec class_codec pair_codec Serialize fst snd] in E. some_inv.
  cbn [uint_codec Serialize] in *. some_inv. rewrite !length_app. cbn [length le_encode]. clear. lia.
Qed.

#[export] Instance CTxOut_nonempty : NonEmpty CTxOut_codec txout_valid.
Proof.
  intros o p Ho E. cbn [CTxOut_codec class_codec pair_codec Serialize fst snd] in E. some_inv.
  cbn [int_codec Serialize] in *. some_inv. rewrite !length_app. cbn [length le_encode]. clear. lia.
Qed.

#[export] Instance CTransaction_lawful sizeofIn sizeofOut :
  0 < sizeofIn -> 0 < sizeofOut -> Lawful (CTransaction_codec sizeofIn sizeofOut) tx_valid.
Proof.
  intros HI HO.
  refine (class_codec_lawful _ _ _ _ _ _
    (pair_codec_lawful _ _ _ _ (int_codec_lawful 4 ltac:(lia))
      (pair_codec_lawful _ _ _ _ (vector_codec_lawful _ _ _ CTxIn_lawful CTxIn_nonempty HI)
        (pair_codec_lawful _ _ _ _ (vector_codec_lawful _ _ _ CTxOut_lawful CTxOut_nonempty HO)
          (uint_codec_lawful 4))))); [now intros [? [? []]] | now intros []].
Qed.

(** *** Hash writers *)

Definition hw (ss : CHashWriter) (d : bytes) : Prop :=
  exists h, ss = Some h /\ repr 64 Transform1 Initialize h d.

Lemma hw_new : hw CHashWriter_new [].
Proof. eexists. split; [reflexivity|]. apply repr_init; [lia | reflexivity]. Qed.

Lemma hw_stream {A} ss d (c : codec A) a p :
  hw ss d -> Serialize c a = Some p -> hw (stream_out ss c a) (d ++ p).
Proof.
  intros (h & -> & R) E. unfold stream_out. rewrite E. eexists. split; [reflexivity|].
  apply Write_repr; [lia | apply div64 | exact R].
Qed.

Lemma hw_hash ss d h : hw ss d -> hw (stream_hash ss (Some h)) (d ++ h).
Proof. intros H. now apply hw_stream. Qed.

Lemma hw_GetHash ss d : hw ss d -> GetHash ss = Some (sha256d d).
Proof. intros (h & -> & R). unfold GetHash, option_map. f_equal. now apply CHash256_Finalize_repr. Qed.

Lemma hw_GetSingleHash ss d : hw ss d -> GetSingleHash ss = Some (fips_sha256 d).
Proof.
  intros (h & -> & R). unfold GetSingleHash, option_map. f_equal.
  exact (Finalize_std _ _ _ _ _ Sha256.Transform1_fips length_WriteBE64 h d R).
Qed.

(** A loop that appends the same bytes for every element. *)
Lemma hw_fold {A} (f : CHashWriter -> A -> CHashWriter) (g : A -> bytes) l ss d :
  (forall ss d x, hw ss d -> In x l -> hw (f ss x) (d ++ g x)) ->
  hw ss d -> hw (fold_left f l ss) (d ++ concat (map g l)).
Proof.
  revert ss d; induction l as [|x l IH]; intros ss d Hf H; cbn [fold_left map concat].
  - now rewrite app_nil_r.
  - rewrite app_assoc. apply IH; [|apply Hf; [exact H | now left]].
    intros ss' d' y H' Hy. apply Hf; [exact H' | now right].
Qed.

Lemma concat_singletons (l : bytes) : bytes_ok l -> concat (map (le_encode 1) l) = l.
Proof.
  induction 1 as [|b l Hb Hl IH]; [reflexivity|]. cbn [map concat].
  rewrite IH. cbn [le_encode app]. f_equal. now apply u8_small.
Qed.

Lemma SerializeSingleHash_correct s :
  bytes_ok s -> SerializeSingleHash_OpNoCSize s = Some (fips_sha256 s).
Proof.
  intros Hs. unfold SerializeSingleHash_OpNoCSize.
  rewrite <- (concat_singletons s Hs) at 2. apply hw_GetSingleHash.
  apply (hw_fold _ (le_encode 1) _ _ []); [|apply hw_new].
  intros ss d x H _. now apply hw_stream.
Qed.

Lemma txid_parts tx :
  tx_valid tx ->
  GetSingleHash (fold_left hash_in (vin tx) CHashWriter_new) = Some (fips_sha256 (ins_preimage tx)) /\
  GetSingleHash (fold_left hash_in_unlock (vin tx) CHashWriter_new) =
    Some (fips_sha256 (unlocks_preimage tx)) /\
  GetSingleHash (fold_left hash_out (vout tx) CHashWriter_new) = Some (fips_sha256 (outs_preimage tx)).
Proof.
  intros (_ & (Hin & _) & (Hout & _) & _). rewrite Forall_forall in Hin, Hout.
  repeat split; apply hw_GetSingleHash.
  - apply (hw_fold _ in_bytes _ _ []); [|apply hw_new]. intros ss d i H _. unfold hash_in, in_bytes.
    rewrite app_assoc. apply hw_stream; [|reflexivity]. now apply hw_stream.
  - apply (hw_fold _ unlock_bytes _ _ []); [|apply hw_new]. intros ss d i H Hi. unfold hash_in_unlock.
    rewrite SerializeSingleHash_correct by apply (Hin i Hi). now apply hw_hash.
  - apply (hw_fold _ out_bytes _ _ []); [|apply hw_new]. intros ss d o H Ho. unfold hash_out, out_bytes.
    rewrite SerializeSingleHash_correct by apply (Hout o Ho). rewrite app_assoc. apply hw_hash.
    now apply hw_stream.
Qed.

Lemma TxSerializeHash_new tx :
  tx_valid tx -> 10 <= nVersion tx -> TxSerializeHash tx = Some (sha256d (root_preimage tx)).
Proof.
  intros Hv H10. unfold TxSerializeHash. apply Z.leb_le in H10. rewrite H10. cbv zeta.
  destruct (txid_parts tx Hv) as (-> & -> & ->). apply hw_GetHash. unfold root_preimage.
  destruct Hv as (_ & (_ & Hi) & (_ & Ho) & _). unfold MAX_SIZE in *.
  rewrite !u32_small by (pose proof (len_nonneg (vin tx)); pose proof (len_nonneg (vout tx)); lia).
  rewrite !app_assoc. do 3 apply hw_hash. do 3 (apply hw_stream; [|reflexivity]).
  apply (hw_stream _ [] (int_codec 4)); [apply hw_new | reflexivity].
Qed.

(** *** Binding *)

Lemma length_fips_sha256 d : length (fips_sha256 d) = 32%nat.
Proof. reflexivity. Qed.

Lemma app_inj_len {A} (a b c d : list A) : length a = length c -> a ++ b = c ++ d -> a = c /\ b = d.
Proof.
  revert c; induction a as [|x a IH]; intros [|y c] Hl E; try discriminate; [auto|].
  injection E as -> E. injection Hl as Hl. destruct (IH c Hl E). now subst.
Qed.

(** Blocks of one length: the concatenation determines them. *)
Lemma concat_blocks_inj {A} (f : A -> bytes) k l m :
  (0 < k)%nat -> (forall x, In x l \/ In x m -> length (f x) = k) ->
  concat (map f l) = concat (map f m) -> map f l = map f m.
Proof.
  intros Hk. revert m; induction l as [|x l IH]; intros [|y m] Hf E; cbn [map concat] in *; auto.
  - apply (f_equal (@length Z)) in E. rewrite length_app, (Hf y) in E by (cbn; auto). cbn in E. lia.
  - apply (f_equal (@length Z)) in E. rewrite length_app, (Hf x) in E by (cbn; auto). cbn in E. lia.
  - apply app_inj_len in E as [E1 E2]; [|rewrite !Hf by (cbn; auto); reflexivity].
    rewrite E1, (IH m); auto. intros z Hz. apply Hf. cbn. tauto.
Qed.

(** Two different inputs of SHA-256 with the same digest. *)
Definition collision (x y : bytes) : Prop := x <> y /\ fips_sha256 x = fips_sha256 y.

Lemma sha_eq x y : fips_sha256 x = fips_sha256 y -> x = y \/ collision x y.
Proof. intros E. destruct (list_eq_dec Z.eq_dec x y); [now left | right; now split]. Qed.

(** Equal lists of script hashes: equal scripts, or a position where they collide. *)
Lemma script_hashes {A} (f : A -> bytes) l m :
  map (fun x => fips_sha256 (f x)) l = map (fun x => fips_sha256 (f x)) m ->
  map f l = map f m \/
  exists i x y, nth_error l i = Some x /\ nth_error m i = Some y /\ collision (f x) (f y).
Proof.
  revert m; induction l as [|x l IH]; intros [|y m] E; try discriminate; [now left|].
  cbn [map] in E. remember (fips_sha256 (f x)) as u eqn:Eu. remember (fips_sha256 (f y)) as v eqn:Ev.
  injection E as E1 E2. subst u v. apply sha_eq in E1 as [E1|C].
  - destruct (IH m E2) as [E3|(i & x' & y' & H)]; [left; cbn [map]; now rewrite E1, E3|].
    right. now exists (S i), x', y'.
  - right. now exists 0%nat, x, y.
Qed.

Lemma le_encode_signed_inj k x y :
  (0 < k)%nat -> - 2 ^ (8 * Z.of_nat k - 1) <= x < 2 ^ (8 * Z.of_nat k - 1) ->
  - 2 ^ (8 * Z.of_nat k - 1) <= y < 2 ^ (8 * Z.of_nat k - 1) -> le_encode k x = le_encode k y -> x = y.
Proof.
  intros Hk Hx Hy E. apply (f_equal le_decode) in E. rewrite !le_decode_encode in E.
  rewrite <- (sint_mod (8 * Z.of_nat k) x), <- (sint_mod (8 * Z.of_nat k) y), E by lia. reflexivity.
Qed.

Lemma vin_eq l m :
  Forall txin_valid l -> Forall txin_valid m ->
  map in_bytes l = map in_bytes m -> map scriptSig l = map scriptSig m -> l = m.
Proof.
  intros Hl. revert m; induction Hl as [|i l Hi Hl IH]; intros [|j m] Hm E1 E2; try discriminate; auto.
  cbn [map] in *. inversion Hm as [|? ? Hj Hm']; subst. f_equal.
  - destruct i as [[ti ni] si qi], j as [[tj nj] sj qj].
    unfold txin_valid, outpoint_valid, in_bytes, outpoint_bytes in *.
    cbn [prevout txid n scriptSig nSequence] in *. apply (f_equal (hd [])) in E1, E2. cbn [hd] in E1, E2.
    apply app_inj_len in E1 as [E1 Eq]; [|rewrite !length_app, !length_le_encode; lia].
    apply app_inj_len in E1 as [-> En]; [|lia].
    apply le_encode_inj in Eq, En; try lia. now subst.
  - apply IH; [assumption | now apply (f_equal (@tl _)) in E1 | now apply (f_equal (@tl _)) in E2].
Qed.

Lemma vout_eq l m :
  Forall txout_valid l -> Forall txout_valid m ->
  map out_bytes l = map out_bytes m -> map scriptPubKey l = map scriptPubKey m -> l = m.
Proof.
  intros Hl. revert m; induction Hl as [|i l Hi Hl IH]; intros [|j m] Hm E1 E2; try discriminate; auto.
  cbn [map] in *. inversion Hm as [|? ? Hj Hm']; subst. f_equal.
  - destruct i as [vi si], j as [vj sj]. unfold txout_valid, out_bytes in *.
    cbn [nValue scriptPubKey] in *. apply (f_equal (hd [])) in E1, E2. cbn [hd] in E1, E2.
    apply app_inj_len in E1 as [Ev _]; [|now rewrite !length_le_encode].
    apply (le_encode_signed_inj 8) in Ev; [|lia..]. now subst.
  - apply IH; [assumption | now apply (f_equal (@tl _)) in E1 | now apply (f_equal (@tl _)) in E2].
Qed.

Lemma root_preimage_inj a b :
  tx_valid a -> tx_valid b -> root_preimage a = root_preimage b ->
  nVersion a = nVersion b /\ nLockTime a = nLockTime b /\
  fips_sha256 (ins_preimage a) = fips_sha256 (ins_preimage b) /\
  fips_sha256 (unlocks_preimage a) = fips_sha256 (unlocks_preimage b) /\
  fips_sha256 (outs_preimage a) = fips_sha256 (outs_preimage b).
Proof.
  intros Ha Hb E. unfold root_preimage in E.
  do 6 (apply app_inj_len in E as [? E]; [|now rewrite ?length_le_encode, ?length_fips_sha256]).
  destruct Ha as (Va & _ & _ & La), Hb as (Vb & _ & _ & Lb).
  split; [now apply (le_encode_signed_inj 4); [lia|..]|].
  split; [now apply (le_encode_inj 4)|]. auto.
Qed.

(** The parts of two transactions that can collide. *)
Definition txid_collision (a b : CTransaction) : Prop :=
  collision (fips_sha256 (root_preimage a)) (fips_sha256 (root_preimage b)) \/
  collision (root_preimage a) (root_preimage b) \/
  collision (ins_preimage a) (ins_preimage b) \/
  collision (unlocks_preimage a) (unlocks_preimage b) \/
  collision (outs_preimage a) (outs_preimage b) \/
  (exists i x y, nth_error (vin a) i = Some x /\ nth_error (vin b) i = Some y /\
     collision (scriptSig x) (scriptSig y)) \/
  (exists i x y, nth_error (vout a) i = Some x /\ nth_error (vout b) i = Some y /\
     collision (scriptPubKey x) (scriptPubKey y)).

Lemma in_bytes_length i : txin_valid i -> length (in_bytes i) = 40%nat.
Proof.
  intros (((_ & H) & _) & _). unfold in_bytes, outpoint_bytes.
  rewrite !length_app, !length_le_encode, H. reflexivity.
Qed.

Lemma out_hashes_eq l m :
  map out_bytes l = map out_bytes m ->
  map (fun o => fips_sha256 (scriptPubKey o)) l = map (fun o => fips_sha256 (scriptPubKey o)) m.
Proof.
  intros E. apply (f_equal (map (skipn 8))) in E. rewrite !map_map in E.
  assert (H : forall o, skipn 8 (out_bytes o) = fips_sha256 (scriptPubKey o)).
  { intros o. unfold out_bytes. now rewrite skipn_app, skipn_all2 by now rewrite length_le_encode. }
  rewrite !(map_ext _ _ H) in E. exact E.
Qed.

Lemma vins_bound a b :
  tx_valid a -> tx_valid b -> ins_preimage a = ins_preimage b -> unlocks_preimage a = unlocks_preimage b ->
  vin a = vin b \/ txid_collision a b.
Proof.
  intros (_ & (Ha & _) & _) (_ & (Hb & _) & _) E1 E2.
  apply (concat_blocks_inj _ 40) in E1; [|lia|].
  2:{ intros i Hi. rewrite Forall_forall in Ha, Hb. apply in_bytes_length. destruct Hi; auto. }
  apply (concat_blocks_inj _ 32) in E2; [|lia | reflexivity]. unfold unlock_bytes in E2.
  destruct (script_hashes scriptSig _ _ E2) as [E3|C]; [left; now apply vin_eq | right].
  unfold txid_collision. tauto.
Qed.

Lemma vouts_bound a b :
  tx_valid a -> tx_valid b -> outs_preimage a = outs_preimage b ->
  vout a = vout b \/ txid_collision a b.
Proof.
  intros (_ & _ & (Ha & _) & _) (_ & _ & (Hb & _) & _) E.
  apply (concat_blocks_inj _ 40) in E; [|lia | reflexivity].
  pose proof (script_hashes scriptPubKey _ _ (out_hashes_eq _ _ E)) as [E2|C];
    [left; now apply vout_eq | right].
  unfold txid_collision. tauto.
Qed.

(** ** Properties *)

Lemma txid_commits (a b : CTransaction) :
  tx_valid a -> tx_valid b -> 10 <= nVersion a -> 10 <= nVersion b ->
  TxSerializeHash a = TxSerializeHash b -> a = b \/ txid_collision a b.
Proof.
  intros Ha Hb Va Vb E. rewrite !TxSerializeHash_new in E by assumption. apply Some_inj in E.
  unfold sha256d in E. apply sha_eq in E as [E|C]; [|right; unfold txid_collision; tauto].
  apply sha_eq in E as [E|C]; [|right; unfold txid_collision; tauto].
  apply root_preimage_inj in E as (E1 & E2 & E3 & E4 & E5); [|assumption..].
  apply sha_eq in E3 as [E3|C]; [|right; unfold txid_collision; tauto].
  apply sha_eq in E4 as [E4|C]; [|right; unfold txid_collision; tauto].
  apply sha_eq in E5 as [E5|C]; [|right; unfold txid_collision; tauto].
  destruct (vins_bound a b Ha Hb E3 E4) as [Ei|]; [|now right].
  destruct (vouts_bound a b Ha Hb E5) as [Eo|]; [|now right].
  left. destruct a, b. cbn in *. now subst.
Qed.

(** the identifier of a version-10 transaction commits to every field: two
    well-formed transactions with the same identifier are equal, or the computation
    exhibits two different strings with the same SHA-256 among the parts that were
    hashed, although neither scripts nor lists are written with their size. *)
Theorem txid_binding (a b : CTransaction) :
  tx_valid a -> tx_valid b -> 10 <= nVersion a -> 10 <= nVersion b ->
  TxSerializeHash a = TxSerializeHash b -> a = b \/ txid_collision a b.
Proof. apply txid_commits. Qed.

Definition sample_tx : CTransaction :=
  mkTx 10 [mkTxIn (mkOutPoint (repeat 7 32) 1) [0x51] 0xffffffff] [mkTxOut 5000 [0x52; 0x93]] 0.

Lemma sample_tx_valid : tx_valid sample_tx.
Proof.
  assert (Hin : txin_valid (mkTxIn (mkOutPoint (repeat 7 32) 1) [0x51] 0xffffffff)).
  { unfold txin_valid, outpoint_valid, MAX_SIZE. cbn [prevout txid n scriptSig nSequence].
    split; [split; [split; [now apply bytes_okb | reflexivity] | lia]|].
    split; [split; [now apply bytes_okb | unfold len; cbn [length]; lia] | lia]. }
  assert (Hout : txout_valid (mkTxOut 5000 [0x52; 0x93])).
  { unfold txout_valid, MAX_SIZE. cbn [nValue scriptPubKey].
    split; [lia|]. split; [now apply bytes_okb | unfold len; cbn [length]; lia]. }
  unfold tx_valid, sample_tx, MAX_SIZE, len. cbn [nVersion vin vout nLockTime length].
  split; [lia|]. split; [split; [now constructor | lia]|]. split; [split; [now constructor | lia] | lia].
Qed.

Lemma txid_binding_witness :
  TxSerializeHash sample_tx = TxSerializeHash sample_tx /\
  (sample_tx = sample_tx \/ txid_collision sample_tx sample_tx).
Proof.
  split; [reflexivity|].
  exact (txid_binding sample_tx sample_tx sample_tx_valid sample_tx_valid ltac:(cbn; lia) ltac:(cbn; lia) eq_refl).
Defined.

(** a well-formed transaction is read back from its serialization, whatever
    follows it in the stream; and the bytes from which a transaction is read are
    exactly its serialization, so no two encodings give the same transaction. *)
Theorem CTransaction_roundtrip (sizeofIn sizeofOut : Z) :
  0 < sizeofIn -> 0 < sizeofOut ->
  (forall tx rest, tx_valid tx -> bytes_ok rest ->
     exists p, SerializeTransaction tx = Some p /\
       Unserialize (CTransaction_codec sizeofIn sizeofOut) (p ++ rest) = Some (tx, rest)) /\
  (forall s tx rest, bytes_ok s -> Unserialize (CTransaction_codec sizeofIn sizeofOut) s = Some (tx, rest) ->
     tx_valid tx /\ exists p, SerializeTransaction tx = Some p /\ s = p ++ rest).
Proof.
  intros HI HO. pose proof (CTransaction_lawful _ _ HI HO) as L. split.
  - intros tx rest Hv Hr. destruct (ser_some tx Hv) as (p & E & _). exists p. split; [exact E|].
    now apply ser_read.
  - intros s tx rest Hs E. exact (read_ser s tx rest Hs E).
Qed.

Lemma CTransaction_roundtrip_witness :
  exists p, SerializeTransaction sample_tx = Some p /\
    Unserialize (CTransaction_codec 72 40) (p ++ [1; 2]) = Some (sample_tx, [1; 2]).
Proof.
  exact (proj1 (CTransaction_roundtrip 72 40 ltac:(lia) ltac:(lia)) sample_tx [1; 2] sample_tx_valid
           (bytes_okb [1; 2] eq_refl)).
Defined.

(** *** Sizes *)

Lemma Serialize_bytes_size v p : Serialize_bytes v = Some p -> len p = script_size v.
Proof.
  unfold Serialize_bytes, script_size. intros E. apply wbind_some in E as (x & y & Ex & Ey & ->).
  apply Some_inj in Ey as <-. rewrite len_app. now rewrite (GetSizeOfCompactSize_correct _ _ Ex).
Qed.

Lemma Serialize_elems_size {A} (c : codec A) (size : A -> Z) l p :
  (forall a q, In a l -> Serialize c a = Some q -> len q = size a) ->
  Serialize_elems (Serialize c) l = Some p -> len p = fold_right Z.add 0 (map size l).
Proof.
  revert p; induction l as [|a l IH]; intros p Hc E; cbn [Serialize_elems] in E.
  { apply Some_inj in E as <-. reflexivity. }
  apply wbind_some in E as (x & y & Ex & Ey & ->). cbn [map fold_right]. rewrite len_app, (Hc a x), (IH y); auto; [|now left].
  intros b q Hb. apply Hc. now right.
Qed.

Lemma CTxIn_size_correct i p :
  txin_valid i -> Serialize CTxIn_codec i = Some p -> len p = CTxIn_size i.
Proof.
  intros (((_ & Ht) & _) & _). unfold CTxIn_size. cbn [CTxIn_codec COutPoint_codec class_codec pair_codec
    Serialize blob_codec uint_codec bytes_codec fst snd]. intros E. apply wbind_some in E as (x & y & Ex & Ey & ->).
  apply wbind_some in Ex as (x1 & x2 & Ex1 & Ex2 & ->). apply wbind_some in Ey as (y1 & y2 & Ey1 & Ey2 & ->).
  apply Some_inj in Ex1 as <-, Ex2 as <-, Ey2 as <-.
  rewrite !len_app, (Serialize_bytes_size _ _ Ey1). unfold len. rewrite Ht, !length_le_encode. lia.
Qed.

Lemma CTxOut_size_correct o p : Serialize CTxOut_codec o = Some p -> len p = CTxOut_size o.
Proof.
  unfold CTxOut_size. cbn [CTxOut_codec class_codec pair_codec Serialize int_codec bytes_codec fst snd].
  intros E. apply wbind_some in E as (x & y & Ex & Ey & ->). apply Some_inj in Ex as <-.
  rewrite !len_app, (Serialize_bytes_size _ _ Ey). unfold len at 1. now rewrite length_le_encode.
Qed.

(** the size that [GetTotalSize] computes without writing anything is the
    length of the serialization, modulo the 32 bits of its result. *)
Theorem GetTotalSize_correct (tx : CTransaction) (p : bytes) :
  tx_valid tx -> SerializeTransaction tx = Some p -> GetTotalSize tx = u32 (len p).
Proof.
  intros (_ & (Hin & _) & _ & _). rewrite Forall_forall in Hin.
  unfold SerializeTransaction, GetTotalSize, tx_size. cbn [CTransaction_codec class_codec pair_codec Serialize
    int_codec vector_codec uint_codec fst snd]. unfold Serialize_vector. intros E.
  apply wbind_some in E as (x & r & Ev & E & ->). apply wbind_some in E as (y & r' & Ei & E & ->).
  apply wbind_some in E as (z & t & Eo & El & ->). apply Some_inj in Ev as <-, El as <-.
  apply wbind_some in Ei as (y1 & y2 & E0 & E2 & ->). apply wbind_some in Eo as (z1 & z2 & E & E3 & ->).
  rewrite !len_app. rewrite (GetSizeOfCompactSize_correct _ _ E0), (GetSizeOfCompactSize_correct _ _ E).
  rewrite (Serialize_elems_size CTxIn_codec CTxIn_size _ _
    (fun a q H => CTxIn_size_correct a q (Hin a H)) E2).
  rewrite (Serialize_elems_size CTxOut_codec CTxOut_size _ _
    (fun a q _ => CTxOut_size_correct a q) E3).
  f_equal. rewrite !len_le_encode. lia.
Qed.

Lemma GetTotalSize_correct_witness : exists p, SerializeTransaction sample_tx = Some p /\
  GetTotalSize sample_tx = u32 (len p).
Proof.
  eexists. split; [reflexivity|]. exact (GetTotalSize_correct sample_tx _ sample_tx_valid eq_refl).
Defined.

(** *** Values *)

Definition sum_values (l : list CTxOut) : Z := fold_right (fun o s => nValue o + s) 0 l.

Lemma GetValueOut_stuck l x : fold_left GetValueOut_step l (Throw x) = Throw x.
Proof. induction l; auto. Qed.

Lemma GetValueOut_fold l acc :
  Forall (fun o => MoneyRange (nValue o) = true) l -> 0 <= acc <= MAX_MONEY ->
  fold_left GetValueOut_step l (Ok acc) =
  if acc + sum_values l <=? MAX_MONEY then Ok (acc + sum_values l) else Throw std_exception.
Proof.
  intros Hl. revert acc; induction Hl as [|o l Ho Hl IH]; intros acc Hacc.
  - cbn [fold_left sum_values fold_right]. rewrite Z.add_0_r. now destruct (Z.leb_spec acc MAX_MONEY); [|lia].
  - assert (Hs : 0 <= sum_values l).
    { clear -Hl. induction Hl as [|x l Hx Hl IH]; [cbn; lia|]. apply MoneyRange_iff in Hx.
      change (0 <= nValue x + sum_values l). lia. }
    pose proof (proj1 (MoneyRange_iff _) Ho) as Hr. cbn [fold_left sum_values fold_right].
    change (fold_right (fun o s => nValue o + s) 0 l) with (sum_values l).
    unfold GetValueOut_step at 2. cbn [obind]. unfold amount_add, MAX_MONEY, COIN in *.
    rewrite in_int64_fits by lia. cbn [obind]. rewrite Ho. cbn [negb orb].
    destruct (MoneyRange (acc + nValue o)) eqn:E; cbn [negb].
    + apply MoneyRange_iff in E. unfold MAX_MONEY, COIN in *. rewrite IH by lia. now rewrite Z.add_assoc.
    + assert (21000000 * 100000000 < acc + nValue o).
      { apply Z.nle_gt. intros H. assert (MoneyRange (acc + nValue o) = true); [|congruence].
        apply MoneyRange_iff. unfold MAX_MONEY, COIN. lia. }
      rewrite GetValueOut_stuck. destruct (Z.leb_spec (acc + (nValue o + sum_values l)) (21000000 * 100000000));
        [lia | reflexivity].
Qed.

(** when every output value is in the money range, [GetValueOut] returns the
    exact sum, and throws if and only if the sum is above the limit. *)
Theorem GetValueOut_correct (tx : CTransaction) :
  Forall (fun o => MoneyRange (nValue o) = true) (vout tx) ->
  GetValueOut tx =
  if sum_values (vout tx) <=? MAX_MONEY then Ok (sum_values (vout tx)) else Throw std_exception.
Proof. intros H. apply (GetValueOut_fold _ 0 H). unfold MAX_MONEY, COIN. lia. Qed.

Lemma GetValueOut_correct_witness :
  GetValueOut (mkTx 10 [] [mkTxOut MAX_MONEY []; mkTxOut 1 []] 0) = Throw std_exception.
Proof. apply (GetValueOut_correct (mkTx 10 [] [mkTxOut MAX_MONEY []; mkTxOut 1 []] 0)). repeat constructor. Defined.

(** The sum is formed before either operand is checked, so an output value near the
    end of the type makes the addition itself overflow. *)
Lemma GetValueOut_overflow :
  GetValueOut (mkTx 10 [] [mkTxOut 1 []; mkTxOut (2 ^ 63 - 1) []] 0) = Abort.
Proof. reflexivity. Qed.
End Transaction.
