(* ===== verification/ScriptChecks.v ===== *)
(** * Helpers of the interpreter (src/src/script/interpreter.cpp, lines 41-364;
      src/src/script/sighashtype.h, script_flags.h)

    The script verification flags, the signature hash type, the byte-string shifts,
    the cast to a boolean and the checks on the encoding of signatures, keys and
    pushes. *)

From S2P Require Import Prelude Endian IntSerialization Outcome BigInt Opcodes Script.
Import IntSerialization Script.

Module ScriptChecks.
Local Open Scope outcome_scope.
Local Open Scope word_scope.

(** ** Flags *)

Definition SCRIPT_VERIFY_NONE : Z := 0.
Definition SCRIPT_VERIFY_P2SH : Z := Z.shiftl 1 0.
Definition SCRIPT_VERIFY_STRICTENC : Z := Z.shiftl 1 1.
Definition SCRIPT_VERIFY_DERSIG : Z := Z.shiftl 1 2.
Definition SCRIPT_VERIFY_LOW_S : Z := Z.shiftl 1 3.
Definition SCRIPT_VERIFY_NULLDUMMY : Z := Z.shiftl 1 4.
Definition SCRIPT_VERIFY_SIGPUSHONLY : Z := Z.shiftl 1 5.
Definition SCRIPT_VERIFY_MINIMALDATA : Z := Z.shiftl 1 6.
Definition SCRIPT_VERIFY_DISCOURAGE_UPGRADABLE_NOPS : Z := Z.shiftl 1 7.
Definition SCRIPT_VERIFY_CLEANSTACK : Z := Z.shiftl 1 8.
Definition SCRIPT_VERIFY_CHECKLOCKTIMEVERIFY : Z := Z.shiftl 1 9.
Definition SCRIPT_VERIFY_CHECKSEQUENCEVERIFY : Z := Z.shiftl 1 10.
Definition SCRIPT_VERIFY_MINIMALIF : Z := Z.shiftl 1 13.
Definition SCRIPT_VERIFY_NULLFAIL : Z := Z.shiftl 1 14.
Definition SCRIPT_VERIFY_COMPRESSED_PUBKEYTYPE : Z := Z.shiftl 1 15.
Definition SCRIPT_ENABLE_SIGHASH_FORKID : Z := Z.shiftl 1 16.
Definition SCRIPT_GENESIS : Z := Z.shiftl 1 18.
Definition SCRIPT_UTXO_AFTER_GENESIS : Z := Z.shiftl 1 19.

(** [flags & flag] as a condition. *)
Definition has (flags flag : Z) : bool := negb (flags &&& flag =? 0).

(** ** SigHashType *)

Definition SIGHASH_ALL : Z := 1.
Definition SIGHASH_NONE : Z := 2.
Definition SIGHASH_SINGLE : Z := 3.
Definition SIGHASH_FORKID : Z := 0x40.
Definition SIGHASH_ANYONECANPAY : Z := 0x80.

(** The wrapped [uint32_t]. *)
Definition SigHashType : Set := Z.

Definition withBaseType (sigHash baseSigHashType : Z) : SigHashType :=
  (sigHash &&& not32 0x1f) ||| baseSigHashType.
Definition withForkValue (sigHash forkId : Z) : SigHashType :=
  (forkId <<< 8) ||| (sigHash &&& 0xff).
Definition withForkId (sigHash : Z) (forkId : bool) : SigHashType :=
  (sigHash &&& not32 SIGHASH_FORKID) ||| (if forkId then SIGHASH_FORKID else 0).
Definition withAnyoneCanPay (sigHash : Z) (anyoneCanPay : bool) : SigHashType :=
  (sigHash &&& not32 SIGHASH_ANYONECANPAY) ||| (if anyoneCanPay then SIGHASH_ANYONECANPAY else 0).
Definition getBaseType (sigHash : Z) : Z := sigHash &&& 0x1f.
Definition getForkValue (sigHash : Z) : Z := sigHash >>> 8.
(** The cast to the enumeration keeps eight bits. *)
Definition isDefined (sigHash : Z) : bool :=
  let baseType := u8 (sigHash &&& not32 (SIGHASH_FORKID ||| SIGHASH_ANYONECANPAY)) in
  (SIGHASH_ALL <=? baseType) && (baseType <=? SIGHASH_SINGLE).
Definition hasForkId (sigHash : Z) : bool := negb (sigHash &&& SIGHASH_FORKID =? 0).
Definition hasAnyoneCanPay (sigHash : Z) : bool := negb (sigHash &&& SIGHASH_ANYONECANPAY =? 0).

(** ** Shifts *)

Definition make_rshift_mask (n : nat) : Z :=
  nth n [0xFF; 0xFE; 0xFC; 0xF8; 0xF0; 0xE0; 0xC0; 0x80] 0.
Definition make_lshift_mask (n : nat) : Z :=
  nth n [0xFF; 0x7F; 0x3F; 0x1F; 0x0F; 0x07; 0x03; 0x01] 0.

(** [result[k] |= v], for [k] in range *)
Definition or_at (result : bytes) (k : nat) (v : Z) : bytes := upd result k (nth k result 0 ||| v).

Definition RShift_step (x : bytes) (bit_shift byte_shift : nat) (result : bytes) (i : nat) : bytes :=
  let mask := make_rshift_mask bit_shift in
  let overflow_mask := mask ^^^ 0xff in
  let k := (i + byte_shift)%nat in
  let result :=
    if (k <? length x)%nat then
      or_at result k ((nth i x 0 &&& mask) >>> Z.of_nat bit_shift)
    else result in
  if (k + 1 <? length x)%nat then
    or_at result (k + 1) (u8 (Z.shiftl (nth i x 0 &&& overflow_mask) (8 - Z.of_nat bit_shift)))
  else result.

(** [RShift(x, n)] for a shift count that is not negative. *)
Definition RShift (x : bytes) (n : Z) : bytes :=
  let bit_shift := Z.to_nat (n mod 8) in
  let byte_shift := Z.to_nat (n / 8) in
  fold_left (RShift_step x bit_shift byte_shift) (seq 0 (length x)) (repeat 0 (length x)).

Definition LShift_step (x : bytes) (bit_shift byte_shift : nat) (result : bytes) (i : nat) : bytes :=
  let mask := make_lshift_mask bit_shift in
  let overflow_mask := mask ^^^ 0xff in
  if (byte_shift <=? i)%nat then
    let k := (i - byte_shift)%nat in
    let result := or_at result k (u8 (Z.shiftl (nth i x 0 &&& mask) (Z.of_nat bit_shift))) in
    if (1 <=? k)%nat then
      or_at result (k - 1) ((nth i x 0 &&& overflow_mask) >>> (8 - Z.of_nat bit_shift))
    else result
  else result.

(** [LShift(x, n)]: the loop runs from the last index down. *)
Definition LShift (x : bytes) (n : Z) : bytes :=
  let bit_shift := Z.to_nat (n mod 8) in
  let byte_shift := Z.to_nat (n / 8) in
  fold_left (LShift_step x bit_shift byte_shift) (rev (seq 0 (length x))) (repeat 0 (length x)).

(** ** CastToBool *)

Fixpoint CastToBool (vch : bytes) : bool :=
  match vch with
  | [] => false
  | b :: r =>
      if negb (b =? 0) then
        match r with
        | [] => negb (b =? 0x80)
        | _ => true
        end
      else CastToBool r
  end.

(** ** Encodings of keys and signatures *)

Definition IsCompressedOrUncompressedPubKey (vchPubKey : bytes) : bool :=
  if len vchPubKey <? 33 then false
  else if at_ vchPubKey 0 =? 0x04 then
    if negb (len vchPubKey =? 65) then false else true
  else if (at_ vchPubKey 0 =? 0x02) || (at_ vchPubKey 0 =? 0x03) then
    if negb (len vchPubKey =? 33) then false else true
  else false.

Definition IsCompressedPubKey (vchPubKey : bytes) : bool :=
  if negb (len vchPubKey =? 33) then false
  else if negb (at_ vchPubKey 0 =? 0x02) && negb (at_ vchPubKey 0 =? 0x03) then false
  else true.

Definition IsValidSignatureEncoding (sig : bytes) : bool :=
  if len sig <? 9 then false
  else if 73 <? len sig then false
  else if negb (at_ sig 0 =? 0x30) then false
  else if negb (at_ sig 1 =? len sig - 3) then false
  else
    let lenR := at_ sig 3 in
    if len sig <=? 5 + lenR then false
    else
      let lenS := at_ sig (Z.to_nat (5 + lenR)) in
      if negb (lenR + lenS + 7 =? len sig) then false
      else if negb (at_ sig 2 =? 0x02) then false
      else if lenR =? 0 then false
      else if negb (at_ sig 4 &&& 0x80 =? 0) then false
      else if (1 <? lenR) && (at_ sig 4 =? 0x00) && (at_ sig 5 &&& 0x80 =? 0) then false
      else if negb (at_ sig (Z.to_nat (lenR + 4)) =? 0x02) then false
      else if lenS =? 0 then false
      else if negb (at_ sig (Z.to_nat (lenR + 6)) &&& 0x80 =? 0) then false
      else if (1 <? lenS) && (at_ sig (Z.to_nat (lenR + 6)) =? 0x00) &&
              (at_ sig (Z.to_nat (lenR + 7)) &&& 0x80 =? 0) then false
      else true.

(** What the interpreter uses of [CPubKey] (src/src/pubkey.cpp). *)
Class PubKeyOps : Type := {
  (** [CPubKey::CheckLowS] *)
  CheckLowS : bytes -> bool;
  (** [CPubKey::Verify]: key, hash and signature *)
  PubKey_Verify : bytes -> bytes -> bytes -> bool
}.

Section Encoding.
Context {PK : PubKeyOps}.

(** A check that sets [serror] and returns false ends in [Err]. *)
Definition IsLowDERSignature (vchSig : bytes) : outcome unit :=
  fail_if negb (IsValidSignatureEncoding vchSig) with SCRIPT_ERR_SIG_DER ;;
  let vchSigCopy := removelast vchSig in
  fail_if negb (CheckLowS vchSigCopy) with SCRIPT_ERR_SIG_HIGH_S ;;
  Ok tt.

Definition GetHashType (vchSig : bytes) : SigHashType :=
  if len vchSig =? 0 then 0 else last vchSig 0.

Definition CleanupScriptCode (scriptCode vchSig : bytes) (flags : Z) : bytes :=
  let sigHashType := GetHashType vchSig in
  if negb (has flags SCRIPT_ENABLE_SIGHASH_FORKID) || negb (hasForkId sigHashType) then
    fst (FindAndDelete scriptCode (push_data [] vchSig))
  else scriptCode.

Definition CheckSignatureEncoding (vchSig : bytes) (flags : Z) : outcome unit :=
  if len vchSig =? 0 then Ok tt
  else
    fail_if has flags (SCRIPT_VERIFY_DERSIG ||| SCRIPT_VERIFY_LOW_S ||| SCRIPT_VERIFY_STRICTENC) &&
            negb (IsValidSignatureEncoding vchSig) with SCRIPT_ERR_SIG_DER ;;
    let* _ := if has flags SCRIPT_VERIFY_LOW_S then IsLowDERSignature vchSig else Ok tt in
    if has flags SCRIPT_VERIFY_STRICTENC then
      fail_if negb (isDefined (GetHashType vchSig)) with SCRIPT_ERR_SIG_HASHTYPE ;;
      let usesForkId := hasForkId (GetHashType vchSig) in
      let forkIdEnabled := has flags SCRIPT_ENABLE_SIGHASH_FORKID in
      fail_if negb forkIdEnabled && usesForkId with SCRIPT_ERR_ILLEGAL_FORKID ;;
      fail_if forkIdEnabled && negb usesForkId with SCRIPT_ERR_MUST_USE_FORKID ;;
      Ok tt
    else Ok tt.

Definition CheckPubKeyEncoding (vchPubKey : bytes) (flags : Z) : outcome unit :=
  fail_if has flags SCRIPT_VERIFY_STRICTENC && negb (IsCompressedOrUncompressedPubKey vchPubKey)
    with SCRIPT_ERR_PUBKEYTYPE ;;
  fail_if has flags SCRIPT_VERIFY_COMPRESSED_PUBKEYTYPE && negb (IsCompressedPubKey vchPubKey)
    with SCRIPT_ERR_NONCOMPRESSED_PUBKEY ;;
  Ok tt.
End Encoding.

(** ** Opcodes *)

Definition CheckMinimalPush (data : bytes) (opcode : Z) : bool :=
  if len data =? 0 then opcode =? OP_0
  else if (len data =? 1) && (1 <=? at_ data 0) && (at_ data 0 <=? 16) then
    opcode =? OP_1 + (at_ data 0 - 1)
  else if (len data =? 1) && (at_ data 0 =? 0x81) then opcode =? OP_1NEGATE
  else if len data <=? 75 then opcode =? len data
  else if len data <=? 255 then opcode =? OP_PUSHDATA1
  else if len data <=? 65535 then opcode =? OP_PUSHDATA2
  else true.

Definition IsOpcodeDisabled (opcode : Z) : bool := (opcode =? OP_2MUL) || (opcode =? OP_2DIV).

Definition IsInvalidBranchingOpcode (opcode : Z) : bool :=
  (opcode =? OP_VERNOTIF) || (opcode =? OP_VERIF).

(** ** Lemmas *)

(** *** Shifts *)

Lemma length_upd l k x : (k < length l)%nat -> length (upd l k x) = length l.
Proof.
  intros H. unfold upd. rewrite length_app, length_firstn. cbn [length]. rewrite length_skipn. lia.
Qed.

Lemma nth_upd l k x j :
  (k < length l)%nat -> nth j (upd l k x) 0 = if (j =? k)%nat then x else nth j l 0.
Proof.
  intros H. unfold upd. destruct (Nat.eqb_spec j k) as [->|Hjk].
  - rewrite app_nth2; rewrite length_firstn, Nat.min_l by lia; [|lia]. now rewrite Nat.sub_diag.
  - destruct (Nat.lt_ge_cases j k).
    + rewrite app_nth1 by (rewrite length_firstn; lia). now rewrite nth_firstn, (proj2 (Nat.ltb_lt _ _)).
    + rewrite app_nth2; rewrite length_firstn, Nat.min_l by lia; [|lia].
      replace (j - k)%nat with (S (j - S k)) by lia. cbn [nth]. rewrite nth_skipn. f_equal. lia.
Qed.

Lemma lor_byte a b : is_byte a -> is_byte b -> is_byte (Z.lor a b).
Proof.
  unfold is_byte. intros Ha Hb. split; [apply Z.lor_nonneg; lia|].
  apply Z.log2_lt_cancel. rewrite Z.log2_lor by lia.
  apply Z.max_lub_lt; (apply Z.le_lt_trans with (Z.log2 255); [apply Z.log2_le_mono; lia | reflexivity]).
Qed.

(** Both shifts are a sequence of or-assignments of values at indices in range. *)
Definition or_ops (ops : list (nat * Z)) (result : bytes) : bytes :=
  fold_left (fun r op => or_at r (fst op) (snd op)) ops result.

Lemma length_or_ops ops result :
  Forall (fun op => fst op < length result)%nat ops -> length (or_ops ops result) = length result.
Proof.
  revert result; induction ops as [|op ops IH]; intros result H; [reflexivity|].
  inversion H; subst. cbn [or_ops fold_left]. change (length (or_ops ops (or_at result (fst op) (snd op))) = length result).
  rewrite IH; unfold or_at; rewrite length_upd by assumption; auto.
Qed.

Lemma testbit_or_ops ops result j t :
  Forall (fun op => fst op < length result)%nat ops ->
  Z.testbit (nth j (or_ops ops result) 0) t =
  Z.testbit (nth j result 0) t || existsb (fun op => (fst op =? j)%nat && Z.testbit (snd op) t) ops.
Proof.
  revert result; induction ops as [|op ops IH]; intros result H; [now rewrite orb_false_r|].
  inversion H; subst. change (or_ops (op :: ops) result) with (or_ops ops (or_at result (fst op) (snd op))).
  rewrite IH by (unfold or_at; now rewrite length_upd). unfold or_at. rewrite nth_upd by assumption.
  cbn [existsb]. rewrite (Nat.eqb_sym j). destruct (Nat.eqb_spec (fst op) j) as [<-|]; cbn [andb].
  - rewrite Z.lor_spec. now rewrite orb_assoc.
  - reflexivity.
Qed.

Lemma or_ops_byte ops result :
  Forall (fun op => fst op < length result)%nat ops ->
  Forall (fun op => is_byte (snd op)) ops -> bytes_ok result -> bytes_ok (or_ops ops result).
Proof.
  revert result; induction ops as [|op ops IH]; intros result H Hb Hr; [exact Hr|].
  inversion H; inversion Hb; subst. change (bytes_ok (or_ops ops (or_at result (fst op) (snd op)))).
  apply IH; [unfold or_at; now rewrite length_upd | assumption |].
  unfold or_at, upd. apply bytes_ok_app. split; [now apply Forall_firstn|].
  constructor; [|now apply Forall_skipn].
  assert (Hn : is_byte (nth (fst op) result 0)).
  { unfold bytes_ok in Hr. rewrite Forall_forall in Hr. apply Hr. now apply nth_In. }
  now apply lor_byte.
Qed.

(** The or-assignments of one iteration. *)
Definition RShift_ops (x : bytes) (b B i : nat) : list (nat * Z) :=
  let mask := make_rshift_mask b in
  (if (i + B <? length x)%nat then [((i + B)%nat, (nth i x 0 &&& mask) >>> Z.of_nat b)] else []) ++
  (if (i + B + 1 <? length x)%nat then
     [((i + B + 1)%nat, u8 (Z.shiftl (nth i x 0 &&& (mask ^^^ 0xff)) (8 - Z.of_nat b)))] else []).

Definition LShift_ops (x : bytes) (b B i : nat) : list (nat * Z) :=
  let mask := make_lshift_mask b in
  if (B <=? i)%nat then
    ((i - B)%nat, u8 (Z.shiftl (nth i x 0 &&& mask) (Z.of_nat b))) ::
    (if (1 <=? i - B)%nat then [((i - B - 1)%nat, (nth i x 0 &&& (mask ^^^ 0xff)) >>> (8 - Z.of_nat b))]
     else [])
  else [].

Lemma fold_steps {A} (step : bytes -> A -> bytes) (ops : A -> list (nat * Z)) l result :
  (forall r i, step r i = or_ops (ops i) r) ->
  fold_left step l result = or_ops (flat_map ops l) result.
Proof.
  intros H. revert result; induction l as [|i l IH]; intros result; [reflexivity|].
  cbn [fold_left flat_map]. rewrite IH, H. unfold or_ops. now rewrite fold_left_app.
Qed.

Lemma RShift_or_ops x n :
  RShift x n = or_ops (flat_map (RShift_ops x (Z.to_nat (n mod 8)) (Z.to_nat (n / 8))) (seq 0 (length x)))
                 (repeat 0 (length x)).
Proof.
  apply fold_steps. intros r i. unfold RShift_step, RShift_ops.
  repeat dgoal; reflexivity.
Qed.

Lemma LShift_or_ops x n :
  LShift x n = or_ops (flat_map (LShift_ops x (Z.to_nat (n mod 8)) (Z.to_nat (n / 8))) (rev (seq 0 (length x))))
                 (repeat 0 (length x)).
Proof.
  apply fold_steps. intros r i. unfold LShift_step, LShift_ops.
  repeat dgoal; reflexivity.
Qed.

Lemma testbit_le_decode l p :
  bytes_ok l -> 0 <= p ->
  Z.testbit (le_decode l) p = Z.testbit (nth (Z.to_nat (p / 8)) l 0) (p mod 8).
Proof.
  intros Hl. revert p; induction Hl as [|b l Hb Hl IH]; intros p Hp.
  - cbn [le_decode]. destruct (Z.to_nat (p / 8)); cbn [nth]; now rewrite !Z.bits_0.
  - cbn [le_decode]. rewrite testbit_byte by assumption. destruct (Z.ltb_spec p 8).
    + now rewrite Z.div_small, Z.mod_small by lia.
    + rewrite IH by lia. replace p with (p - 8 + 1 * 8) at 3 4 by lia.
      rewrite Z.div_add, Z.mod_add by lia.
      rewrite (Z2Nat.inj_add _ 1) by (try apply Z.div_pos; lia).
      rewrite (Nat.add_comm _ (Z.to_nat 1)). reflexivity.
Qed.

Lemma testbit_be_decode l p :
  bytes_ok l -> 0 <= p < 8 * len l ->
  Z.testbit (be_decode l) p = Z.testbit (nth (length l - S (Z.to_nat (p / 8))) l 0) (p mod 8).
Proof.
  intros Hl Hp. unfold be_decode. rewrite testbit_le_decode; [|now apply Forall_rev | lia].
  pose proof (Z.div_lt_upper_bound p 8 (len l)). pose proof (Z.div_pos p 8). unfold len in *.
  rewrite rev_nth by lia. reflexivity.
Qed.

Lemma be_decode_range l : bytes_ok l -> 0 <= be_decode l < 2 ^ (8 * len l).
Proof.
  intros H. unfold be_decode. rewrite <- (len_rev l). apply le_decode_range. now apply Forall_rev.
Qed.

(** A fact about a byte, a shift count and a bit is checked on every one. *)
Lemma byte_shift_forall (P : Z -> nat -> Z -> bool) :
  forallb (fun b => forallb (fun t => forallb (fun v => P v b (Z.of_nat t)) (map Z.of_nat (seq 0 256)))
                      (seq 0 8)) (seq 0 8) = true ->
  forall v b t, is_byte v -> (b < 8)%nat -> 0 <= t < 8 -> P v b t = true.
Proof.
  intros H v b t Hv Hb Ht. rewrite forallb_forall in H.
  specialize (H b ltac:(apply in_seq; lia)). rewrite forallb_forall in H.
  specialize (H (Z.to_nat t) ltac:(apply in_seq; lia)). rewrite Z2Nat.id in H by lia.
  exact (byte_forall (fun v => P v b t) H v Hv).
Qed.

Lemma rshift_val_bit v b t : is_byte v -> (b < 8)%nat -> 0 <= t < 8 ->
  Z.testbit ((v &&& make_rshift_mask b) >>> Z.of_nat b) t =
  (t + Z.of_nat b <? 8) && Z.testbit v (t + Z.of_nat b).
Proof.
  intros Hv Hb Ht. apply eqb_prop. revert v b t Hv Hb Ht.
  apply (byte_shift_forall (fun v b t => Bool.eqb (Z.testbit ((v &&& make_rshift_mask b) >>> Z.of_nat b) t)
    ((t + Z.of_nat b <? 8) && Z.testbit v (t + Z.of_nat b)))).
  vm_compute. reflexivity.
Qed.

Lemma rshift_carry_bit v b t : is_byte v -> (b < 8)%nat -> 0 <= t < 8 ->
  Z.testbit (u8 (Z.shiftl (v &&& (make_rshift_mask b ^^^ 0xff)) (8 - Z.of_nat b))) t =
  (8 <=? t + Z.of_nat b) && Z.testbit v (t + Z.of_nat b - 8).
Proof.
  intros Hv Hb Ht. apply eqb_prop. revert v b t Hv Hb Ht.
  apply (byte_shift_forall (fun v b t => Bool.eqb
    (Z.testbit (u8 (Z.shiftl (v &&& (make_rshift_mask b ^^^ 0xff)) (8 - Z.of_nat b))) t)
    ((8 <=? t + Z.of_nat b) && Z.testbit v (t + Z.of_nat b - 8)))).
  vm_compute. reflexivity.
Qed.

Lemma lshift_val_bit v b t : is_byte v -> (b < 8)%nat -> 0 <= t < 8 ->
  Z.testbit (u8 (Z.shiftl (v &&& make_lshift_mask b) (Z.of_nat b))) t =
  (Z.of_nat b <=? t) && Z.testbit v (t - Z.of_nat b).
Proof.
  intros Hv Hb Ht. apply eqb_prop. revert v b t Hv Hb Ht.
  apply (byte_shift_forall (fun v b t => Bool.eqb
    (Z.testbit (u8 (Z.shiftl (v &&& make_lshift_mask b) (Z.of_nat b))) t)
    ((Z.of_nat b <=? t) && Z.testbit v (t - Z.of_nat b)))).
  vm_compute. reflexivity.
Qed.

Lemma lshift_carry_bit v b t : is_byte v -> (b < 8)%nat -> 0 <= t < 8 ->
  Z.testbit ((v &&& (make_lshift_mask b ^^^ 0xff)) >>> (8 - Z.of_nat b)) t =
  (t <? Z.of_nat b) && Z.testbit v (8 + t - Z.of_nat b).
Proof.
  intros Hv Hb Ht. apply eqb_prop. revert v b t Hv Hb Ht.
  apply (byte_shift_forall (fun v b t => Bool.eqb
    (Z.testbit ((v &&& (make_lshift_mask b ^^^ 0xff)) >>> (8 - Z.of_nat b)) t)
    ((t <? Z.of_nat b) && Z.testbit v (8 + t - Z.of_nat b)))).
  vm_compute. reflexivity.
Qed.

Lemma rshift_ops_byte v b : is_byte v -> (b < 8)%nat ->
  is_byte ((v &&& make_rshift_mask b) >>> Z.of_nat b) /\
  is_byte ((v &&& (make_lshift_mask b ^^^ 0xff)) >>> (8 - Z.of_nat b)).
Proof.
  intros Hv Hb. assert (H : forall w k, 0 <= k -> is_byte w -> is_byte (w >>> k)).
  { unfold is_byte. intros w k Hk Hw. rewrite Z.shiftr_div_pow2 by lia.
    split; [apply Z.div_pos; lia | apply Z.le_lt_trans with w; [apply Z.div_le_upper_bound|]; nia]. }
  split; apply H; try lia; apply (land_range 8); unfold is_byte in *; lia.
Qed.

Lemma nth_byte l i : bytes_ok l -> is_byte (nth i l 0).
Proof.
  intros H. destruct (nth_in_or_default i l 0) as [Hi| ->]; [|unfold is_byte; lia].
  unfold bytes_ok in H. rewrite Forall_forall in H. now apply H.
Qed.

Lemma shift_ops_ok x b B :
  bytes_ok x -> (b < 8)%nat ->
  let ok op := (fst op < length x)%nat /\ is_byte (snd op) in
  (forall i, Forall ok (RShift_ops x b B i)) /\
  (forall i, (i < length x)%nat -> Forall ok (LShift_ops x b B i)).
Proof.
  intros Hx Hb ok. split; intros i; [|intros Hi];
    destruct (rshift_ops_byte (nth i x 0) b (nth_byte x i Hx) Hb) as [H1 H2].
  - unfold RShift_ops. destruct (Nat.ltb_spec (i + B) (length x)), (Nat.ltb_spec (i + B + 1) (length x));
      repeat constructor; cbn [fst snd app]; try lia; auto using u8_range; apply H1 || apply u8_range.
  - unfold LShift_ops. destruct (Nat.leb_spec B i); [|constructor].
    destruct (Nat.leb_spec 1 (i - B)); repeat constructor; cbn [fst snd]; try lia;
      apply H2 || apply u8_range.
Qed.

Lemma Forall_flat_map {A C} (P : C -> Prop) (f : A -> list C) l :
  (forall i, In i l -> Forall P (f i)) -> Forall P (flat_map f l).
Proof. intros H. apply Forall_forall. intros c Hc. apply in_flat_map in Hc as (i & Hi & Hc).
  specialize (H i Hi). rewrite Forall_forall in H. auto. Qed.

Lemma shift_count n :
  0 <= n -> (Z.to_nat (n mod 8) < 8)%nat /\ Z.of_nat (Z.to_nat (n mod 8)) = n mod 8 /\
  Z.of_nat (Z.to_nat (n / 8)) = n / 8 /\ n = 8 * (n / 8) + n mod 8.
Proof.
  intros Hn. pose proof (Z.mod_pos_bound n 8 ltac:(lia)). pose proof (Z.div_pos n 8 Hn ltac:(lia)).
  pose proof (Z.div_mod n 8 ltac:(lia)). lia.
Qed.

(** One bit of the result, as a bit of the operand. *)
Lemma RShift_bit x n j t :
  bytes_ok x -> 0 <= n -> (j < length x)%nat -> 0 <= t < 8 ->
  let b := n mod 8 in let B := Z.to_nat (n / 8) in
  Z.testbit (nth j (RShift x n) 0) t =
  ((B <=? j)%nat && ((t + b <? 8) && Z.testbit (nth (j - B) x 0) (t + b))) ||
  ((S B <=? j)%nat && ((8 <=? t + b) && Z.testbit (nth (j - S B) x 0) (t + b - 8))).
Proof.
  intros Hx Hn Hj Ht b B. destruct (shift_count n Hn) as (Hb & Eb & _).
  destruct (shift_ops_ok x _ B Hx Hb) as [Hok _].
  rewrite RShift_or_ops, testbit_or_ops.
  2:{ rewrite repeat_length. apply Forall_flat_map. intros i _.
      eapply Forall_impl; [|apply Hok]. now intros op [H _]. }
  fold B. rewrite nth_repeat, Z.bits_0, orb_false_l. apply eq_true_iff_eq.
  rewrite existsb_exists, orb_true_iff, !andb_true_iff, !Nat.leb_le. split.
  - intros ([k v] & Hop & Hk). apply in_flat_map in Hop as (i & Hi & Hop). apply in_seq in Hi.
    cbn [fst snd] in Hk. apply andb_true_iff in Hk as [Hk Hv]. apply Nat.eqb_eq in Hk as ->.
    unfold RShift_ops in Hop. apply in_app_or in Hop as [Hop|Hop];
      [destruct (_ <? _)%nat in Hop | destruct (_ + 1 <? _)%nat in Hop]; cbn [In] in Hop; try tauto;
      destruct Hop as [E|[]]; injection E as E <-.
    + rewrite rshift_val_bit, Eb in Hv by (auto using nth_byte). apply andb_true_iff in Hv. left.
      replace (j - B)%nat with i by lia. split; [lia | exact Hv].
    + rewrite rshift_carry_bit, Eb in Hv by (auto using nth_byte). apply andb_true_iff in Hv. right.
      replace (j - S B)%nat with i by lia. split; [lia | exact Hv].
  - intros [[HB Hv]|[HB Hv]]; apply andb_true_iff in Hv.
    + exists (j, (nth (j - B) x 0 &&& make_rshift_mask (Z.to_nat (n mod 8))) >>> Z.of_nat (Z.to_nat (n mod 8))).
      cbn [fst snd]. rewrite Nat.eqb_refl, rshift_val_bit, Eb by (auto using nth_byte). split; [|exact Hv].
      apply in_flat_map. exists (j - B)%nat. split; [apply in_seq; lia|]. unfold RShift_ops.
      replace (j - B + B)%nat with j by lia. apply in_or_app. left.
      destruct (Nat.ltb_spec j (length x)); [left; now rewrite Eb | lia].
    + exists (j, u8 (Z.shiftl (nth (j - S B) x 0 &&& (make_rshift_mask (Z.to_nat (n mod 8)) ^^^ 0xff))
                   (8 - Z.of_nat (Z.to_nat (n mod 8))))).
      cbn [fst snd]. rewrite Nat.eqb_refl, rshift_carry_bit, Eb by (auto using nth_byte). split; [|exact Hv].
      apply in_flat_map. exists (j - S B)%nat. split; [apply in_seq; lia|]. unfold RShift_ops.
      replace (j - S B + B + 1)%nat with j by lia. apply in_or_app. right.
      destruct (Nat.ltb_spec j (length x)); [left; now rewrite Eb | lia].
Qed.

Lemma LShift_bit x n j t :
  bytes_ok x -> 0 <= n -> (j < length x)%nat -> 0 <= t < 8 ->
  let b := n mod 8 in let B := Z.to_nat (n / 8) in
  Z.testbit (nth j (LShift x n) 0) t =
  ((j + B <? length x)%nat && ((b <=? t) && Z.testbit (nth (j + B) x 0) (t - b))) ||
  ((j + B + 1 <? length x)%nat && ((t <? b) && Z.testbit (nth (j + B + 1) x 0) (8 + t - b))).
Proof.
  intros Hx Hn Hj Ht b B. destruct (shift_count n Hn) as (Hb & Eb & _).
  destruct (shift_ops_ok x _ B Hx Hb) as [_ Hok].
  rewrite LShift_or_ops, testbit_or_ops.
  2:{ rewrite repeat_length. apply Forall_flat_map. intros i Hi. apply in_rev, in_seq in Hi.
      eapply Forall_impl; [|apply Hok; lia]. now intros op [H _]. }
  fold B. rewrite nth_repeat, Z.bits_0, orb_false_l. apply eq_true_iff_eq.
  rewrite existsb_exists, orb_true_iff, !andb_true_iff, !Nat.ltb_lt. split.
  - intros ([k v] & Hop & Hk). apply in_flat_map in Hop as (i & Hi & Hop). apply in_rev, in_seq in Hi.
    cbn [fst snd] in Hk. apply andb_true_iff in Hk as [Hk Hv]. apply Nat.eqb_eq in Hk as ->.
    unfold LShift_ops in Hop. destruct (Nat.leb_spec B i); [|destruct Hop].
    destruct Hop as [E|Hop].
    + injection E as E <-.
      rewrite lshift_val_bit, Eb in Hv by (auto using nth_byte). apply andb_true_iff in Hv. left.
      replace (j + B)%nat with i by lia. split; [lia | exact Hv].
    + destruct (Nat.leb_spec 1 (i - B)); [|destruct Hop]. destruct Hop as [E|[]]. injection E as E <-.
      rewrite lshift_carry_bit, Eb in Hv by (auto using nth_byte). apply andb_true_iff in Hv. right.
      replace (j + B + 1)%nat with i by lia. split; [lia | exact Hv].
  - intros [[HB Hv]|[HB Hv]]; apply andb_true_iff in Hv.
    + exists (j, u8 (Z.shiftl (nth (j + B) x 0 &&& make_lshift_mask (Z.to_nat (n mod 8)))
                   (Z.of_nat (Z.to_nat (n mod 8))))).
      cbn [fst snd]. rewrite Nat.eqb_refl, lshift_val_bit, Eb by (auto using nth_byte). split; [|exact Hv].
      apply in_flat_map. exists (j + B)%nat. split; [apply -> in_rev; apply in_seq; lia|].
      unfold LShift_ops. destruct (Nat.leb_spec B (j + B)); [|lia].
      replace (j + B - B)%nat with j by lia. left. now rewrite Eb.
    + exists (j, (nth (j + B + 1) x 0 &&& (make_lshift_mask (Z.to_nat (n mod 8)) ^^^ 0xff)) >>>
                   (8 - Z.of_nat (Z.to_nat (n mod 8)))).
      cbn [fst snd]. rewrite Nat.eqb_refl, lshift_carry_bit, Eb by (auto using nth_byte). split; [|exact Hv].
      apply in_flat_map. exists (j + B + 1)%nat. split; [apply -> in_rev; apply in_seq; lia|].
      unfold LShift_ops. destruct (Nat.leb_spec B (j + B + 1)); [|lia].
      replace (j + B + 1 - B)%nat with (S j) by lia. right. cbn [Nat.leb].
      replace (S j - 1)%nat with j by lia. left. now rewrite Eb.
Qed.

Lemma shift_shape x n :
  bytes_ok x -> 0 <= n ->
  (length (RShift x n) = length x /\ bytes_ok (RShift x n)) /\
  (length (LShift x n) = length x /\ bytes_ok (LShift x n)).
Proof.
  intros Hx Hn. destruct (shift_count n Hn) as (Hb & _).
  destruct (shift_ops_ok x _ (Z.to_nat (n / 8)) Hx Hb) as [Hr Hl].
  assert (H0 : bytes_ok (repeat 0 (length x))).
  { apply Forall_forall. intros y Hy. apply repeat_spec in Hy. subst. unfold is_byte. lia. }
  rewrite RShift_or_ops, LShift_or_ops.
  assert (Fr := Forall_flat_map _ _ (seq 0 (length x)) (fun i _ => Hr i)).
  assert (Fl := Forall_flat_map _ _ (rev (seq 0 (length x)))
    (fun i Hi => Hl i ltac:(apply in_rev, in_seq in Hi; lia))).
  apply Forall_and_inv in Fr as [Fr1 Fr2], Fl as [Fl1 Fl2].
  assert (Hlen := repeat_length 0 (length x)).
  split; (split; [rewrite length_or_ops by now rewrite Hlen | apply or_ops_byte; rewrite ?Hlen]);
    assumption.
Qed.

Lemma bit_position (x : bytes) p :
  0 <= p < 8 * len x ->
  (length x - S (Z.to_nat (p / 8)) < length x)%nat /\ 0 <= p mod 8 < 8 /\
  0 <= p / 8 < len x /\ p = 8 * (p / 8) + p mod 8.
Proof.
  intros Hp. pose proof (Z.mod_pos_bound p 8 ltac:(lia)). pose proof (Z.div_mod p 8 ltac:(lia)).
  unfold len in *. lia.
Qed.

Lemma bits_high x p : bytes_ok x -> 8 * len x <= p -> Z.testbit (be_decode x) p = false.
Proof.
  intros Hx Hp. pose proof (be_decode_range x Hx). pose proof (len_nonneg x).
  destruct (Z.eq_dec (be_decode x) 0) as [->|]; [apply Z.bits_0|].
  apply Z.bits_above_log2; [lia|]. apply Z.lt_le_trans with (8 * len x); [|exact Hp].
  apply Z.log2_lt_pow2; lia.
Qed.

Lemma RShift_value x n : bytes_ok x -> 0 <= n -> be_decode (RShift x n) = Z.shiftr (be_decode x) n.
Proof.
  intros Hx Hn. destruct (shift_shape x n Hx Hn) as [[Hl Ho] _].
  apply Z.bits_inj'. intros p Hp. rewrite Z.shiftr_spec by lia.
  assert (El : len (RShift x n) = len x) by (unfold len; now rewrite Hl).
  destruct (Z.lt_ge_cases p (8 * len x)); [|rewrite !bits_high by (auto; lia); reflexivity].
  destruct (bit_position x p ltac:(lia)) as (Hj & Ht & Hq & Ep).
  destruct (shift_count n Hn) as (_ & Eb & EB & En).
  rewrite testbit_be_decode by (rewrite ?El; auto). rewrite Hl, RShift_bit by auto.
  set (q := p / 8) in *. set (t := p mod 8) in *. set (b := n mod 8) in *. set (B := n / 8) in *.
  assert (0 <= b < 8) by (apply Z.mod_pos_bound; lia). unfold len in *.
  assert (Hdm : (p + n) / 8 = (if t + b <? 8 then q + B else q + B + 1) /\
                (p + n) mod 8 = (if t + b <? 8 then t + b else t + b - 8)).
  { destruct (Z.ltb_spec (t + b) 8).
    - split; symmetry; [apply (Z.div_unique _ 8 _ (t + b)) | apply (Z.mod_unique _ 8 (q + B))]; lia.
    - split; symmetry; [apply (Z.div_unique _ 8 _ (t + b - 8)) | apply (Z.mod_unique _ 8 (q + B + 1))]; lia. }
  destruct Hdm as [Hd Hm]. destruct (Z.lt_ge_cases (p + n) (8 * Z.of_nat (length x))).
  - rewrite testbit_be_decode, Hd, Hm by (unfold len; auto; lia).
    destruct (Z.ltb_spec (t + b) 8), (Z.leb_spec 8 (t + b)); try lia; cbn [andb];
      rewrite ?andb_false_r, ?orb_false_r, ?orb_false_l.
    + rewrite (proj2 (Nat.leb_le _ _)) by lia. cbn [andb]. do 2 f_equal. lia.
    + rewrite (proj2 (Nat.leb_le _ _)) by lia. cbn [andb]. do 2 f_equal. lia.
  - rewrite bits_high by (unfold len; auto).
    destruct (Z.ltb_spec (t + b) 8), (Z.leb_spec 8 (t + b)); try lia; cbn [andb];
      rewrite ?andb_false_r, ?orb_false_r, ?orb_false_l;
      (rewrite (proj2 (Nat.leb_gt _ _)) by lia); reflexivity.
Qed.

Lemma LShift_value x n :
  bytes_ok x -> 0 <= n -> be_decode (LShift x n) = Z.shiftl (be_decode x) n mod 2 ^ (8 * len x).
Proof.
  intros Hx Hn. destruct (shift_shape x n Hx Hn) as [_ [Hl Ho]].
  apply Z.bits_inj'. intros p Hp.
  assert (El : len (LShift x n) = len x) by (unfold len; now rewrite Hl). pose proof (len_nonneg x).
  destruct (Z.lt_ge_cases p (8 * len x));
    [|rewrite Z.mod_pow2_bits_high, bits_high by (auto; lia); reflexivity].
  rewrite Z.mod_pow2_bits_low, Z.shiftl_spec by lia.
  destruct (bit_position x p ltac:(lia)) as (Hj & Ht & Hq & Ep).
  destruct (shift_count n Hn) as (_ & Eb & EB & En).
  rewrite testbit_be_decode by (rewrite ?El; auto). rewrite Hl, LShift_bit by auto.
  set (q := p / 8) in *. set (t := p mod 8) in *. set (b := n mod 8) in *. set (B := n / 8) in *.
  assert (0 <= b < 8) by (apply Z.mod_pos_bound; lia). unfold len in *.
  assert (Hdm : (p - n) / 8 = (if b <=? t then q - B else q - B - 1) /\
                (p - n) mod 8 = (if b <=? t then t - b else 8 + t - b)).
  { destruct (Z.leb_spec b t).
    - split; symmetry; [apply (Z.div_unique _ 8 _ (t - b)) | apply (Z.mod_unique _ 8 (q - B))]; lia.
    - split; symmetry; [apply (Z.div_unique _ 8 _ (8 + t - b)) | apply (Z.mod_unique _ 8 (q - B - 1))]; lia. }
  destruct Hdm as [Hd Hm]. destruct (Z.lt_ge_cases (p - n) 0).
  - rewrite (Z.testbit_neg_r (be_decode x)) by lia. destruct (Z.leb_spec b t), (Z.ltb_spec t b); try lia; cbn [andb];
      rewrite ?andb_false_r, ?orb_false_r, ?orb_false_l;
      (rewrite (proj2 (Nat.ltb_ge _ _)) by lia); reflexivity.
  - rewrite testbit_be_decode, Hd, Hm by (unfold len; auto; lia).
    destruct (Z.leb_spec b t), (Z.ltb_spec t b); try lia; cbn [andb];
      rewrite ?andb_false_r, ?orb_false_r, ?orb_false_l;
      (rewrite (proj2 (Nat.ltb_lt _ _)) by lia); cbn [andb]; do 2 f_equal; lia.
Qed.

(** Equal length and equal value: equal bytes. *)
Lemma be_decode_inj x y :
  bytes_ok x -> bytes_ok y -> length x = length y -> be_decode x = be_decode y -> x = y.
Proof.
  intros Hx Hy Hl E. unfold be_decode in E. rewrite <- (rev_involutive x), <- (rev_involutive y).
  f_equal. rewrite <- (le_encode_decode (rev x)), <- (le_encode_decode (rev y)) by now apply Forall_rev.
  now rewrite E, !length_rev, Hl.
Qed.

(** *** CastToBool *)

Lemma CastToBool_mag v : bytes_ok v -> CastToBool v = negb (sm_mag v =? 0).
Proof.
  induction 1 as [|b r Hb Hr IH]; [reflexivity|]. unfold is_byte in Hb. cbn [CastToBool].
  destruct r as [|c r].
  - cbn [sm_mag]. destruct (Z.eqb_spec b 0) as [->|]; [reflexivity|]. cbn [negb]. f_equal.
    destruct (Z.lt_ge_cases b 128).
    + rewrite Z.mod_small by lia. destruct (Z.eqb_spec b 128), (Z.eqb_spec b 0); lia.
    + replace b with (b - 128 + 1 * 128) at 2 by lia. rewrite Z.mod_add, Z.mod_small by lia.
      destruct (Z.eqb_spec b 128), (Z.eqb_spec (b - 128) 0); lia.
  - rewrite sm_mag_cons by discriminate. pose proof (sm_mag_nonneg _ Hr).
    destruct (Z.eqb_spec b 0) as [->|]; cbn [negb].
    + rewrite IH. f_equal. destruct (Z.eqb_spec (sm_mag (c :: r)) 0), (Z.eqb_spec (0 + 256 * sm_mag (c :: r)) 0); lia.
    + destruct (Z.eqb_spec (b + 256 * sm_mag (c :: r)) 0); [lia | reflexivity].
Qed.

Lemma CastToBool_sm v : bytes_ok v -> CastToBool v = negb (sm_value v =? 0).
Proof.
  intros H. rewrite CastToBool_mag by assumption. unfold sm_value. f_equal.
  destruct (sm_neg v); [|reflexivity].
  destruct (Z.eqb_spec (sm_mag v) 0), (Z.eqb_spec (- sm_mag v) 0); lia.
Qed.

(** *** Signature encodings *)

(** A DER integer as the rules want it: not empty, not negative, shortest. *)
Definition der_int (r : bytes) : bool :=
  match r with
  | [] => false
  | [h] => h <? 128
  | h :: k :: _ => (h <? 128) && negb ((h =? 0) && (k <? 128))
  end.

Definition der_signature (R S : bytes) (hashtype : Z) : bytes :=
  0x30 :: (len R + len S + 4) :: 0x02 :: len R :: R ++ 0x02 :: len S :: S ++ [hashtype].

(** The tests on an integer of [n] bytes found at [p] are [der_int]. *)
Lemma der_int_checks r rest :
  bytes_ok (r ++ rest) ->
  der_int r =
  negb (len r =? 0) && ((at_ (r ++ rest) 0 &&& 0x80 =? 0) &&
  negb ((1 <? len r) && (at_ (r ++ rest) 0 =? 0x00) && (at_ (r ++ rest) 1 &&& 0x80 =? 0))).
Proof.
  intros H. destruct r as [|h [|k r]]; [reflexivity | |].
  - inversion H; subst. cbn [app at_ nth]. unfold at_. cbn [nth app].
    rewrite byte_land_80 by assumption. cbn [der_int len length]. cbn. now rewrite andb_true_r.
  - inversion H as [|? ? Hh H']; subst. inversion H' as [|? ? Hk _]; subst.
    unfold at_. cbn [nth app der_int]. rewrite !byte_land_80 by assumption.
    assert (E : 2 <= len (h :: k :: r)) by (rewrite !len_cons; pose proof (len_nonneg r); lia).
    destruct (Z.eqb_spec (len (h :: k :: r)) 0); [lia|].
    destruct (Z.ltb_spec 1 (len (h :: k :: r))); [reflexivity | lia].
Qed.

Lemma nth_app_len (r l : bytes) i : nth (length r + i) (r ++ l) 0 = nth i l 0.
Proof. rewrite app_nth2 by lia. f_equal. lia. Qed.

Lemma der_signature_at R S h i :
  at_ (der_signature R S h) 0 = 0x30 /\ at_ (der_signature R S h) 1 = len R + len S + 4 /\
  at_ (der_signature R S h) 2 = 0x02 /\ at_ (der_signature R S h) 3 = len R /\
  at_ (der_signature R S h) (4 + i) = at_ (R ++ 0x02 :: len S :: S ++ [h]) i /\
  at_ (der_signature R S h) (Z.to_nat (len R + 4)) = 0x02 /\
  at_ (der_signature R S h) (Z.to_nat (5 + len R)) = len S /\
  at_ (der_signature R S h) (Z.to_nat (len R + 6 + Z.of_nat i)) = at_ (S ++ [h]) i.
Proof.
  unfold der_signature, at_, len. repeat split.
  - replace (Z.to_nat (Z.of_nat (length R) + 4)) with (4 + (length R + 0))%nat by lia.
    cbn [Nat.add nth]. now rewrite nth_app_len.
  - replace (Z.to_nat (5 + Z.of_nat (length R))) with (4 + (length R + 1))%nat by lia.
    cbn [Nat.add nth]. now rewrite nth_app_len.
  - replace (Z.to_nat (Z.of_nat (length R) + 6 + Z.of_nat i)) with (4 + (length R + (2 + i)))%nat by lia.
    cbn [Nat.add nth]. now rewrite nth_app_len.
Qed.

Lemma der_signature_len R S h : len (der_signature R S h) = len R + len S + 7.
Proof. unfold der_signature. autorewrite with len. lia. Qed.

(** On a string of the form [der_signature] only the integers and the size are left
    to check. *)
Lemma IsValid_der_signature R S h :
  bytes_ok (der_signature R S h) ->
  IsValidSignatureEncoding (der_signature R S h) =
  der_int R && der_int S && (len R + len S <=? 66).
Proof.
  intros H. pose proof (len_nonneg R). pose proof (len_nonneg S).
  destruct (der_signature_at R S h 0) as (A0 & A1 & A2 & A3 & A4 & AR & AS & A6).
  destruct (der_signature_at R S h 1) as (_ & _ & _ & _ & A5 & _ & _ & A7).
  unfold IsValidSignatureEncoding. cbn [Nat.add] in A4, A5.
  rewrite A0, A1, A2, A3, A4, A5, AR, AS. cbn [Z.of_nat] in A6, A7.
  rewrite Z.add_0_r in A6. change (len R + 6 + Z.pos (Pos.of_succ_nat 0)) with (len R + 6 + 1) in A7.
  replace (len R + 7) with (len R + 6 + 1) by lia. rewrite A6, A7, der_signature_len.
  assert (HR : bytes_ok (R ++ 0x02 :: len S :: S ++ [h]))
    by (unfold der_signature in H; repeat (inversion H as [|? ? _ H']; subst; clear H; rename H' into H); exact H).
  assert (HS : bytes_ok (S ++ [h])).
  { apply bytes_ok_app in HR as [_ HR]. now inversion HR as [|? ? _ HR']; subst; inversion HR'. }
  rewrite (der_int_checks R _ HR), (der_int_checks S _ HS).
  replace (len R + len S + 7 - 3) with (len R + len S + 4) by lia. rewrite !Z.eqb_refl. cbn [negb].
  change (48 =? 48) with true. change (2 =? 2) with true. cbn [negb].
  destruct (Z.leb_spec (len R + len S + 7) (5 + len R)); [lia|].
  destruct (Z.eqb_spec (len R) 0), (Z.eqb_spec (len S) 0); cbn [negb andb];
    destruct (Z.ltb_spec (len R + len S + 7) 9), (Z.ltb_spec 73 (len R + len S + 7)),
             (Z.leb_spec (len R + len S) 66); try lia;
    repeat match goal with |- context [if negb ?c then _ else _] => destruct c; cbn [negb andb]
           | |- context [if ?c then _ else _] => destruct c; cbn [negb andb] end;
    rewrite ?andb_false_r; reflexivity.
Qed.

Lemma IsValid_shape sig :
  bytes_ok sig -> IsValidSignatureEncoding sig = true -> exists R S h, sig = der_signature R S h.
Proof.
  intros Hs H. pose proof (fun i => nth_byte sig i Hs) as Hb. unfold is_byte in Hb.
  unfold IsValidSignatureEncoding in H. destruct (Z.ltb_spec (len sig) 9); [discriminate|]. destruct (73 <? len sig); [discriminate|].
  destruct sig as [|a [|t [|c [|lR rest]]]]; try (unfold len in *; cbn [length] in *; lia).
  unfold at_ in H. cbn [nth] in H. rewrite !len_cons in H.
  destruct (Z.eqb_spec a 0x30) as [->|]; [|discriminate].
  destruct (Z.eqb_spec t (1 + (1 + (1 + (1 + len rest))) - 3)) as [->|]; [|discriminate]. cbn [negb] in H.
  destruct (Z.leb_spec (1 + (1 + (1 + (1 + len rest)))) (5 + lR)); [discriminate|].
  assert (HlR : 0 <= lR) by apply (Hb 3%nat).
  remember (firstn (Z.to_nat lR) rest) as R eqn:ER.
  assert (HR : len R = lR) by (subst R; rewrite len_firstn; lia).
  destruct (skipn (Z.to_nat lR) rest) as [|x [|lS tail]] eqn:ET;
    try (apply (f_equal (@length Z)) in ET; rewrite length_skipn in ET; unfold len in *; cbn in ET; lia).
  assert (Erest : rest = R ++ x :: lS :: tail) by (subst R; now rewrite <- ET, firstn_skipn).
  replace (Z.to_nat (5 + lR)) with (4 + (length R + 1))%nat in H by (unfold len in HR; lia).
  replace (Z.to_nat (lR + 4)) with (4 + (length R + 0))%nat in H by (unfold len in HR; lia).
  cbn [Nat.add nth] in H. rewrite Erest, !nth_app_len in H. cbn [nth] in H.
  rewrite len_app, !len_cons, HR in H.
  destruct (Z.eqb_spec (lR + lS + 7) (1 + (1 + (1 + (1 + (lR + (1 + (1 + len tail)))))))) as [El|];
    [|discriminate]. cbn [negb] in H.
  destruct (Z.eqb_spec c 0x02) as [->|]; [|discriminate]. cbn [negb] in H.
  repeat (match type of H with (if ?b then _ else _) = _ => destruct b eqn:?; [discriminate|] end).
  assert (x = 0x02) as -> by (zbool; congruence).
  destruct (exists_last_or_nil tail) as [->|(S & h & ->)].
  { specialize (Hb (4 + (length R + 1))%nat). cbn [Nat.add nth] in Hb.
    rewrite Erest, nth_app_len in Hb. cbn [nth] in Hb. rewrite len_nil in El. lia. }
  exists R, S, h. unfold der_signature. rewrite len_app in El. change (len [h]) with 1 in El.
  assert (lS = len S) as -> by lia. rewrite Erest, HR, !len_app, !len_cons, len_app.
  change (len [h]) with 1. do 2 f_equal. lia.
Qed.

(** ** Properties *)

(** [LShift] and [RShift] shift the byte string as one big-endian number of
    fixed width: the bits shifted out are lost, zeros come in, the length stays, for
    every count, whether or not it is a multiple of eight or exceeds the width. *)
Theorem shifts_correct (x : bytes) (n : Z) :
  bytes_ok x -> 0 <= n ->
  (length (LShift x n) = length x /\ bytes_ok (LShift x n) /\
   be_decode (LShift x n) = (be_decode x * 2 ^ n) mod 2 ^ (8 * len x)) /\
  (length (RShift x n) = length x /\ bytes_ok (RShift x n) /\
   be_decode (RShift x n) = be_decode x / 2 ^ n).
Proof.
  intros Hx Hn. destruct (shift_shape x n Hx Hn) as [[? ?] [? ?]].
  rewrite LShift_value, RShift_value, Z.shiftl_mul_pow2, Z.shiftr_div_pow2 by assumption. auto.
Qed.

Lemma shifts_correct_witness :
  LShift [0x12; 0x34; 0x56] 12 = [0x45; 0x60; 0x00] /\
  be_decode (LShift [0x12; 0x34; 0x56] 12) = (be_decode [0x12; 0x34; 0x56] * 2 ^ 12) mod 2 ^ (8 * 3).
Proof.
  split; [reflexivity|].
  exact (proj2 (proj2 (proj1 (shifts_correct [0x12; 0x34; 0x56] 12
    (bytes_okb [0x12; 0x34; 0x56] eq_refl) ltac:(lia))))).
Defined.

(** the bytes [CastToBool] takes for true are those whose script number is not
    zero; negative zero and zeros of any length are false. *)
Theorem CastToBool_correct (v : bytes) : bytes_ok v -> CastToBool v = negb (sm_value v =? 0).
Proof. apply CastToBool_sm. Qed.

Lemma CastToBool_correct_witness : CastToBool [0; 0x80] = negb (sm_value [0; 0x80] =? 0).
Proof. exact (CastToBool_correct [0; 0x80] (bytes_okb [0; 0x80] eq_refl)). Defined.

(** the signature encodings accepted are exactly the strings
    [0x30 len 0x02 |R| R 0x02 |S| S hashtype] with two canonical non-negative DER
    integers and at most 73 bytes in all. *)
Theorem IsValidSignatureEncoding_iff (sig : bytes) :
  bytes_ok sig ->
  IsValidSignatureEncoding sig = true <->
  exists R S hashtype, sig = der_signature R S hashtype /\
    der_int R = true /\ der_int S = true /\ len sig <= 73.
Proof.
  intros Hs. split.
  - intros H. destruct (IsValid_shape sig Hs H) as (R & S & h & ->). exists R, S, h.
    rewrite IsValid_der_signature, !andb_true_iff, Z.leb_le in H by assumption.
    rewrite der_signature_len. destruct H as [[HR HS] Hl]. repeat split; auto. lia.
  - intros (R & S & h & -> & HR & HS & Hl). rewrite der_signature_len in Hl.
    rewrite IsValid_der_signature, HR, HS by assumption. apply Z.leb_le. lia.
Qed.

Lemma IsValidSignatureEncoding_iff_witness :
  IsValidSignatureEncoding (der_signature [0x00; 0x90] [0x01] 0x41) = true.
Proof.
  apply (IsValidSignatureEncoding_iff (der_signature [0x00; 0x90] [0x01] 0x41));
    [now apply bytes_okb|]. exists [0x00; 0x90], [0x01], 0x41. now vm_compute.
Defined.
End ScriptChecks.
