(* ===== verification/PubKey.v ===== *)
(** * Public keys (src/src/pubkey.h, src/src/pubkey.cpp)

    [CPubKey], a buffer of 65 bytes whose length is told by its first byte; the lax DER
    parser and the two checks of signatures built on it; extended public keys. libsecp256k1
    is a class of operations with the behaviour its header documents. *)

From S2P Require Import Prelude Endian Outcome BigInt Hash Serialize Opcodes Script ScriptChecks.

Module PubKey.
Local Open Scope outcome_scope.
Local Open Scope word_scope.
Import BigInt Hash Serialize Script ScriptChecks.

(** ** libsecp256k1 *)

Class Secp256k1 : Type := {
  secp_pubkey : Type;
  secp_signature : Type;
  (** [secp256k1_ecdsa_signature_parse_compact]: success, and the signature it always sets *)
  signature_parse_compact : bytes -> bool * secp_signature;
  (** [secp256k1_ecdsa_signature_normalize]: whether it was not normalized, and the result *)
  signature_normalize : secp_signature -> bool * secp_signature;
  (** [secp256k1_ec_pubkey_parse], [secp256k1_ec_pubkey_serialize] (compressed or not) *)
  ec_pubkey_parse : bytes -> option secp_pubkey;
  ec_pubkey_serialize : secp_pubkey -> bool -> bytes;
  (** [secp256k1_ecdsa_verify] *)
  ecdsa_verify : secp_signature -> bytes -> secp_pubkey -> bool;
  (** [secp256k1_ecdsa_recoverable_signature_parse_compact] followed by
      [secp256k1_ecdsa_recover] *)
  recover_compact : bytes -> Z -> bytes -> option secp_pubkey
}.

(** The order of the group. *)
Definition order : Z := 0xFFFFFFFFFFFFFFFFFFFFFFFFFFFFFFFEBAAEDCE6AF48A03BBFD25E8CD0364141.

(** A number as [k] bytes, the most significant first. *)
Definition be_encode (k : nat) (x : Z) : bytes := rev (le_encode k x).

(** What the header documents: the compact encoding is the 32-byte big-endian R followed by
    S, both below the order, a failed parse sets a signature that is like the encoding of
    zeros; lower-S means at most half the order; a serialized key has 33 bytes and header 2
    or 3, or 65 bytes and header 4, and is parsed to itself. *)
Class Secp256k1_Laws (K : Secp256k1) : Type := {
  signature_S : secp_signature -> Z;
  parse_compact_ok r s : 0 <= r < 2 ^ 256 -> 0 <= s < 2 ^ 256 ->
    fst (signature_parse_compact (be_encode 32 r ++ be_encode 32 s)) = (r <? order) && (s <? order);
  parse_compact_S r s : 0 <= r < order -> 0 <= s < order ->
    signature_S (snd (signature_parse_compact (be_encode 32 r ++ be_encode 32 s))) = s;
  normalize_high g : fst (signature_normalize g) = (order / 2 <? signature_S g);
  serialize_compressed k : exists h x,
    ec_pubkey_serialize k true = h :: x /\ length x = 32%nat /\ (h = 2 \/ h = 3) /\ bytes_ok x;
  serialize_uncompressed k : exists x,
    ec_pubkey_serialize k false = 4 :: x /\ length x = 64%nat /\ bytes_ok x;
  parse_serialize k c : ec_pubkey_parse (ec_pubkey_serialize k c) = Some k
}.

(** ** The lax DER parser *)

(** Positions in the input are the bytes from there on. *)

(** [while (lenbyte > 0 && input[pos] == 0)] *)
Fixpoint skip_zeros (lenbyte : Z) (rest : bytes) : Z * bytes :=
  match rest with
  | b :: r => if (0 <? lenbyte) && (b =? 0) then skip_zeros (lenbyte - 1) r else (lenbyte, rest)
  | [] => (lenbyte, rest)
  end.

(** [while (lenbyte > 0)]: the big-endian length in a [size_t] *)
Fixpoint read_length (lenbyte : nat) (rest : bytes) (rlen : Z) : Z * bytes :=
  match lenbyte, rest with
  | S k, b :: r => read_length k r (u64 (shl64 rlen 8 + b))
  | _, _ => (rlen, rest)
  end.

(** Tag, length and contents of an integer. *)
Definition parse_integer (rest : bytes) : option (bytes * bytes) :=
  match rest with
  | [] => None
  | tag :: rest =>
      if negb (tag =? 0x02) then None
      else
        match rest with
        | [] => None
        | lenbyte :: rest =>
            let length_and_rest :=
              if negb (lenbyte &&& 0x80 =? 0) then
                let lenbyte := lenbyte - 0x80 in
                if len rest <? lenbyte then None
                else
                  let (lenbyte, rest) := skip_zeros lenbyte rest in
                  if 8 <=? lenbyte then None
                  else Some (read_length (Z.to_nat lenbyte) rest 0)
              else Some (lenbyte, rest) in
            match length_and_rest with
            | None => None
            | Some (rlen, rest) =>
                if len rest <? rlen then None
                else Some (firstn (Z.to_nat rlen) rest, skipn (Z.to_nat rlen) rest)
            end
        end
  end.

(** [while (rlen > 0 && input[rpos] == 0)] *)
Fixpoint strip_zeros (r : bytes) : bytes :=
  match r with
  | b :: r' => if b =? 0 then strip_zeros r' else r
  | [] => []
  end.

(** The sequence header: the length is skipped, not checked. *)
Definition parse_sequence (input : bytes) : option bytes :=
  match input with
  | tag :: lenbyte :: rest =>
      if negb (tag =? 0x30) then None
      else if negb (lenbyte &&& 0x80 =? 0) then
        let lenbyte := lenbyte - 0x80 in
        if len rest <? lenbyte then None else Some (skipn (Z.to_nat lenbyte) rest)
      else Some rest
  | _ => None
  end.

Section Secp.
Context {K : Secp256k1}.

(** [memcpy(tmpsig + 32 - rlen, ...)] and [memcpy(tmpsig + 64 - slen, ...)] *)
Definition fill_sig (r s : bytes) : bytes :=
  let tmpsig := repeat 0 64 in
  let tmpsig := memcpy tmpsig (32 - length r) r in
  memcpy tmpsig (64 - length s) s.

(** [None] is [return 0]. *)
Definition ecdsa_signature_parse_der_lax (input : bytes) : option secp_signature :=
  match parse_sequence input with
  | None => None
  | Some rest =>
      match parse_integer rest with
      | None => None
      | Some (r, rest) =>
          match parse_integer rest with
          | None => None
          | Some (s, _) =>
              let r := strip_zeros r in
              let s := strip_zeros s in
              let overflow := (32 <? len r) || (32 <? len s) in
              let invalid := snd (signature_parse_compact (repeat 0 64)) in
              if overflow then Some invalid
              else
                let (ok, sig) := signature_parse_compact (fill_sig r s) in
                Some (if ok then sig else invalid)
          end
      end
  end.

(** ** CPubKey *)

(** The 65 bytes [vch]. *)
Definition CPubKey : Type := bytes.

Definition GetLen (chHeader : Z) : Z :=
  if (chHeader =? 2) || (chHeader =? 3) then 33
  else if (chHeader =? 4) || (chHeader =? 6) || (chHeader =? 7) then 65
  else 0.

Definition Invalidate (vch : CPubKey) : CPubKey := memcpy vch 0 [0xFF].

Definition Set_ (vch : CPubKey) (p : bytes) : CPubKey :=
  let n := match p with [] => 0 | h :: _ => GetLen h end in
  if negb (n =? 0) && (n =? len p) then memcpy vch 0 p else Invalidate vch.

(** The constructors; [buf] is what the memory held. *)
Definition CPubKey_of (buf p : bytes) : CPubKey := Set_ buf p.

Definition pk_size (vch : CPubKey) : Z := GetLen (nth 0 vch 0).
Definition pk_data (vch : CPubKey) : bytes := firstn (Z.to_nat (pk_size vch)) vch.
Definition IsValid (vch : CPubKey) : bool := 0 <? pk_size vch.
Definition IsCompressed (vch : CPubKey) : bool := pk_size vch =? 33.
Definition pk_eqb (a b : CPubKey) : bool :=
  (nth 0 a 0 =? nth 0 b 0) &&
  bytes_eqb (firstn (Z.to_nat (pk_size a)) a) (firstn (Z.to_nat (pk_size a)) b).

Definition GetID (vch : CPubKey) : bytes := Hash160 (pk_data vch).
Definition pk_GetHash (vch : CPubKey) : bytes := Hash1 (pk_data vch).

(** [Serialize], [Unserialize]: an oversized key is read byte by byte and dropped. *)
Definition pk_Serialize (vch : CPubKey) : option bytes :=
  wbind (WriteCompactSize (pk_size vch)) (Some (pk_data vch)).
Definition pk_Unserialize (vch : CPubKey) : reader CPubKey :=
  (n <- ReadCompactSize ;;
   let n := u32 n in
   if n <=? 65 then d <- read (Z.to_nat n) ;; rret (memcpy vch 0 d)
   else _ <- read (Z.to_nat n) ;; rret (Invalidate vch))%reader.

Definition IsFullyValid (vch : CPubKey) : bool :=
  if negb (IsValid vch) then false
  else match ec_pubkey_parse (pk_data vch) with Some _ => true | None => false end.

Definition Verify (vch : CPubKey) (hash vchSig : bytes) : bool :=
  if negb (IsValid vch) then false
  else
    match ec_pubkey_parse (pk_data vch) with
    | None => false
    | Some pubkey =>
        if len vchSig =? 0 then false
        else
          match ecdsa_signature_parse_der_lax vchSig with
          | None => false
          | Some sig =>
              let sig := snd (signature_normalize sig) in
              ecdsa_verify sig hash pubkey
          end
    end.

(** [CPubKey::CheckLowS] *)
Definition CheckLowS_sig (vchSig : bytes) : bool :=
  match ecdsa_signature_parse_der_lax vchSig with
  | None => false
  | Some sig => negb (fst (signature_normalize sig))
  end.

(** [RecoverCompact] and [Decompress]: the success and the changed key. *)
Definition RecoverCompact (vch : CPubKey) (hash vchSig : bytes) : bool * CPubKey :=
  if negb (len vchSig =? 65) then (false, vch)
  else
    let recid := (nth 0 vchSig 0 - 27) &&& 3 in
    let fComp := negb ((nth 0 vchSig 0 - 27) &&& 4 =? 0) in
    match recover_compact (skipn 1 vchSig) recid hash with
    | None => (false, vch)
    | Some pubkey => (true, Set_ vch (ec_pubkey_serialize pubkey fComp))
    end.

Definition Decompress (vch : CPubKey) : bool * CPubKey :=
  if negb (IsValid vch) then (false, vch)
  else
    match ec_pubkey_parse (pk_data vch) with
    | None => (false, vch)
    | Some pubkey => (true, Set_ vch (ec_pubkey_serialize pubkey false))
    end.

(** What the script checks use of this file; a key is made from the bytes of the stack. *)
#[export] Instance secp_PubKeyOps : PubKeyOps := {|
  CheckLowS := CheckLowS_sig;
  PubKey_Verify key hash sig := Verify (CPubKey_of (repeat 0 65) key) hash sig
|}.

(** ** Extended public keys *)

Record CExtPubKey := mkExt {
  nDepth : Z; vchFingerprint : bytes; nChild : Z; chaincode : bytes; pubkey : CPubKey }.

Definition BIP32_EXTKEY_SIZE : Z := 74.

Definition Encode (k : CExtPubKey) : outcome bytes :=
  let code := nDepth k :: vchFingerprint k ++
    [(nChild k >>> 24) &&& 0xFF; (nChild k >>> 16) &&& 0xFF; (nChild k >>> 8) &&& 0xFF; nChild k &&& 0xFF] ++
    chaincode k in
  assert_ (pk_size (pubkey k) =? 33) (Ok (code ++ pk_data (pubkey k))).

(** [buf] is what the key held before. *)
Definition Decode (buf : CPubKey) (code : bytes) : CExtPubKey :=
  mkExt (nth 0 code 0) (firstn 4 (skipn 1 code))
    (u32 (Z.shiftl (nth 5 code 0) 24 ||| Z.shiftl (nth 6 code 0) 16 ||| Z.shiftl (nth 7 code 0) 8 ||| nth 8 code 0))
    (firstn 32 (skipn 9 code)) (Set_ buf (firstn 33 (skipn 41 code))).

(** [CExtPubKey::Serialize], [Unserialize]; a wrong size throws. *)
Definition ext_Serialize (k : CExtPubKey) : outcome bytes :=
  let* size := or_throw std_exception (WriteCompactSize BIP32_EXTKEY_SIZE) in
  let* code := Encode k in
  Ok (size ++ code).
Definition ext_Unserialize (buf : CPubKey) : reader CExtPubKey :=
  (n <- ReadCompactSize ;;
   if negb (u32 n =? BIP32_EXTKEY_SIZE) then rfail
   else code <- read (Z.to_nat (u32 n)) ;; rret (Decode buf code))%reader.
End Secp.

(** ** Lemmas *)

Lemma le_decode_padded l k : le_decode (l ++ repeat 0 k) = le_decode l.
Proof.
  rewrite le_decode_app. replace (le_decode (repeat 0 k)) with 0; [lia|].
  induction k as [|k IH]; [reflexivity|]. cbn [repeat le_decode]. lia.
Qed.

Lemma le_encode_pad k l :
  bytes_ok l -> (length l <= k)%nat -> le_encode k (le_decode l) = l ++ repeat 0 (k - length l).
Proof.
  intros Hl Hk. rewrite <- (le_decode_padded l (k - length l)).
  rewrite <- (le_encode_decode (l ++ repeat 0 (k - length l))) at 2.
  - f_equal. rewrite length_app, repeat_length. lia.
  - apply bytes_ok_app. split; [exact Hl|]. apply Forall_forall. intros x Hx.
    apply repeat_spec in Hx as ->. unfold is_byte. lia.
Qed.

Lemma be_encode_pad k r :
  bytes_ok r -> (length r <= k)%nat -> be_encode k (be_decode r) = repeat 0 (k - length r) ++ r.
Proof.
  intros Hr Hk. unfold be_encode, be_decode. rewrite le_encode_pad.
  - rewrite rev_app_distr, rev_repeat, rev_involutive, length_rev. reflexivity.
  - apply Forall_rev. exact Hr.
  - now rewrite length_rev.
Qed.

Lemma fill_sig_eq r s :
  bytes_ok r -> bytes_ok s -> len r <= 32 -> len s <= 32 ->
  fill_sig r s = be_encode 32 (be_decode r) ++ be_encode 32 (be_decode s).
Proof.
  intros Hr Hs Lr Ls. unfold len in *. rewrite !be_encode_pad by (assumption || lia).
  unfold fill_sig, memcpy. replace (32 - length r + length r)%nat with 32%nat by lia.
  replace (64 - length s + length s)%nat with 64%nat by lia.
  rewrite firstn_repeat, Nat.min_l by lia. change (skipn 32 (repeat 0 64)) with (repeat 0 32).
  set (a := repeat 0 (32 - length r) ++ r).
  assert (La : length a = 32%nat) by (unfold a; rewrite length_app, repeat_length; lia).
  change (repeat 0 (32 - length r) ++ r ++ repeat 0 32) with (repeat 0 (32 - length r) ++ (r ++ repeat 0 32)).
  rewrite (app_assoc _ r). fold a.
  rewrite firstn_app, firstn_all2, La, firstn_repeat by lia.
  rewrite skipn_app, skipn_all2, La by lia. cbn [app]. rewrite skipn_all2 by (rewrite repeat_length; lia).
  rewrite app_nil_r, <- app_assoc. do 3 f_equal. lia.
Qed.

Lemma strip_zeros_spec r :
  bytes_ok r -> bytes_ok (strip_zeros r) /\ be_decode (strip_zeros r) = be_decode r /\
    (strip_zeros r <> [] -> 2 ^ (8 * (len (strip_zeros r) - 1)) <= be_decode r).
Proof.
  induction 1 as [|b r Hb Hr IH]; cbn [strip_zeros]; [repeat split; [constructor | intros []; reflexivity]|].
  assert (Hd : forall b, be_decode (b :: r) = 2 ^ (8 * len r) * b + be_decode r).
  { intros b'. unfold be_decode. cbn [rev]. rewrite le_decode_app, len_rev. cbn [le_decode]. lia. }
  destruct (Z.eqb_spec b 0) as [->|Hn].
  - rewrite Hd, Z.mul_0_r. exact IH.
  - split; [now constructor|]. split; [reflexivity|]. intros _. rewrite Hd, len_cons.
    replace (1 + len r - 1) with (len r) by lia. unfold is_byte in Hb.
    assert (0 <= be_decode r) by (apply le_decode_range, Forall_rev, Hr).
    assert (0 < 2 ^ (8 * len r)) by (apply Z.pow_pos_nonneg; pose proof (len_nonneg r); lia). nia.
Qed.

Lemma strip_zeros_short r :
  bytes_ok r -> (32 <? len (strip_zeros r)) = (2 ^ 256 <=? be_decode r).
Proof.
  intros Hr. destruct (strip_zeros_spec r Hr) as (Hok & Hv & Hlow).
  pose proof (le_decode_range (rev (strip_zeros r)) (Forall_rev Hok)) as Hup.
  fold (be_decode (strip_zeros r)) in Hup. rewrite len_rev, Hv in Hup.
  destruct (Z.ltb_spec 32 (len (strip_zeros r))) as [H|H]; symmetry.
  - apply Z.leb_le. etransitivity; [|apply Hlow; intros E; rewrite E in H; cbn in H; lia].
    apply Z.pow_le_mono_r; lia.
  - apply Z.leb_gt. eapply Z.lt_le_trans; [apply Hup|]. apply Z.pow_le_mono_r; lia.
Qed.

Lemma parse_integer_strict r rest :
  bytes_ok (len r :: r) -> len r < 128 -> parse_integer (0x02 :: len r :: r ++ rest) = Some (r, rest).
Proof.
  intros Hok Hr. inversion Hok as [|? ? Hl _]; subst. cbn [parse_integer]. change (0x02 =? 0x02) with true.
  cbn [negb]. rewrite byte_land_80 by exact Hl. destruct (Z.ltb_spec (len r) 128); [|lia]. cbn [negb].
  rewrite len_app. destruct (Z.ltb_spec (len r + len rest) (len r)); [pose proof (len_nonneg rest); lia|].
  replace (Z.to_nat (len r)) with (length r) by (unfold len; lia).
  now rewrite firstn_app, firstn_all, Nat.sub_diag, app_nil_r, skipn_app, skipn_all, Nat.sub_diag.
Qed.

Lemma der_signature_ok R S h :
  bytes_ok (der_signature R S h) -> bytes_ok (len R :: R) /\ bytes_ok (len S :: S).
Proof.
  unfold der_signature. intros H. do 3 (apply Forall_inv_tail in H).
  change (bytes_ok ((len R :: R) ++ (2 :: (len S :: S) ++ [h]))) in H. apply bytes_ok_app in H as [H1 H2].
  split; [exact H1|]. apply Forall_inv_tail in H2. change (bytes_ok ((len S :: S) ++ [h])) in H2.
  now apply bytes_ok_app in H2.
Qed.

Section Signatures.
Context {K : Secp256k1} {L : Secp256k1_Laws K}.

Definition invalid_signature : secp_signature := snd (signature_parse_compact (repeat 0 64)).

(** The signature with the integers [r] and [s]. *)
Definition signature_of (r s : Z) : secp_signature :=
  if (r <? order) && (s <? order) then snd (signature_parse_compact (be_encode 32 r ++ be_encode 32 s))
  else invalid_signature.

Lemma signature_S_of r s :
  0 <= r -> 0 <= s -> signature_S (signature_of r s) = if (r <? order) && (s <? order) then s else 0.
Proof.
  intros Hr Hs. unfold signature_of. destruct (Z.ltb_spec r order), (Z.ltb_spec s order); cbn [andb].
  1: { apply parse_compact_S; lia. }
  all: unfold invalid_signature; change (repeat 0 64) with (be_encode 32 0 ++ be_encode 32 0);
    apply parse_compact_S; unfold order; lia.
Qed.

Lemma lax_of_strict R S h :
  bytes_ok (der_signature R S h) -> len R + len S <= 66 ->
  ecdsa_signature_parse_der_lax (removelast (der_signature R S h)) =
  Some (signature_of (be_decode R) (be_decode S)).
Proof.
  intros Hok Hl. pose proof (len_nonneg R). pose proof (len_nonneg S).
  destruct (der_signature_ok R S h Hok) as [HR HS].
  replace (removelast (der_signature R S h))
    with (0x30 :: (len R + len S + 4) :: (0x02 :: len R :: R ++ (0x02 :: len S :: S ++ []))).
  2:{ replace (der_signature R S h)
        with ((0x30 :: (len R + len S + 4) :: 0x02 :: len R :: R ++ 0x02 :: len S :: S) ++ [h])
        by (unfold der_signature; cbn [app]; now rewrite <- app_assoc).
      rewrite removelast_last, app_nil_r. reflexivity. }
  unfold ecdsa_signature_parse_der_lax, parse_sequence. change (0x30 =? 0x30) with true. cbn [negb].
  rewrite byte_land_80 by (unfold is_byte; lia). destruct (Z.ltb_spec (len R + len S + 4) 128); [|lia]. cbn [negb].
  rewrite !parse_integer_strict by (assumption || lia).
  assert (HR' : bytes_ok R) by now inversion HR. assert (HS' : bytes_ok S) by now inversion HS.
  destruct (strip_zeros_spec R HR') as (OR & VR & _), (strip_zeros_spec S HS') as (OS & VS & _).
  pose proof (strip_zeros_short R HR') as LR. pose proof (strip_zeros_short S HS') as LS.
  assert (0 <= be_decode R) by (apply le_decode_range, Forall_rev, HR').
  assert (0 <= be_decode S) by (apply le_decode_range, Forall_rev, HS').
  assert (order < 2 ^ 256) by (unfold order; lia).
  unfold signature_of. rewrite LR, LS. fold invalid_signature.
  destruct (Z.leb_spec (2 ^ 256) (be_decode R)) as [BR|BR];
    [destruct (Z.ltb_spec (be_decode R) order); [lia | reflexivity]|].
  destruct (Z.leb_spec (2 ^ 256) (be_decode S)) as [BS|BS];
    [destruct (Z.ltb_spec (be_decode S) order); [lia | now rewrite andb_false_r]|].
  apply Z.ltb_ge in LR, LS. cbn [orb]. rewrite fill_sig_eq, VR, VS by assumption.
  pose proof (parse_compact_ok (be_decode R) (be_decode S) ltac:(lia) ltac:(lia)) as Ho.
  destruct (signature_parse_compact _) as [okb g]. cbn [fst snd] in *. now rewrite Ho.
Qed.

(** a signature the strict rules accept, without its hash type, is read by the lax
    parser as exactly its two DER integers, so that strict signatures mean the same before
    and after the parser; and the low-S rule accepts exactly those whose S is at most half
    the order of the group or that the library refuses anyway. *)
Theorem strict_signature_parsed (sig : bytes) :
  bytes_ok sig -> IsValidSignatureEncoding sig = true ->
  exists R S h, sig = der_signature R S h /\
    ecdsa_signature_parse_der_lax (removelast sig) = Some (signature_of (be_decode R) (be_decode S)) /\
    IsLowDERSignature sig =
      if (be_decode R <? order) && (be_decode S <? order) && (order / 2 <? be_decode S)
      then Err SCRIPT_ERR_SIG_HIGH_S else Ok tt.
Proof.
  intros Hok Hv. destruct (IsValid_shape sig Hok Hv) as (R & S & h & ->). exists R, S, h.
  pose proof Hv as Hp. rewrite IsValid_der_signature, !andb_true_iff, Z.leb_le in Hp by assumption.
  destruct Hp as [[IR IS] Hl]. split; [reflexivity|].
  pose proof (lax_of_strict R S h Hok Hl) as Hlax. split; [exact Hlax|].
  unfold IsLowDERSignature. rewrite Hv. cbn [negb error_if]. unfold CheckLowS, secp_PubKeyOps, CheckLowS_sig.
  rewrite Hlax. rewrite normalize_high, negb_involutive.
  destruct (der_signature_ok R S h Hok) as [HR HS].
  rewrite signature_S_of by (apply le_decode_range, Forall_rev; eapply Forall_inv_tail; eassumption).
  now destruct ((be_decode R <? order) && (be_decode S <? order)).
Qed.
End Signatures.

(** ** Keys *)

(** The bytes of a key: the header tells their number. *)
Definition key_bytes (p : bytes) : Prop :=
  match p with [] => False | h :: _ => 0 < GetLen h /\ GetLen h = len p end.

Lemma GetLen_range h : 0 <= GetLen h <= 65.
Proof. unfold GetLen. repeat match goal with |- context [if ?c then _ else _] => destruct c end; lia. Qed.

Lemma key_of_memcpy buf p : key_bytes p -> pk_size (memcpy buf 0 p) = len p /\ pk_data (memcpy buf 0 p) = p.
Proof.
  destruct p as [|h x]; [intros []|]. intros [Hp Hl].
  assert (Hs : pk_size (memcpy buf 0 (h :: x)) = len (h :: x)) by exact Hl. split; [exact Hs|].
  unfold pk_data. rewrite Hs. unfold memcpy. cbn [firstn app Nat.add].
  replace (Z.to_nat (len (h :: x))) with (length (h :: x)) by (unfold len; lia).
  change (h :: x ++ skipn (length (h :: x)) buf) with ((h :: x) ++ skipn (length (h :: x)) buf).
  now rewrite firstn_app, firstn_all, Nat.sub_diag, app_nil_r.
Qed.

Lemma Set_key buf p : key_bytes p -> Set_ buf p = memcpy buf 0 p.
Proof.
  unfold Set_. destruct p as [|h x]; [intros []|]. intros [Hp Hl].
  destruct (Z.eqb_spec (GetLen h) 0); [lia|]. now destruct (Z.eqb_spec (GetLen h) (len (h :: x))).
Qed.

Lemma Set_invalid buf p : length buf = 65%nat -> ~ key_bytes p -> IsValid (Set_ buf p) = false.
Proof.
  intros Hb Hn. unfold Set_. destruct (negb _ && _) eqn:E; [|now destruct buf].
  exfalso. apply Hn. destruct p as [|h x]; [discriminate|]. apply andb_true_iff in E as [E1 E2].
  apply negb_true_iff, Z.eqb_neq in E1. apply Z.eqb_eq in E2. pose proof (GetLen_range h). cbn [key_bytes]. lia.
Qed.

Section Keys.
Context {K : Secp256k1} {L : Secp256k1_Laws K}.

Lemma serialize_key_bytes k c : key_bytes (ec_pubkey_serialize k c).
Proof.
  destruct c.
  - destruct (serialize_compressed k) as (h & x & -> & Hl & Hh & _). cbn [key_bytes].
    rewrite len_cons. unfold len. rewrite Hl. now destruct Hh as [-> | ->].
  - destruct (serialize_uncompressed k) as (x & -> & Hl & _). cbn [key_bytes].
    rewrite len_cons. unfold len. now rewrite Hl.
Qed.

(** a key made from bytes is valid exactly when the header byte fits their number, and
    then it is these bytes again, directly and through a stream, whatever the buffer held;
    a decompressed key is fully valid, has 65 bytes and is the same point. *)
Theorem keys_roundtrip (buf buf' p rest : bytes) :
  length buf = 65%nat -> bytes_ok p -> bytes_ok rest ->
  (IsValid (CPubKey_of buf p) = true <-> key_bytes p) /\
  (key_bytes p ->
   pk_data (CPubKey_of buf p) = p /\
   (exists s, pk_Serialize (CPubKey_of buf p) = Some s /\
      pk_Unserialize buf' (s ++ rest) = Some (memcpy buf' 0 p, rest) /\ pk_data (memcpy buf' 0 p) = p) /\
   forall point, ec_pubkey_parse p = Some point ->
     fst (Decompress (CPubKey_of buf p)) = true /\
     let u := snd (Decompress (CPubKey_of buf p)) in
     pk_size u = 65 /\ IsFullyValid u = true /\ ec_pubkey_parse (pk_data u) = Some point).
Proof.
  intros Hb Hp Hr. unfold CPubKey_of. split.
  { split; [intros Hv | intros Hk; rewrite Set_key by exact Hk; unfold IsValid].
    - destruct p as [|h x]; [rewrite Set_invalid in Hv by (cbn; tauto); discriminate|].
      cbn [key_bytes]. destruct (Z.eq_dec (GetLen h) (len (h :: x))) as [E|E].
      + rewrite E, len_cons. pose proof (len_nonneg x). lia.
      + rewrite Set_invalid in Hv; [discriminate | assumption | cbn [key_bytes]; tauto].
    - destruct (key_of_memcpy buf p Hk) as [-> _]. destruct p as [|h x]; [destruct Hk|].
      rewrite len_cons. apply Z.ltb_lt. pose proof (len_nonneg x). lia. }
  intros Hk. rewrite Set_key by exact Hk. destruct (key_of_memcpy buf p Hk) as [Hs Hd].
  assert (H65 : 0 < len p <= 65).
  { destruct p as [|h x]; [destruct Hk|]. destruct Hk as [H0 H1]. pose proof (GetLen_range h). lia. }
  split; [exact Hd|]. split.
  - destruct (WriteCompactSize (len p)) as [sz|] eqn:Ez.
    2:{ exfalso. unfold WriteCompactSize, MAX_SIZE in Ez. destruct (Z.ltb_spec 0xffffffff (len p)); [lia|discriminate]. }
    exists (sz ++ p). unfold pk_Serialize. rewrite Hs, Ez, Hd. split; [reflexivity|].
    split; [|apply (key_of_memcpy buf' p Hk)].
    unfold pk_Unserialize, rbind. rewrite <- app_assoc, (ReadCompactSize_Write _ _ _ (len_nonneg p) Ez).
    rewrite u32_small by lia. destruct (Z.leb_spec (len p) 65); [|lia].
    rewrite read_app by (unfold len; lia). reflexivity.
  - intros point Hpt. unfold Decompress, IsValid. rewrite Hs, Hd, Hpt.
    destruct (Z.ltb_spec 0 (len p)); [|lia]. cbn [negb fst snd]. split; [reflexivity|]. cbv zeta.
    pose proof (serialize_key_bytes point false) as Hk'. rewrite Set_key by exact Hk'.
    destruct (key_of_memcpy (memcpy buf 0 p) _ Hk') as [S1 S2].
    destruct (serialize_uncompressed point) as (x & Ex & Hx & _).
    assert (E65 : pk_size (memcpy (memcpy buf 0 p) 0 (ec_pubkey_serialize point false)) = 65)
      by (rewrite S1, Ex, len_cons; unfold len; now rewrite Hx).
    unfold IsFullyValid, IsValid. rewrite S2, parse_serialize, E65. auto.
Qed.
End Keys.

(** ** Extended keys *)

Definition ext_valid (k : CExtPubKey) : Prop :=
  is_byte (nDepth k) /\ length (vchFingerprint k) = 4%nat /\ 0 <= nChild k < 2 ^ 32 /\
  length (chaincode k) = 32%nat /\ length (pubkey k) = 65%nat /\ pk_size (pubkey k) = 33.

(** The four bytes of the child number are its big-endian encoding. *)
Lemma nChild_bytes n :
  0 <= n < 2 ^ 32 ->
  u32 (Z.shiftl ((n >>> 24) &&& 0xFF) 24 ||| Z.shiftl ((n >>> 16) &&& 0xFF) 16 |||
       Z.shiftl ((n >>> 8) &&& 0xFF) 8 ||| (n &&& 0xFF)) = n.
Proof.
  intros Hn. rewrite !land_255, !Z.shiftr_div_pow2 by lia.
  set (a := n / 2 ^ 24 mod 256). set (b := n / 2 ^ 16 mod 256). set (c := n / 2 ^ 8 mod 256). set (d := n mod 256).
  assert (0 <= a < 256 /\ 0 <= b < 256 /\ 0 <= c < 256 /\ 0 <= d < 256) as (Ha & Hb & Hc & Hd)
    by (repeat split; apply Z.mod_pos_bound; lia).
  assert (En : n = 2 ^ 24 * a + 2 ^ 16 * b + 2 ^ 8 * c + d).
  { unfold a, b, c, d. pose proof (Z.div_mod n 256). pose proof (Z.div_mod (n / 256) 256).
    pose proof (Z.div_mod (n / 65536) 256). pose proof (Z.mod_small (n / 2 ^ 24) 256).
    replace (n / 2 ^ 16) with (n / 65536) by reflexivity. replace (n / 2 ^ 8) with (n / 256) by reflexivity.
    replace (n / 256 / 256) with (n / 65536) in * by (rewrite Z.div_div by lia; reflexivity).
    replace (n / 65536 / 256) with (n / 2 ^ 24) in * by (rewrite Z.div_div by lia; reflexivity).
    assert (0 <= n / 2 ^ 24 < 256) by (split; [apply Z.div_pos | apply Z.div_lt_upper_bound]; lia). lia. }
  rewrite <- Z.lor_assoc, <- Z.lor_assoc.
  replace (Z.lor (Z.shiftl c 8) d) with (d + 2 ^ 8 * c) by (rewrite Z.lor_comm; symmetry; apply lor_shiftl_add; lia).
  replace (Z.lor (Z.shiftl b 16) (d + 2 ^ 8 * c)) with (d + 2 ^ 8 * c + 2 ^ 16 * b)
    by (rewrite Z.lor_comm; symmetry; apply lor_shiftl_add; lia).
  rewrite Z.lor_comm, lor_shiftl_add by lia. rewrite u32_small by lia. lia.
Qed.

(** an extended public key written to a stream is read back: every field is the same,
    and so are the bytes of the key; a key that is not compressed fails the assertion. *)
Theorem extkey_roundtrip (k : CExtPubKey) (buf rest : bytes) :
  ext_valid k ->
  exists p, ext_Serialize k = Ok p /\ len p = 1 + BIP32_EXTKEY_SIZE /\
    exists k', ext_Unserialize buf (p ++ rest) = Some (k', rest) /\
      nDepth k' = nDepth k /\ vchFingerprint k' = vchFingerprint k /\ nChild k' = nChild k /\
      chaincode k' = chaincode k /\ pk_data (pubkey k') = pk_data (pubkey k).
Proof.
  destruct k as [d f n c key]. unfold ext_valid. cbn [nDepth vchFingerprint nChild chaincode pubkey].
  intros (Hd & Hf & Hn & Hc & Hk & H33).
  set (data := pk_data key). assert (Hdl : length data = 33%nat)
    by (unfold data, pk_data; rewrite H33, length_firstn, Hk; reflexivity).
  assert (Hkb : key_bytes data).
  { unfold data, pk_data in *. destruct key as [|h x]; [discriminate|]. rewrite H33.
    change (Z.to_nat 33) with (S 32). rewrite firstn_cons. cbn [key_bytes].
    unfold pk_size in H33. cbn [nth] in H33. rewrite len_cons, H33. unfold len. rewrite length_firstn. cbn [length] in Hk. lia. }
  set (nb := [(n >>> 24) &&& 0xFF; (n >>> 16) &&& 0xFF; (n >>> 8) &&& 0xFF; n &&& 0xFF]).
  set (code := (d :: f ++ nb ++ c) ++ data).
  assert (Hcl : length code = 74%nat)
    by (unfold code; rewrite length_app; cbn [length]; rewrite !length_app, Hf, Hc, Hdl; reflexivity).
  exists (74 :: code). split; [|split].
  - unfold ext_Serialize, Encode. cbn [nDepth vchFingerprint nChild chaincode pubkey]. rewrite H33. reflexivity.
  - rewrite len_cons. unfold len. rewrite Hcl. reflexivity.
  - exists (Decode buf code). unfold ext_Unserialize, rbind. change (74 :: code) with ([74] ++ code).
    rewrite <- app_assoc, (ReadCompactSize_Write 74 [74]) by (lia || reflexivity).
    change (negb (u32 74 =? BIP32_EXTKEY_SIZE)) with false. cbv beta iota. change (Z.to_nat (u32 74)) with 74%nat.
    rewrite read_app by exact Hcl. split; [reflexivity|]. unfold Decode. cbn [nDepth vchFingerprint nChild chaincode pubkey].
    destruct f as [|f1 [|f2 [|f3 [|f4 [|]]]]]; try discriminate. unfold code, nb. cbn [app nth skipn firstn].
    rewrite nChild_bytes by exact Hn. repeat split.
    + change (firstn 32 (c ++ data) = c). rewrite firstn_app, firstn_all2, Hc, Nat.sub_diag, app_nil_r by lia. reflexivity.
    + change (pk_data (Set_ buf (firstn 33 (skipn 32 (c ++ data)))) = data).
      rewrite skipn_app, skipn_all2, Hc by lia. cbn [Nat.sub skipn app]. rewrite firstn_all2 by lia.
      rewrite Set_key by exact Hkb. apply key_of_memcpy, Hkb.
Qed.

(** ** Concrete inputs *)

(** A library with one point, whose signatures are pairs of numbers. *)
Definition sample_sig_parse (p : bytes) : bool * (Z * Z) :=
  let r := be_decode (firstn 32 p) in
  let s := be_decode (skipn 32 p) in
  if (r <? order) && (s <? order) then (true, (r, s)) else (false, (0, 0)).

Definition sample_x : bytes := repeat 5 32.
Lemma sample_x_ok : length sample_x = 32%nat /\ bytes_ok sample_x.
Proof. split; [reflexivity | now apply bytes_okb]. Qed.

#[local] Instance sample_secp : Secp256k1 := {|
  secp_pubkey := unit;
  secp_signature := Z * Z;
  signature_parse_compact := sample_sig_parse;
  signature_normalize g := (order / 2 <? snd g, (fst g, if order / 2 <? snd g then order - snd g else snd g));
  ec_pubkey_parse p :=
    if bytes_eqb p (3 :: sample_x) || bytes_eqb p (4 :: sample_x ++ sample_x) then Some tt else None;
  ec_pubkey_serialize _ c := if c then 3 :: sample_x else 4 :: sample_x ++ sample_x;
  ecdsa_verify g hash _ := be_decode hash =? snd g;
  recover_compact _ _ _ := Some tt
|}.

Lemma be_decode_encode k x : be_decode (be_encode k x) = x mod 2 ^ (8 * Z.of_nat k).
Proof. unfold be_decode, be_encode. now rewrite rev_involutive, le_decode_encode. Qed.

Lemma sample_parse r s :
  0 <= r < 2 ^ 256 -> 0 <= s < 2 ^ 256 ->
  sample_sig_parse (be_encode 32 r ++ be_encode 32 s) =
  if (r <? order) && (s <? order) then (true, (r, s)) else (false, (0, 0)).
Proof.
  intros Hr Hs. unfold sample_sig_parse.
  assert (Hl : forall x, length (be_encode 32 x) = 32%nat) by (intros; unfold be_encode; now rewrite length_rev, length_le_encode).
  rewrite firstn_app, firstn_all2, Hl, Nat.sub_diag, app_nil_r, skipn_app, skipn_all2, Hl by (rewrite Hl; lia).
  cbn [Nat.sub skipn app]. rewrite !be_decode_encode, !Z.mod_small by lia. reflexivity.
Qed.

#[local] Instance sample_secp_laws : Secp256k1_Laws sample_secp.
Proof.
  refine {| signature_S := fun g : @secp_signature sample_secp => snd (g : Z * Z) |}.
  - intros r s Hr Hs. cbn [signature_parse_compact sample_secp]. rewrite sample_parse by assumption.
    now destruct (_ && _).
  - intros r s Hr Hs. cbn [signature_parse_compact sample_secp].
    assert (order < 2 ^ 256) by (unfold order; lia). rewrite sample_parse by lia.
    destruct (Z.ltb_spec r order), (Z.ltb_spec s order); try lia. reflexivity.
  - reflexivity.
  - intros k. exists 3, sample_x. repeat split; auto. apply sample_x_ok.
  - intros k. exists (sample_x ++ sample_x). repeat split. apply bytes_ok_app. split; apply sample_x_ok.
  - intros [] []; reflexivity.
Defined.

Definition sample_sig : bytes := der_signature [1; 2] [0x7f] 0x41.

Lemma strict_signature_parsed_witness :
  ecdsa_signature_parse_der_lax (removelast sample_sig) = Some (258, 127) /\
  IsLowDERSignature sample_sig = Ok tt.
Proof.
  destruct (strict_signature_parsed sample_sig (bytes_okb sample_sig eq_refl) eq_refl) as (R & S & h & E & -> & ->).
  assert (R = [1; 2] /\ S = [0x7f]) as [-> ->]; [|split; vm_compute; reflexivity].
  unfold sample_sig, der_signature in E. apply (f_equal (@tl Z)), (f_equal (@tl Z)), (f_equal (@tl Z)) in E.
  cbn [tl] in E. assert (HR : length R = 2%nat) by (apply (f_equal (hd 0)) in E; unfold len in E; cbn [hd length] in E; lia).
  destruct R as [|r1 [|r2 [|]]]; try discriminate HR.
  cbn [app] in E. assert (HS : length S = 1%nat)
    by (apply (f_equal (fun l => nth 4 l 0)) in E; unfold len in E; cbn [nth length] in E; lia).
  destruct S as [|s1 [|]]; try discriminate HS.
  cbn [app] in E. split; congruence.
Defined.

Lemma keys_roundtrip_witness :
  pk_data (CPubKey_of (repeat 9 65) (3 :: sample_x)) = 3 :: sample_x /\
  fst (Decompress (CPubKey_of (repeat 9 65) (3 :: sample_x))) = true.
Proof.
  destruct (keys_roundtrip (repeat 9 65) (repeat 7 65) (3 :: sample_x) [] eq_refl
    (bytes_okb (3 :: sample_x) eq_refl) (bytes_okb [] eq_refl)) as [_ H].
  destruct (H (conj eq_refl eq_refl)) as (H1 & _ & H2). split; [exact H1 | now apply (H2 tt)].
Defined.

Lemma extkey_roundtrip_witness :
  exists p, ext_Serialize (mkExt 1 [1; 2; 3; 4] 7 sample_x (CPubKey_of (repeat 9 65) (3 :: sample_x))) = Ok p /\
    len p = 75.
Proof.
  destruct (extkey_roundtrip (mkExt 1 [1; 2; 3; 4] 7 sample_x (CPubKey_of (repeat 9 65) (3 :: sample_x))) [] [])
    as (p & E & Hl & _); [|now exists p].
  unfold ext_valid. cbn [nDepth vchFingerprint nChild chaincode pubkey]. unfold is_byte. repeat split; lia.
Defined.
End PubKey.
