(* ===== verification/SigHash.v ===== *)
(** * Signature hashes (src/src/script/interpreter.cpp)

    [CTransactionSignatureSerializer], which writes a transaction with the changes a
    signature hash type asks for, the hashes of the parts of a transaction with their cache
    [PrecomputedTransactionData], and [SignatureHash] with its old and its new digest. *)

From S2P Require Import Prelude Endian Outcome Hasher Sha256 Hash Opcodes Script Amount Serialize.
From S2P Require Import Transaction ScriptChecks.

Module SigHash.
Local Open Scope outcome_scope.
Import Sha256 Hash Script Amount Serialize Transaction ScriptChecks.

(** The bytes an object adds to a stream; an exception of the serialization is thrown. *)
Definition ser {A} (c : codec A) (x : A) : outcome bytes := or_throw std_exception (Serialize c x).

(** Bytes written to a hasher as they are. *)
Definition stream_write (ss : CHashWriter) (p : bytes) : CHashWriter :=
  option_map (fun ctx => CHash256_Write ctx p) ss.

(** [for (unsigned int i = 0; i < n; i++) f(i);] from [i] on *)
Fixpoint ser_range (f : Z -> outcome bytes) (n : nat) (i : Z) : outcome bytes :=
  match n with
  | O => Ok []
  | S n =>
      let* a := f i in
      let* b := ser_range f n (i + 1) in
      Ok (a ++ b)
  end.

(** ** The old serializer *)

(** Where [GetOp2] leaves the iterator when it fails. *)
Definition GetOp2_stop (pc : bytes) : bytes :=
  match pc with
  | [] => []
  | opcode :: pc =>
      if opcode <? OP_PUSHDATA1 then pc
      else if opcode =? OP_PUSHDATA1 then if len pc <? 1 then pc else skipn 1 pc
      else if opcode =? OP_PUSHDATA2 then if len pc <? 2 then pc else skipn 2 pc
      else if len pc <? 4 then pc else skipn 4 pc
  end.

(** The first loop of [SerializeScriptCode]. *)
Fixpoint count_separators (fuel : nat) (it : bytes) (nCodeSeparators : Z) : Z :=
  match fuel with
  | O => nCodeSeparators
  | S fuel =>
      match GetOp2 it with
      | None => nCodeSeparators
      | Some (opcode, _, it) =>
          count_separators fuel it
            (if opcode =? OP_CODESEPARATOR then u32 (nCodeSeparators + 1) else nCodeSeparators)
      end
  end.

(** The second loop and the write after it: the bytes written. *)
Fixpoint write_pieces (fuel : nat) (itBegin it : bytes) : bytes :=
  match fuel with
  | O => []
  | S fuel =>
      match GetOp2 it with
      | Some (opcode, _, it) =>
          if opcode =? OP_CODESEPARATOR then
            firstn (length itBegin - length it - 1) itBegin ++ write_pieces fuel it it
          else write_pieces fuel itBegin it
      | None =>
          let it := GetOp2_stop it in
          match itBegin with
          | [] => []
          | _ => firstn (length itBegin - length it) itBegin
          end
      end
  end.

Section Serializer.
Context (txTo : CTransaction) (scriptCode : bytes) (nIn : Z) (sigHashType : SigHashType).

Definition SerializeScriptCode : outcome bytes :=
  let fuel := S (length scriptCode) in
  let nCodeSeparators := count_separators fuel scriptCode 0 in
  let* size := ser compact_codec (u64 (len scriptCode - nCodeSeparators)) in
  Ok (size ++ write_pieces fuel scriptCode scriptCode).

(** [txTo.vin[nInput]], [txTo.vout[nOutput]] *)
Definition vin_at (nInput : Z) : outcome CTxIn := or_abort (nth_error (vin txTo) (Z.to_nat nInput)).
Definition vout_at (nOutput : Z) : outcome CTxOut := or_abort (nth_error (vout txTo) (Z.to_nat nOutput)).

Definition is_single : bool := getBaseType sigHashType =? SIGHASH_SINGLE.
Definition is_none : bool := getBaseType sigHashType =? SIGHASH_NONE.

Definition SerializeInput (nInput : Z) : outcome bytes :=
  let nInput := if hasAnyoneCanPay sigHashType then nIn else nInput in
  let* i := vin_at nInput in
  let* p := ser COutPoint_codec (prevout i) in
  let* s := if negb (nInput =? nIn) then ser bytes_codec [] else SerializeScriptCode in
  let* q :=
    if negb (nInput =? nIn) && (is_single || is_none) then ser (int_codec 4) 0
    else ser (uint_codec 4) (nSequence i) in
  Ok (p ++ s ++ q).

Definition SerializeOutput (nOutput : Z) : outcome bytes :=
  if is_single && negb (nOutput =? nIn) then ser CTxOut_codec CTxOut_null
  else let* o := vout_at nOutput in ser CTxOut_codec o.

(** [CTransactionSignatureSerializer::Serialize] *)
Definition Serialize_txTmp : outcome bytes :=
  let* v := ser (int_codec 4) (nVersion txTo) in
  let nInputs := if hasAnyoneCanPay sigHashType then 1 else u32 (len (vin txTo)) in
  let* ni := ser compact_codec nInputs in
  let* ins := ser_range SerializeInput (Z.to_nat nInputs) 0 in
  let nOutputs :=
    if is_none then 0 else if is_single then u32 (nIn + 1) else u32 (len (vout txTo)) in
  let* no := ser compact_codec nOutputs in
  let* outs := ser_range SerializeOutput (Z.to_nat nOutputs) 0 in
  let* l := ser (uint_codec 4) (nLockTime txTo) in
  Ok (v ++ ni ++ ins ++ no ++ outs ++ l).
End Serializer.

(** ** The hashes of the parts *)

Definition GetPrevoutHash (txTo : CTransaction) : option bytes :=
  GetHash (fold_left (fun ss i => stream_out ss COutPoint_codec (prevout i)) (vin txTo) CHashWriter_new).
Definition GetSequenceHash (txTo : CTransaction) : option bytes :=
  GetHash (fold_left (fun ss i => stream_out ss (uint_codec 4) (nSequence i)) (vin txTo) CHashWriter_new).
Definition GetOutputsHash (txTo : CTransaction) : option bytes :=
  GetHash (fold_left (fun ss o => stream_out ss CTxOut_codec o) (vout txTo) CHashWriter_new).
Definition GetOutputsSha256 (txTo : CTransaction) : option bytes :=
  GetSingleHash (fold_left (fun ss iout =>
    let ss := stream_out ss (int_codec 8) (nValue iout) in
    stream_hash ss (SerializeSingleHash_OpNoCSize (scriptPubKey iout))) (vout txTo) CHashWriter_new).
Definition GetInputsSha256 (txTo : CTransaction) : option bytes :=
  GetSingleHash (fold_left (fun ss iin =>
    let ss := stream_out ss COutPoint_codec (prevout iin) in
    stream_out ss (uint_codec 4) (nSequence iin)) (vin txTo) CHashWriter_new).

Record PrecomputedTransactionData := mkData {
  hashPrevouts : bytes; hashSequence : bytes; hashOutputs : bytes;
  Sha256Inputs : bytes; Sha256Outputs : bytes }.

(** The constructor. *)
Definition Precompute (txTo : CTransaction) : outcome PrecomputedTransactionData :=
  let* p := or_throw std_exception (GetPrevoutHash txTo) in
  let* q := or_throw std_exception (GetSequenceHash txTo) in
  let* o := or_throw std_exception (GetOutputsHash txTo) in
  let* i := or_throw std_exception (GetInputsSha256 txTo) in
  let* j := or_throw std_exception (GetOutputsSha256 txTo) in
  Ok (mkData p q o i j).

(** [cache ? cache->field : compute(txTo)] *)
Definition cached (cache : option PrecomputedTransactionData) (field : PrecomputedTransactionData -> bytes)
    (compute : option bytes) : outcome bytes :=
  match cache with
  | Some c => Ok (field c)
  | None => or_throw std_exception compute
  end.

(** ** SignatureHash *)

Definition uint256_one : bytes := 1 :: repeat 0 31.

(** The digest of the fork. *)
Definition SignatureHash_forkid (scriptCode : bytes) (txTo : CTransaction) (nIn : Z)
    (sigHashType : SigHashType) (amount : Amount) (cache : option PrecomputedTransactionData)
    : outcome bytes :=
  let base := negb (is_single sigHashType) && negb (is_none sigHashType) in
  let acp := hasAnyoneCanPay sigHashType in
  let* hashPrevouts :=
    if negb acp then cached cache hashPrevouts (GetPrevoutHash txTo) else Ok uint256_zero in
  let* hashSequence :=
    if negb acp && base then cached cache hashSequence (GetSequenceHash txTo) else Ok uint256_zero in
  let* hashOutputs :=
    if base then cached cache hashOutputs (GetOutputsHash txTo)
    else if is_single sigHashType && (nIn <? len (vout txTo)) then
      let* o := vout_at txTo nIn in
      or_throw std_exception (GetHash (stream_out CHashWriter_new CTxOut_codec o))
    else Ok uint256_zero in
  let* i := vin_at txTo nIn in
  let ss := CHashWriter_new in
  let ss := stream_out ss (int_codec 4) (nVersion txTo) in
  let ss := stream_out ss (blob_codec 32) hashPrevouts in
  let ss := stream_out ss (blob_codec 32) hashSequence in
  let ss := stream_out ss COutPoint_codec (prevout i) in
  let ss := stream_out ss bytes_codec scriptCode in
  let ss := stream_out ss (int_codec 8) amount in
  let ss := stream_out ss (uint_codec 4) (nSequence i) in
  let ss := stream_out ss (blob_codec 32) hashOutputs in
  let ss := stream_out ss (uint_codec 4) (nLockTime txTo) in
  let ss := stream_out ss (uint_codec 4) sigHashType in
  or_throw std_exception (GetHash ss).

Definition SignatureHash (scriptCode : bytes) (txTo : CTransaction) (nIn : Z) (sigHashType : SigHashType)
    (amount : Amount) (cache : option PrecomputedTransactionData) (enabledSighashForkid : bool)
    : outcome bytes :=
  if hasForkId sigHashType && enabledSighashForkid then
    SignatureHash_forkid scriptCode txTo nIn sigHashType amount cache
  else if len (vin txTo) <=? nIn then Ok uint256_one
  else if is_single sigHashType && (len (vout txTo) <=? nIn) then Ok uint256_one
  else
    let* txTmp := Serialize_txTmp txTo scriptCode nIn sigHashType in
    let ss := stream_write CHashWriter_new txTmp in
    let ss := stream_out ss (uint_codec 4) sigHashType in
    or_throw std_exception (GetHash ss).

(** ** Specification of the old digest

    The transaction as the original algorithm edits it: the other inputs' scripts are
    emptied, the signed input gets the script code without its separators, the outputs are
    dropped or blanked and the other sequence numbers zeroed as the hash type says. *)

(** [g] at position [k], [f] elsewhere. *)
Fixpoint map_except {A B} (f g : A -> B) (k : nat) (l : list A) {struct l} : list B :=
  match l with
  | [] => []
  | a :: l => match k with O => g a :: map f l | S k => f a :: map_except f g k l end
  end.

Section Edited.
Context (txTo : CTransaction) (scriptCode : bytes) (nIn : nat) (sigHashType : SigHashType).

Definition blank_input (i : CTxIn) : CTxIn :=
  mkTxIn (prevout i) [] (if is_single sigHashType || is_none sigHashType then 0 else nSequence i).
Definition signed_input (i : CTxIn) : CTxIn :=
  mkTxIn (prevout i) (fst (FindAndDelete scriptCode [OP_CODESEPARATOR])) (nSequence i).

Definition edited_ins : list CTxIn :=
  if hasAnyoneCanPay sigHashType then map signed_input (firstn 1 (skipn nIn (vin txTo)))
  else map_except blank_input signed_input nIn (vin txTo).
Definition edited_outs : list CTxOut :=
  if is_none sigHashType then []
  else if is_single sigHashType then map_except (fun _ => CTxOut_null) (fun o => o) nIn (firstn (S nIn) (vout txTo))
  else vout txTo.
Definition edited_tx : CTransaction := mkTx (nVersion txTo) edited_ins edited_outs (nLockTime txTo).
End Edited.

(** Every instruction of the script can be read. *)
Inductive well_formed : bytes -> Prop :=
| well_formed_end : well_formed []
| well_formed_step s op data rest : GetOp2 s = Some (op, data, rest) -> well_formed rest -> well_formed s.

(** ** Lemmas *)

Lemma map_except_nth {A B} (f g : A -> B) k l j :
  nth_error (map_except f g k l) j = option_map (if (j =? k)%nat then g else f) (nth_error l j).
Proof.
  revert k j; induction l as [|a l IH]; intros k j; cbn [map_except].
  - destruct j; reflexivity.
  - destruct k as [|k], j as [|j]; cbn [nth_error Nat.eqb]; auto. apply nth_error_map.
Qed.

Lemma map_except_length {A B} (f g : A -> B) k l : length (map_except f g k l) = length l.
Proof.
  revert k; induction l as [|a l IH]; intros [|k]; cbn [map_except length]; auto. now rewrite length_map.
Qed.

Lemma or_throw_wbind x a b :
  or_throw x (wbind a b) = let* p := or_throw x a in let* q := or_throw x b in Ok (p ++ q).
Proof. now destruct a, b. Qed.

Lemma ser_range_elems {A} f (g : A -> option bytes) l i :
  (forall k a, nth_error l k = Some a -> f (i + Z.of_nat k) = or_throw std_exception (g a)) ->
  ser_range f (length l) i = or_throw std_exception (Serialize_elems g l).
Proof.
  revert i; induction l as [|a l IH]; intros i H; cbn [length ser_range Serialize_elems]; [reflexivity|].
  rewrite or_throw_wbind. pose proof (H 0%nat a eq_refl) as H0. rewrite Z.add_0_r in H0. rewrite H0.
  rewrite IH; [reflexivity|]. intros k b Hk. rewrite <- (H (S k) b Hk). f_equal. lia.
Qed.

Lemma GetOp2_separator r : GetOp2 (OP_CODESEPARATOR :: r) = Some (OP_CODESEPARATOR, [], r).
Proof. reflexivity. Qed.

(** The two loops: what is before [it] and not yet written is kept, and the separators from
    there on are dropped and counted. *)
Lemma pieces_spec fuel it :
  well_formed it -> (length it < fuel)%nat ->
  exists r n, deleted [OP_CODESEPARATOR] it r n /\
    (forall pre, write_pieces fuel (pre ++ it) it = pre ++ r) /\
    forall c, 0 <= c -> c + len it < 2 ^ 32 -> count_separators fuel it c = c + n.
Proof.
  intros W. revert fuel. induction W as [|s op data rest G W IH]; intros [|fuel] Hf; try lia.
  - exists [], 0. split; [now apply deleted_stop|]. split; [|intros; cbn; lia].
    intros pre. cbn [write_pieces GetOp2 GetOp2_stop length]. rewrite !app_nil_r, Nat.sub_0_r.
    destruct pre; [reflexivity | apply firstn_all].
  - pose proof (GetOp2_shorter _ _ _ _ G). destruct (IH fuel ltac:(lia)) as (r & n & D & Hw & Hc).
    pose proof (deleted_size _ _ _ _ D) as [Hn Hsz]. change (len [OP_CODESEPARATOR]) with 1 in Hsz.
    pose proof (len_nonneg r). destruct (Z.eqb_spec op OP_CODESEPARATOR) as [->|Hop].
    + assert (s = OP_CODESEPARATOR :: rest) as ->.
      { pose proof (GetOp2_split _ _ _ _ G) as (hdr & Es & _). rewrite Es, GetOp2_separator in G.
        rewrite Es. congruence. }
      exists r, (1 + n). split; [now apply deleted_match|]. cbn [write_pieces count_separators].
      rewrite G, Z.eqb_refl. split.
      * intros pre. rewrite length_app. cbn [length].
        replace (length pre + S (length rest) - length rest - 1)%nat with (length pre) by lia.
        rewrite firstn_app_exact. f_equal. exact (Hw []).
      * intros c Hc0 Hl. rewrite len_cons in Hl. rewrite u32_small by lia. rewrite Hc by lia. lia.
    + exists (firstn (length s - length rest) s ++ r), n. split.
      { eapply deleted_step; eauto. intros E. destruct s as [|b s]; [discriminate|].
        cbn [length firstn] in E. injection E as ->. rewrite GetOp2_separator in G. congruence. }
      cbn [write_pieces count_separators]. rewrite G. apply Z.eqb_neq in Hop. rewrite Hop.
      assert (Es : s = firstn (length s - length rest) s ++ rest).
      { pose proof (GetOp2_split _ _ _ _ G) as (hdr & E & _).
        assert (E2 : s = (op :: hdr ++ data) ++ rest) by (rewrite E; cbn; now rewrite <- app_assoc).
        rewrite E2 at 1 2 3. rewrite length_app.
        replace (length (op :: hdr ++ data) + length rest - length rest)%nat with (length (op :: hdr ++ data)) by lia.
        now rewrite firstn_app_exact. }
      split.
      * intros pre. rewrite Es at 1. rewrite app_assoc, Hw. now rewrite <- app_assoc.
      * intros c Hc0 Hl. apply Hc; [lia|]. unfold len in *. lia.
Qed.

Lemma SerializeScriptCode_correct scriptCode :
  well_formed scriptCode -> len scriptCode < 2 ^ 32 ->
  SerializeScriptCode scriptCode = ser bytes_codec (fst (FindAndDelete scriptCode [OP_CODESEPARATOR])).
Proof.
  intros W Hl. destruct (pieces_spec (S (length scriptCode)) scriptCode W ltac:(lia)) as (r & n & D & Hw & Hc).
  destruct (deleted_det _ _ _ _ _ _ D (FindAndDelete_deleted scriptCode [OP_CODESEPARATOR] ltac:(discriminate)))
    as [<- _].
  pose proof (deleted_size _ _ _ _ D) as [Hn Hsz]. change (len [OP_CODESEPARATOR]) with 1 in Hsz.
  pose proof (len_nonneg r). unfold SerializeScriptCode. rewrite (Hc 0) by lia.
  pose proof (Hw []) as Hw0. cbn [app] in Hw0. rewrite Hw0.
  unfold ser. cbn [bytes_codec Serialize]. unfold Serialize_bytes. rewrite or_throw_wbind.
  rewrite u64_small by lia. replace (len scriptCode - (0 + n)) with (len r) by lia. reflexivity.
Qed.

Section Legacy.
Context (txTo : CTransaction) (scriptCode : bytes) (nIn : nat) (sigHashType : SigHashType).
Hypothesis code_ok : well_formed scriptCode.
Hypothesis code_len : len scriptCode < 2 ^ 32.
Hypothesis in_range : (nIn < length (vin txTo))%nat.
Hypothesis out_range : is_single sigHashType = true -> (nIn < length (vout txTo))%nat.
Hypothesis ins_len : len (vin txTo) < 2 ^ 32.
Hypothesis outs_len : len (vout txTo) < 2 ^ 32.

Lemma ser_txin i :
  ser CTxIn_codec i =
  let* p := ser COutPoint_codec (prevout i) in
  let* s := ser bytes_codec (scriptSig i) in
  let* q := ser (uint_codec 4) (nSequence i) in
  Ok (p ++ s ++ q).
Proof.
  unfold ser. cbn [CTxIn_codec class_codec pair_codec Serialize fst snd]. rewrite !or_throw_wbind.
  now repeat match goal with |- context [or_throw std_exception ?m] =>
    destruct m; cbn [or_throw obind]; [|reflexivity] end.
Qed.

Lemma SerializeInput_edited k a :
  nth_error (edited_ins txTo scriptCode nIn sigHashType) k = Some a ->
  SerializeInput txTo scriptCode (Z.of_nat nIn) sigHashType (Z.of_nat k) = ser CTxIn_codec a.
Proof.
  unfold edited_ins, SerializeInput, vin_at. rewrite ser_txin. intros H.
  destruct (hasAnyoneCanPay sigHashType).
  - rewrite nth_error_map in H. destruct k as [|k].
    2:{ destruct (skipn nIn (vin txTo)) as [|x [|]]; cbn in H; try destruct k; discriminate. }
    rewrite nth_error_firstn, nth_error_skipn, Nat.add_0_r in H. cbn [Nat.ltb Nat.leb] in H.
    rewrite Nat2Z.id. destruct (nth_error (vin txTo) nIn) as [i|] eqn:Ei; [|discriminate].
    cbn [option_map] in H. apply Some_inj in H as <-. cbn [or_abort obind signed_input prevout scriptSig nSequence].
    rewrite Z.eqb_refl. cbn [negb andb]. now rewrite SerializeScriptCode_correct.
  - rewrite map_except_nth in H. rewrite Nat2Z.id.
    destruct (nth_error (vin txTo) k) as [i|] eqn:Ei; [|discriminate]. cbn [option_map] in H.
    apply Some_inj in H as <-. cbn [or_abort obind].
    destruct (Nat.eqb_spec k nIn) as [->|Hk].
    + rewrite Z.eqb_refl. cbn [negb andb signed_input prevout scriptSig nSequence].
      now rewrite SerializeScriptCode_correct.
    + destruct (Z.eqb_spec (Z.of_nat k) (Z.of_nat nIn)); [lia|].
      cbn [negb andb blank_input prevout scriptSig nSequence]. now destruct (is_single _ || is_none _).
Qed.

Lemma SerializeOutput_edited k a :
  nth_error (edited_outs txTo nIn sigHashType) k = Some a ->
  SerializeOutput txTo (Z.of_nat nIn) sigHashType (Z.of_nat k) = ser CTxOut_codec a.
Proof.
  unfold edited_outs, SerializeOutput, vout_at. rewrite Nat2Z.id. intros H.
  destruct (is_none sigHashType); [now destruct k|]. destruct (is_single sigHashType); cbn [andb].
  - rewrite map_except_nth, nth_error_firstn in H.
    destruct (Nat.ltb_spec k (S nIn)); [|discriminate].
    destruct (nth_error (vout txTo) k) as [o|] eqn:Eo; [|discriminate]. cbn [option_map] in H.
    apply Some_inj in H as <-. destruct (Nat.eqb_spec k nIn) as [->|Hk].
    + now rewrite Z.eqb_refl.
    + now destruct (Z.eqb_spec (Z.of_nat k) (Z.of_nat nIn)); [lia|].
  - now rewrite H.
Qed.

Lemma edited_counts :
  (if hasAnyoneCanPay sigHashType then 1 else u32 (len (vin txTo))) = len (edited_ins txTo scriptCode nIn sigHashType) /\
  (if is_none sigHashType then 0
   else if is_single sigHashType then u32 (Z.of_nat nIn + 1) else u32 (len (vout txTo))) = len (edited_outs txTo nIn sigHashType).
Proof.
  pose proof (len_nonneg (vin txTo)). pose proof (len_nonneg (vout txTo)). unfold edited_ins, edited_outs. split.
  - destruct (hasAnyoneCanPay sigHashType); unfold len in *.
    + rewrite length_map, length_firstn, length_skipn. lia.
    + rewrite map_except_length. apply u32_small. lia.
  - destruct (is_none sigHashType); [reflexivity|]. destruct (is_single sigHashType); [|apply u32_small; lia].
    specialize (out_range eq_refl). unfold len in *. rewrite map_except_length, length_firstn, u32_small by lia. lia.
Qed.

Lemma Serialize_txTmp_edited :
  Serialize_txTmp txTo scriptCode (Z.of_nat nIn) sigHashType =
  or_throw std_exception (SerializeTransaction (edited_tx txTo scriptCode nIn sigHashType)).
Proof.
  unfold Serialize_txTmp. cbv zeta. destruct edited_counts as [-> ->].
  unfold len at 2 4. rewrite !Nat2Z.id.
  rewrite (ser_range_elems _ (Serialize CTxIn_codec)) by (intros k a; rewrite Z.add_0_l; apply SerializeInput_edited).
  rewrite (ser_range_elems _ (Serialize CTxOut_codec)) by (intros k a; rewrite Z.add_0_l; apply SerializeOutput_edited).
  unfold SerializeTransaction, edited_tx, ser, CTransaction_codec.
  cbn [class_codec pair_codec vector_codec Serialize fst snd nVersion vin vout nLockTime].
  unfold Serialize_vector. rewrite !or_throw_wbind. cbn [int_codec uint_codec compact_codec Serialize].
  repeat match goal with |- context [or_throw std_exception ?m] =>
    destruct m; cbn [or_throw obind]; [|reflexivity] end. now rewrite !app_assoc.
Qed.
End Legacy.

Lemma hw_write ss d p : hw ss d -> hw (stream_write ss p) (d ++ p).
Proof.
  intros (h & -> & R). eexists. split; [reflexivity|]. apply Write_repr; [lia | apply div64 | exact R].
Qed.


(** ** The digest of the fork *)

(** The arguments of a signature hash. *)
Record signing := mkSigning {
  s_code : bytes; s_tx : CTransaction; s_nIn : nat; s_type : SigHashType; s_amount : Amount }.

(** The bytes of an object that can be serialized. *)
Definition bytes_of {A} (c : codec A) (x : A) : bytes :=
  match Serialize c x with Some p => p | None => [] end.
Definition concat_of {A} (c : codec A) (l : list A) : bytes := concat (map (bytes_of c) l).

Definition input_of (g : signing) : CTxIn := nth (s_nIn g) (vin (s_tx g)) (mkTxIn COutPoint_null [] 0).

Definition all_inputs (g : signing) : bool := negb (hasAnyoneCanPay (s_type g)).
Definition all_outputs (g : signing) : bool := negb (is_single (s_type g)) && negb (is_none (s_type g)).

(** The lists a signature commits to. *)
Definition prevouts_of (g : signing) : list COutPoint :=
  if all_inputs g then map prevout (vin (s_tx g)) else [].
Definition sequences_of (g : signing) : list Z :=
  if all_inputs g && all_outputs g then map nSequence (vin (s_tx g)) else [].
Definition outputs_of (g : signing) : list CTxOut :=
  if all_outputs g then vout (s_tx g)
  else if is_single (s_type g) then firstn 1 (skipn (s_nIn g) (vout (s_tx g))) else [].
Definition has_output (g : signing) : bool :=
  all_outputs g || is_single (s_type g) && (s_nIn g <? length (vout (s_tx g)))%nat.

Definition hash_if {A} (b : bool) (c : codec A) (l : list A) : bytes :=
  if b then sha256d (concat_of c l) else uint256_zero.

(** The fields that are hashed, and how they are written. *)
Definition digest_codec :=
  pair_codec (int_codec 4) (pair_codec (blob_codec 32) (pair_codec (blob_codec 32)
    (pair_codec COutPoint_codec (pair_codec bytes_codec (pair_codec (int_codec 8)
      (pair_codec (uint_codec 4) (pair_codec (blob_codec 32)
        (pair_codec (uint_codec 4) (uint_codec 4))))))))).
Definition digest_fields (g : signing) :=
  (nVersion (s_tx g),
   (hash_if (all_inputs g) COutPoint_codec (prevouts_of g),
    (hash_if (all_inputs g && all_outputs g) (uint_codec 4) (sequences_of g),
     (prevout (input_of g), (s_code g, (s_amount g, (nSequence (input_of g),
      (hash_if (has_output g) CTxOut_codec (outputs_of g),
       (nLockTime (s_tx g), s_type g))))))))).
Definition digest_preimage (g : signing) : bytes := bytes_of digest_codec (digest_fields g).

Definition signing_valid (g : signing) : Prop :=
  tx_valid (s_tx g) /\ (s_nIn g < length (vin (s_tx g)))%nat /\
  (bytes_ok (s_code g) /\ len (s_code g) <= MAX_SIZE) /\
  - 2 ^ 63 <= s_amount g < 2 ^ 63 /\ 0 <= s_type g < 2 ^ 32.

(** *** What is hashed *)

Lemma bytes_of_some {A} (c : codec A) valid (L : Lawful c valid) x :
  valid x -> Serialize c x = Some (bytes_of c x) /\ bytes_ok (bytes_of c x).
Proof. intros Hx. destruct (ser_some x Hx) as (p & E & Hp). unfold bytes_of. now rewrite E. Qed.

Lemma hash_list {A B} (c : codec B) valid (L : Lawful c valid) (f : A -> B) (l : list A) :
  Forall valid (map f l) ->
  GetHash (fold_left (fun ss x => stream_out ss c (f x)) l CHashWriter_new) = Some (sha256d (concat_of c (map f l))).
Proof.
  intros Hv. apply hw_GetHash. unfold concat_of. rewrite map_map.
  apply (hw_fold _ (fun x => bytes_of c (f x)) _ _ []); [|apply hw_new]. intros ss d x H Hx.
  apply hw_stream; [exact H|]. apply (bytes_of_some c valid L). rewrite Forall_forall in Hv. now apply Hv, in_map.
Qed.

Lemma length_sha256d d : length (sha256d d) = 32%nat.
Proof. apply length_fips_sha256. Qed.

Lemma sha256d_ok d : bytes_ok (sha256d d) /\ length (sha256d d) = 32%nat.
Proof. split; [apply fips_sha256_ok | apply length_sha256d]. Qed.

Lemma hash_if_ok {A} b (c : codec A) l : bytes_ok (hash_if b c l) /\ length (hash_if b c l) = 32%nat.
Proof. unfold hash_if. destruct b; [apply sha256d_ok | split; [now apply bytes_okb | reflexivity]]. Qed.

#[export] Instance digest_codec_lawful : Lawful digest_codec _ :=
  pair_codec_lawful _ _ _ _ (int_codec_lawful 4 ltac:(lia))
  (pair_codec_lawful _ _ _ _ (blob_codec_lawful 32)
  (pair_codec_lawful _ _ _ _ (blob_codec_lawful 32)
  (pair_codec_lawful _ _ _ _ COutPoint_lawful
  (pair_codec_lawful _ _ _ _ bytes_codec_lawful
  (pair_codec_lawful _ _ _ _ (int_codec_lawful 8 ltac:(lia))
  (pair_codec_lawful _ _ _ _ (uint_codec_lawful 4)
  (pair_codec_lawful _ _ _ _ (blob_codec_lawful 32)
  (pair_codec_lawful _ _ _ _ (uint_codec_lawful 4) (uint_codec_lawful 4))))))))).

Lemma input_of_spec g :
  signing_valid g -> nth_error (vin (s_tx g)) (s_nIn g) = Some (input_of g) /\ txin_valid (input_of g).
Proof.
  intros ((_ & (Hin & _) & _) & Hn & _).
  assert (E : nth_error (vin (s_tx g)) (s_nIn g) = Some (input_of g)) by now apply nth_error_nth'.
  split; [exact E|]. rewrite Forall_forall in Hin. apply Hin. now apply nth_error_In in E.
Qed.

(** Every field is in the range of its type. *)
Definition fields_valid : _ -> Prop := ltac:(let t := type of digest_codec_lawful in
  match t with Lawful _ ?v => exact v end).

Lemma digest_fields_valid g : signing_valid g -> fields_valid (digest_fields g).
Proof.
  intros H. destruct (input_of_spec g H) as [_ (Hp & _ & Hs)].
  destruct H as ((Hv & _ & _ & Hl) & _ & Hc & Ha & Ht).
  unfold fields_valid, digest_fields. cbn [fst snd].
  repeat (split; [first [exact Hv | exact Hp | exact Hc | exact Ha | exact Hs | exact Hl | apply hash_if_ok]|]).
  exact Ht.
Qed.

Lemma digest_serialized g :
  signing_valid g ->
  Serialize digest_codec (digest_fields g) = Some (digest_preimage g) /\ bytes_ok (digest_preimage g).
Proof. intros H. apply (bytes_of_some digest_codec _ digest_codec_lawful). now apply digest_fields_valid. Qed.

Lemma part_hashes tx :
  tx_valid tx ->
  GetPrevoutHash tx = Some (sha256d (concat_of COutPoint_codec (map prevout (vin tx)))) /\
  GetSequenceHash tx = Some (sha256d (concat_of (uint_codec 4) (map nSequence (vin tx)))) /\
  GetOutputsHash tx = Some (sha256d (concat_of CTxOut_codec (vout tx))) /\
  GetInputsSha256 tx = Some (fips_sha256 (ins_preimage tx)) /\
  GetOutputsSha256 tx = Some (fips_sha256 (outs_preimage tx)).
Proof.
  intros Hv. destruct (txid_parts tx Hv) as (Hi & _ & Ho).
  destruct Hv as (_ & (Hin & _) & (Hout & _) & _).
  split; [|split; [|split; [|split; [exact Hi | exact Ho]]]].
  - apply (hash_list _ outpoint_valid COutPoint_lawful prevout), Forall_map.
    eapply Forall_impl; [|exact Hin]. now intros i (H & _).
  - apply (hash_list _ _ (uint_codec_lawful 4) nSequence), Forall_map.
    eapply Forall_impl; [|exact Hin]. now intros i (_ & _ & H).
  - rewrite <- (map_id (vout tx)). refine (hash_list _ txout_valid CTxOut_lawful (fun o => o) (vout tx) _).
    now rewrite map_id.
Qed.

(** The cache of a transaction, or none. *)
Definition cache_of (tx : CTransaction) (cache : option PrecomputedTransactionData) : Prop :=
  match cache with Some d => Precompute tx = Ok d | None => True end.

Lemma Precompute_ok tx :
  tx_valid tx ->
  Precompute tx = Ok (mkData (sha256d (concat_of COutPoint_codec (map prevout (vin tx))))
    (sha256d (concat_of (uint_codec 4) (map nSequence (vin tx)))) (sha256d (concat_of CTxOut_codec (vout tx)))
    (fips_sha256 (ins_preimage tx)) (fips_sha256 (outs_preimage tx))).
Proof. intros Hv. unfold Precompute. now destruct (part_hashes tx Hv) as (-> & -> & -> & -> & ->). Qed.

Lemma cached_ok tx cache field compute h :
  cache_of tx cache -> compute = Some h -> (forall d, Precompute tx = Ok d -> field d = h) ->
  cached cache field compute = Ok h.
Proof. intros Hc -> Hf. destruct cache as [d|]; cbn [cached or_throw]; [f_equal; now apply Hf | reflexivity]. Qed.

Lemma single_output g :
  signing_valid g -> (s_nIn g < length (vout (s_tx g)))%nat ->
  exists o, vout_at (s_tx g) (Z.of_nat (s_nIn g)) = Ok o /\ firstn 1 (skipn (s_nIn g) (vout (s_tx g))) = [o] /\
    GetHash (stream_out CHashWriter_new CTxOut_codec o) = Some (sha256d (concat_of CTxOut_codec [o])).
Proof.
  intros ((_ & _ & (Hout & _) & _) & _) Hn. unfold vout_at. rewrite Nat2Z.id.
  destruct (nth_error (vout (s_tx g)) (s_nIn g)) as [o|] eqn:Eo; [|apply nth_error_None in Eo; lia].
  exists o. split; [reflexivity|]. split.
  - pose proof (nth_error_split _ _ Eo) as (l1 & l2 & -> & <-).
    now rewrite skipn_app, skipn_all, Nat.sub_diag.
  - apply (hash_list CTxOut_codec txout_valid CTxOut_lawful (fun o => o) [o]). cbn [map].
    constructor; [|constructor]. rewrite Forall_forall in Hout. apply Hout. now apply nth_error_In in Eo.
Qed.

Lemma SignatureHash_forkid_correct g cache :
  signing_valid g -> cache_of (s_tx g) cache ->
  SignatureHash_forkid (s_code g) (s_tx g) (Z.of_nat (s_nIn g)) (s_type g) (s_amount g) cache =
  Ok (sha256d (digest_preimage g)).
Proof.
  intros Hg Hc. destruct (input_of_spec g Hg) as [Ei _]. destruct (digest_serialized g Hg) as [Ed _].
  pose proof (part_hashes (s_tx g) (proj1 Hg)) as (Ep & Eq & Eo & _).
  pose proof (Precompute_ok (s_tx g) (proj1 Hg)) as EP.
  unfold SignatureHash_forkid. cbv zeta. fold (all_inputs g) (all_outputs g).
  assert (Hp : (if all_inputs g then cached cache hashPrevouts (GetPrevoutHash (s_tx g)) else Ok uint256_zero) =
               Ok (hash_if (all_inputs g) COutPoint_codec (prevouts_of g))).
  { unfold hash_if, prevouts_of. destruct (all_inputs g); [|reflexivity].
    apply (cached_ok (s_tx g) _ _ _ _ Hc Ep). intros d Hd. rewrite EP in Hd. apply Ok_inj in Hd. now subst d. }
  assert (Hq : (if all_inputs g && all_outputs g then cached cache hashSequence (GetSequenceHash (s_tx g))
                else Ok uint256_zero) = Ok (hash_if (all_inputs g && all_outputs g) (uint_codec 4) (sequences_of g))).
  { unfold hash_if, sequences_of. destruct (all_inputs g && all_outputs g); [|reflexivity].
    apply (cached_ok (s_tx g) _ _ _ _ Hc Eq). intros d Hd. rewrite EP in Hd. apply Ok_inj in Hd. now subst d. }
  assert (Ho : (if all_outputs g then cached cache hashOutputs (GetOutputsHash (s_tx g))
                else if is_single (s_type g) && (Z.of_nat (s_nIn g) <? len (vout (s_tx g))) then
                  let* o := vout_at (s_tx g) (Z.of_nat (s_nIn g)) in
                  or_throw std_exception (GetHash (stream_out CHashWriter_new CTxOut_codec o))
                else Ok uint256_zero) = Ok (hash_if (has_output g) CTxOut_codec (outputs_of g))).
  { unfold hash_if, has_output, outputs_of. destruct (all_outputs g); cbn [orb].
    - apply (cached_ok (s_tx g) _ _ _ _ Hc Eo). intros d Hd. rewrite EP in Hd. apply Ok_inj in Hd. now subst d.
    - destruct (is_single (s_type g)); cbn [andb]; [|reflexivity]. unfold len.
      destruct (Nat.ltb_spec (s_nIn g) (length (vout (s_tx g)))) as [Hn|Hn].
      + destruct (single_output g Hg Hn) as (o & -> & -> & Eh). cbn [obind]. rewrite Eh.
        now destruct (Z.ltb_spec (Z.of_nat (s_nIn g)) (Z.of_nat (length (vout (s_tx g))))); [|lia].
      + now destruct (Z.ltb_spec (Z.of_nat (s_nIn g)) (Z.of_nat (length (vout (s_tx g))))); [lia|]. }
  rewrite Hp. cbn [obind]. rewrite Hq. cbn [obind]. rewrite Ho. cbn [obind].
  unfold vin_at. rewrite Nat2Z.id, Ei. cbn [or_abort obind].
  rewrite (hw_GetHash _ (digest_preimage g)); [reflexivity|].
  remember (digest_preimage g) as p eqn:_Ep. clear _Ep.
  unfold digest_codec, digest_fields in Ed. cbn [pair_codec Serialize fst snd] in Ed. some_inv.
  rewrite !app_assoc. repeat (eapply hw_stream; [|eassumption]).
  eapply (hw_stream _ []); [apply hw_new | eassumption].
Qed.

(** *** Binding *)

Lemma concat_of_inj {A} (c : codec A) valid (L : Lawful c valid) (N : NonEmpty c valid) l m :
  Forall valid l -> Forall valid m -> concat_of c l = concat_of c m -> l = m.
Proof.
  unfold concat_of.
  assert (Hok : forall k, Forall valid k -> bytes_ok (concat (map (bytes_of c) k))).
  { induction 1 as [|x k Hx Hk IH]; [constructor|]. cbn [map concat]. apply bytes_ok_app.
    split; [apply (bytes_of_some c valid L x Hx) | exact IH]. }
  assert (Hne : forall x k, valid x -> concat (map (bytes_of c) (x :: k)) <> []).
  { intros x k Hx E. destruct (bytes_of_some c valid L x Hx) as [Ex _].
    pose proof (ser_nonempty x _ Hx Ex). apply (f_equal (@length Z)) in E. cbn [map concat] in E.
    rewrite length_app in E. cbn in E. lia. }
  intros Hl. revert m; induction Hl as [|a l Ha Hl IH]; intros m Hm E; destruct Hm as [|b m Hb Hm]; [reflexivity| | |].
  - symmetry in E. now apply Hne in E.
  - now apply Hne in E.
  - cbn [map concat] in E. destruct (bytes_of_some c valid L a Ha) as [Ea _], (bytes_of_some c valid L b Hb) as [Eb _].
    pose proof (ser_read a _ _ (Hok l Hl) Ha Ea) as Ra. pose proof (ser_read b _ _ (Hok m Hm) Hb Eb) as Rb.
    rewrite E, Rb in Ra. injection Ra as -> Er. f_equal. now apply IH.
Qed.

#[export] Instance COutPoint_nonempty : NonEmpty COutPoint_codec outpoint_valid.
Proof.
  intros p q _ E. cbn [COutPoint_codec class_codec pair_codec Serialize fst snd] in E. some_inv.
  cbn [uint_codec Serialize] in *. some_inv. rewrite length_app, length_le_encode. lia.
Qed.

#[export] Instance uint4_nonempty : NonEmpty (uint_codec 4) (fun x => 0 <= x < 2 ^ (8 * Z.of_nat 4)).
Proof. intros x q _ E. cbn [uint_codec Serialize] in E. some_inv. rewrite length_le_encode. lia. Qed.

(** Two different strings that the double hash identifies. *)
Definition double_collision (x y : bytes) : Prop := collision x y \/ collision (fips_sha256 x) (fips_sha256 y).

Lemma sha256d_eq x y : sha256d x = sha256d y -> x = y \/ double_collision x y.
Proof.
  unfold sha256d. intros E. apply sha_eq in E as [E|C]; [|right; now right]. apply sha_eq in E as [E|C]; [now left | right; now left].
Qed.

(** A collision, or a preimage of zero, among the strings that two digests hash. *)
Definition sighash_collision (a b : signing) : Prop :=
  double_collision (digest_preimage a) (digest_preimage b) \/
  double_collision (concat_of COutPoint_codec (prevouts_of a)) (concat_of COutPoint_codec (prevouts_of b)) \/
  double_collision (concat_of (uint_codec 4) (sequences_of a)) (concat_of (uint_codec 4) (sequences_of b)) \/
  double_collision (concat_of CTxOut_codec (outputs_of a)) (concat_of CTxOut_codec (outputs_of b)) \/
  (exists g, (g = a \/ g = b) /\ has_output g = true /\ sha256d (concat_of CTxOut_codec (outputs_of g)) = uint256_zero).

Lemma hash_if_eq {A} (c : codec A) x l m :
  hash_if x c l = hash_if x c m -> (x = false -> l = [] /\ m = []) ->
  concat_of c l = concat_of c m \/ double_collision (concat_of c l) (concat_of c m).
Proof.
  unfold hash_if. destruct x; intros E Hx; [now apply sha256d_eq|]. left.
  destruct (Hx eq_refl) as [-> ->]. reflexivity.
Qed.

Lemma lists_valid g :
  signing_valid g -> Forall outpoint_valid (prevouts_of g) /\
  Forall (fun x => 0 <= x < 2 ^ (8 * Z.of_nat 4)) (sequences_of g) /\ Forall txout_valid (outputs_of g).
Proof.
  intros ((_ & (Hin & _) & (Hout & _) & _) & _). unfold prevouts_of, sequences_of, outputs_of. repeat split.
  - destruct (all_inputs g); [|constructor]. apply Forall_map. eapply Forall_impl; [|exact Hin]. now intros i (H & _).
  - destruct (_ && _); [|constructor]. apply Forall_map. eapply Forall_impl; [|exact Hin]. now intros i (_ & _ & H).
  - destruct (all_outputs g); [exact Hout|]. destruct (is_single _); [|constructor].
    now apply Forall_firstn, Forall_skipn.
Qed.

Lemma outputs_bound a b :
  signing_valid a -> signing_valid b -> s_type a = s_type b ->
  hash_if (has_output a) CTxOut_codec (outputs_of a) = hash_if (has_output b) CTxOut_codec (outputs_of b) ->
  outputs_of a = outputs_of b \/ sighash_collision a b.
Proof.
  intros Ha Hb Et E. destruct (lists_valid a Ha) as (_ & _ & Va), (lists_valid b Hb) as (_ & _ & Vb).
  destruct (has_output a) eqn:Oa, (has_output b) eqn:Ob; unfold hash_if in E; cbv iota in E.
  - apply sha256d_eq in E as [E|C]; [|right; do 3 right; left; exact C].
    left. now apply (concat_of_inj CTxOut_codec txout_valid _ _).
  - right. do 4 right. exists a. split; [left; reflexivity | split; [exact Oa | exact E]].
  - right. do 4 right. exists b. split; [right; reflexivity | split; [exact Ob | symmetry; exact E]].
  - left. assert (H : forall g, has_output g = false -> outputs_of g = []).
    { intros g Hg. unfold has_output, outputs_of in *. apply orb_false_iff in Hg as [-> Hg].
      destruct (is_single (s_type g)); [|reflexivity]. cbn [andb] in Hg. apply Nat.ltb_ge in Hg.
      now rewrite skipn_all2. }
    now rewrite !H.
Qed.

Lemma digest_fields_inj a b :
  signing_valid a -> signing_valid b -> digest_preimage a = digest_preimage b -> digest_fields a = digest_fields b.
Proof.
  intros Ha Hb E. pose proof (digest_fields_valid a Ha) as Va. pose proof (digest_fields_valid b Hb) as Vb.
  destruct (digest_serialized a Ha) as [Sa _], (digest_serialized b Hb) as [Sb _].
  pose proof (ser_read (Lawful := digest_codec_lawful) _ _ [] (Forall_nil _) Va Sa) as Ra.
  pose proof (ser_read (Lawful := digest_codec_lawful) _ _ [] (Forall_nil _) Vb Sb) as Rb.
  rewrite E, Rb in Ra. apply Some_inj in Ra. apply (f_equal fst) in Ra. symmetry. exact Ra.
Qed.

(** C11: what a signature of the fork's digest commits to. If two signature hashes are equal,
    with or without the caches of their transactions, then the hash types, versions, lock
    times, script codes and amounts are equal, so are the outpoint and sequence number of
    the signed inputs, and so are the lists of outpoints, sequence numbers and outputs the
    type covers; or the computation exhibits a collision of SHA-256 or a preimage of zero
    among the strings that were hashed. *)
Theorem sighash_binding (a b : signing) (ca cb : option PrecomputedTransactionData) :
  signing_valid a -> signing_valid b -> cache_of (s_tx a) ca -> cache_of (s_tx b) cb ->
  hasForkId (s_type a) = true -> hasForkId (s_type b) = true ->
  SignatureHash (s_code a) (s_tx a) (Z.of_nat (s_nIn a)) (s_type a) (s_amount a) ca true =
  SignatureHash (s_code b) (s_tx b) (Z.of_nat (s_nIn b)) (s_type b) (s_amount b) cb true ->
  (s_type a = s_type b /\ nVersion (s_tx a) = nVersion (s_tx b) /\ nLockTime (s_tx a) = nLockTime (s_tx b) /\
   s_code a = s_code b /\ s_amount a = s_amount b /\
   prevout (input_of a) = prevout (input_of b) /\ nSequence (input_of a) = nSequence (input_of b) /\
   prevouts_of a = prevouts_of b /\ sequences_of a = sequences_of b /\ outputs_of a = outputs_of b) \/
  sighash_collision a b.
Proof.
  intros Ha Hb Hca Hcb Fa Fb E. unfold SignatureHash in E. rewrite Fa, Fb in E. cbn [andb] in E.
  rewrite !SignatureHash_forkid_correct in E by assumption. apply Ok_inj in E.
  apply sha256d_eq in E as [E|C]; [|right; now left].
  apply digest_fields_inj in E; [|assumption..]. unfold digest_fields in E.
  apply pair_equal_spec in E as [Ev E]. apply pair_equal_spec in E as [Ep E]. apply pair_equal_spec in E as [Eq E].
  apply pair_equal_spec in E as [Ei E]. apply pair_equal_spec in E as [Ec E]. apply pair_equal_spec in E as [Em E].
  apply pair_equal_spec in E as [Es E]. apply pair_equal_spec in E as [Eo E]. apply pair_equal_spec in E as [El Et].
  assert (Hall : all_inputs a = all_inputs b /\ all_outputs a = all_outputs b)
    by (unfold all_inputs, all_outputs; now rewrite Et). destruct Hall as [Hi Hm].
  destruct (lists_valid a Ha) as (Pa & Qa & _), (lists_valid b Hb) as (Pb & Qb & _).
  destruct (outputs_bound a b Ha Hb Et Eo) as [Eouts|C]; [|now right].
  rewrite <- Hi in Ep, Eq. rewrite <- Hm in Eq.
  apply hash_if_eq in Ep as [Ep|C]; [|right; right; left; exact C|].
  2:{ intros H. unfold prevouts_of. now rewrite <- Hi, H. }
  apply hash_if_eq in Eq as [Eq|C]; [|right; do 2 right; left; exact C|].
  2:{ intros H. unfold sequences_of. now rewrite <- Hi, <- Hm, H. }
  left. apply (concat_of_inj COutPoint_codec outpoint_valid _ _) in Ep; [|assumption..].
  apply (concat_of_inj (uint_codec 4) _ (uint_codec_lawful 4) _) in Eq; [|assumption..].
  exact (conj Et (conj Ev (conj El (conj Ec (conj Em (conj Ei (conj Es (conj Ep (conj Eq Eouts))))))))).
Qed.

(** ** Concrete inputs *)

Definition sample_code : bytes := [0x51; OP_CODESEPARATOR; 0x52; 0x93].

Lemma sample_code_wf : well_formed sample_code.
Proof. repeat (eapply well_formed_step; [reflexivity|]). constructor. Qed.


(** Two transactions that differ in what no signature covers. *)
Definition resigned_tx : CTransaction :=
  mkTx 10 [mkTxIn (mkOutPoint (repeat 7 32) 1) [0x53] 0xffffffff] [mkTxOut 5000 [0x52; 0x93]] 0.
Definition sample_signing (tx : CTransaction) : signing := mkSigning sample_code tx 0 0x41 5000.

Lemma resigned_tx_valid : tx_valid resigned_tx.
Proof.
  destruct sample_tx_valid as (Hv & (Hi & Hl) & Ho & Ht). unfold resigned_tx. split; [exact Hv|].
  split; [|split; [exact Ho | exact Ht]]. split; [|exact Hl]. cbn [vin]. constructor; [|constructor].
  cbn [vin sample_tx] in Hi. apply Forall_inv in Hi as (Hp & _ & Hs). split; [exact Hp|].
  split; [split; [now apply bytes_okb | vm_compute; discriminate] | exact Hs].
Qed.

Lemma sample_signing_valid tx : tx_valid tx -> (0 < length (vin tx))%nat -> signing_valid (sample_signing tx).
Proof.
  intros Hv Hn. split; [exact Hv|]. cbn [s_nIn s_tx s_code s_amount s_type sample_signing].
  split; [exact Hn|]. split; [split; [now apply bytes_okb | vm_compute; discriminate]|]. lia.
Qed.

Lemma sighash_binding_witness :
  prevouts_of (sample_signing sample_tx) = prevouts_of (sample_signing resigned_tx) \/
  sighash_collision (sample_signing sample_tx) (sample_signing resigned_tx).
Proof.
  destruct (sighash_binding (sample_signing sample_tx) (sample_signing resigned_tx) None None
    (sample_signing_valid _ sample_tx_valid ltac:(cbn; lia)) (sample_signing_valid _ resigned_tx_valid ltac:(cbn; lia))
    I I eq_refl eq_refl ltac:(vm_compute; reflexivity))
    as [(_ & _ & _ & _ & _ & _ & _ & H & _)|H]; [left; exact H | right; exact H].
Defined.
End SigHash.
