(* ===== verification/Interpreter.v ===== *)
(** * The script interpreter (src/src/script/interpreter.cpp, EvalScript, VerifyScript)

    [EvalScript] as a step function: one definition per group of case labels of the
    [switch], a table from opcodes to these handlers, the body of the loop, the loop
    and the handlers of the exceptions.  A handler works on [state], the local
    variables of the function.  Answers of the cancellation token are an oracle
    indexed by the number of the poll.  An operation C++ leaves undefined ends in
    [Abort]. *)

From S2P Require Import Prelude Endian IntSerialization Outcome BigInt ScriptNum LimitedStack.
From S2P Require Import Sha256 Sha1 Ripemd160 Hash Opcodes Script Serialize Transaction ScriptChecks.
Import IntSerialization BigInt ScriptNum LimitedStack Sha256 Sha1 Ripemd160 Hash Script
  Transaction ScriptChecks.

Module Interpreter.
Local Open Scope outcome_scope.
Local Open Scope word_scope.

(** ** Interfaces *)

(** [CScriptConfig] (src/src/script_config.h): limits by [isGenesisEnabled] and
    [isConsensus]. *)
Record CScriptConfig := mkConfig {
  GetMaxOpsPerScript : bool -> bool -> Z;
  GetMaxScriptNumLength : bool -> bool -> Z;
  GetMaxScriptSize : bool -> bool -> Z;
  GetMaxPubKeysPerMultiSig : bool -> bool -> Z;
  GetMaxStackMemoryUsage : bool -> bool -> Z
}.

(** [BaseSignatureChecker]; [GetTx] may be a null pointer. *)
Record BaseSignatureChecker {B : BIGNUM} := mkChecker {
  CheckSig : bytes -> bytes -> bytes -> bool -> outcome bool;
  CheckLockTime : CScriptNum -> outcome bool;
  CheckSequence : CScriptNum -> outcome bool;
  getSha256Inputs : outcome bytes;
  getSha256Outputs : outcome bytes;
  GetTx : option CTransaction;
  GetnIn : Z
}.
Arguments BaseSignatureChecker : clear implicits.

(** The base class's own methods. *)
Definition BaseChecker {B : BIGNUM} : BaseSignatureChecker B :=
  mkChecker B (fun _ _ _ _ => Ok false) (fun _ => Ok false) (fun _ => Ok false)
    (Ok uint256_zero) (Ok uint256_zero) None 0.

(** The arguments of [EvalScript]; [garbage] is what the buffer of a fresh hasher
    holds. *)
Record env {B : BIGNUM} := mkEnv {
  config : CScriptConfig;
  consensus : bool;
  IsCanceled : nat -> bool;
  flags : Z;
  checker : BaseSignatureChecker B;
  garbage : bytes
}.
Arguments env : clear implicits.

(** The local variables; positions in the script are the bytes from there on, and the
    last element of [vfExec] and [vfElse] is first. *)
Record state := mkState {
  stk : stacks;
  pc : bytes;
  pbegincodehash : bytes;
  vfExec : list bool;
  vfElse : list bool;
  nOpCount : Z;
  nonTopLevelReturnAfterGenesis : bool;
  polls : nat
}.

Definition set_stk (s : state) (x : stacks) : state :=
  mkState x (pc s) (pbegincodehash s) (vfExec s) (vfElse s) (nOpCount s)
    (nonTopLevelReturnAfterGenesis s) (polls s).
Definition set_pc (s : state) (x : bytes) : state :=
  mkState (stk s) x (pbegincodehash s) (vfExec s) (vfElse s) (nOpCount s)
    (nonTopLevelReturnAfterGenesis s) (polls s).
Definition set_codehash (s : state) (x : bytes) : state :=
  mkState (stk s) (pc s) x (vfExec s) (vfElse s) (nOpCount s)
    (nonTopLevelReturnAfterGenesis s) (polls s).
Definition set_conds (s : state) (x y : list bool) : state :=
  mkState (stk s) (pc s) (pbegincodehash s) x y (nOpCount s)
    (nonTopLevelReturnAfterGenesis s) (polls s).
Definition set_opcount (s : state) (x : Z) : state :=
  mkState (stk s) (pc s) (pbegincodehash s) (vfExec s) (vfElse s) x
    (nonTopLevelReturnAfterGenesis s) (polls s).
Definition set_return (s : state) : state :=
  mkState (stk s) (pc s) (pbegincodehash s) (vfExec s) (vfElse s) (nOpCount s) true (polls s).
Definition set_polls (s : state) (x : nat) : state :=
  mkState (stk s) (pc s) (pbegincodehash s) (vfExec s) (vfElse s) (nOpCount s)
    (nonTopLevelReturnAfterGenesis s) x.

(** A [break] out of the switch, or [return set_success(serror)]. *)
Inductive step : Type :=
| Continue (s : state)
| Success (s : state).

Definition vchFalse : bytes := [].
Definition vchTrue : bytes := [1].
Definition INT32_MAX : Z := 2 ^ 31 - 1.

Section Eval.
Context {B : BIGNUM} {PK : PubKeyOps}.
Variable E : env B.

Definition utxo_after_genesis : bool := has (flags E) SCRIPT_UTXO_AFTER_GENESIS.
Definition fRequireMinimal : bool := has (flags E) SCRIPT_VERIFY_MINIMALDATA.
Definition maxScriptNumLength : Z :=
  GetMaxScriptNumLength (config E) utxo_after_genesis (consensus E).

Definition bnZero : CScriptNum := Int64 0.
Definition bnOne : CScriptNum := Int64 1.

(** [if(token.IsCanceled()) return {};] *)
Definition poll (s : state) : outcome state :=
  if IsCanceled E (polls s) then Canceled else Ok (set_polls s (S (polls s))).

Definition IsValidMaxOpsPerScript (n : Z) : bool :=
  n <=? GetMaxOpsPerScript (config E) utxo_after_genesis (consensus E).

(** [CScriptNum{top, fRequireMinimal, maxScriptNumLength, utxo_after_genesis}] *)
Definition number (v : valtype) : outcome CScriptNum :=
  CScriptNum_of_span v fRequireMinimal maxScriptNumLength utxo_after_genesis.

(** [if(stack.size() < n) return set_error(serror, SCRIPT_ERR_INVALID_STACK_OPERATION);] *)
Definition need {A} (n : Z) (s : stacks) (k : outcome A) : outcome A :=
  error_if (stack_size s <? n) SCRIPT_ERR_INVALID_STACK_OPERATION k.

Definition pop2 (s : stacks) : outcome stacks := let* s := pop_back s in pop_back s.
Definition pop3 (s : stacks) : outcome stacks := let* s := pop2 s in pop_back s.

Definition of_bool (b : bool) : CScriptNum := Int64 (if b then 1 else 0).
Definition push_bool (s : stacks) (b : bool) : outcome stacks :=
  push_back s (if b then vchTrue else vchFalse).

(** The constants [CScriptNum{bsv::bint{n}}] and [CScriptNum{n}] by era. *)
Definition era_number (n : Z) : outcome CScriptNum :=
  if utxo_after_genesis then let* b := bint_of_int n in Ok (BigN b) else Ok (Int64 n).

(** ** Push value *)

(** [OP_1NEGATE], [OP_1] ... [OP_16] *)
Definition op_small_int (opcode : Z) (s : stacks) : outcome stacks :=
  push_back s (getvch (Int64 (opcode - (OP_1 - 1)))).

(** ** Control *)

Definition discouraged_nop (s : stacks) : outcome stacks :=
  fail_if has (flags E) SCRIPT_VERIFY_DISCOURAGE_UPGRADABLE_NOPS
    with SCRIPT_ERR_DISCOURAGE_UPGRADABLE_NOPS ;;
  Ok s.

Definition op_checklocktimeverify (s : stacks) : outcome stacks :=
  if negb (has (flags E) SCRIPT_VERIFY_CHECKLOCKTIMEVERIFY) || utxo_after_genesis then
    discouraged_nop s
  else
    need 1 s (
      let* top := stacktop s (-1) in
      let* nLockTime := CScriptNum_of_span top fRequireMinimal 5 false in
      let* neg := num_lt_int64 nLockTime 0 in
      fail_if neg with SCRIPT_ERR_NEGATIVE_LOCKTIME ;;
      let* ok := CheckLockTime (checker E) nLockTime in
      fail_if negb ok with SCRIPT_ERR_UNSATISFIED_LOCKTIME ;;
      Ok s).

Definition op_checksequenceverify (s : stacks) : outcome stacks :=
  if negb (has (flags E) SCRIPT_VERIFY_CHECKSEQUENCEVERIFY) || utxo_after_genesis then
    discouraged_nop s
  else
    need 1 s (
      let* top := stacktop s (-1) in
      let* nSequence := CScriptNum_of_span top fRequireMinimal 5 false in
      let* neg := num_lt_int64 nSequence 0 in
      fail_if neg with SCRIPT_ERR_NEGATIVE_LOCKTIME ;;
      let* m := num_and_int64 nSequence SEQUENCE_LOCKTIME_DISABLE_FLAG in
      let* disabled := num_ne m bnZero in
      if disabled then Ok s
      else
        let* ok := CheckSequence (checker E) nSequence in
        fail_if negb ok with SCRIPT_ERR_UNSATISFIED_LOCKTIME ;;
        Ok s).

(** [tx->...] on a pointer that may be null. *)
Definition with_tx (k : CTransaction -> outcome stacks) : outcome stacks :=
  match GetTx (checker E) with Some tx => k tx | None => Abort end.

(** The [switch(condition)] of [OP_PUSH_META].  Integers are copied from memory in
    the byte order of the machine, little-endian. *)
Definition push_meta (condition : Z) (s : stacks) : outcome stacks :=
  if condition =? 1 then with_tx (fun tx => push_back s (WriteLE32 (u32 (nVersion tx))))
  else if condition =? 2 then with_tx (fun tx => push_back s (WriteLE32 (nLockTime tx)))
  else if condition =? 3 then with_tx (fun tx => push_back s (WriteLE32 (u32 (len (vin tx)))))
  else if condition =? 4 then with_tx (fun tx => push_back s (WriteLE32 (u32 (len (vout tx)))))
  else if condition =? 5 then
    let* result := getSha256Inputs (checker E) in push_back s result
  else if condition =? 6 then
    let n := u8 (GetnIn (checker E)) in
    with_tx (fun tx =>
      match nth_error (vin tx) (Z.to_nat n) with
      | None => Abort
      | Some i =>
          push_back s (txid (prevout i) ++ WriteLE32 (Transaction.n (prevout i)) ++
                       WriteLE32 (nSequence i))
      end)
  else if condition =? 7 then
    let* result := getSha256Outputs (checker E) in push_back s result
  else Err SCRIPT_ERR_INVALID_STACK_OPERATION.

(** [OP_PUSH_META]: [vch[0]] of an empty element is undefined. *)
Definition op_push_meta (s : stacks) : outcome stacks :=
  need 1 s (
    let* vch := stacktop s (-1) in
    fail_if 1 <? len vch with SCRIPT_ERR_INVALID_STACK_OPERATION ;;
    fail_if (len vch =? 1) && ((at_ vch 0 <? 1) || (7 <? at_ vch 0))
      with SCRIPT_ERR_INVALID_STACK_OPERATION ;;
    match vch with
    | [] => Abort
    | condition :: _ => let* s := pop_back s in push_meta condition s
    end).

(** The loop that reads the size of [OP_PARTIAL_HASH]; a shift by 64 or more is
    undefined. *)
Fixpoint partial_size_loop (i : Z) (l : bytes) (acc : Z) : outcome Z :=
  match l with
  | [] => Ok acc
  | b :: l => if 64 <=? 8 * i then Abort
              else partial_size_loop (i + 1) l (acc ||| shl64 b (8 * i))
  end.

(** [OP_PARTIAL_HASH]: the resumed hasher reads 32 bytes of the partial hash. *)
Definition op_partial_hash (s : stacks) : outcome stacks :=
  need 3 s (
    let* vch := stacktop s (-3) in
    let* vchPartHash := stacktop s (-2) in
    let* vchSize := stacktop s (-1) in
    let* s := pop3 s in
    let* vchSizeUint64 := partial_size_loop 0 vchSize 0 in
    let remainVchSizeUint64 := len vch in
    let* vchHash :=
      if len vchPartHash =? 0 then
        fail_if negb (vchSizeUint64 =? remainVchSizeUint64) with SCRIPT_ERR_INVALID_STACK_OPERATION ;;
        Ok (CSHA256_Finalize (CSHA256_Write (CSHA256_init (garbage E)) vch))
      else if len vchPartHash <? 32 then Abort
      else
        let partHashSize := u64 (vchSizeUint64 - remainVchSizeUint64) in
        Ok (CSHA256_Finalize
              (CSHA256_Write (CSHA256_partial (garbage E) vchPartHash (WriteLE64 partHashSize)) vch)) in
    push_back s vchHash).

(** [OP_IF], [OP_NOTIF] *)
Definition op_if (opcode : Z) (fExec : bool) (s : state) : outcome state :=
  let* (fValue, s) :=
    if fExec then
      fail_if stack_size (stk s) <? 1 with SCRIPT_ERR_UNBALANCED_CONDITIONAL ;;
      let* vch := stacktop (stk s) (-1) in
      fail_if has (flags E) SCRIPT_VERIFY_MINIMALIF && (1 <? len vch) with SCRIPT_ERR_MINIMALIF ;;
      fail_if has (flags E) SCRIPT_VERIFY_MINIMALIF && (len vch =? 1) && negb (at_ vch 0 =? 1)
        with SCRIPT_ERR_MINIMALIF ;;
      let fValue := CastToBool vch in
      let fValue := if opcode =? OP_NOTIF then negb fValue else fValue in
      let* x := pop_back (stk s) in
      Ok (fValue, set_stk s x)
    else Ok (false, s) in
  Ok (set_conds s (fValue :: vfExec s) (false :: vfElse s)).

(** [OP_ELSE]; [back()] of an empty vector is undefined. *)
Definition op_else (s : state) : outcome state :=
  match vfExec s with
  | [] => Err SCRIPT_ERR_UNBALANCED_CONDITIONAL
  | e :: es =>
      match vfElse s with
      | [] => Abort
      | l :: ls =>
          fail_if l && utxo_after_genesis with SCRIPT_ERR_UNBALANCED_CONDITIONAL ;;
          Ok (set_conds s (negb e :: es) (true :: ls))
      end
  end.

Definition op_endif (s : state) : outcome state :=
  match vfExec s with
  | [] => Err SCRIPT_ERR_UNBALANCED_CONDITIONAL
  | _ :: es =>
      match vfElse s with
      | [] => Abort
      | _ :: ls => Ok (set_conds s es ls)
      end
  end.

Definition op_verify (s : stacks) : outcome stacks :=
  need 1 s (
    let* top := stacktop s (-1) in
    if CastToBool top then pop_back s else Err SCRIPT_ERR_VERIFY).

Definition op_return (s : state) : outcome step :=
  if utxo_after_genesis then
    match vfExec s with
    | [] => Ok (Success s)
    | _ => Ok (Continue (set_return s))
    end
  else Err SCRIPT_ERR_OP_RETURN.

(** ** Stack operations *)

Definition op_toaltstack (s : stacks) : outcome stacks := need 1 s (moveTopToAlt s).

Definition op_fromaltstack (s : stacks) : outcome stacks :=
  fail_if altstack_size s <? 1 with SCRIPT_ERR_INVALID_ALTSTACK_OPERATION ;;
  moveTopFromAlt s.

Definition op_2drop (s : stacks) : outcome stacks := need 2 s (pop2 s).

Definition op_2dup (s : stacks) : outcome stacks :=
  need 2 s (
    let* vch1 := stacktop s (-2) in
    let* vch2 := stacktop s (-1) in
    let* s := push_back s vch1 in
    push_back s vch2).

Definition op_3dup (s : stacks) : outcome stacks :=
  need 3 s (
    let* vch1 := stacktop s (-3) in
    let* vch2 := stacktop s (-2) in
    let* vch3 := stacktop s (-1) in
    let* s := push_back s vch1 in
    let* s := push_back s vch2 in
    push_back s vch3).

Definition op_2over (s : stacks) : outcome stacks :=
  need 4 s (
    let* vch1 := stacktop s (-4) in
    let* vch2 := stacktop s (-3) in
    let* s := push_back s vch1 in
    push_back s vch2).

Definition op_2rot (s : stacks) : outcome stacks :=
  need 6 s (
    let* vch1 := stacktop s (-6) in
    let* vch2 := stacktop s (-5) in
    let* s := erase_range s (-6) (-4) in
    let* s := push_back s vch1 in
    push_back s vch2).

Definition op_2swap (s : stacks) : outcome stacks :=
  need 4 s (
    let* s := swapElements s (stack_size s - 4) (stack_size s - 2) in
    swapElements s (stack_size s - 3) (stack_size s - 1)).

Definition op_ifdup (s : stacks) : outcome stacks :=
  need 1 s (
    let* vch := stacktop s (-1) in
    if CastToBool vch then push_back s vch else Ok s).

Definition op_depth (s : stacks) : outcome stacks :=
  let* b := bint_of_size_t (stack_size s) in
  push_back s (getvch (BigN b)).

Definition op_drop (s : stacks) : outcome stacks := need 1 s (pop_back s).

Definition op_dup (s : stacks) : outcome stacks :=
  need 1 s (let* vch := stacktop s (-1) in push_back s vch).

Definition op_nip (s : stacks) : outcome stacks := need 2 s (erase s (-2)).

Definition op_over (s : stacks) : outcome stacks :=
  need 2 s (let* vch := stacktop s (-2) in push_back s vch).

(** [OP_PICK], [OP_ROLL]; the index [-n - 1] of a [size_t] becomes an [int]. *)
Definition op_pick_roll (opcode : Z) (s : stacks) : outcome stacks :=
  need 2 s (
    let* top := stacktop s (-1) in
    let* sn := number top in
    let* s := pop_back s in
    let* neg := num_lt_int64 sn 0 in
    let* far := if neg then Ok true else num_ge_int64 sn (stack_size s) in
    fail_if far with SCRIPT_ERR_INVALID_STACK_OPERATION ;;
    let* n := to_size_t_limited sn in
    let* vch := stacktop s (i32 (- n - 1)) in
    let* s := if opcode =? OP_ROLL then erase s (i32 (- n - 1)) else Ok s in
    push_back s vch).

Definition op_rot (s : stacks) : outcome stacks :=
  need 3 s (
    let* s := swapElements s (stack_size s - 3) (stack_size s - 2) in
    swapElements s (stack_size s - 2) (stack_size s - 1)).

Definition op_swap (s : stacks) : outcome stacks :=
  need 2 s (swapElements s (stack_size s - 2) (stack_size s - 1)).

Definition op_tuck (s : stacks) : outcome stacks :=
  need 2 s (let* vch := stacktop s (-1) in insert s (-2) vch).

Definition op_size (s : stacks) : outcome stacks :=
  need 1 s (
    let* top := stacktop s (-1) in
    let* b := bint_of_size_t (len top) in
    push_back s (getvch (BigN b))).

(** ** Bitwise logic *)

Definition map2 (f : Z -> Z -> Z) (a b : bytes) : bytes :=
  map (fun p => f (fst p) (snd p)) (combine a b).

(** [OP_AND], [OP_OR], [OP_XOR]: the element below the top is changed in place. *)
Definition op_bitwise (opcode : Z) (s : stacks) : outcome stacks :=
  need 2 s (
    let* vch1 := stacktop s (-2) in
    let* vch2 := stacktop s (-1) in
    fail_if negb (len vch1 =? len vch2) with SCRIPT_ERR_INVALID_OPERAND_SIZE ;;
    let vch1 :=
      if opcode =? OP_AND then map2 Z.land vch1 vch2
      else if opcode =? OP_OR then map2 Z.lor vch1 vch2
      else if opcode =? OP_XOR then map2 Z.lxor vch1 vch2
      else vch1 in
    pop_back (set_elem s 1 vch1)).

Definition op_invert (s : stacks) : outcome stacks :=
  need 1 s (
    let* vch1 := stacktop s (-1) in
    Ok (set_elem s 0 (map (fun b => u8 (Z.lnot b)) vch1))).

(** The [do ... while(n > 0)] loop of the shifts: at most [INT32_MAX] bits at a time. *)
Fixpoint shift_loop (fuel : nat) (shift : bytes -> Z -> bytes) (values : bytes) (n : CScriptNum)
    (s : state) : outcome (bytes * state) :=
  match fuel with
  | O => Abort
  | S fuel =>
      let* k := getint n in
      let values := shift values k in
      let* s := poll s in
      let* m := era_number INT32_MAX in
      let* n := num_sub n m in
      let* again := num_gt_int64 n 0 in
      if again then shift_loop fuel shift values n s else Ok (values, s)
  end.

(** [OP_LSHIFT], [OP_RSHIFT] *)
Definition op_shift (shift : bytes -> Z -> bytes) (s : state) : outcome state :=
  need 2 (stk s) (
    let* vch1 := stacktop (stk s) (-2) in
    let* top := stacktop (stk s) (-1) in
    let* n := number top in
    let* neg := num_lt_int64 n 0 in
    fail_if neg with SCRIPT_ERR_INVALID_NUMBER_RANGE ;;
    let* x := pop2 (stk s) in
    let s := set_stk s x in
    let* all := num_ge_int64 n (len vch1 * 8) in
    let* (values, s) :=
      if all then Ok (repeat 0 (length vch1), s)
      else shift_loop (S (Z.to_nat (len vch1 * 8 / INT32_MAX))) shift vch1 n s in
    let* x := push_back (stk s) values in
    Ok (set_stk s x)).

(** [OP_EQUAL], [OP_EQUALVERIFY] *)
Definition op_equal (opcode : Z) (s : stacks) : outcome stacks :=
  need 2 s (
    let* vch1 := stacktop s (-2) in
    let* vch2 := stacktop s (-1) in
    let fEqual := bytes_eqb vch1 vch2 in
    let* s := pop2 s in
    let* s := push_bool s fEqual in
    if opcode =? OP_EQUALVERIFY then
      if fEqual then pop_back s else Err SCRIPT_ERR_EQUALVERIFY
    else Ok s).

(** ** Numeric *)

(** [OP_1ADD], [OP_1SUB], [OP_NEGATE], [OP_ABS], [OP_NOT], [OP_0NOTEQUAL] *)
Definition unary_number (opcode : Z) (bn : CScriptNum) : outcome CScriptNum :=
  if opcode =? OP_1ADD then let* one := era_number 1 in num_add bn one
  else if opcode =? OP_1SUB then let* one := era_number 1 in num_sub bn one
  else if opcode =? OP_NEGATE then num_neg bn
  else if opcode =? OP_ABS then
    let* neg := num_lt bn bnZero in if neg then num_neg bn else Ok bn
  else if opcode =? OP_NOT then let* r := num_eq bn bnZero in Ok (of_bool r)
  else if opcode =? OP_0NOTEQUAL then let* r := num_ne bn bnZero in Ok (of_bool r)
  else Abort.

Definition op_unary (opcode : Z) (s : stacks) : outcome stacks :=
  need 1 s (
    let* top := stacktop s (-1) in
    let* bn := number top in
    let* bn := unary_number opcode bn in
    let* s := pop_back s in
    push_back s (getvch bn)).

(** [OP_ADD] ... [OP_MAX] *)
Definition binary_number (opcode : Z) (bn1 bn2 : CScriptNum) : outcome CScriptNum :=
  if opcode =? OP_ADD then num_add bn1 bn2
  else if opcode =? OP_SUB then num_sub bn1 bn2
  else if opcode =? OP_MUL then num_mul bn1 bn2
  else if opcode =? OP_DIV then
    let* z := num_eq bn2 bnZero in
    fail_if z with SCRIPT_ERR_DIV_BY_ZERO ;;
    num_div bn1 bn2
  else if opcode =? OP_MOD then
    let* z := num_eq bn2 bnZero in
    fail_if z with SCRIPT_ERR_MOD_BY_ZERO ;;
    num_mod bn1 bn2
  else if opcode =? OP_BOOLAND then
    let* a := num_ne bn1 bnZero in
    let* b := if a then num_ne bn2 bnZero else Ok false in
    Ok (of_bool b)
  else if opcode =? OP_BOOLOR then
    let* a := num_ne bn1 bnZero in
    let* b := if a then Ok true else num_ne bn2 bnZero in
    Ok (of_bool b)
  else if opcode =? OP_NUMEQUAL then let* r := num_eq bn1 bn2 in Ok (of_bool r)
  else if opcode =? OP_NUMEQUALVERIFY then let* r := num_eq bn1 bn2 in Ok (of_bool r)
  else if opcode =? OP_NUMNOTEQUAL then let* r := num_ne bn1 bn2 in Ok (of_bool r)
  else if opcode =? OP_LESSTHAN then let* r := num_lt bn1 bn2 in Ok (of_bool r)
  else if opcode =? OP_GREATERTHAN then let* r := num_gt bn1 bn2 in Ok (of_bool r)
  else if opcode =? OP_LESSTHANOREQUAL then let* r := num_le bn1 bn2 in Ok (of_bool r)
  else if opcode =? OP_GREATERTHANOREQUAL then let* r := num_ge bn1 bn2 in Ok (of_bool r)
  else if opcode =? OP_MIN then let* r := num_lt bn1 bn2 in Ok (if r then bn1 else bn2)
  else if opcode =? OP_MAX then let* r := num_gt bn1 bn2 in Ok (if r then bn1 else bn2)
  else Abort.

Definition op_binary (opcode : Z) (s : stacks) : outcome stacks :=
  need 2 s (
    let* arg_2 := stacktop s (-2) in
    let* arg_1 := stacktop s (-1) in
    let* bn1 := number arg_2 in
    let* bn2 := number arg_1 in
    let* bn := binary_number opcode bn1 bn2 in
    let* s := pop2 s in
    let* s := push_back s (getvch bn) in
    if opcode =? OP_NUMEQUALVERIFY then
      let* top := stacktop s (-1) in
      if CastToBool top then pop_back s else Err SCRIPT_ERR_NUMEQUALVERIFY
    else Ok s).

Definition op_within (s : stacks) : outcome stacks :=
  need 3 s (
    let* top_3 := stacktop s (-3) in
    let* bn1 := number top_3 in
    let* top_2 := stacktop s (-2) in
    let* bn2 := number top_2 in
    let* top_1 := stacktop s (-1) in
    let* bn3 := number top_1 in
    let* a := num_le bn2 bn1 in
    let* fValue := if a then num_lt bn1 bn3 else Ok false in
    let* s := pop3 s in
    push_bool s fValue).

(** ** Crypto *)

(** [OP_RIPEMD160], [OP_SHA1], [OP_SHA256], [OP_HASH160], [OP_HASH256] *)
Definition hash_of (opcode : Z) (vch : bytes) : bytes :=
  if opcode =? OP_RIPEMD160 then CRIPEMD160_Finalize (CRIPEMD160_Write (CRIPEMD160_init (garbage E)) vch)
  else if opcode =? OP_SHA1 then CSHA1_Finalize (CSHA1_Write (CSHA1_init (garbage E)) vch)
  else if opcode =? OP_SHA256 then CSHA256_Finalize (CSHA256_Write (CSHA256_init (garbage E)) vch)
  else if opcode =? OP_HASH160 then
    CHash160_Finalize (garbage E) (CSHA256_Write (CSHA256_init (garbage E)) vch)
  else CHash256_Finalize (CHash256_Write (CSHA256_init (garbage E)) vch).

Definition op_hash (opcode : Z) (s : stacks) : outcome stacks :=
  need 1 s (
    let* vch := stacktop s (-1) in
    let vchHash := hash_of opcode vch in
    let* s := pop_back s in
    push_back s vchHash).

Definition op_codeseparator (s : state) : outcome state := Ok (set_codehash s (pc s)).

Definition forkid : bool := has (flags E) SCRIPT_ENABLE_SIGHASH_FORKID.

(** [OP_CHECKSIG], [OP_CHECKSIGVERIFY] *)
Definition op_checksig (opcode : Z) (s : state) : outcome state :=
  let x := stk s in
  need 2 x (
    let* vchSig := stacktop x (-2) in
    let* vchPubKey := stacktop x (-1) in
    let* _ := CheckSignatureEncoding vchSig (flags E) in
    let* _ := CheckPubKeyEncoding vchPubKey (flags E) in
    let scriptCode := CleanupScriptCode (pbegincodehash s) vchSig (flags E) in
    let* fSuccess := CheckSig (checker E) vchSig vchPubKey scriptCode forkid in
    fail_if negb fSuccess && has (flags E) SCRIPT_VERIFY_NULLFAIL && negb (len vchSig =? 0)
      with SCRIPT_ERR_SIG_NULLFAIL ;;
    let* x := pop2 x in
    let* x := push_bool x fSuccess in
    let* x :=
      if opcode =? OP_CHECKSIGVERIFY then
        if fSuccess then pop_back x else Err SCRIPT_ERR_CHECKSIGVERIFY
      else Ok x in
    Ok (set_stk s x)).

(** The loop that removes the signatures from the script code. *)
Fixpoint cleanup_sigs (nSigsCount : nat) (isig : Z) (x : stacks) (scriptCode : bytes) : outcome bytes :=
  match nSigsCount with
  | O => Ok scriptCode
  | S k =>
      let* vchSig := stacktop x (i32 (- isig)) in
      cleanup_sigs k (isig + 1) x (CleanupScriptCode scriptCode vchSig (flags E))
  end.

(** The loop over the signatures; every round uses up one key. *)
Fixpoint multisig_loop (fuel : nat) (isig ikey nSigsCount nKeysCount : Z) (scriptCode : bytes)
    (s : state) : outcome (bool * state) :=
  if nSigsCount <=? 0 then Ok (true, s)
  else
    match fuel with
    | O => Abort
    | S fuel =>
        let* s := poll s in
        let* vchSig := stacktop (stk s) (i32 (- isig)) in
        let* vchPubKey := stacktop (stk s) (i32 (- ikey)) in
        let* _ := CheckSignatureEncoding vchSig (flags E) in
        let* _ := CheckPubKeyEncoding vchPubKey (flags E) in
        let* fOk := CheckSig (checker E) vchSig vchPubKey scriptCode forkid in
        let isig := if fOk then isig + 1 else isig in
        let nSigsCount := if fOk then nSigsCount - 1 else nSigsCount in
        let ikey := ikey + 1 in
        let nKeysCount := nKeysCount - 1 in
        if nKeysCount <? nSigsCount then Ok (false, s)
        else multisig_loop fuel isig ikey nSigsCount nKeysCount scriptCode s
    end.

(** The loop that removes the arguments: [n] rounds. *)
Fixpoint multisig_pop (n : nat) (fSuccess : bool) (ikey2 : Z) (x : stacks) : outcome stacks :=
  match n with
  | O => Ok x
  | S n =>
      let* notnull :=
        if negb fSuccess && has (flags E) SCRIPT_VERIFY_NULLFAIL && (ikey2 =? 0) then
          let* top := stacktop x (-1) in Ok (negb (len top =? 0))
        else Ok false in
      fail_if notnull with SCRIPT_ERR_SIG_NULLFAIL ;;
      let ikey2 := if 0 <? ikey2 then ikey2 - 1 else ikey2 in
      let* x := pop_back x in
      multisig_pop n fSuccess ikey2 x
  end.

(** A count that is an [int] of at most four bytes. *)
Definition small_count (v : valtype) : outcome Z :=
  let* n := CScriptNum_of_span v fRequireMinimal MAXIMUM_ELEMENT_SIZE false in getint n.

(** [OP_CHECKMULTISIG], [OP_CHECKMULTISIGVERIFY]: after the counts are read. *)
Definition multisig_check (opcode : Z) (nKeysCount nSigsCount : Z) (s : state) : outcome state :=
  let ikey := 2 in
  let ikey2 := nKeysCount + 2 in
  let isig := 2 + nKeysCount + 1 in
  let i := isig + nSigsCount in
  need i (stk s) (
    let* scriptCode := cleanup_sigs (Z.to_nat nSigsCount) isig (stk s) (pbegincodehash s) in
    let* (fSuccess, s) :=
      multisig_loop (Z.to_nat nKeysCount) isig ikey nSigsCount nKeysCount scriptCode s in
    let* x := multisig_pop (Z.to_nat (i - 1)) fSuccess ikey2 (stk s) in
    need 1 x (
      let* top := stacktop x (-1) in
      fail_if has (flags E) SCRIPT_VERIFY_NULLDUMMY && negb (len top =? 0)
        with SCRIPT_ERR_SIG_NULLDUMMY ;;
      let* x := pop_back x in
      let* x := push_bool x fSuccess in
      let* x :=
        if opcode =? OP_CHECKMULTISIGVERIFY then
          if fSuccess then pop_back x else Err SCRIPT_ERR_CHECKMULTISIGVERIFY
        else Ok x in
      Ok (set_stk s x))).

Definition op_checkmultisig (opcode : Z) (s : state) : outcome state :=
  need 1 (stk s) (
    let* top := stacktop (stk s) (-1) in
    let* nKeysCount := small_count top in
    fail_if nKeysCount <? 0 with SCRIPT_ERR_PUBKEY_COUNT ;;
    fail_if GetMaxPubKeysPerMultiSig (config E) utxo_after_genesis (consensus E) <? nKeysCount
      with SCRIPT_ERR_PUBKEY_COUNT ;;
    let s := set_opcount s (u64 (nOpCount s + nKeysCount)) in
    fail_if negb (IsValidMaxOpsPerScript (nOpCount s)) with SCRIPT_ERR_OP_COUNT ;;
    let i := 2 + nKeysCount in
    need i (stk s) (
      let* sigs := stacktop (stk s) (i32 (- i)) in
      let* nSigsCount := small_count sigs in
      fail_if nSigsCount <? 0 with SCRIPT_ERR_SIG_COUNT ;;
      fail_if nKeysCount <? nSigsCount with SCRIPT_ERR_SIG_COUNT ;;
      multisig_check opcode nKeysCount nSigsCount s)).

(** ** Byte strings *)

Definition op_cat (s : stacks) : outcome stacks :=
  need 2 s (
    let* vch1 := stacktop s (-2) in
    let* vch2 := stacktop s (-1) in
    fail_if negb utxo_after_genesis && (MAX_SCRIPT_ELEMENT_SIZE_BEFORE_GENESIS <? len vch1 + len vch2)
      with SCRIPT_ERR_PUSH_SIZE ;;
    let* s := pop_back s in
    append s 0 vch2).

Definition op_split (s : stacks) : outcome stacks :=
  need 2 s (
    let* data := stacktop s (-2) in
    let* top := stacktop s (-1) in
    let* n := number top in
    let* neg := num_lt_int64 n 0 in
    let* bad := if neg then Ok true else num_gt_int64 n (len data) in
    fail_if bad with SCRIPT_ERR_INVALID_SPLIT_RANGE ;;
    let* position := to_size_t_limited n in
    let n1 := firstn (Z.to_nat position) data in
    let n2 := skipn (Z.to_nat position) data in
    let* s := pop2 s in
    let* s := push_back s n1 in
    push_back s n2).

Definition op_num2bin (s : stacks) : outcome stacks :=
  need 2 s (
    let* arg_1 := stacktop s (-1) in
    let* n := number arg_1 in
    let* neg := num_lt_int64 n 0 in
    let* bad := if neg then Ok true else num_gt_int64 n INT32_MAX in
    fail_if bad with SCRIPT_ERR_PUSH_SIZE ;;
    let* size := to_size_t_limited n in
    fail_if negb utxo_after_genesis && (MAX_SCRIPT_ELEMENT_SIZE_BEFORE_GENESIS <? size)
      with SCRIPT_ERR_PUSH_SIZE ;;
    let* s := pop_back s in
    let* _ := stacktop s (-1) in
    let* s := elem_MinimallyEncode s 0 in
    let rawnum := elem s 0 in
    fail_if size <? len rawnum with SCRIPT_ERR_IMPOSSIBLE_ENCODING ;;
    if len rawnum =? size then Ok s
    else
      let signbit := if 0 <? len rawnum then last rawnum 0 &&& 0x80 else 0x00 in
      let s :=
        if 0 <? len rawnum then set_elem s 0 (removelast rawnum ++ [last rawnum 0 &&& 0x7f]) else s in
      padRight s 0 size signbit).

Definition op_bin2num (s : stacks) : outcome stacks :=
  need 1 s (
    let* _ := stacktop s (-1) in
    let* s := elem_MinimallyEncode s 0 in
    fail_if negb (IsMinimallyEncoded (elem s 0) maxScriptNumLength) with SCRIPT_ERR_INVALID_NUMBER_RANGE ;;
    Ok s).

(** ** The switch *)

Definition handler : Type := Z -> bool -> state -> outcome step.

Definition on_stk (f : Z -> stacks -> outcome stacks) : handler :=
  fun opcode _ s => let* x := f opcode (stk s) in Ok (Continue (set_stk s x)).
Definition on_state (f : Z -> bool -> state -> outcome state) : handler :=
  fun opcode fExec s => let* s := f opcode fExec s in Ok (Continue s).

(** The case labels with the code they share. *)
Definition cases : list (list Z * handler) := [
  ([OP_1NEGATE; OP_1; OP_2; OP_3; OP_4; OP_5; OP_6; OP_7; OP_8; OP_9; OP_10; OP_11; OP_12; OP_13;
    OP_14; OP_15; OP_16], on_stk op_small_int);
  ([OP_NOP], on_stk (fun _ s => Ok s));
  ([OP_CHECKLOCKTIMEVERIFY], on_stk (fun _ => op_checklocktimeverify));
  ([OP_CHECKSEQUENCEVERIFY], on_stk (fun _ => op_checksequenceverify));
  ([OP_PUSH_META], on_stk (fun _ => op_push_meta));
  ([OP_PARTIAL_HASH], on_stk (fun _ => op_partial_hash));
  ([OP_NOP1; OP_NOP4; OP_NOP5; OP_NOP6; OP_NOP7; OP_NOP8; OP_NOP9; OP_NOP10],
   on_stk (fun _ => discouraged_nop));
  ([OP_IF; OP_NOTIF], on_state op_if);
  ([OP_ELSE], on_state (fun _ _ => op_else));
  ([OP_ENDIF], on_state (fun _ _ => op_endif));
  ([OP_VERIFY], on_stk (fun _ => op_verify));
  ([OP_RETURN], fun _ _ => op_return);
  ([OP_TOALTSTACK], on_stk (fun _ => op_toaltstack));
  ([OP_FROMALTSTACK], on_stk (fun _ => op_fromaltstack));
  ([OP_2DROP], on_stk (fun _ => op_2drop));
  ([OP_2DUP], on_stk (fun _ => op_2dup));
  ([OP_3DUP], on_stk (fun _ => op_3dup));
  ([OP_2OVER], on_stk (fun _ => op_2over));
  ([OP_2ROT], on_stk (fun _ => op_2rot));
  ([OP_2SWAP], on_stk (fun _ => op_2swap));
  ([OP_IFDUP], on_stk (fun _ => op_ifdup));
  ([OP_DEPTH], on_stk (fun _ => op_depth));
  ([OP_DROP], on_stk (fun _ => op_drop));
  ([OP_DUP], on_stk (fun _ => op_dup));
  ([OP_NIP], on_stk (fun _ => op_nip));
  ([OP_OVER], on_stk (fun _ => op_over));
  ([OP_PICK; OP_ROLL], on_stk op_pick_roll);
  ([OP_ROT], on_stk (fun _ => op_rot));
  ([OP_SWAP], on_stk (fun _ => op_swap));
  ([OP_TUCK], on_stk (fun _ => op_tuck));
  ([OP_SIZE], on_stk (fun _ => op_size));
  ([OP_AND; OP_OR; OP_XOR], on_stk op_bitwise);
  ([OP_INVERT], on_stk (fun _ => op_invert));
  ([OP_LSHIFT], on_state (fun _ _ => op_shift LShift));
  ([OP_RSHIFT], on_state (fun _ _ => op_shift RShift));
  ([OP_EQUAL; OP_EQUALVERIFY], on_stk op_equal);
  ([OP_1ADD; OP_1SUB; OP_NEGATE; OP_ABS; OP_NOT; OP_0NOTEQUAL], on_stk op_unary);
  ([OP_ADD; OP_SUB; OP_MUL; OP_DIV; OP_MOD; OP_BOOLAND; OP_BOOLOR; OP_NUMEQUAL; OP_NUMEQUALVERIFY;
    OP_NUMNOTEQUAL; OP_LESSTHAN; OP_GREATERTHAN; OP_LESSTHANOREQUAL; OP_GREATERTHANOREQUAL; OP_MIN;
    OP_MAX], on_stk op_binary);
  ([OP_WITHIN], on_stk (fun _ => op_within));
  ([OP_RIPEMD160; OP_SHA1; OP_SHA256; OP_HASH160; OP_HASH256], on_stk op_hash);
  ([OP_CODESEPARATOR], on_state (fun _ _ => op_codeseparator));
  ([OP_CHECKSIG; OP_CHECKSIGVERIFY], on_state (fun opcode _ => op_checksig opcode));
  ([OP_CHECKMULTISIG; OP_CHECKMULTISIGVERIFY], on_state (fun opcode _ => op_checkmultisig opcode));
  ([OP_CAT], on_stk (fun _ => op_cat));
  ([OP_SPLIT], on_stk (fun _ => op_split));
  ([OP_NUM2BIN], on_stk (fun _ => op_num2bin));
  ([OP_BIN2NUM], on_stk (fun _ => op_bin2num))
].

(** The [default] label. *)
Definition default_case (opcode : Z) (fExec : bool) (s : state) : outcome step :=
  if IsInvalidBranchingOpcode opcode && utxo_after_genesis && negb fExec then Ok (Continue s)
  else Err SCRIPT_ERR_BAD_OPCODE.

Definition switch (opcode : Z) : handler :=
  match find (fun c => existsb (Z.eqb opcode) (fst c)) cases with
  | Some (_, h) => h
  | None => default_case
  end.

(** ** The loop *)

Definition fExec_of (opcode : Z) (s : state) : bool :=
  forallb (fun b => b) (vfExec s) &&
  (negb (nonTopLevelReturnAfterGenesis s) || (opcode =? OP_RETURN)).

(** The body of the loop after the instruction is read. *)
Definition exec_instruction (opcode : Z) (vchPushValue : bytes) (s : state) : outcome step :=
  fail_if negb utxo_after_genesis && (MAX_SCRIPT_ELEMENT_SIZE_BEFORE_GENESIS <? len vchPushValue)
    with SCRIPT_ERR_PUSH_SIZE ;;
  let fExec := fExec_of opcode s in
  let s := if OP_16 <? opcode then set_opcount s (u64 (nOpCount s + 1)) else s in
  fail_if (OP_16 <? opcode) && negb (IsValidMaxOpsPerScript (nOpCount s)) with SCRIPT_ERR_OP_COUNT ;;
  fail_if IsOpcodeDisabled opcode && (negb utxo_after_genesis || fExec)
    with SCRIPT_ERR_DISABLED_OPCODE ;;
  let* r :=
    if fExec && (0 <=? opcode) && (opcode <=? OP_PUSHDATA4) then
      fail_if fRequireMinimal && negb (CheckMinimalPush vchPushValue opcode)
        with SCRIPT_ERR_MINIMALDATA ;;
      let* x := push_back (stk s) vchPushValue in
      Ok (Continue (set_stk s x))
    else if fExec || ((OP_IF <=? opcode) && (opcode <=? OP_ENDIF)) then switch opcode opcode fExec s
    else Ok (Continue s) in
  match r with
  | Success s => Ok (Success s)
  | Continue s =>
      fail_if negb utxo_after_genesis &&
              (MAX_STACK_ELEMENTS_BEFORE_GENESIS <? stack_size (stk s) + altstack_size (stk s))
        with SCRIPT_ERR_STACK_SIZE ;;
      Ok (Continue s)
  end.

(** One round of the loop. *)
Definition loop_body (s : state) : outcome step :=
  let* s := poll s in
  match GetOp2 (pc s) with
  | None => Err SCRIPT_ERR_BAD_OPCODE
  | Some (opcode, vchPushValue, rest) => exec_instruction opcode vchPushValue (set_pc s rest)
  end.

(** [while(pc < pend)]; every round takes at least the opcode, so the length of the
    script is enough fuel. *)
Fixpoint loop (fuel : nat) (s : state) : outcome step :=
  match pc s with
  | [] => Ok (Continue s)
  | _ =>
      match fuel with
      | O => Abort
      | S fuel =>
          let* r := loop_body s in
          match r with
          | Success s => Ok (Success s)
          | Continue s => loop fuel s
          end
      end
  end.

(** The exception handlers. *)
Definition catch_all {A} (m : outcome A) : outcome A :=
  match m with
  | Throw scriptnum_overflow_error => Err SCRIPT_ERR_SCRIPTNUM_OVERFLOW
  | Throw scriptnum_minencode_error => Err SCRIPT_ERR_SCRIPTNUM_MINENCODE
  | Throw stack_overflow_error => Err SCRIPT_ERR_STACK_SIZE
  | Throw big_int_error => Err SCRIPT_ERR_BIG_INT
  | Throw std_exception => Err SCRIPT_ERR_UNKNOWN_ERROR
  | m => m
  end.

(** [EvalScript] with the caller's alternative stack and condition vectors. *)
Definition EvalScript_from (s0 : stacks) (vfExec0 vfElse0 : list bool) (script : bytes) (polls0 : nat)
    : outcome state :=
  fail_if GetMaxScriptSize (config E) utxo_after_genesis (consensus E) <? len script
    with SCRIPT_ERR_SCRIPT_SIZE ;;
  let s := mkState s0 script script vfExec0 vfElse0 0 false polls0 in
  let* r := catch_all (loop (length script) s) in
  match r with
  | Success s => Ok s
  | Continue s =>
      fail_if negb (match vfExec s with [] => true | _ => false end)
        with SCRIPT_ERR_UNBALANCED_CONDITIONAL ;;
      Ok s
  end.

(** [EvalScript] with a fresh child stack: the stack and the number of polls after it. *)
Definition EvalScript (s0 : stacks) (script : bytes) (polls0 : nat) : outcome (stacks * nat) :=
  let* s := EvalScript_from (makeChildStack s0) [] [] script polls0 in
  Ok (stk s, polls s).

(** ** VerifyScript *)

(** [stack.empty()] and the test of the last element. *)
Definition check_true (x : stacks) : outcome unit :=
  match stack x with
  | [] => Err SCRIPT_ERR_EVAL_FALSE
  | top :: _ => fail_if negb (CastToBool top) with SCRIPT_ERR_EVAL_FALSE ;; Ok tt
  end.
End Eval.

Definition set_flags {B : BIGNUM} (E : env B) (f : Z) : env B :=
  mkEnv B (config E) (consensus E) (IsCanceled E) f (checker E) (garbage E).

(** [flags |= SCRIPT_VERIFY_STRICTENC] when fork ids are enabled. *)
Definition VerifyScript_flags (f : Z) : Z :=
  if has f SCRIPT_ENABLE_SIGHASH_FORKID then f ||| SCRIPT_VERIFY_STRICTENC else f.

Section Verify.
Context {B : BIGNUM} {PK : PubKeyOps}.
Variable E0 : env B.

Let flags' : Z := VerifyScript_flags (flags E0).
Let E : env B := set_flags E0 flags'.

(** The stacks after evaluation; exceptions of [pop_back] cannot occur here. *)
Definition VerifyScript_p2sh (scriptSig : bytes) (stackCopy : stacks) (p : nat) : outcome (stacks * nat) :=
  fail_if negb (IsPushOnly scriptSig) with SCRIPT_ERR_SIG_PUSHONLY ;;
  match stack stackCopy with
  | [] => Abort
  | pubKey2 :: _ =>
      let* x := pop_back stackCopy in
      let* (x, p) := EvalScript E x pubKey2 p in
      let* _ := check_true x in
      Ok (x, p)
  end.

Definition VerifyScript (scriptSig scriptPubKey : bytes) : outcome unit :=
  fail_if has flags' SCRIPT_VERIFY_SIGPUSHONLY && negb (IsPushOnly scriptSig)
    with SCRIPT_ERR_SIG_PUSHONLY ;;
  let genesis := has flags' SCRIPT_UTXO_AFTER_GENESIS in
  let stack0 := LimitedStack_new (GetMaxStackMemoryUsage (config E) genesis (consensus E)) in
  let* (x, p) := EvalScript E stack0 scriptSig 0 in
  let stackCopy := if has flags' SCRIPT_VERIFY_P2SH && negb genesis then x else stack0 in
  let* (x, p) := EvalScript E x scriptPubKey p in
  let* _ := check_true x in
  let* (x, p) :=
    if has flags' SCRIPT_VERIFY_P2SH && negb genesis && IsP2SH scriptPubKey then
      VerifyScript_p2sh scriptSig stackCopy p
    else Ok (x, p) in
  if has flags' SCRIPT_VERIFY_CLEANSTACK then
    assert_ (has flags' SCRIPT_VERIFY_P2SH) (
      fail_if negb (stack_size x =? 1) with SCRIPT_ERR_CLEANSTACK ;; Ok tt)
  else Ok tt.
End Verify.
End Interpreter.
