(* ===== verification/InterpreterSafety.v ===== *)
(** * The interpreter never reaches undefined behaviour

    [Abort] stands for an operation C++ leaves undefined and for a failed assertion.
    This file proves that evaluating a script never ends there: the two opcodes for
    which it can, [OP_PUSH_META] and [OP_PARTIAL_HASH], are characterised in
    InterpreterSpec.  On the way it shows the invariant of the stacks between two
    instructions: the memory counter is exact and below its limit, and before Genesis
    no element is longer than 520 bytes. *)

From S2P Require Import Prelude Endian IntSerialization Outcome BigInt ScriptNum LimitedStack.
From S2P Require Import Sha256 Sha1 Ripemd160 Hasher Hash Opcodes Script Serialize Transaction ScriptChecks.
From S2P Require Import Interpreter.
Import IntSerialization BigInt ScriptNum LimitedStack Sha256 Sha1 Ripemd160 Hash Script
  Transaction ScriptChecks Interpreter.

Module InterpreterSafety.
Local Open Scope outcome_scope.
Local Open Scope word_scope.

(** ** Assumptions on the surroundings *)

(** What the engine needs from a signature checker: its answers are defined for every
    argument the engine passes. *)
Class SafeChecker {B : BIGNUM} (c : BaseSignatureChecker B) : Prop := {
  CheckSig_safe sig pk code f : safe (fun _ => True) (CheckSig c sig pk code f);
  CheckLockTime_safe n : 0 <= n < 2 ^ 39 -> safe (fun _ => True) (CheckLockTime c (Int64 n));
  CheckSequence_safe n : 0 <= n < 2 ^ 39 -> safe (fun _ => True) (CheckSequence c (Int64 n))
}.

#[export] Instance BaseChecker_safe {B : BIGNUM} : SafeChecker BaseChecker.
Proof. now constructor. Qed.

(** The limits of a configuration that keep sizes in the range of [int]: numbers of at
    most four bytes before Genesis, and less than 2 GiB of stack memory after it. *)
Definition sane_limits {B : BIGNUM} (E : env B) (memory : Z) : Prop :=
  (utxo_after_genesis E = false -> maxScriptNumLength E <= 4) /\
  (utxo_after_genesis E = true -> memory <= 2 ^ 31).

Section Safety.
Context {B : BIGNUM} {L : BIGNUM_Laws B} {A : BIGNUM_Alloc B} {PK : PubKeyOps}.
Context (E : env B) {C : SafeChecker (checker E)}.
Context (k M : Z) (Hk : 0 <= k) (HM : sane_limits E M).

Abbreviation genesis := (utxo_after_genesis E).

(** ** The invariant *)

Definition value_ok (v : valtype) : Prop :=
  bytes_ok v /\ (genesis = false -> len v <= MAX_SCRIPT_ELEMENT_SIZE_BEFORE_GENESIS).

Definition stacks_inv (x : stacks) : Prop :=
  stacks_acc k x /\ maxStackSize x = M /\ Forall value_ok (stack x) /\ Forall value_ok (altstack x).

(** A number read from the stack. *)
Definition num_good (n : CScriptNum) : Prop :=
  num_ok n /\ is_big n = genesis /\ (genesis = false -> Z.abs (num_value n) < 2 ^ 31).

Lemma sum_size_in x l : In x l -> elem_size x <= sum_size l.
Proof.
  induction l as [|y l IH]; [easy|]. rewrite sum_size_cons. intros [->|H].
  - pose proof (sum_size_nonneg l). lia.
  - specialize (IH H). pose proof (elem_size_pos y). lia.
Qed.

Lemma stack_value_len x v : stacks_inv x -> In v (stack x) -> len v < 2 ^ 31.
Proof.
  intros ((Ec & Hm & _ & _) & HM' & Hs & _) Hin. rewrite Forall_forall in Hs.
  destruct (Hs v Hin) as [_ H5]. destruct HM as [_ HMg].
  destruct genesis; [|specialize (H5 eq_refl); unfold MAX_SCRIPT_ELEMENT_SIZE_BEFORE_GENESIS in H5; lia].
  pose proof (sum_size_in v _ Hin). pose proof (sum_size_nonneg (altstack x)).
  unfold elem_size, ELEMENT_OVERHEAD in *. specialize (HMg eq_refl). lia.
Qed.

(** ** Stack primitives *)

Lemma safe_stacktop x i :
  stacks_inv x ->
  safe (fun v => value_ok v /\ len v < 2 ^ 31 /\ In v (stack x) /\
                 v = nth (Z.to_nat (- i - 1)) (stack x) []) (stacktop x i).
Proof.
  intros H. apply safe_intro; [unfold stacktop, top_index; now repeat destruct (_ <? _), (_ <=? _)|].
  intros v Hv. unfold stacktop in Hv. ok_inv. apply top_index_ok in E0 as (Hi & Hz & _).
  assert (Hin : In (nth a (stack x) []) (stack x)) by now apply nth_In.
  split; [|split; [now apply stack_value_len with x|]].
  - destruct H as (_ & _ & Hs & _). rewrite Forall_forall in Hs. now apply Hs.
  - split; [exact Hin|]. f_equal. lia.
Qed.

Lemma safe_pop_back x :
  stacks_inv x -> safe (fun y => stacks_inv y /\ exists v, stack x = v :: stack y) (pop_back x).
Proof.
  intros (H & HM' & Hs & Ha). apply safe_intro; [unfold pop_back; now destruct (stack x)|].
  intros y Hy. pose proof (run_op_max OpPop x y Hy) as Hmax.
  destruct (pop_back_ok x y H Hy) as (Hacc & [v Hv] & Halt).
  split; [|now exists v]. split; [exact Hacc|]. split; [congruence|].
  rewrite Hv in Hs. inversion Hs. now rewrite Halt.
Qed.

Lemma safe_push_back x v :
  stacks_inv x -> value_ok v -> safe stacks_inv (push_back x v).
Proof.
  intros (H & HM' & Hs & Ha) Hv. apply safe_intro.
  { unfold push_back, increaseCombinedStackSize. now destruct (_ <? _). }
  intros y Hy. pose proof (run_op_max (OpPush v) x y Hy) as Hmax.
  destruct (push_back_ok x v y H (proj1 Hv) Hy) as (Hacc & Es & Ea).
  split; [exact Hacc|]. split; [congruence|]. rewrite Es, Ea. split; [now constructor | exact Ha].
Qed.

Lemma safe_pop2 x : stacks_inv x -> safe stacks_inv (pop2 x).
Proof.
  intros H. unfold pop2. eapply safe_bind; [now apply safe_pop_back|].
  intros y [Hy _]. eapply safe_mono; [now apply safe_pop_back | now intros z [Hz _]].
Qed.

Lemma safe_pop3 x : stacks_inv x -> safe stacks_inv (pop3 x).
Proof.
  intros H. unfold pop3. eapply safe_bind; [now apply safe_pop2|].
  intros y Hy. eapply safe_mono; [now apply safe_pop_back | now intros z [Hz _]].
Qed.

Lemma safe_need {T} (P : T -> Prop) n x m :
  (n <= stack_size x -> safe P m) -> safe P (need n x m).
Proof.
  intros H. unfold need. apply safe_error_if. intros Hn. apply H. now apply Z.ltb_ge in Hn.
Qed.

(** Operations that rearrange elements. *)
Lemma rearranged x y o :
  stacks_inv x -> op_ok o x -> run_op o x = Ok y ->
  incl (stack y ++ altstack y) (stack x ++ altstack x) -> stacks_inv y.
Proof.
  intros (H & HM' & Hs & Ha) Ho Hr Hi. pose proof (run_op_max o x y Hr).
  assert (Hall : Forall value_ok (stack y ++ altstack y)).
  { apply Forall_forall. intros v Hv. apply Hi, in_app_or in Hv. rewrite Forall_forall in Hs, Ha.
    destruct Hv; auto. }
  apply Forall_app in Hall as [? ?]. repeat split; try congruence; auto;
    now apply (run_op_ok o x y H Ho Hr).
Qed.

(** ** Numbers *)

Lemma safe_of_int n : safe (fun _ => True) (bint_of_int n).
Proof.
  unfold bint_of_int.
  destruct (0 <=? n), (INT_MIN <? n), (BN_set_word n), (BN_set_word (- n)), (BN_set_word (- (n + 1)));
    cbn [or_throw obind safe]; auto; now destruct (BN_sub _ _).
Qed.

Lemma safe_of_int64 n : safe (fun _ => True) (bint_of_int64 n).
Proof.
  unfold bint_of_int64.
  destruct (0 <=? n), (INT64_MIN <? n), (BN_set_word n), (BN_set_word (- n)), (BN_set_word (- (n + 1)));
    cbn [or_throw obind safe]; auto; now destruct (BN_sub _ _).
Qed.

Lemma safe_of_int_Z n : - 2 ^ 31 <= n < 2 ^ 31 -> safe (fun b => bnZ b = n) (bint_of_int n).
Proof.
  intros Hn. apply safe_intro; [|intros b Hb; now apply bint_of_int_Z in Hb].
  intros Ha. pose proof (safe_of_int n) as S. now rewrite Ha in S.
Qed.

Lemma safe_span v min max big :
  bytes_ok v -> len v < 2 ^ 31 -> (big = false -> 1 <= max <= 8) ->
  safe (fun n => num_ok n /\ num_value n = sm_value v /\ is_big n = big /\
                 (big = false -> Z.abs (num_value n) < 2 ^ (8 * max - 1)))
    (CScriptNum_of_span v min max big).
Proof.
  intros Hv Hl Hmax. apply safe_intro.
  - unfold CScriptNum_of_span. destruct (Z.ltb_spec max (len v)); [easy|].
    destruct (min && _); [easy|]. destruct (Z.eqb_spec (len v) 0).
    { destruct big; [|easy]. pose proof (safe_of_int 0). now destruct (bint_of_int 0). }
    pose proof (len_nonneg v). destruct big.
    + pose proof (bint_deserialize_some A v Hv Hl). now destruct (bint_deserialize v).
    + rewrite deserialize_value by (auto; lia). easy.
  - intros n Hn. destruct (CScriptNum_of_span_value v min max big n Hv Hl) as (V & Bg & Lm & Ok);
      [intros Hb; specialize (Hmax Hb); lia | exact Hn |].
    repeat split; auto. intros Hb. rewrite V. apply sm_value_abs; auto. apply Hmax, Hb.
Qed.

Lemma safe_number v :
  value_ok v -> len v < 2 ^ 31 ->
  safe (fun n => num_good n /\ num_value n = sm_value v) (number E v).
Proof.
  intros [Hv _] Hl. destruct HM as [H4 _]. unfold number.
  destruct (Z.lt_ge_cases (maxScriptNumLength E) 1) as [Hlow|Hlow], genesis eqn:G.
  - eapply safe_mono; [now apply safe_span|]. intros n (? & ? & ? & _).
    repeat split; auto; [congruence | intros; congruence].
  - unfold CScriptNum_of_span. pose proof (len_nonneg v).
    destruct (Z.ltb_spec (maxScriptNumLength E) (len v)); [exact I|].
    destruct (_ && _); [exact I|]. destruct (Z.eqb_spec (len v) 0) as [E0|]; [|lia].
    destruct v; [|unfold len in E0; cbn in E0; lia].
    cbn. repeat split; try lia. now rewrite G.
  - eapply safe_mono; [now apply safe_span|]. intros n (? & ? & ? & _).
    repeat split; auto; [congruence | intros; congruence].
  - specialize (H4 eq_refl).
    eapply safe_mono; [apply safe_span with (big := false); auto; lia|].
    intros n (? & ? & ? & H7). repeat split; auto; [congruence|]. intros _.
    specialize (H7 eq_refl). eapply Z.lt_le_trans; [exact H7|].
    apply (Z.pow_le_mono_r 2 _ 31); lia.
Qed.

(** The constants of the era. *)
Lemma safe_era_number n :
  - 2 ^ 31 < n < 2 ^ 31 -> safe (fun a => num_good a /\ num_value a = n) (era_number E n).
Proof.
  intros Hn. unfold era_number. destruct genesis eqn:G.
  - eapply safe_bind; [apply safe_of_int_Z; lia|]. intros b Hb.
    repeat split; auto; intros; congruence.
  - repeat split; cbn; auto; lia.
Qed.

(** What an operation may leave: before Genesis still an [int64_t]. *)
Definition num_result (n : CScriptNum) : Prop := num_ok n /\ (genesis = false -> is_big n = false).

Lemma num_good_result n : num_good n -> num_result n.
Proof. intros (H1 & H2 & _). split; [exact H1 | congruence]. Qed.

Lemma getvch_ok n : num_result n -> value_ok (getvch n).
Proof.
  intros [H1 H2]. rewrite getvch_value by exact H1. split; [apply sm_encode_spec|].
  intros G. specialize (H2 G). destruct n as [n|]; [|discriminate]. cbn [num_value].
  pose proof (sm_encode_len9 n H1). unfold MAX_SCRIPT_ELEMENT_SIZE_BEFORE_GENESIS. lia.
Qed.

Lemma of_bool_result b : num_result (of_bool b).
Proof. split; [destruct b; cbn; lia | reflexivity]. Qed.

Lemma safe_num_op o a b :
  num_good a -> num_good b -> (o = Div \/ o = Mod -> num_value b <> 0) ->
  safe num_result (num_op o a b).
Proof.
  intros (Ha & Ba & Sa) (Hb & Bb & Sb) H0. apply safe_intro.
  - destruct a as [x|x], b as [y|y]; cbn [is_big] in *; try congruence.
    + symmetry in Ba. rewrite (proj1 (num_op_small o x y (Sa Ba) (Sb Ba) H0)). discriminate.
    + destruct o; cbn; unfold bint_add, bint_sub, bint_mul, bint_div, bint_mod;
        match goal with |- context [or_throw _ ?m] => now destruct m end.
  - intros r Hr. split; [apply (num_op_value o a b r Ha Hb Hr)|].
    intros G. rewrite (num_op_big o a b r Hr). congruence.
Qed.

Lemma safe_num_neg a : num_good a -> safe num_result (num_neg a).
Proof.
  intros (Ha & Ba & Sa). destruct a as [x|x]; cbn [is_big num_value] in *.
  - symmetry in Ba. specialize (Sa Ba). unfold num_neg. rewrite checked64_fits by lia.
    split; [cbn; lia | reflexivity].
  - split; [exact I | congruence].
Qed.

Lemma safe_compare (m : outcome bool) (v : bool) :
  m <> Abort -> (forall r, m = Ok r -> r = v) -> safe (fun r => r = v) m.
Proof. apply safe_intro. Qed.

(** Rules out [Abort] in a comparison. *)
Ltac no_abort :=
  cbn; repeat match goal with
  | |- context [bint_of_int64 ?n] =>
      let H := fresh in pose proof (safe_of_int64 n) as H; destruct (bint_of_int64 n); cbn in *
  end; try discriminate; try contradiction.

Lemma safe_num_eq a b :
  num_ok a -> num_ok b -> safe (fun r => r = (num_value a =? num_value b)) (num_eq a b).
Proof.
  intros Ha Hb. apply safe_compare; [destruct a, b; no_abort | intros r; now apply num_eq_value].
Qed.

Lemma safe_num_lt a b :
  num_ok a -> num_ok b -> safe (fun r => r = (num_value a <? num_value b)) (num_lt a b).
Proof.
  intros Ha Hb. apply safe_compare; [destruct a, b; no_abort | intros r; now apply num_lt_value].
Qed.

Lemma safe_num_lt_int64 a b :
  - 2 ^ 63 <= b < 2 ^ 63 -> safe (fun r => r = (num_value a <? b)) (num_lt_int64 a b).
Proof.
  intros Hb. apply safe_compare; [destruct a; no_abort | intros r; now apply num_lt_int64_value].
Qed.

Lemma safe_num_gt_int64 a b :
  - 2 ^ 63 <= b < 2 ^ 63 -> safe (fun r => r = (b <? num_value a)) (num_gt_int64 a b).
Proof.
  intros Hb. apply safe_compare; [destruct a; no_abort | intros r; now apply num_gt_int64_value].
Qed.

Lemma safe_num_ne a b :
  num_ok a -> num_ok b -> safe (fun r => r = negb (num_value a =? num_value b)) (num_ne a b).
Proof.
  intros Ha Hb. unfold num_ne. eapply safe_bind; [now apply safe_num_eq|]. now intros r ->.
Qed.

Lemma safe_num_le a b :
  num_ok a -> num_ok b -> safe (fun r => r = negb (num_value b <? num_value a)) (num_le a b).
Proof.
  intros Ha Hb. unfold num_le. eapply safe_bind; [now apply safe_num_lt|]. now intros r ->.
Qed.

Lemma safe_num_ge a b :
  num_ok a -> num_ok b -> safe (fun r => r = negb (num_value a <? num_value b)) (num_ge a b).
Proof.
  intros Ha Hb. unfold num_ge. eapply safe_bind; [now apply safe_num_lt|]. now intros r ->.
Qed.

Lemma safe_num_ge_int64 a b :
  - 2 ^ 63 <= b < 2 ^ 63 -> safe (fun r => r = negb (num_value a <? b)) (num_ge_int64 a b).
Proof.
  intros Hb. unfold num_ge_int64. eapply safe_bind; [now apply safe_num_lt_int64|]. now intros r ->.
Qed.

Lemma safe_getint a :
  safe (fun r => r = Z.max (- 2 ^ 31) (Z.min (num_value a) (2 ^ 31 - 1))) (getint a).
Proof.
  apply safe_intro; [|intros r; now apply getint_value]. destruct a as [n|n]; cbn [getint].
  - now destruct (INT_MAX <? n), (n <? INT_MIN).
  - pose proof (safe_of_int INT_MIN). pose proof (safe_of_int INT_MAX).
    destruct (bint_of_int INT_MIN), (bint_of_int INT_MAX); cbn in *; try easy.
    destruct (bint_lt _ _); [easy|]. destruct (bint_lt _ _); [easy|].
    unfold to_long. now destruct (BN_to_long n).
Qed.

Lemma safe_to_size_t a :
  0 <= num_value a < 2 ^ 31 -> safe (fun r => r = num_value a) (to_size_t_limited a).
Proof.
  intros Ha. apply safe_intro; [|intros r Hr; now apply to_size_t_limited_value in Hr].
  destruct a as [n|n]; cbn [num_value to_size_t_limited] in *; unfold INT_MAX.
  - replace ((0 <=? n) && (n <=? 2 ^ 31 - 1)) with true; [easy|].
    symmetry. apply andb_true_iff. split; apply Z.leb_le; lia.
  - pose proof (safe_of_int64 0) as S0. pose proof (safe_of_int64 (2 ^ 31 - 1)) as S1.
    destruct (bint_of_int64 0) as [z| | | |] eqn:E0; try easy.
    destruct (bint_of_int64 (2 ^ 31 - 1)) as [m| | | |] eqn:E1; try easy. cbn [obind].
    apply bint_of_int64_Z in E0; [|lia]. apply bint_of_int64_Z in E1; [|lia].
    rewrite !bint_lt_Z, E0, E1.
    replace (negb (bnZ n <? 0) && negb (2 ^ 31 - 1 <? bnZ n)) with true.
    + cbn. unfold bint_to_size_t_limited, to_long. now destruct (BN_to_long n).
    + symmetry. apply andb_true_iff. split; apply negb_true_iff, Z.ltb_ge; lia.
Qed.

(** ** Handlers *)

Lemma safe_pop x : stacks_inv x -> safe stacks_inv (pop_back x).
Proof. intros H. eapply safe_mono; [now apply safe_pop_back | now intros y []]. Qed.

Lemma vchTrue_ok : value_ok vchTrue.
Proof.
  split; [repeat constructor; unfold is_byte; lia|]. intros _.
  change (len vchTrue) with 1. unfold MAX_SCRIPT_ELEMENT_SIZE_BEFORE_GENESIS. lia.
Qed.

Lemma vchFalse_ok : value_ok vchFalse.
Proof.
  split; [constructor|]. intros _. change (len vchFalse) with 0.
  unfold MAX_SCRIPT_ELEMENT_SIZE_BEFORE_GENESIS. lia.
Qed.

Lemma safe_push_bool x b : stacks_inv x -> safe stacks_inv (push_bool x b).
Proof.
  intros H. unfold push_bool. apply safe_push_back; [exact H|].
  destruct b; [exact vchTrue_ok | exact vchFalse_ok].
Qed.

Lemma num_good_ok n : num_good n -> num_ok n.
Proof. now intros []. Qed.

Lemma value_ok_bytes v : value_ok v -> bytes_ok v.
Proof. now intros []. Qed.

#[local] Hint Resolve safe_stacktop safe_pop_back safe_push_back safe_pop2 safe_pop3 safe_number
  safe_num_eq safe_num_lt safe_num_ne safe_num_le safe_num_ge safe_push_bool safe_era_number
  safe_num_neg safe_getint : safe.
#[local] Hint Resolve safe_pop | 10 : safe.
#[local] Hint Resolve num_good_ok getvch_ok of_bool_result num_good_result value_ok_bytes : safe.

Ltac conj :=
  repeat match goal with
  | H : _ /\ _ |- _ => destruct H
  | H : exists _, _ |- _ => destruct H
  end.

Lemma safe_any {T} (Q : T -> Prop) m : safe Q m -> safe (fun _ => True) m.
Proof. intros H. now apply (safe_mono Q). Qed.

(** A comparison that is made only in one case. *)
Ltac either :=
  match goal with
  | |- safe _ (obind (if _ then _ else _) _) =>
      apply safe_bind with (Q := fun _ : bool => True);
      [apply safe_if; intros ?; [try exact I | try exact I]; eapply safe_any; solve [eauto with safe]
      | let b := fresh "b" in intros b _]
  end.

(** Walks through a handler; what is left are the steps no rule applies to. *)
Ltac walk :=
  repeat (first [apply safe_need; intros ? | either | safe_step ltac:(solve [eauto with safe])]; conj);
  try solve [eauto with safe].

Lemma safe_2drop x : stacks_inv x -> safe stacks_inv (op_2drop x).
Proof. intros H. unfold op_2drop. walk. Qed.

Lemma safe_2dup x : stacks_inv x -> safe stacks_inv (op_2dup x).
Proof. intros H. unfold op_2dup. walk. Qed.

Lemma safe_3dup x : stacks_inv x -> safe stacks_inv (op_3dup x).
Proof. intros H. unfold op_3dup. walk. Qed.

Lemma safe_2over x : stacks_inv x -> safe stacks_inv (op_2over x).
Proof. intros H. unfold op_2over. walk. Qed.

Lemma safe_ifdup x : stacks_inv x -> safe stacks_inv (op_ifdup x).
Proof. intros H. unfold op_ifdup. walk. Qed.

Lemma safe_drop x : stacks_inv x -> safe stacks_inv (op_drop x).
Proof. intros H. unfold op_drop. walk. Qed.

Lemma safe_dup x : stacks_inv x -> safe stacks_inv (op_dup x).
Proof. intros H. unfold op_dup. walk. Qed.

Lemma safe_over x : stacks_inv x -> safe stacks_inv (op_over x).
Proof. intros H. unfold op_over. walk. Qed.

Lemma safe_verify x : stacks_inv x -> safe stacks_inv (op_verify x).
Proof. intros H. unfold op_verify. walk. Qed.

Lemma safe_equal op x : stacks_inv x -> safe stacks_inv (op_equal op x).
Proof. intros H. unfold op_equal. walk. Qed.

Lemma safe_within x : stacks_inv x -> safe stacks_inv (op_within E x).
Proof. intros H. unfold op_within. walk. Qed.

Lemma safe_small_int op x :
  - 2 ^ 31 <= op < 2 ^ 31 -> stacks_inv x -> safe stacks_inv (op_small_int op x).
Proof.
  intros Ho H. unfold op_small_int. apply safe_push_back; [exact H|]. apply getvch_ok.
  split; [unfold OP_1; cbn; lia | reflexivity].
Qed.

(** Comparisons end in a number that is 0 or 1. *)
Lemma safe_of_bool (m : outcome bool) Q :
  safe Q m -> safe num_result (let* r := m in Ok (of_bool r)).
Proof. intros H. eapply safe_bind; [exact H|]. intros r _. apply safe_ok, of_bool_result. Qed.

Lemma bnZero_ok : num_ok (B := B) bnZero.
Proof. cbn. lia. Qed.

Lemma safe_num_add a b : num_good a -> num_good b -> safe num_result (num_add a b).
Proof. intros Ha Hb. apply (safe_num_op Add a b Ha Hb). now intros [H|H]. Qed.

Lemma safe_num_sub a b : num_good a -> num_good b -> safe num_result (num_sub a b).
Proof. intros Ha Hb. apply (safe_num_op Sub a b Ha Hb). now intros [H|H]. Qed.

Lemma safe_num_mul a b : num_good a -> num_good b -> safe num_result (num_mul a b).
Proof. intros Ha Hb. apply (safe_num_op Mul a b Ha Hb). now intros [H|H]. Qed.

#[local] Hint Resolve safe_of_bool bnZero_ok safe_num_add safe_num_sub safe_num_mul : safe.

Lemma safe_unary_number op n :
  In op [OP_1ADD; OP_1SUB; OP_NEGATE; OP_ABS; OP_NOT; OP_0NOTEQUAL] ->
  num_good n -> safe num_result (unary_number E op n).
Proof.
  intros Hop Hn. unfold unary_number.
  assert (Hone : safe num_good (era_number E 1)).
  { eapply safe_mono; [apply safe_era_number; lia | now intros a []]. }
  repeat (apply safe_if; intros ?); try solve [walk]; exfalso.
  zbool. cbn in Hop. intuition congruence.
Qed.

Lemma safe_unary op x :
  In op [OP_1ADD; OP_1SUB; OP_NEGATE; OP_ABS; OP_NOT; OP_0NOTEQUAL] ->
  stacks_inv x -> safe stacks_inv (op_unary E op x).
Proof. intros Hop H. pose proof safe_unary_number. unfold op_unary. walk. Qed.

Lemma safe_divide (o : arith_op) e a b :
  num_good a -> num_good b ->
  safe num_result (let* z := num_eq b bnZero in fail_if z with e ;; num_op o a b).
Proof.
  intros Ha Hb. eapply safe_bind; [apply safe_num_eq; auto with safe|]. intros z ->.
  apply safe_error_if. intros Hz. apply safe_num_op; auto. intros _. apply Z.eqb_neq in Hz. exact Hz.
Qed.

Abbreviation binary_ops := [OP_ADD; OP_SUB; OP_MUL; OP_DIV; OP_MOD; OP_BOOLAND; OP_BOOLOR; OP_NUMEQUAL;
  OP_NUMEQUALVERIFY; OP_NUMNOTEQUAL; OP_LESSTHAN; OP_GREATERTHAN; OP_LESSTHANOREQUAL;
  OP_GREATERTHANOREQUAL; OP_MIN; OP_MAX].

Lemma safe_binary_number op a b :
  In op binary_ops -> num_good a -> num_good b -> safe num_result (binary_number op a b).
Proof.
  intros Hop Ha Hb. unfold binary_number, num_gt.
  repeat (apply safe_if; intros ?); try solve [walk].
  all: try (match goal with
    | |- safe _ (let* z := _ in fail_if z with ?e ;; num_div _ _) => exact (safe_divide Div e a b Ha Hb)
    | |- safe _ (let* z := _ in fail_if z with ?e ;; num_mod _ _) => exact (safe_divide Mod e a b Ha Hb)
    end).
  all: try (eapply safe_bind; [apply safe_num_lt; auto with safe|]; intros r _; apply safe_ok;
    destruct r; auto with safe).
  exfalso. zbool. cbn in Hop. intuition congruence.
Qed.

Lemma safe_binary op x :
  In op binary_ops -> stacks_inv x -> safe stacks_inv (op_binary E op x).
Proof. intros Hop H. pose proof safe_binary_number. unfold op_binary. walk. Qed.

(** *** Rearranging elements *)

Lemma in_firstn {T} (v : T) n l : In v (firstn n l) -> In v l.
Proof. intros H. rewrite <- (firstn_skipn n l). apply in_or_app. now left. Qed.

Lemma in_skipn {T} (v : T) n l : In v (skipn n l) -> In v l.
Proof. intros H. rewrite <- (firstn_skipn n l). apply in_or_app. now right. Qed.

Lemma in_set_nth v l i x : In v (set_nth l i x) -> v = x \/ In v l.
Proof.
  unfold set_nth. intros H. apply in_app_or in H as [H|H]; [right; now apply in_firstn in H|].
  destruct (skipn i l) eqn:Es; [easy|]. destruct H as [->|H]; [now left|]. right.
  apply (in_skipn v i l). rewrite Es. now right.
Qed.

(** An operation that leaves the alternative stack alone and only reuses elements. *)
Lemma reuse x o :
  stacks_inv x -> op_ok o x -> run_op o x <> Abort ->
  (forall y, run_op o x = Ok y -> incl (stack y) (stack x) /\ altstack y = altstack x) ->
  safe stacks_inv (run_op o x).
Proof.
  intros H Ho Hn Hi. apply safe_intro; [exact Hn|]. intros y Hy.
  apply (rearranged x y o H Ho Hy). destruct (Hi y Hy) as [Hs ->].
  apply incl_app; [now apply incl_appl | now apply incl_appr].
Qed.

Lemma safe_erase x i : stacks_inv x -> safe stacks_inv (erase x i).
Proof.
  intros H. apply (reuse x (OpErase i) H I); cbn [run_op]; unfold erase, top_index.
  - now destruct (0 <=? i), (len (stack x) <? - i).
  - intros y Hy. ok_inv. split; [|reflexivity].
    intros v Hv. cbn [with_stack decreaseCombinedStackSize stack] in Hv. apply in_app_or in Hv as [Hv|Hv]; [now apply in_firstn in Hv | now apply in_skipn in Hv].
Qed.

Lemma safe_erase_range x f l :
  - f <= stack_size x -> stacks_inv x -> safe stacks_inv (erase_range x f l).
Proof.
  intros Hf H. apply (reuse x (OpEraseRange f l) H I); cbn [run_op]; unfold erase_range, stack_size in *.
  - destruct (_ || _); [easy|]. now destruct (Z.ltb_spec (len (stack x)) (- f)); [lia|].
  - intros y Hy. destruct (_ || _); [discriminate|]. destruct (_ <? _); [discriminate|]. ok_inv.
    split; [|reflexivity].
    intros v Hv. cbn [with_stack decreaseCombinedStackSize stack] in Hv.
    apply in_app_or in Hv as [Hv|Hv]; [now apply in_firstn in Hv | now apply in_skipn in Hv].
Qed.

Lemma safe_swapElements x i j : stacks_inv x -> safe stacks_inv (swapElements x i j).
Proof.
  intros H. apply (reuse x (OpSwap i j) H I); cbn [run_op]; unfold swapElements; cbv zeta.
  - now destruct (_ && _).
  - intros y Hy. destruct (_ && _) eqn:G; [|discriminate]. ok_inv. zbool. split; [|reflexivity].
    intros v Hv. cbn [with_stack stack] in Hv.
    apply in_set_nth in Hv as [->|Hv]; [|apply in_set_nth in Hv as [->|Hv]; [|exact Hv]];
      apply nth_In; unfold len in *; lia.
Qed.

Lemma safe_insert x p v :
  - p <= stack_size x -> In v (stack x) -> stacks_inv x -> safe stacks_inv (insert x p v).
Proof.
  intros Hp Hv H. apply (reuse x (OpInsert p v) H); cbn [run_op op_ok].
  - destruct H as (_ & _ & Hs & _). rewrite Forall_forall in Hs. apply Hs, Hv.
  - unfold insert, increaseCombinedStackSize, stack_size in *.
    destruct (0 <=? p); [easy|]. destruct (maxStackSize x <? _); [easy|]. cbn [obind stack].
    now destruct (Z.ltb_spec (len (stack x)) (- p)); [lia|].
  - unfold insert. intros y Hy. destruct (0 <=? p); [discriminate|]. ok_inv.
    apply increase_ok in E0 as [-> _]. cbn [stack] in Hy. destruct (_ <? _); [discriminate|].
    ok_inv. split; [|reflexivity]. intros w Hw. cbn [with_stack stack] in Hw.
    apply in_app_or in Hw as [Hw|[<-|Hw]]; [now apply in_firstn in Hw | exact Hv | now apply in_skipn in Hw].
Qed.

Lemma safe_toaltstack x : stacks_inv x -> safe stacks_inv (op_toaltstack x).
Proof.
  intros H. apply safe_need. intros _. apply safe_intro; [unfold moveTopToAlt; now destruct (stack x)|].
  intros y Hy. apply (rearranged x y OpToAlt H I Hy). unfold moveTopToAlt in Hy.
  destruct (stack x); [discriminate|]. ok_inv. cbn. intros v Hv.
  apply in_app_or in Hv as [Hv|[Hv|Hv]]; [right | now left | right]; apply in_or_app; auto.
Qed.

Lemma safe_fromaltstack x : stacks_inv x -> safe stacks_inv (op_fromaltstack x).
Proof.
  intros H. apply safe_error_if. intros _.
  apply safe_intro; [unfold moveTopFromAlt; now destruct (altstack x)|].
  intros y Hy. apply (rearranged x y OpFromAlt H I Hy). unfold moveTopFromAlt in Hy.
  destruct (altstack x) as [|a r] eqn:Ea; [discriminate|]. ok_inv. cbn. intros v Hv.
  destruct Hv as [Hv|Hv]; [apply in_or_app; right; now left|].
  apply in_app_or in Hv as [Hv|Hv]; apply in_or_app; [now left | right; now right].
Qed.

#[local] Hint Resolve safe_erase safe_erase_range safe_swapElements safe_insert : safe.

Lemma safe_2rot x : stacks_inv x -> safe stacks_inv (op_2rot x).
Proof. intros H. unfold op_2rot. walk. Qed.

Lemma safe_2swap x : stacks_inv x -> safe stacks_inv (op_2swap x).
Proof. intros H. unfold op_2swap. walk. Qed.

Lemma safe_rot x : stacks_inv x -> safe stacks_inv (op_rot x).
Proof. intros H. unfold op_rot. walk. Qed.

Lemma safe_swap x : stacks_inv x -> safe stacks_inv (op_swap x).
Proof. intros H. unfold op_swap. walk. Qed.

Lemma safe_nip x : stacks_inv x -> safe stacks_inv (op_nip x).
Proof. intros H. unfold op_nip. walk. Qed.

Lemma safe_tuck x : stacks_inv x -> safe stacks_inv (op_tuck x).
Proof. intros H. unfold op_tuck. walk. Qed.

(** A count of elements or bytes as a number. *)
Lemma safe_push_count x n :
  0 <= n < 2 ^ 63 -> stacks_inv x ->
  safe stacks_inv (let* b := bint_of_size_t n in push_back x (getvch (BigN b))).
Proof.
  intros Hn H. eapply safe_bind with (Q := fun b => bnZ b = n).
  - apply safe_throw. intros b Hb. apply (BN_set_word_Z n b); [lia | exact Hb].
  - intros b Hb. apply safe_push_back; [exact H|]. rewrite getvch_value by exact I.
    cbn [num_value]. rewrite Hb. split; [apply sm_encode_spec|]. intros _.
    pose proof (sm_encode_len n). unfold MAX_SCRIPT_ELEMENT_SIZE_BEFORE_GENESIS. lia.
Qed.

Lemma safe_depth x : stack_size x <= 2 ^ 26 -> stacks_inv x -> safe stacks_inv (op_depth x).
Proof.
  intros Hs H. apply safe_push_count; [|exact H]. pose proof (len_nonneg (stack x)).
  unfold stack_size in *. lia.
Qed.

Lemma safe_size x : stacks_inv x -> safe stacks_inv (op_size x).
Proof.
  intros H. unfold op_size. walk. apply safe_push_count; [|exact H].
  match goal with |- 0 <= len ?v < _ => pose proof (len_nonneg v) end. lia.
Qed.

(** The size of the stack as an [int64_t] operand. *)
Lemma stack_size_int64 x : stack_size x <= 2 ^ 26 -> - 2 ^ 63 <= stack_size x < 2 ^ 63.
Proof. unfold stack_size. pose proof (len_nonneg (stack x)). lia. Qed.

Lemma len_int64 (v : bytes) m : len v < m -> m <= 2 ^ 60 -> - 2 ^ 63 <= len v < 2 ^ 63.
Proof. pose proof (len_nonneg v). lia. Qed.

(** [n < 0 || n >= bound], decided lazily: afterwards [n] is in range. *)
Lemma safe_range {T} (P : T -> Prop) n (bound : outcome bool) (hi : bool) e m :
  safe (fun r => r = hi) bound ->
  (0 <= num_value n -> hi = false -> safe P m) ->
  safe P (let* neg := num_lt_int64 n 0 in
          let* far := if neg then Ok true else bound in
          fail_if far with e ;; m).
Proof.
  intros Hb Hm. eapply safe_bind; [apply safe_num_lt_int64; lia|]. intros neg ->.
  destruct (Z.ltb_spec (num_value n) 0); [exact I|].
  eapply safe_bind; [exact Hb|]. intros far ->. apply safe_error_if. intros Hf. now apply Hm.
Qed.

Lemma safe_pick_roll op x :
  stack_size x <= 2 ^ 26 -> stacks_inv x -> safe stacks_inv (op_pick_roll E op x).
Proof.
  intros Hs H. unfold op_pick_roll. walk.
  assert (Hs3 : stack_size a1 <= 2 ^ 26).
  { unfold stack_size in *. match goal with Hx : stack x = _ |- _ => rewrite Hx, len_cons in Hs end. lia. }
  eapply safe_range; [apply safe_num_ge_int64, stack_size_int64, Hs3|]. intros Hge Hf. zbool.
  eapply safe_bind; [apply safe_to_size_t; lia|]. intros n ->. walk.
  apply safe_bind with (Q := stacks_inv); [|intros y Hy; walk]. walk.
Qed.

(** *** Changing an element in place *)

Lemma Forall_set_nth_ok l i v :
  Forall value_ok l -> value_ok v -> Forall value_ok (set_nth l i v).
Proof.
  rewrite !Forall_forall. intros H Hv w Hw. apply in_set_nth in Hw as [->|Hw]; auto.
Qed.

Lemma elem_changed x y o i v :
  stacks_inv x -> op_ok o x -> run_op o x = Ok y ->
  stack y = set_nth (stack x) i v -> altstack y = altstack x -> value_ok v -> stacks_inv y.
Proof.
  intros (H & HM' & Hs & Ha) Ho Hr Es Ea Hv. pose proof (run_op_max o x y Hr).
  split; [exact (run_op_ok o x y H Ho Hr)|]. split; [congruence|]. rewrite Es, Ea.
  split; [now apply Forall_set_nth_ok | exact Ha].
Qed.

Lemma set_elem_inv x i v :
  stacks_inv x -> (i < length (stack x))%nat -> value_ok v -> len v = len (elem x i) ->
  stacks_inv (set_elem x i v).
Proof.
  intros (H & HM' & Hs & Ha) Hi Hv Hl.
  pose proof (set_elem_acc x i v 0 H Hi (proj1 Hv) ltac:(lia)) as S.
  rewrite Z.add_0_r in S. destruct x as [st al c mx]. cbn [stack altstack combinedStackSize maxStackSize] in *.
  split; [apply S, H|]. split; [exact HM'|]. cbn.
  split; [now apply Forall_set_nth_ok | exact Ha].
Qed.

Lemma nonempty_stack x n : 1 <= n -> n <= stack_size x -> (0 < length (stack x))%nat.
Proof. unfold stack_size, len. lia. Qed.

Lemma map2_ok f a b :
  (forall x y, is_byte x -> is_byte y -> is_byte (f x y)) -> bytes_ok a -> bytes_ok b ->
  bytes_ok (map2 f a b).
Proof.
  intros Hf Ha Hb. unfold map2. apply Forall_map, Forall_forall. intros [x y] Hin. cbn.
  unfold bytes_ok in Ha, Hb. rewrite Forall_forall in Ha, Hb.
  apply Hf; [apply Ha; now apply in_combine_l in Hin | apply Hb; now apply in_combine_r in Hin].
Qed.

Lemma len_map2 f a b : len a = len b -> len (map2 f a b) = len a.
Proof. unfold map2, len. rewrite length_map, length_combine. lia. Qed.

Lemma land_is_byte x y : is_byte x -> is_byte y -> is_byte (Z.land x y).
Proof. intros Hx Hy. apply (land_range 8 x y ltac:(lia) Hx). Qed.

Lemma lxor_is_byte x y : is_byte x -> is_byte y -> is_byte (Z.lxor x y).
Proof.
  unfold is_byte. intros Hx Hy. split; [apply Z.lxor_nonneg; lia|].
  apply Z.log2_lt_cancel. eapply Z.le_lt_trans; [apply Z.log2_lxor; lia|].
  apply Z.max_lub_lt; (apply Z.le_lt_trans with (Z.log2 255); [apply Z.log2_le_mono; lia | reflexivity]).
Qed.

Lemma value_ok_len v w : value_ok v -> bytes_ok w -> len w <= len v -> value_ok w.
Proof. intros [_ H] Hw Hl. split; [exact Hw|]. intros G. specialize (H G). lia. Qed.

Lemma safe_bitwise op x : stacks_inv x -> safe stacks_inv (op_bitwise op x).
Proof.
  intros H. unfold op_bitwise. walk. zbool. apply safe_pop.
  assert (Hn : (1 < length (stack x))%nat) by (unfold stack_size, len in *; lia).
  set (r := if op =? OP_AND then _ else _).
  assert (Hr : bytes_ok r /\ len r = len a).
  { subst r. pose proof land_is_byte. pose proof lor_byte. pose proof lxor_is_byte.
    destruct (op =? OP_AND), (op =? OP_OR), (op =? OP_XOR);
      (split; [eauto using map2_ok with safe | rewrite ?len_map2 by assumption; reflexivity]). }
  destruct Hr as [Hr Hl]. apply set_elem_inv; auto; [now apply (value_ok_len a); auto; lia|].
  unfold elem. rewrite Hl. f_equal. assumption.
Qed.

Lemma safe_invert x : stacks_inv x -> safe stacks_inv (op_invert x).
Proof.
  intros H. unfold op_invert. walk. apply set_elem_inv; [exact H | now apply (nonempty_stack x 1) | |].
  - apply (value_ok_len a); [assumption | | rewrite len_map; lia].
    apply Forall_map, Forall_forall. intros b _. apply u8_range.
  - rewrite len_map. unfold elem. f_equal. assumption.
Qed.

Lemma safe_cat x : stacks_inv x -> safe stacks_inv (op_cat E x).
Proof.
  intros H. unfold op_cat. walk.
  assert (Hi : (0 < length (stack a1))%nat).
  { match goal with Hx : stack x = _ |- _ => unfold stack_size, len in *; rewrite Hx in *; cbn in *; lia end. }
  assert (He : elem a1 0 = a).
  { match goal with Hx : stack x = _, Ha : a = _ |- _ => rewrite Ha, Hx end. reflexivity. }
  apply safe_intro; [unfold append, increaseCombinedStackSize; now destruct (maxStackSize _ <? _)|].
  intros y Hy. apply (elem_changed a1 y (OpAppend 0 a0) 0 (a ++ a0)); auto.
  - split; [auto with safe | exact Hi].
  - unfold append in Hy. ok_inv. apply increase_ok in E0 as [-> _]. cbn. unfold elem in *. now rewrite He.
  - unfold append in Hy. ok_inv. now apply increase_ok in E0 as [-> _].
  - split; [apply bytes_ok_app; auto with safe|]. intros G. rewrite len_app.
    match goal with Hc : _ && _ = false |- _ => rewrite G in Hc; cbn in Hc end. zbool. lia.
Qed.

Lemma value_ok_firstn v n : value_ok v -> value_ok (firstn n v).
Proof.
  intros H. apply (value_ok_len v); [exact H | apply Forall_firstn, H |]. unfold len.
  rewrite length_firstn. lia.
Qed.

Lemma value_ok_skipn v n : value_ok v -> value_ok (skipn n v).
Proof.
  intros H. apply (value_ok_len v); [exact H | apply Forall_skipn, H |]. unfold len.
  rewrite length_skipn. lia.
Qed.

#[local] Hint Resolve value_ok_firstn value_ok_skipn : safe.

Lemma safe_split x : stacks_inv x -> safe stacks_inv (op_split E x).
Proof.
  intros H. unfold op_split. walk.
  eapply safe_range; [apply safe_num_gt_int64, (len_int64 a (2 ^ 31)); [assumption | lia]|].
  intros Hge Hf. zbool. eapply safe_bind; [apply safe_to_size_t; lia|]. intros n ->. walk.
Qed.

Lemma safe_elem_MinimallyEncode x :
  (0 < length (stack x))%nat -> stacks_inv x ->
  safe (fun y => stacks_inv y /\ length (stack y) = length (stack x)) (elem_MinimallyEncode x 0).
Proof.
  intros Hi H. apply safe_intro.
  { unfold elem_MinimallyEncode, increaseCombinedStackSize. now destruct (_ <? _). }
  intros y Hy. assert (He : bytes_ok (elem x 0)) by apply elem_ok, H.
  destruct (MinimallyEncode_spec _ He) as (Em & _ & Hl).
  assert (Es : stack y = set_nth (stack x) 0 (fst (MinimallyEncode (elem x 0))) /\ altstack y = altstack x).
  { unfold elem_MinimallyEncode in Hy. ok_inv. now apply increase_ok in E0 as [-> _]. }
  destruct Es as [Es Ea]. split; [|rewrite Es; now apply length_set_nth].
  refine (elem_changed x y (OpMinimallyEncode 0) 0 _ H Hi Hy Es Ea _).
  apply (value_ok_len (elem x 0)).
  - destruct H as (_ & _ & Hs & _). destruct (stack x) eqn:Ex; [cbn in Hi; lia|]. unfold elem.
    rewrite Ex. now inversion Hs.
  - rewrite Em. apply sm_encode_spec.
  - unfold len. lia.
Qed.

Lemma safe_bin2num x : stacks_inv x -> safe stacks_inv (op_bin2num E x).
Proof.
  intros H. unfold op_bin2num. walk.
  eapply safe_bind; [apply safe_elem_MinimallyEncode; [now apply (nonempty_stack x 1) | exact H]|].
  intros y [Hy _]. walk.
Qed.

Lemma last_masked v m :
  bytes_ok v -> is_byte m -> bytes_ok (removelast v ++ [last v 0 &&& m]).
Proof.
  intros Hv Hm. destruct (exists_last_or_nil v) as [->|(p & t & ->)].
  - constructor; [|constructor]. cbn. unfold is_byte. lia.
  - rewrite removelast_last, last_last. apply bytes_ok_app in Hv as [Hp Ht]. inversion Ht; subst.
    apply bytes_ok_app. split; [exact Hp|]. constructor; [now apply land_is_byte | constructor].
Qed.

Lemma len_masked v m : v <> [] -> len (removelast v ++ [last v 0 &&& m]) = len v.
Proof.
  intros Hv. destruct (exists_last Hv) as (p & t & ->). rewrite removelast_last, !len_app. reflexivity.
Qed.

Lemma safe_padRight x size sign :
  (0 < length (stack x))%nat -> is_byte sign -> stacks_inv x ->
  (genesis = false -> size <= MAX_SCRIPT_ELEMENT_SIZE_BEFORE_GENESIS) ->
  safe stacks_inv (padRight x 0 size sign).
Proof.
  intros Hi Hb H Hsz. apply safe_intro.
  { unfold padRight, increaseCombinedStackSize. destruct (_ <? size); [|easy].
    now destruct (maxStackSize x <? _). }
  intros y Hy. pose proof Hy as Hy2. unfold padRight in Hy2.
  destruct (Z.ltb_spec (len (elem x 0)) size) as [Hlt|]; [|now ok_inv].
  ok_inv. apply increase_ok in E0 as [-> _].
  refine (elem_changed x _ (OpPadRight 0 size sign) 0 _ H (conj Hb Hi) Hy eq_refl eq_refl _).
  assert (He : bytes_ok (elem x 0)) by apply elem_ok, H.
  set (z := repeat 0 (Z.to_nat (size - len (elem x 0)))).
  change (elem {| stack := stack x; altstack := altstack x;
    combinedStackSize := combinedStackSize x + (size - len (elem x 0));
    maxStackSize := maxStackSize x |} 0) with (elem x 0).
  assert (Hz : bytes_ok z).
  { apply Forall_forall. intros b Hb'. apply repeat_spec in Hb'. subst b. unfold is_byte. lia. }
  assert (Hl : len (elem x 0 ++ z) = size).
  { rewrite len_app. unfold z. rewrite len_repeat. lia. }
  assert (Hne : elem x 0 ++ z <> []).
  { intros En. rewrite En in Hl. pose proof (len_nonneg (elem x 0)). cbn in Hl. lia. }
  destruct (exists_last Hne) as (p & t & Ep). rewrite Ep in Hl |- *.
  assert (Hp : bytes_ok (p ++ [t])) by (rewrite <- Ep; now apply bytes_ok_app).
  apply bytes_ok_app in Hp as [Hp _]. rewrite removelast_last. split.
  - apply bytes_ok_app. split; [exact Hp | now constructor].
  - intros G. specialize (Hsz G). rewrite len_app in *. change (len [sign]) with (len [t]). lia.
Qed.

Lemma safe_num2bin x : stacks_inv x -> safe stacks_inv (op_num2bin E x).
Proof.
  intros H. unfold op_num2bin. walk.
  eapply safe_range; [apply safe_num_gt_int64; unfold INT32_MAX; lia|].
  intros Hge Hf. unfold INT32_MAX in Hf. zbool.
  eapply safe_bind; [apply safe_to_size_t; lia|]. intros size ->. walk.
  assert (Hcap : genesis = false -> num_value a0 <= MAX_SCRIPT_ELEMENT_SIZE_BEFORE_GENESIS).
  { intros G. match goal with Hc : _ && _ = false |- _ => rewrite G in Hc; cbn in Hc end. zbool. lia. }
  assert (Hi : (0 < length (stack a1))%nat).
  { match goal with Hx : stack x = _ |- _ => unfold stack_size, len in *; rewrite Hx in *; cbn in *; lia end. }
  eapply safe_bind; [now apply safe_elem_MinimallyEncode|]. intros y [Hy Hly].
  apply safe_error_if. intros Hsz. apply safe_if; intros Heq; [exact Hy|]. zbool. cbv zeta.
  assert (He : value_ok (elem y 0)).
  { destruct Hy as (_ & _ & Hs & _). unfold elem. destruct (stack y); [cbn in *; lia|]. now inversion Hs. }
  destruct (Z.ltb_spec 0 (len (elem y 0))) as [Hpos|Hpos].
  - assert (Hne : elem y 0 <> []) by (intros En; rewrite En in Hpos; cbn in Hpos; lia).
    apply safe_padRight; auto.
    + cbn [set_elem with_stack stack]. rewrite length_set_nth; lia.
    + apply land_is_byte; [|unfold is_byte; lia]. destruct (exists_last Hne) as (p & t & Ep).
      rewrite Ep, last_last. destruct He as [He _]. rewrite Ep in He. apply bytes_ok_app in He as [_ He].
      now inversion He.
    + apply set_elem_inv; auto; [lia | | now apply len_masked].
      apply (value_ok_len (elem y 0)); [exact He | | rewrite len_masked by assumption; lia].
      apply last_masked; [apply He | unfold is_byte; lia].
  - apply safe_padRight; auto; [lia | unfold is_byte; lia].
Qed.

(** ** Hashes *)

Lemma write_words_ok (f : Z -> bytes) l :
  (forall w, bytes_ok (f w) /\ length (f w) = 4%nat) ->
  bytes_ok (concat (map f l)) /\ len (concat (map f l)) = 4 * len l.
Proof.
  intros Hf. induction l as [|w l [IH1 IH2]]; [split; [constructor | reflexivity]|].
  cbn [map concat]. destruct (Hf w) as [H1 H2]. split; [now apply bytes_ok_app|].
  rewrite len_app, IH2, len_cons. unfold len at 1. rewrite H2. lia.
Qed.

Lemma WriteBE32_word w : bytes_ok (WriteBE32 w) /\ length (WriteBE32 w) = 4%nat.
Proof. split; [apply WriteBE32_ok | apply length_WriteBE32]. Qed.

Lemma WriteLE32_word w : bytes_ok (WriteLE32 w) /\ length (WriteLE32 w) = 4%nat.
Proof. split; [apply le_encode_ok | apply length_le_encode]. Qed.

Lemma digest_ok d (l : list Z) (f : Z -> bytes) :
  (forall w, bytes_ok (f w) /\ length (f w) = 4%nat) -> d = concat (map f l) -> len l <= 8 -> value_ok d.
Proof.
  intros Hf -> Hl. destruct (write_words_ok f l Hf) as [H1 H2]. split; [exact H1|].
  intros _. unfold MAX_SCRIPT_ELEMENT_SIZE_BEFORE_GENESIS. lia.
Qed.

Lemma CSHA256_Finalize_ok h : value_ok (CSHA256_Finalize h).
Proof.
  unfold CSHA256_Finalize, Finalize. cbv zeta.
  match goal with |- value_ok (Sha256.output ?s) => generalize s end. intros s.
  apply (digest_ok _ [Sha256.r0 s; Sha256.r1 s; Sha256.r2 s; Sha256.r3 s; Sha256.r4 s; Sha256.r5 s; Sha256.r6 s; Sha256.r7 s] _ WriteBE32_word);
    [unfold Sha256.output; cbn [map concat]; now rewrite app_nil_r | cbv; discriminate].
Qed.

Lemma CSHA1_Finalize_ok h : value_ok (CSHA1_Finalize h).
Proof.
  unfold CSHA1_Finalize, FinalizeLoop. cbv zeta.
  match goal with |- value_ok (Sha1.output ?s) => generalize s end. intros s.
  apply (digest_ok _ [Sha1.r0 s; Sha1.r1 s; Sha1.r2 s; Sha1.r3 s; Sha1.r4 s] _ WriteBE32_word);
    [unfold Sha1.output; cbn [map concat]; now rewrite app_nil_r | cbv; discriminate].
Qed.

Lemma CRIPEMD160_Finalize_ok h : value_ok (CRIPEMD160_Finalize h).
Proof.
  unfold CRIPEMD160_Finalize, FinalizeLoop. cbv zeta.
  match goal with |- value_ok (Ripemd160.output ?s) => generalize s end. intros s.
  apply (digest_ok _ [Ripemd160.r0 s; Ripemd160.r1 s; Ripemd160.r2 s; Ripemd160.r3 s; Ripemd160.r4 s] _ WriteLE32_word);
    [unfold Ripemd160.output; cbn [map concat]; now rewrite app_nil_r | cbv; discriminate].
Qed.

Lemma safe_hash op x : stacks_inv x -> safe stacks_inv (op_hash E op x).
Proof.
  intros H. unfold op_hash. walk. apply safe_push_back; [assumption|]. unfold hash_of.
  repeat match goal with |- value_ok (if ?c then _ else _) => destruct c end;
    auto using CSHA256_Finalize_ok, CSHA1_Finalize_ok, CRIPEMD160_Finalize_ok.
  - apply CRIPEMD160_Finalize_ok.
  - apply CSHA256_Finalize_ok.
Qed.

(** ** Locktime and signatures *)

Lemma safe_nop x : stacks_inv x -> safe stacks_inv (discouraged_nop E x).
Proof. intros H. unfold discouraged_nop. walk. Qed.

(** A five-byte operand that is not negative. *)
Lemma safe_locktime_operand v (P : stacks -> Prop) (K : CScriptNum -> outcome stacks) :
  value_ok v -> len v < 2 ^ 31 -> (forall n, 0 <= n < 2 ^ 39 -> safe P (K (Int64 n))) ->
  safe P (let* n := CScriptNum_of_span v (fRequireMinimal E) 5 false in
          let* neg := num_lt_int64 n 0 in
          fail_if neg with SCRIPT_ERR_NEGATIVE_LOCKTIME ;; K n).
Proof.
  intros Hv Hl HK. eapply safe_bind; [apply safe_span; [apply Hv | exact Hl | lia]|].
  intros [n|n] (_ & _ & Hb & Hn); [|discriminate]. specialize (Hn eq_refl). cbn [num_value] in Hn.
  cbn [num_lt_int64 obind]. apply safe_error_if. intros Hneg. zbool. apply HK.
  change (8 * 5 - 1) with 39 in Hn. lia.
Qed.

Lemma safe_checklocktimeverify x : stacks_inv x -> safe stacks_inv (op_checklocktimeverify E x).
Proof.
  intros H. unfold op_checklocktimeverify. apply safe_if; intros _; [now apply safe_nop|]. walk.
  apply safe_locktime_operand; auto. intros n Hn.
  eapply safe_bind; [now apply CheckLockTime_safe|]. intros ok _. walk.
Qed.

Lemma safe_checksequenceverify x : stacks_inv x -> safe stacks_inv (op_checksequenceverify E x).
Proof.
  intros H. unfold op_checksequenceverify. apply safe_if; intros _; [now apply safe_nop|]. walk.
  apply safe_locktime_operand; auto. intros n Hn. cbn [num_and_int64 obind num_ne num_eq bnZero].
  apply safe_if; intros _; [exact H|].
  eapply safe_bind; [now apply CheckSequence_safe|]. intros ok _. walk.
Qed.

Lemma safe_sig_encoding sig f : safe (fun _ => True) (CheckSignatureEncoding sig f).
Proof.
  unfold CheckSignatureEncoding, IsLowDERSignature.
  repeat first [exact I | apply safe_if; intros _ | apply safe_error_if; intros _
               | eapply safe_bind with (Q := fun _ => True); [|intros ? _]].
Qed.

Lemma safe_pubkey_encoding pk f : safe (fun _ => True) (CheckPubKeyEncoding pk f).
Proof.
  unfold CheckPubKeyEncoding.
  repeat first [exact I | apply safe_if; intros _ | apply safe_error_if; intros _].
Qed.

(** ** Handlers on the whole state *)

(** The invariant of the local variables; a handler does not move the program
    counter. *)
Definition state_inv (s : state) : Prop :=
  stacks_inv (stk s) /\ length (vfExec s) = length (vfElse s).

Definition keeps (s s' : state) : Prop := state_inv s' /\ pc s' = pc s.

Lemma keeps_stk s x : state_inv s -> stacks_inv x -> keeps s (set_stk s x).
Proof. intros [_ Hl] Hx. repeat split; auto; apply Hx. Qed.

Lemma safe_poll s : state_inv s -> safe (fun s' => keeps s s' /\ stk s' = stk s) (poll E s).
Proof.
  intros H. unfold poll. destruct (IsCanceled E (polls s)); [exact I|]. repeat split; auto; apply H.
Qed.

Lemma safe_checksig op s : state_inv s -> safe (keeps s) (op_checksig E op s).
Proof.
  intros H. unfold op_checksig. cbv zeta. pose proof (proj1 H) as Hx. walk.
  eapply safe_bind; [apply safe_sig_encoding|]. intros _ _.
  eapply safe_bind; [apply safe_pubkey_encoding|]. intros _ _.
  eapply safe_bind; [apply CheckSig_safe|]. intros ok _. walk.
  apply safe_bind with (Q := stacks_inv); [walk|]. intros y Hy. now apply keeps_stk.
Qed.

Lemma safe_cleanup_sigs n i x code :
  stacks_inv x -> safe (fun _ => True) (cleanup_sigs E n i x code).
Proof.
  intros H. revert i code. induction n as [|n IH]; intros i code; [exact I|]. cbn [cleanup_sigs].
  eapply safe_bind; [now apply safe_stacktop|]. intros v _. apply IH.
Qed.

Lemma safe_multisig_loop fuel isig ikey nsigs nkeys code s :
  nsigs <= nkeys -> nkeys <= Z.of_nat fuel -> state_inv s ->
  safe (fun r => keeps s (snd r) /\ stk (snd r) = stk s)
    (multisig_loop E fuel isig ikey nsigs nkeys code s).
Proof.
  revert isig ikey nsigs nkeys s. induction fuel as [|fuel IH]; intros isig ikey nsigs nkeys s Hn Hf H;
    cbn [multisig_loop]; destruct (Z.leb_spec nsigs 0).
  1, 3: repeat split; apply H.
  - lia.
  - eapply safe_bind; [now apply safe_poll|]. intros s1 ((H1 & Hpc) & Hstk).
    eapply safe_bind; [apply safe_stacktop, H1|]. intros sig _.
    eapply safe_bind; [apply safe_stacktop, H1|]. intros pk _.
    eapply safe_bind; [apply safe_sig_encoding|]. intros _ _.
    eapply safe_bind; [apply safe_pubkey_encoding|]. intros _ _.
    eapply safe_bind; [apply CheckSig_safe|]. intros ok _. cbv zeta.
    apply safe_if; intros Hlt; [now repeat split; try apply H1|]. zbool.
    eapply safe_mono; [apply IH; auto; lia|].
    intros [b s2] ((H2 & Hpc2) & Hs2). cbn in *. repeat split; try apply H2; congruence.
Qed.

Lemma safe_multisig_pop n ok ikey2 x :
  stacks_inv x -> safe stacks_inv (multisig_pop E n ok ikey2 x).
Proof.
  revert ikey2 x. induction n as [|n IH]; intros ikey2 x H; [exact H|]. cbn [multisig_pop].
  apply safe_bind with (Q := fun _ => True).
  { apply safe_if; intros _; [|exact I]. eapply safe_bind; [now apply safe_stacktop|]. easy. }
  intros b _. apply safe_error_if. intros _. cbv zeta.
  eapply safe_bind; [now apply safe_pop|]. intros y Hy. now apply IH.
Qed.

Lemma safe_small_count v :
  value_ok v -> len v < 2 ^ 31 -> safe (fun n => - 2 ^ 31 < n < 2 ^ 31) (small_count E v).
Proof.
  intros Hv Hl. unfold small_count, MAXIMUM_ELEMENT_SIZE.
  eapply safe_bind; [apply safe_span; [apply Hv | exact Hl | lia]|].
  intros n (_ & _ & _ & Hn). eapply safe_mono; [apply safe_getint|]. intros r ->.
  specialize (Hn eq_refl). change (8 * 4 - 1) with 31 in Hn. lia.
Qed.

Lemma safe_multisig_check op nkeys nsigs s :
  0 <= nsigs <= nkeys -> state_inv s -> safe (keeps s) (multisig_check E op nkeys nsigs s).
Proof.
  intros Hn H. unfold multisig_check. cbv zeta. apply safe_need. intros _.
  eapply safe_bind; [apply safe_cleanup_sigs, H|]. intros code _.
  eapply safe_bind; [apply safe_multisig_loop; auto; lia|].
  intros [ok s1] ((H1 & Hpc) & Hstk). cbn [snd] in *.
  eapply safe_bind; [apply safe_multisig_pop, H1|]. intros x Hx. walk.
  apply safe_bind with (Q := stacks_inv); [walk|]. intros y Hy.
  destruct (keeps_stk s1 y H1 Hy) as [K1 K2]. split; [exact K1 | congruence].
Qed.

Lemma safe_checkmultisig op s : state_inv s -> safe (keeps s) (op_checkmultisig E op s).
Proof.
  intros H. unfold op_checkmultisig. pose proof (proj1 H) as Hx. walk.
  eapply safe_bind; [now apply safe_small_count|]. intros nkeys Hk'. apply safe_error_if. intros Hneg.
  apply safe_error_if. intros _. cbv zeta. apply safe_error_if. intros _. cbn [set_opcount stk].
  walk. eapply safe_bind; [now apply safe_small_count|]. intros nsigs Hs'.
  apply safe_error_if. intros Hneg2. apply safe_error_if. intros Hle. zbool.
  change (keeps s) with (keeps (set_opcount s (u64 (nOpCount s + nkeys)))).
  apply safe_multisig_check; [lia | exact H].
Qed.

(** Each round of the shift loop takes [INT32_MAX] off the count. *)
Lemma safe_shift_loop (shift : bytes -> Z -> bytes) fuel v n s :
  (forall v m, bytes_ok v -> 0 <= m -> length (shift v m) = length v /\ bytes_ok (shift v m)) ->
  value_ok v -> num_good n -> 0 <= num_value n < INT32_MAX * Z.of_nat fuel -> state_inv s ->
  safe (fun r => value_ok (fst r) /\ keeps s (snd r) /\ stk (snd r) = stk s)
    (shift_loop E fuel shift v n s).
Proof.
  intros Hsh. revert v n s. induction fuel as [|fuel IH]; intros v n s Hv Hn Hb H; [lia|].
  cbn [shift_loop]. eapply safe_bind; [apply safe_getint|]. intros m Hm. cbv beta zeta in *.
  destruct (Hsh v m (proj1 Hv) ltac:(lia)) as [Hl Hok].
  eapply safe_bind; [now apply safe_poll|]. intros s1 ((H1 & Hpc) & Hstk).
  eapply safe_bind; [apply safe_era_number; unfold INT32_MAX; lia|]. intros c [Hc Ec].
  eapply safe_bind with (Q := fun r => num_good r /\ num_value r = num_value n - INT32_MAX).
  { apply safe_intro.
    - pose proof (safe_num_sub n c Hn Hc) as S. intros Ha. now rewrite Ha in S.
    - intros r Hr. destruct Hn as (Hn1 & Hn2 & Hn3), Hc as (Hc1 & _).
      destruct (num_op_value Sub n c r Hn1 Hc1 Hr) as [V O]. cbn [Z_op] in V. rewrite Ec in V.
      split; [|exact V]. split; [exact O|]. split; [rewrite (num_op_big Sub n c r Hr); exact Hn2|].
      intros G. specialize (Hn3 G). unfold INT32_MAX in *. lia. }
  intros n' [Hn' Vn']. eapply safe_bind; [apply safe_num_gt_int64; lia|]. intros again ->.
  assert (Hv' : value_ok (shift v m)) by (apply (value_ok_len v); auto; unfold len; lia).
  destruct (Z.ltb_spec 0 (num_value n')).
  - eapply safe_mono; [apply IH; auto; lia|]. intros [w s2] (Hw & (H2 & Hp2) & Hs2). cbn in *.
    repeat split; try apply H2; try apply Hw; congruence.
  - repeat split; cbn; try apply H1; try apply Hv'; congruence.
Qed.

Lemma safe_shift (shift : bytes -> Z -> bytes) s :
  (forall v m, bytes_ok v -> 0 <= m -> length (shift v m) = length v /\ bytes_ok (shift v m)) ->
  state_inv s -> safe (keeps s) (op_shift E shift s).
Proof.
  intros Hsh H. unfold op_shift. pose proof (proj1 H) as Hx. walk.
  eapply safe_bind; [apply safe_num_lt_int64; lia|]. intros neg ->. apply safe_error_if. intros Hneg.
  zbool. eapply safe_bind; [now apply safe_pop2|]. intros x Hx2. cbv zeta.
  assert (Hs2 : state_inv (set_stk s x)) by now apply keeps_stk.
  pose proof (len_nonneg a).
  eapply safe_bind; [apply safe_num_ge_int64; lia|]. intros all ->.
  apply safe_bind with (Q := fun r => value_ok (fst r) /\ keeps (set_stk s x) (snd r) /\
    stk (snd r) = x).
  - destruct (Z.ltb_spec (num_value a1) (len a * 8)) as [Hlt|]; cbn [negb].
    + apply safe_shift_loop; auto. split; [lia|]. rewrite Nat2Z.inj_succ, Z2Nat.id
        by (apply Z.div_pos; unfold INT32_MAX; lia).
      pose proof (Z.mul_succ_div_gt (len a * 8) INT32_MAX ltac:(unfold INT32_MAX; lia)). lia.
    + repeat split; cbn; try apply Hs2; try apply Hx2.
      * apply Forall_forall. intros b Hb. apply repeat_spec in Hb. subst b. unfold is_byte. lia.
      * intros G. rewrite len_repeat. match goal with Ha : value_ok a |- _ => apply Ha in G end.
        unfold len in *. lia.
  - intros [v s2] (Hv & (Hs3 & Hpc) & Hst). cbn in Hv, Hst, Hpc, Hs3.
    eapply safe_bind; [apply safe_push_back; [apply Hs3 | exact Hv]|]. intros y Hy.
    destruct (keeps_stk s2 y Hs3 Hy) as [K1 K2]. split; [exact K1 | cbn in *; congruence].
Qed.

(** ** Control flow *)

Lemma safe_if_op op fExec s : state_inv s -> safe (keeps s) (op_if E op fExec s).
Proof.
  intros H. unfold op_if.
  apply safe_bind with (Q := fun r => keeps s (snd r)).
  - destruct fExec; [|repeat split; apply H]. apply safe_error_if. intros _.
    pose proof (proj1 H) as Hx. walk. now apply keeps_stk.
  - intros [b s1] [[Hx Hl] Hpc]. cbn [snd] in *. repeat split; try apply Hx; cbn; auto; congruence.
Qed.

Lemma safe_else s : state_inv s -> safe (keeps s) (op_else E s).
Proof.
  intros [Hx Hl]. unfold op_else. destruct (vfExec s), (vfElse s); try discriminate Hl; [exact I|].
  apply safe_error_if. intros _. repeat split; try apply Hx. cbn in *. congruence.
Qed.

Lemma safe_endif s : state_inv s -> safe (keeps s) (op_endif s).
Proof.
  intros [Hx Hl]. unfold op_endif. destruct (vfExec s), (vfElse s); try discriminate Hl; [exact I|].
  repeat split; try apply Hx. cbn in *. congruence.
Qed.

(** The result of one instruction. *)
Definition step_keeps (s : state) (r : step) : Prop :=
  match r with
  | Continue s' => keeps s s'
  | Success s' => keeps s s' /\ genesis = true
  end.

Lemma safe_return s : state_inv s -> safe (step_keeps s) (op_return E s).
Proof.
  intros H. unfold op_return. destruct genesis eqn:G; [|exact I].
  destruct (vfExec s); repeat split; try apply H. exact G.
Qed.

Definition room (s : state) : Prop := stack_size (stk s) <= 2 ^ 26.

(** A case of the switch is safe for its labels. *)
Definition case_safe (c : list Z * handler) : Prop :=
  forall op fExec s, In op (fst c) -> op <> OP_PUSH_META -> op <> OP_PARTIAL_HASH ->
  state_inv s -> room s -> safe (step_keeps s) (snd c op fExec s).

Lemma case_on_stk ops f :
  (forall op x, In op ops -> op <> OP_PUSH_META -> op <> OP_PARTIAL_HASH -> stacks_inv x ->
     stack_size x <= 2 ^ 26 -> safe stacks_inv (f op x)) ->
  case_safe (ops, on_stk f).
Proof.
  intros Hf op fExec s Hop H1 H2 H Hr. cbn [snd fst] in *. unfold on_stk.
  eapply safe_bind; [apply Hf; auto; apply H|]. intros x Hx. now apply keeps_stk.
Qed.

Lemma case_on_state ops f :
  (forall op fExec s, In op ops -> state_inv s -> safe (keeps s) (f op fExec s)) ->
  case_safe (ops, on_state f).
Proof.
  intros Hf op fExec s Hop _ _ H _. cbn [snd fst] in *. unfold on_state.
  eapply safe_bind; [now apply Hf|]. intros s' Hs. exact Hs.
Qed.

Lemma small_label op :
  In op [OP_1NEGATE; OP_1; OP_2; OP_3; OP_4; OP_5; OP_6; OP_7; OP_8; OP_9; OP_10; OP_11; OP_12; OP_13;
    OP_14; OP_15; OP_16] -> - 2 ^ 31 <= op < 2 ^ 31.
Proof.
  intros H. assert (forallb (fun o => (0 <=? o) && (o <? 256)) [OP_1NEGATE; OP_1; OP_2; OP_3; OP_4; OP_5;
    OP_6; OP_7; OP_8; OP_9; OP_10; OP_11; OP_12; OP_13; OP_14; OP_15; OP_16] = true) as F by reflexivity.
  rewrite forallb_forall in F. specialize (F op H). zbool. lia.
Qed.

Lemma cases_safe : Forall case_safe (cases E).
Proof.
  unfold cases.
  repeat (constructor; [first
    [ apply case_on_stk; intros op x Hop H1 H2 H Hr;
      first [ exact H
            | simple apply safe_small_int; [now apply (small_label op) | exact H]
            | now simple apply safe_checklocktimeverify | now simple apply safe_checksequenceverify
            | now destruct Hop as [<-|[]]
            | now simple apply safe_nop | now simple apply safe_verify | now simple apply safe_toaltstack
            | now simple apply safe_fromaltstack | now simple apply safe_2drop | now simple apply safe_2dup
            | now simple apply safe_3dup | now simple apply safe_2over | now simple apply safe_2rot | now simple apply safe_2swap
            | now simple apply safe_ifdup | now simple apply safe_depth | now simple apply safe_drop | now simple apply safe_dup
            | now simple apply safe_nip | now simple apply safe_over | now simple apply safe_pick_roll | now simple apply safe_rot
            | now simple apply safe_swap | now simple apply safe_tuck | now simple apply safe_size | now simple apply safe_bitwise
            | now simple apply safe_invert | now simple apply safe_equal | now simple apply safe_unary | now simple apply safe_binary
            | now simple apply safe_within | now simple apply safe_hash | now simple apply safe_cat | now simple apply safe_split
            | now simple apply safe_num2bin | now simple apply safe_bin2num ]
    | apply case_on_state; intros op fExec s Hop H;
      first [ now simple apply safe_if_op | now simple apply safe_else | now simple apply safe_endif
            | now simple apply safe_checksig | now simple apply safe_checkmultisig
            | repeat split; apply H
            | simple apply safe_shift; [intros v m Hv Hm; apply (shift_shape v m Hv Hm) | exact H] ]
    | intros op fExec s _ _ _ H _; now simple apply safe_return ]|]).
  constructor.
Qed.

Lemma safe_switch op fExec s :
  op <> OP_PUSH_META -> op <> OP_PARTIAL_HASH -> state_inv s -> room s ->
  safe (step_keeps s) (switch E op op fExec s).
Proof.
  intros H1 H2 H Hr. unfold switch. destruct (find _ (cases E)) as [[ops h]|] eqn:F.
  - apply find_some in F as [Hin Hop]. pose proof cases_safe as Hc. rewrite Forall_forall in Hc.
    apply (Hc (ops, h) Hin); auto. cbn [fst] in *. apply existsb_exists in Hop as (o & Ho & Eo).
    apply Z.eqb_eq in Eo. now subst.
  - unfold default_case. destruct (_ && _); [repeat split; apply H | exact I].
Qed.

(** The limit on the number of elements that is checked after an instruction. *)
Definition few (s : state) : Prop :=
  genesis = false -> stack_size (stk s) + altstack_size (stk s) <= MAX_STACK_ELEMENTS_BEFORE_GENESIS.

Lemma few_room s : state_inv s -> few s -> room s.
Proof.
  intros [((Ec & Hm & _ & _) & HM' & _) _] Hf. unfold room, few, stack_size, altstack_size in *.
  destruct HM as [_ HMg].
  pose proof (sum_size_count (stack (stk s))). pose proof (sum_size_nonneg (altstack (stk s))).
  pose proof (len_nonneg (altstack (stk s))). unfold MAX_STACK_ELEMENTS_BEFORE_GENESIS in *.
  destruct genesis; [specialize (HMg eq_refl) | specialize (Hf eq_refl)]; lia.
Qed.

Definition step_inv (s : state) (r : step) : Prop :=
  match r with
  | Continue s' | Success s' => keeps s s' /\ few s'
  end.

Lemma safe_exec_instruction op data s :
  op <> OP_PUSH_META -> op <> OP_PARTIAL_HASH -> bytes_ok data -> state_inv s -> few s ->
  safe (step_inv s) (exec_instruction E op data s).
Proof.
  intros H1 H2 Hd H Hf. unfold exec_instruction. apply safe_error_if. intros Hsz. cbv zeta.
  set (s1 := if OP_16 <? op then _ else s).
  assert (Hs1 : keeps s s1 /\ stk s1 = stk s)
    by (subst s1; destruct (OP_16 <? op); repeat split; apply H).
  destruct Hs1 as [[K1 Kpc] Kstk]. apply safe_error_if. intros _. apply safe_error_if. intros _.
  apply safe_bind with (Q := step_keeps s1).
  - apply safe_if; intros _; [|apply safe_if; intros _].
    + apply safe_error_if. intros _. eapply safe_bind.
      * apply safe_push_back; [apply K1|]. split; [exact Hd|]. intros G. rewrite G in Hsz. cbn in Hsz.
        zbool. exact Hsz.
      * intros x Hx. now apply keeps_stk.
    + apply safe_switch; auto. unfold room. rewrite Kstk. now apply few_room.
    + repeat split; apply K1.
  - intros [s2|s2]; [intros [K2 Kp2] | intros [[K2 Kp2] G]].
    + apply safe_error_if. intros Hc. split; [split; [exact K2 | congruence]|].
      intros G. rewrite G in Hc. cbn in Hc. zbool. lia.
    + split; [split; [exact K2 | congruence]|]. intros G'. congruence.
Qed.

(** The opcodes of a script, as the loop reads them. *)
Fixpoint opcodes_fuel (fuel : nat) (pc : bytes) : list Z :=
  match fuel with
  | O => []
  | S fuel =>
      match GetOp2 pc with
      | None => []
      | Some (op, _, rest) => op :: opcodes_fuel fuel rest
      end
  end.

Definition opcodes (script : bytes) : list Z := opcodes_fuel (length script) script.

Lemma opcodes_fuel_enough n m pc :
  (length pc <= n)%nat -> (length pc <= m)%nat -> opcodes_fuel n pc = opcodes_fuel m pc.
Proof.
  revert m pc. induction n as [|n IH]; intros m pc Hn Hm.
  - destruct pc; [|cbn in Hn; lia]. now destruct m.
  - destruct m as [|m]; [destruct pc; [reflexivity | cbn in Hm; lia]|]. cbn [opcodes_fuel].
    destruct (GetOp2 pc) as [[[op data] rest]|] eqn:G; [|reflexivity].
    apply GetOp2_shorter in G. f_equal. apply IH; lia.
Qed.

Lemma opcodes_step pc op data rest :
  GetOp2 pc = Some (op, data, rest) -> opcodes pc = op :: opcodes rest.
Proof.
  intros G. pose proof (GetOp2_shorter _ _ _ _ G). unfold opcodes.
  destruct (length pc) eqn:El; [lia|]. cbn [opcodes_fuel]. rewrite G. f_equal.
  apply opcodes_fuel_enough; lia.
Qed.

(** Scripts without the two opcodes that can read out of bounds. *)
Definition plain (pc : bytes) : Prop :=
  Forall (fun op => op <> OP_PUSH_META /\ op <> OP_PARTIAL_HASH) (opcodes pc).

Lemma safe_loop fuel s :
  (length (pc s) <= fuel)%nat -> bytes_ok (pc s) -> plain (pc s) -> state_inv s -> few s ->
  safe (fun r => match r with Continue s' | Success s' => state_inv s' /\ few s' end) (loop E fuel s).
Proof.
  revert s. induction fuel as [|fuel IH]; intros s Hl Hok Hp H Hf; cbn [loop].
  - destruct (pc s); [now split | cbn in Hl; lia].
  - destruct (pc s) as [|b l] eqn:Epc; [now split|]. rewrite <- Epc in *.
    apply safe_bind with (Q := fun r => match r with
      | Continue s' => state_inv s' /\ few s' /\ bytes_ok (pc s') /\ plain (pc s') /\
                       (length (pc s') <= fuel)%nat
      | Success s' => state_inv s' /\ few s' end).
    2: { intros [s'|s']; [intros (? & ? & ? & ? & ?); now apply IH | now intros [? ?]]. }
    unfold loop_body. eapply safe_bind; [now apply safe_poll|]. intros s1 ((K1 & Kpc) & Kstk).
    rewrite Kpc. destruct (GetOp2 (pc s)) as [[[op data] rest]|] eqn:G; [|exact I].
    pose proof (GetOp2_shorter _ _ _ _ G). destruct (GetOp2_ok _ _ _ _ Hok G) as (_ & Hd & Hr).
    unfold plain in Hp. rewrite (opcodes_step _ _ _ _ G) in Hp. inversion Hp as [|? ? [H1 H2] Hp']; subst.
    eapply safe_mono; [apply (safe_exec_instruction op data (set_pc s1 rest) H1 H2 Hd)|].
    + exact K1.
    + unfold few in *. cbn [set_pc stk]. now rewrite Kstk.
    + intros [s2|s2] [[K2 Kp2] Hf2]; [|now split].
      cbn [set_pc pc] in Kp2. rewrite Kp2. repeat split; try apply K2; auto. lia.
Qed.

(** ** EvalScript *)

(** A result, an error code or a cancellation: no exception leaves the function and
    nothing undefined happens. *)
Definition defined {T} (P : T -> Prop) (m : outcome T) : Prop :=
  match m with Ok a => P a | Err _ | Canceled => True | Throw _ | Abort => False end.

Lemma defined_catch {T} (P : T -> Prop) m : safe P m -> defined P (catch_all m).
Proof. destruct m as [| |[]| |]; cbn; auto. Qed.

Lemma defined_bind {T U} (Q : T -> Prop) (P : U -> Prop) m (f : T -> outcome U) :
  defined Q m -> (forall a, Q a -> defined P (f a)) -> defined P (obind m f).
Proof. destruct m; cbn; auto. Qed.

Lemma defined_bind_eq {T U} (Q : T -> Prop) (P : U -> Prop) m (f : T -> outcome U) :
  defined Q m -> (forall a, m = Ok a -> Q a -> defined P (f a)) -> defined P (obind m f).
Proof. destruct m; cbn; auto. Qed.

Lemma defined_error_if {T} (P : T -> Prop) c e m :
  (c = false -> defined P m) -> defined P (error_if c e m).
Proof. destruct c; cbn; auto. Qed.

Lemma EvalScript_from_defined x script p :
  stacks_inv x ->
  (genesis = false -> stack_size x + altstack_size x <= MAX_STACK_ELEMENTS_BEFORE_GENESIS) ->
  bytes_ok script -> plain script ->
  defined (fun s => state_inv s /\ few s) (EvalScript_from E x [] [] script p).
Proof.
  intros Hx Hf Hok Hp. unfold EvalScript_from. apply defined_error_if. intros _. cbv zeta.
  eapply defined_bind; [apply defined_catch, safe_loop|]; auto.
  - now split.
  - intros [s|s] H; [apply defined_error_if; intros _; exact H | exact H].
Qed.

End Safety.

(** A stack handed from one evaluation to the next: the elements its last child still
    held stay on the counter. *)
Lemma child_inv {B : BIGNUM} (E : env B) k M x :
  stacks_inv E k M x -> stacks_inv E (k + sum_size (altstack x)) M (makeChildStack x).
Proof.
  intros (H & HM & Hs & Ha). split; [now apply makeChildStack_acc|]. repeat split; auto.
Qed.

Section Whole.
Context {B : BIGNUM} {L : BIGNUM_Laws B} {A : BIGNUM_Alloc B} {PK : PubKeyOps}.
Context (E : env B) {C : SafeChecker (checker E)}.

Abbreviation elements_ok x :=
  (utxo_after_genesis E = false -> stack_size x <= MAX_STACK_ELEMENTS_BEFORE_GENESIS).

Lemma EvalScript_safe k M x script p :
  0 <= k -> sane_limits E M -> stacks_inv E k M x -> elements_ok x ->
  bytes_ok script -> plain script ->
  defined (fun r => stacks_inv E (k + sum_size (altstack x)) M (fst r) /\ elements_ok (fst r))
    (EvalScript E x script p).
Proof.
  intros Hk HM Hx Hn Hok Hp. pose proof (sum_size_nonneg (altstack x)).
  unfold EvalScript. eapply defined_bind.
  - apply (EvalScript_from_defined E (k + sum_size (altstack x)) M); auto; [lia | now apply child_inv|].
    intros G. specialize (Hn G). change (altstack_size (makeChildStack x)) with 0.
    change (stack_size (makeChildStack x)) with (stack_size x). lia.
  - intros s [[Hs _] Hf]. cbn [defined fst]. split; [exact Hs|]. intros G. specialize (Hf G).
    pose proof (len_nonneg (altstack (stk s))). unfold altstack_size in *. lia.
Qed.

(** ** VerifyScript *)

Lemma IsP2SH_hash s : IsP2SH s = true -> exists r, s = OP_HASH160 :: r.
Proof.
  unfold IsP2SH. intros H. zbool. destruct s as [|b r]; [discriminate|]. exists r. f_equal.
  match goal with Hb : at_ (b :: r) 0 = _ |- _ => exact Hb end.
Qed.

Lemma hash_of_nothing op s r :
  OP_16 < op -> switch E op = on_stk (op_hash E) -> fExec_of op s = true ->
  stack (stk s) = [] -> exec_instruction E op [] s <> Ok r.
Proof.
  intros Hop Hsw Hex Hs H. unfold exec_instruction in H. rewrite Hex, Hsw in H. cbv zeta in H. ok_inv.
  destruct (Z.leb_spec op OP_PUSHDATA4); [unfold OP_PUSHDATA4, OP_16 in *; lia|].
  rewrite andb_false_r in *. cbn [orb] in *. unfold on_stk, op_hash, need in *.
  destruct (OP_16 <? op); cbn [set_opcount stk] in *; ok_inv; unfold stack_size in *;
    rewrite Hs in *; discriminate.
Qed.

(** Evaluating a P2SH output script on an empty stack fails: its first operation needs
    an argument. *)
Lemma P2SH_needs_argument x script p r :
  stack x = [] -> IsP2SH script = true -> EvalScript E x script p <> Ok r.
Proof.
  intros Hx Hs H. destruct (IsP2SH_hash script Hs) as [rest ->]. unfold EvalScript in H. ok_inv.
  unfold EvalScript_from in E0. ok_inv. cbn [length loop pc] in *.
  match goal with HE : catch_all (obind ?m _) = _ |- _ =>
    rename HE into Hloop; assert (Hm : forall a, m <> Ok a) end.
  - intros r Hr. unfold loop_body, poll in Hr. cbn [polls] in Hr.
    destruct (IsCanceled E p); [discriminate|]. cbn [obind set_polls pc] in Hr.
    change (GetOp2 (OP_HASH160 :: rest)) with (Some (OP_HASH160, [] : bytes, rest)) in Hr.
    apply hash_of_nothing in Hr; auto. unfold OP_16, OP_HASH160. lia.
  - destruct (loop_body _ _) as [r| |[]| |]; try discriminate Hloop. now apply (Hm r).
Qed.

Lemma defined_check_true x : defined (fun _ => True) (check_true x).
Proof. unfold check_true. destruct (stack x) as [|v l]; [exact I|]. now destruct (CastToBool v). Qed.

Lemma pop_inv k M x v r :
  stacks_inv E k M x -> stack x = v :: r ->
  safe (fun y => stacks_inv E k M y /\ stack y = r) (pop_back x) /\ value_ok E v /\
  exists y, pop_back x = Ok y.
Proof.
  intros H Es. pose proof H as (_ & _ & Hv & _). rewrite Es in Hv.
  split; [|split; [now inversion Hv | unfold pop_back; rewrite Es; eexists; reflexivity]].
  eapply safe_mono; [exact (safe_pop_back E k M x H)|]. intros y [Hy [w Ew]]. split; [exact Hy | congruence].
Qed.
End Whole.

(** ** Theorems *)

Section Theorems.
Context {B : BIGNUM} {L : BIGNUM_Laws B} {A : BIGNUM_Alloc B} {PK : PubKeyOps}.

(** C2: evaluating a script without OP_PUSH_META and OP_PARTIAL_HASH always ends in a result, an error
    code or a cancellation: it never runs out of the loop bound, never reaches undefined behaviour or a
    failed assertion, and no exception leaves the function. This is for numbers of at most four bytes
    before Genesis, and, after Genesis, for a limit of at most 2 GiB on the memory of the stacks; the
    default limit after Genesis is larger, and with it the assertion of [to_size_t_limited] can fail
    (see [split_correct]). The signature checker must have an answer for every argument. The stacks that
    are left satisfy the invariant: bytes only, the memory counter exactly the size of all elements and
    of those the caller's stacks still held, and within the limit; before Genesis elements of at most
    520 bytes and at most 1000 of them. *)
Theorem EvalScript_defined (E : env B) (C : SafeChecker (checker E)) (k M : Z) (x : stacks)
    (script : bytes) (p : nat) :
  (utxo_after_genesis E = false -> maxScriptNumLength E <= 4) ->
  (utxo_after_genesis E = true -> M <= 2 ^ 31) ->
  0 <= k -> stacks_inv E k M x ->
  (utxo_after_genesis E = false -> stack_size x <= MAX_STACK_ELEMENTS_BEFORE_GENESIS) ->
  bytes_ok script -> plain script ->
  match EvalScript E x script p with
  | Ok (y, _) =>
      stacks_inv E (k + sum_size (altstack x)) M y /\
      combinedStackSize y = k + sum_size (altstack x) + sum_size (stack y) + sum_size (altstack y) /\
      combinedStackSize y <= M /\
      (utxo_after_genesis E = false -> stack_size y <= MAX_STACK_ELEMENTS_BEFORE_GENESIS)
  | Err _ | Canceled => True
  | Throw _ | Abort => False
  end.
Proof.
  intros H4 HM Hk Hx Hn Hok Hp. pose proof (EvalScript_safe E k M x script p Hk (conj H4 HM) Hx Hn Hok Hp) as H.
  destruct (EvalScript E x script p) as [[y q]| | | |]; cbn in H; auto. destruct H as [Hy Hs].
  pose proof Hy as ((Ec & Hm & _) & HM' & _). split; [exact Hy|]. split; [lia|]. split; [lia | exact Hs].
Qed.

(** Whether [VerifyScript] runs a redeem script. *)
Definition runs_redeem (f : Z) (scriptPubKey : bytes) : bool :=
  has f SCRIPT_VERIFY_P2SH && negb (has f SCRIPT_UTXO_AFTER_GENESIS) && IsP2SH scriptPubKey.

(** Success only when the assertion holds, undefined only when it does not. *)
Definition ends {T} (assertion : bool) (m : outcome T) : Prop :=
  match m with
  | Ok _ => assertion = true
  | Err _ | Canceled => True
  | Throw _ => False
  | Abort => assertion = false
  end.

Lemma ends_bind {T U} (Q : T -> Prop) a m (f : T -> outcome U) :
  defined Q m -> (forall x, m = Ok x -> Q x -> ends a (f x)) -> ends a (obind m f).
Proof. destruct m; cbn; auto; contradiction. Qed.

Lemma ends_error_if {T} a c e (m : outcome T) : (c = false -> ends a m) -> ends a (error_if c e m).
Proof. destruct c; cbn; auto. Qed.

Lemma P2SH_defined (E0 : env B) (C : SafeChecker (checker E0)) scriptSig k M x p v r :
  let E := set_flags E0 (VerifyScript_flags (flags E0)) in
  0 <= k -> sane_limits E M -> stacks_inv E k M x ->
  (utxo_after_genesis E = false -> stack_size x <= MAX_STACK_ELEMENTS_BEFORE_GENESIS) ->
  stack x = v :: r -> plain v ->
  defined (fun _ => True) (VerifyScript_p2sh E0 scriptSig x p).
Proof.
  intros E Hk HM Hx Hn Es Hv. unfold VerifyScript_p2sh. apply defined_error_if. intros _. rewrite Es.
  fold E. destruct (pop_inv E k M x v r Hx Es) as (Hpop & [Hok _] & y & Ey).
  rewrite Ey in Hpop |- *. cbn [safe obind] in *. destruct Hpop as [Hy Er].
  eapply defined_bind; [apply (EvalScript_safe E (C := C) k M); auto|].
  - intros G. specialize (Hn G). unfold stack_size in *. rewrite Es, len_cons in Hn. rewrite Er. lia.
  - intros [z q] _. eapply defined_bind; [apply defined_check_true|]. easy.
Qed.

(** C14: verifying an input script against an output script always ends in success, an error code or a
    cancellation, with one exception: when the flags ask for a clean stack without P2SH, the assertion
    that forbids this fails where the verification would have succeeded. The other assertion, that the
    restored stack is not empty before the redeem script runs, holds because a P2SH output script fails
    on an empty stack. Neither script, nor the redeem script where one is run, contains OP_PUSH_META or
    OP_PARTIAL_HASH; numbers have at most four bytes before Genesis, and the limit on the memory of the
    stacks is not negative and after Genesis at most 2 GiB. *)
Theorem VerifyScript_defined (E0 : env B) (C : SafeChecker (checker E0))
    (scriptSig scriptPubKey : bytes) :
  let f := VerifyScript_flags (flags E0) in
  let E := set_flags E0 f in
  let M := GetMaxStackMemoryUsage (config E0) (has f SCRIPT_UTXO_AFTER_GENESIS) (consensus E0) in
  (utxo_after_genesis E = false -> maxScriptNumLength E <= 4) ->
  0 <= M -> (utxo_after_genesis E = true -> M <= 2 ^ 31) ->
  bytes_ok scriptSig -> bytes_ok scriptPubKey -> plain scriptSig -> plain scriptPubKey ->
  (runs_redeem f scriptPubKey = true ->
   forall x p v r, EvalScript E (LimitedStack_new M) scriptSig 0 = Ok (x, p) -> stack x = v :: r -> plain v) ->
  let assertion := negb (has f SCRIPT_VERIFY_CLEANSTACK) || has f SCRIPT_VERIFY_P2SH in
  match VerifyScript E0 scriptSig scriptPubKey with
  | Ok _ => assertion = true
  | Err _ | Canceled => True
  | Throw _ => False
  | Abort => assertion = false
  end.
Proof.
  intros f E M H4 HM0 HM Hs1 Hs2 Hp1 Hp2 Hredeem assertion. pose proof (conj H4 HM : sane_limits E M) as HL.
  assert (H0 : stacks_inv E 0 M (LimitedStack_new M)) by (repeat split; cbn; auto; constructor).
  change (ends assertion (VerifyScript E0 scriptSig scriptPubKey)).
  unfold VerifyScript. fold f. fold E. change (config E) with (config E0).
  change (consensus E) with (consensus E0). fold M. apply ends_error_if. intros _. cbv zeta.
  eapply ends_bind; [apply (EvalScript_safe E (C := C) 0 M); auto; [lia|]|].
  { intros _. cbn. unfold MAX_STACK_ELEMENTS_BEFORE_GENESIS. lia. }
  intros [x p] Ev1 [Hx Hn1]. cbn [fst] in *. pose proof (sum_size_nonneg (altstack (LimitedStack_new M))) as Hk1.
  eapply ends_bind; [apply (EvalScript_safe E (C := C) (0 + sum_size (altstack (LimitedStack_new M))) M); auto; lia|].
  intros [y q] Ev2 _. eapply ends_bind; [apply defined_check_true|]. intros _ _ _.
  apply ends_bind with (Q := fun _ => True).
  - unfold runs_redeem in Hredeem. destruct (has f SCRIPT_VERIFY_P2SH && negb (has f SCRIPT_UTXO_AFTER_GENESIS));
      cbn [andb] in *; [|exact I]. destruct (IsP2SH scriptPubKey) eqn:HP; [|exact I].
    destruct (stack x) as [|v r] eqn:Es; [now apply P2SH_needs_argument in Ev2|].
    apply (P2SH_defined E0 C scriptSig (0 + sum_size (altstack (LimitedStack_new M))) M x q v r); eauto; lia.
  - intros [z n] _ _. unfold ends, assertion. destruct (has f SCRIPT_VERIFY_CLEANSTACK); [|reflexivity].
    destruct (has f SCRIPT_VERIFY_P2SH); [|reflexivity]. cbn [assert_]. now apply ends_error_if.
Qed.
End Theorems.

(** A concrete environment: the limits of the default configuration before Genesis and
    a bound of 1 MB of stack memory after it. *)
#[local] Instance no_keys : PubKeyOps := {| CheckLowS _ := true; PubKey_Verify _ _ _ := true |}.

Definition sample_config : CScriptConfig :=
  mkConfig (fun g _ => if g then 2 ^ 32 - 1 else 500) (fun g _ => if g then 750000 else 4)
    (fun g _ => if g then 2 ^ 32 - 1 else 10000) (fun g _ => if g then 2 ^ 32 - 1 else 20)
    (fun g _ => if g then 1000000 else 2 ^ 63 - 1).

Definition sample_env (flags : Z) : env Z_BIGNUM :=
  mkEnv Z_BIGNUM sample_config true (fun _ => false) flags BaseChecker (repeat 0 64).

Lemma plain_bool script :
  forallb (fun op => negb (op =? OP_PUSH_META) && negb (op =? OP_PARTIAL_HASH)) (opcodes script) = true ->
  plain script.
Proof.
  intros H. apply Forall_forall. intros op Hop. rewrite forallb_forall in H. specialize (H op Hop).
  zbool. now split.
Qed.

Lemma new_inv {B : BIGNUM} (E : env B) M : 0 <= M -> stacks_inv E 0 M (LimitedStack_new M).
Proof. intros HM. repeat split; try constructor. exact HM. Qed.

Lemma EvalScript_defined_witness :
  EvalScript (sample_env SCRIPT_UTXO_AFTER_GENESIS) (LimitedStack_new 1000000)
    [OP_2; OP_3; OP_ADD; OP_5; OP_NUMEQUAL] 0 = Ok (mkStacks [[1]] [] 33 1000000, 5%nat) /\
  stacks_inv (sample_env SCRIPT_UTXO_AFTER_GENESIS) 0 1000000 (mkStacks [[1]] [] 33 1000000).
Proof.
  assert (Ev : EvalScript (sample_env SCRIPT_UTXO_AFTER_GENESIS) (LimitedStack_new 1000000)
    [OP_2; OP_3; OP_ADD; OP_5; OP_NUMEQUAL] 0 = Ok (mkStacks [[1]] [] 33 1000000, 5%nat))
    by (vm_compute; reflexivity).
  split; [exact Ev|].
  assert (T := EvalScript_defined (L := Z_BIGNUM_Laws) (sample_env SCRIPT_UTXO_AFTER_GENESIS)
    BaseChecker_safe 0 1000000 (LimitedStack_new 1000000) [OP_2; OP_3; OP_ADD; OP_5; OP_NUMEQUAL] 0
    ltac:(intros G; vm_compute in G; discriminate G) ltac:(lia) ltac:(lia) (new_inv _ 1000000 ltac:(lia))
    ltac:(intros G; vm_compute in G; discriminate G)
    (bytes_okb [OP_2; OP_3; OP_ADD; OP_5; OP_NUMEQUAL] eq_refl) (plain_bool [OP_2; OP_3; OP_ADD; OP_5; OP_NUMEQUAL] eq_refl)).
  rewrite Ev in T. exact (proj1 T).
Defined.

(** A pay-to-script-hash output whose redeem script is OP_1. *)
Definition sample_p2sh : bytes :=
  [OP_HASH160; 20] ++ hash_of (sample_env 0) OP_HASH160 [OP_1] ++ [OP_EQUAL].

Lemma VerifyScript_defined_witness :
  VerifyScript (sample_env SCRIPT_VERIFY_P2SH) [1; OP_1] sample_p2sh = Ok tt /\
  VerifyScript (sample_env SCRIPT_VERIFY_P2SH) [] sample_p2sh = Err SCRIPT_ERR_INVALID_STACK_OPERATION /\
  match VerifyScript (sample_env SCRIPT_VERIFY_P2SH) [1; OP_1] sample_p2sh with
  | Ok _ => true = true
  | Err _ | Canceled => True
  | Throw _ => False
  | Abort => true = false
  end.
Proof.
  split; [vm_compute; reflexivity|]. split; [vm_compute; reflexivity|].
  assert (Hok : bytes_ok sample_p2sh) by (apply bytes_okb; vm_compute; reflexivity).
  pose proof (VerifyScript_defined (L := Z_BIGNUM_Laws) (sample_env SCRIPT_VERIFY_P2SH) BaseChecker_safe
    [1; OP_1] sample_p2sh) as T.
  cbv zeta in T. apply T; clear T; [| | | | exact Hok | | |].
  - intros _. vm_compute. discriminate.
  - vm_compute. discriminate.
  - intros G. vm_compute in G. discriminate G.
  - apply bytes_okb. reflexivity.
  - apply plain_bool. vm_compute. reflexivity.
  - apply plain_bool. vm_compute. reflexivity.
  - intros _ x p v r Hev Es.
    match type of Hev with ?t = _ =>
      assert (Ev : t = Ok (mkStacks [[OP_1]] [] 33 (2 ^ 63 - 1), 1%nat)) by (vm_compute; reflexivity) end.
    rewrite Ev in Hev. apply Ok_inj in Hev. assert (stack x = [[OP_1]]) as Hx by (inversion Hev; reflexivity).
    rewrite Hx in Es. assert (v = [OP_1]) as -> by congruence. apply plain_bool. reflexivity.
Defined.

End InterpreterSafety.
