(* ===== verification/InterpreterSpec.v ===== *)
(** * What the opcodes compute

    Specifications of the handlers of Interpreter on plain lists and integers: the
    rearranging opcodes as a table of list functions, arithmetic on integers, multisig as
    an order-preserving assignment of signatures to keys, the partial hash, the data a
    script can ask for, and the effect of branches that are not executed. *)

From S2P Require Import Prelude Endian IntSerialization Outcome BigInt ScriptNum LimitedStack.
From S2P Require Import Hasher Sha256 Sha1 Ripemd160 Hash Opcodes Script Serialize Transaction ScriptChecks.
From S2P Require Import Interpreter InterpreterSafety.
Import IntSerialization BigInt ScriptNum LimitedStack Sha256 Sha1 Ripemd160 Hash Script
  Transaction ScriptChecks Interpreter InterpreterSafety.

Module InterpreterSpec.
Local Open Scope outcome_scope.
Local Open Scope word_scope.

(** ** Rearranging opcodes *)

(** What an opcode does to the main stack (top first) and the alternative stack. *)
Definition effect : Type := list valtype -> list valtype -> ScriptError + (list valtype * list valtype).

(** Too few elements. *)
Definition short : ScriptError + (list valtype * list valtype) := inl SCRIPT_ERR_INVALID_STACK_OPERATION.

Definition stack_table : list (Z * effect) := [
  (OP_TOALTSTACK, fun l a => match l with x :: l => inr (l, x :: a) | _ => short end);
  (OP_FROMALTSTACK, fun l a =>
    match a with x :: a => inr (x :: l, a) | _ => inl SCRIPT_ERR_INVALID_ALTSTACK_OPERATION end);
  (OP_2DROP, fun l a => match l with _ :: _ :: l => inr (l, a) | _ => short end);
  (OP_2DUP, fun l a => match l with x2 :: x1 :: _ => inr (x2 :: x1 :: l, a) | _ => short end);
  (OP_3DUP, fun l a => match l with x3 :: x2 :: x1 :: _ => inr (x3 :: x2 :: x1 :: l, a) | _ => short end);
  (OP_2OVER, fun l a => match l with _ :: _ :: x2 :: x1 :: _ => inr (x2 :: x1 :: l, a) | _ => short end);
  (OP_2ROT, fun l a =>
    match l with
    | x6 :: x5 :: x4 :: x3 :: x2 :: x1 :: l => inr (x2 :: x1 :: x6 :: x5 :: x4 :: x3 :: l, a)
    | _ => short
    end);
  (OP_2SWAP, fun l a =>
    match l with x4 :: x3 :: x2 :: x1 :: l => inr (x2 :: x1 :: x4 :: x3 :: l, a) | _ => short end);
  (OP_IFDUP, fun l a => match l with x :: _ => inr (if CastToBool x then x :: l else l, a) | _ => short end);
  (OP_DROP, fun l a => match l with _ :: l => inr (l, a) | _ => short end);
  (OP_DUP, fun l a => match l with x :: _ => inr (x :: l, a) | _ => short end);
  (OP_NIP, fun l a => match l with x2 :: _ :: l => inr (x2 :: l, a) | _ => short end);
  (OP_OVER, fun l a => match l with _ :: x1 :: _ => inr (x1 :: l, a) | _ => short end);
  (OP_ROT, fun l a => match l with x3 :: x2 :: x1 :: l => inr (x1 :: x3 :: x2 :: l, a) | _ => short end);
  (OP_SWAP, fun l a => match l with x2 :: x1 :: l => inr (x1 :: x2 :: l, a) | _ => short end);
  (OP_TUCK, fun l a => match l with x2 :: x1 :: l => inr (x2 :: x1 :: x2 :: l, a) | _ => short end)
].

(** The machine's version: the memory the new elements take is checked. *)
Definition apply_effect (f : effect) (x : stacks) : outcome stacks :=
  match f (stack x) (altstack x) with
  | inl e => Err e
  | inr (l, a) =>
      let size := combinedStackSize x + (sum_size l + sum_size a) -
                  (sum_size (stack x) + sum_size (altstack x)) in
      if maxStackSize x <? size then Throw stack_overflow_error
      else Ok (mkStacks l a size (maxStackSize x))
  end.

Lemma push_back_eq l a c m v :
  push_back (mkStacks l a c m) v =
  if m <? c + elem_size v then Throw stack_overflow_error else Ok (mkStacks (v :: l) a (c + elem_size v) m).
Proof.
  unfold push_back, increaseCombinedStackSize. cbn [combinedStackSize maxStackSize stack altstack].
  now destruct (m <? c + elem_size v).
Qed.

Lemma pop_back_eq l a c m v :
  pop_back (mkStacks (v :: l) a c m) = Ok (mkStacks l a (c - elem_size v) m).
Proof. reflexivity. Qed.

Lemma stacktop_eq l a c m i :
  (i < length l)%nat -> stacktop (mkStacks l a c m) (- Z.of_nat (S i)) = Ok (nth i l []).
Proof.
  intros Hi. unfold stacktop, top_index, len. cbn [stack].
  destruct (Z.leb_spec 0 (- Z.of_nat (S i))); [lia|]. rewrite Z.opp_involutive.
  destruct (Z.ltb_spec (Z.of_nat (length l)) (Z.of_nat (S i))); [lia|]. cbn [obind]. do 2 f_equal. lia.
Qed.

Lemma swapElements_eq l a c m i j :
  (i < length l)%nat -> (j < length l)%nat ->
  swapElements (mkStacks l a c m) (len l - 1 - Z.of_nat i) (len l - 1 - Z.of_nat j) =
  Ok (mkStacks (set_nth (set_nth l i (nth j l [])) j (nth i l [])) a c m).
Proof.
  intros Hi Hj. unfold swapElements. cbn [stack]. unfold len in *.
  replace ((0 <=? Z.of_nat (length l) - 1 - Z.of_nat i) &&
    (Z.of_nat (length l) - 1 - Z.of_nat i <? Z.of_nat (length l)) &&
    (0 <=? Z.of_nat (length l) - 1 - Z.of_nat j) &&
    (Z.of_nat (length l) - 1 - Z.of_nat j <? Z.of_nat (length l))) with true
    by (symmetry; rewrite !andb_true_iff, !Z.leb_le, !Z.ltb_lt; lia).
  replace (Z.to_nat (Z.of_nat (length l) - 1 - (Z.of_nat (length l) - 1 - Z.of_nat i))) with i by lia.
  replace (Z.to_nat (Z.of_nat (length l) - 1 - (Z.of_nat (length l) - 1 - Z.of_nat j))) with j by lia.
  reflexivity.
Qed.

Lemma need_enough {T} n x (m : outcome T) : n <= stack_size x -> need n x m = m.
Proof. intros H. unfold need, error_if. destruct (Z.ltb_spec (stack_size x) n); [lia | reflexivity]. Qed.

Lemma need_short {T} n x (m : outcome T) :
  stack_size x < n -> need n x m = Err SCRIPT_ERR_INVALID_STACK_OPERATION.
Proof. intros H. unfold need, error_if. destruct (Z.ltb_spec (stack_size x) n); [reflexivity | lia]. Qed.

(** Bounds on a stack given by its first elements. *)
Ltac size_lia :=
  unfold stack_size, altstack_size in *; cbn [stack altstack] in *; rewrite ?len_cons in *;
  repeat match goal with
  | |- context [len ?l] => lazymatch goal with H : 0 <= len l |- _ => fail | _ => pose proof (len_nonneg l) end
  | _ : context [len ?l] |- _ => lazymatch goal with H : 0 <= len l |- _ => fail | _ => pose proof (len_nonneg l) end
  end; change (len (@nil valtype)) with 0 in *; lia.

(** Compares sizes and closes the branches. *)
Ltac settle :=
  rewrite ?sum_size_cons; change (sum_size []) with 0 in *;
  repeat match goal with
  | |- context [elem_size ?v] =>
      lazymatch goal with H : 32 <= elem_size v |- _ => fail | _ => pose proof (elem_size_pos v) end
  end;
  repeat match goal with
  | |- context [?a <? ?b] => destruct (Z.ltb_spec a b); try lia
  end; try reflexivity; try (do 2 f_equal; lia).

Ltac pushes := rewrite ?sum_size_cons; change (sum_size []) with 0 in *; repeat (rewrite push_back_eq; match goal with |- context [?a <? ?b] =>
  destruct (Z.ltb_spec a b); cbn [obind] end).

(** Reads the elements of a stack given by its first elements. *)
Ltac tops :=
  repeat match goal with
  | |- context [stacktop (mkStacks ?l ?a ?c ?m) ?i] =>
      let n := eval cbv in (Z.to_nat (- i - 1)) in
      replace (stacktop (mkStacks l a c m) i) with (Ok (nth n l []))
        by (symmetry; apply (stacktop_eq l a c m n); cbn [length]; lia)
  end; cbn [obind nth combinedStackSize maxStackSize].

Ltac by_shape op :=
  unfold op, apply_effect; cbn [stack altstack].

Ltac too_short := try (rewrite need_short by size_lia; reflexivity); rewrite need_enough by size_lia.

(** Swaps the elements at two positions from the top. *)
Ltac swaps i j :=
  match goal with
  | |- context [swapElements (mkStacks ?l ?a ?c ?m) ?p ?q] =>
      replace (swapElements (mkStacks l a c m) p q)
        with (swapElements (mkStacks l a c m) (len l - 1 - Z.of_nat i) (len l - 1 - Z.of_nat j))
        by (f_equal; size_lia);
      rewrite (swapElements_eq l a c m i j) by (cbn [length]; lia)
  end; cbn [obind set_nth firstn skipn app nth combinedStackSize maxStackSize].

Section Rearrange.
Context (l a : list valtype) (c m : Z) (Hc : c <= m).
Abbreviation X := (mkStacks l a c m).

Lemma eq_toaltstack : op_toaltstack X =
  apply_effect (fun l a => match l with x :: l => inr (l, x :: a) | _ => short end) X.
Proof.
  by_shape op_toaltstack. destruct l as [|x1 r]; too_short.
  cbn [combinedStackSize maxStackSize moveTopToAlt stack altstack]. settle.
Qed.

Lemma eq_fromaltstack : op_fromaltstack X =
  apply_effect (fun l a =>
    match a with x :: a => inr (x :: l, a) | _ => inl SCRIPT_ERR_INVALID_ALTSTACK_OPERATION end) X.
Proof.
  by_shape op_fromaltstack. unfold error_if, altstack_size. cbn [altstack].
  destruct a as [|x1 r]; [reflexivity|]. rewrite len_cons. pose proof (len_nonneg r).
  destruct (Z.ltb_spec (1 + len r) 1); [lia|].
  cbn [combinedStackSize maxStackSize moveTopFromAlt stack altstack]. settle.
Qed.

Lemma eq_2drop : op_2drop X =
  apply_effect (fun l a => match l with _ :: _ :: l => inr (l, a) | _ => short end) X.
Proof.
  by_shape op_2drop. destruct l as [|x2 [|x1 r]]; too_short. unfold pop2. rewrite pop_back_eq.
  cbn [obind combinedStackSize maxStackSize]. rewrite pop_back_eq. settle.
Qed.

Lemma eq_2dup : op_2dup X =
  apply_effect (fun l a => match l with x2 :: x1 :: _ => inr (x2 :: x1 :: l, a) | _ => short end) X.
Proof.
  by_shape op_2dup. destruct l as [|x2 [|x1 r]]; too_short. tops. pushes; settle.
Qed.

Lemma eq_3dup : op_3dup X =
  apply_effect (fun l a =>
    match l with x3 :: x2 :: x1 :: _ => inr (x3 :: x2 :: x1 :: l, a) | _ => short end) X.
Proof.
  by_shape op_3dup. destruct l as [|x3 [|x2 [|x1 r]]]; too_short. tops. pushes; settle.
Qed.

Lemma eq_2over : op_2over X =
  apply_effect (fun l a =>
    match l with _ :: _ :: x2 :: x1 :: _ => inr (x2 :: x1 :: l, a) | _ => short end) X.
Proof.
  by_shape op_2over. destruct l as [|x4 [|x3 [|x2 [|x1 r]]]]; too_short. tops. pushes; settle.
Qed.

Lemma eq_2rot : op_2rot X =
  apply_effect (fun l a =>
    match l with
    | x6 :: x5 :: x4 :: x3 :: x2 :: x1 :: l => inr (x2 :: x1 :: x6 :: x5 :: x4 :: x3 :: l, a)
    | _ => short
    end) X.
Proof.
  by_shape op_2rot. destruct l as [|x6 [|x5 [|x4 [|x3 [|x2 [|x1 r]]]]]]; too_short. tops.
  unfold erase_range. cbn [Z.leb Z.compare CompOpp Pos.compare Pos.compare_cont orb stack].
  match goal with |- context [len ?v <? _] => destruct (Z.ltb_spec (len v) (- (-6))); [size_lia|] end.
  cbn [obind]. change (Z.to_nat (- (-4))) with 4%nat. change (Z.to_nat (- (-6))) with 6%nat.
  unfold with_stack, decreaseCombinedStackSize.
  cbn [firstn skipn app Nat.sub stack altstack combinedStackSize maxStackSize].
  pushes; settle.
Qed.

Lemma eq_2swap : op_2swap X =
  apply_effect (fun l a =>
    match l with x4 :: x3 :: x2 :: x1 :: l => inr (x2 :: x1 :: x4 :: x3 :: l, a) | _ => short end) X.
Proof.
  by_shape op_2swap. destruct l as [|x4 [|x3 [|x2 [|x1 r]]]]; too_short.
  swaps 3%nat 1%nat. swaps 2%nat 0%nat. settle.
Qed.

Lemma eq_ifdup : op_ifdup X =
  apply_effect (fun l a => match l with x :: _ => inr (if CastToBool x then x :: l else l, a) | _ => short end) X.
Proof.
  by_shape op_ifdup. destruct l as [|x1 r]; too_short. tops. destruct (CastToBool x1); [pushes|]; settle.
Qed.

Lemma eq_drop : op_drop X = apply_effect (fun l a => match l with _ :: l => inr (l, a) | _ => short end) X.
Proof.
  by_shape op_drop. destruct l as [|x1 r]; too_short. rewrite pop_back_eq.
  cbn [combinedStackSize maxStackSize]. settle.
Qed.

Lemma eq_dup : op_dup X = apply_effect (fun l a => match l with x :: _ => inr (x :: l, a) | _ => short end) X.
Proof. by_shape op_dup. destruct l as [|x1 r]; too_short. tops. pushes; settle. Qed.

Lemma eq_nip : op_nip X =
  apply_effect (fun l a => match l with x2 :: _ :: l => inr (x2 :: l, a) | _ => short end) X.
Proof.
  by_shape op_nip. destruct l as [|x2 [|x1 r]]; too_short. unfold erase, top_index.
  cbn [Z.leb Z.compare stack]. 
  match goal with |- context [len ?v <? _] => destruct (Z.ltb_spec (len v) (- (-2))); [size_lia|] end.
  change (Z.to_nat (- (-2) - 1)) with 1%nat.
  unfold with_stack, decreaseCombinedStackSize.
  cbn [obind firstn skipn app nth stack altstack combinedStackSize maxStackSize]. settle.
Qed.

Lemma eq_over : op_over X =
  apply_effect (fun l a => match l with _ :: x1 :: _ => inr (x1 :: l, a) | _ => short end) X.
Proof. by_shape op_over. destruct l as [|x2 [|x1 r]]; too_short. tops. pushes; settle. Qed.

Lemma eq_rot : op_rot X =
  apply_effect (fun l a => match l with x3 :: x2 :: x1 :: l => inr (x1 :: x3 :: x2 :: l, a) | _ => short end) X.
Proof.
  by_shape op_rot. destruct l as [|x3 [|x2 [|x1 r]]]; too_short.
  swaps 2%nat 1%nat. swaps 1%nat 0%nat. settle.
Qed.

Lemma eq_swap : op_swap X =
  apply_effect (fun l a => match l with x2 :: x1 :: l => inr (x1 :: x2 :: l, a) | _ => short end) X.
Proof. by_shape op_swap. destruct l as [|x2 [|x1 r]]; too_short. swaps 1%nat 0%nat. settle. Qed.

Lemma eq_tuck : op_tuck X =
  apply_effect (fun l a => match l with x2 :: x1 :: l => inr (x2 :: x1 :: x2 :: l, a) | _ => short end) X.
Proof.
  by_shape op_tuck. destruct l as [|x2 [|x1 r]]; too_short. tops. unfold insert, increaseCombinedStackSize.
  cbn [Z.leb Z.compare maxStackSize combinedStackSize stack altstack].
  destruct (Z.ltb_spec m (c + elem_size x2)); cbn [obind stack]; [settle|].
  match goal with |- context [len ?v <? _] => destruct (Z.ltb_spec (len v) (- (-2))); [size_lia|] end.
  change (Z.to_nat (- (-2))) with 2%nat.
  unfold with_stack. cbn [firstn skipn app stack altstack combinedStackSize maxStackSize]. settle.
Qed.
End Rearrange.

Section Opcodes.
Context {B : BIGNUM} {PK : PubKeyOps} (E : env B).

Lemma on_stk_effect (g : Z -> stacks -> outcome stacks) f op fExec s :
  (forall l a c m, c <= m -> g op (mkStacks l a c m) = apply_effect f (mkStacks l a c m)) ->
  combinedStackSize (stk s) <= maxStackSize (stk s) ->
  on_stk g op fExec s = let* x := apply_effect f (stk s) in Ok (Continue (set_stk s x)).
Proof. intros H Hc. unfold on_stk. destruct (stk s) as [l a c m]. cbn in Hc. now rewrite H. Qed.

(** the sixteen opcodes that rearrange the stacks do exactly what the table of list
    functions says: too few elements give the error code, otherwise the new stacks are
    those of the table with the memory counter adjusted, and an exception is thrown just
    when the result does not fit the memory limit. *)
Theorem stack_opcodes_exact (op : Z) (f : effect) (fExec : bool) (s : state) :
  In (op, f) stack_table -> combinedStackSize (stk s) <= maxStackSize (stk s) ->
  switch E op op fExec s = let* x := apply_effect f (stk s) in Ok (Continue (set_stk s x)).
Proof.
  intros Hin Hc. cbn [In stack_table] in Hin.
  repeat destruct Hin as [Hin|Hin]; try contradiction; injection Hin as <- <-;
    (apply on_stk_effect; [|exact Hc]); intros l a c m Hm;
    auto using eq_toaltstack, eq_fromaltstack, eq_2drop, eq_2dup, eq_3dup, eq_2over, eq_2rot, eq_2swap,
      eq_ifdup, eq_drop, eq_dup, eq_nip, eq_over, eq_rot, eq_swap, eq_tuck.
Qed.
End Opcodes.

(** ** Arithmetic *)

(** A computation that succeeds with a result that satisfies [P]. *)
Definition gives {T} (P : T -> Prop) (m : outcome T) : Prop := exists a, m = Ok a /\ P a.

Lemma gives_or_throw {T} (P : T -> Prop) e (m : option T) :
  m <> None -> (forall a, m = Some a -> P a) -> gives P (or_throw e m).
Proof. intros Hm HP. destruct m as [a|]; [|easy]. exists a. auto. Qed.

Lemma gives_bind {T U} (Q : T -> Prop) (P : U -> Prop) m (f : T -> outcome U) :
  gives Q m -> (forall a, Q a -> gives P (f a)) -> gives P (obind m f).
Proof. intros (a & -> & Ha) Hf. now apply Hf. Qed.

Section Numbers.
Context {B : BIGNUM} {L : BIGNUM_Laws B} {A : BIGNUM_Alloc B} {PK : PubKeyOps}.

Lemma gives_of_int64 i : - 2 ^ 63 < i < 2 ^ 63 -> gives (fun b => bnZ b = i) (bint_of_int64 i).
Proof.
  intros Hi. assert (G : gives (fun _ => True) (bint_of_int64 i)).
  { unfold bint_of_int64, INT64_MIN. destruct (Z.leb_spec 0 i); [|destruct (Z.ltb_spec (- 2 ^ 63) i); [|lia]].
    - apply gives_or_throw; [apply BN_set_word_some; lia | easy].
    - eapply gives_bind; [apply gives_or_throw with (P := fun _ => True)|]; [apply BN_set_word_some; lia | easy|].
      intros b _. now eexists. }
  destruct G as (b & Eb & _). exists b. split; [exact Eb|]. now apply bint_of_int64_Z in Eb; [|lia].
Qed.

Lemma gives_of_int i : - 2 ^ 31 < i < 2 ^ 31 -> gives (fun b => bnZ b = i) (bint_of_int i).
Proof.
  intros Hi. assert (G : gives (fun _ => True) (bint_of_int i)).
  { unfold bint_of_int, INT_MIN. destruct (Z.leb_spec 0 i); [|destruct (Z.ltb_spec (- 2 ^ 31) i); [|lia]].
    - apply gives_or_throw; [apply BN_set_word_some; lia | easy].
    - eapply gives_bind; [apply gives_or_throw with (P := fun _ => True)|]; [apply BN_set_word_some; lia | easy|].
      intros b _. now eexists. }
  destruct G as (b & Eb & _). exists b. split; [exact Eb|]. now apply bint_of_int_Z in Eb; [|lia].
Qed.

(** What makes a stack element readable as a number. *)
Definition readable (min : bool) (max : Z) (v : valtype) : Prop :=
  bytes_ok v /\ len v <= max /\ len v < 2 ^ 31 /\ (min = true -> minimal v = true).

Lemma gives_span min max big v :
  (big = false -> max <= 8) -> readable min max v ->
  gives (fun n => num_value n = sm_value v /\ is_big n = big /\ num_ok n)
    (CScriptNum_of_span v min max big).
Proof.
  intros Hmax (Hv & Hl & H31 & Hmin).
  assert (G : gives (fun _ => True) (CScriptNum_of_span v min max big)).
  { unfold CScriptNum_of_span. destruct (Z.ltb_spec max (len v)); [lia|].
    replace (min && negb (IsMinimallyEncoded v max)) with false.
    2: { rewrite IsMinimallyEncoded_minimal by exact Hv. destruct min; [|reflexivity]. cbn [andb].
         rewrite (Hmin eq_refl), andb_true_r. symmetry. now apply negb_false_iff, Z.leb_le. }
    pose proof (len_nonneg v). destruct (Z.eqb_spec (len v) 0), big.
    - eapply gives_bind; [apply gives_of_int; lia | intros b _; now eexists].
    - now eexists.
    - pose proof (bint_deserialize_some A v Hv H31). destruct (bint_deserialize v); [now eexists | easy].
    - specialize (Hmax eq_refl). rewrite deserialize_value by (auto; lia). now eexists. }
  destruct G as (n & En & _). exists n. split; [exact En|].
  now destruct (CScriptNum_of_span_value v min max big n Hv H31 Hmax En) as (? & ? & ? & ?).
Qed.

Lemma gives_num_op o a b :
  num_ok a -> num_ok b -> is_big a = is_big b ->
  (is_big a = false -> Z.abs (num_value a) < 2 ^ 31 /\ Z.abs (num_value b) < 2 ^ 31) ->
  (o = Div \/ o = Mod -> num_value b <> 0) ->
  gives (fun r => num_value r = Z_op o (num_value a) (num_value b) /\ num_ok r) (num_op o a b).
Proof.
  intros Ha Hb Hab Hs H0. assert (G : gives (fun _ => True) (num_op o a b)).
  { destruct a as [x|x], b as [y|y]; cbn [is_big num_value] in *; try discriminate.
    - destruct (Hs eq_refl). eexists. split; [apply num_op_small; auto | exact I].
    - destruct o; cbn [num_op num_add num_sub num_mul num_div num_mod];
        (eapply gives_bind; [apply gives_or_throw with (P := fun _ => True); [|easy] | intros r _; now eexists]);
        [apply BN_add_some | apply BN_sub_some | apply BN_mul_some | apply BN_div_some | apply BN_mod_some];
        apply H0; auto. }
  destruct G as (r & Er & _). exists r. split; [exact Er | now apply num_op_value].
Qed.

Lemma gives_compare (m : outcome bool) (v : bool) :
  gives (fun _ => True) m -> (forall r, m = Ok r -> r = v) -> m = Ok v.
Proof. intros (r & Er & _) H. now rewrite <- (H r Er). Qed.

(** An [int64_t] that survives negation. *)
Definition num_strict (a : CScriptNum) : Prop :=
  match a with Int64 n => - 2 ^ 63 < n < 2 ^ 63 | BigN _ => True end.

Lemma num_strict_ok a : num_strict a -> num_ok a.
Proof. destruct a; cbn; lia. Qed.

Ltac total_compare :=
  match goal with
  | |- gives _ (let* _ := bint_of_int64 _ in _) =>
      eapply gives_bind; [now apply gives_of_int64 | intros b _; now eexists]
  | |- _ => now eexists
  end.

Lemma num_eq_total a b :
  num_strict a -> num_strict b -> num_eq a b = Ok (num_value a =? num_value b).
Proof.
  intros Ha Hb. apply gives_compare; [|intros r; apply num_eq_value; now apply num_strict_ok].
  destruct a, b; cbn [num_eq]; total_compare.
Qed.

Lemma num_lt_total a b :
  num_strict a -> num_strict b -> num_lt a b = Ok (num_value a <? num_value b).
Proof.
  intros Ha Hb. apply gives_compare; [|intros r; apply num_lt_value; now apply num_strict_ok].
  destruct a, b; cbn [num_lt]; total_compare.
Qed.

Lemma num_neg_total a :
  num_strict a -> gives (fun r => num_value r = - num_value a /\ num_ok r) (num_neg a).
Proof.
  intros Ha. assert (G : gives (fun _ => True) (num_neg a)).
  { destruct a as [n|n]; cbn [num_neg]; [|now eexists]. cbn in Ha. rewrite checked64_fits by lia. now eexists. }
  destruct G as (r & Er & _). exists r. split; [exact Er | now apply num_neg_value].
Qed.

(** ** The opcodes on integers *)

Definition Z_unary (op v : Z) : Z :=
  if op =? OP_1ADD then v + 1
  else if op =? OP_1SUB then v - 1
  else if op =? OP_NEGATE then - v
  else if op =? OP_ABS then Z.abs v
  else if op =? OP_NOT then Z.b2z (v =? 0)
  else Z.b2z (negb (v =? 0)).

Definition Z_binary (op a b : Z) : outcome Z :=
  if op =? OP_ADD then Ok (a + b)
  else if op =? OP_SUB then Ok (a - b)
  else if op =? OP_MUL then Ok (a * b)
  else if op =? OP_DIV then if b =? 0 then Err SCRIPT_ERR_DIV_BY_ZERO else Ok (Z.quot a b)
  else if op =? OP_MOD then if b =? 0 then Err SCRIPT_ERR_MOD_BY_ZERO else Ok (Z.rem a b)
  else if op =? OP_BOOLAND then Ok (Z.b2z (negb (a =? 0) && negb (b =? 0)))
  else if op =? OP_BOOLOR then Ok (Z.b2z (negb (a =? 0) || negb (b =? 0)))
  else if op =? OP_NUMEQUAL then Ok (Z.b2z (a =? b))
  else if op =? OP_NUMEQUALVERIFY then Ok (Z.b2z (a =? b))
  else if op =? OP_NUMNOTEQUAL then Ok (Z.b2z (negb (a =? b)))
  else if op =? OP_LESSTHAN then Ok (Z.b2z (a <? b))
  else if op =? OP_GREATERTHAN then Ok (Z.b2z (b <? a))
  else if op =? OP_LESSTHANOREQUAL then Ok (Z.b2z (a <=? b))
  else if op =? OP_GREATERTHANOREQUAL then Ok (Z.b2z (b <=? a))
  else if op =? OP_MIN then Ok (Z.min a b)
  else if op =? OP_MAX then Ok (Z.max a b)
  else Abort.

(** A number as the interpreter reads it. *)
Definition operand (E : env B) (n : CScriptNum) : Prop :=
  num_strict n /\ is_big n = utxo_after_genesis E /\ (is_big n = false -> Z.abs (num_value n) < 2 ^ 31).

Lemma of_bool_value b : num_value (of_bool (B := B) b) = Z.b2z b /\ num_ok (of_bool (B := B) b).
Proof. destruct b; cbn; lia. Qed.

(** The result of an operation is the integer [v]. *)
Definition stands_for (m : outcome CScriptNum) (v : outcome Z) : Prop :=
  match v with
  | Ok z => gives (fun r => num_value r = z /\ num_ok r) m
  | Err e => m = Err e
  | _ => False
  end.

Lemma stands_for_bool b z : Z.b2z b = z -> stands_for (Ok (of_bool b)) (Ok z).
Proof. intros <-. eexists. split; [reflexivity | apply of_bool_value]. Qed.

Lemma gives_era_number E n :
  - 2 ^ 31 < n < 2 ^ 31 -> gives (fun a => num_value a = n /\ operand E a) (era_number E n).
Proof.
  intros Hn. unfold era_number, operand. destruct (utxo_after_genesis E).
  - eapply gives_bind; [now apply gives_of_int|]. intros b Hb. eexists. split; [reflexivity|].
    repeat split; auto. discriminate.
  - eexists. split; [reflexivity|]. cbn. repeat split; lia.
Qed.

Lemma gives_operands E o a b :
  operand E a -> operand E b -> (o = Div \/ o = Mod -> num_value b <> 0) ->
  gives (fun r => num_value r = Z_op o (num_value a) (num_value b) /\ num_ok r) (num_op o a b).
Proof.
  intros (Sa & Ba & Ha) (Sb & Bb & Hb) H0.
  apply gives_num_op; auto using num_strict_ok; [congruence|]. intros F. split; [auto | apply Hb; congruence].
Qed.

Lemma unary_number_correct E op n :
  In op [OP_1ADD; OP_1SUB; OP_NEGATE; OP_ABS; OP_NOT; OP_0NOTEQUAL] -> operand E n ->
  stands_for (unary_number E op n) (Ok (Z_unary op (num_value n))).
Proof.
  intros Hop Hn. pose proof Hn as (Sn & _).
  assert (Hz : num_strict (bnZero (B := B))) by (cbn; lia).
  destruct (gives_era_number E 1 ltac:(lia)) as (one & E1 & V1 & O1).
  pose proof (gives_operands E Add n one Hn O1) as GA. pose proof (gives_operands E Sub n one Hn O1) as GS.
  rewrite V1 in GA, GS. cbn [Z_op num_op] in GA, GS.
  unfold unary_number, num_ne. rewrite E1, num_lt_total, num_eq_total by assumption.
  change (num_value bnZero) with 0. cbn [In] in Hop.
  repeat destruct Hop as [<-|Hop]; try contradiction; cbn [obind].
  - apply GA. now intros [|].
  - apply GS. now intros [|].
  - now apply num_neg_total.
  - change (Z_unary OP_ABS (num_value n)) with (Z.abs (num_value n)).
    destruct (Z.ltb_spec (num_value n) 0).
    + destruct (num_neg_total n Sn) as (r & Er & Hr). exists r. split; [exact Er|]. rewrite Z.abs_neq by lia. exact Hr.
    + eexists. split; [reflexivity|]. rewrite Z.abs_eq by lia. split; [reflexivity | now apply num_strict_ok].
  - now apply stands_for_bool.
  - now apply stands_for_bool.
Qed.

Lemma binary_number_correct E op a b :
  In op [OP_ADD; OP_SUB; OP_MUL; OP_DIV; OP_MOD; OP_BOOLAND; OP_BOOLOR; OP_NUMEQUAL; OP_NUMEQUALVERIFY;
    OP_NUMNOTEQUAL; OP_LESSTHAN; OP_GREATERTHAN; OP_LESSTHANOREQUAL; OP_GREATERTHANOREQUAL; OP_MIN; OP_MAX] ->
  operand E a -> operand E b ->
  stands_for (binary_number op a b) (Z_binary op (num_value a) (num_value b)).
Proof.
  intros Hop Ha Hb. pose proof Ha as (Sa & _). pose proof Hb as (Sb & _).
  assert (Hz : num_strict (bnZero (B := B))) by (cbn; lia).
  pose proof (fun o => gives_operands E o a b Ha Hb) as G.
  unfold binary_number, num_gt, num_le, num_ge, num_ne. rewrite !num_eq_total, !num_lt_total by assumption.
  change (num_value bnZero) with 0. unfold Z_binary. cbn [In] in Hop.
  repeat destruct Hop as [<-|Hop]; try contradiction; cbn [obind].
  - apply (G Add). now intros [|].
  - apply (G Sub). now intros [|].
  - apply (G Mul). now intros [|].
  - cbn -[Z.eqb Z.quot num_div]. destruct (Z.eqb_spec (num_value b) 0); [reflexivity|]. apply (G Div). auto.
  - cbn -[Z.eqb Z.rem num_mod]. destruct (Z.eqb_spec (num_value b) 0); [reflexivity|]. apply (G Mod). auto.
  - destruct (num_value a =? 0), (num_value b =? 0); now apply stands_for_bool.
  - destruct (num_value a =? 0), (num_value b =? 0); now apply stands_for_bool.
  - now apply stands_for_bool.
  - now apply stands_for_bool.
  - now apply stands_for_bool.
  - now apply stands_for_bool.
  - now apply stands_for_bool.
  - apply stands_for_bool. now rewrite Z.leb_antisym.
  - apply stands_for_bool. now rewrite Z.leb_antisym.
  - eexists. split; [reflexivity|]. destruct (Z.ltb_spec (num_value a) (num_value b));
      (split; [lia | now apply num_strict_ok]).
  - eexists. split; [reflexivity|]. destruct (Z.ltb_spec (num_value b) (num_value a));
      (split; [lia | now apply num_strict_ok]).
Qed.

Lemma gives_operand E v :
  (utxo_after_genesis E = false -> maxScriptNumLength E <= 4) ->
  readable (fRequireMinimal E) (maxScriptNumLength E) v ->
  gives (fun n => num_value n = sm_value v /\ operand E n) (number E v).
Proof.
  intros H4 Hv. destruct Hv as (Hok & Hl & H31 & Hmin). unfold number.
  destruct (gives_span (fRequireMinimal E) (maxScriptNumLength E) (utxo_after_genesis E) v) as (n & En & V & Bn & _).
  { intros F. specialize (H4 F). lia. } { now repeat split. }
  exists n. split; [exact En|]. split; [exact V|]. unfold operand. rewrite Bn.
  assert (S : utxo_after_genesis E = false -> Z.abs (sm_value v) < 2 ^ 31).
  { intros F. specialize (H4 F). apply (sm_value_abs v 4); auto; lia. }
  rewrite V. split; [|auto]. destruct n as [z|z]; [|exact I]. cbn [is_big num_value num_strict] in *.
  symmetry in Bn. specialize (S Bn). subst z. lia.
Qed.

(** on operands the rules accept, the numeric opcodes compute on integers: the new
    top element is the minimal encoding of the exact integer result whatever the
    representation, division by zero is the only other error of the operation itself, and
    OP_NUMEQUALVERIFY consumes a true result.  Comparisons and OP_WITHIN push what the
    integer relation says. *)
Theorem numeric_opcodes_correct (E : env B) (op : Z) (v1 v2 v3 : valtype) (r alt : list valtype) (c m : Z) :
  (utxo_after_genesis E = false -> maxScriptNumLength E <= 4) ->
  Forall (readable (fRequireMinimal E) (maxScriptNumLength E)) [v1; v2; v3] ->
  (In op [OP_1ADD; OP_1SUB; OP_NEGATE; OP_ABS; OP_NOT; OP_0NOTEQUAL] ->
   op_unary E op (mkStacks (v1 :: r) alt c m) =
   push_back (mkStacks r alt (c - elem_size v1) m) (sm_encode (Z_unary op (sm_value v1)))) /\
  (In op [OP_ADD; OP_SUB; OP_MUL; OP_DIV; OP_MOD; OP_BOOLAND; OP_BOOLOR; OP_NUMEQUAL; OP_NUMEQUALVERIFY;
     OP_NUMNOTEQUAL; OP_LESSTHAN; OP_GREATERTHAN; OP_LESSTHANOREQUAL; OP_GREATERTHANOREQUAL; OP_MIN; OP_MAX] ->
   op_binary E op (mkStacks (v2 :: v1 :: r) alt c m) =
   let* v := Z_binary op (sm_value v1) (sm_value v2) in
   let* y := push_back (mkStacks r alt (c - elem_size v2 - elem_size v1) m) (sm_encode v) in
   if op =? OP_NUMEQUALVERIFY then
     if v =? 0 then Err SCRIPT_ERR_NUMEQUALVERIFY else pop_back y
   else Ok y) /\
  op_within E (mkStacks (v3 :: v2 :: v1 :: r) alt c m) =
  push_bool (mkStacks r alt (c - elem_size v3 - elem_size v2 - elem_size v1) m)
    ((sm_value v2 <=? sm_value v1) && (sm_value v1 <? sm_value v3)).
Proof.
  intros H4 HR. inversion HR as [|? ? R1 HR2]; subst. inversion HR2 as [|? ? R2 HR3]; subst.
  inversion HR3 as [|? ? R3 _]; subst. clear HR HR2 HR3.
  destruct (gives_operand E v1 H4 R1) as (n1 & N1 & V1 & O1).
  destruct (gives_operand E v2 H4 R2) as (n2 & N2 & V2 & O2).
  destruct (gives_operand E v3 H4 R3) as (n3 & N3 & V3 & O3).
  split; [|split].
  - intros Hop. unfold op_unary. rewrite need_enough by size_lia. tops. rewrite N1. cbn [obind].
    destruct (unary_number_correct E op n1 Hop O1) as (u & Eu & Vu & Ku). rewrite Eu. cbn [obind].
    rewrite pop_back_eq. cbn [obind]. now rewrite getvch_value, Vu, V1 by assumption.
  - intros Hop. unfold op_binary. rewrite need_enough by size_lia. tops. rewrite N1, N2. cbn [obind].
    pose proof (binary_number_correct E op n1 n2 Hop O1 O2) as Hb. rewrite V1, V2 in Hb.
    destruct (Z_binary op (sm_value v1) (sm_value v2)) as [v|e| | |] eqn:EZ; cbn [stands_for obind] in *;
      try contradiction; [|now rewrite Hb].
    destruct Hb as (u & Eu & Vu & Ku). rewrite Eu. cbn [obind]. unfold pop2. rewrite pop_back_eq.
    cbn [obind]. rewrite pop_back_eq. cbn [obind]. rewrite getvch_value, Vu, push_back_eq by assumption.
    destruct (m <? _); cbn [obind]; [reflexivity|]. destruct (op =? OP_NUMEQUALVERIFY); [|reflexivity].
    tops. destruct (sm_encode_spec v) as (Hok & _ & Hv). rewrite CastToBool_sm, Hv by assumption.
    now destruct (v =? 0).
  - unfold op_within. rewrite need_enough by size_lia. tops. rewrite N1, N2, N3. cbn [obind].
    unfold num_le. destruct O1 as (S1 & _), O2 as (S2 & _), O3 as (S3 & _).
    rewrite !num_lt_total by assumption. cbn [obind]. rewrite V1, V2, V3.
    unfold pop3, pop2. rewrite pop_back_eq. cbn [obind]. rewrite pop_back_eq. cbn [obind].
    rewrite pop_back_eq. cbn [obind]. rewrite Z.leb_antisym. now destruct (sm_value v1 <? sm_value v2).
Qed.
(** *** Splitting *)

Lemma num_lt_int64_total a i : - 2 ^ 63 < i < 2 ^ 63 -> num_lt_int64 a i = Ok (num_value a <? i).
Proof.
  intros Hi. destruct a as [x|x]; [reflexivity|]. destruct (gives_of_int64 i Hi) as (b & Eb & Vb).
  cbn [num_lt_int64 num_value]. now rewrite Eb, <- Vb, <- bint_lt_Z.
Qed.

Lemma num_gt_int64_total a i : - 2 ^ 63 < i < 2 ^ 63 -> num_gt_int64 a i = Ok (i <? num_value a).
Proof.
  intros Hi. destruct a as [x|x]; [reflexivity|]. destruct (gives_of_int64 i Hi) as (b & Eb & Vb).
  cbn [num_gt_int64 num_value]. now rewrite Eb, <- Vb, <- bint_lt_Z.
Qed.

(** The assertion of the conversion. *)
Lemma to_size_t_limited_total a :
  to_size_t_limited a = if (0 <=? num_value a) && (num_value a <? 2 ^ 31) then Ok (num_value a) else Abort.
Proof.
  assert (V : forall n, u64 n = n \/ (0 <=? n) && (n <? 2 ^ 31) = false).
  { intros n. destruct (Z.leb_spec 0 n); [|now right]. destruct (Z.ltb_spec n (2 ^ 31)); [left | now right].
    apply u64_small. lia. }
  destruct a as [n|n]; cbn [to_size_t_limited num_value]; unfold INT_MAX.
  - replace (n <=? 2 ^ 31 - 1) with (n <? 2 ^ 31) by (destruct (Z.ltb_spec n (2 ^ 31)), (Z.leb_spec n (2 ^ 31 - 1)); lia).
    destruct (V n) as [-> | ->]; [now destruct (_ && _) | reflexivity].
  - destruct (gives_of_int64 0 ltac:(lia)) as (z & -> & Vz). destruct (gives_of_int64 (2 ^ 31 - 1) ltac:(lia)) as (k & -> & Vk).
    cbn [obind]. rewrite !bint_lt_Z, Vz, Vk, <- !Z.leb_antisym.
    replace (bnZ n <=? 2 ^ 31 - 1) with (bnZ n <? 2 ^ 31) by (destruct (Z.ltb_spec (bnZ n) (2 ^ 31)), (Z.leb_spec (bnZ n) (2 ^ 31 - 1)); lia).
    destruct ((0 <=? bnZ n) && (bnZ n <? 2 ^ 31)) eqn:R; [|reflexivity]. cbn [assert_]. apply andb_true_iff in R as [R1 R2]. apply Z.leb_le in R1. apply Z.ltb_lt in R2.
    assert (R : - 2 ^ 63 < bnZ n < 2 ^ 63) by lia. pose proof (BN_to_long_some n R) as S. unfold bint_to_size_t_limited, to_long.
    destruct (BN_to_long n) as [z'|] eqn:El; [|contradiction]. apply BN_to_long_Z in El; [|lia]. cbn [or_throw obind].
    now rewrite El, u64_small by lia.
Qed.

(** C38: OP_SPLIT cuts an element at the position on top of the stack and refuses a position that is negative
    or past the end. It fails the assertion on the width of an [int] exactly when the position is in
    range and 2^31 or more, which the default limits after Genesis allow. The position is readable as a
    number under the rules of the era, and the element is shorter than 2^63 bytes. *)
Theorem split_correct (E : env B) (n data : valtype) (r alt : list valtype) (c m : Z) :
  (utxo_after_genesis E = false -> maxScriptNumLength E <= 4) ->
  readable (fRequireMinimal E) (maxScriptNumLength E) n -> len data < 2 ^ 63 ->
  op_split E (mkStacks (n :: data :: r) alt c m) =
  let k := sm_value n in
  if (k <? 0) || (len data <? k) then Err SCRIPT_ERR_INVALID_SPLIT_RANGE
  else if 2 ^ 31 <=? k then Abort
  else
    let* y := push_back (mkStacks r alt (c - elem_size n - elem_size data) m) (firstn (Z.to_nat k) data) in
    push_back y (skipn (Z.to_nat k) data).
Proof.
  intros H4 R Hd. destruct (gives_operand E n H4 R) as (a & Ea & Va & _). pose proof (len_nonneg data) as Hd0.
  unfold op_split. rewrite need_enough by size_lia. tops. cbn [obind nth]. rewrite Ea. cbn [obind].
  rewrite num_lt_int64_total, Va by lia. cbn [obind]. cbv zeta. destruct (Z.ltb_spec (sm_value n) 0) as [|H0]; [reflexivity|].
  rewrite num_gt_int64_total, Va by lia. cbn [obind orb]. destruct (Z.ltb_spec (len data) (sm_value n)) as [|H1]; [reflexivity|].
  cbn [error_if]. rewrite to_size_t_limited_total, Va. destruct (Z.leb_spec 0 (sm_value n)); [|lia]. cbn [andb].
  destruct (Z.ltb_spec (sm_value n) (2 ^ 31)), (Z.leb_spec (2 ^ 31) (sm_value n)); try lia; [|reflexivity].
  cbn [obind]. unfold pop2. rewrite pop_back_eq. cbn [obind]. now rewrite pop_back_eq.
Qed.
End Numbers.

(** ** Hashes *)

Section Hashes.
Context {B : BIGNUM} {PK : PubKeyOps} (E : env B).

(** The function of the standards each opcode stands for. *)
Definition hash_table : list (Z * (bytes -> bytes)) := [
  (OP_RIPEMD160, spec_ripemd160); (OP_SHA1, fips_sha1); (OP_SHA256, fips_sha256);
  (OP_HASH160, fun d => spec_ripemd160 (fips_sha256 d)); (OP_HASH256, fun d => fips_sha256 (fips_sha256 d))].

Lemma CRIPEMD160_digest buf0 d :
  length buf0 = 64%nat -> CRIPEMD160_Finalize (CRIPEMD160_Write (CRIPEMD160_init buf0) d) = spec_ripemd160 d.
Proof.
  intros Hb. pose proof (FinalizeLoop_Writes _ _ _ Ripemd160.output Ripemd160.Initialize
    Ripemd160.Transform1_spec length_WriteLE64 buf0 [d] Hb) as Ed.
  cbn [concat] in Ed. rewrite app_nil_r in Ed. exact Ed.
Qed.

Lemma hash_of_table op f d :
  length (garbage E) = 64%nat -> In (op, f) hash_table -> hash_of E op d = f d.
Proof.
  intros Hg Hin. cbn [In hash_table] in Hin.
  repeat destruct Hin as [Hin|Hin]; try contradiction; injection Hin as <- <-; unfold hash_of.
  - now apply CRIPEMD160_digest.
  - change (OP_SHA1 =? OP_RIPEMD160) with false. change (OP_SHA1 =? OP_SHA1) with true. cbv iota.
    pose proof (FinalizeLoop_Writes _ _ _ Sha1.output Sha1.Initialize
      Sha1.Transform1_fips1 length_WriteBE64 (garbage E) [d] Hg) as Ed.
    cbn [concat] in Ed. rewrite app_nil_r in Ed. exact Ed.
  - now apply CSHA256_digest.
  - change (CHash160_Finalize (garbage E) (CSHA256_Write (CSHA256_init (garbage E)) d) =
      spec_ripemd160 (fips_sha256 d)).
    unfold CHash160_Finalize. cbv zeta. rewrite CSHA256_digest by exact Hg. now apply CRIPEMD160_digest.
  - change (CHash256_Finalize (CHash256_Write (CSHA256_init (garbage E)) d) = fips_sha256 (fips_sha256 d)).
    apply CHash256_Finalize_repr.
    apply (Write_repr 64 Sha256.Transform1 ltac:(lia) ltac:(apply div64) Sha256.Initialize _ [] d).
    apply repr_init; [lia | exact Hg].
Qed.

(** the five hash opcodes replace the top element by the RIPEMD-160, SHA-1, SHA-256 or
    composed digest of the standards, whatever the hashers' buffers held, and refuse an empty
    stack. *)
Theorem hash_opcodes_correct (op : Z) (f : bytes -> bytes) (fExec : bool) (s : state) :
  length (garbage E) = 64%nat -> In (op, f) hash_table ->
  switch E op op fExec s =
  match stk s with
  | mkStacks [] _ _ _ => Err SCRIPT_ERR_INVALID_STACK_OPERATION
  | mkStacks (v :: r) alt c m =>
      let* x := push_back (mkStacks r alt (c - elem_size v) m) (f v) in Ok (Continue (set_stk s x))
  end.
Proof.
  intros Hg Hin. transitivity (let* x := op_hash E op (stk s) in Ok (Continue (set_stk s x))).
  { cbn [In hash_table] in Hin.
    repeat destruct Hin as [Hin|Hin]; try contradiction; injection Hin as <- _; reflexivity. }
  unfold op_hash. destruct (stk s) as [[|v r] alt c m]; [reflexivity|].
  rewrite need_enough by size_lia. tops. cbv zeta. rewrite pop_back_eq. cbn [obind].
  now rewrite (hash_of_table op f v Hg Hin).
Qed.
End Hashes.

(** ** Partial hashes *)

Lemma shl64_small b i : 0 <= b < 256 -> 0 <= i < 8 -> shl64 b (8 * i) = 2 ^ (8 * i) * b.
Proof.
  intros Hb Hi. unfold shl64. rewrite Z.shiftl_mul_pow2, Z.mul_comm by lia. apply u64_small.
  assert (2 ^ (8 * i) * 256 <= 2 ^ 64).
  { change 256 with (2 ^ 8). rewrite <- Z.pow_add_r by lia. apply Z.pow_le_mono_r; lia. }
  pose proof (Z.pow_pos_nonneg 2 (8 * i) ltac:(lia) ltac:(lia)). nia.
Qed.

(** The size is read as a little-endian integer; more than eight bytes shift too far. *)
Lemma partial_size_loop_spec l i acc :
  bytes_ok l -> 0 <= i -> 0 <= acc < 2 ^ (8 * i) ->
  partial_size_loop i l acc =
  if 8 <? i + len l then match l with [] => Ok acc | _ => Abort end else Ok (acc + 2 ^ (8 * i) * le_decode l).
Proof.
  intros Hl. revert i acc. induction Hl as [|b l Hb Hl IH]; intros i acc Hi Ha.
  - cbn [partial_size_loop le_decode]. destruct (_ <? _); [reflexivity|]. f_equal. lia.
  - cbn [partial_size_loop le_decode]. rewrite len_cons. pose proof (len_nonneg l).
    destruct (Z.leb_spec 64 (8 * i)).
    + destruct (Z.ltb_spec 8 (i + (1 + len l))); [reflexivity | lia].
    + rewrite shl64_small by (unfold is_byte in Hb; lia).
      assert (E2 : 2 ^ (8 * (i + 1)) = 2 ^ (8 * i) * 256).
      { replace (8 * (i + 1)) with (8 * i + 8) by lia. now rewrite Z.pow_add_r by lia. }
      pose proof (Z.pow_pos_nonneg 2 (8 * i) ltac:(lia) ltac:(lia)) as Hpos.
      unfold is_byte in Hb.
      rewrite (Z.mul_comm (2 ^ (8 * i)) b), <- (Z.shiftl_mul_pow2 b (8 * i)) by lia.
      rewrite lor_shiftl_add, IH by nia || lia.
      replace (i + 1 + len l) with (i + (1 + len l)) by lia.
      destruct (8 <? i + (1 + len l)) eqn:E8; [|f_equal; rewrite E2; lia].
      destruct l; [|reflexivity]. cbn in E8. apply Z.ltb_lt in E8. lia.
Qed.

Section Data.
Context {B : BIGNUM} (E : env B).

Lemma op_partial_hash_eq vchSize part vch r alt c m :
  bytes_ok vchSize ->
  op_partial_hash E (mkStacks (vchSize :: part :: vch :: r) alt c m) =
  if 8 <? len vchSize then Abort
  else
    let size := le_decode vchSize in
    let* h :=
      if len part =? 0 then
        fail_if negb (size =? len vch) with SCRIPT_ERR_INVALID_STACK_OPERATION ;;
        Ok (CSHA256_Finalize (CSHA256_Write (CSHA256_init (garbage E)) vch))
      else if len part <? 32 then Abort
      else Ok (CSHA256_Finalize (CSHA256_Write
             (CSHA256_partial (garbage E) part (WriteLE64 (u64 (size - len vch)))) vch)) in
    push_back (mkStacks r alt (c - elem_size vchSize - elem_size part - elem_size vch) m) h.
Proof.
  intros Hok. unfold op_partial_hash. rewrite need_enough by size_lia. tops.
  unfold pop3, pop2. rewrite !pop_back_eq. cbn [obind]. rewrite pop_back_eq. cbn [obind].
  rewrite pop_back_eq. cbn [obind]. rewrite partial_size_loop_spec by (auto; lia).
  change (0 + len vchSize) with (len vchSize). change (2 ^ (8 * 0)) with 1.
  destruct (Z.ltb_spec 8 (len vchSize)) as [H8|H8].
  - destruct vchSize; [cbn in H8; lia | reflexivity].
  - replace (0 + 1 * le_decode vchSize) with (le_decode vchSize) by lia. reflexivity.
Qed.

(** OP_PARTIAL_HASH given the compression state reached after whole blocks, the
    remaining bytes and the total size pushes the SHA-256 of the whole message, whatever
    the hasher's buffer held; given no state it hashes the bytes themselves and refuses a
    size that is not theirs. *)
Theorem partial_hash_correct (prefix vch vchSize : bytes) (r alt : list valtype) (c m : Z) :
  length (garbage E) = 64%nat -> bytes_ok vchSize -> len vchSize <= 8 ->
  (length prefix mod 64 = 0)%nat -> le_decode vchSize = len prefix + len vch ->
  op_partial_hash E (mkStacks
    (vchSize :: Sha256.output (Sha256.Transform Sha256.Initialize prefix (length prefix / 64)) :: vch :: r)
    alt c m) =
  push_back (mkStacks r alt (c - elem_size vchSize - 64 - elem_size vch) m) (fips_sha256 (prefix ++ vch)) /\
  op_partial_hash E (mkStacks (vchSize :: [] :: vch :: r) alt c m) =
  if len prefix =? 0 then
    push_back (mkStacks r alt (c - elem_size vchSize - 32 - elem_size vch) m) (fips_sha256 vch)
  else Err SCRIPT_ERR_INVALID_STACK_OPERATION.
Proof.
  intros Hg Hok H8 Hp Hs. pose proof (len_nonneg prefix). pose proof (len_nonneg vch).
  pose proof (le_decode_range vchSize Hok) as Hr.
  assert (2 ^ (8 * len vchSize) <= 2 ^ 64) by (apply Z.pow_le_mono_r; lia).
  rewrite !op_partial_hash_eq by assumption. cbv zeta. rewrite Hs.
  destruct (Z.ltb_spec 8 (len vchSize)); [lia|]. split.
  - set (part := Sha256.output _). assert (Hl : len part = 32) by (unfold len, part; now rewrite Sha256.length_output).
    rewrite Hl. change (32 =? 0) with false. change (32 <? 32) with false. cbn [obind].
    replace (len prefix + len vch - len vch) with (len prefix) by lia. rewrite u64_small by lia.
    unfold part at 2. rewrite CSHA256_partial_resumes by (auto; lia).
    replace (elem_size part) with 64 by (unfold elem_size, ELEMENT_OVERHEAD; lia). reflexivity.
  - change (len [] =? 0) with true. cbv iota. rewrite CSHA256_digest by assumption.
    change (elem_size []) with 32. unfold error_if.
    destruct (Z.eqb_spec (len prefix) 0) as [E0|E0], (Z.eqb_spec (len prefix + len vch) (len vch));
      try lia; reflexivity.
Qed.

(** ** Transaction data *)

(** What OP_PUSH_META pushes for each selector. *)
Definition meta_data (c : BaseSignatureChecker B) (tx : CTransaction) (i : CTxIn) (selector : Z)
    : outcome bytes :=
  if selector =? 1 then Ok (le_encode 4 (nVersion tx))
  else if selector =? 2 then Ok (le_encode 4 (nLockTime tx))
  else if selector =? 3 then Ok (le_encode 4 (len (vin tx)))
  else if selector =? 4 then Ok (le_encode 4 (len (vout tx)))
  else if selector =? 5 then getSha256Inputs c
  else if selector =? 6 then Ok (in_bytes i)
  else getSha256Outputs c.

Lemma WriteLE32_u32 z : WriteLE32 (u32 z) = le_encode 4 z.
Proof. unfold WriteLE32. rewrite u32_mod. apply (le_encode_mod 4). Qed.

Lemma op_push_meta_eq v r alt c m tx i :
  GetTx (checker E) = Some tx -> nth_error (vin tx) (Z.to_nat (u8 (GetnIn (checker E)))) = Some i ->
  op_push_meta E (mkStacks (v :: r) alt c m) =
  match v with
  | [] => Abort
  | [b] =>
      if (b <? 1) || (7 <? b) then Err SCRIPT_ERR_INVALID_STACK_OPERATION
      else
        let* d := meta_data (checker E) tx i b in
        push_back (mkStacks r alt (c - elem_size [b]) m) d
  | _ => Err SCRIPT_ERR_INVALID_STACK_OPERATION
  end.
Proof.
  intros Ht Hi. unfold op_push_meta. rewrite need_enough by size_lia. tops.
  destruct v as [|b [|b2 v]]; [reflexivity| |].
  - change (1 <? len [b]) with false. change (len [b] =? 1) with true.
    change (at_ [b] 0) with b. cbn [error_if andb]. destruct ((b <? 1) || (7 <? b)) eqn:Hb; [reflexivity|].
    cbn [error_if]. rewrite pop_back_eq. cbn [obind]. unfold push_meta, meta_data, with_tx.
    rewrite Ht, Hi, !WriteLE32_u32. zbool.
    destruct (Z.eqb_spec b 1), (Z.eqb_spec b 2), (Z.eqb_spec b 3), (Z.eqb_spec b 4), (Z.eqb_spec b 5),
      (Z.eqb_spec b 6); try reflexivity.
    + cbn [obind]. f_equal. unfold in_bytes, outpoint_bytes, WriteLE32. now rewrite app_assoc.
    + destruct (Z.eqb_spec b 7); [reflexivity | lia].
  - unfold error_if. rewrite !len_cons. pose proof (len_nonneg v).
    now destruct (Z.ltb_spec 1 (1 + (1 + len v))); [|lia].
Qed.

(** OP_PUSH_META with a one-byte selector between 1 and 7 pushes the named part of
    the transaction being checked.  The hashes of selectors 5 and 7 are the checker's.  Any
    other non-empty element is an error. *)
Theorem push_meta_correct (v : valtype) (r alt : list valtype) (c m : Z) (tx : CTransaction) (i : CTxIn) :
  GetTx (checker E) = Some tx -> nth_error (vin tx) (Z.to_nat (u8 (GetnIn (checker E)))) = Some i ->
  v <> [] ->
  op_push_meta E (mkStacks (v :: r) alt c m) =
  if (len v =? 1) && (1 <=? at_ v 0) && (at_ v 0 <=? 7) then
    let* d := meta_data (checker E) tx i (at_ v 0) in
    push_back (mkStacks r alt (c - 33) m) d
  else Err SCRIPT_ERR_INVALID_STACK_OPERATION.
Proof.
  intros Ht Hi Hv. rewrite (op_push_meta_eq v r alt c m tx i Ht Hi).
  destruct v as [|b [|b2 v]]; [easy| |].
  - change (len [b] =? 1) with true. change (at_ [b] 0) with b. change (elem_size [b]) with 33.
    cbn [andb]. now destruct (Z.ltb_spec b 1), (Z.ltb_spec 7 b), (Z.leb_spec 1 b), (Z.leb_spec b 7);
      cbn [orb andb]; try lia.
  - rewrite !len_cons. pose proof (len_nonneg v). now destruct (Z.eqb_spec (1 + (1 + len v)) 1); [lia|].
Qed.

(** C40: exactly which operands make the two new opcodes read out of bounds or shift too
    far, which the source does not check: an empty selector of OP_PUSH_META, a partial
    hash of 1 to 31 bytes and a size of more than eight bytes of OP_PARTIAL_HASH. *)
Theorem undefined_reads (v part vch : valtype) (r alt : list valtype) (c m : Z) (tx : CTransaction) (i : CTxIn) :
  GetTx (checker E) = Some tx -> nth_error (vin tx) (Z.to_nat (u8 (GetnIn (checker E)))) = Some i ->
  getSha256Inputs (checker E) <> Abort -> getSha256Outputs (checker E) <> Abort -> bytes_ok v ->
  (op_push_meta E (mkStacks (v :: r) alt c m) = Abort <-> v = []) /\
  (op_partial_hash E (mkStacks (v :: part :: vch :: r) alt c m) = Abort <->
   8 < len v \/ 0 < len part < 32).
Proof.
  intros Ht Hi Hin Hout Hv. split.
  - rewrite (op_push_meta_eq v r alt c m tx i Ht Hi).
    split; [|now intros ->]. destruct v as [|b [|b2 v]]; [auto| |discriminate].
    destruct (_ || _); [discriminate|]. intros H. exfalso. revert H. unfold meta_data.
    repeat match goal with |- context [if ?t then _ else _] => destruct t end;
      try destruct (getSha256Inputs (checker E)); try destruct (getSha256Outputs (checker E));
      cbn [obind]; rewrite ?push_back_eq; try destruct (m <? _); try discriminate; auto.
  - rewrite op_partial_hash_eq by assumption. cbv zeta.
    destruct (Z.ltb_spec 8 (len v)); [split; auto|]. pose proof (len_nonneg part).
    destruct (Z.eqb_spec (len part) 0) as [E0|E0]; [|destruct (Z.ltb_spec (len part) 32)].
    + split; [|lia]. unfold error_if. destruct (negb _); [discriminate|]. cbn [obind].
      rewrite push_back_eq. now destruct (m <? _).
    + cbn [obind]. split; [lia | auto].
    + split; [|lia]. cbn [obind]. rewrite push_back_eq. now destruct (m <? _).
Qed.
End Data.

(** ** Conditionals *)

Section Conditionals.
Context {B : BIGNUM} {PK : PubKeyOps} (E : env B).

(** What the six opcodes from OP_IF to OP_ENDIF do in a branch that is not executed. *)
Definition skipped_conds (op : Z) (vExec vElse : list bool) : option (list bool * list bool) :=
  if (op =? OP_IF) || (op =? OP_NOTIF) then Some (false :: vExec, false :: vElse)
  else if op =? OP_ELSE then
    match vExec, vElse with
    | e :: es, l :: ls => if l && utxo_after_genesis E then None else Some (negb e :: es, true :: ls)
    | _, _ => None
    end
  else if op =? OP_ENDIF then
    match vExec, vElse with _ :: es, _ :: ls => Some (es, ls) | _, _ => None end
  else if (op =? OP_VERIF) || (op =? OP_VERNOTIF) then
    if utxo_after_genesis E then Some (vExec, vElse) else None
  else Some (vExec, vElse).

Lemma switch_skipped op s r :
  OP_IF <= op <= OP_ENDIF -> switch E op op false s = Ok r ->
  exists s', r = Continue s' /\ stk s' = stk s /\ pbegincodehash s' = pbegincodehash s /\
    pc s' = pc s /\ nOpCount s' = nOpCount s /\ polls s' = polls s /\
    skipped_conds op (vfExec s) (vfElse s) = Some (vfExec s', vfElse s').
Proof.
  unfold OP_IF, OP_ENDIF. intros Hop H.
  assert (op = OP_IF \/ op = OP_NOTIF \/ op = OP_VERIF \/ op = OP_VERNOTIF \/ op = OP_ELSE \/ op = OP_ENDIF)
    as Hc by (unfold OP_IF, OP_NOTIF, OP_VERIF, OP_VERNOTIF, OP_ELSE, OP_ENDIF; lia).
  destruct Hc as [-> |[-> |[-> |[-> |[-> | ->]]]]].
  - change (on_state (op_if E) OP_IF false s = Ok r) in H. unfold on_state, op_if in H. ok_inv.
    now eexists; repeat split.
  - change (on_state (op_if E) OP_NOTIF false s = Ok r) in H. unfold on_state, op_if in H. ok_inv.
    now eexists; repeat split.
  - change (default_case E OP_VERIF false s = Ok r) in H. unfold default_case in H.
    change (IsInvalidBranchingOpcode OP_VERIF) with true in H. cbn [andb negb] in H. rewrite andb_true_r in H.
    destruct (utxo_after_genesis E) eqn:G; [|discriminate]. ok_inv. eexists; repeat split.
    unfold skipped_conds. cbn. now rewrite G.
  - change (default_case E OP_VERNOTIF false s = Ok r) in H. unfold default_case in H.
    change (IsInvalidBranchingOpcode OP_VERNOTIF) with true in H. cbn [andb negb] in H. rewrite andb_true_r in H.
    destruct (utxo_after_genesis E) eqn:G; [|discriminate]. ok_inv. eexists; repeat split.
    unfold skipped_conds. cbn. now rewrite G.
  - change (on_state (fun _ _ => op_else E) OP_ELSE false s = Ok r) in H. unfold on_state, op_else in H.
    unfold skipped_conds. cbn. destruct (vfExec s); [discriminate|]. destruct (vfElse s); [discriminate|].
    ok_inv. rewrite E1. now eexists; repeat split.
  - change (on_state (fun _ _ => op_endif) OP_ENDIF false s = Ok r) in H. unfold on_state, op_endif in H.
    unfold skipped_conds. cbn. destruct (vfExec s); [discriminate|]. destruct (vfElse s); [discriminate|].
    ok_inv. now eexists; repeat split.
Qed.

(** an instruction of a branch that is not executed, or that follows an OP_RETURN
    inside a branch after Genesis, leaves the stacks, the signature-hash start and the
    program counter alone.  Only the conditional opcodes have an effect, and it is exactly
    the bookkeeping of nested branches. *)
Theorem skipped_instruction (op : Z) (data : bytes) (s : state) (r : step) :
  fExec_of op s = false -> exec_instruction E op data s = Ok r ->
  exists s', r = Continue s' /\ stk s' = stk s /\ pbegincodehash s' = pbegincodehash s /\
    pc s' = pc s /\ polls s' = polls s /\
    skipped_conds op (vfExec s) (vfElse s) = Some (vfExec s', vfElse s').
Proof.
  intros Hf H. unfold exec_instruction in H. rewrite Hf in H. cbn [andb orb] in H. cbv zeta in H.
  set (s1 := if OP_16 <? op then _ else s) in H.
  assert (K : stk s1 = stk s /\ pbegincodehash s1 = pbegincodehash s /\ pc s1 = pc s /\ polls s1 = polls s /\
              vfExec s1 = vfExec s /\ vfElse s1 = vfElse s) by (subst s1; now destruct (OP_16 <? op)).
  destruct K as (K1 & K2 & K3 & K4 & K5 & K6). ok_inv.
  destruct ((OP_IF <=? op) && (op <=? OP_ENDIF)) eqn:Hr.
  - apply andb_true_iff in Hr as [R1 R2]. apply Z.leb_le in R1, R2.
    match goal with Hs : switch E op op false s1 = Ok ?x |- _ =>
      destruct (switch_skipped op s1 x (conj R1 R2) Hs) as (s' & -> & S1 & S2 & S3 & _ & S4 & S5) end.
    ok_inv. exists s'. rewrite K5, K6 in S5. repeat split; congruence.
  - ok_inv. exists s1. repeat split; auto. rewrite K5, K6. unfold skipped_conds.
    unfold OP_IF, OP_ENDIF, OP_NOTIF, OP_ELSE, OP_VERIF, OP_VERNOTIF in *.
    apply andb_false_iff in Hr.
    destruct (Z.eqb_spec op 99), (Z.eqb_spec op 100), (Z.eqb_spec op 101), (Z.eqb_spec op 102),
      (Z.eqb_spec op 103), (Z.eqb_spec op 104); try reflexivity; exfalso;
      destruct Hr as [Hr|Hr]; apply Z.leb_gt in Hr; lia.
Qed.
End Conditionals.

(** ** Multiple signatures *)

(** The signatures can be assigned to the keys in order. *)
Inductive assigns (ok : bytes -> bytes -> bool) : list bytes -> list bytes -> Prop :=
| assigns_none keys : assigns ok [] keys
| assigns_use sig sigs key keys :
    ok sig key = true -> assigns ok sigs keys -> assigns ok (sig :: sigs) (key :: keys)
| assigns_skip sigs key keys : assigns ok sigs keys -> assigns ok sigs (key :: keys).

Lemma assigns_tail ok sig sigs keys : assigns ok (sig :: sigs) keys -> assigns ok sigs keys.
Proof.
  intros H. remember (sig :: sigs) as l eqn:El. revert sig sigs El.
  induction H as [keys|s ss k ks Hs H IH|ss k ks H IH]; intros sig sigs El; [discriminate| |].
  - injection El as -> ->. now constructor.
  - constructor. now apply (IH sig).
Qed.

(** Using a key as early as possible loses nothing. *)
Lemma assigns_greedy ok sig sigs key keys :
  assigns ok (sig :: sigs) (key :: keys) <->
  if ok sig key then assigns ok sigs keys else assigns ok (sig :: sigs) keys.
Proof.
  split.
  - intros H. inversion H as [|? ? ? ? Hs H'|? ? ? H']; subst; [now rewrite Hs|].
    destruct (ok sig key); [now apply assigns_tail in H' | exact H'].
  - destruct (ok sig key) eqn:Hs; intros H; [now apply assigns_use | now apply assigns_skip].
Qed.

Lemma assigns_length ok sigs keys : assigns ok sigs keys -> (length sigs <= length keys)%nat.
Proof. induction 1; cbn; lia. Qed.

Section Multisig.
Context {B : BIGNUM} {L : BIGNUM_Laws B} {A : BIGNUM_Alloc B} {PK : PubKeyOps} (E : env B).
Context (ok : bytes -> bytes -> bool) (code : bytes).
Hypothesis not_canceled : forall n, IsCanceled E n = false.

(** The elements from position [i] (from the top, starting at 1) on. *)
Definition from_top (x : stacks) (i : Z) : list valtype := skipn (Z.to_nat (i - 1)) (stack x).

Lemma stacktop_from x i v l :
  1 <= i < 2 ^ 31 -> from_top x i = v :: l -> stacktop x (i32 (- i)) = Ok v /\ from_top x (i + 1) = l.
Proof.
  intros Hi H. unfold from_top in *. split.
  - rewrite i32_small by lia. destruct x as [st al c m]. cbn [stack] in *.
    assert (Hl : (Z.to_nat (i - 1) < length st)%nat).
    { destruct (Nat.lt_ge_cases (Z.to_nat (i - 1)) (length st)) as [|Hge]; [assumption|].
      rewrite skipn_all2 in H by exact Hge. discriminate. }
    replace (- i) with (- Z.of_nat (S (Z.to_nat (i - 1)))) by lia. rewrite stacktop_eq by exact Hl.
    rewrite (skipn_nth_cons st _ Hl) in H. congruence.
  - replace (Z.to_nat (i + 1 - 1)) with (1 + Z.to_nat (i - 1))%nat by lia.
    rewrite <- skipn_skipn, H. reflexivity.
Qed.

Lemma multisig_loop_spec fuel isig ikey sigs keys rs rk s :
  Forall (fun g => CheckSignatureEncoding g (flags E) = Ok tt) sigs ->
  Forall (fun k => CheckPubKeyEncoding k (flags E) = Ok tt) keys ->
  (forall g k, In g sigs -> In k keys -> CheckSig (checker E) g k code (forkid E) = Ok (ok g k)) ->
  (length sigs <= length keys)%nat -> (length keys <= fuel)%nat ->
  1 <= isig -> isig + len sigs < 2 ^ 31 -> 1 <= ikey -> ikey + len keys < 2 ^ 31 ->
  from_top (stk s) isig = sigs ++ rs -> from_top (stk s) ikey = keys ++ rk ->
  exists b p, multisig_loop E fuel isig ikey (len sigs) (len keys) code s = Ok (b, set_polls s p) /\
    (b = true <-> assigns ok sigs keys).
Proof.
  revert isig ikey sigs keys s. induction fuel as [|fuel IH];
    intros isig ikey sigs keys s Hs Hk Hok Hle Hf Hi1 Hi2 Hk1 Hk2 Fs Fk; cbn [multisig_loop];
    destruct sigs as [|g sigs].
  1, 3: (exists true, (polls s); split; [now destruct s | split; [constructor | reflexivity]]).
  { cbn in Hle. lia. }
  destruct keys as [|k keys]; [cbn in Hle; lia|]. rewrite !len_cons in *.
  pose proof (len_nonneg sigs). pose proof (len_nonneg keys).
  destruct (Z.leb_spec (1 + len sigs) 0); [lia|].
  unfold poll. rewrite not_canceled. cbn [obind set_polls stk].
  destruct (stacktop_from (stk s) isig g (sigs ++ rs) ltac:(lia) Fs) as [Eg Fs'].
  destruct (stacktop_from (stk s) ikey k (keys ++ rk) ltac:(lia) Fk) as [Ek Fk'].
  rewrite Eg. cbn [obind]. rewrite Ek. cbn [obind].
  inversion Hs as [|? ? Hg Hs']; subst. inversion Hk as [|? ? Hkk Hk']; subst.
  rewrite Hg. cbn [obind]. rewrite Hkk. cbn [obind]. rewrite (Hok g k) by now left. cbn [obind].
  set (s1 := set_polls s (S (polls s))).
  replace (1 + len keys - 1) with (len keys) by lia.
  destruct (ok g k) eqn:Eok.
  - replace (1 + len sigs - 1) with (len sigs) by lia.
    destruct (Z.ltb_spec (len keys) (len sigs)); [cbn in Hle; unfold len in *; lia|].
    destruct (IH (isig + 1) (ikey + 1) sigs keys s1) as (b & p & Er & Hb); auto; try lia;
      try (intros; apply Hok; now right); try (cbn in Hle, Hf; lia).
    exists b, p. split; [exact Er | now rewrite assigns_greedy, Eok].
  - destruct (Z.ltb_spec (len keys) (1 + len sigs)) as [Hlt|Hge].
    + exists false, (S (polls s)). split; [reflexivity|]. split; [discriminate|]. intros Ha.
      rewrite assigns_greedy, Eok in Ha. apply assigns_length in Ha. cbn in Ha. unfold len in Hlt. lia.
    + rewrite <- len_cons with (x := g).
      destruct (IH isig (ikey + 1) (g :: sigs) keys s1) as (b & p & Er & Hb); auto; try lia;
        try (intros; apply Hok; auto; now right); try (rewrite len_cons; lia);
        try (cbn in Hle, Hf |- *; unfold len in Hge; lia).
      exists b, p. split; [exact Er | now rewrite assigns_greedy, Eok].
Qed.

Definition not_empty (v : valtype) : bool := negb (len v =? 0).

Definition strict_fail (b : bool) (sigs : list valtype) : bool :=
  negb b && has (flags E) SCRIPT_VERIFY_NULLFAIL && existsb not_empty sigs.

Lemma multisig_pop_sigs b sigs rest al c m :
  multisig_pop E (length sigs) b 0 (mkStacks (sigs ++ rest) al c m) =
  if strict_fail b sigs then Err SCRIPT_ERR_SIG_NULLFAIL
  else Ok (mkStacks rest al (c - sum_size sigs) m).
Proof.
  revert c. induction sigs as [|g sigs IH]; intros c; unfold strict_fail in *.
  - cbn [length multisig_pop app existsb]. rewrite andb_false_r. change (sum_size []) with 0. now rewrite Z.sub_0_r.
  - cbn [length multisig_pop app existsb]. change (0 =? 0) with true. change (0 <? 0) with false.
    rewrite andb_true_r. cbv iota. cbv zeta. rewrite sum_size_cons.
    replace (c - (elem_size g + sum_size sigs)) with (c - elem_size g - sum_size sigs) by lia.
    destruct (negb b && has (flags E) SCRIPT_VERIFY_NULLFAIL); cbn [andb] in *.
    + tops. fold (not_empty g). destruct (not_empty g); [reflexivity|]. cbn [error_if orb].
      rewrite pop_back_eq. cbn [obind]. apply IH.
    + cbn [obind error_if]. rewrite pop_back_eq. cbn [obind]. apply IH.
Qed.

Lemma multisig_pop_all b top sigs rest al c m :
  multisig_pop E (length top + length sigs) b (len top) (mkStacks (top ++ sigs ++ rest) al c m) =
  if strict_fail b sigs then Err SCRIPT_ERR_SIG_NULLFAIL
  else Ok (mkStacks rest al (c - sum_size top - sum_size sigs) m).
Proof.
  revert c. induction top as [|t top IH]; intros c.
  - change (sum_size []) with 0. rewrite Z.sub_0_r. exact (multisig_pop_sigs b sigs rest al c m).
  - cbn [length Nat.add multisig_pop app]. rewrite len_cons, sum_size_cons. pose proof (len_nonneg top).
    destruct (Z.eqb_spec (1 + len top) 0); [lia|]. rewrite andb_false_r. cbn [obind error_if]. cbv zeta.
    destruct (Z.ltb_spec 0 (1 + len top)); [|lia]. rewrite pop_back_eq. cbn [obind].
    replace (1 + len top - 1) with (len top) by lia.
    replace (c - (elem_size t + sum_size top) - sum_size sigs)
      with (c - elem_size t - sum_size top - sum_size sigs) by lia. apply IH.
Qed.

(** Signatures are removed from the script code in the order they are on the stack. *)
Definition clean_code (sigs : list valtype) (c : bytes) : bytes :=
  fold_left (fun c g => CleanupScriptCode c g (flags E)) sigs c.

Lemma cleanup_sigs_spec sigs rs i x c :
  1 <= i -> i + len sigs < 2 ^ 31 -> from_top x i = sigs ++ rs ->
  cleanup_sigs E (length sigs) i x c = Ok (clean_code sigs c).
Proof.
  revert i c. induction sigs as [|g sigs IH]; intros i c Hi Hl Hf; [reflexivity|].
  rewrite len_cons in Hl. pose proof (len_nonneg sigs). cbn [length cleanup_sigs clean_code fold_left].
  destruct (stacktop_from x i g (sigs ++ rs) ltac:(lia) Hf) as [Eg Hf'].
  rewrite Eg. cbn [obind]. apply IH; auto; lia.
Qed.

Lemma sm_encode_len4 v : 0 <= v < 2 ^ 31 -> len (sm_encode v) <= 4.
Proof.
  intros Hv. destruct (sm_encode_spec v) as (Hok & Hm & Hval).
  destruct (list_eq_dec Z.eq_dec (sm_encode v) []) as [->|Hne]; [cbn; lia|].
  pose proof (minimal_lower _ Hok Hm Hne) as HL.
  assert (HM : sm_mag (sm_encode v) < 2 ^ 31).
  { unfold sm_value in Hval. pose proof (sm_mag_nonneg _ Hok). destruct (sm_neg (sm_encode v)); lia. }
  destruct (Z.lt_ge_cases 4 (len (sm_encode v))) as [H4|]; [|assumption].
  pose proof (Z.pow_le_mono_r 2 31 (8 * len (sm_encode v) - 9) ltac:(lia) ltac:(lia)). lia.
Qed.

Lemma small_count_spec v : 0 <= v < 2 ^ 31 -> small_count E (sm_encode v) = Ok v.
Proof.
  intros Hv. unfold small_count. destruct (sm_encode_spec v) as (Hok & Hm & Hval).
  pose proof (sm_encode_len4 v Hv).
  destruct (gives_span (fRequireMinimal E) MAXIMUM_ELEMENT_SIZE false (sm_encode v)) as (n & En & V & Bn & _).
  { unfold MAXIMUM_ELEMENT_SIZE. lia. }
  { unfold readable, MAXIMUM_ELEMENT_SIZE. repeat split; auto. lia. }
  rewrite En. cbn [obind]. destruct n as [n|n]; [|discriminate]. cbn [num_value] in V. rewrite Hval in V. subst n.
  cbn [getint]. unfold INT_MAX, INT_MIN. destruct (Z.ltb_spec (2 ^ 31 - 1) v); [lia|].
  destruct (Z.ltb_spec v (- 2 ^ 31)); [lia|]. now rewrite i32_small by lia.
Qed.

(** The answer, once it is known whether the signatures check. *)
Definition multisig_answer (opcode : Z) (b : bool) (sigs : list valtype) (dummy : valtype)
    (r alt : list valtype) (c m : Z) : outcome stacks :=
  let answer := if b then vchTrue else vchFalse in
  if strict_fail b sigs then Err SCRIPT_ERR_SIG_NULLFAIL
  else if has (flags E) SCRIPT_VERIFY_NULLDUMMY && not_empty dummy then Err SCRIPT_ERR_SIG_NULLDUMMY
  else if opcode =? OP_CHECKMULTISIGVERIFY then
    if b then Ok (mkStacks r alt c m) else Err SCRIPT_ERR_CHECKMULTISIGVERIFY
  else Ok (mkStacks (answer :: r) alt (c + elem_size answer) m).

Lemma multisig_finish opcode b s sigs dummy r al c m :
  let x := mkStacks (dummy :: r) al c m in
  c - elem_size dummy + 33 <= m -> strict_fail b sigs = false ->
  need 1 x (
    let* top := stacktop x (-1) in
    fail_if has (flags E) SCRIPT_VERIFY_NULLDUMMY && negb (len top =? 0)
      with SCRIPT_ERR_SIG_NULLDUMMY ;;
    let* x := pop_back x in
    let* x := push_bool x b in
    let* x :=
      if opcode =? OP_CHECKMULTISIGVERIFY then
        if b then pop_back x else Err SCRIPT_ERR_CHECKMULTISIGVERIFY
      else Ok x in
    Ok (set_stk s x)) =
  let* x := multisig_answer opcode b sigs dummy r al (c - elem_size dummy) m in Ok (set_stk s x).
Proof.
  intros x Hm Hs. subst x. rewrite need_enough by size_lia. tops. unfold multisig_answer. rewrite Hs.
  fold (not_empty dummy). destruct (has (flags E) SCRIPT_VERIFY_NULLDUMMY && not_empty dummy); [reflexivity|].
  cbn [error_if]. rewrite pop_back_eq. cbn [obind]. unfold push_bool. rewrite push_back_eq.
  assert (Hb : elem_size (if b then vchTrue else vchFalse) <= 33) by (destruct b; vm_compute; discriminate).
  match goal with |- context [m <? ?z] => destruct (Z.ltb_spec m z); [lia|] end. cbn [obind].
  destruct (opcode =? OP_CHECKMULTISIGVERIFY), b; rewrite ?pop_back_eq; try reflexivity.
  cbn [obind]. do 3 f_equal. lia.
Qed.

(** The stack of the operation, the top first: the number of keys, the keys, the number of
    signatures, the signatures, and the extra element. *)
Definition multisig_args (keys sigs : list valtype) (dummy : valtype) (r : list valtype) : list valtype :=
  sm_encode (len keys) :: keys ++ sm_encode (len sigs) :: sigs ++ dummy :: r.

Definition args_size (keys sigs : list valtype) (dummy : valtype) : Z :=
  sum_size (sm_encode (len keys) :: keys ++ [sm_encode (len sigs)]) + sum_size sigs + elem_size dummy.

Lemma args_positions keys sigs dummy r al c m :
  let x := mkStacks (multisig_args keys sigs dummy r) al c m in
  from_top x 2 = keys ++ sm_encode (len sigs) :: sigs ++ dummy :: r /\
  from_top x (2 + len keys) = sm_encode (len sigs) :: sigs ++ dummy :: r /\
  from_top x (2 + len keys + 1) = sigs ++ dummy :: r.
Proof.
  cbv zeta. unfold from_top, multisig_args. cbn [stack]. split; [reflexivity|].
  replace (Z.to_nat (2 + len keys - 1)) with (S (length keys)) by (unfold len; lia).
  replace (Z.to_nat (2 + len keys + 1 - 1)) with (S (length keys + 1)) by (unfold len; lia).
  cbn [skipn]. split; [now rewrite skipn_app, skipn_all, Nat.sub_diag|].
  rewrite skipn_app, (skipn_all2 keys) by lia.
  replace (length keys + 1 - length keys)%nat with 1%nat by lia. reflexivity.
Qed.

Lemma args_length keys sigs dummy r al c m :
  stack_size (mkStacks (multisig_args keys sigs dummy r) al c m) = len keys + len sigs + 3 + len r.
Proof. unfold stack_size, multisig_args, len. cbn [stack length]. rewrite !length_app. cbn [length]. rewrite !length_app. cbn [length]. lia. Qed.

Lemma multisig_check_spec opcode keys sigs dummy r al c m s :
  stk s = mkStacks (multisig_args keys sigs dummy r) al c m ->
  c <= m -> len keys + len sigs + 3 < 2 ^ 31 -> (length sigs <= length keys)%nat ->
  code = clean_code sigs (pbegincodehash s) ->
  Forall (fun g => CheckSignatureEncoding g (flags E) = Ok tt) sigs ->
  Forall (fun k => CheckPubKeyEncoding k (flags E) = Ok tt) keys ->
  (forall g k, In g sigs -> In k keys -> CheckSig (checker E) g k code (forkid E) = Ok (ok g k)) ->
  exists b p, (b = true <-> assigns ok sigs keys) /\
    multisig_check E opcode (len keys) (len sigs) s =
    let* x := multisig_answer opcode b sigs dummy r al (c - args_size keys sigs dummy) m in
    Ok (set_stk (set_polls s p) x).
Proof.
  intros Hs Hc Hl Hle Hcode Hgs Hks Hok. unfold multisig_check. cbv zeta. rewrite Hs.
  pose proof (args_positions keys sigs dummy r al c m) as (F2 & _ & Fs).
  pose proof (len_nonneg keys). pose proof (len_nonneg sigs). pose proof (len_nonneg r).
  rewrite need_enough by (rewrite args_length; lia).
  replace (Z.to_nat (len sigs)) with (length sigs) by (unfold len; lia).
  rewrite (cleanup_sigs_spec sigs (dummy :: r)) by (assumption || lia). cbn [obind]. rewrite <- Hcode.
  rewrite <- Hs in F2, Fs.
  destruct (multisig_loop_spec (Z.to_nat (len keys)) (2 + len keys + 1) 2 sigs keys (dummy :: r)
    (sm_encode (len sigs) :: sigs ++ dummy :: r) s) as (b & p & El & Hb); auto; try lia.
  { unfold len. lia. }
  exists b, p. split; [exact Hb|]. rewrite El. cbn [obind]. change (stk (set_polls s p)) with (stk s). rewrite Hs.
  set (top := sm_encode (len keys) :: keys ++ [sm_encode (len sigs)]).
  assert (Htop : len top = len keys + 2)
    by (unfold top, len; cbn [length]; rewrite length_app; cbn [length]; lia).
  replace (multisig_args keys sigs dummy r) with (top ++ sigs ++ dummy :: r)
    by (unfold top, multisig_args; cbn [app]; now rewrite <- app_assoc).
  replace (Z.to_nat (2 + len keys + 1 + len sigs - 1)) with (length top + length sigs)%nat
    by (unfold len in *; lia).
  rewrite <- Htop, multisig_pop_all.
  destruct (strict_fail b sigs) eqn:Hst; [unfold multisig_answer; now rewrite Hst|]. cbn [obind].
  pose proof (sum_size_nonneg sigs). pose proof (sum_size_nonneg (keys ++ [sm_encode (len sigs)])).
  assert (33 <= sum_size top + 32).
  { unfold top. rewrite sum_size_cons. unfold elem_size, ELEMENT_OVERHEAD.
    pose proof (len_nonneg (sm_encode (len keys))). lia. }
  replace (c - args_size keys sigs dummy) with (c - sum_size top - sum_size sigs - elem_size dummy)
    by (unfold args_size; fold top; lia).
  apply multisig_finish; [|exact Hst]. unfold elem_size, ELEMENT_OVERHEAD. pose proof (len_nonneg dummy). lia.
Qed.
End Multisig.

Section MultisigOpcodes.
Context {B : BIGNUM} {L : BIGNUM_Laws B} {A : BIGNUM_Alloc B} {PK : PubKeyOps} (E : env B).

(** C12: with [n] keys and [m <= n] signatures on the stack that are encoded as the flags
    require, [OP_CHECKMULTISIG] answers whether the signatures can be assigned to the keys in
    order, each valid for its key on the script code from which all the signatures are
    removed; the greedy loop of the code finds an assignment whenever there is one. It removes
    exactly its arguments and the extra element, reports a failed check with a signature that
    is not empty and an extra element that is not empty just where the flags forbid them,
    and the verifying form turns a failed check into its error. *)
Theorem multisig_correct (ok : bytes -> bytes -> bool) (opcode : Z) (fExec : bool)
    (keys sigs : list valtype) (dummy : valtype) (r al : list valtype) (c m : Z) (s : state) :
  let code := clean_code E sigs (pbegincodehash s) in
  let s' := set_opcount s (u64 (nOpCount s + len keys)) in
  In opcode [OP_CHECKMULTISIG; OP_CHECKMULTISIGVERIFY] ->
  (forall n, IsCanceled E n = false) ->
  stk s = mkStacks (multisig_args keys sigs dummy r) al c m -> c <= m ->
  len keys + len sigs + 3 < 2 ^ 31 -> len sigs <= len keys ->
  len keys <= GetMaxPubKeysPerMultiSig (config E) (utxo_after_genesis E) (consensus E) ->
  IsValidMaxOpsPerScript E (nOpCount s') = true ->
  Forall (fun g => CheckSignatureEncoding g (flags E) = Ok tt) sigs ->
  Forall (fun k => CheckPubKeyEncoding k (flags E) = Ok tt) keys ->
  (forall g k, In g sigs -> In k keys -> CheckSig (checker E) g k code (forkid E) = Ok (ok g k)) ->
  exists b p, (b = true <-> assigns ok sigs keys) /\
    switch E opcode opcode fExec s =
    let* x := multisig_answer E opcode b sigs dummy r al (c - args_size keys sigs dummy) m in
    Ok (Continue (set_stk (set_polls s' p) x)).
Proof.
  intros code s' Hop Hnc Hs Hc Hl Hle Hmax Hops Hgs Hks Hok.
  pose proof (len_nonneg keys). pose proof (len_nonneg sigs). pose proof (len_nonneg r).
  destruct (multisig_check_spec E ok code Hnc opcode keys sigs dummy r al c m s')
    as (b & p & Hb & Ec); auto; [unfold len in Hle; lia|].
  exists b, p. split; [exact Hb|].
  assert (Ho : op_checkmultisig E opcode s = multisig_check E opcode (len keys) (len sigs) s').
  { destruct (args_positions keys sigs dummy r al c m) as (_ & Fn & _). rewrite <- Hs in Fn.
    unfold op_checkmultisig. rewrite need_enough by (rewrite Hs, args_length; lia).
    replace (stacktop (stk s) (-1)) with (Ok (sm_encode (len keys))) by (rewrite Hs; unfold multisig_args; now tops).
    cbn [obind]. rewrite small_count_spec by lia. cbn [obind].
    destruct (Z.ltb_spec (len keys) 0); [lia|]. cbn [error_if].
    destruct (Z.ltb_spec (GetMaxPubKeysPerMultiSig (config E) (utxo_after_genesis E) (consensus E)) (len keys));
      [lia|]. cbn [error_if]. cbv zeta. fold s'. rewrite Hops. cbn [negb error_if].
    change (stk s') with (stk s). rewrite need_enough by (rewrite Hs, args_length; lia).
    destruct (stacktop_from (stk s) (2 + len keys) _ _ ltac:(lia) Fn) as [-> _]. cbn [obind]. rewrite small_count_spec by lia.
    cbn [obind]. destruct (Z.ltb_spec (len sigs) 0); [lia|]. cbn [error_if].
    destruct (Z.ltb_spec (len keys) (len sigs)); [lia | reflexivity]. }
  transitivity (let* s := op_checkmultisig E opcode s in Ok (Continue s)).
  { destruct Hop as [<-|[<-|[]]]; reflexivity. }
  rewrite Ho, Ec. now destruct (multisig_answer _ _ _ _ _ _ _ _ _).
Qed.
End MultisigOpcodes.

(** ** Concrete inputs *)

#[local] Instance any_key : PubKeyOps := {| CheckLowS _ := true; PubKey_Verify _ _ _ := true |}.

Definition sample_state (st : list valtype) (vExec vElse : list bool) : state :=
  mkState (mkStacks st [] (sum_size st) 1000000) [] [] vExec vElse 0 false 0.

(** A checker on the sample transaction that accepts a signature equal to the key. *)
Definition sample_checker : BaseSignatureChecker Z_BIGNUM :=
  mkChecker Z_BIGNUM (fun g k _ _ => Ok (bytes_eqb g k)) (fun _ => Ok true) (fun _ => Ok true)
    (Ok (repeat 1 32)) (Ok (repeat 2 32)) (Some sample_tx) 0.

Definition spec_env : env Z_BIGNUM :=
  mkEnv Z_BIGNUM sample_config true (fun _ => false) SCRIPT_VERIFY_NULLFAIL sample_checker (repeat 0 64).

Lemma stack_opcodes_exact_witness :
  switch spec_env OP_2ROT OP_2ROT true (sample_state [[6]; [5]; [4]; [3]; [2]; [1]; [9]] [] []) =
  Ok (Continue (sample_state [[2]; [1]; [6]; [5]; [4]; [3]; [9]] [] [])).
Proof.
  rewrite (stack_opcodes_exact spec_env OP_2ROT _ true (sample_state [[6]; [5]; [4]; [3]; [2]; [1]; [9]] [] [])
    ltac:(unfold stack_table; do 6 right; left; reflexivity) ltac:(vm_compute; discriminate)).
  vm_compute. reflexivity.
Defined.

Lemma numeric_opcodes_correct_witness :
  op_binary spec_env OP_SUB (mkStacks [[5]; [3]] [] 66 1000000) = Ok (mkStacks [[130]] [] 33 1000000) /\
  op_binary spec_env OP_DIV (mkStacks [[]; [3]] [] 66 1000000) = Err SCRIPT_ERR_DIV_BY_ZERO.
Proof.
  split.
  - rewrite (proj1 (proj2 (numeric_opcodes_correct (L := Z_BIGNUM_Laws) spec_env OP_SUB [3] [5] [] [] [] 66 1000000
      ltac:(intros _; vm_compute; discriminate)
      ltac:(repeat constructor; try (now apply bytes_okb); intros G; vm_compute in G; discriminate G))) ltac:(cbn; tauto)).
    vm_compute. reflexivity.
  - rewrite (proj1 (proj2 (numeric_opcodes_correct (L := Z_BIGNUM_Laws) spec_env OP_DIV [3] [] [] [] [] 66 1000000
      ltac:(intros _; vm_compute; discriminate)
      ltac:(repeat constructor; try (now apply bytes_okb); intros G; vm_compute in G; discriminate G))) ltac:(cbn; tauto)).
    vm_compute. reflexivity.
Defined.

(** The default limits after Genesis, without a limit on the memory. *)
Definition wide_env : env Z_BIGNUM :=
  mkEnv Z_BIGNUM (mkConfig (fun _ _ => 2 ^ 32 - 1) (fun _ _ => 750000) (fun _ _ => 2 ^ 32 - 1) (fun _ _ => 2 ^ 32 - 1) (fun _ _ => 2 ^ 63 - 1))
    true (fun _ => false) SCRIPT_UTXO_AFTER_GENESIS sample_checker (repeat 0 64).

Lemma split_correct_witness :
  op_split wide_env (mkStacks [[1]; [7; 8; 9]] [] 68 1000) = Ok (mkStacks [[8; 9]; [7]] [] 67 1000) /\
  op_split wide_env (mkStacks [[0; 0; 0; 128; 0]; repeat 0 (Z.to_nat (2 ^ 31))] [] (2 ^ 31 + 69) (2 ^ 63 - 1)) = Abort.
Proof.
  split.
  - rewrite (split_correct (L := Z_BIGNUM_Laws) wide_env [1] [7; 8; 9] [] [] 68 1000 ltac:(discriminate)
      ltac:(repeat split; try (now apply bytes_okb); intros G; vm_compute in G; discriminate G) ltac:(vm_compute; reflexivity)).
    vm_compute. reflexivity.
  - assert (Hl : len (repeat 0 (Z.to_nat (2 ^ 31))) = 2 ^ 31) by (rewrite len_repeat, Z2Nat.id; lia).
    rewrite (split_correct (L := Z_BIGNUM_Laws) wide_env [0; 0; 0; 128; 0] (repeat 0 (Z.to_nat (2 ^ 31))) [] [] (2 ^ 31 + 69) (2 ^ 63 - 1) ltac:(discriminate)
      ltac:(repeat split; try (now apply bytes_okb); intros G; vm_compute in G; discriminate G) ltac:(rewrite Hl; lia)).
    cbv zeta. change (sm_value [0; 0; 0; 128; 0]) with (2 ^ 31). rewrite Hl. reflexivity.
Defined.

Lemma hash_opcodes_correct_witness :
  switch spec_env OP_HASH160 OP_HASH160 true (sample_state [[97; 98; 99]] [] []) =
  Ok (Continue (sample_state [spec_ripemd160 (fips_sha256 [97; 98; 99])] [] [])).
Proof.
  rewrite (hash_opcodes_correct spec_env OP_HASH160 _ true (sample_state [[97; 98; 99]] [] []) eq_refl
    ltac:(unfold hash_table; do 3 right; left; reflexivity)).
  vm_compute. reflexivity.
Defined.

Lemma partial_hash_correct_witness :
  op_partial_hash spec_env (mkStacks
    [[67]; Sha256.output (Sha256.Transform Sha256.Initialize (repeat 5 64) 1); [97; 98; 99]] [] 132 1000) =
  push_back (mkStacks [] [] 0 1000) (fips_sha256 (repeat 5 64 ++ [97; 98; 99])).
Proof.
  exact (proj1 (partial_hash_correct spec_env (repeat 5 64) [97; 98; 99] [67] [] [] 132 1000
    eq_refl (bytes_okb [67] eq_refl) ltac:(vm_compute; discriminate) eq_refl eq_refl)).
Defined.

Lemma push_meta_correct_witness :
  op_push_meta spec_env (mkStacks [[1]] [] 33 1000) = Ok (mkStacks [[10; 0; 0; 0]] [] 36 1000) /\
  op_push_meta spec_env (mkStacks [[8]] [] 33 1000) = Err SCRIPT_ERR_INVALID_STACK_OPERATION.
Proof.
  split.
  - rewrite (push_meta_correct spec_env [1] [] [] 33 1000 sample_tx _ eq_refl eq_refl ltac:(discriminate)).
    vm_compute. reflexivity.
  - exact (push_meta_correct spec_env [8] [] [] 33 1000 sample_tx _ eq_refl eq_refl ltac:(discriminate)).
Defined.

Lemma undefined_reads_witness :
  op_push_meta spec_env (mkStacks [[]] [] 32 1000) = Abort /\
  op_partial_hash spec_env (mkStacks [[3]; [1]; [97; 98; 99]] [] 101 1000) = Abort.
Proof.
  split.
  - apply (undefined_reads spec_env [] [] [] [] [] 32 1000 sample_tx _ eq_refl eq_refl
      ltac:(discriminate) ltac:(discriminate) ltac:(constructor)). reflexivity.
  - apply (undefined_reads spec_env [3] [1] [97; 98; 99] [] [] 101 1000 sample_tx _ eq_refl eq_refl
      ltac:(discriminate) ltac:(discriminate) (bytes_okb [3] eq_refl)). right. vm_compute. now split.
Defined.

Lemma skipped_instruction_witness :
  exists s', exec_instruction spec_env OP_ELSE [] (sample_state [[9]] [false] [false]) = Ok (Continue s') /\
    stk s' = mkStacks [[9]] [] 33 1000000 /\ vfExec s' = [true] /\ vfElse s' = [true].
Proof.
  assert (Ex : exists r, exec_instruction spec_env OP_ELSE [] (sample_state [[9]] [false] [false]) = Ok r)
    by (eexists; vm_compute; reflexivity).
  destruct Ex as [r Er].
  destruct (skipped_instruction spec_env OP_ELSE [] (sample_state [[9]] [false] [false]) r eq_refl Er)
    as (s' & -> & H1 & _ & _ & _ & H2).
  exists s'. split; [exact Er|]. split; [exact H1|].
  match type of H2 with ?t = _ => change t with (Some ([true], [true])) in H2 end. now injection H2 as <- <-.
Defined.

(** Two of three: the second and third keys sign. *)
Lemma multisig_correct_witness :
  exists p, switch spec_env OP_CHECKMULTISIG OP_CHECKMULTISIG true
    (sample_state (multisig_args [[11]; [12]; [13]] [[12]; [13]] [] [[9]]) [] []) =
  Ok (Continue (set_polls (set_opcount (sample_state [[1]; [9]] [] []) 3) p)).
Proof.
  destruct (multisig_correct (L := Z_BIGNUM_Laws) spec_env bytes_eqb OP_CHECKMULTISIG true
    [[11]; [12]; [13]] [[12]; [13]] [] [[9]] [] (sum_size (multisig_args [[11]; [12]; [13]] [[12]; [13]] [] [[9]]))
    1000000 (sample_state (multisig_args [[11]; [12]; [13]] [[12]; [13]] [] [[9]]) [] []))
    as (b & p & Hb & Er); try (vm_compute; congruence); try reflexivity.
  - now left.
  - repeat constructor.
  - repeat constructor.
  - assert (b = true) as ->.
    { apply Hb. apply assigns_skip. repeat (apply assigns_use; [reflexivity|]). constructor. }
    exists p. rewrite Er. vm_compute. reflexivity.
Defined.

End InterpreterSpec.
