(* ===== verification/SigChecker.v ===== *)
(** * The transaction checker (src/src/script/interpreter.cpp, interpreter.h)

    [TransactionSignatureChecker], the signature checker of a transaction input: it hashes
    and verifies signatures, tests lock times and sequence numbers, and hands the script the
    transaction's data. It keeps the promises the engine relies on, and with it the lock time
    opcodes enforce the rules of BIP 65 and BIP 112. *)

From S2P Require Import Prelude Endian IntSerialization Outcome BigInt ScriptNum LimitedStack Opcodes Script.
From S2P Require Import Amount Serialize Transaction ScriptChecks PubKey SigHash Interpreter.
From S2P Require Import InterpreterSafety InterpreterSpec.

Module SigChecker.
Local Open Scope outcome_scope.
Local Open Scope word_scope.
Import IntSerialization BigInt ScriptNum LimitedStack Script Amount Transaction ScriptChecks PubKey SigHash
  Interpreter InterpreterSafety InterpreterSpec.

Section Checker.
Context {B : BIGNUM} {K : Secp256k1}.

Record TransactionSignatureChecker := mkTxChecker {
  txTo : CTransaction; nIn : Z; amount : Amount; txdata : option PrecomputedTransactionData }.

Section Methods.
Context (this : TransactionSignatureChecker).

Definition VerifySignature (vchSig : bytes) (pubkey : CPubKey) (sighash : bytes) : bool :=
  Verify pubkey sighash vchSig.

Definition tx_CheckSig (vchSigIn vchPubKey scriptCode : bytes) (enabledSighashForkid : bool) : outcome bool :=
  let pubkey := CPubKey_of (repeat 0 65) vchPubKey in
  if negb (IsValid pubkey) then Ok false
  else if len vchSigIn =? 0 then Ok false
  else
    let sigHashType := GetHashType vchSigIn in
    let vchSig := removelast vchSigIn in
    let* sighash :=
      SignatureHash scriptCode (txTo this) (nIn this) sigHashType (amount this) (txdata this)
        enabledSighashForkid in
    Ok (VerifySignature vchSig pubkey sighash).

Definition tx_getSha256Inputs : outcome bytes := cached (txdata this) Sha256Inputs (GetInputsSha256 (txTo this)).
Definition tx_getSha256Outputs : outcome bytes := cached (txdata this) Sha256Outputs (GetOutputsSha256 (txTo this)).

(** [a && b] with [b] evaluated only if [a] holds. *)
Definition and_then (a : bool) (b : outcome bool) : outcome bool := if a then b else Ok false.

Definition tx_CheckLockTime (nLockTime : CScriptNum) : outcome bool :=
  let lock := Transaction.nLockTime (txTo this) in
  let* low := and_then (lock <? LOCKTIME_THRESHOLD) (num_lt_int64 nLockTime LOCKTIME_THRESHOLD) in
  let* same :=
    if low then Ok true
    else and_then (LOCKTIME_THRESHOLD <=? lock) (num_ge_int64 nLockTime LOCKTIME_THRESHOLD) in
  if negb same then Ok false
  else
    let* late := num_gt_int64 nLockTime lock in
    if late then Ok false
    else
      let* i := vin_at (txTo this) (nIn this) in
      Ok (negb (SEQUENCE_FINAL =? Transaction.nSequence i)).

Definition tx_CheckSequence (nSequence : CScriptNum) : outcome bool :=
  let* i := vin_at (txTo this) (nIn this) in
  let txToSequence := Transaction.nSequence i in
  if u32 (nVersion (txTo this)) <? 2 then Ok false
  else if negb (txToSequence &&& SEQUENCE_LOCKTIME_DISABLE_FLAG =? 0) then Ok false
  else
    let nLockTimeMask := SEQUENCE_LOCKTIME_TYPE_FLAG ||| SEQUENCE_LOCKTIME_MASK in
    let txToSequenceMasked := txToSequence &&& nLockTimeMask in
    let* nSequenceMasked := num_and_int64 nSequence nLockTimeMask in
    let* low :=
      and_then (txToSequenceMasked <? SEQUENCE_LOCKTIME_TYPE_FLAG)
        (num_lt_int64 nSequenceMasked SEQUENCE_LOCKTIME_TYPE_FLAG) in
    let* same :=
      if low then Ok true
      else and_then (SEQUENCE_LOCKTIME_TYPE_FLAG <=? txToSequenceMasked)
        (num_ge_int64 nSequenceMasked SEQUENCE_LOCKTIME_TYPE_FLAG) in
    if negb same then Ok false
    else
      let* late := num_gt_int64 nSequenceMasked txToSequenceMasked in
      Ok (negb late).

(** The object as the engine sees it. *)
Definition as_checker : BaseSignatureChecker B :=
  mkChecker B tx_CheckSig tx_CheckLockTime tx_CheckSequence tx_getSha256Inputs tx_getSha256Outputs
    (Some (txTo this)) (nIn this).
End Methods.

(** ** The promises to the engine *)

Definition in_range (this : TransactionSignatureChecker) : Prop :=
  0 <= nIn this < len (vin (txTo this)) /\ nIn this < 2 ^ 32.

Lemma safe_ser {A} (c : Serialize.codec A) x : safe (fun _ => True) (ser c x).
Proof. apply safe_throw. easy. Qed.

Lemma safe_ser_range f n i :
  (forall j, i <= j < i + Z.of_nat n -> safe (fun _ => True) (f j)) -> safe (fun _ => True) (ser_range f n i).
Proof.
  revert i; induction n as [|n IH]; intros i H; cbn [ser_range]; [exact I|].
  eapply safe_bind; [apply H; lia|]. intros a _. eapply safe_bind; [apply IH; intros j Hj; apply H; lia|]. easy.
Qed.

Lemma safe_vin_at tx n : 0 <= n < len (vin tx) -> safe (fun _ => True) (vin_at tx n).
Proof.
  intros Hn. apply safe_abort; [|easy]. apply nth_error_Some. unfold len in Hn. lia.
Qed.

Lemma safe_vout_at tx n : 0 <= n < len (vout tx) -> safe (fun _ => True) (vout_at tx n).
Proof.
  intros Hn. apply safe_abort; [|easy]. apply nth_error_Some. unfold len in Hn. lia.
Qed.

Lemma u32_le x : 0 <= x -> 0 <= u32 x <= x.
Proof. intros Hx. rewrite u32_mod. pose proof (Z.mod_pos_bound x (2 ^ 32)). pose proof (Z.mod_le x (2 ^ 32)). lia. Qed.

Ltac go := safe_step ltac:(first [apply safe_ser | apply safe_vin_at; lia | apply safe_vout_at; lia]).

Lemma Serialize_txTmp_safe code tx n t :
  0 <= n < len (vin tx) -> n < 2 ^ 32 -> (is_single t = true -> n < len (vout tx)) ->
  safe (fun _ => True) (Serialize_txTmp tx code n t).
Proof.
  intros Hn H32 Ho. unfold Serialize_txTmp. cbv zeta. pose proof (len_nonneg (vin tx)). pose proof (len_nonneg (vout tx)).
  pose proof (u32_le (len (vin tx)) ltac:(lia)). pose proof (u32_le (len (vout tx)) ltac:(lia)).
  do 2 go.
  eapply safe_bind; [apply safe_ser_range|intros ins _].
  { intros j Hj. unfold SerializeInput. cbv zeta.
    assert (Hk : 0 <= (if hasAnyoneCanPay t then n else j) < len (vin tx)) by (destruct (hasAnyoneCanPay t); lia).
    do 2 go. eapply safe_bind with (Q := fun _ => True).
    { apply safe_if; intros _; [apply safe_ser|]. unfold SerializeScriptCode. cbv zeta. go. exact I. }
    intros. eapply safe_bind with (Q := fun _ => True); [apply safe_if; intros _; apply safe_ser | easy]. }
  go. eapply safe_bind; [apply safe_ser_range|intros outs _; go; exact I].
  intros j Hj. unfold SerializeOutput. pose proof (u32_le (n + 1) ltac:(lia)).
  destruct (is_none t); [lia|]. destruct (is_single t) eqn:Es; cbn [andb].
  - specialize (Ho eq_refl). destruct (Z.eqb_spec j n) as [->|]; cbn [negb]; [|apply safe_ser]. go. apply safe_ser.
  - go. apply safe_ser.
Qed.

Lemma safe_cached d f c : safe (fun _ => True) (cached d f c).
Proof. destruct d; [exact I|]. now apply safe_throw. Qed.

Lemma SignatureHash_safe code tx n t am d f :
  0 <= n < len (vin tx) -> n < 2 ^ 32 -> safe (fun _ => True) (SignatureHash code tx n t am d f).
Proof.
  intros Hn H32. unfold SignatureHash. apply safe_if; intros Hf.
  - unfold SignatureHash_forkid. cbv zeta.
    eapply safe_bind with (Q := fun _ => True); [apply safe_if; intros _; [apply safe_cached | exact I]|intros hp _].
    eapply safe_bind with (Q := fun _ => True); [apply safe_if; intros _; [apply safe_cached | exact I]|intros hs _].
    eapply safe_bind with (Q := fun _ => True); [|intros ho _; go; now apply safe_throw].
    apply safe_if; intros _; [apply safe_cached|]. apply safe_if; intros E; [|exact I].
    apply andb_true_iff in E as [_ E]. apply Z.ltb_lt in E. go. now apply safe_throw.
  - apply safe_if; intros _; [exact I|]. apply safe_if; intros E; [exact I|].
    eapply safe_bind; [apply Serialize_txTmp_safe; auto|intros p _; now apply safe_throw].
    intros Es. rewrite Es in E. cbn [andb] in E. apply Z.leb_gt in E. lia.
Qed.

(** the checker of an input that exists answers every question of the engine: no
    signature, key, script code or number makes it index out of range or leave the range of
    an integer; an exception of a serialization is the only other outcome. *)
Theorem TransactionSignatureChecker_safe (this : TransactionSignatureChecker) :
  in_range this -> SafeChecker (as_checker this).
Proof.
  intros [Hn H32]. split; cbn [CheckSig CheckLockTime CheckSequence as_checker].
  - intros sig pk code f. unfold tx_CheckSig. cbv zeta. do 2 (apply safe_if; intros _; [exact I|]).
    eapply safe_bind; [now apply SignatureHash_safe | easy].
  - intros n _. unfold tx_CheckLockTime, and_then, num_ge_int64, num_lt_int64, num_gt_int64. cbv zeta. cbn [obind].
    repeat (match goal with |- context [if ?c then _ else _] => destruct c end; cbn [obind negb]; try exact I);
      go; exact I.
  - intros n _. unfold tx_CheckSequence, and_then, num_ge_int64, num_lt_int64, num_gt_int64. cbv zeta.
    go. cbn [num_and_int64 obind].
    repeat (match goal with |- context [if ?c then _ else _] => destruct c end; cbn [obind negb]; try exact I).
Qed.

(** ** Lock times *)

(** BIP 65: the lock times are of the same kind, the script's is reached, and the input is
    not final. *)
Definition locktime_reached (tx : CTransaction) (i : CTxIn) (n : Z) : bool :=
  Bool.eqb (Transaction.nLockTime tx <? LOCKTIME_THRESHOLD) (n <? LOCKTIME_THRESHOLD) &&
  (n <=? Transaction.nLockTime tx) && negb (Transaction.nSequence i =? SEQUENCE_FINAL).

(** BIP 112: the version enables relative locks, the input has one, it is of the same kind
    and at least as long. *)
Definition sequence_reached (tx : CTransaction) (i : CTxIn) (n : Z) : bool :=
  let masked x := Z.land x (Z.lor SEQUENCE_LOCKTIME_TYPE_FLAG SEQUENCE_LOCKTIME_MASK) in
  let s := Transaction.nSequence i in
  (2 <=? u32 (nVersion tx)) && negb (Z.testbit s 31) &&
  Bool.eqb (masked s <? SEQUENCE_LOCKTIME_TYPE_FLAG) (masked n <? SEQUENCE_LOCKTIME_TYPE_FLAG) &&
  (masked n <=? masked s).

Lemma tx_CheckLockTime_value this i n :
  nth_error (vin (txTo this)) (Z.to_nat (nIn this)) = Some i ->
  tx_CheckLockTime this (Int64 n) = Ok (locktime_reached (txTo this) i n).
Proof.
  intros Hi. unfold tx_CheckLockTime, locktime_reached, and_then, num_ge_int64, num_lt_int64, num_gt_int64, vin_at.
  rewrite Hi. cbv zeta. cbn [obind or_abort]. set (lock := Transaction.nLockTime (txTo this)).
  rewrite (Z.leb_antisym lock LOCKTIME_THRESHOLD), (Z.leb_antisym lock n), (Z.eqb_sym SEQUENCE_FINAL).
  destruct (lock <? LOCKTIME_THRESHOLD), (n <? LOCKTIME_THRESHOLD); cbn [obind negb andb Bool.eqb]; try reflexivity;
    destruct (lock <? n); reflexivity.
Qed.

Lemma land_bit31 x : (Z.land x SEQUENCE_LOCKTIME_DISABLE_FLAG =? 0) = negb (Z.testbit x 31).
Proof.
  unfold SEQUENCE_LOCKTIME_DISABLE_FLAG. destruct (Z.testbit x 31) eqn:E; cbn [negb].
  - apply Z.eqb_neq. intros H. apply (f_equal (fun y => Z.testbit y 31)) in H.
    rewrite Z.land_spec, E in H. discriminate H.
  - apply Z.eqb_eq. apply Z.bits_inj'. intros k Hk. rewrite Z.land_spec, Z.bits_0, Z.shiftl_spec by lia.
    destruct (Z.eq_dec k 31) as [->|]; [now rewrite E|]. apply andb_false_iff. right.
    destruct (Z.lt_ge_cases k 31); [apply Z.testbit_neg_r; lia|].
    apply (Z.bits_above_log2 1); [lia|]. cbn. lia.
Qed.

Lemma tx_CheckSequence_value this i n :
  nth_error (vin (txTo this)) (Z.to_nat (nIn this)) = Some i ->
  tx_CheckSequence this (Int64 n) = Ok (sequence_reached (txTo this) i n).
Proof.
  intros Hi. unfold tx_CheckSequence, sequence_reached, and_then, num_ge_int64, vin_at.
  rewrite Hi. cbv zeta. cbn [obind or_abort num_and_int64]. unfold num_lt_int64, num_gt_int64.
  set (M := Z.lor _ _). set (s := Z.land (Transaction.nSequence i) M). set (m := Z.land n M).
  rewrite land_bit31, negb_involutive, (Z.leb_antisym (u32 _) 2), (Z.leb_antisym s SEQUENCE_LOCKTIME_TYPE_FLAG),
    (Z.leb_antisym s m).
  destruct (u32 (nVersion (txTo this)) <? 2), (Z.testbit (Transaction.nSequence i) 31); cbn [negb andb]; try reflexivity.
  destruct (s <? SEQUENCE_LOCKTIME_TYPE_FLAG), (m <? SEQUENCE_LOCKTIME_TYPE_FLAG); cbn [obind negb andb Bool.eqb];
    reflexivity.
Qed.

Context {L : BIGNUM_Laws B} {A : BIGNUM_Alloc B}.

(** for an output before Genesis, OP_CHECKLOCKTIMEVERIFY and OP_CHECKSEQUENCEVERIFY on
    the checker of a transaction input leave the stack alone and succeed exactly when the
    transaction's lock time (BIP 65), or the input's relative lock (BIP 112), is of the same
    kind as the number on the stack and not below it; a negative number is refused, and a
    number with the disabling bit is not checked. *)
Theorem locktime_opcodes_correct (E : env B) (this : TransactionSignatureChecker) (i : CTxIn)
    (v : valtype) (r alt : list valtype) (c m : Z) :
  checker E = as_checker this -> utxo_after_genesis E = false ->
  nth_error (vin (txTo this)) (Z.to_nat (nIn this)) = Some i -> readable (fRequireMinimal E) 5 v ->
  (has (flags E) SCRIPT_VERIFY_CHECKLOCKTIMEVERIFY = true ->
   op_checklocktimeverify E (mkStacks (v :: r) alt c m) =
   if sm_value v <? 0 then Err SCRIPT_ERR_NEGATIVE_LOCKTIME
   else if locktime_reached (txTo this) i (sm_value v) then Ok (mkStacks (v :: r) alt c m)
   else Err SCRIPT_ERR_UNSATISFIED_LOCKTIME) /\
  (has (flags E) SCRIPT_VERIFY_CHECKSEQUENCEVERIFY = true ->
   op_checksequenceverify E (mkStacks (v :: r) alt c m) =
   if sm_value v <? 0 then Err SCRIPT_ERR_NEGATIVE_LOCKTIME
   else if Z.testbit (sm_value v) 31 || sequence_reached (txTo this) i (sm_value v)
   then Ok (mkStacks (v :: r) alt c m)
   else Err SCRIPT_ERR_UNSATISFIED_LOCKTIME).
Proof.
  intros Hc Hg Hi Hv. destruct (gives_span (fRequireMinimal E) 5 false v ltac:(lia) Hv) as (n & En & V & Bn & _).
  destruct n as [n|n]; [|discriminate]. cbn [num_value] in V. subst n. split; intros Hf.
  - unfold op_checklocktimeverify. rewrite Hf, Hg. cbn [negb orb]. rewrite need_enough by size_lia. tops.
    rewrite En. cbn [obind num_lt_int64]. destruct (sm_value v <? 0); [reflexivity|]. cbn [error_if].
    rewrite Hc. cbn [CheckLockTime as_checker]. rewrite (tx_CheckLockTime_value this i) by exact Hi.
    cbn [obind]. now destruct (locktime_reached _ _ _).
  - unfold op_checksequenceverify. rewrite Hf, Hg. cbn [negb orb]. rewrite need_enough by size_lia. tops.
    rewrite En. cbn [obind num_lt_int64]. destruct (sm_value v <? 0); [reflexivity|].
    cbn [error_if num_and_int64 obind]. unfold num_ne, num_eq, bnZero. cbn [obind].
    rewrite land_bit31, negb_involutive. destruct (Z.testbit (sm_value v) 31); [reflexivity|]. cbn [orb].
    rewrite Hc. cbn [CheckSequence as_checker]. rewrite (tx_CheckSequence_value this i) by exact Hi.
    cbn [obind]. now destruct (sequence_reached _ _ _).
Qed.
End Checker.

(** ** Concrete inputs *)

Definition locked_tx : CTransaction :=
  mkTx 2 [mkTxIn (mkOutPoint (repeat 7 32) 1) [] 100] [mkTxOut 5000 [0x52; 0x93]] 600.
Definition locked_checker : TransactionSignatureChecker := mkTxChecker locked_tx 0 5000 None.

Lemma TransactionSignatureChecker_safe_witness :
  safe (fun _ => True) (CheckSig (as_checker (B := Z_BIGNUM) (K := sample_secp) locked_checker) [1; 0x41] [2] [] true).
Proof.
  apply (CheckSig_safe (SafeChecker := TransactionSignatureChecker_safe (B := Z_BIGNUM) (K := sample_secp)
    locked_checker ltac:(split; [split; vm_compute; congruence | vm_compute; reflexivity]))).
Defined.

Definition locked_env : env Z_BIGNUM :=
  mkEnv Z_BIGNUM sample_config true (fun _ => false)
    (SCRIPT_VERIFY_CHECKLOCKTIMEVERIFY ||| SCRIPT_VERIFY_CHECKSEQUENCEVERIFY)
    (as_checker (K := sample_secp) locked_checker) (repeat 0 64).

Lemma locktime_opcodes_correct_witness :
  op_checklocktimeverify locked_env (mkStacks [[88; 2]] [] 34 1000) = Ok (mkStacks [[88; 2]] [] 34 1000) /\
  op_checksequenceverify locked_env (mkStacks [[101]] [] 33 1000) = Err SCRIPT_ERR_UNSATISFIED_LOCKTIME.
Proof.
  assert (R : forall v, forallb (fun b => (0 <=? b) && (b <? 256)) v = true -> len v <= 5 ->
            readable (fRequireMinimal locked_env) 5 v).
  { intros v Hv Hl. split; [now apply bytes_okb|]. split; [exact Hl|]. split; [lia|].
    intros G. vm_compute in G. discriminate G. }
  split.
  - rewrite (proj1 (locktime_opcodes_correct (K := sample_secp) (L := Z_BIGNUM_Laws) locked_env locked_checker _ [88; 2] [] [] 34 1000
      eq_refl eq_refl eq_refl (R [88; 2] eq_refl ltac:(vm_compute; congruence))) eq_refl). reflexivity.
  - rewrite (proj2 (locktime_opcodes_correct (K := sample_secp) (L := Z_BIGNUM_Laws) locked_env locked_checker _ [101] [] [] 33 1000
      eq_refl eq_refl eq_refl (R [101] eq_refl ltac:(vm_compute; congruence))) eq_refl). reflexivity.
Defined.
End SigChecker.
