(* ===== verification/Spend.v ===== *)
(** * Spending a pay-to-public-key-hash output

    The engine run on the commonest scripts: the evaluation of a signature and a key against
    the script that names the hash of the key, computed instruction by instruction from the
    definitions of Interpreter, so that the verdict of [VerifyScript] is known exactly. *)

From S2P Require Import Prelude Endian IntSerialization Outcome BigInt ScriptNum LimitedStack.
From S2P Require Import Hasher Sha256 Ripemd160 Hash Opcodes Script Serialize Transaction ScriptChecks.
From S2P Require Import Interpreter InterpreterSafety InterpreterSpec.

Module Spend.
Local Open Scope outcome_scope.
Local Open Scope word_scope.
Import IntSerialization BigInt ScriptNum LimitedStack Sha256 Ripemd160 Hash Script Transaction ScriptChecks
  Interpreter InterpreterSafety InterpreterSpec.

Section Run.
Context {B : BIGNUM} {PK : PubKeyOps} (E : env B).
Hypothesis not_canceled : forall n, IsCanceled E n = false.

(** A state at the top level of a script. *)
Definition at_top (l : list valtype) (c m : Z) (pc code : bytes) (n : Z) (p : nat) : state :=
  mkState (mkStacks l [] c m) pc code [] [] n false p.

Lemma loop_next fuel l c m pc code n p op data rest :
  GetOp2 pc = Some (op, data, rest) ->
  loop E (S fuel) (at_top l c m pc code n p) =
  let* r := exec_instruction E op data (at_top l c m rest code n (S p)) in
  match r with Success s => Ok (Success s) | Continue s => loop E fuel s end.
Proof.
  intros G. destruct pc as [|b pc]; [discriminate|]. unfold at_top at 1. cbn [loop Interpreter.pc].
  unfold loop_body, poll. rewrite not_canceled. unfold set_polls. cbn [obind Interpreter.pc]. now rewrite G.
Qed.

Lemma loop_end fuel l c m code n p : loop E fuel (at_top l c m [] code n p) = Ok (Continue (at_top l c m [] code n p)).
Proof. now destruct fuel. Qed.

(** A direct push of two to 75 bytes. *)
Lemma exec_push l c m pc code n p d :
  2 <= len d <= 75 -> c + elem_size d <= m -> len l < 1000 ->
  exec_instruction E (len d) d (at_top l c m pc code n p) =
  Ok (Continue (at_top (d :: l) (c + elem_size d) m pc code n p)).
Proof.
  intros Hd Hc Hl. unfold exec_instruction, fExec_of, at_top. cbn [vfExec nonTopLevelReturnAfterGenesis forallb negb orb andb].
  unfold MAX_SCRIPT_ELEMENT_SIZE_BEFORE_GENESIS, OP_16, OP_PUSHDATA4, IsOpcodeDisabled, OP_2MUL, OP_2DIV.
  destruct (Z.ltb_spec 520 (len d)); [lia|]. rewrite andb_false_r. cbn [error_if].
  destruct (Z.ltb_spec 96 (len d)); [lia|]. cbn [andb error_if].
  destruct (Z.eqb_spec (len d) 141), (Z.eqb_spec (len d) 142); try lia. cbn [orb andb error_if].
  destruct (Z.leb_spec 0 (len d)), (Z.leb_spec (len d) 78); try lia. cbn [andb].
  assert (Hm : CheckMinimalPush d (len d) = true).
  { unfold CheckMinimalPush. destruct (Z.eqb_spec (len d) 0), (Z.eqb_spec (len d) 1); try lia. cbn [andb].
    destruct (Z.leb_spec (len d) 75); [apply Z.eqb_refl | lia]. }
  rewrite Hm, andb_false_r. cbn [error_if stk]. rewrite push_back_eq. destruct (Z.ltb_spec m (c + elem_size d)); [lia|].
  cbn [obind]. unfold set_stk, stack_size, altstack_size, MAX_STACK_ELEMENTS_BEFORE_GENESIS. cbn [stk stack altstack].
  rewrite len_cons. change (len (@nil valtype)) with 0. destruct (Z.ltb_spec 1000 (1 + len l + 0)); [lia|].
  now rewrite andb_false_r.
Qed.

(** An opcode that counts, at the top level. *)
Lemma exec_opcode op l c m pc code n p :
  OP_16 < op -> IsOpcodeDisabled op = false -> IsValidMaxOpsPerScript E (n + 1) = true -> 0 <= n < 2 ^ 32 ->
  exec_instruction E op [] (at_top l c m pc code n p) =
  let* r := switch E op op true (at_top l c m pc code (n + 1) p) in
  match r with
  | Success s => Ok (Success s)
  | Continue s =>
      fail_if negb (utxo_after_genesis E) && (1000 <? stack_size (stk s) + altstack_size (stk s))
        with SCRIPT_ERR_STACK_SIZE ;;
      Ok (Continue s)
  end.
Proof.
  intros H16 Hd Hv Hn. unfold OP_16 in H16. unfold exec_instruction, fExec_of, OP_16, OP_PUSHDATA4, at_top.
  cbn [vfExec nonTopLevelReturnAfterGenesis forallb negb orb andb].
  change (MAX_SCRIPT_ELEMENT_SIZE_BEFORE_GENESIS <? len []) with false. rewrite andb_false_r. cbn [error_if].
  destruct (Z.ltb_spec 96 op); [|lia]. unfold set_opcount. cbn [nOpCount stk Interpreter.pc pbegincodehash vfExec vfElse
    nonTopLevelReturnAfterGenesis polls]. rewrite u64_small by lia. rewrite Hv, Hd. cbn [negb andb error_if].
  destruct (Z.leb_spec op 78); [lia|]. now rewrite andb_false_r.
Qed.

Lemma GetOp2_short_push d rest :
  2 <= len d <= 75 -> len rest < 2 ^ 31 -> GetOp2 (push_data [] d ++ rest) = Some (len d, d, rest).
Proof.
  intros Hd Hr. rewrite GetOp2_push_data by lia. unfold push_opcode_of, OP_PUSHDATA1.
  now destruct (Z.ltb_spec (len d) 76); [|lia].
Qed.

Lemma length_short_push d : 2 <= len d <= 75 -> length (push_data [] d) = S (length d).
Proof.
  intros Hd. unfold push_data, OP_PUSHDATA1. destruct (Z.ltb_spec (len d) 76); [|lia]. reflexivity.
Qed.

(** Two pushes onto an empty stack. *)
Lemma run_pushes a b m p :
  2 <= len a <= 75 -> 2 <= len b <= 75 -> 300 <= m ->
  152 <= GetMaxScriptSize (config E) (utxo_after_genesis E) (consensus E) ->
  EvalScript E (LimitedStack_new m) (push_data [] a ++ push_data [] b) p =
  Ok (mkStacks [b; a] [] (elem_size a + elem_size b) m, S (S p)).
Proof.
  intros Ha Hb Hm Hs. unfold EvalScript, EvalScript_from, makeChildStack, LimitedStack_new.
  cbn [stack combinedStackSize maxStackSize].
  assert (Hl : length (push_data [] a ++ push_data [] b) = S (S (length a + length b)))
    by (rewrite length_app, !length_short_push by assumption; lia).
  unfold len at 1. rewrite Hl. unfold len in Ha, Hb.
  match goal with |- context [?x <? ?y] => destruct (Z.ltb_spec x y); [lia|] end. cbn [error_if].
  assert (elem_size a <= 107 /\ elem_size b <= 107) as [? ?] by (unfold elem_size, ELEMENT_OVERHEAD, len; lia).
  change (mkState _ _ ?code _ _ _ _ _) with (at_top [] 0 m code code 0 p).
  rewrite (loop_next _ _ _ _ _ _ _ _ (len a) a (push_data [] b)).
  2:{ apply GetOp2_short_push; [exact Ha|]. unfold len. rewrite length_short_push by assumption. lia. }
  rewrite exec_push by (assumption || (cbn; lia) || lia). cbn [obind].
  rewrite (loop_next _ _ _ _ _ _ _ _ (len b) b []).
  2:{ rewrite <- (app_nil_r (push_data [] b)). apply GetOp2_short_push; [exact Hb | cbn; lia]. }
  rewrite exec_push by (assumption || (cbn; lia) || lia). cbn [obind]. rewrite loop_end. reflexivity.
Qed.

(** The script, and the answer it gives for a signature and a key. *)
Definition p2pkh (h : bytes) : bytes := [OP_DUP; OP_HASH160; 20] ++ h ++ [OP_EQUALVERIFY; OP_CHECKSIG].

Definition p2pkh_answer (h sig pk : bytes) : outcome bool :=
  if bytes_eqb (spec_ripemd160 (fips_sha256 pk)) h then
    let* _ := CheckSignatureEncoding sig (flags E) in
    let* _ := CheckPubKeyEncoding pk (flags E) in
    let* ok := CheckSig (checker E) sig pk (CleanupScriptCode (p2pkh h) sig (flags E)) (forkid E) in
    fail_if negb ok && has (flags E) SCRIPT_VERIFY_NULLFAIL && not_empty sig with SCRIPT_ERR_SIG_NULLFAIL ;;
    Ok ok
  else Err SCRIPT_ERR_EQUALVERIFY.

Lemma length_spec_ripemd160 d : length (spec_ripemd160 d) = 20%nat.
Proof. reflexivity. Qed.

Lemma catch_all_ok {T U} (m : outcome T) (f : T -> U) :
  catch_all (let* a := m in Ok (f a)) = let* a := catch_all m in Ok (f a).
Proof. now destruct m as [| |[]| |]. Qed.

Lemma run_checksig sig pk h c m n p :
  elem_size sig + elem_size pk <= c <= m ->
  switch E OP_CHECKSIG OP_CHECKSIG true (at_top [pk; sig] c m [] (p2pkh h) n p) =
  let* _ := CheckSignatureEncoding sig (flags E) in
  let* _ := CheckPubKeyEncoding pk (flags E) in
  let* ok := CheckSig (checker E) sig pk (CleanupScriptCode (p2pkh h) sig (flags E)) (forkid E) in
  fail_if negb ok && has (flags E) SCRIPT_VERIFY_NULLFAIL && not_empty sig with SCRIPT_ERR_SIG_NULLFAIL ;;
  let answer := if ok then vchTrue else vchFalse in
  Ok (Continue (at_top [answer] (c - elem_size sig - elem_size pk + elem_size answer) m [] (p2pkh h) n p)).
Proof.
  intros Hc. change (switch E OP_CHECKSIG OP_CHECKSIG true (at_top [pk; sig] c m [] (p2pkh h) n p))
    with (let* s := op_checksig E OP_CHECKSIG (at_top [pk; sig] c m [] (p2pkh h) n p) in Ok (Continue s)).
  unfold op_checksig, at_top. cbn [stk pbegincodehash]. rewrite need_enough by size_lia. tops.
  destruct (CheckSignatureEncoding sig (flags E)); cbn [obind]; try reflexivity.
  destruct (CheckPubKeyEncoding pk (flags E)); cbn [obind]; try reflexivity.
  destruct (CheckSig _ _ _ _ _) as [ok| | | |]; cbn [obind]; try reflexivity. fold (not_empty sig).
  destruct (negb ok && has (flags E) SCRIPT_VERIFY_NULLFAIL && not_empty sig); [reflexivity|]. cbn [error_if].
  unfold pop2. rewrite pop_back_eq. cbn [obind]. rewrite pop_back_eq. cbn [obind]. unfold push_bool.
  rewrite push_back_eq. pose proof (len_nonneg sig). pose proof (len_nonneg pk).
  assert (Hb : elem_size (if ok then vchTrue else vchFalse) <= 33) by (destruct ok; vm_compute; discriminate).
  match goal with |- context [m <? ?z] => destruct (Z.ltb_spec m z) end.
  { exfalso. assert (32 <= elem_size sig /\ 32 <= elem_size pk) by (unfold elem_size, ELEMENT_OVERHEAD; lia). lia. }
  cbn [obind]. change (OP_CHECKSIG =? OP_CHECKSIGVERIFY) with false. cbv iota zeta. cbn [obind].
  unfold set_stk. cbn [pc pbegincodehash vfExec vfElse nOpCount nonTopLevelReturnAfterGenesis polls].
  do 4 f_equal. lia.
Qed.

Lemma loop_opcode fuel op l c m rest code n p l' c' :
  OP_16 < op -> IsOpcodeDisabled op = false -> IsValidMaxOpsPerScript E (n + 1) = true -> 0 <= n < 2 ^ 32 ->
  switch E op op true (at_top l c m rest code (n + 1) (S p)) =
    Ok (Continue (at_top l' c' m rest code (n + 1) (S p))) -> len l' <= 1000 ->
  loop E (S fuel) (at_top l c m (op :: rest) code n p) = loop E fuel (at_top l' c' m rest code (n + 1) (S p)).
Proof.
  intros H16 Hd Hv Hn Hs Hl. rewrite (loop_next _ _ _ _ _ _ _ _ op [] rest).
  2:{ unfold GetOp2, OP_PUSHDATA4. unfold OP_16 in H16. now destruct (Z.leb_spec op 78); [lia|]. }
  rewrite exec_opcode, Hs by assumption. cbn [obind]. unfold at_top at 1 2, stack_size, altstack_size.
  cbn [stk stack altstack]. change (len (@nil valtype)) with 0.
  destruct (Z.ltb_spec 1000 (len l' + 0)); [lia|]. now rewrite andb_false_r.
Qed.

Lemma run_equalverify a h l c m rest code n p :
  c <= m -> bytes_eqb a h = true ->
  switch E OP_EQUALVERIFY OP_EQUALVERIFY true (at_top (h :: a :: l) c m rest code n p) =
  Ok (Continue (at_top l (c - elem_size h - elem_size a) m rest code n p)).
Proof.
  intros Hc He. change (switch E OP_EQUALVERIFY OP_EQUALVERIFY true (at_top (h :: a :: l) c m rest code n p))
    with (let* x := op_equal OP_EQUALVERIFY (mkStacks (h :: a :: l) [] c m) in
          Ok (Continue (set_stk (at_top (h :: a :: l) c m rest code n p) x))).
  unfold op_equal. rewrite need_enough by size_lia. tops. unfold pop2. rewrite pop_back_eq. cbn [obind].
  rewrite pop_back_eq, He. cbn [obind]. unfold push_bool. rewrite push_back_eq.
  pose proof (len_nonneg a). pose proof (len_nonneg h). change (elem_size vchTrue) with 33.
  match goal with |- context [m <? ?z] => destruct (Z.ltb_spec m z) end.
  { exfalso. assert (32 <= elem_size a /\ 32 <= elem_size h) by (unfold elem_size, ELEMENT_OVERHEAD; lia). lia. }
  cbn [obind]. change (OP_EQUALVERIFY =? OP_EQUALVERIFY) with true. cbv iota. rewrite pop_back_eq. cbn [obind].
  unfold set_stk, at_top. cbn. do 4 f_equal. change (elem_size vchTrue) with 33. lia.
Qed.

Lemma run_hash160 v l c m rest code n p :
  length (garbage E) = 64%nat -> c - elem_size v + 52 <= m ->
  switch E OP_HASH160 OP_HASH160 true (at_top (v :: l) c m rest code n p) =
  Ok (Continue (at_top (spec_ripemd160 (fips_sha256 v) :: l) (c - elem_size v + 52) m rest code n p)).
Proof.
  intros Hg Hc. change (switch E OP_HASH160 OP_HASH160 true (at_top (v :: l) c m rest code n p))
    with (let* x := op_hash E OP_HASH160 (mkStacks (v :: l) [] c m) in
          Ok (Continue (set_stk (at_top (v :: l) c m rest code n p) x))).
  unfold op_hash. rewrite need_enough by size_lia. tops. cbv zeta. rewrite pop_back_eq. cbn [obind].
  rewrite (hash_of_table E OP_HASH160 (fun d => spec_ripemd160 (fips_sha256 d)) v Hg)
    by (unfold hash_table; do 3 right; left; reflexivity).
  set (d := spec_ripemd160 _). assert (Hd : elem_size d = 52) by (unfold elem_size, len, d; now rewrite length_spec_ripemd160).
  rewrite push_back_eq, Hd. destruct (Z.ltb_spec m (c - elem_size v + 52)); [lia | reflexivity].
Qed.

Lemma run_dup v l c m rest code n p :
  c + elem_size v <= m ->
  switch E OP_DUP OP_DUP true (at_top (v :: l) c m rest code n p) =
  Ok (Continue (at_top (v :: v :: l) (c + elem_size v) m rest code n p)).
Proof.
  intros Hc. change (switch E OP_DUP OP_DUP true (at_top (v :: l) c m rest code n p))
    with (let* x := op_dup (mkStacks (v :: l) [] c m) in
          Ok (Continue (set_stk (at_top (v :: l) c m rest code n p) x))).
  unfold op_dup. rewrite need_enough by size_lia. tops. rewrite push_back_eq.
  now destruct (Z.ltb_spec m (c + elem_size v)); [lia|].
Qed.

Lemma run_equalverify_fail a h l c m rest code n p :
  c <= m -> bytes_eqb a h = false ->
  switch E OP_EQUALVERIFY OP_EQUALVERIFY true (at_top (h :: a :: l) c m rest code n p) = Err SCRIPT_ERR_EQUALVERIFY.
Proof.
  intros Hc He. change (switch E OP_EQUALVERIFY OP_EQUALVERIFY true (at_top (h :: a :: l) c m rest code n p))
    with (let* x := op_equal OP_EQUALVERIFY (mkStacks (h :: a :: l) [] c m) in
          Ok (Continue (set_stk (at_top (h :: a :: l) c m rest code n p) x))).
  unfold op_equal. rewrite need_enough by size_lia. tops. unfold pop2. rewrite pop_back_eq. cbn [obind].
  rewrite pop_back_eq, He. cbn [obind]. unfold push_bool. rewrite push_back_eq.
  pose proof (len_nonneg a). pose proof (len_nonneg h). change (elem_size vchFalse) with 32.
  match goal with |- context [m <? ?z] => destruct (Z.ltb_spec m z) end; [|reflexivity].
  exfalso. assert (32 <= elem_size a /\ 32 <= elem_size h) by (unfold elem_size, ELEMENT_OVERHEAD; lia). lia.
Qed.

(** One opcode of a script whose limits allow it. *)
Ltac op_step lem :=
  erewrite loop_opcode; [|reflexivity | reflexivity | apply Z.leb_le; lia | lia | apply lem; (assumption || lia) | cbn; lia].

Lemma run_p2pkh h sig pk m p :
  length (garbage E) = 64%nat -> length h = 20%nat -> 2 <= len sig <= 75 -> 2 <= len pk <= 75 -> 500 <= m ->
  25 <= GetMaxScriptSize (config E) (utxo_after_genesis E) (consensus E) ->
  4 <= GetMaxOpsPerScript (config E) (utxo_after_genesis E) (consensus E) ->
  EvalScript E (mkStacks [pk; sig] [] (elem_size sig + elem_size pk) m) (p2pkh h) p =
  let* ok := catch_all (p2pkh_answer h sig pk) in
  let answer := if ok then vchTrue else vchFalse in
  Ok (mkStacks [answer] [] (elem_size answer) m, (5 + p)%nat).
Proof.
  intros Hg Hh Hsig Hpk Hm Hs Ho. unfold EvalScript, EvalScript_from, makeChildStack.
  cbn [stack combinedStackSize maxStackSize].
  assert (Hl : length (p2pkh h) = 25%nat) by (unfold p2pkh; rewrite !length_app, Hh; reflexivity).
  unfold len at 1. rewrite Hl. match goal with |- context [?x <? ?y] => destruct (Z.ltb_spec x y); [lia|] end.
  cbn [error_if]. change (mkState _ _ ?code _ _ _ _ _)
    with (at_top [pk; sig] (elem_size sig + elem_size pk) m code code 0 p).
  assert (elem_size sig <= 107 /\ elem_size pk <= 107) as [Ssig Spk] by (unfold elem_size, ELEMENT_OVERHEAD; lia).
  unfold p2pkh at 1. cbn [app].
  op_step run_dup. op_step run_hash160.
  set (d := spec_ripemd160 (fips_sha256 pk)).
  assert (Eh : 20 :: h ++ [OP_EQUALVERIFY; OP_CHECKSIG] = push_data [] h ++ [OP_EQUALVERIFY; OP_CHECKSIG])
    by (unfold push_data, len; rewrite Hh; reflexivity).
  assert (Hlh : len h = 20) by (unfold len; lia). assert (Sh : elem_size h = 52) by (unfold elem_size, ELEMENT_OVERHEAD; lia).
  rewrite Eh, (loop_next _ _ _ _ _ _ _ _ (len h) h [OP_EQUALVERIFY; OP_CHECKSIG]) by (apply GetOp2_short_push; cbn; lia).
  rewrite exec_push by ((cbn; lia) || lia). cbn [obind]. unfold p2pkh_answer. fold d.
  assert (Sd : elem_size d = 52) by (unfold elem_size, len, d; now rewrite length_spec_ripemd160).
  destruct (bytes_eqb d h) eqn:Ed.
  - op_step run_equalverify. rewrite (loop_next _ _ _ _ _ _ _ _ OP_CHECKSIG [] []) by reflexivity.
    rewrite exec_opcode, run_checksig by (reflexivity || (apply Z.leb_le; lia) || lia).
    destruct (CheckSignatureEncoding sig (flags E)) as [|?|[]| |]; cbn [obind]; try reflexivity.
    destruct (CheckPubKeyEncoding pk (flags E)) as [|?|[]| |]; cbn [obind]; try reflexivity.
    destruct (CheckSig _ _ _ _ _) as [ok|?|[]| |]; cbn [obind]; try reflexivity.
    destruct (negb ok && has (flags E) SCRIPT_VERIFY_NULLFAIL && not_empty sig); [reflexivity|]. cbn [error_if obind].
    set (answer := if ok then vchTrue else vchFalse). unfold at_top at 1 2, stack_size, altstack_size.
    cbn [stk stack altstack]. change (len [answer] + len (@nil valtype)) with 1. change (1000 <? 1) with false.
    rewrite andb_false_r. cbn [error_if obind]. rewrite loop_end. unfold at_top.
    cbn [catch_all obind error_if vfExec negb stk polls]. fold answer. do 3 f_equal. lia.
  - rewrite (loop_next _ _ _ _ _ _ _ _ OP_EQUALVERIFY [] [OP_CHECKSIG]) by reflexivity.
    now rewrite exec_opcode, run_equalverify_fail by (reflexivity || assumption || (apply Z.leb_le; lia) || lia).
Qed.
End Run.

Lemma IsPushOnly_two a b :
  2 <= len a <= 75 -> 2 <= len b <= 75 -> IsPushOnly (push_data [] a ++ push_data [] b) = true.
Proof.
  intros Ha Hb. unfold IsPushOnly. rewrite length_app, !length_short_push by assumption.
  assert (Hn : forall d, 2 <= len d <= 75 -> exists o r, push_data [] d = o :: r).
  { intros d Hd. unfold push_data. destruct (_ <? _); [now eexists; eexists|]. unfold OP_PUSHDATA1 in *.
    repeat match goal with |- context [if ?c then _ else _] => destruct c end; now eexists; eexists. }
  assert (Hstep : forall k d rest, 2 <= len d <= 75 -> len rest < 2 ^ 31 ->
            IsPushOnly_fuel (S k) (push_data [] d ++ rest) = IsPushOnly_fuel k rest).
  { intros k d rest Hd Hr. pose proof (GetOp2_short_push d rest Hd Hr) as G.
    destruct (Hn d Hd) as (o & r & E). rewrite E in *. cbn [app IsPushOnly_fuel]. cbn [app] in G. rewrite G.
    unfold OP_16. now destruct (Z.ltb_spec 96 (len d)); [lia|]. }
  cbn [Nat.add]. rewrite Hstep by (auto; unfold len; rewrite length_short_push by assumption; unfold len in *; lia).
  rewrite <- (app_nil_r (push_data [] b)), Nat.add_succ_r, Hstep by (auto; cbn; lia).
  now destruct (length a + length b)%nat.
Qed.

Section Verified.
Context {B : BIGNUM} {PK : PubKeyOps}.

(** C3: spending a pay-to-public-key-hash output by pushing a signature and a key, each of 2 to 75
    bytes, when verification is not cancelled, the limits allow 500 bytes of stack, scripts of 152 bytes
    and four operations, and the clean-stack rule is only asked for together with P2SH: the verdict of
    [VerifyScript] is exactly that the key hashes to the script's hash of 20 bytes, that both are
    encoded as the flags require, and that the checker accepts the signature on the script, from which
    the signature is removed where the rules say so; every failure has its own error, and nothing else
    about the scripts matters. *)
Theorem p2pkh_correct (E0 : env B) (h sig pk : bytes) :
  let E := set_flags E0 (VerifyScript_flags (flags E0)) in
  (forall n, IsCanceled E0 n = false) -> length (garbage E0) = 64%nat ->
  length h = 20%nat -> 2 <= len sig <= 75 -> 2 <= len pk <= 75 ->
  500 <= GetMaxStackMemoryUsage (config E0) (utxo_after_genesis E) (consensus E0) ->
  152 <= GetMaxScriptSize (config E0) (utxo_after_genesis E) (consensus E0) ->
  4 <= GetMaxOpsPerScript (config E0) (utxo_after_genesis E) (consensus E0) ->
  (has (flags E) SCRIPT_VERIFY_CLEANSTACK = true -> has (flags E) SCRIPT_VERIFY_P2SH = true) ->
  VerifyScript E0 (push_data [] sig ++ push_data [] pk) (p2pkh h) =
  let* ok := catch_all (p2pkh_answer E h sig pk) in
  fail_if negb ok with SCRIPT_ERR_EVAL_FALSE ;; Ok tt.
Proof.
  intros E Hnc Hg Hh Hsig Hpk Hm Hs Ho Hcl. unfold VerifyScript. fold E.
  rewrite IsPushOnly_two by assumption. rewrite andb_false_r. cbn [error_if]. cbv zeta.
  rewrite (run_pushes E Hnc) by (assumption || (etransitivity; [|exact Hm]; lia)). cbn [obind].
  rewrite (run_p2pkh E Hnc) by (assumption || (etransitivity; [|exact Hs]; lia)).
  destruct (catch_all (p2pkh_answer E h sig pk)) as [ok| | | |]; cbn [obind]; try reflexivity.
  assert (Hp : IsP2SH (p2pkh h) = false).
  { unfold IsP2SH, p2pkh, len. rewrite !length_app, Hh. reflexivity. }
  rewrite Hp, andb_false_r. cbv zeta. destruct ok; cbn [negb error_if obind check_true stack]; [|reflexivity].
  change (CastToBool vchTrue) with true. cbn [negb error_if obind]. fold E.
  change (VerifyScript_flags (flags E0)) with (flags E).
  destruct (has (flags E) SCRIPT_VERIFY_CLEANSTACK) eqn:Ec; [|reflexivity]. now rewrite (Hcl eq_refl).
Qed.
End Verified.

(** With a checker that accepts a signature equal to the key. *)
Lemma p2pkh_correct_witness :
  VerifyScript (PK := any_key) spec_env (push_data [] [7; 8] ++ push_data [] [7; 8])
    (p2pkh (spec_ripemd160 (fips_sha256 [7; 8]))) = Ok tt.
Proof.
  pose proof (p2pkh_correct (PK := any_key) spec_env (spec_ripemd160 (fips_sha256 [7; 8])) [7; 8] [7; 8]) as T.
  cbv zeta in T. rewrite T; clear T; try (vm_compute; congruence); try reflexivity.
  all: split; vm_compute; discriminate.
Defined.
End Spend.
