(* ===== verification/ArithUint256.v ===== *)
(** * 256-bit integers (src/src/arith_uint256.h, src/src/arith_uint256.cpp)

    [base_uint<256>] as its eight 32-bit words, the least significant first, with the loops of
    its operators, and the compact encoding of difficulty targets. *)

From S2P Require Import Prelude Endian Outcome.

Module ArithUint256.
Local Open Scope outcome_scope.
Local Open Scope word_scope.

Definition WIDTH : nat := 8.

(** The array [pn]. *)
Definition base_uint : Type := list Z.

Definition of_u64 (b : Z) : base_uint := u32 b :: u32 (b >>> 32) :: repeat 0 6.
Definition zero : base_uint := repeat 0 WIDTH.

Definition is_zero (a : base_uint) : bool := forallb (fun w => w =? 0) a.

(** [operator~] *)
Definition bnot (a : base_uint) : base_uint := map not32 a.

(** [operator++]: [while (++pn[i] == 0 && i < WIDTH - 1) i++;] *)
Fixpoint inc (a : base_uint) : base_uint :=
  match a with
  | [] => []
  | w :: r => let w := u32 (w + 1) in if w =? 0 then w :: inc r else w :: r
  end.

(** [operator--] *)
Fixpoint dec (a : base_uint) : base_uint :=
  match a with
  | [] => []
  | w :: r => let w := u32 (w - 1) in if w =? 0xffffffff then w :: dec r else w :: r
  end.

(** [operator-()] *)
Definition neg (a : base_uint) : base_uint := inc (map not32 a).

Definition bxor (a b : base_uint) : base_uint := map (fun p => fst p ^^^ snd p) (combine a b).
Definition band (a b : base_uint) : base_uint := map (fun p => fst p &&& snd p) (combine a b).
Definition bor (a b : base_uint) : base_uint := map (fun p => fst p ||| snd p) (combine a b).

(** [operator+=]: the loop from a carry on *)
Fixpoint add_loop (carry : Z) (a b : base_uint) : base_uint :=
  match a, b with
  | x :: a, y :: b =>
      let n := u64 (carry + x + y) in
      (n &&& 0xffffffff) :: add_loop (n >>> 32) a b
  | _, _ => []
  end.
Definition add (a b : base_uint) : base_uint := add_loop 0 a b.

(** [operator-=] *)
Definition sub (a b : base_uint) : base_uint := add a (neg b).

(** [operator*=(uint32_t)] *)
Fixpoint mul32_loop (carry b32 : Z) (a : base_uint) : base_uint :=
  match a with
  | x :: a =>
      let n := u64 (carry + u64 (b32 * x)) in
      (n &&& 0xffffffff) :: mul32_loop (n >>> 32) b32 a
  | [] => []
  end.
Definition mul32 (a : base_uint) (b32 : Z) : base_uint := mul32_loop 0 (u32 b32) a.

(** [operator*=]: the inner loop over [pn[i + j]], which stops with the array, and the outer
    loop, whose round [j] leaves the first [j] words alone *)
Fixpoint mul_row (carry aj : Z) (pn b : base_uint) : base_uint :=
  match pn, b with
  | x :: pn, y :: b =>
      let n := u64 (carry + x + u64 (aj * y)) in
      (n &&& 0xffffffff) :: mul_row (n >>> 32) aj pn b
  | _, _ => []
  end.
Fixpoint mul_loop (a pn b : base_uint) : base_uint :=
  match a with
  | [] => pn
  | aj :: a =>
      match mul_row 0 aj pn b with
      | [] => []
      | x :: pn => x :: mul_loop a pn b
      end
  end.
Definition mul (a b : base_uint) : base_uint := mul_loop a zero b.

(** [pn[k] |= v] *)
Definition or_word (pn : base_uint) (k : nat) (v : Z) : base_uint :=
  firstn k pn ++ (nth k pn 0 ||| v) :: skipn (S k) pn.

(** [operator<<=]: one round *)
Definition shl_step (a : base_uint) (k : nat) (shift : Z) (pn : base_uint) (i : nat) : base_uint :=
  let pn :=
    if (i + k + 1 <? WIDTH)%nat && negb (shift =? 0)
    then or_word pn (i + k + 1) (nth i a 0 >>> (32 - shift)) else pn in
  if (i + k <? WIDTH)%nat then or_word pn (i + k) (shl32 (nth i a 0) shift) else pn.
Definition shl (a : base_uint) (shift : Z) : base_uint :=
  fold_left (shl_step a (Z.to_nat (shift / 32)) (shift mod 32)) (seq 0 WIDTH) zero.

(** [operator>>=] *)
Definition shr_step (a : base_uint) (k : nat) (shift : Z) (pn : base_uint) (i : nat) : base_uint :=
  let pn :=
    if (k + 1 <=? i)%nat && negb (shift =? 0)
    then or_word pn (i - k - 1) (shl32 (nth i a 0) (32 - shift)) else pn in
  if (k <=? i)%nat then or_word pn (i - k) (nth i a 0 >>> shift) else pn.
Definition shr (a : base_uint) (shift : Z) : base_uint :=
  fold_left (shr_step a (Z.to_nat (shift / 32)) (shift mod 32)) (seq 0 WIDTH) zero.

(** [CompareTo]: from the most significant word *)
Fixpoint compare_loop (i : nat) (a b : base_uint) : Z :=
  match i with
  | O => 0
  | S i =>
      if nth i a 0 <? nth i b 0 then -1
      else if nth i b 0 <? nth i a 0 then 1
      else compare_loop i a b
  end.
Definition CompareTo (a b : base_uint) : Z := compare_loop WIDTH a b.

Definition gt (a b : base_uint) : bool := 0 <? CompareTo a b.
Definition lt (a b : base_uint) : bool := CompareTo a b <? 0.
Definition ge (a b : base_uint) : bool := 0 <=? CompareTo a b.
Definition le (a b : base_uint) : bool := CompareTo a b <=? 0.

Definition EqualTo (a : base_uint) (b : Z) : bool :=
  forallb (fun i => nth i a 0 =? 0) [7; 6; 5; 4; 3; 2]%nat &&
  (nth 1 a 0 =? b >>> 32) && (nth 0 a 0 =? b &&& 0xffffffff).

(** [bits]: the highest bit of the highest word that is not zero *)
Fixpoint word_bits (bits : nat) (w : Z) : Z :=
  match bits with
  | O => 0
  | S n => if negb (w &&& (1 <<< Z.of_nat bits) =? 0) then Z.of_nat bits else word_bits n w
  end.
Fixpoint bits_loop (pos : nat) (a : base_uint) : Z :=
  match pos with
  | O => 0
  | S pos =>
      if negb (nth pos a 0 =? 0) then 32 * Z.of_nat pos + word_bits 31 (nth pos a 0) + 1
      else bits_loop pos a
  end.
Definition bits (a : base_uint) : Z := bits_loop WIDTH a.

Definition GetLow64 (a : base_uint) : Z := nth 0 a 0 ||| shl64 (nth 1 a 0) 32.

(** [operator/=]: [n] is [shift + 1] *)
Fixpoint div_loop (n : nat) (num div pn : base_uint) : base_uint :=
  match n with
  | O => pn
  | S shift =>
      let '(num, pn) :=
        if ge num div then
          (sub num div, or_word pn (shift / 32) (1 <<< (Z.of_nat shift mod 32)))
        else (num, pn) in
      div_loop shift num (shr div 1) pn
  end.
(** Division by zero throws [uint_error]. *)
Definition div (a b : base_uint) : outcome base_uint :=
  let num_bits := bits a in
  let div_bits := bits b in
  if div_bits =? 0 then Throw std_exception
  else if num_bits <? div_bits then Ok zero
  else
    let shift := num_bits - div_bits in
    Ok (div_loop (S (Z.to_nat shift)) a (shl b shift) zero).

(** ** The compact format *)

(** [SetCompact]: the number, [pfNegative] and [pfOverflow] *)
Definition SetCompact (nCompact : Z) : base_uint * bool * bool :=
  let nSize := nCompact >>> 24 in
  let nWord := nCompact &&& 0x007fffff in
  let '(nWord, this) :=
    if nSize <=? 3 then
      let nWord := nWord >>> (8 * (3 - nSize)) in (nWord, of_u64 nWord)
    else (nWord, shl (of_u64 nWord) (8 * (nSize - 3))) in
  (this,
   negb (nWord =? 0) && negb (nCompact &&& 0x00800000 =? 0),
   negb (nWord =? 0) &&
     ((34 <? nSize) || ((0xff <? nWord) && (33 <? nSize)) || ((0xffff <? nWord) && (32 <? nSize)))).

Definition GetCompact (a : base_uint) (fNegative : bool) : outcome Z :=
  let nSize := (bits a + 7) / 8 in
  let nCompact :=
    if nSize <=? 3 then u32 (shl64 (GetLow64 a) (8 * (3 - nSize)))
    else u32 (GetLow64 (shr a (8 * (nSize - 3)))) in
  let '(nCompact, nSize) :=
    if negb (nCompact &&& 0x00800000 =? 0) then (nCompact >>> 8, nSize + 1) else (nCompact, nSize) in
  assert_ (nCompact &&& not32 0x007fffff =? 0) (
    assert_ (nSize <? 256) (
      let nCompact := nCompact ||| shl32 nSize 24 in
      Ok (nCompact ||| (if fNegative && negb (nCompact &&& 0x007fffff =? 0) then 0x00800000 else 0)))).

(** ** Conversions *)

Definition ArithToUint256 (a : base_uint) : bytes := concat (map WriteLE32 a).
Definition UintToArith256 (a : bytes) : base_uint :=
  map (fun x => ReadLE32 (skipn (x * 4) a)) (seq 0 WIDTH).

(** ** Values *)

Definition word (w : Z) : Prop := 0 <= w < 2 ^ 32.
Definition words (l : list Z) : Prop := Forall word l.

(** The number a list of words stands for. *)
Fixpoint val (l : list Z) : Z :=
  match l with [] => 0 | w :: l => w + 2 ^ 32 * val l end.

(** An object of the class. *)
Definition uint_ok (a : base_uint) : Prop := length a = WIDTH /\ words a.

(** [W k] is [2 ^ 32] to the [k]. *)
Definition W (k : nat) : Z := 2 ^ (32 * Z.of_nat k).

Lemma W_succ k : W (S k) = 2 ^ 32 * W k.
Proof. unfold W. rewrite <- Z.pow_add_r by lia. f_equal. lia. Qed.

Lemma W_pos k : 0 < W k.
Proof. unfold W. apply Z.pow_pos_nonneg; lia. Qed.

Lemma W_add j k : W (j + k) = W j * W k.
Proof. unfold W. rewrite <- Z.pow_add_r by lia. f_equal. lia. Qed.

Lemma val_range l : words l -> 0 <= val l < W (length l).
Proof.
  induction 1 as [|w l Hw Hl IH]; [cbn [val length]; change (W 0) with 1; lia|]. cbn [val length]. rewrite W_succ. unfold word in Hw. nia.
Qed.

Lemma val_app l m : val (l ++ m) = val l + W (length l) * val m.
Proof.
  induction l as [|w l IH]; cbn [app val length]; [change (W 0) with 1; lia|]. rewrite IH, W_succ. ring.
Qed.

Lemma val_zeros k : val (repeat 0 k) = 0.
Proof. induction k as [|k IH]; cbn [repeat val]; lia. Qed.

Lemma uint_range a : uint_ok a -> 0 <= val a < 2 ^ 256.
Proof. intros [Hl Hw]. apply val_range in Hw. rewrite Hl in Hw. exact Hw. Qed.

Lemma val_inj l m : words l -> words m -> length l = length m -> val l = val m -> l = m.
Proof.
  intros Hl. revert m; induction Hl as [|w l Hw Hl IH]; intros [|v m] Hm E Ev; try discriminate; [reflexivity|].
  inversion Hm as [|? ? Hv Hm']; subst. cbn [val] in Ev. unfold word in *.
  assert (val l = val m /\ w = v) as [El ->] by lia. f_equal. now apply IH; [|injection E|].
Qed.

(** The low word of a number and the carry into the rest. *)
Lemma carry_mod n r k :
  Z.land n 0xffffffff + 2 ^ 32 * ((Z.shiftr n 32 + r) mod W k) = (n + 2 ^ 32 * r) mod W (S k).
Proof.
  change 0xffffffff with (Z.ones 32). rewrite Z.land_ones, Z.shiftr_div_pow2, W_succ by lia.
  rewrite (Z.rem_mul_r (n + 2 ^ 32 * r) (2 ^ 32) (W k)) by (pose proof (W_pos k); lia).
  replace (n + 2 ^ 32 * r) with (n + r * 2 ^ 32) by ring. now rewrite Z.mod_add, Z.div_add by lia.
Qed.

Lemma land_word n : word (Z.land n 0xffffffff).
Proof. apply u32_range. Qed.

Lemma add_loop_spec c a b :
  words a -> words b -> length a = length b -> 0 <= c <= 1 ->
  val (add_loop c a b) = (c + val a + val b) mod W (length a) /\
  words (add_loop c a b) /\ length (add_loop c a b) = length a.
Proof.
  intros Ha. revert c b; induction Ha as [|x a Hx Ha IH]; intros c b Hb Hl Hc; destruct Hb as [|y b Hy Hb]; try discriminate.
  { split; [|split; [constructor | reflexivity]]. change (W 0) with 1. now rewrite Z.mod_1_r. }
  unfold word in *. injection Hl as Hl. cbn [add_loop length]. cbv zeta. rewrite u64_small by lia.
  assert (Hd : 0 <= (c + x + y) / 2 ^ 32 <= 1)
    by (split; [apply Z.div_pos; lia | apply Z.lt_succ_r, Z.div_lt_upper_bound; lia]).
  destruct (IH (Z.shiftr (c + x + y) 32) b Hb Hl ltac:(rewrite Z.shiftr_div_pow2; lia)) as (Hv & Hw & Hn).
  split; [|split; [constructor; [apply land_word | exact Hw] | now rewrite Hn]].
  cbn [val]. rewrite Hv, <- (Z.add_assoc (Z.shiftr _ _)), carry_mod. f_equal. ring.
Qed.

Lemma add_spec a b : uint_ok a -> uint_ok b -> uint_ok (add a b) /\ val (add a b) = (val a + val b) mod 2 ^ 256.
Proof.
  intros [La Wa] [Lb Wb]. destruct (add_loop_spec 0 a b Wa Wb ltac:(congruence) ltac:(lia)) as (Hv & Hw & Hl).
  split; [split; [now rewrite <- La | exact Hw]|]. rewrite La in Hv. exact Hv.
Qed.

Lemma word_mul a b : word a -> word b -> 0 <= a * b <= (2 ^ 32 - 1) * (2 ^ 32 - 1).
Proof. unfold word. intros Ha Hb. split; [apply Z.mul_nonneg_nonneg; lia | apply Z.mul_le_mono_nonneg; lia]. Qed.

Lemma mul32_loop_spec c b a :
  words a -> word b -> 0 <= c < 2 ^ 32 ->
  val (mul32_loop c b a) = (c + b * val a) mod W (length a) /\
  words (mul32_loop c b a) /\ length (mul32_loop c b a) = length a.
Proof.
  intros Ha Hb. revert c; induction Ha as [|x a Hx Ha IH]; intros c Hc.
  { split; [|split; [constructor | reflexivity]]. change (W 0) with 1. now rewrite Z.mod_1_r. }
  pose proof (word_mul b x Hb Hx). cbn [mul32_loop length]. cbv zeta. rewrite (u64_small (b * x)), u64_small by lia.
  assert (Hd : 0 <= (c + b * x) / 2 ^ 32 < 2 ^ 32)
    by (split; [apply Z.div_pos | apply Z.div_lt_upper_bound]; lia).
  destruct (IH (Z.shiftr (c + b * x) 32) ltac:(rewrite Z.shiftr_div_pow2; lia)) as (Hv & Hw & Hn).
  split; [|split; [constructor; [apply land_word | exact Hw] | now rewrite Hn]].
  cbn [val]. rewrite Hv, carry_mod. f_equal. ring.
Qed.

Lemma mul32_spec a b :
  uint_ok a -> uint_ok (mul32 a b) /\ val (mul32 a b) = (val a * u32 b) mod 2 ^ 256.
Proof.
  intros [La Wa]. destruct (mul32_loop_spec 0 (u32 b) a Wa (u32_range b) ltac:(lia)) as (Hv & Hw & Hl).
  split; [split; [now rewrite <- La | exact Hw]|]. rewrite La in Hv. rewrite Z.mul_comm. exact Hv.
Qed.

Lemma mul_row_spec c aj pn b :
  words pn -> words b -> word aj -> (length pn <= length b)%nat -> 0 <= c < 2 ^ 32 ->
  val (mul_row c aj pn b) = (c + val pn + aj * val b) mod W (length pn) /\
  words (mul_row c aj pn b) /\ length (mul_row c aj pn b) = length pn.
Proof.
  intros Hp Hb Ha. revert c b Hb; induction Hp as [|x pn Hx Hp IH]; intros c b Hb Hl Hc.
  { split; [|split; [constructor | reflexivity]]. change (W 0) with 1. now rewrite Z.mod_1_r. }
  destruct Hb as [|y b Hy Hb]; [cbn in Hl; lia|].
  pose proof (word_mul aj y Ha Hy). unfold word in Hx. cbn [mul_row length]. cbv zeta. rewrite (u64_small (aj * y)), u64_small by lia.
  assert (Hd : 0 <= (c + x + aj * y) / 2 ^ 32 < 2 ^ 32)
    by (split; [apply Z.div_pos | apply Z.div_lt_upper_bound]; lia).
  destruct (IH (Z.shiftr (c + x + aj * y) 32) b Hb ltac:(cbn in Hl; lia) ltac:(rewrite Z.shiftr_div_pow2; lia))
    as (Hv & Hw & Hn).
  split; [|split; [constructor; [apply land_word | exact Hw] | now rewrite Hn]].
  cbn [val]. rewrite Hv, <- (Z.add_assoc (Z.shiftr _ _)), carry_mod. f_equal. ring.
Qed.

Lemma mul_loop_spec a pn b :
  words a -> words pn -> words b -> length a = length pn -> (length pn <= length b)%nat ->
  val (mul_loop a pn b) = (val pn + val a * val b) mod W (length a) /\
  words (mul_loop a pn b) /\ length (mul_loop a pn b) = length a.
Proof.
  intros Ha. revert pn; induction Ha as [|x a Hx Ha IH]; intros pn Hp Hb Hl Hlb.
  { destruct pn; [|discriminate]. split; [|split; [constructor | reflexivity]]. change (W 0) with 1. now rewrite Z.mod_1_r. }
  destruct (mul_row_spec 0 x pn b Hp Hb Hx Hlb ltac:(lia)) as (Hv & Hw & Hn). cbn [mul_loop length] in *.
  destruct (mul_row 0 x pn b) as [|y r] eqn:Er; [cbn in Hn; lia|].
  inversion Hw as [|? ? Hy Hr]; subst. cbn [length] in Hn.
  destruct (IH r Hr Hb ltac:(lia) ltac:(lia)) as (Hv' & Hw' & Hn').
  split; [|split; [constructor; auto | cbn [length]; now rewrite Hn']].
  cbn [val] in *. rewrite Hv'. rewrite <- Hl in Hv. cbn [length] in Hv. rewrite Z.add_0_l in Hv.
  set (N := val pn + x * val b) in *. rewrite W_succ in *. pose proof (W_pos (length a)).
  rewrite (Z.rem_mul_r N) in Hv by lia. unfold word in Hy. pose proof (Z.mod_pos_bound N (2 ^ 32) ltac:(lia)).
  assert (y = N mod 2 ^ 32 /\ val r = (N / 2 ^ 32) mod W (length a)) as [-> ->] by lia.
  rewrite Zplus_mod_idemp_l.
  replace (val pn + (x + 2 ^ 32 * val a) * val b) with (N + (val a * val b) * 2 ^ 32) by (unfold N; ring).
  rewrite (Z.rem_mul_r (N + _)) by lia. now rewrite Z.mod_add, Z.div_add by lia.
Qed.

Lemma zero_ok : uint_ok zero.
Proof. split; [reflexivity|]. repeat constructor; unfold word; lia. Qed.

Lemma mul_spec a b : uint_ok a -> uint_ok b -> uint_ok (mul a b) /\ val (mul a b) = (val a * val b) mod 2 ^ 256.
Proof.
  intros [La Wa] [Lb Wb]. destruct zero_ok as [Lz Wz].
  destruct (mul_loop_spec a zero b Wa Wz Wb ltac:(congruence) ltac:(rewrite Lz, Lb; lia)) as (Hv & Hw & Hl).
  split; [split; [unfold mul; congruence | exact Hw]|]. rewrite La in Hv. exact Hv.
Qed.

Lemma inc_loop_spec a :
  words a -> val (inc a) = (val a + 1) mod W (length a) /\ words (inc a) /\ length (inc a) = length a.
Proof.
  induction 1 as [|w a Hw Ha IH].
  { split; [|split; [constructor | reflexivity]]. change (W 0) with 1. now rewrite Z.mod_1_r. }
  destruct IH as (Hv & Hws & Hl). pose proof (val_range a Ha) as Hr. pose proof (u32_range (w + 1)) as Hu.
  unfold word in Hw. cbn [inc val length]. cbv zeta. rewrite W_succ. destruct (Z.eqb_spec (u32 (w + 1)) 0) as [E|E].
  - assert (w = 2 ^ 32 - 1) as ->.
    { destruct (Z.lt_ge_cases w (2 ^ 32 - 1)); [rewrite u32_small in E by lia; lia | lia]. }
    cbn [val length]. rewrite Hv, E. split; [|split; [constructor; [unfold word; lia | exact Hws] | now rewrite Hl]].
    replace (2 ^ 32 - 1 + 2 ^ 32 * val a + 1) with (2 ^ 32 * (val a + 1)) by ring.
    rewrite Z.mul_mod_distr_l by (pose proof (W_pos (length a)); lia). ring.
  - assert (w + 1 < 2 ^ 32).
    { destruct (Z.eq_dec (w + 1) (2 ^ 32)) as [Ew|]; [rewrite Ew in E; now cbv in E | lia]. }
    rewrite u32_small by lia. split; [|split; [constructor; [unfold word; lia | exact Ha] | reflexivity]].
    cbn [val]. symmetry. rewrite Z.mod_small; nia.
Qed.

Lemma bnot_loop_spec a :
  words a -> val (bnot a) = W (length a) - 1 - val a /\ words (bnot a) /\ length (bnot a) = length a.
Proof.
  unfold bnot. induction 1 as [|w a Hw Ha (Hv & Hws & Hl)]; [split; [reflexivity | split; [constructor | reflexivity]]|].
  assert (Hn : not32 w = 2 ^ 32 - 1 - w).
  { unfold not32, word in *. change 0xffffffff with (Z.ones 32).
    assert (Hland : Z.land w (Z.lxor w (Z.ones 32)) = 0).
    { apply Z.bits_inj'. intros i Hi. rewrite Z.land_spec, Z.lxor_spec, Z.bits_0.
      destruct (Z.lt_ge_cases i 32); [rewrite Z.ones_spec_low by lia; now destruct (Z.testbit w i)|].
      rewrite (Z.bits_above_log2 w i); [reflexivity | lia|].
      destruct (Z.eq_dec w 0) as [->|]; [cbn; lia|]. apply Z.log2_lt_pow2; [lia|].
      apply Z.lt_le_trans with (2 ^ 32); [lia | apply Z.pow_le_mono_r; lia]. }
    pose proof (Z.add_nocarry_lxor _ _ Hland) as Hs.
    rewrite <- Z.lxor_assoc, Z.lxor_nilpotent, Z.lxor_0_l in Hs. change (Z.ones 32) with (2 ^ 32 - 1) in *. lia. }
  cbn [map val length]. rewrite Hn, Hv, W_succ. unfold word in *. split; [ring|].
  split; [constructor; [unfold word; lia | exact Hws] | now rewrite Hl].
Qed.

Lemma neg_spec a : uint_ok a -> uint_ok (neg a) /\ val (neg a) = (- val a) mod 2 ^ 256.
Proof.
  intros [La Wa]. destruct (bnot_loop_spec a Wa) as (Hv & Hw & Hl). destruct (inc_loop_spec _ Hw) as (Hv' & Hw' & Hl').
  split; [split; [unfold neg, bnot in *; congruence | exact Hw']|].
  change (neg a) with (inc (bnot a)). rewrite Hv', Hv, Hl, La. change (W WIDTH) with (2 ^ 256).
  replace (2 ^ 256 - 1 - val a + 1) with (- val a + 1 * 2 ^ 256) by ring. apply Z.mod_add. lia.
Qed.

Lemma sub_spec a b : uint_ok a -> uint_ok b -> uint_ok (sub a b) /\ val (sub a b) = (val a - val b) mod 2 ^ 256.
Proof.
  intros Ha Hb. destruct (neg_spec b Hb) as [On Vn]. destruct (add_spec a (neg b) Ha On) as [Os Vs].
  split; [exact Os|]. unfold sub. rewrite Vs, Vn, Zplus_mod_idemp_r. reflexivity.
Qed.

Lemma of_u64_spec b : 0 <= b < 2 ^ 64 -> uint_ok (of_u64 b) /\ val (of_u64 b) = b.
Proof.
  intros Hb. unfold of_u64. rewrite Z.shiftr_div_pow2 by lia.
  assert (Hd : 0 <= b / 2 ^ 32 < 2 ^ 32) by (split; [apply Z.div_pos | apply Z.div_lt_upper_bound]; lia).
  rewrite (u32_small (b / 2 ^ 32)) by lia. split.
  - split; [reflexivity|]. constructor; [apply u32_range|]. constructor; [exact Hd|].
    repeat constructor; unfold word; lia.
  - cbn [val]. rewrite val_zeros, u32_mod. pose proof (Z.div_mod b (2 ^ 32)). lia.
Qed.

(** *** Shifts *)

(** The words of a number shifted left by less than a word, from a carry on. *)
Fixpoint shl_words (s c : Z) (a : list Z) : list Z :=
  match a with
  | [] => []
  | x :: a => (c ||| shl32 x s) :: shl_words s (if s =? 0 then 0 else x >>> (32 - s)) a
  end.

Fixpoint shr_words (s : Z) (a : list Z) : list Z :=
  match a with
  | [] => []
  | [x] => [x >>> s]
  | x :: (y :: _) as a' => ((x >>> s) ||| (if s =? 0 then 0 else shl32 y (32 - s))) :: shr_words s a'
  end.

Lemma shl_eq a k s :
  length a = WIDTH -> (k < 8)%nat ->
  fold_left (shl_step a k s) (seq 0 WIDTH) zero = firstn 8 (repeat 0 k ++ shl_words s 0 a).
Proof.
  intros Ha Hk. unfold WIDTH in *. do 8 (destruct a as [|? a]; [discriminate|]). destruct a; [|discriminate].
  unfold shl_step, WIDTH. cbn [shl_words]. destruct (s =? 0); cbn [negb];
  do 8 (destruct k as [|k]; [cbv beta iota zeta delta [seq fold_left Nat.add Nat.ltb Nat.leb andb or_word firstn skipn nth app repeat zero WIDTH];
    rewrite ?Z.lor_0_l; reflexivity|]); lia.
Qed.

Lemma shr_eq a k s :
  length a = WIDTH -> (k < 8)%nat ->
  fold_left (shr_step a k s) (seq 0 WIDTH) zero = shr_words s (skipn k a) ++ repeat 0 k.
Proof.
  intros Ha Hk. unfold WIDTH in *. do 8 (destruct a as [|? a]; [discriminate|]). destruct a; [|discriminate].
  unfold shr_step. destruct (s =? 0) eqn:Es; cbn [negb];
  do 8 (destruct k as [|k]; [cbv beta iota zeta delta [seq fold_left Nat.add Nat.sub Nat.leb andb or_word firstn skipn nth app repeat zero
    shr_words WIDTH]; rewrite ?Es, ?Z.lor_0_l, ?Z.lor_0_r; reflexivity|]); lia.
Qed.

(** A word shifted left: what stays and what is carried. *)
Lemma word_split x s :
  word x -> 0 <= s < 32 ->
  shl32 x s = Z.shiftl (x mod 2 ^ (32 - s)) s /\ 0 <= x mod 2 ^ (32 - s) < 2 ^ (32 - s) /\
  (if s =? 0 then 0 else x >>> (32 - s)) = x / 2 ^ (32 - s) /\ 0 <= x / 2 ^ (32 - s) < 2 ^ s /\
  x * 2 ^ s = 2 ^ s * (x mod 2 ^ (32 - s)) + 2 ^ 32 * (x / 2 ^ (32 - s)) /\ 2 ^ s * 2 ^ (32 - s) = 2 ^ 32.
Proof.
  intros Hx Hs. unfold word in Hx. assert (Hp : 2 ^ s * 2 ^ (32 - s) = 2 ^ 32) by (rewrite <- Z.pow_add_r by lia; f_equal; lia).
  assert (0 < 2 ^ s) by (apply Z.pow_pos_nonneg; lia). assert (0 < 2 ^ (32 - s)) by (apply Z.pow_pos_nonneg; lia).
  pose proof (Z.mod_pos_bound x (2 ^ (32 - s)) ltac:(lia)). pose proof (Z.div_mod x (2 ^ (32 - s)) ltac:(lia)) as Hd.
  assert (Hq : 0 <= x / 2 ^ (32 - s) < 2 ^ s) by (split; [apply Z.div_pos | apply Z.div_lt_upper_bound]; lia).
  assert (He : x * 2 ^ s = 2 ^ s * (x mod 2 ^ (32 - s)) + 2 ^ 32 * (x / 2 ^ (32 - s))) by (rewrite <- Hp; nia).
  split; [|split; [assumption|split; [|split; [assumption|split; assumption]]]].
  - unfold shl32. rewrite u32_mod, !Z.shiftl_mul_pow2 by lia. rewrite He, Z.mul_comm.
    rewrite (Z.mul_comm (2 ^ 32)), Z.mod_add, Z.mod_small by nia. ring.
  - destruct (Z.eqb_spec s 0) as [->|]; [|now rewrite Z.shiftr_div_pow2 by lia].
    change (2 ^ (32 - 0)) with (2 ^ 32). now rewrite Z.div_small.
Qed.

Lemma shl_words_spec s c a :
  words a -> 0 <= s < 32 -> 0 <= c < 2 ^ s ->
  val (shl_words s c a) = (c + val a * 2 ^ s) mod W (length a) /\
  words (shl_words s c a) /\ length (shl_words s c a) = length a.
Proof.
  intros Ha Hs. revert c; induction Ha as [|x a Hx Ha IH]; intros c Hc.
  { split; [|split; [constructor | reflexivity]]. change (W 0) with 1. now rewrite Z.mod_1_r. }
  destruct (word_split x s Hx Hs) as (E1 & B1 & E2 & B2 & E3 & E4). cbn [shl_words length]. rewrite E1, E2.
  destruct (IH _ B2) as (Hv & Hw & Hl). rewrite lor_shiftl_add by lia.
  set (n := c + x * 2 ^ s). assert (0 < 2 ^ s) by (apply Z.pow_pos_nonneg; lia).
  assert (Hlow : 0 <= c + 2 ^ s * (x mod 2 ^ (32 - s)) < 2 ^ 32) by nia.
  assert (Hn : Z.land n 0xffffffff = c + 2 ^ s * (x mod 2 ^ (32 - s)) /\ Z.shiftr n 32 = x / 2 ^ (32 - s)).
  { change 0xffffffff with (Z.ones 32). rewrite Z.land_ones, Z.shiftr_div_pow2 by lia. unfold n. rewrite E3.
    replace (c + (2 ^ s * (x mod 2 ^ (32 - s)) + 2 ^ 32 * (x / 2 ^ (32 - s))))
      with (c + 2 ^ s * (x mod 2 ^ (32 - s)) + x / 2 ^ (32 - s) * 2 ^ 32) by ring.
    now rewrite Z.mod_add, Z.div_add, Z.mod_small, Z.div_small by lia. }
  destruct Hn as [N1 N2]. split; [|split; [constructor; [exact Hlow | exact Hw] | now rewrite Hl]].
  cbn [val]. rewrite Hv, <- N1, <- N2, carry_mod. f_equal. unfold n. ring.
Qed.

Lemma shr_words_spec s a :
  words a -> 0 <= s < 32 ->
  val (shr_words s a) = val a / 2 ^ s /\ words (shr_words s a) /\ length (shr_words s a) = length a.
Proof.
  intros Ha Hs. assert (P : 0 < 2 ^ s) by (apply Z.pow_pos_nonneg; lia).
  assert (Hp : 2 ^ (32 - s) * 2 ^ s = 2 ^ 32) by (rewrite <- Z.pow_add_r by lia; f_equal; lia).
  assert (P' : 0 < 2 ^ (32 - s)) by (apply Z.pow_pos_nonneg; lia).
  induction Ha as [|x a Hx Ha IH]; [split; [symmetry; apply Z.div_0_l; lia | split; [constructor | reflexivity]]|].
  unfold word in Hx. assert (Hq : 0 <= x / 2 ^ s < 2 ^ (32 - s))
    by (split; [apply Z.div_pos | apply Z.div_lt_upper_bound]; lia).
  destruct IH as (Hv & Hw & Hl). destruct a as [|y a].
  - cbn [shr_words val length]. rewrite Z.shiftr_div_pow2 by lia. rewrite Z.mul_0_r, !Z.add_0_r.
    split; [reflexivity|]. split; [|reflexivity]. constructor; [unfold word; nia | constructor].
  - change (shr_words s (x :: y :: a)) with
      (((x >>> s) ||| (if s =? 0 then 0 else shl32 y (32 - s))) :: shr_words s (y :: a)).
    assert (Hy : word y) by now inversion Ha. unfold word in Hy.
    assert (Ey : (if s =? 0 then 0 else shl32 y (32 - s)) = Z.shiftl (y mod 2 ^ s) (32 - s)).
    { destruct (Z.eqb_spec s 0) as [->|]; [now rewrite Z.mod_1_r, Z.shiftl_0_l|].
      destruct (word_split y (32 - s) Hy ltac:(lia)) as (-> & _). now replace (32 - (32 - s)) with s by lia. }
    rewrite Ey, Z.shiftr_div_pow2, lor_shiftl_add by lia. set (V := val (y :: a)) in *.
    assert (Em : y mod 2 ^ s = V mod 2 ^ s).
    { unfold V. cbn [val]. rewrite <- Hp. replace (y + 2 ^ (32 - s) * 2 ^ s * val a)
        with (y + 2 ^ (32 - s) * val a * 2 ^ s) by ring. now rewrite Z.mod_add by lia. }
    pose proof (Z.mod_pos_bound V (2 ^ s) P). pose proof (Z.div_mod V (2 ^ s) ltac:(lia)).
    split; [|split; [constructor; [unfold word; nia | exact Hw] | cbn [length] in *; lia]].
    change (val (x :: y :: a)) with (x + 2 ^ 32 * V). cbn [val]. rewrite Hv, Em.
    replace (x + 2 ^ 32 * V) with (x + 2 ^ (32 - s) * V * 2 ^ s) by (rewrite <- Hp; ring).
    rewrite Z.div_add by lia. rewrite <- Hp. nia.
Qed.

Lemma val_firstn n l : words l -> val (firstn n l) = val l mod W n.
Proof.
  intros Hl. destruct (Nat.le_gt_cases n (length l)) as [Hn|Hn].
  - rewrite <- (firstn_skipn n l) at 2. rewrite val_app, length_firstn, Nat.min_l by exact Hn.
    pose proof (val_range (firstn n l) (Forall_firstn _ n _ Hl)) as Hr. rewrite length_firstn, Nat.min_l in Hr by exact Hn.
    rewrite Z.mul_comm, Z.mod_add, Z.mod_small by (pose proof (W_pos n); lia). reflexivity.
  - rewrite firstn_all2 by lia. rewrite Z.mod_small; [reflexivity|]. pose proof (val_range l Hl).
    assert (W (length l) <= W n) by (unfold W; apply Z.pow_le_mono_r; lia). lia.
Qed.

Lemma val_skipn n l : words l -> (n <= length l)%nat -> val (skipn n l) = val l / W n.
Proof.
  intros Hl Hn. rewrite <- (firstn_skipn n l) at 2. rewrite val_app, length_firstn, Nat.min_l by exact Hn.
  pose proof (val_range (firstn n l) (Forall_firstn _ n _ Hl)) as Hr. rewrite length_firstn, Nat.min_l in Hr by exact Hn.
  rewrite Z.mul_comm, Z.div_add, Z.div_small by (pose proof (W_pos n); lia). lia.
Qed.

Lemma shift_parts shift : 0 <= shift -> shift = 32 * Z.of_nat (Z.to_nat (shift / 32)) + shift mod 32 /\ 0 <= shift mod 32 < 32.
Proof.
  intros H. pose proof (Z.div_mod shift 32 ltac:(lia)). pose proof (Z.mod_pos_bound shift 32 ltac:(lia)).
  pose proof (Z.div_pos shift 32 H ltac:(lia)). lia.
Qed.

Lemma words_repeat k : words (repeat 0 k).
Proof. apply Forall_forall. intros x Hx. apply repeat_spec in Hx as ->. unfold word. lia. Qed.

Lemma shl_spec a shift :
  uint_ok a -> 0 <= shift -> uint_ok (shl a shift) /\ val (shl a shift) = (val a * 2 ^ shift) mod 2 ^ 256.
Proof.
  intros [La Wa] Hs. destruct (shift_parts shift Hs) as [Es Bs]. unfold shl.
  set (k := Z.to_nat (shift / 32)) in *. set (s := shift mod 32) in *.
  assert (Ep : 2 ^ shift = W k * 2 ^ s) by (rewrite Es at 1; unfold W; rewrite Z.pow_add_r by lia; reflexivity).
  destruct (Nat.lt_ge_cases k 8) as [Hk|Hk].
  - rewrite shl_eq by assumption.
    destruct (shl_words_spec s 0 a Wa Bs) as (Hv & Hw & Hl); [split; [lia | apply Z.pow_pos_nonneg; lia]|].
    assert (Hws : words (repeat 0 k ++ shl_words s 0 a)) by (apply Forall_app; split; [apply words_repeat | exact Hw]).
    split.
    { split; [|now apply Forall_firstn]. rewrite length_firstn, length_app, repeat_length, Hl, La. unfold WIDTH. lia. }
    rewrite val_firstn, val_app, val_zeros, repeat_length, Hv, La by assumption. change (W 8) with (2 ^ 256).
    change (W WIDTH) with (2 ^ 256). rewrite !Z.add_0_l, Zmult_mod_idemp_r, Ep. f_equal. ring.
  - assert (Ez : forall l, fold_left (shl_step a k s) l zero = zero).
    { intros l. induction l as [|i l IH]; [reflexivity|]. cbn [fold_left]. unfold shl_step at 2, WIDTH.
      destruct (Nat.ltb_spec (i + k + 1) 8), (Nat.ltb_spec (i + k) 8); try lia. exact IH. }
    rewrite Ez. split; [exact zero_ok|]. change (val zero) with 0. symmetry.
    replace (2 ^ shift) with (2 ^ (shift - 256) * 2 ^ 256) by (rewrite <- Z.pow_add_r by lia; f_equal; lia).
    rewrite Z.mul_assoc. apply Z.mod_mul. lia.
Qed.

Lemma shr_spec a shift :
  uint_ok a -> 0 <= shift -> uint_ok (shr a shift) /\ val (shr a shift) = val a / 2 ^ shift.
Proof.
  intros [La Wa] Hs. destruct (shift_parts shift Hs) as [Es Bs]. unfold shr.
  set (k := Z.to_nat (shift / 32)) in *. set (s := shift mod 32) in *.
  assert (Ep : 2 ^ shift = W k * 2 ^ s) by (rewrite Es at 1; unfold W; rewrite Z.pow_add_r by lia; reflexivity).
  assert (P : 0 < 2 ^ s) by (apply Z.pow_pos_nonneg; lia).
  destruct (Nat.lt_ge_cases k 8) as [Hk|Hk].
  - rewrite shr_eq by assumption.
    destruct (shr_words_spec s (skipn k a) (Forall_skipn _ k _ Wa) Bs) as (Hv & Hw & Hl). split.
    { split; [|apply Forall_app; split; [exact Hw | apply words_repeat]].
      rewrite length_app, repeat_length, Hl, length_skipn, La. unfold WIDTH. lia. }
    rewrite val_app, val_zeros, Z.mul_0_r, Z.add_0_r, Hv, val_skipn by (auto; rewrite La; unfold WIDTH; lia).
    rewrite Ep. apply Z.div_div; [pose proof (W_pos k)|]; lia.
  - assert (Ez : forall l, Forall (fun i => i < 8)%nat l -> fold_left (shr_step a k s) l zero = zero).
    { intros l Hl. induction Hl as [|i l Hi Hl IH]; [reflexivity|]. cbn [fold_left]. unfold shr_step at 2.
      destruct (Nat.leb_spec (k + 1) i), (Nat.leb_spec k i); try lia. exact IH. }
    rewrite Ez by (repeat constructor). split; [exact zero_ok|]. symmetry. apply Z.div_small.
    pose proof (val_range a Wa) as Hr. rewrite La in Hr. change (W WIDTH) with (2 ^ 256) in Hr.
    assert (2 ^ 256 <= 2 ^ shift) by (apply Z.pow_le_mono_r; lia). lia.
Qed.

(** *** Comparison and the number of bits *)

Lemma val_firstn_S l n : (n < length l)%nat -> val (firstn (S n) l) = val (firstn n l) + W n * nth n l 0.
Proof.
  revert n; induction l as [|x l IH]; intros n H; [cbn in H; lia|]. destruct n as [|n].
  - cbn [firstn nth val]. change (W 0) with 1. lia.
  - cbn [length] in H. change (firstn (S (S n)) (x :: l)) with (x :: firstn (S n) l).
    change (firstn (S n) (x :: l)) with (x :: firstn n l). cbn [val nth]. rewrite IH, W_succ by lia. ring.
Qed.

Lemma words_nth l n : words l -> word (nth n l 0).
Proof.
  intros H. destruct (nth_in_or_default n l 0) as [Hi| ->]; [|unfold word; lia].
  exact (proj1 (Forall_forall _ _) H _ Hi).
Qed.

Lemma val_low l n : words l -> 0 <= val (firstn n l) < W n.
Proof. intros H. rewrite val_firstn by assumption. apply Z.mod_pos_bound, W_pos. Qed.

Lemma compare_loop_spec n a b :
  words a -> words b -> (n <= length a)%nat -> (n <= length b)%nat ->
  compare_loop n a b = Z.sgn (val (firstn n a) - val (firstn n b)).
Proof.
  intros Ha Hb. induction n as [|n IH]; intros La Lb; [reflexivity|]. cbn [compare_loop].
  rewrite !val_firstn_S by lia. pose proof (val_low a n Ha). pose proof (val_low b n Hb). pose proof (W_pos n).
  pose proof (words_nth a n Ha) as Wa. pose proof (words_nth b n Hb) as Wb. unfold word in *.
  destruct (Z.ltb_spec (nth n a 0) (nth n b 0)); [symmetry; apply Z.sgn_neg; nia|].
  destruct (Z.ltb_spec (nth n b 0) (nth n a 0)); [symmetry; apply Z.sgn_pos; nia|].
  rewrite IH by lia. f_equal. replace (nth n a 0) with (nth n b 0) by lia. ring.
Qed.

Lemma CompareTo_spec a b : uint_ok a -> uint_ok b -> CompareTo a b = Z.sgn (val a - val b).
Proof.
  intros [La Wa] [Lb Wb]. unfold CompareTo. rewrite compare_loop_spec by (auto; lia).
  now rewrite !firstn_all2 by lia.
Qed.

Lemma ge_spec a b : uint_ok a -> uint_ok b -> ge a b = (val b <=? val a).
Proof. intros Ha Hb. unfold ge. rewrite CompareTo_spec by assumption. lia. Qed.

Lemma gt_spec a b : uint_ok a -> uint_ok b -> gt a b = (val b <? val a).
Proof. intros Ha Hb. unfold gt. rewrite CompareTo_spec by assumption. lia. Qed.

Lemma lt_spec a b : uint_ok a -> uint_ok b -> lt a b = (val a <? val b).
Proof. intros Ha Hb. unfold lt. rewrite CompareTo_spec by assumption. lia. Qed.

Lemma le_spec a b : uint_ok a -> uint_ok b -> le a b = (val a <=? val b).
Proof. intros Ha Hb. unfold le. rewrite CompareTo_spec by assumption. lia. Qed.

Lemma word_bits_spec n w : (n < 32)%nat -> 0 < w < 2 ^ (Z.of_nat n + 1) -> word_bits n w = Z.log2 w.
Proof.
  induction n as [|n IH]; intros Hn Hw; [change (2 ^ (Z.of_nat 0 + 1)) with 2 in Hw; now replace w with 1 by lia|].
  cbn [word_bits]. rewrite land_bit by lia. replace (Z.of_nat (S n) + 1) with (Z.succ (Z.of_nat (S n))) in Hw by lia.
  destruct (Z.testbit w (Z.of_nat (S n))) eqn:T.
  - symmetry. apply Z.log2_unique; [lia|]. split; [|lia]. apply Z.nlt_ge. intros C.
    rewrite Z.bits_above_log2 in T; [discriminate | lia | apply Z.log2_lt_pow2; lia].
  - apply IH; [lia|]. split; [lia|]. apply Z.nle_gt. intros C.
    assert (X : Z.log2 w = Z.of_nat (S n)) by (apply Z.log2_unique; [lia|]; split; [|lia]; now replace (Z.of_nat (S n)) with (Z.of_nat n + 1) by lia).
    rewrite <- X, Z.bit_log2 in T by lia. discriminate.
Qed.

(** The number of bits of a number. *)
Definition bit_length (n : Z) : Z := if n =? 0 then 0 else Z.log2 n + 1.

Lemma bits_loop_spec n a : words a -> (n <= length a)%nat -> bits_loop n a = bit_length (val (firstn n a)).
Proof.
  intros Wa. induction n as [|n IH]; intros La; [reflexivity|]. cbn [bits_loop]. rewrite val_firstn_S by lia.
  pose proof (words_nth a n Wa) as Hw. unfold word in Hw. pose proof (val_low a n Wa) as Hl.
  destruct (Z.eqb_spec (nth n a 0) 0) as [E|E]; cbn [negb]; [rewrite E, Z.mul_0_r, Z.add_0_r; apply IH; lia|].
  rewrite word_bits_spec by (cbn; lia). pose proof (W_pos n). unfold bit_length.
  destruct (Z.eqb_spec (val (firstn n a) + W n * nth n a 0) 0); [nia|]. f_equal. symmetry.
  pose proof (Z.log2_spec (nth n a 0) ltac:(lia)). pose proof (Z.log2_nonneg (nth n a 0)).
  apply Z.log2_unique; [lia|]. rewrite <- Z.add_succ_r, !Z.pow_add_r by lia. fold (W n). nia.
Qed.

Lemma bits_spec a : uint_ok a -> bits a = bit_length (val a).
Proof. intros [La Wa]. unfold bits. rewrite bits_loop_spec by (auto; lia). now rewrite firstn_all2 by lia. Qed.

Lemma bit_length_spec n : 0 < n -> 0 < bit_length n /\ 2 ^ (bit_length n - 1) <= n < 2 ^ bit_length n.
Proof.
  intros H. unfold bit_length. destruct (Z.eqb_spec n 0); [lia|]. pose proof (Z.log2_nonneg n).
  pose proof (Z.log2_spec n H). replace (Z.log2 n + 1 - 1) with (Z.log2 n) by lia. split; [lia|exact H1].
Qed.

Lemma bit_length_le n k : 0 <= n < 2 ^ k -> 0 <= k -> 0 <= bit_length n <= k.
Proof.
  intros H Hk. unfold bit_length. destruct (Z.eqb_spec n 0); [lia|]. pose proof (Z.log2_nonneg n).
  assert (Z.log2 n < k) by (apply Z.log2_lt_pow2; lia). lia.
Qed.

(** *** Division *)

Lemma val_lor w l : word w -> val (w :: l) = Z.lor w (Z.shiftl (val l) 32).
Proof. intros H. cbn [val]. symmetry. apply lor_shiftl_add; [lia | exact H]. Qed.

Lemma word_lor x y : word x -> word y -> word (Z.lor x y).
Proof.
  unfold word. intros Hx Hy. assert (Hn : 0 <= Z.lor x y) by (apply Z.lor_nonneg; lia). split; [exact Hn|].
  destruct (Z.eq_dec (Z.lor x y) 0) as [->|E]; [lia|]. apply Z.log2_lt_pow2; [lia|]. rewrite Z.log2_lor by lia.
  apply Z.max_lub_lt; [destruct (Z.eq_dec x 0) as [->|] | destruct (Z.eq_dec y 0) as [->|]];
    try (cbn; lia); apply Z.log2_lt_pow2; lia.
Qed.

Lemma or_word_spec pn k v :
  words pn -> word v -> (k < length pn)%nat ->
  words (or_word pn k v) /\ length (or_word pn k v) = length pn /\
  val (or_word pn k v) = Z.lor (val pn) (v * W k).
Proof.
  intros Hp Hv. revert k; induction Hp as [|x pn Hx Hp IH]; intros k Hk; [cbn in Hk; lia|]. destruct k as [|k].
  - cbn [or_word firstn app nth skipn]. unfold or_word. cbn [firstn app nth skipn].
    pose proof (word_lor x v Hx Hv) as Hlo. split; [now constructor|]. split; [reflexivity|].
    rewrite !val_lor by assumption. change (W 0) with 1. rewrite Z.mul_1_r, <- !Z.lor_assoc. f_equal. apply Z.lor_comm.
  - cbn [length] in Hk. destruct (IH k ltac:(lia)) as (Hw & Hl & Hvl).
    change (or_word (x :: pn) (S k) v) with (x :: or_word pn k v).
    split; [now constructor|]. split; [cbn [length]; now rewrite Hl|].
    rewrite !val_lor, Hvl, Z.shiftl_lor, Z.lor_assoc by assumption. f_equal.
    rewrite Z.shiftl_mul_pow2, W_succ by lia. ring.
Qed.

(** Setting a bit below all those that are set. *)
Lemma set_bit_spec pn s :
  uint_ok pn -> (s < 256)%nat -> (2 ^ (Z.of_nat s + 1) | val pn) ->
  uint_ok (or_word pn (s / 32) (shl32 1 (Z.of_nat s mod 32))) /\
  val (or_word pn (s / 32) (shl32 1 (Z.of_nat s mod 32))) = val pn + 2 ^ Z.of_nat s.
Proof.
  intros [Lp Wp] Hs [q Hq]. assert (Hk : (s / 32 < 8)%nat) by (apply Nat.Div0.div_lt_upper_bound; lia).
  pose proof (Z.mod_pos_bound (Z.of_nat s) 32 ltac:(lia)) as Hm.
  assert (E : shl32 1 (Z.of_nat s mod 32) = 2 ^ (Z.of_nat s mod 32)).
  { unfold shl32. rewrite Z.shiftl_1_l. apply u32_small. split; [apply Z.pow_nonneg; lia | apply Z.pow_lt_mono_r; lia]. }
  assert (Hw : word (2 ^ (Z.of_nat s mod 32))) by (split; [apply Z.pow_nonneg; lia | apply Z.pow_lt_mono_r; lia]).
  rewrite E. destruct (or_word_spec pn (s / 32) _ Wp Hw ltac:(rewrite Lp; exact Hk)) as (Ho & Hl & Hv).
  split; [split; [now rewrite Hl | exact Ho]|]. rewrite Hv. unfold W. rewrite <- Z.pow_add_r by lia.
  replace (Z.of_nat s mod 32 + 32 * Z.of_nat (s / 32)) with (Z.of_nat s)
    by (rewrite Nat2Z.inj_div; pose proof (Z.div_mod (Z.of_nat s) 32); lia).
  rewrite Z.lor_comm, Hq, <- Z.shiftl_mul_pow2 by lia. rewrite lor_shiftl_add; [rewrite Z.shiftl_mul_pow2 by lia; ring | lia |].
  split; [apply Z.pow_nonneg; lia | apply Z.pow_lt_mono_r; lia].
Qed.

Lemma div_loop_spec D n num div pn :
  0 < D -> (n <= 256)%nat -> uint_ok num -> uint_ok div -> uint_ok pn ->
  val num < 2 ^ Z.of_nat n * D -> val div = D * 2 ^ Z.of_nat n / 2 -> (2 ^ Z.of_nat n | val pn) ->
  uint_ok (div_loop n num div pn) /\ val (div_loop n num div pn) = val pn + val num / D.
Proof.
  intros HD. revert num div pn; induction n as [|n IH]; intros num div pn Hn Hnum Hdiv Hpn Hlt Hd Hm.
  { split; [exact Hpn|]. cbn [div_loop]. pose proof (uint_range num Hnum).
    rewrite Z.div_small; [lia|]. change (2 ^ Z.of_nat 0) with 1 in Hlt. lia. }
  cbn [div_loop]. rewrite ge_spec by assumption.
  rewrite Nat2Z.inj_succ, Z.pow_succ_r in Hlt, Hd, Hm by lia. set (P := 2 ^ Z.of_nat n) in *.
  replace (D * (2 * P)) with (D * P * 2) in Hd by ring. rewrite Z.div_mul in Hd by lia.
  assert (HP : 0 < P) by (apply Z.pow_pos_nonneg; lia).
  destruct (shr_spec div 1 Hdiv ltac:(lia)) as [Hs1 Hs2]. change (2 ^ 1) with 2 in Hs2. rewrite Hd in Hs2.
  pose proof (uint_range num Hnum) as Rn.
  destruct (Z.leb_spec (val div) (val num)) as [Hge|Hle].
  - destruct (sub_spec num div Hnum Hdiv) as [Hb1 Hb2]. pose proof (uint_range div Hdiv).
    rewrite Z.mod_small in Hb2 by lia.
    destruct (set_bit_spec pn n Hpn ltac:(lia)) as [Hp1 Hp2].
    { replace (Z.of_nat n + 1) with (Z.succ (Z.of_nat n)) by lia. now rewrite Z.pow_succ_r by lia. }
    destruct (IH _ _ _ ltac:(lia) Hb1 Hs1 Hp1) as [R1 R2]; [rewrite Hb2; nia | exact Hs2 | |].
    + rewrite Hp2. fold P. destruct Hm as [q Hq]. exists (q * 2 + 1). rewrite Hq. ring.
    + split; [exact R1|]. rewrite R2, Hp2, Hb2, Hd. fold P.
      replace (val num - D * P) with (val num + (- P) * D) by ring. rewrite Z.div_add by lia. lia.
  - apply IH; auto; [lia | nia |]. destruct Hm as [q Hq]. exists (q * 2). rewrite Hq. ring.
Qed.

Lemma div_spec a b :
  uint_ok a -> uint_ok b ->
  if val b =? 0 then div a b = Throw std_exception
  else exists q, div a b = Ok q /\ uint_ok q /\ val q = val a / val b.
Proof.
  intros Ha Hb. pose proof (uint_range a Ha) as Ra. pose proof (uint_range b Hb) as Rb. unfold div.
  rewrite !bits_spec by assumption. destruct (Z.eqb_spec (val b) 0) as [E|E]; [now rewrite E|].
  destruct (bit_length_spec (val b) ltac:(lia)) as (Lb & B1 & B2).
  pose proof (bit_length_le (val a) 256 Ra ltac:(lia)) as La.
  destruct (Z.eqb_spec (bit_length (val b)) 0); [lia|]. set (nb := bit_length (val a)) in *. set (db := bit_length (val b)) in *.
  assert (Na : val a < 2 ^ nb).
  { destruct (Z.eq_dec (val a) 0) as [Z0|]; [rewrite Z0; apply Z.pow_pos_nonneg; lia | now apply bit_length_spec; lia]. }
  destruct (Z.ltb_spec nb db).
  - exists zero. split; [reflexivity|]. split; [exact zero_ok|]. symmetry. apply Z.div_small. split; [lia|].
    assert (2 ^ nb <= 2 ^ (db - 1)) by (apply Z.pow_le_mono_r; lia). lia.
  - destruct (shl_spec b (nb - db) Hb ltac:(lia)) as [Hs1 Hs2].
    assert (Hsmall : val b * 2 ^ (nb - db) < 2 ^ 256).
    { assert (val b * 2 ^ (nb - db) < 2 ^ db * 2 ^ (nb - db)) by (apply Z.mul_lt_mono_pos_r; [apply Z.pow_pos_nonneg|]; lia).
      rewrite <- Z.pow_add_r in * by lia. replace (db + (nb - db)) with nb in * by lia.
      assert (2 ^ nb <= 2 ^ 256) by (apply Z.pow_le_mono_r; lia). lia. }
    assert (0 <= 2 ^ (nb - db)) by (apply Z.pow_nonneg; lia). rewrite Z.mod_small in Hs2 by nia.
    assert (En : Z.of_nat (S (Z.to_nat (nb - db))) = Z.succ (nb - db)) by lia.
    eexists. split; [reflexivity|]. apply (div_loop_spec (val b)); auto using zero_ok; try lia; rewrite ?En.
    + assert (E2 : 2 ^ Z.succ (nb - db) * 2 ^ (db - 1) = 2 ^ nb) by (rewrite <- Z.pow_add_r by lia; f_equal; lia).
      assert (0 <= 2 ^ Z.succ (nb - db)) by (apply Z.pow_nonneg; lia). nia.
    + rewrite Hs2, Z.pow_succ_r by lia. replace (val b * (2 * 2 ^ (nb - db))) with (val b * 2 ^ (nb - db) * 2) by ring.
      now rewrite Z.div_mul by lia.
    + apply Z.divide_0_r.
Qed.

Lemma dec_loop_spec a :
  words a -> val (dec a) = (val a - 1) mod W (length a) /\ words (dec a) /\ length (dec a) = length a.
Proof.
  induction 1 as [|x a Hx Ha (Hv & Hw & Hl)].
  { split; [|split; [constructor | reflexivity]]. change (W 0) with 1. now rewrite Z.mod_1_r. }
  unfold word in Hx. cbn [dec length]. cbv zeta. pose proof (val_range a Ha). pose proof (W_pos (length a)).
  destruct (Z.eq_dec x 0) as [->|].
  - change (u32 (0 - 1)) with 0xffffffff. cbn [Z.eqb Pos.eqb val length]. rewrite Hv, Hl.
    split; [|split; [constructor; [unfold word; lia | exact Hw] | reflexivity]].
    rewrite W_succ. rewrite (Z.rem_mul_r (0 + 2 ^ 32 * val a - 1) (2 ^ 32) (W (length a))) by lia.
    replace (0 + 2 ^ 32 * val a - 1) with (0xffffffff + (val a - 1) * 2 ^ 32) by lia.
    now rewrite Z.mod_add, Z.div_add, (Z.mod_small 0xffffffff), (Z.div_small 0xffffffff) by lia.
  - rewrite u32_small by lia. destruct (Z.eqb_spec (x - 1) 0xffffffff); [lia|]. cbn [val length].
    split; [|split; [constructor; [unfold word; lia | exact Ha] | reflexivity]].
    rewrite Z.mod_small; [lia|]. rewrite W_succ. nia.
Qed.

Lemma whole_spec x n a :
  uint_ok a -> val x = n mod W (length a) /\ words x /\ length x = length a ->
  uint_ok x /\ val x = n mod 2 ^ 256.
Proof. intros [La Wa] (Hv & Hw & Hl). rewrite La in Hv, Hl. split; [now split | exact Hv]. Qed.

Lemma inc_spec a : uint_ok a -> uint_ok (inc a) /\ val (inc a) = (val a + 1) mod 2 ^ 256.
Proof. intros Ha. exact (whole_spec _ _ a Ha (inc_loop_spec a (proj2 Ha))). Qed.

Lemma dec_spec a : uint_ok a -> uint_ok (dec a) /\ val (dec a) = (val a - 1) mod 2 ^ 256.
Proof. intros Ha. exact (whole_spec _ _ a Ha (dec_loop_spec a (proj2 Ha))). Qed.

Lemma bnot_spec a : uint_ok a -> uint_ok (bnot a) /\ val (bnot a) = 2 ^ 256 - 1 - val a.
Proof.
  intros [La Wa]. destruct (bnot_loop_spec a Wa) as (Hv & Hw & Hl). rewrite La in Hv, Hl.
  split; [now split | exact Hv].
Qed.

(** 256-bit arithmetic is exact: on objects of the class every operator gives an object of
    the class whose value is the mathematical result modulo 2^256, shifts by 256 or more
    included; the comparison is that of the values; division gives the exact quotient, and
    throws when, and only when, the divisor is zero. *)
Theorem arith_exact a b n :
  uint_ok a -> uint_ok b -> 0 <= n ->
  (uint_ok (add a b) /\ val (add a b) = (val a + val b) mod 2 ^ 256) /\
  (uint_ok (sub a b) /\ val (sub a b) = (val a - val b) mod 2 ^ 256) /\
  (uint_ok (mul a b) /\ val (mul a b) = (val a * val b) mod 2 ^ 256) /\
  (uint_ok (neg a) /\ val (neg a) = (- val a) mod 2 ^ 256) /\
  (uint_ok (bnot a) /\ val (bnot a) = 2 ^ 256 - 1 - val a) /\
  (uint_ok (inc a) /\ val (inc a) = (val a + 1) mod 2 ^ 256) /\
  (uint_ok (dec a) /\ val (dec a) = (val a - 1) mod 2 ^ 256) /\
  (uint_ok (shl a n) /\ val (shl a n) = (val a * 2 ^ n) mod 2 ^ 256) /\
  (uint_ok (shr a n) /\ val (shr a n) = val a / 2 ^ n) /\
  CompareTo a b = Z.sgn (val a - val b) /\
  bits a = bit_length (val a) /\
  (if val b =? 0 then div a b = Throw std_exception
   else exists q, div a b = Ok q /\ uint_ok q /\ val q = val a / val b).
Proof.
  intros Ha Hb Hn.
  exact (conj (add_spec a b Ha Hb) (conj (sub_spec a b Ha Hb) (conj (mul_spec a b Ha Hb)
    (conj (neg_spec a Ha) (conj (bnot_spec a Ha) (conj (inc_spec a Ha) (conj (dec_spec a Ha)
    (conj (shl_spec a n Ha Hn) (conj (shr_spec a n Ha Hn) (conj (CompareTo_spec a b Ha Hb)
    (conj (bits_spec a Ha) (div_spec a b Ha Hb)))))))))))).
Qed.

Lemma arith_exact_witness :
  uint_ok (mul (of_u64 (2 ^ 64 - 1)) (of_u64 (2 ^ 64 - 1))) /\ div (of_u64 1000) (of_u64 0) = Throw std_exception.
Proof.
  assert (O : forall n, 0 <= n < 2 ^ 64 -> uint_ok (of_u64 n)) by (intros n H; now apply of_u64_spec).
  split.
  - exact (proj1 (proj1 (proj2 (proj2 (arith_exact (of_u64 (2 ^ 64 - 1)) (of_u64 (2 ^ 64 - 1)) 0
      (O (2 ^ 64 - 1) ltac:(lia)) (O (2 ^ 64 - 1) ltac:(lia)) ltac:(lia)))))).
  - exact (proj2 (proj2 (proj2 (proj2 (proj2 (proj2 (proj2 (proj2 (proj2 (proj2 (proj2
      (arith_exact (of_u64 1000) (of_u64 0) 0 (O 1000 ltac:(lia)) (O 0 ltac:(lia)) ltac:(lia))))))))))))).
Defined.

(** ** The compact format *)

Lemma lor_disjoint a b : Z.land a b = 0 -> Z.lor a b = a + b.
Proof. intros H. now rewrite <- Z.lxor_lor, <- Z.add_nocarry_lxor by assumption. Qed.

(** The fields of a compact number. *)
Definition compact (s m : Z) (b : bool) : Z := m + 2 ^ 23 * (if b then 1 else 0) + 2 ^ 24 * s.

Lemma compact_fields s m b :
  0 <= s < 256 -> 0 <= m < 2 ^ 23 ->
  compact s m b >>> 24 = s /\ compact s m b &&& 0x007fffff = m /\
  negb (compact s m b &&& 0x00800000 =? 0) = b.
Proof.
  intros Hs Hm. set (i := if b then 1 else 0). assert (Hi : 0 <= i <= 1) by (unfold i; destruct b; lia).
  assert (E : compact s m b = m + 2 ^ 23 * (i + 2 * s)) by (unfold compact; fold i; ring).
  split; [|split].
  - rewrite Z.shiftr_div_pow2 by lia. symmetry. apply Z.div_unique with (m + 2 ^ 23 * i); lia.
  - change 0x007fffff with (Z.ones 23). rewrite Z.land_ones by lia. symmetry. apply Z.mod_unique with (i + 2 * s); lia.
  - change 0x00800000 with (shl32 1 23). rewrite land_bit by lia.
    assert (T : Z.b2z (Z.testbit (compact s m b) 23) = i).
    { rewrite Z.testbit_spec' by lia. replace (compact s m b / 2 ^ 23) with (i + 2 * s)
        by (apply Z.div_unique with m; lia). symmetry. apply Z.mod_unique with s; lia. }
    unfold i in T. destruct (Z.testbit _ _), b; cbn in T; congruence || lia.
Qed.

Lemma SetCompact_fields s m b :
  0 <= s < 256 -> 0 <= m < 2 ^ 23 ->
  let m' := if s <=? 3 then m / 256 ^ (3 - s) else m in
  let v := if s <=? 3 then m' else m * 256 ^ (s - 3) in
  exists y, uint_ok y /\ val y = v mod 2 ^ 256 /\
  SetCompact (compact s m b) = (y, negb (m' =? 0) && b, 2 ^ 256 <=? v).
Proof.
  intros Hs Hm. destruct (compact_fields s m b Hs Hm) as (F1 & F2 & F3). unfold SetCompact. rewrite F1, F2, F3.
  assert (P8 : forall k, 0 <= k -> 2 ^ (8 * k) = 256 ^ k) by (intros k Hk; now rewrite Z.pow_mul_r by lia).
  cbv zeta. destruct (Z.leb_spec s 3) as [Hle|Hgt].
  - rewrite Z.shiftr_div_pow2, P8 by lia. set (m' := m / 256 ^ (3 - s)).
    assert (Hm' : 0 <= m' <= m).
    { assert (0 < 256 ^ (3 - s)) by (apply Z.pow_pos_nonneg; lia).
      split; [apply Z.div_pos | apply Z.div_le_upper_bound]; nia. }
    destruct (of_u64_spec m' ltac:(lia)) as [O V]. exists (of_u64 m'). split; [exact O|].
    split; [rewrite V; symmetry; apply Z.mod_small; lia|]. f_equal.
    destruct (Z.ltb_spec 34 s), (Z.ltb_spec 33 s), (Z.ltb_spec 32 s), (Z.leb_spec (2 ^ 256) m'); lia.
  - destruct (of_u64_spec m ltac:(lia)) as [O V]. destruct (shl_spec (of_u64 m) (8 * (s - 3)) O ltac:(lia)) as [O' V'].
    rewrite V, P8 in V' by lia. exists (shl (of_u64 m) (8 * (s - 3))). split; [exact O'|]. split; [exact V'|]. f_equal.
    destruct (Z.eqb_spec m 0) as [->|Hm0]; [reflexivity|]. cbn [negb andb]. apply eq_true_iff_eq.
    rewrite !orb_true_iff, !andb_true_iff, !Z.ltb_lt, Z.leb_le.
    change (2 ^ 256) with (256 ^ 32). destruct (Z.lt_trichotomy s 34) as [H|[->|H]].
    + destruct (Z.eq_dec s 33) as [->|]; [change (256 ^ (33 - 3)) with (256 ^ 30); lia|].
      assert (256 ^ (s - 3) <= 256 ^ 29) by (apply Z.pow_le_mono_r; lia).
      assert (m * 256 ^ (s - 3) <= 2 ^ 23 * 256 ^ 29) by (apply Z.mul_le_mono_nonneg; lia || apply Z.pow_nonneg; lia). lia.
    + change (256 ^ (34 - 3)) with (256 ^ 31). lia.
    + assert (256 ^ 32 <= 256 ^ (s - 3)) by (apply Z.pow_le_mono_r; lia). nia.
Qed.

Lemma GetLow64_spec a : uint_ok a -> GetLow64 a = val a mod 2 ^ 64.
Proof.
  intros [La Wa]. change (2 ^ 64) with (W 2). rewrite <- val_firstn by assumption.
  pose proof (words_nth a 0 Wa) as H0. pose proof (words_nth a 1 Wa) as H1. unfold word in *.
  rewrite !val_firstn_S by (rewrite La; unfold WIDTH; lia). cbn [firstn val]. change (W 0) with 1. change (W 1) with (2 ^ 32).
  unfold GetLow64, shl64. rewrite u64_small by (rewrite Z.shiftl_mul_pow2; lia). rewrite lor_shiftl_add; lia.
Qed.

(** The mantissa and the exponent of a number: the exponent for which the mantissa, three bytes
    from the top of the number, has between 16 and 23 bits. *)
Definition compact_parts (x s m : Z) : Prop :=
  x = 0 /\ s = 0 /\ m = 0 \/
  0 < x /\ 0 < s /\ m = x * 256 ^ 3 / 256 ^ s /\ 2 ^ 15 <= m < 2 ^ 23.

Lemma compact_parts_det x s m s' m' : compact_parts x s m -> compact_parts x s' m' -> s = s' /\ m = m'.
Proof.
  intros [(-> & -> & ->)|(Hx & Hs & Hm & Bm)] [(E & E' & E'')|(Hx' & Hs' & Hm' & Bm')]; try lia.
  assert (K : forall s m s' m', 0 < s < s' -> m = x * 256 ^ 3 / 256 ^ s -> m < 2 ^ 23 ->
                m' = x * 256 ^ 3 / 256 ^ s' -> 2 ^ 15 <= m' -> False).
  { clear - Hx. intros s m s' m' Hs Hm Bm Hm' Bm'. assert (0 < 256 ^ s) by (apply Z.pow_pos_nonneg; lia).
    assert (H' : 256 ^ s * 256 <= 256 ^ s')
      by (replace (256 ^ s * 256) with (256 ^ Z.succ s) by (rewrite Z.pow_succ_r; lia); apply Z.pow_le_mono_r; lia).
    pose proof (Z.mul_succ_div_gt (x * 256 ^ 3) (256 ^ s) ltac:(lia)).
    pose proof (Z.mul_div_le (x * 256 ^ 3) (256 ^ s') ltac:(lia)). subst. nia. }
  destruct (Z.lt_trichotomy s s') as [H|[H|H]];
    [destruct (K s m s' m'); lia || assumption | subst; auto | destruct (K s' m' s m); lia || assumption].
Qed.

(** The three bytes from the top. *)
Lemma top_bytes x :
  0 < x < 2 ^ 256 ->
  let s := (bit_length x + 7) / 8 in
  1 <= s <= 32 /\ x < 256 ^ s /\ 2 ^ 16 <= x * 256 ^ 3 / 256 ^ s < 2 ^ 24 /\
  x * 256 ^ 3 / 256 ^ s = (if s <=? 3 then x * 256 ^ (3 - s) else x / 256 ^ (s - 3)).
Proof.
  intros Hx s. destruct (bit_length_spec x ltac:(lia)) as (Hb & B1 & B2).
  pose proof (bit_length_le x 256 ltac:(lia) ltac:(lia)) as Hl.
  pose proof (Z.div_mod (bit_length x + 7) 8 ltac:(lia)) as Hd. fold s in Hd.
  pose proof (Z.mod_pos_bound (bit_length x + 7) 8 ltac:(lia)).
  assert (Hs : 1 <= s <= 32) by lia. split; [exact Hs|].
  assert (P8 : forall k, 0 <= k -> 2 ^ (8 * k) = 256 ^ k) by (intros k Hk; now rewrite Z.pow_mul_r by lia).
  assert (U : x < 256 ^ s).
  { rewrite <- P8 by lia. assert (2 ^ bit_length x <= 2 ^ (8 * s)) by (apply Z.pow_le_mono_r; lia). lia. }
  assert (L : 256 ^ (s - 1) <= x).
  { rewrite <- P8 by lia. assert (2 ^ (8 * (s - 1)) <= 2 ^ (bit_length x - 1)) by (apply Z.pow_le_mono_r; lia). lia. }
  assert (E1 : 256 ^ s = 256 * 256 ^ (s - 1)) by (rewrite <- Z.pow_succ_r by lia; f_equal; lia).
  assert (0 < 256 ^ (s - 1)) by (apply Z.pow_pos_nonneg; lia).
  split; [exact U|]. split.
  - split; [apply Z.div_le_lower_bound; nia | apply Z.div_lt_upper_bound; nia].
  - destruct (Z.leb_spec s 3).
    + replace (256 ^ 3) with (256 ^ (3 - s) * 256 ^ s) by (rewrite <- Z.pow_add_r by lia; f_equal; lia).
      rewrite Z.mul_assoc. apply Z.div_mul. lia.
    + replace (256 ^ s) with (256 ^ (s - 3) * 256 ^ 3) by (rewrite <- Z.pow_add_r by lia; f_equal; lia).
      apply Z.div_mul_cancel_r; [apply Z.pow_nonzero|]; lia.
Qed.

(** The last lines of [GetCompact]. *)
Lemma GetCompact_end s m neg :
  0 <= s < 256 -> 0 <= m < 2 ^ 23 ->
  assert_ (m &&& not32 0x007fffff =? 0) (
    assert_ (s <? 256) (
      let nCompact := m ||| shl32 s 24 in
      Ok (nCompact ||| (if neg && negb (nCompact &&& 0x007fffff =? 0) then 0x00800000 else 0)))) =
  Ok (compact s m (neg && negb (m =? 0))).
Proof.
  intros Hs Hm. assert (E1 : m &&& not32 0x007fffff = 0)
    by (change (not32 0x007fffff) with (Z.shiftl 511 23); apply land_shiftl_disjoint; lia).
  rewrite E1. destruct (Z.ltb_spec s 256); [|lia]. cbn [assert_ Z.eqb]. cbv zeta.
  assert (E2 : m ||| shl32 s 24 = compact s m false).
  { unfold shl32. rewrite u32_small by (rewrite Z.shiftl_mul_pow2; lia). rewrite lor_shiftl_add by lia. unfold compact. lia. }
  destruct (compact_fields s m false Hs Hm) as (_ & F2 & F3). rewrite E2, F2. f_equal.
  destruct (neg && negb (m =? 0)); [|now rewrite Z.lor_0_r].
  apply negb_false_iff, Z.eqb_eq in F3. rewrite lor_disjoint by exact F3. unfold compact. lia.
Qed.

Lemma GetCompact_parts a neg :
  uint_ok a -> exists s m,
  compact_parts (val a) s m /\ 0 <= s <= 33 /\ 0 <= m < 2 ^ 23 /\
  GetCompact a neg = Ok (compact s m (neg && negb (m =? 0))).
Proof.
  intros Ha. pose proof (uint_range a Ha) as Ra. unfold GetCompact. rewrite bits_spec by assumption.
  destruct (Z.eq_dec (val a) 0) as [E|E].
  { exists 0, 0. split; [left; auto|]. split; [lia|]. split; [lia|]. rewrite GetLow64_spec, E by assumption.
    apply (GetCompact_end 0 0 neg); lia. }
  destruct (top_bytes (val a) ltac:(lia)) as (Hs & U & Bm & Em). set (s := (bit_length (val a) + 7) / 8) in *.
  set (m := val a * 256 ^ 3 / 256 ^ s) in *.
  assert (Ec : (if s <=? 3 then u32 (shl64 (GetLow64 a) (8 * (3 - s))) else u32 (GetLow64 (shr a (8 * (s - 3))))) = m).
  { assert (P8 : forall k, 0 <= k -> 2 ^ (8 * k) = 256 ^ k) by (intros k Hk; now rewrite Z.pow_mul_r by lia).
    destruct (Z.leb_spec s 3).
    - assert (256 ^ s <= 256 ^ 3) by (apply Z.pow_le_mono_r; lia).
      rewrite GetLow64_spec, Z.mod_small by (assumption || lia). unfold shl64.
      rewrite Z.shiftl_mul_pow2, P8, <- Em, u64_small, u32_small by lia. reflexivity.
    - destruct (shr_spec a (8 * (s - 3)) Ha ltac:(lia)) as [O V]. rewrite P8, <- Em in V by lia.
      rewrite GetLow64_spec, V, Z.mod_small, u32_small by (assumption || lia). reflexivity. }
  rewrite Ec. change 0x00800000 with (shl32 1 23). rewrite land_bit by lia.
  assert (T : Z.testbit m 23 = (2 ^ 23 <=? m)).
  { assert (K : Z.b2z (Z.testbit m 23) = Z.b2z (2 ^ 23 <=? m)).
    { rewrite Z.testbit_spec' by lia. destruct (Z.leb_spec (2 ^ 23) m); cbn [Z.b2z].
      - replace (m / 2 ^ 23) with 1 by (apply Z.div_unique with (m - 2 ^ 23); lia). reflexivity.
      - now rewrite Z.div_small by lia. }
    destruct (Z.testbit m 23), (2 ^ 23 <=? m); cbn in K; congruence. }
  rewrite T. change (shl32 1 23) with 0x00800000. destruct (Z.leb_spec (2 ^ 23) m).
  - assert (Ed : m / 256 = val a * 256 ^ 3 / 256 ^ (s + 1)).
    { unfold m. rewrite Z.div_div by (try apply Z.pow_nonzero; lia). f_equal. rewrite Z.pow_add_r by lia. reflexivity. }
    assert (Bd : 2 ^ 15 <= m / 256 < 2 ^ 23) by (split; [apply Z.div_le_lower_bound | apply Z.div_lt_upper_bound]; lia).
    exists (s + 1), (m / 256). split; [right; repeat split; lia|]. split; [lia|]. split; [lia|].
    rewrite Z.shiftr_div_pow2 by lia. apply GetCompact_end; lia.
  - exists s, m. split; [right; repeat split; lia|]. split; [lia|]. split; [lia|]. apply GetCompact_end; lia.
Qed.

(** The number with the given mantissa and exponent. *)
Definition truncated (x s m : Z) : Z := if s <=? 3 then x else m * 256 ^ (s - 3).

Lemma truncated_spec x s m :
  compact_parts x s m ->
  compact_parts (truncated x s m) s m /\ 0 <= truncated x s m <= x /\ (x - truncated x s m) * 2 ^ 15 <= x /\
  truncated x s m = (if s <=? 3 then m / 256 ^ (3 - s) else m * 256 ^ (s - 3)) /\
  ((if s <=? 3 then m / 256 ^ (3 - s) else m) = 0 <-> m = 0).
Proof.
  unfold truncated. intros [(-> & -> & ->)|(Hx & Hs & Hm & Bm)]; [cbn; unfold compact_parts; intuition lia|].
  destruct (Z.leb_spec s 3).
  - assert (Em : m = x * 256 ^ (3 - s)).
    { rewrite Hm. replace (256 ^ 3) with (256 ^ (3 - s) * 256 ^ s) by (rewrite <- Z.pow_add_r by lia; f_equal; lia).
      rewrite Z.mul_assoc. apply Z.div_mul, Z.pow_nonzero; lia. }
    assert (Ed : m / 256 ^ (3 - s) = x) by (rewrite Em; apply Z.div_mul, Z.pow_nonzero; lia).
    rewrite Ed. split; [right; auto|]. lia.
  - assert (P : 0 < 256 ^ (s - 3)) by (apply Z.pow_pos_nonneg; lia).
    assert (Es : 256 ^ s = 256 ^ (s - 3) * 256 ^ 3) by (rewrite <- Z.pow_add_r by lia; f_equal; lia).
    assert (Em : m = x / 256 ^ (s - 3)) by (rewrite Hm, Es; apply Z.div_mul_cancel_r; lia).
    assert (Eb : m * 256 ^ (s - 3) * 256 ^ 3 / 256 ^ s = m) by (rewrite Es, <- Z.mul_assoc; apply Z.div_mul; lia).
    pose proof (Z.div_mod x (256 ^ (s - 3)) ltac:(lia)) as Hd. rewrite <- Em in Hd.
    pose proof (Z.mod_pos_bound x (256 ^ (s - 3)) P). split; [right; rewrite Eb; repeat split; nia|].
    split; [nia|]. split; [nia|]. split; [reflexivity | reflexivity].
Qed.

Lemma compact_read_back a neg :
  uint_ok a ->
  exists c y, GetCompact a neg = Ok c /\ 0 <= c < 2 ^ 32 /\
    SetCompact c = (y, neg && negb (val y =? 0), false) /\ uint_ok y /\
    val y <= val a /\ (val a - val y) * 2 ^ 15 <= val a /\
    (val a < 2 ^ 23 -> val y = val a) /\
    GetCompact y neg = Ok c.
Proof.
  intros Ha. pose proof (uint_range a Ha) as Ra. destruct (GetCompact_parts a neg Ha) as (s & m & Hp & Hs & Hm & Hc).
  destruct (truncated_spec _ _ _ Hp) as (Ht & Bt & Lt & Et & Zt).
  destruct (SetCompact_fields s m (neg && negb (m =? 0)) ltac:(lia) Hm) as (y & Oy & Vy & Sy). cbv zeta in Vy, Sy.
  assert (Ev : (if s <=? 3 then if s <=? 3 then m / 256 ^ (3 - s) else m else m * 256 ^ (s - 3)) = truncated (val a) s m)
    by (rewrite Et; now destruct (s <=? 3)).
  rewrite Ev in Vy, Sy. rewrite Z.mod_small in Vy by lia.
  assert (Hz : truncated (val a) s m = 0 <-> m = 0).
  { destruct Ht as [(E0 & _ & Em)|(P & _ & _ & B)]; lia. }
  exists (compact s m (neg && negb (m =? 0))), y. split; [exact Hc|].
  split; [unfold compact; destruct (neg && negb (m =? 0)); lia|]. split.
  { rewrite Sy, Vy. destruct (Z.leb_spec (2 ^ 256) (truncated (val a) s m)); [lia|]. do 2 f_equal.
    destruct neg; [|now rewrite andb_false_r]. cbn [andb].
    destruct (Z.eqb_spec m 0), (Z.eqb_spec (truncated (val a) s m) 0),
      (Z.eqb_spec (if s <=? 3 then m / 256 ^ (3 - s) else m) 0); try tauto; reflexivity. }
  split; [exact Oy|]. rewrite Vy. split; [lia|]. split; [exact Lt|]. split.
  { intros Hsm. destruct Hp as [(E & _ & _)|(P & Hs0 & Em & Bm)]; [lia|]. unfold truncated. destruct (Z.leb_spec s 3); [reflexivity|].
    exfalso. assert (256 ^ 4 <= 256 ^ s) by (apply Z.pow_le_mono_r; lia).
    assert (val a * 256 ^ 3 / 256 ^ s < 2 ^ 15) by (apply Z.div_lt_upper_bound; lia). lia. }
  rewrite <- Vy in Ht. destruct (GetCompact_parts y neg Oy) as (s' & m' & Hp' & _ & _ & ->).
  now destruct (compact_parts_det _ _ _ _ _ Hp' Ht) as [-> ->].
Qed.

(** The compact encoding of a target: [GetCompact] never fails its assertions, and reading its
    result back with [SetCompact] gives, with no overflow and with the sign that was asked for, the
    number rounded down to its leading bits: at most one part in 2^15 is lost, nothing of a number
    that fits in 23 bits, and encoding it again gives the same compact number. *)
Theorem compact_roundtrip a neg :
  uint_ok a ->
  exists c y, GetCompact a neg = Ok c /\ 0 <= c < 2 ^ 32 /\
    SetCompact c = (y, neg && negb (val y =? 0), false) /\ uint_ok y /\
    val y <= val a /\ (val a - val y) * 2 ^ 15 <= val a /\
    (val a < 2 ^ 23 -> val y = val a) /\
    GetCompact y neg = Ok c.
Proof. exact (compact_read_back a neg). Qed.

Lemma compact_roundtrip_witness :
  exists c y, GetCompact (of_u64 0x123456789a) true = Ok c /\ SetCompact c = (y, true, false) /\ val y = 0x1234560000.
Proof.
  destruct (compact_roundtrip (of_u64 0x123456789a) true) as (c & y & Hc & _ & Hy & _); [apply of_u64_spec; lia|].
  exists c, y. rewrite Hc. vm_compute in Hc. injection Hc as <-. vm_compute in Hy. injection Hy as <-.
  split; [reflexivity|]. split; vm_compute; reflexivity.
Defined.
End ArithUint256.
