(* ===== verification/Block.v ===== *)
(** * Blocks (src/src/primitives/block.h, src/src/primitives/block.cpp)

    Block headers, blocks and block locators with their serialization, the hash of a
    header, and what is computed from the transactions of a block. *)

From S2P Require Import Prelude Endian IntSerialization Outcome BigInt ScriptNum Hash Opcodes Script.
From S2P Require Import Sha256 Serialize Transaction.
Import IntSerialization BigInt ScriptNum Hash Script Serialize Transaction.

Module Block.
Local Open Scope outcome_scope.

Record CBlockHeader : Type := mkHeader {
  hdr_nVersion : Z;
  hashPrevBlock : bytes;
  hdr_hashMerkleRoot : bytes;
  hdr_nTime : Z;
  hdr_nBits : Z;
  hdr_nNonce : Z
}.

(** [SerializationOp] *)
Definition CBlockHeader_codec : codec CBlockHeader :=
  class_codec
    (fun h => (hdr_nVersion h, (hashPrevBlock h, (hdr_hashMerkleRoot h, (hdr_nTime h, (hdr_nBits h, hdr_nNonce h))))))
    (fun '(v, (p, (m, (t, (b, n))))) => mkHeader v p m t b n)
    (pair_codec (int_codec 4) (pair_codec (blob_codec 32) (pair_codec (blob_codec 32)
      (pair_codec (uint_codec 4) (pair_codec (uint_codec 4) (uint_codec 4)))))).

Definition CBlockHeader_new : CBlockHeader := mkHeader 0 (repeat 0 32) (repeat 0 32) 0 0 0.
Definition hdr_IsNull (h : CBlockHeader) : bool := hdr_nBits h =? 0.

(** [SerializeHash( *this )] *)
Definition hdr_GetHash (h : CBlockHeader) : option bytes :=
  GetHash (stream_out CHashWriter_new CBlockHeader_codec h).

Definition hdr_GetBlockTime (h : CBlockHeader) : Z := hdr_nTime h.

(** [::GetSerializeSize( *this, ...)]: the number of bytes the header is written to *)
Definition GetHeaderSize (h : CBlockHeader) : option Z := option_map len (Serialize CBlockHeader_codec h).

Record CBlock : Type := mkBlock { header : CBlockHeader; vtx : list CTransaction }.

(** [SerializationOp]; [sizeofRef] is [sizeof(CTransactionRef)], which sets the size of the
    chunks the vector is read in. *)
Definition CBlock_codec (sizeofRef sizeofIn sizeofOut : Z) : codec CBlock :=
  class_codec (fun b => (header b, vtx b)) (fun p => mkBlock (fst p) (snd p))
    (pair_codec CBlockHeader_codec (vector_codec (CTransaction_codec sizeofIn sizeofOut) sizeofRef)).

Definition GetTransactionCount (b : CBlock) : Z := len (vtx b).

Definition GetSizeWithoutCoinbase (b : CBlock) : option Z :=
  option_map (fun size =>
    fold_left (fun size tx => if negb (IsCoinBase tx) then u64 (size + GetTotalSize tx) else size) (vtx b) size)
    (GetHeaderSize (header b)).

(** [CBlockLocator]; [nVersion] is that of the stream. *)
Definition CBlockLocator : Type := list bytes.
Definition Serialize_locator (gethash : bool) (nVersion : Z) (vHave : CBlockLocator) : option bytes :=
  let hashes := Serialize (vector_codec (blob_codec 32) 32) vHave in
  if gethash then hashes else wbind (Serialize (int_codec 4) nVersion) hashes.
Definition Unserialize_locator (gethash : bool) : reader CBlockLocator :=
  let hashes := Unserialize (vector_codec (blob_codec 32) 32) in
  if gethash then hashes else rbind (Unserialize (int_codec 4)) (fun _ => hashes).

Section Height.
Context {B : BIGNUM}.

(** The height the coinbase starts with. Reading the first transaction or the first input when
    there is none is undefined. *)
Definition GetHeightFromCoinbase (b : CBlock) : outcome Z :=
  let* tx := or_abort (nth_error (vtx b) 0) in
  let* i := or_abort (nth_error (vin tx) 0) in
  match scriptSig i with
  | [] => Throw std_exception
  | numlen :: rest =>
      if numlen =? OP_0 then Ok 0
      else if (OP_1 <=? numlen) && (numlen <=? OP_16) then Ok (numlen - OP_1 + 1)
      else if len rest <? numlen then Throw std_exception
      else
        let heightScript := firstn (Z.to_nat numlen) rest in
        let* coinbaseHeight := CScriptNum_of_span heightScript false numlen false in
        let* n := getint coinbaseHeight in
        Ok (u64 n)
  end.
End Height.

(** ** Lemmas *)

Definition header_valid (h : CBlockHeader) : Prop :=
  (- 2 ^ 31 <= hdr_nVersion h < 2 ^ 31) /\ (bytes_ok (hashPrevBlock h) /\ length (hashPrevBlock h) = 32%nat) /\
  (bytes_ok (hdr_hashMerkleRoot h) /\ length (hdr_hashMerkleRoot h) = 32%nat) /\
  0 <= hdr_nTime h < 2 ^ 32 /\ 0 <= hdr_nBits h < 2 ^ 32 /\ 0 <= hdr_nNonce h < 2 ^ 32.

#[export] Instance CBlockHeader_lawful : Lawful CBlockHeader_codec header_valid.
Proof.
  refine (class_codec_lawful _ _ _ _ _ _
    (pair_codec_lawful _ _ _ _ (int_codec_lawful 4 ltac:(lia))
      (pair_codec_lawful _ _ _ _ (blob_codec_lawful 32) (pair_codec_lawful _ _ _ _ (blob_codec_lawful 32)
        (pair_codec_lawful _ _ _ _ (uint_codec_lawful 4)
          (pair_codec_lawful _ _ _ _ (uint_codec_lawful 4) (uint_codec_lawful 4)))))));
    [now intros [? [? [? [? []]]]] | now intros []].
Qed.

Lemma CBlockHeader_size h p : header_valid h -> Serialize CBlockHeader_codec h = Some p -> length p = 80%nat.
Proof.
  intros (_ & (_ & Hp) & (_ & Hm) & _) E.
  cbn [CBlockHeader_codec class_codec pair_codec Serialize fst snd] in E. some_inv.
  cbn [uint_codec int_codec blob_codec Serialize] in *. rewrite ?Hp, ?Hm in *.
  some_inv. rewrite !length_app, !length_le_encode, ?Hp, ?Hm. reflexivity.
Qed.

Lemma CTransaction_nonempty sizeofIn sizeofOut : NonEmpty (CTransaction_codec sizeofIn sizeofOut) tx_valid.
Proof.
  intros t p _ E. cbn [CTransaction_codec class_codec pair_codec Serialize fst snd] in E. some_inv.
  cbn [int_codec uint_codec Serialize] in *. some_inv. rewrite !length_app, !length_le_encode. lia.
Qed.

Definition block_valid (b : CBlock) : Prop :=
  header_valid (header b) /\ Forall tx_valid (vtx b) /\ len (vtx b) <= MAX_SIZE.

#[export] Instance CBlock_lawful sizeofRef sizeofIn sizeofOut :
  0 < sizeofRef -> 0 < sizeofIn -> 0 < sizeofOut ->
  Lawful (CBlock_codec sizeofRef sizeofIn sizeofOut) block_valid.
Proof.
  intros HR HI HO.
  refine (class_codec_lawful _ _ _ _ _ _ (pair_codec_lawful _ _ _ _ CBlockHeader_lawful
    (vector_codec_lawful _ _ _ (CTransaction_lawful _ _ HI HO) (CTransaction_nonempty _ _) HR))); now intros [].
Qed.

Lemma hdr_GetHash_spec h p : Serialize CBlockHeader_codec h = Some p -> hdr_GetHash h = Some (sha256d p).
Proof. intros E. unfold hdr_GetHash. apply hw_GetHash. exact (hw_stream _ [] _ _ _ hw_new E). Qed.

Lemma deserialize_loop_short l i r : 0 <= i -> i + len l <= 8 -> deserialize_loop i l r <> None.
Proof.
  revert i r; induction l as [|b l IH]; intros i r Hi Hl; [discriminate|]. rewrite len_cons in Hl.
  pose proof (len_nonneg l). cbn [deserialize_loop]. destruct (Z.leb_spec 64 (8 * i)); [lia|]. apply IH; lia.
Qed.

Lemma deserialize_loop_long l i r : 0 <= i <= 8 -> 8 < i + len l -> deserialize_loop i l r = None.
Proof.
  revert i r; induction l as [|b l IH]; intros i r Hi Hl; [change (len (@nil Z)) with 0 in Hl; lia|].
  rewrite len_cons in Hl. cbn [deserialize_loop]. destruct (Z.leb_spec 64 (8 * i)); [reflexivity|]. apply IH; lia.
Qed.

Lemma len_removelast (l : bytes) : l <> [] -> len (removelast l) = len l - 1.
Proof.
  intros H. rewrite (app_removelast_last 0 H) at 2. rewrite len_app. change (len [last l 0]) with 1. lia.
Qed.

Lemma deserialize_none l : deserialize l = None <-> l = [] \/ 10 <= len l.
Proof.
  destruct l as [|b l]; [cbn; tauto|]. unfold deserialize. set (s := b :: l).
  assert (Hr : len (removelast s) = len s - 1) by (apply len_removelast; discriminate).
  split.
  - intros H. right. apply Z.nlt_ge. intros C. destruct (deserialize_loop 0 (removelast s) 0) eqn:E.
    + destruct (8 <? len s); discriminate.
    + apply deserialize_loop_short in E; lia.
  - intros [H|H]; [discriminate|]. rewrite deserialize_loop_long by lia. reflexivity.
Qed.

Section Properties.
Context {B : BIGNUM}.

(** The outcome of reading a height from the script of the coinbase. *)
Lemma height_number n rest :
  1 <= n <= len rest ->
  (let* coinbaseHeight := CScriptNum_of_span (firstn (Z.to_nat n) rest) false n false in
   let* m := getint coinbaseHeight in Ok (u64 m)) =
  (let* v := or_abort (deserialize (firstn (Z.to_nat n) rest)) in
   Ok (u64 (Z.max INT_MIN (Z.min INT_MAX v)))).
Proof.
  intros Hn. assert (Hl : len (firstn (Z.to_nat n) rest) = n) by (rewrite len_firstn; unfold len in *; lia).
  unfold CScriptNum_of_span. rewrite Hl, Z.ltb_irrefl. cbn [andb].
  destruct (Z.eqb_spec n 0); [lia|]. destruct (deserialize _) as [v|]; [|reflexivity]. cbn [or_abort obind getint].
  unfold INT_MAX, INT_MIN. destruct (Z.ltb_spec (2 ^ 31 - 1) v); cbn [obind]; [do 2 f_equal; lia|].
  destruct (Z.ltb_spec v (- 2 ^ 31)); cbn [obind]; [do 2 f_equal; lia|].
  rewrite i32_small by lia. do 2 f_equal. lia.
Qed.

(** The script of the coinbase. *)
Definition coinbase_script (b : CBlock) : option bytes :=
  match vtx b with t :: _ => match vin t with i :: _ => Some (scriptSig i) | [] => None end | [] => None end.

Lemma GetHeightFromCoinbase_eq b s :
  coinbase_script b = Some s ->
  GetHeightFromCoinbase b =
  match s with
  | [] => Throw std_exception
  | n :: rest =>
      if n =? OP_0 then Ok 0
      else if (OP_1 <=? n) && (n <=? OP_16) then Ok (n - OP_1 + 1)
      else if len rest <? n then Throw std_exception
      else
        let* h := CScriptNum_of_span (firstn (Z.to_nat n) rest) false n false in
        let* m := getint h in Ok (u64 m)
  end.
Proof.
  unfold coinbase_script, GetHeightFromCoinbase. destruct (vtx b) as [|t ts]; [discriminate|].
  cbn [nth_error or_abort obind]. destruct (vin t) as [|i ins]; [discriminate|]. intros [= <-]. reflexivity.
Qed.

Lemma coinbase_height_push b h extra :
  0 <= h < 2 ^ 31 -> coinbase_script b = Some (push_int64 [] h ++ extra) -> GetHeightFromCoinbase b = Ok h.
Proof.
  intros Hh E. rewrite (GetHeightFromCoinbase_eq b _ E). unfold push_int64.
  destruct (Z.eqb_spec h (-1)); [lia|]. cbn [orb]. destruct ((1 <=? h) && (h <=? 16)) eqn:S16.
  { rewrite u8_small by (unfold is_byte, OP_1; lia). cbn [app]. unfold OP_0, OP_1, OP_16.
    destruct (Z.eqb_spec (h + (81 - 1)) 0); [lia|].
    destruct (Z.leb_spec 81 (h + (81 - 1))), (Z.leb_spec (h + (81 - 1)) 96); try lia. cbn [andb]. f_equal. lia. }
  destruct (Z.eqb_spec h 0) as [->|H0]; [reflexivity|].
  rewrite serialize_sm_encode by lia. destruct (sm_encode_spec h) as (Hok & Hm & Hval).
  pose proof (sm_encode_len h ltac:(lia)) as H8.
  assert (H1 : 1 <= len (sm_encode h)).
  { destruct (sm_encode h) as [|x l] eqn:El; [cbn in Hval; lia | rewrite len_cons; pose proof (len_nonneg l); lia]. }
  unfold push_data. replace (len (sm_encode h) <? OP_PUSHDATA1) with true by (unfold OP_PUSHDATA1; lia).
  cbn [app]. rewrite u8_small by (unfold is_byte; lia). unfold OP_0, OP_1, OP_16.
  destruct (Z.eqb_spec (len (sm_encode h)) 0); [lia|]. destruct (Z.leb_spec 81 (len (sm_encode h))); [lia|]. cbn [andb].
  rewrite len_app. pose proof (len_nonneg extra). destruct (Z.ltb_spec (len (sm_encode h) + len extra) (len (sm_encode h))); [lia|].
  rewrite height_number by (rewrite len_app; lia). unfold len at 1. rewrite Nat2Z.id, (firstn_app _ (sm_encode h)), Nat.sub_diag, firstn_all, app_nil_r.
  rewrite deserialize_value, Hval by (assumption || lia). cbn [or_abort obind]. unfold INT_MAX, INT_MIN.
  rewrite u64_small by lia. f_equal. lia.
Qed.

Lemma coinbase_height_undefined b s :
  coinbase_script b = Some s -> bytes_ok s ->
  (GetHeightFromCoinbase b = Abort <->
   exists n rest, s = n :: rest /\ 10 <= n <= len rest /\ (n < OP_1 \/ OP_16 < n)).
Proof.
  intros E Hs. rewrite (GetHeightFromCoinbase_eq b s E). destruct s as [|n rest].
  { split; [discriminate | now intros (n & r & [=] & _)]. }
  inversion Hs as [|? ? Hn Hr]; subst. unfold is_byte in Hn. pose proof (len_nonneg rest).
  assert (K : (exists n' r', n :: rest = n' :: r' /\ 10 <= n' <= len r' /\ (n' < OP_1 \/ OP_16 < n')) <->
              10 <= n <= len rest /\ (n < OP_1 \/ OP_16 < n)).
  { split; [now intros (n' & r' & [= <- <-] & X) | intros X; now exists n, rest]. }
  rewrite K. clear K. unfold OP_0, OP_1, OP_16. destruct (Z.eqb_spec n 0); [split; [discriminate | lia]|].
  destruct (Z.leb_spec 81 n), (Z.leb_spec n 96); cbn [andb]; try (split; [discriminate | lia]);
    (destruct (Z.ltb_spec (len rest) n); [split; [discriminate | lia]|]; rewrite height_number by lia;
     destruct (deserialize _) eqn:D; cbn [or_abort obind];
     [ split; [discriminate|]; intros X; exfalso;
       assert (D' : deserialize (firstn (Z.to_nat n) rest) = None)
         by (apply deserialize_none; right; rewrite len_firstn; lia); congruence
     | apply deserialize_none in D as [D|D];
       [apply (f_equal len) in D; rewrite len_firstn in D; change (len (@nil Z)) with 0 in D; lia
       | rewrite len_firstn in D; split; [intros _; lia | reflexivity]] ]).
Qed.

(** the height a block carries in its coinbase. A coinbase that starts with the height, pushed as
    [CScript() << nHeight] does, gives it back; and reading the height is undefined exactly when
    there is no transaction, no input, or a push of ten or more bytes that the script does hold. *)
Theorem coinbase_height (b : CBlock) :
  (forall h extra, 0 <= h < 2 ^ 31 -> coinbase_script b = Some (push_int64 [] h ++ extra) ->
     GetHeightFromCoinbase b = Ok h) /\
  (forall s, coinbase_script b = Some s -> bytes_ok s ->
     (GetHeightFromCoinbase b = Abort <->
      exists n rest, s = n :: rest /\ 10 <= n <= len rest /\ (n < OP_1 \/ OP_16 < n))) /\
  (coinbase_script b = None -> GetHeightFromCoinbase b = Abort).
Proof.
  split; [exact (coinbase_height_push b)|]. split; [exact (coinbase_height_undefined b)|].
  unfold coinbase_script, GetHeightFromCoinbase. destruct (vtx b) as [|t ts]; [reflexivity|].
    cbn [nth_error or_abort obind]. destruct (vin t); [reflexivity | discriminate].
Qed.
End Properties.

Definition sample_block : CBlock :=
  mkBlock (mkHeader 1 (repeat 1 32) (repeat 2 32) 100 0x1d00ffff 7)
    [mkTx 1 [mkTxIn (mkOutPoint (repeat 0 32) 0xffffffff) [3; 0x40; 0x42; 0x0f; 9] 0] [] 0].

Lemma coinbase_height_witness : GetHeightFromCoinbase (B := Z_BIGNUM) sample_block = Ok 1000000.
Proof. refine (proj1 (coinbase_height (B := Z_BIGNUM) sample_block) 1000000 [9] _ eq_refl). lia. Defined.

(** blocks on the wire and on disk: a well-formed block is read back from its serialization,
    whatever follows; the bytes a block is read from are exactly its serialization; and the
    header takes 80 bytes, its hash is the double SHA-256 of these, and two headers with the
    same hash are equal or give two strings with the same SHA-256. *)
Theorem block_roundtrip (sizeofRef sizeofIn sizeofOut : Z) :
  0 < sizeofRef -> 0 < sizeofIn -> 0 < sizeofOut ->
  (forall b rest, block_valid b -> bytes_ok rest ->
     exists p, Serialize (CBlock_codec sizeofRef sizeofIn sizeofOut) b = Some p /\
       Unserialize (CBlock_codec sizeofRef sizeofIn sizeofOut) (p ++ rest) = Some (b, rest)) /\
  (forall s b rest, bytes_ok s -> Unserialize (CBlock_codec sizeofRef sizeofIn sizeofOut) s = Some (b, rest) ->
     block_valid b /\ exists p, Serialize (CBlock_codec sizeofRef sizeofIn sizeofOut) b = Some p /\ s = p ++ rest) /\
  (forall h k, header_valid h -> header_valid k ->
     exists p q, Serialize CBlockHeader_codec h = Some p /\ Serialize CBlockHeader_codec k = Some q /\
       len p = 80 /\ hdr_GetHash h = Some (sha256d p) /\
       (hdr_GetHash h = hdr_GetHash k -> h = k \/ collision p q \/ collision (Sha256.fips_sha256 p) (Sha256.fips_sha256 q))).
Proof.
  intros HR HI HO. pose proof (CBlock_lawful _ _ _ HR HI HO) as L. split; [|split].
  - intros b rest Hv Hr. destruct (ser_some b Hv) as (p & E & _). exists p. split; [exact E|]. now apply ser_read.
  - intros s b rest Hs E. exact (read_ser s b rest Hs E).
  - intros h k Hh Hk. destruct (ser_some h Hh) as (p & Ep & _). destruct (ser_some k Hk) as (q & Eq & _).
    exists p, q. split; [exact Ep|]. split; [exact Eq|]. split; [unfold len; now rewrite (CBlockHeader_size h p Hh Ep)|].
    rewrite (hdr_GetHash_spec h p Ep), (hdr_GetHash_spec k q Eq). split; [reflexivity|].
    intros E. apply Some_inj in E. unfold sha256d in E. apply sha_eq in E as [E|C]; [|now right; right].
    apply sha_eq in E as [E|C]; [|now right; left]. left. subst q.
    pose proof (ser_read h p [] (Forall_nil _) Hh Ep) as R1. pose proof (ser_read k p [] (Forall_nil _) Hk Eq) as R2.
    rewrite R1 in R2. now injection R2.
Qed.

Lemma block_roundtrip_witness :
  exists p, Serialize (CBlock_codec 16 72 40) sample_block = Some p /\
    Unserialize (CBlock_codec 16 72 40) (p ++ [5]) = Some (sample_block, [5]).
Proof.
  apply (proj1 (block_roundtrip 16 72 40 ltac:(lia) ltac:(lia) ltac:(lia)) sample_block [5]); [|apply bytes_okb; reflexivity].
  assert (B32 : forall x, is_byte x -> bytes_ok (repeat x 32) /\ length (repeat x 32) = 32%nat).
  { intros x Hx. split; [apply Forall_forall; intros y Hy; now apply repeat_spec in Hy as -> | reflexivity]. }
  unfold block_valid, header_valid, sample_block, MAX_SIZE, len.
  cbn [header vtx hdr_nVersion hashPrevBlock hdr_hashMerkleRoot hdr_nTime hdr_nBits hdr_nNonce length].
  split; [|split; [|lia]].
  - split; [lia|]. split; [apply B32; unfold is_byte; lia|]. split; [apply B32; unfold is_byte; lia|]. lia.
  - constructor; [|constructor]. unfold tx_valid, txin_valid, outpoint_valid, MAX_SIZE, len.
    cbn [nVersion vin vout nLockTime length]. split; [lia|]. split; [split; [|lia] | split; [split; [constructor|lia]|lia]].
    constructor; [|constructor]. cbn [prevout txid n scriptSig nSequence length].
    split; [split; [apply B32; unfold is_byte; lia | lia]|]. split; [split; [now apply bytes_okb | lia] | lia].
Defined.
End Block.
