(* ===== verification/Merkle.v ===== *)
(** * Merkle trees (src/src/consensus/merkle.cpp)

    The one-pass computation of the root, of the flag for repeated subtrees and of the branch
    of a leaf, with its array of subtree hashes, against the tree as it is described: every
    level pairs the nodes below it, the last one with itself when their number is odd. *)

From S2P Require Import Prelude Endian Outcome Hasher Sha256 Hash Serialize Transaction Block.
Import Sha256 Hash Transaction Block.

Module Merkle.
Local Open Scope outcome_scope.
Local Open Scope word_scope.

(** A [uint256] of zeros, to which the default constructor sets it. *)
Definition uint256_zero : bytes := repeat 0 32.

(** [CHash256().Write(a.begin(), 32).Write(b.begin(), 32).Finalize(...)] *)
Definition hash_pair (a b : bytes) : bytes :=
  CHash256_Finalize (CHash256_Write (CHash256_Write (CSHA256_init (repeat 0 64)) a) b).

(** [operator==] of [uint256] *)
Definition hash_eqb (a b : bytes) : bool := if list_eq_dec Z.eq_dec a b then true else false.

(** [!(count & (((uint32_t)1) << level))] *)
Definition bit_clear (count : Z) (level : nat) : bool := count &&& (1 <<< Z.of_nat level) =? 0.

(** What is pushed on [*pbranch] when [inner[level]] and [h] are combined, and [matchh]. *)
Definition branch_step (pbranch matchh : bool) (matchlevel : Z) (level : nat) (left h : bytes)
    (branch : list bytes) : list bytes * bool :=
  if pbranch then
    if matchh then (branch ++ [left], matchh)
    else if matchlevel =? Z.of_nat level then (branch ++ [h], true)
    else (branch, matchh)
  else (branch, matchh).

(** What a loop over levels carries: [level], [h], [matchh], [mutated] and [*pbranch]. *)
Record walk : Type := mkWalk {
  level : nat; h : bytes; matchh : bool; mutated : bool; branch : list bytes
}.

(** [for (level = 0; !(count & (((uint32_t)1) << level)); level++)]. A shift by 32 is undefined,
    so 32 rounds are enough. *)
Fixpoint absorb (fuel : nat) (pbranch : bool) (inner : list bytes) (matchlevel count : Z) (w : walk) : outcome walk :=
  match fuel with
  | O => Abort
  | S fuel =>
      if bit_clear count (level w) then
        let left := nth (level w) inner uint256_zero in
        let '(branch, matchh) := branch_step pbranch (matchh w) matchlevel (level w) left (h w) (branch w) in
        absorb fuel pbranch inner matchlevel count
          (mkWalk (S (level w)) (hash_pair left (h w)) matchh (mutated w || hash_eqb left (h w)) branch)
      else Ok w
  end.

(** The variables of the first loop. *)
Record progress : Type := mkProgress {
  count : Z; inner : list bytes; matchlevel : Z; p_mutated : bool; p_branch : list bytes
}.

(** [inner[level] = h] *)
Definition set_inner (inner : list bytes) (level : nat) (h : bytes) : list bytes :=
  firstn level inner ++ h :: skipn (S level) inner.

Definition process_leaf (pbranch : bool) (branchpos : Z) (s : progress) (leaf : bytes) : outcome progress :=
  let matchh := count s =? branchpos in
  let cnt := u32 (count s + 1) in
  let* w := absorb 32 pbranch (inner s) (matchlevel s) cnt (mkWalk 0 leaf matchh (p_mutated s) (p_branch s)) in
  Ok (mkProgress cnt (set_inner (inner s) (level w) (h w))
    (if Merkle.matchh w then Z.of_nat (level w) else matchlevel s) (Merkle.mutated w) (Merkle.branch w)).

Fixpoint process_leaves (pbranch : bool) (branchpos : Z) (s : progress) (leaves : list bytes) : outcome progress :=
  match leaves with
  | [] => Ok s
  | leaf :: leaves => let* s := process_leaf pbranch branchpos s leaf in process_leaves pbranch branchpos s leaves
  end.

(** [while (!(count & (((uint32_t)1) << level))) level++;] *)
Fixpoint lowest_level (fuel : nat) (count : Z) (level : nat) : outcome nat :=
  match fuel with
  | O => Abort
  | S fuel => if bit_clear count level then lowest_level fuel count (S level) else Ok level
  end.

(** The loop that propagates upwards in the final sweep; it does not look for equal hashes. *)
Fixpoint propagate (fuel : nat) (pbranch : bool) (inner : list bytes) (matchlevel count : Z) (w : walk) : outcome walk :=
  match fuel with
  | O => Abort
  | S fuel =>
      if bit_clear count (level w) then
        let left := nth (level w) inner uint256_zero in
        let '(branch, matchh) := branch_step pbranch (matchh w) matchlevel (level w) left (h w) (branch w) in
        propagate fuel pbranch inner matchlevel count
          (mkWalk (S (level w)) (hash_pair left (h w)) matchh (mutated w) branch)
      else Ok w
  end.

(** [while (count != (((uint32_t)1) << level))]: every round is at a higher level. *)
Fixpoint sweep (fuel : nat) (pbranch : bool) (inner : list bytes) (matchlevel count : Z) (w : walk) : outcome walk :=
  match fuel with
  | O => Abort
  | S fuel =>
      if count =? 1 <<< Z.of_nat (level w) then Ok w
      else
        let branch := if pbranch && matchh w then branch w ++ [h w] else branch w in
        let count := u32 (count + (1 <<< Z.of_nat (level w))) in
        let* w := propagate 32 pbranch inner matchlevel count
          (mkWalk (S (level w)) (hash_pair (h w) (h w)) (matchh w) (mutated w) branch) in
        sweep fuel pbranch inner matchlevel count w
  end.

(** The root, the flag and the branch. *)
Definition MerkleComputation (leaves : list bytes) (branchpos : Z) (pbranch : bool) : outcome (bytes * bool * list bytes) :=
  match leaves with
  | [] => Ok (uint256_zero, false, [])
  | _ =>
      let* s := process_leaves pbranch branchpos (mkProgress 0 (repeat uint256_zero 32) (-1) false []) leaves in
      let* l := lowest_level 32 (count s) 0 in
      let* w := sweep 32 pbranch (inner s) (matchlevel s) (count s)
        (mkWalk l (nth l (inner s) uint256_zero) (matchlevel s =? Z.of_nat l) (p_mutated s) (p_branch s)) in
      Ok (h w, mutated w, branch w)
  end.

Definition ComputeMerkleRoot (leaves : list bytes) : outcome (bytes * bool) :=
  let* r := MerkleComputation leaves (u32 (-1)) false in Ok (fst (fst r), snd (fst r)).

Definition ComputeMerkleBranch (leaves : list bytes) (position : Z) : outcome (list bytes) :=
  let* r := MerkleComputation leaves position true in Ok (snd r).

Fixpoint ComputeMerkleRootFromBranch (hash : bytes) (vMerkleBranch : list bytes) (nIndex : Z) : bytes :=
  match vMerkleBranch with
  | [] => hash
  | it :: rest =>
      ComputeMerkleRootFromBranch (if nIndex &&& 1 =? 0 then Hash2 hash it else Hash2 it hash) rest (nIndex >>> 1)
  end.

(** [leaves[s] = block.vtx[s]->GetId()]; an identifier is computed when the transaction is made. *)
Fixpoint block_leaves (vtx : list CTransaction) : option (list bytes) :=
  match vtx with
  | [] => Some []
  | tx :: vtx =>
      match TxSerializeHash tx, block_leaves vtx with Some i, Some l => Some (i :: l) | _, _ => None end
  end.

Definition BlockMerkleRoot (block : CBlock) : outcome (bytes * bool) :=
  let* leaves := or_throw std_exception (block_leaves (vtx block)) in ComputeMerkleRoot leaves.

Definition BlockMerkleBranch (block : CBlock) (position : Z) : outcome (list bytes) :=
  let* leaves := or_throw std_exception (block_leaves (vtx block)) in ComputeMerkleBranch leaves position.

(** ** The tree *)

(** The nodes over complete pairs. *)
Fixpoint pairs (l : list bytes) : list bytes :=
  match l with a :: b :: l => hash_pair a b :: pairs l | _ => [] end.

(** The level above: the last node is paired with itself when it has no neighbour. *)
Fixpoint pairs_dup (l : list bytes) : list bytes :=
  match l with
  | [] => []
  | [a] => [hash_pair a a]
  | a :: b :: l => hash_pair a b :: pairs_dup l
  end.

(** The nodes of a level that stand over complete subtrees, and all its nodes. *)
Fixpoint complete (k : nat) (l : list bytes) : list bytes :=
  match k with O => l | S k => pairs (complete k l) end.
Fixpoint nodes (k : nat) (l : list bytes) : list bytes :=
  match k with O => l | S k => pairs_dup (nodes k l) end.

Definition merkle_height (l : list bytes) : nat := Nat.log2_up (length l).
Definition merkle_root (l : list bytes) : bytes := hd uint256_zero (nodes (merkle_height l) l).

(** Two neighbours that are combined are equal. *)
Fixpoint equal_pair (l : list bytes) : bool :=
  match l with a :: b :: l => hash_eqb a b || equal_pair l | _ => false end.

(** Some complete subtree is repeated next to itself. *)
Definition repeated (l : list bytes) : bool :=
  existsb (fun k => equal_pair (complete k l)) (seq 0 32).

(** The node next to node [i], itself when there is none, and the branch of leaf [p]. *)
Definition sibling (l : list bytes) (i : nat) : bytes :=
  if Nat.odd i then nth (i - 1) l uint256_zero else nth (i + 1) l (nth i l uint256_zero).
Definition path (f : nat -> list bytes) (m p : nat) : list bytes :=
  map (fun k => sibling (f k) (p / 2 ^ k)) (seq 0 m).

(** ** Lemmas *)

Lemma pair_ind {A} (P : list A -> Prop) :
  P [] -> (forall a, P [a]) -> (forall a b l, P l -> P (a :: b :: l)) -> forall l, P l.
Proof.
  intros H0 H1 H2. enough (K : forall l, P l /\ forall a, P (a :: l)) by (intros l; apply K).
  induction l as [|b l [IH1 IH2]]; [split; auto|]. split; [apply IH2 | intros a; now apply H2].
Qed.

Lemma pairs_snoc l x :
  pairs (l ++ [x]) = if Nat.even (length l) then pairs l else pairs l ++ [hash_pair (last l uint256_zero) x].
Proof.
  induction l as [|a|a b l IH] using pair_ind; [reflexivity | reflexivity |].
  cbn [app pairs length Nat.even]. rewrite IH. destruct (Nat.even (length l)) eqn:E; [reflexivity|].
  destruct l; [discriminate E|]. reflexivity.
Qed.

Lemma equal_pair_snoc l x :
  equal_pair (l ++ [x]) = equal_pair l || (Nat.odd (length l) && hash_eqb (last l uint256_zero) x).
Proof.
  induction l as [|a|a b l IH] using pair_ind; [reflexivity | cbn; apply orb_false_r |].
  cbn [app equal_pair length]. change (Nat.odd (S (S (length l)))) with (Nat.odd (length l)). rewrite IH, orb_assoc.
  destruct l; [now rewrite !andb_false_l | reflexivity].
Qed.

Lemma div2_pow c k : (c / 2 ^ k / 2 = c / 2 ^ S k)%nat.
Proof. rewrite Nat.Div0.div_div. f_equal. rewrite Nat.mul_comm. reflexivity. Qed.

Lemma length_pairs l : length (pairs l) = (length l / 2)%nat.
Proof.
  induction l as [|a|a b l IH] using pair_ind; [reflexivity | reflexivity |]. cbn [pairs length]. rewrite IH.
  replace (S (S (length l))) with (length l + 1 * 2)%nat by lia. rewrite Nat.div_add by lia. lia.
Qed.

Lemma length_complete k l : length (complete k l) = (length l / 2 ^ k)%nat.
Proof.
  induction k as [|k IH]; [cbn [complete Nat.pow]; now rewrite Nat.div_1_r|].
  cbn [complete]. now rewrite length_pairs, IH, div2_pow.
Qed.

(** A level is its complete nodes and at most one more. *)
Lemma pairs_dup_prefix c e : (length e <= 1)%nat -> exists e', pairs_dup (c ++ e) = pairs c ++ e' /\ (length e' <= 1)%nat.
Proof.
  intros He. induction c as [|a|a b c IH] using pair_ind.
  - destruct e as [|x [|y e]]; [now exists [] | now exists [hash_pair x x] | cbn in He; lia].
  - destruct e as [|x [|y e]]; [now exists [hash_pair a a] | now exists [hash_pair a x] | cbn in He; lia].
  - destruct IH as (e' & E & L). exists e'. cbn [app pairs_dup pairs]. now rewrite E.
Qed.

Lemma nodes_prefix k l : exists e, nodes k l = complete k l ++ e /\ (length e <= 1)%nat.
Proof.
  induction k as [|k (e & E & L)]; [exists []; cbn [nodes complete]; rewrite app_nil_r; split; [reflexivity | cbn; lia]|].
  cbn [nodes complete]. rewrite E. now apply pairs_dup_prefix.
Qed.

Lemma pairs_dup_snoc l x :
  pairs_dup (l ++ [x]) = pairs l ++ [hash_pair (if Nat.even (length l) then x else last l uint256_zero) x].
Proof.
  induction l as [|a|a b l IH] using pair_ind; [reflexivity | reflexivity |].
  cbn [app pairs_dup pairs length Nat.even]. rewrite IH. destruct (Nat.even (length l)) eqn:E; [reflexivity|].
  destruct l; [discriminate E | reflexivity].
Qed.

#[local] Opaque hash_pair.

Lemma Zodd_of_nat c : Z.odd (Z.of_nat c) = Nat.odd c.
Proof.
  induction c as [|c IH]; [reflexivity|]. rewrite Nat2Z.inj_succ, Z.odd_succ, <- Z.negb_odd, IH, Nat.odd_succ.
  now rewrite Nat.negb_odd.
Qed.

Lemma bit_clear_spec c k : (k < 32)%nat -> bit_clear (Z.of_nat c) k = Nat.even (c / 2 ^ k).
Proof.
  intros Hk. unfold bit_clear. pose proof (land_bit (Z.of_nat c) (Z.of_nat k) ltac:(lia)) as E.
  rewrite Z.testbit_odd, Z.shiftr_div_pow2 in E by lia. change 2 with (Z.of_nat 2) in E.
  rewrite <- Nat2Z.inj_pow, <- Nat2Z.inj_div, Zodd_of_nat, <- Nat.negb_even in E.
  destruct (Z.land _ _ =? 0), (Nat.even _); cbn in E; congruence.
Qed.

Lemma complete_prefix k l x : exists e, complete k (l ++ [x]) = complete k l ++ e.
Proof.
  assert (P : forall l e, exists e', pairs (l ++ e) = pairs l ++ e').
  { clear. intros l e. induction l as [|a|a b l (e' & IH)] using pair_ind; [now exists (pairs e) | |].
    - destruct e as [|b e]; [now exists [] | now exists (hash_pair a b :: pairs e)].
    - exists e'. cbn [app pairs]. now rewrite IH. }
  induction k as [|k (e & IH)]; [now exists [x]|]. cbn [complete]. rewrite IH. apply P.
Qed.

Lemma node_in m k p c : (k <= m)%nat -> (p / 2 ^ m < c / 2 ^ m)%nat -> (p / 2 ^ k < c / 2 ^ k)%nat.
Proof.
  intros Hk H. apply Nat.nle_gt. intros C. apply Nat.nle_gt in H. apply H.
  replace (2 ^ m)%nat with (2 ^ k * 2 ^ (m - k))%nat by (rewrite <- Nat.pow_add_r; f_equal; lia).
  rewrite <- !Nat.Div0.div_div. now apply Nat.Div0.div_le_mono.
Qed.

Lemma odd_even_double i : (Nat.odd i = true /\ i = 2 * (i / 2) + 1 \/ Nat.odd i = false /\ i = 2 * (i / 2))%nat.
Proof.
  pose proof (Nat.div_mod_eq i 2). pose proof (Nat.mod_upper_bound i 2 ltac:(lia)).
  destruct (Nat.odd i) eqn:E.
  - left. split; [reflexivity|]. apply Nat.odd_spec in E as (q & Hq). lia.
  - right. split; [reflexivity|]. rewrite <- Nat.negb_even in E. apply negb_false_iff, Nat.even_spec in E as (q & Hq). lia.
Qed.

Lemma sibling_prefix a e i : (i / 2 < length a / 2)%nat -> sibling (a ++ e) i = sibling a i.
Proof.
  intros H. pose proof (Nat.div_mod_eq (length a) 2). unfold sibling.
  destruct (odd_even_double i) as [[-> E]|[-> E]].
  - rewrite app_nth1 by lia. reflexivity.
  - rewrite !app_nth1 by lia. apply nth_indep. lia.
Qed.

Lemma path_ext f g m p :
  (forall k, (k < m)%nat -> sibling (f k) (p / 2 ^ k) = sibling (g k) (p / 2 ^ k)) -> path f m p = path g m p.
Proof. intros H. apply map_ext_in. intros k Hk. apply in_seq in Hk. apply H. lia. Qed.

Lemma path_prefix (f g : nat -> list bytes) m p c :
  (forall k, exists e, f k = g k ++ e) -> (forall k, length (g k) = (c / 2 ^ k)%nat) ->
  (p / 2 ^ m < c / 2 ^ m)%nat -> path f m p = path g m p.
Proof.
  intros Hf Hg Hp. apply path_ext. intros k Hk. destruct (Hf k) as [e ->]. apply sibling_prefix.
  rewrite Hg, !div2_pow. apply (node_in m (S k)); [lia | exact Hp].
Qed.

Lemma path_S f m p : path f (S m) p = path f m p ++ [sibling (f m) (p / 2 ^ m)].
Proof. unfold path. rewrite seq_S, map_app. reflexivity. Qed.

(** *** The first loop *)

Definition inner_ok (inner : list bytes) (l : list bytes) : Prop :=
  length inner = 32%nat /\
  forall k, (k < 32)%nat -> Nat.odd (length (complete k l)) = true ->
  nth k inner uint256_zero = last (complete k l) uint256_zero.

(** Leaf [p] is below the last complete node of level [m], and its branch up to there is known. *)
Definition found (l : list bytes) (p m : nat) (br : list bytes) : Prop :=
  S (p / 2 ^ m) = length (complete m l) /\ br = path (fun k => complete k l) m p.

(** What is known of leaf [p] after the leaves [l], looking at levels from [k] on. *)
Definition branch_ok (l : list bytes) (p k : nat) (ml : Z) (br : list bytes) : Prop :=
  if (p <? length l)%nat then
    exists m, (k <= m < 32)%nat /\ ml = Z.of_nat m /\ Nat.odd (length (complete m l)) = true /\ found l p m br
  else ml = -1 /\ br = [].

Section Leaf.
Variables (l : list bytes) (x : bytes) (inner : list bytes) (ml : Z) (pb : bool) (p : nat).
Hypothesis Hin : inner_ok inner l.
Hypothesis Hc : Z.of_nat (length (l ++ [x])) < 2 ^ 32.

Record walk_ok (w : walk) : Prop := {
  wo_even : forall j, (j < level w)%nat -> Nat.even (length (complete j (l ++ [x]))) = true;
  wo_last : complete (level w) (l ++ [x]) = complete (level w) l ++ [h w];
  wo_mutated : mutated w = existsb (fun j => equal_pair (complete j (l ++ [x]))) (seq 0 (level w)) ||
                           existsb (fun j => equal_pair (complete j l)) (seq (level w) (32 - level w));
  wo_branch : pb = true ->
    if matchh w then found (l ++ [x]) p (level w) (branch w)
    else p <> length l /\ branch_ok l p (level w) ml (branch w)
}.

Lemma walk_level w : walk_ok w -> (level w < 32)%nat.
Proof.
  intros [_ Hl _ _]. apply (f_equal (@length bytes)) in Hl. rewrite length_app, !length_complete in Hl. cbn [length] in Hl.
  apply Nat.nle_gt. intros C. assert (P : (2 ^ 32 <= 2 ^ level w)%nat) by (apply Nat.pow_le_mono_r; lia).
  rewrite (Nat.div_small (length (l ++ [x]))) in Hl; [lia|].
  apply Nat2Z.inj_lt. apply Nat2Z.inj_le in P. rewrite Nat2Z.inj_pow in P. change (Z.of_nat 2 ^ Z.of_nat 32) with (2 ^ 32) in P. lia.
Qed.

Lemma found_grow m br : (m < 32)%nat -> found l p m br -> Nat.odd (length (complete m l)) = true ->
  br = path (fun k => complete k (l ++ [x])) m p.
Proof.
  intros Hm [H1 H2] _. rewrite H2. symmetry. apply (path_prefix _ _ m p (length l)).
  - intros k. apply complete_prefix.
  - intros k. apply length_complete.
  - rewrite <- length_complete, <- H1. lia.
Qed.

(** Combining the last two nodes of level [level w]. *)
Definition combined (w : walk) : walk :=
  let left := nth (level w) inner uint256_zero in
  let r := branch_step pb (matchh w) ml (level w) left (h w) (branch w) in
  mkWalk (S (level w)) (hash_pair left (h w)) (snd r) (mutated w || hash_eqb left (h w)) (fst r).

Lemma existsb_seq_S (f : nat -> bool) k n : existsb f (seq k (S n)) = f k || existsb f (seq (S k) n).
Proof. reflexivity. Qed.

Lemma existsb_seq_snoc (f : nat -> bool) k : existsb f (seq 0 (S k)) = existsb f (seq 0 k) || f k.
Proof. rewrite seq_S, existsb_app. cbn [existsb]. now rewrite orb_false_r. Qed.

Lemma combined_branch w :
  walk_ok w -> pb = true -> Nat.odd (length (complete (level w) l)) = true ->
  if matchh (combined w) then found (l ++ [x]) p (S (level w)) (branch (combined w))
  else p <> length l /\ branch_ok l p (S (level w)) ml (branch (combined w)).
Proof.
  intros Hw Hpb Hodd. pose proof (walk_level w Hw) as Hlv. destruct Hw as [_ Hl _ Hb]. specialize (Hb Hpb).
  destruct Hin as [_ Hn]. unfold combined. cbn [matchh branch]. rewrite (Hn _ Hlv Hodd). unfold branch_step. rewrite Hpb.
  set (k := level w) in *. set (c := length (complete k l)) in *.
  assert (Hlen : length (complete k (l ++ [x])) = S c) by (rewrite Hl, length_app; cbn; lia).
  destruct (odd_even_double c) as [[_ Ec]|[Ec _]]; [|congruence].
  assert (Hlen' : length (complete (S k) (l ++ [x])) = S (c / 2)).
  { cbn [complete]. rewrite length_pairs, Hlen. replace (S c) with ((c / 2 + 1) * 2)%nat by lia. rewrite Nat.div_mul; lia. }
  assert (Hlast : last (complete k l) uint256_zero = nth (c - 1) (complete k l) uint256_zero) by apply last_nth.
  destruct (matchh w).
  - destruct Hb as [B1 B2]. cbn [fst snd]. split.
    + rewrite Hlen', <- div2_pow. f_equal. rewrite Hlen in B1. injection B1 as ->. lia.
    + rewrite path_S, <- B2. do 2 f_equal. rewrite Hlen in B1. injection B1 as ->. unfold sibling.
      destruct (odd_even_double c) as [[-> _]|[Eo _]]; [|congruence]. rewrite Hl, Hlast, app_nth1 by (fold c; lia). reflexivity.
  - destruct Hb as [Hne Hb]. destruct (Z.eqb_spec ml (Z.of_nat k)) as [->|Hml]; cbn [fst snd].
    + unfold branch_ok in Hb. destruct (p <? length l)%nat; [|destruct Hb as [Hb _]; lia].
      destruct Hb as (m & Hm & Em & Om & Fm). apply Nat2Z.inj in Em. subst m. pose proof (found_grow k _ Hlv Fm Om) as Hp.
      destruct Fm as [F1 F2]. fold c in F1. split.
      * rewrite Hlen', <- div2_pow. f_equal. replace (p / 2 ^ k)%nat with (c / 2 * 2)%nat by lia. rewrite Nat.div_mul; lia.
      * rewrite path_S, <- Hp. do 2 f_equal. unfold sibling. rewrite Hl.
        destruct (odd_even_double (p / 2 ^ k)) as [[_ E]|[-> E]]; [lia|].
        rewrite app_nth2 by (fold c; lia). fold c. replace (p / 2 ^ k + 1 - c)%nat with 0%nat by lia. reflexivity.
    + split; [exact Hne|]. unfold branch_ok in *. destruct (p <? length l)%nat; [|exact Hb].
      destruct Hb as (m & Hm & Em & Om & Fm). exists m. split; [split; [|lia]|auto]. assert (m <> k) by congruence. lia.
Qed.

Lemma combined_ok w :
  walk_ok w -> Nat.odd (length (complete (level w) l)) = true -> walk_ok (combined w).
Proof.
  intros Hw Ho. pose proof (walk_level w Hw) as Hlv. destruct Hin as [_ Hn]. constructor.
  - unfold combined. cbn [level]. intros j Hj. destruct (Nat.eq_dec j (level w)) as [->|]; [|apply (wo_even w Hw); lia].
    now rewrite (wo_last w Hw), length_app, Nat.add_1_r, Nat.even_succ.
  - unfold combined. cbn [level h complete]. rewrite (wo_last w Hw), pairs_snoc, (Hn _ Hlv Ho).
    rewrite <- Nat.negb_odd, Ho. reflexivity.
  - unfold combined. cbn [level mutated]. rewrite existsb_seq_snoc, (wo_mutated w Hw), (wo_last w Hw), equal_pair_snoc.
    rewrite Ho, (Hn _ Hlv Ho). cbn [andb]. replace (32 - level w)%nat with (S (32 - S (level w))) by lia.
    rewrite existsb_seq_S. destruct (existsb _ (seq 0 _)), (equal_pair _), (existsb _ (seq (S _) _)), (hash_eqb _ _); reflexivity.
  - intros Hpb. now apply combined_branch.
Qed.

Lemma absorb_spec fuel w :
  walk_ok w -> (32 <= fuel + level w)%nat ->
  exists w', absorb fuel pb inner ml (Z.of_nat (length (l ++ [x]))) w = Ok w' /\ walk_ok w' /\
    Nat.odd (length (complete (level w') (l ++ [x]))) = true.
Proof.
  revert w; induction fuel as [|fuel IH]; intros w Hw Hf; pose proof (walk_level w Hw) as Hlv; [lia|].
  cbn [absorb]. rewrite bit_clear_spec, <- length_complete by exact Hlv.
  destruct (Nat.even (length (complete (level w) (l ++ [x])))) eqn:E.
  - assert (Ho : Nat.odd (length (complete (level w) l)) = true).
    { rewrite (wo_last w Hw), length_app, Nat.add_1_r, Nat.even_succ in E. exact E. }
    pose proof (IH (combined w) (combined_ok w Hw Ho)) as R. unfold combined in R. cbv zeta in R. cbn [level] in R.
    destruct (branch_step _ _ _ _ _ _ _) as [br mh]. cbn [fst snd] in R. apply R. lia.
  - exists w. split; [reflexivity|]. split; [exact Hw|]. now rewrite <- Nat.negb_even, E.
Qed.

(** The levels above the one where the walk ends do not change. *)
Lemma complete_above w j :
  walk_ok w -> Nat.odd (length (complete (level w) (l ++ [x]))) = true -> (level w < j)%nat ->
  complete j (l ++ [x]) = complete j l.
Proof.
  intros Hw Ho Hj. assert (E : complete (S (level w)) (l ++ [x]) = complete (S (level w)) l).
  { cbn [complete]. rewrite (wo_last w Hw), pairs_snoc. rewrite (wo_last w Hw), length_app, Nat.add_1_r, Nat.odd_succ in Ho.
    now rewrite Ho. }
  replace j with (j - S (level w) + S (level w))%nat by lia. induction (j - S (level w))%nat as [|d IH]; [exact E|].
  cbn [Nat.add complete]. now rewrite IH.
Qed.

Lemma nth_set_inner w k :
  (level w < 32)%nat ->
  nth k (set_inner inner (level w) (h w)) uint256_zero = if (k =? level w)%nat then h w else nth k inner uint256_zero.
Proof.
  intros Hlv. destruct Hin as [Hlen _]. unfold set_inner.
  assert (Lf : length (firstn (level w) inner) = level w) by (rewrite length_firstn; lia).
  destruct (Nat.eqb_spec k (level w)) as [->|Hne].
  - rewrite app_nth2, Lf, Nat.sub_diag by lia. reflexivity.
  - destruct (Nat.lt_ge_cases k (level w)).
    + rewrite app_nth1 by lia. rewrite nth_firstn. now replace (k <? level w)%nat with true by (symmetry; now apply Nat.ltb_lt).
    + rewrite app_nth2, Lf by lia. replace (k - level w)%nat with (S (k - S (level w))) by lia. cbn [nth].
      rewrite nth_skipn. f_equal. lia.
Qed.

Lemma set_inner_ok w :
  walk_ok w -> Nat.odd (length (complete (level w) (l ++ [x]))) = true ->
  inner_ok (set_inner inner (level w) (h w)) (l ++ [x]).
Proof.
  intros Hw Ho. pose proof (walk_level w Hw) as Hlv. destruct Hin as [Hlen Hn]. split.
  - unfold set_inner. rewrite length_app. cbn [length]. rewrite length_firstn, length_skipn. lia.
  - intros k Hk Hok. rewrite nth_set_inner by exact Hlv. destruct (Nat.eqb_spec k (level w)) as [->|Hne].
    + now rewrite (wo_last w Hw), last_last.
    + destruct (Nat.lt_ge_cases k (level w)) as [Hlt|Hge].
      * rewrite <- Nat.negb_even, (wo_even w Hw k Hlt) in Hok. discriminate.
      * rewrite (complete_above w k Hw Ho) in * by lia. now apply Hn.
Qed.

Lemma walk_mutated w :
  walk_ok w -> Nat.odd (length (complete (level w) (l ++ [x]))) = true -> mutated w = repeated (l ++ [x]).
Proof.
  intros Hw Ho. pose proof (walk_level w Hw) as Hlv. rewrite (wo_mutated w Hw). unfold repeated.
  replace (seq 0 32) with (seq 0 (level w) ++ seq (level w) (32 - level w))
    by (change (seq (level w)) with (seq (0 + level w)); rewrite <- seq_app; f_equal; lia).
  rewrite existsb_app. f_equal. replace (32 - level w)%nat with (S (31 - level w)) by lia. cbn [seq existsb]. f_equal.
  - rewrite (wo_last w Hw), equal_pair_snoc. rewrite (wo_last w Hw), length_app, Nat.add_1_r, Nat.odd_succ in Ho.
    rewrite <- Nat.negb_even, Ho. cbn [negb andb]. now rewrite orb_false_r.
  - assert (K : forall j, In j (seq (S (level w)) (31 - level w)) -> complete j (l ++ [x]) = complete j l).
    { intros j Hj. apply in_seq in Hj. apply (complete_above w j Hw Ho). lia. }
    revert K. generalize (seq (S (level w)) (31 - level w)). intros r; induction r as [|j js IH]; intros K; [reflexivity|].
    cbn [existsb]. rewrite IH by (intros j' Hj'; apply K; now right). f_equal. rewrite (K j); [reflexivity | now left].
Qed.

Lemma walk_branch w :
  walk_ok w -> Nat.odd (length (complete (level w) (l ++ [x]))) = true -> pb = true ->
  branch_ok (l ++ [x]) p 0 (if matchh w then Z.of_nat (level w) else ml) (branch w).
Proof.
  intros Hw Ho Hpb. pose proof (walk_level w Hw) as Hlv. pose proof (wo_branch w Hw Hpb) as Hb.
  unfold branch_ok. rewrite length_app. cbn [length]. destruct (matchh w).
  - pose proof Hb as [F1 F2]. assert (Hp : (p < length l + 1)%nat).
    { assert (X : (p / 2 ^ level w < (length l + 1) / 2 ^ level w)%nat).
      { rewrite length_complete, length_app in F1. cbn [length] in F1. lia. }
      apply (node_in (level w) 0) in X; [|lia]. now rewrite !Nat.div_1_r in X. }
    destruct (Nat.ltb_spec p (length l + 1)); [|lia]. exists (level w). repeat split; auto; lia.
  - destruct Hb as [Hne Hb]. unfold branch_ok in Hb. destruct (Nat.ltb_spec p (length l)).
    + destruct (Nat.ltb_spec p (length l + 1)); [|lia]. destruct Hb as (m & Hm & Em & Om & Fm).
      assert (m <> level w). { intros ->. rewrite (wo_last w Hw), length_app, Nat.add_1_r, Nat.odd_succ, <- Nat.negb_odd, Om in Ho. discriminate. }
      assert (Ec : complete m (l ++ [x]) = complete m l) by (apply (complete_above w m Hw Ho); lia).
      exists m. split; [lia|]. split; [exact Em|]. rewrite Ec. split; [exact Om|].
      split; [rewrite Ec; apply Fm | apply found_grow; auto; lia].
    + destruct (Nat.ltb_spec p (length l + 1)); [lia|]. exact Hb.
Qed.
End Leaf.

(** What holds after the leaves [l]. *)
Record progress_ok (pb : bool) (p : nat) (l : list bytes) (s : progress) : Prop := {
  po_count : count s = Z.of_nat (length l);
  po_inner : inner_ok (inner s) l;
  po_mutated : p_mutated s = repeated l;
  po_branch : pb = true -> branch_ok l p 0 (matchlevel s) (p_branch s)
}.

Lemma process_leaf_spec pb p l s x :
  progress_ok pb p l s -> Z.of_nat (length (l ++ [x])) < 2 ^ 32 ->
  exists s', process_leaf pb (Z.of_nat p) s x = Ok s' /\ progress_ok pb p (l ++ [x]) s'.
Proof.
  intros [Pc Pi Pm Pb] Hc. unfold process_leaf. rewrite Pc.
  assert (Ec : u32 (Z.of_nat (length l) + 1) = Z.of_nat (length (l ++ [x]))).
  { rewrite length_app in *. cbn [length] in *. rewrite u32_small by lia. lia. }
  rewrite Ec. set (w0 := mkWalk 0 x (Z.of_nat (length l) =? Z.of_nat p) (p_mutated s) (p_branch s)).
  assert (Hw0 : walk_ok l x (matchlevel s) pb p w0).
  { constructor; cbn [level w0]; [lia | reflexivity | exact Pm |].
    intros Hpb. specialize (Pb Hpb). cbn [matchh w0 branch]. destruct (Z.eqb_spec (Z.of_nat (length l)) (Z.of_nat p)) as [E|E].
    - apply Nat2Z.inj in E. unfold branch_ok in Pb. destruct (Nat.ltb_spec p (length l)); [lia|].
      split; [cbn [complete Nat.pow]; rewrite Nat.div_1_r, length_app; cbn [length]; lia | apply Pb].
    - split; [congruence | exact Pb]. }
  destruct (absorb_spec l x (inner s) (matchlevel s) pb p Pi Hc 32 w0 Hw0 ltac:(lia)) as (w & -> & Hw & Ho).
  cbn [obind]. eexists. split; [reflexivity|].
  constructor; cbn [count inner p_mutated matchlevel p_branch]; [reflexivity | | |].
  - now apply (set_inner_ok l x _ (matchlevel s) pb p).
  - now apply (walk_mutated l x (matchlevel s) pb p).
  - intros Hpb. now apply (walk_branch l x (matchlevel s) pb p).
Qed.

Lemma process_leaves_spec pb p l m s :
  progress_ok pb p l s -> Z.of_nat (length (l ++ m)) < 2 ^ 32 ->
  exists s', process_leaves pb (Z.of_nat p) s m = Ok s' /\ progress_ok pb p (l ++ m) s'.
Proof.
  revert l s; induction m as [|x m IH]; intros l s Hs Hc.
  - exists s. now rewrite app_nil_r.
  - replace (l ++ x :: m) with ((l ++ [x]) ++ m) in * by now rewrite <- app_assoc.
    destruct (process_leaf_spec pb p l s x Hs) as (s1 & E1 & H1); [rewrite length_app in Hc; lia|].
    cbn [process_leaves]. rewrite E1. cbn [obind]. now apply IH.
Qed.

(** *** The final sweep *)

Lemma length_pairs_dup l : length (pairs_dup l) = ((length l + 1) / 2)%nat.
Proof.
  induction l as [|a|a b l IH] using pair_ind; [reflexivity | reflexivity |]. cbn [pairs_dup length]. rewrite IH.
  replace (S (S (length l)) + 1)%nat with (length l + 1 + 1 * 2)%nat by lia. rewrite Nat.div_add by lia. lia.
Qed.

Lemma pow2_pos k : (0 < 2 ^ k)%nat.
Proof. apply Nat.neq_0_lt_0, Nat.pow_nonzero. lia. Qed.

Lemma length_nodes k l : length (nodes k l) = ((length l + 2 ^ k - 1) / 2 ^ k)%nat.
Proof.
  induction k as [|k IH]; [cbn [nodes Nat.pow]; rewrite Nat.div_1_r; lia|]. cbn [nodes]. rewrite length_pairs_dup, IH.
  pose proof (pow2_pos k). rewrite <- (Nat.div_add _ 1) by lia. rewrite Nat.Div0.div_div. f_equal; [|cbn [Nat.pow]; lia].
  cbn [Nat.pow]. lia.
Qed.

(** The numbers of nodes of a level: the leaves in units of [2 ^ k], rounded down and up. *)
Lemma level_sizes k l :
  exists q r, length l = (q * 2 ^ k + r)%nat /\ (r < 2 ^ k)%nat /\ length (complete k l) = q /\
    length (nodes k l) = if (r =? 0)%nat then q else S q.
Proof.
  pose proof (pow2_pos k). exists (length l / 2 ^ k)%nat, (length l mod 2 ^ k)%nat.
  pose proof (Nat.div_mod_eq (length l) (2 ^ k)) as E. pose proof (Nat.mod_upper_bound (length l) (2 ^ k) ltac:(lia)) as B.
  split; [lia|]. split; [exact B|]. split; [apply length_complete|]. rewrite length_nodes.
  set (q := (length l / 2 ^ k)%nat) in *. set (r := (length l mod 2 ^ k)%nat) in *.
  destruct (Nat.eqb_spec r 0); symmetry.
  - apply (Nat.div_unique _ _ _ (2 ^ k - 1)); nia.
  - apply (Nat.div_unique _ _ _ (r - 1)); nia.
Qed.

Lemma pairs_dup_even l : Nat.even (length l) = true -> pairs_dup l = pairs l.
Proof. induction l as [|a|a b l IH] using pair_ind; [reflexivity | discriminate |]. intros H. cbn [pairs_dup pairs]. now rewrite IH. Qed.

Lemma shl32_one k : (k <= 31)%nat -> shl32 1 (Z.of_nat k) = 2 ^ Z.of_nat k.
Proof.
  intros Hk. unfold shl32. rewrite Z.shiftl_1_l. apply u32_small.
  split; [apply Z.pow_nonneg; lia | apply Z.pow_lt_mono_r; lia].
Qed.

Lemma found_nodes l p m br : found l p m br -> br = path (fun k => nodes k l) m p.
Proof.
  intros [H1 ->]. symmetry. apply (path_prefix _ _ m p (length l)).
  - intros k. destruct (nodes_prefix k l) as (e & E & _). now exists e.
  - intros k. apply length_complete.
  - rewrite <- length_complete, <- H1. lia.
Qed.

Section Sweep.
Variables (l : list bytes) (inner : list bytes) (ml : Z) (pb : bool) (p : nat) (mut : bool).
Hypothesis Hin : inner_ok inner l.
Hypothesis Hn : (1 <= length l)%nat /\ Z.of_nat (length l) <= 2 ^ 31.

(** At level [level w], with leaf [p], when it is not below [h], still at a level from [j] on. *)
Record sweep_ok (j : nat) (cnt : Z) (w : walk) : Prop := {
  so_last : exists d, nodes (level w) l = d ++ [h w];
  so_count : cnt = Z.of_nat (2 ^ level w * length (nodes (level w) l));
  so_height : level w = 0%nat \/ (2 ^ (level w - 1) < length l)%nat;
  so_mutated : mutated w = mut;
  so_branch : pb = true ->
    if matchh w then S (p / 2 ^ level w) = length (nodes (level w) l) /\
                     branch w = path (fun k => nodes k l) (level w) p
    else exists m, (j <= m < 32)%nat /\ ml = Z.of_nat m /\ Nat.odd (length (complete m l)) = true /\
                   found l p m (branch w)
}.

Lemma sweep_level j cnt w : sweep_ok j cnt w -> (level w <= 31)%nat /\ cnt <= 2 ^ 31.
Proof.
  intros [_ Hc Hh _ _]. assert (Hl : (level w <= 31)%nat).
  { destruct Hh as [->|Hh]; [lia|]. apply Nat.nlt_ge. intros C.
    assert (X : (2 ^ 31 <= 2 ^ (level w - 1))%nat) by (apply Nat.pow_le_mono_r; lia).
    apply Nat2Z.inj_le in X. rewrite Nat2Z.inj_pow in X. change (Z.of_nat 2 ^ Z.of_nat 31) with (2 ^ 31) in X. lia. }
  split; [exact Hl|]. destruct (level_sizes (level w) l) as (q & r & E & B & _ & Es). rewrite Hc, Es.
  set (P := (2 ^ level w)%nat) in *.
  assert (HP : Z.of_nat P * 2 ^ (31 - Z.of_nat (level w)) = 2 ^ 31).
  { unfold P. rewrite Nat2Z.inj_pow. change (Z.of_nat 2) with 2. rewrite <- Z.pow_add_r by lia. f_equal. lia. }
  destruct (Nat.eqb_spec r 0); [nia|]. destruct Hn as [_ Hn']. assert (Hpos : 0 < Z.of_nat P) by (pose proof (pow2_pos (level w)); unfold P; lia).
  assert (Z.of_nat q < 2 ^ (31 - Z.of_nat (level w))) by nia. nia.
Qed.

Lemma sweep_bit j cnt w : sweep_ok j cnt w -> bit_clear cnt (level w) = Nat.even (length (nodes (level w) l)).
Proof.
  intros Hw. pose proof (sweep_level _ _ _ Hw) as [Hlv _]. rewrite (so_count _ _ _ Hw), bit_clear_spec by lia.
  pose proof (pow2_pos (level w)). now rewrite Nat.mul_comm, Nat.div_mul by lia.
Qed.

(** Above an odd level the last node is over an incomplete subtree. *)
Lemma incomplete_last k y d :
  nodes k l = d ++ [y] -> length (nodes k l) = S (length (complete k l)) -> nodes k l = complete k l ++ [y].
Proof.
  intros E L. destruct (nodes_prefix k l) as (e & E' & Le). rewrite E', length_app in L.
  destruct e as [|z [|z' e]]; [cbn in L; lia | | cbn in Le; lia]. rewrite E'.
  rewrite E in E'. now apply app_inj_tail in E' as [_ ->].
Qed.

(** One step of the inner loop: the level has an even number of nodes, the last one over an
    incomplete subtree. *)
Lemma propagate_step cnt w :
  sweep_ok (level w) cnt w -> length (nodes (level w) l) = S (length (complete (level w) l)) ->
  Nat.even (length (nodes (level w) l)) = true ->
  let left := nth (level w) inner uint256_zero in
  let r := branch_step pb (matchh w) ml (level w) left (h w) (branch w) in
  let w' := mkWalk (S (level w)) (hash_pair left (h w)) (snd r) (mutated w) (fst r) in
  sweep_ok (level w') cnt w' /\ length (nodes (level w') l) = S (length (complete (level w') l)).
Proof.
  intros Hw Hi He left r w'. pose proof (sweep_level _ _ _ Hw) as [Hlv _]. destruct Hw as [[d0 Hl] Hc Hh Hm Hb].
  pose proof (incomplete_last _ _ _ Hl Hi) as Hnk. clear d0 Hl. set (k := level w) in *. set (c := length (complete k l)) in *.
  assert (Ho : Nat.odd c = true) by (rewrite Hi, Nat.even_succ in He; exact He).
  assert (El : left = last (complete k l) uint256_zero) by (apply (proj2 Hin); [lia | exact Ho]).
  assert (Hup : nodes (S k) l = complete (S k) l ++ [hash_pair left (h w)]).
  { cbn [nodes complete]. rewrite Hnk, pairs_dup_snoc. fold c. now rewrite <- Nat.negb_odd, Ho, El. }
  destruct (odd_even_double c) as [[_ Ec]|[Ec _]]; [|congruence].
  assert (Hc' : length (complete (S k) l) = (c / 2)%nat) by (cbn [complete]; apply length_pairs).
  assert (Hn' : length (nodes (S k) l) = S (c / 2)) by (rewrite Hup, length_app, Hc'; cbn [length]; lia).
  split; [|cbn [level w']; lia]. unfold w'. constructor; cbn [level h mutated matchh branch].
  - eexists. exact Hup.
  - rewrite Hc, Hn', Hi. f_equal. cbn [Nat.pow]. fold c. nia.
  - right. replace (S k - 1)%nat with k by lia. destruct (level_sizes k l) as (q & rr & E & B & Eq & Es).
    fold c in Eq. rewrite Hi in Es. fold c in Es. destruct (Nat.eqb_spec rr 0); [lia|]. nia.
  - exact Hm.
  - intros Hpb. specialize (Hb Hpb). unfold r, branch_step. rewrite Hpb. destruct (matchh w).
    + destruct Hb as [B1 B2]. cbn [fst snd]. rewrite Hi in B1. injection B1 as B1. fold c in B1. split.
      * rewrite Hn', <- div2_pow, B1. reflexivity.
      * rewrite path_S, <- B2, B1. do 2 f_equal. unfold sibling. destruct (odd_even_double c) as [[-> _]|[X _]]; [|congruence].
        rewrite Hnk, app_nth1, El, last_nth by (fold c; lia). reflexivity.
    + destruct Hb as (m & Hmk & Em & Om & Fm). destruct (Z.eqb_spec ml (Z.of_nat k)) as [E|E]; cbn [fst snd].
      * rewrite Em in E. apply Nat2Z.inj in E. subst m. pose proof (found_nodes _ _ _ _ Fm) as Hpath. destruct Fm as [F1 F2]. fold c in F1. split.
        -- rewrite Hn', <- div2_pow. f_equal. replace (p / 2 ^ k)%nat with (c / 2 * 2)%nat by lia. rewrite Nat.div_mul; lia.
        -- rewrite path_S, <- Hpath. do 2 f_equal. unfold sibling. destruct (odd_even_double (p / 2 ^ k)) as [[_ X]|[-> X]]; [lia|].
           rewrite Hnk, app_nth2 by (fold c; lia). fold c. replace (p / 2 ^ k + 1 - c)%nat with 0%nat by lia. reflexivity.
      * exists m. split; [split; [|lia] | auto]. assert (m <> k) by congruence. lia.
Qed.

Lemma propagate_spec fuel cnt w :
  sweep_ok (level w) cnt w -> length (nodes (level w) l) = S (length (complete (level w) l)) ->
  (32 <= fuel + level w)%nat ->
  exists w', propagate fuel pb inner ml cnt w = Ok w' /\ sweep_ok (S (level w')) cnt w' /\
    Nat.odd (length (nodes (level w') l)) = true /\ (level w <= level w')%nat.
Proof.
  revert w; induction fuel as [|fuel IH]; intros w Hw Hi Hf; pose proof (sweep_level _ _ _ Hw) as [Hlv Hcn]; [lia|].
  cbn [propagate]. rewrite (sweep_bit _ _ _ Hw). destruct (Nat.even _) eqn:E.
  - destruct (propagate_step cnt w Hw Hi E) as [Hs Hi']. cbv zeta in Hs, Hi'. specialize (IH _ Hs Hi').
    cbn [level] in IH. destruct (branch_step _ _ _ _ _ _ _) as [br mh]. cbn [fst snd] in IH.
    destruct (IH ltac:(lia)) as (w' & Ew & Hw' & Ho & Hle).
    exists w'. repeat split; auto; try apply Hw'. lia.
  - exists w. assert (Ho : Nat.odd (length (nodes (level w) l)) = true) by now rewrite <- Nat.negb_even, E.
    split; [reflexivity|]. split; [|split; [exact Ho | lia]]. destruct Hw as [S1 S2 S3 S4 S5].
    constructor; auto. intros Hpb. specialize (S5 Hpb). destruct (matchh w); [exact S5|].
    destruct S5 as (m & Hm & Em & Om & Fm). exists m. split; [split; [|lia] | auto].
    assert (m <> level w). { intros ->. rewrite Hi, Nat.even_succ, Om in E. discriminate. } lia.
Qed.

(** One round of the outer loop: the last node of an odd level is combined with itself. *)
Lemma sweep_step cnt w :
  sweep_ok (S (level w)) cnt w -> Nat.odd (length (nodes (level w) l)) = true -> length (nodes (level w) l) <> 1%nat ->
  let w' := mkWalk (S (level w)) (hash_pair (h w) (h w)) (matchh w) (mutated w)
    (if pb && matchh w then branch w ++ [h w] else branch w) in
  sweep_ok (level w') (cnt + 2 ^ Z.of_nat (level w)) w' /\
  length (nodes (level w') l) = S (length (complete (level w') l)).
Proof.
  intros [[d Hl] Hc Hh Hm Hb] Ho Hne w'. set (k := level w) in *. cbn [level w'].
  assert (Hlen : length (nodes k l) = S (length d)) by (rewrite Hl, length_app; cbn; lia).
  assert (Hd : Nat.even (length d) = true) by (rewrite Hlen, Nat.odd_succ in Ho; exact Ho).
  assert (Hup : nodes (S k) l = pairs d ++ [hash_pair (h w) (h w)]) by (cbn [nodes]; now rewrite Hl, pairs_dup_snoc, Hd).
  destruct (odd_even_double (length d)) as [[X _]|[_ Ed]]; [rewrite <- Nat.negb_even, Hd in X; discriminate|].
  assert (Hn' : length (nodes (S k) l) = S (length d / 2)) by (rewrite Hup, length_app, length_pairs; cbn [length]; lia).
  destruct (level_sizes k l) as (q & r & E & B & Eq & Es).
  destruct (level_sizes (S k) l) as (q' & r' & E' & B' & Eq' & Es'). cbn [Nat.pow] in E', B'. pose proof (pow2_pos k).
  split.
  - unfold w'. constructor; cbn [level h mutated matchh branch].
    + eexists. exact Hup.
    + rewrite Hc, Hn', Hlen, <- (Nat2Z.inj_pow 2), <- Nat2Z.inj_add. f_equal. cbn [Nat.pow]. nia.
    + right. replace (S k - 1)%nat with k by lia. rewrite Hlen in Es. destruct (Nat.eqb_spec r 0); nia.
    + exact Hm.
    + intros Hpb. specialize (Hb Hpb). rewrite Hpb. cbn [andb]. destruct (matchh w).
      * destruct Hb as [B1 B2]. rewrite Hlen in B1. injection B1 as B1. split; [now rewrite Hn', <- div2_pow, B1|].
        rewrite path_S, <- B2, B1. do 2 f_equal. unfold sibling.
        destruct (odd_even_double (length d)) as [[X _]|[-> _]]; [rewrite <- Nat.negb_even, Hd in X; discriminate|].
        rewrite nth_overflow by lia. rewrite Hl, app_nth2, Nat.sub_diag by lia. reflexivity.
      * exact Hb.
  - rewrite Es', Eq'. destruct (Nat.eqb_spec r' 0) as [->|]; [|reflexivity]. exfalso.
    rewrite Nat.add_0_r in E'. assert (length d = (2 * q' - 1)%nat); [|lia].
    rewrite Hlen in Es. destruct (Nat.eqb_spec r 0) as [->|]; nia.
Qed.

(** A level with one node is the top. *)
Lemma sweep_done cnt w :
  sweep_ok (S (level w)) cnt w -> length (nodes (level w) l) = 1%nat ->
  h w = merkle_root l /\ mutated w = mut /\ (pb = true -> branch w = path (fun k => nodes k l) (merkle_height l) p).
Proof.
  intros Hw E1. destruct Hw as [[d Hl] Hc Hh Hm Hb].
  assert (Hk : merkle_height l = level w).
  { unfold merkle_height. destruct (level_sizes (level w) l) as (q & r & E & B & _ & Es). rewrite E1 in Es.
    assert (length l <= 2 ^ level w)%nat by (destruct (Nat.eqb_spec r 0); nia).
    destruct Hh as [Hz|Hh]; [rewrite Hz in *; cbn [Nat.pow] in *; now replace (length l) with 1%nat by lia|].
    destruct (level w) as [|k]; [cbn [Nat.pow Nat.sub] in *; lia|]. apply Nat.log2_up_unique; [lia|]. cbn [Nat.pred].
    replace (S k - 1)%nat with k in Hh by lia. lia. }
  rewrite Hl, length_app in E1. destruct d; [|cbn in E1; lia]. unfold merkle_root. rewrite Hk, Hl. split; [reflexivity|].
  split; [exact Hm|]. intros Hpb. specialize (Hb Hpb). destruct (matchh w); [apply Hb|].
  destruct Hb as (m & Hm' & _ & Om & Fm). exfalso. assert (Hlm : length (complete m l) = 0%nat); [|rewrite Hlm in Om; discriminate].
  rewrite length_complete. apply Nat.div_small.
  destruct (level_sizes (level w) l) as (q & r & E & B & _ & Es). rewrite Hl in Es. cbn [app length] in Es.
  assert (2 * 2 ^ level w <= 2 ^ m)%nat by (change (2 ^ S (level w) <= 2 ^ m)%nat; apply Nat.pow_le_mono_r; lia).
  pose proof (pow2_pos (level w)). destruct (Nat.eqb_spec r 0); nia.
Qed.

Lemma sweep_spec fuel cnt w :
  sweep_ok (S (level w)) cnt w -> Nat.odd (length (nodes (level w) l)) = true -> (32 <= fuel + level w)%nat ->
  exists w', sweep fuel pb inner ml cnt w = Ok w' /\ h w' = merkle_root l /\ mutated w' = mut /\
    (pb = true -> branch w' = path (fun k => nodes k l) (merkle_height l) p).
Proof.
  revert cnt w; induction fuel as [|fuel IH]; intros cnt w Hw Ho Hf; pose proof (sweep_level _ _ _ Hw) as [Hlv Hcn]; [lia|].
  cbn [sweep]. rewrite shl32_one by exact Hlv.
  assert (Hcnt : (cnt =? 2 ^ Z.of_nat (level w)) = (length (nodes (level w) l) =? 1)%nat).
  { rewrite (so_count _ _ _ Hw), <- (Nat2Z.inj_pow 2). pose proof (pow2_pos (level w)).
    destruct (Nat.eqb_spec (length (nodes (level w) l)) 1) as [->|Hne]; [apply Z.eqb_eq; lia | apply Z.eqb_neq; nia]. }
  rewrite Hcnt. destruct (Nat.eqb_spec (length (nodes (level w) l)) 1) as [E1|E1].
  - exists w. split; [reflexivity|]. exact (sweep_done _ _ Hw E1).
  - destruct (sweep_step cnt w Hw Ho E1) as [Hs Hi]. cbv zeta in Hs, Hi.
    assert (Ec : u32 (cnt + 2 ^ Z.of_nat (level w)) = cnt + 2 ^ Z.of_nat (level w)).
    { pose proof (sweep_level _ _ _ Hs) as [_ Hcn']. apply u32_small.
      rewrite (so_count _ _ _ Hw) in *. assert (0 <= 2 ^ Z.of_nat (level w)) by (apply Z.pow_nonneg; lia). lia. }
    rewrite Ec. destruct (propagate_spec 32 _ _ Hs Hi ltac:(cbn [level]; lia)) as (w1 & -> & Hw1 & Ho1 & Hle).
    cbn [level] in Hle. cbn [obind]. apply IH; auto. lia.
Qed.
End Sweep.

Lemma level_bound k n : (2 ^ k <= n)%nat -> Z.of_nat n < 2 ^ 32 -> (k <= 31)%nat.
Proof.
  intros H1 H2. apply Nat.nlt_ge. intros C. assert (X : (2 ^ 32 <= 2 ^ k)%nat) by (apply Nat.pow_le_mono_r; lia).
  apply Nat2Z.inj_le in X. rewrite Nat2Z.inj_pow in X. change (Z.of_nat 2 ^ Z.of_nat 32) with (2 ^ 32) in X. lia.
Qed.

Lemma lowest_level_spec l fuel k :
  (1 <= length l)%nat -> Z.of_nat (length l) < 2 ^ 32 -> (32 <= fuel + k)%nat ->
  (forall j, (j < k)%nat -> Nat.even (length (complete j l)) = true) -> (2 ^ k <= length l)%nat ->
  exists k', lowest_level fuel (Z.of_nat (length l)) k = Ok k' /\ Nat.odd (length (complete k' l)) = true /\
    (forall j, (j < k')%nat -> Nat.even (length (complete j l)) = true) /\ (2 ^ k' <= length l)%nat /\ (k' <= 31)%nat.
Proof.
  intros H1 H2. revert k; induction fuel as [|fuel IH]; intros k Hf Hev Hk; pose proof (level_bound k _ Hk H2) as Hk31; [lia|].
  cbn [lowest_level]. rewrite bit_clear_spec, <- length_complete by lia. destruct (Nat.even (length (complete k l))) eqn:E.
  - apply IH; [lia | |].
    + intros j Hj. destruct (Nat.eq_dec j k) as [->|]; [exact E | apply Hev; lia].
    + rewrite length_complete in E. pose proof (pow2_pos k). cbn [Nat.pow].
      pose proof (Nat.div_mod_eq (length l) (2 ^ k)). destruct (length l / 2 ^ k)%nat as [|[|q]] eqn:Q; [|discriminate | nia].
      apply Nat.div_small_iff in Q; lia.
  - exists k. rewrite <- Nat.negb_even, E. auto.
Qed.

Lemma nodes_complete k l :
  (forall j, (j < k)%nat -> Nat.even (length (complete j l)) = true) -> nodes k l = complete k l.
Proof.
  induction k as [|k IH]; intros H; [reflexivity|]. cbn [nodes complete]. rewrite IH by (intros j Hj; apply H; lia).
  apply pairs_dup_even, H. lia.
Qed.

(** The state in which the sweep starts. *)
Lemma sweep_start pb p l s k :
  (1 <= length l)%nat -> progress_ok pb p l s -> (p < length l)%nat \/ pb = false -> (k <= 31)%nat ->
  Nat.odd (length (complete k l)) = true -> (forall j, (j < k)%nat -> Nat.even (length (complete j l)) = true) ->
  (2 ^ k <= length l)%nat ->
  sweep_ok l (matchlevel s) pb p (repeated l) (S k) (count s)
    (mkWalk k (nth k (inner s) uint256_zero) (matchlevel s =? Z.of_nat k) (p_mutated s) (p_branch s)).
Proof.
  intros H1 [Pc [_ Pi] Pm Pb] Hp Hk Ho Hev Hpow. pose proof (nodes_complete k l Hev) as En.
  constructor; cbn [level h mutated matchh branch].
  - rewrite En, (Pi k ltac:(lia) Ho). exists (removelast (complete k l)). apply app_removelast_last.
    intros C. rewrite C in Ho. discriminate.
  - rewrite Pc. f_equal. destruct (level_sizes k l) as (q & r & E & B & Eq & Es). rewrite En, Eq in Es |- *.
    destruct (Nat.eqb_spec r 0); nia.
  - destruct k as [|k]; [now left | right]. replace (S k - 1)%nat with k by lia. cbn [Nat.pow] in Hpow.
    pose proof (pow2_pos k). lia.
  - exact Pm.
  - intros Hpb. destruct Hp as [Hp|]; [|congruence]. specialize (Pb Hpb). unfold branch_ok in Pb.
    destruct (Nat.ltb_spec p (length l)); [|lia]. destruct Pb as (m & Hm & Em & Om & Fm).
    destruct (Z.eqb_spec (matchlevel s) (Z.of_nat k)) as [E|E].
    + rewrite Em in E. apply Nat2Z.inj in E. subst m. split; [rewrite En; apply Fm | exact (found_nodes _ _ _ _ Fm)].
    + exists m. split; [split; [|lia] | auto]. assert (m <> k) by congruence.
      destruct (Nat.lt_ge_cases m k) as [C|]; [|lia]. rewrite <- Nat.negb_even, (Hev m C) in Om. discriminate.
Qed.

Lemma MerkleComputation_spec pb p l :
  (1 <= length l)%nat -> Z.of_nat (length l) <= 2 ^ 31 -> (p < length l)%nat \/ pb = false ->
  exists br, MerkleComputation l (Z.of_nat p) pb = Ok (merkle_root l, repeated l, br) /\
    (pb = true -> br = path (fun k => nodes k l) (merkle_height l) p).
Proof.
  intros H1 H2 Hp. unfold MerkleComputation.
  assert (P0 : progress_ok pb p [] (mkProgress 0 (repeat uint256_zero 32) (-1) false [])).
  { assert (E0 : forall k, complete k [] = []) by (induction k as [|k IH]; [reflexivity|]; cbn [complete]; now rewrite IH).
    constructor; [reflexivity | | |]; cbn [inner p_mutated matchlevel p_branch].
    - split; [reflexivity|]. intros k _ Ho. rewrite E0 in Ho. discriminate.
    - unfold repeated. induction (seq 0 32) as [|k ks IH]; [reflexivity|]. cbn [existsb]. now rewrite E0, <- IH.
    - intros _. unfold branch_ok. cbn [length Nat.ltb Nat.leb]. auto. }
  destruct (process_leaves_spec pb p [] l _ P0 ltac:(cbn [app]; lia)) as (s & Es & Ps). cbn [app] in Ps.
  destruct l as [|x l]; [cbn in H1; lia|]. rewrite Es. cbn [obind]. set (L := x :: l) in *.
  destruct (lowest_level_spec L 32 0 H1 ltac:(lia) ltac:(lia) ltac:(lia) H1) as (k & Ek & Ho & Hev & Hpow & Hk).
  rewrite <- (po_count _ _ _ _ Ps) in Ek. rewrite Ek. cbn [obind].
  pose proof (sweep_start pb p L s k H1 Ps Hp Hk Ho Hev Hpow) as Hs.
  destruct (sweep_spec L (inner s) (matchlevel s) pb p (repeated L) (po_inner _ _ _ _ Ps) (conj H1 H2) 32 (count s)
    (mkWalk k (nth k (inner s) uint256_zero) (matchlevel s =? Z.of_nat k) (p_mutated s) (p_branch s)) Hs)
    as (w & -> & Hh & Hm & Hb); [cbn [level]; rewrite (nodes_complete k L Hev); exact Ho | cbn [level]; lia|].
  cbn [obind]. exists (branch w). rewrite Hh, Hm. auto.
Qed.

(** *** Branches *)

Lemma hash_pair_spec a b : hash_pair a b = sha256d (a ++ b).
Proof. exact (Hash2_spec a b). Qed.

Lemma Hash2_pair a b : Hash2 a b = hash_pair a b.
Proof. reflexivity. Qed.

Lemma pairs_dup_nth l i :
  (i < length (pairs_dup l))%nat ->
  nth i (pairs_dup l) uint256_zero =
  hash_pair (nth (2 * i) l uint256_zero) (nth (2 * i + 1) l (nth (2 * i) l uint256_zero)).
Proof.
  revert i; induction l as [|a|a b l IH] using pair_ind; intros i Hi; [cbn in Hi; lia | |].
  - cbn in Hi. now replace i with 0%nat by lia.
  - destruct i as [|i]; [reflexivity|]. cbn [pairs_dup length] in Hi.
    replace (2 * S i)%nat with (S (S (2 * i))) by lia. replace (S (S (2 * i)) + 1)%nat with (S (S (2 * i + 1))) by lia.
    cbn [pairs_dup nth]. apply IH. lia.
Qed.

(** A node is the hash of itself and its sibling on the level below, in order. *)
Lemma parent_node l k p :
  (p / 2 ^ k < length (nodes k l))%nat ->
  let i := (p / 2 ^ k)%nat in
  let y := nth i (nodes k l) uint256_zero in
  (p / 2 ^ S k < length (nodes (S k) l))%nat /\
  nth (p / 2 ^ S k) (nodes (S k) l) uint256_zero =
  if Nat.odd i then hash_pair (sibling (nodes k l) i) y else hash_pair y (sibling (nodes k l) i).
Proof.
  intros Hi i y. rewrite <- div2_pow. fold i. fold i in Hi.
  assert (Hl : (i / 2 < length (nodes (S k) l))%nat).
  { cbn [nodes]. rewrite length_pairs_dup. apply Nat.Div0.div_lt_upper_bound.
    pose proof (Nat.div_mod_eq (length (nodes k l) + 1) 2). pose proof (Nat.mod_upper_bound (length (nodes k l) + 1) 2 ltac:(lia)). lia. }
  split; [exact Hl|]. cbn [nodes] in *. rewrite pairs_dup_nth by exact Hl. unfold sibling, y.
  destruct (odd_even_double i) as [[-> E]|[-> E]].
  - replace (2 * (i / 2) + 1)%nat with i by lia. replace (2 * (i / 2))%nat with (i - 1)%nat by lia.
    f_equal. now apply nth_indep.
  - replace (2 * (i / 2))%nat with i by lia. reflexivity.
Qed.

Lemma land_one_odd c : (Z.land (Z.of_nat c) 1 =? 0) = negb (Nat.odd c).
Proof.
  pose proof (land_bit (Z.of_nat c) 0 ltac:(lia)) as E. change (shl32 1 0) with 1 in E.
  rewrite Z.bit0_odd, Zodd_of_nat in E. rewrite <- E. now rewrite negb_involutive.
Qed.

Lemma shiftr_half c k : Z.shiftr (Z.of_nat (c / 2 ^ k)) 1 = Z.of_nat (c / 2 ^ S k).
Proof. rewrite Z.shiftr_div_pow2 by lia. rewrite <- div2_pow, (Nat2Z.inj_div _ 2). reflexivity. Qed.

Lemma RootFromBranch_path l p d k :
  (p / 2 ^ k < length (nodes k l))%nat ->
  ComputeMerkleRootFromBranch (nth (p / 2 ^ k) (nodes k l) uint256_zero)
    (map (fun j => sibling (nodes j l) (p / 2 ^ j)) (seq k d)) (Z.of_nat (p / 2 ^ k)) =
  nth (p / 2 ^ (k + d)) (nodes (k + d) l) uint256_zero.
Proof.
  revert k; induction d as [|d IH]; intros k Hk; [now rewrite Nat.add_0_r|]. cbn [seq map ComputeMerkleRootFromBranch].
  destruct (parent_node l k p Hk) as [Hl Hp]. cbv zeta in Hp. rewrite land_one_odd, !Hash2_pair, shiftr_half.
  rewrite <- Nat.add_succ_comm. rewrite <- (IH (S k) Hl). f_equal. rewrite Hp. now destruct (Nat.odd _).
Qed.

Lemma height_pow l : (1 <= length l)%nat -> (length l <= 2 ^ merkle_height l)%nat /\ length (nodes (merkle_height l) l) = 1%nat.
Proof.
  intros H. assert (Hh : (length l <= 2 ^ merkle_height l)%nat) by (unfold merkle_height; destruct (Nat.log2_log2_up_spec (length l) ltac:(lia)); lia).
  split; [exact Hh|]. rewrite length_nodes. symmetry. apply (Nat.div_unique _ _ _ (length l - 1)); lia.
Qed.

(** C21: the one-pass computation is the tree: for up to 2^31 leaves it terminates with the root of
    the tree, it reports a mutation exactly when a complete subtree is next to a copy of itself,
    and the branch it gives for a leaf leads from that leaf to the root. *)
Theorem merkle_correct (l : list bytes) (p : nat) :
  Z.of_nat (length l) <= 2 ^ 31 -> (p < length l)%nat ->
  ComputeMerkleRoot l = Ok (merkle_root l, repeated l) /\
  exists br, ComputeMerkleBranch l (Z.of_nat p) = Ok br /\ length br = merkle_height l /\
    ComputeMerkleRootFromBranch (nth p l uint256_zero) br (Z.of_nat p) = merkle_root l.
Proof.
  intros H2 Hp. assert (H1 : (1 <= length l)%nat) by lia. split.
  - destruct (MerkleComputation_spec false (Z.to_nat (u32 (-1))) l H1 H2 (or_intror eq_refl)) as (br & E & _).
    rewrite Z2Nat.id in E by (apply u32_range). unfold ComputeMerkleRoot. now rewrite E.
  - destruct (MerkleComputation_spec true p l H1 H2 (or_introl Hp)) as (br & E & Hb). exists br. specialize (Hb eq_refl).
    unfold ComputeMerkleBranch. rewrite E. split; [reflexivity|]. rewrite Hb. unfold path.
    split; [now rewrite length_map, length_seq|].
    pose proof (RootFromBranch_path l p (merkle_height l) 0) as R. rewrite Nat.div_1_r in R. cbn [nodes Nat.add] in R.
    rewrite R by exact Hp. destruct (height_pow l H1) as [Hh Hl1]. rewrite (Nat.div_small p) by lia.
    unfold merkle_root. now destruct (nodes (merkle_height l) l).
Qed.

Lemma merkle_correct_witness :
  ComputeMerkleRoot [repeat 1 32; repeat 2 32; repeat 3 32] =
    Ok (merkle_root [repeat 1 32; repeat 2 32; repeat 3 32], repeated [repeat 1 32; repeat 2 32; repeat 3 32]).
Proof. apply (merkle_correct [repeat 1 32; repeat 2 32; repeat 3 32] 1); cbn; lia. Defined.

(** *** What a root commits to *)

Definition hashes (l : list bytes) : Prop := Forall (fun x => length x = 32%nat) l.

(** Two strings with the same double SHA-256. *)
Definition dcollision (u v : bytes) : Prop := collision u v \/ collision (fips_sha256 u) (fips_sha256 v).

(** The string hashed to node [i] of level [S k]. *)
Definition node_string (l : list bytes) (k i : nat) : bytes :=
  nth (2 * i) (nodes k l) uint256_zero ++ nth (2 * i + 1) (nodes k l) (nth (2 * i) (nodes k l) uint256_zero).

(** Two different strings hashed in one of the two trees, or one in each, have the same hash. *)
Definition tree_collision (l m : list bytes) : Prop :=
  exists a b k i j, (a = l \/ a = m) /\ (b = l \/ b = m) /\ dcollision (node_string a k i) (node_string b k j).

Lemma length_hash_pair a b : length (hash_pair a b) = 32%nat.
Proof. rewrite hash_pair_spec. apply length_fips_sha256. Qed.

Lemma hashes_nodes k l : hashes l -> hashes (nodes k l).
Proof.
  intros H. assert (P : forall l, hashes (pairs_dup l)).
  { clear. induction l as [|a|a b l IH] using pair_ind; [constructor | repeat constructor; apply length_hash_pair |].
    constructor; [apply length_hash_pair | exact IH]. }
  destruct k; [exact H | apply P].
Qed.

Lemma hashes_nth l i d : hashes l -> (i < length l)%nat \/ length d = 32%nat -> length (nth i l d) = 32%nat.
Proof.
  intros H [Hi|Hd]; [apply (proj1 (Forall_forall _ _) H), nth_In, Hi|].
  destruct (nth_in_or_default i l d) as [Hin| ->]; [exact (proj1 (Forall_forall _ _) H _ Hin) | exact Hd].
Qed.

Lemma hash_pair_inj a b c d :
  length a = 32%nat -> length c = 32%nat -> hash_pair a b = hash_pair c d ->
  a = c /\ b = d \/ dcollision (a ++ b) (c ++ d).
Proof.
  intros Ha Hc. rewrite !hash_pair_spec. unfold sha256d. intros E.
  apply sha_eq in E as [E|C]; [|right; now right]. apply sha_eq in E as [E|C]; [|right; now left].
  left. apply app_inj_len in E; [exact E | congruence].
Qed.

Lemma node_eq l k i : (i < length (nodes (S k) l))%nat ->
  nth i (nodes (S k) l) uint256_zero =
  hash_pair (nth (2 * i) (nodes k l) uint256_zero) (nth (2 * i + 1) (nodes k l) (nth (2 * i) (nodes k l) uint256_zero)).
Proof. intros H. cbn [nodes] in *. now apply pairs_dup_nth. Qed.

(** Equal nodes of two trees have equal children. *)
Lemma children_eq l m a b k i j :
  (a = l \/ a = m) -> (b = l \/ b = m) -> hashes a -> hashes b ->
  (i < length (nodes (S k) a))%nat -> (j < length (nodes (S k) b))%nat ->
  nth i (nodes (S k) a) uint256_zero = nth j (nodes (S k) b) uint256_zero ->
  nth (2 * i) (nodes k a) uint256_zero = nth (2 * j) (nodes k b) uint256_zero /\
  nth (2 * i + 1) (nodes k a) (nth (2 * i) (nodes k a) uint256_zero) =
  nth (2 * j + 1) (nodes k b) (nth (2 * j) (nodes k b) uint256_zero) \/ tree_collision l m.
Proof.
  intros Ha Hb Ka Kb Hi Hj E. rewrite !node_eq in E by assumption.
  assert (Z32 : length uint256_zero = 32%nat) by reflexivity.
  apply hash_pair_inj in E as [E|C]; [now left | right | |]; [now exists a, b, k, i, j| |];
    apply hashes_nth; auto using hashes_nodes.
Qed.

Lemma forall_or (P : nat -> Prop) (Q : Prop) n : (forall i, (i < n)%nat -> P i \/ Q) -> (forall i, (i < n)%nat -> P i) \/ Q.
Proof.
  induction n as [|n IH]; intros H; [left; lia|]. destruct IH as [IH|q]; [intros i Hi; apply H; lia | | now right].
  destruct (H n ltac:(lia)) as [Hn|q]; [left | now right]. intros i Hi. destruct (Nat.eq_dec i n) as [->|]; [exact Hn | apply IH; lia].
Qed.

Lemma equal_pair_nth l i :
  (2 * i + 1 < length l)%nat -> nth (2 * i) l uint256_zero = nth (2 * i + 1) l uint256_zero -> equal_pair l = true.
Proof.
  revert i; induction l as [|a|a b l IH] using pair_ind; intros i Hi E; cbn [length] in Hi; [lia | lia |].
  cbn [equal_pair]. destruct i as [|i]; [cbn in E; subst b; unfold hash_eqb; now destruct (list_eq_dec _ _ _)|].
  rewrite (IH i); [apply orb_true_r | lia |].
  replace (2 * S i)%nat with (S (S (2 * i))) in E by lia. exact E.
Qed.

Lemma repeated_intro l k : (k < 32)%nat -> equal_pair (complete k l) = true -> repeated l = true.
Proof. intros Hk E. unfold repeated. apply existsb_exists. exists k. split; [apply in_seq; lia | exact E]. Qed.

Lemma nodes_nth k l i d : (i < length (complete k l))%nat -> nth i (nodes k l) d = nth i (complete k l) uint256_zero.
Proof. intros H. destruct (nodes_prefix k l) as (e & -> & _). rewrite app_nth1 by exact H. now apply nth_indep. Qed.

Section Twins.
Variables (l m a : list bytes).
Hypothesis Ha : a = l \/ a = m.
Hypothesis Hh : hashes a.
Hypothesis Hn : Z.of_nat (length a) <= 2 ^ 31.

Lemma complete_twins k i :
  (2 * i + 1 < length (complete k a))%nat ->
  nth (2 * i) (nodes k a) uint256_zero = nth (2 * i + 1) (nodes k a) uint256_zero -> repeated a = true.
Proof.
  intros Hi E. rewrite !nodes_nth in E by lia. apply (repeated_intro a k); [|now apply (equal_pair_nth _ i)].
  rewrite length_complete in Hi. pose proof (pow2_pos k).
  assert (2 ^ k <= length a)%nat by (pose proof (Nat.div_mod_eq (length a) (2 ^ k)); nia).
  apply Nat.lt_succ_r, (level_bound k (length a)); lia.
Qed.

(** A node over an incomplete subtree that equals a complete one. *)
Lemma incomplete_twin k i :
  length (nodes k a) = S (length (complete k a)) -> (i < length (complete k a))%nat ->
  nth i (nodes k a) uint256_zero = nth (length (complete k a)) (nodes k a) uint256_zero ->
  repeated a = true \/ tree_collision l m.
Proof.
  revert i; induction k as [|k IH]; intros i Hl Hi E; [cbn [nodes complete] in Hl; lia|].
  set (c := length (complete (S k) a)) in *.
  assert (Hc : c = (length (complete k a) / 2)%nat) by (unfold c; cbn [complete]; apply length_pairs).
  assert (Hs : S c = ((length (nodes k a) + 1) / 2)%nat) by (rewrite <- Hl; cbn [nodes]; apply length_pairs_dup).
  pose proof (Nat.div_mod_eq (length (complete k a)) 2). pose proof (Nat.mod_upper_bound (length (complete k a)) 2 ltac:(lia)).
  pose proof (Nat.div_mod_eq (length (nodes k a) + 1) 2). pose proof (Nat.mod_upper_bound (length (nodes k a) + 1) 2 ltac:(lia)).
  destruct (children_eq l m a a k i c Ha Ha Hh Hh ltac:(lia) ltac:(lia) E) as [[E1 E2]|C]; [|now right].
  destruct (Nat.eq_dec (length (nodes k a)) (2 * c + 1)) as [Eo|Ee].
  - left. apply (complete_twins k i); [lia|]. rewrite (nth_overflow _ _ (n := 2 * c + 1)) in E2 by lia.
    rewrite <- E1 in E2. rewrite <- E2 at 1. apply nth_indep. lia.
  - destruct (nodes_prefix k a) as (e & Ep & Le). pose proof (f_equal (@length bytes) Ep) as El. rewrite length_app in El.
    assert (Hk : length (nodes k a) = S (length (complete k a))) by lia.
    apply (IH (2 * i + 1)%nat Hk ltac:(lia)). rewrite (nth_indep _ _ (nth (2 * i) (nodes k a) uint256_zero)) by lia. rewrite E2.
    replace (2 * c + 1)%nat with (length (complete k a)) by lia. apply nth_indep. lia.
Qed.

Lemma last_twins k c :
  length (nodes k a) = (2 * c + 2)%nat ->
  nth (2 * c) (nodes k a) uint256_zero = nth (2 * c + 1) (nodes k a) uint256_zero ->
  repeated a = true \/ tree_collision l m.
Proof.
  intros Hl E. destruct (nodes_prefix k a) as (e & Ep & Le). pose proof (f_equal (@length bytes) Ep) as El.
  rewrite length_app in El. destruct (Nat.eq_dec (length e) 0).
  - left. apply (complete_twins k c); [lia | exact E].
  - apply (incomplete_twin k (2 * c)); [lia | lia |]. rewrite E. f_equal. lia.
Qed.
End Twins.

Section Binding.
Variables (l m : list bytes).
Hypotheses (Kl : hashes l) (Km : hashes m) (Rl : repeated l = false) (Rm : repeated m = false).
Hypotheses (Nl : Z.of_nat (length l) <= 2 ^ 31) (Nm : Z.of_nat (length m) <= 2 ^ 31).

Lemma level_down k : nodes (S k) l = nodes (S k) m -> nodes k l = nodes k m \/ tree_collision l m.
Proof.
  intros E. set (c := length (nodes (S k) l)).
  assert (Hl : c = ((length (nodes k l) + 1) / 2)%nat) by (unfold c; cbn [nodes]; apply length_pairs_dup).
  assert (Hm : c = ((length (nodes k m) + 1) / 2)%nat) by (unfold c; rewrite E; cbn [nodes]; apply length_pairs_dup).
  pose proof (Nat.div_mod_eq (length (nodes k l) + 1) 2). pose proof (Nat.mod_upper_bound (length (nodes k l) + 1) 2 ltac:(lia)).
  pose proof (Nat.div_mod_eq (length (nodes k m) + 1) 2). pose proof (Nat.mod_upper_bound (length (nodes k m) + 1) 2 ltac:(lia)).
  assert (D : forall i, (i < c)%nat ->
    (nth (2 * i) (nodes k l) uint256_zero = nth (2 * i) (nodes k m) uint256_zero /\
     nth (2 * i + 1) (nodes k l) (nth (2 * i) (nodes k l) uint256_zero) =
     nth (2 * i + 1) (nodes k m) (nth (2 * i) (nodes k m) uint256_zero)) \/ tree_collision l m).
  { intros i Hi. apply children_eq; auto; [unfold c in Hi; now rewrite <- E | now rewrite E]. }
  destruct (forall_or _ _ c D) as [P|C]; [clear D | now right].
  destruct (Nat.eq_dec (length (nodes k l)) (length (nodes k m))) as [El|Ne].
  - left. apply (nth_ext _ _ uint256_zero uint256_zero El). intros i Hi.
    destruct (odd_even_double i) as [[_ Ei]|[_ Ei]]; destruct (P (i / 2)%nat ltac:(lia)) as [P1 P2].
    + rewrite <- Ei in P2. rewrite (nth_indep _ _ (nth (2 * (i / 2)) (nodes k l) uint256_zero)) by lia. rewrite P2.
      apply nth_indep. lia.
    + now rewrite <- Ei in P1.
  - right. assert (Hc : (1 <= c)%nat) by lia. destruct (P (c - 1)%nat ltac:(lia)) as [P1 P2].
    assert (Cases : (length (nodes k m) = 2 * (c - 1) + 2)%nat /\ (length (nodes k l) = 2 * (c - 1) + 1)%nat \/
                    (length (nodes k l) = 2 * (c - 1) + 2)%nat /\ (length (nodes k m) = 2 * (c - 1) + 1)%nat) by lia.
    destruct Cases as [[L1 L2]|[L1 L2]].
    + rewrite (nth_overflow (nodes k l)) in P2 by lia.
      destruct (last_twins l m m (or_intror eq_refl) Km Nm k (c - 1) L1) as [R|C]; [|congruence|exact C].
      rewrite <- P1, P2. apply nth_indep. lia.
    + rewrite (nth_overflow (nodes k m)) in P2 by lia.
      destruct (last_twins l m l (or_introl eq_refl) Kl Nl k (c - 1) L1) as [R|C]; [|congruence|exact C].
      rewrite P1, <- P2. apply nth_indep. lia.
Qed.
End Binding.

Lemma root_commits (l m : list bytes) :
  hashes l -> hashes m -> (1 <= length l)%nat -> (1 <= length m)%nat ->
  Z.of_nat (length l) <= 2 ^ 31 -> Z.of_nat (length m) <= 2 ^ 31 -> merkle_height l = merkle_height m ->
  ComputeMerkleRoot l = Ok (merkle_root l, false) -> ComputeMerkleRoot m = Ok (merkle_root l, false) ->
  l = m \/ tree_collision l m.
Proof.
  intros Kl Km Hl Hm Nl Nm Hh El Em.
  assert (R : forall l, (1 <= length l)%nat -> Z.of_nat (length l) <= 2 ^ 31 -> ComputeMerkleRoot l = Ok (merkle_root l, repeated l)).
  { intros x Hx Nx. unfold ComputeMerkleRoot.
    destruct (MerkleComputation_spec false (Z.to_nat (u32 (-1))) x Hx Nx (or_intror eq_refl)) as (br & E & _).
    rewrite Z2Nat.id in E by apply u32_range. now rewrite E. }
  rewrite R in El, Em by assumption. apply Ok_inj in El, Em. apply pair_equal_spec in El as [_ Rl], Em as [Er Rm].
  assert (T : forall k, (k <= merkle_height l)%nat -> nodes (merkle_height l - k) l = nodes (merkle_height l - k) m \/ tree_collision l m).
  { induction k as [|k IH]; intros Hk.
    - left. rewrite Nat.sub_0_r. destruct (height_pow l Hl) as [_ L1]. destruct (height_pow m Hm) as [_ L2].
      unfold merkle_root in Er. rewrite <- Hh in *. destruct (nodes (merkle_height l) l) as [|x [|]], (nodes (merkle_height l) m) as [|y [|]];
        cbn in L1, L2, Er; try lia. now subst.
    - destruct (IH ltac:(lia)) as [E|C]; [|now right]. apply level_down; auto.
      now replace (S (merkle_height l - S k)) with (merkle_height l - k)%nat by lia. }
  specialize (T (merkle_height l) ltac:(lia)). now rewrite Nat.sub_diag in T.
Qed.

(** C22: what a Merkle root commits to. Two lists of at most 2^31 hashes with trees of the same
    height and the same root, in neither of which the mutation is reported, are equal, or two
    different strings hashed in these trees have the same hash: the detection of repeated
    subtrees leaves no other way to change the transactions of a block under its root. *)
Theorem merkle_binding (l m : list bytes) :
  hashes l -> hashes m -> (1 <= length l)%nat -> (1 <= length m)%nat ->
  Z.of_nat (length l) <= 2 ^ 31 -> Z.of_nat (length m) <= 2 ^ 31 -> merkle_height l = merkle_height m ->
  ComputeMerkleRoot l = Ok (merkle_root l, false) -> ComputeMerkleRoot m = Ok (merkle_root l, false) ->
  l = m \/ tree_collision l m.
Proof. apply root_commits. Qed.

Lemma merkle_binding_witness :
  [repeat 1 32; repeat 2 32] = [repeat 1 32; repeat 2 32] \/ tree_collision [repeat 1 32; repeat 2 32] [repeat 1 32; repeat 2 32].
Proof.
  assert (H : hashes [repeat 1 32; repeat 2 32]) by (repeat constructor).
  assert (R : ComputeMerkleRoot [repeat 1 32; repeat 2 32] = Ok (merkle_root [repeat 1 32; repeat 2 32], false))
    by (vm_compute; reflexivity).
  apply (merkle_binding [repeat 1 32; repeat 2 32] [repeat 1 32; repeat 2 32] H H); cbn [length]; lia || exact R || reflexivity.
Defined.

(** The strings [ComputeMerkleRootFromBranch] hashes. *)
Fixpoint branch_strings (hash : bytes) (br : list bytes) (nIndex : Z) : list bytes :=
  match br with
  | [] => []
  | it :: rest =>
      let s := if nIndex &&& 1 =? 0 then hash ++ it else it ++ hash in
      s :: branch_strings (sha256d s) rest (nIndex >>> 1)
  end.

(** A string of the branch and one of the tree, of the same level, have the same hash. *)
Definition branch_collision (x : bytes) (br : list bytes) (i : Z) (l : list bytes) (k0 : nat) : Prop :=
  exists k j s, nth_error (branch_strings x br i) k = Some s /\ dcollision s (node_string l (k0 + k) j).

Lemma branch_sound_level l k br x i :
  hashes l -> hashes br -> length x = 32%nat ->
  In (ComputeMerkleRootFromBranch x br i) (nodes (k + length br) l) ->
  In x (nodes k l) \/ branch_collision x br i l k.
Proof.
  intros Kl. revert k x i; induction br as [|it br IH]; intros k x i Kb Lx H.
  { left. now rewrite Nat.add_0_r in H. }
  inversion Kb as [|? ? Lit Kb']; subst. cbn [ComputeMerkleRootFromBranch length] in H. rewrite (Hash2_pair x it), (Hash2_pair it x) in H.
  set (s := if Z.land i 1 =? 0 then x ++ it else it ++ x).
  assert (Es : (if Z.land i 1 =? 0 then hash_pair x it else hash_pair it x) = sha256d s)
    by (unfold s; destruct (Z.land i 1 =? 0); apply hash_pair_spec).
  rewrite Es in H. replace (k + S (length br))%nat with (S k + length br)%nat in H by lia.
  destruct (IH (S k) (sha256d s) _ Kb' (length_fips_sha256 _) H) as [Hin|(k' & j & t & Hn & C)].
  - apply (In_nth _ _ uint256_zero) in Hin as (j & Hj & Ej). rewrite node_eq in Ej by exact Hj. symmetry in Ej.
    assert (Hlt : (2 * j < length (nodes k l))%nat).
    { cbn [nodes] in Hj. rewrite length_pairs_dup in Hj. pose proof (Nat.div_mod_eq (length (nodes k l) + 1) 2).
      pose proof (Nat.mod_upper_bound (length (nodes k l) + 1) 2 ltac:(lia)). lia. }
    set (a := nth (2 * j) (nodes k l) uint256_zero) in *. set (b := nth (2 * j + 1) (nodes k l) a) in *.
    assert (Ina : In a (nodes k l)) by now apply nth_In.
    assert (Inb : In b (nodes k l)) by (destruct (nth_in_or_default (2 * j + 1) (nodes k l) a) as [X|X]; [exact X | now rewrite <- X in Ina]).
    assert (La : length a = 32%nat) by exact (proj1 (Forall_forall _ _) (hashes_nodes k l Kl) _ Ina).
    rewrite <- Es in Ej. unfold s. destruct (Z.land i 1 =? 0) eqn:Ei;
      apply hash_pair_inj in Ej as [[-> ->]|C]; auto; right; exists 0%nat, j; cbn [branch_strings nth_error]; rewrite Ei;
      (eexists; split; [reflexivity|]); rewrite Nat.add_0_r; exact C.
  - right. exists (S k'), j, t. cbn [branch_strings nth_error]. split; [exact Hn|]. now rewrite Nat.add_succ_r.
Qed.

(** a branch proves membership. If a branch with one hash for every level of the tree leads from
    a hash to the root of the tree, that hash is one of the leaves, or the branch shows two
    strings with the same hash. *)
Theorem branch_sound (l br : list bytes) (x : bytes) (nIndex : Z) :
  hashes l -> hashes br -> length x = 32%nat -> (1 <= length l)%nat -> length br = merkle_height l ->
  ComputeMerkleRootFromBranch x br nIndex = merkle_root l ->
  In x l \/ branch_collision x br nIndex l 0.
Proof.
  intros Kl Kb Lx Hl Lb E. apply (branch_sound_level l 0 br x nIndex Kl Kb Lx). rewrite E. cbn [Nat.add]. rewrite Lb.
  destruct (height_pow l Hl) as [_ L1]. unfold merkle_root. destruct (nodes (merkle_height l) l); [discriminate | now left].
Qed.

Lemma branch_sound_witness :
  In (repeat 1 32) [repeat 1 32; repeat 2 32] \/
  branch_collision (repeat 1 32) [repeat 2 32] 0 [repeat 1 32; repeat 2 32] 0.
Proof.
  assert (H : hashes [repeat 1 32; repeat 2 32]) by (repeat constructor).
  apply (branch_sound [repeat 1 32; repeat 2 32] [repeat 2 32] (repeat 1 32) 0 H);
    [repeat constructor | reflexivity | cbn; lia | reflexivity | reflexivity].
Defined.
End Merkle.
