(* ===== verification/MerkleBlock.v ===== *)
(** * Partial Merkle trees (src/src/merkleblock.h, src/src/merkleblock.cpp)

    The proof that some transactions are in a block: how it is built, written, read and
    checked. A proof that was built gives the matched transactions and the root of the block;
    and whatever a peer sends, the transactions it proves under the root of a block are in
    that block. *)

From S2P Require Import Prelude Endian Outcome Hasher Sha256 Hash Serialize Transaction Block Merkle.
Import Sha256 Hash Serialize Transaction Block Merkle.

Module MerkleBlock.
Local Open Scope outcome_scope.
Local Open Scope word_scope.

Record CPartialMerkleTree : Type := mkTree {
  nTransactions : Z;
  vBits : list bool;
  vHash : list bytes;
  fBad : bool
}.

Definition CalcTreeWidth (nTransactions : Z) (height : nat) : Z :=
  u32 (nTransactions + (1 <<< Z.of_nat height) - 1) >>> Z.of_nat height.

(** [while (CalcTreeWidth(nHeight) > 1) nHeight++;]: a shift by 32 is undefined. *)
Fixpoint tree_height (fuel : nat) (nTransactions : Z) (nHeight : nat) : outcome nat :=
  match fuel with
  | O => Abort
  | S fuel =>
      if 1 <? CalcTreeWidth nTransactions nHeight then tree_height fuel nTransactions (S nHeight) else Ok nHeight
  end.

Fixpoint CalcHash (nTransactions : Z) (height : nat) (pos : Z) (vTxid : list bytes) : outcome bytes :=
  match height with
  | O => or_abort (nth_error vTxid (Z.to_nat pos))
  | S h =>
      let* lft := CalcHash nTransactions h (u32 (pos * 2)) vTxid in
      let* rgt :=
        if u32 (pos * 2 + 1) <? CalcTreeWidth nTransactions h then CalcHash nTransactions h (u32 (pos * 2 + 1)) vTxid
        else Ok lft in
      Ok (Hash2 lft rgt)
  end.

(** The loop over [vMatch[p]] for [k] values of [p]. *)
Fixpoint any_match (vMatch : list bool) (p k : nat) : outcome bool :=
  match k with
  | O => Ok false
  | S k =>
      let* b := or_abort (nth_error vMatch p) in
      let* r := any_match vMatch (S p) k in
      Ok (b || r)
  end.

(** [for (unsigned int p = pos << height; p < (pos + 1) << height && p < nTransactions; p++)] *)
Definition parent_of_match (nTransactions : Z) (vMatch : list bool) (height : nat) (pos : Z) : outcome bool :=
  let p := u32 (Z.shiftl pos (Z.of_nat height)) in
  let stop := Z.min (u32 (Z.shiftl (u32 (pos + 1)) (Z.of_nat height))) nTransactions in
  any_match vMatch (Z.to_nat p) (Z.to_nat (stop - p)).

(** The bits and hashes that are pushed. *)
Fixpoint TraverseAndBuild (nTransactions : Z) (height : nat) (pos : Z) (vTxid : list bytes) (vMatch : list bool)
    : outcome (list bool * list bytes) :=
  let* fParentOfMatch := parent_of_match nTransactions vMatch height pos in
  match height with
  | S h =>
      if fParentOfMatch then
        let* l := TraverseAndBuild nTransactions h (u32 (pos * 2)) vTxid vMatch in
        let* r :=
          if u32 (pos * 2 + 1) <? CalcTreeWidth nTransactions h
          then TraverseAndBuild nTransactions h (u32 (pos * 2 + 1)) vTxid vMatch else Ok ([], []) in
        Ok (fParentOfMatch :: fst l ++ fst r, snd l ++ snd r)
      else let* x := CalcHash nTransactions height pos vTxid in Ok ([fParentOfMatch], [x])
  | O => let* x := CalcHash nTransactions height pos vTxid in Ok ([fParentOfMatch], [x])
  end.

Definition CPartialMerkleTree_of (vTxid : list bytes) (vMatch : list bool) : outcome CPartialMerkleTree :=
  let n := u32 (len vTxid) in
  let* nHeight := tree_height 32 n 0 in
  let* r := TraverseAndBuild n nHeight 0 vTxid vMatch in
  Ok (mkTree n (fst r) (snd r) false).

(** What [TraverseAndExtract] changes. *)
Record extraction : Type := mkExtraction {
  nBitsUsed : nat;
  nHashUsed : nat;
  vMatch : list bytes;
  vnIndex : list Z;
  bad : bool
}.

Definition set_bad (x : extraction) : extraction :=
  mkExtraction (nBitsUsed x) (nHashUsed x) (vMatch x) (vnIndex x) true.

Fixpoint TraverseAndExtract (t : CPartialMerkleTree) (height : nat) (pos : Z) (x : extraction) : bytes * extraction :=
  match nth_error (vBits t) (nBitsUsed x) with
  | None => (uint256_zero, set_bad x)
  | Some fParentOfMatch =>
      let x := mkExtraction (S (nBitsUsed x)) (nHashUsed x) (vMatch x) (vnIndex x) (bad x) in
      let use_hash :=
        match nth_error (vHash t) (nHashUsed x) with
        | None => (uint256_zero, set_bad x)
        | Some hash =>
            let found := (height =? 0)%nat && fParentOfMatch in
            (hash, mkExtraction (nBitsUsed x) (S (nHashUsed x))
              (if found then vMatch x ++ [hash] else vMatch x) (if found then vnIndex x ++ [pos] else vnIndex x) (bad x))
        end in
      match height with
      | O => use_hash
      | S h =>
          if fParentOfMatch then
            let '(lft, x) := TraverseAndExtract t h (u32 (pos * 2)) x in
            let '(rgt, x) :=
              if u32 (pos * 2 + 1) <? CalcTreeWidth (nTransactions t) h then
                let '(rgt, x) := TraverseAndExtract t h (u32 (pos * 2 + 1)) x in
                (rgt, if hash_eqb rgt lft then set_bad x else x)
              else (lft, x) in
            (Hash2 lft rgt, x)
          else use_hash
      end
  end.

(** The root, the matched identifiers, and the indices, which are added to those of the argument. *)
Definition ExtractMatches (t : CPartialMerkleTree) (vnIndex0 : list Z) : outcome (bytes * list bytes * list Z) :=
  if nTransactions t =? 0 then Ok (uint256_zero, [], vnIndex0)
  else if nTransactions t <? len (vHash t) then Ok (uint256_zero, [], vnIndex0)
  else if len (vBits t) <? len (vHash t) then Ok (uint256_zero, [], vnIndex0)
  else
    let* nHeight := tree_height 32 (nTransactions t) 0 in
    let '(root, x) := TraverseAndExtract t nHeight 0 (mkExtraction 0 0 [] vnIndex0 (fBad t)) in
    let failed :=
      bad x || negb ((nBitsUsed x + 7) / 8 =? (length (vBits t) + 7) / 8)%nat || negb (nHashUsed x =? length (vHash t))%nat in
    Ok (if failed then uint256_zero else root, vMatch x, vnIndex x).

(** ** Serialization *)

(** [vBytes[p / 8] |= vBits[p] << (p % 8)], one byte *)
Fixpoint pack_byte (bits : list bool) (p : Z) : Z :=
  match bits with [] => 0 | b :: bits => (if b then Z.shiftl 1 p else 0) ||| pack_byte bits (p + 1) end.
Fixpoint pack_bits (n : nat) (bits : list bool) : bytes :=
  match n with O => [] | S n => pack_byte (firstn 8 bits) 0 :: pack_bits n (skipn 8 bits) end.

(** [vBits[p] = (vBytes[p / 8] & (1 << (p % 8))) != 0] *)
Definition unpack_bits (vBytes : bytes) : list bool :=
  flat_map (fun b => map (fun i => negb (b &&& Z.shiftl 1 i =? 0)) [0; 1; 2; 3; 4; 5; 6; 7]) vBytes.

Definition Serialize_tree (t : CPartialMerkleTree) : option bytes :=
  wbind (Serialize (uint_codec 4) (nTransactions t))
    (wbind (Serialize (vector_codec (blob_codec 32) 32) (vHash t))
      (Serialize bytes_codec (pack_bits ((length (vBits t) + 7) / 8) (vBits t)))).

Definition Unserialize_tree : reader CPartialMerkleTree :=
  rbind (Unserialize (uint_codec 4)) (fun n =>
  rbind (Unserialize (vector_codec (blob_codec 32) 32)) (fun hs =>
  rbind (Unserialize bytes_codec) (fun vBytes => rret (mkTree n (unpack_bits vBytes) hs false)))).

(** ** The tree of a block *)

#[local] Opaque hash_pair.

Section Tree.
Variable l : list bytes.
Hypothesis Hn : (1 <= length l)%nat /\ Z.of_nat (length l) <= 2 ^ 31.

Lemma pow_of_nat k : Z.of_nat (2 ^ k) = 2 ^ Z.of_nat k.
Proof. apply (Nat2Z.inj_pow 2). Qed.

Lemma pow_31 k : (k <= 31)%nat -> 0 < 2 ^ Z.of_nat k <= 2 ^ 31.
Proof. intros H. split; [apply Z.pow_pos_nonneg; lia | apply Z.pow_le_mono_r; lia]. Qed.

Lemma width_spec k : (k <= 31)%nat -> CalcTreeWidth (len l) k = Z.of_nat (length (nodes k l)).
Proof.
  intros Hk. unfold CalcTreeWidth, len. rewrite shl32_one by exact Hk. pose proof (pow_31 k Hk).
  rewrite u32_small by lia. rewrite Z.shiftr_div_pow2 by lia. rewrite length_nodes, Nat2Z.inj_div, pow_of_nat. f_equal.
  pose proof (pow2_pos k). rewrite Nat2Z.inj_sub, Nat2Z.inj_add, pow_of_nat by lia. reflexivity.
Qed.

Lemma height_31 : (merkle_height l <= 31)%nat.
Proof.
  unfold merkle_height. apply Nat.log2_up_le_pow2; [lia|]. apply Nat2Z.inj_le. rewrite pow_of_nat. change (2 ^ Z.of_nat 31) with (2 ^ 31). lia.
Qed.

Lemma one_node k : (length (nodes k l) <= 1)%nat <-> (merkle_height l <= k)%nat.
Proof.
  destruct (level_sizes k l) as (q & r & E & B & _ & Es). unfold merkle_height. rewrite <- Nat.log2_up_le_pow2 by lia.
  rewrite Es. pose proof (pow2_pos k). destruct (Nat.eqb_spec r 0); nia.
Qed.

Lemma tree_height_spec fuel k :
  (32 <= fuel + k)%nat -> (k <= merkle_height l)%nat -> tree_height fuel (len l) k = Ok (merkle_height l).
Proof.
  revert k; induction fuel as [|fuel IH]; intros k Hf Hk; pose proof height_31; [lia|].
  cbn [tree_height]. rewrite width_spec by lia. destruct (Z.ltb_spec 1 (Z.of_nat (length (nodes k l)))) as [H1|H1].
  - apply IH; [lia|]. assert (~ (merkle_height l <= k)%nat) by (rewrite <- one_node; lia). lia.
  - f_equal. assert (merkle_height l <= k)%nat by (apply one_node; lia). lia.
Qed.

(** Positions: those of the children, and the leaves below a node. *)
Lemma pos_bound k i : (i < length (nodes k l))%nat -> (i * 2 ^ k < length l)%nat.
Proof. destruct (level_sizes k l) as (q & r & E & B & _ & Es). rewrite Es. intros H. destruct (Nat.eqb_spec r 0); nia. Qed.

Lemma leaf_bound k i : (i < length (nodes k l))%nat -> Z.of_nat i < 2 ^ 31.
Proof. intros H. apply pos_bound in H. pose proof (pow2_pos k). nia. Qed.

Lemma child_pos k i :
  (i < length (nodes k l))%nat ->
  u32 (Z.of_nat i * 2) = Z.of_nat (2 * i) /\ u32 (Z.of_nat i * 2 + 1) = Z.of_nat (2 * i + 1).
Proof. intros H. apply leaf_bound in H. rewrite !u32_small by lia. lia. Qed.

Lemma left_child k i : (i < length (nodes (S k) l))%nat -> (2 * i < length (nodes k l))%nat.
Proof.
  cbn [nodes]. rewrite length_pairs_dup. intros H. pose proof (Nat.div_mod_eq (length (nodes k l) + 1) 2).
  pose proof (Nat.mod_upper_bound (length (nodes k l) + 1) 2 ltac:(lia)). lia.
Qed.

Lemma CalcHash_spec k i :
  (k <= 31)%nat -> (i < length (nodes k l))%nat ->
  CalcHash (len l) k (Z.of_nat i) l = Ok (nth i (nodes k l) uint256_zero).
Proof.
  revert i; induction k as [|k IH]; intros i Hk Hi.
  - cbn [CalcHash nodes] in *. rewrite Nat2Z.id, (nth_error_nth' l uint256_zero Hi). reflexivity.
  - pose proof (left_child k i Hi) as Hl. cbn [CalcHash].
    destruct (child_pos (S k) i Hi) as [-> ->]. rewrite width_spec, IH by lia. cbn [obind]. rewrite node_eq by exact Hi.
    destruct (Z.ltb_spec (Z.of_nat (2 * i + 1)) (Z.of_nat (length (nodes k l)))).
    + rewrite IH by lia. cbn [obind]. rewrite Hash2_pair. do 2 f_equal. apply nth_indep. lia.
    + cbn [obind]. rewrite Hash2_pair, (nth_overflow _ _ (n := 2 * i + 1)) by lia. reflexivity.
Qed.

Variable vM : list bool.
Hypothesis Hm : length vM = length l.

(** The leaves below node [i] of level [k], and those of them that match. *)
Definition below (k i : nat) : list nat := seq (i * 2 ^ k) (Nat.min ((i + 1) * 2 ^ k) (length l) - i * 2 ^ k).
Definition matched (k i : nat) : list nat := filter (fun p => nth p vM false) (below k i).

Lemma any_match_spec p c : (p + c <= length vM)%nat -> any_match vM p c = Ok (existsb (fun q => nth q vM false) (seq p c)).
Proof.
  revert p; induction c as [|c IH]; intros p H; [reflexivity|]. cbn [any_match seq existsb].
  rewrite (nth_error_nth' vM false) by lia. cbn [or_abort obind]. rewrite IH by lia. reflexivity.
Qed.

Lemma parent_spec k i :
  (k <= 31)%nat -> (i < length (nodes k l))%nat ->
  parent_of_match (len l) vM k (Z.of_nat i) = Ok (existsb (fun q => nth q vM false) (below k i)).
Proof.
  intros Hk Hi. pose proof (pos_bound k i Hi) as Hb. pose proof (pow_31 k Hk) as Hp. unfold parent_of_match, below.
  rewrite !Z.shiftl_mul_pow2, <- !pow_of_nat by lia. pose proof (pow_of_nat k) as Ep.
  assert (Hup : Z.of_nat (i + 1) * Z.of_nat (2 ^ k) <= 2 ^ 31).
  { assert (E31 : 2 ^ 31 = 2 ^ (31 - Z.of_nat k) * Z.of_nat (2 ^ k)) by (rewrite pow_of_nat, <- Z.pow_add_r by lia; f_equal; lia).
    rewrite E31. apply Z.mul_le_mono_nonneg_r; [lia|]. destruct Hn as [_ Hn']. rewrite E31 in Hn'.
    assert (Z.of_nat i < 2 ^ (31 - Z.of_nat k)) by nia. lia. }
  rewrite (u32_small (Z.of_nat i + 1)), !u32_small by nia.
  replace (Z.to_nat (Z.of_nat i * Z.of_nat (2 ^ k))) with (i * 2 ^ k)%nat by lia.
  replace (Z.to_nat (Z.min ((Z.of_nat i + 1) * Z.of_nat (2 ^ k)) (len l) - Z.of_nat i * Z.of_nat (2 ^ k)))
    with (Nat.min ((i + 1) * 2 ^ k) (length l) - i * 2 ^ k)%nat by (unfold len; nia).
  apply any_match_spec. rewrite Hm. lia.
Qed.

Lemma matched_none k i : existsb (fun q => nth q vM false) (below k i) = false -> matched k i = [].
Proof.
  unfold matched. induction (below k i) as [|p r IH]; [reflexivity|]. cbn [existsb filter].
  intros H. apply orb_false_iff in H as [-> H]. auto.
Qed.

Lemma below_children k i :
  (i < length (nodes (S k) l))%nat ->
  below (S k) i = below k (2 * i) ++ (if (2 * i + 1 <? length (nodes k l))%nat then below k (2 * i + 1) else []).
Proof.
  intros Hi. pose proof (left_child k i Hi) as Hl. pose proof (pos_bound k _ Hl) as Hb. unfold below. cbn [Nat.pow].
  pose proof (pow2_pos k). destruct (Nat.ltb_spec (2 * i + 1) (length (nodes k l))) as [H1|H1].
  - pose proof (pos_bound k _ H1) as Hb1.
    replace ((2 * i + 1) * 2 ^ k)%nat with (2 * i * 2 ^ k + (Nat.min ((2 * i + 1) * 2 ^ k) (length l) - 2 * i * 2 ^ k))%nat at 2 by nia.
    rewrite <- seq_app. f_equal; nia.
  - rewrite app_nil_r. f_equal; [nia|]. assert (length l <= (2 * i + 1) * 2 ^ k)%nat.
    { destruct (level_sizes k l) as (q & r & E & B & _ & Es). destruct (Nat.eqb_spec r 0); nia. }
    nia.
Qed.

Lemma matched_children k i :
  (i < length (nodes (S k) l))%nat ->
  matched (S k) i = matched k (2 * i) ++ (if (2 * i + 1 <? length (nodes k l))%nat then matched k (2 * i + 1) else []).
Proof.
  intros Hi. unfold matched. rewrite below_children by exact Hi. rewrite filter_app. now destruct (_ <? _)%nat.
Qed.

(** Bits and hashes from which node [i] of level [k] is extracted. *)
Definition extracts (k i : nat) (bits : list bool) (hs : list bytes) : Prop :=
  forall t x b0 b1 h0 h1,
  nTransactions t = len l -> vBits t = b0 ++ bits ++ b1 -> vHash t = h0 ++ hs ++ h1 ->
  nBitsUsed x = length b0 -> nHashUsed x = length h0 ->
  TraverseAndExtract t k (Z.of_nat i) x =
  (nth i (nodes k l) uint256_zero,
   mkExtraction (length b0 + length bits) (length h0 + length hs)
     (vMatch x ++ map (fun p => nth p l uint256_zero) (matched k i)) (vnIndex x ++ map Z.of_nat (matched k i)) (bad x)).

Lemma nth_error_middle {A} (a : list A) y b : nth_error (a ++ y :: b) (length a) = Some y.
Proof. rewrite nth_error_app2, Nat.sub_diag by lia. reflexivity. Qed.

(** A node whose hash is stored. *)
Lemma extracts_hash k i fp :
  (k = 0%nat \/ fp = false) -> fp = existsb (fun q => nth q vM false) (below k i) -> (i < length (nodes k l))%nat ->
  extracts k i [fp] [nth i (nodes k l) uint256_zero].
Proof.
  intros Hk Hf Hi t x b0 b1 h0 h1 Ht Eb Eh Lb Lh. cbn [app length] in *.
  assert (E1 : nth_error (vBits t) (nBitsUsed x) = Some fp) by (rewrite Eb, Lb; apply nth_error_middle).
  assert (E2 : nth_error (vHash t) (nHashUsed x) = Some (nth i (nodes k l) uint256_zero)) by (rewrite Eh, Lh; apply nth_error_middle).
  destruct k as [|k]; cbn [TraverseAndExtract]; rewrite E1; cbn [nHashUsed vMatch vnIndex bad nBitsUsed Nat.eqb andb]; rewrite E2.
  - replace (S (nBitsUsed x)) with (length b0 + 1)%nat by lia. replace (S (nHashUsed x)) with (length h0 + 1)%nat by lia.
    unfold matched, below. cbn [nodes] in *. cbn [Nat.pow]. rewrite !Nat.mul_1_r, Nat.min_l by lia.
    replace (i + 1 - i)%nat with 1%nat by lia. cbn [seq filter]. unfold below in Hf. cbn [Nat.pow] in Hf.
    rewrite !Nat.mul_1_r, Nat.min_l in Hf by lia. replace (i + 1 - i)%nat with 1%nat in Hf by lia. cbn [seq existsb] in Hf.
    rewrite orb_false_r in Hf. rewrite <- Hf. destruct fp; [reflexivity | now rewrite !app_nil_r].
  - destruct Hk as [|Hk]; [discriminate|]. rewrite (matched_none _ _ (eq_sym (eq_trans (eq_sym Hk) Hf))). rewrite Hk. cbn [map].
    rewrite !app_nil_r. replace (S (nBitsUsed x)) with (length b0 + 1)%nat by lia. now replace (S (nHashUsed x)) with (length h0 + 1)%nat by lia.
Qed.

(** No two siblings are equal. *)
Definition distinct_siblings : Prop :=
  forall k i, (2 * i + 1 < length (nodes k l))%nat ->
  nth (2 * i) (nodes k l) uint256_zero <> nth (2 * i + 1) (nodes k l) uint256_zero.

Lemma hash_eqb_false a b : a <> b -> hash_eqb a b = false.
Proof. intros H. unfold hash_eqb. now destruct (list_eq_dec _ _ _). Qed.

(** A node into which the traversal descends. *)
Lemma extracts_node k i bl hl br hr :
  distinct_siblings -> (S k <= 31)%nat -> (i < length (nodes (S k) l))%nat ->
  extracts k (2 * i) bl hl ->
  (if (2 * i + 1 <? length (nodes k l))%nat then extracts k (2 * i + 1) br hr else br = [] /\ hr = []) ->
  extracts (S k) i (true :: bl ++ br) (hl ++ hr).
Proof.
  intros Hd Hk Hi Hl Hr t x b0 b1 h0 h1 Ht Eb Eh Lb Lh. pose proof (left_child k i Hi) as Hli.
  cbn [TraverseAndExtract]. replace (nth_error (vBits t) (nBitsUsed x)) with (Some true)
    by (rewrite Eb, Lb; symmetry; apply nth_error_middle).
  destruct (child_pos (S k) i Hi) as [-> ->]. rewrite Ht, width_spec by lia.
  specialize (Hl t (mkExtraction (S (nBitsUsed x)) (nHashUsed x) (vMatch x) (vnIndex x) (bad x)) (b0 ++ [true]) (br ++ b1) h0 (hr ++ h1) Ht).
  cbn [nBitsUsed nHashUsed vMatch vnIndex bad] in Hl. rewrite Hl; clear Hl;
    [|rewrite Eb, <- !app_assoc; cbn [app]; now rewrite <- app_assoc | rewrite Eh, <- !app_assoc; reflexivity
     | rewrite length_app; cbn [length]; lia | exact Lh].
  rewrite matched_children, node_eq by exact Hi. rewrite !length_app. cbn [length].
  destruct (Nat.ltb_spec (2 * i + 1) (length (nodes k l))) as [H1|H1].
  - destruct (Z.ltb_spec (Z.of_nat (2 * i + 1)) (Z.of_nat (length (nodes k l)))); [|lia].
    rewrite (Hr t _ (b0 ++ true :: bl) b1 (h0 ++ hl) h1 Ht); cbn [nBitsUsed nHashUsed vMatch vnIndex bad];
      [|rewrite Eb, <- !app_assoc; cbn [app]; now rewrite <- app_assoc | rewrite Eh, <- !app_assoc; reflexivity
       | rewrite !length_app; cbn [length]; lia | now rewrite length_app].
    rewrite hash_eqb_false by (intros C; exact (Hd k i H1 (eq_sym C))).
    rewrite Hash2_pair, (nth_indep (nodes k l) uint256_zero (nth (2 * i) (nodes k l) uint256_zero) H1). f_equal.
    rewrite !map_app, <- !app_assoc, !length_app. cbn [length]. f_equal; lia.
  - destruct (Z.ltb_spec (Z.of_nat (2 * i + 1)) (Z.of_nat (length (nodes k l)))); [lia|]. destruct Hr as [-> ->].
    rewrite (nth_overflow _ _ (n := 2 * i + 1)) by lia. rewrite Hash2_pair, !app_nil_r. cbn [length]. f_equal. f_equal; lia.
Qed.

Lemma below_nonempty k i : (i < length (nodes k l))%nat -> (1 <= length (below k i))%nat.
Proof. intros H. apply pos_bound in H. unfold below. rewrite length_seq. pose proof (pow2_pos k). nia. Qed.

(** A hash of the tree. *)
Definition is_node (y : bytes) : Prop := exists k, In y (nodes k l).

Lemma nth_is_node k i : (i < length (nodes k l))%nat -> Forall is_node [nth i (nodes k l) uint256_zero].
Proof. intros H. constructor; [|constructor]. exists k. now apply nth_In. Qed.

Lemma build_spec k i :
  distinct_siblings -> (k <= 31)%nat -> (i < length (nodes k l))%nat ->
  exists bits hs, TraverseAndBuild (len l) k (Z.of_nat i) l vM = Ok (bits, hs) /\ extracts k i bits hs /\
    (length hs <= length bits)%nat /\ (length bits < 2 ^ S k)%nat /\ (length hs <= length (below k i))%nat /\ Forall is_node hs.
Proof.
  intros Hd. revert i; induction k as [|k IH]; intros i Hk Hi.
  - cbn [TraverseAndBuild]. rewrite parent_spec by lia. cbn [obind]. rewrite CalcHash_spec by lia. cbn [obind].
    eexists _, _. split; [reflexivity|]. split; [now apply extracts_hash; [left | |]|]. cbn [length Nat.pow].
    split; [lia|]. split; [lia|]. split; [now apply below_nonempty | now apply nth_is_node].
  - cbn [TraverseAndBuild]. rewrite parent_spec by lia. cbn [obind].
    destruct (existsb _ (below (S k) i)) eqn:E.
    + pose proof (left_child k i Hi) as Hl. destruct (child_pos (S k) i Hi) as [-> ->]. rewrite width_spec by lia.
      destruct (IH (2 * i)%nat ltac:(lia) Hl) as (bl & hl & -> & Xl & L1 & L2 & L3 & L4). cbn [obind].
      rewrite below_children by exact Hi. pose proof (pow2_pos k).
      destruct (Nat.ltb_spec (2 * i + 1) (length (nodes k l))) as [H1|H1];
        (destruct (Z.ltb_spec (Z.of_nat (2 * i + 1)) (Z.of_nat (length (nodes k l)))); [|try lia]); [|lia|].
      * destruct (IH (2 * i + 1)%nat ltac:(lia) H1) as (br & hr & -> & Xr & R1 & R2 & R3 & R4). cbn [obind fst snd].
        eexists _, _. split; [reflexivity|]. split.
        { apply extracts_node; auto. now replace (2 * i + 1 <? length (nodes k l))%nat with true by (symmetry; now apply Nat.ltb_lt). }
        cbn [length]. rewrite !length_app. cbn [Nat.pow] in *. repeat split; try lia. now apply Forall_app.
      * cbn [obind fst snd]. eexists _, _. split; [reflexivity|]. split.
        { apply extracts_node; auto. now replace (2 * i + 1 <? length (nodes k l))%nat with false by (symmetry; now apply Nat.ltb_ge). }
        cbn [length]. rewrite !length_app. cbn [length Nat.pow] in *. repeat split; try lia. apply Forall_app. now split.
    + rewrite CalcHash_spec by lia. cbn [obind]. eexists _, _. split; [reflexivity|].
      split; [apply extracts_hash; auto|]. cbn [length]. pose proof (pow2_pos (S (S k))).
      split; [lia|]. split; [cbn [Nat.pow] in *; pose proof (pow2_pos k); lia|]. split; [now apply below_nonempty | now apply nth_is_node].
Qed.
End Tree.

(** ** The bits on the wire *)

Definition byte_bits (b : Z) : list bool := map (fun i => negb (b &&& Z.shiftl 1 i =? 0)) [0; 1; 2; 3; 4; 5; 6; 7].

Lemma pack_byte_spec bits :
  (length bits <= 8)%nat ->
  is_byte (pack_byte bits 0) /\ byte_bits (pack_byte bits 0) = bits ++ repeat false (8 - length bits).
Proof.
  intros H. assert (C : (length bits <= 8)%nat) by exact H. revert C.
  do 9 (destruct bits as [|[] bits]; [intros _; split; [unfold is_byte; cbn; lia | reflexivity] | |]);
    cbn [length] in H; lia.
Qed.

Lemma pack_bits_spec n bits :
  (length bits <= 8 * n)%nat ->
  bytes_ok (pack_bits n bits) /\ length (pack_bits n bits) = n /\
  unpack_bits (pack_bits n bits) = bits ++ repeat false (8 * n - length bits).
Proof.
  revert bits; induction n as [|n IH]; intros bits H.
  - destruct bits; [|cbn in H; lia]. split; [constructor | split; reflexivity].
  - cbn [pack_bits]. destruct (pack_byte_spec (firstn 8 bits)) as [B1 B2]; [rewrite length_firstn; lia|].
    destruct (IH (skipn 8 bits)) as (I1 & I2 & I3); [rewrite length_skipn; lia|].
    split; [now constructor|]. split; [cbn [length]; now rewrite I2|].
    change (unpack_bits (?a :: ?b)) with (byte_bits a ++ unpack_bits b). rewrite B2, I3, length_firstn, length_skipn.
    destruct (Nat.le_gt_cases 8 (length bits)) as [H8|H8].
    + rewrite Nat.min_l, Nat.sub_diag by lia. cbn [repeat]. rewrite app_nil_r, app_assoc, firstn_skipn. do 2 f_equal. lia.
    + rewrite Nat.min_r, skipn_all2, firstn_all2 by lia. cbn [app]. rewrite <- app_assoc, <- repeat_app. do 2 f_equal. lia.
Qed.

Definition tree_valid (t : CPartialMerkleTree) : Prop :=
  0 <= nTransactions t < 2 ^ 32 /\ (Forall (fun h => bytes_ok h /\ length h = 32%nat) (vHash t) /\ len (vHash t) <= MAX_SIZE) /\
  len (vBits t) < 2 ^ 32.

Lemma blob_nonempty : NonEmpty (blob_codec 32) (fun h => bytes_ok h /\ length h = 32%nat).
Proof. intros a p [_ Ha] E. cbn [blob_codec Serialize] in E. some_inv. lia. Qed.

(** A tree is read back with its bits padded to whole bytes. *)
Lemma tree_roundtrip t rest :
  tree_valid t -> bytes_ok rest ->
  exists p, Serialize_tree t = Some p /\
    Unserialize_tree (p ++ rest) =
    Some (mkTree (nTransactions t) (vBits t ++ repeat false (8 * ((length (vBits t) + 7) / 8) - length (vBits t))) (vHash t) false, rest).
Proof.
  intros (Hn & Hh & Hb) Hr. pose proof (vector_codec_lawful _ 32 _ (blob_codec_lawful 32) blob_nonempty ltac:(lia)) as LV.
  set (n := ((length (vBits t) + 7) / 8)%nat).
  assert (Hn8 : (length (vBits t) <= 8 * n)%nat) by (pose proof (Nat.div_mod_eq (length (vBits t) + 7) 8); pose proof (Nat.mod_upper_bound (length (vBits t) + 7) 8 ltac:(lia)); lia).
  destruct (pack_bits_spec n (vBits t) Hn8) as (P1 & P2 & P3).
  assert (Hp : bytes_ok (pack_bits n (vBits t)) /\ len (pack_bits n (vBits t)) <= MAX_SIZE).
  { split; [exact P1|]. unfold len in *. rewrite P2. unfold MAX_SIZE. pose proof (Nat.div_mod_eq (length (vBits t) + 7) 8). fold n in H. lia. }
  destruct (ser_some (Lawful := uint_codec_lawful 4) (nTransactions t) Hn) as (p1 & E1 & O1).
  destruct (ser_some (Lawful := LV) (vHash t) Hh) as (p2 & E2 & O2).
  destruct (ser_some (Lawful := bytes_codec_lawful) _ Hp) as (p3 & E3 & O3).
  exists (p1 ++ p2 ++ p3). unfold Serialize_tree. fold n. rewrite E1, E2, E3. split; [reflexivity|].
  unfold Unserialize_tree, rbind, rret. rewrite <- !app_assoc.
  assert (O23 : bytes_ok (p3 ++ rest)) by (apply bytes_ok_app; now split).
  assert (O123 : bytes_ok (p2 ++ p3 ++ rest)) by (apply bytes_ok_app; now split).
  rewrite (ser_read (Lawful := uint_codec_lawful 4) (nTransactions t) p1 (p2 ++ p3 ++ rest) O123 Hn E1).
  rewrite (ser_read (Lawful := LV) (vHash t) p2 (p3 ++ rest) O23 Hh E2).
  rewrite (ser_read (Lawful := bytes_codec_lawful) _ p3 rest Hr Hp E3). now rewrite P3.
Qed.

(** ** Proofs that are built *)

Definition hash_ok (h : bytes) : Prop := bytes_ok h /\ length h = 32%nat.

Lemma hash_ok_hashes l : Forall hash_ok l -> hashes l.
Proof. apply Forall_impl. now intros h []. Qed.

Lemma hash_pair_ok a b : hash_ok (hash_pair a b).
Proof. rewrite hash_pair_spec. split; [apply fips_sha256_ok | apply length_fips_sha256]. Qed.

Lemma nodes_ok k l : Forall hash_ok l -> Forall hash_ok (nodes k l).
Proof.
  intros H. assert (P : forall l, Forall hash_ok (pairs_dup l)).
  { clear. induction l as [|a|a b l IH] using pair_ind; [constructor | repeat constructor; apply hash_pair_ok |].
    constructor; [apply hash_pair_ok | exact IH]. }
  destruct k; [exact H | apply P].
Qed.

(** Siblings are different when no repeated subtree is reported. *)
Lemma siblings_differ l :
  hashes l -> (1 <= length l)%nat /\ Z.of_nat (length l) <= 2 ^ 31 -> repeated l = false ->
  distinct_siblings l \/ tree_collision l l.
Proof.
  intros Hh Hn Hr.
  assert (D : forall k i, (2 * i + 1 < length (nodes k l))%nat ->
    nth (2 * i) (nodes k l) uint256_zero <> nth (2 * i + 1) (nodes k l) uint256_zero \/ tree_collision l l).
  { intros k i Hi. destruct (list_eq_dec Z.eq_dec (nth (2 * i) (nodes k l) uint256_zero) (nth (2 * i + 1) (nodes k l) uint256_zero)) as [E|E]; [right | now left].
    destruct (nodes_prefix k l) as (e & Ep & Le). pose proof (f_equal (@length bytes) Ep) as El. rewrite length_app in El.
    destruct (Nat.lt_ge_cases (2 * i + 1) (length (complete k l))) as [Hc|Hc].
    - rewrite (complete_twins l ltac:(apply Hn) k i Hc E) in Hr. discriminate.
    - replace (2 * i + 1)%nat with (length (complete k l)) in E by lia.
      destruct (incomplete_twin l l l (or_introl eq_refl) Hh ltac:(apply Hn) k (2 * i) ltac:(lia) ltac:(lia) E) as [R|C]; [congruence | exact C]. }
  destruct (forall_or (fun k => forall i, (i < length l)%nat -> (2 * i + 1 < length (nodes k l))%nat ->
    nth (2 * i) (nodes k l) uint256_zero <> nth (2 * i + 1) (nodes k l) uint256_zero) (tree_collision l l) 32) as [K|C]; [| |now right].
  { intros k _. apply forall_or. intros i _.
    destruct (Nat.lt_ge_cases (2 * i + 1) (length (nodes k l))) as [Hi|Hi]; [|left; lia]. destruct (D k i Hi); [left | right]; auto. }
  left. intros k i Hi. pose proof (height_31 l Hn) as H31.
  destruct (Nat.lt_ge_cases k 32) as [Hk|Hk].
  - apply K; auto. pose proof (pos_bound l Hn k (2 * i + 1) Hi). pose proof (pow2_pos k). nia.
  - assert (length (nodes k l) <= 1)%nat by (apply (one_node l Hn); lia). lia.
Qed.

(** The positions of the transactions that match. *)
Definition matches (vM : list bool) : list nat := filter (fun p => nth p vM false) (seq 0 (length vM)).

Lemma matched_all l vM :
  (1 <= length l)%nat -> length vM = length l -> matched l vM (merkle_height l) 0 = matches vM.
Proof.
  intros H1 Hm. destruct (height_pow l H1) as [Hp _]. unfold matched, below, matches. cbn [Nat.mul Nat.add].
  rewrite Nat.add_0_r, Nat.min_r, Nat.sub_0_r, Hm by lia. reflexivity.
Qed.

(** Extracting from a tree that was built and whose bits were padded. *)
Lemma extract_built l vM bits hs pad :
  (1 <= length l)%nat /\ Z.of_nat (length l) <= 2 ^ 31 -> length vM = length l ->
  extracts l vM (merkle_height l) 0 bits hs -> (length hs <= length bits)%nat -> (length hs <= length l)%nat ->
  (length bits + pad = 8 * ((length bits + 7) / 8))%nat ->
  ExtractMatches (mkTree (len l) (bits ++ repeat false pad) hs false) [] =
  Ok (merkle_root l, map (fun p => nth p l uint256_zero) (matches vM), map Z.of_nat (matches vM)).
Proof.
  intros Hn Hm Hx L1 L2 Hpad. unfold ExtractMatches. cbn [nTransactions vHash vBits fBad].
  assert (len l <> 0) by (unfold len; lia). destruct (Z.eqb_spec (len l) 0); [lia|].
  destruct (Z.ltb_spec (len l) (len hs)); [unfold len in *; lia|].
  destruct (Z.ltb_spec (len (bits ++ repeat false pad)) (len hs)); [rewrite len_app, len_repeat in *; unfold len in *; lia|].
  rewrite (tree_height_spec l Hn 32 0) by lia. cbn [obind].
  pose proof (Hx (mkTree (len l) (bits ++ repeat false pad) hs false) (mkExtraction 0 0 [] [] false) [] (repeat false pad) [] []) as E.
  cbn [nTransactions vHash vBits nBitsUsed nHashUsed vMatch vnIndex bad app length] in E. rewrite app_nil_r in E.
  change (Z.of_nat 0) with 0 in E. rewrite E by reflexivity. clear E. cbn [bad nBitsUsed nHashUsed vMatch vnIndex orb].
  rewrite matched_all by (lia || assumption). cbn [Nat.add]. rewrite Nat.eqb_refl, length_app, repeat_length, Hpad.
  replace ((8 * ((length bits + 7) / 8) + 7) / 8)%nat with ((length bits + 7) / 8)%nat
    by (apply (Nat.div_unique _ _ _ 7); lia).
  rewrite Nat.eqb_refl. cbn [negb orb]. unfold merkle_root. now destruct (nodes (merkle_height l) l).
Qed.

(** a Merkle proof does what it is made for. For the identifiers of a block in which no repeated
    subtree is reported, the proof for any choice of them can be built, written and read back, and
    extracting it gives the root of the block, the chosen identifiers in order and their positions,
    or two different strings hashed in the tree have the same hash. *)
Theorem partial_tree_complete (l : list bytes) (vM : list bool) (rest : bytes) :
  Forall hash_ok l -> (1 <= length l)%nat /\ Z.of_nat (length l) <= 2 ^ 31 -> length vM = length l ->
  repeated l = false -> bytes_ok rest ->
  tree_collision l l \/
  exists t p t', CPartialMerkleTree_of l vM = Ok t /\ Serialize_tree t = Some p /\
    Unserialize_tree (p ++ rest) = Some (t', rest) /\
    ExtractMatches t' [] =
    Ok (merkle_root l, map (fun p => nth p l uint256_zero) (matches vM), map Z.of_nat (matches vM)).
Proof.
  intros Hh Hn Hm Hr Hrest. destruct (siblings_differ l (hash_ok_hashes l Hh) Hn Hr) as [Hd|C]; [right | now left].
  destruct (height_pow l (proj1 Hn)) as [_ Ht]. pose proof (height_31 l Hn) as H31.
  destruct (build_spec l Hn vM Hm (merkle_height l) 0 Hd H31 ltac:(lia)) as (bits & hs & Eb & Hx & L1 & L2 & L3 & L4).
  assert (L3' : (length hs <= length l)%nat) by (unfold below in L3; rewrite length_seq in L3; lia).
  assert (Hu : u32 (len l) = len l) by (apply u32_small; unfold len; lia).
  assert (Lb : len bits < 2 ^ 32).
  { unfold len. apply Nat2Z.inj_lt in L2. rewrite pow_of_nat in L2.
    assert (2 ^ Z.of_nat (S (merkle_height l)) <= 2 ^ 32) by (apply Z.pow_le_mono_r; lia). lia. }
  assert (Hv : tree_valid (mkTree (len l) bits hs false)).
  { split; [cbn [nTransactions]; unfold len; lia|]. split; [split; cbn [vHash] | exact Lb].
    - revert L4. apply Forall_impl. intros y (k & Hy). exact (proj1 (Forall_forall _ _) (nodes_ok k l Hh) y Hy).
    - unfold len, MAX_SIZE. lia. }
  destruct (tree_roundtrip _ rest Hv Hrest) as (p & Ep & Eu). cbn [nTransactions vBits vHash] in Eu.
  exists (mkTree (len l) bits hs false), p. eexists. split; [|split; [exact Ep|split; [exact Eu|]]].
  - unfold CPartialMerkleTree_of. rewrite Hu, (tree_height_spec l Hn 32 0) by lia. cbn [obind].
    change 0 with (Z.of_nat 0). rewrite Eb. reflexivity.
  - apply extract_built; auto. pose proof (Nat.div_mod_eq (length bits + 7) 8).
    pose proof (Nat.mod_upper_bound (length bits + 7) 8 ltac:(lia)). lia.
Qed.

Definition sample_ids : list bytes := [repeat 1 32; repeat 2 32; repeat 3 32].

Lemma sample_ids_ok : Forall hash_ok sample_ids.
Proof. repeat constructor; unfold is_byte; lia. Qed.

Lemma partial_tree_complete_witness :
  tree_collision sample_ids sample_ids \/
  exists t p t', CPartialMerkleTree_of sample_ids [false; true; true] = Ok t /\ Serialize_tree t = Some p /\
    Unserialize_tree (p ++ [9]) = Some (t', [9]) /\
    ExtractMatches t' [] =
    Ok (merkle_root sample_ids, map (fun p => nth p sample_ids uint256_zero) (matches [false; true; true]),
        map Z.of_nat (matches [false; true; true])).
Proof.
  apply (partial_tree_complete sample_ids [false; true; true] [9] sample_ids_ok);
    [cbn; lia | reflexivity | vm_compute; reflexivity | now apply bytes_okb].
Defined.

(** ** Proofs that are received *)

Definition next_bit (x : extraction) : extraction :=
  mkExtraction (S (nBitsUsed x)) (nHashUsed x) (vMatch x) (vnIndex x) (bad x).

(** The strings hashed while node [pos] at [height] is extracted. *)
Fixpoint extract_strings (t : CPartialMerkleTree) (height : nat) (pos : Z) (x : extraction) : list bytes :=
  match nth_error (vBits t) (nBitsUsed x), height with
  | Some true, S h =>
      let l := TraverseAndExtract t h (u32 (pos * 2)) (next_bit x) in
      let below_left := extract_strings t h (u32 (pos * 2)) (next_bit x) in
      if u32 (pos * 2 + 1) <? CalcTreeWidth (nTransactions t) h then
        (fst l ++ fst (TraverseAndExtract t h (u32 (pos * 2 + 1)) (snd l))) ::
          below_left ++ extract_strings t h (u32 (pos * 2 + 1)) (snd l)
      else (fst l ++ fst l) :: below_left
  | _, _ => []
  end.

Lemma bad_stays t k pos x : bad (snd (TraverseAndExtract t k pos x)) = false -> bad x = false.
Proof.
  revert pos x; induction k as [|k IH]; intros pos x; cbn [TraverseAndExtract];
    destruct (nth_error (vBits t) (nBitsUsed x)) as [[]|]; cbn [nHashUsed]; try discriminate;
    try (destruct (nth_error (vHash t) (nHashUsed x)); [auto | discriminate]).
  destruct (TraverseAndExtract t k (u32 (pos * 2)) _) as [l1 x1] eqn:E1. destruct (_ <? _).
  - destruct (TraverseAndExtract t k (u32 (pos * 2 + 1)) x1) as [r2 x2] eqn:E2. cbn [snd].
    intros H. assert (H2 : bad x2 = false) by (destruct (hash_eqb r2 l1); [discriminate | exact H]).
    assert (H1 : bad x1 = false) by (apply (IH (u32 (pos * 2 + 1)) x1); now rewrite E2).
    specialize (IH (u32 (pos * 2)) (mkExtraction (S (nBitsUsed x)) (nHashUsed x) (vMatch x) (vnIndex x) (bad x))). rewrite E1 in IH. exact (IH H1).
  - cbn [snd]. intros H. specialize (IH (u32 (pos * 2)) (mkExtraction (S (nBitsUsed x)) (nHashUsed x) (vMatch x) (vnIndex x) (bad x))).
    rewrite E1 in IH. exact (IH H).
Qed.

Lemma extract_length t k pos x : hashes (vHash t) -> length (fst (TraverseAndExtract t k pos x)) = 32%nat.
Proof.
  intros Hh. destruct k as [|k]; cbn [TraverseAndExtract]; destruct (nth_error (vBits t) (nBitsUsed x)) as [[]|]; cbn [nHashUsed]; try reflexivity;
    try (destruct (nth_error (vHash t) (nHashUsed x)) eqn:E; [exact (proj1 (Forall_forall _ _) Hh _ (nth_error_In _ _ E)) | reflexivity]).
  destruct (TraverseAndExtract t k (u32 (pos * 2)) _) as [l1 x1]. destruct (_ <? _);
    [destruct (TraverseAndExtract t k (u32 (pos * 2 + 1)) x1) as [r2 x2]|]; cbn [fst]; rewrite Hash2_pair; apply length_hash_pair.
Qed.

(** What was added to the matches: leaves of the tree [l], with their positions. *)
Definition proves (l : list bytes) (x x' : extraction) : Prop :=
  exists ps, Forall (fun p => (p < length l)%nat) ps /\
    vMatch x' = vMatch x ++ map (fun p => nth p l uint256_zero) ps /\ vnIndex x' = vnIndex x ++ map Z.of_nat ps.

Lemma proves_trans l x y z : proves l x y -> proves l y z -> proves l x z.
Proof.
  intros (p & P1 & P2 & P3) (q & Q1 & Q2 & Q3). exists (p ++ q).
  split; [now apply Forall_app|]. rewrite Q2, Q3, P2, P3, !map_app, <- !app_assoc. auto.
Qed.

Definition string_collision (l : list bytes) (strings : list bytes) : Prop :=
  exists s k j, In s strings /\ dcollision s (node_string l k j).

Lemma string_collision_incl l a b : (forall s, In s a -> In s b) -> string_collision l a -> string_collision l b.
Proof. intros H (s & k & j & Hs & C). exists s, k, j. auto. Qed.

Section Sound.
Variables (l : list bytes) (t : CPartialMerkleTree).
Hypothesis Hn : (1 <= length l)%nat /\ Z.of_nat (length l) <= 2 ^ 31.
Hypothesis Ht : nTransactions t = len l.
Hypothesis Hh : hashes l.
Hypothesis Hv : hashes (vHash t).

Lemma extract_sound k i x :
  (k <= 31)%nat -> (i < length (nodes k l))%nat ->
  fst (TraverseAndExtract t k (Z.of_nat i) x) = nth i (nodes k l) uint256_zero ->
  bad (snd (TraverseAndExtract t k (Z.of_nat i) x)) = false ->
  proves l x (snd (TraverseAndExtract t k (Z.of_nat i) x)) \/ string_collision l (extract_strings t k (Z.of_nat i) x).
Proof.
  revert i x; induction k as [|k IH]; intros i x Hk Hi.
  - cbn [TraverseAndExtract]. destruct (nth_error (vBits t) (nBitsUsed x)) as [b|]; [|discriminate]. cbn [nHashUsed].
    destruct (nth_error (vHash t) (nHashUsed x)) as [y|]; [|discriminate]. cbn [fst snd nodes Nat.eqb andb] in *.
    intros Ey _. left. destruct b.
    + exists [i]. cbn [vMatch vnIndex map]. rewrite Ey. split; [now constructor | auto].
    + exists []. cbn [vMatch vnIndex map]. rewrite !app_nil_r. split; [constructor | auto].
  - cbn [TraverseAndExtract extract_strings]. destruct (nth_error (vBits t) (nBitsUsed x)) as [[]|]; [|cbn [nHashUsed]|discriminate].
    2:{ destruct (nth_error (vHash t) (nHashUsed x)) as [y|]; [|discriminate]. intros _ _. left. exists [].
        cbn [snd vMatch vnIndex map Nat.eqb andb]. rewrite !app_nil_r. split; [constructor | auto]. }
    fold (next_bit x). pose proof (left_child l Hn k i Hi) as Hl. destruct (child_pos l Hn (S k) i Hi) as [-> ->].
    rewrite Ht, (width_spec l Hn) by lia. specialize (IH (2 * i)%nat (next_bit x)) as IHl.
    pose proof (extract_length t k (Z.of_nat (2 * i)) (next_bit x) Hv) as Ll.
    destruct (TraverseAndExtract t k (Z.of_nat (2 * i)) (next_bit x)) as [l1 x1] eqn:E1. cbn [fst snd] in *.
    rewrite node_eq by exact Hi. pose proof (hashes_nth (nodes k l) (2 * i) uint256_zero (hashes_nodes k l Hh) (or_introl Hl)) as Lt.
    destruct (Z.ltb_spec (Z.of_nat (2 * i + 1)) (Z.of_nat (length (nodes k l)))) as [H1|H1].
    + specialize (IH (2 * i + 1)%nat x1) as IHr. pose proof (bad_stays t k (Z.of_nat (2 * i + 1)) x1) as Hb.
      destruct (TraverseAndExtract t k (Z.of_nat (2 * i + 1)) x1) as [r2 x2] eqn:E2. cbn [fst snd] in *.
      intros Eh Bad. assert (B2 : bad x2 = false) by (destruct (hash_eqb r2 l1); [discriminate | exact Bad]).
      replace (if hash_eqb r2 l1 then set_bad x2 else x2) with x2 by (destruct (hash_eqb r2 l1); [discriminate | reflexivity]).
      rewrite Hash2_pair in Eh. apply hash_pair_inj in Eh as [[El Er]|C]; [| |exact Ll | exact Lt].
      * destruct (IHl ltac:(lia) Hl El (Hb B2)) as [Pl|C]; [|right; revert C; apply string_collision_incl; intros s Hs; right; apply in_or_app; now left].
        rewrite (nth_indep (nodes k l) _ uint256_zero) in Er by lia.
        destruct (IHr ltac:(lia) ltac:(lia) Er B2) as [Pr|C]; [|right; revert C; apply string_collision_incl; intros s Hs; right; apply in_or_app; now right].
        left. exact (proves_trans l x x1 x2 Pl Pr).
      * right. exists (l1 ++ r2), k, i. split; [now left | exact C].
    + intros Eh Bad. cbn [fst snd] in *. rewrite Hash2_pair in Eh. apply hash_pair_inj in Eh as [[El _]|C]; [| |exact Ll | exact Lt].
      * destruct (IHl ltac:(lia) Hl El Bad) as [Pl|C]; [now left | right; revert C; apply string_collision_incl; intros s Hs; now right].
      * right. exists (l1 ++ l1), k, i. split; [now left | exact C].
Qed.
End Sound.

(** C20: a Merkle proof proves. Take a block of 1 to 2^31 transactions whose Merkle root is not zero.
    Whatever bits and hashes a peer sends, if extracting them for the number of transactions of the
    block gives the root of the block, then every identifier extracted is that of the transaction of the
    block at the position given with it, or a string hashed on the way and one hashed in the tree have
    the same hash. *)
Theorem partial_tree_sound (l : list bytes) (t : CPartialMerkleTree) (ids : list bytes) (positions : list Z) :
  hashes l -> (1 <= length l)%nat /\ Z.of_nat (length l) <= 2 ^ 31 -> hashes (vHash t) -> nTransactions t = len l ->
  merkle_root l <> uint256_zero -> ExtractMatches t [] = Ok (merkle_root l, ids, positions) ->
  (exists ps, Forall (fun p => (p < length l)%nat) ps /\
     ids = map (fun p => nth p l uint256_zero) ps /\ positions = map Z.of_nat ps) \/
  string_collision l (extract_strings t (merkle_height l) 0 (mkExtraction 0 0 [] [] (fBad t))).
Proof.
  intros Hh Hn Hv Ht Hz. unfold ExtractMatches. rewrite Ht.
  assert (E0 : forall (a : list bytes) (b : list Z), Ok (uint256_zero, a, b) = Ok (merkle_root l, ids, positions) -> False)
    by (intros a b E; injection E; congruence).
  destruct (len l =? 0); [intros E; now apply E0 in E|]. destruct (len l <? _); [intros E; now apply E0 in E|].
  destruct (_ <? _); [intros E; now apply E0 in E|]. rewrite (tree_height_spec l Hn 32 0) by lia. cbn [obind].
  destruct (height_pow l (proj1 Hn)) as [_ Hl1]. pose proof (height_31 l Hn).
  pose proof (extract_sound l t Hn Ht Hh Hv (merkle_height l) 0 (mkExtraction 0 0 [] [] (fBad t)) ltac:(lia) ltac:(lia)) as S.
  change (Z.of_nat 0) with 0 in S. destruct (TraverseAndExtract t _ 0 _) as [root x] eqn:Ex. cbn [fst snd] in S.
  destruct (bad x) eqn:Eb; cbn [orb]; [intros E; now apply E0 in E|]. destruct (negb _ || negb _); [intros E; now apply E0 in E|].
  intros E. injection E as Er Em Ei. destruct S as [(ps & P1 & P2 & P3)|C]; [| reflexivity | | now right].
  - rewrite Er. unfold merkle_root. now destruct (nodes (merkle_height l) l).
  - left. exists ps. rewrite <- Em, <- Ei. auto.
Qed.

Lemma partial_tree_sound_witness :
  (exists ps, Forall (fun p => (p < length sample_ids)%nat) ps /\
     [repeat 2 32] = map (fun p => nth p sample_ids uint256_zero) ps /\ [1] = map Z.of_nat ps) \/
  string_collision sample_ids
    (extract_strings (mkTree 3 [true; true; false; true; false] [repeat 1 32; repeat 2 32; Hash2 (repeat 3 32) (repeat 3 32)] false)
      (merkle_height sample_ids) 0 (mkExtraction 0 0 [] [] false)).
Proof.
  apply (partial_tree_sound sample_ids
    (mkTree 3 [true; true; false; true; false] [repeat 1 32; repeat 2 32; Hash2 (repeat 3 32) (repeat 3 32)] false) [repeat 2 32] [1]).
  - repeat constructor.
  - cbn; lia.
  - vm_compute. repeat constructor.
  - reflexivity.
  - intros C. vm_compute in C. discriminate.
  - vm_compute. reflexivity.
Defined.
End MerkleBlock.
