(* ===== verification/BlockIndex.v ===== *)
(** * The block index (src/src/chain.h, src/src/chain.cpp)

    [CBlockIndex] objects live in a heap, a finite map from pointers; they point to their
    predecessor and, through the skip list, to an earlier block. *)

From stdpp Require Import gmap sorting.
From S2P Require Import Prelude Endian Outcome ArithUint256 Block.
Import ArithUint256 Block.

Module BlockIndex.
Local Open Scope Z_scope.
Local Open Scope outcome_scope.
Local Open Scope word_scope.

(** ** BlockStatus *)

Module BlockValidity.
Definition UNKNOWN : Z := 0.
Definition HEADER : Z := 1.
Definition TREE : Z := 2.
Definition TRANSACTIONS : Z := 3.
Definition CHAIN : Z := 4.
Definition SCRIPTS : Z := 5.
End BlockValidity.

Definition VALIDITY_MASK : Z := 0x07.
Definition HAS_DATA_FLAG : Z := 0x08.
Definition HAS_UNDO_FLAG : Z := 0x10.
Definition FAILED_FLAG : Z := 0x20.
Definition FAILED_PARENT_FLAG : Z := 0x40.
Definition HAS_DISK_BLOCK_META_DATA_FLAG : Z := 0x80.
Definition INVALID_MASK : Z := FAILED_FLAG ||| FAILED_PARENT_FLAG.

(** [status & flag] as a condition, and [(status & ~flag) | (b ? flag : 0)] *)
Definition has (status flag : Z) : bool := negb (status &&& flag =? 0).
Definition with_flag (status flag : Z) (b : bool) : Z := (status &&& not32 flag) ||| (if b then flag else 0).

Definition getValidity (status : Z) : Z := status &&& VALIDITY_MASK.
Definition withValidity (status validity : Z) : Z := (status &&& not32 VALIDITY_MASK) ||| validity.
Definition hasData (status : Z) : bool := has status HAS_DATA_FLAG.
Definition withData (status : Z) (b : bool) : Z := with_flag status HAS_DATA_FLAG b.
Definition hasUndo (status : Z) : bool := has status HAS_UNDO_FLAG.
Definition withUndo (status : Z) (b : bool) : Z := with_flag status HAS_UNDO_FLAG b.
Definition hasFailed (status : Z) : bool := has status FAILED_FLAG.
Definition withFailed (status : Z) (b : bool) : Z := with_flag status FAILED_FLAG b.
Definition hasDiskBlockMetaData (status : Z) : bool := has status HAS_DISK_BLOCK_META_DATA_FLAG.
Definition withDiskBlockMetaData (status : Z) (b : bool) : Z := with_flag status HAS_DISK_BLOCK_META_DATA_FLAG b.
Definition hasFailedParent (status : Z) : bool := has status FAILED_PARENT_FLAG.
Definition withFailedParent (status : Z) (b : bool) : Z := with_flag status FAILED_PARENT_FLAG b.
Definition isInvalid (status : Z) : bool := has status INVALID_MASK.
Definition isValid (status nUpTo : Z) : bool := if isInvalid status then false else nUpTo <=? getValidity status.
Definition withClearedFailureFlags (status : Z) : Z := status &&& not32 INVALID_MASK.

(** ** CBlockIndex *)

Abbreviation ptr := positive.

Record CDiskBlockMetaData : Type := mkMetaData { diskDataHash : bytes; diskDataSize : Z }.
Definition CDiskBlockMetaData_new : CDiskBlockMetaData := mkMetaData (repeat 0 32) 0.

(** [phashBlock] is the hash it points to. [SteadyClockTimePoint] is a count of ticks. *)
Record CBlockIndex : Type := mkIndex {
  phashBlock : option bytes;
  pprev : option ptr;
  pskip : option ptr;
  nHeight : Z;
  nFile : Z;
  nDataPos : Z;
  nUndoPos : Z;
  nChainWork : base_uint;
  nTx : Z;
  nChainTx : Z;
  nStatus : Z;
  nVersion : Z;
  hashMerkleRoot : bytes;
  nTime : Z;
  nBits : Z;
  nNonce : Z;
  nSequenceId : Z;
  nTimeReceived : Z;
  nTimeMax : Z;
  mDiskBlockMetaData : CDiskBlockMetaData;
  mValidationCompletionTime : Z
}.

Definition TimePoint_max : Z := 2 ^ 63 - 1.
Definition TimePoint_min : Z := - 2 ^ 63.

(** The constructor from a header; the other members are set by [SetNull]. *)
Definition CBlockIndex_of (block : CBlockHeader) : CBlockIndex :=
  mkIndex None None None 0 0 0 0 zero 0 0 0 (hdr_nVersion block) (hdr_hashMerkleRoot block) (hdr_nTime block)
    (hdr_nBits block) (hdr_nNonce block) 0 (hdr_nTime block) 0 CDiskBlockMetaData_new TimePoint_max.

(** Assignments to members. *)
Definition set_links (b : CBlockIndex) (prev skip : option ptr) (height : Z) : CBlockIndex :=
  mkIndex (phashBlock b) prev skip height (nFile b) (nDataPos b) (nUndoPos b) (nChainWork b) (nTx b) (nChainTx b)
    (nStatus b) (nVersion b) (hashMerkleRoot b) (nTime b) (nBits b) (nNonce b) (nSequenceId b) (nTimeReceived b)
    (nTimeMax b) (mDiskBlockMetaData b) (mValidationCompletionTime b).
Definition set_hash (b : CBlockIndex) (hash : option bytes) : CBlockIndex :=
  mkIndex hash (pprev b) (pskip b) (nHeight b) (nFile b) (nDataPos b) (nUndoPos b) (nChainWork b) (nTx b) (nChainTx b)
    (nStatus b) (nVersion b) (hashMerkleRoot b) (nTime b) (nBits b) (nNonce b) (nSequenceId b) (nTimeReceived b)
    (nTimeMax b) (mDiskBlockMetaData b) (mValidationCompletionTime b).
Definition set_work (b : CBlockIndex) (work : base_uint) : CBlockIndex :=
  mkIndex (phashBlock b) (pprev b) (pskip b) (nHeight b) (nFile b) (nDataPos b) (nUndoPos b) work (nTx b) (nChainTx b)
    (nStatus b) (nVersion b) (hashMerkleRoot b) (nTime b) (nBits b) (nNonce b) (nSequenceId b) (nTimeReceived b)
    (nTimeMax b) (mDiskBlockMetaData b) (mValidationCompletionTime b).
Definition set_status (b : CBlockIndex) (status : Z) : CBlockIndex :=
  mkIndex (phashBlock b) (pprev b) (pskip b) (nHeight b) (nFile b) (nDataPos b) (nUndoPos b) (nChainWork b) (nTx b) (nChainTx b)
    status (nVersion b) (hashMerkleRoot b) (nTime b) (nBits b) (nNonce b) (nSequenceId b) (nTimeReceived b)
    (nTimeMax b) (mDiskBlockMetaData b) (mValidationCompletionTime b).
Definition set_times (b : CBlockIndex) (received timeMax : Z) : CBlockIndex :=
  mkIndex (phashBlock b) (pprev b) (pskip b) (nHeight b) (nFile b) (nDataPos b) (nUndoPos b) (nChainWork b) (nTx b) (nChainTx b)
    (nStatus b) (nVersion b) (hashMerkleRoot b) (nTime b) (nBits b) (nNonce b) (nSequenceId b) received
    timeMax (mDiskBlockMetaData b) (mValidationCompletionTime b).
Definition set_sequence (b : CBlockIndex) (chainTx sequence : Z) : CBlockIndex :=
  mkIndex (phashBlock b) (pprev b) (pskip b) (nHeight b) (nFile b) (nDataPos b) (nUndoPos b) (nChainWork b) (nTx b) chainTx
    (nStatus b) (nVersion b) (hashMerkleRoot b) (nTime b) (nBits b) (nNonce b) sequence (nTimeReceived b)
    (nTimeMax b) (mDiskBlockMetaData b) (mValidationCompletionTime b).
Definition set_file (b : CBlockIndex) (tx chainTx file dataPos undoPos : Z) (meta : CDiskBlockMetaData) : CBlockIndex :=
  mkIndex (phashBlock b) (pprev b) (pskip b) (nHeight b) file dataPos undoPos (nChainWork b) tx chainTx
    (nStatus b) (nVersion b) (hashMerkleRoot b) (nTime b) (nBits b) (nNonce b) (nSequenceId b) (nTimeReceived b)
    (nTimeMax b) meta (mValidationCompletionTime b).
Definition set_validation_time (b : CBlockIndex) (time : Z) : CBlockIndex :=
  mkIndex (phashBlock b) (pprev b) (pskip b) (nHeight b) (nFile b) (nDataPos b) (nUndoPos b) (nChainWork b) (nTx b) (nChainTx b)
    (nStatus b) (nVersion b) (hashMerkleRoot b) (nTime b) (nBits b) (nNonce b) (nSequenceId b) (nTimeReceived b)
    (nTimeMax b) (mDiskBlockMetaData b) time.

Abbreviation heap := (gmap ptr CBlockIndex).

(** [*p]; reading through a pointer to nothing is undefined. *)
Definition deref (h : heap) (p : ptr) : outcome CBlockIndex := or_abort (h !! p).

Definition GetBlockTime (b : CBlockIndex) : Z := nTime b.
Definition GetBlockTimeMax (b : CBlockIndex) : Z := nTimeMax b.

(** ** The skip list *)

Definition InvertLowestOne (n : Z) : Z := n &&& (n - 1).

Definition GetSkipHeight (height : Z) : Z :=
  if height <? 2 then 0
  else if negb (height &&& 1 =? 0) then InvertLowestOne (InvertLowestOne (height - 1)) + 1
  else InvertLowestOne height.

(** [while (heightWalk > height)]: every round goes to a lower height, so the difference of the
    heights bounds the rounds. *)
Fixpoint ancestor_walk (fuel : nat) (h : heap) (pindexWalk : ptr) (heightWalk height : Z) : outcome ptr :=
  if heightWalk <=? height then Ok pindexWalk
  else
    match fuel with
    | O => Abort
    | S fuel =>
        let* b := deref h pindexWalk in
        let heightSkip := GetSkipHeight heightWalk in
        let heightSkipPrev := GetSkipHeight (heightWalk - 1) in
        let follow :=
          (heightSkip =? height) ||
          ((height <? heightSkip) && negb ((heightSkipPrev <? heightSkip - 2) && (height <=? heightSkipPrev))) in
        match pskip b with
        | Some skip =>
            if follow then ancestor_walk fuel h skip heightSkip height
            else let* prev := or_abort (pprev b) in ancestor_walk fuel h prev (heightWalk - 1) height
        | None => let* prev := or_abort (pprev b) in ancestor_walk fuel h prev (heightWalk - 1) height
        end
    end.

Definition GetAncestor (h : heap) (this : ptr) (height : Z) : outcome (option ptr) :=
  let* b := deref h this in
  if (nHeight b <? height) || (height <? 0) then Ok None
  else let* q := ancestor_walk (Z.to_nat (nHeight b - height)) h this (nHeight b) height in Ok (Some q).

(** The value [BuildSkip] gives [pskip]. *)
Definition BuildSkip (h : heap) (prev skip : option ptr) (height : Z) : outcome (option ptr) :=
  match prev with
  | Some prev => GetAncestor h prev (GetSkipHeight height)
  | None => Ok skip
  end.

(** ** Work *)

Definition GetBlockProof (bits : Z) : outcome base_uint :=
  let '(bnTarget, fNegative, fOverflow) := SetCompact bits in
  if fNegative || fOverflow || EqualTo bnTarget 0 then Ok zero
  else let* q := div (bnot bnTarget) (add bnTarget (of_u64 1)) in Ok (add q (of_u64 1)).

(** The value [SetChainWork] gives [nChainWork]. *)
Definition chain_work (h : heap) (b : CBlockIndex) : outcome base_uint :=
  let* prev := match pprev b with Some q => let* c := deref h q in Ok (nChainWork c) | None => Ok zero end in
  let* proof := GetBlockProof (nBits b) in
  Ok (add prev proof).

(** ** Median time *)

Definition nMedianTimeSpan : nat := 11.

(** [for (int i{}; i < nMedianTimeSpan && pindex; i++, pindex = pindex->pprev)] *)
Fixpoint block_times (n : nat) (h : heap) (pindex : option ptr) : outcome (list Z) :=
  match n, pindex with
  | S n, Some p =>
      let* b := deref h p in
      let* l := block_times n h (pprev b) in
      Ok (GetBlockTime b :: l)
  | _, _ => Ok []
  end.

(** [std::nth_element] puts at position [n] the element that would be there if the range were
    sorted. *)
Definition nth_element (l : list Z) (n : nat) : outcome Z := or_abort (nth_error (merge_sort Z.le l) n).

Definition GetMedianTimePast (h : heap) (this : ptr) : outcome Z :=
  let* l := block_times nMedianTimeSpan h (Some this) in
  nth_element l (length l / 2).

(** ** Validity *)

(** [RaiseValidity] at the time [now]: whether the validity changed, and the entry. *)
Definition RaiseValidity (now : Z) (b : CBlockIndex) (nUpTo : Z) : bool * CBlockIndex :=
  if isInvalid (nStatus b) then (false, b)
  else if nUpTo <=? getValidity (nStatus b) then (false, b)
  else
    let b :=
      if (nUpTo =? BlockValidity.SCRIPTS) && (mValidationCompletionTime b =? TimePoint_max)
      then set_validation_time b now else b in
    (true, set_status b (withValidity (nStatus b) nUpTo)).

(** ** The tree of blocks *)

(** The block [k] steps back along [pprev]. *)
Fixpoint up (h : heap) (k : nat) (p : ptr) : option ptr :=
  match k with
  | O => Some p
  | S k => b ← h !! p; q ← pprev b; up h k q
  end.

(** The blocks form trees: a block is one higher than its predecessor, a block without one is at
    height 0, and the skip pointer, when set, leads to the ancestor at the skip height. *)
Record tree_ok (h : heap) : Prop := {
  ok_prev p b q : h !! p = Some b -> pprev b = Some q -> exists c, h !! q = Some c /\ nHeight b = nHeight c + 1;
  ok_root p b : h !! p = Some b -> pprev b = None -> nHeight b = 0;
  ok_height p b : h !! p = Some b -> 0 <= nHeight b;
  ok_skip p b q : h !! p = Some b -> pskip b = Some q ->
    1 <= nHeight b /\ up h (Z.to_nat (nHeight b - GetSkipHeight (nHeight b))) p = Some q
}.

Lemma up_S (h : heap) (k : nat) (p q : ptr) (b : CBlockIndex) :
  h !! p = Some b -> pprev b = Some q -> up h (S k) p = up h k q.
Proof. intros E F. cbn [up]. rewrite E. cbn. now rewrite F. Qed.

Lemma up_add (h : heap) (j k : nat) (p q : ptr) : up h j p = Some q -> up h (j + k) p = up h k q.
Proof.
  revert p. induction j as [|j IH]; intros p E; [now injection E as ->|].
  cbn [up Nat.add] in *. destruct (h !! p) as [b|]; [|discriminate]. cbn in *.
  destruct (pprev b) as [r|]; [|discriminate]. cbn in *. now apply IH.
Qed.

Section Tree.
Context (h : heap) (T : tree_ok h).

Lemma up_height (k : nat) : forall p q b, h !! p = Some b -> up h k p = Some q ->
  exists c, h !! q = Some c /\ nHeight c = nHeight b - Z.of_nat k.
Proof.
  induction k as [|k IH]; intros p q b E U.
  - injection U as <-. exists b. split; [exact E | lia].
  - cbn [up] in U. rewrite E in U. cbn in U. destruct (pprev b) as [r|] eqn:F; [|discriminate]. cbn in U.
    destruct (ok_prev h T p b r E F) as (c & Ec & Hc). destruct (IH r q c Ec U) as (d & Ed & Hd).
    exists d. split; [exact Ed | lia].
Qed.

Lemma up_exists (k : nat) : forall p b, h !! p = Some b -> Z.of_nat k <= nHeight b -> exists q, up h k p = Some q.
Proof.
  induction k as [|k IH]; intros p b E L; [now exists p|].
  destruct (pprev b) as [r|] eqn:F; [|pose proof (ok_root h T p b E F); lia].
  destruct (ok_prev h T p b r E F) as (c & Ec & Hc). destruct (IH r c Ec ltac:(lia)) as (q & U).
  exists q. now rewrite (up_S h k p r b E F).
Qed.
End Tree.

(** ** The skip list leads to the ancestor *)

Lemma InvertLowestOne_bound (n : Z) : 1 <= n -> 0 <= InvertLowestOne n <= n - 1.
Proof.
  intros H. unfold InvertLowestOne. split; [apply Z.land_nonneg; lia|].
  assert (N : 0 <= Z.ldiff (n - 1) n) by (apply Z.ldiff_nonneg; lia).
  assert (L : Z.land n (n - 1) = n - 1 - Z.ldiff (n - 1) n).
  { rewrite Z.land_comm. rewrite (Z.sub_nocarry_ldiff (n - 1) (Z.ldiff (n - 1) n)).
    - apply Z.bits_inj'. intros i Hi. rewrite !Z.land_spec, !Z.ldiff_spec.
      now destruct (Z.testbit (n - 1) i), (Z.testbit n i).
    - apply Z.bits_inj'. intros i Hi. rewrite !Z.ldiff_spec, Z.bits_0.
      now destruct (Z.testbit (n - 1) i), (Z.testbit n i). }
  lia.
Qed.

Lemma GetSkipHeight_bound (n : Z) : 1 <= n -> 0 <= GetSkipHeight n < n.
Proof.
  intros H. unfold GetSkipHeight. destruct (Z.ltb_spec n 2); [lia|]. destruct (negb _).
  - pose proof (InvertLowestOne_bound (n - 1) ltac:(lia)) as B.
    assert (C : InvertLowestOne (InvertLowestOne (n - 1)) <= InvertLowestOne (n - 1) /\ 0 <= InvertLowestOne (InvertLowestOne (n - 1))).
    { destruct (Z.eq_dec (InvertLowestOne (n - 1)) 0) as [->|N]; [now cbn|].
      pose proof (InvertLowestOne_bound (InvertLowestOne (n - 1)) ltac:(lia)). lia. }
    lia.
  - pose proof (InvertLowestOne_bound n ltac:(lia)). lia.
Qed.

Section Ancestor.
Context (h : heap) (T : tree_ok h).

Lemma ancestor_walk_spec (fuel : nat) : forall p b height,
  h !! p = Some b -> 0 <= height <= nHeight b -> (Z.to_nat (nHeight b - height) <= fuel)%nat ->
  exists q, ancestor_walk fuel h p (nHeight b) height = Ok q /\ up h (Z.to_nat (nHeight b - height)) p = Some q.
Proof.
  induction fuel as [|fuel IH]; intros p b height E H F; cbn [ancestor_walk];
    (destruct (Z.leb_spec (nHeight b) height) as [L|L];
      [exists p; split; [reflexivity|]; now replace (Z.to_nat (nHeight b - height)) with 0%nat by lia|]); [lia|].
  unfold deref. rewrite E. cbn [or_abort obind].
  assert (Prev : exists q, (let* prev := or_abort (pprev b) in ancestor_walk fuel h prev (nHeight b - 1) height) = Ok q /\
                           up h (Z.to_nat (nHeight b - height)) p = Some q).
  { destruct (pprev b) as [r|] eqn:R; [|pose proof (ok_root h T p b E R); lia].
    destruct (ok_prev h T p b r E R) as (c & Ec & Hc). destruct (IH r c height Ec ltac:(lia) ltac:(lia)) as (q & W & U).
    exists q. cbn [or_abort obind]. replace (nHeight b - 1) with (nHeight c) by lia. split; [exact W|].
    replace (Z.to_nat (nHeight b - height)) with (S (Z.to_nat (nHeight c - height))) by lia. now rewrite (up_S h _ p r b E R). }
  destruct (pskip b) as [s|] eqn:S; [|exact Prev].
  destruct (_ || _) eqn:Fol; [|exact Prev].
  destruct (ok_skip h T p b s E S) as [H1 U1]. pose proof (GetSkipHeight_bound (nHeight b) H1) as G.
  assert (G2 : height <= GetSkipHeight (nHeight b)).
  { apply orb_true_iff in Fol as [Fol|Fol]; [apply Z.eqb_eq in Fol; lia|].
    apply andb_true_iff in Fol as [Fol _]. apply Z.ltb_lt in Fol. lia. }
  destruct (up_height h T _ p s b E U1) as (c & Ec & Hc). rewrite Z2Nat.id in Hc by lia.
  replace (GetSkipHeight (nHeight b)) with (nHeight c) in * by lia.
  destruct (IH s c height Ec ltac:(lia) ltac:(lia)) as (q & W & U). exists q. split; [exact W|].
  replace (Z.to_nat (nHeight b - height)) with (Z.to_nat (nHeight b - nHeight c) + Z.to_nat (nHeight c - height))%nat by lia.
  now rewrite (up_add h _ _ p s U1).
Qed.

Lemma GetAncestor_spec (p : ptr) (b : CBlockIndex) (height : Z) : h !! p = Some b ->
  GetAncestor h p height =
    Ok (if (0 <=? height) && (height <=? nHeight b) then up h (Z.to_nat (nHeight b - height)) p else None).
Proof.
  intros E. unfold GetAncestor, deref. rewrite E. cbn [or_abort obind].
  destruct (Z.ltb_spec (nHeight b) height), (Z.ltb_spec height 0), (Z.leb_spec 0 height), (Z.leb_spec height (nHeight b));
    try lia; try reflexivity; cbn [orb andb].
  destruct (ancestor_walk_spec _ p b height E ltac:(lia) (Nat.le_refl _)) as (q & W & U). rewrite W, U. reflexivity.
Qed.
End Ancestor.

(** ** The work of a block *)

(** The target that the compact form stands for, and whether the form is usable: positive, not
    zero and within 256 bits. *)
Definition mantissa (bits : Z) : Z :=
  if bits / 2 ^ 24 <=? 3 then bits mod 2 ^ 23 / 256 ^ (3 - bits / 2 ^ 24) else bits mod 2 ^ 23.
Definition target (bits : Z) : Z := if bits / 2 ^ 24 <=? 3 then mantissa bits else mantissa bits * 256 ^ (bits / 2 ^ 24 - 3).
Definition negative (bits : Z) : bool := negb (mantissa bits =? 0) && Z.testbit bits 23.
Definition usable (bits : Z) : bool := negb (negative bits) && negb (2 ^ 256 <=? target bits) && negb (target bits =? 0).

Lemma compact_decompose (c : Z) : 0 <= c < 2 ^ 32 -> c = compact (c / 2 ^ 24) (c mod 2 ^ 23) (Z.testbit c 23).
Proof.
  intros H. unfold compact. rewrite Z.testbit_eqb by lia.
  pose proof (Z.div_mod c (2 ^ 23) ltac:(lia)) as D. pose proof (Z.div_mod (c / 2 ^ 23) 2 ltac:(lia)) as E.
  rewrite Z.div_div in E by lia. change (2 ^ 23 * 2) with (2 ^ 24) in E.
  pose proof (Z.mod_pos_bound (c / 2 ^ 23) 2 ltac:(lia)).
  destruct (Z.eqb_spec ((c / 2 ^ 23) mod 2) 1); lia.
Qed.

Lemma target_nonneg (c : Z) : 0 <= c -> 0 <= target c.
Proof.
  intros H. unfold target, mantissa. pose proof (Z.mod_pos_bound c (2 ^ 23) ltac:(lia)).
  destruct (Z.leb_spec (c / 2 ^ 24) 3).
  - apply Z.div_pos; [lia|]. apply Z.pow_pos_nonneg; lia.
  - apply Z.mul_nonneg_nonneg; [lia|]. apply Z.pow_nonneg. lia.
Qed.

Lemma SetCompact_spec (c : Z) : 0 <= c < 2 ^ 32 ->
  exists y, uint_ok y /\ val y = target c mod 2 ^ 256 /\ SetCompact c = (y, negative c, 2 ^ 256 <=? target c).
Proof.
  intros H. assert (Hs : 0 <= c / 2 ^ 24 < 256) by (split; [apply Z.div_pos | apply Z.div_lt_upper_bound]; lia).
  pose proof (Z.mod_pos_bound c (2 ^ 23) ltac:(lia)) as Hm.
  destruct (SetCompact_fields (c / 2 ^ 24) (c mod 2 ^ 23) (Z.testbit c 23) Hs Hm) as (y & Oy & Vy & E).
  rewrite <- compact_decompose in E by exact H. exists y. split; [exact Oy|].
  unfold target, negative, mantissa. destruct (c / 2 ^ 24 <=? 3); now split.
Qed.

(** A target in compact form is never the largest number of 256 bits. *)
Lemma target_not_max (c : Z) : 0 <= c < 2 ^ 32 -> target c <> 2 ^ 256 - 1.
Proof.
  intros H. unfold target, mantissa. pose proof (Z.mod_pos_bound c (2 ^ 23) ltac:(lia)) as Hm.
  destruct (Z.leb_spec (c / 2 ^ 24) 3) as [L|L].
  - assert (0 < 256 ^ (3 - c / 2 ^ 24)) by (apply Z.pow_pos_nonneg; lia).
    pose proof (Z.div_le_upper_bound (c mod 2 ^ 23) (256 ^ (3 - c / 2 ^ 24)) (2 ^ 23) ltac:(lia) ltac:(nia)). lia.
  - replace (c / 2 ^ 24 - 3) with (Z.succ (c / 2 ^ 24 - 4)) by lia. rewrite Z.pow_succ_r by lia.
    intros E. apply (f_equal (fun x => x mod 2)) in E.
    replace (c mod 2 ^ 23 * (256 * 256 ^ (c / 2 ^ 24 - 4))) with (128 * (c mod 2 ^ 23) * 256 ^ (c / 2 ^ 24 - 4) * 2) in E by ring.
    rewrite Z_mod_mult in E. discriminate.
Qed.

Lemma EqualTo_zero (a : base_uint) : uint_ok a -> EqualTo a 0 = (val a =? 0).
Proof.
  intros [L Wa]. do 9 (destruct a as [|? a]; try discriminate). unfold EqualTo. cbn [nth forallb].
  unfold words in Wa. repeat match goal with H : Forall _ (_ :: _) |- _ => inversion H; clear H; subst end.
  unfold word in *. cbn [val]. change (0 >>> 32) with 0. change (0 &&& 0xffffffff) with 0.
  repeat match goal with |- context [?z =? 0] => match z with _ + _ => fail 1 | _ => is_var z; destruct (Z.eqb_spec z 0) end end;
    cbn [andb]; symmetry; (apply Z.eqb_neq || apply Z.eqb_eq); lia.
Qed.

Lemma zero_spec : uint_ok zero /\ val zero = 0.
Proof. split; [apply zero_ok | reflexivity]. Qed.

Lemma GetBlockProof_spec (c : Z) : 0 <= c < 2 ^ 32 ->
  exists w, GetBlockProof c = Ok w /\ uint_ok w /\ val w = (if usable c then 2 ^ 256 / (target c + 1) else 0).
Proof.
  intros H. destruct (SetCompact_spec c H) as (y & Oy & Vy & E). pose proof (target_nonneg c ltac:(lia)) as Tn.
  unfold GetBlockProof. rewrite E, EqualTo_zero, Vy by exact Oy.
  unfold usable. destruct (negative c); cbn [orb negb andb]; [exists zero; split; [reflexivity | exact zero_spec]|].
  destruct (Z.leb_spec (2 ^ 256) (target c)) as [L|L]; cbn [orb negb andb]; [exists zero; split; [reflexivity | exact zero_spec]|].
  rewrite Z.mod_small in * by lia.
  destruct (Z.eqb_spec (target c) 0) as [N|N]; cbn [negb]; [exists zero; split; [reflexivity | exact zero_spec]|].
  pose proof (target_not_max c H) as Hmax. destruct (of_u64_spec 1 ltac:(lia)) as [O1 V1].
  destruct (bnot_spec y Oy) as [On Vn]. destruct (add_spec y (of_u64 1) Oy O1) as [Oa Va].
  rewrite V1, Vy, Z.mod_small in Va by lia. pose proof (div_spec _ _ On Oa) as D. rewrite Va, Vn, Vy in D.
  destruct (Z.eqb_spec (target c + 1) 0); [lia|]. destruct D as (q & -> & Oq & Vq). cbn [obind].
  destruct (add_spec q (of_u64 1) Oq O1) as [Or Vr]. exists (add q (of_u64 1)). split; [reflexivity|]. split; [exact Or|].
  rewrite Vr, V1, Vq. replace (2 ^ 256 / (target c + 1)) with ((2 ^ 256 - 1 - target c) / (target c + 1) + 1).
  - apply Z.mod_small. split; [apply Z.add_nonneg_nonneg; [apply Z.div_pos|]; lia|].
    apply Z.add_lt_mono_r with (p := -1). rewrite <- Z.add_assoc, Z.add_0_r. apply Z.div_lt_upper_bound; nia.
  - rewrite <- Z.div_add by lia. f_equal. ring.
Qed.

(** ** Adding a block to the tree *)

(** The part of the entries the tree depends on. *)
Definition links (h : heap) : gmap ptr (option ptr * option ptr * Z) := (fun b => (pprev b, pskip b, nHeight b)) <$> h.

Lemma links_lookup (h h' : heap) (p : ptr) (b : CBlockIndex) : links h = links h' -> h !! p = Some b ->
  exists c, h' !! p = Some c /\ pprev c = pprev b /\ pskip c = pskip b /\ nHeight c = nHeight b.
Proof.
  intros E L. apply (f_equal (fun m => m !! p)) in E. unfold links in E. rewrite !lookup_fmap, L in E. cbn in E.
  destruct (h' !! p) as [c|]; [|discriminate]. cbn in E. injection E as E1 E2 E3. now exists c.
Qed.

Lemma up_links (h h' : heap) (k : nat) : links h = links h' -> forall p, up h k p = up h' k p.
Proof.
  intros E. induction k as [|k IH]; intros p; [reflexivity|]. cbn [up].
  destruct (h !! p) as [b|] eqn:L.
  - destruct (links_lookup h h' p b E L) as (c & -> & E1 & _). cbn. rewrite E1. destruct (pprev b); [apply IH | reflexivity].
  - destruct (h' !! p) as [c|] eqn:L'; [|reflexivity].
    destruct (links_lookup h' h p c (eq_sym E) L') as (d & D & _). congruence.
Qed.

Lemma tree_ok_links (h h' : heap) : links h = links h' -> tree_ok h -> tree_ok h'.
Proof.
  intros E T. symmetry in E. constructor.
  - intros p b q L P. destruct (links_lookup h' h p b E L) as (c & Lc & E1 & E2 & E3).
    destruct (ok_prev h T p c q Lc ltac:(congruence)) as (d & Ld & Hd).
    destruct (links_lookup h h' q d (eq_sym E) Ld) as (e & Le & _ & _ & He). exists e. split; [exact Le | lia].
  - intros p b L P. destruct (links_lookup h' h p b E L) as (c & Lc & E1 & _ & E3).
    rewrite <- E3. apply (ok_root h T p c Lc). congruence.
  - intros p b L. destruct (links_lookup h' h p b E L) as (c & Lc & _ & _ & E3). rewrite <- E3. exact (ok_height h T p c Lc).
  - intros p b q L P. destruct (links_lookup h' h p b E L) as (c & Lc & _ & E2 & E3).
    rewrite <- E3, (up_links h' h _ E). apply (ok_skip h T p c q Lc). congruence.
Qed.

Lemma up_mono (h h' : heap) (k : nat) : h ⊆ h' -> forall p q, up h k p = Some q -> up h' k p = Some q.
Proof.
  intros S. induction k as [|k IH]; intros p q U; [exact U|]. cbn [up] in *.
  destruct (h !! p) as [b|] eqn:L; [|discriminate]. rewrite (lookup_weaken h h' p b L S). cbn in *.
  destruct (pprev b); [now apply IH | discriminate].
Qed.

(** A new block with the links [BuildSkip] gives it. *)
Definition attached (h : heap) (b : CBlockIndex) : Prop :=
  match pprev b with
  | None => nHeight b = 0 /\ pskip b = None
  | Some q => exists c, h !! q = Some c /\ nHeight b = nHeight c + 1 /\ BuildSkip h (Some q) None (nHeight b) = Ok (pskip b)
  end.

Lemma tree_ok_insert (h : heap) (p : ptr) (b : CBlockIndex) :
  tree_ok h -> h !! p = None -> attached h b -> tree_ok (<[p := b]> h).
Proof.
  intros T Fr A. pose proof (insert_subseteq h p b Fr) as Sub. unfold attached in A.
  constructor; intros x c.
  - intros q L P. destruct (decide (x = p)) as [->|N].
    + rewrite lookup_insert_eq in L. injection L as <-. rewrite P in A. destruct A as (d & Ld & Hd & _).
      exists d. split; [exact (lookup_weaken h _ q d Ld Sub) | exact Hd].
    + rewrite lookup_insert_ne in L by congruence. destruct (ok_prev h T x c q L P) as (d & Ld & Hd).
      exists d. split; [exact (lookup_weaken h _ q d Ld Sub) | exact Hd].
  - intros L P. destruct (decide (x = p)) as [->|N].
    + rewrite lookup_insert_eq in L. injection L as <-. rewrite P in A. tauto.
    + rewrite lookup_insert_ne in L by congruence. exact (ok_root h T x c L P).
  - intros L. destruct (decide (x = p)) as [->|N].
    + rewrite lookup_insert_eq in L. injection L as <-. destruct (pprev b) as [q|]; [|lia].
      destruct A as (d & Ld & Hd & _). pose proof (ok_height h T q d Ld). lia.
    + rewrite lookup_insert_ne in L by congruence. exact (ok_height h T x c L).
  - intros q L P. destruct (decide (x = p)) as [->|N].
    + rewrite lookup_insert_eq in L. injection L as <-. destruct (pprev b) as [r|] eqn:R; [|destruct A; congruence].
      destruct A as (d & Ld & Hd & B). pose proof (ok_height h T r d Ld) as Hr. split; [lia|].
      pose proof (GetSkipHeight_bound (nHeight b) ltac:(lia)) as G. cbn [BuildSkip] in B.
      rewrite (GetAncestor_spec h T r d _ Ld) in B. destruct (Z.leb_spec 0 (GetSkipHeight (nHeight b))); [|lia].
      destruct (Z.leb_spec (GetSkipHeight (nHeight b)) (nHeight d)); [|lia]. cbn [andb] in B. injection B as B. rewrite P in B.
      replace (Z.to_nat (nHeight b - _)) with (S (Z.to_nat (nHeight d - GetSkipHeight (nHeight b)))) by lia.
      rewrite (up_S _ _ p r b (lookup_insert_eq h p b) R). exact (up_mono h _ _ Sub r q B).
    + rewrite lookup_insert_ne in L by congruence. destruct (ok_skip h T x c q L P) as [H1 U].
      split; [exact H1|]. exact (up_mono h _ _ Sub x q U).
Qed.

(** ** The median *)

Definition below (m : Z) (l : list Z) : nat := length (List.filter (fun x => x <? m) l).

Lemma below_perm (m : Z) (l l' : list Z) : Permutation l l' -> below m l = below m l'.
Proof.
  unfold below. induction 1 as [|x l l' _ IH|x y l|l l' l'' _ IH1 _ IH2]; cbn [List.filter]; [reflexivity| | |congruence].
  - destruct (x <? m); cbn [length]; lia.
  - now destruct (x <? m), (y <? m).
Qed.

(** In a sorted list the element at position [i] is at least [m] exactly when at most [i] elements are below [m]. *)
Lemma sorted_below (m : Z) (l : list Z) : StronglySorted Z.le l ->
  forall i v, nth_error l i = Some v -> (m <= v <-> (below m l <= i)%nat).
Proof.
  unfold below. induction 1 as [|x l Hs IH Hf]; intros i v E; [now destruct i|]. cbn [List.filter].
  assert (Z0 : m <= x -> List.filter (fun y => y <? m) l = []).
  { intros Hx. clear -Hf Hx. induction Hf as [|y l Hy Hf IH]; cbn [List.filter]; [reflexivity|].
    destruct (Z.ltb_spec y m); [lia | exact IH]. }
  destruct i as [|i]; cbn [nth_error] in E.
  - injection E as ->. destruct (Z.ltb_spec v m); cbn [length]; [lia|]. rewrite Z0 by lia. cbn [length]. lia.
  - destruct (Z.ltb_spec x m); cbn [length]; [rewrite (IH i v E); lia|]. rewrite Z0 by lia.
    apply nth_error_In in E. rewrite Stdlib.Lists.List.Forall_forall in Hf. specialize (Hf v E). cbn [length]. lia.
Qed.

Lemma nth_element_spec (l : list Z) (i : nat) : (i < length l)%nat ->
  exists v, nth_element l i = Ok v /\ In v l /\ forall m, m <= v <-> (below m l <= i)%nat.
Proof.
  intros H. pose proof (merge_sort_Permutation Z.le l) as P.
  assert (S : StronglySorted Z.le (merge_sort Z.le l)) by (apply StronglySorted_merge_sort; intros x y; lia).
  unfold nth_element. destruct (nth_error (merge_sort Z.le l) i) as [v|] eqn:E.
  - exists v. split; [reflexivity|]. split.
    + apply (Permutation_in v P). now apply nth_error_In with i.
    + intros m. rewrite (sorted_below m _ S i v E). now rewrite (below_perm m _ _ P).
  - apply nth_error_None in E. rewrite (Permutation_length P) in E. lia.
Qed.

Section Median.
Context (h : heap) (T : tree_ok h).

(** [l] holds the times of the block [p] and the blocks before it. *)
Definition times_of (p : ptr) (l : list Z) : Prop :=
  forall i t, nth_error l i = Some t -> exists q c, up h i p = Some q /\ h !! q = Some c /\ t = nTime c.

Lemma block_times_spec (n : nat) : forall p b, h !! p = Some b ->
  exists l, block_times n h (Some p) = Ok l /\ length l = Nat.min n (Z.to_nat (nHeight b + 1)) /\ times_of p l.
Proof.
  induction n as [|n IH]; intros p b E; [exists []; split; [reflexivity|]; split; [reflexivity|]; now intros [|i]|].
  cbn [block_times]. unfold deref. rewrite E. cbn [or_abort obind]. pose proof (ok_height h T p b E) as Hb.
  destruct (pprev b) as [q|] eqn:P.
  - destruct (ok_prev h T p b q E P) as (c & Ec & Hc). pose proof (ok_height h T q c Ec) as Hq.
    destruct (IH q c Ec) as (l & -> & Hl & Ht). exists (nTime b :: l). split; [reflexivity|].
    split; [cbn [length]; lia|]. intros [|i] t Hi; cbn [nth_error] in Hi.
    + injection Hi as <-. now exists p, b.
    + rewrite (up_S h i p q b E P). now apply Ht.
  - exists [nTime b]. rewrite (ok_root h T p b E P). split; [now destruct n|]. split; [change (Z.to_nat (0 + 1)) with 1%nat; cbn [length]; lia|].
    intros [|i] t Hi; cbn [nth_error] in Hi; [|now destruct i]. injection Hi as <-. now exists p, b.
Qed.

Lemma block_times_S (n : nat) (p : ptr) (b : CBlockIndex) : h !! p = Some b ->
  block_times (S n) h (Some p) = let* l := block_times n h (pprev b) in Ok (GetBlockTime b :: l).
Proof. intros E. cbn [block_times]. unfold deref. now rewrite E. Qed.

(** The times of a block are its own before all but the oldest of its predecessor's. *)
Lemma block_times_firstn (n : nat) : forall p l, block_times (S n) h p = Ok l -> block_times n h p = Ok (firstn n l).
Proof.
  induction n as [|n IH]; intros p l E; [now destruct p|]. destruct p as [p|]; [|now injection E as <-].
  cbn [block_times] in E |- *. destruct (deref h p) as [b| | | |]; try discriminate. cbn [obind] in *.
  destruct (match pprev b with Some p0 => _ | None => Ok [] end) as [l'| | | |] eqn:E'; try discriminate. cbn [obind] in E. injection E as <-.
  specialize (IH (pprev b) l' E'). cbn [block_times] in IH. rewrite IH. reflexivity.
Qed.

Lemma GetMedianTimePast_spec (p : ptr) (b : CBlockIndex) : h !! p = Some b ->
  exists l m, block_times nMedianTimeSpan h (Some p) = Ok l /\ GetMedianTimePast h p = Ok m /\ In m l /\
    length l = Nat.min 11 (Z.to_nat (nHeight b + 1)) /\ times_of p l /\ forall x, x <= m <-> (below x l <= length l / 2)%nat.
Proof.
  intros E. destruct (block_times_spec nMedianTimeSpan p b E) as (l & B & L & Ht). pose proof (ok_height h T p b E) as Hb.
  assert (1 <= length l)%nat by (rewrite L; unfold nMedianTimeSpan; lia).
  destruct (nth_element_spec l (length l / 2) (Nat.div_lt (length l) 2 ltac:(lia) ltac:(lia))) as (m & N & I & M).
  exists l, m. unfold GetMedianTimePast. rewrite B. cbn [obind].
  exact (conj eq_refl (conj N (conj I (conj L (conj Ht M))))).
Qed.

Lemma below_firstn (x : Z) (n : nat) (l : list Z) : (below x (firstn n l) <= below x l)%nat.
Proof.
  unfold below. revert n. induction l as [|y l IH]; intros [|n]; cbn [firstn List.filter length]; try lia.
  specialize (IH n). destruct (y <? x); cbn [length]; lia.
Qed.

(** A block later than the median time of its predecessor does not lower the median time. *)
Lemma median_monotone (p q : ptr) (b : CBlockIndex) (mq mp : Z) :
  h !! p = Some b -> pprev b = Some q ->
  GetMedianTimePast h q = Ok mq -> GetMedianTimePast h p = Ok mp -> mq < nTime b -> mq <= mp.
Proof.
  intros E P Mq Mp Lt. destruct (ok_prev h T p b q E P) as (c & Ec & Hc). pose proof (ok_height h T q c Ec) as Hq.
  destruct (GetMedianTimePast_spec q c Ec) as (l & m & B & M & _ & L & _ & S). rewrite M in Mq. apply Ok_inj in Mq. subst m.
  destruct (GetMedianTimePast_spec p b E) as (l' & m & B' & M' & _ & L' & _ & S'). rewrite M' in Mp. apply Ok_inj in Mp. subst m.
  apply S'. pose proof (proj1 (S mq) (Z.le_refl _)) as K. unfold nMedianTimeSpan in B, B'.
  rewrite (block_times_S 10 p b E), P, (block_times_firstn 10 (Some q) l B) in B'. cbn [obind] in B'.
  apply Ok_inj in B'. subst l'. cbn [length] in L'. unfold GetBlockTime. unfold below at 1. cbn [List.filter].
  destruct (Z.ltb_spec (nTime b) mq); [lia|]. fold (below mq (firstn 10 l)). pose proof (below_firstn mq 10 l).
  etransitivity; [eassumption|]. etransitivity; [exact K|]. cbn [length]. rewrite length_firstn.
  destruct (Nat.le_gt_cases (length l) 10); [apply Nat.Div0.div_le_mono; lia|].
  replace (length l) with 11%nat by lia. cbn. lia.
Qed.
End Median.

(** ** The status word *)

Lemma not32_bit (x i : Z) : 0 <= i < 32 -> Z.testbit (not32 x) i = negb (Z.testbit x i).
Proof.
  intros H. unfold not32. change 0xffffffff with (Z.ones 32). rewrite Z.lxor_spec, Z.ones_spec_low by lia.
  now destruct (Z.testbit x i).
Qed.

Lemma has_bit (s n : Z) : 0 <= n < 32 -> has s (2 ^ n) = Z.testbit s n.
Proof.
  intros H. rewrite <- (land_bit s n H). unfold has, shl32. rewrite Z.shiftl_1_l, u32_small; [reflexivity|].
  split; [apply Z.pow_nonneg; lia | apply Z.pow_lt_mono_r; lia].
Qed.

Lemma with_flag_bit (s n i : Z) (v : bool) : 0 <= n < 32 -> 0 <= i < 32 ->
  Z.testbit (with_flag s (2 ^ n) v) i = if n =? i then v else Z.testbit s i.
Proof.
  intros Hn Hi. unfold with_flag. rewrite Z.lor_spec, Z.land_spec, not32_bit, Z.pow2_bits_eqb by lia.
  destruct (n =? i) eqn:E, v; rewrite ?Z.pow2_bits_eqb, ?E, ?Z.bits_0 by lia; now destruct (Z.testbit s i).
Qed.

Lemma withValidity_bit (s v i : Z) : 0 <= v < 8 -> 0 <= i < 32 ->
  Z.testbit (withValidity s v) i = if i <? 3 then Z.testbit v i else Z.testbit s i.
Proof.
  intros Hv Hi. unfold withValidity, VALIDITY_MASK. rewrite Z.lor_spec, Z.land_spec, not32_bit by lia.
  change 7 with (Z.ones 3). rewrite Z.testbit_ones_nonneg by lia. destruct (Z.ltb_spec i 3) as [L|L]; cbn [negb].
  - now rewrite andb_false_r.
  - rewrite andb_true_r. assert (E : Z.testbit v i = false); [|rewrite E; apply orb_false_r].
    replace v with (v mod 2 ^ 3) by (apply Z.mod_small; lia). apply Z.mod_pow2_bits_high. lia.
Qed.

Lemma getValidity_mod (s : Z) : getValidity s = s mod 8.
Proof. unfold getValidity, VALIDITY_MASK. change 7 with (Z.ones 3). now rewrite Z.land_ones by lia. Qed.

Lemma low_bits_eq (s t : Z) : (forall i, 0 <= i < 3 -> Z.testbit s i = Z.testbit t i) -> s mod 8 = t mod 8.
Proof.
  intros H. apply Z.bits_inj'. intros i Hi. change 8 with (2 ^ 3). destruct (Z.lt_ge_cases i 3) as [L|L].
  - rewrite !Z.mod_pow2_bits_low by lia. apply H. lia.
  - now rewrite !Z.mod_pow2_bits_high by lia.
Qed.

Lemma getValidity_with (s v : Z) : 0 <= v < 8 -> getValidity (withValidity s v) = v.
Proof.
  intros H. rewrite getValidity_mod. rewrite <- (Z.mod_small v 8 H) at 2. apply low_bits_eq. intros i Hi.
  rewrite withValidity_bit by lia. now destruct (Z.ltb_spec i 3); [|lia].
Qed.

Lemma isInvalid_bits (s : Z) : isInvalid s = Z.testbit s 5 || Z.testbit s 6.
Proof.
  rewrite <- (has_bit s 5), <- (has_bit s 6) by lia. unfold isInvalid, has.
  change INVALID_MASK with (2 ^ 5 ||| 2 ^ 6). rewrite Z.land_lor_distr_r.
  destruct (Z.eqb_spec (s &&& 2 ^ 5) 0) as [->|N]; [now rewrite Z.lor_0_l|]. cbn [negb orb].
  apply negb_true_iff, Z.eqb_neq. intros E. apply Z.lor_eq_0_iff in E. tauto.
Qed.

(** ** Properties *)

(** A small tree: three blocks after a genesis block, and a second block of height 2. *)
Definition sample_index (prev skip : option ptr) (height time : Z) : CBlockIndex :=
  mkIndex (Some (repeat time 32)) prev skip height 0 0 0 zero 1 1 5 1 (repeat 0 32) time 0x1d00ffff 0 0 time time CDiskBlockMetaData_new 0.
Definition sample_heap : heap :=
  <[5%positive := sample_index (Some 2%positive) (Some 1%positive) 2 105]>
  (<[4%positive := sample_index (Some 3%positive) (Some 2%positive) 3 120]>
  (<[3%positive := sample_index (Some 2%positive) (Some 1%positive) 2 110]>
  (<[2%positive := sample_index (Some 1%positive) (Some 1%positive) 1 101]>
  (<[1%positive := sample_index None None 0 100]> ∅)))).

Lemma tree_ok_empty : tree_ok ∅.
Proof. constructor; intros *; rewrite lookup_empty; discriminate. Qed.

Lemma sample_ok : tree_ok sample_heap.
Proof.
  unfold sample_heap.
  repeat (apply tree_ok_insert; [ | reflexivity | first [split; reflexivity | eexists; repeat split; reflexivity]]).
  exact tree_ok_empty.
Qed.

(** C32: the skip list finds ancestors. In a tree of blocks [GetAncestor] always ends, follows no null
    pointer, and gives the block that many steps back along [pprev], which has the height asked
    for, or the null pointer for a height the block has no ancestor at; and a block added with the
    skip pointer [BuildSkip] gives keeps the tree in order. *)
Theorem GetAncestor_correct (h : heap) (p : ptr) (b : CBlockIndex) :
  tree_ok h -> h !! p = Some b ->
  (forall height, 0 <= height <= nHeight b ->
     exists q c, GetAncestor h p height = Ok (Some q) /\ up h (Z.to_nat (nHeight b - height)) p = Some q /\
       h !! q = Some c /\ nHeight c = height) /\
  (forall height, height < 0 \/ nHeight b < height -> GetAncestor h p height = Ok None) /\
  (forall n c, h !! n = None -> attached h c -> tree_ok (<[n := c]> h)).
Proof.
  intros T E. split; [|split].
  - intros height H. rewrite (GetAncestor_spec h T p b height E).
    destruct (Z.leb_spec 0 height), (Z.leb_spec height (nHeight b)); try lia. cbn [andb].
    destruct (up_exists h T (Z.to_nat (nHeight b - height)) p b E ltac:(lia)) as (q & U).
    destruct (up_height h T _ p q b E U) as (c & Ec & Hc). exists q, c. rewrite U. repeat split; auto. lia.
  - intros height H. rewrite (GetAncestor_spec h T p b height E).
    destruct (Z.leb_spec 0 height), (Z.leb_spec height (nHeight b)); try lia; reflexivity.
  - intros n c F A. exact (tree_ok_insert h n c T F A).
Qed.

Lemma GetAncestor_correct_witness : exists q c,
  GetAncestor sample_heap 4 1 = Ok (Some q) /\ up sample_heap 2 4 = Some q /\ sample_heap !! q = Some c /\ nHeight c = 1.
Proof. refine (proj1 (GetAncestor_correct sample_heap 4 _ sample_ok eq_refl) 1 _). cbn. lia. Defined.

(** the work of a block is the expected number of hashes: for every 32-bit difficulty the
    computation in 256-bit words gives 2^256 divided by the target plus one, rounded down,
    without division by zero, and no work for a target that is negative, zero or too large. *)
Theorem GetBlockProof_correct (bits : Z) : 0 <= bits < 2 ^ 32 ->
  exists w, GetBlockProof bits = Ok w /\ uint_ok w /\ val w = (if usable bits then 2 ^ 256 / (target bits + 1) else 0).
Proof. exact (GetBlockProof_spec bits). Qed.

Lemma GetBlockProof_correct_witness : exists w,
  GetBlockProof 0x1d00ffff = Ok w /\ uint_ok w /\ val w = (if usable 0x1d00ffff then 2 ^ 256 / (target 0x1d00ffff + 1) else 0).
Proof. apply (GetBlockProof_correct 0x1d00ffff). lia. Defined.

(** the median time is a median: it is the time of one of the last eleven blocks, at most half
    of them are earlier and more than half are not later; and a block whose time is later than
    the median time of its predecessor, as the consensus rule demands, does not lower it. *)
Theorem GetMedianTimePast_correct (h : heap) (p : ptr) (b : CBlockIndex) :
  tree_ok h -> h !! p = Some b ->
  exists l m, GetMedianTimePast h p = Ok m /\ length l = Nat.min 11 (Z.to_nat (nHeight b + 1)) /\ times_of h p l /\
    In m l /\ (below m l <= length l / 2 < below (m + 1) l)%nat /\
    forall q mq, pprev b = Some q -> GetMedianTimePast h q = Ok mq -> mq < nTime b -> mq <= m.
Proof.
  intros T E. destruct (GetMedianTimePast_spec h T p b E) as (l & m & _ & M & I & L & Ht & S). exists l, m.
  split; [exact M|]. split; [exact L|]. split; [exact Ht|]. split; [exact I|]. split.
  - split; [apply S; lia|]. apply Nat.nle_gt. intros K. apply S in K. lia.
  - intros q mq P Mq Lt. exact (median_monotone h T p q b mq m E P Mq M Lt).
Qed.

Lemma GetMedianTimePast_correct_witness : exists l m,
  GetMedianTimePast sample_heap 4 = Ok m /\ length l = 4%nat /\ times_of sample_heap 4 l /\
  In m l /\ (below m l <= length l / 2 < below (m + 1) l)%nat /\
  forall q mq, Some 3%positive = Some q -> GetMedianTimePast sample_heap q = Ok mq -> mq < 120 -> mq <= m.
Proof. exact (GetMedianTimePast_correct sample_heap 4 _ sample_ok eq_refl). Defined.

(** the status word. Raising the validity of an entry changes it exactly when the entry has not
    failed and is below the new level; then the level is the new one and the flags are as before,
    and otherwise nothing changes. Setting a flag changes no other flag and not the level. *)
Theorem RaiseValidity_correct (now : Z) (b : CBlockIndex) (nUpTo : Z) : 0 <= nUpTo < 8 ->
  let s := nStatus b in let '(changed, b') := RaiseValidity now b nUpTo in
  changed = negb (isInvalid s) && (getValidity s <? nUpTo) /\
  (changed = false -> b' = b) /\
  (changed = true -> getValidity (nStatus b') = nUpTo /\ isInvalid (nStatus b') = false /\
     forall n, 3 <= n < 32 -> has (nStatus b') (2 ^ n) = has s (2 ^ n)) /\
  (forall n v, 3 <= n < 32 -> getValidity (with_flag s (2 ^ n) v) = getValidity s /\
     forall i, 0 <= i < 32 -> has (with_flag s (2 ^ n) v) (2 ^ i) = if n =? i then v else has s (2 ^ i)).
Proof.
  intros Hu. cbv zeta. assert (F : forall n v, 3 <= n < 32 -> getValidity (with_flag (nStatus b) (2 ^ n) v) = getValidity (nStatus b) /\
     forall i, 0 <= i < 32 -> has (with_flag (nStatus b) (2 ^ n) v) (2 ^ i) = if n =? i then v else has (nStatus b) (2 ^ i)).
  { intros n v Hn. split; [|intros i Hi; rewrite !has_bit, with_flag_bit by lia; reflexivity].
    rewrite !getValidity_mod. apply low_bits_eq. intros i Hi. rewrite with_flag_bit by lia. destruct (Z.eqb_spec n i); [lia | reflexivity]. }
  unfold RaiseValidity. destruct (isInvalid (nStatus b)) eqn:I; [split; [reflexivity|]; split; [reflexivity|]; split; [discriminate | exact F]|].
  destruct (Z.leb_spec nUpTo (getValidity (nStatus b))), (Z.ltb_spec (getValidity (nStatus b)) nUpTo); try lia; [split; [reflexivity|]; split; [reflexivity|]; split; [discriminate | exact F]|].
  split; [reflexivity|]. split; [discriminate|]. split; [|exact F]. intros _.
  assert (E : forall c : CBlockIndex, nStatus c = nStatus b -> nStatus (set_status c (withValidity (nStatus c) nUpTo)) = withValidity (nStatus b) nUpTo)
    by (intros c Ec; cbn; now rewrite Ec).
  rewrite E by now destruct (_ && _). split; [now apply getValidity_with|]. split.
  - rewrite isInvalid_bits, !withValidity_bit by lia. now rewrite isInvalid_bits in I.
  - intros n Hn. rewrite !has_bit, withValidity_bit by lia. destruct (Z.ltb_spec n 3); [lia | reflexivity].
Qed.

Lemma RaiseValidity_correct_witness : let b := sample_index None None 0 100 in
  fst (RaiseValidity 7 (set_status b 2) 5) = true /\ getValidity (nStatus (snd (RaiseValidity 7 (set_status b 2) 5))) = 5.
Proof.
  pose proof (RaiseValidity_correct 7 (set_status (sample_index None None 0 100) 2) 5 ltac:(lia)) as (E & _ & H & _).
  split; [exact E | exact (proj1 (H E))].
Defined.
End BlockIndex.
