(* ===== verification/Chain.v ===== *)
(** * Chains of blocks (src/src/chain.h and src/src/chain.cpp, class CChain)

    The array of the blocks of a chain by height, the search for the fork with another block, and
    the block locators with which two nodes find the last block they share. *)

From stdpp Require Import gmap sorting.
From S2P Require Import Prelude Outcome ArithUint256 Block BlockIndex.
Import ArithUint256 Block BlockIndex.

Module Chain.
Local Open Scope Z_scope.
Local Open Scope outcome_scope.

(** Vector entries and results are pointers that may be null. *)
Record CChain : Type := mkChain { vChain : list (option ptr); mChainTip : option ptr }.

Definition Genesis (c : CChain) : option ptr := match vChain c with p :: _ => p | [] => None end.
Definition Tip (c : CChain) : option ptr := mChainTip c.

(** [operator[]] *)
Definition at_height (c : CChain) (nHeight : Z) : option ptr :=
  if (nHeight <? 0) || (len (vChain c) <=? nHeight) then None else nth (Z.to_nat nHeight) (vChain c) None.

Definition ptr_eqb (p q : option ptr) : bool := bool_decide (p = q).

Definition Contains (h : heap) (c : CChain) (pindex : ptr) : outcome bool :=
  let* b := deref h pindex in Ok (ptr_eqb (at_height c (nHeight b)) (Some pindex)).

Definition Next (h : heap) (c : CChain) (pindex : ptr) : outcome (option ptr) :=
  let* found := Contains h c pindex in
  if found then let* b := deref h pindex in Ok (at_height c (nHeight b + 1)) else Ok None.

Definition Height (h : heap) (c : CChain) : outcome Z :=
  match mChainTip c with Some tip => let* b := deref h tip in Ok (nHeight b) | None => Ok (-1) end.

(** [v[i]], undefined out of range *)
Definition vec_at (v : list (option ptr)) (i : Z) : outcome (option ptr) :=
  if i <? 0 then Abort else or_abort (nth_error v (Z.to_nat i)).

(** [while (pindex && vChain[pindex->nHeight] != pindex)]: the height falls in every round. *)
Fixpoint set_blocks (fuel : nat) (h : heap) (v : list (option ptr)) (pindex : option ptr) : outcome (list (option ptr)) :=
  match pindex with
  | None => Ok v
  | Some p =>
      match fuel with
      | O => Abort
      | S fuel =>
          let* b := deref h p in
          let* old := vec_at v (nHeight b) in
          if ptr_eqb old (Some p) then Ok v
          else set_blocks fuel h (<[Z.to_nat (nHeight b) := Some p]> v) (pprev b)
      end
  end.

(** [vChain.resize(n)] *)
Definition resize (v : list (option ptr)) (n : nat) : list (option ptr) := firstn n v ++ repeat None (n - length v).

Definition SetTip (h : heap) (c : CChain) (pindex : option ptr) : outcome CChain :=
  match pindex with
  | None => Ok (mkChain [] None)
  | Some p =>
      let* b := deref h p in
      let* v := set_blocks (Z.to_nat (nHeight b + 2)) h (resize (vChain c) (Z.to_nat (nHeight b + 1))) (Some p) in
      Ok (mkChain v (Some p))
  end.

(** [while (pindex && !Contains(pindex))] *)
Fixpoint fork_walk (fuel : nat) (h : heap) (c : CChain) (pindex : option ptr) : outcome (option ptr) :=
  match pindex with
  | None => Ok None
  | Some p =>
      match fuel with
      | O => Abort
      | S fuel =>
          let* found := Contains h c p in
          if found then Ok (Some p) else let* b := deref h p in fork_walk fuel h c (pprev b)
      end
  end.

Definition FindFork (h : heap) (c : CChain) (pindex : option ptr) : outcome (option ptr) :=
  match pindex with
  | None => Ok None
  | Some p =>
      let* b := deref h p in
      let* height := Height h c in
      let* start := if height <? nHeight b then GetAncestor h p height else Ok (Some p) in
      fork_walk (Z.to_nat (nHeight b + 2)) h c start
  end.

Definition GetBlockHash (b : CBlockIndex) : outcome bytes := or_abort (phashBlock b).

(** The loop of [GetLocator]. The step is an [int], whose overflow is undefined. *)
Fixpoint locator_walk (fuel : nat) (h : heap) (c : CChain) (nStep : Z) (vHave : list bytes) (pindex : option ptr)
  : outcome (list bytes) :=
  match pindex with
  | None => Ok vHave
  | Some p =>
      match fuel with
      | O => Abort
      | S fuel =>
          let* b := deref h p in
          let* hash := GetBlockHash b in
          let vHave := vHave ++ [hash] in
          if nHeight b =? 0 then Ok vHave
          else
            let height := Z.max (nHeight b - nStep) 0 in
            let* found := Contains h c p in
            let* next := if found then Ok (at_height c height) else GetAncestor h p height in
            if 10 <? len vHave then
              if 2 ^ 31 <=? nStep * 2 then Abort else locator_walk fuel h c (nStep * 2) vHave next
            else locator_walk fuel h c nStep vHave next
      end
  end.

Definition GetLocator (h : heap) (c : CChain) (pindex : option ptr) : outcome CBlockLocator :=
  let pindex := match pindex with Some p => Some p | None => Tip c end in
  let* fuel := match pindex with Some p => let* b := deref h p in Ok (Z.to_nat (nHeight b + 2)) | None => Ok 1%nat end in
  locator_walk fuel h c 1 [] pindex.

(** [std::lower_bound]: the first position of which the predicate does not hold, by halving. *)
Fixpoint lower_bound (fuel : nat) (pred : nat -> outcome bool) (first n : nat) : outcome nat :=
  match n with
  | O => Ok first
  | _ =>
      match fuel with
      | O => Abort
      | S fuel =>
          let half := (n / 2)%nat in
          let middle := (first + half)%nat in
          let* less := pred middle in
          if less then lower_bound fuel pred (S middle) (n - half - 1) else lower_bound fuel pred first half
      end
  end.

Definition FindEarliestAtLeast (h : heap) (c : CChain) (nTime : Z) : outcome (option ptr) :=
  let pred i :=
    let* p := or_abort (nth i (vChain c) None) in
    let* b := deref h p in Ok (GetBlockTimeMax b <? nTime) in
  let* i := lower_bound (length (vChain c)) pred 0 (length (vChain c)) in
  Ok (if (i =? length (vChain c))%nat then None else nth i (vChain c) None).

(** [while (pa != pb && pa && pb)], then [assert(pa == pb)] *)
Fixpoint meet (fuel : nat) (h : heap) (pa pb : option ptr) : outcome (option ptr) :=
  if ptr_eqb pa pb then Ok pa
  else
    match pa, pb, fuel with
    | Some a, Some b, S fuel =>
        let* ba := deref h a in
        let* bb := deref h b in
        meet fuel h (pprev ba) (pprev bb)
    | _, _, _ => Abort
    end.

Definition LastCommonAncestor (h : heap) (pa pb : ptr) : outcome (option ptr) :=
  let* ba := deref h pa in
  let* bb := deref h pb in
  let* a := if nHeight bb <? nHeight ba then GetAncestor h pa (nHeight bb) else Ok (Some pa) in
  let* b := if negb (nHeight bb <? nHeight ba) && (nHeight ba <? nHeight bb) then GetAncestor h pb (nHeight ba) else Ok (Some pb) in
  meet (Z.to_nat (nHeight ba + 2)) h a b.

(** The sign and the product are those of the code; the product of a negative sign and an
    unsigned 64-bit number wraps to the negative number. *)
Definition GetBlockProofEquivalentTime (to from tip : CBlockIndex) (nPowTargetSpacing : Z) : outcome Z :=
  let '(r, sign) :=
    if gt (nChainWork to) (nChainWork from) then (sub (nChainWork to) (nChainWork from), 1)
    else (sub (nChainWork from) (nChainWork to), -1) in
  let* proof := GetBlockProof (nBits tip) in
  let* r := div (mul r (of_u64 (u64 nPowTargetSpacing))) proof in
  if 63 <? bits r then Ok (sign * (2 ^ 63 - 1)) else Ok (i64 (u64 (sign * GetLow64 r))).

(** [mapBlockIndex], and [FindForkInGlobalIndex] (validation.cpp) *)
Abbreviation BlockMap := (gmap (list Z) ptr).

Fixpoint find_in_locator (h : heap) (mapBlockIndex : BlockMap) (chain : CChain) (vHave : list bytes) : outcome (option ptr) :=
  match vHave with
  | [] => Ok (Genesis chain)
  | hash :: vHave =>
      match mapBlockIndex !! hash with
      | None => find_in_locator h mapBlockIndex chain vHave
      | Some pindex =>
          let* found := Contains h chain pindex in
          if found then Ok (Some pindex)
          else
            let* height := Height h chain in
            let* a := GetAncestor h pindex height in
            if ptr_eqb a (Tip chain) then Ok (Tip chain) else find_in_locator h mapBlockIndex chain vHave
      end
  end.

Definition FindForkInGlobalIndex (h : heap) (mapBlockIndex : BlockMap) (chain : CChain) (locator : CBlockLocator)
  : outcome (option ptr) := find_in_locator h mapBlockIndex chain locator.

(** ** Ancestors *)

(** [q] is [p] or a block before it. *)
Definition anc (h : heap) (p q : ptr) : Prop := exists k, up h k p = Some q.

Lemma ptr_eqb_spec (p q : option ptr) : ptr_eqb p q = true <-> p = q.
Proof. apply bool_decide_eq_true. Qed.

Lemma ptr_eqb_refl (p : option ptr) : ptr_eqb p p = true.
Proof. now apply ptr_eqb_spec. Qed.

Section Ancestors.
Context (h : heap) (T : tree_ok h).

Lemma anc_refl p : anc h p p.
Proof. now exists 0%nat. Qed.

Lemma anc_trans p q r : anc h p q -> anc h q r -> anc h p r.
Proof. intros [j J] [k K]. exists (j + k)%nat. now rewrite (up_add h j k p q J). Qed.

Lemma anc_prev p q b : h !! p = Some b -> pprev b = Some q -> anc h p q.
Proof. intros E P. exists 1%nat. now rewrite (up_S h 0 p q b E P). Qed.

(** The ancestor at a height is as many steps back as the heights differ. *)
Lemma anc_up p q b c : h !! p = Some b -> anc h p q -> h !! q = Some c ->
  nHeight c <= nHeight b /\ up h (Z.to_nat (nHeight b - nHeight c)) p = Some q.
Proof.
  intros E [k U] F. destruct (up_height h T k p q b E U) as (c' & F' & Hc). rewrite F in F'. injection F' as <-.
  split; [lia|]. now replace (Z.to_nat (nHeight b - nHeight c)) with k by lia.
Qed.

Lemma anc_lookup p q b : h !! p = Some b -> anc h p q -> exists c, h !! q = Some c /\ 0 <= nHeight c <= nHeight b.
Proof.
  intros E [k U]. destruct (up_height h T k p q b E U) as (c & F & Hc). exists c. split; [exact F|].
  pose proof (ok_height h T q c F). lia.
Qed.

(** Of two ancestors of a block the lower one is an ancestor of the other. *)
Lemma anc_linear p q r b c d : h !! p = Some b -> anc h p q -> anc h p r -> h !! q = Some c -> h !! r = Some d ->
  nHeight d <= nHeight c -> anc h q r.
Proof.
  intros E Q R F G L. destruct (anc_up p q b c E Q F) as [L1 U1]. destruct (anc_up p r b d E R G) as [L2 U2].
  exists (Z.to_nat (nHeight c - nHeight d)).
  replace (Z.to_nat (nHeight b - nHeight d)) with (Z.to_nat (nHeight b - nHeight c) + Z.to_nat (nHeight c - nHeight d))%nat in U2 by lia.
  now rewrite (up_add h _ _ p q U1) in U2.
Qed.

Lemma anc_unique p q r b c d : h !! p = Some b -> anc h p q -> anc h p r -> h !! q = Some c -> h !! r = Some d ->
  nHeight c = nHeight d -> q = r.
Proof.
  intros E Q R F G L. destruct (anc_up p q b c E Q F) as [_ U1]. destruct (anc_up p r b d E R G) as [_ U2]. rewrite L in U1. congruence.
Qed.

Lemma GetAncestor_anc p b height : h !! p = Some b -> 0 <= height <= nHeight b ->
  exists q c, GetAncestor h p height = Ok (Some q) /\ anc h p q /\ h !! q = Some c /\ nHeight c = height.
Proof.
  intros E H. rewrite (GetAncestor_spec h T p b height E).
  destruct (Z.leb_spec 0 height), (Z.leb_spec height (nHeight b)); try lia. cbn [andb].
  destruct (up_exists h T (Z.to_nat (nHeight b - height)) p b E ltac:(lia)) as (q & U).
  destruct (up_height h T _ p q b E U) as (c & Ec & Hc). exists q, c. rewrite U.
  split; [reflexivity|]. split; [eexists; exact U|]. split; [exact Ec | lia].
Qed.
End Ancestors.

(** ** The array of a chain *)

(** The entries are the tip and its ancestors, each at the position of its height. *)
Definition chain_ok (h : heap) (c : CChain) : Prop :=
  match mChainTip c with
  | None => vChain c = []
  | Some tip => exists b, h !! tip = Some b /\ length (vChain c) = Z.to_nat (nHeight b + 1) /\
      forall i, (i < length (vChain c))%nat -> nth_error (vChain c) i = Some (up h (Z.to_nat (nHeight b) - i) tip)
  end.

(** Where an entry is set, it is at its height and the entries below are its ancestors. *)
Definition coherent (h : heap) (v : list (option ptr)) (n : nat) : Prop :=
  forall i q, (i < n)%nat -> nth_error v i = Some (Some q) ->
    forall j, (j <= i)%nat -> nth_error v j = Some (up h (i - j) q).

Lemma nth_error_insert (v : list (option ptr)) (i j : nat) (x : option ptr) : (i < length v)%nat ->
  nth_error (<[i := x]> v) j = if (j =? i)%nat then Some x else nth_error v j.
Proof.
  revert i j. induction v as [|y v IH]; intros [|i] [|j] H; cbn in *; try lia; try reflexivity. apply IH. lia.
Qed.

Section Array.
Context (h : heap) (T : tree_ok h).

Lemma set_blocks_spec (fuel : nat) : forall p b v,
  h !! p = Some b -> (Z.to_nat (nHeight b) < length v)%nat -> (Z.to_nat (nHeight b) < fuel)%nat ->
  coherent h v (S (Z.to_nat (nHeight b))) ->
  exists v', set_blocks fuel h v (Some p) = Ok v' /\ length v' = length v /\
    (forall j, (j <= Z.to_nat (nHeight b))%nat -> nth_error v' j = Some (up h (Z.to_nat (nHeight b) - j) p)) /\
    (forall j, (Z.to_nat (nHeight b) < j)%nat -> nth_error v' j = nth_error v j).
Proof.
  induction fuel as [|fuel IH]; intros p b v E Hv Hf C; [lia|]. pose proof (ok_height h T p b E) as Hb.
  cbn [set_blocks]. unfold deref, vec_at. rewrite E. cbn [or_abort obind]. destruct (Z.ltb_spec (nHeight b) 0); [lia|].
  destruct (nth_error v (Z.to_nat (nHeight b))) as [old|] eqn:N; [|apply nth_error_None in N; lia]. cbn [or_abort obind].
  destruct (ptr_eqb old (Some p)) eqn:Q.
  - apply ptr_eqb_spec in Q as ->. exists v. split; [reflexivity|]. split; [reflexivity|]. split; [|reflexivity].
    intros j Hj. exact (C _ p (Nat.lt_succ_diag_r _) N j Hj).
  - set (n := Z.to_nat (nHeight b)) in *. set (v1 := <[n := Some p]> v). pose proof (length_insert v n (Some p)) as L1. fold v1 in L1.
    destruct (pprev b) as [q|] eqn:P.
    + destruct (ok_prev h T p b q E P) as (c & Ec & Hc). pose proof (ok_height h T q c Ec) as Hq.
      assert (Hn : n = S (Z.to_nat (nHeight c))) by lia.
      destruct (IH q c v1 Ec ltac:(lia) ltac:(lia)) as (v' & R & L & Lo & Hi).
      { intros i r Hi Hr j Hj. unfold v1 in *. rewrite nth_error_insert in Hr |- * by lia.
        destruct (Nat.eqb_spec i n), (Nat.eqb_spec j n); try lia. apply (C i r); [lia | exact Hr | exact Hj]. }
      exists v'. split; [exact R|]. split; [lia|]. split.
      * intros j Hj. destruct (Nat.eq_dec j n) as [->|Nj].
        -- rewrite Hi by lia. unfold v1. rewrite nth_error_insert, Nat.eqb_refl, Nat.sub_diag by lia. reflexivity.
        -- rewrite Lo by lia. replace (n - j)%nat with (S (Z.to_nat (nHeight c) - j)) by lia. now rewrite (up_S h _ p q b E P).
      * intros j Hj. rewrite Hi by lia. unfold v1. rewrite nth_error_insert by lia. destruct (Nat.eqb_spec j n); [lia | reflexivity].
    + pose proof (ok_root h T p b E P) as H0. assert (Hn : n = 0%nat) by lia.
      exists v1. split; [now destruct fuel|]. split; [exact L1|]. split; intros j Hj; unfold v1; rewrite nth_error_insert by lia.
      * replace j with n by lia. now rewrite Nat.eqb_refl, Nat.sub_diag.
      * destruct (Nat.eqb_spec j n); [lia | reflexivity].
Qed.

Lemma nth_error_resize (v : list (option ptr)) (n i : nat) : (i < n)%nat ->
  nth_error (resize v n) i = if (i <? length v)%nat then nth_error v i else Some None.
Proof.
  intros H. unfold resize. destruct (Nat.ltb_spec i (length v)).
  - rewrite nth_error_app1 by (rewrite length_firstn; lia). now rewrite nth_error_firstn; destruct (Nat.ltb_spec i n); [|lia].
  - rewrite nth_error_app2 by (rewrite length_firstn; lia). rewrite length_firstn.
    apply nth_error_repeat. lia.
Qed.

Lemma length_resize (v : list (option ptr)) (n : nat) : length (resize v n) = n.
Proof. unfold resize. rewrite length_app, length_firstn, repeat_length. lia. Qed.

Lemma resize_coherent (c : CChain) (n : nat) : chain_ok h c -> coherent h (resize (vChain c) n) n.
Proof.
  intros C i q Hi Hq j Hj. rewrite nth_error_resize in Hq |- * by lia. destruct (Nat.ltb_spec i (length (vChain c))) as [L|L]; [|discriminate].
  destruct (Nat.ltb_spec j (length (vChain c))); [|lia]. unfold chain_ok in C.
  destruct (mChainTip c) as [tip|]; [|rewrite C in L; cbn in L; lia]. destruct C as (b & E & Lb & C).
  rewrite (C i L) in Hq. injection Hq as Hq. rewrite C by lia. f_equal.
  replace (Z.to_nat (nHeight b) - j)%nat with ((Z.to_nat (nHeight b) - i) + (i - j))%nat by lia. now rewrite (up_add h _ _ tip q Hq).
Qed.

Lemma SetTip_spec (c : CChain) (p : ptr) (b : CBlockIndex) : chain_ok h c -> h !! p = Some b ->
  exists c', SetTip h c (Some p) = Ok c' /\ chain_ok h c' /\ Tip c' = Some p.
Proof.
  intros C E. pose proof (ok_height h T p b E) as Hb. unfold SetTip, deref. rewrite E. cbn [or_abort obind].
  replace (Z.to_nat (nHeight b + 1)) with (S (Z.to_nat (nHeight b))) by lia.
  destruct (set_blocks_spec (Z.to_nat (nHeight b + 2)) p b (resize (vChain c) (S (Z.to_nat (nHeight b)))) E
              ltac:(rewrite length_resize; lia) ltac:(lia) (resize_coherent c _ C)) as (v' & R & L & Lo & _).
  rewrite R. cbn [obind]. eexists. split; [reflexivity|]. split; [|reflexivity]. rewrite length_resize in L.
  exists b. cbn [vChain]. split; [exact E|]. split; [lia|]. intros i Hi. apply Lo. lia.
Qed.

Lemma at_height_spec (c : CChain) (tip : ptr) (b : CBlockIndex) (i : Z) : chain_ok h c -> Tip c = Some tip -> h !! tip = Some b ->
  at_height c i = if (0 <=? i) && (i <=? nHeight b) then up h (Z.to_nat (nHeight b - i)) tip else None.
Proof.
  unfold chain_ok, Tip, at_height. intros C Ht E. rewrite Ht in C. destruct C as (b' & E' & L & C). rewrite E in E'. injection E' as <-.
  pose proof (ok_height h T tip b E) as Hb. assert (Hl : len (vChain c) = nHeight b + 1) by (unfold len; lia). rewrite Hl.
  destruct (Z.ltb_spec i 0), (Z.leb_spec (nHeight b + 1) i), (Z.leb_spec 0 i), (Z.leb_spec i (nHeight b)); try lia; try reflexivity.
  cbn [orb andb]. specialize (C (Z.to_nat i) ltac:(lia)). rewrite (nth_error_nth _ _ _ C). f_equal. lia.
Qed.
End Array.

(** ** Forks *)

(** [r] is the last block that two blocks share, if they share one. *)
Definition last_common (h : heap) (p q : ptr) (r : option ptr) : Prop :=
  match r with
  | Some x => anc h p x /\ anc h q x /\ forall y, anc h p y -> anc h q y -> anc h x y
  | None => forall y, anc h p y -> anc h q y -> False
  end.

Section Forks.
Context (h : heap) (T : tree_ok h) (c : CChain) (tip : ptr) (t : CBlockIndex).
Context (C : chain_ok h c) (Ht : Tip c = Some tip) (Et : h !! tip = Some t).

Lemma Contains_spec p b : h !! p = Some b -> exists v, Contains h c p = Ok v /\ (v = true <-> anc h tip p).
Proof.
  intros E. unfold Contains, deref. rewrite E. cbn [or_abort obind]. eexists. split; [reflexivity|].
  rewrite ptr_eqb_spec, (at_height_spec h T c tip t _ C Ht Et). pose proof (ok_height h T p b E) as Hb. split.
  - destruct (_ && _); [|discriminate]. intros U. eexists. exact U.
  - intros A. destruct (anc_up h T tip p t b Et A E) as [L U].
    destruct (Z.leb_spec 0 (nHeight b)), (Z.leb_spec (nHeight b) (nHeight t)); try lia. exact U.
Qed.

Lemma Height_spec : Height h c = Ok (nHeight t).
Proof. unfold Height, deref. unfold Tip in Ht. rewrite Ht, Et. reflexivity. Qed.

(** The ancestors of a block are the block itself and those of its predecessor. *)
Lemma anc_cases p b y : h !! p = Some b -> anc h p y -> y = p \/ exists q, pprev b = Some q /\ anc h q y.
Proof.
  intros E [k U]. destruct k as [|k]; [injection U as ->; now left|]. right. cbn [up] in U. rewrite E in U. cbn in U.
  destruct (pprev b) as [q|]; [|discriminate]. exists q. split; [reflexivity|]. now exists k.
Qed.

Lemma fork_walk_spec (fuel : nat) : forall p b, h !! p = Some b -> (Z.to_nat (nHeight b) < fuel)%nat ->
  exists r, fork_walk fuel h c (Some p) = Ok r /\ last_common h p tip r.
Proof.
  induction fuel as [|fuel IH]; intros p b E Hf; [lia|]. cbn [fork_walk].
  destruct (Contains_spec p b E) as ([|] & -> & V); cbn [obind].
  - exists (Some p). split; [reflexivity|]. cbn. split; [apply anc_refl|]. split; [now apply V|]. now intros y.
  - assert (N : ~ anc h tip p) by (intros A; apply V in A; discriminate). unfold deref. rewrite E. cbn [or_abort obind].
    destruct (pprev b) as [q|] eqn:P.
    + destruct (ok_prev h T p b q E P) as (d & Ed & Hd). pose proof (ok_height h T q d Ed) as Hq.
      destruct (IH q d Ed ltac:(lia)) as (r & R & L). exists r. split; [exact R|].
      assert (K : forall y, anc h p y -> anc h tip y -> anc h q y)
        by (intros y A B; destruct (anc_cases p b y E A) as [->|(q' & P' & A')]; [contradiction | congruence]).
      destruct r as [x|]; cbn in *; [|now eauto]. destruct L as (L1 & L2 & L3).
      split; [exact (anc_trans h p q x (anc_prev h p q b E P) L1)|]. split; [exact L2|]. eauto.
    + exists None. split; [now destruct fuel|]. intros y A B. destruct (anc_cases p b y E A) as [->|(q' & P' & _)]; congruence.
Qed.

Lemma FindFork_spec p b : h !! p = Some b -> exists r, FindFork h c (Some p) = Ok r /\ last_common h p tip r.
Proof.
  intros E. unfold FindFork, deref. rewrite E, Height_spec. cbn [or_abort obind]. pose proof (ok_height h T p b E) as Hb.
  pose proof (ok_height h T tip t Et) as Hh.
  destruct (Z.ltb_spec (nHeight t) (nHeight b)) as [L|L]; [|apply (fork_walk_spec _ p b E); lia].
  destruct (GetAncestor_anc h T p b (nHeight t) E ltac:(lia)) as (q & d & -> & A & Ed & Hd). cbn [obind].
  destruct (fork_walk_spec (Z.to_nat (nHeight b + 2)) q d Ed ltac:(lia)) as (r & R & F). exists r. split; [exact R|].
  assert (K : forall y, anc h p y -> anc h tip y -> anc h q y).
  { intros y A1 A2. destruct (anc_lookup h T tip y t Et A2) as (f & Ef & Hf).
    apply (anc_linear h T p q y b d f E A A1 Ed Ef). lia. }
  destruct r as [x|]; cbn in *; [|now eauto]. destruct F as (F1 & F2 & F3).
  split; [exact (anc_trans h p q x A F1)|]. split; [exact F2|]. eauto.
Qed.

(** The successor in the chain. *)
Lemma Next_spec p b : h !! p = Some b ->
  exists r, Next h c p = Ok r /\
    match r with
    | Some q => anc h tip q /\ exists d, h !! q = Some d /\ pprev d = Some p
    | None => p = tip \/ ~ anc h tip p
    end.
Proof.
  intros E. unfold Next. destruct (Contains_spec p b E) as ([|] & -> & V); cbn [obind]; unfold deref; rewrite ?E; cbn [or_abort obind].
  - assert (A : anc h tip p) by now apply V. pose proof (ok_height h T p b E) as Hb.
    destruct (anc_up h T tip p t b Et A E) as [L U]. rewrite (at_height_spec h T c tip t _ C Ht Et). eexists. split; [reflexivity|].
    destruct (Z.leb_spec 0 (nHeight b + 1)); [|lia]. cbn [andb]. destruct (Z.leb_spec (nHeight b + 1) (nHeight t)) as [M|M].
    + destruct (up_exists h T (Z.to_nat (nHeight t - (nHeight b + 1))) tip t Et ltac:(lia)) as (q & Q). rewrite Q.
      split; [eexists; exact Q|]. destruct (up_height h T _ tip q t Et Q) as (d & Ed & Hd). exists d. split; [exact Ed|].
      replace (Z.to_nat (nHeight t - nHeight b)) with (Z.to_nat (nHeight t - (nHeight b + 1)) + 1)%nat in U by lia.
      rewrite (up_add h _ 1 tip q Q) in U. cbn [up] in U. rewrite Ed in U. cbn in U. now destruct (pprev d).
    + left. replace (Z.to_nat (nHeight t - nHeight b)) with 0%nat in U by lia. now injection U.
  - exists None. split; [reflexivity|]. right. intros A. apply V in A. discriminate.
Qed.
End Forks.

Section Meet.
Context (h : heap) (T : tree_ok h).

Lemma last_common_back p q p' q' r : anc h p p' -> anc h q q' ->
  (forall z, anc h p z -> anc h q z -> anc h p' z /\ anc h q' z) -> last_common h p' q' r -> last_common h p q r.
Proof.
  intros A B K L. destruct r as [x|]; cbn in *; [|intros y Y1 Y2; destruct (K y Y1 Y2); eauto].
  destruct L as (L1 & L2 & L3). split; [exact (anc_trans h p p' x A L1)|]. split; [exact (anc_trans h q q' x B L2)|].
  intros y Y1 Y2. destruct (K y Y1 Y2). eauto.
Qed.

Lemma meet_spec (fuel : nat) : forall p q b d, h !! p = Some b -> h !! q = Some d -> nHeight b = nHeight d ->
  (Z.to_nat (nHeight b) < fuel)%nat -> exists r, meet fuel h (Some p) (Some q) = Ok r /\ last_common h p q r.
Proof.
  induction fuel as [|fuel IH]; intros p q b d E F H Hf; [lia|]. cbn [meet].
  destruct (ptr_eqb (Some p) (Some q)) eqn:Q.
  - apply ptr_eqb_spec in Q. injection Q as ->. exists (Some q). split; [reflexivity|]. cbn. auto using anc_refl.
  - assert (N : p <> q) by (intros ->; now rewrite ptr_eqb_refl in Q). unfold deref. rewrite E, F. cbn [or_abort obind].
    assert (S : forall z, anc h p z -> anc h q z -> exists p' q', pprev b = Some p' /\ pprev d = Some q' /\ anc h p' z /\ anc h q' z).
    { intros z A1 B1. destruct (anc_cases h p b z E A1) as [->|(p' & P' & A')].
      { exfalso. apply N. symmetry. exact (anc_unique h T q q p d d b F (anc_refl h q) B1 F E (eq_sym H)). }
      destruct (anc_cases h q d z F B1) as [->|(q' & Q' & B')].
      { exfalso. apply N. exact (anc_unique h T p p q b b d E (anc_refl h p) A1 E F H). }
      now exists p', q'. }
    destruct (pprev b) as [p'|] eqn:P'; destruct (pprev d) as [q'|] eqn:Q'.
    + destruct (ok_prev h T p b p' E P') as (b' & E' & Hb'). destruct (ok_prev h T q d q' F Q') as (d' & F' & Hd').
      pose proof (ok_height h T p' b' E'). destruct (IH p' q' b' d' E' F' ltac:(lia) ltac:(lia)) as (r & R & L). exists r.
      split; [exact R|]. apply (last_common_back p q p' q' r (anc_prev h p p' b E P') (anc_prev h q q' d F Q')); [|exact L].
      intros z A1 B1. destruct (S z A1 B1) as (x & y & X & Y & Ax & By). injection X as <-. now injection Y as <-.
    + destruct (ok_prev h T p b p' E P') as (b' & E' & Hb'). pose proof (ok_height h T p' b' E'). pose proof (ok_root h T q d F Q'). lia.
    + destruct (ok_prev h T q d q' F Q') as (d' & F' & Hd'). pose proof (ok_height h T q' d' F'). pose proof (ok_root h T p b E P'). lia.
    + exists None. split; [now destruct fuel|]. intros z A1 B1. now destruct (S z A1 B1) as (x & y & X & _).
Qed.

(** Going back to the height of the other block loses no common ancestor. *)
Lemma level_ancestor p q b d : h !! p = Some b -> h !! q = Some d -> nHeight b <= nHeight d ->
  exists r e, GetAncestor h q (nHeight b) = Ok (Some r) /\ anc h q r /\ h !! r = Some e /\ nHeight e = nHeight b /\
    forall z, anc h p z -> anc h q z -> anc h r z.
Proof.
  intros E F L. pose proof (ok_height h T p b E) as Hb.
  destruct (GetAncestor_anc h T q d (nHeight b) F ltac:(lia)) as (r & e & G & A & Ee & He). exists r, e.
  split; [exact G|]. split; [exact A|]. split; [exact Ee|]. split; [exact He|]. intros z A1 B1.
  destruct (anc_lookup h T p z b E A1) as (g & Eg & Hg). apply (anc_linear h T q r z d e g F A B1 Ee Eg). lia.
Qed.

Lemma LastCommonAncestor_spec p q b d : h !! p = Some b -> h !! q = Some d ->
  exists r, LastCommonAncestor h p q = Ok r /\ last_common h p q r.
Proof.
  intros E F. pose proof (ok_height h T p b E). pose proof (ok_height h T q d F).
  unfold LastCommonAncestor, deref. rewrite E, F. cbn [or_abort obind].
  destruct (Z.ltb_spec (nHeight d) (nHeight b)) as [L|L]; cbn [negb andb].
  - destruct (level_ancestor q p d b F E ltac:(lia)) as (r & e & -> & A1 & Ee & He & M). cbn [obind].
    destruct (meet_spec (Z.to_nat (nHeight b + 2)) r q e d Ee F He ltac:(lia)) as (x & R & Lx).
    exists x. split; [exact R|]. apply (last_common_back p q r q x A1 (anc_refl h q)); auto.
  - destruct (Z.ltb_spec (nHeight b) (nHeight d)) as [L'|L']; cbn [obind].
    + destruct (level_ancestor p q b d E F ltac:(lia)) as (r & e & -> & A1 & Ee & He & M). cbn [obind].
      destruct (meet_spec (Z.to_nat (nHeight b + 2)) p r b e E Ee ltac:(lia) ltac:(lia)) as (x & R & Lx).
      exists x. split; [exact R|]. apply (last_common_back p q p r x (anc_refl h p) A1); auto.
    + apply (meet_spec (Z.to_nat (nHeight b + 2)) p q b d E F); lia.
Qed.
End Meet.

(** ** Searching the chain by time *)

Lemma lower_bound_spec (f : nat -> bool) (pred : nat -> outcome bool) (fuel : nat) : forall first n,
  (n <= fuel)%nat -> (forall i, (first <= i < first + n)%nat -> pred i = Ok (f i)) ->
  (forall i j, (first <= i <= j)%nat -> (j < first + n)%nat -> f j = true -> f i = true) ->
  exists r, lower_bound fuel pred first n = Ok r /\ (first <= r <= first + n)%nat /\
    (forall i, (first <= i < r)%nat -> f i = true) /\ (forall i, (r <= i < first + n)%nat -> f i = false).
Proof.
  induction fuel as [|fuel IH]; intros first n Hn P M; (destruct n as [|n'];
    [exists first; split; [reflexivity|]; split; [lia|]; split; intros; lia|]); [lia|].
  set (n := S n') in *. cbn [lower_bound]. change (match n with 0%nat => _ | S _ => ?x end) with x.
  assert (Hh : (n / 2 < n)%nat) by (apply Nat.div_lt; unfold n; lia). set (half := (n / 2)%nat) in *.
  rewrite P by lia. cbn [obind]. destruct (f (first + half)%nat) eqn:F.
  - destruct (IH (S (first + half)) (n - half - 1)%nat) as (r & R & B & Lo & Hi); [lia | intros; apply P; lia | intros i j; intros; apply (M i j); auto; lia|].
    exists r. split; [exact R|]. split; [lia|]. split; [|intros i Hi'; apply Hi; lia].
    intros i Hi'. destruct (Nat.le_gt_cases i (first + half)); [apply (M i (first + half)%nat); auto; lia | apply Lo; lia].
  - destruct (IH first half) as (r & R & B & Lo & Hi); [lia | intros; apply P; lia | intros i j; intros; apply (M i j); auto; lia|].
    exists r. split; [exact R|]. split; [lia|]. split; [exact Lo|]. intros i Hi'.
    destruct (Nat.lt_ge_cases i (first + half)); [apply Hi; lia|].
    destruct (f i) eqn:Fi; [|reflexivity]. rewrite (M (first + half)%nat i) in F; [discriminate | lia | lia | exact Fi].
Qed.

(** The largest time so far does not fall from a block to the next. *)
Definition times_grow (h : heap) : Prop :=
  forall p b q c, h !! p = Some b -> pprev b = Some q -> h !! q = Some c -> nTimeMax c <= nTimeMax b.

Section Times.
Context (h : heap) (T : tree_ok h) (G : times_grow h).

Lemma times_grow_up (k : nat) : forall p q b c, h !! p = Some b -> up h k p = Some q -> h !! q = Some c -> nTimeMax c <= nTimeMax b.
Proof.
  induction k as [|k IH]; intros p q b c E U F; [injection U as <-; rewrite E in F; injection F as <-; lia|].
  cbn [up] in U. rewrite E in U. cbn in U. destruct (pprev b) as [r|] eqn:P; [|discriminate]. cbn in U.
  destruct (ok_prev h T p b r E P) as (d & Ed & _). pose proof (G p b r d E P Ed). pose proof (IH r q d c Ed U F). lia.
Qed.

Lemma FindEarliestAtLeast_spec (c : CChain) (tip : ptr) (t : CBlockIndex) (time : Z) :
  chain_ok h c -> Tip c = Some tip -> h !! tip = Some t ->
  exists r, FindEarliestAtLeast h c time = Ok r /\
    match r with
    | Some q => anc h tip q /\ exists d, h !! q = Some d /\ time <= nTimeMax d /\
        forall y e, anc h tip y -> h !! y = Some e -> nHeight e < nHeight d -> nTimeMax e < time
    | None => forall y e, anc h tip y -> h !! y = Some e -> nTimeMax e < time
    end.
Proof.
  intros C Ht Et. unfold chain_ok in C. unfold Tip in Ht. rewrite Ht in C. destruct C as (t' & Et' & L & C).
  rewrite Et in Et'. injection Et' as <-. pose proof (ok_height h T tip t Et) as Hh. set (v := vChain c) in *.
  set (k i := (Z.to_nat (nHeight t) - i)%nat).
  assert (B : forall i, (i < length v)%nat -> exists q d, nth i v None = Some q /\ up h (k i) tip = Some q /\ h !! q = Some d /\ nHeight d = Z.of_nat i).
  { intros i Hi. destruct (up_exists h T (k i) tip t Et ltac:(unfold k; lia)) as (q & U).
    destruct (up_height h T _ tip q t Et U) as (d & Ed & Hd). exists q, d. split; [rewrite <- U; exact (nth_error_nth _ _ _ (C i Hi))|].
    split; [exact U|]. split; [exact Ed|]. unfold k in Hd. lia. }
  set (f i := match nth i v None with Some q => match h !! q with Some d => nTimeMax d <? time | None => false end | None => false end).
  destruct (lower_bound_spec f (fun i => let* p := or_abort (nth i v None) in let* b := deref h p in Ok (GetBlockTimeMax b <? time)) (length v) 0 (length v))
    as (r & R & Br & Lo & Hi); [lia| | |].
  - intros i Hi. destruct (B i ltac:(lia)) as (q & d & Q & _ & Ed & _). unfold f, deref. rewrite Q. cbn. now rewrite Ed.
  - intros i j Hij Hj. destruct (B i ltac:(lia)) as (q & d & Q & Uq & Ed & Hd). destruct (B j ltac:(lia)) as (q' & d' & Q' & Uq' & Ed' & Hd').
    unfold f. rewrite Q, Q', Ed, Ed', !Z.ltb_lt. intros Lt.
    replace (k i) with (k j + (j - i))%nat in Uq by (unfold k; lia). rewrite (up_add h _ _ tip q' Uq') in Uq.
    pose proof (times_grow_up _ q' q d' d Ed' Uq Ed). lia.
  - assert (K : forall y e, anc h tip y -> h !! y = Some e -> (Z.to_nat (nHeight e) < r)%nat -> nTimeMax e < time).
    { intros y e A Ee He. pose proof (ok_height h T y e Ee). destruct (anc_up h T tip y t e Et A Ee) as [Le U].
      pose proof (Lo (Z.to_nat (nHeight e)) ltac:(lia)) as X. destruct (B (Z.to_nat (nHeight e)) ltac:(lia)) as (q & d & Q & Uq & Ed & Hd).
      unfold f in X. rewrite Q, Ed in X. apply Z.ltb_lt in X. unfold k in Uq.
      replace (Z.to_nat (nHeight t) - Z.to_nat (nHeight e))%nat with (Z.to_nat (nHeight t - nHeight e)) in Uq by lia. congruence. }
    unfold FindEarliestAtLeast. fold v. rewrite R. cbn [obind]. eexists. split; [reflexivity|].
    destruct (Nat.eqb_spec r (length v)) as [->|N].
    + intros y e A Ee. apply (K y e A Ee). destruct (anc_lookup h T tip y t Et A) as (e' & Ee' & He'). rewrite Ee in Ee'. injection Ee' as <-. lia.
    + destruct (B r ltac:(lia)) as (q & d & Q & Uq & Ed & Hd). rewrite Q. split; [eexists; exact Uq|]. exists d. split; [exact Ed|].
      pose proof (Hi r ltac:(lia)) as X. unfold f in X. rewrite Q, Ed in X. apply Z.ltb_ge in X. split; [exact X|].
      intros y e A Ee He. pose proof (ok_height h T y e Ee). apply (K y e A Ee). lia.
Qed.
End Times.

(** ** Locators *)

Definition hash_at (h : heap) (p : ptr) : option bytes := b ← h !! p; phashBlock b.

(** [vHave] holds the hashes of the blocks [l]. *)
Definition hashes_of (h : heap) (l : list ptr) (vHave : list bytes) : Prop := Forall2 (fun p x => hash_at h p = Some x) l vHave.

(** Every block points to its hash, and different blocks have different hashes. *)
Definition hashed (h : heap) : Prop :=
  (forall p b, h !! p = Some b -> exists x, phashBlock b = Some x) /\
  (forall p q x, hash_at h p = Some x -> hash_at h q = Some x -> p = q).

Definition lower (h : heap) (q r : ptr) : Prop :=
  forall c d, h !! q = Some c -> h !! r = Some d -> nHeight d <= nHeight c.

Section Locator.
Context (h : heap) (T : tree_ok h) (H : hashed h) (c : CChain) (C : chain_ok h c).
Context (s : ptr) (bs : CBlockIndex) (Es : h !! s = Some bs).

(** The step back, by the array or by the skip list. *)
Lemma locator_step p b height : h !! p = Some b -> 0 <= height <= nHeight b ->
  exists q d, (let* found := Contains h c p in if found then Ok (at_height c height) else GetAncestor h p height) = Ok (Some q) /\
    anc h p q /\ h !! q = Some d /\ nHeight d = height.
Proof.
  intros E Hh. destruct (GetAncestor_anc h T p b height E Hh) as (q & d & G & A & Ed & Hd). exists q, d.
  split; [|auto]. destruct (mChainTip c) as [tip|] eqn:Ht.
  - pose proof C as C'. unfold chain_ok in C'. rewrite Ht in C'. destruct C' as (t & Et & _).
    destruct (Contains_spec h T c tip t C Ht Et p b E) as ([|] & -> & V); cbn [obind]; [|exact G].
    assert (A' : anc h tip p) by now apply V. rewrite (at_height_spec h T c tip t _ C Ht Et).
    destruct (anc_up h T tip q t d Et (anc_trans h tip p q A' A) Ed) as [L U]. rewrite Hd in L, U.
    destruct (Z.leb_spec 0 height), (Z.leb_spec height (nHeight t)); try lia. cbn [andb]. now rewrite U.
  - unfold chain_ok in C. rewrite Ht in C. unfold Contains, deref, at_height. rewrite E, C. cbn [or_abort obind length len].
    destruct (_ || _); [exact G|]. now destruct (Z.to_nat (nHeight b)).
Qed.

(** The step after [n] hashes at the distance [d]. *)
Definition step_ok (nStep d : Z) (n : nat) : Prop :=
  (nStep = 1 /\ d = Z.of_nat n /\ (n <= 10)%nat) \/ ((11 <= n)%nat /\ d = 9 + nStep /\ 2 <= nStep).

(** The blocks [l] of a locator from [p] on: ancestors from high to low, one for every ancestor of
    [p] that is not much lower. *)
Record entries (p : ptr) (l : list ptr) : Prop := {
  en_anc : Forall (anc h p) l;
  en_sorted : StronglySorted (lower h) l;
  en_cover y e : anc h p y -> h !! y = Some e -> exists q d, In q l /\ h !! q = Some d /\ nHeight d <= nHeight e /\
    nHeight bs - nHeight d <= Z.max (nHeight bs - nHeight e) (2 * (nHeight bs - nHeight e) - 11)
}.

Lemma entries_last p b : h !! p = Some b -> nHeight b = 0 -> entries p [p].
Proof.
  intros E N. constructor; [repeat constructor; apply anc_refl | repeat constructor |].
  intros y e Ay Ey. exists p, b. split; [now left|]. split; [exact E|].
  pose proof (ok_height h T y e Ey). destruct (anc_up h T p y b e E Ay Ey). lia.
Qed.

Lemma entries_cons p b q d nStep n l : h !! p = Some b -> anc h p q -> h !! q = Some d ->
  step_ok nStep (nHeight bs - nHeight b) n -> nHeight d = Z.max (nHeight b - nStep) 0 ->
  entries q (q :: l) -> entries p (p :: q :: l).
Proof.
  intros E Aq Ed St Hd [Fl Sl Cov].
  assert (Fp : Forall (anc h p) (q :: l)) by (eapply Forall_impl; [|exact Fl]; intros r Ar; exact (anc_trans h p q r Aq Ar)).
  constructor; [constructor; [apply anc_refl | exact Fp]| |].
  - constructor; [exact Sl|]. eapply Forall_impl; [|exact Fp]. intros r Ar c1 d1 E1 D1. rewrite E in E1. injection E1 as <-.
    now apply (anc_up h T p r b d1 E Ar D1).
  - intros y e Ay Ey. destruct (anc_up h T p y b e E Ay Ey) as [Ly _]. destruct (Z.eq_dec (nHeight e) (nHeight b)) as [Q|Q].
    + exists p, b. split; [now left|]. split; [exact E | lia].
    + destruct (Z.le_gt_cases (nHeight e) (nHeight d)) as [L|L].
      * destruct (Cov y e (anc_linear h T p q y b d e E Aq Ay Ed Ey L) Ey) as (r & f & I & Er & B). exists r, f. split; [now right | auto].
      * exists q, d. split; [right; now left|]. split; [exact Ed|]. unfold step_ok in St. lia.
Qed.

Lemma step_next nStep d n : step_ok nStep d n -> step_ok (if 10 <? Z.of_nat n + 1 then nStep * 2 else nStep) (d + nStep) (S n).
Proof. unfold step_ok. destruct (Z.ltb_spec 10 (Z.of_nat n + 1)); lia. Qed.

Lemma locator_walk_S fuel p b x nStep vHave q : h !! p = Some b -> phashBlock b = Some x -> nHeight b <> 0 ->
  (let* found := Contains h c p in
   if found then Ok (at_height c (Z.max (nHeight b - nStep) 0)) else GetAncestor h p (Z.max (nHeight b - nStep) 0)) = Ok q ->
  nStep * 2 < 2 ^ 31 ->
  locator_walk (S fuel) h c nStep vHave (Some p) =
    locator_walk fuel h c (if 10 <? Z.of_nat (length vHave) + 1 then nStep * 2 else nStep) (vHave ++ [x]) q.
Proof.
  intros E X N R L. cbn [locator_walk]. unfold deref at 1, GetBlockHash. rewrite E. cbn [or_abort obind]. rewrite X. cbn [or_abort obind].
  destruct (Z.eqb_spec (nHeight b) 0); [contradiction|]. destruct (Contains h c p) as [found| | | |]; try discriminate.
  cbn [obind] in R |- *. rewrite R. cbn [obind].
  replace (len (vHave ++ [x])) with (Z.of_nat (length vHave) + 1) by (unfold len; rewrite length_app; cbn; lia).
  destruct (Z.leb_spec (2 ^ 31) (nStep * 2)); [lia|]. now destruct (10 <? Z.of_nat (length vHave) + 1).
Qed.

Lemma locator_walk_spec (fuel : nat) : forall p b nStep vHave,
  h !! p = Some b -> anc h s p -> nHeight bs < 2 ^ 30 -> (Z.to_nat (nHeight b) < fuel)%nat ->
  (nHeight b = 0 \/ step_ok nStep (nHeight bs - nHeight b) (length vHave)) ->
  exists l hs, locator_walk fuel h c nStep vHave (Some p) = Ok (vHave ++ hs) /\ hashes_of h (p :: l) hs /\ entries p (p :: l).
Proof.
  induction fuel as [|fuel IH]; intros p b nStep vHave E A Ht Hf St; [lia|].
  pose proof (ok_height h T p b E) as Hb. destruct (anc_up h T s p bs b Es A E) as [Lb _].
  destruct (proj1 H p b E) as (x & X). assert (Hx : hash_at h p = Some x) by (unfold hash_at; rewrite E; exact X).
  destruct (Z.eqb_spec (nHeight b) 0) as [N|N].
  - exists [], [x]. split; [|split; [repeat constructor; exact Hx | now apply (entries_last p b)]].
    cbn [locator_walk]. unfold deref, GetBlockHash. rewrite E. cbn [or_abort obind]. rewrite X. cbn [or_abort obind]. now rewrite N.
  - destruct St as [St|St]; [contradiction|]. assert (Hs : 1 <= nStep < 2 ^ 30) by (unfold step_ok in St; lia).
    destruct (locator_step p b (Z.max (nHeight b - nStep) 0) E ltac:(lia)) as (q & d & R & Aq & Ed & Hd).
    rewrite (locator_walk_S fuel p b x nStep vHave (Some q) E X N R ltac:(lia)).
    destruct (IH q d (if 10 <? Z.of_nat (length vHave) + 1 then nStep * 2 else nStep) (vHave ++ [x]) Ed (anc_trans h s p q A Aq) Ht ltac:(lia))
      as (l & hs & W & Hl & En).
    { destruct (Z.eq_dec (nHeight d) 0) as [Z0|Z0]; [now left|]. right. rewrite length_app, Nat.add_1_r.
      replace (nHeight bs - nHeight d) with (nHeight bs - nHeight b + nStep) by lia. now apply step_next. }
    exists (q :: l), (x :: hs). split; [rewrite W, <- app_assoc; reflexivity|]. split; [now constructor|].
    exact (entries_cons p b q d nStep _ l E Aq Ed St Hd En).
Qed.

Lemma GetLocator_spec : nHeight bs < 2 ^ 30 ->
  exists l hs, GetLocator h c (Some s) = Ok hs /\ hashes_of h l hs /\ entries s l.
Proof.
  intros Ht. pose proof (ok_height h T s bs Es) as Hb. unfold GetLocator, deref. rewrite Es. cbn [or_abort obind].
  destruct (locator_walk_spec (Z.to_nat (nHeight bs + 2)) s bs 1 [] Es (anc_refl h s) Ht ltac:(lia)) as (l & hs & W & Hl & En);
    [right; left; cbn; lia|]. exists (s :: l), hs. now split.
Qed.
End Locator.

(** ** Finding the fork with a locator *)

(** The index of a node: it maps hashes to blocks with these hashes, and knows the node's chain. *)
Definition index_ok (h : heap) (M : BlockMap) (tip : ptr) : Prop :=
  (forall x p, M !! x = Some p -> hash_at h p = Some x) /\
  (forall p x, anc h tip p -> hash_at h p = Some x -> M !! x = Some p).

Section Find.
Context (h : heap) (T : tree_ok h) (H : hashed h) (M : BlockMap) (c : CChain) (tip : ptr) (t : CBlockIndex).
Context (C : chain_ok h c) (Ht : Tip c = Some tip) (Et : h !! tip = Some t) (I : index_ok h M tip).

(** What is tried for one hash of the locator. *)
Lemma find_entry p b x vHave : h !! p = Some b -> hash_at h p = Some x ->
  (exists r, find_in_locator h M c (x :: vHave) = Ok (Some r) /\ anc h p r /\ anc h tip r /\ (r = p \/ r = tip)) \/
  (find_in_locator h M c (x :: vHave) = find_in_locator h M c vHave /\ ~ anc h tip p).
Proof.
  intros E X. cbn [find_in_locator]. destruct (M !! x) as [p'|] eqn:L.
  - assert (p' = p) as -> by exact (proj2 H p' p x (proj1 I x p' L) X).
    destruct (Contains_spec h T c tip t C Ht Et p b E) as ([|] & -> & V); cbn [obind].
    { left. exists p. split; [reflexivity|]. split; [apply anc_refl|]. split; [now apply V | now left]. }
    rewrite (Height_spec h c tip t Ht Et). cbn [obind]. rewrite (GetAncestor_spec h T p b _ E). cbn [obind]. rewrite Ht.
    destruct (ptr_eqb _ (Some tip)) eqn:Q; [|right; split; [reflexivity | intros A; apply V in A; discriminate]].
    apply ptr_eqb_spec in Q. left. exists tip. split; [reflexivity|]. destruct (_ && _); [|discriminate].
    split; [eexists; exact Q|]. split; [apply anc_refl | now right].
  - right. split; [reflexivity|]. intros A. rewrite (proj2 I p x A X) in L. discriminate.
Qed.

Lemma find_in_locator_spec s l hs : hashes_of h l hs -> Forall (anc h s) l -> StronglySorted (lower h) l ->
  (exists q, In q l /\ anc h tip q) ->
  exists r, find_in_locator h M c hs = Ok (Some r) /\ anc h s r /\ anc h tip r /\ forall q, In q l -> anc h tip q -> anc h r q.
Proof.
  intros Hh. induction Hh as [|p x l hs X Hh IH]; intros Fl Sl (q & Iq & Aq); [destruct Iq|].
  apply Forall_cons_iff in Fl as [Ap Fl]. inversion Sl as [|? ? Sl' Lo]; subst.
  assert (E : exists b, h !! p = Some b) by (unfold hash_at in X; destruct (h !! p) as [b|]; [now exists b | discriminate]).
  destruct E as (b & E). destruct (find_entry p b x hs E X) as [(r & R & A1 & A2 & Cs)|[R N]]; rewrite R.
  - exists r. split; [reflexivity|]. split; [exact (anc_trans h s p r Ap A1)|]. split; [exact A2|]. intros z Iz Az.
    destruct Cs as [->| ->]; [|exact Az]. destruct (anc_lookup h T tip z t Et Az) as (d & Ed & _).
    apply (anc_linear h T tip p z t b d Et A2 Az E Ed). destruct Iz as [<-|Iz]; [rewrite E in Ed; injection Ed as <-; lia|].
    rewrite Stdlib.Lists.List.Forall_forall in Lo. exact (Lo z Iz b d E Ed).
  - assert (S : forall z, In z (p :: l) -> anc h tip z -> In z l) by (intros z [<-|Iz] Az; [contradiction | exact Iz]).
    destruct (IH Fl Sl' (ex_intro _ q (conj (S q Iq Aq) Aq))) as (r & R' & A1 & A2 & B). exists r. split; [exact R'|].
    split; [exact A1|]. split; [exact A2|]. intros z Iz Az. exact (B z (S z Iz Az) Az).
Qed.
End Find.

(** ** Properties *)

(** The two chains of the sample tree. *)
Definition chain_a : CChain := mkChain [Some 1; Some 2; Some 3; Some 4]%positive (Some 4%positive).
Definition chain_b : CChain := mkChain [Some 1; Some 2; Some 5]%positive (Some 5%positive).
Lemma chain_a_ok : chain_ok sample_heap chain_a.
Proof. eexists. split; [reflexivity|]. split; [reflexivity|]. intros i Hi. cbn in Hi. now do 4 (destruct i as [|i]; [reflexivity|]); lia. Qed.
Lemma chain_b_ok : chain_ok sample_heap chain_b.
Proof. eexists. split; [reflexivity|]. split; [reflexivity|]. intros i Hi. cbn in Hi. now do 3 (destruct i as [|i]; [reflexivity|]); lia. Qed.

(** switching the active chain. In a tree of blocks [SetTip], which stops at the first block the
    array already holds, always ends and leaves the array with exactly the ancestors of the new
    tip, each at its height, whatever chain the array held; so [operator[]] at any height gives
    what [GetAncestor] of the tip does. *)
Theorem SetTip_correct (h : heap) (c : CChain) (p : ptr) (b : CBlockIndex) :
  tree_ok h -> chain_ok h c -> h !! p = Some b ->
  exists c', SetTip h c (Some p) = Ok c' /\ chain_ok h c' /\ Tip c' = Some p /\ Height h c' = Ok (nHeight b) /\
    forall i, GetAncestor h p i = Ok (at_height c' i).
Proof.
  intros T C E. destruct (SetTip_spec h T c p b C E) as (c' & S & C' & Ht). exists c'.
  split; [exact S|]. split; [exact C'|]. split; [exact Ht|]. split; [exact (Height_spec h c' p b Ht E)|].
  intros i. now rewrite (GetAncestor_spec h T p b i E), (at_height_spec h T c' p b i C' Ht E).
Qed.

Lemma SetTip_correct_witness : exists c', SetTip sample_heap chain_a (Some 5%positive) = Ok c' /\ chain_ok sample_heap c' /\
  Tip c' = Some 5%positive /\ Height sample_heap c' = Ok 2 /\ forall i, GetAncestor sample_heap 5 i = Ok (at_height c' i).
Proof. exact (SetTip_correct sample_heap chain_a 5 _ sample_ok chain_a_ok eq_refl). Defined.

(** forks. For a chain and a block of the same tree, [Contains] tells whether the block is the tip
    or before it, [Next] gives the block of the chain after it, and [FindFork] and
    [LastCommonAncestor] give the last block that the chain, or another block, shares with it;
    they give the null pointer exactly when there is none. *)
Theorem FindFork_correct (h : heap) (c : CChain) (tip p : ptr) (t b : CBlockIndex) :
  tree_ok h -> chain_ok h c -> Tip c = Some tip -> h !! tip = Some t -> h !! p = Some b ->
  (exists v, Contains h c p = Ok v /\ (v = true <-> anc h tip p)) /\
  (exists r, Next h c p = Ok r /\
     match r with
     | Some q => anc h tip q /\ exists d, h !! q = Some d /\ pprev d = Some p
     | None => p = tip \/ ~ anc h tip p
     end) /\
  (exists r, FindFork h c (Some p) = Ok r /\ last_common h p tip r) /\
  (exists r, LastCommonAncestor h p tip = Ok r /\ last_common h p tip r).
Proof.
  intros T C Ht Et E. split; [exact (Contains_spec h T c tip t C Ht Et p b E)|]. split; [exact (Next_spec h T c tip t C Ht Et p b E)|].
  split; [exact (FindFork_spec h T c tip t C Ht Et p b E) | exact (LastCommonAncestor_spec h T p tip b t E Et)].
Qed.

Lemma FindFork_correct_witness :
  exists r, FindFork sample_heap chain_a (Some 5%positive) = Ok r /\ last_common sample_heap 5 4 r.
Proof. exact (proj1 (proj2 (proj2 (FindFork_correct sample_heap chain_a 4 5 _ _ sample_ok chain_a_ok eq_refl eq_refl eq_refl)))). Defined.

(** C30: finding the fork with a peer. A peer describes its chain by a locator of a block of it and a
    node looks up the first entry it can use. Whatever chains the two follow, if the blocks have
    an ancestor in common the node finds a common ancestor, and it is not far from the last one:
    exactly the last one when that is at most 11 blocks back, and otherwise less than twice as
    far back. *)
Theorem locator_finds_fork (h : heap) (M : BlockMap) (c1 c2 : CChain) (s tip f : ptr) (bs t e : CBlockIndex) :
  tree_ok h -> hashed h -> chain_ok h c1 -> chain_ok h c2 -> Tip c2 = Some tip -> index_ok h M tip ->
  h !! s = Some bs -> h !! tip = Some t -> h !! f = Some e -> nHeight bs < 2 ^ 30 -> last_common h s tip (Some f) ->
  exists loc r d, GetLocator h c1 (Some s) = Ok loc /\ FindForkInGlobalIndex h M c2 loc = Ok (Some r) /\
    h !! r = Some d /\ anc h s r /\ anc h tip r /\
    nHeight bs - nHeight d <= Z.max (nHeight bs - nHeight e) (2 * (nHeight bs - nHeight e) - 11) /\
    (nHeight bs - nHeight e <= 11 -> r = f).
Proof.
  intros T H C1 C2 Ht I Es Et Ef L (F1 & F2 & F3).
  destruct (GetLocator_spec h T H c1 C1 s bs Es L) as (l & hs & G & Hh & [En Sl Cov]).
  destruct (Cov f e F1 Ef) as (q & d & Iq & Ed & Hq & B). rewrite Stdlib.Lists.List.Forall_forall in En.
  assert (Aq : anc h tip q) by exact (anc_trans h tip f q F2 (anc_linear h T s f q bs e d Es F1 (En q Iq) Ef Ed Hq)).
  destruct (find_in_locator_spec h T H M c2 tip t C2 Ht Et I s l hs Hh) as (r & R & A1 & A2 & Br);
    [rewrite Stdlib.Lists.List.Forall_forall; exact En | exact Sl | now exists q|].
  destruct (anc_lookup h T tip r t Et A2) as (g & Eg & _). destruct (anc_up h T r q g d Eg (Br q Iq Aq) Ed) as [Lr _].
  exists hs, r, g. split; [exact G|]. split; [exact R|]. split; [exact Eg|]. split; [exact A1|]. split; [exact A2|]. split; [lia|].
  intros K. destruct (anc_up h T f r e g Ef (F3 r A1 A2) Eg) as [Lf _].
  apply (anc_unique h T s r f bs g e Es A1 F1 Eg Ef). lia.
Qed.

Definition map_b : BlockMap :=
  <[repeat 100 32 := 1%positive]> (<[repeat 101 32 := 2%positive]> (<[repeat 105 32 := 5%positive]> ∅)).

Ltac heap_cases E := repeat (apply lookup_insert_Some in E as [[<- <-]|[_ E]]); [.. | now rewrite lookup_empty in E].

Lemma sample_hashed : hashed sample_heap.
Proof.
  split.
  - intros p b E. unfold sample_heap in E. heap_cases E; eexists; reflexivity.
  - intros p q x Hp Hq. unfold hash_at in *. destruct (sample_heap !! p) as [b|] eqn:E; [|discriminate].
    destruct (sample_heap !! q) as [d|] eqn:F; [|discriminate]. cbn in Hp, Hq. rewrite <- Hq in Hp. clear Hq.
    unfold sample_heap in E, F. heap_cases E; heap_cases F; (reflexivity || discriminate).
Qed.

Lemma map_b_ok : index_ok sample_heap map_b 5.
Proof.
  split.
  - intros x p E. unfold map_b in E. heap_cases E; reflexivity.
  - intros p x [k U]. do 3 (destruct k as [|k]; [injection U as <-; intros X; injection X as <-; reflexivity|]). discriminate.
Qed.

Lemma sample_fork : last_common sample_heap 4 5 (Some 2%positive).
Proof.
  split; [now exists 2%nat|]. split; [now exists 1%nat|]. intros y [k U] [j V].
  destruct k as [|[|[|[|k]]]], j as [|[|[|j]]]; vm_compute in U, V; try discriminate; injection U as <-; try discriminate V;
    first [now exists 0%nat | now exists 1%nat].
Qed.

Lemma locator_finds_fork_witness : exists loc r d,
  GetLocator sample_heap chain_a (Some 4%positive) = Ok loc /\ FindForkInGlobalIndex sample_heap map_b chain_b loc = Ok (Some r) /\
  sample_heap !! r = Some d /\ anc sample_heap 4 r /\ anc sample_heap 5 r /\
  3 - nHeight d <= Z.max (3 - 1) (2 * (3 - 1) - 11) /\ (3 - 1 <= 11 -> r = 2%positive).
Proof.
  refine (locator_finds_fork sample_heap map_b chain_a chain_b 4 5 2 _ _ _ sample_ok sample_hashed chain_a_ok chain_b_ok eq_refl map_b_ok
    eq_refl eq_refl eq_refl _ sample_fork). cbn. lia.
Defined.

(** the search by time. In a tree in which the largest time so far does not fall along a chain,
    the binary search of [FindEarliestAtLeast] reads no null pointer and gives the first block of
    the chain at which the largest time so far reaches the time asked for, or the null pointer if
    there is none. *)
Theorem FindEarliestAtLeast_correct (h : heap) (c : CChain) (tip : ptr) (t : CBlockIndex) (time : Z) :
  tree_ok h -> times_grow h -> chain_ok h c -> Tip c = Some tip -> h !! tip = Some t ->
  exists r, FindEarliestAtLeast h c time = Ok r /\
    match r with
    | Some q => anc h tip q /\ exists d, h !! q = Some d /\ time <= nTimeMax d /\
        forall y e, anc h tip y -> h !! y = Some e -> nHeight e < nHeight d -> nTimeMax e < time
    | None => forall y e, anc h tip y -> h !! y = Some e -> nTimeMax e < time
    end.
Proof. intros T G C Ht Et. exact (FindEarliestAtLeast_spec h T G c tip t time C Ht Et). Qed.

Lemma sample_times : times_grow sample_heap.
Proof.
  intros p b q c E P F. unfold sample_heap in E. heap_cases E; cbn in P; try discriminate P; injection P as <-; vm_compute in F;
    injection F as <-; cbn; lia.
Qed.

Lemma FindEarliestAtLeast_correct_witness : exists r, FindEarliestAtLeast sample_heap chain_a 105 = Ok r /\
  match r with
  | Some q => anc sample_heap 4 q /\ exists d, sample_heap !! q = Some d /\ 105 <= nTimeMax d /\
      forall y e, anc sample_heap 4 y -> sample_heap !! y = Some e -> nHeight e < nHeight d -> nTimeMax e < 105
  | None => forall y e, anc sample_heap 4 y -> sample_heap !! y = Some e -> nTimeMax e < 105
  end.
Proof. exact (FindEarliestAtLeast_correct sample_heap chain_a 4 _ 105 sample_ok sample_times chain_a_ok eq_refl eq_refl). Defined.
End Chain.
