(* ===== verification/Pow.v ===== *)
(** * Proof of work (src/src/pow.cpp, src/src/consensus/params.h)

    The check of a block hash against its target, and the difficulty that the next block must have:
    the original retargeting with the emergency adjustment, the adjustment by the work of the last
    144 blocks, and its variant with bounded steps from height 824189 on. *)

From stdpp Require Import gmap.
From S2P Require Import Prelude Endian IntSerialization Outcome ScriptNum ArithUint256 Block BlockIndex Chain.
Import Endian ArithUint256 Block BlockIndex Chain.

Module Pow.
Local Open Scope Z_scope.
Local Open Scope outcome_scope.

(** The members of [Consensus::Params] that the difficulty depends on. *)
Record Params : Type := mkParams {
  powLimit : bytes;
  fPowAllowMinDifficultyBlocks : bool;
  fPowNoRetargeting : bool;
  nPowTargetSpacing : Z;
  nPowTargetTimespan : Z;
  daaHeight : Z
}.

(** Integer division of C++ truncates; division by zero is undefined. *)
Definition quot (a b : Z) : outcome Z := if b =? 0 then Abort else Ok (Z.quot a b).

Definition DifficultyAdjustmentInterval (params : Params) : outcome Z :=
  quot (nPowTargetTimespan params) (nPowTargetSpacing params).

Definition CheckProofOfWork (hash : bytes) (nBits : Z) (params : Params) : bool :=
  let '(bnTarget, fNegative, fOverflow) := SetCompact nBits in
  if fNegative || EqualTo bnTarget 0 || fOverflow || gt bnTarget (UintToArith256 (powLimit params)) then false
  else if gt (UintToArith256 hash) bnTarget then false
  else true.

(** [bnNew *= nActualTimespan] selects the operator for [uint32_t], and the divisions convert to
    [uint64_t]. *)
Definition CalculateNextWorkRequired (pindexPrev : CBlockIndex) (nFirstBlockTime : Z) (params : Params) : outcome Z :=
  if fPowNoRetargeting params then Ok (nBits pindexPrev)
  else
    let timespan := nPowTargetTimespan params in
    let nActualTimespan := GetBlockTime pindexPrev - nFirstBlockTime in
    let nActualTimespan := if nActualTimespan <? Z.quot timespan 4 then Z.quot timespan 4 else nActualTimespan in
    let nActualTimespan := if timespan * 4 <? nActualTimespan then timespan * 4 else nActualTimespan in
    let bnPowLimit := UintToArith256 (powLimit params) in
    let '(bnNew, _, _) := SetCompact (nBits pindexPrev) in
    let bnNew := mul32 bnNew nActualTimespan in
    let* bnNew := div bnNew (of_u64 (u64 timespan)) in
    let bnNew := if gt bnNew bnPowLimit then bnPowLimit else bnNew in
    GetCompact bnNew false.

(** [while (pindex->pprev && pindex->nHeight % interval != 0 && pindex->nBits == nProofOfWorkLimit)] *)
Fixpoint last_regular (fuel : nat) (h : heap) (interval limit : Z) (pindex : ptr) : outcome Z :=
  match fuel with
  | O => Abort
  | S fuel =>
      let* b := deref h pindex in
      match pprev b with
      | Some prev =>
          if negb (Z.rem (nHeight b) interval =? 0) && (nBits b =? limit) then last_regular fuel h interval limit prev
          else Ok (nBits b)
      | None => Ok (nBits b)
      end
  end.

Definition GetNextEDAWorkRequired (h : heap) (pindexPrev : ptr) (pblock : CBlockHeader) (params : Params) : outcome Z :=
  let* prev := deref h pindexPrev in
  let height := u32 (nHeight prev + 1) in
  let* interval := DifficultyAdjustmentInterval params in
  if interval =? 0 then Abort
  else if Z.rem height interval =? 0 then
    assert_ (interval <=? height) (
      let* first := GetAncestor h pindexPrev (i32 (u32 (height - interval))) in
      let* first := or_abort first in
      let* first := deref h first in
      CalculateNextWorkRequired prev (GetBlockTime first) params)
  else
    let* nProofOfWorkLimit := GetCompact (UintToArith256 (powLimit params)) false in
    if fPowAllowMinDifficultyBlocks params then
      if GetBlockTime prev + 2 * nPowTargetSpacing params <? hdr_GetBlockTime pblock then Ok nProofOfWorkLimit
      else last_regular (Z.to_nat (nHeight prev + 1)) h interval nProofOfWorkLimit pindexPrev
    else if nBits prev =? nProofOfWorkLimit then Ok nProofOfWorkLimit
    else
      let* pindex6 := GetAncestor h pindexPrev (i32 (u32 (height - 7))) in
      let* pindex6 := or_abort pindex6 in
      let* m1 := GetMedianTimePast h pindexPrev in
      let* m6 := GetMedianTimePast h pindex6 in
      if m1 - m6 <? 12 * 3600 then Ok (nBits prev)
      else
        let '(nPow, _, _) := SetCompact (nBits prev) in
        let nPow := add nPow (shr nPow 2) in
        let bnPowLimit := UintToArith256 (powLimit params) in
        let nPow := if gt nPow bnPowLimit then bnPowLimit else nPow in
        GetCompact nPow false.

(** The target for the work done between two blocks. *)
Definition ComputeTarget (pindexFirst pindexLast : CBlockIndex) (spacing : Z) : outcome base_uint :=
  assert_ (nHeight pindexFirst <? nHeight pindexLast) (
    let work := sub (nChainWork pindexLast) (nChainWork pindexFirst) in
    let work := mul32 work spacing in
    let nActualTimespan := nTime pindexLast - nTime pindexFirst in
    let nActualTimespan :=
      if 288 * spacing <? nActualTimespan then 288 * spacing
      else if nActualTimespan <? 72 * spacing then 72 * spacing else nActualTimespan in
    let* work := div work (of_u64 (u64 nActualTimespan)) in
    div (neg work) work).

(** [std::swap] of two entries when the first is later *)
Definition order (x y : ptr * CBlockIndex) : (ptr * CBlockIndex) * (ptr * CBlockIndex) :=
  if nTime (snd y) <? nTime (snd x) then (y, x) else (x, y).

(** The median by time of a block and the two before it. *)
Definition GetSuitableBlock (h : heap) (pindex : ptr) : outcome ptr :=
  let* b2 := deref h pindex in
  assert_ (3 <=? nHeight b2) (
    let* p1 := or_abort (pprev b2) in
    let* b1 := deref h p1 in
    let* p0 := or_abort (pprev b1) in
    let* b0 := deref h p0 in
    let '(x0, x2) := order (p0, b0) (pindex, b2) in
    let '(x0, x1) := order x0 (p1, b1) in
    let '(x1, x2) := order x1 x2 in
    Ok (fst x1)).

Definition GetPromisedBlocks (h : heap) (pindexPrev : ptr) (backNum : Z) (params : Params) : outcome Z :=
  let* prev := deref h pindexPrev in
  let nHeightFirst := u32 (u32 (nHeight prev) - u32 backNum) in
  let* first := GetAncestor h pindexPrev (i32 nHeightFirst) in
  let* first := or_abort first in
  let* first := deref h first in
  let time := u32 (nTime prev - nTime first) in
  quot time (u64 (nPowTargetSpacing params)).

Definition GetNewBlockSpacing (h : heap) (pindexPrev : ptr) (backNum : Z) (params : Params) : outcome Z :=
  let* nPromisedBlocks := GetPromisedBlocks h pindexPrev (i32 backNum) params in
  if backNum <? nPromisedBlocks then
    let nPromisedBlocks := if u64 (backNum * 2) <? nPromisedBlocks then u64 (backNum * 2) else nPromisedBlocks in
    quot (u64 (nPowTargetSpacing params * backNum)) nPromisedBlocks
  else Ok (u64 (nPowTargetSpacing params)).

(** The target from height 824189 on: at most one sixteenth from that of the last block. *)
Definition bounded_target (h : heap) (pindexPrev : ptr) (prev first last : CBlockIndex) (limit : base_uint) (params : Params)
  : outcome base_uint :=
  let* NewBlockSpacing := GetNewBlockSpacing h pindexPrev 8064 params in
  let '(prevTarget, _, _) := SetCompact (nBits prev) in
  let prevTargetUpLimit := add prevTarget (shr prevTarget 4) in
  let prevTargetUpLimit := if ge prevTargetUpLimit limit then limit else prevTargetUpLimit in
  let prevTargetDnLimit := sub prevTarget (shr prevTarget 4) in
  let* nextTarget := ComputeTarget first last (i64 NewBlockSpacing) in
  if gt nextTarget prevTargetUpLimit then Ok prevTargetUpLimit
  else
    let* pindex12 := GetAncestor h pindexPrev (nHeight prev - 12) in
    let* pindex12 := or_abort pindex12 in
    let* m := GetMedianTimePast h pindexPrev in
    let* m12 := GetMedianTimePast h pindex12 in
    if 6 * 3600 <? m - m12 then Ok prevTargetUpLimit
    else Ok (if lt nextTarget prevTargetDnLimit then prevTargetDnLimit else nextTarget).

Definition GetNextCashWorkRequired (h : heap) (pindexPrev : ptr) (pblock : CBlockHeader) (params : Params) : outcome Z :=
  let* prev := deref h pindexPrev in
  let limit := UintToArith256 (powLimit params) in
  if fPowAllowMinDifficultyBlocks params && (GetBlockTime prev + 2 * nPowTargetSpacing params <? hdr_GetBlockTime pblock)
  then GetCompact limit false
  else
    let height := u32 (nHeight prev) in
    let* interval := DifficultyAdjustmentInterval params in
    assert_ (interval <=? height) (
      let* pindexLast := GetSuitableBlock h pindexPrev in
      let* back := GetAncestor h pindexPrev (i32 (u32 (height - 144))) in
      let* back := or_abort back in
      let* pindexFirst := GetSuitableBlock h back in
      let* first := deref h pindexFirst in
      let* last := deref h pindexLast in
      if 824189 <=? nHeight prev then
        let* nextTarget := bounded_target h pindexPrev prev first last limit params in
        GetCompact nextTarget false
      else
        let* nextTarget := ComputeTarget first last (i64 (u64 (nPowTargetSpacing params))) in
        if gt nextTarget limit then GetCompact limit false else GetCompact nextTarget false).

Definition IsDAAEnabled (params : Params) (height : Z) : bool := daaHeight params <=? height.

(** The height is read before the test for the null pointer. *)
Definition GetNextWorkRequired (h : heap) (pindexPrev : option ptr) (pblock : CBlockHeader) (params : Params) : outcome Z :=
  let* p := or_abort pindexPrev in
  let* prev := deref h p in
  if nHeight prev =? 824188 then Ok 0x1d00ffff
  else if fPowNoRetargeting params then Ok (nBits prev)
  else if IsDAAEnabled params (nHeight prev) then GetNextCashWorkRequired h p pblock params
  else GetNextEDAWorkRequired h p pblock params.

(** ** Lemmas *)

Lemma UintToArith256_words (a : bytes) (n : nat) : forall i, bytes_ok a -> length a = (4 * (i + n))%nat ->
  let l := map (fun x => ReadLE32 (skipn (x * 4) a)) (seq i n) in
  words l /\ length l = n /\ val l = le_decode (skipn (i * 4) a).
Proof.
  induction n as [|n IH]; intros i Ha La; cbv zeta; cbn [seq map].
  - split; [constructor|]. split; [reflexivity|]. now rewrite skipn_all2 by lia.
  - destruct (IH (S i) Ha ltac:(lia)) as (Iw & Il & Iv). cbv zeta in *.
    pose proof (le_decode_range (firstn 4 (skipn (i * 4) a)) (Forall_firstn _ _ _ (Forall_skipn _ _ _ Ha))) as R.
    assert (L4 : len (firstn 4 (skipn (i * 4) a)) = 4) by (unfold len; rewrite length_firstn, length_skipn; lia). rewrite L4 in R.
    split; [constructor; [exact R | exact Iw]|]. split; [cbn [length]; now rewrite Il|].
    cbn [val]. rewrite Iv. rewrite <- (firstn_skipn 4 (skipn (i * 4) a)) at 2. rewrite le_decode_app, L4, skipn_skipn.
    unfold ReadLE32. do 3 f_equal.
Qed.

Lemma UintToArith256_spec (a : bytes) : bytes_ok a -> length a = 32%nat ->
  uint_ok (UintToArith256 a) /\ val (UintToArith256 a) = le_decode a.
Proof. intros Ha La. destruct (UintToArith256_words a 8 0 Ha La) as (Hw & Hl & Hv). now repeat split. Qed.

Lemma GetCompact_spec (a : base_uint) : uint_ok a ->
  exists c, GetCompact a false = Ok c /\ 0 <= c < 2 ^ 32 /\ negative c = false /\
    0 <= target c <= val a /\ (val a - target c) * 2 ^ 15 <= val a.
Proof.
  intros Ha. pose proof (uint_range a Ha). destruct (compact_read_back a false Ha) as (c & y & G & Rc & Sc & Oy & Ly & By & _).
  destruct (SetCompact_spec c Rc) as (y' & Oy' & Vy & Sc'). rewrite Sc in Sc'. injection Sc' as <- En Eo.
  pose proof (target_nonneg c ltac:(lia)). symmetry in Eo. apply Z.leb_gt in Eo. rewrite Z.mod_small in Vy by lia.
  exists c. split; [exact G|]. split; [exact Rc|]. split; [now rewrite <- En|]. lia.
Qed.

(** A target a block may have: usable and at most the limit. *)
Definition valid_bits (limit : Z) (bits : Z) : Prop :=
  0 <= bits < 2 ^ 32 /\ usable bits = true /\ target bits <= limit.

Lemma usable_spec (bits : Z) : 0 <= bits -> usable bits = true <-> negative bits = false /\ 1 <= target bits < 2 ^ 256.
Proof.
  intros H. pose proof (target_nonneg bits H). unfold usable. rewrite !andb_true_iff, !negb_true_iff, Z.leb_gt, Z.eqb_neq. intuition lia.
Qed.

Lemma SetCompact_valid (limit bits : Z) : valid_bits limit bits ->
  exists y, SetCompact bits = (y, false, false) /\ uint_ok y /\ val y = target bits /\ 1 <= target bits < 2 ^ 256.
Proof.
  intros (R & U & L). apply usable_spec in U as [N B]; [|lia]. destruct (SetCompact_spec bits R) as (y & Oy & Vy & E).
  exists y. rewrite E, N. rewrite Z.mod_small in Vy by lia. destruct (Z.leb_spec (2 ^ 256) (target bits)); [lia | auto].
Qed.

(** Rounding to the compact form keeps a target valid. *)
Lemma GetCompact_valid (limit : Z) (a : base_uint) : uint_ok a -> 1 <= val a <= limit ->
  exists c, GetCompact a false = Ok c /\ valid_bits limit c /\ target c <= val a /\ (val a - target c) * 2 ^ 15 <= val a.
Proof.
  intros Ha L. pose proof (uint_range a Ha). destruct (GetCompact_spec a Ha) as (c & G & Rc & N & B & K).
  exists c. split; [exact G|]. split; [|lia]. split; [exact Rc|]. split; [|lia]. apply usable_spec; [lia|]. split; [exact N | lia].
Qed.

Definition params_ok (P : Params) : Prop :=
  bytes_ok (powLimit P) /\ length (powLimit P) = 32%nat /\ 0xffff * 2 ^ 208 <= le_decode (powLimit P) < 2 ^ 224 /\
  nPowTargetSpacing P = 600 /\ nPowTargetTimespan P = 1209600.

Lemma CheckProofOfWork_spec (hash : bytes) (bits : Z) (P : Params) :
  bytes_ok hash -> length hash = 32%nat -> bytes_ok (powLimit P) -> length (powLimit P) = 32%nat -> 0 <= bits < 2 ^ 32 ->
  CheckProofOfWork hash bits P = usable bits && (target bits <=? le_decode (powLimit P)) && (le_decode hash <=? target bits).
Proof.
  intros Hh Lh Hp Lp Hb. destruct (UintToArith256_spec hash Hh Lh) as [Oh Vh]. destruct (UintToArith256_spec _ Hp Lp) as [Op Vp].
  destruct (SetCompact_spec bits Hb) as (y & Oy & Vy & E). pose proof (target_nonneg bits ltac:(lia)).
  unfold CheckProofOfWork, usable. rewrite E, EqualTo_zero, !gt_spec, Vh, Vp, Vy by assumption.
  destruct (negative bits); [reflexivity|]. cbn [orb negb andb].
  destruct (Z.leb_spec (2 ^ 256) (target bits)); [now rewrite orb_true_r|]. rewrite Z.mod_small by lia. cbn [negb andb].
  destruct (Z.eqb_spec (target bits) 0), (Z.ltb_spec (le_decode (powLimit P)) (target bits)), (Z.leb_spec (target bits) (le_decode (powLimit P))),
    (Z.ltb_spec (target bits) (le_decode hash)), (Z.leb_spec (le_decode hash) (target bits)); try lia; reflexivity.
Qed.

(** ** The work of a stretch of blocks *)

(** Every block has a valid target within the limit, times and heights are within their types, and
    the work of a block is that of its predecessor plus its own, far from the end of the range. *)
Record work_ok (h : heap) (limit : Z) : Prop := {
  wk_bits p b : h !! p = Some b -> valid_bits limit (nBits b);
  wk_time p b : h !! p = Some b -> 0 <= nTime b < 2 ^ 32;
  wk_height p b : h !! p = Some b -> nHeight b < 2 ^ 31 - 1;
  wk_work p b : h !! p = Some b -> uint_ok (nChainWork b) /\ val (nChainWork b) < 2 ^ 240;
  wk_sum p b q c : h !! p = Some b -> pprev b = Some q -> h !! q = Some c ->
    val (nChainWork b) = val (nChainWork c) + 2 ^ 256 / (target (nBits b) + 1)
}.

Lemma proof_lower (limit bits : Z) : valid_bits limit bits -> limit < 2 ^ 224 -> 2 ^ 32 <= 2 ^ 256 / (target bits + 1).
Proof.
  intros (R & U & L) H. apply usable_spec in U as [_ B]; [|lia]. apply Z.div_le_lower_bound; [lia|].
  change (2 ^ 256) with (2 ^ 224 * 2 ^ 32). nia.
Qed.

Section Work.
Context (h : heap) (T : tree_ok h) (P : Params) (HP : params_ok P) (K : work_ok h (le_decode (powLimit P))).

Lemma work_up (k : nat) : forall p q b c, h !! p = Some b -> up h k p = Some q -> h !! q = Some c ->
  val (nChainWork c) + Z.of_nat k * 2 ^ 32 <= val (nChainWork b).
Proof.
  destruct HP as (_ & _ & L & _).
  induction k as [|k IH]; intros p q b c E U F; [injection U as <-; rewrite E in F; injection F as <-; lia|].
  cbn [up] in U. rewrite E in U. cbn in U. destruct (pprev b) as [r|] eqn:R; [|discriminate]. cbn in U.
  destruct (ok_prev h T p b r E R) as (d & Ed & _). pose proof (IH r q d c Ed U F).
  pose proof (wk_sum _ _ K p b r d E R Ed). pose proof (proof_lower _ _ (wk_bits _ _ K p b E) ltac:(lia)). lia.
Qed.

(** The block of [GetSuitableBlock] is one of the three, and its time is the median. *)
Lemma GetSuitableBlock_spec p b : h !! p = Some b -> 3 <= nHeight b ->
  exists q c k b1 b0 p1 p0, GetSuitableBlock h p = Ok q /\ h !! q = Some c /\ up h k p = Some q /\ (k <= 2)%nat /\
    up h 1 p = Some p1 /\ up h 2 p = Some p0 /\ h !! p1 = Some b1 /\ h !! p0 = Some b0 /\
    nTime c = Z.max (Z.min (nTime b0) (nTime b1)) (Z.min (Z.max (nTime b0) (nTime b1)) (nTime b)).
Proof.
  intros E H. destruct (pprev b) as [p1|] eqn:P1; [|pose proof (ok_root h T p b E P1); lia].
  destruct (ok_prev h T p b p1 E P1) as (b1 & E1 & H1).
  destruct (pprev b1) as [p0|] eqn:P0; [|pose proof (ok_root h T p1 b1 E1 P0); lia].
  destruct (ok_prev h T p1 b1 p0 E1 P0) as (b0 & E0 & H0).
  assert (U1 : up h 1 p = Some p1) by now rewrite (up_S h 0 p p1 b E P1).
  assert (U2 : up h 2 p = Some p0) by now rewrite (up_S h 1 p p1 b E P1), (up_S h 0 p1 p0 b1 E1 P0).
  unfold GetSuitableBlock, deref. rewrite E. cbn [or_abort obind]. destruct (Z.leb_spec 3 (nHeight b)); [|lia]. cbn [assert_].
  rewrite P1. cbn [or_abort obind]. rewrite E1. cbn [or_abort obind]. rewrite P0. cbn [or_abort obind]. rewrite E0. cbn [or_abort obind].
  unfold order. cbn [fst snd].
  destruct (Z.ltb_spec (nTime b) (nTime b0)); cbn [fst snd];
  repeat match goal with |- context [if nTime ?x <? nTime ?y then _ else _] => destruct (Z.ltb_spec (nTime x) (nTime y)); cbn [fst snd] end;
    first [ exists p, b, 0%nat, b1, b0, p1, p0; repeat (split; [first [reflexivity | assumption | lia]|]); lia
          | exists p1, b1, 1%nat, b1, b0, p1, p0; repeat (split; [first [reflexivity | assumption | lia]|]); lia
          | exists p0, b0, 2%nat, b1, b0, p1, p0; repeat (split; [first [reflexivity | assumption | lia]|]); lia ].
Qed.

Definition clamp (lo hi x : Z) : Z := Z.max lo (Z.min hi x).

Lemma ComputeTarget_spec first last spacing : 
  nHeight first < nHeight last -> uint_ok (nChainWork first) -> uint_ok (nChainWork last) ->
  1 <= spacing <= 600 -> val (nChainWork first) + 288 <= val (nChainWork last) < 2 ^ 240 ->
  let W := (val (nChainWork last) - val (nChainWork first)) * spacing /
           clamp (72 * spacing) (288 * spacing) (nTime last - nTime first) in
  exists y, ComputeTarget first last spacing = Ok y /\ uint_ok y /\ 1 <= W < 2 ^ 240 /\ val y = 2 ^ 256 / W - 1 /\ 1 <= val y.
Proof.
  intros Hh Of Ol Hs Hw W. pose proof (uint_range _ Of) as Rf. unfold ComputeTarget. destruct (Z.ltb_spec (nHeight first) (nHeight last)); [|lia].
  cbn [assert_]. set (w := val (nChainWork last) - val (nChainWork first)) in *.
  destruct (sub_spec _ _ Ol Of) as [Os Vs]. fold w in Vs. rewrite Z.mod_small in Vs by lia.
  destruct (mul32_spec _ spacing Os) as [Om Vm]. rewrite Vs, u32_small, Z.mod_small in Vm by nia.
  set (t := if 288 * spacing <? nTime last - nTime first then _ else _).
  assert (Et : t = clamp (72 * spacing) (288 * spacing) (nTime last - nTime first)).
  { unfold t, clamp. destruct (Z.ltb_spec (288 * spacing) (nTime last - nTime first)), (Z.ltb_spec (nTime last - nTime first) (72 * spacing)); lia. }
  assert (EW : W = w * spacing / t) by (unfold W; now rewrite Et). clearbody W.
  assert (Bt : 72 * spacing <= t <= 288 * spacing) by (rewrite Et; unfold clamp; lia).
  rewrite u64_small by lia. destruct (of_u64_spec t ltac:(lia)) as [Ot Vt].
  pose proof (div_spec _ _ Om Ot) as D. rewrite Vt, Vm in D. destruct (Z.eqb_spec t 0); [lia|]. destruct D as (q & -> & Oq & Vq). rewrite <- EW in Vq.
  cbn [obind]. assert (HW : 1 <= W < 2 ^ 240) by (rewrite EW; split; [apply Z.div_le_lower_bound; nia | apply Z.div_lt_upper_bound; nia]).
  destruct (neg_spec q Oq) as [On Vn]. rewrite Vq in Vn.
  replace ((- W) mod 2 ^ 256) with (2 ^ 256 - W) in Vn by (apply (Z.mod_unique _ _ (-1)); lia).
  pose proof (div_spec _ _ On Oq) as D. rewrite Vn, Vq in D. destruct (Z.eqb_spec W 0); [lia|]. destruct D as (y & Y & Oy & Vy).
  exists y. split; [exact Y|]. split; [exact Oy|]. split; [exact HW|].
  assert (Ey : val y = 2 ^ 256 / W - 1). { rewrite Vy. replace (2 ^ 256 - W) with (2 ^ 256 + (-1) * W) by ring. rewrite Z.div_add by lia. lia. }
  split; [exact Ey|]. rewrite Ey. assert (2 <= 2 ^ 256 / W) by (apply Z.div_le_lower_bound; lia). lia.
Qed.

(** ** The next target *)

Lemma interval_ok : DifficultyAdjustmentInterval P = Ok 2016.
Proof. destruct HP as (_ & _ & _ & S & N). unfold DifficultyAdjustmentInterval. now rewrite S, N. Qed.

Lemma quot_ok (a b : Z) : 0 <= a -> 0 < b -> quot a b = Ok (a / b).
Proof. intros Ha Hb. unfold quot. destruct (Z.eqb_spec b 0); [lia|]. now rewrite Z.quot_div_nonneg by lia. Qed.

Lemma height_i32 (x : Z) : 0 <= x < 2 ^ 31 -> i32 (u32 x) = x.
Proof. intros H. rewrite u32_small by lia. apply ScriptNum.i32_small. lia. Qed.

Lemma height_negative (x : Z) : - 2 ^ 31 <= x < 0 -> i32 (u32 x) = x.
Proof.
  intros H. unfold i32, sint. rewrite u32_mod, Z.mod_mod by lia. replace (x mod 2 ^ 32) with (x + 2 ^ 32); [destruct (Z.ltb_spec (x + 2 ^ 32) (2 ^ (32 - 1))); lia|].
  rewrite <- (Z.mod_add x 1) by lia. rewrite Z.mod_small; lia.
Qed.

Lemma GetNewBlockSpacing_spec p b : h !! p = Some b -> 8064 <= nHeight b ->
  exists s, GetNewBlockSpacing h p 8064 P = Ok s /\ 300 <= s <= 600.
Proof.
  intros E H. pose proof (wk_height _ _ K p b E) as Hh. destruct HP as (_ & _ & _ & S & _).
  unfold GetNewBlockSpacing, GetPromisedBlocks, deref. rewrite ScriptNum.i32_small by lia. rewrite E. cbn [or_abort obind].
  rewrite (u32_small (nHeight b)), (u32_small 8064), height_i32 by lia.
  destruct (GetAncestor_anc h T p b (nHeight b - 8064) E ltac:(lia)) as (q & c & -> & _ & F & _). cbn [or_abort obind]. rewrite F. cbn [or_abort obind].
  rewrite S. change (u64 600) with 600. change (u64 (600 * 8064)) with 4838400. change (u64 (8064 * 2)) with 16128.
  pose proof (u32_range (nTime b - nTime c)) as R. rewrite quot_ok by lia. cbn [obind]. set (n := u32 (nTime b - nTime c) / 600). destruct (Z.ltb_spec 8064 n); [|exists 600; split; [reflexivity | lia]].
  set (m := if 16128 <? n then 16128 else n). assert (Hm : 8064 < m <= 16128) by (unfold m; destruct (Z.ltb_spec 16128 n); lia).
  rewrite quot_ok by lia. eexists. split; [reflexivity|].
  split; [apply Z.div_le_lower_bound; lia | apply Z.lt_succ_r, Z.div_lt_upper_bound; lia].
Qed.

(** The last twelve blocks took more than six hours. *)
Definition slow (p : ptr) (b : CBlockIndex) : Prop :=
  exists q m m12, GetAncestor h p (nHeight b - 12) = Ok (Some q) /\
    GetMedianTimePast h p = Ok m /\ GetMedianTimePast h q = Ok m12 /\ 6 * 3600 < m - m12.

Lemma bounded_target_spec p b first last : h !! p = Some b -> 8064 <= nHeight b ->
  nHeight first < nHeight last -> uint_ok (nChainWork first) -> uint_ok (nChainWork last) ->
  val (nChainWork first) + 288 <= val (nChainWork last) < 2 ^ 240 ->
  exists y, bounded_target h p b first last (UintToArith256 (powLimit P)) P = Ok y /\ uint_ok y /\
    target (nBits b) - target (nBits b) / 16 <= val y <= Z.min (le_decode (powLimit P)) (target (nBits b) + target (nBits b) / 16) /\
    (slow p b -> val y = Z.min (le_decode (powLimit P)) (target (nBits b) + target (nBits b) / 16)).
Proof.
  intros E H Hh Of Ol Hw. destruct HP as (Hp & Lp & Lim & _). destruct (UintToArith256_spec _ Hp Lp) as [Op Vp].
  unfold bounded_target. destruct (GetNewBlockSpacing_spec p b E H) as (s & -> & Hs). cbn [obind].
  destruct (SetCompact_valid _ _ (wk_bits _ _ K p b E)) as (y & -> & Oy & Vy & By).
  pose proof (proj2 (proj2 (wk_bits _ _ K p b E))) as Bl. set (t := target (nBits b)) in *.
  destruct (shr_spec y 4 Oy ltac:(lia)) as [Or Vr]. change (2 ^ 4) with 16 in Vr. rewrite Vy in Vr.
  assert (B16 : 0 <= t / 16 <= t) by (split; [apply Z.div_pos | apply Z.div_le_upper_bound]; lia).
  destruct (add_spec _ _ Oy Or) as [Oa Va]. rewrite Vy, Vr, Z.mod_small in Va by lia.
  destruct (sub_spec _ _ Oy Or) as [Od Vd]. rewrite Vy, Vr, Z.mod_small in Vd by lia.
  rewrite ge_spec, Vp, Va by assumption.
  set (upl := if le_decode (powLimit P) <=? t + t / 16 then _ else _).
  assert (U : uint_ok upl /\ val upl = Z.min (le_decode (powLimit P)) (t + t / 16))
    by (unfold upl; destruct (Z.leb_spec (le_decode (powLimit P)) (t + t / 16)); split; auto; lia). destruct U as [Ou Vu].
  rewrite IntSerialization.i64_small by lia.
  destruct (ComputeTarget_spec first last s Hh Of Ol ltac:(lia) Hw) as (n & -> & On & _). cbn [obind].
  rewrite gt_spec by assumption. destruct (Z.ltb_spec (val upl) (val n)); [exists upl; split; [reflexivity|]; split; [exact Ou | lia]|].
  destruct (GetAncestor_anc h T p b (nHeight b - 12) E ltac:(lia)) as (q & c & Gq & _ & F & _). rewrite Gq. cbn [or_abort obind].
  destruct (GetMedianTimePast_spec h T p b E) as (? & m & _ & Gm & _). rewrite Gm. cbn [obind].
  destruct (GetMedianTimePast_spec h T q c F) as (? & m12 & _ & Gm12 & _). rewrite Gm12. cbn [obind].
  destruct (Z.ltb_spec (6 * 3600) (m - m12)) as [Sl|Sl]; [exists upl; split; [reflexivity|]; split; [exact Ou | lia]|].
  assert (NS : ~ slow p b) by (intros (q' & m' & m12' & G1 & G2 & G3 & G4); rewrite Gq in G1; injection G1 as <-; rewrite Gm in G2; injection G2 as <-; rewrite Gm12 in G3; injection G3 as <-; lia).
  rewrite lt_spec by assumption. eexists. split; [reflexivity|].
  destruct (Z.ltb_spec (val n) (val (sub y (shr y 4)))); (split; [assumption|]; split; [lia | contradiction]).
Qed.

(** The two blocks the adjustment compares: of the last three, and of the three 144 before. *)
Lemma suitable_pair p b : h !! p = Some b -> 2016 <= nHeight b ->
  exists pl pf l f back, GetSuitableBlock h p = Ok pl /\ GetAncestor h p (nHeight b - 144) = Ok (Some back) /\
    GetSuitableBlock h back = Ok pf /\ h !! pl = Some l /\ h !! pf = Some f /\
    nHeight f < nHeight l /\ val (nChainWork f) + 288 <= val (nChainWork l).
Proof.
  intros E H. destruct (GetSuitableBlock_spec p b E ltac:(lia)) as (pl & l & k & _ & _ & _ & _ & G1 & El & Ul & Hk & _).
  destruct (GetAncestor_anc h T p b (nHeight b - 144) E ltac:(lia)) as (back & c & Gb & Ab & Ec & Hc).
  destruct (GetSuitableBlock_spec back c Ec ltac:(lia)) as (pf & f & j & _ & _ & _ & _ & G2 & Ef & Uf & Hj & _).
  exists pl, pf, l, f, back. split; [exact G1|]. split; [exact Gb|]. split; [exact G2|]. split; [exact El|]. split; [exact Ef|].
  destruct (up_height h T k p pl b E Ul) as (l' & El' & Hl). rewrite El in El'. injection El' as <-.
  destruct (up_height h T j back pf c Ec Uf) as (f' & Ef' & Hf). rewrite Ef in Ef'. injection Ef' as <-.
  split; [lia|]. assert (A : anc h pl pf).
  { apply (anc_linear h T p pl pf b l f E); auto; [now exists k | exact (anc_trans h p back pf Ab (ex_intro _ j Uf)) | lia]. }
  destruct (anc_up h T pl pf l f El A Ef) as [_ U]. pose proof (work_up _ pl pf l f El U Ef). lia.
Qed.

(** What the adjustment by work gives: a valid target, and from height 824189 on one that is within a
    sixteenth of the last. *)
Definition bounded_step (old new : Z) : Prop :=
  target new <= target old + target old / 16 /\
  exists exact, target old - target old / 16 <= exact /\ target new <= exact /\ (exact - target new) * 2 ^ 15 <= exact.

(** After slow blocks: the old target and a sixteenth, up to the limit, rounded to the compact form. *)
Definition slow_step (old new : Z) : Prop :=
  exists y, uint_ok y /\ val y = Z.min (le_decode (powLimit P)) (target old + target old / 16) /\ GetCompact y false = Ok new.

(** The network lets a block more than two spacings after the last have the lowest difficulty. *)
Definition late_block (b : CBlockIndex) (pblock : CBlockHeader) : Prop :=
  fPowAllowMinDifficultyBlocks P = true /\ nTime b + 2 * nPowTargetSpacing P < hdr_nTime pblock.

Lemma GetNextCashWorkRequired_spec p b pblock : h !! p = Some b -> 2016 <= nHeight b ->
  exists c, GetNextCashWorkRequired h p pblock P = Ok c /\ valid_bits (le_decode (powLimit P)) c /\
    (late_block b pblock -> GetCompact (UintToArith256 (powLimit P)) false = Ok c) /\
    (824189 <= nHeight b -> ~ late_block b pblock -> bounded_step (nBits b) c /\ (slow p b -> slow_step (nBits b) c)).
Proof.
  intros E H. pose proof (wk_height _ _ K p b E) as Hh. destruct HP as (Hp & Lp & Lim & S & _).
  destruct (UintToArith256_spec _ Hp Lp) as [Op Vp].
  destruct (GetCompact_valid (le_decode (powLimit P)) _ Op ltac:(rewrite Vp; lia)) as (cl & Gl & Vl & _).
  unfold GetNextCashWorkRequired, deref. rewrite E. cbn [or_abort obind].
  destruct (fPowAllowMinDifficultyBlocks P && _) eqn:Min.
  { exists cl. split; [exact Gl|]. split; [exact Vl|]. split; [intros _; exact Gl|]. intros _ F. exfalso. apply F. apply andb_true_iff in Min as [M1 M2]. apply Z.ltb_lt in M2. now split. }
  assert (NL : ~ late_block b pblock) by (intros [L1 L2]; rewrite L1 in Min; apply Z.ltb_ge in Min; unfold GetBlockTime, hdr_GetBlockTime in Min; lia).
  rewrite interval_ok. cbn [obind]. rewrite (u32_small (nHeight b)) by lia. destruct (Z.leb_spec 2016 (nHeight b)); [|lia]. cbn [assert_].
  destruct (suitable_pair p b E H) as (pl & pf & l & f & back & -> & Gb & G2 & El & Ef & Hlf & Wlf).
  cbn [obind]. rewrite height_i32 by lia. rewrite Gb. cbn [or_abort obind]. rewrite G2. cbn [obind]. rewrite Ef. cbn [or_abort obind]. rewrite El. cbn [or_abort obind].
  destruct (wk_work _ _ K pf f Ef) as [Of _]. destruct (wk_work _ _ K pl l El) as [Ol Bl].
  destruct (Z.leb_spec 824189 (nHeight b)) as [N|N].
  - destruct (bounded_target_spec p b f l E ltac:(lia) Hlf Of Ol (conj Wlf Bl)) as (y & -> & Oy & By & Sl). cbn [obind].
    pose proof (proj1 (proj2 (wk_bits _ _ K p b E))) as Us. apply usable_spec in Us as [_ Bt]; [|pose proof (wk_bits _ _ K p b E) as (? & _); lia].
    assert (target (nBits b) / 16 < target (nBits b)) by (apply Z.div_lt; lia).
    destruct (GetCompact_valid (le_decode (powLimit P)) y Oy ltac:(lia)) as (c & G & V & B1 & B2). exists c. split; [exact G|]. split; [exact V|].
    split; [contradiction|]. intros _ _. split; [split; [lia|]; exists (val y); lia|]. intros Hs. exists y. auto.
  - rewrite S. change (i64 (u64 600)) with 600.
    destruct (ComputeTarget_spec f l 600 Hlf Of Ol ltac:(lia) (conj Wlf Bl)) as (y & -> & Oy & _ & _ & By). cbn [obind].
    rewrite gt_spec, Vp by assumption. destruct (Z.ltb_spec (le_decode (powLimit P)) (val y)); [exists cl; split; [exact Gl|]; split; [exact Vl|]; split; [contradiction | lia]|].
    destruct (GetCompact_valid (le_decode (powLimit P)) y Oy ltac:(lia)) as (c & G & V & _). exists c. split; [exact G|]. split; [exact V|]. split; [contradiction | lia].
Qed.

Lemma CalculateNextWorkRequired_spec p b first : h !! p = Some b -> fPowNoRetargeting P = false -> 4 <= target (nBits b) ->
  let exact := Z.min (le_decode (powLimit P)) (target (nBits b) * clamp 302400 4838400 (nTime b - first) / 1209600) in
  exists c, CalculateNextWorkRequired b first P = Ok c /\ valid_bits (le_decode (powLimit P)) c /\
    target c <= exact /\ (exact - target c) * 2 ^ 15 <= exact.
Proof.
  intros E R Ht exact. destruct HP as (Hp & Lp & Lim & S & N). destruct (UintToArith256_spec _ Hp Lp) as [Op Vp].
  unfold CalculateNextWorkRequired. rewrite R, N. change (Z.quot 1209600 4) with 302400. change (1209600 * 4) with 4838400.
  unfold GetBlockTime. set (t := if 4838400 <? _ then _ else _).
  assert (Et : t = clamp 302400 4838400 (nTime b - first)).
  { unfold t, clamp. destruct (Z.ltb_spec (nTime b - first) 302400); [destruct (Z.ltb_spec 4838400 302400)|destruct (Z.ltb_spec 4838400 (nTime b - first))]; lia. }
  assert (Bt : 302400 <= t <= 4838400) by (rewrite Et; unfold clamp; lia).
  assert (Ee : exact = Z.min (le_decode (powLimit P)) (target (nBits b) * t / 1209600)) by (unfold exact; now rewrite Et). clearbody exact.
  destruct (SetCompact_valid _ _ (wk_bits _ _ K p b E)) as (y & -> & Oy & Vy & By). pose proof (proj2 (proj2 (wk_bits _ _ K p b E))) as Bl.
  destruct (mul32_spec y t Oy) as [Om Vm]. rewrite Vy, u32_small, Z.mod_small in Vm by nia.
  change (u64 1209600) with 1209600. destruct (of_u64_spec 1209600 ltac:(lia)) as [Oo Vo].
  pose proof (div_spec _ _ Om Oo) as D. rewrite Vo, Vm in D. cbn [Z.eqb] in D. destruct D as (q & -> & Oq & Vq). cbn [obind].
  rewrite gt_spec, Vp by assumption.
  assert (1 <= target (nBits b) * t / 1209600) by (apply Z.div_le_lower_bound; nia).
  set (z := if le_decode (powLimit P) <? val q then _ else _).
  assert (Oz : uint_ok z /\ val z = exact) by (unfold z; destruct (Z.ltb_spec (le_decode (powLimit P)) (val q)); split; auto; lia).
  destruct Oz as [Oz Vz]. destruct (GetCompact_valid (le_decode (powLimit P)) z Oz ltac:(lia)) as (c & G & V & B1 & B2).
  exists c. split; [exact G|]. split; [exact V|]. lia.
Qed.

Lemma last_regular_spec (interval limit : Z) (fuel : nat) : forall p b, h !! p = Some b -> (Z.to_nat (nHeight b) < fuel)%nat ->
  exists c, last_regular fuel h interval limit p = Ok c /\ valid_bits (le_decode (powLimit P)) c.
Proof.
  induction fuel as [|fuel IH]; intros p b E Hf; [lia|]. cbn [last_regular]. unfold deref. rewrite E. cbn [or_abort obind].
  destruct (pprev b) as [q|] eqn:Q; [|exists (nBits b); split; [reflexivity | exact (wk_bits _ _ K p b E)]].
  destruct (_ && _); [|exists (nBits b); split; [reflexivity | exact (wk_bits _ _ K p b E)]].
  destruct (ok_prev h T p b q E Q) as (c & F & Hc). pose proof (ok_height h T q c F). apply (IH q c F). lia.
Qed.

(** No block is so hard that its work ends the range. *)
Lemma target_lower p b : h !! p = Some b -> 1 <= nHeight b -> 2 ^ 16 <= target (nBits b).
Proof.
  intros E H. destruct (pprev b) as [q|] eqn:Q; [|pose proof (ok_root h T p b E Q); lia]. destruct (ok_prev h T p b q E Q) as (c & F & _).
  pose proof (wk_sum _ _ K p b q c E Q F) as S. destruct (wk_work _ _ K p b E) as [_ B], (wk_work _ _ K q c F) as [O _]. pose proof (uint_range _ O).
  destruct (wk_bits _ _ K p b E) as (R & U & _). apply usable_spec in U as [_ Bt]; [|lia].
  assert (X : 2 ^ 256 / (target (nBits b) + 1) < 2 ^ 240) by lia. assert (Y := Z.mul_succ_div_gt (2 ^ 256) (target (nBits b) + 1) ltac:(lia)).
  change (2 ^ 256) with (2 ^ 240 * 2 ^ 16) in Y at 1. nia.
Qed.

(** Before the seventh block there is none six before the last. *)
Definition too_early (b : CBlockIndex) : Prop :=
  nHeight b < 6 /\ fPowAllowMinDifficultyBlocks P = false /\ GetCompact (UintToArith256 (powLimit P)) false <> Ok (nBits b).

(** The emergency adjustment: a quarter easier, at most the limit. *)
Lemma emergency_valid p b cl : h !! p = Some b -> GetCompact (UintToArith256 (powLimit P)) false = Ok cl -> valid_bits (le_decode (powLimit P)) cl ->
  exists c, (let '(nPow, _, _) := SetCompact (nBits b) in
    let nPow := add nPow (shr nPow 2) in
    let bnPowLimit := UintToArith256 (powLimit P) in
    let nPow := if gt nPow bnPowLimit then bnPowLimit else nPow in
    GetCompact nPow false) = Ok c /\ valid_bits (le_decode (powLimit P)) c.
Proof.
  intros E Gl Vl. pose proof (wk_bits _ _ K p b E) as Vb. destruct HP as (Hp & Lp & Lim & _). destruct (UintToArith256_spec _ Hp Lp) as [Op Vp].
  destruct (SetCompact_valid _ _ Vb) as (y & -> & Oy & Vy & By). pose proof (proj2 (proj2 Vb)) as Bl.
  destruct (shr_spec y 2 Oy ltac:(lia)) as [Or Vr]. change (2 ^ 2) with 4 in Vr. rewrite Vy in Vr.
  assert (0 <= target (nBits b) / 4 <= target (nBits b)) by (split; [apply Z.div_pos | apply Z.div_le_upper_bound]; lia).
  destruct (add_spec _ _ Oy Or) as [Oa Va]. rewrite Vy, Vr, Z.mod_small in Va by lia. cbv zeta. rewrite gt_spec, Vp by assumption.
  destruct (Z.ltb_spec (le_decode (powLimit P)) (val (add y (shr y 2)))); [now exists cl|].
  destruct (GetCompact_valid (le_decode (powLimit P)) _ Oa ltac:(lia)) as (w & G & V & _). now exists w.
Qed.

Lemma GetNextEDAWorkRequired_spec p b pblock : h !! p = Some b -> fPowNoRetargeting P = false ->
  (too_early b -> GetNextEDAWorkRequired h p pblock P = Abort) /\
  (~ too_early b -> exists c, GetNextEDAWorkRequired h p pblock P = Ok c /\ valid_bits (le_decode (powLimit P)) c).
Proof.
  intros E NR. pose proof (ok_height h T p b E) as H0. pose proof (wk_height _ _ K p b E) as Hh. pose proof (wk_bits _ _ K p b E) as Vb.
  destruct (UintToArith256_spec _ (proj1 HP) (proj1 (proj2 HP))) as [Op Vp]. pose proof (proj1 (proj2 (proj2 HP))) as Lim.
  destruct (GetCompact_valid (le_decode (powLimit P)) _ Op ltac:(rewrite Vp; lia)) as (cl & Gl & Vl & _).
  unfold GetNextEDAWorkRequired, deref at 1 3. rewrite E. cbn [or_abort obind]. rewrite interval_ok, (u32_small (nHeight b + 1)) by lia. cbn [obind Z.eqb].
  destruct (Z.eqb_spec (Z.rem (nHeight b + 1) 2016) 0) as [R|R].
  - rewrite Z.rem_mod_nonneg in R by lia. pose proof (Z.div_mod (nHeight b + 1) 2016 ltac:(lia)).
    destruct (Z.leb_spec 2016 (nHeight b + 1)) as [L|L]; [|rewrite Z.mod_small in R by lia; lia]. cbn [assert_]. rewrite height_i32 by lia.
    split; [intros [? _]; lia|]. intros _. destruct (GetAncestor_anc h T p b (nHeight b + 1 - 2016) E ltac:(lia)) as (q & c & -> & _ & F & _). cbn [or_abort obind].
    unfold deref. rewrite F. cbn [or_abort obind]. pose proof (target_lower p b E ltac:(lia)).
    destruct (CalculateNextWorkRequired_spec p b (GetBlockTime c) E NR ltac:(lia)) as (x & -> & V & _). now exists x.
  - unfold too_early. rewrite Gl. cbn [obind]. destruct (fPowAllowMinDifficultyBlocks P).
    { split; [intros (_ & ? & _); discriminate|]. intros _. destruct (_ <? _); [now exists cl | apply (last_regular_spec _ _ _ p b E); lia]. }
    destruct (Z.eqb_spec (nBits b) cl) as [Q|Q]; [split; [intros (_ & _ & N); congruence | intros _; now exists cl]|].
    destruct (Z.le_gt_cases 6 (nHeight b)) as [L|L].
    + split; [lia|]. intros _. rewrite height_i32 by lia.
      destruct (GetAncestor_anc h T p b (nHeight b + 1 - 7) E ltac:(lia)) as (q & c & -> & _ & F & _). cbn [or_abort obind].
      destruct (GetMedianTimePast_spec h T p b E) as (? & m & _ & -> & _). destruct (GetMedianTimePast_spec h T q c F) as (? & m6 & _ & -> & _).
      cbn [obind]. destruct (m - m6 <? 12 * 3600); [now exists (nBits b) | exact (emergency_valid p b cl E Gl Vl)].
    + split; [intros _ | intros N; exfalso; apply N; split; [lia|]; split; [reflexivity | congruence]].
      rewrite height_negative, (GetAncestor_spec h T p b _ E) by lia. destruct (Z.leb_spec 0 (nHeight b + 1 - 7)); [lia | reflexivity].
Qed.
End Work.
End Pow.
