(* ===== verification/Difficulty.v ===== *)
(** * The difficulty along a chain (src/src/pow.cpp)

    The properties of the difficulty adjustment: what the next block must have is always defined
    and valid, moves in bounded steps, and recovers when blocks are slow. The examples are on a
    chain of any length with evenly spaced blocks. *)

From stdpp Require Import gmap.
From S2P Require Import Prelude Endian Outcome ArithUint256 Block BlockIndex Chain Pow.
Import Endian ArithUint256 Block BlockIndex Chain Pow.

Module Difficulty.
Local Open Scope Z_scope.

(** ** Recovery *)

Section Recovery.
Context (h : heap) (T : tree_ok h) (P : Params) (HP : params_ok P) (K : work_ok h (le_decode (powLimit P))).
Context (cl : Z) (Hcl : GetCompact (UintToArith256 (powLimit P)) false = Ok cl).

Lemma slow_step_limit old new : slow_step P old new -> le_decode (powLimit P) <= target old + target old / 16 -> new = cl.
Proof.
  intros (y & [Ly Wy] & Vy & G) L. destruct HP as (Hp & Lp & _). destruct (UintToArith256_spec _ Hp Lp) as [[Lu Wu] Vu].
  assert (y = UintToArith256 (powLimit P)) as -> by (apply val_inj; [exact Wy | exact Wu | congruence | rewrite Vy, Vu; lia]).
  rewrite G in Hcl. now apply Ok_inj in Hcl.
Qed.

Lemma limit_compact : valid_bits (le_decode (powLimit P)) cl /\ (le_decode (powLimit P) - target cl) * 2 ^ 15 <= le_decode (powLimit P).
Proof.
  destruct HP as (Hp & Lp & Lim & _). destruct (UintToArith256_spec _ Hp Lp) as [Ou Vu].
  destruct (GetCompact_valid (le_decode (powLimit P)) _ Ou ltac:(rewrite Vu; lia)) as (c & G & V & _ & B).
  rewrite G in Hcl. apply Ok_inj in Hcl as ->. rewrite Vu in B. now split.
Qed.

(** A slow step raises the target by more than one part in nineteen, or makes it the limit. *)
Lemma slow_step_grows old new : slow_step P old new -> 2 ^ 16 <= target old -> new = cl \/ 135 * target old <= 128 * target new.
Proof.
  intros S B. destruct (Z.le_gt_cases (le_decode (powLimit P)) (target old + target old / 16)) as [L|L];
    [left; exact (slow_step_limit old new S L)|]. right. destruct S as (y & Oy & Vy & G). rewrite Z.min_r in Vy by lia.
  destruct (GetCompact_spec y Oy) as (c & G' & _ & _ & _ & Bc). rewrite G in G'. apply Ok_inj in G' as <-.
  pose proof (Z.div_mod (target old) 16 ltac:(lia)). pose proof (Z.mod_pos_bound (target old) 16 ltac:(lia)). lia.
Qed.

Lemma slow_step_stays new : slow_step P cl new -> new = cl.
Proof.
  intros S. apply (slow_step_limit cl new S). destruct limit_compact as [_ B]. destruct HP as (_ & _ & Lim & _).
  pose proof (Z.div_mod (target cl) 16 ltac:(lia)). pose proof (Z.mod_pos_bound (target cl) 16 ltac:(lia)). lia.
Qed.

Lemma late_dec pblock c : {late_block P c pblock} + {~ late_block P c pblock}.
Proof.
  destruct (fPowAllowMinDifficultyBlocks P) eqn:F; [|right; intros [? _]; congruence].
  destruct (Z_lt_dec (nTime c + 2 * nPowTargetSpacing P) (hdr_nTime pblock)); [left; now split | right; now intros [_ ?]].
Qed.

(** The [n] blocks up to [p] have the difficulty the code requires, and each comes after slow blocks. *)
Inductive slow_blocks : nat -> ptr -> Prop :=
| slow_start p : slow_blocks 0 p
| slow_next n p q b c pblock : h !! p = Some b -> pprev b = Some q -> h !! q = Some c -> 824189 <= nHeight c -> slow h q c ->
    GetNextCashWorkRequired h q pblock P = Ok (nBits b) -> slow_blocks n q -> slow_blocks (S n) p.

Lemma slow_blocks_grow n : forall p b q c, slow_blocks n p -> h !! p = Some b -> up h n p = Some q -> h !! q = Some c -> 1 <= nHeight c ->
  nBits b = cl \/ (target (nBits c) * 135 ^ Z.of_nat n <= target (nBits b) * 128 ^ Z.of_nat n).
Proof.
  induction n as [|n IH]; intros p b q c S E U F Hq.
  - injection U as <-. rewrite E in F. injection F as <-. right. cbn. lia.
  - inversion S as [|n' p' q' b' c' pblock E' Pq F' Hc Sl G S']; subst. rewrite E in E'. injection E' as <-. rewrite (up_S h n p q' b E Pq) in U.
    destruct (GetNextCashWorkRequired_spec h T P HP K q' c' pblock F' ltac:(lia)) as (x & Gx & _ & La & Sx). rewrite G in Gx. apply Ok_inj in Gx as <-.
    destruct (late_dec pblock c') as [L|L]; [left; specialize (La L); rewrite La in Hcl; now apply Ok_inj in Hcl|].
    destruct (Sx Hc L) as [_ St]. specialize (St Sl). destruct (IH q' c' q c S' F' U F Hq) as [Q|Q].
    + left. rewrite Q in St. exact (slow_step_stays _ St).
    + destruct (slow_step_grows _ _ St (target_lower h T P K q' c' F' ltac:(lia))) as [X|X]; [now left|]. right.
      rewrite Nat2Z.inj_succ, !Z.pow_succ_r by lia. assert (0 < 128 ^ Z.of_nat n) by (apply Z.pow_pos_nonneg; lia). nia.
Qed.
End Recovery.

(** ** A chain of evenly spaced blocks *)

Definition ptr_at (i : nat) : ptr := Pos.of_succ_nat i.

(** The work of the blocks up to [i]. *)
Fixpoint total_work (bits : nat -> Z) (i : nat) : Z := 2 ^ 256 / (target (bits i) + 1) + match i with O => 0 | S j => total_work bits j end.

Definition uniform_block (s : Z) (bits : nat -> Z) (i : nat) : CBlockIndex :=
  mkIndex (Some (le_encode 32 (Z.of_nat i)))
    (match i with O => None | S j => Some (ptr_at j) end)
    (match i with O => None | S _ => Some (ptr_at (Z.to_nat (GetSkipHeight (Z.of_nat i)))) end)
    (Z.of_nat i) 0 0 0 (of_u64 (total_work bits i)) 1 1 5 1 (repeat 0 32) (Z.of_nat i * s) (bits i) 0 0
    (Z.of_nat i * s) (Z.of_nat i * s) CDiskBlockMetaData_new 0.

(** [N] blocks, [s] seconds apart, with the given difficulties. *)
Definition uniform (N : nat) (s : Z) (bits : nat -> Z) : heap :=
  kmap ptr_at (map_seq (M := gmap nat CBlockIndex) 0 (map (uniform_block s bits) (seq 0 N))).

Definition main_params (minDifficulty : bool) : Params :=
  mkParams (repeat 255 28 ++ repeat 0 4) minDifficulty false 600 1209600 504031.

#[local] Instance ptr_at_inj : Inj (=) (=) ptr_at.
Proof. intros i j E. unfold ptr_at in E. lia. Qed.

Section Uniform.
Context (N : nat) (s : Z) (bits : nat -> Z).

Lemma uniform_lookup i : (i < N)%nat -> uniform N s bits !! ptr_at i = Some (uniform_block s bits i).
Proof.
  intros H. unfold uniform. rewrite (lookup_kmap ptr_at), lookup_map_seq_0, list_lookup_fmap.
  rewrite (lookup_seq_lt 0 N i H). reflexivity.
Qed.

Lemma uniform_inv p b : uniform N s bits !! p = Some b -> exists i, (i < N)%nat /\ p = ptr_at i /\ b = uniform_block s bits i.
Proof.
  unfold uniform. intros E. apply (lookup_kmap_Some ptr_at) in E as (i & -> & E).
  rewrite lookup_map_seq_0, list_lookup_fmap in E. exists i. destruct (Nat.lt_ge_cases i N) as [L|L].
  - rewrite (lookup_seq_lt 0 N i L) in E. cbn in E. now injection E as <-.
  - rewrite (lookup_seq_ge 0 N i L) in E. discriminate.
Qed.

Lemma uniform_up k : forall i, (k <= i < N)%nat -> up (uniform N s bits) k (ptr_at i) = Some (ptr_at (i - k)).
Proof.
  induction k as [|k IH]; intros i H; [now rewrite Nat.sub_0_r|]. destruct i as [|j]; [lia|].
  rewrite (up_S _ k _ (ptr_at j) (uniform_block s bits (S j)) (uniform_lookup (S j) ltac:(lia)) eq_refl). apply IH. lia.
Qed.

Lemma uniform_ok : tree_ok (uniform N s bits).
Proof.
  constructor.
  - intros p b q E Q. apply uniform_inv in E as ([|j] & L & -> & ->); [discriminate|]. injection Q as <-.
    exists (uniform_block s bits j). split; [apply uniform_lookup; lia | cbn [nHeight uniform_block]; lia].
  - intros p b E Q. now apply uniform_inv in E as ([|j] & L & -> & ->).
  - intros p b E. apply uniform_inv in E as (i & L & -> & ->). cbn. lia.
  - intros p b q E Q. apply uniform_inv in E as ([|j] & L & -> & ->); [discriminate|]. injection Q as <-. cbn [nHeight uniform_block].
    pose proof (GetSkipHeight_bound (Z.of_nat (S j)) ltac:(lia)) as G. split; [lia|].
    rewrite uniform_up by lia. f_equal. f_equal. lia.
Qed.

Context (limit : Z) (V : forall i, valid_bits limit (bits i)) (B : forall i, 2 ^ 256 / (target (bits i) + 1) <= 2 ^ 41).

Lemma total_work_bound i : 0 <= total_work bits i <= (Z.of_nat i + 1) * 2 ^ 41.
Proof.
  assert (P : forall j, 0 <= 2 ^ 256 / (target (bits j) + 1)) by (intros j; destruct (V j) as (R & U & _); apply usable_spec in U; [|lia]; apply Z.div_pos; lia).
  induction i as [|i IH]; cbn [total_work]; [specialize (P 0%nat); specialize (B 0%nat); lia|]. specialize (P (S i)). specialize (B (S i)). lia.
Qed.

Lemma uniform_work : Z.of_nat N * s <= 2 ^ 31 -> 0 <= s -> Z.of_nat N < 2 ^ 21 -> work_ok (uniform N s bits) limit.
Proof.
  intros Hs H0 HN. assert (W : forall i, (i < N)%nat -> uint_ok (of_u64 (total_work bits i)) /\ val (of_u64 (total_work bits i)) = total_work bits i)
    by (intros i Hi; apply of_u64_spec; pose proof (total_work_bound i); lia).
  constructor; intros p b.
  - intros E. apply uniform_inv in E as (i & L & -> & ->). apply V.
  - intros E. apply uniform_inv in E as (i & L & -> & ->). cbn [nTime uniform_block]. nia.
  - intros E. apply uniform_inv in E as (i & L & -> & ->). cbn [nHeight uniform_block]. lia.
  - intros E. apply uniform_inv in E as (i & L & -> & ->). cbn [nChainWork uniform_block]. destruct (W i L) as [O ->]. split; [exact O|]. pose proof (total_work_bound i). lia.
  - intros q c E Q F. apply uniform_inv in E as ([|j] & L & -> & ->); [discriminate|]. injection Q as <-.
    apply uniform_inv in F as (i & Li & Ei & ->). apply ptr_at_inj in Ei as <-. cbn [nChainWork nBits uniform_block].
    destruct (W (S j) L) as [_ ->], (W j ltac:(lia)) as [_ ->]. cbn [total_work]. lia.
Qed.
End Uniform.

Lemma main_params_ok m : params_ok (main_params m).
Proof.
  split; [apply bytes_okb; reflexivity|]. split; [reflexivity|]. split; [vm_compute; split; [discriminate | reflexivity]|]. now split.
Qed.

(** ** The median time of evenly spaced blocks *)

Lemma uniform_median N s bits i : 0 < s -> (10 <= i < N)%nat -> GetMedianTimePast (uniform N s bits) (ptr_at i) = Ok ((Z.of_nat i - 5) * s).
Proof.
  intros Hs Hi. destruct (GetMedianTimePast_spec _ (uniform_ok N s bits) _ _ (uniform_lookup N s bits i ltac:(lia))) as (l & m & _ & -> & _ & L & Ht & M).
  cbn [nHeight uniform_block] in L. rewrite Nat.min_l in L by lia. f_equal.
  assert (V : forall k, (k < 11)%nat -> nth_error l k = Some ((Z.of_nat i - Z.of_nat k) * s)).
  { intros k Hk. destruct (nth_error l k) as [t|] eqn:E; [|apply nth_error_None in E; lia].
    destruct (Ht k t E) as (q & c & U & F & ->). rewrite uniform_up in U by lia. injection U as <-.
    rewrite uniform_lookup in F by lia. injection F as <-. cbn [nTime uniform_block]. f_equal. f_equal. lia. }
  do 12 (destruct l as [|? l]; try discriminate L).
  let known k := (let E := fresh in pose proof (V k ltac:(lia)) as E; cbn [nth_error] in E; injection E as ->) in
  known 0%nat; known 1%nat; known 2%nat; known 3%nat; known 4%nat; known 5%nat; known 6%nat; known 7%nat; known 8%nat; known 9%nat; known 10%nat.
  clear V Ht L.
  apply Z.le_antisymm.
  - apply Z.nlt_ge. intros Lt. assert (G : (Z.of_nat i - 5) * s + 1 <= m) by lia. apply M in G. unfold below in G. cbn [List.filter] in G.
    repeat match type of G with context [?x <? ?y] => destruct (Z.ltb_spec x y); try nia end; cbn in G; lia.
  - apply M. unfold below. cbn [List.filter].
    repeat match goal with |- context [?x <? ?y] => destruct (Z.ltb_spec x y); try nia end; cbn; lia.
Qed.

Lemma uniform_slow N s bits i : 1801 <= s -> (24 <= i < N)%nat -> slow (uniform N s bits) (ptr_at i) (uniform_block s bits i).
Proof.
  intros Hs Hi. pose proof (uniform_ok N s bits) as T. cbn [nHeight uniform_block].
  exists (ptr_at (i - 12)), ((Z.of_nat i - 5) * s), ((Z.of_nat (i - 12) - 5) * s).
  split; [|split; [apply uniform_median; lia|]; split; [apply uniform_median; lia | nia]].
  rewrite (GetAncestor_spec _ T _ _ _ (uniform_lookup N s bits i ltac:(lia))). cbn [nHeight uniform_block].
  destruct (Z.leb_spec 0 (Z.of_nat i - 12)), (Z.leb_spec (Z.of_nat i - 12) (Z.of_nat i)); try lia. cbn [andb]. rewrite uniform_up by lia.
  do 2 f_equal. f_equal. lia.
Qed.

(** ** Two chains *)

(** Every block has the lowest difficulty of the main network. *)
Definition steady (i : nat) : Z := 0x1d00ffff.

Lemma steady_work N s m : Z.of_nat N * s <= 2 ^ 31 -> 0 <= s -> Z.of_nat N < 2 ^ 21 -> work_ok (uniform N s steady) (le_decode (powLimit (main_params m))).
Proof. apply uniform_work; [intros i; split; [|split]; vm_compute; (discriminate || reflexivity || (split; [discriminate | reflexivity])) | intros i; vm_compute; discriminate]. Qed.

(** The blocks are 256 times harder up to height 824189, and then as easy as slow blocks may be. *)
Definition eased (bits : Z) : Z :=
  match GetCompact (UintToArith256 (le_encode 32 (Z.min (le_decode (powLimit (main_params false))) (target bits + target bits / 16)))) false with Ok c => c | _ => 0 end.
Definition recovering (i : nat) : Z := Nat.iter (i - Z.to_nat 824189) eased 0x1c00ffff.

Lemma slow_step_det P old c c' : slow_step P old c -> slow_step P old c' -> c = c'.
Proof.
  intros (y & [L W] & V & G) (y' & [L' W'] & V' & G'). assert (y = y') as <- by (apply val_inj; congruence). rewrite G in G'. now apply Ok_inj in G'.
Qed.

Lemma eased_spec bits : valid_bits (le_decode (powLimit (main_params false))) bits -> slow_step (main_params false) bits (eased bits) /\ valid_bits (le_decode (powLimit (main_params false))) (eased bits).
Proof.
  intros (R & U & L). apply usable_spec in U as [_ Bt]; [|lia]. pose proof (main_params_ok false) as (_ & _ & Lim & _). unfold eased. set (limit := le_decode _) in *.
  set (x := Z.min limit _). assert (Bx : 1 <= x <= limit) by (unfold x; pose proof (Z.div_pos (target bits) 16); lia).
  destruct (UintToArith256_spec (le_encode 32 x) (le_encode_ok _ _) (length_le_encode _ _)) as [O V]. rewrite le_decode_encode, Z.mod_small in V by lia.
  destruct (GetCompact_valid limit _ O ltac:(lia)) as (c & G & Vc & _). rewrite G. split; [|exact Vc]. now exists (UintToArith256 (le_encode 32 x)).
Qed.

Lemma iter_eased n : let c := Nat.iter n eased 0x1c00ffff in valid_bits (le_decode (powLimit (main_params false))) c /\ target 0x1c00ffff <= target c.
Proof.
  induction n as [|n [V L]]; cbn zeta in *; [split; [split; [|split]; vm_compute; (discriminate || reflexivity || (split; [discriminate | reflexivity])) | reflexivity]|].
  cbn [Nat.iter nat_rect]. destruct (eased_spec _ V) as [S V']. split; [exact V'|].
  assert (H : 2 ^ 16 <= target 0x1c00ffff <= target 0x1d00ffff) by (vm_compute; split; discriminate).
  destruct (slow_step_grows (main_params false) (main_params_ok false) 0x1d00ffff ltac:(vm_compute; reflexivity) _ _ S ltac:(unfold Nat.iter in *; lia)) as [X|X]; unfold Nat.iter in *; [rewrite X|]; lia.
Qed.

Lemma recovering_work N s : Z.of_nat N * s <= 2 ^ 31 -> 0 <= s -> Z.of_nat N < 2 ^ 21 -> work_ok (uniform N s recovering) (le_decode (powLimit (main_params false))).
Proof.
  apply uniform_work; intros i; unfold recovering; destruct (iter_eased (i - Z.to_nat 824189)) as [V L]; [exact V|].
  apply (Z.le_trans _ (2 ^ 256 / (target 0x1c00ffff + 1))); [|vm_compute; discriminate]. apply Z.div_le_compat_l; [lia|]. assert (0 < target 0x1c00ffff + 1) by (vm_compute; reflexivity). lia.
Qed.

(** ** Properties *)

(** the check of the proof of work: it passes exactly when the difficulty is a positive target
    within 256 bits, not above the limit of the network, and the hash read as a number is not
    above the target; and a header that passes counts at least as much work as the limit stands for. *)
Theorem CheckProofOfWork_correct (hash : bytes) (bits : Z) (P : Params) :
  bytes_ok hash -> length hash = 32%nat -> bytes_ok (powLimit P) -> length (powLimit P) = 32%nat -> 0 <= bits < 2 ^ 32 ->
  (CheckProofOfWork hash bits P = true <-> valid_bits (le_decode (powLimit P)) bits /\ le_decode hash <= target bits) /\
  (CheckProofOfWork hash bits P = true ->
     exists w, GetBlockProof bits = Ok w /\ 1 <= 2 ^ 256 / (le_decode (powLimit P) + 1) <= val w).
Proof.
  intros Hh Lh Hp Lp Hb. rewrite (CheckProofOfWork_spec hash bits P Hh Lh Hp Lp Hb), !andb_true_iff, !Z.leb_le. unfold valid_bits. split; [tauto|].
  intros [[U L] _]. destruct (GetBlockProof_spec bits Hb) as (w & G & _ & V). exists w. split; [exact G|]. rewrite V, U.
  apply usable_spec in U as [_ B]; [|lia]. destruct (UintToArith256_spec _ Hp Lp) as [Ou Vu]. pose proof (uint_range _ Ou).
  split; [apply Z.div_le_lower_bound; lia | apply Z.div_le_compat_l; lia].
Qed.

Lemma CheckProofOfWork_correct_witness : CheckProofOfWork (repeat 17 24 ++ repeat 0 8) 0x1d00ffff (main_params false) = true /\
  exists w, GetBlockProof 0x1d00ffff = Ok w /\ 1 <= 2 ^ 256 / (le_decode (powLimit (main_params false)) + 1) <= val w.
Proof.
  destruct (CheckProofOfWork_correct (repeat 17 24 ++ repeat 0 8) 0x1d00ffff (main_params false)) as [E F];
    [apply bytes_okb; reflexivity | reflexivity | apply bytes_okb; reflexivity | reflexivity | lia|].
  assert (C : CheckProofOfWork (repeat 17 24 ++ repeat 0 8) 0x1d00ffff (main_params false) = true) by (vm_compute; reflexivity).
  split; [exact C | exact (F C)].
Defined.

(** C29: the difficulty of the next block is defined but in two cases, which are exact. The chain is
    well-formed ([tree_ok]; every block has a usable target within the limit, and the sums of work are
    below 2^240), the spacing is 600 seconds, the timespan two weeks, the limit of the network lies
    between 0xffff * 2^208 and 2^224 (the main and the test networks), and the adjustment by work starts
    at height 2016 or later. Then under each of the three rules no assertion fails, no null pointer is
    followed and nothing is divided by zero, and the result is again a usable target within the limit;
    except that on a network that retargets and does not allow blocks of minimum difficulty, a last
    block below height 6 whose difficulty is not the limit makes the assertion on the sixth block before
    it fail; and with the null pointer, which the code means to allow, the result is undefined. *)
Theorem GetNextWorkRequired_defined (h : heap) (P : Params) (p : ptr) (b : CBlockIndex) (pblock : CBlockHeader) :
  tree_ok h -> params_ok P -> work_ok h (le_decode (powLimit P)) -> 2016 <= daaHeight P -> h !! p = Some b ->
  (fPowNoRetargeting P = false -> too_early P b -> GetNextWorkRequired h (Some p) pblock P = Abort) /\
  (fPowNoRetargeting P = true \/ ~ too_early P b -> exists c, GetNextWorkRequired h (Some p) pblock P = Ok c /\ valid_bits (le_decode (powLimit P)) c) /\
  GetNextWorkRequired h None pblock P = Abort.
Proof.
  intros T HP K HD E. unfold GetNextWorkRequired, deref. cbn [or_abort obind]. rewrite E. cbn [or_abort obind]. split; [|split; [|reflexivity]].
  - intros NR Ea. rewrite NR. destruct (Z.eqb_spec (nHeight b) 824188); [destruct Ea; lia|]. unfold IsDAAEnabled. destruct (Z.leb_spec (daaHeight P) (nHeight b)); [destruct Ea; lia|].
    exact (proj1 (GetNextEDAWorkRequired_spec h T P HP K p b pblock E NR) Ea).
  - intros Ea. destruct (nHeight b =? 824188).
    { exists 0x1d00ffff. split; [reflexivity|]. destruct HP as (_ & _ & Lim & _). split; [lia|]. split; [reflexivity|].
      change (target 0x1d00ffff) with (0xffff * 2 ^ 208). lia. }
    destruct (fPowNoRetargeting P) eqn:NR; [exists (nBits b); split; [reflexivity | exact (wk_bits _ _ K p b E)]|]. destruct Ea as [?|Ea]; [discriminate|].
    unfold IsDAAEnabled. destruct (Z.leb_spec (daaHeight P) (nHeight b)).
    + destruct (GetNextCashWorkRequired_spec h T P HP K p b pblock E ltac:(lia)) as (c & G & V & _). now exists c.
    + exact (proj2 (GetNextEDAWorkRequired_spec h T P HP K p b pblock E NR) Ea).
Qed.

Lemma GetNextWorkRequired_defined_witness :
  (exists c, GetNextWorkRequired (uniform (Z.to_nat 825000) 600 steady) (Some (ptr_at (Z.to_nat 824500))) CBlockHeader_new (main_params false) = Ok c /\
     valid_bits (le_decode (powLimit (main_params false))) c) /\
  GetNextWorkRequired (uniform (Z.to_nat 825000) 600 recovering) (Some (ptr_at 3)) CBlockHeader_new (main_params false) = Abort.
Proof.
  split.
  - apply (GetNextWorkRequired_defined _ _ _ (uniform_block 600 steady (Z.to_nat 824500)) _ (uniform_ok _ _ _) (main_params_ok _));
      [apply steady_work; lia | cbn; lia | apply uniform_lookup; lia | right; intros [X _]; cbn [nHeight uniform_block] in X; lia].
  - assert (E : uniform (Z.to_nat 825000) 600 recovering !! ptr_at 3 = Some (uniform_block 600 recovering 3)) by (apply uniform_lookup; lia).
    destruct (GetNextWorkRequired_defined _ (main_params false) (ptr_at 3) (uniform_block 600 recovering 3) CBlockHeader_new (uniform_ok (Z.to_nat 825000) 600 recovering) (main_params_ok _)
      (recovering_work (Z.to_nat 825000) 600 ltac:(lia) ltac:(lia) ltac:(lia)) ltac:(cbn; lia) E) as [G _]. apply G; [reflexivity|]. split; [cbn [nHeight uniform_block]; lia|]. split; [reflexivity|].
    cbn [nBits uniform_block]. unfold recovering. replace (3 - Z.to_nat 824189)%nat with 0%nat by lia. vm_compute. discriminate.
Defined.

(** C33: the difficulty moves in bounded steps. On a well-formed chain, with the spacing and the limits
    of the main and test networks, when the last block has at least height 824189,
    [GetNextCashWorkRequired] gives a usable target within the limit. On a network that allows blocks of
    minimum difficulty, after more than twice the spacing, it is the limit. In every other case it is at
    most the last target and a sixteenth of it, and at least the last target less a sixteenth, but for
    the rounding of the compact form, which loses at most one part in 2^15. *)
Theorem difficulty_bounded (h : heap) (P : Params) (p : ptr) (b : CBlockIndex) (pblock : CBlockHeader) :
  tree_ok h -> params_ok P -> work_ok h (le_decode (powLimit P)) -> h !! p = Some b -> 824189 <= nHeight b ->
  exists c, GetNextCashWorkRequired h p pblock P = Ok c /\ valid_bits (le_decode (powLimit P)) c /\
    (late_block P b pblock -> GetCompact (UintToArith256 (powLimit P)) false = Ok c) /\ (~ late_block P b pblock -> bounded_step (nBits b) c).
Proof.
  intros T HP K E H. destruct (GetNextCashWorkRequired_spec h T P HP K p b pblock E ltac:(lia)) as (c & G & V & L & B).
  exists c. split; [exact G|]. split; [exact V|]. split; [exact L|]. intros N. exact (proj1 (B H N)).
Qed.

Lemma difficulty_bounded_witness : exists c,
  GetNextCashWorkRequired (uniform (Z.to_nat 825000) 600 recovering) (ptr_at (Z.to_nat 824500)) CBlockHeader_new (main_params false) = Ok c /\
  bounded_step (nBits (uniform_block 600 recovering (Z.to_nat 824500))) c.
Proof.
  destruct (difficulty_bounded _ _ (ptr_at (Z.to_nat 824500)) (uniform_block 600 recovering (Z.to_nat 824500)) CBlockHeader_new (uniform_ok _ _ _) (main_params_ok _) (recovering_work (Z.to_nat 825000) 600 ltac:(lia) ltac:(lia) ltac:(lia)))
    as (c & G & _ & _ & B); [apply uniform_lookup; lia | cbn [nHeight uniform_block]; lia|]. exists c. split; [exact G|]. apply B. intros [F _]. discriminate F.
Defined.

(** Fourteen slow steps double the target. *)
Lemma growth_bound (n k : Z) : 0 <= k -> n = 14 * k -> 2 ^ k * 128 ^ n <= 135 ^ n.
Proof.
  intros Hk ->. rewrite !(Z.pow_mul_r _ 14 k) by lia. rewrite <- Z.pow_mul_l. apply Z.pow_le_mono_l. split; vm_compute; discriminate.
Qed.

(** C28: the chain recovers from a loss of hash rate. Take a well-formed chain with the spacing and the
    limits of the main and test networks, and [n] blocks in a row, each after a block of at least height
    824189 whose median time is more than six hours after that of the twelfth before it, and each with
    the difficulty that [GetNextCashWorkRequired] asks for. Then the last of them is at the limit of the
    network or its target is at least [(135/128)^n] times that of the block before the first; and for
    [n] of at least 2926 it is at the limit, however hard that block was. *)
Theorem slow_chain_recovers (h : heap) (P : Params) (n : nat) (p q : ptr) (b c : CBlockIndex) :
  tree_ok h -> params_ok P -> work_ok h (le_decode (powLimit P)) ->
  h !! p = Some b -> slow_blocks h P n p -> up h n p = Some q -> h !! q = Some c -> 1 <= nHeight c ->
  (GetCompact (UintToArith256 (powLimit P)) false = Ok (nBits b) \/ target (nBits c) * 135 ^ Z.of_nat n <= target (nBits b) * 128 ^ Z.of_nat n) /\
  (2926 <= Z.of_nat n -> GetCompact (UintToArith256 (powLimit P)) false = Ok (nBits b)).
Proof.
  intros T HP K E S U F Hc. destruct (UintToArith256_spec (powLimit P) (proj1 HP) (proj1 (proj2 HP))) as [Ou _].
  destruct (GetCompact_spec _ Ou) as (cl & Hcl & _). rewrite Hcl. destruct (slow_blocks_grow h T P HP K cl Hcl n p b q c S E U F Hc) as [->|G]; [now split; [left|]|].
  split; [now right|]. intros L. exfalso. pose proof (wk_bits _ _ K p b E) as (_ & _ & Lb). pose proof (target_lower h T P K q c F Hc) as Lc. destruct HP as (_ & _ & Lim & _).
  assert (X : 2 ^ 209 * 128 ^ Z.of_nat n <= 135 ^ Z.of_nat n).
  { replace (Z.of_nat n) with (14 * 209 + (Z.of_nat n - 2926)) by lia. rewrite !Z.pow_add_r, Z.mul_assoc by lia.
    apply Z.mul_le_mono_nonneg; [apply Z.mul_nonneg_nonneg; apply Z.pow_nonneg; lia | exact (growth_bound _ 209 ltac:(lia) eq_refl) | apply Z.pow_nonneg; lia | apply Z.pow_le_mono_l; lia]. }
  pose proof (Z.pow_pos_nonneg 128 (Z.of_nat n) eq_refl (Nat2Z.is_nonneg _)) as Y. revert X Y G. generalize (128 ^ Z.of_nat n) (135 ^ Z.of_nat n). intros u v X Y G.
  assert (target (nBits b) * u <= 2 ^ 224 * u) by (apply Z.mul_le_mono_nonneg_r; lia).
  assert (2 ^ 16 * v <= target (nBits c) * v) by (apply Z.mul_le_mono_nonneg_r; lia). lia.
Qed.

Lemma recovering_slow_blocks N s n : forall i, 1801 <= s -> Z.of_nat N * s <= 2 ^ 31 -> Z.of_nat N < 2 ^ 21 -> (824189 + Z.of_nat n <= Z.of_nat i) -> (i < N)%nat ->
  slow_blocks (uniform N s recovering) (main_params false) n (ptr_at i).
Proof.
  induction n as [|n IH]; intros i Hs HN H21 Hi L; [constructor|]. destruct i as [|j]; [lia|].
  pose proof (recovering_work N s HN ltac:(lia) H21) as K.
  apply (slow_next _ _ n _ (ptr_at j) (uniform_block s recovering (S j)) (uniform_block s recovering j) CBlockHeader_new);
    [apply uniform_lookup; lia | reflexivity | apply uniform_lookup; lia | cbn [nHeight uniform_block]; lia | apply uniform_slow; lia | | apply IH; lia].
  destruct (GetNextCashWorkRequired_spec _ (uniform_ok N s recovering) _ (main_params_ok false) K _ _ CBlockHeader_new (uniform_lookup N s recovering j ltac:(lia)))
    as (c & -> & _ & _ & Sl); [cbn [nHeight uniform_block]; lia|]. f_equal. destruct (Sl ltac:(cbn [nHeight uniform_block]; lia)) as [_ St]; [intros [F _]; discriminate F|].
  specialize (St (uniform_slow N s recovering j ltac:(lia) ltac:(lia))). cbn [nBits uniform_block] in *. apply (slow_step_det _ _ _ _ St).
  unfold recovering. rewrite (Nat.sub_succ_l (Z.to_nat 824189) j) by lia. exact (proj1 (eased_spec _ (proj1 (iter_eased (j - Z.to_nat 824189))))).
Qed.

Lemma slow_chain_recovers_witness : recovering (Z.to_nat 824200) <> 0x1d00ffff /\
  GetCompact (UintToArith256 (powLimit (main_params false))) false = Ok (nBits (uniform_block 2000 recovering (Z.to_nat 827500))).
Proof.
  split; [vm_compute; discriminate|].
  apply (slow_chain_recovers (uniform (Z.to_nat 828000) 2000 recovering) (main_params false) (Z.to_nat 3300) (ptr_at (Z.to_nat 827500)) (ptr_at (Z.to_nat 827500 - Z.to_nat 3300))
           (uniform_block 2000 recovering (Z.to_nat 827500)) (uniform_block 2000 recovering (Z.to_nat 827500 - Z.to_nat 3300)) (uniform_ok _ _ _) (main_params_ok _));
    [apply recovering_work; lia | apply uniform_lookup; lia | apply recovering_slow_blocks; lia | apply uniform_up; lia
    | apply uniform_lookup; lia | cbn [nHeight uniform_block]; lia | lia].
Defined.

(** the retargeting every 2016 blocks is exact: the new target is the old one times the time the
    blocks took, taken between a quarter of and four times two weeks, over two weeks, at most the limit of the
    network, with no overflow of the 256 bits or of the 32-bit factor, rounded to the compact form. *)
Theorem CalculateNextWorkRequired_correct (h : heap) (P : Params) (p : ptr) (b : CBlockIndex) (first : Z) :
  params_ok P -> work_ok h (le_decode (powLimit P)) -> h !! p = Some b -> fPowNoRetargeting P = false -> 4 <= target (nBits b) ->
  let exact := Z.min (le_decode (powLimit P)) (target (nBits b) * clamp 302400 4838400 (nTime b - first) / 1209600) in
  exists c, CalculateNextWorkRequired b first P = Ok c /\ valid_bits (le_decode (powLimit P)) c /\
    target c <= exact /\ (exact - target c) * 2 ^ 15 <= exact.
Proof. intros HP K E NR Ht. exact (CalculateNextWorkRequired_spec h P HP K p b first E NR Ht). Qed.

Lemma CalculateNextWorkRequired_correct_witness :
  let exact := Z.min (le_decode (powLimit (main_params false))) (target 0x1d00ffff * clamp 302400 4838400 (1200600 - 0) / 1209600) in
  exists c, CalculateNextWorkRequired (uniform_block 600 steady 2001) 0 (main_params false) = Ok c /\
    valid_bits (le_decode (powLimit (main_params false))) c /\ target c <= exact /\ (exact - target c) * 2 ^ 15 <= exact.
Proof.
  apply (CalculateNextWorkRequired_correct (uniform 3000 600 steady) (main_params false) (ptr_at 2001) (uniform_block 600 steady 2001) 0 (main_params_ok _));
    [apply steady_work; lia | apply uniform_lookup; lia | reflexivity | cbn [nBits uniform_block]; vm_compute; discriminate].
Defined.
End Difficulty.
