(* ===== verification/SafeMode.v ===== *)
(** * Safe mode (src/src/validation.cpp, src/src/warnings.cpp)

    The node warns when a large fork is known: the forks that cause the warning are kept with their
    bases and looked at again when the index or the active chain changes. *)

From stdpp Require Import gmap sorting.
From S2P Require Import Prelude Outcome Block ArithUint256 BlockIndex Chain.
Import ArithUint256 Block BlockIndex Chain.

Module SafeMode.
Local Open Scope Z_scope.
Local Open Scope outcome_scope.

Inductive SafeModeLevel : Set := NONE | UNKNOWN | INVALID | VALID.
#[export] Instance SafeModeLevel_eq_dec : EqDecision SafeModeLevel.
Proof. solve_decision. Defined.

Definition rank (l : SafeModeLevel) : Z := match l with NONE => 0 | UNKNOWN => 1 | INVALID => 2 | VALID => 3 end.

(** [currentSafeModeLevel], and [safeModeForks]: the base of each fork, by its tip. *)
Record safe_mode : Type := mkSafe { currentSafeModeLevel : SafeModeLevel; safeModeForks : gmap ptr ptr }.

Definition SAFE_MODE_MIN_VALID_FORK_LENGTH : Z := 7.
Definition SAFE_MODE_MAX_VALID_FORK_DISTANCE : Z := 72.
Definition SAFE_MODE_MAX_FORK_DISTANCE : Z := 288.
Definition SAFE_MODE_MIN_POW_DIFFERENCE : Z := 6.

Section Forks.
Context (h : heap) (chainActive : CChain).

(** Walks along [pprev] are at most as long as the height. *)
Definition walk_fuel (p : option ptr) : nat := match p with Some p => match h !! p with Some b => Z.to_nat (nHeight b + 2) | None => 1 end | None => 1 end.

Definition FindForkBase (pindexForkTip : option ptr) : outcome (option ptr) := fork_walk (walk_fuel pindexForkTip) h chainActive pindexForkTip.

Fixpoint invalid_walk (fuel : nat) (pindexWalk : option ptr) : outcome (option ptr) :=
  match pindexWalk with
  | None => Ok None
  | Some p =>
      match fuel with
      | O => Abort
      | S fuel =>
          let* found := Contains h chainActive p in
          if found then Ok None
          else
            let* b := deref h p in
            if isInvalid (nStatus b) then Ok (Some p) else invalid_walk fuel (pprev b)
      end
  end.
Definition FindInvalidBlockOnFork (pindexForkTip : option ptr) : outcome (option ptr) := invalid_walk (walk_fuel pindexForkTip) pindexForkTip.

(** [while (pindexWalk && pindexWalk != fork.second)] *)
Fixpoint on_fork (fuel : nat) (base pindexNew : ptr) (pindexWalk : option ptr) : outcome bool :=
  match pindexWalk with
  | None => Ok false
  | Some p =>
      if Pos.eqb p base then Ok false
      else
        match fuel with
        | O => Abort
        | S fuel => if Pos.eqb p pindexNew then Ok true else let* b := deref h p in on_fork fuel base pindexNew (pprev b)
        end
  end.

Fixpoint on_some_fork (pindexNew : ptr) (l : list (ptr * ptr)) : outcome bool :=
  match l with
  | [] => Ok false
  | (tip, base) :: l => let* r := on_fork (walk_fuel (Some tip)) base pindexNew (Some tip) in if r then Ok true else on_some_fork pindexNew l
  end.

Definition IsBlockPartOfExistingSafeModeFork (forks : gmap ptr ptr) (pindexNew : ptr) : outcome bool :=
  let* b := deref h pindexNew in
  if hasData (nStatus b) then on_some_fork pindexNew (map_to_list forks) else Ok false.

Definition ShouldForkTriggerSafeMode (pindexForkTip pindexForkBase : option ptr) : outcome SafeModeLevel :=
  match pindexForkTip, pindexForkBase with
  | Some ft, Some fb =>
      let* found := Contains h chainActive ft in
      if found then Ok NONE
      else
        let* f := deref h ft in
        let* base := deref h fb in
        let* tip := or_abort (Tip chainActive) in
        let* t := deref h tip in
        let* proof := GetBlockProof (nBits t) in
        let valid := isValid (nStatus f) BlockValidity.TRANSACTIONS && (0 <? nChainTx f) in
        let distance := nHeight t - nHeight base in
        if valid && gt (sub (nChainWork f) (nChainWork base)) (mul32 proof SAFE_MODE_MIN_VALID_FORK_LENGTH) && (distance <=? SAFE_MODE_MAX_VALID_FORK_DISTANCE) then Ok VALID
        else if (distance <=? SAFE_MODE_MAX_FORK_DISTANCE) && le (add (nChainWork t) (mul32 proof SAFE_MODE_MIN_POW_DIFFERENCE)) (nChainWork f) then
          Ok (if isInvalid (nStatus f) then INVALID else if valid then VALID else UNKNOWN)
        else Ok NONE
  | _, _ => Ok NONE
  end.

(** The loop over the existing forks: those that still trigger, and the highest level. *)
Fixpoint check_forks (l : list (ptr * ptr)) (forks : gmap ptr ptr) (level : SafeModeLevel) : outcome (gmap ptr ptr * SafeModeLevel) :=
  match l with
  | [] => Ok (forks, level)
  | (tip, base) :: l =>
      let* lf := ShouldForkTriggerSafeMode (Some tip) (Some base) in
      if bool_decide (lf = NONE) then check_forks l (delete tip forks) level
      else check_forks l forks (if rank level <? rank lf then lf else level)
  end.

(** The part of [CheckSafeModeParameters] before the existing forks are checked: the forks, the level,
    and whether to check. *)
Definition update_forks (s : safe_mode) (pindexNew prev : ptr) : outcome (gmap ptr ptr * SafeModeLevel * bool) :=
  let* found := Contains h chainActive pindexNew in
  let* part := (if ptr_eqb (Tip chainActive) (Some prev) || found then Ok true else IsBlockPartOfExistingSafeModeFork (safeModeForks s) pindexNew) in
  if part then Ok (safeModeForks s, NONE, negb (bool_decide (currentSafeModeLevel s = NONE)))
  else
    let* r := (match safeModeForks s !! prev with
               | Some base => Ok (delete prev (safeModeForks s), Some base)
               | None => let* base := FindForkBase (Some pindexNew) in Ok (safeModeForks s, base)
               end) in
    let '(forks, base) := r in
    let* level := ShouldForkTriggerSafeMode (Some pindexNew) base in
    match level, base with
    | NONE, _ | _, None => Ok (forks, NONE, true)
    | _, Some fb => Ok (match forks !! pindexNew with Some _ => forks | None => <[pindexNew := fb]> forks end, level, false)
    end.

(** [SetSafeModeLevel] is called when the level changes. The notification only writes to the log and
    runs the alert command. *)
Definition CheckSafeModeParameters (s : safe_mode) (pindexNew : option ptr) : outcome safe_mode :=
  match pindexNew with
  | None => Ok s
  | Some p =>
      let* b := deref h p in
      match pprev b with
      | None => Ok s
      | Some prev =>
          let* r := update_forks s p prev in
          let '(forks, level, checkExistingForks) := r in
          let* r := (if checkExistingForks then check_forks (map_to_list forks) forks level else Ok (forks, level)) in
          let '(forks, level) := r in Ok (mkSafe level forks)
      end
  end.
End Forks.

(** ** Startup *)

Record index_state : Type := mkState { st_heap : heap; setDirtyBlockIndex : gset ptr; setBlockIndexCandidates : gset ptr }.

(** [while (pindexWalk != pindexInvalidBlock)] *)
Fixpoint fail_walk (fuel : nat) (s : index_state) (pindexInvalidBlock : ptr) (pindexWalk : option ptr) : outcome index_state :=
  match pindexWalk with
  | None => Abort
  | Some p =>
      if Pos.eqb p pindexInvalidBlock then Ok s
      else
        match fuel with
        | O => Abort
        | S fuel =>
            let* b := deref (st_heap s) p in
            fail_walk fuel
              (mkState (<[p := set_status b (withFailedParent (nStatus b) true)]> (st_heap s)) ({[p]} ∪ setDirtyBlockIndex s)
                 (setBlockIndexCandidates s ∖ {[p]})) pindexInvalidBlock (pprev b)
        end
  end.

Definition CheckForkForInvalidBlocks (chainActive : CChain) (s : index_state) (pindexForkTip : ptr) : outcome index_state :=
  let* r := FindInvalidBlockOnFork (st_heap s) chainActive (Some pindexForkTip) in
  match r with
  | Some q => fail_walk (walk_fuel (st_heap s) (Some pindexForkTip)) s q (Some pindexForkTip)
  | None => Ok s
  end.

(** The blocks outside the active chain, and their predecessors. *)
Fixpoint tip_candidates (h : heap) (chainActive : CChain) (l : list ptr) : outcome (gset ptr * gset ptr) :=
  match l with
  | [] => Ok (∅, ∅)
  | p :: l =>
      let* found := Contains h chainActive p in
      let* b := deref h p in
      let* r := tip_candidates h chainActive l in
      let '(cands, prevs) := r in
      if found then Ok (cands, prevs)
      else Ok ({[p]} ∪ cands, match pprev b with Some q => {[q]} ∪ prevs | None => prevs end)
  end.

Fixpoint check_tips (chainActive : CChain) (tips : list ptr) (st : index_state) (s : safe_mode) : outcome (index_state * safe_mode) :=
  match tips with
  | [] => Ok (st, s)
  | tip :: tips =>
      let* b := deref (st_heap st) tip in
      let* st := (if negb (isInvalid (nStatus b)) && (nChainTx b =? 0) then CheckForkForInvalidBlocks chainActive st tip else Ok st) in
      let* s := CheckSafeModeParameters (st_heap st) chainActive s (Some tip) in
      check_tips chainActive tips st s
  end.

(** [mapBlockIndex] is the list of its entries. The set of tips is ordered by address. *)
Definition CheckSafeModeParametersForAllForksOnStartup (chainActive : CChain) (mapBlockIndex : list ptr) (st : index_state) (s : safe_mode)
  : outcome (index_state * safe_mode) :=
  let* r := tip_candidates (st_heap st) chainActive mapBlockIndex in
  let '(cands, prevs) := r in
  check_tips chainActive (merge_sort Pos.le (elements (cands ∖ prevs))) st s.

(** ** The invariant *)

(** The forks are blocks of the index, and the node is in safe mode when there is one. *)
Record safe_ok (h : heap) (s : safe_mode) : Prop := mkSafeOk {
  sm_known : forall k x, safeModeForks s !! k = Some x -> is_Some (h !! k) /\ is_Some (h !! x);
  sm_level : currentSafeModeLevel s = NONE <-> safeModeForks s = ∅
}.

(** Block [new] is [k] or one of its predecessors above [base]. *)
Inductive part_of (h : heap) (base new : ptr) : ptr -> Prop :=
| part_here : new <> base -> part_of h base new new
| part_up k b q : k <> base -> h !! k = Some b -> pprev b = Some q -> part_of h base new q -> part_of h base new k.

(** What a call for block [p] with predecessor [prev] does, where [causes k x l] says that the fork with
    tip [k] and base [x] causes safe mode at level [l]. *)
Section Checked.
Context (causes : ptr -> ptr -> SafeModeLevel -> Prop).

(** The level is the highest of the forks, all of which cause safe mode. *)
Definition level_of (forks : gmap ptr ptr) (l : SafeModeLevel) : Prop :=
  (forall k x, forks !! k = Some x -> exists l', causes k x l' /\ rank l' <= rank l) /\
  (l = NONE \/ exists k x, forks !! k = Some x /\ causes k x l).

(** The forks that still cause safe mode stay, with the highest of their levels. *)
Definition rechecks (forks : gmap ptr ptr) (s' : safe_mode) : Prop :=
  (forall k x, safeModeForks s' !! k = Some x <-> forks !! k = Some x /\ exists l, causes k x l) /\
  level_of (safeModeForks s') (currentSafeModeLevel s').

Context (h : heap) (tip : ptr) (s : safe_mode) (p : ptr) (b : CBlockIndex) (prev : ptr).

(** The block is on the active chain or extends its tip, or it has data and belongs to a recorded fork. *)
Definition accounted : Prop :=
  prev = tip \/ anc h tip p \/ hasData (nStatus b) = true /\ exists k x, safeModeForks s !! k = Some x /\ part_of h x p k.

(** The base of the fork that the block extends, or else the last block it has in common with the
    active chain. *)
Definition base_of (base : option ptr) : Prop :=
  match safeModeForks s !! prev with Some x => base = Some x | None => last_common h p tip base end.

Definition record_fork (x : ptr) (forks : gmap ptr ptr) : gmap ptr ptr := match forks !! p with Some _ => forks | None => <[p := x]> forks end.

Definition checked (s' : safe_mode) : Prop :=
  (accounted /\ rechecks (safeModeForks s) s') \/
  (~ accounted /\ exists base, base_of base /\
    ((exists x l, base = Some x /\ causes p x l /\ s' = mkSafe l (record_fork x (delete prev (safeModeForks s)))) \/
     ((forall x l, base = Some x -> ~ causes p x l) /\ rechecks (delete prev (safeModeForks s)) s'))).
End Checked.

Section Levels.
Context (h : heap) (T : tree_ok h) (c : CChain) (tip : ptr) (t : CBlockIndex).
Context (C : chain_ok h c) (Ht : Tip c = Some tip) (Et : h !! tip = Some t) (B : 0 <= nBits t < 2 ^ 32).

Definition triggers (k x : ptr) (l : SafeModeLevel) : Prop := ShouldForkTriggerSafeMode h c (Some k) (Some x) = Ok l /\ l <> NONE.

Lemma ShouldFork_defined k x : is_Some (h !! k) -> is_Some (h !! x) -> exists l, ShouldForkTriggerSafeMode h c (Some k) (Some x) = Ok l.
Proof.
  intros [f Ef] [base Eb]. unfold ShouldForkTriggerSafeMode. destruct (Contains_spec h T c tip t C Ht Et k f Ef) as (v & -> & _).
  cbn [obind]. destruct v; [now eexists|]. unfold deref. rewrite Ef, Eb, Ht. cbn [or_abort obind]. rewrite Et. cbn [or_abort obind].
  destruct (GetBlockProof_spec (nBits t) B) as (w & -> & _). cbn [obind]. do 2 (case_match; [now eexists|]). now eexists.
Qed.

Lemma rank_max (a b : SafeModeLevel) : let m := if rank a <? rank b then b else a in rank a <= rank m /\ rank b <= rank m /\ (m = a \/ m = b).
Proof. cbn zeta. destruct (Z.ltb_spec (rank a) (rank b)); split_and!; auto; lia. Qed.

Lemma rank_none l : rank l <= rank NONE -> l = NONE.
Proof. destruct l; cbn; [reflexivity | lia..]. Qed.

Lemma check_forks_spec l : forall F lv, base.NoDup l.*1 -> (forall k x, (k, x) ∈ l -> F !! k = Some x /\ is_Some (h !! k) /\ is_Some (h !! x)) ->
  exists F' lv', check_forks h c l F lv = Ok (F', lv') /\
    (forall k x, F' !! k = Some x <-> F !! k = Some x /\ ((k, x) ∈ l -> exists l', triggers k x l')) /\
    rank lv <= rank lv' /\ (forall k x l', (k, x) ∈ l -> triggers k x l' -> rank l' <= rank lv') /\
    (lv' = lv \/ exists k x, (k, x) ∈ l /\ triggers k x lv').
Proof.
  induction l as [|[k0 x0] l IH]; intros F lv N A.
  { exists F, lv. split; [reflexivity|]. split; [|split; [lia|]; split; [|now left]].
    - intros k x. split; [|tauto]. intros E. split; [exact E|]. intros H. now apply elem_of_nil in H.
    - intros k x l' H. now apply elem_of_nil in H. }
  cbn [fmap list_fmap fst] in N. apply list.NoDup_cons in N as [N0 N].
  destruct (A k0 x0 ltac:(now left)) as (F0 & K0 & X0). cbn [check_forks]. destruct (ShouldFork_defined k0 x0 K0 X0) as [lf R].
  rewrite R. cbn [obind]. assert (U : forall k x, (k, x) ∈ l -> k <> k0).
  { intros k x H ->. apply N0. apply list_elem_of_fmap. exists (k0, x). auto. }
  case_bool_decide as D.
  - destruct (IH (delete k0 F) lv N) as (F' & lv' & E & P1 & P2 & P3 & P4).
    { intros k x H. rewrite lookup_delete_ne by (intros Q; exact (U k x H (eq_sym Q))). apply A. now right. }
    exists F', lv'. split; [exact E|]. split; [|split; [exact P2|]; split].
    + intros k x. rewrite P1. destruct (decide (k = k0)) as [->|Q].
      * rewrite lookup_delete_eq. split; [intros [? _]; discriminate|]. intros [E0 H]. rewrite F0 in E0. injection E0 as <-.
        destruct (H ltac:(now left)) as (l' & R' & Nn). rewrite R in R'. injection R' as <-. contradiction.
      * rewrite lookup_delete_ne by (intros Q'; exact (Q (eq_sym Q'))). rewrite elem_of_cons. split; intros [E0 H]; (split; [exact E0|]).
        -- intros [[= Q' _]|Q']; [contradiction | exact (H Q')].
        -- intros Q'. apply H. now right.
    + intros k x l' H [R' Nn]. apply elem_of_cons in H as [[= -> ->]|H]; [rewrite R in R'; injection R' as <-; contradiction|]. exact (P3 k x l' H (conj R' Nn)).
    + destruct P4 as [->|(k & x & H & W)]; [now left|]. right. exists k, x. split; [now right | exact W].
  - assert (W0 : triggers k0 x0 lf) by (split; assumption).
    destruct (rank_max lv lf) as (M1 & M2 & M3). set (m := if rank lv <? rank lf then lf else lv) in *.
    destruct (IH F m N ltac:(intros k x H; apply A; now right)) as (F' & lv' & E & P1 & P2 & P3 & P4).
    exists F', lv'. split; [exact E|]. split; [|split; [lia|]; split].
    + intros k x. rewrite P1, elem_of_cons. split; intros [E0 H]; (split; [exact E0|]); [intros [[= -> ->]|Q]; [now exists lf | exact (H Q)] | intros Q; apply H; now right].
    + intros k x l' H [R' Nn]. apply elem_of_cons in H as [[= -> ->]|H]; [rewrite R in R'; injection R' as <-; lia|]. exact (P3 k x l' H (conj R' Nn)).
    + destruct P4 as [->|(k & x & H & W)]; [|right; exists k, x; split; [now right | exact W]].
      destruct M3 as [-> | ->]; [now left|]. right. exists k0, x0. split; [now left | exact W0].
Qed.

Definition known (F : gmap ptr ptr) : Prop := forall k x, F !! k = Some x -> is_Some (h !! k) /\ is_Some (h !! x).

(** Checking the existing forks keeps those that trigger safe mode and finds their level. *)
Lemma rechecked (F : gmap ptr ptr) : known F ->
  exists F' lv', check_forks h c (map_to_list F) F NONE = Ok (F', lv') /\ rechecks triggers F (mkSafe lv' F') /\ known F' /\ (lv' = NONE <-> F' = ∅).
Proof.
  intros K. destruct (check_forks_spec (map_to_list F) F NONE (NoDup_fst_map_to_list F)) as (F' & lv' & E & P1 & _ & P3 & P4).
  { intros k x H. apply elem_of_map_to_list in H. split; [exact H | exact (K k x H)]. }
  assert (I : forall k x, F' !! k = Some x -> F !! k = Some x) by (intros k x H; now apply P1 in H).
  assert (L : level_of triggers F' lv').
  { split.
    - intros k x H. apply P1 in H as [H W]. apply elem_of_map_to_list in H. destruct (W H) as [l' W']. exists l'. split; [exact W'|].
      exact (P3 k x l' H W').
    - destruct P4 as [->|(k & x & H & W)]; [now left|]. right. exists k, x. split; [|exact W]. apply P1.
      split; [now apply elem_of_map_to_list|]. intros _. now exists lv'. }
  exists F', lv'. split; [exact E|]. split; [split; [|exact L]|].
  { intros k x. cbn [safeModeForks]. rewrite P1, <- elem_of_map_to_list. tauto. }
  split; [intros k x H; exact (K k x (I k x H))|]. destruct L as [L1 L2]. split.
  - intros ->. apply map_empty. intros k. destruct (F' !! k) as [x|] eqn:H; [|reflexivity].
    destruct (L1 k x H) as (l' & [_ Nn] & R). now apply rank_none in R.
  - intros ->. destruct L2 as [->|(k & x & H & _)]; [reflexivity|]. rewrite lookup_empty in H. discriminate.
Qed.

Lemma on_fork_spec (fuel : nat) : forall base new p b, h !! p = Some b -> (Z.to_nat (nHeight b) < fuel)%nat ->
  exists v, on_fork h fuel base new (Some p) = Ok v /\ (v = true <-> part_of h base new p).
Proof.
  induction fuel as [|fuel IH]; intros base new p b E L; [lia|]. cbn [on_fork].
  destruct (Pos.eqb_spec p base) as [->|Nb]; [exists false; split; [reflexivity|]; split; [discriminate | now inversion 1]|].
  destruct (Pos.eqb_spec p new) as [->|Nn]; [exists true; split; [reflexivity|]; split; [now constructor | reflexivity]|].
  unfold deref. rewrite E. cbn [or_abort obind]. destruct (pprev b) as [q|] eqn:P.
  - destruct (ok_prev h T p b q E P) as (d & Ed & Hd). pose proof (ok_height h T q d Ed). destruct (IH base new q d Ed ltac:(lia)) as (v & -> & V).
    exists v. split; [reflexivity|]. rewrite V. split; [now apply (part_up h base new p b q)|]. inversion 1 as [|k b' q' _ E' P']; congruence.
  - exists false. split; [now destruct fuel|]. split; [discriminate|]. inversion 1; congruence.
Qed.

Lemma on_some_fork_spec new l : (forall k x, (k, x) ∈ l -> is_Some (h !! k)) ->
  exists v, on_some_fork h new l = Ok v /\ (v = true <-> exists k x, (k, x) ∈ l /\ part_of h x new k).
Proof.
  induction l as [|[k x] l IH]; intros A; [exists false; split; [reflexivity|]; split; [discriminate | intros (k & x & I & _); now apply elem_of_nil in I]|].
  destruct (A k x ltac:(now left)) as [b E]. cbn [on_some_fork]. destruct (on_fork_spec (walk_fuel h (Some k)) x new k b E) as (v & -> & V).
  { unfold walk_fuel. rewrite E. pose proof (ok_height h T k b E). lia. }
  destruct IH as (w & -> & W); [intros k' x' H; apply (A k' x'); now right|]. cbn [obind]. exists (v || w). split; [now destruct v|].
  rewrite orb_true_iff, V, W. split.
  - intros [P|(k' & x' & I & P)]; [exists k, x | exists k', x']; (split; [|exact P]); [now left | now right].
  - intros (k' & x' & I & P). apply elem_of_cons in I as [[= -> ->]|I]; [now left | right; now exists k', x'].
Qed.

Lemma IsBlockPart_spec F p b : known F -> h !! p = Some b ->
  exists v, IsBlockPartOfExistingSafeModeFork h F p = Ok v /\ (v = true <-> hasData (nStatus b) = true /\ exists k x, F !! k = Some x /\ part_of h x p k).
Proof.
  intros K E. unfold IsBlockPartOfExistingSafeModeFork, deref. rewrite E. cbn [or_abort obind].
  destruct (hasData (nStatus b)); [|exists false; split; [reflexivity|]; split; [discriminate | now intros [? _]]].
  destruct (on_some_fork_spec p (map_to_list F)) as (v & -> & V); [intros k x H; apply elem_of_map_to_list in H; exact (proj1 (K k x H))|].
  exists v. split; [reflexivity|]. rewrite V. setoid_rewrite elem_of_map_to_list. tauto.
Qed.

Lemma FindForkBase_spec p b : h !! p = Some b -> exists r, FindForkBase h c (Some p) = Ok r /\ last_common h p tip r.
Proof.
  intros E. unfold FindForkBase, walk_fuel. rewrite E. pose proof (ok_height h T p b E).
  apply (fork_walk_spec h T c tip t C Ht Et _ p b E). lia.
Qed.

(** The fork of a block that is not accounted for is recorded, or all others are to be checked. *)
Lemma add_fork p b F base : h !! p = Some b -> known F -> (forall x, base = Some x -> is_Some (h !! x)) ->
  exists F' lv chk,
    (let* level := ShouldForkTriggerSafeMode h c (Some p) base in
     match level, base with
     | NONE, _ | _, None => Ok (F, NONE, true)
     | _, Some fb => Ok (match F !! p with Some _ => F | None => <[p := fb]> F end, level, false)
     end) = Ok (F', lv, chk) /\ known F' /\
    ((chk = true /\ lv = NONE /\ F' = F /\ forall x l, base = Some x -> ~ triggers p x l) \/
     (chk = false /\ exists x, base = Some x /\ triggers p x lv /\ F' = record_fork p x F)).
Proof.
  intros E K A. destruct base as [fb|]; [|exists F, NONE, true; split; [reflexivity|]; split; [exact K|]; left; split_and!; auto; discriminate].
  destruct (ShouldFork_defined p fb (ex_intro _ b E) (A fb eq_refl)) as [lv R]. rewrite R. cbn [obind].
  destruct (decide (lv = NONE)) as [->|Nn].
  { exists F, NONE, true. split; [reflexivity|]. split; [exact K|]. left. split_and!; auto. intros x l [= <-] [R' Nn]. rewrite R in R'. injection R' as <-. contradiction. }
  exists (record_fork p fb F), lv, false. split; [destruct lv; [contradiction | reflexivity..]|]. split; [|right; split; [reflexivity|]; exists fb; repeat split; assumption].
  unfold record_fork. destruct (F !! p) as [x0|]; [exact K|]. intros k x. destruct (decide (k = p)) as [->|Q].
  - rewrite lookup_insert_eq. intros [= <-]. split; [now exists b | now apply A].
  - rewrite lookup_insert_ne by auto. apply K.
Qed.

Lemma update_forks_spec s p b prev : safe_ok h s -> h !! p = Some b ->
  exists F lv chk, update_forks h c s p prev = Ok (F, lv, chk) /\ known F /\
    ((accounted h tip s p b prev /\ F = safeModeForks s /\ lv = NONE /\ (chk = false -> F = ∅)) \/
     (~ accounted h tip s p b prev /\ exists base, base_of h tip s p prev base /\
       ((chk = true /\ lv = NONE /\ F = delete prev (safeModeForks s) /\ forall x l, base = Some x -> ~ triggers p x l) \/
        (chk = false /\ exists x, base = Some x /\ triggers p x lv /\ F = record_fork p x (delete prev (safeModeForks s)))))).
Proof.
  intros [K L] E. unfold update_forks. destruct (Contains_spec h T c tip t C Ht Et p b E) as (v & -> & V). cbn [obind].
  assert (D : exists part, (if ptr_eqb (Tip c) (Some prev) || v then Ok true else IsBlockPartOfExistingSafeModeFork h (safeModeForks s) p) = Ok part /\ (part = true <-> accounted h tip s p b prev)).
  { unfold accounted. rewrite Ht. destruct (ptr_eqb (Some tip) (Some prev)) eqn:Q; cbn [orb]; [apply ptr_eqb_spec in Q; injection Q as <-; exists true; tauto|].
    assert (prev <> tip) by (intros ->; rewrite ptr_eqb_refl in Q; discriminate). destruct v; [exists true; tauto|].
    destruct (IsBlockPart_spec _ p b K E) as (w & -> & W). exists w. split; [reflexivity|]. rewrite W. assert (~ anc h tip p) by (intros X; apply V in X; discriminate). tauto. }
  destruct D as (part & -> & P). cbn [obind]. destruct part.
  { do 3 eexists. split; [reflexivity|]. split; [exact K|]. left. split; [now apply P|]. split; [reflexivity|]. split; [reflexivity|].
    case_bool_decide as Q; [intros _; exact (proj1 L Q) | discriminate]. }
  assert (N : ~ accounted h tip s p b prev) by (intros X; apply P in X; discriminate). unfold base_of. destruct (safeModeForks s !! prev) as [x0|] eqn:Fp; cbn [obind].
  - destruct (add_fork p b (delete prev (safeModeForks s)) (Some x0) E) as (F' & lv & chk & R & K' & W).
    + intros k x H. apply lookup_delete_Some in H as [_ H]. exact (K k x H).
    + intros x [= <-]. exact (proj2 (K prev x0 Fp)).
    + exists F', lv, chk. split; [exact R|]. split; [exact K'|]. right. split; [exact N|]. exists (Some x0). split; [reflexivity | exact W].
  - destruct (FindForkBase_spec p b E) as (r & -> & LC). cbn [obind]. rewrite (delete_id _ _ Fp).
    destruct (add_fork p b (safeModeForks s) r E K) as (F' & lv & chk & R & K' & W).
    + intros x ->. destruct LC as [A _]. destruct (anc_lookup h T p x b E A) as (d & Ed & _). now exists d.
    + exists F', lv, chk. split; [exact R|]. split; [exact K'|]. right. split; [exact N|]. exists r. split; [exact LC | exact W].
Qed.
End Levels.

Lemma record_fork_some p x F : is_Some (record_fork p x F !! p).
Proof. unfold record_fork. destruct (F !! p) eqn:E; [rewrite E; now eexists | rewrite lookup_insert_eq; now eexists]. Qed.

Lemma CheckSafeModeParameters_spec (h : heap) (c : CChain) (tip p : ptr) (t b : CBlockIndex) (s : safe_mode) :
  tree_ok h -> chain_ok h c -> Tip c = Some tip -> h !! tip = Some t -> 0 <= nBits t < 2 ^ 32 -> safe_ok h s -> h !! p = Some b ->
  exists s', CheckSafeModeParameters h c s (Some p) = Ok s' /\ safe_ok h s' /\
    match pprev b with None => s' = s | Some prev => checked (triggers h c) h tip s p b prev s' end.
Proof.
  intros T C Ht Et B S E. unfold CheckSafeModeParameters, deref. rewrite E. cbn [or_abort obind].
  destruct (pprev b) as [prev|]; [|now exists s].
  destruct (update_forks_spec h T c tip t C Ht Et B s p b prev S E) as (F & lv & chk & -> & K & W). cbn [obind].
  destruct (rechecked h T c tip t C Ht Et B F K) as (F' & lv' & R & L & K' & Z').
  assert (Re : chk = true -> lv = NONE -> (if chk then check_forks h c (map_to_list F) F lv else Ok (F, lv)) = Ok (F', lv')) by (intros -> ->; exact R).
  destruct W as [(A & -> & -> & Em)|(A & base & Hb & [(-> & -> & -> & N)|(-> & x & -> & W & ->)])].
  - destruct chk.
    + rewrite Re by reflexivity. exists (mkSafe lv' F'). split; [reflexivity|]. split; [now split|]. left. now split.
    + rewrite (Em eq_refl) in *. exists (mkSafe NONE ∅). split; [reflexivity|]. split; [split; [exact K | now cbn]|]. left. split; [exact A|]. split; cbn [safeModeForks currentSafeModeLevel].
      * intros k x. rewrite (Em eq_refl), lookup_empty. split; [discriminate | now intros [? _]].
      * split; [intros k x H; rewrite lookup_empty in H; discriminate | now left].
  - rewrite Re by reflexivity. exists (mkSafe lv' F'). split; [reflexivity|]. split; [now split|]. right. split; [exact A|]. exists base. split; [exact Hb|]. right. now split.
  - cbn [obind]. exists (mkSafe lv (record_fork p x (delete prev (safeModeForks s)))). split; [reflexivity|]. split; [split; [exact K|]|].
    + cbn. split; [intros ->; now destruct W|]. intros Q. destruct (record_fork_some p x (delete prev (safeModeForks s))) as [y Y]. rewrite Q, lookup_empty in Y. discriminate.
    + right. split; [exact A|]. exists (Some x). split; [exact Hb|]. left. exists x, lv. split; [reflexivity|]. split; [exact W | reflexivity].
Qed.

(** ** When a fork causes safe mode *)

Definition work (b : CBlockIndex) : Z := val (nChainWork b).
(** The work that the difficulty of block [t] stands for. *)
Definition block_work (t : CBlockIndex) : Z := if usable (nBits t) then 2 ^ 256 / (target (nBits t) + 1) else 0.
Definition has_transactions (f : CBlockIndex) : bool := isValid (nStatus f) BlockValidity.TRANSACTIONS && (0 <? nChainTx f).

(** A fork with all transactions at most 72 blocks deep with more work than seven blocks of the tip [t]. *)
Definition close_fork (t base f : CBlockIndex) : Prop :=
  has_transactions f = true /\ nHeight t - nHeight base <= 72 /\ (7 * block_work t) mod 2 ^ 256 < (work f - work base) mod 2 ^ 256.

(** A fork at most 288 blocks deep that is ahead of the tip by the work of six blocks. *)
Definition strong_fork (t base f : CBlockIndex) : Prop :=
  nHeight t - nHeight base <= 288 /\ (work t + 6 * block_work t) mod 2 ^ 256 <= work f.

Inductive fork_level (t base f : CBlockIndex) : SafeModeLevel -> Prop :=
| level_close : close_fork t base f -> fork_level t base f VALID
| level_invalid : ~ close_fork t base f -> strong_fork t base f -> isInvalid (nStatus f) = true -> fork_level t base f INVALID
| level_valid : ~ close_fork t base f -> strong_fork t base f -> isInvalid (nStatus f) = false -> has_transactions f = true -> fork_level t base f VALID
| level_unknown : ~ close_fork t base f -> strong_fork t base f -> isInvalid (nStatus f) = false -> has_transactions f = false -> fork_level t base f UNKNOWN.

(** The fork with tip [k] and base [x] beside the chain with tip [tip] causes safe mode at level [l]. *)
Definition threatens (h : heap) (tip k x : ptr) (l : SafeModeLevel) : Prop :=
  ~ anc h tip k /\ exists t f base, h !! tip = Some t /\ h !! k = Some f /\ h !! x = Some base /\ fork_level t base f l.

Section Threat.
Context (h : heap) (T : tree_ok h) (c : CChain) (tip : ptr) (t : CBlockIndex).
Context (C : chain_ok h c) (Ht : Tip c = Some tip) (Et : h !! tip = Some t) (B : 0 <= nBits t < 2 ^ 32).
Context (U : forall p b, h !! p = Some b -> uint_ok (nChainWork b)).

Lemma close_spec (w : base_uint) (base f : CBlockIndex) : uint_ok w -> val w = block_work t -> uint_ok (nChainWork f) -> uint_ok (nChainWork base) ->
  has_transactions f && gt (sub (nChainWork f) (nChainWork base)) (mul32 w SAFE_MODE_MIN_VALID_FORK_LENGTH) && (nHeight t - nHeight base <=? SAFE_MODE_MAX_VALID_FORK_DISTANCE) = true <-> close_fork t base f.
Proof.
  intros Ow Vw Of Ob. destruct (sub_spec _ _ Of Ob) as [Os Vs], (mul32_spec w SAFE_MODE_MIN_VALID_FORK_LENGTH Ow) as [Om Vm].
  rewrite gt_spec by assumption. rewrite Vs, Vm, Vw, Z.mul_comm. change (u32 SAFE_MODE_MIN_VALID_FORK_LENGTH) with 7. unfold close_fork, work, SAFE_MODE_MAX_VALID_FORK_DISTANCE.
  rewrite !andb_true_iff, Z.ltb_lt, Z.leb_le. tauto.
Qed.

Lemma strong_spec (w : base_uint) (base f : CBlockIndex) : uint_ok w -> val w = block_work t -> uint_ok (nChainWork f) -> uint_ok (nChainWork t) ->
  (nHeight t - nHeight base <=? SAFE_MODE_MAX_FORK_DISTANCE) && le (add (nChainWork t) (mul32 w SAFE_MODE_MIN_POW_DIFFERENCE)) (nChainWork f) = true <-> strong_fork t base f.
Proof.
  intros Ow Vw Of Ot. destruct (mul32_spec w SAFE_MODE_MIN_POW_DIFFERENCE Ow) as [Om Vm], (add_spec _ _ Ot Om) as [Oa Va].
  rewrite le_spec by assumption. rewrite Va, Vm, Vw, Z.mul_comm, Z.add_mod_idemp_r by lia. change (u32 SAFE_MODE_MIN_POW_DIFFERENCE) with 6. unfold strong_fork, work, SAFE_MODE_MAX_FORK_DISTANCE.
  rewrite andb_true_iff, !Z.leb_le. tauto.
Qed.

Lemma fork_level_found (w : base_uint) (base f : CBlockIndex) (l : SafeModeLevel) : uint_ok w -> val w = block_work t ->
  uint_ok (nChainWork f) -> uint_ok (nChainWork base) -> uint_ok (nChainWork t) ->
  (if has_transactions f && gt (sub (nChainWork f) (nChainWork base)) (mul32 w SAFE_MODE_MIN_VALID_FORK_LENGTH) && (nHeight t - nHeight base <=? SAFE_MODE_MAX_VALID_FORK_DISTANCE) then VALID
   else if (nHeight t - nHeight base <=? SAFE_MODE_MAX_FORK_DISTANCE) && le (add (nChainWork t) (mul32 w SAFE_MODE_MIN_POW_DIFFERENCE)) (nChainWork f) then
     (if isInvalid (nStatus f) then INVALID else if has_transactions f then VALID else UNKNOWN)
   else NONE) = l /\ l <> NONE <-> fork_level t base f l.
Proof.
  intros Ow Vw Of Ob Ot. pose proof (close_spec w base f Ow Vw Of Ob) as X. pose proof (strong_spec w base f Ow Vw Of Ot) as Y.
  destruct (_ && gt _ _ && _) eqn:E1.
  - split; [intros [<- _]; apply level_close; now apply X|]. assert (close_fork t base f) by now apply X. inversion 1; try contradiction; now split.
  - assert (~ close_fork t base f) by (rewrite <- X; discriminate). destruct (_ && le _ _) eqn:E2.
    + assert (strong_fork t base f) by now apply Y. destruct (isInvalid (nStatus f)) eqn:I, (has_transactions f) eqn:Hf;
        (split; [intros [<- _]; now constructor | inversion 1; (contradiction || congruence || now split)]).
    + assert (~ strong_fork t base f) by (rewrite <- Y; discriminate). split; [intros [<- ?]; contradiction | inversion 1; contradiction].
Qed.

Lemma triggers_threatens k x l : triggers h c k x l <-> threatens h tip k x l.
Proof.
  unfold triggers, threatens, ShouldForkTriggerSafeMode. destruct (h !! k) as [f|] eqn:Ef.
  2:{ unfold Contains, deref. rewrite Ef. cbn [or_abort obind]. split; [intros [? _]; discriminate | intros (_ & ? & ? & ? & _ & ? & _); discriminate]. }
  destruct (Contains_spec h T c tip t C Ht Et k f Ef) as (v & -> & V). cbn [obind]. unfold deref. rewrite Ef, Ht. cbn [or_abort obind].
  destruct v; [split; [intros [[= <-] ?]; contradiction | intros [N _]; exfalso; apply N; now apply V]|].
  assert (N : ~ anc h tip k) by (intros X; apply V in X; discriminate). destruct (h !! x) as [base|] eqn:Ex; cbn [or_abort obind].
  2:{ split; [intros [? _]; discriminate | intros (_ & ? & ? & ? & _ & _ & ? & _); discriminate]. }
  rewrite Et. cbn [or_abort obind]. destruct (GetBlockProof_spec (nBits t) B) as (w & -> & Ow & Vw). cbn [obind].
  pose proof (fork_level_found w base f l Ow Vw (U _ _ Ef) (U _ _ Ex) (U _ _ Et)) as G. unfold has_transactions in G.
  transitivity (fork_level t base f l).
  - rewrite <- G. split; intros [Q Nl]; (split; [|exact Nl]); [|rewrite <- Q]; destruct (_ && gt _ _ && _); [now injection Q | | reflexivity |]; (destruct (_ && le _ _); [|now injection Q || reflexivity]); now injection Q || reflexivity.
  - split; [intros F; split; [exact N|]; now exists t, f, base|]. intros (_ & t' & f' & b' & [= <-] & [= <-] & [= <-] & F). exact F.
Qed.
End Threat.

Lemma level_of_ext (R R' : ptr -> ptr -> SafeModeLevel -> Prop) F l : (forall k x l, R k x l <-> R' k x l) -> level_of R F l -> level_of R' F l.
Proof.
  intros E [A Z]. split.
  - intros k x H. destruct (A k x H) as (l' & W & L). exists l'. split; [now apply E | exact L].
  - destruct Z as [Z|(k & x & H & W)]; [now left | right]. exists k, x. split; [exact H | now apply E].
Qed.

Lemma rechecks_ext (R R' : ptr -> ptr -> SafeModeLevel -> Prop) F s' : (forall k x l, R k x l <-> R' k x l) -> rechecks R F s' -> rechecks R' F s'.
Proof.
  intros E [A L]. split; [|exact (level_of_ext R R' _ _ E L)]. intros k x. rewrite A. setoid_rewrite E. reflexivity.
Qed.

Lemma checked_ext (R R' : ptr -> ptr -> SafeModeLevel -> Prop) h tip s p b prev s' : (forall k x l, R k x l <-> R' k x l) -> checked R h tip s p b prev s' -> checked R' h tip s p b prev s'.
Proof.
  intros E [[A K]|(A & base & Hb & [(x & l & Q & W & Es)|[N K]])]; [left; split; [exact A | exact (rechecks_ext R R' _ _ E K)] | right; split; [exact A|]; exists base; split; [exact Hb|]..].
  - left. exists x, l. split; [exact Q|]. split; [now apply E | exact Es].
  - right. split; [intros x l Q W; apply (N x l Q); now apply E | exact (rechecks_ext R R' _ _ E K)].
Qed.

(** C27: what [CheckSafeModeParameters] does for a block [p] of a well-formed index, whatever forks are
    recorded. It always completes, and the node is then in safe mode exactly when a fork is recorded; a
    block without predecessor changes nothing. When the block is on the active chain, extends its tip,
    or has data and belongs to a recorded fork, the recorded forks that still cause safe mode stay and
    the level is the highest of theirs. Otherwise its fork has the base recorded for its predecessor, or
    else the last block in common with the active chain, and the entry of the predecessor goes. When
    this fork causes safe mode at some level, it is recorded with that base and the level becomes its
    level, even below that of another recorded fork; when not, the other forks are checked again as
    above. A fork beside the active chain causes safe mode when it has all its transactions, its base is
    at most 72 below the tip and its work is more than that of seven blocks of the tip (level valid), or
    when its base is at most 288 below the tip and it is ahead by six such blocks (level invalid, valid
    or unknown by its status); the sums of work are those of 256-bit numbers. *)
Theorem safe_mode_correct (h : heap) (c : CChain) (tip p : ptr) (t b : CBlockIndex) (s : safe_mode) :
  tree_ok h -> chain_ok h c -> Tip c = Some tip -> h !! tip = Some t -> 0 <= nBits t < 2 ^ 32 -> (forall q d, h !! q = Some d -> uint_ok (nChainWork d)) -> safe_ok h s -> h !! p = Some b ->
  exists s', CheckSafeModeParameters h c s (Some p) = Ok s' /\ safe_ok h s' /\
    match pprev b with None => s' = s | Some prev => checked (threatens h tip) h tip s p b prev s' end.
Proof.
  intros T C Ht Et B U S E. destruct (CheckSafeModeParameters_spec h c tip p t b s T C Ht Et B S E) as (s' & R & K & W). exists s'. split; [exact R|]. split; [exact K|].
  destruct (pprev b) as [prev|]; [|exact W]. exact (checked_ext _ _ _ _ _ _ _ _ _ (triggers_threatens h T c tip t C Ht Et B U) W).
Qed.

(** Two forks of block 1 beside the active block 2: blocks 3, with its transactions, and 4, a header. *)
Definition fork_block (prev : option ptr) (height work tx status : Z) : CBlockIndex :=
  mkIndex None prev prev height 0 0 0 (of_u64 work) 1 tx status 1 [] 100 0x207fffff 0 0 100 100 CDiskBlockMetaData_new TimePoint_max.
Definition fork_heap : heap :=
  <[4%positive := fork_block (Some 1%positive) 1 20 0 2]>
  (<[3%positive := fork_block (Some 1%positive) 1 20 2 3]>
  (<[2%positive := fork_block (Some 1%positive) 1 4 2 5]>
  (<[1%positive := fork_block None 0 2 1 5]> ∅))).
Definition fork_chain : CChain := mkChain [Some 1; Some 2]%positive (Some 2%positive).

Lemma fork_heap_ok : tree_ok fork_heap.
Proof.
  unfold fork_heap.
  repeat (apply tree_ok_insert; [ | reflexivity | first [split; reflexivity | eexists; repeat split; reflexivity]]).
  exact tree_ok_empty.
Qed.

Lemma fork_chain_ok : chain_ok fork_heap fork_chain.
Proof. eexists. split; [reflexivity|]. split; [reflexivity|]. intros i Hi. cbn in Hi. now do 2 (destruct i as [|i]; [reflexivity|]); lia. Qed.

Definition fork_state : safe_mode := mkSafe VALID {[3%positive := 1%positive]}.

Lemma fork_state_ok : safe_ok fork_heap fork_state.
Proof.
  split; [|split; intros H; discriminate H]. intros k x H. cbn [fork_state safeModeForks] in H. apply lookup_singleton_Some in H as [<- <-]. split; eexists; reflexivity.
Qed.

Lemma fork_works q d : fork_heap !! q = Some d -> uint_ok (nChainWork d).
Proof.
  unfold fork_heap. intros E. repeat (apply lookup_insert_Some in E as [[_ <-]|[_ E]]; [split; [reflexivity|]; repeat constructor; vm_compute; (discriminate || reflexivity)|]).
  rewrite lookup_empty in E. discriminate.
Qed.

(** The header 4 lowers the level, though fork 3 is still recorded. *)
Lemma safe_mode_correct_witness : exists s', CheckSafeModeParameters fork_heap fork_chain fork_state (Some 4%positive) = Ok s' /\ safe_ok fork_heap s' /\
  checked (threatens fork_heap 2) fork_heap 2 fork_state 4 (fork_block (Some 1%positive) 1 20 0 2) 1 s' /\
  safeModeForks s' !! 3%positive = Some 1%positive /\ currentSafeModeLevel fork_state = VALID /\ currentSafeModeLevel s' = UNKNOWN.
Proof.
  destruct (safe_mode_correct fork_heap fork_chain 2 4 (fork_block (Some 1%positive) 1 4 2 5) (fork_block (Some 1%positive) 1 20 0 2) fork_state
    fork_heap_ok fork_chain_ok eq_refl eq_refl ltac:(cbn; lia) fork_works fork_state_ok eq_refl) as (s' & R & S & W).
  exists s'. split; [exact R|]. split; [exact S|]. split; [exact W|]. vm_compute in R. apply Ok_inj in R. subst s'. now vm_compute.
Defined.
End SafeMode.
