(* ===== verification/ChainState.v ===== *)
(** * The choice of the best chain (src/src/validation.cpp)

    The candidates for the tip of the active chain, ordered by work: the search for the best one whose
    blocks are all there and not known to be invalid, and the marking of the blocks after an invalid
    one. *)

From stdpp Require Import gmap sorting.
From S2P Require Import Prelude Outcome Block ArithUint256 BlockIndex Chain SafeMode.
Import ArithUint256 Block BlockIndex Chain SafeMode.

Module ChainState.
Local Open Scope Z_scope.
Local Open Scope outcome_scope.

(** The globals: the entries of the index with the candidates, [mapBlockIndex], [chainActive],
    [mapBlocksUnlinked] as its pairs, and the others under their names. *)
Record chain_state : Type := mkChainState {
  cs_st : index_state;
  mapBlockIndex : BlockMap;
  chainActive : CChain;
  mapBlocksUnlinked : list (option ptr * ptr);
  pindexBestInvalid : option ptr;
  pindexBestHeader : option ptr;
  cs_safe : safe_mode;
  nBlockSequenceId : Z;
  nBlockReverseSequenceId : Z;
  nLastPreciousChainwork : base_uint
}.

Definition cs_heap (s : chain_state) : heap := st_heap (cs_st s).
Definition cands (s : chain_state) : gset ptr := setBlockIndexCandidates (cs_st s).

Definition set_st (s : chain_state) (st : index_state) : chain_state :=
  mkChainState st (mapBlockIndex s) (chainActive s) (mapBlocksUnlinked s) (pindexBestInvalid s) (pindexBestHeader s) (cs_safe s)
    (nBlockSequenceId s) (nBlockReverseSequenceId s) (nLastPreciousChainwork s).
Definition set_unlinked (s : chain_state) (l : list (option ptr * ptr)) : chain_state :=
  mkChainState (cs_st s) (mapBlockIndex s) (chainActive s) l (pindexBestInvalid s) (pindexBestHeader s) (cs_safe s)
    (nBlockSequenceId s) (nBlockReverseSequenceId s) (nLastPreciousChainwork s).
Definition set_invalid (s : chain_state) (p : option ptr) : chain_state :=
  mkChainState (cs_st s) (mapBlockIndex s) (chainActive s) (mapBlocksUnlinked s) p (pindexBestHeader s) (cs_safe s)
    (nBlockSequenceId s) (nBlockReverseSequenceId s) (nLastPreciousChainwork s).
Definition set_safe (s : chain_state) (m : safe_mode) : chain_state :=
  mkChainState (cs_st s) (mapBlockIndex s) (chainActive s) (mapBlocksUnlinked s) (pindexBestInvalid s) (pindexBestHeader s) m
    (nBlockSequenceId s) (nBlockReverseSequenceId s) (nLastPreciousChainwork s).
Definition set_precious (s : chain_state) (id : Z) (work : base_uint) : chain_state :=
  mkChainState (cs_st s) (mapBlockIndex s) (chainActive s) (mapBlocksUnlinked s) (pindexBestInvalid s) (pindexBestHeader s) (cs_safe s)
    (nBlockSequenceId s) id work.

(** Assignments to an entry, to the set of entries to write, and to the set of candidates. *)
Definition put (st : index_state) (p : ptr) (b : CBlockIndex) : index_state :=
  mkState (<[p := b]> (st_heap st)) (setDirtyBlockIndex st) (setBlockIndexCandidates st).
Definition dirty (st : index_state) (p : ptr) : index_state :=
  mkState (st_heap st) ({[p]} ∪ setDirtyBlockIndex st) (setBlockIndexCandidates st).
Definition erase (st : index_state) (p : ptr) : index_state :=
  mkState (st_heap st) (setDirtyBlockIndex st) (setBlockIndexCandidates st ∖ {[p]}).
Definition add_cand (st : index_state) (p : ptr) : index_state :=
  mkState (st_heap st) (setDirtyBlockIndex st) ({[p]} ∪ setBlockIndexCandidates st).

(** ** The order of the candidates *)

Definition worse (pa pb : ptr) (a b : CBlockIndex) : bool :=
  if gt (nChainWork a) (nChainWork b) then false
  else if lt (nChainWork a) (nChainWork b) then true
  else if mValidationCompletionTime a <? mValidationCompletionTime b then false
  else if mValidationCompletionTime b <? mValidationCompletionTime a then true
  else if nSequenceId a <? nSequenceId b then false
  else if nSequenceId b <? nSequenceId a then true
  else if Pos.ltb pa pb then false
  else Pos.ltb pb pa.

Definition CBlockIndexWorkComparator (h : heap) (pa pb : ptr) : outcome bool :=
  let* a := deref h pa in let* b := deref h pb in Ok (worse pa pb a b).

(** The last element of a set that is ordered by the comparator, and the first one. *)
Fixpoint last_of (h : heap) (p : ptr) (l : list ptr) : outcome ptr :=
  match l with
  | [] => Ok p
  | q :: l => let* w := CBlockIndexWorkComparator h p q in last_of h (if w then q else p) l
  end.
Fixpoint first_of (h : heap) (p : ptr) (l : list ptr) : outcome ptr :=
  match l with
  | [] => Ok p
  | q :: l => let* w := CBlockIndexWorkComparator h q p in first_of h (if w then q else p) l
  end.
Definition rbegin (h : heap) (s : gset ptr) : outcome (option ptr) :=
  match elements s with [] => Ok None | p :: l => let* r := last_of h p l in Ok (Some r) end.
Definition begin (h : heap) (s : gset ptr) : outcome (option ptr) :=
  match elements s with [] => Ok None | p :: l => let* r := first_of h p l in Ok (Some r) end.

(** ** Invalid chains *)

(** The blocks above the invalid one, outside the active chain unless it is on it, and their
    predecessors. *)
Fixpoint above (h : heap) (c : CChain) (onActive : bool) (height : Z) (l : list ptr) : outcome (gset ptr * gset ptr) :=
  match l with
  | [] => Ok (∅, ∅)
  | p :: l =>
      let* b := deref h p in
      let* found := Contains h c p in
      let* r := above h c onActive height l in
      let '(tips, prevs) := r in
      if (height <? nHeight b) && (onActive || negb found) then
        Ok ({[p]} ∪ tips, match pprev b with Some q => {[q]} ∪ prevs | None => prevs end)
      else Ok (tips, prevs)
  end.

(** [while (pindexWalk->nHeight > pindexNew->nHeight)] *)
Fixpoint descend (fuel : nat) (h : heap) (height : Z) (p : ptr) : outcome ptr :=
  let* b := deref h p in
  if height <? nHeight b then
    match fuel with
    | O => Abort
    | S fuel => let* q := or_abort (pprev b) in descend fuel h height q
    end
  else Ok p.

Fixpoint invalidate_tips (s : chain_state) (pindexNew : ptr) (height : Z) (tips : list ptr) : outcome chain_state :=
  match tips with
  | [] => Ok s
  | tip :: tips =>
      let* q := descend (walk_fuel (cs_heap s) (Some tip)) (cs_heap s) height tip in
      if Pos.eqb q pindexNew then
        let* st := fail_walk (walk_fuel (cs_heap s) (Some tip)) (cs_st s) pindexNew (Some tip) in
        let* m := CheckSafeModeParameters (st_heap st) (chainActive s) (cs_safe s) (Some tip) in
        invalidate_tips (set_safe (set_st s st) m) pindexNew height tips
      else invalidate_tips s pindexNew height tips
  end.

Definition InvalidateChain (s : chain_state) (pindexNew : ptr) : outcome chain_state :=
  let* b := deref (cs_heap s) pindexNew in
  assert_ (isInvalid (nStatus b)) (
    let* isInvalidBlockOnActiveChain := Contains (cs_heap s) (chainActive s) pindexNew in
    let* r := above (cs_heap s) (chainActive s) isInvalidBlockOnActiveChain (nHeight b) (map snd (map_to_list (mapBlockIndex s))) in
    let '(tips, prevs) := r in
    invalidate_tips s pindexNew (nHeight b) (merge_sort Pos.le (elements (tips ∖ prevs)))).

(** [if (!pindexBestInvalid || pindexNew->nChainWork > pindexBestInvalid->nChainWork)] *)
Definition best_invalid (s : chain_state) (pindexNew : ptr) : outcome chain_state :=
  let* b := deref (cs_heap s) pindexNew in
  match pindexBestInvalid s with
  | None => Ok (set_invalid s (Some pindexNew))
  | Some q => let* c := deref (cs_heap s) q in Ok (if gt (nChainWork b) (nChainWork c) then set_invalid s (Some pindexNew) else s)
  end.

(** The hash of the block and of the tip are logged. *)
Definition InvalidChainFound (s : chain_state) (pindexNew : ptr) : outcome chain_state :=
  let* s := best_invalid s pindexNew in
  let* _ := or_abort (Tip (chainActive s)) in
  let* m := CheckSafeModeParameters (cs_heap s) (chainActive s) (cs_safe s) (Some pindexNew) in
  Ok (set_safe s m).

Definition InvalidBlockFound (s : chain_state) (pindex : ptr) (corruptionPossible : bool) : outcome chain_state :=
  if corruptionPossible then Ok s
  else
    let* b := deref (cs_heap s) pindex in
    InvalidChainFound (set_st s (erase (dirty (put (cs_st s) pindex (set_status b (withFailed (nStatus b) true))) pindex) pindex)) pindex.

(** ** The best candidate *)

(** The first block on the way from a candidate to the active chain that is invalid or without data. *)
Fixpoint test_walk (fuel : nat) (h : heap) (c : CChain) (pindexTest : option ptr) : outcome (option ptr) :=
  match pindexTest with
  | None => Ok None
  | Some p =>
      match fuel with
      | O => Abort
      | S fuel =>
          let* found := Contains h c p in
          if found then Ok None
          else
            let* b := deref h p in
            assert_ (negb (nChainTx b =? 0) || (nHeight b =? 0)) (
              if isInvalid (nStatus b) || negb (hasData (nStatus b)) then Ok (Some p) else test_walk fuel h c (pprev b))
      end
  end.

(** [while (pindexTest != pindexFailed)] *)
Fixpoint unlink_walk (fuel : nat) (s : chain_state) (pindexTest : ptr) (pindexFailed : option ptr) : outcome chain_state :=
  match pindexFailed with
  | None => Abort
  | Some p =>
      if Pos.eqb pindexTest p then Ok s
      else
        match fuel with
        | O => Abort
        | S fuel =>
            let* b := deref (cs_heap s) p in
            unlink_walk fuel (set_st (set_unlinked s (mapBlocksUnlinked s ++ [(pprev b, p)])) (erase (cs_st s) p)) pindexTest (pprev b)
        end
  end.

(** What is done when the candidate [pindexNew] is not usable because of [pindexTest]. *)
Definition drop_candidate (s : chain_state) (pindexNew pindexTest : ptr) : outcome chain_state :=
  let* b := deref (cs_heap s) pindexTest in
  let* s := (if isInvalid (nStatus b) then let* s := best_invalid s pindexNew in InvalidateChain s pindexTest
             else unlink_walk (walk_fuel (cs_heap s) (Some pindexNew)) s pindexTest (Some pindexNew)) in
  Ok (set_st s (erase (cs_st s) pindexTest)).

(** Every round drops a candidate. *)
Fixpoint most_work (fuel : nat) (s : chain_state) : outcome (chain_state * option ptr) :=
  let* r := rbegin (cs_heap s) (cands s) in
  match r with
  | None => Ok (s, None)
  | Some pindexNew =>
      let* t := test_walk (walk_fuel (cs_heap s) (Some pindexNew)) (cs_heap s) (chainActive s) (Some pindexNew) in
      match t with
      | None => Ok (s, Some pindexNew)
      | Some pindexTest =>
          match fuel with
          | O => Abort
          | S fuel => let* s := drop_candidate s pindexNew pindexTest in most_work fuel s
          end
      end
  end.

Definition FindMostWorkChain (s : chain_state) : outcome (chain_state * option ptr) := most_work (size (cands s)) s.

(** The candidates before the tip in the order are erased from the first one on. *)
Fixpoint prune_worse (fuel : nat) (h : heap) (tip : option ptr) (s : gset ptr) : outcome (gset ptr) :=
  let* r := begin h s in
  match r with
  | None => Ok s
  | Some p =>
      let* t := or_abort tip in
      let* w := CBlockIndexWorkComparator h p t in
      if w then match fuel with O => Abort | S fuel => prune_worse fuel h tip (s ∖ {[p]}) end else Ok s
  end.

Definition PruneBlockIndexCandidates (s : chain_state) : outcome chain_state :=
  let* l := prune_worse (size (cands s)) (cs_heap s) (Tip (chainActive s)) (cands s) in
  assert_ (negb (bool_decide (l = ∅))) (Ok (set_st s (mkState (cs_heap s) (setDirtyBlockIndex (cs_st s)) l))).

(** ** Other operations on the candidates *)

Definition IsBlockABestChainTipCandidate (s : chain_state) (index : ptr) : bool := bool_decide (index ∈ cands s).

(** The loop: whether some block was received by then, has scripts that are not validated, and has more
    work than the tip. *)
Fixpoint older_unvalidated (h : heap) (tip : option ptr) (time : Z) (l : list ptr) : outcome bool :=
  match l with
  | [] => Ok false
  | p :: l =>
      let* b := deref h p in
      let* found := (if (nTimeReceived b <=? time) && negb (isValid (nStatus b) BlockValidity.SCRIPTS) then
                       let* q := or_abort tip in let* t := deref h q in Ok (gt (nChainWork b) (nChainWork t))
                     else Ok false) in
      if found then Ok true else older_unvalidated h tip time l
  end.
Definition AreOlderOrEqualUnvalidatedBlockIndexCandidates (s : chain_state) (time : Z) : outcome bool :=
  older_unvalidated (cs_heap s) (Tip (chainActive s)) time (elements (cands s)).

(** [PreciousBlock] up to the activation of the best chain; nothing when the block has less work than
    the tip. *)
Definition PreciousBlock (s : chain_state) (pindex : ptr) : outcome (option chain_state) :=
  let* tip := or_abort (Tip (chainActive s)) in
  let* t := deref (cs_heap s) tip in
  let* b := deref (cs_heap s) pindex in
  if lt (nChainWork b) (nChainWork t) then Ok None
  else
    let id := if gt (nChainWork t) (nLastPreciousChainwork s) then -1 else nBlockReverseSequenceId s in
    let b := set_sequence (set_validation_time b TimePoint_min) (nChainTx b) id in
    let s := set_st s (put (erase (cs_st s) pindex) pindex b) in
    let s := set_precious s (if - 2 ^ 31 <? id then id - 1 else id) (nChainWork t) in
    if isValid (nStatus b) BlockValidity.TRANSACTIONS && negb (nChainTx b =? 0) then
      let* s := PruneBlockIndexCandidates (set_st s (add_cand (cs_st s) pindex)) in Ok (Some s)
    else Ok (Some s).

(** The loop over [mapBlockIndex] of [ResetBlockFailureFlags]. *)
Fixpoint reset_blocks (s : chain_state) (pindex : ptr) (height : Z) (l : list ptr) : outcome chain_state :=
  match l with
  | [] => Ok s
  | p :: l =>
      let* b := deref (cs_heap s) p in
      let* descends := (if negb (isValid (nStatus b) BlockValidity.TRANSACTIONS) then
                          let* a := GetAncestor (cs_heap s) p height in Ok (ptr_eqb a (Some pindex))
                        else Ok false) in
      if descends then
        let b := set_status b (withClearedFailureFlags (nStatus b)) in
        let st := dirty (put (cs_st s) p b) p in
        let* better := (if isValid (nStatus b) BlockValidity.TRANSACTIONS && negb (nChainTx b =? 0) then
                          let* tip := or_abort (Tip (chainActive s)) in CBlockIndexWorkComparator (st_heap st) tip p
                        else Ok false) in
        let s := set_st s (if better then add_cand st p else st) in
        let s := if ptr_eqb (pindexBestInvalid s) (Some p) then set_invalid s None else s in
        reset_blocks s pindex height l
      else reset_blocks s pindex height l
  end.

(** [while (pindex != nullptr)] *)
Fixpoint reset_ancestors (fuel : nat) (st : index_state) (pindex : option ptr) : outcome index_state :=
  match pindex with
  | None => Ok st
  | Some p =>
      match fuel with
      | O => Abort
      | S fuel =>
          let* b := deref (st_heap st) p in
          let st := if isInvalid (nStatus b) then dirty (put st p (set_status b (withClearedFailureFlags (nStatus b)))) p else st in
          reset_ancestors fuel st (pprev b)
      end
  end.

Definition ResetBlockFailureFlags (s : chain_state) (pindex : ptr) : outcome chain_state :=
  let* b := deref (cs_heap s) pindex in
  let* s := reset_blocks s pindex (nHeight b) (map snd (map_to_list (mapBlockIndex s))) in
  let* st := reset_ancestors (walk_fuel (cs_heap s) (Some pindex)) (cs_st s) (Some pindex) in
  Ok (set_st s st).

(** ** The order is strict and total *)

Definition works_ok (h : heap) : Prop := forall p b, h !! p = Some b -> uint_ok (nChainWork b).

Lemma worse_iff pa pb a b : uint_ok (nChainWork a) -> uint_ok (nChainWork b) -> worse pa pb a b = true <->
  val (nChainWork a) < val (nChainWork b) \/ val (nChainWork a) = val (nChainWork b) /\
  (mValidationCompletionTime b < mValidationCompletionTime a \/ mValidationCompletionTime a = mValidationCompletionTime b /\
  (nSequenceId b < nSequenceId a \/ nSequenceId a = nSequenceId b /\ (pb < pa)%positive)).
Proof.
  intros A B. unfold worse. rewrite (gt_spec _ _ A B), (lt_spec _ _ A B).
  repeat match goal with |- context [?x <? ?y] => destruct (Z.ltb_spec x y) | |- context [Pos.ltb ?x ?y] => destruct (Pos.ltb_spec x y) end;
    (split; [try discriminate; intros _; lia | intros; first [reflexivity | lia]]).
Qed.

(** [p] comes before [q] in the order. *)
Definition before (h : heap) (p q : ptr) : Prop := exists a b, h !! p = Some a /\ h !! q = Some b /\ worse p q a b = true.

Section Order.
Context (h : heap) (W : works_ok h).

Lemma before_irrefl p : ~ before h p p.
Proof. intros (a & b & Ea & Eb & R). rewrite Ea in Eb. injection Eb as <-. apply worse_iff in R; [lia | exact (W p a Ea)..]. Qed.

Lemma before_trans p q r : before h p q -> before h q r -> before h p r.
Proof.
  intros (a & b & Ea & Eb & R) (b' & c & Eb' & Ec & R'). rewrite Eb in Eb'. injection Eb' as <-.
  pose proof (W p a Ea) as A. pose proof (W q b Eb) as B. pose proof (W r c Ec) as C. exists a, c. split; [exact Ea|]. split; [exact Ec|].
  rewrite worse_iff in R, R' |- * by assumption. lia.
Qed.

Lemma before_total p q : is_Some (h !! p) -> is_Some (h !! q) -> p = q \/ before h p q \/ before h q p.
Proof.
  intros [a Ea] [b Eb]. pose proof (W p a Ea) as A. pose proof (W q b Eb) as B.
  destruct (worse p q a b) eqn:R; [right; left; now exists a, b|].
  destruct (worse q p b a) eqn:R'; [right; right; now exists b, a|]. left.
  assert (N : forall x, x = false -> x <> true) by (intros x ->; discriminate). apply N in R, R'. rewrite worse_iff in R, R' by assumption. lia.
Qed.

Lemma Comparator_spec p q : is_Some (h !! p) -> is_Some (h !! q) ->
  exists w, CBlockIndexWorkComparator h p q = Ok w /\ (w = true <-> before h p q).
Proof.
  intros [a Ea] [b Eb]. unfold CBlockIndexWorkComparator, deref. rewrite Ea, Eb. cbn [or_abort obind]. eexists. split; [reflexivity|]. split.
  - intros R. now exists a, b.
  - intros (a' & b' & Ea' & Eb' & R). congruence.
Qed.

Lemma last_of_spec l : forall p, is_Some (h !! p) -> (forall q, q ∈ l -> is_Some (h !! q)) ->
  exists r, last_of h p l = Ok r /\ (r = p \/ r ∈ l) /\ forall q, q = p \/ q ∈ l -> q = r \/ before h q r.
Proof.
  induction l as [|q l IH]; intros p P L.
  { exists p. split; [reflexivity|]. split; [now left|]. intros q [->|Q]; [now left | now apply elem_of_nil in Q]. }
  assert (Q : is_Some (h !! q)) by (apply L; left). cbn [last_of]. destruct (Comparator_spec p q P Q) as (w & -> & R). cbn [obind].
  assert (X : is_Some (h !! (if w then q else p))) by (destruct w; assumption).
  destruct (IH (if w then q else p) X ltac:(intros y Y; apply L; now right)) as (r & E & I & M). exists r. split; [exact E|].
  split; [destruct I as [->|I]; [destruct w; [right; left | now left] | right; now right]|].
  assert (K : forall y, y = (if w then q else p) \/ before h y (if w then q else p) -> y = r \/ before h y r).
  { intros y [->|B]; [now apply M; left|]. right. destruct (M _ (or_introl eq_refl)) as [<-|B']; [exact B | exact (before_trans _ _ _ B B')]. }
  intros y Y. rewrite elem_of_cons in Y. destruct Y as [->|[->|Y]]; [apply K..|apply M; now right].
  - destruct w; [right; now apply R | now left].
  - destruct w; [now left|]. destruct (before_total p q P Q) as [->|[B|B]]; [now left | apply R in B; discriminate | now right].
Qed.

Lemma first_of_spec l : forall p, is_Some (h !! p) -> (forall q, q ∈ l -> is_Some (h !! q)) ->
  exists r, first_of h p l = Ok r /\ (r = p \/ r ∈ l) /\ forall q, q = p \/ q ∈ l -> q = r \/ before h r q.
Proof.
  induction l as [|q l IH]; intros p P L.
  { exists p. split; [reflexivity|]. split; [now left|]. intros q [->|Q]; [now left | now apply elem_of_nil in Q]. }
  assert (Q : is_Some (h !! q)) by (apply L; left). cbn [first_of]. destruct (Comparator_spec q p Q P) as (w & -> & R). cbn [obind].
  assert (X : is_Some (h !! (if w then q else p))) by (destruct w; assumption).
  destruct (IH (if w then q else p) X ltac:(intros y Y; apply L; now right)) as (r & E & I & M). exists r. split; [exact E|].
  split; [destruct I as [->|I]; [destruct w; [right; left | now left] | right; now right]|].
  assert (K : forall y, y = (if w then q else p) \/ before h (if w then q else p) y -> y = r \/ before h r y).
  { intros y [->|B]; [now apply M; left|]. right. destruct (M _ (or_introl eq_refl)) as [<-|B']; [exact B | exact (before_trans _ _ _ B' B)]. }
  intros y Y. rewrite elem_of_cons in Y. destruct Y as [->|[->|Y]]; [apply K..|apply M; now right].
  - destruct w; [right; now apply R | now left].
  - destruct w; [now left|]. destruct (before_total p q P Q) as [->|[B|B]]; [now left | now right | apply R in B; discriminate].
Qed.

Lemma rbegin_spec (s : gset ptr) : (forall q, q ∈ s -> is_Some (h !! q)) ->
  (s = ∅ /\ rbegin h s = Ok None) \/ exists r, rbegin h s = Ok (Some r) /\ r ∈ s /\ forall q, q ∈ s -> q = r \/ before h q r.
Proof.
  intros D. unfold rbegin. assert (M : forall q, q ∈ s <-> q ∈ elements s) by (intros q; now rewrite elem_of_elements).
  destruct (elements s) as [|p l] eqn:E; [left; split; [now apply elements_empty_inv in E; apply leibniz_equiv | reflexivity]|]. right.
  destruct (last_of_spec l p) as (r & -> & I & B).
  - apply D, M. left.
  - intros q Q. apply D, M. now right.
  - exists r. split; [reflexivity|]. split; [apply M, elem_of_cons; exact I|]. intros q Q. apply B, elem_of_cons, M, Q.
Qed.

Lemma begin_spec (s : gset ptr) : (forall q, q ∈ s -> is_Some (h !! q)) ->
  (s = ∅ /\ begin h s = Ok None) \/ exists r, begin h s = Ok (Some r) /\ r ∈ s /\ forall q, q ∈ s -> q = r \/ before h r q.
Proof.
  intros D. unfold begin. assert (M : forall q, q ∈ s <-> q ∈ elements s) by (intros q; now rewrite elem_of_elements).
  destruct (elements s) as [|p l] eqn:E; [left; split; [now apply elements_empty_inv in E; apply leibniz_equiv | reflexivity]|]. right.
  destruct (first_of_spec l p) as (r & -> & I & B).
  - apply D, M. left.
  - intros q Q. apply D, M. now right.
  - exists r. split; [reflexivity|]. split; [apply M, elem_of_cons; exact I|]. intros q Q. apply B, elem_of_cons, M, Q.
Qed.

Lemma prune_worse_spec tip (Et : is_Some (h !! tip)) (fuel : nat) : forall s, (forall q, q ∈ s -> is_Some (h !! q)) -> (size s <= fuel)%nat ->
  exists s', prune_worse fuel h (Some tip) s = Ok s' /\ forall q, q ∈ s' <-> q ∈ s /\ ~ before h q tip.
Proof.
  induction fuel as [|fuel IH]; intros s D L; (destruct (begin_spec s D) as [[-> R]|(p & R & Ip & Mn)];
    [exists ∅; split; [cbn [prune_worse]; now rewrite R | set_solver]|]); destruct (Comparator_spec p tip (D p Ip) Et) as (w & Cw & V).
  - apply Nat.le_0_r, size_empty_iff in L. now apply L in Ip.
  - cbn [prune_worse]. rewrite R. cbn [obind or_abort]. rewrite Cw. cbn [obind]. destruct w.
    + destruct (IH (s ∖ {[p]})) as (s' & E & K).
      * intros q Q. apply elem_of_difference in Q as [Q _]. exact (D q Q).
      * assert (size (s ∖ {[p]}) < size s)%nat; [|lia]. apply subset_size. split; [set_solver|]. intros Q. specialize (Q p Ip). set_solver.
      * exists s'. split; [exact E|]. intros q. rewrite K, elem_of_difference, elem_of_singleton. split; [tauto|]. intros [Q N]. split; [|exact N].
        split; [exact Q|]. intros ->. now apply N, V.
    + exists s. split; [reflexivity|]. intros q. split; [|tauto]. intros Q. split; [exact Q|]. intros Bq.
      destruct (Mn q Q) as [->|Bp]; [apply V in Bq; discriminate|]. assert (X := proj2 V (before_trans p q tip Bp Bq)). discriminate.
Qed.
End Order.

(** ** Marking blocks as invalid *)

(** Every block from [p] on that is not below [tip] has its data and is not known to be invalid. *)
Definition connectable (h : heap) (tip p : ptr) : Prop :=
  forall q b, anc h p q -> ~ anc h tip q -> h !! q = Some b -> isInvalid (nStatus b) = false /\ hasData (nStatus b) = true.

(** Only the status of blocks that cannot be connected changes, and it becomes invalid. *)
Definition only_failed (h : heap) (tip : ptr) (h' : heap) : Prop :=
  forall p, h' !! p = h !! p \/ exists b s, h !! p = Some b /\ h' !! p = Some (set_status b s) /\ isInvalid s = true /\
    hasData s = hasData (nStatus b) /\ ~ connectable h tip p.

(** A set that only loses blocks that cannot be connected. *)
Definition shrinks (h : heap) (tip : ptr) (C C' : gset ptr) : Prop := C' ⊆ C /\ forall x, x ∈ C -> connectable h tip x -> x ∈ C'.

Lemma chain_ok_links (h h' : heap) (c : CChain) : links h = links h' -> chain_ok h c -> chain_ok h' c.
Proof.
  intros E. unfold chain_ok. destruct (mChainTip c) as [tip|]; [|auto]. intros (b & L & Hl & N).
  destruct (links_lookup h h' tip b E L) as (d & D & _ & _ & Hd). exists d. rewrite Hd. split; [exact D|]. split; [exact Hl|].
  intros i Hi. rewrite <- (up_links h h' _ E). exact (N i Hi).
Qed.

Lemma failed_parent_status s : isInvalid (withFailedParent s true) = true /\ hasData (withFailedParent s true) = hasData s.
Proof.
  unfold withFailedParent, FAILED_PARENT_FLAG. change 0x40 with (2 ^ 6). split.
  - rewrite isInvalid_bits, !with_flag_bit by lia. apply orb_true_r.
  - unfold hasData, HAS_DATA_FLAG. change 0x08 with (2 ^ 3). rewrite !has_bit, with_flag_bit by lia. reflexivity.
Qed.

Section Failed.
Context (h : heap) (tip : ptr).

Lemma connectable_anc p q : connectable h tip p -> anc h p q -> connectable h tip q.
Proof. intros C A x b X. apply C. exact (anc_trans h p q x A X). Qed.

Lemma shrinks_refl C : shrinks h tip C C.
Proof. split; [set_solver | auto]. Qed.

Lemma shrinks_trans C1 C2 C3 : shrinks h tip C1 C2 -> shrinks h tip C2 C3 -> shrinks h tip C1 C3.
Proof. intros [A1 A2] [B1 B2]. split; [set_solver | auto]. Qed.

Lemma shrinks_erase C p : ~ connectable h tip p -> shrinks h tip C (C ∖ {[p]}).
Proof. intros N. split; [set_solver|]. intros x X U. apply elem_of_difference. split; [exact X|]. intros Q. apply elem_of_singleton in Q as ->. contradiction. Qed.

Context (h' : heap) (F : only_failed h tip h').

Lemma failed_entry p b : h !! p = Some b -> exists b', h' !! p = Some b' /\ b' = set_status b (nStatus b').
Proof.
  intros E. destruct (F p) as [E'|(b0 & s & E0 & E' & _)]; rewrite E' in *.
  - exists b. split; [exact E | now destruct b].
  - rewrite E in E0. injection E0 as <-. now exists (set_status b s).
Qed.

Lemma failed_entry_inv p b' : h' !! p = Some b' -> exists b, h !! p = Some b /\ b' = set_status b (nStatus b').
Proof.
  intros E'. destruct (F p) as [E|(b & s & E & E2 & _)].
  - exists b'. rewrite <- E. split; [exact E' | now destruct b'].
  - exists b. split; [exact E|]. rewrite E2 in E'. now injection E' as <-.
Qed.

Lemma failed_links : links h = links h'.
Proof.
  apply map_eq. intros p. unfold links. rewrite !lookup_fmap. destruct (F p) as [->|(b & s & -> & -> & _)]; reflexivity.
Qed.

Lemma failed_anc p q : anc h p q <-> anc h' p q.
Proof. unfold anc. split; intros [k U]; exists k; [rewrite <- (up_links h h' k failed_links) | rewrite (up_links h h' k failed_links)]; exact U. Qed.

Lemma failed_connectable p : connectable h tip p <-> connectable h' tip p.
Proof.
  split; intros C q b A N E.
  - rewrite <- failed_anc in A, N. destruct (F q) as [E'|(_ & _ & _ & _ & _ & _ & X)].
    + apply (C q b A N). congruence.
    + contradiction (X (connectable_anc p q C A)).
  - destruct (F q) as [E'|(b0 & s & E0 & E' & I & D & _)].
    + apply (C q b); [now apply failed_anc | now rewrite <- failed_anc | congruence].
    + destruct (C q _ (proj1 (failed_anc p q) A) ltac:(now rewrite <- failed_anc) E') as [I' _]. cbn in I'. congruence.
Qed.

Lemma failed_works : works_ok h -> works_ok h'.
Proof. intros W p b' E'. destruct (failed_entry_inv p b' E') as (b & E & ->). exact (W p b E). Qed.

Lemma failed_before p q : before h p q <-> before h' p q.
Proof.
  split; intros (a & b & Ea & Eb & R).
  - destruct (failed_entry p a Ea) as (a' & Ea' & Qa), (failed_entry q b Eb) as (b' & Eb' & Qb). exists a', b'.
    split; [exact Ea'|]. split; [exact Eb'|]. rewrite Qa, Qb. exact R.
  - destruct (failed_entry_inv p a Ea) as (a' & Ea' & Qa), (failed_entry_inv q b Eb) as (b' & Eb' & Qb). exists a', b'.
    split; [exact Ea'|]. split; [exact Eb'|]. rewrite Qa, Qb in R. exact R.
Qed.

Lemma failed_some p : is_Some (h !! p) <-> is_Some (h' !! p).
Proof. destruct (F p) as [->|(b & s & -> & -> & _)]; [reflexivity|]. split; intros _; now eexists. Qed.

(** One more mark. *)
Lemma failed_mark p b' : h' !! p = Some b' -> ~ connectable h tip p ->
  only_failed h tip (<[p := set_status b' (withFailedParent (nStatus b') true)]> h').
Proof.
  intros E' N x. destruct (decide (x = p)) as [->|Q].
  - right. destruct (F p) as [E|(b & s & E & E2 & _ & D & _)].
    + exists b', (withFailedParent (nStatus b') true). rewrite <- E. split; [exact E'|]. split; [apply lookup_insert_eq|].
      destruct (failed_parent_status (nStatus b')) as [-> ->]. auto.
    + exists b, (withFailedParent (nStatus b') true). split; [exact E|]. rewrite E2 in E'. injection E' as <-. split; [apply lookup_insert_eq|].
      destruct (failed_parent_status s) as [I D']. cbn [nStatus set_status]. rewrite I, D'. auto.
  - rewrite lookup_insert_ne by auto. apply F.
Qed.
End Failed.

Lemma only_failed_refl h tip : only_failed h tip h.
Proof. intros p. now left. Qed.

Section Walks.
Context (h : heap) (T : tree_ok h) (tip : ptr).

Lemma fail_walk_spec q (N : ~ connectable h tip q) (fuel : nat) : forall st p b,
  only_failed h tip (st_heap st) -> h !! p = Some b -> anc h p q -> (Z.to_nat (nHeight b) < fuel)%nat ->
  exists st', fail_walk fuel st q (Some p) = Ok st' /\ only_failed h tip (st_heap st') /\
    shrinks h tip (setBlockIndexCandidates st) (setBlockIndexCandidates st') /\
    forall x, anc h p x -> anc h x q -> x <> q -> x ∉ setBlockIndexCandidates st'.
Proof.
  induction fuel as [|fuel IH]; intros st p b F E A L; [lia|]. cbn [fail_walk].
  assert (Q : forall x, anc h q x -> anc h x q -> x = q).
  { intros x A1 A2. destruct (anc_lookup h T p q b E A) as (bq & Eq & _). destruct (anc_lookup h T q x bq Eq A1) as (bx & Ex & H1).
    destruct (anc_lookup h T x q bx Ex A2) as (bq' & Eq' & H2). rewrite Eq in Eq'. injection Eq' as <-.
    exact (anc_unique h T q x q bq bx bq Eq A1 (anc_refl h q) Ex Eq ltac:(lia)). }
  destruct (Pos.eqb_spec p q) as [->|Np].
  { exists st. split; [reflexivity|]. split; [exact F|]. split; [apply shrinks_refl|]. intros x A1 A2 Nx. contradiction (Nx (Q x A1 A2)). }
  destruct (anc_cases h p b q E A) as [Eq|(r & P & Ar)]; [congruence|].
  destruct (failed_entry h tip _ F p b E) as (b' & E' & Qb). unfold deref. rewrite E'. cbn [or_abort obind].
  replace (pprev b') with (Some r) by (rewrite Qb; symmetry; exact P).
  destruct (ok_prev h T p b r E P) as (d & Ed & Hd). pose proof (ok_height h T r d Ed) as Hr.
  assert (Nc : ~ connectable h tip p) by (intros C; exact (N (connectable_anc h tip p q C A))).
  destruct (IH (mkState (<[p := set_status b' (withFailedParent (nStatus b') true)]> (st_heap st)) ({[p]} ∪ setDirtyBlockIndex st)
                 (setBlockIndexCandidates st ∖ {[p]})) r d (failed_mark h tip _ F p b' E' Nc) Ed Ar ltac:(lia)) as (st' & R & F' & S & O).
  exists st'. split; [exact R|]. split; [exact F'|].
  split; [exact (shrinks_trans h tip _ _ _ (shrinks_erase h tip _ p Nc) S)|]. intros x A1 A2 Nx.
  destruct (anc_cases h p b x E A1) as [->|(r' & P' & A')]; [|rewrite P in P'; injection P' as <-; exact (O x A' A2 Nx)].
  intros X. apply (proj1 S) in X. cbn in X. set_solver.
Qed.

Lemma descend_spec (fuel : nat) height : 0 <= height -> forall p b, h !! p = Some b -> height <= nHeight b -> (Z.to_nat (nHeight b) <= fuel)%nat ->
  exists q d, descend fuel h height p = Ok q /\ anc h p q /\ h !! q = Some d /\ nHeight d = height.
Proof.
  intros H0. induction fuel as [|fuel IH]; intros p b E L Hf; cbn [descend]; unfold deref; rewrite E; cbn [or_abort obind].
  - pose proof (ok_height h T p b E). destruct (Z.ltb_spec height (nHeight b)); [lia|]. exists p, b. split; [reflexivity|].
    split; [apply anc_refl|]. split; [exact E | lia].
  - destruct (Z.ltb_spec height (nHeight b)) as [Lt|Ge].
    + destruct (pprev b) as [r|] eqn:P; [|pose proof (ok_root h T p b E P); lia]. cbn [or_abort obind].
      destruct (ok_prev h T p b r E P) as (d & Ed & Hd). destruct (IH r d Ed ltac:(lia) ltac:(lia)) as (q & e & R & A & Ee & He).
      exists q, e. split; [exact R|]. split; [exact (anc_trans h p r q (anc_prev h p r b E P) A)|]. split; [exact Ee | exact He].
    + exists p, b. split; [reflexivity|]. split; [apply anc_refl|]. split; [exact E | lia].
Qed.

Context (c : CChain) (t : CBlockIndex) (C : chain_ok h c) (Ht : Tip c = Some tip) (Et : h !! tip = Some t).

(** The blocks outside the active chain that are higher than [height]. *)
Definition off_above (l : list ptr) (height : Z) (x : ptr) : Prop := x ∈ l /\ ~ anc h tip x /\ exists b, h !! x = Some b /\ height < nHeight b.

Lemma above_spec height l : (forall x, x ∈ l -> is_Some (h !! x)) ->
  exists tips prevs, above h c false height l = Ok (tips, prevs) /\ (forall x, x ∈ tips <-> off_above l height x) /\
    forall x, x ∈ prevs <-> exists y b, off_above l height y /\ h !! y = Some b /\ pprev b = Some x.
Proof.
  induction l as [|p l IH]; intros D.
  { exists ∅, ∅. split; [reflexivity|]. unfold off_above. split; intros x; (split; [set_solver|]).
    - intros [X _]. now apply elem_of_nil in X.
    - intros (y & b & [X _] & _). now apply elem_of_nil in X. }
  destruct (IH ltac:(intros x X; apply D; now right)) as (tips & prevs & R & I1 & I2).
  destruct (D p ltac:(now left)) as [b E]. cbn [above]. unfold deref. rewrite E. cbn [or_abort obind].
  destruct (Contains_spec h T c tip t C Ht Et p b E) as (v & -> & V). cbn [obind]. rewrite R. cbn [obind].
  assert (K : forall x, off_above (p :: l) height x <-> (x = p /\ ~ anc h tip p /\ height < nHeight b) \/ off_above l height x).
  { intros x. unfold off_above. rewrite elem_of_cons. split.
    - intros ([->|X] & N & d & Ed & Hd); [left; rewrite E in Ed; injection Ed as <-; auto | right; split; [exact X|]; split; [exact N | now exists d]].
    - intros [(-> & N & Hb)|(X & N & d)]; [split; [now left|]; split; [exact N | now exists b] | split; [now right|]; now split]. }
  destruct ((height <? nHeight b) && (false || negb v)) eqn:G.
  - apply andb_true_iff in G as [G1%Z.ltb_lt G2]. cbn [orb] in G2.
    assert (N : ~ anc h tip p) by (intros A; apply V in A; rewrite A in G2; discriminate).
    do 2 eexists. split; [reflexivity|]. split.
    + intros x. rewrite K, elem_of_union, elem_of_singleton, I1. tauto.
    + intros x. split.
      * intros X. assert (X' : pprev b = Some x \/ x ∈ prevs) by (destruct (pprev b) as [q|]; [apply elem_of_union in X as [X|X]; [left; apply elem_of_singleton in X; congruence | now right] | now right]).
        destruct X' as [X'|X']; [exists p, b; split; [apply K; left; auto | auto]|].
        apply I2 in X' as (y & d & Y & Ed). exists y, d. split; [apply K; now right | exact Ed].
      * intros (y & d & Y & Ed & P). apply K in Y as [(-> & _)|Y].
        -- rewrite E in Ed. injection Ed as <-. rewrite P. set_solver.
        -- assert (X : x ∈ prevs) by (apply I2; eauto). destruct (pprev b); set_solver.
  - assert (N : forall x, off_above (p :: l) height x <-> off_above l height x).
    { intros x. rewrite K. split; [|now right]. intros [(-> & N & Hb)|X]; [|exact X]. exfalso.
      apply Z.ltb_lt in Hb. rewrite Hb in G. destruct v; [apply N, V; reflexivity | discriminate]. }
    exists tips, prevs. split; [reflexivity|]. split; intros x; [rewrite N; apply I1|]. rewrite I2.
    split; intros (y & d & Y & X); exists y, d; (split; [now apply N | exact X]).
Qed.
End Walks.

Definition height_at (h : heap) (x : ptr) : Z := match h !! x with Some b => nHeight b | None => 0 end.
Definition higher (h : heap) (S : gset ptr) (x : ptr) : gset ptr := base.filter (fun y => height_at h x < height_at h y) S.

(** Above every block of a finite set there is one of the set that is nobody's predecessor. *)
Lemma top_exists (h : heap) (T : tree_ok h) (S : gset ptr) : (forall x, x ∈ S -> is_Some (h !! x)) -> forall (n : nat) x,
  x ∈ S -> (size (higher h S x) <= n)%nat ->
  exists z, z ∈ S /\ anc h z x /\ ~ exists y b, y ∈ S /\ h !! y = Some b /\ pprev b = Some z.
Proof.
  intros D n. induction n as [|n IH]; intros x X L; destruct (D x X) as [b E];
    destruct (decide (set_Exists (fun y => (h !! y) ≫= pprev = Some x) S)) as [(y & Y & P)|N];
    try (exists x; split; [exact X|]; split; [apply anc_refl|]; intros (y & d & Y & Ed & P); apply N; exists y; split; [exact Y | now rewrite Ed]).
  all: destruct (h !! y) as [d|] eqn:Ed; [|discriminate]; cbn in P; destruct (ok_prev h T y d x Ed P) as (b' & E' & Hd); rewrite E in E'; injection E' as <-.
  all: assert (Hy : height_at h y = height_at h x + 1) by (unfold height_at; rewrite Ed, E; exact Hd).
  all: assert (Yx : y ∈ higher h S x) by (apply elem_of_filter; split; [lia | exact Y]).
  - apply Nat.le_0_r, size_empty_iff in L. now apply L in Yx.
  - destruct (IH y Y) as (z & Z & A & Nz).
    + enough (size (higher h S y) < size (higher h S x))%nat by lia. apply subset_size. split.
      * intros w Hw. apply elem_of_filter in Hw as [Hw Sw]. apply elem_of_filter. split; [lia | exact Sw].
      * intros K. specialize (K y Yx). apply elem_of_filter in K as [K _]. lia.
    + exists z. split; [exact Z|]. split; [exact (anc_trans h z y x A (anc_prev h y x d Ed P)) | exact Nz].
Qed.

Lemma safe_ok_dom (h1 h2 : heap) (s : safe_mode) : (forall p, is_Some (h1 !! p) -> is_Some (h2 !! p)) -> safe_ok h1 s -> safe_ok h2 s.
Proof. intros D [K L]. split; [|exact L]. intros k x E. destruct (K k x E). auto. Qed.

Section Search.
Context (h : heap) (T : tree_ok h) (W : works_ok h) (tip : ptr) (t : CBlockIndex) (c : CChain) (M : BlockMap).
Context (C : chain_ok h c) (Ht : Tip c = Some tip) (Et : h !! tip = Some t) (B : 0 <= nBits t < 2 ^ 32).
Context (HM : forall hash p, M !! hash = Some p -> is_Some (h !! p)).

(** What holds throughout the search. *)
Record good (s : chain_state) : Prop := mkGood {
  g_heap : only_failed h tip (cs_heap s);
  g_safe : safe_ok (cs_heap s) (cs_safe s);
  g_chain : chainActive s = c;
  g_map : mapBlockIndex s = M;
  g_invalid : forall q, pindexBestInvalid s = Some q -> is_Some (h !! q)
}.

Section Now.
Context (h' : heap) (F : only_failed h tip h').

Lemma now_tree : tree_ok h'.
Proof. exact (tree_ok_links h h' (failed_links h tip h' F) T). Qed.

Lemma now_chain : chain_ok h' c.
Proof. exact (chain_ok_links h h' c (failed_links h tip h' F) C). Qed.

Lemma now_tip : exists t', h' !! tip = Some t' /\ nBits t' = nBits t.
Proof. destruct (failed_entry h tip h' F tip t Et) as (t' & E & Q). exists t'. split; [exact E | now rewrite Q]. Qed.

Lemma now_check s p : safe_ok h' s -> is_Some (h !! p) -> exists m, CheckSafeModeParameters h' c s (Some p) = Ok m /\ safe_ok h' m.
Proof.
  intros S P. apply (failed_some h tip h' F) in P as [b E]. destruct now_tip as (t' & Et' & Hb).
  destruct (CheckSafeModeParameters_spec h' c tip p t' b s now_tree now_chain Ht Et' ltac:(lia) S E) as (m & R & K & _). now exists m.
Qed.

Lemma now_contains p : is_Some (h !! p) -> exists v, Contains h' c p = Ok v /\ (v = true <-> anc h tip p).
Proof.
  intros P. apply (failed_some h tip h' F) in P as [b E]. destruct now_tip as (t' & Et' & _).
  destruct (Contains_spec h' now_tree c tip t' now_chain Ht Et' p b E) as (v & R & V). exists v. split; [exact R|].
  now rewrite (failed_anc h tip h' F).
Qed.
End Now.

Lemma invalidate_tips_spec q bq : ~ connectable h tip q -> h !! q = Some bq -> forall tips s, good s ->
  (forall z, z ∈ tips -> exists b, h !! z = Some b /\ nHeight bq < nHeight b) ->
  exists s', invalidate_tips s q (nHeight bq) tips = Ok s' /\ good s' /\ shrinks h tip (cands s) (cands s') /\
    forall z x, z ∈ tips -> anc h z x -> anc h x q -> x <> q -> x ∉ cands s'.
Proof.
  intros N Eq tips. induction tips as [|z tips IH]; intros s G Z.
  { exists s. split; [reflexivity|]. split; [exact G|]. split; [apply shrinks_refl|]. intros z x H. now apply elem_of_nil in H. }
  destruct (Z z ltac:(now left)) as (b & E & Hb). pose proof (ok_height h T q bq Eq) as Hq. destruct G as [F S Gc Gm Gi].
  assert (Z' : forall y, y ∈ tips -> exists b, h !! y = Some b /\ nHeight bq < nHeight b) by (intros y Y; apply Z; now right).
  destruct (failed_entry h tip _ F z b E) as (b' & E' & Qb). assert (Hb' : nHeight b' = nHeight b) by now rewrite Qb.
  cbn [invalidate_tips]. unfold walk_fuel. rewrite E'.
  destruct (descend_spec (cs_heap s) (now_tree _ F) (Z.to_nat (nHeight b' + 2)) (nHeight bq) Hq z b' E' ltac:(lia) ltac:(lia)) as (q' & d & -> & A & Ed & Hd).
  apply (failed_anc h tip _ F) in A. destruct (failed_entry_inv h tip _ F q' d Ed) as (d0 & Ed0 & Qd). assert (Hd0 : nHeight d0 = nHeight bq) by (rewrite <- Hd, Qd; reflexivity).
  cbn [obind]. destruct (Pos.eqb_spec q' q) as [->|Nq].
  - destruct (fail_walk_spec h T tip q N (Z.to_nat (nHeight b' + 2)) (cs_st s) z b F E A ltac:(lia)) as (st & -> & F' & Sh & O). cbn [obind]. rewrite Gc.
    assert (S1 : safe_ok (st_heap st) (cs_safe s)) by (apply (safe_ok_dom (cs_heap s)); [intros p P; apply (failed_some h tip _ F'), (failed_some h tip _ F), P | exact S]).
    destruct (now_check _ F' (cs_safe s) z S1 (ex_intro _ b E)) as (m & -> & S2). cbn [obind].
    destruct (IH (set_safe (set_st s st) m) (mkGood (set_safe (set_st s st) m) F' S2 Gc Gm Gi) Z') as (s' & R & G' & Sh' & O').
    exists s'. split; [exact R|]. split; [exact G'|]. split; [exact (shrinks_trans h tip _ _ _ Sh Sh')|].
    intros y x Y Ax Aq Nx. apply elem_of_cons in Y as [->|Y]; [|exact (O' y x Y Ax Aq Nx)].
    intros X. apply (proj1 Sh') in X. exact (O x Ax Aq Nx X).
  - destruct (IH s (mkGood s F S Gc Gm Gi) Z') as (s' & R & G' & Sh' & O'). exists s'. split; [exact R|]. split; [exact G'|]. split; [exact Sh'|].
    intros y x Y Ax Aq Nx. apply elem_of_cons in Y as [->|Y]; [|exact (O' y x Y Ax Aq Nx)].
    contradiction (Nq (anc_unique h T z q' q b d0 bq E A (anc_trans h z x q Ax Aq) Ed0 Eq Hd0)).
Qed.

Lemma InvalidateChain_spec s q bq b' : good s -> h !! q = Some bq -> ~ anc h tip q -> cs_heap s !! q = Some b' -> isInvalid (nStatus b') = true ->
  exists s', InvalidateChain s q = Ok s' /\ good s' /\ shrinks h tip (cands s) (cands s') /\
    forall hash x, M !! hash = Some x -> ~ anc h tip x -> anc h x q -> x <> q -> x ∉ cands s'.
Proof.
  intros G Eq Na E' I. pose proof (g_heap s G) as F.
  assert (N : ~ connectable h tip q).
  { intros K. apply (failed_connectable h tip _ F) in K. destruct (K q b' (anc_refl _ q) ltac:(now rewrite <- (failed_anc h tip _ F)) E'). congruence. }
  unfold InvalidateChain, deref. rewrite E'. cbn [or_abort obind]. rewrite I. cbn [assert_]. rewrite (g_chain s G), (g_map s G).
  destruct (now_contains _ F q (ex_intro _ bq Eq)) as (v & -> & V). destruct v; [contradiction Na; now apply V|]. cbn [obind].
  destruct (now_tip _ F) as (t' & Et' & _). set (l := map snd (map_to_list M)).
  assert (Hb' : nHeight b' = nHeight bq) by (destruct (failed_entry h tip _ F q bq Eq) as (b2 & E2 & Q); rewrite E' in E2; injection E2 as <-; now rewrite Q).
  assert (Dl : forall x, x ∈ l -> is_Some (cs_heap s !! x)).
  { intros x X. unfold l in X. apply list_elem_of_fmap in X as ([hash y] & -> & X). apply elem_of_map_to_list in X. cbn. apply (failed_some h tip _ F), (HM hash), X. }
  destruct (above_spec (cs_heap s) (now_tree _ F) tip c t' (now_chain _ F) Ht Et' (nHeight b') l Dl) as (tips & prevs & -> & I1 & I2). cbn [obind].
  set (tops := merge_sort Pos.le (elements (tips ∖ prevs))). rewrite Hb' in *.
  assert (Tops : forall z, z ∈ tops <-> z ∈ tips /\ z ∉ prevs) by (intros z; unfold tops; rewrite merge_sort_Permutation, elem_of_elements, elem_of_difference; reflexivity).
  destruct (invalidate_tips_spec q bq N Eq tops s G) as (s' & R & G' & Sh & O).
  { intros z Z. apply Tops in Z as [Z _]. apply I1 in Z as (_ & _ & d & Ed & Hd). destruct (failed_entry_inv h tip _ F z d Ed) as (d0 & Ed0 & Qd).
    exists d0. split; [exact Ed0|]. now rewrite Qd in Hd. }
  exists s'. split; [exact R|]. split; [exact G'|]. split; [exact Sh|]. intros hash x X Nx A Q.
  destruct (HM hash x X) as [bx Ex]. destruct (anc_up h T x q bx bq Ex A Eq) as [Lx Ux].
  assert (Hx : nHeight bq < nHeight bx) by (destruct (Z.eq_dec (nHeight bq) (nHeight bx)) as [Eh|]; [|lia]; contradiction Q; symmetry; exact (anc_unique h T x q x bx bq bx Ex A (anc_refl h x) Eq Ex Eh)).
  assert (Xt : x ∈ tips).
  { apply I1. split; [unfold l; apply list_elem_of_fmap; exists (hash, x); split; [reflexivity | now apply elem_of_map_to_list]|].
    split; [now rewrite <- (failed_anc h tip _ F)|]. destruct (failed_entry h tip _ F x bx Ex) as (b2 & E2 & Q2). exists b2. split; [exact E2 | now rewrite Q2]. }
  destruct (top_exists (cs_heap s) (now_tree _ F) tips ltac:(intros y Y; apply I1 in Y as (Y & _); now apply Dl) _ x Xt (Nat.le_refl _)) as (z & Z & Az & Nz).
  apply (O z x); [|now apply (failed_anc h tip _ F) | exact A | exact Q]. apply Tops. split; [exact Z|]. intros P. apply Nz. apply I2 in P as (y & b & Y & Eb).
  exists y, b. split; [now apply I1 | exact Eb].
Qed.

(** All blocks up to [p] have been received, or are the first one. *)
Definition counted (p : ptr) : Prop := forall q b, anc h p q -> h !! q = Some b -> nChainTx b <> 0 \/ nHeight b = 0.

Lemma test_walk_spec h' (F : only_failed h tip h') (fuel : nat) : forall p b, h !! p = Some b -> counted p -> (Z.to_nat (nHeight b) < fuel)%nat ->
  exists r, test_walk fuel h' c (Some p) = Ok r /\
    match r with
    | None => connectable h' tip p
    | Some q => anc h p q /\ ~ anc h tip q /\ exists b', h' !! q = Some b' /\ (isInvalid (nStatus b') = true \/ hasData (nStatus b') = false)
    end.
Proof.
  induction fuel as [|fuel IH]; intros p b E K L; [lia|]. cbn [test_walk].
  destruct (now_contains h' F p (ex_intro _ b E)) as (v & -> & V). cbn [obind]. destruct v.
  { exists None. split; [reflexivity|]. intros q d A N _. contradiction N. apply (failed_anc h tip h' F). apply (failed_anc h tip h' F) in A. exact (anc_trans h tip p q (proj1 V eq_refl) A). }
  assert (N : ~ anc h tip p) by (intros A; apply V in A; discriminate).
  destruct (failed_entry h tip h' F p b E) as (b' & E' & Qb). unfold deref. rewrite E'. cbn [or_abort obind].
  replace (negb (nChainTx b' =? 0) || (nHeight b' =? 0)) with true by (rewrite Qb; cbn; destruct (K p b (anc_refl h p) E); lia). cbn [assert_].
  destruct (isInvalid (nStatus b') || negb (hasData (nStatus b'))) eqn:G.
  { exists (Some p). split; [reflexivity|]. split; [apply anc_refl|]. split; [exact N|]. exists b'. split; [exact E'|].
    apply orb_true_iff in G as [G|G]; [now left | right; now apply negb_true_iff in G]. }
  apply orb_false_iff in G as [G1 G2]. apply negb_false_iff in G2. replace (pprev b') with (pprev b) by (rewrite Qb; reflexivity).
  assert (Own : forall q d, h' !! q = Some d -> q = p -> isInvalid (nStatus d) = false /\ hasData (nStatus d) = true) by (intros q d Ed ->; rewrite E' in Ed; injection Ed as <-; auto).
  destruct (pprev b) as [r|] eqn:P.
  - destruct (ok_prev h T p b r E P) as (d & Ed & Hd). pose proof (ok_height h T r d Ed) as Hr. pose proof (anc_prev h p r b E P) as Ar.
    destruct (IH r d Ed ltac:(intros q e A; apply K; exact (anc_trans h p r q Ar A)) ltac:(lia)) as (x & -> & X). exists x. split; [reflexivity|].
    destruct x as [x|]; [destruct X as [A X]; split; [exact (anc_trans h p r x Ar A) | exact X]|].
    intros q e A Nq Eq. destruct (anc_cases h' p b' q E' A) as [Q|(r' & P' & A')]; [exact (Own q e Eq Q)|].
    rewrite Qb in P'. cbn in P'. rewrite P in P'. injection P' as <-. exact (X q e A' Nq Eq).
  - exists None. split; [now destruct fuel|]. intros q e A _ Eq. destruct (anc_cases h' p b' q E' A) as [Q|(r' & P' & _)]; [exact (Own q e Eq Q)|].
    rewrite Qb in P'. cbn in P'. rewrite P in P'. discriminate.
Qed.

Lemma unlink_walk_spec q (N : ~ connectable h tip q) (fuel : nat) : forall s p b, good s -> h !! p = Some b -> anc h p q -> (Z.to_nat (nHeight b) < fuel)%nat ->
  exists s', unlink_walk fuel s q (Some p) = Ok s' /\ good s' /\ shrinks h tip (cands s) (cands s') /\ (p <> q -> p ∉ cands s').
Proof.
  induction fuel as [|fuel IH]; intros s p b G E A L; [lia|]. cbn [unlink_walk].
  destruct (Pos.eqb_spec q p) as [->|Np]; [exists s; split; [reflexivity|]; split; [exact G|]; split; [apply shrinks_refl | congruence]|].
  destruct (anc_cases h p b q E A) as [Q|(r & P & Ar)]; [congruence|].
  destruct (failed_entry h tip _ (g_heap s G) p b E) as (b' & E' & Qb). unfold deref. rewrite E'. cbn [or_abort obind].
  replace (pprev b') with (Some r) by (rewrite Qb; symmetry; exact P).
  destruct (ok_prev h T p b r E P) as (d & Ed & Hd). pose proof (ok_height h T r d Ed) as Hr.
  assert (Nc : ~ connectable h tip p) by (intros K; exact (N (connectable_anc h tip p q K A))).
  set (s1 := set_st (set_unlinked s (mapBlocksUnlinked s ++ [(Some r, p)])) (erase (cs_st s) p)). destruct G as [F S Gc Gm Gi].
  destruct (IH s1 r d (mkGood s1 F S Gc Gm Gi) Ed Ar ltac:(lia)) as (s' & R & G' & Sh & _). exists s'. split; [exact R|]. split; [exact G'|].
  split; [exact (shrinks_trans h tip _ _ _ (shrinks_erase h tip _ p Nc) Sh)|]. intros _ X. apply (proj1 Sh) in X. cbn in X.
  apply elem_of_difference in X as [_ X]. now apply X, elem_of_singleton.
Qed.

Lemma best_invalid_spec s p : good s -> is_Some (h !! p) -> exists s', best_invalid s p = Ok s' /\ good s' /\ cs_st s' = cs_st s.
Proof.
  intros [F S Gc Gm Gi] P. unfold best_invalid, deref. pose proof (proj1 (failed_some h tip _ F p) P) as [b ->]. cbn [or_abort obind].
  assert (K : good (set_invalid s (Some p))) by (split; [exact F | exact S | exact Gc | exact Gm |]; intros q [= <-]; exact P).
  destruct (pindexBestInvalid s) as [q|] eqn:Q; [|eexists; split; [reflexivity|]; split; [exact K | reflexivity]].
  pose proof (proj1 (failed_some h tip _ F q) (Gi q eq_refl)) as [d ->]. cbn [or_abort obind].
  eexists. split; [reflexivity|]. destruct (gt _ _); split; try reflexivity; [exact K | split; auto; intros x; rewrite Q; apply Gi].
Qed.

Lemma drop_candidate_spec s p q b hash b' : good s -> h !! p = Some b -> M !! hash = Some p -> ~ anc h tip p -> anc h p q -> ~ anc h tip q ->
  cs_heap s !! q = Some b' -> isInvalid (nStatus b') = true \/ hasData (nStatus b') = false ->
  exists s', drop_candidate s p q = Ok s' /\ good s' /\ shrinks h tip (cands s) (cands s') /\ p ∉ cands s'.
Proof.
  intros G E Hm Np A Nq E' Bad. pose proof (g_heap s G) as F.
  assert (N : ~ connectable h tip q).
  { intros K. apply (failed_connectable h tip _ F) in K. destruct (K q b' (anc_refl _ q) ltac:(now rewrite <- (failed_anc h tip _ F)) E'). destruct Bad; congruence. }
  destruct (anc_lookup h T p q b E A) as (bq & Eq & _). unfold drop_candidate, deref. rewrite E'. cbn [or_abort obind].
  assert (X : exists s1, (if isInvalid (nStatus b') then let* s := best_invalid s p in InvalidateChain s q else unlink_walk (walk_fuel (cs_heap s) (Some p)) s q (Some p)) = Ok s1 /\
    good s1 /\ shrinks h tip (cands s) (cands s1) /\ (p <> q -> p ∉ cands s1)).
  { destruct (isInvalid (nStatus b')) eqn:I.
    - destruct (best_invalid_spec s p G (ex_intro _ b E)) as (s0 & -> & G0 & St). cbn [obind]. unfold cands, cs_heap in *. rewrite <- St in *.
      destruct (InvalidateChain_spec s0 q bq b' G0 Eq Nq E' I) as (s1 & R & G1 & Sh & O). exists s1. split; [exact R|]. split; [exact G1|]. split; [exact Sh|].
      exact (O hash p Hm Np A).
    - destruct (failed_entry h tip _ F p b E) as (d & Ed & Qd). unfold walk_fuel. rewrite Ed. pose proof (ok_height h T p b E).
      apply (unlink_walk_spec q N _ s p b G E A). rewrite Qd. cbn. lia. }
  destruct X as (s1 & -> & [F1 S1 Gc Gm Gi] & Sh & O). cbn [obind]. eexists. split; [reflexivity|]. split; [split; assumption|].
  split; [exact (shrinks_trans h tip _ _ _ Sh (shrinks_erase h tip _ q N))|]. cbn. intros X. apply elem_of_difference in X as [X1 X2].
  apply O in X1; [exact X1|]. intros ->. now apply X2, elem_of_singleton.
Qed.

(** A candidate is a block of the index, received with all its ancestors. *)
Definition cand_ok (p : ptr) : Prop := is_Some (h !! p) /\ counted p /\ exists hash, M !! hash = Some p.

Lemma most_work_spec (fuel : nat) : forall s, good s -> (forall p, p ∈ cands s -> cand_ok p) -> (size (cands s) <= fuel)%nat ->
  exists s' r, most_work fuel s = Ok (s', r) /\ good s' /\ shrinks h tip (cands s) (cands s') /\
    match r with
    | None => cands s' = ∅
    | Some p => p ∈ cands s' /\ connectable h tip p /\ forall q, q ∈ cands s' -> q = p \/ before h q p
    end.
Proof.
  induction fuel as [|fuel IH]; intros s G D L; pose proof (g_heap s G) as F;
    (destruct (rbegin_spec (cs_heap s) (failed_works h tip _ F W) (cands s)) as [[Em R]|(p & R & Ip & Mx)];
     [intros q Q; apply (failed_some h tip _ F), (D q Q)
     |exists s, None; cbn [most_work]; rewrite R; split; [reflexivity|]; split; [exact G|]; split; [apply shrinks_refl | exact Em]|]);
    destruct (D p Ip) as ([b E] & K & hash & Hm); destruct (failed_entry h tip _ F p b E) as (b' & E' & Qb);
    assert (Hb : nHeight b' = nHeight b) by (now rewrite Qb); pose proof (ok_height h T p b E) as H0;
    destruct (test_walk_spec (cs_heap s) F (Z.to_nat (nHeight b' + 2)) p b E K ltac:(lia)) as (x & Tw & X);
    cbn [most_work]; rewrite R; cbn [obind]; rewrite (g_chain s G); unfold walk_fuel; rewrite E', Tw; cbn [obind];
    (destruct x as [x|];
     [|exists s, (Some p); split; [reflexivity|]; split; [exact G|]; split; [apply shrinks_refl|]; split; [exact Ip|];
       split; [now apply (failed_connectable h tip _ F)|]; intros q Q; destruct (Mx q Q) as [->|Bf]; [now left | right; now apply (failed_before h tip _ F)]]).
  - apply Nat.le_0_r, size_empty_iff in L. now apply L in Ip.
  - destruct X as (A & Nx & bx & Ex & Bad). assert (Np : ~ anc h tip p) by (intros Ap; exact (Nx (anc_trans h tip p x Ap A))).
    destruct (drop_candidate_spec s p x b hash bx G E Hm Np A Nx Ex Bad) as (s1 & -> & G1 & Sh & Out). cbn [obind].
    assert (Sz : (size (cands s1) < size (cands s))%nat) by (apply subset_size; split; [exact (proj1 Sh) | intros Q; exact (Out (Q p Ip))]).
    destruct (IH s1 G1 ltac:(intros q Q; apply D, (proj1 Sh), Q) ltac:(lia)) as (s' & r & R' & G' & Sh' & Z). exists s', r.
    split; [exact R'|]. split; [exact G'|]. split; [exact (shrinks_trans h tip _ _ _ Sh Sh') | exact Z].
Qed.
End Search.

(** ** Properties *)

(** The state the search starts from: the entries form a tree with the active chain, and the
    candidates are blocks of the index that were received with all their ancestors. *)
Record search_ok (s : chain_state) (tip : ptr) : Prop := mkSearch {
  so_tree : tree_ok (cs_heap s);
  so_works : works_ok (cs_heap s);
  so_chain : chain_ok (cs_heap s) (chainActive s);
  so_tip : Tip (chainActive s) = Some tip;
  so_bits : exists t, cs_heap s !! tip = Some t /\ 0 <= nBits t < 2 ^ 32;
  so_map : forall hash p, mapBlockIndex s !! hash = Some p -> is_Some (cs_heap s !! p);
  so_cands : forall p, p ∈ cands s -> cand_ok (cs_heap s) (mapBlockIndex s) p;
  so_safe : safe_ok (cs_heap s) (cs_safe s);
  so_invalid : forall q, pindexBestInvalid s = Some q -> is_Some (cs_heap s !! q)
}.

(** C8: the choice of the best chain. [FindMostWorkChain] always ends, however many candidates it has to
    give up, and returns the candidate that comes last in the order of work among all those whose blocks
    outside the active chain are present and not known to be invalid, or nothing when there is none.
    It gives up only candidates that cannot be connected, changes the status only of blocks that cannot be
    connected, and leaves the active chain as it is. *)
Theorem FindMostWorkChain_correct (s : chain_state) (tip : ptr) : search_ok s tip ->
  exists s' r, FindMostWorkChain s = Ok (s', r) /\ chainActive s' = chainActive s /\ mapBlockIndex s' = mapBlockIndex s /\
    only_failed (cs_heap s) tip (cs_heap s') /\ cands s' ⊆ cands s /\
    (forall q, q ∈ cands s -> connectable (cs_heap s) tip q -> q ∈ cands s') /\
    match r with
    | None => forall q, q ∈ cands s -> ~ connectable (cs_heap s) tip q
    | Some p => p ∈ cands s /\ connectable (cs_heap s) tip p /\
        forall q, q ∈ cands s -> connectable (cs_heap s) tip q -> q = p \/ before (cs_heap s) q p
    end.
Proof.
  intros [T W C Ht (t & Et & B) HM D S I].
  assert (G : good (cs_heap s) tip (chainActive s) (mapBlockIndex s) s) by (split; [apply only_failed_refl | exact S | reflexivity | reflexivity | exact I]).
  destruct (most_work_spec (cs_heap s) T W tip t (chainActive s) (mapBlockIndex s) C Ht Et B HM _ s G D (Nat.le_refl _)) as (s' & r & R & G' & [Sh1 Sh2] & Z).
  exists s', r. split; [exact R|]. split; [apply G'|]. split; [apply G'|]. split; [apply G'|]. split; [exact Sh1|]. split; [exact Sh2|].
  destruct r as [p|].
  - destruct Z as (Ip & Cp & Mx). split; [exact (Sh1 p Ip)|]. split; [exact Cp|]. intros q Q Cq. exact (Mx q (Sh2 q Q Cq)).
  - intros q Q Cq. apply (Sh2 q Q) in Cq. rewrite Z in Cq. now apply elem_of_empty in Cq.
Qed.

(** Pruning the candidates erases exactly those that come before the tip, so that the tip, when it is one,
    stays, and the assertion that some candidate is left holds. *)
Lemma PruneBlockIndexCandidates_correct (s : chain_state) (tip : ptr) : search_ok s tip -> tip ∈ cands s ->
  exists s', PruneBlockIndexCandidates s = Ok s' /\ cs_heap s' = cs_heap s /\ tip ∈ cands s' /\
    forall q, q ∈ cands s' <-> q ∈ cands s /\ ~ before (cs_heap s) q tip.
Proof.
  intros [T W C Ht (t & Et & B) HM D S I] It. unfold PruneBlockIndexCandidates. rewrite Ht.
  destruct (prune_worse_spec (cs_heap s) W tip (ex_intro _ t Et) (size (cands s)) (cands s)) as (l & -> & K); [intros q Q; apply (D q Q) | lia|]. cbn [obind].
  assert (Il : tip ∈ l) by (apply K; split; [exact It | exact (before_irrefl (cs_heap s) W tip)]).
  rewrite bool_decide_false by (intros ->; now apply elem_of_empty in Il). eexists. split; [reflexivity|]. split; [reflexivity|]. split; [exact Il | exact K].
Qed.

(** The forks of the sample beside the active chain, as candidates. *)
Definition fork_map : BlockMap := {[ [1] := 1%positive; [2] := 2%positive; [3] := 3%positive ]}.
Definition fork_search : chain_state :=
  mkChainState (mkState fork_heap ∅ {[2%positive; 3%positive]}) fork_map fork_chain [] None None (mkSafe NONE ∅) 1 (-1) zero.

Lemma fork_entry p b : fork_heap !! p = Some b -> exists prev height work tx status,
  b = fork_block prev height work tx status /\ 0 <= work < 2 ^ 64 /\ (p = 4%positive \/ tx <> 0).
Proof.
  intros E. assert (K : forall prev height work tx status, b = fork_block prev height work tx status -> 0 <= work < 2 ^ 64 -> (p = 4%positive \/ tx <> 0) ->
    exists prev height work tx status, b = fork_block prev height work tx status /\ 0 <= work < 2 ^ 64 /\ (p = 4%positive \/ tx <> 0)) by (intros; do 5 eexists; eauto).
  unfold fork_heap in E. rewrite !lookup_insert_Some, lookup_empty in E.
  destruct E as [[<- <-]|[_ [[<- <-]|[_ [[<- <-]|[_ [[<- <-]|[_ E]]]]]]]]; [eapply K; [reflexivity | lia | auto; right; lia].. | discriminate].
Qed.

Lemma fork_search_ok : search_ok fork_search 2.
Proof.
  assert (M : forall hash p, fork_map !! hash = Some p -> p = 1%positive \/ p = 2%positive \/ p = 3%positive).
  { intros hash p. unfold fork_map. rewrite !lookup_insert_Some, lookup_singleton_Some. intuition congruence. }
  split; [exact fork_heap_ok | | exact fork_chain_ok | reflexivity | eexists; split; [reflexivity | cbn; lia] | | | | discriminate].
  - intros p b E. apply fork_entry in E as (prev & height & work & tx & status & -> & H & _). exact (proj1 (of_u64_spec work H)).
  - intros hash p E. apply M in E as [->|[->| ->]]; eexists; reflexivity.
  - intros p P. assert (P' : p = 2%positive \/ p = 3%positive) by (cbn in P; set_solver). split; [destruct P' as [->| ->]; eexists; reflexivity|].
    split; [|destruct P' as [->| ->]; [exists [2] | exists [3]]; reflexivity]. intros q b A E.
    assert (Q : q <> 4%positive).
    { intros ->. destruct A as [k U]. assert (Up : forall k p, p <> 4%positive -> up fork_heap k p <> Some 4%positive); [|destruct P' as [-> | ->]; now apply Up in U].
      clear. induction k as [|k IH]; intros p N; [cbn; congruence|]. cbn [up]. destruct (fork_heap !! p) as [b|] eqn:E; [|discriminate].
      cbn. destruct (pprev b) as [q|] eqn:P; [|discriminate]. cbn. apply IH. unfold fork_heap in E. rewrite !lookup_insert_Some, lookup_empty in E.
      destruct E as [[<- <-]|[_ [[<- <-]|[_ [[<- <-]|[_ [[<- <-]|[_ E]]]]]]]]; cbn in P; congruence. }
    apply fork_entry in E as (prev & height & work & tx & status & -> & _ & [X|X]); [contradiction | left; exact X].
  - split; [|split; reflexivity]. intros k x E. cbn in E. rewrite lookup_empty in E. discriminate.
Qed.

Lemma FindMostWorkChain_correct_witness : match FindMostWorkChain fork_search with Ok (_, r) => r = Some 2%positive | _ => False end /\
  exists s' r, FindMostWorkChain fork_search = Ok (s', r) /\ cands s' ⊆ cands fork_search.
Proof.
  split; [vm_compute; reflexivity|]. destruct (FindMostWorkChain_correct fork_search 2 fork_search_ok) as (s' & r & R & _ & _ & _ & Sub & _).
  exact (ex_intro _ s' (ex_intro _ r (conj R Sub))).
Defined.
End ChainState.
