(* ===== verification/Coins.v ===== *)
(** * The set of unspent outputs (src/src/coins.h, src/src/coins.cpp)

    A coin view gives the unspent output of an outpoint. Caches stand in front of other views, fill
    themselves on reading and write their changes to the view behind them when flushed. *)

From stdpp Require Import gmap.
From S2P Require Import Prelude Hasher Outcome Script Serialize Amount Transaction.
Import Script Amount Transaction.

Module Coins.
Local Open Scope Z_scope.
Local Open Scope outcome_scope.

(** ** Coins *)

Record Coin : Type := mkCoin { out : CTxOut; nHeightAndIsCoinBase : Z }.

Definition Coin_new : Coin := mkCoin CTxOut_null 0.
Definition Coin_of (outIn : CTxOut) (nHeightIn : Z) (IsCoinbase : bool) : Coin :=
  mkCoin outIn (Z.lor (shl32 nHeightIn 1) (if IsCoinbase then 1 else 0)).
Definition GetHeight (c : Coin) : Z := Z.shiftr (nHeightAndIsCoinBase c) 1.
Definition coin_IsCoinBase (c : Coin) : bool := negb (Z.land (nHeightAndIsCoinBase c) 1 =? 0).
Definition IsSpent (c : Coin) : bool := CTxOut_IsNull (out c).

(** [Clear] *)
Definition Coin_cleared : Coin := mkCoin CTxOut_null 0.

#[export] Instance COutPoint_eq_dec : EqDecision COutPoint.
Proof. unfold EqDecision, Decision. decide equality; [apply Z.eq_dec | apply (list_eq_dec Z.eq_dec)]. Defined.

#[export] Instance COutPoint_countable : Countable COutPoint.
Proof.
  refine (inj_countable' (fun p => (txid p : list Z, n p)) (fun q => mkOutPoint (fst q) (snd q)) _). now intros [].
Defined.

Record CCoinsCacheEntry : Type := mkEntry { coin : Coin; flags : Z }.
Definition DIRTY : Z := 1.
Definition FRESH : Z := 2.
Definition flagged (e : CCoinsCacheEntry) (flag : Z) : bool := negb (Z.land (flags e) flag =? 0).
Definition add_flags (e : CCoinsCacheEntry) (f : Z) : CCoinsCacheEntry := mkEntry (coin e) (Z.lor (flags e) f).

Abbreviation CCoinsMap := (gmap COutPoint CCoinsCacheEntry).
Abbreviation CoinsBatch := (list (COutPoint * CCoinsCacheEntry)).

(** ** Views *)

(** Reading may change a view, which may be a cache. A batch is the list of the entries in the order
    of the iteration over the map. *)
Class CCoinsView (V : Type) : Type := {
  view_GetCoin : V -> COutPoint -> V * option Coin;
  view_GetBestBlock : V -> V * bytes;
  view_BatchWrite : V -> CoinsBatch -> bytes -> outcome (V * bool)
}.

Definition hash_IsNull (h : bytes) : bool := forallb (fun b => b =? 0) h.

Section Cache.
Context {V : Type} `{CCoinsView V}.
(** [Coin::DynamicMemoryUsage], the memory the allocator uses for the script. *)
Context (usage : Coin -> Z).

Record CCoinsViewCache : Type := mkCache {
  base : V; hashBlock : bytes; cacheCoins : CCoinsMap; cachedCoinsUsage : Z
}.

Definition CCoinsViewCache_of (baseIn : V) : CCoinsViewCache := mkCache baseIn (repeat 0 32) ∅ 0.

Definition set_base (c : CCoinsViewCache) (v : V) : CCoinsViewCache := mkCache v (hashBlock c) (cacheCoins c) (cachedCoinsUsage c).
Definition set_coins (c : CCoinsViewCache) (m : CCoinsMap) (used : Z) : CCoinsViewCache := mkCache (base c) (hashBlock c) m (u64 used).

Definition FetchCoinNL (c : CCoinsViewCache) (outpoint : COutPoint) : CCoinsViewCache * option CCoinsCacheEntry :=
  match cacheCoins c !! outpoint with
  | Some e => (c, Some e)
  | None =>
      let '(v, tmp) := view_GetCoin (base c) outpoint in
      let c := set_base c v in
      match tmp with
      | None => (c, None)
      | Some tmp =>
          let e := mkEntry tmp (if IsSpent tmp then FRESH else 0) in
          (set_coins c (<[outpoint := e]> (cacheCoins c)) (cachedCoinsUsage c + usage tmp), Some e)
      end
  end.

Definition GetCoin (c : CCoinsViewCache) (outpoint : COutPoint) : CCoinsViewCache * option Coin :=
  let '(c, e) := FetchCoinNL c outpoint in (c, option_map coin e).

Definition AddCoin (c : CCoinsViewCache) (outpoint : COutPoint) (newcoin : Coin) (possible_overwrite : bool)
    (genesisActivationHeight : Z) : outcome CCoinsViewCache :=
  assert_ (negb (IsSpent newcoin)) (
    if IsUnspendable (scriptPubKey (out newcoin)) (genesisActivationHeight <=? GetHeight newcoin) then Ok c
    else
      let found := cacheCoins c !! outpoint in
      let e := match found with Some e => e | None => mkEntry Coin_new 0 end in
      let used := match found with Some e => cachedCoinsUsage c - usage (coin e) | None => cachedCoinsUsage c end in
      if negb possible_overwrite && negb (IsSpent (coin e)) then Throw std_exception
      else
        let fresh := negb possible_overwrite && negb (flagged e DIRTY) in
        let e := mkEntry newcoin (Z.lor (flags e) (Z.lor DIRTY (if fresh then FRESH else 0))) in
        Ok (set_coins c (<[outpoint := e]> (cacheCoins c)) (used + usage newcoin))).

(** The coin that is moved out, or nothing when the function returns false. *)
Definition SpendCoin (c : CCoinsViewCache) (outpoint : COutPoint) : CCoinsViewCache * option Coin :=
  let '(c, e) := FetchCoinNL c outpoint in
  match e with
  | None => (c, None)
  | Some e =>
      let used := cachedCoinsUsage c - usage (coin e) in
      let m :=
        if flagged e FRESH then delete outpoint (cacheCoins c)
        else <[outpoint := mkEntry Coin_cleared (Z.lor (flags e) DIRTY)]> (cacheCoins c) in
      (set_coins c m used, Some (coin e))
  end.

Definition AccessCoin (c : CCoinsViewCache) (outpoint : COutPoint) : CCoinsViewCache * Coin :=
  let '(c, e) := FetchCoinNL c outpoint in
  (c, match e with Some e => coin e | None => Coin_new end).

Definition HaveCoin (c : CCoinsViewCache) (outpoint : COutPoint) : CCoinsViewCache * bool :=
  let '(c, e) := FetchCoinNL c outpoint in
  (c, match e with Some e => negb (IsSpent (coin e)) | None => false end).

Definition HaveCoinInCache (c : CCoinsViewCache) (outpoint : COutPoint) : bool :=
  match cacheCoins c !! outpoint with Some _ => true | None => false end.

Definition GetBestBlock (c : CCoinsViewCache) : CCoinsViewCache * bytes :=
  if hash_IsNull (hashBlock c) then
    let '(v, best) := view_GetBestBlock (base c) in
    (mkCache v best (cacheCoins c) (cachedCoinsUsage c), best)
  else (c, hashBlock c).

Definition SetBestBlock (c : CCoinsViewCache) (hashBlockIn : bytes) : CCoinsViewCache :=
  mkCache (base c) hashBlockIn (cacheCoins c) (cachedCoinsUsage c).

(** One round of the loop of [BatchWrite]. *)
Definition write_entry (c : CCoinsViewCache) (outpoint : COutPoint) (it : CCoinsCacheEntry) : outcome CCoinsViewCache :=
  if flagged it DIRTY then
    match cacheCoins c !! outpoint with
    | None =>
        if flagged it FRESH && IsSpent (coin it) then Ok c
        else
          let entry := mkEntry (coin it) (Z.lor DIRTY (if flagged it FRESH then FRESH else 0)) in
          Ok (set_coins c (<[outpoint := entry]> (cacheCoins c)) (cachedCoinsUsage c + usage (coin it)))
    | Some us =>
        if flagged it FRESH && negb (IsSpent (coin us)) then Throw std_exception
        else if flagged us FRESH && IsSpent (coin it) then
          Ok (set_coins c (delete outpoint (cacheCoins c)) (cachedCoinsUsage c - usage (coin us)))
        else
          Ok (set_coins c (<[outpoint := mkEntry (coin it) (Z.lor (flags us) DIRTY)]> (cacheCoins c))
                (cachedCoinsUsage c - usage (coin us) + usage (coin it)))
    end
  else Ok c.

Fixpoint write_entries (c : CCoinsViewCache) (l : CoinsBatch) : outcome CCoinsViewCache :=
  match l with
  | [] => Ok c
  | (outpoint, it) :: l => let* c := write_entry c outpoint it in write_entries c l
  end.

Definition BatchWrite (c : CCoinsViewCache) (mapCoins : CoinsBatch) (hashBlockIn : bytes) : outcome (CCoinsViewCache * bool) :=
  let* c := write_entries c mapCoins in Ok (SetBestBlock c hashBlockIn, true).

Definition Flush (c : CCoinsViewCache) : outcome (CCoinsViewCache * bool) :=
  let* r := view_BatchWrite (base c) (map_to_list (cacheCoins c)) (hashBlock c) in
  let '(v, fOk) := r in Ok (mkCache v (hashBlock c) ∅ 0, fOk).

Definition UncacheNL (c : CCoinsViewCache) (outpoint : COutPoint) : CCoinsViewCache :=
  match cacheCoins c !! outpoint with
  | Some e => if flags e =? 0 then set_coins c (delete outpoint (cacheCoins c)) (cachedCoinsUsage c - usage (coin e)) else c
  | None => c
  end.

Definition Uncache (c : CCoinsViewCache) (vOutpoints : list COutPoint) : CCoinsViewCache := fold_left UncacheNL vOutpoints c.

Definition GetCacheSize (c : CCoinsViewCache) : Z := u32 (Z.of_nat (size (cacheCoins c))).

(** [GetOutputFor], and the sum of [GetValueIn] *)
Definition GetOutputFor (c : CCoinsViewCache) (input : CTxIn) : outcome (CCoinsViewCache * CTxOut) :=
  let '(c, a) := AccessCoin c (prevout input) in assert_ (negb (IsSpent a)) (Ok (c, out a)).

Fixpoint value_in (c : CCoinsViewCache) (nResult : Amount) (l : list CTxIn) : outcome (CCoinsViewCache * Amount) :=
  match l with
  | [] => Ok (c, nResult)
  | i :: l =>
      let* r := GetOutputFor c i in
      let '(c, o) := r in
      let* nResult := amount_add nResult (nValue o) in
      value_in c nResult l
  end.
Definition GetValueIn (c : CCoinsViewCache) (tx : CTransaction) : outcome (CCoinsViewCache * Amount) :=
  if IsCoinBase tx then Ok (c, 0) else value_in c 0 (vin tx).

Fixpoint have_inputs (c : CCoinsViewCache) (l : list CTxIn) : CCoinsViewCache * bool :=
  match l with
  | [] => (c, true)
  | i :: l => let '(c, have) := HaveCoin c (prevout i) in if have then have_inputs c l else (c, false)
  end.
Definition HaveInputs (c : CCoinsViewCache) (tx : CTransaction) : CCoinsViewCache * bool :=
  if IsCoinBase tx then (c, true) else have_inputs c (vin tx).

(** The search is given up, with no answer, when the cache has grown to its limit. *)
Fixpoint have_inputs_limited (c : CCoinsViewCache) (maxCachedCoinsUsage : Z) (l : list CTxIn) : CCoinsViewCache * option bool :=
  match l with
  | [] => (c, Some true)
  | i :: l =>
      let '(c, have) := HaveCoin c (prevout i) in
      if negb have then (c, Some false)
      else if (0 <? maxCachedCoinsUsage) && (maxCachedCoinsUsage <=? cachedCoinsUsage c) then (c, None)
      else have_inputs_limited c maxCachedCoinsUsage l
  end.
Definition HaveInputsLimited (c : CCoinsViewCache) (tx : CTransaction) (maxCachedCoinsUsage : Z) : CCoinsViewCache * option bool :=
  if IsCoinBase tx then (c, Some true) else have_inputs_limited c maxCachedCoinsUsage (vin tx).
End Cache.

Arguments CCoinsViewCache V : clear implicits.

(** A cache is a view. *)
#[export] Instance cache_view {V : Type} `{CCoinsView V} (usage : Coin -> Z) : CCoinsView (CCoinsViewCache V) := {
  view_GetCoin := GetCoin usage;
  view_GetBestBlock := GetBestBlock;
  view_BatchWrite := BatchWrite usage
}.

(** ** What a view promises *)

(** A coin that is there and not spent. *)
Definition unspent (c : option Coin) : option Coin :=
  match c with Some c => if IsSpent c then None else Some c | None => None end.

Definition coin_set : Type := COutPoint -> option Coin.

(** The set after a batch: a dirty entry replaces what was there. *)
Fixpoint after (l : CoinsBatch) (s : coin_set) (x : COutPoint) : option Coin :=
  match l with
  | [] => s x
  | (o, e) :: l => if decide (o = x) then (if flagged e DIRTY then unspent (Some (coin e)) else s x) else after l s x
  end.

(** A fresh entry is for an outpoint that the view does not have. *)
Definition batch_ok (s : coin_set) (l : CoinsBatch) : Prop :=
  NoDup (map fst l) /\ Forall (fun oe => flagged (snd oe) DIRTY = true -> flagged (snd oe) FRESH = true -> s (fst oe) = None) l.

(** The contract: reading gives the coin of the set and does not change the set; writing a batch
    succeeds and makes the set the one after the batch. *)
Class CoinsViewLaws (V : Type) `{CCoinsView V} : Type := {
  view_inv : V -> Prop;
  view_coin : V -> coin_set;
  (** The best blocks that may be written. *)
  view_writable : bytes -> Prop;
  view_unspent v o c : view_inv v -> view_coin v o = Some c -> IsSpent c = false;
  law_get v o : view_inv v -> let '(v', r) := view_GetCoin v o in
    view_inv v' /\ (forall x, view_coin v' x = view_coin v x) /\ unspent r = view_coin v o;
  law_best v : view_inv v -> view_inv (fst (view_GetBestBlock v)) /\ forall x, view_coin (fst (view_GetBestBlock v)) x = view_coin v x;
  law_write v l hash : view_inv v -> batch_ok (view_coin v) l -> view_writable hash ->
    exists v', view_BatchWrite v l hash = Ok (v', true) /\ view_inv v' /\ forall x, view_coin v' x = after l (view_coin v) x
}.

(** ** Flags and memory *)

Lemma flagged_bit (e : CCoinsCacheEntry) : flagged e DIRTY = Z.testbit (flags e) 0 /\ flagged e FRESH = Z.testbit (flags e) 1.
Proof. unfold flagged. split; [exact (land_bit (flags e) 0 ltac:(lia)) | exact (land_bit (flags e) 1 ltac:(lia))]. Qed.

Lemma flagged_dirty (c : Coin) (f : Z) : flagged (mkEntry c (Z.lor f DIRTY)) DIRTY = true.
Proof. rewrite (proj1 (flagged_bit _)). cbn [flags]. rewrite Z.lor_spec. apply orb_true_r. Qed.

Lemma flagged_fresh (c d : Coin) (f : Z) : flagged (mkEntry c (Z.lor f DIRTY)) FRESH = flagged (mkEntry d f) FRESH.
Proof. rewrite !(proj2 (flagged_bit _)). cbn [flags]. rewrite Z.lor_spec. apply orb_false_r. Qed.

Section Memory.
Context (usage : Coin -> Z).

(** The memory of all coins of a map. *)
Definition total (m : CCoinsMap) : Z := map_fold (fun _ e s => usage (coin e) + s) 0 m.
Definition old_usage (m : CCoinsMap) (x : COutPoint) : Z := match m !! x with Some e => usage (coin e) | None => 0 end.

Lemma total_delete (m : CCoinsMap) (x : COutPoint) : total (delete x m) = total m - old_usage m x.
Proof.
  unfold old_usage, total. destruct (m !! x) as [e|] eqn:E; [|rewrite delete_id by exact E; lia].
  rewrite (map_fold_delete_L (fun _ e s => usage (coin e) + s) 0 x e m); [lia | intros; lia | exact E].
Qed.

Lemma total_insert (m : CCoinsMap) (x : COutPoint) (e : CCoinsCacheEntry) :
  total (<[x := e]> m) = total m - old_usage m x + usage (coin e).
Proof.
  rewrite <- insert_delete_eq. unfold total at 1.
  rewrite (map_fold_insert_L (fun _ e s => usage (coin e) + s) 0 x e (delete x m)); [|intros; lia | apply lookup_delete_eq].
  fold (total (delete x m)). rewrite total_delete. lia.
Qed.
End Memory.

(** ** The cache keeps the promise *)

Section Refinement.
Context {V : Type} `{L : CoinsViewLaws V} (usage : Coin -> Z).
Implicit Types (c : CCoinsViewCache V) (x : COutPoint) (e : CCoinsCacheEntry).

(** The set a cache stands for: its entries, and behind them the base. *)
Definition cache_coin c : coin_set :=
  fun x => match cacheCoins c !! x with Some e => unspent (Some (coin e)) | None => view_coin (base c) x end.

(** An entry that is not dirty agrees with the base, the base does not have the coin of a fresh
    entry, and the memory count is exact. *)
Record cache_ok c : Prop := {
  co_base : view_inv (base c);
  co_clean x e : cacheCoins c !! x = Some e -> flagged e DIRTY = false -> unspent (Some (coin e)) = view_coin (base c) x;
  co_fresh x e : cacheCoins c !! x = Some e -> flagged e FRESH = true -> view_coin (base c) x = None;
  co_usage : cachedCoinsUsage c = u64 (total usage (cacheCoins c))
}.

Definition with_coin (s : coin_set) x (r : option Coin) : coin_set := fun y => if decide (y = x) then r else s y.

Lemma cache_put c x e used : cache_ok c ->
  (flagged e DIRTY = false -> unspent (Some (coin e)) = view_coin (base c) x) ->
  (flagged e FRESH = true -> view_coin (base c) x = None) ->
  used = cachedCoinsUsage c - old_usage usage (cacheCoins c) x + usage (coin e) ->
  cache_ok (set_coins c (<[x := e]> (cacheCoins c)) used) /\
  forall y, cache_coin (set_coins c (<[x := e]> (cacheCoins c)) used) y = with_coin (cache_coin c) x (unspent (Some (coin e))) y.
Proof.
  intros [B C F U] Hc Hf ->. split.
  - constructor; cbn [base cacheCoins cachedCoinsUsage set_coins]; [exact B| | |].
    + intros y d E. destruct (decide (y = x)) as [->|N]; [rewrite lookup_insert_eq in E; injection E as <-; exact Hc|].
      rewrite lookup_insert_ne in E by congruence. now apply C.
    + intros y d E. destruct (decide (y = x)) as [->|N]; [rewrite lookup_insert_eq in E; injection E as <-; exact Hf|].
      rewrite lookup_insert_ne in E by congruence. now apply F.
    + rewrite total_insert, U. replace (u64 (total usage (cacheCoins c)) - _ + _) with
        (u64 (total usage (cacheCoins c)) + (usage (coin e) - old_usage usage (cacheCoins c) x)) by ring.
      rewrite Hasher.u64_add. f_equal. ring.
  - intros y. unfold cache_coin, with_coin. cbn [cacheCoins base set_coins]. destruct (decide (y = x)) as [->|N].
    + now rewrite lookup_insert_eq.
    + now rewrite lookup_insert_ne by congruence.
Qed.

Lemma cache_delete c x used : cache_ok c -> used = cachedCoinsUsage c - old_usage usage (cacheCoins c) x ->
  cache_ok (set_coins c (delete x (cacheCoins c)) used) /\
  forall y, cache_coin (set_coins c (delete x (cacheCoins c)) used) y = with_coin (cache_coin c) x (view_coin (base c) x) y.
Proof.
  intros [B C F U] ->. split.
  - constructor; cbn [base cacheCoins cachedCoinsUsage set_coins]; [exact B| | |].
    + intros y d E. apply lookup_delete_Some in E as [_ E]. now apply C.
    + intros y d E. apply lookup_delete_Some in E as [_ E]. now apply F.
    + rewrite total_delete, U. unfold Z.sub at 1. rewrite Hasher.u64_add. f_equal.
  - intros y. unfold cache_coin, with_coin. cbn [cacheCoins base set_coins]. destruct (decide (y = x)) as [->|N].
    + now rewrite lookup_delete_eq.
    + now rewrite lookup_delete_ne by congruence.
Qed.

(** Reading the base does not change the set. *)
Lemma cache_rebase c v : cache_ok c -> view_inv v -> (forall x, view_coin v x = view_coin (base c) x) ->
  cache_ok (set_base c v) /\ forall x, cache_coin (set_base c v) x = cache_coin c x.
Proof.
  intros [B C F U] Hv E. split.
  - constructor; cbn [base cacheCoins cachedCoinsUsage set_base]; [exact Hv| | |exact U]; intros; rewrite E; eauto.
  - intros x. unfold cache_coin. cbn [base cacheCoins set_base]. destruct (cacheCoins c !! x); [reflexivity | apply E].
Qed.

Lemma FetchCoinNL_spec c x : cache_ok c -> let '(c', r) := FetchCoinNL usage c x in
  cache_ok c' /\ (forall y, cache_coin c' y = cache_coin c y) /\ cacheCoins c' !! x = r /\ hashBlock c' = hashBlock c /\
  unspent (option_map coin r) = cache_coin c x.
Proof.
  intros K. unfold FetchCoinNL. destruct (cacheCoins c !! x) as [e|] eqn:E.
  - split; [exact K|]. split; [reflexivity|]. split; [exact E|]. split; [reflexivity|]. unfold cache_coin. now rewrite E.
  - pose proof (law_get (base c) x (co_base c K)) as G. destruct (view_GetCoin (base c) x) as [v tmp]. destruct G as (Iv & Ev & R).
    destruct (cache_rebase c v K Iv Ev) as [K' S']. assert (Ex : cache_coin c x = view_coin (base c) x) by (unfold cache_coin; now rewrite E).
    destruct tmp as [tmp|]; [|split; [exact K'|]; split; [exact S'|]; split; [exact E|]; split; [reflexivity | now rewrite Ex]].
    destruct (cache_put (set_base c v) x (mkEntry tmp (if IsSpent tmp then FRESH else 0)) (cachedCoinsUsage (set_base c v) + usage tmp) K') as [K2 S2].
    + intros _. cbn [coin base set_base]. now rewrite Ev.
    + cbn [base set_base]. rewrite Ev, <- R. unfold unspent. destruct (IsSpent tmp); [reflexivity | discriminate].
    + unfold old_usage. cbn [cacheCoins set_base coin]. rewrite E. ring.
    + split; [exact K2|]. split.
      { intros y. rewrite S2. unfold with_coin. destruct (decide (y = x)) as [->|N]; [cbn [coin]; now rewrite Ex, R | apply S']. }
      split; [apply lookup_insert_eq|]. split; [reflexivity|]. cbn [option_map coin]. now rewrite Ex.
Qed.

Lemma GetCoin_spec c x : cache_ok c -> let '(c', r) := GetCoin usage c x in
  cache_ok c' /\ (forall y, cache_coin c' y = cache_coin c y) /\ unspent r = cache_coin c x.
Proof.
  intros K. unfold GetCoin. pose proof (FetchCoinNL_spec c x K) as F. destruct (FetchCoinNL usage c x) as [c' e]. tauto.
Qed.

Lemma HaveCoin_spec c x : cache_ok c -> let '(c', r) := HaveCoin usage c x in
  cache_ok c' /\ (forall y, cache_coin c' y = cache_coin c y) /\ r = match cache_coin c x with Some _ => true | None => false end.
Proof.
  intros K. unfold HaveCoin. pose proof (FetchCoinNL_spec c x K) as F. destruct (FetchCoinNL usage c x) as [c' e].
  destruct F as (K' & S' & _ & _ & R). split; [exact K'|]. split; [exact S'|]. rewrite <- R. destruct e as [e|]; [|reflexivity].
  cbn [option_map unspent]. now destruct (IsSpent (coin e)).
Qed.

Lemma AccessCoin_spec c x : cache_ok c -> let '(c', r) := AccessCoin usage c x in
  cache_ok c' /\ (forall y, cache_coin c' y = cache_coin c y) /\ unspent (Some r) = cache_coin c x.
Proof.
  intros K. unfold AccessCoin. pose proof (FetchCoinNL_spec c x K) as F. destruct (FetchCoinNL usage c x) as [c' e].
  destruct F as (K' & S' & _ & _ & R). split; [exact K'|]. split; [exact S'|]. rewrite <- R. now destruct e.
Qed.

Lemma SpendCoin_spec c x : usage Coin_cleared = 0 -> cache_ok c -> let '(c', r) := SpendCoin usage c x in
  cache_ok c' /\ (forall y, cache_coin c' y = with_coin (cache_coin c) x None y) /\ unspent r = cache_coin c x /\ hashBlock c' = hashBlock c.
Proof.
  intros U0 K. unfold SpendCoin. pose proof (FetchCoinNL_spec c x K) as F. destruct (FetchCoinNL usage c x) as [c' e].
  destruct F as (K' & S' & E & Hh & R). destruct e as [e|].
  - assert (Ou : old_usage usage (cacheCoins c') x = usage (coin e)) by (unfold old_usage; now rewrite E).
    destruct (flagged e FRESH) eqn:Fr.
    + destruct (cache_delete c' x (cachedCoinsUsage c' - usage (coin e)) K' ltac:(now rewrite Ou)) as [K2 S2].
      split; [exact K2|]. split; [|split; [exact R | exact Hh]]. intros y. rewrite S2. unfold with_coin.
      destruct (decide (y = x)); [exact (co_fresh c' K' x e E Fr) | apply S'].
    + destruct (cache_put c' x (mkEntry Coin_cleared (Z.lor (flags e) DIRTY)) (cachedCoinsUsage c' - usage (coin e)) K') as [K2 S2].
      * rewrite flagged_dirty. discriminate.
      * rewrite (flagged_fresh _ (coin e)). destruct e. cbn [flags coin] in *. congruence.
      * rewrite Ou. cbn [coin]. rewrite U0. ring.
      * split; [exact K2|]. split; [|split; [exact R | exact Hh]]. intros y. rewrite S2. unfold with_coin.
        destruct (decide (y = x)); [reflexivity | apply S'].
  - split; [exact K'|]. split; [|split; [exact R | exact Hh]]. intros y. unfold with_coin. destruct (decide (y = x)) as [->|]; [|apply S'].
    rewrite S', <- R. reflexivity.
Qed.

Definition unspendable (g : Z) (d : Coin) : bool := IsUnspendable (scriptPubKey (out d)) (g <=? GetHeight d).

Lemma AddCoin_spec c x d overwrite g : cache_ok c -> IsSpent d = false -> usage Coin_new = 0 ->
  (overwrite = false -> cache_coin c x = None) ->
  exists c', AddCoin usage c x d overwrite g = Ok c' /\ cache_ok c' /\ hashBlock c' = hashBlock c /\
    forall y, cache_coin c' y = (if unspendable g d then cache_coin c y else with_coin (cache_coin c) x (Some d) y).
Proof.
  intros K Sp U0 Pre. unfold AddCoin. rewrite Sp. cbn [negb assert_]. fold (unspendable g d).
  destruct (unspendable g d); [exists c; auto|]. set (e := match cacheCoins c !! x with Some e => e | None => _ end).
  assert (Bad : negb overwrite && negb (IsSpent (coin e)) = false).
  { destruct overwrite; [reflexivity|]. cbn [negb andb]. specialize (Pre eq_refl). unfold cache_coin in Pre. unfold e.
    destruct (cacheCoins c !! x) as [e'|]; [|reflexivity]. unfold unspent in Pre. now destruct (IsSpent (coin e')). }
  rewrite Bad. set (fresh := negb overwrite && negb (flagged e DIRTY)).
  set (f := Z.lor (flags e) (Z.lor DIRTY (if fresh then FRESH else 0))).
  assert (Bits : flagged (mkEntry d f) DIRTY = true /\ flagged (mkEntry d f) FRESH = flagged e FRESH || fresh).
  { rewrite (proj1 (flagged_bit _)), !(proj2 (flagged_bit _)). unfold f. cbn [flags]. rewrite !Z.lor_spec. split; [apply orb_true_r | now destruct fresh]. }
  destruct (cache_put c x (mkEntry d f) ((match cacheCoins c !! x with Some e => cachedCoinsUsage c - usage (coin e) | None => cachedCoinsUsage c end) + usage d) K) as [K2 S2].
  - rewrite (proj1 Bits). discriminate.
  - rewrite (proj2 Bits), orb_true_iff. intros [Fr|Fr].
    + unfold e in Fr. destruct (cacheCoins c !! x) as [e'|] eqn:E; [exact (co_fresh c K x e' E Fr) | discriminate].
    + unfold fresh in Fr. apply andb_true_iff in Fr as [No Cl]. apply negb_true_iff in No, Cl. specialize (Pre No). unfold cache_coin in Pre. unfold e in Cl.
      destruct (cacheCoins c !! x) as [e'|] eqn:E; [|exact Pre]. rewrite <- (co_clean c K x e' E Cl). exact Pre.
  - unfold old_usage. cbn [coin]. destruct (cacheCoins c !! x); ring.
  - eexists. split; [reflexivity|]. split; [exact K2|]. split; [reflexivity|]. intros y. rewrite S2. cbn [coin unspent]. now rewrite Sp.
Qed.

Lemma write_entry_spec c x e : cache_ok c -> (flagged e DIRTY = true -> flagged e FRESH = true -> cache_coin c x = None) ->
  exists c', write_entry usage c x e = Ok c' /\ cache_ok c' /\
    forall y, cache_coin c' y = (if flagged e DIRTY then with_coin (cache_coin c) x (unspent (Some (coin e))) y else cache_coin c y).
Proof.
  intros K Pre. unfold write_entry. destruct (flagged e DIRTY) eqn:D; [|now exists c]. specialize (Pre eq_refl).
  destruct (cacheCoins c !! x) as [us|] eqn:E.
  - assert (Ou : old_usage usage (cacheCoins c) x = usage (coin us)) by (unfold old_usage; now rewrite E).
    assert (Bad : flagged e FRESH && negb (IsSpent (coin us)) = false).
    { destruct (flagged e FRESH); [|reflexivity]. specialize (Pre eq_refl). unfold cache_coin in Pre. rewrite E in Pre. unfold unspent in Pre. now destruct (IsSpent (coin us)). }
    rewrite Bad. destruct (flagged us FRESH && IsSpent (coin e)) eqn:Er.
    + apply andb_true_iff in Er as [Fr Sp]. destruct (cache_delete c x (cachedCoinsUsage c - usage (coin us)) K ltac:(now rewrite Ou)) as [K2 S2].
      eexists. split; [reflexivity|]. split; [exact K2|]. intros y. rewrite S2. unfold with_coin. destruct (decide (y = x)); [|reflexivity].
      cbn [unspent]. rewrite Sp. exact (co_fresh c K x us E Fr).
    + destruct (cache_put c x (mkEntry (coin e) (Z.lor (flags us) DIRTY)) (cachedCoinsUsage c - usage (coin us) + usage (coin e)) K) as [K2 S2].
      * rewrite flagged_dirty. discriminate.
      * rewrite (flagged_fresh _ (coin us)). destruct us. cbn [flags coin] in *. exact (co_fresh c K x _ E).
      * now rewrite Ou.
      * eexists. split; [reflexivity|]. split; [exact K2|]. exact S2.
  - assert (Ex : cache_coin c x = view_coin (base c) x) by (unfold cache_coin; now rewrite E).
    destruct (flagged e FRESH && IsSpent (coin e)) eqn:Er.
    + apply andb_true_iff in Er as [Fr Sp]. exists c. split; [reflexivity|]. split; [exact K|]. intros y. unfold with_coin.
      destruct (decide (y = x)) as [->|]; [|reflexivity]. cbn [unspent]. rewrite Sp. exact (Pre Fr).
    + destruct (cache_put c x (mkEntry (coin e) (Z.lor DIRTY (if flagged e FRESH then FRESH else 0))) (cachedCoinsUsage c + usage (coin e)) K) as [K2 S2].
      * rewrite (proj1 (flagged_bit _)). cbn [flags]. rewrite Z.lor_spec. discriminate.
      * rewrite (proj2 (flagged_bit _)). cbn [flags]. rewrite Z.lor_spec. destruct (flagged e FRESH); [|discriminate]. intros _. rewrite <- Ex. now apply Pre.
      * unfold old_usage. rewrite E. cbn [coin]. ring.
      * eexists. split; [reflexivity|]. split; [exact K2|]. exact S2.
Qed.

Lemma after_not_in (l : CoinsBatch) (s : coin_set) x : ~ In x (map fst l) -> after l s x = s x.
Proof.
  induction l as [|[o e] l IH]; cbn [after map fst In]; intros N; [reflexivity|].
  destruct (decide (o = x)) as [->|]; [exfalso; apply N; now left|]. apply IH. tauto.
Qed.

Lemma after_ext (l : CoinsBatch) (s t : coin_set) x : s x = t x -> after l s x = after l t x.
Proof. intros E. induction l as [|[o e] l IH]; cbn [after]; [exact E|]. destruct (decide (o = x)); [now rewrite E | exact IH]. Qed.

Lemma write_entries_spec (l : CoinsBatch) : forall c, cache_ok c -> batch_ok (cache_coin c) l ->
  exists c', write_entries usage c l = Ok c' /\ cache_ok c' /\ forall y, cache_coin c' y = after l (cache_coin c) y.
Proof.
  induction l as [|[x e] l IH]; intros c K [N F]; [now exists c|]. cbn [write_entries after].
  cbn [map fst] in N. inversion N as [|? ? Nx N']; subst. apply Forall_cons_iff in F as [Fe F]. cbn [fst snd] in Fe.
  destruct (write_entry_spec c x e K Fe) as (c1 & W & K1 & S1). rewrite W. cbn [obind].
  assert (S1' : forall y, y <> x -> cache_coin c1 y = cache_coin c y).
  { intros y Ny. rewrite S1. unfold with_coin. destruct (flagged e DIRTY); [|reflexivity]. now destruct (decide (y = x)). }
  destruct (IH c1 K1) as (c2 & W2 & K2 & S2).
  - split; [exact N'|]. rewrite Stdlib.Lists.List.Forall_forall in F |- *. intros [y d] I Dd Fd. cbn [fst snd] in *. rewrite S1'.
    + exact (F (y, d) I Dd Fd).
    + intros ->. apply Nx. exact (in_map fst l (x, d) I).
  - exists c2. split; [exact W2|]. split; [exact K2|]. intros y. rewrite S2. destruct (decide (x = y)) as [<-|Ny].
    + rewrite after_not_in by exact Nx. rewrite S1. unfold with_coin. destruct (decide (x = x)); [|contradiction]. now destruct (flagged e DIRTY).
    + apply after_ext, S1'. congruence.
Qed.

Lemma set_best_ok c hash : cache_ok c -> cache_ok (SetBestBlock c hash) /\ forall x, cache_coin (SetBestBlock c hash) x = cache_coin c x.
Proof. intros [B C F U]. split; [now constructor | reflexivity]. Qed.

Lemma cache_unspent c x d : cache_ok c -> cache_coin c x = Some d -> IsSpent d = false.
Proof.
  intros K. unfold cache_coin. destruct (cacheCoins c !! x) as [e|]; [|exact (view_unspent _ _ _ (co_base c K))].
  unfold unspent. destruct (IsSpent (coin e)) eqn:S; [discriminate|]. now intros [= <-].
Qed.

Lemma BatchWrite_spec c l hash : cache_ok c -> batch_ok (cache_coin c) l ->
  exists c', BatchWrite usage c l hash = Ok (c', true) /\ cache_ok c' /\ forall x, cache_coin c' x = after l (cache_coin c) x.
Proof.
  intros K B. unfold BatchWrite. destruct (write_entries_spec l c K B) as (c' & -> & K' & S'). cbn [obind].
  destruct (set_best_ok c' hash K') as [K2 S2]. eexists. split; [reflexivity|]. split; [exact K2|]. intros x. now rewrite S2.
Qed.

(** The entries of a map as a batch. *)
Lemma after_map (m : CCoinsMap) (s : coin_set) x :
  after (map_to_list m) s x = match m !! x with Some e => if flagged e DIRTY then unspent (Some (coin e)) else s x | None => s x end.
Proof.
  assert (N : base.NoDup (map fst (map_to_list m))) by apply NoDup_fst_map_to_list.
  rewrite <- (list_to_map_to_list m) at 2. induction (map_to_list m) as [|[o e] l IH]; cbn [after list_to_map foldr fst snd]; [now rewrite lookup_empty|].
  cbn [map fst] in N. inversion N as [|? ? _ N']; subst. destruct (decide (o = x)) as [->|Ne].
  - now rewrite lookup_insert_eq.
  - rewrite lookup_insert_ne by exact Ne. exact (IH N').
Qed.

Lemma flush_batch_ok c : cache_ok c -> batch_ok (view_coin (base c)) (map_to_list (cacheCoins c)).
Proof.
  intros K. split; [apply NoDup_ListNoDup, NoDup_fst_map_to_list|]. rewrite Stdlib.Lists.List.Forall_forall. intros [x e] I _ Fr.
  apply list_elem_of_In, elem_of_map_to_list in I. exact (co_fresh c K x e I Fr).
Qed.

(** The batch of a flush makes the set of the cache out of that of the base. *)
Lemma flushed_coins c x : cache_ok c -> after (map_to_list (cacheCoins c)) (view_coin (base c)) x = cache_coin c x.
Proof.
  intros K. rewrite after_map. unfold cache_coin. destruct (cacheCoins c !! x) as [e|] eqn:Q; [|reflexivity].
  destruct (flagged e DIRTY) eqn:D; [reflexivity|]. symmetry. exact (co_clean c K x e Q D).
Qed.

Lemma Flush_spec c : cache_ok c -> view_writable (hashBlock c) ->
  exists c', Flush c = Ok (c', true) /\ cache_ok c' /\ cacheCoins c' = ∅ /\ hashBlock c' = hashBlock c /\
    (forall x, cache_coin c' x = cache_coin c x) /\ forall x, view_coin (base c') x = cache_coin c x.
Proof.
  intros K Hh. unfold Flush. destruct (law_write (base c) _ (hashBlock c) (co_base c K) (flush_batch_ok c K) Hh) as (v & -> & Iv & Ev). cbn [obind].
  assert (E : forall x, view_coin v x = cache_coin c x) by (intros x; rewrite Ev; now apply flushed_coins).
  eexists. split; [reflexivity|]. split; [|split; [reflexivity|]; split; [reflexivity|]; split; [|exact E]].
  - constructor; cbn [base cacheCoins cachedCoinsUsage]; [exact Iv | | | reflexivity]; intros x e; rewrite lookup_empty; discriminate.
  - intros x. unfold cache_coin at 1. cbn [cacheCoins base]. rewrite lookup_empty. exact (E x).
Qed.

Lemma UncacheNL_spec c x : cache_ok c -> cache_ok (UncacheNL usage c x) /\ forall y, cache_coin (UncacheNL usage c x) y = cache_coin c y.
Proof.
  intros K. unfold UncacheNL. destruct (cacheCoins c !! x) as [e|] eqn:E; [|now split]. destruct (Z.eqb_spec (flags e) 0) as [F|F]; [|now split].
  destruct (cache_delete c x (cachedCoinsUsage c - usage (coin e)) K ltac:(unfold old_usage; now rewrite E)) as [K2 S2]. split; [exact K2|].
  intros y. rewrite S2. unfold with_coin. destruct (decide (y = x)) as [->|]; [|reflexivity]. unfold cache_coin. rewrite E. symmetry.
  apply (co_clean c K x e E). unfold flagged. now rewrite F.
Qed.

Lemma Uncache_spec (l : list COutPoint) : forall c, cache_ok c -> cache_ok (Uncache usage c l) /\ forall y, cache_coin (Uncache usage c l) y = cache_coin c y.
Proof.
  induction l as [|x l IH]; intros c K; [now split|]. destruct (UncacheNL_spec c x K) as [K1 S1]. destruct (IH _ K1) as [K2 S2].
  split; [exact K2|]. intros y. unfold Uncache in *. cbn [fold_left]. now rewrite S2.
Qed.

Lemma cache_new v : view_inv v -> cache_ok (CCoinsViewCache_of v) /\ forall x, cache_coin (CCoinsViewCache_of v) x = view_coin v x.
Proof.
  intros I. split; [|intros x; unfold cache_coin; cbn [cacheCoins CCoinsViewCache_of]; now rewrite lookup_empty].
  constructor; cbn; [exact I | | | reflexivity]; intros x e; rewrite lookup_empty; discriminate.
Qed.

Lemma GetBestBlock_spec c : cache_ok c -> cache_ok (fst (GetBestBlock c)) /\ forall x, cache_coin (fst (GetBestBlock c)) x = cache_coin c x.
Proof.
  intros K. unfold GetBestBlock. destruct (hash_IsNull (hashBlock c)); [|now split]. destruct (law_best (base c) (co_base c K)) as [Iv Ev].
  destruct (view_GetBestBlock (base c)) as [v best]. cbn [fst] in *. destruct (cache_rebase c v K Iv Ev) as [K' S']. destruct (set_best_ok (set_base c v) best K') as [K2 S2]. split; [exact K2|]. intros x. rewrite <- S', <- S2. reflexivity.
Qed.

(** A cache keeps the contract of a view, so caches can be stacked. *)
#[export] Instance cache_laws : CoinsViewLaws (CCoinsViewCache V) (H := cache_view usage) := {
  view_inv := cache_ok;
  view_coin := cache_coin;
  view_writable _ := True;
  view_unspent c x d K := cache_unspent c x d K;
  law_get c x K := GetCoin_spec c x K;
  law_best c K := GetBestBlock_spec c K;
  law_write c l hash K B _ := BatchWrite_spec c l hash K B
}.
End Refinement.
End Coins.
