(* ===== verification/CoinsDB.v ===== *)
(** * The coin database (src/src/txdb.cpp, class CCoinsViewDB)

    The coins, the best block and the mark of an unfinished write are records of a key-value store
    (LevelDB), which applies a batch of changes at once or not at all. A large flush is written in
    several batches, between which the process may be stopped. *)

From stdpp Require Import gmap.
From S2P Require Import Prelude Outcome Transaction Coins.
Import Transaction Coins.

Module CoinsDB.
Local Open Scope Z_scope.
Local Open Scope outcome_scope.

(** The records under [DB_COIN], [DB_BEST_BLOCK] and [DB_HEAD_BLOCKS]. *)
Record store : Type := mkStore { db_coins : gmap COutPoint Coin; db_best : option bytes; db_heads : option (list bytes) }.

(** Changes collected in a [CDBBatch]. *)
Inductive change : Type :=
| EraseCoin (outpoint : COutPoint)
| WriteCoin (outpoint : COutPoint) (c : Coin)
| EraseBest
| WriteBest (hash : bytes)
| EraseHeads
| WriteHeads (heads : list bytes).

Definition apply_change (d : store) (x : change) : store :=
  match x with
  | EraseCoin o => mkStore (delete o (db_coins d)) (db_best d) (db_heads d)
  | WriteCoin o c => mkStore (<[o := c]> (db_coins d)) (db_best d) (db_heads d)
  | EraseBest => mkStore (db_coins d) None (db_heads d)
  | WriteBest hash => mkStore (db_coins d) (Some hash) (db_heads d)
  | EraseHeads => mkStore (db_coins d) (db_best d) None
  | WriteHeads heads => mkStore (db_coins d) (db_best d) (Some heads)
  end.

(** [db.WriteBatch(batch)] *)
Definition WriteBatch (d : store) (batch : list change) : store := fold_left apply_change batch d.

Definition db_GetCoin (d : store) (outpoint : COutPoint) : option Coin := db_coins d !! outpoint.
Definition db_HaveCoin (d : store) (outpoint : COutPoint) : bool := match db_coins d !! outpoint with Some _ => true | None => false end.
Definition db_GetBestBlock (d : store) : bytes := match db_best d with Some hash => hash | None => repeat 0 32 end.
Definition db_GetHeadBlocks (d : store) : list bytes := match db_heads d with Some heads => heads | None => [] end.

Section Write.
(** [batch.SizeEstimate() > batch_size] *)
Context (full : list change -> bool).

(** The loop over the entries: the batches written so far and the one being filled. *)
Fixpoint fill (mapCoins : CoinsBatch) (done : list (list change)) (batch : list change) : list (list change) * list change :=
  match mapCoins with
  | [] => (done, batch)
  | (o, it) :: l =>
      let batch := if flagged it DIRTY then batch ++ [if IsSpent (coin it) then EraseCoin o else WriteCoin o (coin it)] else batch in
      if full batch then fill l (done ++ [batch]) [] else fill l done batch
  end.

(** The batches of [BatchWrite], in order. *)
Definition batches (d : store) (mapCoins : CoinsBatch) (hashBlock : bytes) : outcome (list (list change)) :=
  assert_ (negb (hash_IsNull hashBlock)) (
    let best := db_GetBestBlock d in
    let* old_tip :=
      if hash_IsNull best then
        match db_GetHeadBlocks d with
        | [h0; h1] => assert_ (if list_eq_dec Z.eq_dec h0 hashBlock then true else false) (Ok h1)
        | _ => Ok best
        end
      else Ok best in
    let '(done, batch) := fill mapCoins [] [EraseBest; WriteHeads [hashBlock; old_tip]] in
    Ok (done ++ [batch ++ [EraseHeads; WriteBest hashBlock]])).

Definition db_BatchWrite (d : store) (mapCoins : CoinsBatch) (hashBlock : bytes) : outcome (store * bool) :=
  let* l := batches d mapCoins hashBlock in Ok (fold_left WriteBatch l d, true).

#[export] Instance db_view : CCoinsView store := {
  view_GetCoin d o := (d, db_GetCoin d o);
  view_GetBestBlock d := (d, db_GetBestBlock d);
  view_BatchWrite := db_BatchWrite
}.

(** ** Lemmas *)

(** The changes an entry list makes. *)
Definition changes (mapCoins : CoinsBatch) : list change :=
  flat_map (fun oe => if flagged (snd oe) DIRTY then [if IsSpent (coin (snd oe)) then EraseCoin (fst oe) else WriteCoin (fst oe) (coin (snd oe))] else []) mapCoins.

Lemma fill_concat (l : CoinsBatch) : forall done batch, let '(done', batch') := fill l done batch in
  concat done' ++ batch' = concat done ++ batch ++ changes l /\ exists more, done' = done ++ more.
Proof.
  induction l as [|[o it] l IH]; intros done batch; cbn [fill changes flat_map fst snd].
  - split; [now rewrite app_nil_r | exists []; now rewrite app_nil_r].
  - fold (changes l). set (batch1 := if flagged it DIRTY then _ else _).
    assert (E1 : batch ++ (if flagged it DIRTY then [if IsSpent (coin it) then EraseCoin o else WriteCoin o (coin it)] else []) ++ changes l = batch1 ++ changes l)
      by (unfold batch1; destruct (flagged it DIRTY); [now rewrite app_assoc | reflexivity]).
    rewrite E1. destruct (full batch1).
    + specialize (IH (done ++ [batch1]) []). destruct (fill l (done ++ [batch1]) []) as [done' batch']. destruct IH as [IH (more & ->)].
      split; [|exists ([batch1] ++ more); now rewrite <- app_assoc]. rewrite IH, concat_app. cbn [concat]. now rewrite app_nil_r, <- !app_assoc.
    + exact (IH done batch1).
Qed.

Lemma fold_concat (l : list (list change)) : forall d, fold_left WriteBatch l d = WriteBatch d (concat l).
Proof. induction l as [|b l IH]; intros d; [reflexivity|]. cbn [fold_left concat]. rewrite IH. unfold WriteBatch. now rewrite fold_left_app. Qed.

(** Coin changes leave the marks, and each concerns one coin. *)
Lemma apply_changes (l : CoinsBatch) : forall d, NoDup (map fst l) -> let d' := WriteBatch d (changes l) in
  db_best d' = db_best d /\ db_heads d' = db_heads d /\
  forall x, unspent (db_coins d' !! x) = after l (fun y => unspent (db_coins d !! y)) x.
Proof.
  induction l as [|[o it] l IH]; intros d N; cbv zeta; [now repeat split|].
  cbn [map fst] in N. inversion N as [|? ? No N']; subst. cbn [changes flat_map fst snd]. fold (changes l).
  destruct (flagged it DIRTY) eqn:D.
  - set (x1 := if IsSpent (coin it) then _ else _). change (WriteBatch d ([x1] ++ changes l)) with (WriteBatch (apply_change d x1) (changes l)).
    destruct (IH (apply_change d x1) N') as (B & Hd & C). split; [rewrite B; unfold x1; now destruct (IsSpent (coin it))|].
    split; [rewrite Hd; unfold x1; now destruct (IsSpent (coin it))|]. intros x. rewrite C. cbn [after]. destruct (decide (o = x)) as [<-|Ne].
    + rewrite after_not_in by exact No. rewrite D. unfold x1, unspent. destruct (IsSpent (coin it)) eqn:S; cbn [apply_change db_coins].
      * now rewrite lookup_delete_eq.
      * rewrite lookup_insert_eq. now rewrite S.
    + apply after_ext. f_equal. unfold x1. destruct (IsSpent (coin it)); cbn [apply_change db_coins]; [now rewrite lookup_delete_ne | now rewrite lookup_insert_ne].
  - cbn [app]. destruct (IH d N') as (B & Hd & C). split; [exact B|]. split; [exact Hd|]. intros x. rewrite C. cbn [after].
    destruct (decide (o = x)) as [<-|Ne]; [|reflexivity]. rewrite after_not_in by exact No. now rewrite D.
Qed.

(** Only coins that are not spent are stored. *)
Definition all_unspent (d : store) : Prop := forall o c, db_coins d !! o = Some c -> IsSpent c = false.

Lemma changes_unspent (l : CoinsBatch) : forall d, all_unspent d -> all_unspent (WriteBatch d (changes l)).
Proof.
  induction l as [|[o it] l IH]; intros d A; [exact A|]. cbn [changes flat_map fst snd]. fold (changes l).
  destruct (flagged it DIRTY); [|exact (IH d A)].
  change (WriteBatch d ([?x] ++ changes l)) with (WriteBatch (apply_change d x) (changes l)). apply IH. intros y c E.
  destruct (IsSpent (coin it)) eqn:S; cbn [apply_change db_coins] in E.
  - apply lookup_delete_Some in E as [_ E]. exact (A y c E).
  - apply lookup_insert_Some in E as [[<- <-]|[_ E]]; [exact S | exact (A y c E)].
Qed.

Lemma unspent_id (d : store) (x : COutPoint) : all_unspent d -> unspent (db_coins d !! x) = db_coins d !! x.
Proof. intros A. destruct (db_coins d !! x) as [c|] eqn:E; [|reflexivity]. cbn. now rewrite (A x c E). Qed.

(** The state of the database between two flushes. *)
Definition consistent (d : store) : Prop := all_unspent d /\ db_heads d = None.

Definition marked (d : store) (hash old : bytes) : store := WriteBatch d [EraseBest; WriteHeads [hash; old]].

Definition writing (d : store) (hash old : bytes) : Prop :=
  (consistent d /\ old = db_GetBestBlock d) \/ (all_unspent d /\ db_best d = None /\ db_heads d = Some [hash; old]).

Lemma batches_spec (d : store) (l : CoinsBatch) (hash old : bytes) : writing d hash old -> hash_IsNull hash = false ->
  let '(done, batch) := fill l [] [EraseBest; WriteHeads [hash; old]] in
  batches d l hash = Ok (done ++ [batch ++ [EraseHeads; WriteBest hash]]).
Proof.
  intros W Hh. unfold batches. rewrite Hh. cbn [negb assert_]. set (old_tip := if hash_IsNull (db_GetBestBlock d) then _ else _).
  assert (E : old_tip = Ok old).
  { unfold old_tip, db_GetHeadBlocks. destruct W as [[[_ H] ->]|(_ & B & H)]; rewrite H.
    - now destruct (hash_IsNull (db_GetBestBlock d)).
    - unfold db_GetBestBlock. rewrite B. cbn. now destruct (list_eq_dec Z.eq_dec hash hash). }
  rewrite E. cbn [obind]. now destruct (fill l [] _).
Qed.

Lemma db_BatchWrite_spec (d : store) (l : CoinsBatch) (hash old : bytes) :
  writing d hash old -> hash_IsNull hash = false -> NoDup (map fst l) ->
  exists d', db_BatchWrite d l hash = Ok (d', true) /\ consistent d' /\ db_best d' = Some hash /\
    forall x, db_coins d' !! x = after l (fun y => db_coins d !! y) x.
Proof.
  intros W Hh N. assert (A : all_unspent d) by (destruct W as [[[A _] _]|(A & _)]; exact A).
  pose proof (batches_spec d l hash old W Hh) as B. pose proof (fill_concat l [] [EraseBest; WriteHeads [hash; old]]) as F.
  unfold db_BatchWrite. destruct (fill l [] [EraseBest; WriteHeads [hash; old]]) as [done batch]. rewrite B. cbn [obind]. destruct F as [F _].
  eexists. split; [reflexivity|]. rewrite fold_concat, concat_app. cbn [concat]. rewrite app_nil_r, app_assoc, F. cbn [concat app].
  assert (E : WriteBatch d (EraseBest :: WriteHeads [hash; old] :: changes l ++ [EraseHeads; WriteBest hash]) =
              apply_change (apply_change (WriteBatch (marked d hash old) (changes l)) EraseHeads) (WriteBest hash))
    by (unfold marked, WriteBatch; cbn [fold_left]; now rewrite fold_left_app). rewrite E.
  assert (Am : all_unspent (marked d hash old)) by exact A. pose proof (changes_unspent l _ Am) as Ac.
  destruct (apply_changes l (marked d hash old) N) as (_ & _ & C). split; [split; [exact Ac | reflexivity]|]. split; [reflexivity|].
  intros x. cbn [apply_change db_coins]. rewrite <- (unspent_id _ x Ac), C. apply after_ext. exact (unspent_id d x A).
Qed.

(** The database keeps the contract of a view. *)
#[export, refine] Instance db_laws : CoinsViewLaws store := {
  view_inv := consistent;
  view_coin d x := db_coins d !! x;
  view_writable hash := hash_IsNull hash = false
}.
Proof.
  - intros d o c [A _]. exact (A o c).
  - intros d o [A H]. split; [now split|]. split; [reflexivity | exact (unspent_id d o A)].
  - now split.
  - intros d l hash C [N _] Hh. destruct (db_BatchWrite_spec d l hash (db_GetBestBlock d) (or_introl (conj C eq_refl)) Hh N) as (d' & E & C' & _ & S).
    now exists d'.
Defined.

(** A database that is only read does, whatever its marks. *)
Definition frozen_laws (d0 : store) : CoinsViewLaws store.
Proof.
  refine {| view_inv := fun d => d = d0 /\ all_unspent d; view_coin := fun d x => db_coins d !! x; view_writable := fun _ => False |}.
  - intros d o c [_ A]. exact (A o c).
  - intros d o [E A]. split; [now split|]. split; [reflexivity | exact (unspent_id d o A)].
  - now split.
  - intros d l h _ _ [].
Defined.

(** ** Crashes between batches *)

Lemma fill_first (l : CoinsBatch) : forall batch done last, fill l [] batch = (done, last) ->
  match done with [] => True | b :: _ => exists t, b = batch ++ t end.
Proof.
  assert (G : forall l done0 batch, done0 <> [] -> forall done last, fill l done0 batch = (done, last) -> hd [] done = hd [] done0 /\ done <> []).
  { clear l. induction l as [|[o it] l IH]; intros done0 batch N done last E; cbn [fill] in E; [now injection E as <- <-|].
    destruct (full _); [|exact (IH _ _ N _ _ E)]. destruct (IH _ _ (fun X => app_cons_not_nil _ _ _ (eq_sym X)) _ _ E) as [H1 H2].
    split; [|exact H2]. rewrite H1. now destruct done0. }
  induction l as [|[o it] l IH]; intros batch done last E; cbn [fill] in E; [now injection E as <- <-|].
  set (b1 := if flagged it DIRTY then _ else _) in E. assert (B1 : exists t, b1 = batch ++ t)
    by (unfold b1; destruct (flagged it DIRTY); [now eexists | exists []; now rewrite app_nil_r]). destruct B1 as [t1 B1].
  destruct (full b1).
  - destruct (G l ([] ++ [b1]) [] ltac:(discriminate) done last E) as [H1 H2]. destruct done as [|b done]; [contradiction|]. cbn in H1. subst b. now exists t1.
  - specialize (IH b1 done last E). destruct done as [|b done]; [exact I|]. destruct IH as [t ->]. exists (t1 ++ t). now rewrite B1, <- app_assoc.
Qed.

(** A prefix of the changes is the changes of a prefix of the entries. *)
Lemma changes_prefix (l : CoinsBatch) : forall p q, p ++ q = changes l -> exists l1 l2, l = l1 ++ l2 /\ p = changes l1.
Proof.
  induction l as [|[o it] l IH]; intros p q E.
  - apply app_eq_nil in E as [-> _]. now exists [], [].
  - cbn [changes flat_map fst snd] in E. fold (changes l) in E. destruct (flagged it DIRTY) eqn:D.
    + destruct p as [|x p]; [now exists [], ((o, it) :: l)|]. cbn [app] in E. injection E as -> E.
      destruct (IH p q E) as (l1 & l2 & -> & ->). exists ((o, it) :: l1), l2. split; [reflexivity|]. cbn [changes flat_map fst snd]. now rewrite D.
    + destruct (IH p q E) as (l1 & l2 & -> & ->). exists ((o, it) :: l1), l2. split; [reflexivity|]. cbn [changes flat_map fst snd]. now rewrite D.
Qed.

Lemma after_app (l1 l2 : CoinsBatch) (s : coin_set) (x : COutPoint) :
  (after l1 s x = s x \/ after l1 s x = after (l1 ++ l2) s x) /\ after (l1 ++ l2) (after l1 s) x = after (l1 ++ l2) s x.
Proof.
  split.
  - induction l1 as [|[o e] l1 IH]; cbn [after app]; [now left|]. destruct (decide (o = x)); [now right | exact IH].
  - induction l1 as [|[o e] l1 IH]; cbn [after app]; [reflexivity|]. destruct (decide (o = x)) as [->|N].
    + destruct (flagged e DIRTY); [reflexivity|]. now destruct (decide (x = x)).
    + rewrite <- IH. apply after_ext. now destruct (decide (o = x)).
Qed.

(** The state after some but not all batches. *)
Lemma crash_state (d : store) (l : CoinsBatch) (hash old : bytes) (bs : list (list change)) (k : nat) :
  writing d hash old -> hash_IsNull hash = false -> NoDup (map fst l) -> batches d l hash = Ok bs -> (0 < k < length bs)%nat ->
  let dk := fold_left WriteBatch (firstn k bs) d in
  all_unspent dk /\ db_best dk = None /\ db_heads dk = Some [hash; old] /\
  exists l1 l2, l = l1 ++ l2 /\ forall x, db_coins dk !! x = after l1 (fun y => db_coins d !! y) x.
Proof.
  intros W Hh N B Hk dk. pose proof (batches_spec d l hash old W Hh) as B'. assert (A : all_unspent d) by (destruct W as [[[A _] _]|(A & _)]; exact A).
  pose proof (fill_concat l [] [EraseBest; WriteHeads [hash; old]]) as F. pose proof (fill_first l [EraseBest; WriteHeads [hash; old]]) as G.
  destruct (fill l [] [EraseBest; WriteHeads [hash; old]]) as [done batch]. specialize (G done batch eq_refl).
  rewrite B in B'. apply Ok_inj in B'. subst bs. rewrite length_app in Hk. cbn [length] in Hk. destruct F as [F _]. cbn [concat app] in F.
  assert (Ek : firstn k (done ++ [batch ++ [EraseHeads; WriteBest hash]]) = firstn k done) by (rewrite firstn_app; replace (k - length done)%nat with 0%nat by lia; apply app_nil_r).
  destruct done as [|b0 done]; [cbn in Hk; lia|]. destruct G as [t0 ->].
  destruct k as [|k]; [lia|]. assert (P : exists p q, concat (firstn (S k) (([EraseBest; WriteHeads [hash; old]] ++ t0) :: done)) = [EraseBest; WriteHeads [hash; old]] ++ p /\ p ++ q = changes l).
  { exists (t0 ++ concat (firstn k done)), (concat (skipn k done) ++ batch). split; [cbn [firstn concat]; now rewrite <- app_assoc|].
    cbn [concat] in F. rewrite <- (firstn_skipn k done), concat_app in F at 1. rewrite <- !app_assoc in F. apply (app_inv_head [EraseBest; WriteHeads [hash; old]]) in F.
    now rewrite <- !app_assoc. }
  destruct P as (p & q & Ep & Eq). destruct (changes_prefix l p q Eq) as (l1 & l2 & -> & ->).
  assert (Ed : dk = WriteBatch (marked d hash old) (changes l1)) by (unfold dk; rewrite Ek, fold_concat, Ep; reflexivity).
  assert (N1 : NoDup (map fst l1)) by (rewrite map_app in N; exact (NoDup_app_remove_r _ _ N)).
  assert (Ac : all_unspent dk) by (rewrite Ed; apply changes_unspent; exact A). split; [exact Ac|].
  destruct (apply_changes l1 (marked d hash old) N1) as (Bm & Hm & Cm). rewrite <- Ed in Bm, Hm, Cm.
  split; [exact Bm|]. split; [exact Hm|]. exists l1, l2. split; [reflexivity|]. intros x. rewrite <- (unspent_id _ x Ac), Cm. apply after_ext. exact (unspent_id d x A).
Qed.
End Write.

(** ** Properties *)

(** C16: a coin cache is the set of coins it stands for. In front of any view that keeps the contract,
    another cache included, reading gives the coin of the set and leaves the set, spending removes
    exactly that coin and gives it back, adding a coin that is not there, or over one that may be,
    sets exactly that coin unless its script can never be spent, dropping clean entries changes
    nothing, and flushing leaves the view behind with exactly the set and the cache empty; the
    count of memory stays exact. *)
Theorem coins_cache_correct {V : Type} `{L : CoinsViewLaws V} (usage : Coin -> Z) (c : CCoinsViewCache V) :
  usage Coin_new = 0 -> cache_ok usage c ->
  (forall x, let '(c', r) := GetCoin usage c x in
     cache_ok usage c' /\ (forall y, cache_coin c' y = cache_coin c y) /\ unspent r = cache_coin c x) /\
  (forall x, let '(c', r) := HaveCoin usage c x in
     cache_ok usage c' /\ (forall y, cache_coin c' y = cache_coin c y) /\ r = match cache_coin c x with Some _ => true | None => false end) /\
  (forall x, let '(c', r) := SpendCoin usage c x in
     cache_ok usage c' /\ (forall y, cache_coin c' y = with_coin (cache_coin c) x None y) /\ unspent r = cache_coin c x /\ hashBlock c' = hashBlock c) /\
  (forall x d overwrite g, IsSpent d = false -> (overwrite = false -> cache_coin c x = None) ->
     exists c', AddCoin usage c x d overwrite g = Ok c' /\ cache_ok usage c' /\ hashBlock c' = hashBlock c /\
       forall y, cache_coin c' y = (if unspendable g d then cache_coin c y else with_coin (cache_coin c) x (Some d) y)) /\
  (forall l, cache_ok usage (Uncache usage c l) /\ forall y, cache_coin (Uncache usage c l) y = cache_coin c y) /\
  (view_writable (hashBlock c) ->
     exists c', Flush c = Ok (c', true) /\ cache_ok usage c' /\ cacheCoins c' = ∅ /\ hashBlock c' = hashBlock c /\
       (forall x, cache_coin c' x = cache_coin c x) /\ forall x, view_coin (base c') x = cache_coin c x).
Proof.
  intros U0 K. split; [intros x; exact (GetCoin_spec usage c x K)|]. split; [intros x; exact (HaveCoin_spec usage c x K)|].
  split; [intros x; exact (SpendCoin_spec usage c x U0 K)|]. split; [intros x d o g Sp Pre; exact (AddCoin_spec usage c x d o g K Sp U0 Pre)|].
  split; [intros l; exact (Uncache_spec usage l c K) | exact (Flush_spec usage c K)].
Qed.

Definition no_split : list change -> bool := fun _ => false.
Definition sample_store : store := mkStore {[ mkOutPoint (repeat 1 32) 0 := Coin_of (mkTxOut 50 []) 7 true ]} (Some (repeat 9 32)) None.
Lemma sample_consistent : consistent sample_store.
Proof. split; [|reflexivity]. intros o c E. cbn in E. apply lookup_singleton_Some in E as [_ <-]. reflexivity. Qed.

Lemma coins_cache_correct_witness :
  let c := CCoinsViewCache_of (V := CCoinsViewCache store) (CCoinsViewCache_of sample_store) in
  let '(c', r) := SpendCoin (H := cache_view (H := db_view no_split) (fun d => len (scriptPubKey (out d)))) (fun d => len (scriptPubKey (out d))) c (mkOutPoint (repeat 1 32) 0) in
  unspent r = Some (Coin_of (mkTxOut 50 []) 7 true).
Proof.
  set (usage := fun d => len (scriptPubKey (out d))). intros c.
  pose proof (@cache_new _ (db_view no_split) (db_laws no_split) usage sample_store sample_consistent) as [K1 _].
  pose proof (@cache_new _ _ (@cache_laws _ (db_view no_split) (db_laws no_split) usage) usage (CCoinsViewCache_of sample_store) K1) as [K2 E2].
  pose proof (@coins_cache_correct _ _ (@cache_laws _ (db_view no_split) (db_laws no_split) usage) usage c eq_refl K2) as (_ & _ & S & _).
  specialize (S (mkOutPoint (repeat 1 32) 0)). destruct (SpendCoin _ _ _) as [c' r]. destruct S as (_ & _ & R & _). rewrite R. reflexivity.
Defined.

(** C17: a flush survives a crash. However the flush is split into batches, and wherever the process
    stops between two of them, the database is as before the flush, or complete, or it is marked
    with the new and the old best block and every coin is as before or as after the flush; and
    writing the same flush again from such a state completes it. *)
Theorem coins_db_crash_safe (full : list change -> bool) (d : store) (l : CoinsBatch) (hash : bytes) :
  consistent d -> hash_IsNull hash = false -> NoDup (map fst l) ->
  exists bs, batches full d l hash = Ok bs /\
  (forall k, (0 < k < length bs)%nat -> let dk := fold_left WriteBatch (firstn k bs) d in
     db_best dk = None /\ db_heads dk = Some [hash; db_GetBestBlock d] /\
     (forall x, db_coins dk !! x = db_coins d !! x \/ db_coins dk !! x = after l (fun y => db_coins d !! y) x) /\
     exists d', db_BatchWrite full dk l hash = Ok (d', true) /\ consistent d' /\ db_best d' = Some hash /\
       forall x, db_coins d' !! x = after l (fun y => db_coins d !! y) x) /\
  (let d' := fold_left WriteBatch bs d in consistent d' /\ db_best d' = Some hash /\
     forall x, db_coins d' !! x = after l (fun y => db_coins d !! y) x).
Proof.
  intros C Hh N. pose proof (batches_spec full d l hash _ (or_introl (conj C eq_refl)) Hh) as B. destruct (fill full l [] _) as [done batch].
  eexists. split; [exact B|]. split.
  - intros k Hk dk. destruct (crash_state full d l hash _ _ k (or_introl (conj C eq_refl)) Hh N B Hk) as (A & Eb & Eh & l1 & l2 & -> & S). fold dk in A, Eb, Eh, S.
    split; [exact Eb|]. split; [exact Eh|]. split; [intros x; rewrite S; exact (proj1 (after_app l1 l2 _ x))|].
    destruct (db_BatchWrite_spec full dk (l1 ++ l2) hash (db_GetBestBlock d) (or_intror (conj A (conj Eb Eh))) Hh N) as (d' & W & C' & B' & S').
    exists d'. split; [exact W|]. split; [exact C'|]. split; [exact B'|]. intros x. rewrite S', <- (proj2 (after_app l1 l2 (fun y => db_coins d !! y) x)). apply after_ext, S.
  - destruct (db_BatchWrite_spec full d l hash _ (or_introl (conj C eq_refl)) Hh N) as (d' & W & R). unfold db_BatchWrite in W. rewrite B in W.
    cbn [obind] in W. injection W as <-. exact R.
Qed.

Lemma coins_db_crash_safe_witness : exists bs,
  batches (fun _ => true) sample_store [(mkOutPoint (repeat 1 32) 0, mkEntry Coin_cleared DIRTY)] (repeat 8 32) = Ok bs /\ length bs = 2%nat /\
  db_heads (fold_left WriteBatch (firstn 1 bs) sample_store) = Some [repeat 8 32; repeat 9 32].
Proof.
  destruct (coins_db_crash_safe (fun _ => true) sample_store [(mkOutPoint (repeat 1 32) 0, mkEntry Coin_cleared DIRTY)] (repeat 8 32)) as (bs & B & K & _);
    [exact sample_consistent | reflexivity | repeat constructor; intros []|].
  exists bs. split; [exact B|]. assert (Lb : length bs = 2%nat) by (vm_compute in B; injection B as <-; reflexivity). split; [exact Lb|].
  apply (K 1%nat). rewrite Lb. lia.
Defined.
End CoinsDB.
