(* ===== verification/Undo.v ===== *)
(** * Connecting and disconnecting blocks (src/src/validation.cpp, src/src/undo.h, src/src/coins.cpp)

    What a block does to the set of coins, the undo data it leaves, and how the undo data takes the
    block back. *)

From stdpp Require Import gmap.
From S2P Require Import Prelude Outcome Script Serialize Amount Transaction Block Coins CoinsDB.
Import Script Amount Transaction Block Coins CoinsDB.

Module Undo.
Local Open Scope Z_scope.
Local Open Scope outcome_scope.

(** The undo data: the coins a transaction spent, in the order of its inputs. *)
Definition CTxUndo : Type := list Coin.
Definition CBlockUndo : Type := list CTxUndo.

Inductive DisconnectResult : Type := DISCONNECT_OK | DISCONNECT_UNCLEAN | DISCONNECT_FAILED.

Definition GetId (tx : CTransaction) : outcome bytes := or_throw std_exception (ComputeHash tx).

Section View.
Context {V : Type} `{CCoinsView V} (usage : Coin -> Z).
(** [GetGenesisActivationHeight()] *)
Context (genesis : Z).
(** The coins that the database cursor finds for an identifier, in its order. *)
Context (cursor_coins : CCoinsViewCache V -> bytes -> list Coin).
(** [shutdownToken.IsCanceled()] before the transaction at an index *)
Context (canceled : nat -> bool).
Implicit Type c : CCoinsViewCache V.

(** The loop of [AddCoins] from the output at the index [i] on. *)
Fixpoint add_outputs c (id : bytes) (nHeight : Z) (fCoinbase check : bool) (i : nat) (outs : list CTxOut) : outcome (CCoinsViewCache V) :=
  match outs with
  | [] => Ok c
  | o :: outs =>
      let outpoint := mkOutPoint id (u32 (Z.of_nat i)) in
      let '(c, overwrite) := if check then HaveCoin usage c outpoint else (c, fCoinbase) in
      let* c := AddCoin usage c outpoint (Coin_of o (u32 nHeight) fCoinbase) overwrite genesis in
      add_outputs c id nHeight fCoinbase check (S i) outs
  end.

Definition AddCoins c (tx : CTransaction) (nHeight : Z) (check : bool) : outcome (CCoinsViewCache V) :=
  let* id := GetId tx in add_outputs c id nHeight (IsCoinBase tx) check 0 (vout tx).

(** The loop of [UpdateCoins] over the inputs. *)
Fixpoint spend_inputs c (txundo : CTxUndo) (ins : list CTxIn) : outcome (CCoinsViewCache V * CTxUndo) :=
  match ins with
  | [] => Ok (c, txundo)
  | i :: ins =>
      let '(c, moved) := SpendCoin usage c (prevout i) in
      let* d := or_abort moved in
      spend_inputs c (txundo ++ [d]) ins
  end.

Definition UpdateCoins c (tx : CTransaction) (nHeight : Z) : outcome (CCoinsViewCache V * CTxUndo) :=
  let* r := if negb (IsCoinBase tx) then spend_inputs c [] (vin tx) else Ok (c, []) in
  let '(c, txundo) := r in
  let* c := AddCoins c tx nHeight false in
  Ok (c, txundo).

(** The part of the loop of [ConnectBlock] that changes the coins: the undo data of all
    transactions but the first is kept. *)
Fixpoint connect_from c (nHeight : Z) (first : bool) (vtx : list CTransaction) : outcome (CCoinsViewCache V * CBlockUndo) :=
  match vtx with
  | [] => Ok (c, [])
  | tx :: vtx =>
      let* r := UpdateCoins c tx nHeight in
      let '(c, txundo) := r in
      let* r := connect_from c nHeight false vtx in
      let '(c, blockundo) := r in
      Ok (c, if first then blockundo else txundo :: blockundo)
  end.
Definition ConnectCoins c (block : CBlock) (nHeight : Z) : outcome (CCoinsViewCache V * CBlockUndo) :=
  connect_from c nHeight true (vtx block).

Definition MAX_VIEW_ITERATIONS : nat := 100.

(** The first coin of a transaction that is not spent: of the first outputs, then by the cursor. *)
Fixpoint access_outputs (k : nat) c (id : bytes) (n : Z) : CCoinsViewCache V * option Coin :=
  match k with
  | O => (c, None)
  | S k =>
      let '(c, alternate) := AccessCoin usage c (mkOutPoint id n) in
      if IsSpent alternate then access_outputs k c id (n + 1) else (c, Some alternate)
  end.
Definition AccessByTxid c (id : bytes) : CCoinsViewCache V * Coin :=
  let '(c, found) := access_outputs MAX_VIEW_ITERATIONS c id 0 in
  match found with
  | Some d => (c, d)
  | None =>
      match find (fun d => negb (IsSpent d)) (cursor_coins c id) with
      | Some d => (c, d)
      | None => (c, Coin_new)
      end
  end.

Definition UndoCoinSpend c (undo : Coin) (outpoint : COutPoint) : outcome (CCoinsViewCache V * DisconnectResult) :=
  let '(c, have) := HaveCoin usage c outpoint in
  let fClean := negb have in
  let '(c, undo, failed) :=
    if GetHeight undo =? 0 then
      let '(c, alternate) := AccessByTxid c (txid outpoint) in
      if IsSpent alternate then (c, undo, true)
      else (c, Coin_of (out undo) (GetHeight alternate) (coin_IsCoinBase alternate), false)
    else (c, undo, false) in
  if failed then Ok (c, DISCONNECT_FAILED)
  else
    let* c := AddCoin usage c outpoint undo (negb fClean) genesis in
    Ok (c, if fClean then DISCONNECT_OK else DISCONNECT_UNCLEAN).

Definition MEMPOOL_HEIGHT : Z := 0x7fffffff.
Definition IsGenesisEnabled (nHeight : Z) : outcome bool :=
  if nHeight =? MEMPOOL_HEIGHT then Throw std_exception else Ok (genesis <=? u64 nHeight).

Definition txout_eqb (a b : CTxOut) : bool :=
  (nValue a =? nValue b) && (if list_eq_dec Z.eq_dec (scriptPubKey a) (scriptPubKey b) then true else false).

(** The outputs of a transaction are taken out of the set. *)
Fixpoint remove_outputs c (id : bytes) (nHeight : Z) (fClean : bool) (o : nat) (outs : list CTxOut) : outcome (CCoinsViewCache V * bool) :=
  match outs with
  | [] => Ok (c, fClean)
  | x :: outs =>
      let* enabled := IsGenesisEnabled nHeight in
      if IsUnspendable (scriptPubKey x) enabled then remove_outputs c id nHeight fClean (S o) outs
      else
        let '(c, moved) := SpendCoin usage c (mkOutPoint id (u32 (Z.of_nat o))) in
        let same := match moved with Some d => txout_eqb x (out d) | None => false end in
        remove_outputs c id nHeight (fClean && same) (S o) outs
  end.

(** The inputs are put back from the last to the first. *)
Fixpoint restore_inputs c (fClean : bool) (l : list (CTxIn * Coin)) : outcome (CCoinsViewCache V * option bool) :=
  match l with
  | [] => Ok (c, Some fClean)
  | (i, undo) :: l =>
      let* r := UndoCoinSpend c undo (prevout i) in
      let '(c, res) := r in
      match res with
      | DISCONNECT_FAILED => Ok (c, None)
      | DISCONNECT_UNCLEAN => restore_inputs c false l
      | DISCONNECT_OK => restore_inputs c fClean l
      end
  end.

(** [while (i-- > 0)]; the result is nothing when the function returns [DISCONNECT_FAILED]. *)
Fixpoint undo_from (i : nat) c (nHeight : Z) (blockUndo : CBlockUndo) (vtx : list CTransaction) (fClean : bool)
  : outcome (CCoinsViewCache V * option bool) :=
  match i with
  | O => Ok (c, Some fClean)
  | S i =>
      if canceled i then Ok (c, None)
      else
        let* tx := or_abort (nth_error vtx i) in
        let* id := GetId tx in
        let* r := remove_outputs c id nHeight fClean 0 (vout tx) in
        let '(c, fClean) := r in
        match i with
        | O => undo_from i c nHeight blockUndo vtx fClean
        | S j =>
            let* txundo := or_abort (nth_error blockUndo j) in
            if negb (length txundo =? length (vin tx))%nat then Ok (c, None)
            else
              let* r := restore_inputs c fClean (rev (combine (vin tx) txundo)) in
              let '(c, fClean) := r in
              match fClean with
              | None => Ok (c, None)
              | Some fClean => undo_from i c nHeight blockUndo vtx fClean
              end
        end
  end.

Definition ApplyBlockUndo c (blockUndo : CBlockUndo) (block : CBlock) (nHeight : Z) : outcome (CCoinsViewCache V * DisconnectResult) :=
  if negb (length blockUndo + 1 =? length (vtx block))%nat then Ok (c, DISCONNECT_FAILED)
  else
    let* r := undo_from (length (vtx block)) c nHeight blockUndo (vtx block) true in
    let '(c, fClean) := r in
    match fClean with
    | None => Ok (c, DISCONNECT_FAILED)
    | Some fClean =>
        Ok (SetBestBlock c (hashPrevBlock (header block)), if fClean then DISCONNECT_OK else DISCONNECT_UNCLEAN)
    end.
End View.

(** ** What a transaction does to the set *)

Definition outpoint_at (id : bytes) (i : nat) : COutPoint := mkOutPoint id (u32 (Z.of_nat i)).

(** The coin an outpoint refers to among the outputs from the index [i] on, unless it can never be spent. *)
Fixpoint created (genesis : Z) (id : bytes) (nHeight : Z) (cb : bool) (i : nat) (outs : list CTxOut) (x : COutPoint) : option Coin :=
  match outs with
  | [] => None
  | o :: outs =>
      if decide (x = outpoint_at id i) then
        let d := Coin_of o (u32 nHeight) cb in if unspendable genesis d then None else Some d
      else created genesis id nHeight cb (S i) outs x
  end.

#[local] Instance In_decision (x : COutPoint) (l : list COutPoint) : Decision (In x l) := in_dec COutPoint_eq_dec x l.

Definition without (s : coin_set) (ins : list CTxIn) : coin_set :=
  fun x => if decide (In x (map prevout ins)) then None else s x.

Definition with_created (s : coin_set) (f : COutPoint -> option Coin) : coin_set :=
  fun x => match f x with Some d => Some d | None => s x end.

(** A transaction that may be connected: it has an identifier, its outputs are real and not in the
    set, and, unless it is a coinbase, its inputs are different outpoints of the set. *)
Record may_connect (s : coin_set) (tx : CTransaction) (id : bytes) : Prop := {
  mc_id : ComputeHash tx = Some id;
  mc_outs : Forall (fun o => nValue o <> -1) (vout tx);
  mc_count : len (vout tx) < 2 ^ 32;
  mc_fresh i : (i < length (vout tx))%nat -> s (outpoint_at id i) = None;
  mc_ins : IsCoinBase tx = false -> NoDup (map prevout (vin tx)) /\ Forall (fun i => exists d, s (prevout i) = Some d) (vin tx)
}.

Definition connected (genesis nHeight : Z) (s : coin_set) (tx : CTransaction) (id : bytes) : coin_set :=
  with_created (if IsCoinBase tx then s else without s (vin tx)) (created genesis id nHeight (IsCoinBase tx) 0 (vout tx)).

(** A set of coins that could be spent, from blocks after the first. *)
Definition sound_set (genesis : Z) (s : coin_set) : Prop :=
  forall x d, s x = Some d -> unspendable genesis d = false /\ IsSpent d = false /\ 0 < GetHeight d.

Lemma outpoint_at_inj id i j : Z.of_nat i < 2 ^ 32 -> Z.of_nat j < 2 ^ 32 -> outpoint_at id i = outpoint_at id j -> i = j.
Proof. intros Hi Hj E. injection E as E. rewrite !u32_small in E by lia. lia. Qed.

Lemma created_none genesis id h cb outs x : forall i, (forall j, (i <= j < i + length outs)%nat -> x <> outpoint_at id j) ->
  created genesis id h cb i outs x = None.
Proof.
  induction outs as [|o outs IH]; intros i N; [reflexivity|]. cbn [created]. destruct (decide (x = outpoint_at id i)) as [E|_].
  - exfalso. apply (N i); [cbn; lia | exact E].
  - apply IH. intros j Hj. apply N. cbn [length]. lia.
Qed.

Lemma created_some genesis id h cb outs x d : forall i, created genesis id h cb i outs x = Some d ->
  exists j, (i <= j < i + length outs)%nat /\ x = outpoint_at id j.
Proof.
  induction outs as [|o outs IH]; intros i E; [discriminate|]. cbn [created] in E. destruct (decide (x = outpoint_at id i)) as [->|_].
  - exists i. cbn [length]. split; [lia | reflexivity].
  - destruct (IH (S i) E) as (j & Hj & ->). exists j. cbn [length]. split; [lia | reflexivity].
Qed.

Lemma Coin_of_height (o : CTxOut) (h : Z) (cb : bool) : 0 <= h < 2 ^ 31 -> GetHeight (Coin_of o h cb) = h /\ out (Coin_of o h cb) = o.
Proof.
  intros Hh. split; [|reflexivity]. unfold GetHeight, Coin_of. cbn [nHeightAndIsCoinBase]. unfold shl32. rewrite Z.shiftl_mul_pow2, u32_small by lia.
  rewrite Z.shiftr_lor. replace (Z.shiftr (if cb then 1 else 0) 1) with 0 by now destruct cb. rewrite Z.lor_0_r, Z.shiftr_div_pow2 by lia.
  apply Z.div_mul. lia.
Qed.

Section Connect.
Context {V : Type} `{L : CoinsViewLaws V} (usage : Coin -> Z) (U0 : usage Coin_new = 0) (genesis : Z).
Implicit Type c : CCoinsViewCache V.

Lemma spend_inputs_spec (ins : list CTxIn) : forall c txundo, cache_ok usage c -> NoDup (map prevout ins) ->
  Forall (fun i => exists d, cache_coin c (prevout i) = Some d) ins ->
  exists c' l, spend_inputs usage c txundo ins = Ok (c', txundo ++ l) /\ cache_ok usage c' /\ hashBlock c' = hashBlock c /\
    Forall2 (fun i d => cache_coin c (prevout i) = Some d) ins l /\ forall x, cache_coin c' x = without (cache_coin c) ins x.
Proof.
  induction ins as [|i ins IH]; intros c txundo K N F.
  - exists c, []. rewrite app_nil_r. split; [reflexivity|]. split; [exact K|]. split; [reflexivity|]. split; [constructor|].
    intros x. unfold without. cbn [map]. now destruct (decide (In x [])).
  - cbn [map] in N. inversion N as [|? ? Ni N']; subst. apply Forall_cons_iff in F as [[d Hd] F]. cbn [spend_inputs].
    pose proof (SpendCoin_spec usage c (prevout i) U0 K) as S. destruct (SpendCoin usage c (prevout i)) as [c1 r]. destruct S as (K1 & S1 & R & H1).
    rewrite Hd in R. destruct r as [d'|]; [|discriminate]. cbn [unspent] in R. destruct (IsSpent d'); [discriminate|]. injection R as ->. cbn [or_abort obind].
    assert (Same : forall j, In j ins -> cache_coin c1 (prevout j) = cache_coin c (prevout j)).
    { intros j Ij. rewrite S1. unfold with_coin. destruct (decide (prevout j = prevout i)) as [E|]; [|reflexivity]. exfalso. apply Ni. rewrite <- E. now apply in_map. }
    destruct (IH c1 (txundo ++ [d]) K1 N') as (c2 & l & E & K2 & H2 & F2 & S2).
    { rewrite Stdlib.Lists.List.Forall_forall in F |- *. intros j Ij. rewrite Same by exact Ij. exact (F j Ij). }
    exists c2, (d :: l). split; [rewrite E, <- app_assoc; reflexivity|]. split; [exact K2|]. split; [congruence|]. split.
    + constructor; [exact Hd|]. clear -F2 Same. induction F2 as [|j e ins l Hj F2 IH2]; [constructor|].
      constructor; [rewrite <- (Same j (or_introl eq_refl)); exact Hj|]. apply IH2. intros k Ik. apply Same. now right.
    + intros x. rewrite S2. unfold without. cbn [map]. destruct (decide (In x (map prevout ins))) as [I1|I1], (decide (In x (prevout i :: map prevout ins))) as [I2|I2];
        try reflexivity; [exfalso; apply I2; now right | |]; rewrite S1; unfold with_coin; destruct (decide (x = prevout i)) as [->|]; try reflexivity.
      * exfalso. destruct I2 as [E2|E2]; [congruence | contradiction].
      * exfalso. apply I2. now left.
Qed.

Lemma add_outputs_spec (outs : list CTxOut) (id : bytes) (h : Z) (cb : bool) : forall i c, cache_ok usage c ->
  Forall (fun o => nValue o <> -1) outs -> Z.of_nat i + len outs < 2 ^ 32 ->
  (forall j, (i <= j < i + length outs)%nat -> cache_coin c (outpoint_at id j) = None) ->
  exists c', add_outputs usage genesis c id h cb false i outs = Ok c' /\ cache_ok usage c' /\ hashBlock c' = hashBlock c /\
    forall x, cache_coin c' x = with_created (cache_coin c) (created genesis id h cb i outs) x.
Proof.
  induction outs as [|o outs IH]; intros i c K F Hn Fr; [now exists c|]. apply Forall_cons_iff in F as [Fo F].
  unfold len in Hn, IH. cbn [length] in Hn, Fr. cbn [add_outputs]. fold (outpoint_at id i).
  assert (Sp : IsSpent (Coin_of o (u32 h) cb) = false) by (unfold IsSpent, CTxOut_IsNull; cbn; now apply Z.eqb_neq).
  destruct (AddCoin_spec usage c (outpoint_at id i) (Coin_of o (u32 h) cb) cb genesis K Sp U0 (fun _ => Fr i ltac:(lia))) as (c1 & -> & K1 & H1 & S1). cbn [obind].
  destruct (IH (S i) c1 K1 F ltac:(lia)) as (c2 & E & K2 & H2 & S2).
  - intros j Hj. rewrite S1. destruct (unspendable genesis _); [apply Fr; lia|]. unfold with_coin.
    destruct (decide (outpoint_at id j = outpoint_at id i)) as [E|]; [apply outpoint_at_inj in E; lia | apply Fr; lia].
  - exists c2. split; [exact E|]. split; [exact K2|]. split; [congruence|]. intros x. rewrite S2. unfold with_created. cbn [created].
    destruct (decide (x = outpoint_at id i)) as [->|N].
    + rewrite created_none by (intros j Hj E'; apply outpoint_at_inj in E'; lia). rewrite S1. destruct (unspendable genesis _); [reflexivity|].
      unfold with_coin. now destruct (decide (outpoint_at id i = outpoint_at id i)).
    + destruct (created genesis id h cb (S i) outs x); [reflexivity|]. rewrite S1. destruct (unspendable genesis _); [reflexivity|].
      unfold with_coin. now destruct (decide (x = outpoint_at id i)).
Qed.

Lemma UpdateCoins_spec c tx id h : cache_ok usage c -> may_connect (cache_coin c) tx id ->
  exists c' u, UpdateCoins usage genesis c tx h = Ok (c', u) /\ cache_ok usage c' /\ hashBlock c' = hashBlock c /\
    (IsCoinBase tx = false -> Forall2 (fun i d => cache_coin c (prevout i) = Some d) (vin tx) u) /\
    forall x, cache_coin c' x = connected genesis h (cache_coin c) tx id x.
Proof.
  intros K [Mi Mo Mc Mf Mn]. unfold UpdateCoins, AddCoins, GetId, connected. rewrite Mi. cbn [or_throw obind].
  assert (Out : forall c1 t, cache_ok usage c1 -> (forall x, cache_coin c1 x = t x) -> (forall x, t x = None \/ t x = cache_coin c x) ->
    exists c', add_outputs usage genesis c1 id h (IsCoinBase tx) false 0 (vout tx) = Ok c' /\ cache_ok usage c' /\ hashBlock c' = hashBlock c1 /\
      forall x, cache_coin c' x = with_created t (created genesis id h (IsCoinBase tx) 0 (vout tx)) x).
  { intros c1 t K1 E1 Sub. destruct (add_outputs_spec (vout tx) id h (IsCoinBase tx) 0 c1 K1 Mo ltac:(lia)) as (c' & A & K' & H' & S').
    - intros j Hj. rewrite E1. destruct (Sub (outpoint_at id j)) as [->| ->]; [reflexivity | apply Mf; lia].
    - exists c'. split; [exact A|]. split; [exact K'|]. split; [exact H'|]. intros x. rewrite S'. unfold with_created. now rewrite E1. }
  destruct (IsCoinBase tx) eqn:CB; cbn [negb].
  - destruct (Out c (cache_coin c) K (fun x => eq_refl) (fun x => or_intror eq_refl)) as (c' & A & K' & H' & S'). cbn [obind]. rewrite A. cbn [obind].
    exists c', []. split; [reflexivity|]. split; [exact K'|]. split; [exact H'|]. split; [discriminate | exact S'].
  - destruct (Mn eq_refl) as [N F]. destruct (spend_inputs_spec (vin tx) c [] K N F) as (c1 & u & E & K1 & H1 & F1 & S1). rewrite E. cbn [obind app].
    destruct (Out c1 (without (cache_coin c) (vin tx)) K1 S1) as (c' & A & K' & H' & S').
    { intros x. unfold without. destruct (decide _); auto. }
    rewrite A. cbn [obind]. exists c', u. split; [reflexivity|]. split; [exact K'|]. split; [congruence|]. split; [auto | exact S'].
Qed.

(** ** Taking a transaction back *)

Lemma txout_eqb_refl o : txout_eqb o o = true.
Proof. unfold txout_eqb. rewrite Z.eqb_refl. now destruct (list_eq_dec Z.eq_dec (scriptPubKey o) (scriptPubKey o)). Qed.

Lemma remove_outputs_spec (h : Z) (id : bytes) (cb fClean : bool) (outs : list CTxOut) : 0 < h < 2 ^ 31 - 1 -> forall i c, cache_ok usage c ->
  Forall (fun o => nValue o <> -1) outs -> Z.of_nat i + len outs < 2 ^ 32 ->
  (forall j, (i <= j < i + length outs)%nat -> cache_coin c (outpoint_at id j) = created genesis id h cb i outs (outpoint_at id j)) ->
  exists c', remove_outputs usage genesis c id h fClean i outs = Ok (c', fClean) /\ cache_ok usage c' /\ hashBlock c' = hashBlock c /\
    (forall j, (i <= j < i + length outs)%nat -> cache_coin c' (outpoint_at id j) = None) /\
    (forall x, (forall j, (i <= j < i + length outs)%nat -> x <> outpoint_at id j) -> cache_coin c' x = cache_coin c x).
Proof.
  intros Hh. induction outs as [|o outs IH]; intros i c K F Hn Cr; [exists c; split; [reflexivity|]; split; [exact K|]; split; [reflexivity|]; split; [cbn; intros; lia | reflexivity]|].
  apply Forall_cons_iff in F as [Fo F]. unfold len in Hn, IH. cbn [length] in Hn, Cr |- *. cbn [remove_outputs].
  unfold IsGenesisEnabled. destruct (Z.eqb_spec h MEMPOOL_HEIGHT) as [E|_]; [unfold MEMPOOL_HEIGHT in E; lia|]. cbn [obind].
  rewrite (u64_small h) by lia. set (d := Coin_of o (u32 h) cb).
  destruct (Coin_of_height o (u32 h) cb ltac:(rewrite u32_small; lia)) as [Gh _]. rewrite (u32_small h) in Gh at 2 by lia.
  assert (Un : IsUnspendable (scriptPubKey o) (genesis <=? h) = unspendable genesis d) by (unfold unspendable, d; now rewrite Gh).
  rewrite Un. pose proof (Cr i ltac:(lia)) as Ci. cbn [created] in Ci. destruct (decide (outpoint_at id i = outpoint_at id i)) as [_|X]; [|contradiction]. fold d in Ci.
  assert (Cr' : forall j, (S i <= j < S i + length outs)%nat -> cache_coin c (outpoint_at id j) = created genesis id h cb (S i) outs (outpoint_at id j)).
  { intros j Hj. rewrite (Cr j ltac:(lia)). cbn [created]. destruct (decide (outpoint_at id j = outpoint_at id i)) as [E|]; [apply outpoint_at_inj in E; lia | reflexivity]. }
  destruct (unspendable genesis d).
  - destruct (IH (S i) c K F ltac:(lia) Cr') as (c' & E & K' & H' & N' & S'). exists c'. split; [exact E|]. split; [exact K'|]. split; [exact H'|].
    split; [|intros x Nx; apply S'; intros j Hj; apply Nx; lia]. intros j Hj. destruct (Nat.eq_dec j i) as [->|]; [|apply N'; lia].
    rewrite S'; [exact Ci|]. intros j Hj' E'. apply outpoint_at_inj in E'; lia.
  - fold (outpoint_at id i). pose proof (SpendCoin_spec usage c (outpoint_at id i) U0 K) as Sc. destruct (SpendCoin usage c (outpoint_at id i)) as [c1 r].
    destruct Sc as (K1 & S1 & R & H1). rewrite Ci in R. destruct r as [d'|]; [|discriminate]. cbn [unspent] in R. destruct (IsSpent d'); [discriminate|].
    injection R as ->. change (out d) with o. rewrite txout_eqb_refl, andb_true_r.
    assert (S1' : forall x, x <> outpoint_at id i -> cache_coin c1 x = cache_coin c x) by (intros x Nx; rewrite S1; unfold with_coin; now destruct (decide (x = outpoint_at id i))).
    destruct (IH (S i) c1 K1 F ltac:(lia)) as (c' & E & K' & H' & N' & S').
    { intros j Hj. rewrite S1' by (intros E'; apply outpoint_at_inj in E'; lia). now apply Cr'. }
    exists c'. split; [exact E|]. split; [exact K'|]. split; [congruence|]. split.
    + intros j Hj. destruct (Nat.eq_dec j i) as [->|]; [|apply N'; lia]. rewrite S' by (intros j Hj' E'; apply outpoint_at_inj in E'; lia).
      rewrite S1. unfold with_coin. now destruct (decide (outpoint_at id i = outpoint_at id i)).
    + intros x Nx. rewrite S' by (intros j Hj; apply Nx; lia). apply S1'. apply Nx. lia.
Qed.

Lemma restore_inputs_spec (cursor : CCoinsViewCache V -> bytes -> list Coin) (fClean : bool) (l : list (CTxIn * Coin)) : forall c, cache_ok usage c ->
  NoDup (map (fun id => prevout (fst id)) l) ->
  Forall (fun id => cache_coin c (prevout (fst id)) = None /\ unspendable genesis (snd id) = false /\ IsSpent (snd id) = false /\ 0 < GetHeight (snd id)) l ->
  exists c', restore_inputs usage genesis cursor c fClean l = Ok (c', Some fClean) /\ cache_ok usage c' /\ hashBlock c' = hashBlock c /\
    (forall i d, In (i, d) l -> cache_coin c' (prevout i) = Some d) /\
    (forall x, ~ In x (map (fun id => prevout (fst id)) l) -> cache_coin c' x = cache_coin c x).
Proof.
  induction l as [|[i d] l IH]; intros c K N F; [exists c; split; [reflexivity|]; split; [exact K|]; split; [reflexivity|]; split; [intros ? ? [] | reflexivity]|].
  cbn [map fst] in N. inversion N as [|? ? Ni N']; subst. apply Forall_cons_iff in F as [(F1 & F2 & F3 & F4) F]. cbn [fst snd] in *.
  cbn [restore_inputs]. unfold UndoCoinSpend. pose proof (HaveCoin_spec usage c (prevout i) K) as Hv. pose proof (FetchCoinNL_spec usage c (prevout i) K) as Ft.
  unfold HaveCoin in *. destruct (FetchCoinNL usage c (prevout i)) as [c0 e0]. destruct Hv as (K0 & S0 & R0). destruct Ft as (_ & _ & _ & H0 & _).
  rewrite F1 in R0. rewrite R0. cbn [negb]. destruct (Z.eqb_spec (GetHeight d) 0); [lia|].
  destruct (AddCoin_spec usage c0 (prevout i) d false genesis K0 F3 U0 (fun _ => eq_trans (S0 _) F1)) as (c1 & -> & K1 & H1 & S1). cbn [obind].
  rewrite F2 in S1. assert (S1' : forall x, x <> prevout i -> cache_coin c1 x = cache_coin c x) by (intros x Nx; rewrite S1; unfold with_coin; destruct (decide (x = prevout i)); [contradiction | apply S0]).
  destruct (IH c1 K1 N') as (c' & E & K' & H' & I' & S').
  { rewrite Stdlib.Lists.List.Forall_forall in F |- *. intros [j e] Ij. destruct (F _ Ij) as (G1 & G2). split; [|exact G2]. cbn [fst snd] in *. rewrite S1'; [exact G1|].
    intros Ej. apply Ni. rewrite <- Ej. exact (in_map (fun id => prevout (fst id)) l (j, e) Ij). }
  exists c'. split; [exact E|]. split; [exact K'|]. split; [congruence|]. split.
  - intros j e [Ej|Ij]; [|exact (I' j e Ij)]. injection Ej as <- <-. rewrite S' by exact Ni. rewrite S1. unfold with_coin. now destruct (decide (prevout i = prevout i)).
  - intros x Nx. cbn [map fst] in Nx. rewrite S' by (intros X; apply Nx; now right). apply S1'. intros ->. apply Nx. now left.
Qed.

(** ** Blocks *)

Section Blocks.
Context (h : Z) (Hh : 0 < h < 2 ^ 31 - 1).

Lemma connected_ext (s t : coin_set) tx id : (forall x, s x = t x) -> forall x, connected genesis h s tx id x = connected genesis h t tx id x.
Proof.
  intros E x. unfold connected, with_created, without. destruct (created _ _ _ _ _ _ x); [reflexivity|].
  destruct (IsCoinBase tx); [apply E|]. destruct (decide _); [reflexivity | apply E].
Qed.

Lemma may_connect_ext (s t : coin_set) tx id : (forall x, s x = t x) -> may_connect s tx id -> may_connect t tx id.
Proof.
  intros E [Mi Mo Mc Mf Mn]. constructor; auto; [intros j Hj; rewrite <- E; auto|]. intros CB. destruct (Mn CB) as [N F]. split; [exact N|].
  eapply Forall_impl; [|exact F]. intros j [d Hd]. exists d. now rewrite <- E.
Qed.

(** The set after the first transactions of a list. *)
Definition run (s : coin_set) (l : list (CTransaction * bytes)) : coin_set :=
  fold_left (fun s ti => connected genesis h s (fst ti) (snd ti)) l s.

(** Every transaction may be connected after those before it; only the first is a coinbase. *)
Definition connectable (s : coin_set) (l : list (CTransaction * bytes)) : Prop :=
  forall k ti, nth_error l k = Some ti ->
    may_connect (run s (firstn k l)) (fst ti) (snd ti) /\ IsCoinBase (fst ti) = (k =? 0)%nat.

(** The undo data holds the coins of the inputs as they were before each transaction but the first. *)
Definition undo_data (s : coin_set) (l : list (CTransaction * bytes)) (us : CBlockUndo) : Prop :=
  (length us + 1 = length l)%nat /\
  forall k ti, nth_error l (S k) = Some ti ->
    exists u, nth_error us k = Some u /\ Forall2 (fun i d => run s (firstn (S k) l) (prevout i) = Some d) (vin (fst ti)) u.

Lemma run_S (s : coin_set) l k ti : nth_error l k = Some ti ->
  run s (firstn (S k) l) = connected genesis h (run s (firstn k l)) (fst ti) (snd ti).
Proof.
  intros E. unfold run. now rewrite (firstn_nth_error l k ti E), fold_left_app.
Qed.

(** Connecting the transactions from the [k]-th on. *)
Lemma connect_from_spec (s : coin_set) (l : list (CTransaction * bytes)) (Cn : connectable s l) (m : nat) : forall k c,
  (k + m = length l)%nat -> cache_ok usage c -> (forall x, cache_coin c x = run s (firstn k l) x) ->
  exists c' us, connect_from usage genesis c h (k =? 0)%nat (map fst (skipn k l)) = Ok (c', us) /\ cache_ok usage c' /\ hashBlock c' = hashBlock c /\
    (forall x, cache_coin c' x = run s l x) /\ (length us = if (k =? 0)%nat then m - 1 else m)%nat /\
    forall j ti, (0 < k + j)%nat -> nth_error l (k + j) = Some ti ->
      exists u, nth_error us (if (k =? 0)%nat then j - 1 else j) = Some u /\ Forall2 (fun i d => run s (firstn (k + j) l) (prevout i) = Some d) (vin (fst ti)) u.
Proof.
  induction m as [|m IH]; intros k c Hk K S.
  - rewrite skipn_all2 by lia. exists c, []. split; [reflexivity|]. split; [exact K|]. split; [reflexivity|]. rewrite firstn_all2 in S by lia.
    split; [exact S|]. split; [now destruct (k =? 0)%nat|]. intros j ti _ E. assert (k + j < length l)%nat by (apply nth_error_Some; congruence). lia.
  - destruct (nth_error l k) as [[tx id]|] eqn:E; [|apply nth_error_None in E; lia]. destruct (Cn k _ E) as [Mc CB]. cbn [fst snd] in Mc, CB.
    rewrite (skipn_nth_error l k (tx, id) E).
    cbn [map fst connect_from]. destruct (UpdateCoins_spec c tx id h K (may_connect_ext _ _ tx id (fun x => eq_sym (S x)) Mc)) as (c1 & u & -> & K1 & H1 & F1 & S1). cbn [obind].
    destruct (IH (Datatypes.S k) c1 ltac:(lia) K1) as (c2 & us & E2 & K2 & H2 & S2 & L2 & D2).
    { intros x. rewrite S1, (run_S s l k _ E). apply connected_ext, S. }
    change (Datatypes.S k =? 0)%nat with false in *. rewrite E2. cbn [obind]. exists c2, (if (k =? 0)%nat then us else u :: us). split; [reflexivity|]. split; [exact K2|].
    split; [congruence|]. split; [exact S2|]. split; [destruct (k =? 0)%nat; cbn [length]; lia|]. intros j ti Hj Ej. destruct j as [|j].
    + rewrite Nat.add_0_r in *. rewrite E in Ej. injection Ej as <-. destruct (Nat.eqb_spec k 0); [lia|]. exists u. split; [reflexivity|].
      specialize (F1 CB). cbn [fst]. clear -F1 S.
      induction F1 as [|a b la lb Hab F1 IHF]; [constructor | constructor; [now rewrite <- S | exact IHF]].
    + replace (k + Datatypes.S j)%nat with (Datatypes.S k + j)%nat in * by lia. destruct (D2 j ti ltac:(lia) Ej) as (u' & N' & F'). exists u'. split; [|exact F'].
      destruct (k =? 0)%nat; [now replace (Datatypes.S j - 1)%nat with j by lia | exact N'].
Qed.

Lemma sound_connected (s : coin_set) tx id : sound_set genesis s -> may_connect s tx id -> sound_set genesis (connected genesis h s tx id).
Proof.
  intros Sd M x d. unfold connected, with_created. destruct (created _ _ _ _ _ _ x) as [d'|] eqn:E.
  - intros [= <-]. clear -E M Hh. pose proof (mc_outs _ _ _ M) as F. revert E. generalize 0%nat as i. induction F as [|o outs Fo F IH]; intros i E; [discriminate|].
    cbn [created] in E. destruct (decide (x = outpoint_at id i)); [|exact (IH (S i) E)].
    cbv zeta in E. destruct (unspendable genesis _) eqn:Un in E; [discriminate|]. injection E as <-. split; [exact Un|]. split; [now apply Z.eqb_neq|].
    rewrite (proj1 (Coin_of_height o (u32 h) _ ltac:(rewrite u32_small; lia))). rewrite u32_small; lia.
  - destruct (IsCoinBase tx); [apply Sd|]. unfold without. destruct (decide _); [discriminate | apply Sd].
Qed.

Lemma sound_run (s : coin_set) l : sound_set genesis s -> connectable s l -> forall k, (k <= length l)%nat -> sound_set genesis (run s (firstn k l)).
Proof.
  intros Sd Cn. induction k as [|k IH]; intros Hk; [exact Sd|]. destruct (nth_error l k) as [ti|] eqn:E; [|apply nth_error_None in E; lia].
  rewrite (run_S s l k ti E). apply sound_connected; [apply IH; lia | exact (proj1 (Cn k ti E))].
Qed.

(** Taking back the outputs of a transaction leaves what was there after its inputs were spent. *)
Lemma remove_connected (s : coin_set) tx id fClean c : cache_ok usage c -> may_connect s tx id ->
  (forall x, cache_coin c x = connected genesis h s tx id x) ->
  exists c', remove_outputs usage genesis c id h fClean 0 (vout tx) = Ok (c', fClean) /\ cache_ok usage c' /\ hashBlock c' = hashBlock c /\
    forall x, cache_coin c' x = (if IsCoinBase tx then s else without s (vin tx)) x.
Proof.
  intros K [Mi Mo Mc Mf Mn] S. set (t := if IsCoinBase tx then s else without s (vin tx)).
  assert (Ft : forall j, (j < length (vout tx))%nat -> t (outpoint_at id j) = None)
    by (intros j Hj; unfold t, without; destruct (IsCoinBase tx); [now apply Mf|]; destruct (decide _); [reflexivity | now apply Mf]).
  destruct (remove_outputs_spec h id (IsCoinBase tx) fClean (vout tx) Hh 0 c K Mo ltac:(lia)) as (c' & E & K' & H' & N' & S').
  { intros j Hj. rewrite S. unfold connected, with_created. fold t. destruct (created _ _ _ _ _ _ (outpoint_at id j)); [reflexivity | apply Ft; lia]. }
  exists c'. split; [exact E|]. split; [exact K'|]. split; [exact H'|]. intros x.
  destruct (in_dec COutPoint_eq_dec x (map (outpoint_at id) (seq 0 (length (vout tx))))) as [I|I].
  - apply in_map_iff in I as (j & <- & I). apply in_seq in I. rewrite N' by lia. symmetry. apply Ft. lia.
  - assert (Nx : forall j, (0 <= j < 0 + length (vout tx))%nat -> x <> outpoint_at id j) by (intros j Hj ->; apply I, in_map, in_seq; lia).
    rewrite S' by exact Nx. rewrite S. unfold connected, with_created. now rewrite created_none.
Qed.

(** Putting back the inputs, from the last to the first. *)
Lemma restore_connected (cursor : CCoinsViewCache V -> bytes -> list Coin) (s : coin_set) tx (u : CTxUndo) fClean c :
  cache_ok usage c -> sound_set genesis s -> NoDup (map prevout (vin tx)) ->
  Forall2 (fun i d => s (prevout i) = Some d) (vin tx) u -> (forall x, cache_coin c x = without s (vin tx) x) ->
  exists c', restore_inputs usage genesis cursor c fClean (rev (combine (vin tx) u)) = Ok (c', Some fClean) /\ cache_ok usage c' /\ hashBlock c' = hashBlock c /\
    forall x, cache_coin c' x = s x.
Proof.
  intros K Sd N F S. assert (Lu : length (vin tx) = length u) by exact (Forall2_length F).
  assert (P : map (fun id => prevout (fst id)) (combine (vin tx) u) = map prevout (vin tx)).
  { clear -Lu. revert u Lu. induction (vin tx) as [|a l IH]; intros [|b u] E; try discriminate; [reflexivity|]. cbn. f_equal. apply IH. now injection E. }
  assert (Q : forall i d, In (i, d) (combine (vin tx) u) -> s (prevout i) = Some d).
  { clear -F. induction F as [|a b l u Hab F IH]; intros i d; [intros []|]. intros [E|I]; [injection E as <- <-; exact Hab | exact (IH i d I)]. }
  destruct (restore_inputs_spec cursor fClean (rev (combine (vin tx) u)) c K) as (c' & E & K' & H' & I' & S').
  - rewrite map_rev, P. now apply NoDup_rev.
  - rewrite Stdlib.Lists.List.Forall_forall. intros [i d] I. apply in_rev in I. cbn [fst snd]. split; [|exact (Sd _ _ (Q i d I))].
    rewrite S. unfold without. destruct (decide _) as [_|X]; [reflexivity|]. exfalso. apply X, in_map. exact (in_combine_l _ _ _ _ I).
  - exists c'. split; [exact E|]. split; [exact K'|]. split; [exact H'|]. intros x. rewrite map_rev, P in S'.
    destruct (in_dec COutPoint_eq_dec x (map prevout (vin tx))) as [I|I].
    + rewrite <- P in I. apply in_map_iff in I as ([i d] & <- & I). cbn [fst]. rewrite (Q i d I). apply I'. now apply in_rev in I.
    + rewrite S' by (rewrite <- in_rev; exact I). rewrite S. unfold without. now destruct (decide _).
Qed.

(** One round of the loop of [ApplyBlockUndo], and all of them. *)
Lemma undo_from_spec (cursor : CCoinsViewCache V -> bytes -> list Coin) (canceled : nat -> bool) (s : coin_set) (l : list (CTransaction * bytes)) (us : CBlockUndo) :
  sound_set genesis s -> connectable s l -> undo_data s l us -> forall k c, (k <= length l)%nat -> (forall i, (i < k)%nat -> canceled i = false) ->
  cache_ok usage c -> (forall x, cache_coin c x = run s (firstn k l) x) ->
  exists c', undo_from usage genesis cursor canceled k c h us (map fst l) true = Ok (c', Some true) /\ cache_ok usage c' /\ hashBlock c' = hashBlock c /\
    forall x, cache_coin c' x = s x.
Proof.
  intros Sd Cn [Lu Du]. induction k as [|k IH]; intros c Hk Nc K S; [now exists c|].
  destruct (nth_error l k) as [[tx id]|] eqn:E; [|apply nth_error_None in E; lia]. destruct (Cn k _ E) as [Mc CB]. cbn [fst snd] in Mc, CB.
  cbn [undo_from]. rewrite (Nc k) by lia. rewrite nth_error_map, E. cbn [option_map or_abort obind fst].
  unfold GetId. rewrite (mc_id _ _ _ Mc). cbn [or_throw obind].
  rewrite (run_S s l k _ E) in S. cbn [fst snd] in S.
  destruct (remove_connected _ tx id true c K Mc S) as (c1 & -> & K1 & H1 & S1). cbn [obind].
  destruct k as [|k].
  - rewrite CB in S1. exists c1. auto.
  - destruct (Du k _ E) as (u & -> & F). cbn [or_abort obind fst] in F |- *. rewrite <- (Forall2_length F), Nat.eqb_refl. cbn [negb].
    rewrite CB in S1. destruct (mc_ins _ _ _ Mc CB) as [N _].
    destruct (restore_connected cursor _ tx u true c1 K1 (sound_run s l Sd Cn (Datatypes.S k) ltac:(lia)) N F S1) as (c2 & -> & K2 & H2 & S2). cbn [obind].
    destruct (IH c2 ltac:(lia) (fun i Hi => Nc i ltac:(lia)) K2 S2) as (c' & E' & K' & H' & S').
    exists c'. split; [exact E'|]. split; [exact K'|]. split; [congruence | exact S'].
Qed.
End Blocks.
End Connect.

(** C15: connecting a block and disconnecting it gives the coins back.  For a block whose
    transactions may be connected one after the other, the loop of [ConnectBlock] succeeds, leaves in
    the cache exactly the coins that the transactions make and do not spend, and gives undo data with
    which [ApplyBlockUndo], on any cache that shows those coins (the same one, or a new one over a
    database that the first was flushed to), returns [DISCONNECT_OK], leaves exactly the coins there
    were before and the previous block as the best block. *)
Theorem undo_roundtrip {V W : Type} `{LV : CoinsViewLaws V} `{LW : CoinsViewLaws W} (usage : Coin -> Z) (genesis h : Z)
  (cursor : CCoinsViewCache W -> bytes -> list Coin) (block : CBlock) (l : list (CTransaction * bytes)) (c : CCoinsViewCache V) :
  usage Coin_new = 0 -> 0 < h < 2 ^ 31 - 1 -> cache_ok usage c -> sound_set genesis (cache_coin c) ->
  vtx block <> [] -> vtx block = map fst l -> connectable genesis h (cache_coin c) l ->
  exists c1 us, ConnectCoins usage genesis c block h = Ok (c1, us) /\ cache_ok usage c1 /\ (forall x, cache_coin c1 x = run genesis h (cache_coin c) l x) /\
    forall c2 : CCoinsViewCache W, cache_ok usage c2 -> (forall x, cache_coin c2 x = cache_coin c1 x) ->
    exists c3, ApplyBlockUndo usage genesis cursor (fun _ => false) c2 us block h = Ok (c3, DISCONNECT_OK) /\ cache_ok usage c3 /\
      hashBlock c3 = hashPrevBlock (header block) /\ forall x, cache_coin c3 x = cache_coin c x.
Proof.
  intros U0 Hh K Sd Ne El Cn. unfold ConnectCoins, ApplyBlockUndo. rewrite El in *.
  assert (Ll : (0 < length l)%nat) by (destruct l; [now contradiction Ne | cbn; lia]).
  destruct (connect_from_spec usage U0 genesis h (cache_coin c) l Cn (length l) 0 c eq_refl K (fun x => eq_refl)) as (c1 & us & E & K1 & H1 & S1 & Lu & Du).
  cbn [Nat.eqb Nat.add] in *. change (skipn 0 l) with l in E. rewrite E. exists c1, us. split; [reflexivity|]. split; [exact K1|]. split; [exact S1|].
  intros c2 K2 S2. rewrite length_map. replace (length us + 1)%nat with (length l) by lia. rewrite Nat.eqb_refl. cbn [negb].
  destruct (undo_from_spec usage U0 genesis h Hh cursor (fun _ => false) (cache_coin c) l us Sd Cn) with (k := length l) (c := c2) as (c3 & -> & K3 & H3 & S3); auto.
  - split; [lia|]. intros k ti Ek. destruct (Du (S k) ti ltac:(lia) Ek) as (u & Eu & F). exists u. split; [|exact F]. now replace k with (S k - 1)%nat by lia.
  - intros x. rewrite S2, firstn_all. apply S1.
  - cbn [obind]. exists (SetBestBlock c3 (hashPrevBlock (header block))). split; [reflexivity|].
    split; [|split; [reflexivity | exact S3]]. now apply set_best_ok.
Qed.

Definition sample_coinbase : CTransaction :=
  mkTx 1 [mkTxIn (mkOutPoint (repeat 0 32) 0xffffffff) [1; 8] 0xffffffff] [mkTxOut 50 [0x51]] 0.
Definition sample_spend : CTransaction :=
  mkTx 1 [mkTxIn (mkOutPoint (repeat 1 32) 0) [] 0xffffffff] [mkTxOut 20 [0x51]; mkTxOut 30 [0x6a]] 0.
Definition sample_ids : list (CTransaction * bytes) :=
  Eval vm_compute in map (fun tx => (tx, match ComputeHash tx with Some id => id | None => [] end)) [sample_coinbase; sample_spend].

Lemma sample_connectable : connectable 100 8 (fun x => db_coins sample_store !! x) sample_ids.
Proof.
  intros [|[|k]] ti E; [| |destruct k; discriminate]; injection E as <-; (split; [|reflexivity]); constructor; cbn [fst snd].
  - vm_compute. reflexivity.
  - repeat constructor; cbn; lia.
  - reflexivity.
  - intros [|i] Hi; [vm_compute; reflexivity | cbn in Hi; lia].
  - intros X. discriminate X.
  - vm_compute. reflexivity.
  - repeat constructor; cbn; lia.
  - reflexivity.
  - intros [|[|i]] Hi; [vm_compute; reflexivity | vm_compute; reflexivity | cbn in Hi; lia].
  - intros _. split; [repeat constructor; intros [] | repeat constructor]. exists (Coin_of (mkTxOut 50 []) 7 true). vm_compute. reflexivity.
Qed.

Lemma undo_roundtrip_witness :
  let usage d := len (scriptPubKey (out d)) in
  exists c1 us, ConnectCoins (H := db_view no_split) usage 100 (CCoinsViewCache_of sample_store) (mkBlock (mkHeader 1 (repeat 9 32) (repeat 2 32) 100 0x1d00ffff 7) [sample_coinbase; sample_spend]) 8 = Ok (c1, us) /\
    exists c3, ApplyBlockUndo (H := db_view no_split) usage 100 (fun _ _ => []) (fun _ => false) c1 us
      (mkBlock (mkHeader 1 (repeat 9 32) (repeat 2 32) 100 0x1d00ffff 7) [sample_coinbase; sample_spend]) 8 = Ok (c3, DISCONNECT_OK) /\
    cache_coin (L := db_laws no_split) c3 (mkOutPoint (repeat 1 32) 0) = Some (Coin_of (mkTxOut 50 []) 7 true).
Proof.
  intros usage. set (block := mkBlock _ _).
  pose proof (@cache_new _ (db_view no_split) (db_laws no_split) usage sample_store sample_consistent) as [K E].
  destruct (@undo_roundtrip _ _ _ (db_laws no_split) _ (db_laws no_split) usage 100 8 (fun _ _ => []) block sample_ids (CCoinsViewCache_of sample_store))
    as (c1 & us & Ec & K1 & _ & Un); [reflexivity | lia | exact K | | discriminate | reflexivity | exact sample_connectable | ].
  - intros x d Ex. rewrite E in Ex. cbn in Ex. apply lookup_singleton_Some in Ex as [_ <-]. repeat split.
  - exists c1, us. split; [exact Ec|]. destruct (Un c1 K1 (fun x => eq_refl)) as (c3 & E3 & _ & _ & S3). exists c3. split; [exact E3|]. rewrite S3. reflexivity.
Defined.
End Undo.
