(* ===== verification/Compressor.v ===== *)
(** * Compact coins (src/src/compressor.h, src/src/compressor.cpp, src/src/coins.h, src/src/undo.h)

    Coins and undo records are stored with amounts written as a number without trailing zeros and an
    exponent, and the usual scripts as the hash or key in them. *)

From stdpp Require Import gmap.
From S2P Require Import Prelude IntSerialization Outcome Opcodes Script Serialize Amount Transaction PubKey Coins Undo.
Import IntSerialization Opcodes Script Serialize Amount Transaction PubKey Coins Undo.

Module Compressor.
Local Open Scope Z_scope.
Local Open Scope outcome_scope.
Local Open Scope reader_scope.

(** ** Amounts *)

Fixpoint compress_loop (fuel : nat) (n e : Z) : Z * Z :=
  match fuel with
  | O => (n, e)
  | S fuel => if (n mod 10 =? 0) && (e <? 9) then compress_loop fuel (n / 10) (e + 1) else (n, e)
  end.

Definition CompressAmount (amt : Amount) : outcome Z :=
  let n := u64 amt in
  if n =? 0 then Ok 0
  else
    let '(n, e) := compress_loop 9 n 0 in
    if e <? 9 then
      let d := n mod 10 in
      assert_ ((1 <=? d) && (d <=? 9)) (
        let n := n / 10 in
        Ok (u64 (1 + (n * 9 + d - 1) * 10 + e)))
    else Ok (u64 (1 + (n - 1) * 10 + 9)).

(** [while (e) { n *= 10; e--; }] *)
Fixpoint scale (e : nat) (n : Z) : Z :=
  match e with O => n | S e => scale e (u64 (n * 10)) end.

Definition DecompressAmount (x : Z) : Amount :=
  if x =? 0 then 0
  else
    let x := x - 1 in
    let e := x mod 10 in
    let x := x / 10 in
    let n :=
      if e <? 9 then
        let d := x mod 9 + 1 in
        let x := x / 9 in
        u64 (x * 10 + d)
      else u64 (x + 1) in
    i64 (scale (Z.to_nat e) n).

(** ** Scripts *)

Definition nSpecialScripts : Z := 6.
Definition MAX_SCRIPT_SIZE_AFTER_GENESIS : Z := 0xffffffff.

Definition slice (s : bytes) (i n : nat) : bytes := firstn n (skipn i s).

Section Scripts.
Context `{Secp256k1}.
(** What the memory of a new key held. *)
Context (buf : bytes).

Definition IsToKeyID (script : CScript) : option bytes :=
  if (len script =? 25) && (at_ script 0 =? OP_DUP) && (at_ script 1 =? OP_HASH160) && (at_ script 2 =? 20) &&
     (at_ script 23 =? OP_EQUALVERIFY) && (at_ script 24 =? OP_CHECKSIG)
  then Some (slice script 3 20) else None.

Definition IsToScriptID (script : CScript) : option bytes :=
  if (len script =? 23) && (at_ script 0 =? OP_HASH160) && (at_ script 1 =? 20) && (at_ script 22 =? OP_EQUAL)
  then Some (slice script 2 20) else None.

Definition IsToPubKey (script : CScript) : option CPubKey :=
  if (len script =? 35) && (at_ script 0 =? 33) && (at_ script 34 =? OP_CHECKSIG) &&
     ((at_ script 1 =? 0x02) || (at_ script 1 =? 0x03))
  then Some (Set_ buf (slice script 1 33))
  else if (len script =? 67) && (at_ script 0 =? 65) && (at_ script 66 =? OP_CHECKSIG) && (at_ script 1 =? 0x04)
  then
    let pubkey := Set_ buf (slice script 1 65) in
    if IsFullyValid pubkey then Some pubkey else None
  else None.

Definition Compress (script : CScript) : option bytes :=
  match IsToKeyID script with
  | Some keyID => Some (0x00 :: keyID)
  | None =>
      match IsToScriptID script with
      | Some scriptID => Some (0x01 :: scriptID)
      | None =>
          match IsToPubKey script with
          | Some pubkey =>
              if (at_ pubkey 0 =? 0x02) || (at_ pubkey 0 =? 0x03) then Some (at_ pubkey 0 :: slice pubkey 1 32)
              else if at_ pubkey 0 =? 0x04 then Some (Z.lor 0x04 (Z.land (at_ pubkey 64) 0x01) :: slice pubkey 1 32)
              else None
          | None => None
          end
      end
  end.

Definition GetSpecialSize (nSize : Z) : Z :=
  if (nSize =? 0) || (nSize =? 1) then 20
  else if (nSize =? 2) || (nSize =? 3) || (nSize =? 4) || (nSize =? 5) then 32
  else 0.

(** The result and the script, which is left as it was when the result is false. *)
Definition DecompressScript (script : CScript) (nSize : Z) (in_ : bytes) : outcome (bool * CScript) :=
  if nSize =? 0x00 then Ok (true, [OP_DUP; OP_HASH160; 20] ++ slice in_ 0 20 ++ [OP_EQUALVERIFY; OP_CHECKSIG])
  else if nSize =? 0x01 then Ok (true, [OP_HASH160; 20] ++ slice in_ 0 20 ++ [OP_EQUAL])
  else if (nSize =? 0x02) || (nSize =? 0x03) then Ok (true, [33; nSize] ++ slice in_ 0 32 ++ [OP_CHECKSIG])
  else if (nSize =? 0x04) || (nSize =? 0x05) then
    let '(ok, pubkey) := Decompress (CPubKey_of buf ((nSize - 2) :: slice in_ 0 32)) in
    if negb ok then Ok (false, script)
    else assert_ (pk_size pubkey =? 65) (Ok (true, [65] ++ slice pubkey 0 65 ++ [OP_CHECKSIG]))
  else Ok (false, script).

(** [CScriptCompressor]. A codec does not tell an exception from a failed assertion. *)
Definition Serialize_script (script : CScript) : option bytes :=
  match Compress script with
  | Some compr => Some compr
  | None => wbind (WriteVarInt 32 (u32 (len script + nSpecialScripts))) (Some script)
  end.

Definition Unserialize_script (script : CScript) : reader CScript :=
  nSize <- ReadVarInt 32 ;;
  if nSize <? nSpecialScripts then
    vch <- read (Z.to_nat (GetSpecialSize nSize)) ;;
    match DecompressScript script nSize vch with
    | Ok (_, script) => rret script
    | _ => rfail
    end
  else
    let nSize := nSize - nSpecialScripts in
    if MAX_SCRIPT_SIZE_AFTER_GENESIS <? nSize then
      _ <- read (Z.to_nat nSize) ;; rret (script ++ [OP_FALSE; OP_RETURN])
    else read (Z.to_nat nSize).

(** ** Outputs, coins and undo records *)

(** [CTxOutCompressor]; what is read is put in a new output. *)
Definition CTxOutCompressor_codec : codec CTxOut :=
  Codec
    (fun txout =>
       match CompressAmount (nValue txout) with
       | Ok nVal => wbind (WriteVarInt 64 nVal) (Serialize_script (scriptPubKey txout))
       | _ => None
       end)
    (nVal <- ReadVarInt 64 ;;
     script <- Unserialize_script [] ;;
     rret (mkTxOut (DecompressAmount nVal) script)).

Definition Coin_codec : codec Coin :=
  Codec
    (fun c => if IsSpent c then None
              else wbind (WriteVarInt 32 (nHeightAndIsCoinBase c)) (Serialize CTxOutCompressor_codec (out c)))
    (code <- ReadVarInt 32 ;;
     o <- Unserialize CTxOutCompressor_codec ;;
     rret (mkCoin o code)).

(** [TxInUndoSerializer] and [TxInUndoDeserializer]. The version, an [int], is read and dropped. *)
Definition TxInUndo_codec : codec Coin :=
  Codec
    (fun c =>
       wbind (WriteVarInt 32 (u32 (GetHeight c * 2 + if coin_IsCoinBase c then 1 else 0)))
         (wbind (Some (if 0 <? GetHeight c then ser_writedata8 0 else []))
            (Serialize CTxOutCompressor_codec (out c))))
    (nCode <- ReadVarInt 32 ;;
     let nHeight := nCode / 2 in
     let fCoinBase := negb (Z.land nCode 1 =? 0) in
     _ <- (if 0 <? nHeight then ReadVarInt 31 else rret 0) ;;
     txout <- Unserialize CTxOutCompressor_codec ;;
     rret (Coin_of txout nHeight fCoinBase)).

Definition MAX_TX_SIZE_CONSENSUS_AFTER_GENESIS : Z := 1000000000.
Definition MAX_INPUTS_PER_TX : Z := MAX_TX_SIZE_CONSENSUS_AFTER_GENESIS / 41.

Definition CTxUndo_codec : codec CTxUndo :=
  Codec
    (fun u => wbind (WriteCompactSize (len u)) (Serialize_elems (Serialize TxInUndo_codec) u))
    (count <- ReadCompactSize ;;
     if MAX_INPUTS_PER_TX <? count then rfail
     else read_many (Unserialize TxInUndo_codec) (Z.to_nat count)).

Definition CBlockUndo_codec (sizeofTxUndo : Z) : codec CBlockUndo := vector_codec CTxUndo_codec sizeofTxUndo.
End Scripts.

(** ** Amounts are read back *)

Lemma compress_loop_spec (fuel : nat) : forall n e, 0 < n -> 0 <= e -> Z.of_nat fuel = 9 - e ->
  let '(m, e') := compress_loop fuel n e in 0 < m /\ e <= e' <= 9 /\ n = m * 10 ^ (e' - e) /\ (e' < 9 -> m mod 10 <> 0).
Proof.
  induction fuel as [|fuel IH]; intros n e Hn He Hf; cbn [compress_loop].
  - split; [exact Hn|]. split; [lia|]. rewrite Z.sub_diag. split; lia.
  - destruct (Z.eqb_spec (n mod 10) 0) as [D|D], (Z.ltb_spec e 9); cbn [andb]; try lia.
    + assert (Hd : n = 10 * (n / 10)) by (pose proof (Z.div_mod n 10); lia).
      specialize (IH (n / 10) (e + 1) ltac:(lia) ltac:(lia) ltac:(lia)). destruct (compress_loop fuel (n / 10) (e + 1)) as [m e'].
      destruct IH as (I1 & I2 & I3 & I4). split; [exact I1|]. split; [lia|]. split; [|exact I4].
      rewrite Hd, I3. replace (e' - e) with (Z.succ (e' - (e + 1))) by lia. rewrite Z.pow_succ_r by lia. lia.
    + split; [exact Hn|]. split; [lia|]. rewrite Z.sub_diag. split; [lia | auto].
Qed.

Lemma scale_spec (e : nat) : forall n, 0 <= n -> n * 10 ^ Z.of_nat e < 2 ^ 64 -> scale e n = n * 10 ^ Z.of_nat e.
Proof.
  induction e as [|e IH]; intros n Hn Hb; [cbn; lia|]. rewrite Nat2Z.inj_succ, Z.pow_succ_r in * by lia.
  assert (0 < 10 ^ Z.of_nat e) by (apply Z.pow_pos_nonneg; lia). cbn [scale]. rewrite u64_small by nia. rewrite IH by nia. lia.
Qed.

Lemma DecompressAmount_digits m d e : 0 <= e < 9 -> 0 <= m -> 1 <= d <= 9 -> (m * 10 + d) * 10 ^ e < 2 ^ 63 ->
  DecompressAmount (1 + (m * 9 + d - 1) * 10 + e) = (m * 10 + d) * 10 ^ e.
Proof.
  intros He Hm Hd Hb. assert (P : 0 < 10 ^ e) by (apply Z.pow_pos_nonneg; lia).
  unfold DecompressAmount. destruct (Z.eqb_spec (1 + (m * 9 + d - 1) * 10 + e) 0); [lia|].
  replace (1 + (m * 9 + d - 1) * 10 + e - 1) with (e + (m * 9 + d - 1) * 10) by lia.
  rewrite Z.mod_add, Z.mod_small, Z.div_add, (Z.div_small e 10) by lia. destruct (Z.ltb_spec e 9); [|lia].
  replace (0 + (m * 9 + d - 1)) with (d - 1 + m * 9) by lia. rewrite Z.mod_add, Z.mod_small, Z.div_add, (Z.div_small (d - 1) 9) by lia.
  replace ((0 + m) * 10 + (d - 1 + 1)) with (m * 10 + d) by lia. rewrite u64_small by nia.
  rewrite scale_spec, Z2Nat.id by (try rewrite Z2Nat.id; lia). apply i64_small. lia.
Qed.

Lemma DecompressAmount_nine m : 1 <= m -> m * 10 ^ 9 < 2 ^ 63 -> DecompressAmount (1 + (m - 1) * 10 + 9) = m * 10 ^ 9.
Proof.
  intros Hm Hb. unfold DecompressAmount. destruct (Z.eqb_spec (1 + (m - 1) * 10 + 9) 0); [lia|].
  replace (1 + (m - 1) * 10 + 9 - 1) with (9 + (m - 1) * 10) by lia. rewrite Z.mod_add, Z.div_add by lia.
  change (9 mod 10 <? 9) with false. change (Z.to_nat (9 mod 10)) with 9%nat. change (9 / 10) with 0.
  replace (0 + (m - 1) + 1) with m by lia. rewrite u64_small by lia. rewrite scale_spec by (change (Z.of_nat 9) with 9; lia). apply i64_small. change (Z.of_nat 9) with 9. lia.
Qed.

(** No wrap-around happens on amounts below 2^64 / 9. *)
Definition amount_ok (a : Amount) : Prop := 0 <= a /\ 9 * a + 10 <= 2 ^ 64.

Lemma CompressAmount_spec a : amount_ok a -> exists x, CompressAmount a = Ok x /\ 0 <= x < 2 ^ 64 /\ DecompressAmount x = a.
Proof.
  intros [H0 Hb]. unfold CompressAmount. rewrite (u64_small a) by lia. destruct (Z.eqb_spec a 0) as [->|Ha]; [exists 0; split; [reflexivity|]; split; [lia | reflexivity]|].
  pose proof (compress_loop_spec 9 a 0 ltac:(lia) ltac:(lia) eq_refl) as L. destruct (compress_loop 9 a 0) as [m e]. destruct L as (Hm & He & E & Nz). rewrite Z.sub_0_r in E.
  assert (P : 0 < 10 ^ e) by (apply Z.pow_pos_nonneg; lia).
  destruct (Z.ltb_spec e 9) as [L|L].
  - specialize (Nz L). pose proof (Z.mod_pos_bound m 10 ltac:(lia)). pose proof (Z.div_mod m 10 ltac:(lia)) as D. set (q := m / 10) in *. set (d := m mod 10) in *.
    destruct (Z.leb_spec 1 d), (Z.leb_spec d 9); try lia. cbn [andb assert_]. assert (0 <= q) by (apply Z.div_pos; lia). clearbody q d.
    assert (Hx : 1 + (q * 9 + d - 1) * 10 + e < 2 ^ 64).
    { destruct (Z.eq_dec e 0) as [->|]; [lia|]. assert (10 <= 10 ^ e) by (apply (Z.pow_le_mono_r 10 1 e); lia). nia. }
    eexists. split; [reflexivity|]. rewrite u64_small by lia. split; [lia|]. rewrite DecompressAmount_digits by (try replace (q * 10 + d) with m by lia; lia).
    replace (q * 10 + d) with m by lia. now symmetry.
  - replace e with 9 in * by lia. eexists. split; [reflexivity|]. rewrite u64_small by lia. split; [lia|]. rewrite DecompressAmount_nine by lia. lia.
Qed.

(** ** Scripts are read back *)

(** A point is also given by its first coordinate and the parity of the second: what is parsed from
    the 65 bytes is parsed from the 33 bytes, and written as the 65 bytes. *)
Class Secp256k1_Compression (K : Secp256k1) : Prop :=
  parse_uncompressed x y k : length x = 32%nat -> length y = 32%nat -> ec_pubkey_parse (4 :: x ++ y) = Some k ->
    ec_pubkey_parse ((2 + Z.land (nth 31 y 0) 1) :: x) = Some k /\ ec_pubkey_serialize k false = 4 :: x ++ y.

Lemma skipn_at (s : bytes) (i : nat) : (i < length s)%nat -> skipn i s = at_ s i :: skipn (S i) s.
Proof. intros Hi. apply skipn_nth_error. apply nth_error_nth'. exact Hi. Qed.

Lemma slice_skipn (s : bytes) (i n : nat) : skipn i s = slice s i n ++ skipn (i + n) s.
Proof. unfold slice. rewrite (Nat.add_comm i n), <- skipn_skipn. symmetry. apply firstn_skipn. Qed.

Lemma slice_length (s : bytes) (i n : nat) : (i + n <= length s)%nat -> length (slice s i n) = n.
Proof. intros L. unfold slice. rewrite length_firstn, length_skipn. lia. Qed.

Lemma slice_all (s : bytes) (n : nat) : length s = n -> slice s 0 n = s.
Proof. intros <-. apply firstn_all. Qed.

Lemma slice_ok (s : bytes) (i n : nat) : bytes_ok s -> bytes_ok (slice s i n).
Proof. intros Ok. unfold slice. apply Forall_firstn, Forall_skipn. exact Ok. Qed.

Lemma len_nat (s : bytes) (n : nat) : len s = Z.of_nat n -> length s = n.
Proof. unfold len. lia. Qed.

Ltac eqbs := repeat match goal with
  | E : (_ && _) = true |- _ => apply andb_true_iff in E as [? ?]
  | E : (_ =? _) = true |- _ => apply Z.eqb_eq in E
  end.

Lemma IsToKeyID_spec s k : IsToKeyID s = Some k -> length k = 20%nat /\ s = [OP_DUP; OP_HASH160; 20] ++ k ++ [OP_EQUALVERIFY; OP_CHECKSIG].
Proof.
  unfold IsToKeyID. destruct (_ && _) eqn:E; [|discriminate]. intros [= <-]. eqbs.
  match goal with L : len s = 25 |- _ => apply (len_nat s 25) in L end. split; [apply slice_length; lia|].
  change s with (skipn 0 s) at 1. rewrite !(skipn_at s 0), !(skipn_at s 1), !(skipn_at s 2), (slice_skipn s 3 20) by lia.
  change (3 + 20)%nat with 23%nat. rewrite (skipn_at s 23), (skipn_at s 24), (skipn_all2 (n := 25)) by lia. cbn [app]. congruence.
Qed.

Lemma IsToScriptID_spec s k : IsToScriptID s = Some k -> length k = 20%nat /\ s = [OP_HASH160; 20] ++ k ++ [OP_EQUAL].
Proof.
  unfold IsToScriptID. destruct (_ && _) eqn:E; [|discriminate]. intros [= <-]. eqbs.
  match goal with L : len s = 23 |- _ => apply (len_nat s 23) in L end. split; [apply slice_length; lia|].
  change s with (skipn 0 s) at 1. rewrite !(skipn_at s 0), !(skipn_at s 1), (slice_skipn s 2 20) by lia.
  change (2 + 20)%nat with 22%nat. rewrite (skipn_at s 22), (skipn_all2 (n := 23)) by lia. cbn [app]. congruence.
Qed.

Section Read.
Context {K : Secp256k1} {C : Secp256k1_Compression K} (buf : bytes).

(** A key in a script: the header and the bytes after it. *)
Lemma IsToPubKey_spec s pubkey : IsToPubKey buf s = Some pubkey ->
  (exists h x, (h = 2 \/ h = 3) /\ length x = 32%nat /\ s = [33; h] ++ x ++ [OP_CHECKSIG] /\ pubkey = memcpy buf 0 (h :: x)) \/
  (exists x y k, length x = 32%nat /\ length y = 32%nat /\ s = [65] ++ (4 :: x ++ y) ++ [OP_CHECKSIG] /\ pubkey = memcpy buf 0 (4 :: x ++ y) /\
     ec_pubkey_parse (4 :: x ++ y) = Some k).
Proof.
  unfold IsToPubKey. destruct (_ && _) eqn:E.
  - intros [= <-]. left. eqbs. match goal with L : len s = 35 |- _ => apply (len_nat s 35) in L as Ls end.
    assert (S1 : slice s 1 33 = at_ s 1 :: slice s 2 32) by (unfold slice; rewrite (skipn_at s 1) by lia; reflexivity).
    assert (Hh : at_ s 1 = 2 \/ at_ s 1 = 3) by (match goal with E : (_ || _) = true |- _ => apply orb_true_iff in E as [E|E]; apply Z.eqb_eq in E; auto end).
    exists (at_ s 1), (slice s 2 32). split; [exact Hh|]. split; [apply slice_length; lia|]. split.
    + change s with (skipn 0 s) at 1. rewrite !(skipn_at s 0), !(skipn_at s 1), (slice_skipn s 2 32) by lia.
      change (2 + 32)%nat with 34%nat. rewrite (skipn_at s 34), (skipn_all2 (n := 35)) by lia. cbn [app]. congruence.
    + rewrite S1. apply Set_key. cbn [key_bytes]. unfold len. cbn [length]. rewrite slice_length by lia. destruct Hh as [-> | ->]; cbn; lia.
  - clear E. destruct (_ && _) eqn:E; [|discriminate]. intros F. right. eqbs. match goal with L : len s = 67 |- _ => apply (len_nat s 67) in L as Ls end.
    match goal with Q : at_ s 1 = 4 |- _ => rename Q into Q4 end.
    set (x := slice s 2 32). set (y := slice s 34 32). assert (Lx : length x = 32%nat) by (apply slice_length; lia). assert (Ly : length y = 32%nat) by (apply slice_length; lia).
    assert (Sk : skipn 1 s = 4 :: x ++ y ++ [OP_CHECKSIG]).
    { rewrite (skipn_at s 1), (slice_skipn s 2 32) by lia. change (2 + 32)%nat with 34%nat. rewrite (slice_skipn s 34 32). change (34 + 32)%nat with 66%nat.
      rewrite (skipn_at s 66), (skipn_all2 (n := 67)) by lia. fold x y. congruence. }
    assert (S1 : slice s 1 65 = 4 :: x ++ y).
    { unfold slice. rewrite Sk, app_assoc. cbn [firstn]. f_equal. rewrite firstn_app, firstn_all2 by (rewrite length_app; lia).
      replace (64 - length (x ++ y))%nat with 0%nat by (rewrite length_app; lia). apply app_nil_r. }
    assert (Kb : key_bytes (4 :: x ++ y)) by (cbn [key_bytes]; unfold len; cbn [length]; rewrite length_app, Lx, Ly; cbn; lia).
    rewrite S1, (Set_key buf _ Kb) in F. unfold IsFullyValid in F. destruct (negb (IsValid _)); [discriminate|].
    rewrite (proj2 (key_of_memcpy buf _ Kb)) in F. destruct (ec_pubkey_parse (4 :: x ++ y)) as [k|] eqn:P; [|discriminate]. injection F as <-.
    exists x, y, k. split; [exact Lx|]. split; [exact Ly|]. split; [|split; [reflexivity | exact P]].
    change s with (skipn 0 s) at 1. rewrite (skipn_at s 0), Sk by lia. cbn [app]. rewrite <- app_assoc. congruence.
Qed.

Lemma memcpy_front (b p : bytes) : memcpy b 0 p = p ++ skipn (length p) b.
Proof. reflexivity. Qed.

Lemma slice_front (h : Z) (x t : bytes) (n : nat) : length x = n -> slice ((h :: x) ++ t) 1 n = x.
Proof. intros <-. unfold slice. change (skipn 1 ((h :: x) ++ t)) with (x ++ t). now rewrite firstn_app, firstn_all, Nat.sub_diag, app_nil_r. Qed.

Lemma special_read script0 (h : Z) (x rest s : bytes) (n : nat) : 0 <= h < nSpecialScripts -> GetSpecialSize h = Z.of_nat n -> length x = n ->
  DecompressScript buf script0 h x = Ok (true, s) -> Unserialize_script buf script0 ((h :: x) ++ rest) = Some (s, rest).
Proof.
  unfold nSpecialScripts. intros Hh Hn Lx D. unfold Unserialize_script, rbind at 1.
  assert (R : ReadVarInt 32 ((h :: x) ++ rest) = Some (h, x ++ rest)).
  { assert (h = 0 \/ h = 1 \/ h = 2 \/ h = 3 \/ h = 4 \/ h = 5) as [ -> | [ -> | [ -> | [ -> | [ -> | -> ] ] ] ] ] by lia; reflexivity. }
  rewrite R. unfold nSpecialScripts. destruct (Z.ltb_spec h 6); [|lia]. unfold rbind. rewrite Hn, Nat2Z.id, read_app by exact Lx. now rewrite D.
Qed.

Lemma decompress_key script0 (b : Z) (x y : bytes) k : 0 <= b < 2 -> length x = 32%nat -> length y = 32%nat ->
  ec_pubkey_parse ((2 + b) :: x) = Some k -> ec_pubkey_serialize k false = 4 :: x ++ y ->
  DecompressScript buf script0 (4 + b) x = Ok (true, [65] ++ (4 :: x ++ y) ++ [OP_CHECKSIG]).
Proof.
  intros Hb Lx Ly P Ser.
  assert (Kc : key_bytes ((2 + b) :: x)) by (assert (b = 0 \/ b = 1) as [-> | ->] by lia; cbn [key_bytes]; unfold len; cbn [length]; rewrite Lx; split; reflexivity).
  assert (Ku : key_bytes (4 :: x ++ y)) by (cbn [key_bytes]; unfold len; cbn [length]; rewrite length_app, Lx, Ly; cbn; lia).
  assert (D : Decompress (CPubKey_of buf ((2 + b) :: x)) = (true, memcpy (memcpy buf 0 ((2 + b) :: x)) 0 (4 :: x ++ y))).
  { unfold Decompress, CPubKey_of. rewrite (Set_key buf _ Kc). unfold IsValid. destruct (key_of_memcpy buf _ Kc) as [-> ->].
    destruct (Z.ltb_spec 0 (len ((2 + b) :: x))) as [_|X]; [|unfold len in X; cbn in X; lia]. cbn [negb]. now rewrite P, Ser, (Set_key _ _ Ku). }
  unfold DecompressScript. assert (Ef : (4 + b =? 0) = false /\ (4 + b =? 1) = false /\ (4 + b =? 2) = false /\ (4 + b =? 3) = false /\ (4 + b =? 4) || (4 + b =? 5) = true)
    by (assert (b = 0 \/ b = 1) as [-> | ->] by lia; repeat split).
  destruct Ef as (-> & -> & -> & -> & ->). cbn [orb]. rewrite (slice_all x 32 Lx). replace (4 + b - 2) with (2 + b) by lia. rewrite D. cbn [negb].
  destruct (key_of_memcpy (memcpy buf 0 ((2 + b) :: x)) _ Ku) as [Sz Dt]. unfold pk_data in Dt. rewrite Sz in *.
  assert (Lu : len (4 :: x ++ y) = 65) by (unfold len; cbn [length]; rewrite length_app, Lx, Ly; reflexivity). rewrite Lu in *. cbn [Z.eqb Pos.eqb assert_].
  now rewrite <- Dt at 2.
Qed.

Lemma Compress_spec script0 s p : bytes_ok s -> Compress buf s = Some p ->
  bytes_ok p /\ (length p = 21%nat \/ length p = 33%nat) /\ forall rest, Unserialize_script buf script0 (p ++ rest) = Some (s, rest).
Proof.
  intros Ok. unfold Compress. destruct (IsToKeyID s) as [k|] eqn:E1; [|destruct (IsToScriptID s) as [k|] eqn:E2].
  - intros [= <-]. apply IsToKeyID_spec in E1 as [Lk ->]. rewrite !bytes_ok_app in Ok. split; [constructor; [unfold is_byte; lia | tauto]|].
    split; [left; cbn; lia|]. intros rest. apply (special_read _ _ _ _ _ 20); [unfold nSpecialScripts; lia | reflexivity | exact Lk|].
    unfold DecompressScript. now rewrite (slice_all k 20 Lk).
  - intros [= <-]. apply IsToScriptID_spec in E2 as [Lk ->]. rewrite !bytes_ok_app in Ok. split; [constructor; [unfold is_byte; lia | tauto]|].
    split; [left; cbn; lia|]. intros rest. apply (special_read _ _ _ _ _ 20); [unfold nSpecialScripts; lia | reflexivity | exact Lk|].
    unfold DecompressScript. now rewrite (slice_all k 20 Lk).
  - clear E1 E2. destruct (IsToPubKey buf s) as [pk|] eqn:E; [|discriminate].
    apply IsToPubKey_spec in E as [(h & x & Hh & Lx & -> & ->)|(x & y & k & Lx & Ly & -> & -> & P)]; rewrite memcpy_front, !bytes_ok_app in *.
    + unfold at_. cbn [app nth]. change (h :: x ++ ?t) with ((h :: x) ++ t). rewrite (slice_front h x _ 32 Lx).
      destruct Hh as [-> | ->]; cbn [Z.eqb Pos.eqb orb]; intros [= <-].
      all: split; [constructor; [unfold is_byte; lia | tauto]|]; split; [right; cbn; lia|]; intros rest; apply (special_read _ _ _ _ _ 32);
        [unfold nSpecialScripts; lia | reflexivity | exact Lx|]; unfold DecompressScript; now rewrite (slice_all x 32 Lx).
    + replace (at_ ((4 :: x ++ y) ++ skipn (length (4 :: x ++ y)) buf) 0) with 4 by reflexivity. cbn [Z.eqb Pos.eqb orb].
      assert (N : at_ ((4 :: x ++ y) ++ skipn (length (4 :: x ++ y)) buf) 64 = nth 31 y 0).
      { unfold at_. rewrite app_nth1 by (cbn [length]; rewrite length_app; lia). cbn [nth]. rewrite app_nth2 by lia. now rewrite Lx. }
      rewrite N. replace (slice ((4 :: x ++ y) ++ skipn (length (4 :: x ++ y)) buf) 1 32) with x
        by (cbn [app]; rewrite <- app_assoc; symmetry; exact (slice_front 4 x _ 32 Lx)).
      intros [= <-]. destruct (parse_uncompressed x y k Lx Ly P) as [Pc Ps]. pose proof (Z.mod_pos_bound (nth 31 y 0) 2 ltac:(lia)) as B.
      assert (Eb : Z.land (nth 31 y 0) 1 = nth 31 y 0 mod 2) by exact (Z.land_ones _ 1 ltac:(lia)). rewrite Eb in *.
      assert (Q : Z.lor 4 (nth 31 y 0 mod 2) = 4 + nth 31 y 0 mod 2) by (assert (nth 31 y 0 mod 2 = 0 \/ nth 31 y 0 mod 2 = 1) as [-> | ->] by lia; reflexivity).
      rewrite Q. set (b := nth 31 y 0 mod 2) in *. destruct Ok as (_ & Ok & _).
      split; [constructor; [unfold is_byte; lia|]; apply (bytes_ok_app [4] (x ++ y)) in Ok as [_ Ok]; apply bytes_ok_app in Ok; tauto|].
      split; [right; cbn; lia|]. intros rest. apply (special_read _ _ _ _ _ 32); [unfold nSpecialScripts; lia | | exact Lx|].
      { assert (b = 0 \/ b = 1) as [-> | ->] by lia; reflexivity. }
      apply (decompress_key script0 b x y k); assumption || lia.
Qed.

Definition script_valid (s : CScript) : Prop := bytes_ok s /\ len s + nSpecialScripts < 2 ^ 32.

Lemma Serialize_script_spec script0 s : script_valid s -> exists p, Serialize_script buf s = Some p /\ bytes_ok p /\
  forall rest, Unserialize_script buf script0 (p ++ rest) = Some (s, rest).
Proof.
  intros [Ok L]. unfold Serialize_script. destruct (Compress buf s) as [p|] eqn:E.
  - destruct (Compress_spec script0 s p Ok E) as (Okp & _ & R). now exists p.
  - pose proof (len_nonneg s). unfold nSpecialScripts in *. rewrite u32_small by lia.
    destruct (ser_some (c := varint_codec 32) (Lawful := varint_codec_lawful 32 (or_introl eq_refl)) (len s + 6)) as (p & Ep & Okp); [lia|].
    cbn [Serialize varint_codec] in Ep. rewrite Ep. exists (p ++ s). split; [reflexivity|]. split; [now apply bytes_ok_app|]. intros rest.
    unfold Unserialize_script, rbind at 1. rewrite <- app_assoc, (ReadVarInt_WriteVarInt 32 (len s + 6) p (s ++ rest) (or_introl eq_refl) ltac:(lia) Ep).
    unfold nSpecialScripts. destruct (Z.ltb_spec (len s + 6) 6); [lia|]. unfold MAX_SCRIPT_SIZE_AFTER_GENESIS. destruct (Z.ltb_spec 0xffffffff (len s + 6 - 6)); [lia|].
    apply read_app. unfold len in *. lia.
Qed.

Definition out_valid (o : CTxOut) : Prop := amount_ok (nValue o) /\ script_valid (scriptPubKey o).

#[local] Instance out_readable : Readable (CTxOutCompressor_codec buf) out_valid.
Proof.
  split; intros [v sc]; cbn [Serialize Unserialize CTxOutCompressor_codec nValue scriptPubKey].
  - intros [[Ha Hb] Hs]. destruct (CompressAmount_spec v (conj Ha Hb)) as (x & -> & Hx & _). destruct (Serialize_script_spec [] sc Hs) as (q & -> & Okq & _).
    destruct (ser_some (c := varint_codec 64) (Lawful := varint_codec_lawful 64 (or_intror eq_refl)) x Hx) as (p & Ep & Okp). cbn [Serialize varint_codec] in Ep. rewrite Ep.
    exists (p ++ q). split; [reflexivity | now apply bytes_ok_app].
  - intros p rest Hr [Ha Hs]. cbn [nValue scriptPubKey] in *. destruct (CompressAmount_spec v Ha) as (x & -> & Hx & D).
    destruct (Serialize_script_spec [] sc Hs) as (q & -> & Okq & R). intros E. apply wbind_some in E as (a & b & Ea & Eb & ->). apply Some_inj in Eb as <-.
    unfold rbind. rewrite <- app_assoc, (ReadVarInt_WriteVarInt 64 x a (q ++ rest) (or_intror eq_refl) Hx Ea), R. unfold rret. now rewrite D.
Qed.

(** A coin that can be stored. *)
Definition coin_valid (c : Coin) : Prop := out_valid (out c) /\ 0 <= nHeightAndIsCoinBase c < 2 ^ 32.

#[local] Instance coin_readable : Readable (Coin_codec buf) coin_valid.
Proof.
  assert (Sp : forall c, coin_valid c -> IsSpent c = false).
  { intros c [[[Ha _] _] _]. unfold IsSpent, CTxOut_IsNull. apply Z.eqb_neq. lia. }
  split; cbn [Serialize Unserialize Coin_codec]; [intros c V | intros c p rest Hr V]; rewrite (Sp c V); destruct V as [Vo Vc].
  - destruct (rd_some (c := CTxOutCompressor_codec buf) (out c) Vo) as (q & -> & Okq).
    destruct (ser_some (c := varint_codec 32) (Lawful := varint_codec_lawful 32 (or_introl eq_refl)) _ Vc) as (p & Ep & Okp). cbn [Serialize varint_codec] in Ep. rewrite Ep.
    exists (p ++ q). split; [reflexivity | now apply bytes_ok_app].
  - intros E. apply wbind_some in E as (a & b & Ea & Eb & ->).
    unfold rbind. rewrite <- app_assoc, (ReadVarInt_WriteVarInt 32 _ a (b ++ rest) (or_introl eq_refl) Vc Ea), (rd_read _ _ rest Hr Vo Eb).
    now destruct c.
Qed.

(** The height and the coinbase bit are the code again. *)
Lemma coin_code (code : Z) : 0 <= code < 2 ^ 32 ->
  u32 (Z.shiftr code 1 * 2 + if negb (Z.land code 1 =? 0) then 1 else 0) = code /\
  Z.lor (shl32 (code / 2) 1) (if negb (Z.land code 1 =? 0) then 1 else 0) = code.
Proof.
  intros Hc. assert (E : Z.land code 1 = code mod 2) by exact (Z.land_ones code 1 ltac:(lia)). rewrite E, Z.shiftr_div_pow2 by lia. change (2 ^ 1) with 2.
  pose proof (Z.div_mod code 2 ltac:(lia)). pose proof (Z.mod_pos_bound code 2 ltac:(lia)).
  assert (B : (if negb (code mod 2 =? 0) then 1 else 0) = code mod 2) by (destruct (Z.eqb_spec (code mod 2) 0); cbn; lia). rewrite B.
  split; [rewrite u32_small; lia|]. unfold shl32. rewrite Z.shiftl_mul_pow2, u32_small by lia. change (2 ^ 1) with 2.
  rewrite <- Z.add_nocarry_lor by (rewrite Z.land_comm; apply Z.bits_inj'; intros k Hk; rewrite Z.land_spec, Z.bits_0;
    destruct (Z.eq_dec k 0) as [->|]; [rewrite (Z.bit0_odd (_ * 2)), Z.odd_mul, andb_false_r, andb_false_r; reflexivity|];
    change 2 with (2 ^ 1) at 1; rewrite Z.mod_pow2_bits_high by lia; reflexivity). lia.
Qed.

#[local] Instance undo_readable : Readable (TxInUndo_codec buf) coin_valid.
Proof.
  split; cbn [Serialize Unserialize TxInUndo_codec]; [intros [o code] V | intros [o code] p rest Hr V]; destruct V as [Vo Vc]; cbn [out nHeightAndIsCoinBase] in *;
    destruct (coin_code code Vc) as [C1 C2]; unfold GetHeight, coin_IsCoinBase; cbn [out nHeightAndIsCoinBase]; rewrite C1.
  - destruct (rd_some (c := CTxOutCompressor_codec buf) o Vo) as (q & -> & Okq).
    destruct (ser_some (c := varint_codec 32) (Lawful := varint_codec_lawful 32 (or_introl eq_refl)) _ Vc) as (p & Ep & Okp). cbn [Serialize varint_codec] in Ep. rewrite Ep.
    eexists. split; [reflexivity|]. rewrite !bytes_ok_app. split; [exact Okp|]. split; [|exact Okq]. destruct (0 <? Z.shiftr code 1); now apply bytes_okb.
  - intros E. apply wbind_some in E as (a & b & Ea & Eb & ->). apply wbind_some in Eb as (v & d & Ev & Ed & ->). apply Some_inj in Ev as <-.
    unfold rbind at 1. rewrite <- !app_assoc, (ReadVarInt_WriteVarInt 32 _ a _ (or_introl eq_refl) Vc Ea). rewrite <- Z.div2_div, <- Z.div2_spec.
    assert (R : (if 0 <? Z.div2 code then ReadVarInt 31 else rret 0) ((if 0 <? Z.div2 code then ser_writedata8 0 else []) ++ d ++ rest) = Some (0, d ++ rest))
      by (destruct (0 <? Z.div2 code); reflexivity).
    unfold rbind at 1. rewrite R. unfold rbind. rewrite (rd_read _ _ rest Hr Vo Ed). unfold rret, Coin_of. rewrite Z.div2_div, C2. reflexivity.
Qed.

(** Readers never give bytes back. *)
Definition shrinks {A} (r : reader A) : Prop :=
  forall s a s', bytes_ok s -> r s = Some (a, s') -> bytes_ok s' /\ (length s' <= length s)%nat.

Lemma shrinks_bind {A B} (m : reader A) (k : A -> reader B) : shrinks m -> (forall a, shrinks (k a)) -> shrinks (rbind m k).
Proof.
  intros M Kk s b s' Ok E. apply rbind_some in E as (a & s1 & E1 & E2). destruct (M _ _ _ Ok E1) as [Ok1 L1]. destruct (Kk a _ _ _ Ok1 E2). split; [assumption | lia].
Qed.

Lemma shrinks_ret {A} (a : A) : shrinks (rret a).
Proof. intros s b s' Ok E. apply rret_some in E as [_ <-]. auto. Qed.

Lemma shrinks_read n : shrinks (read n).
Proof. intros s a s' Ok E. apply read_some in E as [-> _]. apply bytes_ok_app in Ok as [_ Ok]. rewrite length_app. split; [exact Ok | lia]. Qed.

Lemma shrinks_fail {A} : shrinks (@rfail A).
Proof. intros s a s' _ E. discriminate E. Qed.

Lemma shrinks_varint (w : Z) : shrinks (ReadVarInt w).
Proof.
  apply shrinks_bind; [|intros; apply shrinks_ret]. generalize 0 as n. generalize (varint_size 64) as m. induction m as [|m IH]; intros n; cbn [ReadVarInt_loop]; [apply shrinks_fail|].
  destruct (_ <? n); [apply shrinks_fail|]. apply shrinks_bind; [apply shrinks_bind; [apply shrinks_read | intros; apply shrinks_ret]|].
  intros d. destruct (_ =? 0); [apply shrinks_ret | apply IH].
Qed.

Lemma shrinks_script script0 : shrinks (Unserialize_script buf script0).
Proof.
  apply shrinks_bind; [apply shrinks_varint|]. intros nSize. destruct (nSize <? nSpecialScripts).
  - apply shrinks_bind; [apply shrinks_read|]. intros vch. destruct (DecompressScript _ _ _ _) as [[ok sc]| | | |]; [apply shrinks_ret | apply shrinks_fail ..].
  - cbv zeta. destruct (MAX_SCRIPT_SIZE_AFTER_GENESIS <? _); [apply shrinks_bind; [apply shrinks_read | intros; apply shrinks_ret] | apply shrinks_read].
Qed.

Lemma shrinks_undo : shrinks (Unserialize (TxInUndo_codec buf)).
Proof.
  apply shrinks_bind; [apply shrinks_varint|]. intros code. apply shrinks_bind; [destruct (0 <? code / 2); [apply shrinks_varint | apply shrinks_ret]|].
  intros _. apply shrinks_bind; [|intros; apply shrinks_ret]. apply shrinks_bind; [apply shrinks_varint|]. intros v.
  apply shrinks_bind; [apply shrinks_script | intros; apply shrinks_ret].
Qed.

Lemma shrinks_many {A} (r : reader A) (n : nat) : shrinks r -> shrinks (read_many r n).
Proof.
  intros R. induction n as [|n IH]; cbn [read_many]; [apply shrinks_ret|]. apply shrinks_bind; [exact R|]. intros a. apply shrinks_bind; [exact IH | intros; apply shrinks_ret].
Qed.

Lemma txundo_consumes : consumes (Unserialize (CTxUndo_codec buf)).
Proof.
  intros s a s' Ok E. cbn [Unserialize CTxUndo_codec] in E. apply rbind_some in E as (count & s1 & E1 & E2).
  destruct (WriteCompactSize_Read _ _ _ Ok E1) as (_ & p & Ep & ->). apply bytes_ok_app in Ok as [_ Ok].
  assert (Lp : (0 < length p)%nat) by (destruct p; [exfalso|cbn; lia]; unfold WriteCompactSize in Ep; repeat match type of Ep with context [if ?b then _ else _] => destruct b; try discriminate Ep end).
  assert (Sh : shrinks (if MAX_INPUTS_PER_TX <? count then rfail else read_many (Unserialize (TxInUndo_codec buf)) (Z.to_nat count)))
    by (destruct (MAX_INPUTS_PER_TX <? count); [apply shrinks_fail | apply shrinks_many, shrinks_undo]).
  destruct (Sh _ _ _ Ok E2) as [Ok' L']. rewrite length_app. split; [exact Ok' | lia].
Qed.

Definition txundo_valid (u : CTxUndo) : Prop := Forall coin_valid u /\ len u <= MAX_INPUTS_PER_TX.

#[local] Instance txundo_readable : Readable (CTxUndo_codec buf) txundo_valid.
Proof.
  assert (Mx : MAX_INPUTS_PER_TX < MAX_SIZE) by reflexivity.
  split; cbn [Serialize Unserialize CTxUndo_codec]; [intros u [V L] | intros u p rest Hr [V L]].
  - destruct (ser_some (c := compact_codec) (len u) (conj (len_nonneg u) (Z.le_trans _ _ _ L (Z.lt_le_incl _ _ Mx)))) as (a & Ea & Oka). cbn [Serialize compact_codec] in Ea. rewrite Ea.
    destruct (Serialize_elems_some (TxInUndo_codec buf) coin_valid u undo_readable V) as (q & -> & Okq). exists (a ++ q). split; [reflexivity | now apply bytes_ok_app].
  - intros E. apply wbind_some in E as (a & b & Ea & Eb & ->). unfold rbind at 1. rewrite <- app_assoc, (ReadCompactSize_Write _ _ _ (len_nonneg u) Ea).
    destruct (Z.ltb_spec MAX_INPUTS_PER_TX (len u)); [lia|]. unfold len. rewrite Nat2Z.id. exact (read_many_Serialize _ _ u b rest undo_readable Hr V Eb).
Qed.

Definition blockundo_valid (u : CBlockUndo) : Prop := Forall txundo_valid u /\ len u <= MAX_SIZE.

Lemma blockundo_readable sizeofTxUndo : 0 < sizeofTxUndo -> Readable (CBlockUndo_codec buf sizeofTxUndo) blockundo_valid.
Proof. exact (vector_codec_readable _ _ _ txundo_readable txundo_consumes). Qed.

Lemma CompressAmount_total a : exists x, CompressAmount a = Ok x.
Proof.
  unfold CompressAmount. destruct (Z.eqb_spec (u64 a) 0); [now exists 0|]. pose proof (u64_range a).
  pose proof (compress_loop_spec 9 (u64 a) 0 ltac:(lia) ltac:(lia) eq_refl) as L. destruct (compress_loop 9 (u64 a) 0) as [m e]. destruct L as (Hm & _ & _ & Nz).
  destruct (Z.ltb_spec e 9) as [L|L]; [|now eexists]. specialize (Nz L). pose proof (Z.mod_pos_bound m 10 ltac:(lia)).
  destruct (Z.leb_spec 1 (m mod 10)), (Z.leb_spec (m mod 10) 9); try lia. now eexists.
Qed.

Lemma DecompressScript_total (L : Secp256k1_Laws K) script0 nSize in_ : exists r, DecompressScript buf script0 nSize in_ = Ok r.
Proof.
  unfold DecompressScript. destruct (nSize =? 0); [now eexists|]. destruct (nSize =? 1); [now eexists|]. destruct (_ || _); [now eexists|]. destruct (_ || _); [|now eexists].
  unfold Decompress. destruct (negb (IsValid _)); [now eexists|]. destruct (ec_pubkey_parse _) as [k|]; [|now eexists]. cbn [negb].
  destruct (serialize_uncompressed k) as (x & -> & Lx & _).
  assert (Kb : key_bytes (4 :: x)) by (cbn [key_bytes]; unfold len; cbn [length]; rewrite Lx; split; reflexivity).
  rewrite (Set_key _ _ Kb), (proj1 (key_of_memcpy _ _ Kb)). unfold len. cbn [length]. rewrite Lx. now eexists.
Qed.
End Read.

(** ** Properties *)

(** C34: what is stored of coins is read back. Amounts are compressed without a failed assertion and
    decompress to themselves unless nine times the amount passes 64 bits; scripts of the special
    forms and all others, coins and the undo data of whole blocks are read back exactly, the rest of
    the stream untouched; and the assertion on the size of a decompressed key never fails. *)
Theorem stored_coins_roundtrip (K : Secp256k1) (L : Secp256k1_Laws K) (C : Secp256k1_Compression K) (buf : bytes) :
  (forall a, exists x, CompressAmount a = Ok x) /\
  (forall a, amount_ok a -> exists x, CompressAmount a = Ok x /\ DecompressAmount x = a) /\
  (forall script0 nSize vch, exists r, DecompressScript buf script0 nSize vch = Ok r) /\
  (forall c rest, coin_valid c -> bytes_ok rest ->
     exists p, Serialize (Coin_codec buf) c = Some p /\ Unserialize (Coin_codec buf) (p ++ rest) = Some (c, rest)) /\
  (forall size u rest, 0 < size -> blockundo_valid u -> bytes_ok rest ->
     exists p, Serialize (CBlockUndo_codec buf size) u = Some p /\ Unserialize (CBlockUndo_codec buf size) (p ++ rest) = Some (u, rest)).
Proof.
  split; [exact CompressAmount_total|]. split; [intros a Ha; destruct (CompressAmount_spec a Ha) as (x & E & _ & D); eauto|].
  split; [exact (DecompressScript_total buf L)|]. split.
  - intros c rest V Hr. destruct (rd_some (Readable := coin_readable buf) c V) as (p & E & _). exists p. split; [exact E|]. exact (rd_read (Readable := coin_readable buf) c p rest Hr V E).
  - intros size u rest Hs V Hr. pose proof (blockundo_readable buf size Hs) as R. destruct (rd_some (Readable := R) u V) as (p & E & _). exists p. split; [exact E|].
    exact (rd_read (Readable := R) u p rest Hr V E).
Qed.

Lemma sample_compression : Secp256k1_Compression sample_secp.
Proof.
  intros x y k Lx Ly E. cbn [ec_pubkey_parse sample_secp] in E. destruct (bytes_eqb (4 :: x ++ y) (4 :: sample_x ++ sample_x)) eqn:B.
  - apply bytes_eqb_eq, (f_equal (@tl Z)) in B as Q. cbn [tl] in Q. apply app_inj_1 in Q as [-> ->]; [|exact Lx]. now destruct k.
  - replace (bytes_eqb (4 :: x ++ y) (3 :: sample_x)) with false in E; [discriminate|]. symmetry. apply not_true_iff_false. intros Q. apply bytes_eqb_eq in Q. discriminate Q.
Qed.

(** A pay-to-public-key output of the key of [sample_secp], and one of a hash. *)
Definition sample_undo : CBlockUndo :=
  [[Coin_of (mkTxOut 5000000000 ([65] ++ (4 :: sample_x ++ sample_x) ++ [OP_CHECKSIG])) 1 true;
    Coin_of (mkTxOut 123 ([OP_DUP; OP_HASH160; 20] ++ repeat 7 20 ++ [OP_EQUALVERIFY; OP_CHECKSIG])) 170 false]; []].

Lemma sample_undo_valid : blockundo_valid sample_undo.
Proof.
  assert (V : forall v sc h cb, amount_ok v -> bytes_ok sc -> len sc < 100 -> 0 <= h < 1000 -> coin_valid (Coin_of (mkTxOut v sc) h cb)).
  { intros v sc h cb A Ok Ls Hh. split; [split; [exact A | split; [exact Ok | unfold nSpecialScripts; cbn; lia]]|]. unfold Coin_of, shl32. cbn [nHeightAndIsCoinBase].
    rewrite Z.shiftl_mul_pow2, u32_small by lia. assert (0 <= Z.lor (h * 2 ^ 1) (if cb then 1 else 0) < 2 ^ 20); [|lia].
    split; [apply Z.lor_nonneg; destruct cb; lia|]. apply Z.log2_lt_cancel. rewrite Z.log2_lor by (destruct cb; lia). apply Z.max_lub_lt; [|destruct cb; reflexivity].
    destruct (Z.eq_dec h 0) as [->|]; [reflexivity|]. change (Z.log2 (2 ^ 20)) with 20. apply Z.log2_lt_pow2; lia. }
  split; [|apply Z.leb_le; reflexivity]. constructor; [|constructor; [split; [constructor | apply Z.leb_le; reflexivity] | constructor]]. split; [|apply Z.leb_le; reflexivity].
  constructor; [|constructor; [|constructor]]; apply V; try (unfold amount_ok; lia); try (now apply bytes_okb); try lia; unfold len; cbn; lia.
Qed.

Lemma stored_coins_roundtrip_witness : exists p,
  Serialize (CBlockUndo_codec (H := sample_secp) (repeat 0 65) 24) sample_undo = Some p /\
  Unserialize (CBlockUndo_codec (H := sample_secp) (repeat 0 65) 24) (p ++ [1; 2]) = Some (sample_undo, [1; 2]) /\ length p = 65%nat.
Proof.
  destruct (stored_coins_roundtrip sample_secp sample_secp_laws sample_compression (repeat 0 65)) as (_ & _ & _ & _ & R).
  destruct (R 24 sample_undo [1; 2]) as (p & E & U); [lia | exact sample_undo_valid | now apply bytes_okb | exists p; split; [exact E|]; split; [exact U|]; vm_compute in E; injection E as <-; reflexivity].
Defined.
End Compressor.
