(* ===== verification/Disk.v ===== *)
(** * Blocks and undo data on disk (src/src/validation.cpp, src/src/chain.h)

    A block or its undo data is appended to a numbered file behind a small header; the index keeps
    the position. Undo data is followed by a checksum that also covers the hash of the previous
    block. Files are their bytes; a disk that fails is not modelled. *)

From stdpp Require Import gmap.
From S2P Require Import Prelude Outcome Endian Serialize Sha256 Hash Transaction Block ArithUint256 BlockIndex Chain Pow PubKey SigHash Coins Undo Compressor.
Import Serialize Hash Transaction Block BlockIndex Pow PubKey SigHash Coins Undo Compressor.

Module Disk.
Local Open Scope Z_scope.
Local Open Scope outcome_scope.

Record CDiskBlockPos : Type := mkPos { pos_nFile : Z; nPos : Z }.
Definition CDiskBlockPos_new : CDiskBlockPos := mkPos (-1) 0.
Definition pos_IsNull (pos : CDiskBlockPos) : bool := pos_nFile pos =? -1.

Definition GetBlockPos (b : CBlockIndex) : CDiskBlockPos := if hasData (nStatus b) then mkPos (nFile b) (nDataPos b) else CDiskBlockPos_new.
Definition GetUndoPos (b : CBlockIndex) : CDiskBlockPos := if hasUndo (nStatus b) then mkPos (nFile b) (nUndoPos b) else CDiskBlockPos_new.

(** The numbered files with one prefix. *)
Abbreviation files := (gmap Z bytes).

(** The bytes of the file; a file that is not there is made unless it is only to be read. *)
Definition OpenDiskFile (fs : files) (pos : CDiskBlockPos) (fReadOnly : bool) : option bytes :=
  if pos_IsNull pos then None
  else
    match fs !! pos_nFile pos with
    | Some file => Some file
    | None => if fReadOnly then None else Some []
    end.

(** [fseek] and [fwrite]: a gap is filled with zeros. *)
Definition write_at (file : bytes) (pos : nat) (data : bytes) : bytes :=
  firstn pos (file ++ repeat 0 (pos - length file)) ++ data ++ skipn (pos + length data) file.

Definition GetBlockFileBlockHeaderSize (nBlockSize : Z) : Z := if 0xffffffff <=? nBlockSize then 16 else 8.

Definition WriteIndexHeader (messageStart : bytes) (nSize : Z) : bytes :=
  if 0xffffffff <=? nSize then messageStart ++ ser_writedata32 0xffffffff ++ ser_writedata64 nSize
  else messageStart ++ ser_writedata32 nSize.

Section Files.
Context `{Secp256k1}.
(** What the memory of a new key held, and the sizes of the elements of vectors in memory. *)
Context (buf : bytes) (sizeofRef sizeofIn sizeofOut sizeofTxUndo : Z).

Definition WriteBlockToDisk (fs : files) (block : CBlock) (pos : CDiskBlockPos) (messageStart : bytes)
  : outcome (option (files * CDiskBlockPos * CDiskBlockMetaData)) :=
  match OpenDiskFile fs pos false with
  | None => Ok None
  | Some file =>
      let* data := or_throw std_exception (Serialize (CBlock_codec sizeofRef sizeofIn sizeofOut) block) in
      let head := WriteIndexHeader messageStart (len data) in
      let metaData := mkMetaData (Hash1 data) (len data) in
      let file := write_at file (Z.to_nat (nPos pos)) (head ++ data) in
      Ok (Some (<[pos_nFile pos := file]> fs, mkPos (pos_nFile pos) (u32 (nPos pos + len head)), metaData))
  end.

(** Nothing, when the function returns false. *)
Definition ReadBlockAtPos (fs : files) (pos : CDiskBlockPos) (params : Params) : option CBlock :=
  match OpenDiskFile fs pos true with
  | None => None
  | Some file =>
      match Unserialize (CBlock_codec sizeofRef sizeofIn sizeofOut) (skipn (Z.to_nat (nPos pos)) file) with
      | None => None
      | Some (block, _) =>
          match hdr_GetHash (header block) with
          | None => None
          | Some hash => if CheckProofOfWork hash (hdr_nBits (header block)) params then Some block else None
          end
      end
  end.

Definition ReadBlockFromDisk (fs : files) (pindex : CBlockIndex) (params : Params) : outcome (option CBlock) :=
  match ReadBlockAtPos fs (GetBlockPos pindex) params with
  | None => Ok None
  | Some block =>
      let* hash := or_throw std_exception (hdr_GetHash (header block)) in
      let* expected := Chain.GetBlockHash pindex in
      Ok (if bool_decide (hash = expected) then Some block else None)
  end.

(** The checksum: the hash of the previous block, then the undo data as it is in the file. *)
Definition undo_checksum (hashBlock data : bytes) : option bytes :=
  GetHash (stream_out (stream_out CHashWriter_new (blob_codec 32) hashBlock) (blob_codec (length data)) data).

Definition UndoWriteToDisk (fs : files) (blockundo : CBlockUndo) (pos : CDiskBlockPos) (hashBlock messageStart : bytes)
  : outcome (option (files * CDiskBlockPos)) :=
  match OpenDiskFile fs pos false with
  | None => Ok None
  | Some file =>
      let* data := or_throw std_exception (Serialize (CBlockUndo_codec buf sizeofTxUndo) blockundo) in
      let head := WriteIndexHeader messageStart (len data) in
      let* sum := or_throw std_exception (undo_checksum hashBlock data) in
      let file := write_at file (Z.to_nat (nPos pos)) (head ++ data ++ sum) in
      Ok (Some (<[pos_nFile pos := file]> fs, mkPos (pos_nFile pos) (u32 (nPos pos + len head))))
  end.

Definition UndoReadFromDisk (fs : files) (pos : CDiskBlockPos) (hashBlock : bytes) : option CBlockUndo :=
  match OpenDiskFile fs pos true with
  | None => None
  | Some file =>
      let s := skipn (Z.to_nat (nPos pos)) file in
      match Unserialize (CBlockUndo_codec buf sizeofTxUndo) s with
      | None => None
      | Some (blockundo, s1) =>
          match read 32 s1 with
          | None => None
          | Some (hashChecksum, _) =>
              if bool_decide (undo_checksum hashBlock (firstn (length s - length s1) s) = Some hashChecksum) then Some blockundo else None
          end
      end
  end.
End Files.

(** ** Lemmas *)

Lemma write_at_read (file a b : bytes) (pos : nat) :
  skipn (pos + length a) (write_at file pos (a ++ b)) = b ++ skipn (pos + length (a ++ b)) file.
Proof.
  unfold write_at. set (p := firstn pos _). assert (Lp : length p = pos) by (unfold p; rewrite length_firstn, length_app, repeat_length; lia).
  rewrite <- Lp at 1. rewrite (Nat.add_comm (length p)), <- skipn_skipn, skipn_app, skipn_all, Nat.sub_diag. cbn [app].
  change (skipn 0 ?l) with l. rewrite <- app_assoc, skipn_app, skipn_all, Nat.sub_diag. reflexivity.
Qed.

Lemma write_at_ok (file data : bytes) (pos : nat) : bytes_ok file -> bytes_ok data -> bytes_ok (write_at file pos data).
Proof.
  intros Of Od. unfold write_at. rewrite !bytes_ok_app. split; [|split; [exact Od | now apply Forall_skipn]].
  apply Forall_firstn, bytes_ok_app. split; [exact Of|]. apply Stdlib.Lists.List.Forall_forall. intros x I. apply repeat_spec in I. subst x. unfold is_byte. lia.
Qed.

Lemma undo_checksum_spec (hash data : bytes) : undo_checksum hash data = Some (sha256d (hash ++ data)).
Proof. unfold undo_checksum. apply hw_GetHash. apply (hw_stream _ _ (blob_codec (length data)) data data); [|reflexivity]. exact (hw_stream _ [] (blob_codec 32) hash hash hw_new eq_refl). Qed.

Lemma WriteIndexHeader_length (magic : bytes) (n : Z) : length magic = 4%nat -> len (WriteIndexHeader magic n) = GetBlockFileBlockHeaderSize n.
Proof.
  intros L. unfold WriteIndexHeader, GetBlockFileBlockHeaderSize, len, ser_writedata32, ser_writedata64. destruct (_ <=? n); rewrite !length_app, L; reflexivity.
Qed.

Lemma OpenDiskFile_write (fs : files) (pos pos' : CDiskBlockPos) (file : bytes) : pos_nFile pos' = pos_nFile pos -> pos_IsNull pos = false ->
  OpenDiskFile (<[pos_nFile pos := file]> fs) pos' true = Some file.
Proof. intros E N. unfold OpenDiskFile, pos_IsNull in *. rewrite E, N. now rewrite lookup_insert_eq. Qed.

Definition files_ok (fs : files) : Prop := forall n file, fs !! n = Some file -> bytes_ok file.

(** A position for the data, whose header does not pass the 32 bits of a position. *)
Definition pos_ok (pos : CDiskBlockPos) : Prop := pos_IsNull pos = false /\ 0 <= nPos pos /\ nPos pos + 16 < 2 ^ 32.

Lemma open_ok (fs : files) (pos : CDiskBlockPos) : files_ok fs -> pos_IsNull pos = false -> exists file, OpenDiskFile fs pos false = Some file /\ bytes_ok file.
Proof.
  intros F N. unfold OpenDiskFile. rewrite N. destruct (fs !! pos_nFile pos) as [file|] eqn:E; [exists file; eauto|]. exists []. split; [reflexivity | constructor].
Qed.

(** Where the data is found. *)
Lemma written_data (fs : files) (pos : CDiskBlockPos) (file magic data : bytes) : pos_ok pos -> length magic = 4%nat ->
  let head := WriteIndexHeader magic (len data) in
  let pos' := mkPos (pos_nFile pos) (u32 (nPos pos + len head)) in
  nPos pos' = nPos pos + GetBlockFileBlockHeaderSize (len data) /\
  forall tail, OpenDiskFile (<[pos_nFile pos := write_at file (Z.to_nat (nPos pos)) (head ++ data ++ tail)]> fs) pos' true =
      Some (write_at file (Z.to_nat (nPos pos)) (head ++ data ++ tail)) /\
    skipn (Z.to_nat (nPos pos')) (write_at file (Z.to_nat (nPos pos)) (head ++ data ++ tail)) =
      data ++ tail ++ skipn (Z.to_nat (nPos pos) + length (head ++ data ++ tail)) file.
Proof.
  intros (N & P0 & P1) L head pos'. assert (Lh : len head = GetBlockFileBlockHeaderSize (len data)) by exact (WriteIndexHeader_length magic _ L).
  assert (Hs : 0 <= len head <= 16) by (rewrite Lh; unfold GetBlockFileBlockHeaderSize; destruct (_ <=? _); lia).
  assert (E : nPos pos' = nPos pos + len head) by (cbn [pos' nPos]; apply u32_small; lia). split; [now rewrite E, Lh|]. intros tail.
  split; [exact (OpenDiskFile_write fs pos pos' _ eq_refl N)|]. rewrite E.
  replace (Z.to_nat (nPos pos + len head)) with (Z.to_nat (nPos pos) + length head)%nat by (unfold len in *; lia). rewrite write_at_read, <- app_assoc. reflexivity.
Qed.

Lemma block_file_roundtrip (sizeofRef sizeofIn sizeofOut : Z) (fs : files) (pos : CDiskBlockPos) (magic : bytes) (block : CBlock) (params : Params) (hash : bytes) :
  0 < sizeofRef -> 0 < sizeofIn -> 0 < sizeofOut -> files_ok fs -> pos_ok pos -> length magic = 4%nat ->
  block_valid block -> hdr_GetHash (header block) = Some hash -> CheckProofOfWork hash (hdr_nBits (header block)) params = true ->
  exists fs' pos' data, WriteBlockToDisk sizeofRef sizeofIn sizeofOut fs block pos magic = Ok (Some (fs', pos', mkMetaData (sha256d data) (len data))) /\
    Serialize (CBlock_codec sizeofRef sizeofIn sizeofOut) block = Some data /\
    nPos pos' = nPos pos + GetBlockFileBlockHeaderSize (len data) /\ ReadBlockAtPos sizeofRef sizeofIn sizeofOut fs' pos' params = Some block.
Proof.
  intros HR HI HO Fs Ps Lm Vb Eh Pw. destruct (open_ok fs pos Fs (proj1 Ps)) as (file & Ef & Of).
  assert (Osk : forall n, bytes_ok (skipn n file)) by (intros; now apply Forall_skipn). pose proof (CBlock_lawful sizeofRef sizeofIn sizeofOut HR HI HO) as Lb.
  destruct (ser_some (Lawful := Lb) block Vb) as (data & Ed & Od). destruct (written_data fs pos file magic data Ps Lm) as (Ep & W). specialize (W []) as (W1 & W2). rewrite app_nil_r in *.
  unfold WriteBlockToDisk. rewrite Ef, Ed. cbn [or_throw obind]. eexists _, _, data. split; [rewrite (Hash1_spec data : Hash1 data = sha256d data); reflexivity|]. split; [reflexivity|].
  split; [exact Ep|]. unfold ReadBlockAtPos. rewrite W1, W2. cbn [app].
  rewrite (ser_read (Lawful := Lb) block data _ (Osk _) Vb Ed), Eh, Pw. reflexivity.
Qed.

(** ** Properties *)

(** what is written to the block and undo files is read back. A valid block with proof of work is
    found again at the position that [WriteBlockToDisk] returns, with the hash and the size of its
    bytes as metadata; undo data is found again with the hash of the previous block it was written
    with, and with no other hash unless SHA-256 has a collision. *)
Theorem disk_roundtrip (K : Secp256k1) (C : Secp256k1_Compression K) (buf : bytes) (sizeofRef sizeofIn sizeofOut sizeofTxUndo : Z) (fs : files) (pos : CDiskBlockPos) (magic : bytes) :
  0 < sizeofRef -> 0 < sizeofIn -> 0 < sizeofOut -> 0 < sizeofTxUndo -> files_ok fs -> pos_ok pos -> bytes_ok magic -> length magic = 4%nat ->
  (forall block params hash, block_valid block -> hdr_GetHash (header block) = Some hash -> CheckProofOfWork hash (hdr_nBits (header block)) params = true ->
     exists fs' pos' data, WriteBlockToDisk sizeofRef sizeofIn sizeofOut fs block pos magic = Ok (Some (fs', pos', mkMetaData (sha256d data) (len data))) /\
       Serialize (CBlock_codec sizeofRef sizeofIn sizeofOut) block = Some data /\
       nPos pos' = nPos pos + GetBlockFileBlockHeaderSize (len data) /\ ReadBlockAtPos sizeofRef sizeofIn sizeofOut fs' pos' params = Some block) /\
  (forall blockundo hashBlock, blockundo_valid blockundo -> bytes_ok hashBlock -> length hashBlock = 32%nat ->
     exists fs' pos', UndoWriteToDisk buf sizeofTxUndo fs blockundo pos hashBlock magic = Ok (Some (fs', pos')) /\
       UndoReadFromDisk buf sizeofTxUndo fs' pos' hashBlock = Some blockundo /\
       forall other, length other = 32%nat -> UndoReadFromDisk buf sizeofTxUndo fs' pos' other = None \/ other = hashBlock \/ exists x y, double_collision x y).
Proof.
  intros HR HI HO HU Fs Ps Om Lm. destruct (open_ok fs pos Fs (proj1 Ps)) as (file & Ef & Of).
  assert (Osk : forall n, bytes_ok (skipn n file)) by (intros; now apply Forall_skipn). split.
  - intros block params hash Vb Eh Pw. exact (block_file_roundtrip _ _ _ fs pos magic block params hash HR HI HO Fs Ps Lm Vb Eh Pw).
  - intros u hb Vu Ob Lh. pose proof (blockundo_readable buf sizeofTxUndo HU) as Ru. destruct (rd_some (Readable := Ru) u Vu) as (data & Ed & Od).
    destruct (written_data fs pos file magic data Ps Lm) as (Ep & W). set (sum := sha256d (hb ++ data)). specialize (W sum) as (W1 & W2). pose proof (sha256d_ok (hb ++ data)) as [Os Ls]. fold sum in Os, Ls.
    unfold UndoWriteToDisk. rewrite Ef, Ed. cbn [or_throw obind]. rewrite undo_checksum_spec. cbn [or_throw obind]. fold sum.
    eexists _, _. split; [reflexivity|].
    assert (R : forall other, UndoReadFromDisk buf sizeofTxUndo (<[pos_nFile pos := write_at file (Z.to_nat (nPos pos)) (WriteIndexHeader magic (len data) ++ data ++ sum)]> fs)
      (mkPos (pos_nFile pos) (u32 (nPos pos + len (WriteIndexHeader magic (len data))))) other =
      if bool_decide (Some (sha256d (other ++ data)) = Some sum) then Some u else None).
    { intros other. unfold UndoReadFromDisk. rewrite W1, W2.
      rewrite (rd_read (Readable := Ru) u data _ (proj2 (bytes_ok_app _ _) (conj Os (Osk _))) Vu Ed), (read_app 32 sum) by exact Ls.
      rewrite undo_checksum_spec. rewrite (length_app data), Nat.add_sub, firstn_app, firstn_all, Nat.sub_diag, app_nil_r. reflexivity. }
    rewrite R. split; [rewrite bool_decide_eq_true_2 by reflexivity; reflexivity|]. intros other Lo. rewrite R. case_bool_decide as D; [right|now left]. apply Some_inj in D.
    destruct (sha256d_eq _ _ D) as [Q|X]; [left; now apply app_inj_1 in Q as [Q _]; [|congruence] | right; eauto].
Qed.

Definition sample_header : CBlockHeader := mkHeader 1 (repeat 9 32) (repeat 2 32) 100 0x207fffff 3.
Definition regtest_params : Params := mkParams (repeat 255 31 ++ [127]) true true 600 1209600 0.

Lemma disk_roundtrip_witness :
  (exists fs' pos' m, WriteBlockToDisk 16 72 40 ∅ (mkBlock sample_header []) (mkPos 0 0) [1; 2; 3; 4] = Ok (Some (fs', pos', m)) /\
     ReadBlockAtPos 16 72 40 fs' pos' regtest_params = Some (mkBlock sample_header [])) /\
  (exists fs' pos', UndoWriteToDisk (H := sample_secp) (repeat 0 65) 24 ∅ sample_undo (mkPos 0 0) (repeat 9 32) [1; 2; 3; 4] = Ok (Some (fs', pos')) /\
     UndoReadFromDisk (H := sample_secp) (repeat 0 65) 24 fs' pos' (repeat 9 32) = Some sample_undo).
Proof.
  destruct (disk_roundtrip sample_secp sample_compression (repeat 0 65) 16 72 40 24 ∅ (mkPos 0 0) [1; 2; 3; 4]) as [B U];
    [lia | lia | lia | lia | intros n f E; now rewrite lookup_empty in E | repeat split; cbn; lia | now apply bytes_okb | reflexivity | split].
  - destruct (B (mkBlock sample_header []) regtest_params (match hdr_GetHash sample_header with Some h => h | None => [] end)) as (fs & pos & data & W & _ & _ & R).
    + split; [|split; [constructor | apply Z.leb_le; reflexivity]]. assert (O : forall x, is_byte x -> bytes_ok (repeat x 32)) by (intros x Hx; apply Stdlib.Lists.List.Forall_forall; intros y Hy; now apply repeat_spec in Hy as ->).
      unfold header_valid. cbn. repeat split; try lia; apply O; unfold is_byte; lia.
    + vm_compute. reflexivity.
    + vm_compute. reflexivity.
    + exists fs, pos. eauto.
  - destruct (U sample_undo (repeat 9 32)) as (fs & pos & W & R & _); [exact sample_undo_valid | now apply bytes_okb | reflexivity | eauto].
Defined.
End Disk.
