(* ===== verification/Replay.v ===== *)
(** * Recovery after an interrupted flush (src/src/validation.cpp, ReplayBlocks)

    A flush of the coins that was interrupted leaves a database whose coins are partly those of the
    old best block and partly those of the new one. At the next start the blocks of the old branch
    are disconnected and those of the new branch applied again, whatever was written already. *)

From stdpp Require Import gmap.
From S2P Require Import Prelude Outcome Script Serialize Amount Transaction ArithUint256 Block BlockIndex Chain Pow PubKey Coins CoinsDB Undo Compressor Disk.
Import Script Serialize Amount Transaction ArithUint256 Block BlockIndex Chain Pow PubKey Coins CoinsDB Undo Compressor Disk.

Module Replay.
Local Open Scope Z_scope.
Local Open Scope outcome_scope.

Section Replay.
Context `{Secp256k1}.
(** What the memory of a new key held, and the sizes of the elements of vectors in memory. *)
Context (buf : bytes) (sizeofRef sizeofIn sizeofOut sizeofTxUndo : Z).
(** The memory of a coin, the height of genesis activation, what a database cursor finds, when a
    batch is full, and the parameters of the chain. *)
Context (usage : Coin -> Z) (genesis : Z) (cursor : CCoinsViewCache store -> bytes -> list Coin) (full : list change -> bool) (params : Params).
(** The block index and the files with blocks and undo data. *)
Context (h : heap) (blk rev_ : files).

#[local] Instance view : CCoinsView store := db_view full.
Implicit Type c : CCoinsViewCache store.

Definition DisconnectBlock c (block : CBlock) (pindex : CBlockIndex) (canceled : nat -> bool) : outcome (CCoinsViewCache store * DisconnectResult) :=
  let pos := GetUndoPos pindex in
  if pos_IsNull pos then Ok (c, DISCONNECT_FAILED)
  else
    let* q := or_abort (pprev pindex) in
    let* prev := deref h q in
    let* hash := GetBlockHash prev in
    match UndoReadFromDisk buf sizeofTxUndo rev_ pos hash with
    | None => Ok (c, DISCONNECT_FAILED)
    | Some blockUndo => ApplyBlockUndo usage genesis cursor canceled c blockUndo block (nHeight pindex)
    end.

Definition roll_spend c (ins : list CTxIn) : CCoinsViewCache store := fold_left (fun c i => fst (SpendCoin usage c (prevout i))) ins c.

(** The loop of [RollforwardBlock]. *)
Fixpoint roll_txs c (nHeight : Z) (vtx : list CTransaction) : outcome (CCoinsViewCache store) :=
  match vtx with
  | [] => Ok c
  | tx :: vtx =>
      let c := if negb (IsCoinBase tx) then roll_spend c (vin tx) else c in
      let* c := AddCoins usage genesis c tx nHeight true in
      roll_txs c nHeight vtx
  end.

(** Nothing, when the function returns false. *)
Definition RollforwardBlock c (pindex : CBlockIndex) : outcome (option (CCoinsViewCache store)) :=
  let* block := ReadBlockFromDisk sizeofRef sizeofIn sizeofOut blk pindex params in
  match block with
  | None => Ok None
  | Some block => let* c := roll_txs c (nHeight pindex) (vtx block) in Ok (Some c)
  end.

(** [while (pindexOld != pindexFork)]: the heights go down. *)
Fixpoint rollback (fuel : nat) c (pindexOld pindexFork : option ptr) : outcome (option (CCoinsViewCache store)) :=
  if ptr_eqb pindexOld pindexFork then Ok (Some c)
  else
    match fuel with
    | O => Abort
    | S fuel =>
        let* p := or_abort pindexOld in
        let* b := deref h p in
        let* done :=
          if 0 <? nHeight b then
            let* block := ReadBlockFromDisk sizeofRef sizeofIn sizeofOut blk b params in
            match block with
            | None => Ok None
            | Some block =>
                let* r := DisconnectBlock c block b (fun _ => false) in
                let '(c, res) := r in
                match res with DISCONNECT_FAILED => Ok None | _ => Ok (Some c) end
            end
          else Ok (Some c) in
        match done with
        | None => Ok None
        | Some c => rollback fuel c (pprev b) pindexFork
        end
    end.

(** The loop over the heights up to that of [pindexNew], [k] of which are left. *)
Fixpoint rollforward (k : nat) c (height : Z) (pindexNew : ptr) : outcome (option (CCoinsViewCache store)) :=
  match k with
  | O => Ok (Some c)
  | S k =>
      let* pindex := GetAncestor h pindexNew height in
      let* p := or_abort pindex in
      let* b := deref h p in
      let* done := RollforwardBlock c b in
      match done with
      | None => Ok None
      | Some c => rollforward k c (height + 1) pindexNew
      end
  end.

Definition ReplayBlocks (mapBlockIndex : BlockMap) (d : store) : outcome (store * bool) :=
  let cache := CCoinsViewCache_of d in
  match db_GetHeadBlocks d with
  | [] => Ok (d, true)
  | [head0; head1] =>
      match mapBlockIndex !! head0 with
      | None => Ok (d, false)
      | Some pindexNew =>
          let* found :=
            if negb (hash_IsNull head1) then
              match mapBlockIndex !! head1 with
              | None => Ok None
              | Some pindexOld =>
                  let* pindexFork := LastCommonAncestor h pindexOld pindexNew in
                  let* f := or_abort pindexFork in
                  Ok (Some (Some pindexOld, Some f))
              end
            else Ok (Some (None, None)) in
          match found with
          | None => Ok (d, false)
          | Some (pindexOld, pindexFork) =>
              let* old := match pindexOld with Some p => deref h p | None => deref h pindexNew end in
              let* done := rollback (S (Z.to_nat (nHeight old))) cache pindexOld pindexFork in
              match done with
              | None => Ok (d, false)
              | Some c =>
                  let* nForkHeight := match pindexFork with Some f => let* b := deref h f in Ok (nHeight b) | None => Ok 0 end in
                  let* new := deref h pindexNew in
                  let* done := rollforward (Z.to_nat (nHeight new - nForkHeight)) c (nForkHeight + 1) pindexNew in
                  match done with
                  | None => Ok (d, false)
                  | Some c =>
                      let* hash := GetBlockHash new in
                      let* r := Flush (SetBestBlock c hash) in
                      Ok (base (fst r), true)
                  end
              end
          end
      end
  | _ => Ok (d, false)
  end.
End Replay.

(** ** Writes *)

(** What the operations do to the coins, whatever was there: an outpoint gets a coin or loses it. *)
Abbreviation writes := (list (COutPoint * option Coin)).

Definition apply_writes (s : coin_set) (ws : writes) : coin_set := fold_left (fun s w => with_coin s (fst w) (snd w)) ws s.

Lemma apply_writes_app s a b : apply_writes s (a ++ b) = apply_writes (apply_writes s a) b.
Proof. apply fold_left_app. Qed.

Lemma apply_writes_ext (ws : writes) : forall (s t : coin_set) x, s x = t x -> apply_writes s ws x = apply_writes t ws x.
Proof.
  induction ws as [|w ws IH]; intros s t x E; [exact E|]. apply IH. unfold with_coin. destruct (decide (x = fst w)); [reflexivity | exact E].
Qed.

Lemma apply_writes_out (ws : writes) : forall (s : coin_set) x, ~ In x (map fst ws) -> apply_writes s ws x = s x.
Proof.
  induction ws as [|w ws IH]; intros s x N; [reflexivity|]. cbn [apply_writes fold_left]. unfold apply_writes in IH. rewrite IH by (intros I; apply N; now right).
  unfold with_coin. destruct (decide (x = fst w)) as [->|]; [exfalso; apply N; now left | reflexivity].
Qed.

(** An outpoint that is written has the same coin afterwards whatever was there before. *)
Lemma apply_writes_in (ws : writes) : forall (s t : coin_set) x, In x (map fst ws) -> apply_writes s ws x = apply_writes t ws x.
Proof.
  induction ws as [|w ws IH]; intros s t x I; [destruct I|]. cbn [apply_writes fold_left]. fold (apply_writes (with_coin s (fst w) (snd w)) ws) (apply_writes (with_coin t (fst w) (snd w)) ws).
  destruct (in_dec COutPoint_eq_dec x (map fst ws)) as [I'|N]; [now apply IH|]. rewrite !apply_writes_out by exact N.
  destruct I as [<-|I]; [|contradiction]. unfold with_coin. now destruct (decide (fst w = fst w)).
Qed.

(** Replaying on a mixture gives what replaying on the old set gives. *)
Lemma replay_mixed (ws : writes) (old new m : coin_set) : (forall x, apply_writes old ws x = new x) ->
  (forall x, m x = old x \/ m x = new x) -> forall x, apply_writes m ws x = new x.
Proof.
  intros R M x. destruct (in_dec COutPoint_eq_dec x (map fst ws)) as [I|N].
  - rewrite <- R. now apply apply_writes_in.
  - specialize (R x). rewrite apply_writes_out in R |- * by exact N. destruct (M x) as [-> | ->]; [exact R | reflexivity].
Qed.

(** The writes of a transaction, forward and back. *)
Definition spends (ins : list CTxIn) : writes := map (fun i => (prevout i, None)) ins.

Fixpoint creates (genesis : Z) (id : bytes) (nHeight : Z) (cb : bool) (i : nat) (outs : list CTxOut) : writes :=
  match outs with
  | [] => []
  | o :: outs =>
      let d := Coin_of o (u32 nHeight) cb in
      (if unspendable genesis d then [] else [(outpoint_at id i, Some d)]) ++ creates genesis id nHeight cb (S i) outs
  end.

Definition drop_coins (ws : writes) : writes := map (fun w => (fst w, None)) ws.
Definition restores (tx : CTransaction) (u : CTxUndo) : writes := map (fun id => (prevout (fst id), Some (snd id))) (rev (combine (vin tx) u)).

Section Operations.
Context {V : Type} `{L : CoinsViewLaws V} (usage : Coin -> Z) (U0 : usage Coin_new = 0) (genesis : Z).
Implicit Type c : CCoinsViewCache V.

(** The cache [c'] shows the coins of [c] after the writes. *)
Definition wrote c (ws : writes) c' : Prop := cache_ok usage c' /\ forall x, cache_coin c' x = apply_writes (cache_coin c) ws x.

Lemma wrote_nil c : cache_ok usage c -> wrote c [] c.
Proof. now split. Qed.

Lemma wrote_app c a c1 b c2 : wrote c a c1 -> wrote c1 b c2 -> wrote c (a ++ b) c2.
Proof. intros [_ A] [K B]. split; [exact K|]. intros x. rewrite B, apply_writes_app. now apply apply_writes_ext. Qed.

Lemma spend_any c x : cache_ok usage c -> wrote c [(x, None)] (fst (SpendCoin usage c x)).
Proof.
  intros K. pose proof (SpendCoin_spec usage c x U0 K) as S. destruct (SpendCoin usage c x) as [c' r]. destruct S as (K' & S & _). now split.
Qed.

Lemma have_any c x : cache_ok usage c -> let '(c', r) := HaveCoin usage c x in
  wrote c [] c' /\ (r = false -> cache_coin c' x = None).
Proof.
  intros K. pose proof (HaveCoin_spec usage c x K) as S. destruct (HaveCoin usage c x) as [c' r]. destruct S as (K' & S & R).
  split; [now split|]. intros ->. rewrite S. now destruct (cache_coin c x).
Qed.

Lemma add_any c x d ow : cache_ok usage c -> IsSpent d = false -> (ow = false -> cache_coin c x = None) ->
  exists c', AddCoin usage c x d ow genesis = Ok c' /\ wrote c (if unspendable genesis d then [] else [(x, Some d)]) c'.
Proof.
  intros K Sp Pre. destruct (AddCoin_spec usage c x d ow genesis K Sp U0 Pre) as (c' & E & K' & _ & S). exists c'. split; [exact E|]. split; [exact K'|].
  intros y. rewrite S. now destruct (unspendable genesis d).
Qed.

(** [AddCoins] with [check] *)
Lemma add_outputs_any id h cb (outs : list CTxOut) : forall i c, cache_ok usage c -> Forall (fun o => nValue o <> -1) outs ->
  exists c', add_outputs usage genesis c id h cb true i outs = Ok c' /\ wrote c (creates genesis id h cb i outs) c'.
Proof.
  induction outs as [|o outs IH]; intros i c K F; [exists c; split; [reflexivity | now apply wrote_nil]|]. apply Forall_cons_iff in F as [Fo F].
  cbn [add_outputs]. pose proof (have_any c (mkOutPoint id (u32 (Z.of_nat i))) K) as Hv. destruct (HaveCoin usage c _) as [c0 ow]. destruct Hv as [W0 Pre].
  assert (Sp : IsSpent (Coin_of o (u32 h) cb) = false) by (unfold IsSpent, CTxOut_IsNull; cbn; now apply Z.eqb_neq).
  destruct (add_any c0 _ _ ow (proj1 W0) Sp Pre) as (c1 & -> & W1). cbn [obind]. destruct (IH (S i) c1 (proj1 W1) F) as (c2 & E & W2).
  exists c2. split; [exact E|]. cbn [creates]. exact (wrote_app _ [] _ _ _ W0 (wrote_app _ _ _ _ _ W1 W2)).
Qed.

Lemma unspendable_at h o cb : 0 < h < 2 ^ 31 - 1 -> IsGenesisEnabled genesis h = Ok (genesis <=? h) /\
  IsUnspendable (scriptPubKey o) (genesis <=? h) = unspendable genesis (Coin_of o (u32 h) cb).
Proof.
  intros Hh. unfold IsGenesisEnabled. destruct (Z.eqb_spec h MEMPOOL_HEIGHT) as [E|_]; [unfold MEMPOOL_HEIGHT in E; lia|]. rewrite (u64_small h) by lia. split; [reflexivity|].
  destruct (Coin_of_height o (u32 h) cb ltac:(rewrite u32_small; lia)) as [Gh _]. rewrite (u32_small h) in Gh at 2 by lia. unfold unspendable. now rewrite Gh.
Qed.

Lemma remove_outputs_any id h cb (outs : list CTxOut) : 0 < h < 2 ^ 31 - 1 -> forall i c fClean, cache_ok usage c ->
  exists c' f, remove_outputs usage genesis c id h fClean i outs = Ok (c', f) /\ wrote c (drop_coins (creates genesis id h cb i outs)) c'.
Proof.
  intros Hh. induction outs as [|o outs IH]; intros i c fClean K; [exists c, fClean; split; [reflexivity | now apply wrote_nil]|].
  cbn [remove_outputs creates]. destruct (unspendable_at h o cb Hh) as [-> Un]. cbn [obind]. rewrite Un. destruct (unspendable genesis _); [exact (IH (S i) c fClean K)|].
  pose proof (spend_any c (mkOutPoint id (u32 (Z.of_nat i))) K) as W. destruct (SpendCoin usage c _) as [c1 r]. cbn [fst] in W.
  destruct (IH (S i) c1 (fClean && match r with Some d => txout_eqb o (out d) | None => false end) (proj1 W)) as (c2 & f & E & W2). exists c2, f. split; [exact E|].
  exact (wrote_app _ _ _ _ _ W W2).
Qed.

Lemma restore_inputs_any (cursor : CCoinsViewCache V -> bytes -> list Coin) (l : list (CTxIn * Coin)) : forall c fClean, cache_ok usage c ->
  Forall (fun id => unspendable genesis (snd id) = false /\ IsSpent (snd id) = false /\ 0 < GetHeight (snd id)) l ->
  exists c' f, restore_inputs usage genesis cursor c fClean l = Ok (c', Some f) /\ wrote c (map (fun id => (prevout (fst id), Some (snd id))) l) c'.
Proof.
  induction l as [|[i d] l IH]; intros c fClean K F; [exists c, fClean; split; [reflexivity | now apply wrote_nil]|]. apply Forall_cons_iff in F as [(F1 & F2 & F3) F].
  cbn [fst snd] in *. cbn [restore_inputs]. unfold UndoCoinSpend. pose proof (have_any c (prevout i) K) as Hv. destruct (HaveCoin usage c _) as [c0 ow]. destruct Hv as [W0 Pre].
  destruct (Z.eqb_spec (GetHeight d) 0); [lia|]. rewrite negb_involutive. destruct (add_any c0 (prevout i) d ow (proj1 W0) F2 Pre) as (c1 & -> & W1). rewrite F1 in W1. cbn [obind].
  destruct (IH c1 (if negb ow then fClean else false) (proj1 W1) F) as (c2 & f & E & W2). exists c2, f.
  split; [now destruct ow | exact (wrote_app _ [] _ _ _ W0 (wrote_app _ _ _ _ _ W1 W2))].
Qed.
End Operations.

(** ** Writes of a transaction *)

#[local] Existing Instance Undo.In_decision.

Lemma apply_none (ws : writes) (s : coin_set) x : Forall (fun w => snd w = None) ws ->
  apply_writes s ws x = if decide (In x (map fst ws)) then None else s x.
Proof.
  intros F. destruct (decide (In x (map fst ws))) as [I|N]; [|now apply apply_writes_out]. rewrite (apply_writes_in ws s (fun _ => None) x I). clear I.
  assert (G : forall t : coin_set, t x = None -> apply_writes t ws x = None); [|now apply G]. induction F as [|w ws Fw F IH]; intros t E; [exact E|]. cbn [apply_writes fold_left]. apply IH.
  unfold with_coin. destruct (decide (x = fst w)); [exact Fw | exact E].
Qed.

Lemma apply_unique (ws : writes) : forall (s : coin_set) x v, NoDup (map fst ws) -> In (x, v) ws -> apply_writes s ws x = v.
Proof.
  induction ws as [|w ws IH]; intros s x v N I; [destruct I|]. cbn [map] in N. inversion N as [|? ? Nw N']; subst. destruct I as [->|I]; [|exact (IH _ x v N' I)].
  cbn [fst snd] in *. cbn [apply_writes fold_left fst snd]. fold (apply_writes (with_coin s x v) ws). rewrite apply_writes_out by exact Nw. unfold with_coin. now destruct (decide (x = x)).
Qed.

Section Transactions.
Context (genesis h : Z).

Definition tx_fwd (ti : CTransaction * bytes) : writes :=
  (if IsCoinBase (fst ti) then [] else spends (vin (fst ti))) ++ creates genesis (snd ti) h (IsCoinBase (fst ti)) 0 (vout (fst ti)).

Lemma creates_in id cb (outs : list CTxOut) x : forall i, In x (map fst (creates genesis id h cb i outs)) -> exists j, (i <= j < i + length outs)%nat /\ x = outpoint_at id j.
Proof.
  induction outs as [|o outs IH]; intros i I; [destruct I|]. cbn [creates] in I. rewrite map_app, in_app_iff in I. cbn [length]. destruct I as [I|I].
  - destruct (unspendable genesis _); [destruct I|]. destruct I as [<-|[]]. exists i. split; [lia | reflexivity].
  - destruct (IH (S i) I) as (j & Hj & ->). exists j. split; [lia | reflexivity].
Qed.

Lemma created_in id cb (outs : list CTxOut) x d : forall i, created genesis id h cb i outs x = Some d -> In x (map fst (creates genesis id h cb i outs)).
Proof.
  induction outs as [|o outs IH]; intros i E; [discriminate|]. cbn [created creates] in *. rewrite map_app, in_app_iff. destruct (decide (x = outpoint_at id i)) as [->|]; [left|right; now apply IH].
  cbv zeta in E. destruct (unspendable genesis _); [discriminate | now left].
Qed.

Lemma apply_creates id cb (outs : list CTxOut) x : forall i (t : coin_set), Z.of_nat i + len outs < 2 ^ 32 ->
  apply_writes t (creates genesis id h cb i outs) x = with_created t (created genesis id h cb i outs) x.
Proof.
  induction outs as [|o outs IH]; intros i t Hn; [reflexivity|]. unfold len in *. cbn [length] in Hn. cbn [creates]. rewrite apply_writes_app, (IH (S i)) by lia.
  unfold with_created. cbn [created]. destruct (decide (x = outpoint_at id i)) as [->|Ne].
  - rewrite created_none by (intros j Hj E; apply outpoint_at_inj in E; lia). destruct (unspendable genesis _); [reflexivity|].
    cbn. unfold with_coin. now destruct (decide (outpoint_at id i = outpoint_at id i)).
  - destruct (created genesis id h cb (S i) outs x); [reflexivity|]. destruct (unspendable genesis _); [reflexivity|]. cbn. unfold with_coin. now destruct (decide (x = outpoint_at id i)).
Qed.

Lemma apply_spends ins (s : coin_set) x : apply_writes s (spends ins) x = without s ins x.
Proof.
  rewrite apply_none by (unfold spends; rewrite Stdlib.Lists.List.Forall_forall; intros w I; apply in_map_iff in I as (i & <- & _); reflexivity).
  unfold without, spends. rewrite map_map. reflexivity.
Qed.

Lemma tx_fwd_spec (s : coin_set) tx id x : may_connect s tx id -> apply_writes s (tx_fwd (tx, id)) x = connected genesis h s tx id x.
Proof.
  intros M. unfold tx_fwd, connected. cbn [fst snd]. rewrite apply_writes_app, apply_creates by exact (mc_count _ _ _ M). unfold with_created.
  destruct (created _ _ _ _ _ _ x); [reflexivity|]. destruct (IsCoinBase tx); [reflexivity | apply apply_spends].
Qed.

Lemma drop_created (s : coin_set) tx id x : may_connect s tx id ->
  apply_writes (connected genesis h s tx id) (drop_coins (creates genesis id h (IsCoinBase tx) 0 (vout tx))) x = (if IsCoinBase tx then s else without s (vin tx)) x.
Proof.
  intros M. rewrite apply_none by (unfold drop_coins; rewrite Stdlib.Lists.List.Forall_forall; intros w I; apply in_map_iff in I as (i & <- & _); reflexivity).
  unfold drop_coins. rewrite map_map. cbn [fst]. destruct (decide _) as [I|N].
  - destruct (creates_in _ _ _ _ _ I) as (j & Hj & ->). pose proof (mc_fresh _ _ _ M j ltac:(lia)) as F. destruct (IsCoinBase tx); [now symmetry|]. unfold without. now destruct (decide _).
  - unfold connected, with_created. destruct (created _ _ _ _ _ _ x) eqn:E; [|reflexivity]. exfalso. apply N. exact (created_in _ _ _ _ _ _ E).
Qed.

Lemma restores_spec (s : coin_set) tx (u : CTxUndo) x : NoDup (map prevout (vin tx)) -> Forall2 (fun i d => s (prevout i) = Some d) (vin tx) u ->
  apply_writes (without s (vin tx)) (restores tx u) x = s x.
Proof.
  intros N F. assert (K : map fst (restores tx u) = rev (map prevout (vin tx))).
  { unfold restores. rewrite map_map. cbn [fst]. rewrite map_rev. f_equal. clear N. induction F as [|a b l u _ _ IH]; [reflexivity|]. cbn. now f_equal. }
  destruct (in_dec COutPoint_eq_dec x (map fst (restores tx u))) as [I|Nx].
  - apply in_map_iff in I as ([y v] & <- & I). cbn [fst]. rewrite (apply_unique _ _ y v); [|rewrite K; now apply NoDup_rev | exact I].
    unfold restores in I. apply in_map_iff in I as ([i d] & [= <- <-] & I). cbn [fst snd]. apply in_rev in I. clear -F I. induction F as [|a b l u Hab F IH]; [destruct I|].
    destruct I as [E|I]; [injection E as <- <-; now symmetry | now apply IH].
  - rewrite apply_writes_out by exact Nx. unfold without. destruct (decide _) as [I|]; [|reflexivity]. exfalso. apply Nx. rewrite K, <- in_rev. exact I.
Qed.
End Transactions.

(** ** Blocks *)

Definition block_fwd (genesis h : Z) (l : list (CTransaction * bytes)) : writes := flat_map (tx_fwd genesis h) l.

(** The first [k] transactions taken back, from the last on. *)
Fixpoint block_bwd (genesis h : Z) (l : list (CTransaction * bytes)) (us : CBlockUndo) (k : nat) : writes :=
  match k with
  | O => []
  | S i =>
      match nth_error l i with
      | None => []
      | Some (tx, id) =>
          drop_coins (creates genesis id h (IsCoinBase tx) 0 (vout tx)) ++
          match i with O => [] | S j => match nth_error us j with Some u => restores tx u | None => [] end end ++
          block_bwd genesis h l us i
      end
  end.

Section Blocks.
Context (genesis h : Z) (Hh : 0 < h < 2 ^ 31 - 1) (s : coin_set) (l : list (CTransaction * bytes)) (Cn : connectable genesis h s l).

Lemma block_fwd_spec x : apply_writes s (block_fwd genesis h l) x = run genesis h s l x.
Proof.
  assert (G : forall k, (k <= length l)%nat -> forall x, apply_writes s (block_fwd genesis h (firstn k l)) x = run genesis h s (firstn k l) x).
  { induction k as [|k IH]; intros Hk y; [reflexivity|]. destruct (nth_error l k) as [[tx id]|] eqn:E; [|apply nth_error_None in E; lia].
    rewrite (run_S genesis h s l k _ E), (firstn_nth_error l k _ E). unfold block_fwd in *. rewrite flat_map_app, apply_writes_app. cbn [flat_map]. rewrite app_nil_r.
    cbn [fst snd]. rewrite <- (tx_fwd_spec genesis h _ tx id y (proj1 (Cn k _ E))). apply apply_writes_ext, IH. lia. }
  specialize (G (length l) (le_n _) x). now rewrite firstn_all in G.
Qed.

Lemma block_bwd_spec (us : CBlockUndo) : undo_data genesis h s l us -> forall k, (k <= length l)%nat -> forall x,
  apply_writes (run genesis h s (firstn k l)) (block_bwd genesis h l us k) x = s x.
Proof.
  intros [Lu Du]. induction k as [|k IH]; intros Hk x; [reflexivity|]. destruct (nth_error l k) as [[tx id]|] eqn:E; [|apply nth_error_None in E; lia].
  destruct (Cn k _ E) as [M CB]. cbn [fst snd] in M, CB. cbn [block_bwd]. rewrite E, (run_S genesis h s l k _ E), apply_writes_app. cbn [fst snd].
  set (t := run genesis h s (firstn k l)) in *.
  erewrite (apply_writes_ext _ _ (if IsCoinBase tx then t else without t (vin tx))) by (apply drop_created; exact M). rewrite CB.
  destruct k as [|k]; [cbn [app]; exact (IH ltac:(lia) x)|]. destruct (Du k _ E) as (u & -> & F). cbn [Nat.eqb]. rewrite apply_writes_app.
  erewrite (apply_writes_ext _ _ t) by (apply restores_spec; [exact (proj1 (mc_ins _ _ _ M CB)) | exact F]). apply IH. lia.
Qed.
End Blocks.

Section BlockOperations.
Context {V : Type} `{L : CoinsViewLaws V} (usage : Coin -> Z) (U0 : usage Coin_new = 0) (genesis h : Z) (Hh : 0 < h < 2 ^ 31 - 1).
Context (s : coin_set) (l : list (CTransaction * bytes)) (Cn : connectable genesis h s l).
Implicit Type c : CCoinsViewCache V.

Lemma undo_from_any (cursor : CCoinsViewCache V -> bytes -> list Coin) (us : CBlockUndo) : sound_set genesis s -> undo_data genesis h s l us ->
  forall k c fClean, (k <= length l)%nat -> cache_ok usage c ->
  exists c' f, undo_from usage genesis cursor (fun _ => false) k c h us (map fst l) fClean = Ok (c', Some f) /\ wrote usage c (block_bwd genesis h l us k) c'.
Proof.
  intros Sd [Lu Du]. induction k as [|k IH]; intros c fClean Hk K; [exists c, fClean; split; [reflexivity | now apply wrote_nil]|].
  destruct (nth_error l k) as [[tx id]|] eqn:E; [|apply nth_error_None in E; lia]. destruct (Cn k _ E) as [M CB]. cbn [fst snd] in M, CB.
  cbn [undo_from block_bwd]. rewrite nth_error_map, E. cbn [option_map or_abort obind fst]. unfold GetId. rewrite (mc_id _ _ _ M). cbn [or_throw obind].
  destruct (remove_outputs_any usage U0 genesis id h (IsCoinBase tx) (vout tx) Hh 0 c fClean K) as (c1 & f1 & -> & W1). cbn [obind].
  destruct k as [|k].
  - destruct (IH c1 f1 ltac:(lia) (proj1 W1)) as (c' & f & E' & W'). exists c', f. split; [exact E' | exact (wrote_app usage _ _ _ _ _ W1 W')].
  - destruct (Du k _ E) as (u & -> & F). cbn [or_abort obind fst] in F |- *. rewrite <- (Forall2_length F), Nat.eqb_refl. cbn [negb].
    destruct (restore_inputs_any usage U0 genesis cursor (rev (combine (vin tx) u)) c1 f1 (proj1 W1)) as (c2 & f2 & -> & W2).
    { rewrite Stdlib.Lists.List.Forall_forall. intros [i d] I. apply in_rev in I. cbn [snd]. apply (sound_run genesis h Hh s l Sd Cn (S k) ltac:(lia) (prevout i) d).
      clear -F I. induction F as [|a b la lb Hab F IHF]; [destruct I|]. destruct I as [Q|I]; [injection Q as <- <-; exact Hab | now apply IHF]. }
    cbn [obind]. destruct (IH c2 f2 ltac:(lia) (proj1 W2)) as (c' & f & E' & W'). exists c', f. split; [exact E'|].
    exact (wrote_app usage _ _ _ _ _ W1 (wrote_app usage _ _ _ _ _ W2 W')).
Qed.
End BlockOperations.

(** ** Branches *)

(** The contract of the database while the blocks are replayed. *)
Definition laws (full : list change -> bool) (d : store) : CoinsViewLaws store (H := view full) := frozen_laws full d.

Section Branches.
Context `{Secp256k1} (buf : bytes) (sizeofRef sizeofIn sizeofOut sizeofTxUndo : Z).
Context (usage : Coin -> Z) (U0 : usage Coin_new = 0) (genesis : Z) (cursor : CCoinsViewCache store -> bytes -> list Coin) (full : list change -> bool) (params : Params).
Context (h : heap) (T : tree_ok h) (blk rev_ : files) (coins : ptr -> coin_set).

(** The files hold the block of an entry, whose transactions make the coins at the entry out of those at
    its predecessor [q]. *)
Record block_at (b : CBlockIndex) (p q : ptr) (l : list (CTransaction * bytes)) : Prop := {
  ba_height : nHeight b < 2 ^ 31 - 1;
  ba_read : exists block, ReadBlockFromDisk sizeofRef sizeofIn sizeofOut blk b params = Ok (Some block) /\ vtx block = map fst l;
  ba_connect : connectable genesis (nHeight b) (coins q) l;
  ba_coins x : coins p x = run genesis (nHeight b) (coins q) l x
}.

(** The files hold the undo data of the block. *)
Definition undo_at (b : CBlockIndex) (q : ptr) (l : list (CTransaction * bytes)) : Prop :=
  sound_set genesis (coins q) /\ l <> [] /\ pos_IsNull (GetUndoPos b) = false /\
  exists bq hq us, h !! q = Some bq /\ phashBlock bq = Some hq /\ UndoReadFromDisk buf sizeofTxUndo rev_ (GetUndoPos b) hq = Some us /\
    undo_data genesis (nHeight b) (coins q) l us.

(** The way from the block [old], or from nothing, to the block [new]: the blocks to take back, and those to
    connect again. *)
Context (old : option ptr) (new : ptr).
Definition undone (p : ptr) : Prop := exists o, old = Some o /\ anc h o p /\ ~ anc h new p.
Definition redone (p : ptr) : Prop := anc h new p /\ forall o, old = Some o -> ~ anc h o p.

(** The coins at the blocks on the way; when there is no old block, those at the first block are none. Of
    the other entries of the index nothing is required. *)
Record history : Prop := {
  hi_back p b q : undone p -> h !! p = Some b -> pprev b = Some q -> exists l, block_at b p q l /\ undo_at b q l;
  hi_forward p b q : redone p -> h !! p = Some b -> pprev b = Some q -> exists l, block_at b p q l;
  hi_root p b : old = None -> redone p -> h !! p = Some b -> pprev b = None -> forall x, coins p x = None
}.

Context (Hi : history) (d0 : store).
Local Abbreviation cok := (cache_ok (L := laws full d0) usage).
Local Abbreviation wr := (wrote (L := laws full d0) usage).
Implicit Type c : CCoinsViewCache store.

Lemma roll_spend_any (ins : list CTxIn) : forall c, cok c -> wr c (spends ins) (roll_spend usage full c ins).
Proof.
  induction ins as [|i ins IH]; intros c K; [now apply wrote_nil|]. pose proof (spend_any usage U0 c (prevout i) K) as W.
  exact (wrote_app usage _ [_] _ _ _ W (IH _ (proj1 W))).
Qed.

Lemma roll_txs_any (height : Z) (l : list (CTransaction * bytes)) : forall c, cok c ->
  Forall (fun ti => ComputeHash (fst ti) = Some (snd ti) /\ Forall (fun o => nValue o <> -1) (vout (fst ti))) l ->
  exists c', roll_txs usage genesis full c height (map fst l) = Ok c' /\ wr c (block_fwd genesis height l) c'.
Proof.
  induction l as [|[tx id] l IH]; intros c K F; [exists c; split; [reflexivity | now apply wrote_nil]|]. apply Forall_cons_iff in F as [[F1 F2] F]. cbn [fst snd] in *.
  cbn [map fst roll_txs]. set (c1 := if negb (IsCoinBase tx) then _ else c).
  assert (W1 : wr c (if IsCoinBase tx then [] else spends (vin tx)) c1) by (unfold c1; destruct (IsCoinBase tx); [now apply wrote_nil | now apply roll_spend_any]).
  unfold AddCoins, GetId. rewrite F1. cbn [or_throw obind]. destruct (add_outputs_any usage U0 genesis id height (IsCoinBase tx) (vout tx) 0 c1 (proj1 W1) F2) as (c2 & -> & W2).
  cbn [obind]. destruct (IH c2 (proj1 W2) F) as (c3 & E & W3). exists c3. split; [exact E|]. exact (wrote_app usage _ _ _ _ _ (wrote_app usage _ _ _ _ _ W1 W2) W3).
Qed.

Lemma entry_positive p b q : h !! p = Some b -> pprev b = Some q -> 0 < nHeight b.
Proof. intros E P. destruct (ok_prev h T p b q E P) as (bq & Eq & Hq). pose proof (ok_height h T q bq Eq). lia. Qed.

(** One block forward. *)
Lemma RollforwardBlock_any p b q c : redone p -> h !! p = Some b -> pprev b = Some q -> cok c ->
  exists c' ws, RollforwardBlock sizeofRef sizeofIn sizeofOut usage genesis full params blk c b = Ok (Some c') /\ wr c ws c' /\
    forall x, apply_writes (coins q) ws x = coins p x.
Proof.
  intros N E P K. destruct (hi_forward Hi p b q N E P) as (l & [Hb (block & Rd & Ev) Cn Cp]).
  unfold RollforwardBlock. rewrite Rd. cbn [obind]. rewrite Ev. destruct (roll_txs_any (nHeight b) l c K) as (c' & -> & W).
  { rewrite Stdlib.Lists.List.Forall_forall. intros ti I. apply In_nth_error in I as (k & Ek). destruct (Cn k ti Ek) as [M _]. split; [exact (mc_id _ _ _ M) | exact (mc_outs _ _ _ M)]. }
  cbn [obind]. exists c', (block_fwd genesis (nHeight b) l). split; [reflexivity|]. split; [exact W|]. intros x. rewrite Cp. now apply block_fwd_spec.
Qed.

(** One block back. *)
Lemma DisconnectBlock_any p b q c : undone p -> h !! p = Some b -> pprev b = Some q -> cok c ->
  exists block c' res ws, ReadBlockFromDisk sizeofRef sizeofIn sizeofOut blk b params = Ok (Some block) /\
    DisconnectBlock buf sizeofTxUndo usage genesis cursor full h rev_ c block b (fun _ => false) = Ok (c', res) /\ res <> DISCONNECT_FAILED /\ wr c ws c' /\
    forall x, apply_writes (coins p) ws x = coins q x.
Proof.
  intros N E P K. pose proof (entry_positive p b q E P) as Hp.
  destruct (hi_back Hi p b q N E P) as (l & [Hl (block & Rd & Ev) Cn Cp] & Sd & Ne & Np & bq & hq & us & Eq & Ehq & Ur & Ud).
  assert (Hb : 0 < nHeight b < 2 ^ 31 - 1) by lia.
  exists block. unfold DisconnectBlock, deref, GetBlockHash. rewrite Np, P. cbn [or_abort obind]. rewrite Eq. cbn [or_abort obind]. rewrite Ehq. cbn [or_abort obind]. rewrite Ur.
  unfold ApplyBlockUndo. rewrite Ev, length_map. rewrite (proj1 Ud), Nat.eqb_refl. cbn [negb].
  destruct (undo_from_any usage U0 genesis (nHeight b) Hb (coins q) l Cn cursor us Sd Ud (length l) c true (le_n _) K) as (c' & f & -> & W). cbn [obind].
  eexists _, _, (block_bwd genesis (nHeight b) l us (length l)). split; [exact Rd|]. split; [reflexivity|]. split; [now destruct f|].
  split; [destruct W as [Kc Wc]; split; [now apply set_best_ok | intros x; rewrite (proj2 (set_best_ok usage c' _ Kc)); apply Wc]|].
  intros x. rewrite <- (block_bwd_spec genesis (nHeight b) (coins q) l Cn us Ud (length l) (le_n _) x). apply apply_writes_ext. now rewrite firstn_all.
Qed.

Lemma rollback_any (k : nat) : forall fuel p b f c, (k < fuel)%nat -> h !! p = Some b -> up h k p = Some f ->
  (forall j r, (j < k)%nat -> up h j p = Some r -> undone r) -> cok c ->
  exists c' ws, rollback buf sizeofRef sizeofIn sizeofOut sizeofTxUndo usage genesis cursor full params h blk rev_ fuel c (Some p) (Some f) = Ok (Some c') /\ wr c ws c' /\
    forall x, apply_writes (coins p) ws x = coins f x.
Proof.
  induction k as [|k IH]; intros fuel p b f c Hf E U N K; (destruct fuel as [|fuel]; [lia|]); cbn [rollback].
  - injection U as ->. rewrite ptr_eqb_refl. exists c, []. split; [reflexivity|]. split; [now apply wrote_nil | reflexivity].
  - destruct (up_height h T (S k) p f b E U) as (bf & Ef & Hbf). pose proof U as U'. cbn [up] in U'. rewrite E in U'. cbn in U'. destruct (pprev b) as [q|] eqn:P; [|discriminate]. cbn in U'.
    destruct (ptr_eqb (Some p) (Some f)) eqn:Q; [apply ptr_eqb_spec in Q; injection Q as <-; rewrite E in Ef; injection Ef as <-; lia|].
    cbn [or_abort obind]. unfold deref at 1. rewrite E. cbn [or_abort obind]. pose proof (entry_positive p b q E P). destruct (Z.ltb_spec 0 (nHeight b)); [|lia].
    destruct (DisconnectBlock_any p b q c (N 0%nat p ltac:(lia) eq_refl) E P K) as (block & c1 & res & ws1 & -> & D & Nr & W1 & S1). cbn [obind]. rewrite D. cbn [obind].
    destruct (ok_prev h T p b q E P) as (bq & Eq & _). destruct (IH fuel q bq f c1 ltac:(lia) Eq U') as (c2 & ws2 & E2 & W2 & S2); [|exact (proj1 W1)|].
    { intros j r Hj Uj. apply (N (S j) r); [lia|]. now rewrite (up_S h j p q b E P). }
    exists c2, (ws1 ++ ws2). split; [rewrite P; destruct res; [exact E2 | exact E2 | contradiction]|]. split; [exact (wrote_app usage _ _ _ _ _ W1 W2)|].
    intros x. rewrite apply_writes_app, <- S2. apply apply_writes_ext, S1.
Qed.

Lemma rollforward_any (bn : CBlockIndex) (En : h !! new = Some bn) (k : nat) : forall q bq c, anc h new q -> h !! q = Some bq -> Z.of_nat k = nHeight bn - nHeight bq ->
  (forall p b, anc h new p -> h !! p = Some b -> nHeight bq < nHeight b -> redone p) -> cok c ->
  exists c' ws, rollforward sizeofRef sizeofIn sizeofOut usage genesis full params h blk k c (nHeight bq + 1) new = Ok (Some c') /\ wr c ws c' /\
    forall x, apply_writes (coins q) ws x = coins new x.
Proof.
  induction k as [|k IH]; intros q bq c A Eq Hk N K; cbn [rollforward].
  - exists c, []. split; [reflexivity|]. split; [now apply wrote_nil|]. now rewrite (anc_unique h T new q new bn bq bn En A (anc_refl h new) Eq En ltac:(lia)).
  - pose proof (ok_height h T q bq Eq). destruct (GetAncestor_anc h T new bn (nHeight bq + 1) En ltac:(lia)) as (p & b & -> & Ap & Ep & Hp). cbn [or_abort obind].
    unfold deref. rewrite Ep. cbn [or_abort obind]. destruct (pprev b) as [q'|] eqn:P; [|pose proof (ok_root h T p b Ep P); lia].
    destruct (ok_prev h T p b q' Ep P) as (bq' & Eq' & Hq').
    assert (q' = q) as ->. { apply (anc_unique h T new q' q bn bq' bq En); [exact (anc_trans h new p q' Ap (anc_prev h p q' b Ep P)) | exact A | exact Eq' | exact Eq | lia]. }
    destruct (RollforwardBlock_any p b q c (N p b Ap Ep ltac:(lia)) Ep P K) as (c1 & ws1 & -> & W1 & S1). cbn [obind].
    destruct (IH p b c1 Ap Ep ltac:(lia) (fun r d A' E' L => N r d A' E' ltac:(lia)) (proj1 W1)) as (c2 & ws2 & E2 & W2 & S2). exists c2, (ws1 ++ ws2). rewrite Hp in E2. split; [exact E2|].
    split; [exact (wrote_app usage _ _ _ _ _ W1 W2)|]. intros x. rewrite apply_writes_app, <- S2. apply apply_writes_ext, S1.
Qed.

(** ** Interrupted writes *)

Definition coins_at (p : option ptr) : coin_set := match p with Some p => coins p | None => fun _ => None end.

(** The block [pn] being written over the block [po], or over nothing, and their hashes. *)
Record tips (M : BlockMap) (pn : ptr) (hn : bytes) (po : option ptr) (ho : bytes) : Prop := {
  tp_new : M !! hn = Some pn;
  tp_hash : hash_at h pn = Some hn;
  tp_null : hash_IsNull hn = false;
  tp_old : match po with
           | Some p => M !! ho = Some p /\ hash_IsNull ho = false /\ exists b z, h !! p = Some b /\ anc h p z /\ anc h pn z
           | None => hash_IsNull ho = true
           end
}.

Record interrupted (pn : ptr) (hn : bytes) (po : option ptr) (ho : bytes) (d : store) : Prop := {
  in_unspent : all_unspent d;
  in_best : db_best d = None;
  in_heads : db_heads d = Some [hn; ho];
  in_coins x : db_coins d !! x = coins_at po x \/ db_coins d !! x = coins pn x
}.

(** What is flushed at the end. *)
Lemma ReplayBlocks_flush M hn ho : tips M new hn old ho -> interrupted new hn old ho d0 ->
  exists c, cok c /\ (forall x, cache_coin (L := laws full d0) c x = coins new x) /\
    ReplayBlocks buf sizeofRef sizeofIn sizeofOut sizeofTxUndo usage genesis cursor full params h blk rev_ M d0 =
    (let* r := Flush (H := view full) (SetBestBlock c hn) in Ok (base (fst r), true)).
Proof.
  intros [Tn Th Tz To] [Iu Ib Ih Ic]. unfold hash_at in Th. destruct (h !! new) as [bn|] eqn:En; [|discriminate]. cbn in Th.
  destruct (@cache_new _ (view full) (laws full d0) usage d0 (conj eq_refl Iu)) as [K0 S0].
  assert (Run : forall c ws, cok c -> wr (CCoinsViewCache_of d0) ws c -> (forall x, apply_writes (coins_at old) ws x = coins new x) -> forall x, cache_coin (L := laws full d0) c x = coins new x).
  { intros c ws _ [_ W] R x. rewrite W, (apply_writes_ext ws _ (fun y => db_coins d0 !! y) x (S0 x)). exact (replay_mixed ws _ _ _ R Ic x). }
  unfold ReplayBlocks, db_GetHeadBlocks. rewrite Ih, Tn. unfold deref. rewrite En. cbn [or_abort obind].
  destruct old as [p|] eqn:Po.
  - destruct To as (Mo & No & b & z & Eb & Az & Az'). rewrite No, Mo. cbn [negb].
    destruct (LastCommonAncestor_spec h T p new b bn Eb En) as ([f|] & -> & Lc); [|destruct (Lc z Az Az')]. destruct Lc as (Af & Af' & Last). cbn [or_abort obind]. rewrite Eb. cbn [or_abort obind].
    destruct Af as [k U]. destruct (up_height h T k p f b Eb U) as (bf & Ebf & Hbf). pose proof (ok_height h T f bf Ebf).
    destruct (rollback_any k (S (Z.to_nat (nHeight b))) p b f (CCoinsViewCache_of d0) ltac:(lia) Eb U) as (c1 & ws1 & -> & W1 & S1); [|exact K0|].
    { intros j r Hj Uj. exists p. split; [exact Po|]. split; [now exists j|]. intros A. destruct (up_height h T j p r b Eb Uj) as (br & Er & Hr).
      destruct (anc_up h T f r bf br Ebf (Last r (ex_intro _ j Uj) A) Er) as [Le _]. lia. }
    cbn [obind]. rewrite Ebf. cbn [or_abort obind].
    destruct (anc_up h T new f bn bf En Af' Ebf) as [Le _].
    destruct (rollforward_any bn En (Z.to_nat (nHeight bn - nHeight bf)) f bf c1 Af' Ebf ltac:(lia)) as (c2 & ws2 & -> & W2 & S2); [|exact (proj1 W1)|].
    { intros r d Ar Er Hr. split; [exact Ar|]. intros o Eo A. rewrite Po in Eo. injection Eo as <-. destruct (anc_up h T f r bf d Ebf (Last r A Ar) Er) as [Le' _]. lia. }
    cbn [obind]. unfold GetBlockHash. rewrite Th. cbn [or_abort obind].
    exists c2. split; [exact (proj1 W2)|]. split; [|reflexivity]. apply (Run c2 (ws1 ++ ws2) (proj1 W2) (wrote_app usage _ _ _ _ _ W1 W2)).
    intros x. rewrite apply_writes_app, <- S2. apply apply_writes_ext, S1.
  - rewrite To. cbn [negb obind]. unfold rollback. cbn [ptr_eqb]. rewrite ptr_eqb_refl. cbn [obind].
    pose proof (ok_height h T new bn En). destruct (GetAncestor_anc h T new bn 0 En ltac:(lia)) as (f & bf & _ & Af & Ebf & Hbf).
    destruct (rollforward_any bn En (Z.to_nat (nHeight bn - 0)) f bf (CCoinsViewCache_of d0) Af Ebf ltac:(lia)) as (c2 & ws2 & E2 & W2 & S2); [|exact K0|].
    { intros r d Ar _ _. split; [exact Ar|]. intros o Eo. congruence. }
    rewrite Hbf in E2. rewrite E2. cbn [obind].
    unfold GetBlockHash. rewrite Th. cbn [or_abort obind]. exists c2. split; [exact (proj1 W2)|]. split; [|reflexivity]. apply (Run c2 ws2 (proj1 W2) W2).
    intros x. rewrite <- S2. apply apply_writes_ext. symmetry. destruct (pprev bf) as [q|] eqn:P; [|apply (hi_root Hi f bf Po); [split; [exact Af | intros o Eo; congruence] | exact Ebf | exact P]].
    destruct (ok_prev h T f bf q Ebf P) as (bq & Eq & Hq). pose proof (ok_height h T q bq Eq). lia.
Qed.

(** A prefix of the batches of a write keeps the database interrupted. *)
Lemma crash_interrupted pn hn po ho d l bs k : writing d hn ho -> hash_IsNull hn = false -> NoDup (map fst l) -> batches full d l hn = Ok bs ->
  (forall x, db_coins d !! x = coins_at po x \/ db_coins d !! x = coins pn x) -> (forall x, after l (fun y => db_coins d !! y) x = coins pn x) ->
  (0 < k < length bs)%nat -> interrupted pn hn po ho (fold_left WriteBatch (firstn k bs) d).
Proof.
  intros W Hn N B Mx Af Hk. destruct (crash_state full d l hn ho bs k W Hn N B Hk) as (A & Eb & Eh & l1 & l2 & -> & S). constructor; [exact A | exact Eb | exact Eh|].
  intros x. rewrite S. destruct (proj1 (after_app l1 l2 (fun y => db_coins d !! y) x)) as [-> | ->]; [apply Mx | right; apply Af].
Qed.
End Branches.

(** ** Properties *)

(** C5: the coins survive crashes. When a flush that takes the database from the coins at one block to
    those at another is interrupted between two batches, however it is split, [ReplayBlocks] at the next
    start succeeds and leaves exactly the coins at the new block, marked as complete; and when its own
    flush is interrupted in turn, the database is again one from which it succeeds. The blocks may be on
    different branches, or the flush the first. What is needed of the files are the blocks on the way
    alone: those after the last common block on the old branch can be read with their undo data, those
    on the new branch can be read, and both were valid when they were connected. Entries elsewhere in
    the index may be headers only, invalid, never connected or pruned. *)
Theorem crash_recovery (K : Secp256k1) (buf : bytes) (sizeofRef sizeofIn sizeofOut sizeofTxUndo : Z) (usage : Coin -> Z) (genesis : Z)
  (cursor : CCoinsViewCache store -> bytes -> list Coin) (full : list change -> bool) (params : Params)
  (h : heap) (blk rev_ : files) (coins : ptr -> coin_set) (M : BlockMap) (pn : ptr) (hn : bytes) (po : option ptr) (ho : bytes) :
  usage Coin_new = 0 -> tree_ok h -> history buf sizeofRef sizeofIn sizeofOut sizeofTxUndo genesis params h blk rev_ coins po pn -> tips h M pn hn po ho ->
  (forall d l bs, consistent d -> db_GetBestBlock d = ho -> (forall x, db_coins d !! x = coins_at coins po x) -> NoDup (map fst l) ->
     (forall x, after l (coins_at coins po) x = coins pn x) -> batches full d l hn = Ok bs ->
     forall k, (0 < k < length bs)%nat -> interrupted coins pn hn po ho (fold_left WriteBatch (firstn k bs) d)) /\
  (forall d, interrupted coins pn hn po ho d ->
     exists l bs, batches full d l hn = Ok bs /\
       ReplayBlocks buf sizeofRef sizeofIn sizeofOut sizeofTxUndo usage genesis cursor full params h blk rev_ M d = Ok (fold_left WriteBatch bs d, true) /\
       (let d' := fold_left WriteBatch bs d in consistent d' /\ db_best d' = Some hn /\ forall x, db_coins d' !! x = coins pn x) /\
       forall k, (k < length bs)%nat -> interrupted coins pn hn po ho (fold_left WriteBatch (firstn k bs) d)).
Proof.
  intros U0 T Hi Tp. split.
  - intros d l bs C Eo Ec N Af B k Hk. apply (crash_interrupted full coins pn hn po ho d l bs k); auto; [left; split; auto | exact (tp_null _ _ _ _ _ _ Tp)|].
    intros x. rewrite <- Af. apply after_ext, Ec.
  - intros d I. destruct (ReplayBlocks_flush buf sizeofRef sizeofIn sizeofOut sizeofTxUndo usage U0 genesis cursor full params h T blk rev_ coins po pn Hi d M hn ho Tp I) as (c & Kc & Sc & ->).
    pose proof (tp_null _ _ _ _ _ _ Tp) as Hn. destruct (co_base _ _ Kc) as [Eb _]. pose proof (flush_batch_ok usage c Kc) as [N _]. set (l := map_to_list (cacheCoins c)) in *.
    assert (Af : forall x, after l (fun y => db_coins d !! y) x = coins pn x) by (intros x; rewrite <- Sc, <- (flushed_coins usage c x Kc), Eb; reflexivity).
    assert (W : writing d hn ho) by (right; destruct I; auto). pose proof (batches_spec full d l hn ho W Hn) as B. destruct (fill full l [] _) as [done batch].
    eexists l, _. split; [exact B|]. unfold Flush. cbn [base hashBlock cacheCoins SetBestBlock view_BatchWrite view db_view]. rewrite Eb. fold l. unfold db_BatchWrite. rewrite B. cbn [obind fst base].
    split; [reflexivity|]. split.
    + destruct (db_BatchWrite_spec full d l hn ho W Hn N) as (d' & E & C & Bd & S). unfold db_BatchWrite in E. rewrite B in E. cbn [obind] in E. injection E as <-.
      split; [exact C|]. split; [exact Bd|]. intros x. rewrite S. apply Af.
    + intros k Hk. destruct k as [|k]; [exact I|]. apply (crash_interrupted full coins pn hn po ho d l _ (S k) W Hn N B); [exact (in_coins _ _ _ _ _ _ I) | exact Af | lia].
Qed.

(** Two blocks on the same first block; each has one transaction. *)
Definition fork_tx (a : Z) : CTransaction :=
  mkTx 1 [mkTxIn (mkOutPoint (repeat 0 32) 0xffffffff) [1; a] 0xffffffff] [mkTxOut 50 [0x51]] 0.
Definition fork_block (a : Z) : CBlock := mkBlock (mkHeader 1 (repeat 9 32) (repeat a 32) 100 0x207fffff 2) [fork_tx a].
Definition some_bytes (x : option bytes) : bytes := match x with Some p => p | None => [] end.
Definition fork_id0 : bytes := Eval vm_compute in some_bytes (ComputeHash (fork_tx 0)).
Definition fork_id1 : bytes := Eval vm_compute in some_bytes (ComputeHash (fork_tx 1)).
Definition fork_hash0 : bytes := Eval vm_compute in some_bytes (hdr_GetHash (header (fork_block 0))).
Definition fork_hash1 : bytes := Eval vm_compute in some_bytes (hdr_GetHash (header (fork_block 1))).
Definition fork_entry (hash : bytes) (a : Z) : CBlockIndex :=
  mkIndex (Some hash) (Some 1%positive) (Some 1%positive) 1 a 0 0 zero 1 2 29 1 (repeat a 32) 100 0x207fffff 2 0 100 100 CDiskBlockMetaData_new 0.
(** The second block has a successor of which only the header is known. *)
Definition fork_header : CBlockIndex := set_status (set_links (fork_entry (repeat 8 32) 7) (Some 2%positive) (Some 1%positive) 2) 2.
Definition fork_heap : heap :=
  <[4%positive := fork_header]> (<[3%positive := fork_entry fork_hash1 1]> (<[2%positive := fork_entry fork_hash0 0]> (<[1%positive := set_links (fork_entry (repeat 9 32) 0) None None 0]> ∅))).
Definition fork_blk : files :=
  Eval vm_compute in <[0 := some_bytes (Serialize (CBlock_codec 16 72 40) (fork_block 0))]> (<[1 := some_bytes (Serialize (CBlock_codec 16 72 40) (fork_block 1))]> ∅).
Definition fork_rev : files :=
  Eval vm_compute in let u := 0 :: some_bytes (undo_checksum (repeat 9 32) [0]) in <[0 := u]> (<[1 := u]> ∅).
Definition fork_coins (p : ptr) : coin_set :=
  if decide (p = 2%positive) then run 100 1 (fun _ => None) [(fork_tx 0, fork_id0)]
  else if decide (p = 3%positive) then run 100 1 (fun _ => None) [(fork_tx 1, fork_id1)] else fun _ => None.

Lemma fork_ok : tree_ok fork_heap.
Proof.
  unfold fork_heap. repeat (apply tree_ok_insert; [ | reflexivity | first [split; reflexivity | eexists; repeat split; reflexivity]]). exact tree_ok_empty.
Qed.

Lemma fork_connectable (a : Z) (id : bytes) : ComputeHash (fork_tx a) = Some id -> connectable 100 1 (fun _ => None) [(fork_tx a, id)].
Proof.
  intros E [|[|k]] ti Ek; [injection Ek as <- | discriminate | discriminate]. split; [|reflexivity]. constructor; [exact E | repeat constructor; cbn; lia | reflexivity | reflexivity | discriminate].
Qed.

Lemma fork_block_at (a : Z) (id hash : bytes) (p : ptr) : ComputeHash (fork_tx a) = Some id ->
  ReadBlockFromDisk 16 72 40 fork_blk (fork_entry hash a) regtest_params = Ok (Some (fork_block a)) -> fork_coins p = run 100 1 (fun _ => None) [(fork_tx a, id)] ->
  block_at 16 72 40 100 regtest_params fork_blk fork_coins (fork_entry hash a) p 1%positive [(fork_tx a, id)].
Proof.
  intros E Rd Ec. split; [cbn; lia | now exists (fork_block a) | exact (fork_connectable a id E) | intros x; now rewrite Ec].
Qed.

Lemma fork_anc (p q : ptr) : p = 2%positive \/ p = 3%positive -> anc fork_heap p q -> q = p \/ q = 1%positive.
Proof.
  intros H [[|[|k]] U].
  - injection U as <-. now left.
  - right. destruct H as [-> | ->]; vm_compute in U; congruence.
  - destruct H as [-> | ->]; cbn [up] in U; (destruct k; vm_compute in U; discriminate).
Qed.

Lemma fork_history : history (H := sample_secp) (repeat 0 65) 16 72 40 24 100 regtest_params fork_heap fork_blk fork_rev fork_coins (Some 2%positive) 3%positive.
Proof.
  assert (E0 : ComputeHash (fork_tx 0) = Some fork_id0) by (vm_compute; reflexivity). assert (E1 : ComputeHash (fork_tx 1) = Some fork_id1) by (vm_compute; reflexivity).
  assert (A31 : anc fork_heap 3 1) by (exists 1%nat; reflexivity). assert (A21 : anc fork_heap 2 1) by (exists 1%nat; reflexivity).
  constructor.
  - intros p b q (o & [= <-] & A & N) Ep Eq. apply fork_anc in A as [-> | ->]; [|contradiction | now left]. injection Ep as <-. injection Eq as <-. exists [(fork_tx 0, fork_id0)].
    split; [apply fork_block_at; [exact E0 | vm_compute; reflexivity | reflexivity]|]. split; [intros x d X; discriminate|]. split; [discriminate|]. split; [reflexivity|].
    exists (set_links (fork_entry (repeat 9 32) 0) None None 0), (repeat 9 32), []. split; [reflexivity|]. split; [reflexivity|]. split; [vm_compute; reflexivity|].
    split; [reflexivity|]. intros [|k] ti Ek; discriminate.
  - intros p b q [A N] Ep Eq. apply fork_anc in A as [-> | ->]; [|contradiction (N 2%positive eq_refl) | now right]. injection Ep as <-. injection Eq as <-. exists [(fork_tx 1, fork_id1)].
    apply fork_block_at; [exact E1 | vm_compute; reflexivity | reflexivity].
  - discriminate.
Qed.

(** The first block was being replaced by the second when the process stopped after one coin. *)
Definition fork_store : store := mkStore {[ mkOutPoint fork_id0 0 := Coin_of (mkTxOut 50 [0x51]) 1 true ]} None (Some [fork_hash1; fork_hash0]).
Definition fork_map : BlockMap := <[fork_hash1 := 3%positive]> (<[fork_hash0 := 2%positive]> ∅).

Lemma fork_interrupted : interrupted fork_coins 3%positive fork_hash1 (Some 2%positive) fork_hash0 fork_store.
Proof.
  constructor; [|reflexivity|reflexivity|].
  - intros o c E. cbn [db_coins fork_store] in E. apply lookup_singleton_Some in E as [_ <-]. reflexivity.
  - intros x. left. change (coins_at fork_coins (Some 2%positive) x) with (run 100 1 (fun _ => None) [(fork_tx 0, fork_id0)] x). unfold run, connected, with_created. cbn [fold_left fst snd].
    change (IsCoinBase (fork_tx 0)) with true. cbn [created vout fork_tx]. change (outpoint_at fork_id0 0) with (mkOutPoint fork_id0 0).
    change (unspendable 100 (Coin_of (mkTxOut 50 [81]) (u32 1) true)) with false. cbn [db_coins fork_store]. destruct (decide (x = mkOutPoint fork_id0 0)) as [->|N].
    + now rewrite lookup_singleton_eq.
    + rewrite lookup_singleton_ne by congruence. reflexivity.
Qed.

Lemma crash_recovery_witness : exists d',
  ReplayBlocks (H := sample_secp) (repeat 0 65) 16 72 40 24 (fun d => len (scriptPubKey (out d))) 100 (fun _ _ => []) (fun _ => true) regtest_params fork_heap fork_blk fork_rev fork_map fork_store
    = Ok (d', true) /\ db_best d' = Some fork_hash1 /\
  db_coins d' !! mkOutPoint fork_id0 0 = None /\ db_coins d' !! mkOutPoint fork_id1 0 = Some (Coin_of (mkTxOut 50 [0x51]) 1 true).
Proof.
  destruct (crash_recovery sample_secp (repeat 0 65) 16 72 40 24 (fun d => len (scriptPubKey (out d))) 100 (fun _ _ => []) (fun _ => true) regtest_params fork_heap fork_blk fork_rev fork_coins
    fork_map 3%positive fork_hash1 (Some 2%positive) fork_hash0 eq_refl fork_ok fork_history) as [_ R].
  - constructor; [reflexivity | reflexivity | reflexivity|]. split; [reflexivity|]. split; [reflexivity|].
    exists (fork_entry fork_hash0 0), 1%positive. split; [reflexivity|]. split; exists 1%nat; reflexivity.
  - destruct (R fork_store fork_interrupted) as (l & bs & _ & E & (_ & B & S) & _). eexists. split; [exact E|]. split; [exact B|]. rewrite !S. split; vm_compute; reflexivity.
Defined.
End Replay.
