(* ===== verification/Validation.v ===== *)
(** * Checks of single transactions (src/src/validation.cpp, src/src/consensus/validation.h)

    The state a validation leaves, the block subsidy, and the checks of a transaction that do not
    look at the coins: the common ones, those of a coinbase with its miner bill, those of a regular
    transaction, and its lock time. *)

From Stdlib Require Import String.
From stdpp Require Import gmap.
From S2P Require Import Prelude Endian IntSerialization Outcome BigInt ScriptNum Hash Opcodes Script Serialize.
From S2P Require Import Amount Transaction Block ScriptChecks PubKey Pow Coins Undo.
Import BigInt ScriptNum Hash Script Amount Transaction PubKey Coins Undo.

Module Validation.
Local Open Scope Z_scope.
Local Open Scope outcome_scope.

(** ** CValidationState *)

Inductive mode_state : Set := MODE_VALID | MODE_INVALID | MODE_ERROR.

(** The members that the code modelled here writes; the debug message is only logged. *)
Record CValidationState : Type := mkValidation {
  mode : mode_state;
  nDoS : Z;
  strRejectReason : string;
  chRejectCode : Z;
  corruptionPossible : bool;
  nonFinal : bool
}.

Definition CValidationState_new : CValidationState := mkValidation MODE_VALID 0 "" 0 false false.

Definition DoS (s : CValidationState) (level chRejectCodeIn : Z) (strRejectReasonIn : string) (corruptionIn : bool) : CValidationState :=
  match mode s with
  | MODE_ERROR => mkValidation MODE_ERROR (nDoS s) strRejectReasonIn chRejectCodeIn corruptionIn (nonFinal s)
  | _ => mkValidation MODE_INVALID (nDoS s + level) strRejectReasonIn chRejectCodeIn corruptionIn (nonFinal s)
  end.
Definition Invalid (s : CValidationState) (chRejectCodeIn : Z) (strRejectReasonIn : string) : CValidationState :=
  DoS s 0 chRejectCodeIn strRejectReasonIn false.
Definition Error (s : CValidationState) (strRejectReasonIn : string) : CValidationState :=
  mkValidation MODE_ERROR (nDoS s) (match mode s with MODE_VALID => strRejectReasonIn | _ => strRejectReason s end)
    (chRejectCode s) (corruptionPossible s) (nonFinal s).
Definition SetNonFinal (s : CValidationState) : CValidationState :=
  mkValidation (mode s) (nDoS s) (strRejectReason s) (chRejectCode s) (corruptionPossible s) true.

Definition REJECT_INVALID : Z := 0x10.
Definition REJECT_OBSOLETE : Z := 0x11.
Definition REJECT_NONSTANDARD : Z := 0x40.

(** What a check returns: the state it leaves, and its boolean. *)
Abbreviation verdict := (outcome (CValidationState * bool)).
Definition accept (s : CValidationState) : verdict := Ok (s, true).
(** [return state.DoS(level, false, code, reason);] *)
Definition reject (s : CValidationState) (level code : Z) (reason : string) : verdict := Ok (DoS s level code reason false, false).
(** [if (!check) return false;] followed by [k] *)
Definition passes (check : verdict) (k : CValidationState -> verdict) : verdict :=
  let* r := check in if snd r then k (fst r) else Ok (fst r, false).

(** ** The subsidy *)

Definition GetBlockSubsidy (nHeight nSubsidyHalvingInterval : Z) : outcome Amount :=
  let* halvings := Pow.quot nHeight nSubsidyHalvingInterval in
  if 64 <=? halvings then Ok 0
  else if halvings <? 0 then Abort
  else
    let* nSubsidy := amount_mul 50 COIN in
    Ok (Z.shiftr nSubsidy halvings).

Section Checks.
Context {B : BIGNUM} {K : Secp256k1}.

(** ** Counting signature operations *)

Fixpoint sigops_of (scripts : list bytes) (isGenesisEnabled : bool) (nSigOps : Z) : outcome (Z * bool) :=
  match scripts with
  | [] => Ok (nSigOps, false)
  | s :: scripts =>
      let* r := GetSigOpCount s false isGenesisEnabled in
      let nSigOps := u64 (nSigOps + fst r) in
      if snd r then Ok (nSigOps, true) else sigops_of scripts isGenesisEnabled nSigOps
  end.
(** The count and [sigOpCountError]; the loops over the inputs and over the outputs are one. *)
Definition GetSigOpCountWithoutP2SH (tx : CTransaction) (isGenesisEnabled : bool) : outcome (Z * bool) :=
  sigops_of (map scriptSig (vin tx) ++ map scriptPubKey (vout tx)) isGenesisEnabled 0.

(** ** Any transaction *)

Fixpoint check_outputs (state : CValidationState) (nValueOut : Amount) (outs : list CTxOut) : verdict :=
  match outs with
  | [] => accept state
  | txout :: outs =>
      if nValue txout <? 0 then reject state 100 REJECT_INVALID "bad-txns-vout-negative"
      else if MAX_MONEY <? nValue txout then reject state 100 REJECT_INVALID "bad-txns-vout-toolarge"
      else
        let* nValueOut := amount_add nValueOut (nValue txout) in
        if negb (MoneyRange nValueOut) then reject state 100 REJECT_INVALID "bad-txns-txouttotal-toolarge"
        else check_outputs state nValueOut outs
  end.

Definition CheckTransactionCommon (tx : CTransaction) (state : CValidationState)
    (maxTxSigOpsCountConsensusBeforeGenesis maxTxSizeConsensus : Z) (isGenesisEnabled : bool) : verdict :=
  match vin tx, vout tx with
  | [], _ => reject state 10 REJECT_INVALID "bad-txns-vin-empty"
  | _, [] => reject state 10 REJECT_INVALID "bad-txns-vout-empty"
  | _, _ =>
      if maxTxSizeConsensus <? tx_size tx then reject state 100 REJECT_INVALID "bad-txns-oversize"
      else
        passes (check_outputs state 0 (vout tx)) (fun state =>
        if negb isGenesisEnabled then
          let* r := GetSigOpCountWithoutP2SH tx isGenesisEnabled in
          if snd r || (maxTxSigOpsCountConsensusBeforeGenesis <? fst r) then reject state 100 REJECT_INVALID "bad-txn-sigops"
          else accept state
        else accept state)
  end.

(** ** The coinbase *)

(** [script[i]]: reading past the end is undefined. *)
Definition script_at (s : bytes) (i : Z) : outcome Z := or_abort (nth_error s (Z.to_nat i)).

(** [n] times [script[scriptSize++]] with the index [scriptSize] of type [uint8_t]: the bytes and
    the index after them. *)
Fixpoint take_bytes (n : nat) (s : bytes) (scriptSize : Z) : outcome (bytes * Z) :=
  match n with
  | O => Ok ([], scriptSize)
  | S n =>
      let* b := script_at s scriptSize in
      let* r := take_bytes n s (u8 (scriptSize + 1)) in
      Ok (b :: fst r, snd r)
  end.
(** The same with an index that does not wrap. *)
Definition slice (s : bytes) (from n : nat) : outcome bytes :=
  if (from + n <=? length s)%nat then Ok (firstn n (skipn from s)) else Abort.

Definition height3 (v : bytes) : Z := nth 0 v 0 * 256 * 256 + nth 1 v 0 * 256 + nth 2 v 0.

Definition pubkeyA : bytes :=
  [0x03; 0x18; 0xa2; 0x74; 0x33; 0x7b; 0x8f; 0x52; 0x72; 0x6e; 0xe6; 0x08; 0x0e; 0x64; 0x32; 0xa6; 0x43; 0xdb; 0xaf; 0xfd;
   0x8f; 0x18; 0x3c; 0x5b; 0x52; 0x33; 0x8a; 0xcf; 0xa9; 0x0c; 0xd9; 0x2f; 0x43].

(** The second signature: from the input script when the charge address is checked, else from the
    output script; nothing when it is too short. *)
Definition bill_sigB (ifCheckChargeAddress : bool) (inputScript outputScript : bytes) (scriptSize : Z) : outcome (option bytes) :=
  if ifCheckChargeAddress then
    let* sigBLen := script_at inputScript 4 in
    if sigBLen <? 68 then Ok None
    else let* s := slice inputScript 5 (Z.to_nat sigBLen) in Ok (Some s)
  else
    let* r := take_bytes 1 outputScript scriptSize in
    let sigBLen := nth 0 (fst r) 0 in
    if sigBLen <? 68 then Ok None
    else let* r := take_bytes (Z.to_nat sigBLen) outputScript (snd r) in Ok (Some (fst r)).

Definition FilledMinerBill (tx : CTransaction) : outcome bool :=
  let* out0 := or_abort (nth_error (vout tx) 0) in
  let* in0 := or_abort (nth_error (vin tx) 0) in
  let chargeOutputScript := scriptPubKey out0 in
  let chargeInputScript := scriptSig in0 in
  if (len chargeOutputScript =? 0) || (len chargeInputScript =? 0) then Throw std_exception
  else if len chargeOutputScript <? 130 then Ok false
  else
    let* r := take_bytes 3 chargeOutputScript 26 in
    let '(vecKycFlag, scriptSize) := r in
    let ifCheckChargeAddress := (nth 0 vecKycFlag 0 =? 0x4C) && (nth 2 vecKycFlag 0 =? 0x01) in
    let* now3 := script_at chargeInputScript 3 in
    let* now2 := script_at chargeInputScript 2 in
    let* now1 := script_at chargeInputScript 1 in
    let vecNowHeight := [now3; now2; now1] in
    let* chargeAddressScript := slice chargeOutputScript 3 20 in
    let* r := take_bytes 33 chargeOutputScript scriptSize in
    let '(pubkeyB, scriptSize) := r in
    let* r := take_bytes 1 chargeOutputScript scriptSize in
    let '(lenA, scriptSize) := r in
    let sigALen := nth 0 lenA 0 in
    if sigALen <? 70 then Ok false
    else
      let* r := take_bytes (Z.to_nat (sigALen - 4)) chargeOutputScript scriptSize in
      let '(sigA, scriptSize) := r in
      let* r := take_bytes 3 chargeOutputScript scriptSize in
      let '(vecPermissionHeight, scriptSize) := r in
      let perHeight := u32 (height3 vecPermissionHeight) in
      let nowHeight := u32 (height3 vecNowHeight) in
      if perHeight <? nowHeight then Ok false
      else
        let* r := take_bytes 1 chargeOutputScript scriptSize in
        let '(rate, scriptSize) := r in
        let minerFeeRate := nth 0 rate 0 in
        let* total := GetValueOut tx in
        let* scaled := in_int64 (total * minerFeeRate) in
        let lowestLimitCoinbaseFee := u64 (Z.quot scaled 100) in
        let coinbaseFee := u64 (nValue out0) in
        if coinbaseFee <? lowestLimitCoinbaseFee then Ok false
        else
          let* sigB := bill_sigB ifCheckChargeAddress chargeInputScript chargeOutputScript scriptSize in
          match sigB with
          | None => Ok false
          | Some sigB =>
              let cPubkeyA := CPubKey_of (repeat 0 65) pubkeyA in
              let cPubkeyB := CPubKey_of (repeat 0 65) pubkeyB in
              let TMsgBHash := Hash1 vecNowHeight in
              let TMsgA := pk_data cPubkeyB ++ vecPermissionHeight ++ [minerFeeRate] ++
                (if ifCheckChargeAddress then chargeAddressScript else []) in
              let TMsgAHash := Hash1 TMsgA in
              Ok (Verify cPubkeyB TMsgBHash sigB && Verify cPubkeyA TMsgAHash sigA)
          end.

(** The first byte is read before the test for the empty script, but not used then. *)
Definition HeightFormScript (tx : CTransaction) : outcome Z :=
  let* i := or_abort (nth_error (vin tx) 0) in
  match scriptSig i with
  | [] => Throw std_exception
  | numlen :: rest =>
      if numlen =? OP_0 then Ok 0
      else if (OP_1 <=? numlen) && (numlen <=? OP_16) then Ok (numlen - OP_1 + 1)
      else if len rest <? numlen then Throw std_exception
      else
        let* coinbaseHeight := CScriptNum_of_span (firstn (Z.to_nat numlen) rest) false numlen false in
        let* n := getint coinbaseHeight in
        Ok (u64 n)
  end.

(** [chainHeight] is [chainActive.Height()]. *)
Definition check_bill (tx : CTransaction) (state : CValidationState) (chainHeight : Z) : verdict :=
  let* scriptSigHeight := HeightFormScript tx in
  let due := (824189 <=? chainHeight) && (824189 <=? scriptSigHeight) in
  if due && negb (nVersion tx =? 10) then Ok (Invalid state 0 "", false)
  else if due then
    let* filled := FilledMinerBill tx in
    if negb filled then reject state 100 REJECT_INVALID "bad-miner-bill" else accept state
  else accept state.

Definition CheckCoinbase (tx : CTransaction) (state : CValidationState)
    (maxTxSigOpsCountConsensusBeforeGenesis maxTxSizeConsensus : Z) (isGenesisEnabled : bool) (chainHeight : Z) : verdict :=
  passes (if isGenesisEnabled then check_bill tx state chainHeight else accept state) (fun state =>
  if negb (IsCoinBase tx) then reject state 100 REJECT_INVALID "bad-cb-missing"
  else
    passes (CheckTransactionCommon tx state maxTxSigOpsCountConsensusBeforeGenesis maxTxSizeConsensus isGenesisEnabled) (fun state =>
    let* i := or_abort (nth_error (vin tx) 0) in
    if (len (scriptSig i) <? 2) || (100 <? len (scriptSig i)) then reject state 100 REJECT_INVALID "bad-cb-length"
    else accept state)).

(** ** A regular transaction *)

Fixpoint check_inputs (state : CValidationState) (inOutPoints : gset COutPoint) (ins : list CTxIn) : verdict :=
  match ins with
  | [] => accept state
  | txin :: ins =>
      if COutPoint_IsNull (prevout txin) then reject state 10 REJECT_INVALID "bad-txns-prevout-null"
      else if decide (prevout txin ∈ inOutPoints) then reject state 100 REJECT_INVALID "bad-txns-inputs-duplicate"
      else check_inputs state ({[prevout txin]} ∪ inOutPoints) ins
  end.

Definition CheckRegularTransaction (tx : CTransaction) (state : CValidationState)
    (maxTxSigOpsCountConsensusBeforeGenesis maxTxSizeConsensus : Z) (isGenesisEnabled : bool) : verdict :=
  if IsCoinBase tx then reject state 100 REJECT_INVALID "bad-tx-coinbase"
  else
    passes (CheckTransactionCommon tx state maxTxSigOpsCountConsensusBeforeGenesis maxTxSizeConsensus isGenesisEnabled) (fun state =>
    if isGenesisEnabled && existsb (fun o => IsP2SH (scriptPubKey o)) (vout tx) then
      reject state 100 REJECT_INVALID "bad-txns-vout-p2sh"
    else check_inputs state ∅ (vin tx)).

(** ** Lock times *)

Definition IsFinalTx (tx : CTransaction) (nBlockHeight nBlockTime : Z) : bool :=
  if nLockTime tx =? 0 then true
  else
    let lockTime := nLockTime tx in
    let lockTimeLimit := if lockTime <? LOCKTIME_THRESHOLD then nBlockHeight else nBlockTime in
    if lockTime <? lockTimeLimit then true
    else forallb (fun txin => nSequence txin =? SEQUENCE_FINAL) (vin tx).

Definition ContextualCheckTransaction (genesis : Z) (tx : CTransaction) (state : CValidationState)
    (nHeight nLockTimeCutoff : Z) (fromBlock : bool) : verdict :=
  if negb (IsFinalTx tx nHeight nLockTimeCutoff) then
    let state := SetNonFinal state in
    let* silent := if negb fromBlock then IsGenesisEnabled genesis nHeight else Ok false in
    if silent then Ok (state, false) else reject state 10 REJECT_INVALID "bad-txns-nonfinal"
  else accept state.

Definition LOCKTIME_VERIFY_SEQUENCE : Z := 1.
Definition LOCKTIME_MEDIAN_TIME_PAST : Z := 2.

(** [adjustedTime] is [GetAdjustedTime()]. *)
Definition ContextualCheckTransactionForCurrentBlock (genesis : Z) (tx : CTransaction) (nChainActiveHeight nMedianTimePast : Z)
    (state : CValidationState) (flags adjustedTime : Z) : verdict :=
  let flags := Z.max flags 0 in
  let nBlockHeight := nChainActiveHeight + 1 in
  let nLockTimeCutoff := if negb (Z.land flags LOCKTIME_MEDIAN_TIME_PAST =? 0) then nMedianTimePast else adjustedTime in
  ContextualCheckTransaction genesis tx state nBlockHeight nLockTimeCutoff false.
End Checks.

(** ** Verdicts *)

(** The check ends with a verdict that is positive exactly when [P] holds; then the state is
    unchanged, else it says that something is invalid. *)
Definition decides (check : verdict) (s : CValidationState) (P : Prop) : Prop :=
  exists s' b, check = Ok (s', b) /\ (b = true <-> P) /\ (b = true -> s' = s) /\ (b = false -> mode s' <> MODE_VALID).

Lemma decides_accept s (P : Prop) : P -> decides (accept s) s P.
Proof. intros H. exists s, true. split; [reflexivity|]. split; [easy|]. split; [reflexivity | discriminate]. Qed.

Lemma DoS_mode s level code reason c : mode (DoS s level code reason c) <> MODE_VALID.
Proof. unfold DoS. now destruct (mode s). Qed.

Lemma decides_reject s level code reason (P : Prop) : ~ P -> decides (reject s level code reason) s P.
Proof.
  intros H. exists (DoS s level code reason false), false. split; [reflexivity|]. split; [easy|]. split; [discriminate|].
  intros _. apply DoS_mode.
Qed.

Lemma decides_passes c k s (P Q : Prop) : decides c s P -> (P -> decides (k s) s Q) -> decides (passes c k) s (P /\ Q).
Proof.
  intros (s' & b & -> & HP & He & Hm) Hk. unfold passes. cbn [obind fst snd]. destruct b.
  - specialize (He eq_refl) as ->. destruct HP as [HP _]. destruct (Hk (HP eq_refl)) as (s1 & b1 & E1 & HQ & He1 & Hm1).
    exists s1, b1. split; [exact E1|]. split; [|auto]. rewrite HQ. intuition.
  - exists s', false. split; [reflexivity|]. split; [split; [discriminate | intros [X _]; apply HP in X; discriminate]|].
    split; [discriminate | auto].
Qed.

Lemma decides_iff c s (P Q : Prop) : decides c s P -> (P <-> Q) -> decides c s Q.
Proof. intros (s' & b & E & HP & R) I. exists s', b. split; [exact E|]. split; [now rewrite HP | exact R]. Qed.

(** A condition that leads to a rejection, and the rest. *)
Lemma decides_guard (c : bool) s level code reason k (P Q : Prop) :
  (c = true -> ~ P) -> (c = false -> P) -> (c = false -> decides k s Q) ->
  decides (if c then reject s level code reason else k) s (P /\ Q).
Proof.
  intros Ht Hf Hk. destruct c.
  - apply decides_reject. intros [X _]. exact (Ht eq_refl X).
  - apply (decides_iff _ _ Q); [exact (Hk eq_refl) | specialize (Hf eq_refl); intuition].
Qed.

(** ** What the checks decide *)

Definition amounts_ok (outs : list CTxOut) (acc : Z) : Prop :=
  Forall (fun o => 0 <= nValue o <= MAX_MONEY) outs /\ acc + sum_values outs <= MAX_MONEY.

Lemma sum_values_nonneg outs : Forall (fun o => 0 <= nValue o <= MAX_MONEY) outs -> 0 <= sum_values outs.
Proof. induction 1 as [|o outs Ho F IH]; [cbn; lia|]. change (sum_values (o :: outs)) with (nValue o + sum_values outs). lia. Qed.

Lemma check_outputs_spec (s : CValidationState) outs : forall acc, 0 <= acc <= MAX_MONEY ->
  decides (check_outputs s acc outs) s (amounts_ok outs acc).
Proof.
  induction outs as [|o outs IH]; intros acc Ha; cbn [check_outputs].
  - apply decides_accept. split; [constructor | cbn; lia].
  - destruct (Z.ltb_spec (nValue o) 0) as [X|X]; [apply decides_reject; intros [F _]; inversion F; lia|].
    destruct (Z.ltb_spec MAX_MONEY (nValue o)) as [Y|Y]; [apply decides_reject; intros [F _]; inversion F; lia|].
    unfold amount_add. rewrite in_int64_fits by (unfold MAX_MONEY, COIN in *; lia). cbn [obind].
    apply (decides_iff _ _ (0 <= acc + nValue o <= MAX_MONEY /\ amounts_ok outs (acc + nValue o))).
    + apply decides_guard; [rewrite negb_true_iff | rewrite negb_false_iff; apply MoneyRange_iff | rewrite negb_false_iff; intros M; apply IH; now apply MoneyRange_iff].
      intros M R. apply MoneyRange_iff in R. congruence.
    + unfold amounts_ok. rewrite Forall_cons_iff. change (sum_values (o :: outs)) with (nValue o + sum_values outs).
      split; [intros (R & F & T); intuition lia|]. intros ((Ho & F) & T). pose proof (sum_values_nonneg outs F). intuition lia.
Qed.

Lemma check_inputs_spec (s : CValidationState) ins : forall seen : gset COutPoint,
  decides (check_inputs s seen ins) s (Forall (fun i => COutPoint_IsNull (prevout i) = false /\ prevout i ∉ seen) ins /\ NoDup (map prevout ins)).
Proof.
  induction ins as [|i ins IH]; intros seen; cbn [check_inputs map].
  - apply decides_accept. split; constructor.
  - destruct (COutPoint_IsNull (prevout i)) eqn:N; [apply decides_reject; intros [F _]; inversion F as [|? ? [X _]]; congruence|].
    destruct (decide (prevout i ∈ seen)) as [I|I]; [apply decides_reject; intros [F _]; inversion F as [|? ? [_ X]]; contradiction|].
    apply (decides_iff _ _ _ _ (IH ({[prevout i]} ∪ seen))). rewrite Forall_cons_iff, NoDup_cons_iff, in_map_iff, !Stdlib.Lists.List.Forall_forall.
    split.
    + intros [F D]. split; [split; [now split|]|]; [intros j Ij; destruct (F j Ij) as [F1 F2]; split; [exact F1 | intros X; apply F2, elem_of_union; now right]|].
      split; [|exact D]. intros (j & E & Ij). destruct (F j Ij) as [_ F2]. apply F2, elem_of_union. left. now apply elem_of_singleton.
    + intros [[_ F] [A D]]. split; [|exact D]. intros j Ij. specialize (F j Ij) as [F1 F2]. split; [exact F1|].
      intros X. apply elem_of_union in X as [X|X]; [|contradiction]. apply elem_of_singleton in X. apply A. eauto.
Qed.

Section Decide.
Context {B : BIGNUM} {L : BIGNUM_Laws B} {A : BIGNUM_Alloc B}.

Definition scripts_ok (tx : CTransaction) : Prop :=
  Forall (fun s => bytes_ok s /\ len s < 2 ^ 32) (map scriptSig (vin tx) ++ map scriptPubKey (vout tx)).

Lemma sigops_of_ok scripts : Forall (fun s => bytes_ok s /\ len s < 2 ^ 32) scripts -> forall acc,
  exists n, sigops_of scripts false acc = Ok (n, false).
Proof.
  induction 1 as [|s scripts [Hs Hl] F IH]; intros acc; [now exists acc|]. cbn [sigops_of].
  destruct (GetSigOpCount_ok s false false Hs Hl) as (n & e & -> & _ & Hg). destruct (Hg eq_refl) as [-> _]. cbn [obind fst snd]. apply IH.
Qed.

(** The number of signature operations is within the limit. *)
Definition sigops_within (tx : CTransaction) (max : Z) : Prop := exists n, GetSigOpCountWithoutP2SH tx false = Ok (n, false) /\ n <= max.

Definition common_ok (tx : CTransaction) (maxSigOps maxSize : Z) (isGenesisEnabled : bool) : Prop :=
  (vin tx <> [] /\ vout tx <> [] /\ tx_size tx <= maxSize) /\ amounts_ok (vout tx) 0 /\ (isGenesisEnabled = false -> sigops_within tx maxSigOps).

Lemma CheckTransactionCommon_spec tx s maxSigOps maxSize g : scripts_ok tx ->
  decides (CheckTransactionCommon tx s maxSigOps maxSize g) s (common_ok tx maxSigOps maxSize g).
Proof.
  intros Hs. unfold CheckTransactionCommon, common_ok. destruct (vin tx) as [|i ins] eqn:Ei; [apply decides_reject; intros [[X _] _]; congruence|].
  destruct (vout tx) as [|o outs] eqn:Eo; [apply decides_reject; intros [[_ [X _]] _]; congruence|]. rewrite <- Ei, <- Eo.
  apply decides_guard; [intros X%Z.ltb_lt; lia | intros X%Z.ltb_ge; rewrite Ei, Eo; repeat split; [discriminate | discriminate | exact X]|]. intros _.
  apply decides_passes; [apply check_outputs_spec; unfold MAX_MONEY, COIN; lia|]. intros _. destruct g; cbn [negb]; [now apply decides_accept|].
  destruct (sigops_of_ok _ Hs 0) as (n & E). unfold sigops_within, GetSigOpCountWithoutP2SH. rewrite E. cbn [obind fst snd orb].
  destruct (Z.ltb_spec maxSigOps n).
  - apply decides_reject. intros X. destruct (X eq_refl) as (m & Em & Hm). injection Em as <-. lia.
  - apply decides_accept. intros _. now exists n.
Qed.

(** A regular transaction that the checks without context let pass. *)
Definition regular_ok (tx : CTransaction) (maxSigOps maxSize : Z) (isGenesisEnabled : bool) : Prop :=
  common_ok tx maxSigOps maxSize isGenesisEnabled /\
  (isGenesisEnabled = true -> Forall (fun o => IsP2SH (scriptPubKey o) = false) (vout tx)) /\
  Forall (fun i => COutPoint_IsNull (prevout i) = false) (vin tx) /\ NoDup (map prevout (vin tx)).

Lemma CheckRegularTransaction_spec tx s maxSigOps maxSize g : scripts_ok tx ->
  decides (CheckRegularTransaction tx s maxSigOps maxSize g) s (regular_ok tx maxSigOps maxSize g).
Proof.
  intros Hs. unfold CheckRegularTransaction. destruct (IsCoinBase tx) eqn:CB.
  - apply decides_reject. intros (_ & _ & N & _). unfold IsCoinBase in CB. destruct (vin tx) as [|i [|]]; try discriminate. inversion N. congruence.
  - apply decides_passes; [now apply CheckTransactionCommon_spec|]. intros _. apply decides_guard.
    + intros [-> X]%andb_true_iff N. apply existsb_exists in X as (o & Io & Po). specialize (N eq_refl). rewrite Stdlib.Lists.List.Forall_forall in N. rewrite N in Po; congruence.
    + intros X ->. cbn [andb] in X. apply Stdlib.Lists.List.Forall_forall. intros o Io. destruct (IsP2SH (scriptPubKey o)) eqn:P; [|reflexivity].
      rewrite <- X. symmetry. apply existsb_exists. now exists o.
    + intros _. apply (decides_iff _ _ _ _ (check_inputs_spec s (vin tx) ∅)). rewrite !Stdlib.Lists.List.Forall_forall. split; intros [F D]; (split; [|exact D]); intros i Ii.
      * now apply F.
      * split; [now apply F | set_solver].
Qed.
End Decide.

(** ** The miner bill *)

Lemma passes_true c k (s' : CValidationState) : passes c k = Ok (s', true) -> exists s1, c = Ok (s1, true) /\ k s1 = Ok (s', true).
Proof.
  unfold passes. intros H. ok_inv. destruct a as [s1 b]. cbn [fst snd] in H. destruct b; [now exists s1|]. discriminate.
Qed.

Section Bill.
Context {B : BIGNUM} {K : Secp256k1}.

(** [script[scriptSize++]] with an 8-bit index: the bytes from the position [from] on, counted modulo
    256, are those of [v]. *)
Definition carries (script : bytes) (from : Z) (v : bytes) : Prop :=
  forall k : nat, (k < length v)%nat -> nth_error script (Z.to_nat ((from + Z.of_nat k) mod 256)) = nth_error v k.

(** The flag of a bill that names the address to charge. *)
Definition names_address (out : bytes) : bool := (nth 26 out 0 =? 0x4C) && (nth 28 out 0 =? 1).

(** Where the parts of a bill stand in the script of the first output and in the script of the input:
    the miner's key, the length of the authority's signature (plus four) and that signature, the height
    of the permission, the share, and the length of the miner's signature and that signature. *)
Record bill_layout (out inp keyB sigA perm addr sigB : bytes) (rate : Z) : Prop := {
  bl_size : 130 <= len out;
  bl_key : length keyB = 33%nat /\ carries out 29 keyB;
  bl_sigA : 66 <= len sigA /\ carries out 62 ((len sigA + 4) :: sigA);
  bl_perm : length perm = 3%nat /\ carries out (63 + len sigA) (perm ++ [rate]);
  bl_addr : addr = if names_address out then firstn 20 (skipn 3 out) else [];
  bl_sigB : 68 <= len sigB /\
    if names_address out then firstn (S (length sigB)) (skipn 4 inp) = len sigB :: sigB else carries out (67 + len sigA) (len sigB :: sigB)
}.

(** A bill: the miner's key, permitted by the authority's key up to a height and for a share of the
    reward, which the miner has signed for the height [now] of the block. *)
Record signed_bill (tx : CTransaction) (o : CTxOut) (i : CTxIn) (now perm keyB addr sigA sigB : bytes) (rate : Z) : Prop := {
  sb_layout : bill_layout (scriptPubKey o) (scriptSig i) keyB sigA perm addr sigB rate;
  sb_height : u32 (height3 now) <= u32 (height3 perm);
  sb_share : 0 <= rate -> Z.quot (sum_values (vout tx) * rate) 100 <= nValue o;
  sb_miner : Verify (CPubKey_of (repeat 0 65) keyB) (Hash1 now) sigB = true;
  sb_authority : Verify (CPubKey_of (repeat 0 65) pubkeyA) (Hash1 (pk_data (CPubKey_of (repeat 0 65) keyB) ++ perm ++ [rate] ++ addr)) sigA = true
}.

Lemma carries_app (s v w : bytes) (i : Z) : carries s i v -> carries s (i + len v) w -> carries s i (v ++ w).
Proof.
  intros V W k Hk. rewrite length_app in Hk. destruct (Nat.lt_ge_cases k (length v)) as [L|L].
  - rewrite nth_error_app1 by exact L. now apply V.
  - rewrite nth_error_app2 by exact L. rewrite <- W by lia. unfold len. do 3 f_equal. lia.
Qed.

Lemma carries_mod (s v : bytes) (i : Z) : carries s (i mod 256) v -> carries s i v.
Proof. intros V k Hk. rewrite <- V by exact Hk. now rewrite Z.add_mod_idemp_l by lia. Qed.

Lemma carries_at (s v : bytes) (i j : Z) : carries s (i mod 256) v -> i mod 256 = j mod 256 -> carries s j v.
Proof. intros V E. apply carries_mod. now rewrite <- E. Qed.

Lemma carries_nth (s v : bytes) (i : Z) (k : nat) : carries s i v -> (k < length v)%nat -> 0 <= i -> i + Z.of_nat k < 256 -> nth (Z.to_nat (i + Z.of_nat k)) s 0 = nth k v 0.
Proof.
  intros V Hk I0 I1. specialize (V k Hk). rewrite Z.mod_small in V by lia. destruct (nth_error v k) as [x|] eqn:E; [|apply nth_error_None in E; lia].
  now rewrite (nth_error_nth _ _ 0 V), (nth_error_nth _ _ 0 E).
Qed.

Lemma take_bytes_carries (n : nat) (s : bytes) : forall i v j, 0 <= i < 256 -> take_bytes n s i = Ok (v, j) ->
  length v = n /\ carries s i v /\ j = (i + Z.of_nat n) mod 256 /\ 0 <= j < 256.
Proof.
  induction n as [|n IH]; intros i v j I E; cbn [take_bytes] in E.
  - apply Ok_inj in E. injection E as <- <-. rewrite Z.add_0_r, Z.mod_small by lia. repeat split; try lia. intros k Hk. cbn in Hk. lia.
  - apply obind_ok in E as (b & Eb & E). apply obind_ok in E as ([w z] & Ew & E). apply Ok_inj in E. injection E as <- <-.
    rewrite u8_mod in Ew. apply IH in Ew as (L & C & Ez & Bz); [|apply Z.mod_pos_bound; lia]. cbn [fst snd length].
    split; [now rewrite L|]. split; [|split; [rewrite Ez, Z.add_mod_idemp_l by lia; f_equal; lia | exact Bz]].
    apply (carries_app s [b] w i); [|exact (carries_mod _ _ _ C)]. intros k Hk. destruct k as [|k]; [|cbn in Hk; lia].
    unfold script_at in Eb. destruct (nth_error s (Z.to_nat i)) as [x|] eqn:X; [|discriminate]. apply Ok_inj in Eb. subst x. cbn [nth_error Z.of_nat]. now rewrite Z.add_0_r, Z.mod_small by lia.
Qed.

Lemma slice_read (s v : bytes) (from n : nat) : slice s from n = Ok v -> v = firstn n (skipn from s) /\ length v = n.
Proof.
  unfold slice. destruct (Nat.leb_spec (from + n) (length s)); [|discriminate]. intros E. apply Ok_inj in E. subst v. split; [reflexivity|]. rewrite length_firstn, length_skipn. lia.
Qed.

Lemma bill_sigB_ok (check : bool) (inp out sigB : bytes) (i : Z) : 0 <= i < 256 -> bill_sigB check inp out i = Ok (Some sigB) ->
  68 <= len sigB /\ if check then firstn (S (length sigB)) (skipn 4 inp) = len sigB :: sigB else carries out i (len sigB :: sigB).
Proof.
  intros I E. unfold bill_sigB in E. destruct check; apply obind_ok in E as (r & Er & E).
  - destruct (Z.ltb_spec r 68); [discriminate|]. apply obind_ok in E as (v & Ev & E). apply Ok_inj in E. injection E as ->. apply slice_read in Ev as [Ev L].
    unfold script_at in Er. change (Z.to_nat 4) with 4%nat in Er. destruct (nth_error inp 4) as [x|] eqn:X; [|discriminate]. apply Ok_inj in Er. subst x.
    assert (R : r = len sigB) by (unfold len; lia). split; [lia|]. destruct inp as [|x0 [|x1 [|x2 [|x3 [|x4 inp]]]]]; try discriminate X. injection X as ->.
    rewrite L. cbn [skipn firstn] in *. rewrite skipn_O in *. now rewrite <- Ev, R.
  - destruct r as [l j]. cbn [fst snd] in E. apply take_bytes_carries in Er as (L & C & Ej & Bj); [|exact I]. destruct l as [|x [|y l]]; try discriminate L. cbn [nth] in E.
    destruct (Z.ltb_spec x 68); [discriminate|]. apply obind_ok in E as ([v z] & Ev & E). apply Ok_inj in E. injection E as ->. apply take_bytes_carries in Ev as (Lv & Cv & _ & _); [|exact Bj].
    assert (R : x = len sigB) by (unfold len; lia). split; [lia|]. subst x. apply (carries_app out [len sigB] sigB); [exact C|]. apply carries_mod. change (len [len sigB]) with (Z.of_nat 1). now rewrite <- Ej.
Qed.

(** What [GetValueOut] sums. *)
Lemma GetValueOut_sums (l : list CTxOut) : forall acc r, 0 <= acc -> fold_left GetValueOut_step l (Ok acc) = Ok r -> r = acc + sum_values l /\ 0 <= r /\ Forall (fun o => 0 <= nValue o <= MAX_MONEY) l.
Proof.
  induction l as [|o l IH]; intros acc r A E; cbn [fold_left] in E; [apply Ok_inj in E; subst; cbn; split; [lia | split; [lia | constructor]]|].
  unfold GetValueOut_step at 2 in E. cbn [obind] in E. unfold amount_add in E. destruct (in_int64 (acc + nValue o)) as [v|?|?| |] eqn:Ev; cbn [obind] in E;
    try (exfalso; clear -E; induction l; cbn in E; [discriminate | auto]).
  apply in_int64_ok in Ev as [-> _]. destruct (negb (MoneyRange (nValue o)) || _) eqn:M; [rewrite GetValueOut_stuck in E; discriminate|].
  apply orb_false_iff in M as [M1 M2]. unfold MoneyRange in M1, M2. zbool. apply IH in E as (-> & R & F); [|lia]. split; [change (sum_values (o :: l)) with (nValue o + sum_values l); lia|]. split; [lia|]. constructor; [lia | exact F].
Qed.

Lemma three_bytes {X} (l : list X) a b c : nth_error l (Z.to_nat 1) = Some a -> nth_error l (Z.to_nat 2) = Some b -> nth_error l (Z.to_nat 3) = Some c ->
  firstn 3 (skipn 1 l) = [a; b; c].
Proof. destruct l as [|x0 [|x1 [|x2 [|x3 l]]]]; try discriminate. intros [= ->] [= ->] [= ->]. reflexivity. Qed.

Lemma FilledMinerBill_signed tx : FilledMinerBill tx = Ok true ->
  exists o i perm keyB addr sigA sigB rate n1 n2 n3, nth_error (vout tx) 0 = Some o /\ nth_error (vin tx) 0 = Some i /\
    firstn 3 (skipn 1 (scriptSig i)) = [n1; n2; n3] /\ signed_bill tx o i [n3; n2; n1] perm keyB addr sigA sigB rate.
Proof.
  unfold FilledMinerBill. intros H. apply obind_ok in H as (o & Ho & H). apply obind_ok in H as (i & Hi & H).
  destruct (_ || _); [discriminate|]. destruct (Z.ltb_spec (len (scriptPubKey o)) 130); [discriminate|].
  apply obind_ok in H as ([kyc j1] & Ek & H). apply take_bytes_carries in Ek as (Lk & Ck & J1 & B1); [|lia].
  apply obind_ok in H as (n3 & E3 & H). apply obind_ok in H as (n2 & E2 & H). apply obind_ok in H as (n1 & E1 & H). apply obind_ok in H as (address & Ea & H). apply slice_read in Ea as [Ea _].
  apply obind_ok in H as ([keyB j2] & Eb & H). apply take_bytes_carries in Eb as (Lb & Cb & J2 & B2); [|exact B1].
  apply obind_ok in H as ([la j3] & El & H). apply take_bytes_carries in El as (Ll & Cl & J3 & B3); [|exact B2]. destruct la as [|a [|? ?]]; try discriminate Ll. cbn [nth] in H.
  destruct (Z.ltb_spec a 70); [discriminate|]. apply obind_ok in H as ([sigA j4] & Es & H). apply take_bytes_carries in Es as (Ls & Cs & J4 & B4); [|exact B3].
  apply obind_ok in H as ([perm j5] & Ep & H). apply take_bytes_carries in Ep as (Lp & Cp & J5 & B5); [|exact B4]. destruct (Z.ltb_spec (u32 (height3 perm)) (u32 (height3 [n3; n2; n1]))); [discriminate|].
  apply obind_ok in H as ([lr j6] & Er & H). apply take_bytes_carries in Er as (Lr & Cr & J6 & B6); [|exact B5]. destruct lr as [|rate [|? ?]]; try discriminate Lr. cbn [nth] in H.
  apply obind_ok in H as (total & Et & H). apply obind_ok in H as (scaled & Ec & H). apply in_int64_ok in Ec as [-> Bs]. destruct (Z.ltb_spec (u64 (nValue o)) (u64 (Z.quot (total * rate) 100))); [discriminate|].
  assert (Kf : (nth 0 kyc 0 =? 0x4C) && (nth 2 kyc 0 =? 1) = names_address (scriptPubKey o)).
  { unfold names_address. now rewrite <- (carries_nth _ _ 26 0 Ck), <- (carries_nth _ _ 26 2 Ck) by lia. }
  change 0x01 with 1 in H. rewrite Kf in H. apply obind_ok in H as ([sigB|] & EB & H); [|discriminate]. apply bill_sigB_ok in EB; [|exact B6].
  apply Ok_inj in H. apply andb_true_iff in H as [HB HA]. vm_compute in J1. subst j1. vm_compute in J2. subst j2. vm_compute in J3. subst j3 j4 j5 j6. assert (LA : len sigA = a - 4) by (unfold len; lia).
  exists o, i, perm, keyB, (if names_address (scriptPubKey o) then address else []), sigA, sigB, rate, n1, n2, n3.
  unfold script_at in E1, E2, E3. ok_inv. split; [reflexivity|]. split; [reflexivity|]. split; [now apply three_bytes|].
  constructor; [constructor | assumption | | exact HB | exact HA].
  - lia.
  - split; [exact Lb | exact Cb].
  - split; [lia|]. replace (len sigA + 4) with a by lia. exact (carries_app _ [a] sigA _ Cl Cs).
  - split; [exact Lp|]. apply carries_app.
    + apply (carries_at _ _ _ _ Cp). Z.div_mod_to_equations. lia.
    + apply (carries_at _ _ _ _ Cr). unfold len in *. Z.div_mod_to_equations. lia.
  - reflexivity.
  - split; [exact (proj1 EB)|]. destruct (names_address _); [exact (proj2 EB)|]. apply (carries_at _ _ _ _ (proj2 EB)). Z.div_mod_to_equations. lia.
  - intros R0. unfold GetValueOut in Et. apply GetValueOut_sums in Et as (-> & T0 & F); [|lia]. rewrite Z.add_0_l in *.
    assert (M : 0 <= nValue o <= MAX_MONEY) by (rewrite Stdlib.Lists.List.Forall_forall in F; apply F; eapply nth_error_In; eassumption). unfold MAX_MONEY, COIN in M.
    assert (Q : 0 <= Z.quot (sum_values (vout tx) * rate) 100 < 2 ^ 63) by (split; [apply Z.quot_pos; nia | apply Z.quot_lt_upper_bound; nia]).
    rewrite !u64_small in * by lia. assumption.
Qed.
End Bill.

(** ** The money there can be *)

(** The subsidy of the blocks in the [k]-th interval. *)
Definition subsidy_at (k : Z) : Z := if 64 <=? k then 0 else Z.shiftr (50 * COIN) k.

Lemma GetBlockSubsidy_spec h interval : 0 <= h -> 0 < interval -> GetBlockSubsidy h interval = Ok (subsidy_at (h / interval)).
Proof.
  intros Hh Hi. unfold GetBlockSubsidy, Pow.quot, subsidy_at. destruct (Z.eqb_spec interval 0); [lia|]. cbn [obind].
  rewrite Z.quot_div_nonneg by lia. pose proof (Z.div_pos h interval Hh Hi). destruct (64 <=? h / interval); [reflexivity|].
  destruct (Z.ltb_spec (h / interval) 0); [lia | reflexivity].
Qed.

Lemma subsidy_nonneg k : 0 <= subsidy_at k.
Proof. unfold subsidy_at. destruct (64 <=? k); [lia|]. apply Z.shiftr_nonneg. unfold COIN. lia. Qed.

(** The sum of the subsidies at the heights below [n], and the sum over intervals. *)
Fixpoint issued (interval : Z) (n : nat) : Z :=
  match n with O => 0 | S n => issued interval n + subsidy_at (Z.of_nat n / interval) end.
Fixpoint interval_sum (k : nat) : Z := match k with O => 0 | S k => interval_sum k + subsidy_at (Z.of_nat k) end.

Lemma interval_sum_bound k : interval_sum k <= interval_sum 64.
Proof.
  destruct (Nat.le_gt_cases k 64) as [H|H].
  - assert (G : forall d, interval_sum k <= interval_sum (d + k)) by (induction d as [|d IH]; [apply Z.le_refl|]; change (interval_sum (S d + k)) with (interval_sum (d + k) + subsidy_at (Z.of_nat (d + k))); pose proof (subsidy_nonneg (Z.of_nat (d + k))); lia).
    specialize (G (64 - k)%nat). now replace (64 - k + k)%nat with 64%nat in G by lia.
  - assert (G : forall d, interval_sum (d + 64) = interval_sum 64).
    { induction d as [|d IH]; [reflexivity|]. change (interval_sum (S d + 64)) with (interval_sum (d + 64) + subsidy_at (Z.of_nat (d + 64))). rewrite IH. unfold subsidy_at. destruct (Z.leb_spec 64 (Z.of_nat (d + 64))); [lia | lia]. }
    specialize (G (k - 64)%nat). replace (k - 64 + 64)%nat with k in G by lia. lia.
Qed.

Lemma issued_interval (i k r : nat) : (0 < i)%nat -> (r <= i)%nat ->
  issued (Z.of_nat i) (k * i + r) = Z.of_nat i * interval_sum k + Z.of_nat r * subsidy_at (Z.of_nat k).
Proof.
  intros Hi. revert r. induction k as [|k IHk]; induction r as [|r IHr]; intros Hr.
  - cbn. lia.
  - replace (0 * i + S r)%nat with (S (0 * i + r)) by lia. cbn [issued]. rewrite (IHr ltac:(lia)). rewrite Z.div_small by lia. change (Z.of_nat 0) with 0. rewrite Nat2Z.inj_succ. ring.
  - replace (S k * i + 0)%nat with (k * i + i)%nat by lia. rewrite (IHk i (le_n i)). cbn [interval_sum]. ring.
  - replace (S k * i + S r)%nat with (S (S k * i + r)) by lia. cbn [issued]. rewrite (IHr ltac:(lia)).
    replace (Z.of_nat (S k * i + r) / Z.of_nat i) with (Z.of_nat (S k)); [rewrite (Nat2Z.inj_succ r); ring|].
    apply (Z.div_unique_pos _ _ _ (Z.of_nat r)); lia.
Qed.

Lemma issued_bound (i n : nat) : (0 < i)%nat -> 0 <= issued (Z.of_nat i) n <= Z.of_nat i * 9999999989.
Proof.
  intros Hi. split.
  - induction n as [|n IH]; cbn [issued]; [lia|]. pose proof (subsidy_nonneg (Z.of_nat n / Z.of_nat i)). lia.
  - rewrite (Nat.div_mod_eq n i) at 1. rewrite Nat.mul_comm, issued_interval by (pose proof (Nat.mod_upper_bound n i); lia).
    pose proof (Nat.mod_upper_bound n i). pose proof (interval_sum_bound (S (n / i))) as S.
    change (interval_sum (Datatypes.S (n / i))) with (interval_sum (n / i) + subsidy_at (Z.of_nat (n / i))) in S.
    pose proof (subsidy_nonneg (Z.of_nat (n / i))). assert (E : interval_sum 64 = 9999999989) by reflexivity.
    assert (Z.of_nat (n mod i) * subsidy_at (Z.of_nat (n / i)) <= Z.of_nat i * subsidy_at (Z.of_nat (n / i))) by (apply Z.mul_le_mono_nonneg_r; lia).
    rewrite E in S. pose proof (Z.mul_le_mono_nonneg_l _ _ (Z.of_nat i) ltac:(lia) S). lia.
Qed.

(** ** Properties *)

(** C23: [CheckRegularTransaction] reaches a verdict on every transaction whose scripts are bytes,
    and it is positive exactly for those that have inputs and outputs, are within the limits of
    size and signature operations, have output values each and in total within the money there can
    be, no pay-to-script-hash output after Genesis, no null input and no outpoint twice among the
    inputs; then the state is unchanged, else it is marked invalid. *)
Theorem CheckRegularTransaction_correct {B : BIGNUM} {L : BIGNUM_Laws B} {A : BIGNUM_Alloc B}
  (tx : CTransaction) (s : CValidationState) (maxSigOps maxSize : Z) (isGenesisEnabled : bool) :
  scripts_ok tx ->
  decides (CheckRegularTransaction tx s maxSigOps maxSize isGenesisEnabled) s (regular_ok tx maxSigOps maxSize isGenesisEnabled).
Proof. apply CheckRegularTransaction_spec. Qed.

(** Two inputs that spend the same output. *)
Definition twice_tx : CTransaction :=
  mkTx 10 [mkTxIn (mkOutPoint (repeat 1 32) 0) [] 0xffffffff; mkTxIn (mkOutPoint (repeat 1 32) 0) [] 0xffffffff] [mkTxOut 20 [0x51]] 0.

Lemma CheckRegularTransaction_correct_witness :
  exists s, CheckRegularTransaction (B := Z_BIGNUM) twice_tx CValidationState_new 4000 1000 true = Ok (s, false) /\ mode s <> MODE_VALID.
Proof.
  destruct (CheckRegularTransaction_correct (B := Z_BIGNUM) (L := Z_BIGNUM_Laws) twice_tx CValidationState_new 4000 1000 true) as (s & b & E & HP & _ & Hm).
  - unfold scripts_ok. cbn [twice_tx vin vout map app scriptSig scriptPubKey].
    repeat (apply Stdlib.Lists.List.Forall_cons; [split; [now apply bytes_okb | vm_compute; reflexivity]|]). constructor.
  - destruct b; [|exists s; auto]. exfalso. destruct HP as [HP _]. destruct (HP eq_refl) as (_ & _ & _ & D). inversion D as [|? ? N _]. apply N. now left.
Defined.

(** C24: when Genesis is enabled, the tip of the active chain has at least height 824189 and the input
    of a coinbase states a height of at least 824189, the coinbase passes [CheckCoinbase] only with a
    miner bill. Its version is 10. Its first output's script, of at least 130 bytes, carries at fixed
    places (read with an index that wraps at 256) the key of the miner, a signature, a height and a
    share; the signature is one of the fixed authority key over that key, height and share (and over the
    address in the script when the script's flag says so); the height is not below the one in the
    coinbase input, over which a second signature, from the output or from the input by the same flag,
    verifies with the carried key; and the value of the first output is at least that share of all
    outputs. *)
Theorem miner_bill_enforced {B : BIGNUM} {K : Secp256k1} (tx : CTransaction) (s s' : CValidationState) (maxSigOps maxSize chainHeight height : Z) :
  CheckCoinbase tx s maxSigOps maxSize true chainHeight = Ok (s', true) ->
  HeightFormScript tx = Ok height -> 824189 <= chainHeight -> 824189 <= height ->
  nVersion tx = 10 /\ exists o i perm keyB addr sigA sigB rate n1 n2 n3, nth_error (vout tx) 0 = Some o /\ nth_error (vin tx) 0 = Some i /\
    firstn 3 (skipn 1 (scriptSig i)) = [n1; n2; n3] /\ signed_bill tx o i [n3; n2; n1] perm keyB addr sigA sigB rate.
Proof.
  unfold CheckCoinbase. intros H Hh Hc Hs. apply passes_true in H as (s1 & Hb & _). unfold check_bill in Hb. rewrite Hh in Hb. cbn [obind] in Hb.
  destruct (Z.leb_spec 824189 chainHeight), (Z.leb_spec 824189 height); try lia. cbn [andb] in Hb.
  destruct (Z.eqb_spec (nVersion tx) 10); cbn [negb] in Hb; [|discriminate]. split; [assumption|].
  apply obind_ok in Hb as (filled & Hf & Hb). destruct filled; [|discriminate]. now apply FilledMinerBill_signed.
Qed.

(** A library that accepts every signature it can parse. *)
Definition lenient_secp : Secp256k1 := {|
  secp_pubkey := unit; secp_signature := unit; signature_parse_compact _ := (true, tt); signature_normalize g := (false, g);
  ec_pubkey_parse _ := Some tt; ec_pubkey_serialize _ _ := []; ecdsa_verify _ _ _ := true; recover_compact _ _ _ := None
|}.

Definition bill_sig : bytes := [0x30; 6; 2; 1; 1; 2; 1; 1] ++ repeat 0 60.
Definition bill_script : bytes :=
  repeat 0 29 ++ (2 :: repeat 5 32) ++ [70] ++ firstn 66 bill_sig ++ [0xff; 0xff; 0xff] ++ [10] ++ [68] ++ bill_sig.
Definition bill_tx : CTransaction :=
  mkTx 10 [mkTxIn COutPoint_null [3; 0x7d; 0x93; 0x0c] 0xffffffff] [mkTxOut 500 bill_script; mkTxOut 4500 [0x51]] 0.

Lemma miner_bill_enforced_witness : CheckCoinbase (B := Z_BIGNUM) (K := lenient_secp) bill_tx CValidationState_new 4000 1000 true 824189 = Ok (CValidationState_new, true) /\
  nVersion bill_tx = 10.
Proof.
  assert (E : CheckCoinbase (B := Z_BIGNUM) (K := lenient_secp) bill_tx CValidationState_new 4000 1000 true 824189 = Ok (CValidationState_new, true)) by (vm_compute; reflexivity).
  split; [exact E|]. refine (proj1 (miner_bill_enforced (B := Z_BIGNUM) (K := lenient_secp) bill_tx _ _ 4000 1000 824189 824189 E _ _ _)); [vm_compute; reflexivity | lia | lia].
Defined.

(** A bill of 130 bytes whose first signature claims 255. *)
Definition short_bill : CTransaction :=
  mkTx 10 [mkTxIn COutPoint_null [3; 0x7d; 0x93; 0x0c] 0xffffffff] [mkTxOut 500 (firstn 62 bill_script ++ [255] ++ repeat 0 67)] 0.

(** C39: the checks of a coinbase read the transaction before they know that it can be read.
    After Genesis a transaction without inputs is indexed before the test for the empty list; a
    coinbase that must carry a bill and has no outputs is indexed too; and the length bytes of the
    bill are not compared with the length of the script, so that a coinbase that passes every
    other check is read past the end of its output script. *)
Theorem coinbase_undefined {B : BIGNUM} {K : Secp256k1} :
  (forall tx s maxSigOps maxSize chainHeight, vin tx = [] -> CheckCoinbase tx s maxSigOps maxSize true chainHeight = Abort) /\
  (forall tx s maxSigOps maxSize chainHeight height, vout tx = [] -> nVersion tx = 10 -> HeightFormScript tx = Ok height ->
    824189 <= chainHeight -> 824189 <= height -> CheckCoinbase tx s maxSigOps maxSize true chainHeight = Abort) /\
  (IsCoinBase short_bill = true /\ CheckTransactionCommon short_bill CValidationState_new 4000 1000 true = Ok (CValidationState_new, true) /\
   CheckCoinbase short_bill CValidationState_new 4000 1000 true 824189 = Abort).
Proof.
  split; [|split].
  - intros tx s mo ms ch E. unfold CheckCoinbase, check_bill, HeightFormScript. now rewrite E.
  - intros tx s mo ms ch h E V Hh Hc Hs. unfold CheckCoinbase, check_bill. rewrite Hh. cbn [obind].
    destruct (Z.leb_spec 824189 ch), (Z.leb_spec 824189 h); try lia. rewrite V. cbn [andb negb Z.eqb Pos.eqb]. unfold FilledMinerBill. now rewrite E.
  - split; [vm_compute; reflexivity|]. split; [vm_compute; reflexivity|]. vm_compute. reflexivity.
Qed.
End Validation.
