(* ===== verification/SequenceLocks.v ===== *)
(** * Relative lock times (src/src/validation.cpp)

    The sequence locks of BIP 68: when the inputs of a transaction have reached the age that their
    sequence numbers ask for, for a block and for the memory pool, where the result is kept and
    reused after the chain has changed. *)

From stdpp Require Import gmap.
From S2P Require Import Prelude Outcome Script Amount Transaction Block BlockIndex Chain Coins Undo Validation.
Import Transaction BlockIndex Chain Coins Undo Validation.

Module SequenceLocks.
Local Open Scope Z_scope.
Local Open Scope outcome_scope.

Definition SEQUENCE_LOCKTIME_GRANULARITY : Z := 9.

(** Signed 32-bit arithmetic that overflows is undefined. *)
Definition in_int (x : Z) : outcome Z := if (- 2 ^ 31 <=? x) && (x <=? 2 ^ 31 - 1) then Ok x else Abort.

Definition flag_set (x flag : Z) : bool := negb (Z.land x flag =? 0).

(** [block.GetAncestor(height)->GetMedianTimePast()] *)
Definition coin_time (h : heap) (block : ptr) (height : Z) : outcome Z :=
  let* q := GetAncestor h block height in
  let* q := or_abort q in
  GetMedianTimePast h q.

(** One input, with its height among [prevHeights]: the height it is left with, and the two minima. *)
Definition lock_input (h : heap) (block : ptr) (txin : CTxIn) (prevHeight nMinHeight nMinTime : Z) : outcome (Z * Z * Z) :=
  if flag_set (nSequence txin) SEQUENCE_LOCKTIME_DISABLE_FLAG then Ok (0, nMinHeight, nMinTime)
  else
    let nCoinHeight := prevHeight in
    if flag_set (nSequence txin) SEQUENCE_LOCKTIME_TYPE_FLAG then
      let* below := in_int (nCoinHeight - 1) in
      let* nCoinTime := coin_time h block (Z.max below 0) in
      let lock := shl32 (Z.land (nSequence txin) SEQUENCE_LOCKTIME_MASK) SEQUENCE_LOCKTIME_GRANULARITY in
      Ok (prevHeight, nMinHeight, Z.max nMinTime (nCoinTime + lock - 1))
    else
      let* last := in_int (nCoinHeight + Z.land (nSequence txin) SEQUENCE_LOCKTIME_MASK) in
      Ok (prevHeight, Z.max nMinHeight (last - 1), nMinTime).

Fixpoint lock_inputs (h : heap) (block : ptr) (ins : list (CTxIn * Z)) (nMinHeight nMinTime : Z) : outcome (list Z * Z * Z) :=
  match ins with
  | [] => Ok ([], nMinHeight, nMinTime)
  | (txin, height) :: ins =>
      let* r := lock_input h block txin height nMinHeight nMinTime in
      let '(height, nMinHeight, nMinTime) := r in
      let* r := lock_inputs h block ins nMinHeight nMinTime in
      let '(heights, nMinHeight, nMinTime) := r in
      Ok (height :: heights, nMinHeight, nMinTime)
  end.

(** [prevHeights] as it is left, and the pair that is returned. *)
Definition CalculateSequenceLocks (h : heap) (tx : CTransaction) (flags : Z) (prevHeights : list Z) (block : ptr) : outcome (list Z * Z * Z) :=
  assert_ (length prevHeights =? length (vin tx))%nat (
    let fEnforceBIP68 := (2 <=? u32 (Transaction.nVersion tx)) && flag_set flags LOCKTIME_VERIFY_SEQUENCE in
    if negb fEnforceBIP68 then Ok (prevHeights, -1, -1)
    else lock_inputs h block (combine (vin tx) prevHeights) (-1) (-1)).

Definition EvaluateSequenceLocks (h : heap) (block : ptr) (first second : Z) : outcome bool :=
  let* b := deref h block in
  let* prev := or_abort (pprev b) in
  let* nBlockTime := GetMedianTimePast h prev in
  Ok (negb ((nHeight b <=? first) || (nBlockTime <=? second))).

Definition SequenceLocks (h : heap) (tx : CTransaction) (flags : Z) (prevHeights : list Z) (block : ptr) : outcome bool :=
  let* r := CalculateSequenceLocks h tx flags prevHeights block in
  let '(_, first, second) := r in EvaluateSequenceLocks h block first second.

Record LockPoints : Type := mkLockPoints { lp_height : Z; lp_time : Z; maxInputBlock : option ptr }.
Definition LockPoints_new : LockPoints := mkLockPoints 0 0 None.

Definition TestLockPointValidity (h : heap) (chainActive : CChain) (lp : LockPoints) : outcome bool :=
  match maxInputBlock lp with
  | Some p => Contains h chainActive p
  | None => Ok true
  end.

(** The block that would follow the tip: a local object, here at an address of its own. *)
Definition next_index (tip : ptr) (height : Z) : CBlockIndex :=
  set_links (CBlockIndex_of Block.Block.CBlockHeader_new) (Some tip) None height.
Definition local_ptr (h : heap) : ptr := fresh (dom h : gset ptr).

Section Pool.
Context {V : Type} `{CCoinsView V}.

(** The heights of the inputs as the view of the memory pool tells them; nothing when one is
    missing. A coin of the pool counts as one of the next block. *)
Fixpoint pool_heights (view : V) (tipHeight : Z) (ins : list CTxIn) : option (list Z) :=
  match ins with
  | [] => Some []
  | txin :: ins =>
      let '(view, coin) := view_GetCoin view (prevout txin) in
      match coin with
      | None => None
      | Some coin =>
          let height := if GetHeight coin =? MEMPOOL_HEIGHT then tipHeight + 1 else GetHeight coin in
          option_map (cons height) (pool_heights view tipHeight ins)
      end
  end.

Definition max_input_height (tipHeight : Z) (prevheights : list Z) : Z :=
  fold_left (fun m height => if negb (height =? tipHeight + 1) then Z.max m height else m) prevheights 0.

(** The result, and what the lock points are left with. *)
Definition CheckSequenceLocks (genesis : Z) (h : heap) (chainActive : CChain) (tx : CTransaction) (pool : V) (flags : Z)
    (lp : option LockPoints) (useExistingLockPoints : bool) : outcome (bool * option LockPoints) :=
  let* tip := or_abort (Tip chainActive) in
  let* t := deref h tip in
  let* enabled := IsGenesisEnabled genesis (nHeight t) in
  if enabled then Ok (true, lp)
  else
    let index := local_ptr h in
    let h := <[index := next_index tip (nHeight t + 1)]> h in
    if useExistingLockPoints then
      let* l := or_abort lp in
      let* b := EvaluateSequenceLocks h index (lp_height l) (lp_time l) in Ok (b, lp)
    else
      match pool_heights pool (nHeight t) (vin tx) with
      | None => Ok (false, lp)
      | Some prevheights =>
          let* r := CalculateSequenceLocks h tx flags prevheights index in
          let '(prevheights, first, second) := r in
          let* lp := match lp with
            | None => Ok None
            | Some _ =>
                let* q := GetAncestor h tip (max_input_height (nHeight t) prevheights) in
                Ok (Some (mkLockPoints first second q))
            end in
          let* b := EvaluateSequenceLocks h index first second in Ok (b, lp)
      end.
End Pool.

(** ** What the locks mean *)

Definition lock_value (i : CTxIn) : Z := Z.land (nSequence i) SEQUENCE_LOCKTIME_MASK.

(** An input is old enough for a block of height [H] after a block with median time [M]. *)
Definition aged (h : heap) (block : ptr) (H M : Z) (ih : CTxIn * Z) : Prop :=
  let '(i, height) := ih in
  if flag_set (nSequence i) SEQUENCE_LOCKTIME_DISABLE_FLAG then True
  else if flag_set (nSequence i) SEQUENCE_LOCKTIME_TYPE_FLAG then
    exists t, coin_time h block (Z.max (height - 1) 0) = Ok t /\ t + 512 * lock_value i <= M
  else height + lock_value i <= H.

Lemma lock_value_range i : 0 <= lock_value i < 2 ^ 16.
Proof. unfold lock_value. rewrite Z.land_comm. apply land_range; [lia|]. unfold SEQUENCE_LOCKTIME_MASK. lia. Qed.

Lemma lock_shift i : shl32 (lock_value i) SEQUENCE_LOCKTIME_GRANULARITY = 512 * lock_value i.
Proof.
  pose proof (lock_value_range i). unfold shl32, SEQUENCE_LOCKTIME_GRANULARITY. rewrite Z.shiftl_mul_pow2, u32_small by lia. lia.
Qed.

Lemma in_int_ok x : - 2 ^ 31 <= x < 2 ^ 31 -> in_int x = Ok x.
Proof. intros H. unfold in_int. destruct (Z.leb_spec (- 2 ^ 31) x), (Z.leb_spec x (2 ^ 31 - 1)); try lia. reflexivity. Qed.

Section Tree.
Context (h : heap) (T : tree_ok h).

Lemma coin_time_ok p b k : h !! p = Some b -> 0 <= k <= nHeight b ->
  exists q t, up h (Z.to_nat (nHeight b - k)) p = Some q /\ coin_time h p k = Ok t /\ GetMedianTimePast h q = Ok t.
Proof.
  intros E Hk. destruct (GetAncestor_anc h T p b k E Hk) as (q & c & G & A & Ec & Hc).
  destruct (anc_up h T p q b c E A Ec) as [_ U]. rewrite Hc in U. destruct (GetMedianTimePast_spec h T q c Ec) as (l & m & _ & M & _).
  exists q, m. split; [exact U|]. unfold coin_time. rewrite G. cbn [obind or_abort]. auto.
Qed.

(** The minima are the least heights and times that do not satisfy some lock. *)
Lemma lock_inputs_spec block b ins : h !! block = Some b -> Forall (fun ih => 0 <= snd ih <= nHeight b + 1 /\ snd ih < 2 ^ 31 - 2 ^ 16) ins -> forall mh mt,
  exists hs mh' mt', lock_inputs h block ins mh mt = Ok (hs, mh', mt') /\
    (forall H M, mh' < H /\ mt' < M <-> (mh < H /\ mt < M) /\ Forall (aged h block H M) ins) /\
    hs = map (fun ih => if flag_set (nSequence (fst ih)) SEQUENCE_LOCKTIME_DISABLE_FLAG then 0 else snd ih) ins.
Proof.
  intros Eb. induction 1 as [|[i height] ins [R Rm] F IH]; intros mh mt; [exists [], mh, mt; split; [reflexivity|]; split; [|reflexivity]; intros; intuition constructor|].
  cbn [snd] in R, Rm. cbn [lock_inputs]. unfold lock_input. pose proof (lock_value_range i) as V. fold (lock_value i).
  assert (Step : forall height' mh1 mt1, (forall H M, mh1 < H /\ mt1 < M <-> (mh < H /\ mt < M) /\ aged h block H M (i, height)) ->
    height' = (if flag_set (nSequence i) SEQUENCE_LOCKTIME_DISABLE_FLAG then 0 else height) ->
    exists hs mh' mt', (let* r := lock_inputs h block ins mh1 mt1 in let '(heights, nMinHeight, nMinTime) := r in Ok (height' :: heights, nMinHeight, nMinTime)) = Ok (hs, mh', mt') /\
      (forall H M, mh' < H /\ mt' < M <-> (mh < H /\ mt < M) /\ Forall (aged h block H M) ((i, height) :: ins)) /\
      hs = map (fun ih => if flag_set (nSequence (fst ih)) SEQUENCE_LOCKTIME_DISABLE_FLAG then 0 else snd ih) ((i, height) :: ins)).
  { intros height' mh1 mt1 I ->. destruct (IH mh1 mt1) as (hs & mh' & mt' & -> & J & ->). eexists _, mh', mt'. split; [reflexivity|].
    split; [|reflexivity]. intros H M. rewrite J, I, Forall_cons_iff. intuition. }
  destruct (flag_set (nSequence i) SEQUENCE_LOCKTIME_DISABLE_FLAG) eqn:D; cbn [obind].
  { apply Step; [|reflexivity]. intros H M. unfold aged. rewrite D. intuition. }
  destruct (flag_set (nSequence i) SEQUENCE_LOCKTIME_TYPE_FLAG) eqn:Ty.
  - rewrite in_int_ok by lia. cbn [obind]. destruct (coin_time_ok block b (Z.max (height - 1) 0) Eb) as (q & t & _ & Et & _); [pose proof (ok_height h T block b Eb); lia|].
    rewrite Et. cbn [obind]. rewrite lock_shift. apply Step; [|reflexivity]. intros H M. unfold aged. rewrite D, Ty. split.
    + intros [A1 A2]. split; [lia|]. exists t. split; [exact Et | lia].
    + intros [A1 (t' & Et' & A2)]. rewrite Et in Et'. injection Et' as <-. lia.
  - rewrite in_int_ok by lia. cbn [obind]. apply Step; [|reflexivity]. intros H M. unfold aged. rewrite D, Ty. lia.
Qed.
End Tree.

Definition enforced (tx : CTransaction) (flags : Z) : bool := (2 <=? u32 (Transaction.nVersion tx)) && flag_set flags LOCKTIME_VERIFY_SEQUENCE.

Lemma snd_combine {A B} (P : B -> Prop) (l : list A) (m : list B) : Forall P m -> Forall (fun ab => P (snd ab)) (combine l m).
Proof. intros F. revert l. induction F as [|b m Hb F IH]; intros [|a l]; cbn [combine]; constructor; auto. Qed.

(** C25: [SequenceLocks] is BIP 68. For a block with a predecessor, and as many heights as inputs, none
    above the block, it reaches a verdict; and the verdict is positive exactly when the rules do not
    apply to the transaction, or every input whose sequence number is a relative lock is old enough:
    as many blocks above the coin as the number says, or as many times 512 seconds after the median
    time of the block before the coin's. *)
Theorem SequenceLocks_correct (h : heap) (tx : CTransaction) (flags : Z) (heights : list Z) (block prev : ptr) (b : CBlockIndex) (m : Z) :
  tree_ok h -> h !! block = Some b -> pprev b = Some prev -> GetMedianTimePast h prev = Ok m -> 0 <= m ->
  length heights = length (vin tx) -> Forall (fun x => 0 <= x <= nHeight b + 1 /\ x < 2 ^ 31 - 2 ^ 16) heights ->
  exists r, SequenceLocks h tx flags heights block = Ok r /\
    (r = true <-> (enforced tx flags = true -> Forall (aged h block (nHeight b) m) (combine (vin tx) heights))).
Proof.
  intros T Eb P Em Hm Hl F. pose proof (ok_height h T block b Eb) as Hh. unfold SequenceLocks, CalculateSequenceLocks, EvaluateSequenceLocks.
  rewrite Hl, Nat.eqb_refl. cbn [assert_]. fold (enforced tx flags). unfold deref. rewrite Eb. cbn [or_abort obind]. rewrite P. cbn [or_abort obind]. rewrite Em.
  destruct (enforced tx flags); cbn [negb obind].
  - destruct (lock_inputs_spec h T block b (combine (vin tx) heights) Eb (snd_combine _ _ _ F) (-1) (-1)) as (hs & mh & mt & -> & I & _). cbn [obind].
    eexists. split; [reflexivity|]. rewrite negb_true_iff, orb_false_iff, !Z.leb_gt, I. intuition lia.
  - eexists. split; [reflexivity|]. rewrite negb_true_iff, orb_false_iff, !Z.leb_gt. intuition (try discriminate; lia).
Qed.

(** The second input asks for two blocks above height 2, the block is at height 3. *)
Definition young_tx : CTransaction :=
  mkTx 2 [mkTxIn (mkOutPoint (repeat 1 32) 0) [] 0xffffffff; mkTxIn (mkOutPoint (repeat 1 32) 1) [] 2] [] 0.

Lemma SequenceLocks_correct_witness : exists r, SequenceLocks sample_heap young_tx 1 [0; 2] 4 = Ok r /\ r = false.
Proof.
  destruct (SequenceLocks_correct sample_heap young_tx 1 [0; 2] 4 3 (sample_index (Some 3%positive) (Some 2%positive) 3 120) 101) as (r & E & I).
  - exact sample_ok.
  - reflexivity.
  - reflexivity.
  - vm_compute. reflexivity.
  - lia.
  - reflexivity.
  - repeat constructor; cbn; lia.
  - exists r. split; [exact E|]. destruct r; [|reflexivity]. exfalso. destruct I as [I _]. specialize (I eq_refl eq_refl).
    inversion I as [|? ? _ I2]. inversion I2 as [|? ? A _]. vm_compute in A. now apply A.
Defined.

(** ** Lock points that are kept *)

Lemma tree_ok_insert_bare (h : heap) (p q : ptr) (b c : CBlockIndex) :
  tree_ok h -> h !! p = None -> pprev b = Some q -> h !! q = Some c -> nHeight b = nHeight c + 1 -> pskip b = None -> tree_ok (<[p := b]> h).
Proof.
  intros T Fr P Q Hb Sk. pose proof (insert_subseteq h p b Fr) as Sub.
  assert (Old : forall x d, <[p := b]> h !! x = Some d -> x = p /\ d = b \/ h !! x = Some d).
  { intros x d L. destruct (decide (x = p)) as [->|N]; [rewrite lookup_insert_eq in L; injection L as <-; now left | rewrite lookup_insert_ne in L by congruence; now right]. }
  constructor; intros x d.
  - intros r L Pr. destruct (Old x d L) as [[-> ->]|L'].
    + rewrite P in Pr. injection Pr as <-. exists c. split; [exact (lookup_weaken _ _ _ _ Q Sub) | exact Hb].
    + destruct (ok_prev h T x d r L' Pr) as (e & Le & He). exists e. split; [exact (lookup_weaken _ _ _ _ Le Sub) | exact He].
  - intros L Pr. destruct (Old x d L) as [[-> ->]|L']; [congruence | exact (ok_root h T x d L' Pr)].
  - intros L. destruct (Old x d L) as [[-> ->]|L']; [pose proof (ok_height h T q c Q); lia | exact (ok_height h T x d L')].
  - intros r L Sr. destruct (Old x d L) as [[-> ->]|L']; [congruence|]. destruct (ok_skip h T x d r L' Sr) as [H1 U]. split; [exact H1|].
    exact (up_mono h _ _ Sub _ _ U).
Qed.

Lemma block_times_mono (h h' : heap) (n : nat) : h ⊆ h' -> forall p l, block_times n h p = Ok l -> block_times n h' p = Ok l.
Proof.
  intros S. induction n as [|n IH]; intros [p|] l E; try exact E. cbn [block_times] in *. ok_inv. unfold deref in *. ok_inv.
  rewrite (lookup_weaken h h' p _ ltac:(eassumption) S). cbn [or_abort obind]. erewrite IH by eassumption. reflexivity.
Qed.

Lemma median_mono (h h' : heap) (p : ptr) (m : Z) : h ⊆ h' -> GetMedianTimePast h p = Ok m -> GetMedianTimePast h' p = Ok m.
Proof. unfold GetMedianTimePast. intros S E. ok_inv. erewrite block_times_mono by eassumption. exact E. Qed.

Section Local.
Context (h : heap) (T : tree_ok h) (tip : ptr) (t : CBlockIndex) (Et : h !! tip = Some t).

Definition with_next : heap := <[local_ptr h := next_index tip (nHeight t + 1)]> h.

Lemma local_fresh : h !! local_ptr h = None.
Proof. apply not_elem_of_dom. apply (is_fresh (C := gset ptr) (dom h)). Qed.

Lemma with_next_sub : h ⊆ with_next.
Proof. apply insert_subseteq, local_fresh. Qed.

Lemma with_next_ok : tree_ok with_next.
Proof. exact (tree_ok_insert_bare h _ tip (next_index tip (nHeight t + 1)) t T local_fresh eq_refl Et eq_refl eq_refl). Qed.

Lemma with_next_lookup : with_next !! local_ptr h = Some (next_index tip (nHeight t + 1)).
Proof. apply lookup_insert_eq. Qed.

(** Seen from the next block, the coin of a height is timed by the chain of the tip. *)
Lemma coin_time_next k : 0 <= k <= nHeight t -> exists q m, up h (Z.to_nat (nHeight t - k)) tip = Some q /\ GetMedianTimePast h q = Ok m /\
  coin_time with_next (local_ptr h) k = Ok m.
Proof.
  intros Hk. destruct (coin_time_ok h T tip t k Et Hk) as (q & m & U & _ & M). exists q, m. split; [exact U|]. split; [exact M|].
  destruct (coin_time_ok with_next with_next_ok (local_ptr h) _ k with_next_lookup ltac:(cbn; lia)) as (q' & m' & U' & C' & M').
  replace (Z.to_nat (nHeight (next_index tip (nHeight t + 1)) - k)) with (S (Z.to_nat (nHeight t - k))) in U' by (cbn; lia).
  rewrite (up_S with_next _ _ tip _ with_next_lookup eq_refl), (up_mono h with_next _ with_next_sub _ _ U) in U'. injection U' as <-.
  rewrite (median_mono h with_next q m with_next_sub M) in M'. congruence.
Qed.
End Local.

Lemma lock_inputs_ext (h1 h2 : heap) (b1 b2 : ptr) ins : 
  Forall (fun ih => flag_set (nSequence (fst ih)) SEQUENCE_LOCKTIME_DISABLE_FLAG = false -> 0 <= snd ih < 2 ^ 31 ->
    coin_time h1 b1 (Z.max (snd ih - 1) 0) = coin_time h2 b2 (Z.max (snd ih - 1) 0)) ins ->
  Forall (fun ih => 0 <= snd ih < 2 ^ 31) ins ->
  forall mh mt, lock_inputs h1 b1 ins mh mt = lock_inputs h2 b2 ins mh mt.
Proof.
  induction ins as [|[i height] ins IH]; intros F R mh mt; [reflexivity|]. apply Forall_cons_iff in F as [F1 F], R as [R1 R]. cbn [fst snd] in *.
  cbn [lock_inputs]. unfold lock_input. destruct (flag_set (nSequence i) SEQUENCE_LOCKTIME_DISABLE_FLAG); [cbn [obind]; now rewrite IH|].
  rewrite in_int_ok by lia. cbn [obind]. rewrite F1 by auto. destruct (flag_set (nSequence i) SEQUENCE_LOCKTIME_TYPE_FLAG).
  - destruct (coin_time h2 b2 _); try reflexivity. cbn [obind]. now rewrite IH.
  - destruct (in_int _); try reflexivity. cbn [obind]. now rewrite IH.
Qed.

Lemma max_input_height_spec (H : Z) l : Forall (fun x => 0 <= x <= H) l ->
  0 <= max_input_height H l /\ (0 <= H -> max_input_height H l <= H) /\ Forall (fun x => x <= max_input_height H l) l.
Proof.
  unfold max_input_height. assert (G : forall m, 0 <= m -> Forall (fun x => 0 <= x <= H) l ->
    let f := fold_left (fun m height => if negb (height =? H + 1) then Z.max m height else m) l m in
    m <= f /\ (m <= H -> f <= H) /\ Forall (fun x => x <= f) l).
  { induction l as [|x l IH]; intros m Hm F; cbn [fold_left]; [split; [lia|]; split; [auto | constructor]|]. apply Forall_cons_iff in F as [Fx F].
    destruct (Z.eqb_spec x (H + 1)); [lia|]. cbn [negb]. destruct (IH (Z.max m x) ltac:(lia) F) as (A1 & A2 & A3). split; [lia|]. split; [intros; apply A2; lia|].
    constructor; [lia | exact A3]. }
  intros F. destruct (G 0 ltac:(lia) F) as (A1 & A2 & A3). auto.
Qed.

(** An ancestor that two blocks share times the coins below it for both. *)
Lemma coin_time_shared (h : heap) (t1 t2 q : ptr) (b1 b2 c : CBlockIndex) (k : Z) : tree_ok h -> h !! t1 = Some b1 -> h !! t2 = Some b2 -> h !! q = Some c ->
  up h (Z.to_nat (nHeight b1 - nHeight c)) t1 = Some q -> up h (Z.to_nat (nHeight b2 - nHeight c)) t2 = Some q ->
  0 <= k <= nHeight c -> nHeight c <= nHeight b1 -> nHeight c <= nHeight b2 ->
  coin_time (with_next h t1 b1) (local_ptr h) k = coin_time (with_next h t2 b2) (local_ptr h) k.
Proof.
  intros T E1 E2 Eq U1 U2 Hk H1 H2.
  destruct (coin_time_next h T t1 b1 E1 k ltac:(lia)) as (q1 & m1 & V1 & M1 & ->).
  destruct (coin_time_next h T t2 b2 E2 k ltac:(lia)) as (q2 & m2 & V2 & M2 & ->).
  replace (Z.to_nat (nHeight b1 - k)) with (Z.to_nat (nHeight b1 - nHeight c) + Z.to_nat (nHeight c - k))%nat in V1 by lia.
  replace (Z.to_nat (nHeight b2 - k)) with (Z.to_nat (nHeight b2 - nHeight c) + Z.to_nat (nHeight c - k))%nat in V2 by lia.
  rewrite (up_add h _ _ _ _ U1) in V1. rewrite (up_add h _ _ _ _ U2) in V2. congruence.
Qed.

Section Reuse.
Context (h : heap) (T : tree_ok h) (tx : CTransaction) (flags : Z) (heights : list Z).

(** What is computed at one tip, and the block that its inputs are not above. *)
Lemma calculate_next (t1 : ptr) (b1 : CBlockIndex) hs first second : h !! t1 = Some b1 ->
  Forall (fun x => 0 <= x <= nHeight b1 /\ x < 2 ^ 31 - 2 ^ 16) heights ->
  CalculateSequenceLocks (with_next h t1 b1) tx flags heights (local_ptr h) = Ok (hs, first, second) ->
  exists q c, GetAncestor (with_next h t1 b1) t1 (max_input_height (nHeight b1) hs) = Ok (Some q) /\ h !! q = Some c /\
    up h (Z.to_nat (nHeight b1 - nHeight c)) t1 = Some q /\ nHeight c <= nHeight b1 /\
    forall t2 b2, h !! t2 = Some b2 -> nHeight c <= nHeight b2 -> up h (Z.to_nat (nHeight b2 - nHeight c)) t2 = Some q ->
      CalculateSequenceLocks (with_next h t2 b2) tx flags heights (local_ptr h) = Ok (hs, first, second).
Proof.
  intros E1 F Ec. pose proof (ok_height h T t1 b1 E1) as Hb. unfold CalculateSequenceLocks in *. apply assert_ok in Ec as [L Ec]. rewrite L. cbn [assert_].
  set (en := (2 <=? u32 (Transaction.nVersion tx)) && flag_set flags LOCKTIME_VERIFY_SEQUENCE) in *.
  assert (Fh : Forall (fun x => 0 <= x <= nHeight b1) hs /\ (en = true -> hs = map (fun ih : CTxIn * Z => if flag_set (nSequence (fst ih)) SEQUENCE_LOCKTIME_DISABLE_FLAG then 0 else snd ih) (combine (vin tx) heights))).
  { destruct en; cbn [negb] in Ec; [|apply Ok_inj in Ec; injection Ec as <- <- <-; split; [|discriminate]; eapply Forall_impl; [|exact F]; cbn; lia].
    destruct (lock_inputs_spec (with_next h t1 b1) (with_next_ok h T t1 b1 E1) (local_ptr h) _ (combine (vin tx) heights) (with_next_lookup h t1 b1)
      ltac:(apply (snd_combine (fun x => 0 <= x <= nHeight (next_index t1 (nHeight b1 + 1)) + 1 /\ x < 2 ^ 31 - 2 ^ 16)); eapply Forall_impl; [|exact F]; cbn; lia) (-1) (-1)) as (hs' & mh & mt & E & _ & ->).
    rewrite E in Ec. apply Ok_inj in Ec. injection Ec as <- <- <-. split; [|reflexivity]. apply Stdlib.Lists.List.Forall_map.
    apply (snd_combine (fun x => 0 <= x <= nHeight b1 /\ x < 2 ^ 31 - 2 ^ 16) (vin tx)) in F. eapply Forall_impl; [|exact F]. cbn. intros [i x] Hx. cbn in *. destruct (flag_set _ _); lia. }
  destruct Fh as [Fh Eh]. destruct (max_input_height_spec (nHeight b1) hs Fh) as (M0 & M1 & M2). specialize (M1 Hb). set (M := max_input_height (nHeight b1) hs) in *.
  destruct (coin_time_ok h T t1 b1 M E1 ltac:(lia)) as (q & _ & U & _).
  destruct (up_height h T _ t1 q b1 E1 U) as (c & Eq & Hc). exists q, c.
  rewrite (GetAncestor_spec _ (with_next_ok h T t1 b1 E1) t1 b1 M (lookup_weaken _ _ _ _ E1 (with_next_sub h t1 b1))).
  destruct (Z.leb_spec 0 M), (Z.leb_spec M (nHeight b1)); try lia. cbn [andb]. rewrite (up_mono h _ _ (with_next_sub h t1 b1) _ _ U).
  assert (HcM : nHeight c = M) by lia. split; [reflexivity|]. split; [exact Eq|]. rewrite HcM. split; [exact U|]. split; [lia|].
  intros t2 b2 E2 H2 U2. destruct en; cbn [negb] in *; [|exact Ec]. rewrite <- Ec. specialize (Eh eq_refl). rewrite Eh in M2.
  apply (snd_combine (fun x => 0 <= x <= nHeight b1 /\ x < 2 ^ 31 - 2 ^ 16) (vin tx)) in F.
  apply lock_inputs_ext; [|eapply Forall_impl; [|exact F]; cbn; lia]. rewrite Stdlib.Lists.List.Forall_forall in *.
  intros [i x] Ix D R. cbn [fst snd] in *. specialize (M2 _ (in_map (fun ih : CTxIn * Z => if flag_set (nSequence (fst ih)) SEQUENCE_LOCKTIME_DISABLE_FLAG then 0 else snd ih) _ _ Ix)). cbn [fst snd] in M2. rewrite D in M2.
  symmetry. apply (coin_time_shared h t1 t2 q b1 b2 c _ T E1 E2 Eq); rewrite ?HcM; auto; lia.
Qed.
End Reuse.


(** A pool in which every coin is from the block at height 1, and two chains that part after it. *)
Definition fixed_pool : CCoinsView unit := {|
  view_GetCoin v _ := (v, Some (Coin_of (mkTxOut 50 [0x51]) 1 false));
  view_GetBestBlock v := (v, repeat 0 32);
  view_BatchWrite v _ _ := Ok (v, false)
|}.
Definition waiting_tx : CTransaction := mkTx 2 [mkTxIn (mkOutPoint (repeat 1 32) 0) [] 3] [] 0.
Definition chain_a : CChain := mkChain [Some 1; Some 2; Some 3; Some 4]%positive (Some 4%positive).
Definition chain_b : CChain := mkChain [Some 1; Some 2; Some 5]%positive (Some 5%positive).

End SequenceLocks.
