(* ===== verification/BlockCheck.v ===== *)
(** * Checks of blocks (src/src/validation.cpp, src/src/checkpoints.cpp, src/src/config.cpp)

    The checks of a header and of a block, alone and after a given predecessor: proof of work,
    Merkle root, sizes, transactions, times, versions, checkpoints, lock times, the height in the
    coinbase, and the order of the transactions. *)

From Stdlib Require Import String.
From stdpp Require Import gmap.
From S2P Require Import Prelude Endian IntSerialization Outcome BigInt ScriptNum Hash Opcodes Script Serialize.
From S2P Require Import Amount Transaction Block ScriptChecks PubKey Merkle BlockIndex Chain Pow Coins Undo Validation.
Import BigInt Script Serialize Amount Transaction Block PubKey BlockIndex Chain Coins Undo Validation.

Module BlockCheck.
Local Open Scope Z_scope.
Local Open Scope outcome_scope.

(** ** Parameters *)

(** [Consensus::Params], the activation height and the limits of [GlobalConfig], and the checkpoints
    in the order of their heights. *)
Record Config : Type := mkConfig {
  pow : Pow.Params;
  nSubsidyHalvingInterval : Z;
  BIP34Height : Z;
  BIP34Hash : bytes;
  BIP65Height : Z;
  BIP66Height : Z;
  CSVHeight : Z;
  uahfHeight : Z;
  hashGenesisBlock : bytes;
  genesisActivationHeight : Z;
  genesisGracefulPeriod : Z;
  maxBlockSize : Z;
  mapCheckpoints : list (Z * bytes)
}.

Definition ONE_MEGABYTE : Z := 1000000.
Definition MAX_TX_SIZE_CONSENSUS_BEFORE_GENESIS : Z := ONE_MEGABYTE.
Definition MAX_TX_SIZE_CONSENSUS_AFTER_GENESIS : Z := 1000 * ONE_MEGABYTE.
Definition MAX_BLOCK_SIGOPS_PER_MB_BEFORE_GENESIS : Z := 20000.
Definition MAX_TX_SIGOPS_COUNT_BEFORE_GENESIS : Z := 20000.

(** [GetMaxTxSize(isGenesisEnabled, true)] *)
Definition GetMaxTxSize (isGenesisEnabled : bool) : Z :=
  if negb isGenesisEnabled then MAX_TX_SIZE_CONSENSUS_BEFORE_GENESIS else MAX_TX_SIZE_CONSENSUS_AFTER_GENESIS.
Definition GetMaxBlockSigOpsConsensusBeforeGenesis (blockSize : Z) : Z :=
  let nMbRoundedUp := u64 (1 + u64 (blockSize - 1) / ONE_MEGABYTE) in
  u64 (nMbRoundedUp * MAX_BLOCK_SIGOPS_PER_MB_BEFORE_GENESIS).

(** [::GetSerializeSize(block, ...)] *)
Definition block_size (block : CBlock) : Z :=
  80 + GetSizeOfCompactSize (len (vtx block)) + fold_right Z.add 0 (map tx_size (vtx block)).
Definition MIN_TRANSACTION_SIZE : Z := tx_size CTransaction_null.

Record BlockValidationOptions : Type := mkOptions { checkPoW : bool; checkMerkleRoot : bool; markChecked : bool }.
Definition default_options : BlockValidationOptions := mkOptions true true false.

Definition block_hash (h : CBlockHeader) : outcome bytes := or_throw std_exception (hdr_GetHash h).

Section Check.
Context {B : BIGNUM} {K : Secp256k1}.
Context (config : Config).

(** ** Without context *)

Definition CheckBlockHeader (block : CBlockHeader) (state : CValidationState) (validationOptions : BlockValidationOptions) : verdict :=
  if checkPoW validationOptions then
    let* hash := block_hash block in
    if negb (Pow.CheckProofOfWork hash (hdr_nBits block) (pow config)) then reject state 50 REJECT_INVALID "high-hash"
    else accept state
  else accept state.

Definition check_merkle (block : CBlock) (state : CValidationState) : verdict :=
  let* r := Merkle.BlockMerkleRoot block in
  let '(hashMerkleRoot2, mutated) := r in
  if negb (Merkle.hash_eqb (hdr_hashMerkleRoot (header block)) hashMerkleRoot2) then
    Ok (DoS state 100 REJECT_INVALID "bad-txnmrklroot" true, false)
  else if mutated then Ok (DoS state 100 REJECT_INVALID "bad-txns-duplicate" true, false)
  else accept state.

(** [state.Invalid(false, state.GetRejectCode(), state.GetRejectReason(), ...)] after a failed check *)
Definition rewrap (check : verdict) : verdict :=
  let* r := check in
  if snd r then Ok r else Ok (Invalid (fst r) (chRejectCode (fst r)) (strRejectReason (fst r)), false).

(** The signature operations of one transaction of the block, before Genesis: the sum so far. *)
Definition count_sigops (state : CValidationState) (isGenesisEnabled : bool) (nSigOps max : Z) (tx : CTransaction)
    (k : Z -> verdict) : verdict :=
  if negb isGenesisEnabled then
    let* r := GetSigOpCountWithoutP2SH tx false in
    let nSigOps := u64 (nSigOps + fst r) in
    if snd r || (max <? nSigOps) then reject state 100 REJECT_INVALID "bad-blk-sigops" else k nSigOps
  else k nSigOps.

(** [while (true)] from the transaction after the first on. *)
Fixpoint check_txs (state : CValidationState) (isGenesisEnabled : bool) (nSigOps max : Z) (txs : list CTransaction) : verdict :=
  match txs with
  | [] => accept state
  | tx :: txs =>
      passes (rewrap (CheckRegularTransaction tx state MAX_TX_SIGOPS_COUNT_BEFORE_GENESIS (GetMaxTxSize isGenesisEnabled) isGenesisEnabled)) (fun state =>
      count_sigops state isGenesisEnabled nSigOps max tx (fun nSigOps => check_txs state isGenesisEnabled nSigOps max txs))
  end.

(** The checks of a block that is not marked as checked. [chainHeight] is [chainActive.Height()]. *)
Definition check_block (block : CBlock) (state : CValidationState) (blockHeight : Z) (validationOptions : BlockValidationOptions)
    (chainHeight : Z) : verdict :=
  passes (CheckBlockHeader (header block) state validationOptions) (fun state =>
  passes (if checkMerkleRoot validationOptions then check_merkle block state else accept state) (fun state =>
  match vtx block with
  | [] => reject state 100 REJECT_INVALID "bad-cb-missing"
  | coinbase :: txs =>
      let nMaxBlockSize := maxBlockSize config in
      if (0 <? MIN_TRANSACTION_SIZE) && (nMaxBlockSize / MIN_TRANSACTION_SIZE <? len (vtx block)) then
        reject state 100 REJECT_INVALID "bad-blk-length"
      else
        let currentBlockSize := block_size block in
        if nMaxBlockSize <? currentBlockSize then reject state 100 REJECT_INVALID "bad-blk-length"
        else
          let* isGenesisEnabled := IsGenesisEnabled (genesisActivationHeight config) blockHeight in
          passes (rewrap (CheckCoinbase coinbase state MAX_TX_SIGOPS_COUNT_BEFORE_GENESIS (GetMaxTxSize isGenesisEnabled) isGenesisEnabled chainHeight)) (fun state =>
          let max := GetMaxBlockSigOpsConsensusBeforeGenesis currentBlockSize in
          count_sigops state isGenesisEnabled 0 max coinbase (fun nSigOps => check_txs state isGenesisEnabled nSigOps max txs))
  end)).

(** The verdict, and the member [fChecked] as it is left. *)
Definition CheckBlock (block : CBlock) (fChecked : bool) (state : CValidationState) (blockHeight : Z)
    (validationOptions : BlockValidationOptions) (chainHeight : Z) : outcome (CValidationState * bool * bool) :=
  if fChecked then Ok (state, true, true)
  else
    let* r := check_block block state blockHeight validationOptions chainHeight in
    let '(state, ok) := r in
    Ok (state, ok, ok && (checkPoW validationOptions && checkMerkleRoot validationOptions || markChecked validationOptions)).

(** ** After a predecessor *)

Definition MAX_FUTURE_BLOCK_TIME : Z := 20 * 60.
Definition REJECT_CHECKPOINT : Z := 0x43.

(** [Checkpoints::CheckBlock], [Checkpoints::GetLastCheckpoint] *)
Definition checkpoint_CheckBlock (nHeight : Z) (hash : bytes) : bool :=
  match find (fun c => fst c =? nHeight) (mapCheckpoints config) with
  | None => true
  | Some c => Merkle.hash_eqb hash (snd c)
  end.
Definition GetLastCheckpoint (mapBlockIndex : BlockMap) : option ptr :=
  fold_left (fun found c => match mapBlockIndex !! snd c with Some p => Some p | None => found end) (mapCheckpoints config) None.

Definition CheckIndexAgainstCheckpoint (h : heap) (mapBlockIndex : BlockMap) (pindexPrev : ptr) (state : CValidationState) (hash : bytes) : verdict :=
  let* prev := deref h pindexPrev in
  let nHeight := nHeight prev + 1 in
  if negb (checkpoint_CheckBlock nHeight hash) then reject state 100 REJECT_CHECKPOINT "checkpoint mismatch"
  else
    match GetLastCheckpoint mapBlockIndex with
    | None => accept state
    | Some pcheckpoint =>
        let* c := deref h pcheckpoint in
        if nHeight <? BlockIndex.nHeight c then reject state 100 REJECT_CHECKPOINT "bad-fork-prior-to-checkpoint"
        else accept state
    end.

Definition ContextualCheckBlockHeader (h : heap) (block : CBlockHeader) (state : CValidationState) (pindexPrev : option ptr)
    (nAdjustedTime : Z) : verdict :=
  let* nBits := Pow.GetNextWorkRequired h pindexPrev block (pow config) in
  let* pindexPrev := or_abort pindexPrev in
  let* prev := deref h pindexPrev in
  let nHeight := nHeight prev + 1 in
  if negb (hdr_nBits block =? nBits) then reject state 100 REJECT_INVALID "bad-diffbits"
  else
    let* mtp := GetMedianTimePast h pindexPrev in
    if hdr_GetBlockTime block <=? mtp then Ok (Invalid state REJECT_INVALID "time-too-old", false)
    else if nAdjustedTime + MAX_FUTURE_BLOCK_TIME <? hdr_GetBlockTime block then Ok (Invalid state REJECT_INVALID "time-too-new", false)
    else if ((hdr_nVersion block <? 2) && (BIP34Height config <=? nHeight)) ||
            ((hdr_nVersion block <? 3) && (BIP66Height config <=? nHeight)) ||
            ((hdr_nVersion block <? 4) && (BIP65Height config <=? nHeight)) then
      Ok (Invalid state REJECT_OBSOLETE "bad-version", false)
    else accept state.

Fixpoint check_final (txs : list CTransaction) (state : CValidationState) (nHeight nLockTimeCutoff : Z) : verdict :=
  match txs with
  | [] => accept state
  | tx :: txs =>
      passes (ContextualCheckTransaction (genesisActivationHeight config) tx state nHeight nLockTimeCutoff true) (fun state =>
      check_final txs state nHeight nLockTimeCutoff)
  end.

Definition ContextualCheckBlock (h : heap) (block : CBlock) (state : CValidationState) (pindexPrev : option ptr) : verdict :=
  let* nHeight := match pindexPrev with None => Ok 0 | Some p => let* prev := deref h p in Ok (nHeight prev + 1) end in
  let* nMedianTimePast := match pindexPrev with None => Ok 0 | Some p => GetMedianTimePast h p end in
  if maxBlockSize config <? block_size block then reject state 100 REJECT_INVALID "bad-blk-length"
  else
    let nLockTimeCutoff := if CSVHeight config <=? nHeight then nMedianTimePast else hdr_GetBlockTime (header block) in
    passes (check_final (vtx block) state nHeight nLockTimeCutoff) (fun state =>
    if BIP34Height config <=? nHeight then
      let expect := push_int64 [] nHeight in
      let* coinbase := or_abort (nth_error (vtx block) 0) in
      let* i := or_abort (nth_error (vin coinbase) 0) in
      if (len (scriptSig i) <? len expect) || negb (bool_decide (firstn (length expect) (scriptSig i) = expect)) then
        reject state 100 REJECT_INVALID "bad-cb-height"
      else accept state
    else accept state).
End Check.

(** ** The order of the transactions *)

Definition used_inputs (usedInputs : gset bytes) (ins : list CTxIn) : gset bytes :=
  fold_left (fun s i => if negb (COutPoint_IsNull (prevout i)) then {[txid (prevout i)]} ∪ s else s) ins usedInputs.

Fixpoint ttor_from (usedInputs : gset bytes) (txs : list CTransaction) : outcome bool :=
  match txs with
  | [] => Ok true
  | tx :: txs =>
      let* id := GetId tx in
      if decide (id ∈ usedInputs) then Ok false
      else ttor_from (used_inputs usedInputs (vin tx)) txs
  end.
Definition CheckBlockTTOROrder (block : CBlock) : outcome bool := ttor_from ∅ (vtx block).

(** ** What an accepted block satisfies *)

Lemma decides_true c s s' (P : Prop) : decides c s P -> c = Ok (s', true) -> P /\ s' = s.
Proof. intros (s1 & b & E & HP & He & _) E'. rewrite E in E'. apply Ok_inj in E'. injection E' as -> ->. split; [now apply HP | now apply He]. Qed.

Lemma rewrap_true c (s' : CValidationState) : rewrap c = Ok (s', true) -> c = Ok (s', true).
Proof. unfold rewrap. intros H. ok_inv. destruct a as [s b]. cbn [fst snd] in H. destruct b; [now rewrite E | discriminate]. Qed.

Section Sound.
Context {B : BIGNUM} {K : Secp256k1}.

(** A transaction with inputs, outputs, a size and amounts within the limits. *)
Definition shaped (tx : CTransaction) (maxSize : Z) : Prop :=
  vin tx <> [] /\ vout tx <> [] /\ tx_size tx <= maxSize /\ amounts_ok (vout tx) 0.
Definition regular (tx : CTransaction) (maxSize : Z) : Prop :=
  shaped tx maxSize /\ Forall (fun i => COutPoint_IsNull (prevout i) = false) (vin tx) /\ NoDup (map prevout (vin tx)).

Lemma CheckTransactionCommon_true tx s s' mo ms g : CheckTransactionCommon tx s mo ms g = Ok (s', true) -> shaped tx ms /\ s' = s.
Proof.
  unfold CheckTransactionCommon, shaped. destruct (vin tx) as [|i ins]; [discriminate|]. destruct (vout tx) as [|o outs]; [discriminate|].
  destruct (Z.ltb_spec ms (tx_size tx)); [discriminate|]. intros H1. apply passes_true in H1 as (s1 & Ho & H1).
  destruct (decides_true _ _ _ _ (check_outputs_spec s (o :: outs) 0 ltac:(unfold MAX_MONEY, COIN; lia)) Ho) as [A ->].
  split; [split; [discriminate|]; split; [discriminate|]; split; [lia | exact A]|]. destruct g; cbn [negb] in H1; [now apply Ok_inj in H1; injection H1|].
  apply obind_ok in H1 as (r & _ & H1). destruct (snd r || _); [discriminate|]. now apply Ok_inj in H1; injection H1.
Qed.

Lemma CheckRegularTransaction_true tx s s' mo ms g : CheckRegularTransaction tx s mo ms g = Ok (s', true) -> regular tx ms /\ s' = s.
Proof.
  unfold CheckRegularTransaction. destruct (IsCoinBase tx); [discriminate|]. intros H. apply passes_true in H as (s1 & Hc & H).
  apply CheckTransactionCommon_true in Hc as [C ->]. destruct (g && _); [discriminate|].
  destruct (decides_true _ _ _ _ (check_inputs_spec s (vin tx) ∅) H) as [[F D] ->]. split; [|reflexivity]. split; [exact C|]. split; [|exact D].
  eapply Forall_impl; [|exact F]. now intros i [X _].
Qed.

Lemma CheckCoinbase_true tx s s' mo ms g ch : CheckCoinbase tx s mo ms g ch = Ok (s', true) -> IsCoinBase tx = true /\ shaped tx ms /\ s' = s.
Proof.
  unfold CheckCoinbase. intros H. apply passes_true in H as (s1 & Hb & H).
  assert (s1 = s) as ->.
  { destruct g; [|now apply Ok_inj in Hb; injection Hb]. unfold check_bill in Hb. apply obind_ok in Hb as (sh & _ & Hb).
    destruct (_ && negb _); [discriminate|]. destruct (_ && _); [|now apply Ok_inj in Hb; injection Hb].
    apply obind_ok in Hb as (f & _ & Hb). destruct f; [now apply Ok_inj in Hb; injection Hb | discriminate]. }
  destruct (IsCoinBase tx); [|discriminate]. cbn [negb] in H. apply passes_true in H as (s2 & Hc & H). apply CheckTransactionCommon_true in Hc as [C ->].
  split; [reflexivity|]. split; [exact C|]. apply obind_ok in H as (i & _ & H). destruct (_ || _); [discriminate|]. now apply Ok_inj in H; injection H.
Qed.

Lemma count_sigops_true s g n max tx k s' : count_sigops s g n max tx k = Ok (s', true) -> exists m, k m = Ok (s', true).
Proof.
  unfold count_sigops. destruct g; cbn [negb]; intros H; [now exists n|]. apply obind_ok in H as (r & _ & H). destruct (_ || _); [discriminate|]. eauto.
Qed.

Lemma check_txs_true s g max txs : forall n s', check_txs s g n max txs = Ok (s', true) -> Forall (fun tx => regular tx (GetMaxTxSize g)) txs /\ s' = s.
Proof.
  induction txs as [|tx txs IH]; intros n s' H; cbn [check_txs] in H; [apply Ok_inj in H; injection H as <-; now split|].
  apply passes_true in H as (s1 & Hr & H). apply rewrap_true, CheckRegularTransaction_true in Hr as [R ->].
  apply count_sigops_true in H as (m & H). destruct (IH m s' H) as [F ->]. split; [now constructor | reflexivity].
Qed.

(** What the checks of a block establish. *)
Record accepted (config : Config) (block : CBlock) (options : BlockValidationOptions) : Prop := {
  ac_pow : checkPoW options = true -> exists hash, hdr_GetHash (header block) = Some hash /\ Pow.CheckProofOfWork hash (hdr_nBits (header block)) (pow config) = true;
  ac_root : checkMerkleRoot options = true -> exists leaves, Merkle.block_leaves (vtx block) = Some leaves /\
    Merkle.ComputeMerkleRoot leaves = Ok (hdr_hashMerkleRoot (header block), false);
  ac_size : block_size block <= maxBlockSize config;
  ac_txs : exists coinbase txs g, vtx block = coinbase :: txs /\ IsCoinBase coinbase = true /\ shaped coinbase (GetMaxTxSize g) /\
    Forall (fun tx => regular tx (GetMaxTxSize g)) txs
}.

Lemma check_merkle_true block s s' : check_merkle block s = Ok (s', true) ->
  (exists leaves, Merkle.block_leaves (vtx block) = Some leaves /\ Merkle.ComputeMerkleRoot leaves = Ok (hdr_hashMerkleRoot (header block), false)) /\ s' = s.
Proof.
  unfold check_merkle, Merkle.BlockMerkleRoot. intros H. apply obind_ok in H as ([root mutated] & Hr & H). ok_inv.
  unfold Merkle.hash_eqb in H. destruct (list_eq_dec Z.eq_dec _ _) as [->|]; [|discriminate]. cbn [negb] in H.
  destruct mutated; [discriminate|]. apply Ok_inj in H. injection H as <-. split; [eauto | reflexivity].
Qed.

Lemma check_block_true config block s s' height options ch : check_block config block s height options ch = Ok (s', true) -> accepted config block options /\ s' = s.
Proof.
  unfold check_block. intros H. apply passes_true in H as (s1 & Hh & H). apply passes_true in H as (s2 & Hm & H).
  assert (s1 = s /\ (checkPoW options = true -> exists hash, hdr_GetHash (header block) = Some hash /\ Pow.CheckProofOfWork hash (hdr_nBits (header block)) (pow config) = true)) as [-> P].
  { unfold CheckBlockHeader in Hh. destruct (checkPoW options); [|apply Ok_inj in Hh; injection Hh as <-; split; [reflexivity | discriminate]].
    unfold block_hash in Hh. ok_inv. destruct (Pow.CheckProofOfWork _ _ _) eqn:W; [|discriminate]. apply Ok_inj in Hh. injection Hh as <-. split; [reflexivity|]. eauto. }
  assert (s2 = s /\ (checkMerkleRoot options = true -> exists leaves, Merkle.block_leaves (vtx block) = Some leaves /\ Merkle.ComputeMerkleRoot leaves = Ok (hdr_hashMerkleRoot (header block), false))) as [-> R].
  { destruct (checkMerkleRoot options); [|apply Ok_inj in Hm; injection Hm as <-; split; [reflexivity | discriminate]]. apply check_merkle_true in Hm as [E ->]. auto. }
  destruct (vtx block) as [|cb txs] eqn:V; [discriminate|]. destruct (_ && _); [discriminate|]. destruct (Z.ltb_spec (maxBlockSize config) (block_size block)); [discriminate|].
  apply obind_ok in H as (g & _ & H). apply passes_true in H as (s3 & Hc & H). apply rewrap_true, CheckCoinbase_true in Hc as (C1 & C2 & ->).
  apply count_sigops_true in H as (m & H). apply check_txs_true in H as [F ->]. split; [|reflexivity]. constructor; auto; [now rewrite V|]. exists cb, txs, g. auto.
Qed.
End Sound.

(** ** Properties *)

Lemma block_leaves_spec vtx : forall leaves, Merkle.block_leaves vtx = Some leaves -> Forall2 (fun tx id => TxSerializeHash tx = Some id) vtx leaves.
Proof.
  induction vtx as [|tx vtx IH]; intros leaves E; cbn [Merkle.block_leaves] in E; [apply Some_inj in E as <-; constructor|].
  destruct (TxSerializeHash tx) as [i|] eqn:Ei; [|discriminate]. destruct (Merkle.block_leaves vtx) as [l|]; [|discriminate].
  apply Some_inj in E as <-. constructor; [exact Ei | now apply IH].
Qed.

Definition current_tx (tx : CTransaction) : Prop := tx_valid tx /\ 10 <= Transaction.nVersion tx.

Lemma leaves_hashes vtx leaves : Forall current_tx vtx -> Forall2 (fun tx id => TxSerializeHash tx = Some id) vtx leaves -> Merkle.hashes leaves.
Proof.
  intros F F2. induction F2 as [|tx id vtx leaves E F2 IH]; [constructor|]. apply Forall_cons_iff in F as [[Vt V10] F].
  constructor; [|now apply IH]. rewrite TxSerializeHash_new in E by assumption. apply Some_inj in E as <-. apply length_fips_sha256.
Qed.

Lemma same_ids vtx1 vtx2 : forall leaves, Forall current_tx vtx1 -> Forall current_tx vtx2 ->
  Forall2 (fun tx id => TxSerializeHash tx = Some id) vtx1 leaves -> Forall2 (fun tx id => TxSerializeHash tx = Some id) vtx2 leaves ->
  vtx1 = vtx2 \/ exists a b, In a vtx1 /\ In b vtx2 /\ txid_collision a b.
Proof.
  revert vtx2. induction vtx1 as [|a vtx1 IH]; intros vtx2 leaves F1 F2 A1 A2; inversion A1; subst; inversion A2; subst; [now left|].
  apply Forall_cons_iff in F1 as [[Va Va10] F1], F2 as [[Vb Vb10] F2].
  match goal with Ea : TxSerializeHash a = Some ?i, Eb : TxSerializeHash ?b = Some ?i |- _ =>
    destruct (txid_commits a b Va Vb Va10 Vb10 (eq_trans Ea (eq_sym Eb))) as [->|C]; [|right; exists a, b; split; [now left|]; split; [now left | exact C]] end.
  destruct (IH _ _ F1 F2 ltac:(eassumption) ltac:(eassumption)) as [->|(u & v & Iu & Iv & C)]; [now left|].
  right. exists u, v. split; [now right|]. split; [now right | exact C].
Qed.

(** C4: a header stands for one block. Two blocks with the same header that both pass the checks of
    [CheckBlock], with transactions of the current version and trees of the same height, are the
    same block, or two different strings that were hashed, in the tree or in the identifiers of two of
    the transactions, have the same hash. *)
Theorem header_commits {B : BIGNUM} {K : Secp256k1} (config : Config) (b1 b2 : CBlock) (s s1 s2 : CValidationState) (h1 h2 ch1 ch2 : Z) (c1 c2 : bool) :
  CheckBlock config b1 false s h1 default_options ch1 = Ok (s1, true, c1) ->
  CheckBlock config b2 false s h2 default_options ch2 = Ok (s2, true, c2) ->
  header b1 = header b2 -> Forall current_tx (vtx b1) -> Forall current_tx (vtx b2) ->
  len (vtx b1) <= 2 ^ 31 -> len (vtx b2) <= 2 ^ 31 ->
  exists l1 l2, Merkle.block_leaves (vtx b1) = Some l1 /\ Merkle.block_leaves (vtx b2) = Some l2 /\
    (Merkle.merkle_height l1 = Merkle.merkle_height l2 ->
     b1 = b2 \/ Merkle.tree_collision l1 l2 \/ exists x y, In x (vtx b1) /\ In y (vtx b2) /\ txid_collision x y).
Proof.
  unfold CheckBlock. intros E1 E2 Eh F1 F2 L1 L2.
  assert (Ac : forall b s h ch s' c, (let* r := check_block config b s h default_options ch in let '(st, ok) := r in
    Ok (st, ok, ok && (checkPoW default_options && checkMerkleRoot default_options || markChecked default_options))) = Ok (s', true, c) -> accepted config b default_options).
  { intros b st h ch st' c E. apply obind_ok in E as ([st2 ok] & E & E'). apply Ok_inj in E'. injection E' as <- -> <-. now apply check_block_true in E as [A _]. }
  apply Ac in E1 as [_ R1 _ (cb1 & tx1 & g1 & V1 & _)], E2 as [_ R2 _ (cb2 & tx2 & g2 & V2 & _)].
  destruct (R1 eq_refl) as (l1 & B1 & M1), (R2 eq_refl) as (l2 & B2 & M2). exists l1, l2. split; [exact B1|]. split; [exact B2|]. intros Hh.
  pose proof (block_leaves_spec _ _ B1) as A1. pose proof (block_leaves_spec _ _ B2) as A2. pose proof (Forall2_length A1) as N1. pose proof (Forall2_length A2) as N2. unfold len in L1, L2.
  assert (P1 : (1 <= length l1)%nat) by (rewrite <- N1, V1; cbn; lia). assert (P2 : (1 <= length l2)%nat) by (rewrite <- N2, V2; cbn; lia).
  assert (Rt : hdr_hashMerkleRoot (header b1) = Merkle.merkle_root l1 /\ Merkle.ComputeMerkleRoot l1 = Ok (Merkle.merkle_root l1, false)).
  { destruct (Merkle.MerkleComputation_spec false (Z.to_nat (u32 (-1))) l1 P1 ltac:(lia) (or_intror eq_refl)) as (br & E & _). rewrite Z2Nat.id in E by apply u32_range.
    pose proof M1 as M1'. unfold Merkle.ComputeMerkleRoot in M1'. rewrite E in M1'. apply Ok_inj, pair_equal_spec in M1' as [X1 _]. cbn [fst] in X1. split; [now symmetry | now rewrite X1]. }
  destruct Rt as [Rt Mr]. rewrite <- Eh, Rt in M2.
  destruct (Merkle.root_commits l1 l2 (leaves_hashes _ _ F1 A1) (leaves_hashes _ _ F2 A2) P1 P2 ltac:(lia) ltac:(lia) Hh Mr M2) as [->|C]; [|auto].
  destruct (same_ids _ _ l2 F1 F2 A1 A2) as [Ev|C]; [|auto]. left. destruct b1 as [hd1 v1], b2 as [hd2 v2]. cbn [header vtx] in Eh, Ev. now rewrite Eh, Ev.
Qed.

(** A chain with the least difficulty, where Genesis is active from the first block on. *)
Definition easy_pow : Pow.Params := Pow.mkParams (repeat 255 31 ++ [127]) true true 600 1209600 0.
Definition easy_config : Config := mkConfig easy_pow 150 1 [] 1 1 1 0 (repeat 0 32) 1 0 1000000 [].
Definition easy_coinbase : CTransaction :=
  mkTx 10 [mkTxIn COutPoint_null [0x53; 0] 0xffffffff] [mkTxOut (50 * COIN) [0x51]] 0.
Definition easy_id : bytes := Eval vm_compute in match TxSerializeHash easy_coinbase with Some id => id | None => [] end.
Definition easy_block : CBlock := mkBlock (mkHeader 4 (repeat 7 32) easy_id 1600000000 0x207fffff 1) [easy_coinbase].

Lemma easy_checked : CheckBlock (B := Z_BIGNUM) (K := lenient_secp) easy_config easy_block false CValidationState_new 3 default_options 2 =
  Ok (CValidationState_new, true, true).
Proof. vm_compute. reflexivity. Qed.

Lemma header_commits_witness :
  exists l1 l2, Merkle.block_leaves (vtx easy_block) = Some l1 /\ Merkle.block_leaves (vtx easy_block) = Some l2 /\
    (Merkle.merkle_height l1 = Merkle.merkle_height l2 ->
     easy_block = easy_block \/ Merkle.tree_collision l1 l2 \/ exists x y, In x (vtx easy_block) /\ In y (vtx easy_block) /\ txid_collision x y).
Proof.
  assert (F : Forall current_tx (vtx easy_block)).
  { constructor; [|constructor]. split; [|vm_compute; congruence]. unfold tx_valid.
    repeat (split || constructor); try (apply bytes_okb; reflexivity); try (vm_compute; congruence); try reflexivity. }
  apply (header_commits (B := Z_BIGNUM) (K := lenient_secp) easy_config easy_block easy_block _ _ _ 3 3 2 2 true true easy_checked easy_checked eq_refl F F);
    vm_compute; congruence.
Defined.

(** *** The order of the transactions *)

Lemma used_inputs_spec ins : forall s id, id ∈ used_inputs s ins <->
  id ∈ s \/ exists i, In i ins /\ COutPoint_IsNull (prevout i) = false /\ txid (prevout i) = id.
Proof.
  unfold used_inputs. induction ins as [|i ins IH]; intros s id; cbn [fold_left]; [split; [now left | intros [X|(i & [] & _)]; exact X]|].
  rewrite IH. destruct (COutPoint_IsNull (prevout i)) eqn:N; cbn [negb].
  - split; [intros [X|(j & Ij & R)]; [now left | right; exists j; split; [now right | exact R]]|].
    intros [X|(j & [<-|Ij] & Nj & R)]; [now left | congruence | right; eauto].
  - rewrite elem_of_union, elem_of_singleton. split.
    + intros [[->|X]|(j & Ij & R)]; [right; exists i; split; [now left | auto] | now left | right; exists j; split; [now right | exact R]].
    + intros [X|(j & [<-|Ij] & Nj & R)]; [auto | left; left; congruence | right; eauto].
Qed.

(** An earlier transaction spends an output of a later one. *)
Definition out_of_order (txs : list (CTransaction * bytes)) : Prop :=
  exists j k a b i, (k < j)%nat /\ nth_error txs k = Some a /\ nth_error txs j = Some b /\
    In i (vin (fst a)) /\ COutPoint_IsNull (prevout i) = false /\ txid (prevout i) = snd b.

Lemma ttor_from_spec (txs : list (CTransaction * bytes)) : Forall (fun ti => ComputeHash (fst ti) = Some (snd ti)) txs -> forall s,
  exists r, ttor_from s (map fst txs) = Ok r /\ (r = false <-> (exists ti, In ti txs /\ snd ti ∈ s) \/ out_of_order txs).
Proof.
  induction 1 as [|[tx id] txs E F IH]; intros s; cbn [map fst ttor_from].
  - exists true. split; [reflexivity|]. split; [discriminate|]. intros [(ti & [] & _)|(j & k & a & b & i & _ & X & _)]. now destruct k.
  - cbn [fst snd] in E. unfold GetId. rewrite E. cbn [or_throw obind]. destruct (decide (id ∈ s)) as [I|I].
    { exists false. split; [reflexivity|]. split; [intros _; left; exists (tx, id); split; [now left | exact I] | reflexivity]. }
    destruct (IH (used_inputs s (vin tx))) as (r & Er & Hr). exists r. split; [exact Er|]. rewrite Hr. split.
    + intros [(ti & It & Iu)|(j & k & a & b & i & L & Ea & Eb & R)].
      * apply used_inputs_spec in Iu as [Is|(i & Ii & N & Ei)]; [left; exists ti; split; [now right | exact Is]|].
        right. destruct (In_nth_error txs ti It) as (j & Ej). exists (S j), 0%nat, (tx, id), ti, i. split; [lia|]. split; [reflexivity|]. split; [exact Ej|]. auto.
      * right. exists (S j), (S k), a, b, i. split; [lia|]. auto.
    + intros [(ti & [<-|It] & Is)|(j & k & a & b & i & L & Ea & Eb & Ii & N & Ei)]; [contradiction | left; exists ti; split; [exact It | apply used_inputs_spec; now left] |].
      destruct j as [|j]; [lia|]. cbn [nth_error] in Eb. destruct k as [|k].
      * injection Ea as <-. left. exists b. split; [exact (nth_error_In txs j Eb)|]. apply used_inputs_spec. right. exists i. auto.
      * right. exists j, k, a, b, i. split; [lia|]. auto.
Qed.

(** [CheckBlockTTOROrder] accepts a block exactly when no transaction spends an output of a
    transaction that comes after it in the block. *)
Theorem CheckBlockTTOROrder_correct (block : CBlock) (txs : list (CTransaction * bytes)) :
  vtx block = map fst txs -> Forall (fun ti => ComputeHash (fst ti) = Some (snd ti)) txs ->
  exists r, CheckBlockTTOROrder block = Ok r /\ (r = true <-> ~ out_of_order txs).
Proof.
  intros E F. unfold CheckBlockTTOROrder. rewrite E. destruct (ttor_from_spec txs F ∅) as (r & -> & Hr). exists r. split; [reflexivity|].
  destruct r; [split; [|reflexivity] | split; [discriminate|]].
  - intros _ O. enough (true = false) by discriminate. apply Hr. now right.
  - intros N. destruct Hr as [Hr _]. destruct (Hr eq_refl) as [(ti & _ & X)|O]; [set_solver | contradiction].
Qed.

Lemma CheckBlockTTOROrder_correct_witness : exists r, CheckBlockTTOROrder easy_block = Ok r /\ (r = true <-> ~ out_of_order [(easy_coinbase, easy_id)]).
Proof. apply (CheckBlockTTOROrder_correct easy_block [(easy_coinbase, easy_id)]); [reflexivity|]. constructor; [vm_compute; reflexivity | constructor]. Defined.

(** *** The height *)

(** from the height of BIP 34 on, a block that [ContextualCheckBlock] accepts after a predecessor
    carries its own height: [GetHeightFromCoinbase] reads one more than the height of the predecessor. *)
Theorem height_in_coinbase {B : BIGNUM} (config : Config) (h : heap) (block : CBlock) (s s' : CValidationState) (p : ptr) (prev : CBlockIndex) :
  ContextualCheckBlock config h block s (Some p) = Ok (s', true) -> h !! p = Some prev ->
  0 <= nHeight prev < 2 ^ 31 - 1 -> BIP34Height config <= nHeight prev + 1 ->
  GetHeightFromCoinbase block = Ok (nHeight prev + 1).
Proof.
  unfold ContextualCheckBlock, deref. intros H E Hp H34. rewrite E in H. cbn [or_abort obind] in H. apply obind_ok in H as (mtp & _ & H).
  destruct (_ <? _); [discriminate|]. apply passes_true in H as (s1 & _ & H). destruct (Z.leb_spec (BIP34Height config) (nHeight prev + 1)); [|lia].
  apply obind_ok in H as (cb & Ec & H). apply obind_ok in H as (i & Ei & H).
  destruct (nth_error (vtx block) 0) as [cb'|] eqn:Ec'; [|discriminate]. apply Ok_inj in Ec as <-.
  destruct (nth_error (vin cb') 0) as [i'|] eqn:Ei'; [|discriminate]. apply Ok_inj in Ei as <-.
  set (expect := push_int64 [] (nHeight prev + 1)) in *.
  destruct (len (scriptSig i') <? len expect); [discriminate|]. cbn [orb] in H. destruct (bool_decide_reflect (firstn (length expect) (scriptSig i') = expect)) as [X|X]; [|discriminate].
  apply (coinbase_height_push block (nHeight prev + 1) (skipn (length expect) (scriptSig i'))); [lia|]. fold expect. rewrite <- X at 1. rewrite firstn_skipn.
  unfold coinbase_script. destruct (vtx block) as [|t ts]; [discriminate|]. injection Ec' as ->. destruct (vin cb'); [discriminate|]. now injection Ei' as ->.
Qed.

Lemma height_in_coinbase_witness : GetHeightFromCoinbase (B := Z_BIGNUM) easy_block = Ok 3.
Proof.
  refine (height_in_coinbase (B := Z_BIGNUM) easy_config sample_heap easy_block CValidationState_new CValidationState_new 3 (sample_index (Some 2%positive) (Some 1%positive) 2 110) _ eq_refl _ _);
    [vm_compute; reflexivity | cbn; lia | cbn; lia].
Defined.
End BlockCheck.
