(* ===== verification/Headers.v ===== *)
(** * Headers (src/src/validation.cpp, src/src/chain.h)

    The acceptance of headers into the index of blocks, and what every entry of the index then has: a
    header whose hash is its own and refers to its predecessor, proof of work, and the sum of the work
    of its ancestors. *)

From Stdlib Require Import String.
From stdpp Require Import gmap.
From S2P Require Import Prelude Outcome Block ArithUint256 BlockIndex Chain SafeMode ChainState Pow Merkle Validation BlockCheck.
Import ArithUint256 Block BlockIndex Chain SafeMode ChainState Validation BlockCheck.

Module Headers.
Local Open Scope Z_scope.
Local Open Scope outcome_scope.

(** [CBlockIndex::GetBlockHeader] *)
Definition GetBlockHeader (h : heap) (b : CBlockIndex) : outcome CBlockHeader :=
  let* prev := match pprev b with Some q => let* p := deref h q in Chain.GetBlockHash p | None => Ok (repeat 0 32) end in
  Ok (mkHeader (nVersion b) prev (hashMerkleRoot b) (nTime b) (nBits b) (nNonce b)).

Section Accept.
(** The address of a new object, given the objects there are. *)
Context (alloc : heap -> ptr).
(** The parameters, the blocks that the configuration declares invalid, and whether checkpoints are
    used. *)
Context (config : Config) (invalidBlocks : gset (list Z)) (fCheckpointsEnabled : bool).

(** [now] is the time of day and [steady] that of the clock of validation times. *)
Definition AddToBlockIndex (s : chain_state) (block : CBlockHeader) (now steady : Z) : outcome (chain_state * ptr) :=
  let* hash := block_hash block in
  match mapBlockIndex s !! hash with
  | Some p => Ok (s, p)
  | None =>
      let p := alloc (cs_heap s) in
      let b := set_hash (CBlockIndex_of block) (Some hash) in
      let h := <[p := b]> (cs_heap s) in
      let M := <[hash := p]> (mapBlockIndex s) in
      let* b := match M !! hashPrevBlock block with
                | None => Ok b
                | Some q =>
                    let* prev := deref h q in
                    let* skip := BuildSkip h (Some q) (pskip b) (nHeight prev + 1) in
                    Ok (set_links b (Some q) skip (nHeight prev + 1))
                end in
      let* timeMax := match pprev b with Some q => let* prev := deref h q in Ok (Z.max (nTimeMax prev) (nTime b)) | None => Ok (nTime b) end in
      let b := set_times b now timeMax in
      let* work := chain_work h b in
      let b := snd (RaiseValidity steady (set_work b work) BlockValidity.TREE) in
      let h := <[p := b]> (cs_heap s) in
      let* best := match pindexBestHeader s with
                   | None => Ok (Some p)
                   | Some q => let* c := deref h q in Ok (if lt (nChainWork c) (nChainWork b) then Some p else Some q)
                   end in
      let* m := CheckSafeModeParameters h (chainActive s) (cs_safe s) (Some p) in
      Ok (mkChainState (mkState h ({[p]} ∪ setDirtyBlockIndex (cs_st s)) (cands s)) M (chainActive s) (mapBlocksUnlinked s) (pindexBestInvalid s) best m
            (nBlockSequenceId s) (nBlockReverseSequenceId s) (nLastPreciousChainwork s), p)
  end.

Definition FindPreviousBlockIndex (s : chain_state) (block : CBlockHeader) (state : CValidationState) : outcome (CValidationState * option ptr) :=
  match mapBlockIndex s !! hashPrevBlock block with
  | Some p =>
      let* b := deref (cs_heap s) p in
      if isInvalid (nStatus b) then Ok (DoS state 100 REJECT_INVALID "bad-prevblk" false, None) else Ok (state, Some p)
  | None => Ok (DoS state 10 0 "prev-blk-not-found" false, None)
  end.

(** The checks of a header that is not in the index: the state they leave, and the verdict. *)
Definition check_new_header (s : chain_state) (block : CBlockHeader) (hash : bytes) (state : CValidationState) (nAdjustedTime : Z) : verdict :=
  passes (CheckBlockHeader config block state default_options) (fun state =>
  let* r := FindPreviousBlockIndex s block state in
  let '(state, prev) := r in
  match prev with
  | None => Ok (state, false)
  | Some pindexPrev =>
      passes (if fCheckpointsEnabled then CheckIndexAgainstCheckpoint config (cs_heap s) (mapBlockIndex s) pindexPrev state hash else accept state) (fun state =>
      ContextualCheckBlockHeader config (cs_heap s) block state (Some pindexPrev) nAdjustedTime)
  end).

(** The state of the chain, the state of the validation, [*ppindex] when it is set, and the verdict. The
    self-check [CheckBlockIndex] changes nothing. *)
Definition AcceptBlockHeader (s : chain_state) (block : CBlockHeader) (state : CValidationState) (nAdjustedTime now steady : Z)
    : outcome (chain_state * CValidationState * option ptr * bool) :=
  let* hash := block_hash block in
  if bool_decide (hash ∈ invalidBlocks) then Ok (s, Invalid state 10 "block is marked as invalid", None, false)
  else
    let add state := let* r := AddToBlockIndex s block now steady in let '(s, p) := r in Ok (s, state, Some p, true) in
    if negb (Merkle.hash_eqb hash (hashGenesisBlock config)) then
      match mapBlockIndex s !! hash with
      | Some p =>
          let* b := deref (cs_heap s) p in
          if isInvalid (nStatus b) then Ok (s, Invalid state 0 "duplicate", Some p, false) else Ok (s, state, Some p, true)
      | None =>
          let* r := check_new_header s block hash state nAdjustedTime in
          let '(state, ok) := r in if ok then add state else Ok (s, state, None, false)
      end
    else add state.

(** What the clocks show when a header is processed: the adjusted time, the time of day and the steady
    clock. *)
Record clocks : Type := mkClocks { ck_adjusted : Z; ck_now : Z; ck_steady : Z }.

(** The loop over the headers; the last entry. *)
Fixpoint ProcessNewBlockHeaders (s : chain_state) (headers : list (CBlockHeader * clocks)) (state : CValidationState) (ppindex : option ptr)
    : outcome (chain_state * CValidationState * option ptr * bool) :=
  match headers with
  | [] => Ok (s, state, ppindex, true)
  | (header, k) :: headers =>
      let* r := AcceptBlockHeader s header state (ck_adjusted k) (ck_now k) (ck_steady k) in
      let '(s, state, p, ok) := r in
      if ok then ProcessNewBlockHeaders s headers state p else Ok (s, state, ppindex, false)
  end.
End Accept.

(** ** A larger index *)

Section Extend.
Context (h : heap) (T : tree_ok h) (p : ptr) (b : CBlockIndex) (Fr : h !! p = None).

Lemma up_fresh q c (k : nat) : h !! q = Some c -> Z.of_nat k <= nHeight c -> up (<[p := b]> h) k q = up h k q.
Proof.
  intros E L. destruct (up_exists h T k q c E L) as [r U]. rewrite U. exact (up_mono h _ k (insert_subseteq h p b Fr) q r U).
Qed.

Lemma lookup_old q c : h !! q = Some c -> <[p := b]> h !! q = Some c.
Proof. intros E. rewrite lookup_insert_ne; [exact E | congruence]. Qed.

Lemma chain_ok_fresh (c : CChain) : chain_ok h c -> chain_ok (<[p := b]> h) c.
Proof.
  unfold chain_ok. destruct (mChainTip c) as [tip|]; [|auto]. intros (t & Et & L & N). exists t. split; [exact (lookup_old tip t Et)|].
  split; [exact L|]. intros i Hi. pose proof (ok_height h T tip t Et). rewrite (up_fresh tip t _ Et) by lia. exact (N i Hi).
Qed.

Lemma BuildSkip_fresh q c : tree_ok (<[p := b]> h) -> h !! q = Some c ->
  exists skip, BuildSkip (<[p := b]> h) (Some q) None (nHeight c + 1) = Ok skip /\ BuildSkip h (Some q) None (nHeight c + 1) = Ok skip.
Proof.
  intros T' E. pose proof (ok_height h T q c E) as H0. pose proof (GetSkipHeight_bound (nHeight c + 1) ltac:(lia)) as G. cbn [BuildSkip].
  rewrite (GetAncestor_spec h T q c _ E), (GetAncestor_spec (<[p := b]> h) T' q c _ (lookup_old q c E)).
  destruct (_ && _) eqn:Q; [|exists None; auto]. rewrite (up_fresh q c _ E) by lia. eexists; split; reflexivity.
Qed.

Lemma chain_work_old x : (forall q, pprev x = Some q -> is_Some (h !! q)) -> chain_work (<[p := b]> h) x = chain_work h x.
Proof. intros D. unfold chain_work, deref. destruct (pprev x) as [q|]; [|reflexivity]. destruct (D q eq_refl) as [c E]. now rewrite (lookup_old q c E), E. Qed.

Lemma GetBlockHeader_old x : (forall q, pprev x = Some q -> is_Some (h !! q)) -> GetBlockHeader (<[p := b]> h) x = GetBlockHeader h x.
Proof. intros D. unfold GetBlockHeader, deref. destruct (pprev x) as [q|]; [|reflexivity]. destruct (D q eq_refl) as [c E]. now rewrite (lookup_old q c E), E. Qed.
End Extend.

(** ** The index of headers *)

(** The entries form a tree in which the active chain ends at [tip]; the map has every entry under its
    hash, which is the hash of the header that the entry stands for; every entry after another has
    proof of work; its work adds up; and the best header is the one with the most work. *)
Record headers_ok (config : Config) (s : chain_state) (tip : ptr) : Prop := mkHeadersOk {
  ho_tree : tree_ok (cs_heap s);
  ho_works : works_ok (cs_heap s);
  ho_chain : chain_ok (cs_heap s) (chainActive s);
  ho_tip : Tip (chainActive s) = Some tip;
  ho_safe : safe_ok (cs_heap s) (cs_safe s);
  ho_bits : forall p b, cs_heap s !! p = Some b -> 0 <= nBits b < 2 ^ 32;
  ho_hash : forall p b, cs_heap s !! p = Some b -> exists hash hdr, phashBlock b = Some hash /\ mapBlockIndex s !! hash = Some p /\
    GetBlockHeader (cs_heap s) b = Ok hdr /\ hdr_GetHash hdr = Some hash;
  ho_map : forall hash p, mapBlockIndex s !! hash = Some p -> exists b, cs_heap s !! p = Some b /\ phashBlock b = Some hash;
  ho_pow : forall p b hash, cs_heap s !! p = Some b -> pprev b <> None -> phashBlock b = Some hash -> Pow.CheckProofOfWork hash (nBits b) (pow config) = true;
  ho_work : forall p b, cs_heap s !! p = Some b -> chain_work (cs_heap s) b = Ok (nChainWork b);
  ho_best : exists q c, pindexBestHeader s = Some q /\ cs_heap s !! q = Some c /\ forall p b, cs_heap s !! p = Some b -> val (nChainWork b) <= val (nChainWork c);
  ho_genesis : is_Some (mapBlockIndex s !! hashGenesisBlock config)
}.

(** A new entry [b] at [p] for the header [block] with the hash [hash]. *)
Record added (s s' : chain_state) (block : CBlockHeader) (hash : bytes) (p : ptr) (b : CBlockIndex) : Prop := mkAdded {
  ad_fresh : cs_heap s !! p = None;
  ad_heap : cs_heap s' = <[p := b]> (cs_heap s);
  ad_map : mapBlockIndex s' = <[hash := p]> (mapBlockIndex s);
  ad_chain : chainActive s' = chainActive s;
  ad_hash : phashBlock b = Some hash;
  ad_header : GetBlockHeader (cs_heap s') b = Ok block;
  ad_attached : attached (cs_heap s) b;
  ad_prev : exists q, pprev b = Some q /\ mapBlockIndex s !! hashPrevBlock block = Some q;
  ad_bits : nBits b = hdr_nBits block;
  ad_work : chain_work (cs_heap s) b = Ok (nChainWork b);
  ad_safe : safe_ok (cs_heap s') (cs_safe s');
  ad_status : isInvalid (nStatus b) = false;
  ad_best : exists q c, pindexBestHeader s = Some q /\ cs_heap s !! q = Some c /\
    pindexBestHeader s' = Some (if lt (nChainWork c) (nChainWork b) then p else q);
  ad_empty : nTx b = 0 /\ nChainTx b = 0 /\ hasData (nStatus b) = false;
  ad_rest : cands s' = cands s /\ mapBlocksUnlinked s' = mapBlocksUnlinked s /\ pindexBestInvalid s' = pindexBestInvalid s /\ nBlockSequenceId s' = nBlockSequenceId s
}.

Lemma chain_work_ok (h : heap) (b : CBlockIndex) : works_ok h -> 0 <= nBits b < 2 ^ 32 -> (forall q, pprev b = Some q -> is_Some (h !! q)) ->
  exists w, chain_work h b = Ok w /\ uint_ok w.
Proof.
  intros W Hb D. unfold chain_work, deref. destruct (GetBlockProof_spec (nBits b) Hb) as (x & -> & X & _). destruct (pprev b) as [q|].
  - destruct (D q eq_refl) as [c E]. rewrite E. cbn [or_abort obind]. eexists. split; [reflexivity|]. exact (proj1 (add_spec _ _ (W q c E) X)).
  - cbn [obind]. eexists. split; [reflexivity|]. exact (proj1 (add_spec _ _ zero_ok X)).
Qed.

Section Add.
Context (alloc : heap -> ptr) (fresh : forall h, h !! alloc h = None).
Context (config : Config).

Lemma AddToBlockIndex_spec s tip block hash q now steady : headers_ok config s tip -> block_hash block = Ok hash -> mapBlockIndex s !! hash = None ->
  mapBlockIndex s !! hashPrevBlock block = Some q -> 0 <= hdr_nBits block < 2 ^ 32 ->
  exists s' p b, AddToBlockIndex alloc s block now steady = Ok (s', p) /\ added s s' block hash p b.
Proof.
  intros H Hh Hm Hq Hb. unfold AddToBlockIndex. rewrite Hh. cbn [obind]. rewrite Hm. set (p := alloc (cs_heap s)). assert (Fr : cs_heap s !! p = None) by apply fresh.
  set (b0 := set_hash (CBlockIndex_of block) (Some hash)). pose proof (ho_tree _ _ _ H) as T.
  assert (T1 : tree_ok (<[p := b0]> (cs_heap s))) by (apply tree_ok_insert; [exact T | exact Fr | split; reflexivity]).
  rewrite lookup_insert_ne, Hq by congruence. destruct (ho_map _ _ _ H _ _ Hq) as (c & Ec & Hc).
  unfold deref at 1. rewrite (lookup_old _ p b0 Fr q c Ec). cbn [or_abort obind].
  destruct (BuildSkip_fresh (cs_heap s) T p b0 Fr q c T1 Ec) as (skip & Sk1 & Sk2). change (pskip b0) with (@None ptr). rewrite Sk1. cbn [obind].
  change (pprev (set_links b0 (Some q) skip (nHeight c + 1))) with (Some q). unfold deref at 1. rewrite (lookup_old _ p b0 Fr q c Ec). cbn [or_abort obind].
  match goal with |- context [chain_work _ ?x] => set (b1 := x) end.
  assert (D : forall r, pprev b1 = Some r -> is_Some (cs_heap s !! r)) by (intros r [= <-]; now exists c).
  rewrite (chain_work_old (cs_heap s) p b0 Fr b1 D). destruct (chain_work_ok (cs_heap s) b1 (ho_works _ _ _ H) Hb D) as (w & Ww & Uw). rewrite Ww. cbn [obind].
  set (b := snd (RaiseValidity steady (set_work b1 w) BlockValidity.TREE)). assert (Hbs : b = set_status (set_work b1 w) 2) by reflexivity. clearbody b.
  destruct (ho_best _ _ _ H) as (x & bx & Ex & Lx & _). rewrite Ex. unfold deref at 1. rewrite (lookup_old _ p b Fr x bx Lx). cbn [or_abort obind].
  assert (At : attached (cs_heap s) b) by (rewrite Hbs; cbn; exists c; split; [exact Ec|]; split; [reflexivity | exact Sk2]).
  assert (T2 : tree_ok (<[p := b]> (cs_heap s))) by (apply tree_ok_insert; assumption).
  assert (Tip' : exists t, cs_heap s !! tip = Some t).
  { pose proof (ho_chain _ _ _ H) as Co. unfold chain_ok in Co. pose proof (ho_tip _ _ _ H) as Ht. unfold Tip in Ht. rewrite Ht in Co. destruct Co as (t & Et & _). now exists t. }
  destruct Tip' as [t Et].
  destruct (CheckSafeModeParameters_spec (<[p := b]> (cs_heap s)) (chainActive s) tip p t b (cs_safe s) T2 (chain_ok_fresh _ T p b Fr _ (ho_chain _ _ _ H))
    (ho_tip _ _ _ H) (lookup_old _ p b Fr tip t Et) (ho_bits _ _ _ H tip t Et)) as (m & -> & Sm & _);
    [apply (safe_ok_dom (cs_heap s)); [intros y [d Ed]; exists d; exact (lookup_old _ p b Fr y d Ed) | exact (ho_safe _ _ _ H)] | apply lookup_insert_eq|].
  cbn [obind]. eexists _, p, b. split; [reflexivity|]. split; cbn [cs_heap cs_st st_heap mapBlockIndex chainActive cs_safe pindexBestHeader]; try reflexivity; try assumption.
  - now rewrite Hbs.
  - rewrite (GetBlockHeader_old _ p b Fr) by (intros r; rewrite Hbs; intros [= <-]; now exists c). rewrite Hbs. unfold GetBlockHeader, deref. cbn [pprev set_status set_work b1 set_times set_links].
    rewrite Ec. cbn [or_abort obind]. unfold Chain.GetBlockHash. rewrite Hc. cbn [or_abort obind]. now destruct block.
  - exists q. split; [now rewrite Hbs | exact Hq].
  - now rewrite Hbs.
  - rewrite Hbs. exact Ww.
  - now rewrite Hbs.
  - exists x, bx. split; [exact Ex|]. split; [exact Lx|]. now destruct (lt _ _).
  - rewrite Hbs. repeat split; reflexivity.
  - repeat split; reflexivity.
Qed.

Lemma best_added s s' tip block hash p b : headers_ok config s tip -> added s s' block hash p b -> uint_ok (nChainWork b) ->
  exists q c, pindexBestHeader s' = Some q /\ cs_heap s' !! q = Some c /\ forall x d, cs_heap s' !! x = Some d -> val (nChainWork d) <= val (nChainWork c).
Proof.
  intros H A Uw. pose proof (ad_fresh _ _ _ _ _ _ A) as Fr. rewrite (ad_heap _ _ _ _ _ _ A).
  destruct (ad_best _ _ _ _ _ _ A) as (q & e & Eq & Ee & ->). destruct (ho_best _ _ _ H) as (q' & e' & Eq' & Ee' & Mx). rewrite Eq in Eq'. injection Eq' as <-.
  rewrite Ee in Ee'. injection Ee' as <-. rewrite (lt_spec _ _ (ho_works _ _ _ H q e Ee) Uw). destruct (Z.ltb_spec (val (nChainWork e)) (val (nChainWork b))) as [L|L].
  - exists p, b. split; [reflexivity|]. split; [apply lookup_insert_eq|]. intros x d [[<- <-]|[_ E]]%lookup_insert_Some; [lia|]. specialize (Mx x d E). lia.
  - exists q, e. split; [reflexivity|]. split; [exact (lookup_old _ p b Fr q e Ee)|]. intros x d [[<- <-]|[_ E]]%lookup_insert_Some; [lia | exact (Mx x d E)].
Qed.

(** An index stays in order when an entry with proof of work is added. *)
Lemma headers_ok_added s s' tip block hash p b : headers_ok config s tip -> added s s' block hash p b -> hdr_GetHash block = Some hash ->
  mapBlockIndex s !! hash = None -> 0 <= hdr_nBits block < 2 ^ 32 -> Pow.CheckProofOfWork hash (hdr_nBits block) (pow config) = true -> headers_ok config s' tip.
Proof.
  intros H A Hh Hm Hb Pw. pose proof (ho_tree _ _ _ H) as T. pose proof (ad_fresh _ _ _ _ _ _ A) as Fr. pose proof (ad_heap _ _ _ _ _ _ A) as Eh.
  assert (Cases : forall x d, cs_heap s' !! x = Some d -> (x = p /\ d = b) \/ (x <> p /\ cs_heap s !! x = Some d)).
  { intros x d. rewrite Eh, lookup_insert_Some. intros [[-> ->]|[N E]]; [now left | right; split; [congruence | exact E]]. }
  assert (Prev : forall x d q, cs_heap s !! x = Some d -> pprev d = Some q -> is_Some (cs_heap s !! q)) by (intros x d q E P; destruct (ok_prev _ T x d q E P) as (e & Ee & _); now exists e).
  assert (PrevB : forall q, pprev b = Some q -> is_Some (cs_heap s !! q)).
  { intros q P. pose proof (ad_attached _ _ _ _ _ _ A) as At. unfold attached in At. rewrite P in At. destruct At as (d & Ed & _). now exists d. }
  destruct (chain_work_ok (cs_heap s) b (ho_works _ _ _ H) ltac:(rewrite (ad_bits _ _ _ _ _ _ A); exact Hb) PrevB) as (w & Ww & Uw).
  rewrite (ad_work _ _ _ _ _ _ A) in Ww. apply Ok_inj in Ww. rewrite <- Ww in Uw.
  split; rewrite ?(ad_chain _ _ _ _ _ _ A).
  - rewrite Eh. apply tree_ok_insert; [exact T | exact Fr | apply A].
  - intros x d E. apply Cases in E as [[-> ->]|[_ E]]; [exact Uw | exact (ho_works _ _ _ H x d E)].
  - rewrite Eh. apply chain_ok_fresh; [exact T | exact Fr | apply H].
  - apply H.
  - apply A.
  - intros x d E. apply Cases in E as [[-> ->]|[_ E]]; [rewrite (ad_bits _ _ _ _ _ _ A); exact Hb | exact (ho_bits _ _ _ H x d E)].
  - intros x d E. rewrite (ad_map _ _ _ _ _ _ A). apply Cases in E as [[-> ->]|[_ E]].
    + exists hash, block. split; [apply A|]. split; [apply lookup_insert_eq|]. split; [apply A | exact Hh].
    + destruct (ho_hash _ _ _ H x d E) as (hx & hdr & E1 & E2 & E3 & E4). exists hx, hdr. split; [exact E1|].
      split; [rewrite lookup_insert_ne; [exact E2 | congruence]|]. split; [|exact E4]. rewrite Eh, (GetBlockHeader_old _ p b Fr); [exact E3 | exact (fun q P => Prev x d q E P)].
  - intros hx x. rewrite (ad_map _ _ _ _ _ _ A), lookup_insert_Some. intros [[<- <-]|[N E]].
    + exists b. split; [rewrite Eh; apply lookup_insert_eq | apply A].
    + destruct (ho_map _ _ _ H hx x E) as (d & Ed & Hd). exists d. split; [rewrite Eh; exact (lookup_old _ p b Fr x d Ed) | exact Hd].
  - intros x d hx E P Hx. apply Cases in E as [[-> ->]|[_ E]]; [|exact (ho_pow _ _ _ H x d hx E P Hx)].
    rewrite (ad_hash _ _ _ _ _ _ A) in Hx. injection Hx as <-. now rewrite (ad_bits _ _ _ _ _ _ A).
  - intros x d E. apply Cases in E as [[-> ->]|[_ E]]; rewrite Eh; (rewrite (chain_work_old _ p b Fr); [|first [exact PrevB | exact (fun q P => Prev x d q E P)]]);
      [exact (ad_work _ _ _ _ _ _ A) | exact (ho_work _ _ _ H x d E)].
  - exact (best_added s s' tip block hash p b H A Uw).
  - rewrite (ad_map _ _ _ _ _ _ A). destruct (ho_genesis _ _ _ H) as [g Eg]. destruct (decide (hash = hashGenesisBlock config)) as [->|N]; [rewrite lookup_insert_eq; now eexists|].
    rewrite lookup_insert_ne by exact N. now exists g.
Qed.

Context (invalidBlocks : gset (list Z)) (fCheckpointsEnabled : bool).

Lemma block_hash_some block hash : block_hash block = Ok hash -> hdr_GetHash block = Some hash.
Proof. unfold block_hash. destruct (hdr_GetHash block); [intros E; apply Ok_inj in E; now subst | discriminate]. Qed.

Lemma check_new_header_true s block hash state adjusted state' : block_hash block = Ok hash ->
  check_new_header config fCheckpointsEnabled s block hash state adjusted = Ok (state', true) ->
  Pow.CheckProofOfWork hash (hdr_nBits block) (pow config) = true /\
  exists q prev, mapBlockIndex s !! hashPrevBlock block = Some q /\ cs_heap s !! q = Some prev /\ isInvalid (nStatus prev) = false.
Proof.
  intros Hh. unfold check_new_header, passes, CheckBlockHeader. cbn [checkPoW default_options]. rewrite Hh. cbn [obind].
  destruct (Pow.CheckProofOfWork hash (hdr_nBits block) (pow config)); cbn [negb]; [|discriminate]. unfold accept at 1. cbn [obind fst snd].
  intros E. split; [reflexivity|]. unfold FindPreviousBlockIndex in E. destruct (mapBlockIndex s !! hashPrevBlock block) as [q|]; [|discriminate].
  unfold deref in E. destruct (cs_heap s !! q) as [prev|] eqn:Eq; [|discriminate]. cbn [or_abort obind] in E.
  destruct (isInvalid (nStatus prev)) eqn:I; [discriminate|]. now exists q, prev.
Qed.

(** What accepting a header does to the index: nothing, or one more entry after a block that is not
    invalid. *)
Definition accepted (s s' : chain_state) (block : CBlockHeader) : Prop :=
  s' = s \/ exists hash p b q prev, added s s' block hash p b /\ pprev b = Some q /\ cs_heap s !! q = Some prev /\ isInvalid (nStatus prev) = false.

Lemma AcceptBlockHeader_spec s tip block state adjusted now steady s' state' r ok : headers_ok config s tip -> 0 <= hdr_nBits block < 2 ^ 32 ->
  AcceptBlockHeader alloc config invalidBlocks fCheckpointsEnabled s block state adjusted now steady = Ok (s', state', r, ok) ->
  headers_ok config s' tip /\ accepted s s' block /\ (ok = true -> exists hash, hdr_GetHash block = Some hash /\ is_Some (mapBlockIndex s' !! hash)).
Proof.
  intros H Hb E. unfold AcceptBlockHeader in E. apply obind_ok in E as (hash & Hh & E). pose proof (block_hash_some block hash Hh) as Hs.
  assert (Same : forall x, Ok (s, x, r, ok) = Ok (s', state', r, ok) -> (ok = true -> is_Some (mapBlockIndex s !! hash)) ->
    headers_ok config s' tip /\ accepted s s' block /\ (ok = true -> exists hash, hdr_GetHash block = Some hash /\ is_Some (mapBlockIndex s' !! hash))).
  { intros x X D. apply Ok_inj in X. injection X as <- _. split; [exact H|]. split; [now left|]. intros O. exists hash. auto. }
  case_bool_decide; [apply Ok_inj in E; injection E as <- <- <- <-; apply (Same _ eq_refl); discriminate|].
  destruct (Merkle.hash_eqb hash (hashGenesisBlock config)) eqn:G; cbn [negb] in E.
  - unfold Merkle.hash_eqb in G. destruct (list_eq_dec Z.eq_dec hash (hashGenesisBlock config)) as [->|]; [|discriminate]. destruct (ho_genesis _ _ _ H) as [g Eg]. unfold AddToBlockIndex in E. rewrite Hh in E. cbn [obind] in E. rewrite Eg in E. cbn [obind] in E.
    apply Ok_inj in E. injection E as <- <- <- <-. apply (Same _ eq_refl). intros _. now exists g.
  - destruct (mapBlockIndex s !! hash) as [p|] eqn:Em.
    + apply obind_ok in E as (b & _ & E). destruct (isInvalid (nStatus b)); apply Ok_inj in E; injection E as <- <- <- <-; apply (Same _ eq_refl); [discriminate | intros _; now exists p].
    + apply obind_ok in E as ([st2 ok2] & Ck & E). destruct ok2; [|apply Ok_inj in E; injection E as <- <- <- <-; apply (Same _ eq_refl); discriminate].
      destruct (check_new_header_true s block hash state adjusted st2 Hh Ck) as (Pw & q & prev & Mq & Eq & Iq).
      destruct (AddToBlockIndex_spec s tip block hash q now steady H Hh Em Mq Hb) as (s1 & p & b & R & A). rewrite R in E. cbn [obind] in E.
      apply Ok_inj in E. injection E as <- <- <- <-. split; [exact (headers_ok_added s s1 tip block hash p b H A Hs Em Hb Pw)|].
      split; [|intros _; exists hash; split; [exact Hs|]; rewrite (ad_map _ _ _ _ _ _ A), lookup_insert_eq; now eexists].
      right. destruct (ad_prev _ _ _ _ _ _ A) as (q' & P & Mq'). rewrite Mq in Mq'. injection Mq' as <-. now exists hash, p, b, q, prev.
Qed.
End Add.

(** ** Properties *)

(** C7: the index is backed by work. Whatever headers arrive, valid or not, the entries of the index stay
    a tree in which every entry after another has proof of work for its own hash, that hash is the
    hash of a header that names the predecessor, the work adds up along the predecessors, and the
    best header is the one with the most work. Entries are only added, each after one that is not
    marked invalid; and all headers of an accepted message are in the index. *)
Theorem headers_backed_by_work (alloc : heap -> ptr) (config : Config) (invalidBlocks : gset (list Z)) (fCheckpointsEnabled : bool)
    (headers : list (CBlockHeader * clocks)) (s s' : chain_state) (tip : ptr) (state state' : CValidationState) (pp r : option ptr) (ok : bool) :
  (forall h, h !! alloc h = None) -> headers_ok config s tip -> Forall (fun e => 0 <= hdr_nBits (fst e) < 2 ^ 32) headers ->
  ProcessNewBlockHeaders alloc config invalidBlocks fCheckpointsEnabled s headers state pp = Ok (s', state', r, ok) ->
  headers_ok config s' tip /\ cs_heap s ⊆ cs_heap s' /\ mapBlockIndex s ⊆ mapBlockIndex s' /\
  (forall p b, cs_heap s' !! p = Some b -> cs_heap s !! p = None -> exists q prev, pprev b = Some q /\ cs_heap s' !! q = Some prev /\ isInvalid (nStatus prev) = false) /\
  (ok = true -> Forall (fun e => exists hash, hdr_GetHash (fst e) = Some hash /\ is_Some (mapBlockIndex s' !! hash)) headers).
Proof.
  intros Fr. revert s state pp. induction headers as [|[hd k] headers IH]; intros s state pp H F E.
  { cbn in E. apply Ok_inj in E. injection E as <- _ _ _. split; [exact H|]. split; [reflexivity|]. split; [reflexivity|]. split; [congruence | constructor]. }
  apply Forall_cons_iff in F as [Fb F]. cbn [ProcessNewBlockHeaders] in E. apply obind_ok in E as ([[[s1 st1] p1] ok1] & Ac & E).
  destruct (AcceptBlockHeader_spec alloc Fr config invalidBlocks fCheckpointsEnabled s tip hd state _ _ _ s1 st1 p1 ok1 H Fb Ac) as (H1 & A & Kn).
  assert (Step : cs_heap s ⊆ cs_heap s1 /\ mapBlockIndex s ⊆ mapBlockIndex s1 /\
    forall p b, cs_heap s1 !! p = Some b -> cs_heap s !! p = None -> exists q prev, pprev b = Some q /\ cs_heap s1 !! q = Some prev /\ isInvalid (nStatus prev) = false).
  { destruct A as [->|(hash & p & b & q & prev & A & P & Eq & I)]; [split; [reflexivity|]; split; [reflexivity | congruence]|]. pose proof (ad_fresh _ _ _ _ _ _ A) as Fp.
    rewrite (ad_heap _ _ _ _ _ _ A), (ad_map _ _ _ _ _ _ A). split; [now apply insert_subseteq|].
    split; [apply insert_subseteq; destruct (mapBlockIndex s !! hash) as [x|] eqn:X; [|reflexivity]; exfalso|].
    - destruct (ho_map _ _ _ H hash x X) as (d & Ed & Hd). destruct (ho_hash _ _ _ H1 x d) as (h1 & _ & Q1 & Q2 & _); [rewrite (ad_heap _ _ _ _ _ _ A); exact (lookup_old _ p b Fp x d Ed)|].
      rewrite Hd in Q1. injection Q1 as <-. rewrite (ad_map _ _ _ _ _ _ A), lookup_insert_eq in Q2. injection Q2 as <-. congruence.
    - intros x d [[<- <-]|[_ Ed]]%lookup_insert_Some N; [|congruence]. exists q, prev. split; [exact P|]. split; [exact (lookup_old _ p b Fp q prev Eq) | exact I]. }
  destruct Step as (S1 & S2 & S3). destruct ok1.
  - destruct (IH s1 st1 p1 H1 F E) as (H2 & T1 & T2 & T3 & T4). split; [exact H2|]. split; [now transitivity (cs_heap s1)|]. split; [now transitivity (mapBlockIndex s1)|]. split.
    + intros p b Eb N. destruct (cs_heap s1 !! p) as [b1|] eqn:E1; [|exact (T3 p b Eb E1)]. rewrite (lookup_weaken _ _ _ _ E1 T1) in Eb. injection Eb as <-.
      destruct (S3 p b1 E1 N) as (q & prev & P & Eq & I). exists q, prev. split; [exact P|]. split; [exact (lookup_weaken _ _ _ _ Eq T1) | exact I].
    + intros O. constructor; [|exact (T4 O)]. destruct (Kn eq_refl) as (hash & Hs & [x X]). exists hash. split; [exact Hs|]. exists x. exact (lookup_weaken _ _ _ _ X T2).
  - apply Ok_inj in E. injection E as <- _ _ <-. split; [exact H1|]. split; [exact S1|]. split; [exact S2|]. split; [exact S3 | discriminate].
Qed.

(** An example: a genesis block and a header after it. *)
Definition first_header : CBlockHeader := mkHeader 4 (repeat 0 32) easy_id 1599990000 0x207fffff 0.
Definition first_hash : bytes := Eval vm_compute in match hdr_GetHash first_header with Some hash => hash | None => [] end.
Definition second_header : CBlockHeader := mkHeader 4 first_hash easy_id 1600000000 0x207fffff 1.
Definition first_config : Config := mkConfig easy_pow 150 1 [] 1 1 1 0 first_hash 1 0 1000000 [].
Definition first_entry : CBlockIndex :=
  mkIndex (Some first_hash) None None 0 0 0 0 (of_u64 2) 1 1 5 4 easy_id 1599990000 0x207fffff 0 0 0 1599990000 CDiskBlockMetaData_new TimePoint_max.
Definition first_state : chain_state :=
  mkChainState (mkState {[1%positive := first_entry]} ∅ ∅) {[first_hash := 1%positive]} (mkChain [Some 1%positive] (Some 1%positive)) [] None (Some 1%positive)
    (mkSafe NONE ∅) 1 (-1) zero.
Definition free (h : heap) : ptr := base.fresh (dom h : gset ptr).

Lemma free_fresh (h : heap) : h !! free h = None.
Proof. apply (not_elem_of_dom (D := gset ptr)). unfold free. apply is_fresh. Qed.

Lemma first_state_ok : headers_ok first_config first_state 1.
Proof.
  assert (One : forall p b, cs_heap first_state !! p = Some b -> p = 1%positive /\ b = first_entry) by (intros p b E; cbn in E; apply lookup_singleton_Some in E as [<- <-]; auto).
  split; try (intros p b E; apply One in E as [-> ->]).
  - apply tree_ok_insert; [exact tree_ok_empty | reflexivity | split; reflexivity].
  - exact (proj1 (of_u64_spec 2 ltac:(lia))).
  - exists first_entry. split; [reflexivity|]. split; [reflexivity|]. intros i Hi. cbn in Hi. now destruct i; [|lia].
  - reflexivity.
  - split; [|split; reflexivity]. intros k x E. cbn in E. rewrite lookup_empty in E. discriminate.
  - cbn. lia.
  - exists first_hash, first_header. split; [reflexivity|]. split; [reflexivity|]. split; [reflexivity | vm_compute; reflexivity].
  - intros hash p E. cbn in E. apply lookup_singleton_Some in E as [<- <-]. exists first_entry. split; reflexivity.
  - intros p b hash E N _. apply One in E as [-> ->]. now contradiction N.
  - vm_compute. reflexivity.
  - exists 1%positive, first_entry. split; [reflexivity|]. split; [reflexivity|]. intros p b E. apply One in E as [-> ->]. lia.
  - now exists 1%positive.
Qed.

Definition second_result : outcome (chain_state * CValidationState * option ptr * bool) :=
  ProcessNewBlockHeaders free first_config ∅ true first_state [(second_header, mkClocks 1600000000 1600000000 7)] CValidationState_new None.

Lemma headers_backed_by_work_witness : exists s' state r, second_result = Ok (s', state, r, true) /\ headers_ok first_config s' 1.
Proof.
  assert (R : match second_result with Ok (_, _, _, ok) => ok | _ => false end = true) by (vm_compute; reflexivity).
  destruct second_result as [[[[s' state] r] [|]]|?|?| |] eqn:E; try discriminate R. exists s', state, r. split; [reflexivity|].
  assert (F : Forall (fun e => 0 <= hdr_nBits (fst e) < 2 ^ 32) [(second_header, mkClocks 1600000000 1600000000 7)]) by (constructor; [cbn; lia | constructor]).
  exact (proj1 (headers_backed_by_work free first_config ∅ true _ _ _ _ _ _ _ _ _ free_fresh first_state_ok F E)).
Defined.
End Headers.
