(* ===== verification/BlockFiles.v ===== *)
(** * The block and undo files (src/src/blockfileinfostore.cpp, src/src/chain.h, src/src/validation.cpp)

    Where the next block and its undo data go, which files may be pruned, how pruned files leave the
    index, and [FlushStateToDisk], which writes all of this to disk. *)

From stdpp Require Import gmap sorting.
From Stdlib Require Import String.
From S2P Require Import Prelude Outcome Endian ScriptNum Serialize Transaction Block BlockIndex Chain Coins Disk Validation.
Import ScriptNum Serialize Transaction Block BlockIndex Chain Coins Disk Validation.

Module BlockFiles.
Local Open Scope Z_scope.
Local Open Scope outcome_scope.
Local Open Scope reader_scope.

(** ** Statistics of a file *)

Record CBlockFileInfo : Type := mkInfo {
  nBlocks : Z;
  nHeightFirst : Z;
  nHeightLast : Z;
  nTimeFirst : Z;
  nTimeLast : Z;
  nSize : Z;
  nUndoSize : Z
}.

Definition CBlockFileInfo_null : CBlockFileInfo := mkInfo 0 0 0 0 0 0 0.

Definition AddBlock (i : CBlockFileInfo) (nHeightIn nTimeIn : Z) : CBlockFileInfo :=
  mkInfo (u32 (nBlocks i + 1))
    (if (nBlocks i =? 0) || (nHeightIn <? nHeightFirst i) then nHeightIn else nHeightFirst i)
    (if nHeightLast i <? nHeightIn then nHeightIn else nHeightLast i)
    (if (nBlocks i =? 0) || (nTimeIn <? nTimeFirst i) then nTimeIn else nTimeFirst i)
    (if nTimeLast i <? nTimeIn then nTimeIn else nTimeLast i)
    (nSize i) (nUndoSize i).

Definition set_sizes (i : CBlockFileInfo) (size undoSize : Z) : CBlockFileInfo :=
  mkInfo (nBlocks i) (nHeightFirst i) (nHeightLast i) (nTimeFirst i) (nTimeLast i) size undoSize.

(** [SerializationOp]: the 32-bit sizes, and what it writes, leaves in the object it writes, and
    reads into the object [i]. *)
Definition max32 : Z := 0xffffffff.
Definition legacy (n : Z) : Z := if max32 <=? n then max32 else n.

Definition write_info (i : CBlockFileInfo) : option bytes :=
  let nSizeLegacy := legacy (nSize i) in
  let nUndoSizeLegacy := legacy (nUndoSize i) in
  wbind (WriteVarInt 32 (nBlocks i)) (wbind (WriteVarInt 32 nSizeLegacy) (wbind (WriteVarInt 32 nUndoSizeLegacy)
  (wbind (WriteVarInt 32 (nHeightFirst i)) (wbind (WriteVarInt 32 (nHeightLast i)) (wbind (WriteVarInt 64 (nTimeFirst i)) (wbind (WriteVarInt 64 (nTimeLast i))
  (wbind (if nSizeLegacy =? max32 then WriteVarInt 64 (nSize i) else Some [])
         (if nUndoSize i =? max32 then WriteVarInt 64 (nUndoSize i) else Some [])))))))).

Definition info_written (i : CBlockFileInfo) : CBlockFileInfo :=
  let nSizeLegacy := legacy (nSize i) in
  let nUndoSizeLegacy := legacy (nUndoSize i) in
  set_sizes i (if nSizeLegacy =? max32 then nSize i else nSizeLegacy) (if nUndoSize i =? max32 then nUndoSize i else nUndoSizeLegacy).

Definition read_info (i : CBlockFileInfo) : reader CBlockFileInfo :=
  blocks <- ReadVarInt 32 ;;
  nSizeLegacy <- ReadVarInt 32 ;;
  nUndoSizeLegacy <- ReadVarInt 32 ;;
  heightFirst <- ReadVarInt 32 ;;
  heightLast <- ReadVarInt 32 ;;
  timeFirst <- ReadVarInt 64 ;;
  timeLast <- ReadVarInt 64 ;;
  size <- (if nSizeLegacy =? max32 then ReadVarInt 64 else rret nSizeLegacy) ;;
  undoSize <- (if nUndoSize i =? max32 then ReadVarInt 64 else rret nUndoSizeLegacy) ;;
  rret (mkInfo blocks heightFirst heightLast timeFirst timeLast size undoSize).

(** ** The files *)

(** [blk?????.dat] and [rev?????.dat]. *)
Record disk : Type := mkDisk { blk : files; rev : files }.

(** [ftruncate], which also extends, and [posix_fallocate], which only extends. *)
Definition TruncateFile (file : bytes) (length : Z) : bytes :=
  let n := Z.to_nat length in firstn n (file ++ repeat 0 (n - Datatypes.length file)).
Definition AllocateFileRange (file : bytes) (offset length : Z) : bytes :=
  (file ++ repeat 0 (Z.to_nat (offset + length) - Datatypes.length file))%list.

(** What happens to a file that is opened for writing. *)
Definition edit (fs : files) (pos : CDiskBlockPos) (f : bytes -> bytes) : files :=
  match OpenDiskFile fs pos false with
  | Some file => <[pos_nFile pos := f file]> fs
  | None => fs
  end.

Record CBlockFileInfoStore : Type := mkStore {
  vinfoBlockFile : list CBlockFileInfo;
  nLastBlockFile : Z;
  setDirtyFileInfo : gset Z
}.
Definition CBlockFileInfoStore_new : CBlockFileInfoStore := mkStore [] 0 ∅.

Definition set_infos (s : CBlockFileInfoStore) (v : list CBlockFileInfo) : CBlockFileInfoStore := mkStore v (nLastBlockFile s) (setDirtyFileInfo s).

(** [vinfoBlockFile[n]] *)
Definition info_at (v : list CBlockFileInfo) (n : Z) : outcome CBlockFileInfo := if n <? 0 then Abort else or_abort (v !! Z.to_nat n).

Definition resize_infos (v : list CBlockFileInfo) (n : Z) : list CBlockFileInfo :=
  (firstn (Z.to_nat n) v ++ repeat CBlockFileInfo_null (Z.to_nat n - length v))%list.

Definition BLOCKFILE_CHUNK_SIZE : Z := 0x1000000.
Definition UNDOFILE_CHUNK_SIZE : Z := 0x100000.
Definition MIN_BLOCKS_TO_KEEP : Z := 288.

Section Store.
(** The configured size of files, the prune mode, the prune target, and whether so many bytes are
    free on the disk. *)
Context (preferredBlockFileSize : Z) (fPruneMode : bool) (nPruneTarget : Z) (CheckDiskSpace : Z -> bool).

Definition full (i : CBlockFileInfo) (nAddSize : Z) : bool :=
  negb (nSize i =? 0) && (preferredBlockFileSize <=? u64 (nSize i + nAddSize)).

(** Every step leaves a file behind, and the loop stops at the first file after the last. *)
Fixpoint next_file (fuel : nat) (v : list CBlockFileInfo) (nAddSize nFile : Z) : outcome (list CBlockFileInfo * Z) :=
  let* i := info_at v nFile in
  if full i nAddSize then
    match fuel with
    | O => Abort
    | S fuel =>
        let nFile := u32 (nFile + 1) in
        let v := if len v <=? nFile then resize_infos v (nFile + 1) else v in
        next_file fuel v nAddSize nFile
    end
  else Ok (v, nFile).

Definition FindNextFileWithEnoughEmptySpace (v : list CBlockFileInfo) (nAddSize nFile : Z) : outcome (list CBlockFileInfo * Z) :=
  next_file (S (length v)) v nAddSize nFile.

Definition FlushBlockFile (s : CBlockFileInfoStore) (d : disk) (fFinalize : bool) : outcome disk :=
  let posOld := mkPos (nLastBlockFile s) 0 in
  if fFinalize then
    let* i := info_at (vinfoBlockFile s) (nLastBlockFile s) in
    Ok (mkDisk (edit (blk d) posOld (fun file => TruncateFile file (nSize i))) (edit (rev d) posOld (fun file => TruncateFile file (nUndoSize i))))
  else Ok (mkDisk (edit (blk d) posOld (fun file => file)) (edit (rev d) posOld (fun file => file))).

(** A file is extended by whole chunks: nothing when the disk is full. *)
Definition preallocate (fs : files) (pos : CDiskBlockPos) (newSize chunk : Z) (fCheckForPruning : bool) : option files * bool :=
  let nOldChunks := u32 (nPos pos + chunk - 1) / chunk in
  let nNewChunks := u64 (newSize + chunk - 1) / chunk in
  if nOldChunks <? nNewChunks then
    let fCheckForPruning := if fPruneMode then true else fCheckForPruning in
    let room := u64 (u64 (nNewChunks * chunk) - nPos pos) in
    if CheckDiskSpace room then (Some (edit fs pos (fun file => AllocateFileRange file (nPos pos) room)), fCheckForPruning)
    else (None, fCheckForPruning)
  else (Some fs, fCheckForPruning).

Definition FindBlockPos (s : CBlockFileInfoStore) (d : disk) (state : CValidationState) (pos : CDiskBlockPos) (nAddSize nHeight nTime : Z) (fCheckForPruning fKnown : bool)
    : outcome (CBlockFileInfoStore * disk * CValidationState * CDiskBlockPos * bool * bool) :=
  let nFile := if fKnown then u32 (pos_nFile pos) else u32 (nLastBlockFile s) in
  let v := vinfoBlockFile s in
  let v := if len v <=? nFile then resize_infos v (nFile + 1) else v in
  let* r := (if fKnown then Ok (v, nFile, pos)
             else let* r := FindNextFileWithEnoughEmptySpace v nAddSize nFile in
                  let '(v, nFile) := r in
                  let* i := info_at v nFile in
                  Ok (v, nFile, mkPos (i32 nFile) (u32 (nSize i)))) in
  let '(v, nFile, pos) := r in
  let s := set_infos s v in
  let* r := (if negb (i32 nFile =? nLastBlockFile s) then
               let* d := FlushBlockFile s d (negb fKnown) in Ok (mkStore v (i32 nFile) (setDirtyFileInfo s), d)
             else Ok (s, d)) in
  let '(s, d) := r in
  let* i := info_at v nFile in
  let i := AddBlock i nHeight nTime in
  let newSize := if fKnown then Z.max (u64 (nPos pos + nAddSize)) (nSize i) else u64 (nSize i + nAddSize) in
  let i := set_sizes i newSize (nUndoSize i) in
  let s := set_infos s (<[Z.to_nat nFile := i]> v) in
  let '(r, fCheckForPruning) := if fKnown then (Some (blk d), fCheckForPruning) else preallocate (blk d) pos newSize BLOCKFILE_CHUNK_SIZE fCheckForPruning in
  match r with
  | None => Ok (s, d, Error state "out of disk space"%string, pos, fCheckForPruning, false)
  | Some files =>
      Ok (mkStore (vinfoBlockFile s) (nLastBlockFile s) ({[nFile]} ∪ setDirtyFileInfo s), mkDisk files (rev d), state, pos, fCheckForPruning, true)
  end.

Definition FindUndoPos (s : CBlockFileInfoStore) (d : disk) (state : CValidationState) (nFile nAddSize : Z) (fCheckForPruning : bool)
    : outcome (CBlockFileInfoStore * disk * CValidationState * CDiskBlockPos * bool * bool) :=
  let* i := info_at (vinfoBlockFile s) nFile in
  let pos := mkPos nFile (u32 (nUndoSize i)) in
  let nNewSize := u64 (nUndoSize i + nAddSize) in
  let s := mkStore (<[Z.to_nat nFile := set_sizes i (nSize i) nNewSize]> (vinfoBlockFile s)) (nLastBlockFile s) ({[nFile]} ∪ setDirtyFileInfo s) in
  let '(r, fCheckForPruning) := preallocate (rev d) pos nNewSize UNDOFILE_CHUNK_SIZE fCheckForPruning in
  match r with
  | None => Ok (s, d, Error state "out of disk space"%string, pos, fCheckForPruning, false)
  | Some files => Ok (s, mkDisk (blk d) files, state, pos, fCheckForPruning, true)
  end.

(** ** Pruning *)

Definition CalculateCurrentUsage (s : CBlockFileInfoStore) : Z :=
  fold_left (fun retval file => u64 (retval + u64 (nSize file + nUndoSize file))) (vinfoBlockFile s) 0.

Definition ClearFileInfo (s : CBlockFileInfoStore) (fileNumber : Z) : outcome CBlockFileInfoStore :=
  let* _ := info_at (vinfoBlockFile s) fileNumber in
  Ok (mkStore (<[Z.to_nat fileNumber := CBlockFileInfo_null]> (vinfoBlockFile s)) (nLastBlockFile s) ({[fileNumber]} ∪ setDirtyFileInfo s)).

(** The loops over the files before the last, from [fileNumber] on, with [n] files to go. *)
Fixpoint prune_manual (n : nat) (v : list CBlockFileInfo) (nLastBlockWeCanPrune fileNumber : Z) (setFilesToPrune : gset Z) : outcome (gset Z) :=
  match n with
  | O => Ok setFilesToPrune
  | S n =>
      let* i := info_at v fileNumber in
      prune_manual n v nLastBlockWeCanPrune (fileNumber + 1)
        (if (nSize i =? 0) || (nLastBlockWeCanPrune <? nHeightLast i) then setFilesToPrune else {[fileNumber]} ∪ setFilesToPrune)
  end.

Definition FindFilesToPruneManual (s : CBlockFileInfoStore) (h : heap) (chainActive : CChain) (nManualPruneHeight : Z) : outcome (gset Z) :=
  assert_ (fPruneMode && (0 <? nManualPruneHeight)) (
    match Tip chainActive with
    | None => Ok ∅
    | Some tip =>
        let* t := deref h tip in
        let nLastBlockWeCanPrune := Z.min (u32 nManualPruneHeight) (u32 (nHeight t - MIN_BLOCKS_TO_KEEP)) in
        prune_manual (Z.to_nat (nLastBlockFile s)) (vinfoBlockFile s) nLastBlockWeCanPrune 0 ∅
    end).

Definition nBuffer : Z := BLOCKFILE_CHUNK_SIZE + UNDOFILE_CHUNK_SIZE.

Fixpoint prune_files (n : nat) (v : list CBlockFileInfo) (nLastBlockWeCanPrune fileNumber nCurrentUsage : Z) (setFilesToPrune : gset Z) : outcome (gset Z) :=
  match n with
  | O => Ok setFilesToPrune
  | S n =>
      let* i := info_at v fileNumber in
      let nBytesToPrune := u64 (nSize i + nUndoSize i) in
      if nSize i =? 0 then prune_files n v nLastBlockWeCanPrune (fileNumber + 1) nCurrentUsage setFilesToPrune
      else if u64 (nCurrentUsage + nBuffer) <? nPruneTarget then Ok setFilesToPrune
      else if nLastBlockWeCanPrune <? nHeightLast i then prune_files n v nLastBlockWeCanPrune (fileNumber + 1) nCurrentUsage setFilesToPrune
      else prune_files n v nLastBlockWeCanPrune (fileNumber + 1) (u64 (nCurrentUsage - nBytesToPrune)) ({[fileNumber]} ∪ setFilesToPrune)
  end.

Definition FindFilesToPrune (s : CBlockFileInfoStore) (h : heap) (chainActive : CChain) (nPruneAfterHeight : Z) : outcome (gset Z) :=
  match Tip chainActive with
  | None => Ok ∅
  | Some tip =>
      if nPruneTarget =? 0 then Ok ∅
      else
        let* t := deref h tip in
        if u64 (nHeight t) <=? nPruneAfterHeight then Ok ∅
        else
          let nLastBlockWeCanPrune := u32 (nHeight t - MIN_BLOCKS_TO_KEEP) in
          let nCurrentUsage := CalculateCurrentUsage s in
          if nPruneTarget <=? u64 (nCurrentUsage + nBuffer) then
            prune_files (Z.to_nat (nLastBlockFile s)) (vinfoBlockFile s) nLastBlockWeCanPrune 0 nCurrentUsage ∅
          else Ok ∅
  end.
End Store.

(** [CBlockIndex::ClearFileInfo] *)
Definition index_ClearFileInfo (b : CBlockIndex) : CBlockIndex :=
  set_status (set_file b (nTx b) (nChainTx b) 0 0 0 CDiskBlockMetaData_new)
    (withDiskBlockMetaData (withUndo (withData (nStatus b) false) false) false).

(** ** The state that is written to disk *)

(** [CDiskBlockIndex] *)
Record CDiskBlockIndex : Type := mkDiskIndex { disk_index : CBlockIndex; hashPrev : bytes }.

(** The block tree database: the entries of the index, the statistics of the files as their bytes,
    the number of the last file, and the flag that files were pruned. *)
Record CBlockTreeDB : Type := mkTree {
  db_index : gmap (list Z) CDiskBlockIndex;
  db_files : gmap Z bytes;
  db_last : option Z;
  db_pruned : bool
}.

(** [CBlockTreeDB::ReadBlockFileInfo] into the object [i]. *)
Definition ReadBlockFileInfo (db : gmap Z bytes) (nFile : Z) (i : CBlockFileInfo) : option CBlockFileInfo :=
  match db !! nFile with
  | None => None
  | Some data => match read_info i data with Some (i, _) => Some i | None => None end
  end.

(** The loops of [LoadBlockFileInfo]: the files up to the last, and then those that follow. *)
Definition load_known (db : gmap Z bytes) (v : list CBlockFileInfo) : list CBlockFileInfo :=
  imap (fun n i => match ReadBlockFileInfo db (Z.of_nat n) i with Some i => i | None => i end) v.

Fixpoint load_more (fuel : nat) (db : gmap Z bytes) (v : list CBlockFileInfo) (nFile : Z) : list CBlockFileInfo :=
  match fuel with
  | O => v
  | S fuel =>
      match ReadBlockFileInfo db nFile CBlockFileInfo_null with
      | Some info => load_more fuel db (v ++ [info])%list (nFile + 1)
      | None => v
      end
  end.

(** Every step of the second loop finds another record. *)
Definition LoadBlockFileInfo (s : CBlockFileInfoStore) (nLastBlockFile : Z) (db : gmap Z bytes) : CBlockFileInfoStore :=
  let v := load_known db (resize_infos (vinfoBlockFile s) (nLastBlockFile + 1)) in
  mkStore (load_more (S (size db)) db v (nLastBlockFile + 1)) nLastBlockFile (setDirtyFileInfo s).

Section Node.
Context {V : Type} `{CCoinsView V}.

(** The globals that [FlushStateToDisk] reads and writes. [bestChains] lists the locators of its
    signals, newest first. *)
Record node : Type := mkNode {
  index : heap;
  mapBlockIndex : BlockMap;
  chainActive : CChain;
  setDirtyBlockIndex : gset ptr;
  mapBlocksUnlinked : list (option ptr * ptr);
  store : CBlockFileInfoStore;
  files : disk;
  pblocktree : CBlockTreeDB;
  pcoinsTip : CCoinsViewCache V;
  fCheckForPruning : bool;
  fHavePruned : bool;
  nLastWrite : Z;
  nLastFlush : Z;
  nLastSetChain : Z;
  bestChains : list CBlockLocator
}.

Definition set_index (n : node) (h : heap) (dirty : gset ptr) (unlinked : list (option ptr * ptr)) : node :=
  mkNode h (mapBlockIndex n) (chainActive n) dirty unlinked (store n) (files n) (pblocktree n) (pcoinsTip n) (fCheckForPruning n)
    (fHavePruned n) (nLastWrite n) (nLastFlush n) (nLastSetChain n) (bestChains n).
Definition set_store (n : node) (s : CBlockFileInfoStore) (d : disk) (tree : CBlockTreeDB) : node :=
  mkNode (index n) (mapBlockIndex n) (chainActive n) (setDirtyBlockIndex n) (mapBlocksUnlinked n) s d tree (pcoinsTip n) (fCheckForPruning n)
    (fHavePruned n) (nLastWrite n) (nLastFlush n) (nLastSetChain n) (bestChains n).
Definition set_pruning (n : node) (check have : bool) : node :=
  mkNode (index n) (mapBlockIndex n) (chainActive n) (setDirtyBlockIndex n) (mapBlocksUnlinked n) (store n) (files n) (pblocktree n) (pcoinsTip n) check
    have (nLastWrite n) (nLastFlush n) (nLastSetChain n) (bestChains n).
Definition set_written (n : node) (coins : CCoinsViewCache V) (lastWrite lastFlush lastSetChain : Z) (signals : list CBlockLocator) : node :=
  mkNode (index n) (mapBlockIndex n) (chainActive n) (setDirtyBlockIndex n) (mapBlocksUnlinked n) (store n) (files n) (pblocktree n) coins (fCheckForPruning n)
    (fHavePruned n) lastWrite lastFlush lastSetChain signals.

(** The loop of [PruneOneBlockFile]. *)
Fixpoint prune_index (fileNumber : Z) (n : node) (l : list ptr) : outcome node :=
  match l with
  | [] => Ok n
  | pindex :: l =>
      let* b := deref (index n) pindex in
      prune_index fileNumber
        (if nFile b =? fileNumber then
           set_index n (<[pindex := index_ClearFileInfo b]> (index n)) ({[pindex]} ∪ setDirtyBlockIndex n)
             (List.filter (fun e => negb (bool_decide (e = (pprev b, pindex)))) (mapBlocksUnlinked n))
         else n) l
  end.

Definition PruneOneBlockFile (n : node) (fileNumber : Z) : outcome node :=
  let* n := prune_index fileNumber n (map snd (map_to_list (mapBlockIndex n))) in
  let* s := ClearFileInfo (store n) fileNumber in
  Ok (set_store n s (files n) (pblocktree n)).

(** [removable]: the block file is not in use. *)
Fixpoint unlink_files (removable : Z -> bool) (n : node) (l : list Z) : outcome node :=
  match l with
  | [] => Ok n
  | i :: l =>
      if removable i then
        let n := set_store n (store n) (mkDisk (delete i (blk (files n))) (delete i (rev (files n)))) (pblocktree n) in
        let* n := PruneOneBlockFile n i in
        unlink_files removable n l
      else unlink_files removable n l
  end.

Definition UnlinkPrunedFiles (removable : Z -> bool) (n : node) (setFilesToPrune : gset Z) : outcome node :=
  unlink_files removable n (merge_sort Z.le (elements setFilesToPrune)).

(** ** [FlushStateToDisk] *)

Inductive FlushStateMode : Set := FLUSH_STATE_NONE | FLUSH_STATE_IF_NEEDED | FLUSH_STATE_PERIODIC | FLUSH_STATE_ALWAYS.
Definition is_periodic (m : FlushStateMode) : bool := match m with FLUSH_STATE_PERIODIC => true | _ => false end.
Definition is_if_needed (m : FlushStateMode) : bool := match m with FLUSH_STATE_IF_NEEDED => true | _ => false end.
Definition is_always (m : FlushStateMode) : bool := match m with FLUSH_STATE_ALWAYS => true | _ => false end.

Definition DATABASE_WRITE_INTERVAL : Z := 60 * 60.
Definition DATABASE_FLUSH_INTERVAL : Z := 24 * 60 * 60.
Definition MAX_BLOCK_COINSDB_USAGE : Z := 10.
Definition ONE_MEBIBYTE : Z := 1048576.

(** [GetAndClearDirtyFileInfo] and the loop of [WriteBatchSync] over what it returns: writing the
    statistics of a file changes the object that is written. *)
Fixpoint write_infos (v : list CBlockFileInfo) (db : gmap Z bytes) (l : list Z) : outcome (list CBlockFileInfo * gmap Z bytes) :=
  match l with
  | [] => Ok (v, db)
  | n :: l =>
      let* i := info_at v n in
      let* data := or_throw std_exception (write_info i) in
      write_infos (<[Z.to_nat n := info_written i]> v) (<[n := data]> db) l
  end.

Fixpoint write_index (h : heap) (db : gmap (list Z) CDiskBlockIndex) (l : list ptr) : outcome (gmap (list Z) CDiskBlockIndex) :=
  match l with
  | [] => Ok db
  | p :: l =>
      let* b := deref h p in
      let* hash := GetBlockHash b in
      let* prev := (match pprev b with
                    | None => Ok (repeat 0 32)
                    | Some q => let* c := deref h q in GetBlockHash c
                    end) in
      write_index h (<[hash := mkDiskIndex b prev]> db) l
  end.

Definition WriteBatchSync (n : node) : outcome node :=
  let s := store n in
  let* r := write_infos (vinfoBlockFile s) (db_files (pblocktree n)) (merge_sort Z.le (elements (setDirtyFileInfo s))) in
  let '(v, infos) := r in
  let* entries := write_index (index n) (db_index (pblocktree n)) (elements (setDirtyBlockIndex n)) in
  let n := set_index n (index n) ∅ (mapBlocksUnlinked n) in
  Ok (set_store n (mkStore v (nLastBlockFile s) ∅) (files n) (mkTree entries infos (Some (nLastBlockFile s)) (db_pruned (pblocktree n)))).

Section Flush.
(** The configuration, and what the operating system and the memory pool report. *)
Context (fPruneMode fReindex : bool) (nPruneTarget pruneAfterHeight nCoinCacheUsage maxMempool : Z) (CheckDiskSpace : Z -> bool) (removable : Z -> bool).

Definition find_files (n : node) (nManualPruneHeight : Z) : outcome (node * gset Z) :=
  if fPruneMode && (fCheckForPruning n || (0 <? nManualPruneHeight)) && negb fReindex then
    let* r := (if 0 <? nManualPruneHeight then
                 let* l := FindFilesToPruneManual fPruneMode (store n) (index n) (chainActive n) nManualPruneHeight in Ok (n, l)
               else
                 let* l := FindFilesToPrune nPruneTarget (store n) (index n) (chainActive n) pruneAfterHeight in
                 Ok (set_pruning n false (fHavePruned n), l)) in
    let '(n, setFilesToPrune) := r in
    if bool_decide (setFilesToPrune = ∅) || fHavePruned n then Ok (n, setFilesToPrune)
    else
      let t := pblocktree n in
      Ok (set_pruning (set_store n (store n) (files n) (mkTree (db_index t) (db_files t) (db_last t) true)) (fCheckForPruning n) true, setFilesToPrune)
  else Ok (n, ∅).

(** Write the index and then remove the pruned files. *)
Definition write_blocks (n : node) (setFilesToPrune : gset Z) (nNow : Z) : outcome node :=
  let* d := FlushBlockFile (store n) (files n) false in
  let* n := WriteBatchSync (set_store n (store n) d (pblocktree n)) in
  let* n := (if negb (bool_decide (setFilesToPrune = ∅)) then UnlinkPrunedFiles removable n setFilesToPrune else Ok n) in
  Ok (set_written n (pcoinsTip n) nNow (nLastFlush n) (nLastSetChain n) (bestChains n)).

Definition FlushStateToDisk (n : node) (state : CValidationState) (mode : FlushStateMode) (nManualPruneHeight nMempoolUsage cacheSize nNow : Z)
    : outcome (node * CValidationState * bool) :=
  let* r := find_files n nManualPruneHeight in
  let '(n, setFilesToPrune) := r in
  let fFlushForPrune := negb (bool_decide (setFilesToPrune = ∅)) in
  let start t := if t =? 0 then nNow else t in
  let n := set_written n (pcoinsTip n) (start (nLastWrite n)) (start (nLastFlush n)) (start (nLastSetChain n)) (bestChains n) in
  let nTotalSpace := nCoinCacheUsage + Z.max (maxMempool - nMempoolUsage) 0 in
  let fCacheLarge := is_periodic mode &&
    (Z.max (u64 (Z.quot (9 * nTotalSpace) 10)) (u64 (nTotalSpace - MAX_BLOCK_COINSDB_USAGE * ONE_MEBIBYTE)) <? u64 cacheSize) in
  let fCacheCritical := is_if_needed mode && (nTotalSpace <? cacheSize) in
  let fPeriodicWrite := is_periodic mode && (nLastWrite n + DATABASE_WRITE_INTERVAL * 1000000 <? nNow) in
  let fPeriodicFlush := is_periodic mode && (nLastFlush n + DATABASE_FLUSH_INTERVAL * 1000000 <? nNow) in
  let fDoFullFlush := is_always mode || fCacheLarge || fCacheCritical || fPeriodicFlush || fFlushForPrune in
  if (fDoFullFlush || fPeriodicWrite) && negb (CheckDiskSpace 0) then Ok (n, Error state "out of disk space"%string, false)
  else
    let* n := (if fDoFullFlush || fPeriodicWrite then write_blocks n setFilesToPrune nNow else Ok n) in
    if fDoFullFlush && negb (CheckDiskSpace (u32 (48 * 2 * 2 * GetCacheSize (pcoinsTip n)))) then Ok (n, Error state "out of disk space"%string, false)
    else
      let* r := (if fDoFullFlush then
                   let* r := Flush (pcoinsTip n) in
                   let '(coins, ok) := r in
                   Ok (set_written n coins (nLastWrite n) (if ok then nNow else nLastFlush n) (nLastSetChain n) (bestChains n), ok)
                 else Ok (n, true)) in
      let '(n, ok) := r in
      if negb ok then Ok (n, Error state "Failed to write to coin database"%string, false)
      else if fDoFullFlush || ((is_always mode || is_periodic mode) && (nLastSetChain n + DATABASE_WRITE_INTERVAL * 1000000 <? nNow)) then
        let* locator := GetLocator (index n) (chainActive n) None in
        Ok (set_written n (pcoinsTip n) (nLastWrite n) (nLastFlush n) nNow (locator :: bestChains n), state, true)
      else Ok (n, state, true).
End Flush.

(** The part of [LoadBlockIndexDB] that looks for the files of the entries it has loaded. *)
Definition all_files_present (l : list CBlockIndex) (d : disk) : bool :=
  forallb (fun b => negb (hasData (nStatus b)) || bool_decide (is_Some (OpenDiskFile (blk d) (mkPos (nFile b) 0) true))) l.
Definition recorded (t : CBlockTreeDB) : list CBlockIndex := map (fun e => disk_index (snd e)) (map_to_list (db_index t)).
End Node.

(** ** Where data goes *)

(** Part of a file that was given out: in an undo file or a block file, its number, start and size. *)
Record region : Type := mkRegion { rg_undo : bool; rg_file : Z; rg_start : Z; rg_size : Z }.

Definition apart (r q : region) : Prop :=
  rg_undo r = rg_undo q -> rg_file r = rg_file q -> rg_start r + rg_size r <= rg_start q \/ rg_start q + rg_size q <= rg_start r.

Section Reserve.
Context (preferredBlockFileSize : Z) (fPruneMode : bool).

(** The stores that are reached from an empty one by giving out positions, on whatever disk, and by
    pruning files, with the parts that are in use. An undo file is used only below 4 GiB. *)
Inductive reserved : CBlockFileInfoStore -> list region -> Prop :=
| reserved_new : reserved CBlockFileInfoStore_new []
| reserved_block s l space d state pos add height time check s' d' state' pos' check' ok : reserved s l ->
    0 <= add < 2 ^ 63 -> len (vinfoBlockFile s) < 2 ^ 31 - 1 ->
    FindBlockPos preferredBlockFileSize fPruneMode space s d state pos add height time check false = Ok (s', d', state', pos', check', ok) ->
    reserved s' (if ok then mkRegion false (pos_nFile pos') (nPos pos') add :: l else l)
| reserved_undo s l space d state file i add check s' d' state' pos' check' ok : reserved s l ->
    0 <= add < 2 ^ 63 -> info_at (vinfoBlockFile s) file = Ok i -> nUndoSize i < 2 ^ 32 ->
    FindUndoPos fPruneMode space s d state file add check = Ok (s', d', state', pos', check', ok) ->
    reserved s' (if ok then mkRegion true (pos_nFile pos') (nPos pos') add :: l else l)
| reserved_pruned s l file s' : reserved s l -> ClearFileInfo s file = Ok s' ->
    reserved s' (List.filter (fun r => negb (rg_file r =? file)) l).

Definition used (i : CBlockFileInfo) (undo : bool) : Z := if undo then nUndoSize i else nSize i.

Definition holds (v : list CBlockFileInfo) (r : region) : Prop :=
  0 <= rg_file r /\ 0 <= rg_start r /\ 0 <= rg_size r /\ exists i, v !! Z.to_nat (rg_file r) = Some i /\ rg_start r + rg_size r <= used i (rg_undo r).

Definition sizes_ok (i : CBlockFileInfo) : Prop := 0 <= nSize i < 2 ^ 63 /\ 0 <= nUndoSize i < 2 ^ 63 + 2 ^ 32.

Record store_ok (s : CBlockFileInfoStore) (l : list region) : Prop := {
  so_last : 0 <= nLastBlockFile s <= Z.max 0 (len (vinfoBlockFile s) - 1);
  so_sizes : Forall sizes_ok (vinfoBlockFile s);
  so_holds : Forall (holds (vinfoBlockFile s)) l;
  so_apart : ForallOrdPairs apart l
}.

Lemma info_at_lookup (v : list CBlockFileInfo) (n : Z) (i : CBlockFileInfo) : info_at v n = Ok i <-> 0 <= n /\ v !! Z.to_nat n = Some i.
Proof.
  unfold info_at. destruct (Z.ltb_spec n 0).
  - split; [discriminate | lia].
  - destruct (v !! Z.to_nat n); cbn; split; [intros E; apply Ok_inj in E; subst; split; [lia | reflexivity] | intros [_ E]; congruence | discriminate | intros [_ E]; congruence].
Qed.

Lemma info_at_some (v : list CBlockFileInfo) (n : Z) (i : CBlockFileInfo) : 0 <= n -> v !! Z.to_nat n = Some i -> info_at v n = Ok i.
Proof. intros. now apply info_at_lookup. Qed.

Lemma resize_one (v : list CBlockFileInfo) (n : Z) : n = len v -> resize_infos v (n + 1) = (v ++ [CBlockFileInfo_null])%list.
Proof.
  intros ->. unfold resize_infos, len. replace (Z.to_nat (Z.of_nat (length v) + 1)) with (S (length v)) by lia.
  rewrite firstn_all2 by lia. now replace (S (length v) - length v)%nat with 1%nat by lia.
Qed.

Lemma next_file_spec (add : Z) (fuel : nat) : forall v n, 0 <= n < len v -> len v < 2 ^ 32 - 1 -> (Z.to_nat (len v - n) <= fuel)%nat ->
  exists v' n' i, next_file preferredBlockFileSize fuel v add n = Ok (v', n') /\ n <= n' /\ v' !! Z.to_nat n' = Some i /\
    full preferredBlockFileSize i add = false /\ (v' = v \/ v' = (v ++ [CBlockFileInfo_null])%list).
Proof.
  induction fuel as [|fuel IH]; intros v n Hn Hv Hf; [lia|].
  destruct (lookup_lt_is_Some_2 v (Z.to_nat n)) as [i Ei]; [unfold len in *; lia|].
  cbn [next_file]. rewrite (info_at_some v n i (proj1 Hn) Ei). cbn [obind].
  destruct (full preferredBlockFileSize i add) eqn:F; [|exists v, n, i; repeat split; auto; lia].
  rewrite u32_small by lia. destruct (Z.leb_spec (len v) (n + 1)) as [L|L].
  - rewrite resize_one by lia. exists (v ++ [CBlockFileInfo_null])%list, (n + 1), CBlockFileInfo_null.
    assert (Ek : (v ++ [CBlockFileInfo_null])%list !! Z.to_nat (n + 1) = Some CBlockFileInfo_null).
    { apply list_lookup_middle. unfold len in *. lia. }
    repeat split; auto; [|lia]. destruct fuel; cbn [next_file]; rewrite (info_at_some _ (n + 1) _ ltac:(lia) Ek); reflexivity.
  - destruct (IH v (n + 1)) as (v' & n' & j & E & Ln & Ej & Fj & C); [lia | lia | lia |]. exists v', n', j. repeat split; auto. lia.
Qed.

(** Files added at the end, and then one whose use grows. *)
Lemma holds_grow (v : list CBlockFileInfo) (k n : nat) (i j : CBlockFileInfo) (r : region) :
  (v ++ repeat CBlockFileInfo_null k)%list !! n = Some i -> (forall u, used i u <= used j u) -> holds v r ->
  holds (<[n := j]> (v ++ repeat CBlockFileInfo_null k)%list) r.
Proof.
  intros Ei G (F & S0 & Z0 & x & Ex & U). repeat split; auto.
  assert (Ey : (v ++ repeat CBlockFileInfo_null k)%list !! Z.to_nat (rg_file r) = Some x) by now apply lookup_app_l_Some.
  destruct (decide (Z.to_nat (rg_file r) = n)) as [E|E].
  - exists j. rewrite E, list_lookup_insert_eq by (apply lookup_lt_is_Some; now exists i). split; [reflexivity|].
    rewrite E in Ey. rewrite Ei in Ey. apply Some_inj in Ey. subst x. specialize (G (rg_undo r)). lia.
  - exists x. rewrite list_lookup_insert_ne by congruence. now split.
Qed.

(** A new part at the end of what is used of a file. *)
Lemma store_grow (s s' : CBlockFileInfoStore) (l : list region) (k : nat) (n : Z) (i j : CBlockFileInfo) (undo ok : bool) (add : Z) :
  store_ok s l -> 0 <= n -> (vinfoBlockFile s ++ repeat CBlockFileInfo_null k)%list !! Z.to_nat n = Some i -> sizes_ok j -> (forall u, used i u <= used j u) ->
  vinfoBlockFile s' = <[Z.to_nat n := j]> (vinfoBlockFile s ++ repeat CBlockFileInfo_null k)%list ->
  0 <= nLastBlockFile s' <= Z.max 0 (len (vinfoBlockFile s') - 1) -> 0 <= add -> 0 <= used i undo -> used i undo + add <= used j undo ->
  store_ok s' (if ok then mkRegion undo n (used i undo) add :: l else l).
Proof.
  intros [_ Sz Hs Ap] Hn Ei Sj G Ev L A0 U0 Uj.
  assert (Hl : Forall (holds (vinfoBlockFile s')) l).
  { eapply Forall_impl; [|exact Hs]. intros r Hr. rewrite Ev. now apply (holds_grow _ _ _ i). }
  assert (Sz' : Forall sizes_ok (vinfoBlockFile s')).
  { rewrite Ev. apply Forall_insert; [|exact Sj]. apply Stdlib.Lists.List.Forall_app. split; [exact Sz|]. apply Stdlib.Lists.List.Forall_forall. intros x Hx.
    apply repeat_spec in Hx. subst x. unfold sizes_ok. cbn. lia. }
  split; [exact L | exact Sz' | |]; destruct ok; auto.
  - constructor; [|exact Hl]. repeat split; auto. exists j. cbn. rewrite Ev, list_lookup_insert_eq by (apply lookup_lt_is_Some; now exists i). now split.
  - constructor; [|exact Ap]. eapply Forall_impl; [|exact Hs]. intros q (F & S0 & Z0 & x & Ex & U) Eu Ef. cbn in Eu, Ef |- *. right.
    rewrite <- Ef in Ex. assert (Ey := lookup_app_l_Some _ (repeat CBlockFileInfo_null k) _ _ Ex). rewrite Ei in Ey. apply Some_inj in Ey. subst x. now rewrite Eu.
Qed.

Lemma store_pruned (s s' : CBlockFileInfoStore) (l : list region) (file : Z) : store_ok s l -> ClearFileInfo s file = Ok s' ->
  store_ok s' (List.filter (fun r => negb (rg_file r =? file)) l).
Proof.
  intros [La Sz Hs Ap] E. unfold ClearFileInfo in E. apply obind_ok in E as (i & Ei & E). apply Ok_inj in E. subst s'.
  apply info_at_lookup in Ei as [F0 Ei]. split; cbn [vinfoBlockFile nLastBlockFile].
  - unfold len in *. now rewrite length_insert.
  - apply Forall_insert; [exact Sz|]. unfold sizes_ok. cbn. lia.
  - apply Stdlib.Lists.List.Forall_forall. intros r Hr. apply filter_In in Hr as [Hr N]. apply negb_true_iff, Z.eqb_neq in N.
    rewrite Stdlib.Lists.List.Forall_forall in Hs. destruct (Hs r Hr) as (F & S0 & Z0 & x & Ex & U). repeat split; auto. exists x.
    rewrite list_lookup_insert_ne by lia. now split.
  - clear -Ap. induction Ap as [|r l H Ap IH]; cbn [List.filter]; [constructor|]. destruct (negb _); [|exact IH]. constructor; [|exact IH].
    rewrite Stdlib.Lists.List.Forall_forall in H |- *. intros q Hq. apply filter_In in Hq as [Hq _]. exact (H q Hq).
Qed.

Lemma not_full (i : CBlockFileInfo) (add : Z) : preferredBlockFileSize <= 2 ^ 32 -> sizes_ok i -> 0 <= add < 2 ^ 63 ->
  full preferredBlockFileSize i add = false -> u32 (nSize i) = nSize i /\ u64 (nSize i + add) = nSize i + add /\ nSize i + add < 2 ^ 63.
Proof.
  intros P [Hs _] A F. unfold full in F. rewrite (u64_small (nSize i + add)) in * by lia.
  apply andb_false_iff in F as [F|F]; [apply negb_false_iff, Z.eqb_eq in F | apply Z.leb_gt in F]; rewrite u32_small by lia; lia.
Qed.

Lemma edit_ok (fs : Disk.files) (pos : CDiskBlockPos) (f : bytes -> bytes) : files_ok fs -> (forall file, bytes_ok file -> bytes_ok (f file)) -> files_ok (edit fs pos f).
Proof.
  intros F K n file E. unfold edit in E. destruct (OpenDiskFile fs pos false) as [x|] eqn:O; [|exact (F n file E)]. apply lookup_insert_Some in E as [[_ <-]|[_ E]]; [|exact (F n file E)].
  apply K. unfold OpenDiskFile in O. destruct (pos_IsNull pos); [discriminate|]. destruct (fs !! pos_nFile pos) as [y|] eqn:Y; injection O as <-; [exact (F _ _ Y) | constructor].
Qed.

Lemma zeros_ok (k : nat) : bytes_ok (repeat 0 k).
Proof. apply Stdlib.Lists.List.Forall_forall. intros x I. apply repeat_spec in I as ->. unfold is_byte. lia. Qed.

Lemma preallocate_ok space fs pos size chunk check fs' check' : preallocate fPruneMode space fs pos size chunk check = (Some fs', check') -> files_ok fs -> files_ok fs'.
Proof.
  unfold preallocate. intros E F. destruct (_ <? _); [destruct (space _); [|discriminate]|]; injection E as <- _; [|exact F].
  apply edit_ok; [exact F|]. intros file O. unfold AllocateFileRange. apply bytes_ok_app. split; [exact O | apply zeros_ok].
Qed.

Lemma preallocate_full space fs pos size chunk check check' : preallocate fPruneMode space fs pos size chunk check = (None, check') -> exists room, space room = false.
Proof.
  unfold preallocate. destruct (_ <? _); [|discriminate]. set (room := u64 _). destruct (space room) eqn:S; [discriminate|]. intros _. now exists room.
Qed.

(** [FindBlockPos] gives out the end of a file with room. *)
Lemma FindBlockPos_spec space s l d state pos add height time check : preferredBlockFileSize <= 2 ^ 32 -> store_ok s l -> 0 <= add < 2 ^ 63 -> len (vinfoBlockFile s) < 2 ^ 31 - 1 ->
  exists s' d' state' check' ok n k i j,
    FindBlockPos preferredBlockFileSize fPruneMode space s d state pos add height time check false = Ok (s', d', state', mkPos n (nSize i), check', ok) /\
    0 <= n /\ (vinfoBlockFile s ++ repeat CBlockFileInfo_null k)%list !! Z.to_nat n = Some i /\ j = set_sizes (AddBlock i height time) (nSize i + add) (nUndoSize i) /\
    nSize i + add < 2 ^ 63 /\ sizes_ok i /\ vinfoBlockFile s' = <[Z.to_nat n := j]> (vinfoBlockFile s ++ repeat CBlockFileInfo_null k)%list /\ nLastBlockFile s' = n /\
    (nSize i = 0 \/ nSize i + add < preferredBlockFileSize) /\ (ok = true -> state' = state) /\ (files_ok (blk d) -> files_ok (blk d')) /\
    (ok = false -> state' = Error state "out of disk space"%string /\ exists room, space room = false).
Proof.
  intros P [La Sz _ _] A Lv. unfold FindBlockPos. cbn [negb]. rewrite (u32_small (nLastBlockFile s)) by (unfold len in *; lia).
  set (v0 := if len (vinfoBlockFile s) <=? nLastBlockFile s then _ else _).
  assert (H0 : exists k0, v0 = (vinfoBlockFile s ++ repeat CBlockFileInfo_null k0)%list /\ nLastBlockFile s < len v0 <= len (vinfoBlockFile s) + 1).
  { unfold v0. destruct (Z.leb_spec (len (vinfoBlockFile s)) (nLastBlockFile s)) as [L|L].
    - rewrite resize_one by (unfold len in *; lia). exists 1%nat. split; [reflexivity|]. unfold len in *. rewrite length_app. cbn. lia.
    - exists 0%nat. cbn [repeat]. rewrite app_nil_r. split; [reflexivity | lia]. }
  destruct H0 as (k0 & E0 & L0). destruct (next_file_spec add (S (length v0)) v0 (nLastBlockFile s)) as (v & n & i & En & Ln & Ei & Fi & C); [lia | lia | unfold len in *; lia |].
  unfold FindNextFileWithEnoughEmptySpace. rewrite En. cbn [obind]. rewrite (info_at_some v n i) by (lia || exact Ei). cbn [obind].
  assert (Hk : exists k, v = (vinfoBlockFile s ++ repeat CBlockFileInfo_null k)%list /\ len v <= len v0 + 1).
  { destruct C as [->| ->]; [exists k0; split; [exact E0 | lia]|]. exists (k0 + 1)%nat. rewrite repeat_app, app_assoc, <- E0. split; [reflexivity|]. unfold len. rewrite length_app. cbn. lia. }
  destruct Hk as (k & Ek & Lk). assert (Nn : n < len v) by (apply lookup_lt_Some in Ei; unfold len; lia).
  assert (Si : sizes_ok i).
  { assert (Fv : Forall sizes_ok v) by (rewrite Ek; apply Stdlib.Lists.List.Forall_app; split; [exact Sz|]; apply Stdlib.Lists.List.Forall_forall; intros x Hx; apply repeat_spec in Hx; subst x; unfold sizes_ok; cbn; lia).
    rewrite Stdlib.Lists.List.Forall_forall in Fv. apply Fv. apply list_elem_of_In, list_elem_of_lookup. eauto. }
  destruct (not_full i add P Si A Fi) as (U1 & U2 & U3). rewrite (i32_small n) by lia.
  set (sw := if negb (n =? _) then _ else _). assert (Hw : exists st d1, sw = Ok (st, d1) /\ nLastBlockFile st = n /\ (files_ok (blk d) -> files_ok (blk d1))).
  { unfold sw. cbn [nLastBlockFile set_infos]. destruct (Z.eqb_spec n (nLastBlockFile s)) as [E|E]; cbn [negb]; [eexists _, _; split; [reflexivity | split; [now symmetry | auto]]|].
    unfold FlushBlockFile. cbn [vinfoBlockFile set_infos nLastBlockFile]. destruct (lookup_lt_is_Some_2 v (Z.to_nat (nLastBlockFile s))) as [x Ex]; [unfold len in *; lia|].
    rewrite (info_at_some v _ x) by (lia || exact Ex). cbn [obind]. eexists _, _. split; [reflexivity|]. split; [reflexivity|].
    intros Fd. apply edit_ok; [exact Fd|]. intros file O. unfold TruncateFile. apply Forall_firstn, bytes_ok_app. split; [exact O | apply zeros_ok]. }
  destruct Hw as (st & d1 & Ew & Lw & Fw).
  assert (Ro : nSize i = 0 \/ nSize i + add < preferredBlockFileSize).
  { unfold full in Fi. rewrite U2 in Fi. apply andb_false_iff in Fi as [Fi|Fi]; [left; apply negb_false_iff, Z.eqb_eq in Fi; exact Fi | right; now apply Z.leb_gt in Fi]. } rewrite Ew. cbn [obind]. rewrite (info_at_some v n i) by (lia || exact Ei). cbn [obind]. cbn [nSize AddBlock nUndoSize].
  rewrite U1, U2. destruct (preallocate _ _ _ _ _ _ _) as [[fs|] ch] eqn:Pr; eexists _, _, _, _, _, n, k, i, _; rewrite <- Ek;
    (split; [reflexivity|]); (split; [lia|]); (split; [exact Ei|]); (split; [reflexivity|]); (split; [exact U3|]); (split; [exact Si|]); (split; [reflexivity|]); (split; [exact Lw|]); (split; [exact Ro|]);
    (split; [auto; discriminate|]); (split; [intros Fd; first [exact (preallocate_ok _ _ _ _ _ _ _ _ Pr (Fw Fd)) | exact (Fw Fd)]|]); [discriminate|].
  intros _. split; [reflexivity | exact (preallocate_full _ _ _ _ _ _ _ Pr)].
Qed.

Lemma FindUndoPos_spec space s d state file i add check : info_at (vinfoBlockFile s) file = Ok i ->
  exists s' d' state' check' ok, FindUndoPos fPruneMode space s d state file add check = Ok (s', d', state', mkPos file (u32 (nUndoSize i)), check', ok) /\
    vinfoBlockFile s' = <[Z.to_nat file := set_sizes i (nSize i) (u64 (nUndoSize i + add))]> (vinfoBlockFile s) /\ nLastBlockFile s' = nLastBlockFile s /\
    (ok = false -> exists room, space room = false).
Proof.
  intros E. unfold FindUndoPos. rewrite E. cbn [obind]. destruct (preallocate _ _ _ _ _ _ _) as [[fs|] ch] eqn:P; eexists _, _, _, _, _; repeat split; try reflexivity; [discriminate|].
  intros _. exact (preallocate_full _ _ _ _ _ _ _ P).
Qed.

Lemma reserved_ok s l : preferredBlockFileSize <= 2 ^ 32 -> reserved s l -> store_ok s l.
Proof.
  intros P R. induction R as [|s l space d state pos add height time check s' d' state' pos' check' ok _ IH A Lv E|s l space d state file i add check s' d' state' pos' check' ok _ IH A Ei U E|s l file s' _ IH E].
  - repeat constructor; cbn; lia.
  - destruct (FindBlockPos_spec space s l d state pos add height time check P IH A Lv) as (t & d1 & st & ch & o & n & k & i & j & F & N & Ei & Ej & Lt & Si & Ev & La & _).
    rewrite E in F. apply Ok_inj in F. injection F as <- <- <- -> <- <-. cbn [pos_nFile nPos].
    apply (store_grow s s' l k n i j false ok add); subst j; destruct Si as [Si1 Si2]; auto; try (cbn; lia).
    + split; cbn; lia.
    + intros []; cbn; lia.
    + rewrite La, Ev. apply lookup_lt_Some in Ei. unfold len. rewrite length_insert. lia.
  - destruct (FindUndoPos_spec space s d state file i add check Ei) as (t & d1 & st & ch & o & F & Ev & La & _). rewrite E in F. apply Ok_inj in F. injection F as <- <- <- -> <- <-. cbn [pos_nFile nPos].
    apply info_at_lookup in Ei as [F0 Ei]. assert (Si : sizes_ok i).
    { assert (Sz := so_sizes s l IH). rewrite Stdlib.Lists.List.Forall_forall in Sz. apply Sz. apply list_elem_of_In, list_elem_of_lookup. eauto. }
    destruct Si as [S1 S2]. rewrite (u32_small (nUndoSize i)) by lia. rewrite (u64_small (nUndoSize i + add)) in Ev by lia.
    apply (store_grow s s' l 0 file i (set_sizes i (nSize i) (nUndoSize i + add)) true ok add); cbn [repeat]; rewrite ?app_nil_r; auto; try (cbn; lia).
    + split; cbn; lia.
    + intros []; cbn; lia.
    + rewrite La, Ev. destruct (so_last s l IH). unfold len in *. rewrite length_insert. lia.
  - exact (store_pruned s s' l file IH E).
Qed.
End Reserve.

(** C19: blocks and undo data never overlap on disk. When the preferred size of a file is at most 4 GiB,
    and undo positions are asked for only while the undo file uses less than 4 GiB, whatever the order
    in which positions were asked for, files were left behind or pruned and the disk was full, the parts
    of files that are in use are pairwise disjoint and lie in the used sizes of their files; and for
    fewer than 2^63 new bytes and fewer than 2^31 - 1 files, [FindBlockPos] always completes. *)
Theorem positions_disjoint (preferredBlockFileSize : Z) (fPruneMode : bool) (s : CBlockFileInfoStore) (l : list region) :
  preferredBlockFileSize <= 2 ^ 32 -> reserved preferredBlockFileSize fPruneMode s l ->
  ForallOrdPairs apart l /\ Forall (holds (vinfoBlockFile s)) l /\
  forall space d state pos add height time check, 0 <= add < 2 ^ 63 -> len (vinfoBlockFile s) < 2 ^ 31 - 1 ->
    exists r, FindBlockPos preferredBlockFileSize fPruneMode space s d state pos add height time check false = Ok r.
Proof.
  intros P R. assert (O := reserved_ok _ _ s l P R). split; [apply O|]. split; [apply O|]. intros space d state pos add height time check A L.
  destruct (FindBlockPos_spec _ fPruneMode space s l d state pos add height time check P O A L) as (s' & d' & st' & ch' & ok & n & k & i & j & E & _). eauto.
Qed.

Lemma sample_reserved : exists s, reserved 0x8000000 false s [mkRegion false 0 300 20; mkRegion false 0 0 300].
Proof.
  eexists. eapply (reserved_block _ _ _ [mkRegion false 0 0 300] (fun _ => true) (mkDisk ∅ ∅) CValidationState_new CDiskBlockPos_new 20 2 8 false _ _ _ (mkPos 0 300) _ true).
  - eapply (reserved_block _ _ _ [] (fun _ => true) (mkDisk ∅ ∅) CValidationState_new CDiskBlockPos_new 300 1 7 false _ _ _ (mkPos 0 0) _ true);
      [apply reserved_new | lia | vm_compute; reflexivity | cbv -[AllocateFileRange]; reflexivity].
  - lia.
  - vm_compute. reflexivity.
  - cbv -[AllocateFileRange]. reflexivity.
Qed.

Lemma positions_disjoint_witness : exists s, reserved 0x8000000 false s [mkRegion false 0 300 20; mkRegion false 0 0 300] /\
  ForallOrdPairs apart [mkRegion false 0 300 20; mkRegion false 0 0 300].
Proof.
  destruct sample_reserved as [s R]. exists s. split; [exact R|]. exact (proj1 (positions_disjoint 0x8000000 false s _ ltac:(lia) R)).
Defined.

(** C37: the position of undo data is cut to 32 bits. Once 4 GiB of an undo file are used (and its size
    with the new data fits in 64 bits), [FindUndoPos] on a disk with room succeeds and counts the new
    data, but the position that it gives out is at least 4 GiB below the end of the data: it lies in the
    part of the file that is in use. *)
Theorem undo_position_wraps (fPruneMode : bool) (space : Z -> bool) (s : CBlockFileInfoStore) (d : disk) (state : CValidationState) (file add : Z) (check : bool) (i : CBlockFileInfo) :
  info_at (vinfoBlockFile s) file = Ok i -> 2 ^ 32 <= nUndoSize i < 2 ^ 64 -> 0 <= add -> nUndoSize i + add < 2 ^ 64 -> (forall bytes, space bytes = true) ->
  exists s' d' state' pos check' i', FindUndoPos fPruneMode space s d state file add check = Ok (s', d', state', pos, check', true) /\
    pos_nFile pos = file /\ 0 <= nPos pos /\ nPos pos + 2 ^ 32 <= nUndoSize i /\
    info_at (vinfoBlockFile s') file = Ok i' /\ nUndoSize i' = nUndoSize i + add.
Proof.
  intros E U A B Sp. destruct (FindUndoPos_spec fPruneMode space s d state file i add check E) as (s' & d' & st & ch & ok & F & V & _ & O).
  destruct ok; [|destruct (O eq_refl) as [room R]; rewrite Sp in R; discriminate]. apply info_at_lookup in E as [F0 Ei].
  eexists _, _, _, _, _, _. split; [exact F|]. cbn [pos_nFile nPos]. split; [reflexivity|]. rewrite u32_mod.
  assert (0 <= nUndoSize i mod 2 ^ 32 < 2 ^ 32) by (apply Z.mod_pos_bound; lia). assert (D := Z.div_mod (nUndoSize i) (2 ^ 32) ltac:(lia)).
  assert (1 <= nUndoSize i / 2 ^ 32) by (apply Z.div_le_lower_bound; lia). split; [lia|]. split; [lia|].
  split; [apply info_at_some; [exact F0|]; rewrite V; apply list_lookup_insert_eq; now apply lookup_lt_Some in Ei|]. cbn. apply u64_small. lia.
Qed.

Lemma undo_position_wraps_witness : exists s' d' state' pos check',
  FindUndoPos false (fun _ => true) (mkStore [mkInfo 3 0 2 0 0 1000 (2 ^ 32 + 5)] 0 ∅) (mkDisk ∅ ∅) CValidationState_new 0 100 false = Ok (s', d', state', pos, check', true) /\ nPos pos <= 5.
Proof.
  destruct (undo_position_wraps false (fun _ => true) (mkStore [mkInfo 3 0 2 0 0 1000 (2 ^ 32 + 5)] 0 ∅) (mkDisk ∅ ∅) CValidationState_new 0 100 false (mkInfo 3 0 2 0 0 1000 (2 ^ 32 + 5)))
    as (s' & d' & st & pos & ch & i' & E & _ & P0 & P1 & _); [reflexivity | cbn; lia | lia | cbn; lia | reflexivity |].
  exists s', d', st, pos, ch. split; [exact E|]. cbn in P1. lia.
Defined.

(** ** Which files are pruned *)

(** What the files from number [k] on use, without those in [L]. *)
Fixpoint remaining (L : gset Z) (k : Z) (v : list CBlockFileInfo) : Z :=
  match v with
  | [] => 0
  | i :: v => (if bool_decide (k ∈ L) then 0 else nSize i + nUndoSize i) + remaining L (k + 1) v
  end.

Definition nonneg (i : CBlockFileInfo) : Prop := 0 <= nSize i /\ 0 <= nUndoSize i.

(** The file can go: it is before the last, not empty, and its blocks are low enough. *)
Definition prunable (v : list CBlockFileInfo) (last limit f : Z) : Prop :=
  0 <= f < last /\ exists i, v !! Z.to_nat f = Some i /\ nSize i <> 0 /\ nHeightLast i <= limit.

Lemma mem_insert (f k : Z) (L : gset Z) : k <> f -> bool_decide (k ∈ {[f]} ∪ L) = bool_decide (k ∈ L).
Proof. intros N. apply bool_decide_ext. rewrite elem_of_union, elem_of_singleton. tauto. Qed.

Lemma remaining_insert (L : gset Z) (f : Z) (v : list CBlockFileInfo) (i : CBlockFileInfo) : forall k, k <= f -> f ∉ L -> v !! Z.to_nat (f - k) = Some i ->
  remaining ({[f]} ∪ L) k v = remaining L k v - (nSize i + nUndoSize i).
Proof.
  assert (Away : forall v k, f < k -> remaining ({[f]} ∪ L) k v = remaining L k v).
  { clear v. induction v as [|x v IH]; intros k Hk; cbn [remaining]; [reflexivity|]. now rewrite IH, mem_insert by lia. }
  induction v as [|x v IH]; intros k Hk NL E; [discriminate|]. cbn [remaining].
  destruct (decide (k = f)) as [->|N].
  - rewrite Z.sub_diag in E. injection E as ->. rewrite Away by lia. rewrite bool_decide_eq_true_2 by (apply elem_of_union; left; now apply elem_of_singleton). rewrite bool_decide_eq_false_2 by exact NL. lia.
  - replace (Z.to_nat (f - k)) with (S (Z.to_nat (f - (k + 1)))) in E by lia. cbn in E. rewrite (IH (k + 1)), mem_insert by (lia || assumption). lia.
Qed.

Lemma remaining_bound (L : gset Z) (v : list CBlockFileInfo) : Forall nonneg v -> forall k, 0 <= remaining L k v <= remaining ∅ k v.
Proof.
  induction 1 as [|i v [S0 U0] _ IH]; intros k; cbn [remaining]; [lia|]. specialize (IH (k + 1)).
  rewrite (bool_decide_eq_false_2 (k ∈ ∅)) by apply not_elem_of_empty. destruct (bool_decide _); lia.
Qed.

Lemma usage_remaining (s : CBlockFileInfoStore) : Forall nonneg (vinfoBlockFile s) -> remaining ∅ 0 (vinfoBlockFile s) < 2 ^ 64 ->
  CalculateCurrentUsage s = remaining ∅ 0 (vinfoBlockFile s).
Proof.
  unfold CalculateCurrentUsage. set (v := vinfoBlockFile s). intros Hv Hb. clearbody v.
  assert (G : forall k a, 0 <= a -> a + remaining ∅ k v < 2 ^ 64 -> fold_left (fun r f => u64 (r + u64 (nSize f + nUndoSize f))) v a = a + remaining ∅ k v).
  { clear Hb. induction Hv as [|i v [S0 U0] Hv IH]; intros k a A B; cbn [fold_left remaining] in *; [lia|]. rewrite (bool_decide_eq_false_2 (k ∈ ∅)) in * by apply not_elem_of_empty.
    assert (R := remaining_bound ∅ v Hv (k + 1)). rewrite (u64_small (nSize i + nUndoSize i)), (u64_small (a + _)) by lia. rewrite (IH (k + 1)) by lia. lia. }
  now apply (G 0 0).
Qed.

Section Prune.
Context (nPruneTarget : Z).

Lemma prune_files_spec (v : list CBlockFileInfo) (limit last : Z) : Forall nonneg v -> remaining ∅ 0 v + nBuffer < 2 ^ 64 -> last <= len v ->
  forall (n : nat) (k : Z) (L : gset Z), 0 <= k -> last = k + Z.of_nat n -> (forall f, f ∈ L -> prunable v last limit f /\ f < k) ->
    (forall f, prunable v last limit f -> f < k -> f ∈ L) ->
  exists L', prune_files nPruneTarget n v limit k (remaining L 0 v) L = Ok L' /\ L ⊆ L' /\ (forall f, f ∈ L' -> prunable v last limit f) /\
    (remaining L' 0 v + nBuffer < nPruneTarget \/ forall f, prunable v last limit f -> f ∈ L').
Proof.
  intros Hv Hb Hl n. induction n as [|n IH]; intros k L K E Hin Hall; cbn [prune_files].
  - exists L. split; [reflexivity|]. split; [reflexivity|]. split; [intros f F; apply Hin in F; tauto|]. right. intros f F. apply Hall; [exact F|]. destruct F as [F _]. lia.
  - destruct (lookup_lt_is_Some_2 v (Z.to_nat k)) as [i Ei]; [unfold len in Hl; lia|]. rewrite (info_at_some v k i K Ei). cbn [obind].
    assert (Ni : nonneg i) by (rewrite Stdlib.Lists.List.Forall_forall in Hv; apply Hv, list_elem_of_In, list_elem_of_lookup; eauto).
    assert (B := remaining_bound L v Hv 0). assert (Kn : k ∉ L) by (intros F; apply Hin in F; lia).
    assert (Skip : nSize i = 0 \/ limit < nHeightLast i -> exists L', prune_files nPruneTarget n v limit (k + 1) (remaining L 0 v) L = Ok L' /\ L ⊆ L' /\ (forall f, f ∈ L' -> prunable v last limit f) /\
      (remaining L' 0 v + nBuffer < nPruneTarget \/ forall f, prunable v last limit f -> f ∈ L')).
    { intros C. apply IH; [lia | lia | intros f F; apply Hin in F; split; [tauto | lia] |]. intros f F Lf. apply Hall; [exact F|]. destruct (decide (f = k)) as [->|N]; [|lia].
      destruct F as (_ & j & Ej & S0 & H0). rewrite Ei in Ej. apply Some_inj in Ej. subst j. lia. }
    destruct (Z.eqb_spec (nSize i) 0) as [Z0|Z0]; [tauto|]. unfold nonneg in Ni. rewrite (u64_small (remaining L 0 v + nBuffer)) by (unfold nBuffer, BLOCKFILE_CHUNK_SIZE, UNDOFILE_CHUNK_SIZE in *; lia).
    destruct (Z.ltb_spec (remaining L 0 v + nBuffer) nPruneTarget) as [T|T].
    { exists L. split; [reflexivity|]. split; [reflexivity|]. split; [intros f F; apply Hin in F; tauto | now left]. }
    destruct (Z.ltb_spec limit (nHeightLast i)) as [H1|H1]; [tauto|].
    assert (R := remaining_insert L k v i 0 K Kn ltac:(now rewrite Z.sub_0_r)). assert (B' := remaining_bound ({[k]} ∪ L) v Hv 0).
    rewrite (u64_small (nSize i + nUndoSize i)) by (unfold nBuffer, BLOCKFILE_CHUNK_SIZE, UNDOFILE_CHUNK_SIZE in *; lia). rewrite <- R, u64_small by (unfold nBuffer, BLOCKFILE_CHUNK_SIZE, UNDOFILE_CHUNK_SIZE in *; lia).
    assert (Pk : prunable v last limit k) by (split; [lia | eauto]).
    destruct (IH (k + 1) ({[k]} ∪ L)) as (L' & E' & I' & P' & D'); [lia | lia | | |].
    + intros f F. apply elem_of_union in F as [F|F]; [apply elem_of_singleton in F; subst f; split; [exact Pk | lia]|]. apply Hin in F. split; [tauto | lia].
    + intros f F Lf. apply elem_of_union. destruct (decide (f = k)) as [->|N]; [left; now apply elem_of_singleton|]. right. apply Hall; [exact F | lia].
    + exists L'. split; [exact E'|]. split; [intros x X; apply I', elem_of_union; now right|]. now split.
Qed.
End Prune.

(** The files of which a pruning may be made. *)
Lemma prune_manual_in (v : list CBlockFileInfo) (limit last : Z) (n : nat) : forall k L L', 0 <= k -> last = k + Z.of_nat n ->
  prune_manual n v limit k L = Ok L' -> forall f, f ∈ L' -> f ∈ L \/ prunable v last limit f.
Proof.
  induction n as [|n IH]; intros k L L' K E R f F; cbn [prune_manual] in R; [apply Ok_inj in R; subst; now left|].
  apply obind_ok in R as (i & Ei & R). apply info_at_lookup in Ei as [_ Ei]. apply (IH (k + 1) _ _ ltac:(lia) ltac:(lia) R) in F as [F|F]; [|now right].
  destruct (_ || _) eqn:C; [now left|]. zbool. apply elem_of_union in F as [F|F]; [|now left]. apply elem_of_singleton in F. subst f. right. split; [lia|]. exists i. repeat split; auto; lia.
Qed.

Lemma prune_files_in (target : Z) (v : list CBlockFileInfo) (limit last : Z) (n : nat) : forall k u L L', 0 <= k -> last = k + Z.of_nat n ->
  prune_files target n v limit k u L = Ok L' -> forall f, f ∈ L' -> f ∈ L \/ prunable v last limit f.
Proof.
  induction n as [|n IH]; intros k u L L' K E R f F; cbn [prune_files] in R; [apply Ok_inj in R; subst; now left|].
  apply obind_ok in R as (i & Ei & R). apply info_at_lookup in Ei as [_ Ei].
  destruct (Z.eqb_spec (nSize i) 0); [exact (IH (k + 1) _ _ _ ltac:(lia) ltac:(lia) R f F)|]. destruct (_ <? target); [apply Ok_inj in R; subst; now left|].
  destruct (Z.ltb_spec limit (nHeightLast i)); [exact (IH (k + 1) _ _ _ ltac:(lia) ltac:(lia) R f F)|].
  apply (IH (k + 1) _ _ _ ltac:(lia) ltac:(lia) R) in F as [F|F]; [|now right]. apply elem_of_union in F as [F|F]; [|now left]. apply elem_of_singleton in F. subst f. right. split; [lia|]. eauto.
Qed.

(** C35: pruning is safe and sufficient. Suppose that the tip has at least height 288 or that pruning
    starts only above a height of at least 287 (every network's [nPruneAfterHeight] is 1000 or more),
    that the sizes of the files are not negative and with the reserve sum to less than [2^64], and that
    the last file is one of the list. Then [FindFilesToPrune] chooses only files before the last one
    that are not empty and whose blocks are all at least 288 below the tip; and when a target is set and
    the tip is above [nPruneAfterHeight], what is left is below the target with a reserve for the next
    allocation, or every file that may go was chosen. *)
Theorem FindFilesToPrune_correct (nPruneTarget : Z) (s : CBlockFileInfoStore) (h : heap) (c : CChain) (tip : ptr) (t : CBlockIndex) (nPruneAfterHeight : Z) :
  Tip c = Some tip -> h !! tip = Some t -> 0 <= nHeight t < 2 ^ 31 -> MIN_BLOCKS_TO_KEEP <= nHeight t \/ MIN_BLOCKS_TO_KEEP - 1 <= nPruneAfterHeight -> Forall nonneg (vinfoBlockFile s) ->
  remaining ∅ 0 (vinfoBlockFile s) + nBuffer < 2 ^ 64 -> 0 <= nLastBlockFile s <= len (vinfoBlockFile s) ->
  exists L, FindFilesToPrune nPruneTarget s h c nPruneAfterHeight = Ok L /\
    (forall f, f ∈ L -> prunable (vinfoBlockFile s) (nLastBlockFile s) (nHeight t - MIN_BLOCKS_TO_KEEP) f) /\
    (nPruneTarget <> 0 -> nPruneAfterHeight < nHeight t ->
      remaining L 0 (vinfoBlockFile s) + nBuffer < nPruneTarget \/ forall f, prunable (vinfoBlockFile s) (nLastBlockFile s) (nHeight t - MIN_BLOCKS_TO_KEEP) f -> f ∈ L).
Proof.
  intros Et Eh Ht Hp Hv Hb Hl. unfold FindFilesToPrune. rewrite Et. assert (B := remaining_bound ∅ _ Hv 0). unfold MIN_BLOCKS_TO_KEEP in *.
  destruct (Z.eqb_spec nPruneTarget 0) as [T0|T0]; [exists ∅; split; [reflexivity|]; split; [intros f F; now apply not_elem_of_empty in F | tauto]|].
  unfold deref. rewrite Eh. cbn [or_abort obind]. rewrite (u64_small (nHeight t)) by lia.
  destruct (Z.leb_spec (nHeight t) nPruneAfterHeight); [exists ∅; split; [reflexivity|]; split; [intros f F; now apply not_elem_of_empty in F | lia]|].
  rewrite usage_remaining by (assumption || (unfold nBuffer, BLOCKFILE_CHUNK_SIZE, UNDOFILE_CHUNK_SIZE in *; lia)).
  rewrite (u64_small (remaining _ _ _ + nBuffer)), (u32_small (nHeight t - _)) by (unfold nBuffer, BLOCKFILE_CHUNK_SIZE, UNDOFILE_CHUNK_SIZE in *; lia).
  destruct (Z.leb_spec nPruneTarget (remaining ∅ 0 (vinfoBlockFile s) + nBuffer)) as [G|G];
    [|exists ∅; split; [reflexivity|]; split; [intros f F; now apply not_elem_of_empty in F | auto]].
  destruct (prune_files_spec nPruneTarget (vinfoBlockFile s) (nHeight t - 288) (nLastBlockFile s) Hv Hb (proj2 Hl) (Z.to_nat (nLastBlockFile s)) 0 ∅) as (L & E & _ & P & D);
    [lia | lia | intros f F; now apply not_elem_of_empty in F | intros f [F _] N; lia |]. exists L. repeat split; auto; apply P; assumption.
Qed.

Lemma FindFilesToPrune_correct_witness : exists L, FindFilesToPrune 100000000
  (mkStore [mkInfo 2 0 10 0 0 90000000 7; mkInfo 2 11 20 0 0 50000000 7; mkInfo 2 21 400 0 0 5 7] 2 ∅) {[1%positive := set_links (CBlockIndex_of (mkHeader 1 [] [] 0 0 0)) None None 400]}
  (mkChain [Some 1%positive] (Some 1%positive)) 287 = Ok L /\ 0 ∈ L.
Proof.
  destruct (FindFilesToPrune_correct 100000000 (mkStore [mkInfo 2 0 10 0 0 90000000 7; mkInfo 2 11 20 0 0 50000000 7; mkInfo 2 21 400 0 0 5 7] 2 ∅)
    {[1%positive := set_links (CBlockIndex_of (mkHeader 1 [] [] 0 0 0)) None None 400]} (mkChain [Some 1%positive] (Some 1%positive)) 1 (set_links (CBlockIndex_of (mkHeader 1 [] [] 0 0 0)) None None 400) 287) as (L & E & _ & D);
    [reflexivity | reflexivity | cbn; lia | right; now vm_compute | repeat constructor; cbn; lia | vm_compute; reflexivity | vm_compute; split; discriminate |].
  exists L. split; [exact E|]. vm_compute in E. apply Ok_inj in E. subst L. now vm_compute.
Defined.

(** ** Pruned files leave the index *)

Lemma cleared (b : CBlockIndex) : hasData (nStatus (index_ClearFileInfo b)) = false.
Proof.
  unfold index_ClearFileInfo, hasData, withDiskBlockMetaData, withUndo, withData. cbn [nStatus set_status set_file].
  change HAS_DATA_FLAG with (2 ^ 3). change HAS_UNDO_FLAG with (2 ^ 4). change HAS_DISK_BLOCK_META_DATA_FLAG with (2 ^ 7).
  rewrite has_bit, !with_flag_bit by lia. reflexivity.
Qed.

Section Unlink.
Context {V : Type} `{CCoinsView V}.
Implicit Type n : node (V := V).

(** What pruning does not touch. *)
Record same_node n n' : Prop := {
  sn_map : mapBlockIndex n' = mapBlockIndex n;
  sn_chain : chainActive n' = chainActive n;
  sn_db : db_index (pblocktree n') = db_index (pblocktree n)
}.

Lemma same_refl n : same_node n n.
Proof. now split. Qed.

Lemma same_trans n1 n2 n3 : same_node n1 n2 -> same_node n2 n3 -> same_node n1 n3.
Proof. intros [] []. split; congruence. Qed.

(** The entries after files [L] were pruned. *)
Definition entries_pruned (L : gset Z) n n' : Prop :=
  (forall p, index n !! p = None -> index n' !! p = None) /\
  forall p b, index n !! p = Some b -> exists b', index n' !! p = Some b' /\ (nFile b ∉ L -> b' = b) /\
    (b' = b \/ hasData (nStatus b') = false) /\ (nFile b ∈ L -> (exists hash, mapBlockIndex n !! hash = Some p) -> hasData (nStatus b') = false).

Lemma prune_index_spec (f : Z) (l : list ptr) : forall n n', prune_index f n l = Ok n' -> same_node n n' /\ store n' = store n /\ files n' = files n /\
  (forall p, index n !! p = None -> index n' !! p = None) /\
  forall p b, index n !! p = Some b -> exists b', index n' !! p = Some b' /\ (nFile b <> f -> b' = b) /\ (b' = b \/ hasData (nStatus b') = false) /\ (nFile b = f -> In p l -> hasData (nStatus b') = false).
Proof.
  induction l as [|q l IH]; intros n n' E; cbn [prune_index] in E.
  { apply Ok_inj in E. subst n'. split; [apply same_refl|]. repeat split; auto. intros p b Eb. exists b. cbn. tauto. }
  apply obind_ok in E as (c & Ec & E). unfold deref in Ec. destruct (index n !! q) as [x|] eqn:Eq; [|discriminate]. apply Ok_inj in Ec. subst x.
  destruct (Z.eqb_spec (nFile c) f) as [F|F].
  - destruct (IH _ _ E) as (S1 & S2 & S3 & No & Ent). split; [destruct S1; now split|]. split; [exact S2|]. split; [exact S3|]. cbn [index set_index] in No, Ent.
    split; [intros p Ep; apply No; rewrite lookup_insert_ne by congruence; exact Ep|]. intros p b Eb. destruct (decide (p = q)) as [->|N].
    + rewrite Eq in Eb. apply Some_inj in Eb. subst c. destruct (Ent q (index_ClearFileInfo b) (lookup_insert_eq _ _ _)) as (b' & E' & _ & [->|D] & _); exists b' || exists (index_ClearFileInfo b).
      * split; [exact E'|]. split; [congruence|]. split; [right|intros _ _]; apply cleared.
      * split; [exact E'|]. split; [congruence|]. auto.
    + destruct (Ent p b) as (b' & E' & K & D & C); [now rewrite lookup_insert_ne by congruence|]. exists b'. repeat split; auto. intros Fb [->|I]; [congruence | auto].
  - destruct (IH _ _ E) as (S1 & S2 & S3 & No & Ent). repeat split; auto; try apply S1. intros p b Eb. destruct (Ent p b Eb) as (b' & E' & K & D & C). exists b'. repeat split; auto.
    intros Fb [->|I]; [|auto]. rewrite Eq in Eb. congruence.
Qed.

Lemma PruneOneBlockFile_spec (f : Z) n n' : PruneOneBlockFile n f = Ok n' -> same_node n n' /\ files n' = files n /\ entries_pruned {[f]} n n'.
Proof.
  intros E. unfold PruneOneBlockFile in E. apply obind_ok in E as (m & E1 & E). apply obind_ok in E as (s & _ & E). apply Ok_inj in E. subst n'.
  destruct (prune_index_spec f _ _ _ E1) as (S1 & S2 & S3 & No & Ent). split; [destruct S1; now split|]. split; [exact S3|]. split; [exact No|]. cbn [index set_store].
  intros p b Eb. destruct (Ent p b Eb) as (b' & E' & K & D & C). exists b'. split; [exact E'|]. rewrite elem_of_singleton. repeat split; auto.
  intros Fb [hash Eh]. apply C; [exact Fb|]. apply (in_map snd _ (hash, p)). apply list_elem_of_In, elem_of_map_to_list. exact Eh.
Qed.

(** The files that are removed. *)
Definition gone (removable : Z -> bool) (l : list Z) : gset Z := list_to_set (List.filter removable l).

Lemma gone_cons (removable : Z -> bool) (i f : Z) (l : list Z) : removable i = true -> f ∈ gone removable (i :: l) <-> f = i \/ f ∈ gone removable l.
Proof. intros R. unfold gone. cbn [List.filter]. rewrite R. cbn [list_to_set]. now rewrite elem_of_union, elem_of_singleton. Qed.

Lemma gone_delete (removable : Z -> bool) (i : Z) (l : list Z) (fs : Disk.files) (f : Z) : removable i = true ->
  (if bool_decide (f ∈ gone removable l) then None else delete i fs !! f) = (if bool_decide (f ∈ gone removable (i :: l)) then None else fs !! f).
Proof.
  intros R. rewrite (bool_decide_ext _ _ (gone_cons removable i f l R)). destruct (decide (f = i)) as [->|N].
  - rewrite lookup_delete_eq, (bool_decide_eq_true_2 (i = i \/ _)) by now left. now destruct (bool_decide _).
  - rewrite lookup_delete_ne by congruence. rewrite (bool_decide_ext (f = i \/ _) (f ∈ gone removable l)) by tauto. reflexivity.
Qed.

Lemma unlink_files_spec (removable : Z -> bool) (l : list Z) : forall n n', unlink_files removable n l = Ok n' ->
  same_node n n' /\ entries_pruned (gone removable l) n n' /\
  (forall f, blk (files n') !! f = if bool_decide (f ∈ gone removable l) then None else blk (files n) !! f) /\
  (forall f, rev (files n') !! f = if bool_decide (f ∈ gone removable l) then None else rev (files n) !! f).
Proof.
  induction l as [|i l IH]; intros n n' E; cbn [unlink_files] in E.
  { apply Ok_inj in E. subst n'. split; [apply same_refl|]. split; [split; [auto|]|now split]. intros p b Eb. exists b. split; [exact Eb|]. repeat split; auto. intros F. cbn in F. now apply not_elem_of_empty in F. }
  destruct (removable i) eqn:R; [|unfold gone; cbn [List.filter]; rewrite R; now apply IH]. apply obind_ok in E as (m & E1 & E).
  destruct (PruneOneBlockFile_spec i _ _ E1) as (S1 & F1 & No1 & Ent1). destruct (IH _ _ E) as (S2 & (No2 & Ent2) & B2 & R2). cbn [index set_store files mapBlockIndex] in *.
  split; [apply (same_trans n m n'); [destruct S1; now split | exact S2]|].
  split; [|split; intros f; [rewrite B2 | rewrite R2]; rewrite F1; now apply gone_delete].
  split; [intros p Ep; apply No2, No1, Ep|]. intros p b Eb. destruct (Ent1 p b Eb) as (b1 & E1' & K1 & D1 & C1). destruct (Ent2 p b1 E1') as (b' & E' & K & D & C). exists b'. split; [exact E'|].
  rewrite (gone_cons removable i (nFile b) l R). rewrite elem_of_singleton in *. split; [|split].
  - intros N. assert (b1 = b) by tauto. subst b1. apply K. tauto.
  - destruct D as [->|D]; [exact D1 | now right].
  - intros F M. destruct D1 as [->|D1]; [|destruct D as [->|D]; auto]. destruct F as [F|F]; [|apply C; [exact F | now rewrite (sn_map _ _ S1)]].
    destruct D as [->|D]; [now apply C1 | exact D].
Qed.

(** The parts of the state that the times and the coins do not touch. *)
Record same_core n n' : Prop := {
  sc_index : index n' = index n;
  sc_map : mapBlockIndex n' = mapBlockIndex n;
  sc_chain : chainActive n' = chainActive n;
  sc_dirty : setDirtyBlockIndex n' = setDirtyBlockIndex n;
  sc_store : store n' = store n;
  sc_files : files n' = files n;
  sc_db : db_index (pblocktree n') = db_index (pblocktree n)
}.

Lemma core_trans n1 n2 n3 : same_core n1 n2 -> same_core n2 n3 -> same_core n1 n3.
Proof. intros [] []. split; congruence. Qed.

(** The chosen files are before the last and hold no recent block. *)
Lemma find_files_spec (fPruneMode fReindex : bool) (nPruneTarget after : Z) n (m : Z) n' (L : gset Z) (tip : ptr) (t : CBlockIndex) :
  find_files fPruneMode fReindex nPruneTarget after n m = Ok (n', L) -> Tip (chainActive n) = Some tip -> index n !! tip = Some t -> 0 <= nHeight t < 2 ^ 31 -> MIN_BLOCKS_TO_KEEP <= nHeight t \/ m <= 0 /\ MIN_BLOCKS_TO_KEEP - 1 <= after ->
  same_core n n' /\ forall f, f ∈ L -> exists i, info_at (vinfoBlockFile (store n)) f = Ok i /\ nHeightLast i <= nHeight t - MIN_BLOCKS_TO_KEEP.
Proof.
  intros E Et Ei Ht Hp. unfold find_files in E. destruct (_ && _ && _); [|apply Ok_inj in E; injection E as <- <-; split; [now split | intros f F; now apply not_elem_of_empty in F]].
  apply obind_ok in E as ([m1 L1] & E1 & E).
  assert (G : same_core n m1 /\ forall f, f ∈ L1 -> exists i, info_at (vinfoBlockFile (store n)) f = Ok i /\ nHeightLast i <= nHeight t - MIN_BLOCKS_TO_KEEP).
  { assert (K : forall lim, lim <= nHeight t - MIN_BLOCKS_TO_KEEP -> forall L0 : gset Z, (forall f, f ∈ L0 -> f ∈ (∅ : gset Z) \/ prunable (vinfoBlockFile (store n)) (Z.of_nat (Z.to_nat (nLastBlockFile (store n)))) lim f) ->
      forall f, f ∈ L0 -> exists i, info_at (vinfoBlockFile (store n)) f = Ok i /\ nHeightLast i <= nHeight t - MIN_BLOCKS_TO_KEEP).
    { intros lim Hlim L0 H0 f F. destruct (H0 f F) as [X|(R & i & Ex & _ & Hx)]; [now apply not_elem_of_empty in X|]. exists i. split; [now apply info_at_some | lia]. }
    unfold MIN_BLOCKS_TO_KEEP in *. destruct (Z.ltb_spec 0 m) as [M|M].
    - apply obind_ok in E1 as (L2 & E2 & E1). apply Ok_inj in E1. injection E1 as <- <-. split; [now split|]. unfold FindFilesToPruneManual, assert_ in E2.
      destruct (_ && _); [|discriminate]. rewrite Et in E2. unfold deref in E2. rewrite Ei in E2. cbn [or_abort obind] in E2. rewrite (u32_small (nHeight t - _)) in E2 by (unfold MIN_BLOCKS_TO_KEEP; lia).
      apply (K (Z.min (u32 m) (nHeight t - 288))); [lia|]. exact (prune_manual_in _ _ _ _ 0 ∅ L2 ltac:(lia) eq_refl E2).
    - apply obind_ok in E1 as (L2 & E2 & E1). apply Ok_inj in E1. injection E1 as <- <-. split; [now split|]. unfold FindFilesToPrune in E2.
      assert (Em : Ok (∅ : gset Z) = Ok L2 -> forall f, f ∈ L2 -> exists i, info_at (vinfoBlockFile (store n)) f = Ok i /\ nHeightLast i <= nHeight t - 288).
      { intros X f F. apply Ok_inj in X. subst L2. now apply not_elem_of_empty in F. }
      rewrite Et in E2. destruct (_ =? 0); [auto|]. unfold deref in E2. rewrite Ei in E2. cbn [or_abort obind] in E2. rewrite (u64_small (nHeight t)) in E2 by lia. destruct (Z.leb_spec (nHeight t) after); [auto|]. destruct (nPruneTarget <=? _); [|auto].
      rewrite (u32_small (nHeight t - _)) in E2 by (unfold MIN_BLOCKS_TO_KEEP; lia). apply (K (nHeight t - 288)); [lia|]. exact (prune_files_in _ _ _ _ _ 0 _ ∅ L2 ltac:(lia) eq_refl E2). }
  destruct G as [G1 G2]. destruct (_ || _); apply Ok_inj in E; injection E as <- <-; split; auto. apply (core_trans _ _ _ G1). now split.
Qed.

(** The records of the entries that are written. *)
Lemma write_index_spec (h : heap) (hash : bytes) (p : ptr) (b : CBlockIndex) : h !! p = Some b -> phashBlock b = Some hash ->
  (forall q c, h !! q = Some c -> phashBlock c = Some hash -> q = p) -> forall l db db', write_index h db l = Ok db' ->
  (In p l -> exists prev, db' !! hash = Some (mkDiskIndex b prev)) /\ (~ In p l -> db' !! hash = db !! hash).
Proof.
  intros Eb Hb U l. induction l as [|q l IH]; intros db db' E; cbn [write_index] in E; [apply Ok_inj in E; subst; cbn; tauto|].
  apply obind_ok in E as (c & Ec & E). apply obind_ok in E as (hq & Eq & E). apply obind_ok in E as (prev & _ & E). unfold deref in Ec.
  destruct (h !! q) as [x|] eqn:Hq; [|discriminate]. apply Ok_inj in Ec. subst x. unfold GetBlockHash in Eq. destruct (phashBlock c) as [hc|] eqn:Pc; [|discriminate]. apply Ok_inj in Eq. subst hq.
  destruct (IH _ _ E) as [I1 I2]. destruct (decide (q = p)) as [->|N].
  - rewrite Eb in Hq. apply Some_inj in Hq. subst c. rewrite Hb in Pc. apply Some_inj in Pc. subst hc. split; [intros _ | cbn; tauto].
    destruct (decide (p ∈ l)) as [I|I]; [apply I1; now apply list_elem_of_In|]. exists prev. rewrite I2 by (rewrite <- list_elem_of_In; exact I). apply lookup_insert_eq.
  - assert (hc <> hash) by (intros ->; apply N; eapply U; eauto). cbn. rewrite lookup_insert_ne in I2 by congruence. split; [intros [X|X]; [congruence | auto] | tauto].
Qed.

(** Entries and their hashes correspond, and what is not dirty is recorded. *)
Record recorded_ok n : Prop := {
  ro_hash hash p b : mapBlockIndex n !! hash = Some p -> index n !! p = Some b -> phashBlock b = Some hash;
  ro_unique hash p b : index n !! p = Some b -> phashBlock b = Some hash -> mapBlockIndex n !! hash = Some p;
  ro_clean hash p b : mapBlockIndex n !! hash = Some p -> index n !! p = Some b -> p ∉ setDirtyBlockIndex n -> exists prev, db_index (pblocktree n) !! hash = Some (mkDiskIndex b prev)
}.

Lemma recorded_core n n' : same_core n n' -> recorded_ok n -> recorded_ok n'.
Proof. intros [E1 E2 E3 E4 E5 E6 E7] [H1 H2 H3]. split; rewrite ?E1, ?E2, ?E4, ?E7; assumption. Qed.

Lemma WriteBatchSync_spec n n' : WriteBatchSync n = Ok n' -> index n' = index n /\ mapBlockIndex n' = mapBlockIndex n /\ files n' = files n /\
  (recorded_ok n -> forall hash p b, mapBlockIndex n !! hash = Some p -> index n !! p = Some b -> exists prev, db_index (pblocktree n') !! hash = Some (mkDiskIndex b prev)).
Proof.
  intros E. unfold WriteBatchSync in E. apply obind_ok in E as ([v infos] & _ & E). apply obind_ok in E as (entries & W & E). apply Ok_inj in E. subst n'. repeat split.
  intros R hash p b Em Eb. cbn [pblocktree set_store db_index]. assert (Hb := ro_hash n R hash p b Em Eb).
  destruct (write_index_spec (index n) hash p b Eb Hb ltac:(intros q c Hq Hc; assert (X := ro_unique n R hash q c Hq Hc); congruence) _ _ _ W) as [I1 I2].
  destruct (decide (p ∈ setDirtyBlockIndex n)) as [D|D]; [apply I1; apply list_elem_of_In, elem_of_elements, D|].
  rewrite I2; [exact (ro_clean n R hash p b Em Eb D)|]. rewrite <- list_elem_of_In, elem_of_elements. exact D.
Qed.

Definition pruned (removable : Z -> bool) (L : gset Z) : gset Z := gone removable (merge_sort Z.le (elements L)).

Lemma pruned_in (removable : Z -> bool) (L : gset Z) (f : Z) : f ∈ pruned removable L <-> f ∈ L /\ removable f = true.
Proof. unfold pruned, gone. rewrite elem_of_list_to_set, list_elem_of_In, filter_In, <- list_elem_of_In, merge_sort_Permutation, elem_of_elements. reflexivity. Qed.

Lemma edit_same (fs : Disk.files) (pos : CDiskBlockPos) (f : Z) (file : bytes) : fs !! f = Some file -> edit fs pos (fun x => x) !! f = Some file.
Proof.
  intros E. unfold edit, OpenDiskFile. destruct (pos_IsNull pos); [exact E|]. destruct (decide (f = pos_nFile pos)) as [->|N].
  - rewrite E. apply lookup_insert_eq.
  - destruct (fs !! pos_nFile pos); now rewrite lookup_insert_ne by congruence.
Qed.

(** What [write_blocks] does: the entries and the files of the pruned files go, all others stay, and
    the database has the entries as they were before. *)
Record blocks_written (removable : Z -> bool) (L : gset Z) n n' : Prop := {
  bw_map : mapBlockIndex n' = mapBlockIndex n;
  bw_entries : entries_pruned (pruned removable L) n n';
  bw_kept f file : f ∉ pruned removable L -> (blk (files n) !! f = Some file -> blk (files n') !! f = Some file) /\ (rev (files n) !! f = Some file -> rev (files n') !! f = Some file);
  bw_gone f : f ∈ pruned removable L -> blk (files n') !! f = None;
  bw_db hash p b : recorded_ok n -> mapBlockIndex n !! hash = Some p -> index n !! p = Some b -> exists prev, db_index (pblocktree n') !! hash = Some (mkDiskIndex b prev)
}.

Lemma blocks_written_core (removable : Z -> bool) (L : gset Z) n0 n n' n1 : same_core n0 n -> same_core n' n1 -> blocks_written removable L n n' -> blocks_written removable L n0 n1.
Proof.
  intros C C' [M Ent K G D]. assert (C0 := C). destruct C as [E1 E2 E3 E4 E5 E6 E7], C' as [F1 F2 F3 F4 F5 F6 F7]. split.
  - congruence.
  - unfold entries_pruned in *. rewrite F1, <- E1, <- E2. exact Ent.
  - rewrite F6, <- E6. exact K.
  - rewrite F6. exact G.
  - intros hash p b R. rewrite F7, <- E1, <- E2. apply D. exact (recorded_core _ _ C0 R).
Qed.

Lemma write_blocks_spec (removable : Z -> bool) n (L : gset Z) (now : Z) n' : write_blocks removable n L now = Ok n' -> blocks_written removable L n n'.
Proof.
  intros E. unfold write_blocks in E. apply obind_ok in E as (d & Ed & E). apply obind_ok in E as (n1 & E1 & E). apply obind_ok in E as (n2 & E2 & E). apply Ok_inj in E.
  unfold FlushBlockFile in Ed. apply Ok_inj in Ed. subst d. destruct (WriteBatchSync_spec _ _ E1) as (I1 & M1 & F1 & D1). cbn [index mapBlockIndex files set_store] in *.
  assert (U : same_node n1 n2 /\ entries_pruned (pruned removable L) n1 n2 /\ (forall f, blk (files n2) !! f = if bool_decide (f ∈ pruned removable L) then None else blk (files n1) !! f) /\
    (forall f, rev (files n2) !! f = if bool_decide (f ∈ pruned removable L) then None else rev (files n1) !! f)).
  { case_bool_decide as B; cbn [negb] in E2; [|exact (unlink_files_spec removable _ _ _ E2)]. apply Ok_inj in E2. subst n2.
    assert (N : forall f, f ∉ pruned removable L) by (intros f F; apply pruned_in in F as [F _]; subst L; now apply not_elem_of_empty in F).
    split; [apply same_refl|]. split; [split; [auto|]; intros p b Eb; exists b; repeat split; auto; intros F; now apply N in F|].
    split; intros f; rewrite bool_decide_eq_false_2 by apply N; reflexivity. }
  destruct U as ([S1 S2 S3] & Ent & B & R). apply (blocks_written_core removable L n n n2 n'); [now split | subst n'; now split|]. split.
  - congruence.
  - unfold entries_pruned in *. rewrite <- I1, <- M1. exact Ent.
  - intros f file N. rewrite B, R, bool_decide_eq_false_2 by exact N. rewrite F1. cbn [blk rev]. split; apply edit_same.
  - intros f F. now rewrite B, bool_decide_eq_true_2.
  - intros hash p b Ro. rewrite S3. apply D1. destruct Ro as [H1 H2 H3]. split; assumption.
Qed.

(** A flush that succeeds has written the blocks or has chosen no file. *)
Lemma FlushStateToDisk_spec (fPruneMode fReindex : bool) (target after nCoinCacheUsage maxMempool : Z) (space removable : Z -> bool) n (state : CValidationState) mode (m usage cacheSize now : Z) n' state' ok :
  FlushStateToDisk fPruneMode fReindex target after nCoinCacheUsage maxMempool space removable n state mode m usage cacheSize now = Ok (n', state', ok) ->
  exists n0 L, find_files fPruneMode fReindex target after n m = Ok (n0, L) /\ (blocks_written removable L n0 n' \/ same_core n0 n' /\ (ok = true -> L = ∅)).
Proof.
  intros E. unfold FlushStateToDisk in E. apply obind_ok in E as ([n0 L] & E0 & E). exists n0, L. split; [exact E0|]. revert E.
  set (n1 := set_written _ _ _ _ _ _). assert (C1 : same_core n0 n1) by now split. clearbody n1. set (full := is_always mode || _ || _ || _ || _). set (pw := is_periodic mode && _).
  assert (Fl : full = false -> L = ∅) by (unfold full; intros F; apply orb_false_iff in F as [_ F]; apply negb_false_iff, bool_decide_eq_true_1 in F; exact F). clearbody full pw.
  destruct (_ && negb (space 0)); intros E; [apply Ok_inj in E; injection E as <- <- <-; right; split; [exact C1 | discriminate]|]. apply obind_ok in E as (n2 & E2 & E).
  assert (W : blocks_written removable L n0 n2 \/ same_core n0 n2 /\ L = ∅).
  { destruct (full || pw) eqn:B; [left; apply (blocks_written_core removable L n0 n1 n2 n2 C1); [now split | exact (write_blocks_spec _ _ _ _ _ E2)]|].
    apply Ok_inj in E2. subst n2. apply orb_false_iff in B as [B _]. right. auto. }
  clear E2. assert (C2 : same_core n2 n').
  { destruct (_ && _); [apply Ok_inj in E; injection E as <- _ _; now split|]. apply obind_ok in E as ([n3 ok3] & E3 & E). apply (core_trans n2 n3).
    - destruct full; [|apply Ok_inj in E3; injection E3 as <- _; now split]. apply obind_ok in E3 as ([coins r] & _ & E3). apply Ok_inj in E3. injection E3 as <- _. now split.
    - destruct (negb ok3); [apply Ok_inj in E; injection E as <- _ _; now split|]. destruct (full || _); [|apply Ok_inj in E; injection E as <- _ _; now split].
      apply obind_ok in E as (loc & _ & E). apply Ok_inj in E. injection E as <- _ _. now split. }
  destruct W as [W|[W ->]]; [left; apply (blocks_written_core removable L n0 n0 n2 n'); [now split | exact C2 | exact W] | right; split; [exact (core_trans _ _ _ W C2) | reflexivity]].
Qed.
End Unlink.

(** An example: three blocks, the first in a file of its own, and a view without coins. *)
#[local] Instance no_coins : CCoinsView unit := {| view_GetCoin v _ := (v, None); view_GetBestBlock v := (v, []); view_BatchWrite v _ _ := Ok (v, true) |}.

Definition sample_entry (hash : Z) (prev : option ptr) (height file status : Z) : CBlockIndex :=
  set_status (set_file (set_hash (set_links (CBlockIndex_of (mkHeader 1 [] [] 0 0 0)) prev None height) (Some (repeat hash 32))) 1 1 file 8 0 CDiskBlockMetaData_new) status.

Definition sample_node : node (V := unit) :=
  mkNode {[1%positive := sample_entry 1 None 0 0 (3 + 8); 2%positive := sample_entry 2 None 400 1 (3 + 8)]}
    {[repeat 1 32 := 1%positive; repeat 2 32 := 2%positive]} (mkChain (repeat None 400 ++ [Some 2%positive])%list (Some 2%positive)) {[1%positive; 2%positive]} []
    (mkStore [mkInfo 1 0 0 0 0 100 0; mkInfo 1 400 400 0 0 100 0] 1 ∅) (mkDisk {[0 := [1]; 1 := [2]]} {[0 := [3]; 1 := [4]]}) (mkTree ∅ ∅ None false)
    (CCoinsViewCache_of tt) false false 0 0 0 [].

Definition sample_flush : outcome (node * CValidationState * bool) :=
  FlushStateToDisk true false 1000 100 0 0 (fun _ => true) (fun _ => true) sample_node CValidationState_new FLUSH_STATE_NONE 50 0 0 7.
Definition sample_found : outcome (node * gset Z) := find_files true false 1000 100 sample_node 50.

Lemma sample_high : 0 <= nHeight (sample_entry 2 None 400 1 (3 + 8)) < 2 ^ 31 /\ MIN_BLOCKS_TO_KEEP <= nHeight (sample_entry 2 None 400 1 (3 + 8)).
Proof. vm_compute. repeat split; discriminate. Qed.

Lemma sample_flushed : exists n' state', sample_flush = Ok (n', state', true) /\ blk (files n') !! 0 = None.
Proof.
  assert (R : match sample_flush with Ok (n', _, ok) => ok && bool_decide (blk (files n') !! 0 = None) | _ => false end = true) by (vm_compute; reflexivity).
  destruct sample_flush as [[[n' state'] ok]|?|?| |]; try discriminate R. apply andb_true_iff in R as [-> R]. exists n', state'. split; [reflexivity | now apply bool_decide_eq_true_1 in R].
Qed.

Lemma sample_files : exists n0 L, sample_found = Ok (n0, L) /\ same_core sample_node n0 /\ 0 ∈ L.
Proof.
  assert (R : match sample_found with Ok (_, L) => bool_decide (0 ∈ L) | _ => false end = true) by (vm_compute; reflexivity).
  destruct sample_found as [[n0 L]|?|?| |] eqn:E; try discriminate R. exists n0, L. split; [reflexivity|]. split; [|now apply bool_decide_eq_true_1 in R].
  exact (proj1 (find_files_spec _ _ _ _ _ _ _ _ 2 (sample_entry 2 None 400 1 (3 + 8)) E eq_refl eq_refl (proj1 sample_high) (or_introl (proj2 sample_high)))).
Qed.

(** C18: pruning keeps the recent blocks. Suppose that the tip has at least height 288, or that pruning
    is automatic and starts only above a height of at least 287 (every network's [nPruneAfterHeight] is
    1000 or more; the manual pruning of [FindFilesToPruneManual] subtracts 288 from the height of the
    tip as an unsigned number and relies on its caller for this). When the statistics of every file
    cover the heights of its blocks, a flush, whatever it prunes and whether it succeeds, leaves every
    block that has data and is less than 288 below the tip as it is in the index, with its block file
    and its undo file; and if the block files of all blocks with data were there before, they are
    afterwards. *)
Theorem pruning_keeps_recent {V : Type} `{CCoinsView V} (fPruneMode fReindex : bool) (target after nCoinCacheUsage maxMempool : Z) (space removable : Z -> bool)
    (n n' : node (V := V)) (state state' : CValidationState) (mode : FlushStateMode) (m usage cacheSize now : Z) (ok : bool) (tip : ptr) (t : CBlockIndex) :
  FlushStateToDisk fPruneMode fReindex target after nCoinCacheUsage maxMempool space removable n state mode m usage cacheSize now = Ok (n', state', ok) ->
  Tip (chainActive n) = Some tip -> index n !! tip = Some t -> 0 <= nHeight t < 2 ^ 31 -> MIN_BLOCKS_TO_KEEP <= nHeight t \/ m <= 0 /\ MIN_BLOCKS_TO_KEEP - 1 <= after ->
  (forall p b i, index n !! p = Some b -> hasData (nStatus b) = true -> info_at (vinfoBlockFile (store n)) (nFile b) = Ok i -> nHeight b <= nHeightLast i) ->
  (forall p b, index n !! p = Some b -> hasData (nStatus b) = true -> nHeight t - MIN_BLOCKS_TO_KEEP < nHeight b -> index n' !! p = Some b /\ forall file,
    (blk (files n) !! nFile b = Some file -> blk (files n') !! nFile b = Some file) /\ (rev (files n) !! nFile b = Some file -> rev (files n') !! nFile b = Some file)) /\
  ((forall hash p b, mapBlockIndex n !! hash = Some p -> index n !! p = Some b -> hasData (nStatus b) = true -> is_Some (blk (files n) !! nFile b)) ->
   forall hash p b, mapBlockIndex n' !! hash = Some p -> index n' !! p = Some b -> hasData (nStatus b) = true -> is_Some (blk (files n') !! nFile b)).
Proof.
  intros E Et Ei Ht Hp Cov. destruct (FlushStateToDisk_spec _ _ _ _ _ _ _ _ _ _ _ _ _ _ _ _ _ _ E) as (n0 & L & F & W).
  destruct (find_files_spec _ _ _ _ _ _ _ _ _ _ F Et Ei Ht Hp) as [C HL].
  assert (W' : blocks_written removable L n n' \/ same_core n n') by (destruct W as [W|[W _]]; [left; apply (blocks_written_core removable L n n0 n' n' C); [now split | exact W] | right; exact (core_trans _ _ _ C W)]).
  clear W E F C n0. destruct W' as [[M [No Ent] K G _]|[C1 C2 C3 C4 C5 C6 C7]]; [|rewrite C1, C2, C6; split; [auto | auto]]. split.
  - intros p b Eb D Hb. assert (N : nFile b ∉ pruned removable L).
    { intros I. apply pruned_in in I as [I _]. destruct (HL _ I) as (i & Ex & Hi). specialize (Cov p b i Eb D Ex). lia. }
    destruct (Ent p b Eb) as (b' & E' & Same & _). rewrite (Same N) in E'. split; [exact E'|]. intros file. exact (K _ file N).
  - intros Pr hash p b' Em Eb' D. rewrite M in Em. destruct (index n !! p) as [b|] eqn:Eb; [|rewrite (No p Eb) in Eb'; discriminate].
    destruct (Ent p b Eb) as (x & Ex & Same & Or & Cl). rewrite Eb' in Ex. apply Some_inj in Ex. subst x. destruct (decide (nFile b ∈ pruned removable L)) as [I|I].
    + rewrite (Cl I (ex_intro _ hash Em)) in D. discriminate.
    + rewrite (Same I) in *. destruct (Pr hash p b Em Eb D) as [file Ef]. exists file. now apply (K _ file I).
Qed.

Lemma pruning_keeps_recent_witness : exists n' state', sample_flush = Ok (n', state', true) /\ index n' !! 2%positive = Some (sample_entry 2 None 400 1 (3 + 8)) /\ blk (files n') !! 0 = None.
Proof.
  destruct sample_flushed as (n' & state' & E & B). exists n', state'. split; [exact E|]. split; [|exact B].
  assert (X1 : Tip (chainActive sample_node) = Some 2%positive) by reflexivity.
  assert (X2 : index sample_node !! 2%positive = Some (sample_entry 2 None 400 1 (3 + 8))) by reflexivity.
  assert (X3 : hasData (nStatus (sample_entry 2 None 400 1 (3 + 8))) = true) by reflexivity.
  destruct (pruning_keeps_recent _ _ _ _ _ _ _ _ _ _ _ _ _ _ _ _ _ _ 2 (sample_entry 2 None 400 1 (3 + 8)) E X1 X2 (proj1 sample_high) (or_introl (proj2 sample_high))) as [K _]; [| now apply (K 2%positive)].
  intros p b i Eb _ Ei. cbn [sample_node index] in Eb. apply lookup_insert_Some in Eb as [[<- <-]|[_ Eb]]; [vm_compute in Ei; apply Ok_inj in Ei; subst i; cbn; lia|].
  apply lookup_singleton_Some in Eb as [<- <-]. vm_compute in Ei. apply Ok_inj in Ei. subst i. cbn. lia.
Defined.

(** C36: a pruned file is removed before the database knows. After a flush that succeeds and removed the
    file of a block, memory says that the block has no data, but the record of the block in the
    database still refers to the file; a node that stops before the next flush finds at its start that
    the file is missing, and [LoadBlockIndexDB] fails. *)
Theorem pruned_file_still_recorded {V : Type} `{CCoinsView V} (fPruneMode fReindex : bool) (target after nCoinCacheUsage maxMempool : Z) (space removable : Z -> bool)
    (n n0 n' : node (V := V)) (state state' : CValidationState) (mode : FlushStateMode) (m usage cacheSize now : Z) (L : gset Z) (hash : bytes) (p : ptr) (b : CBlockIndex) :
  FlushStateToDisk fPruneMode fReindex target after nCoinCacheUsage maxMempool space removable n state mode m usage cacheSize now = Ok (n', state', true) ->
  find_files fPruneMode fReindex target after n m = Ok (n0, L) -> same_core n n0 -> recorded_ok n ->
  mapBlockIndex n !! hash = Some p -> index n !! p = Some b -> hasData (nStatus b) = true -> nFile b ∈ L -> removable (nFile b) = true ->
  blk (files n') !! nFile b = None /\ (exists b', index n' !! p = Some b' /\ hasData (nStatus b') = false) /\ all_files_present (recorded (pblocktree n')) (files n') = false.
Proof.
  intros E F C R Em Eb D I Rm. destruct (FlushStateToDisk_spec _ _ _ _ _ _ _ _ _ _ _ _ _ _ _ _ _ _ E) as (n1 & L1 & F1 & W). rewrite F in F1. apply Ok_inj in F1. injection F1 as <- <-.
  destruct W as [W|[_ W]]; [|rewrite (W eq_refl) in I; now apply not_elem_of_empty in I]. apply (blocks_written_core removable L n n0 n' n' C) in W; [|now split].
  destruct W as [M [No Ent] K G Db]. assert (Ip : nFile b ∈ pruned removable L) by now apply pruned_in.
  split; [exact (G _ Ip)|]. split; [destruct (Ent p b Eb) as (b' & E' & _ & _ & Cl); exists b'; eauto|].
  destruct (Db hash p b R Em Eb) as [prev Ed]. unfold all_files_present, recorded. apply not_true_is_false. intros A. rewrite forallb_forall in A.
  specialize (A b). rewrite D in A. cbn [negb orb] in A. assert (Pb : bool_decide (is_Some (OpenDiskFile (blk (files n')) (mkPos (nFile b) 0) true)) = true).
  { apply A. apply (in_map (fun e => disk_index (snd e)) _ (hash, mkDiskIndex b prev)). now apply list_elem_of_In, elem_of_map_to_list. }
  apply bool_decide_eq_true_1 in Pb. unfold OpenDiskFile in Pb. cbn [pos_nFile] in Pb. rewrite (G _ Ip) in Pb. destruct (pos_IsNull _); now destruct Pb.
Qed.

Lemma sample_recorded : recorded_ok sample_node.
Proof.
  assert (I : forall p b, index sample_node !! p = Some b -> p = 1%positive /\ b = sample_entry 1 None 0 0 (3 + 8) \/ p = 2%positive /\ b = sample_entry 2 None 400 1 (3 + 8)).
  { intros p b E. cbn [sample_node index] in E. apply lookup_insert_Some in E as [[<- <-]|[_ E]]; [now left|]. apply lookup_singleton_Some in E as [<- <-]. now right. }
  split.
  - intros hash p b Em Eb. cbn [sample_node mapBlockIndex] in Em. apply lookup_insert_Some in Em as [[<- <-]|[_ Em]]; [|apply lookup_singleton_Some in Em as [<- <-]];
      apply I in Eb as [[Ep ->]|[Ep ->]]; try discriminate Ep; reflexivity.
  - intros hash p b Eb Eh. apply I in Eb as [[-> ->]|[-> ->]]; apply Some_inj in Eh; subst hash; vm_compute; reflexivity.
  - intros hash p b _ Eb N. exfalso. apply N. apply I in Eb as [[-> _]|[-> _]]; vm_compute; reflexivity.
Qed.

Lemma pruned_file_still_recorded_witness : exists n' state', sample_flush = Ok (n', state', true) /\ all_files_present (recorded (pblocktree n')) (files n') = false.
Proof.
  destruct sample_flushed as (n' & state' & E & _), sample_files as (n0 & L & F & G1 & G2). exists n', state'. split; [exact E|].
  assert (X1 : mapBlockIndex sample_node !! repeat 1 32 = Some 1%positive) by (vm_compute; reflexivity).
  assert (X2 : index sample_node !! 1%positive = Some (sample_entry 1 None 0 0 (3 + 8))) by reflexivity.
  assert (X3 : hasData (nStatus (sample_entry 1 None 0 0 (3 + 8))) = true) by reflexivity.
  now apply (pruned_file_still_recorded _ _ _ _ _ _ _ _ _ _ _ _ _ _ _ _ _ _ L (repeat 1 32) 1 (sample_entry 1 None 0 0 (3 + 8)) E F G1 sample_recorded X1 X2 X3 G2).
Defined.

(** ** Properties of the statistics *)

Record info_ok (i : CBlockFileInfo) : Prop := {
  ok_blocks : 0 <= nBlocks i < 2 ^ 32;
  ok_first : 0 <= nHeightFirst i < 2 ^ 32;
  ok_last : 0 <= nHeightLast i < 2 ^ 32;
  ok_time_first : 0 <= nTimeFirst i < 2 ^ 64;
  ok_time_last : 0 <= nTimeLast i < 2 ^ 64;
  ok_size : 0 <= nSize i < 2 ^ 64;
  ok_undo : 0 <= nUndoSize i < 2 ^ 64
}.

Lemma varint32 (n : Z) : 0 <= n < 2 ^ 32 -> exists d, WriteVarInt 32 n = Some d /\ forall rest, ReadVarInt 32 (d ++ rest) = Some (n, rest).
Proof.
  intros Hn. destruct (ser_some (c := varint_codec 32) (Lawful := varint_codec_lawful 32 (or_introl eq_refl)) n Hn) as (d & E & _).
  exists d. split; [exact E|]. intros rest. exact (ReadVarInt_WriteVarInt 32 n d rest (or_introl eq_refl) Hn E).
Qed.

Lemma varint64 (n : Z) : 0 <= n < 2 ^ 64 -> exists d, WriteVarInt 64 n = Some d /\ forall rest, ReadVarInt 64 (d ++ rest) = Some (n, rest).
Proof.
  intros Hn. destruct (ser_some (c := varint_codec 64) (Lawful := varint_codec_lawful 64 (or_intror eq_refl)) n Hn) as (d & E & _).
  exists d. split; [exact E|]. intros rest. exact (ReadVarInt_WriteVarInt 64 n d rest (or_intror eq_refl) Hn E).
Qed.

Lemma legacy_range (n : Z) : 0 <= n -> 0 <= legacy n < 2 ^ 32 /\ legacy n = Z.min n max32.
Proof. intros Hn. unfold legacy, max32. destruct (Z.leb_spec 0xffffffff n); lia. Qed.

(** What the optional 64-bit size adds. *)
Lemma long_size (n : Z) : 0 <= n < 2 ^ 64 -> exists d, (if legacy n =? max32 then WriteVarInt 64 n else Some []) = Some d /\
  forall rest, (if legacy n =? max32 then ReadVarInt 64 else rret (legacy n)) (d ++ rest) = Some (n, rest).
Proof.
  intros Hn. destruct (Z.eqb_spec (legacy n) max32) as [E|E]; [now apply varint64|]. exists []. split; [reflexivity|]. intros rest.
  unfold rret. do 2 f_equal. destruct (legacy_range n ltac:(lia)). unfold max32 in *. lia.
Qed.

Lemma info_codec (i : CBlockFileInfo) : info_ok i ->
  exists data tail, write_info i = Some (data ++ tail)%list /\ (nUndoSize i <> max32 -> tail = []) /\
    (forall rest, read_info CBlockFileInfo_null (data ++ tail ++ rest)%list = Some (set_sizes i (nSize i) (Z.min (nUndoSize i) max32), (tail ++ rest)%list)) /\
    info_written i = set_sizes i (nSize i) (Z.min (nUndoSize i) max32).
Proof.
  intros [Hb Hf Hl Htf Htl Hs Hu]. destruct (legacy_range (nSize i) ltac:(lia)) as [Ls Ms]. destruct (legacy_range (nUndoSize i) ltac:(lia)) as [Lu Mu].
  destruct (varint32 _ Hb) as (d1 & W1 & R1), (varint32 _ Ls) as (d2 & W2 & R2), (varint32 _ Lu) as (d3 & W3 & R3), (varint32 _ Hf) as (d4 & W4 & R4),
    (varint32 _ Hl) as (d5 & W5 & R5), (varint64 _ Htf) as (d6 & W6 & R6), (varint64 _ Htl) as (d7 & W7 & R7), (long_size _ Hs) as (d8 & W8 & R8).
  assert (T : exists tail, (if nUndoSize i =? max32 then WriteVarInt 64 (nUndoSize i) else Some []) = Some tail /\ (nUndoSize i <> max32 -> tail = [])).
  { destruct (Z.eqb_spec (nUndoSize i) max32) as [E|E]; [|now exists []]. destruct (varint64 _ Hu) as (d & W & _). exists d. tauto. }
  destruct T as (tail & W9 & T). exists (d1 ++ d2 ++ d3 ++ d4 ++ d5 ++ d6 ++ d7 ++ d8)%list, tail. repeat split; [|exact T| |].
  - unfold write_info. rewrite W1, W2, W3, W4, W5, W6, W7, W8, W9. cbn [wbind]. now rewrite <- !app_assoc.
  - intros rest. unfold read_info, rbind. rewrite <- !app_assoc, R1, R2, R3, R4, R5, R6, R7, R8. cbn [nUndoSize CBlockFileInfo_null]. now rewrite Mu.
  - unfold info_written. f_equal; destruct (Z.eqb_spec (legacy (nSize i)) max32), (Z.eqb_spec (nUndoSize i) max32); unfold max32 in *; lia.
Qed.

(** the statistics of a block file survive the database except for one member. Every value is
    written, and what is read back into a fresh object is the same with the size of the undo file
    cut to 32 bits: [SerializationOp] tests the 64-bit member where it should test the 32-bit one.
    The same cut is made to the object in memory that is written. *)
Theorem file_info_roundtrip (i : CBlockFileInfo) : info_ok i ->
  exists data tail, write_info i = Some (data ++ tail)%list /\ (nUndoSize i <> max32 -> tail = []) /\
    (forall rest, read_info CBlockFileInfo_null (data ++ tail ++ rest)%list = Some (set_sizes i (nSize i) (Z.min (nUndoSize i) max32), (tail ++ rest)%list)) /\
    info_written i = set_sizes i (nSize i) (Z.min (nUndoSize i) max32).
Proof. apply info_codec. Qed.

Lemma file_info_roundtrip_witness : exists data tail, write_info (mkInfo 1 5 5 9 9 100 (2 ^ 32 + 7)) = Some (data ++ tail)%list /\
  forall rest, exists t, read_info CBlockFileInfo_null (data ++ tail ++ rest)%list = Some (mkInfo 1 5 5 9 9 100 (2 ^ 32 - 1), t).
Proof.
  destruct (file_info_roundtrip (mkInfo 1 5 5 9 9 100 (2 ^ 32 + 7))) as (data & tail & W & _ & R & _); [constructor; cbn; lia|].
  exists data, tail. split; [exact W|]. intros rest. exists (tail ++ rest)%list. exact (R rest).
Defined.

(** ** Restart *)

(** The record of file [n] is read as [i]. *)
Definition stored (db : gmap Z bytes) (n : nat) (i : CBlockFileInfo) : Prop := ReadBlockFileInfo db (Z.of_nat n) CBlockFileInfo_null = Some i.

Lemma stored_written (db : gmap Z bytes) (n : Z) (i : CBlockFileInfo) (data : bytes) : info_ok i -> write_info i = Some data -> 0 <= n ->
  stored (<[n := data]> db) (Z.to_nat n) (info_written i).
Proof.
  intros Oi W Hn. destruct (info_codec i Oi) as (d & tail & W' & _ & R & E). rewrite W in W'. apply Some_inj in W'. subst data.
  unfold stored, ReadBlockFileInfo. rewrite Z2Nat.id, lookup_insert_eq by exact Hn. specialize (R []). rewrite app_nil_r in R. now rewrite R, E.
Qed.

Lemma write_infos_spec (l : list Z) : forall v db v' db', NoDup l -> Forall info_ok v -> write_infos v db l = Ok (v', db') ->
  length v' = length v /\ (forall n i, In (Z.of_nat n) l -> v' !! n = Some i -> stored db' n i) /\
  (forall n, ~ In n l -> db' !! n = db !! n) /\ (forall n, ~ In (Z.of_nat n) l -> v' !! n = v !! n) /\ (forall n, In n l -> 0 <= n < len v).
Proof.
  induction l as [|k l IH]; intros v db v' db' Nd Ov E; cbn [write_infos] in E.
  { apply Ok_inj in E. injection E as <- <-. split; [reflexivity|]. split; [intros n i []|]. split; [reflexivity|]. split; [reflexivity | intros n []]. }
  apply Stdlib.Lists.List.NoDup_cons_iff in Nd as [Nk Nl]. apply obind_ok in E as (i & Ei & E). apply obind_ok in E as (data & Ed & E).
  destruct (write_info i) as [x|] eqn:W; [|discriminate]. apply Ok_inj in Ed. subst x. apply info_at_lookup in Ei as [K Ei].
  assert (Oi : info_ok i) by (rewrite Stdlib.Lists.List.Forall_forall in Ov; apply Ov, list_elem_of_In, list_elem_of_lookup; eauto).
  assert (Ow : info_ok (info_written i)).
  { destruct (info_codec i Oi) as (_ & _ & _ & _ & _ & ->). destruct Oi. split; cbn [set_sizes nBlocks nHeightFirst nHeightLast nTimeFirst nTimeLast nSize nUndoSize]; auto. unfold max32. lia. }
  destruct (IH _ _ _ _ Nl (Forall_insert _ _ _ _ Ov Ow) E) as (L & St & Db & Ve & Rg). rewrite length_insert in L. split; [exact L|].
  assert (Kl : (Z.to_nat k < length v)%nat) by now apply lookup_lt_Some in Ei. split; [|split; [|split]].
  - intros n j [Hn|Hn] Ej; [|exact (St n j Hn Ej)]. subst k. rewrite Nat2Z.id in *. rewrite Ve, list_lookup_insert_eq in Ej by assumption. apply Some_inj in Ej. subst j.
    unfold stored, ReadBlockFileInfo. rewrite Db by exact Nk. assert (S1 := stored_written db (Z.of_nat n) i data Oi W K). unfold stored, ReadBlockFileInfo in S1. now rewrite Nat2Z.id in S1.
  - intros n Hn. rewrite Db by (intros X; apply Hn; now right). apply lookup_insert_ne. intros ->. apply Hn. now left.
  - intros n Hn. rewrite Ve by (intros X; apply Hn; now right). apply list_lookup_insert_ne. intros X. apply Hn. left. lia.
  - intros n [<-|Hn]; [unfold len; lia|]. specialize (Rg n Hn). unfold len in *. now rewrite length_insert in Rg.
Qed.

Lemma load_more_spec (db : gmap Z bytes) (v' : list CBlockFileInfo) : (forall n i, v' !! n = Some i -> stored db n i) -> db !! len v' = None ->
  forall fuel k, (k <= length v')%nat -> (length v' - k <= fuel)%nat -> load_more (S fuel) db (firstn k v') (Z.of_nat k) = v'.
Proof.
  intros St No. induction fuel as [|fuel IH]; intros k Hk Hf.
  - assert (k = length v') by lia. subst k. cbn [load_more]. unfold ReadBlockFileInfo. fold (len v'). rewrite No. apply firstn_all.
  - destruct (v' !! k) as [i|] eqn:E.
    + cbn [load_more]. assert (S1 := St k i E). unfold stored in S1. rewrite S1. rewrite <- (take_S_r v' k i E). apply lookup_lt_Some in E. replace (Z.of_nat k + 1) with (Z.of_nat (S k)) by lia. apply IH; lia.
    + apply lookup_ge_None in E. assert (k = length v') by lia. subst k. cbn [load_more]. unfold ReadBlockFileInfo. fold (len v'). rewrite No. apply firstn_all.
Qed.

Lemma repeat_lookup {A} (x : A) (k n : nat) : (n < k)%nat -> repeat x k !! n = Some x.
Proof. revert n. induction k as [|k IH]; intros [|n] L; cbn; [lia | lia | reflexivity | apply IH; lia]. Qed.

Lemma load_known_spec (db : gmap Z bytes) (v' : list CBlockFileInfo) (k : nat) : (forall n i, v' !! n = Some i -> stored db n i) -> (k <= length v')%nat ->
  load_known db (repeat CBlockFileInfo_null k) = firstn k v'.
Proof.
  intros St Hk. unfold load_known. apply list_eq. intros n. rewrite list_lookup_imap. destruct (decide (n < k)%nat) as [L|L].
  - rewrite lookup_take_lt by exact L. destruct (lookup_lt_is_Some_2 v' n) as [i E]; [lia|]. rewrite E. rewrite repeat_lookup by exact L. cbn. specialize (St n i E). unfold stored in St. now rewrite St.
  - rewrite lookup_take_ge by lia. assert (R : repeat CBlockFileInfo_null k !! n = None) by (apply lookup_ge_None; rewrite repeat_length; lia). now rewrite R.
Qed.

(** As many records as files. *)
Lemma stored_size (db : gmap Z bytes) (v : list CBlockFileInfo) : (forall n i, v !! n = Some i -> stored db n i) -> (length v <= size db)%nat.
Proof.
  intros St. assert (Sub : (list_to_set (seqZ 0 (len v)) : gset Z) ⊆ dom db).
  { intros x X. apply elem_of_list_to_set, elem_of_seqZ in X. destruct (lookup_lt_is_Some_2 v (Z.to_nat x)) as [i E]; [unfold len in X; lia|]. specialize (St _ _ E).
    unfold stored, ReadBlockFileInfo in St. rewrite Z2Nat.id in St by lia. apply elem_of_dom. destruct (db !! x); [now eexists | discriminate]. }
  apply subseteq_size in Sub. rewrite size_list_to_set, length_seqZ, size_dom in Sub by apply NoDup_seqZ. unfold len in Sub. lia.
Qed.

(** a restart finds the file statistics of the last flush. When the statistics that are not dirty
    are already in the database, and the database knows no further file, [LoadBlockFileInfo] on what
    [WriteBatchSync] wrote gives the statistics that the running node has after the write. *)
Theorem restart_reads_file_infos {V : Type} (n n' : node (V := V)) :
  WriteBatchSync n = Ok n' -> Forall info_ok (vinfoBlockFile (store n)) -> 0 <= nLastBlockFile (store n) < len (vinfoBlockFile (store n)) ->
  (forall k i, vinfoBlockFile (store n) !! k = Some i -> Z.of_nat k ∈ setDirtyFileInfo (store n) \/ stored (db_files (pblocktree n)) k i) ->
  (forall k, len (vinfoBlockFile (store n)) <= k -> db_files (pblocktree n) !! k = None) ->
  exists last, db_last (pblocktree n') = Some last /\ LoadBlockFileInfo CBlockFileInfoStore_new last (db_files (pblocktree n')) = store n'.
Proof.
  intros E Ov La Sync No. unfold WriteBatchSync in E. apply obind_ok in E as ([v db] & W & E). apply obind_ok in E as (entries & _ & E). apply Ok_inj in E. subst n'.
  cbn [pblocktree db_last db_files store set_store set_index]. exists (nLastBlockFile (store n)). split; [reflexivity|].
  assert (Nd : Stdlib.Lists.List.NoDup (merge_sort Z.le (elements (setDirtyFileInfo (store n))))) by (rewrite merge_sort_Permutation; apply NoDup_ListNoDup, NoDup_elements).
  destruct (write_infos_spec _ _ _ _ _ Nd Ov W) as (L & St & Db & Ve & Rg).
  assert (In_dirty : forall k, In k (merge_sort Z.le (elements (setDirtyFileInfo (store n)))) <-> k ∈ setDirtyFileInfo (store n)) by (intros k; rewrite <- list_elem_of_In, merge_sort_Permutation, elem_of_elements; reflexivity).
  assert (All : forall k i, v !! k = Some i -> stored db k i).
  { intros k i Ek. destruct (decide (Z.of_nat k ∈ setDirtyFileInfo (store n))) as [D|D]; [apply St; [now apply In_dirty | exact Ek]|].
    assert (N : ~ In (Z.of_nat k) (merge_sort Z.le (elements (setDirtyFileInfo (store n))))) by (rewrite In_dirty; exact D). rewrite (Ve k N) in Ek. destruct (Sync k i Ek) as [X|X]; [contradiction|].
    unfold stored, ReadBlockFileInfo in *. now rewrite (Db _ N). }
  unfold LoadBlockFileInfo. cbn [vinfoBlockFile CBlockFileInfoStore_new setDirtyFileInfo]. f_equal. unfold resize_infos. cbn [length firstn app]. rewrite firstn_nil, Nat.sub_0_r. cbn [app].
  unfold len in *. rewrite (load_known_spec db v) by (assumption || lia). replace (nLastBlockFile (store n) + 1) with (Z.of_nat (Z.to_nat (nLastBlockFile (store n) + 1))) at 2 by lia.
  apply load_more_spec; [exact All | | lia | assert (Sz := stored_size db v All); lia]. unfold len. rewrite L. rewrite Db; [apply No; lia|]. intros X. specialize (Rg _ X). lia.
Qed.

Lemma restart_reads_file_infos_witness : exists n', WriteBatchSync (set_store sample_node (mkStore [mkInfo 1 0 0 0 0 100 5; mkInfo 1 400 400 0 0 100 7] 1 {[0; 1]}) (mkDisk ∅ ∅) (mkTree ∅ ∅ None false)) = Ok n' /\
  exists last, db_last (pblocktree n') = Some last /\ LoadBlockFileInfo CBlockFileInfoStore_new last (db_files (pblocktree n')) = store n'.
Proof.
  set (n := set_store _ _ _ _). assert (W : exists n', WriteBatchSync n = Ok n') by (eexists; vm_compute; reflexivity). destruct W as [n' W]. exists n'. split; [exact W|].
  apply (restart_reads_file_infos n n' W); [apply Stdlib.Lists.List.Forall_forall; intros i [<-|[<-|[]]]; split; cbn; lia | vm_compute; split; [discriminate | reflexivity] | | intros k _; apply lookup_empty].
  intros [|[|k]] i Ek; [left; vm_compute; reflexivity | left; vm_compute; reflexivity | discriminate].
Defined.
End BlockFiles.
