(* ===== verification/Receive.v ===== *)
(** * The arrival of blocks (src/src/validation.cpp, src/src/chain.h)

    What is done in the index when the transactions of a block have been stored: the block, and those
    that have waited for it, are counted and become candidates for the best chain. *)

From Stdlib Require Import String.
From stdpp Require Import gmap.
From S2P Require Import Prelude Outcome Block ArithUint256 BlockIndex Chain SafeMode ChainState Disk Validation BlockCheck.
Import ArithUint256 Block BlockIndex Chain SafeMode ChainState Disk Validation BlockCheck.

Module Receive.
Local Open Scope Z_scope.
Local Open Scope outcome_scope.

Definition MIN_TTOR_VALIDATION_DISTANCE : Z := 100.

(** [CBlockIndex::SetDiskBlockData]; the clock is not read for the level TRANSACTIONS. *)
Definition SetDiskBlockData (b : CBlockIndex) (transactionsCount : Z) (pos : CDiskBlockPos) (metaData : CDiskBlockMetaData) : CBlockIndex :=
  let b := set_file b (u32 transactionsCount) 0 (pos_nFile pos) (nPos pos) 0 (mDiskBlockMetaData b) in
  let b := set_status b (withData (nStatus b) true) in
  let b := snd (RaiseValidity 0 b BlockValidity.TRANSACTIONS) in
  if negb (forallb (Z.eqb 0) (diskDataHash metaData)) && negb (diskDataSize metaData =? 0) then
    let b := set_file b (nTx b) (nChainTx b) (nFile b) (nDataPos b) (nUndoPos b) metaData in
    set_status b (withDiskBlockMetaData (nStatus b) true)
  else b.

Definition set_id (s : chain_state) (id : Z) : chain_state :=
  mkChainState (cs_st s) (mapBlockIndex s) (chainActive s) (mapBlocksUnlinked s) (pindexBestInvalid s) (pindexBestHeader s) (cs_safe s)
    id (nBlockReverseSequenceId s) (nLastPreciousChainwork s).

(** The transactions up to the predecessor. *)
Definition tx_before (h : heap) (b : CBlockIndex) : outcome Z :=
  match pprev b with Some q => let* c := deref h q in Ok (nChainTx c) | None => Ok 0 end.

(** A round of the loop: the state, and the blocks that have waited for this one. A number past the
    largest [int32_t] cannot be given. *)
Definition link_block (s : chain_state) (pindex : ptr) : outcome (chain_state * list ptr) :=
  let* b := deref (cs_heap s) pindex in
  let* n := tx_before (cs_heap s) b in
  if 2 ^ 31 - 1 <=? nBlockSequenceId s then Abort
  else
    let st := put (cs_st s) pindex (set_sequence b (u32 (n + nTx b)) (nBlockSequenceId s)) in
    let* w := match Tip (chainActive s) with None => Ok false | Some tip => CBlockIndexWorkComparator (st_heap st) pindex tip end in
    let st := if w then st else add_cand st pindex in
    let waits e := ptr_eqb (fst e) (Some pindex) in
    Ok (set_unlinked (set_id (set_st s st) (nBlockSequenceId s + 1)) (List.filter (fun e => negb (waits e)) (mapBlocksUnlinked s)),
        map snd (List.filter waits (mapBlocksUnlinked s))).

(** [while (!queue.empty())] *)
Fixpoint link_queue (fuel : nat) (s : chain_state) (queue : list ptr) : outcome chain_state :=
  match queue with
  | [] => Ok s
  | pindex :: queue =>
      match fuel with
      | O => Abort
      | S fuel => let* r := link_block s pindex in let '(s, more) := r in link_queue fuel s (queue ++ more)
      end
  end.

(** The order of the transactions is checked for blocks far below the tip. *)
Definition ttor_violated (s : chain_state) (block : CBlock) (height : Z) : outcome bool :=
  match Tip (chainActive s) with
  | None => Ok false
  | Some tip =>
      let* t := deref (cs_heap s) tip in
      if MIN_TTOR_VALIDATION_DISTANCE <=? nHeight t - height then let* ok := CheckBlockTTOROrder block in Ok (negb ok) else Ok false
  end.

(** Every round removes a block from the queue and moves the pairs of [mapBlocksUnlinked] that wait for
    it to the queue. *)
Definition ReceivedBlockTransactions (s : chain_state) (block : CBlock) (state : CValidationState) (pindexNew : ptr) (pos : CDiskBlockPos) (metaData : CDiskBlockMetaData)
    : outcome (chain_state * CValidationState * bool) :=
  let* b := deref (cs_heap s) pindexNew in
  let* violated := ttor_violated s block (nHeight b) in
  if violated then
    let s := set_st s (erase (dirty (put (cs_st s) pindexNew (set_status b (withFailed (nStatus b) true))) pindexNew) pindexNew) in
    let* s := InvalidateChain s pindexNew in
    let* s := InvalidChainFound s pindexNew in
    Ok (s, Invalid state 0 "bad-blk-ttor", false)
  else
    let s := set_st s (dirty (put (cs_st s) pindexNew (SetDiskBlockData b (len (vtx block)) pos metaData)) pindexNew) in
    match pprev b with
    | None => let* s := link_queue (S (length (mapBlocksUnlinked s))) s [pindexNew] in Ok (s, state, true)
    | Some q =>
        let* c := deref (cs_heap s) q in
        if negb (nChainTx c =? 0) then let* s := link_queue (S (length (mapBlocksUnlinked s))) s [pindexNew] in Ok (s, state, true)
        else Ok (if isValid (nStatus c) BlockValidity.TREE then set_unlinked s (mapBlocksUnlinked s ++ [(Some q, pindexNew)]) else s, state, true)
    end.

(** ** What the blocks are counted by *)

(** The members of an entry that do not change when blocks arrive. *)
Definition core (b : CBlockIndex) :=
  (phashBlock b, pprev b, pskip b, nHeight b, nChainWork b, nVersion b, hashMerkleRoot b, nTime b, nBits b, nNonce b).
Definition cores (h : heap) := core <$> h.

Lemma cores_insert (h : heap) p b b' : h !! p = Some b -> core b' = core b -> cores (<[p := b']> h) = cores h.
Proof. intros E C. unfold cores. rewrite fmap_insert, C. apply insert_id. now rewrite lookup_fmap, E. Qed.

Lemma cores_lookup (h h' : heap) p b : cores h = cores h' -> h !! p = Some b -> exists b', h' !! p = Some b' /\ core b' = core b.
Proof.
  intros C E. apply (f_equal (fun m => m !! p)) in C. unfold cores in C. rewrite !lookup_fmap, E in C.
  destruct (h' !! p) as [b'|]; [|discriminate]. exists b'. split; [reflexivity|]. symmetry. exact (inj Some _ _ C).
Qed.

Lemma cores_links (h h' : heap) : cores h = cores h' -> links h = links h'.
Proof.
  assert (K : forall g, links g = (fun c => let '(_, p, s, n, _, _, _, _, _, _) := c in (p, s, n)) <$> cores g) by (intros g; unfold links, cores; now rewrite <- map_fmap_compose).
  intros C. now rewrite !K, C.
Qed.

Definition count (h : heap) (p : ptr) : option Z := nChainTx <$> h !! p.

Lemma tx_before_count (h h' : heap) b : (forall q, pprev b = Some q -> count h q = count h' q) -> tx_before h b = tx_before h' b.
Proof.
  intros K. unfold tx_before, deref. destruct (pprev b) as [q|]; [|reflexivity]. specialize (K q eq_refl). unfold count in K.
  destruct (h !! q), (h' !! q); cbn in K; try discriminate; [|reflexivity]. cbn. now injection K as ->.
Qed.

Lemma SetDiskBlockData_core b n pos meta : core (SetDiskBlockData b n pos meta) = core b.
Proof. unfold SetDiskBlockData, RaiseValidity. cbv zeta. repeat (match goal with |- context [if ?c then _ else _] => destruct c end; cbn [snd]); reflexivity. Qed.

Lemma SetDiskBlockData_data b n pos meta : let b' := SetDiskBlockData b n pos meta in
  hasData (nStatus b') = true /\ isInvalid (nStatus b') = isInvalid (nStatus b) /\ nTx b' = u32 n /\ nChainTx b' = 0 /\
  nFile b' = pos_nFile pos /\ nDataPos b' = nPos pos.
Proof.
  assert (K : forall s, Z.testbit s 3 = true -> isInvalid s = isInvalid (nStatus b) ->
    let s' := withDiskBlockMetaData s true in Z.testbit s' 3 = true /\ isInvalid s' = isInvalid (nStatus b)).
  { intros s S3 I. unfold withDiskBlockMetaData, HAS_DISK_BLOCK_META_DATA_FLAG. change 0x80 with (2 ^ 7). cbv zeta. rewrite <- I, !isInvalid_bits, !with_flag_bit by lia. auto. }
  set (s0 := withData (nStatus b) true).
  assert (K0 : Z.testbit s0 3 = true /\ isInvalid s0 = isInvalid (nStatus b)).
  { unfold s0, withData, HAS_DATA_FLAG. change 0x08 with (2 ^ 3). rewrite !isInvalid_bits, !with_flag_bit by lia. auto. }
  assert (K1 : Z.testbit (withValidity s0 BlockValidity.TRANSACTIONS) 3 = true /\ isInvalid (withValidity s0 BlockValidity.TRANSACTIONS) = isInvalid (nStatus b)).
  { destruct K0 as [K0 <-]. rewrite !isInvalid_bits, !withValidity_bit by (unfold BlockValidity.TRANSACTIONS; lia). auto. }
  assert (D : forall s, hasData s = Z.testbit s 3) by (intros s; exact (has_bit s 3 ltac:(lia))).
  pose proof (K s0 (proj1 K0) (proj2 K0)) as K2. pose proof (K _ (proj1 K1) (proj2 K1)) as K3. cbv zeta in *. rewrite D.
  unfold SetDiskBlockData, RaiseValidity. cbn [nStatus set_status set_file]. fold s0. change (BlockValidity.TRANSACTIONS =? BlockValidity.SCRIPTS) with false. cbn [andb].
  destruct (isInvalid s0) eqn:I; [|destruct (_ <=? getValidity s0)]; cbn [snd]; (destruct (negb _ && _); cbn [nStatus set_status set_file nTx nChainTx nFile nDataPos]);
    repeat split; solve [apply K0 | apply K1 | apply K2 | apply K3 | exact (eq_trans I (proj2 K0))].
Qed.

(** The blocks that the arrival of [new] connects: itself and, repeatedly, those that wait for one. *)
Inductive linked (pairs : list (option ptr * ptr)) (new : ptr) : ptr -> Prop :=
| linked_new : linked pairs new new
| linked_next a b : linked pairs new a -> (Some a, b) ∈ pairs -> linked pairs new b.

(** [total] bounds the number of transactions of the chain up to each block. *)
Definition before (total : ptr -> Z) (b : CBlockIndex) : Z := match pprev b with Some q => total q | None => 0 end.

Lemma before_core total b b' : core b' = core b -> before total b' = before total b.
Proof. intros C. unfold before. replace (pprev b') with (pprev b) by (unfold core in C; congruence). reflexivity. Qed.

(** The counters do not wrap around: every chain of the index has less than 2^32 transactions. *)
Definition counts_ok (total : ptr -> Z) (h : heap) : Prop :=
  forall p b, h !! p = Some b -> 0 <= nTx b /\ before total b + nTx b <= total p /\ 0 <= nChainTx b <= total p /\ total p < 2 ^ 32.

(** The pairs are blocks with transactions after their predecessors. *)
Definition pairs_ok (h : heap) (pairs : list (option ptr * ptr)) : Prop :=
  forall a p, (a, p) ∈ pairs -> exists b q, h !! p = Some b /\ a = Some q /\ pprev b = Some q /\ nTx b <> 0.

(** ** The loop *)

Section Link.
Context (s0 : chain_state) (new tip : ptr) (bn t : CBlockIndex) (total : ptr -> Z).
Local Abbreviation h0 := (cs_heap s0).
Local Abbreviation pairs := (mapBlocksUnlinked s0).
Context (T : tree_ok h0) (W : works_ok h0) (C : counts_ok total h0) (Q : pairs_ok h0 pairs).
Context (En : h0 !! new = Some bn) (Nn : nTx bn <> 0) (Ht : Tip (chainActive s0) = Some tip) (Et : h0 !! tip = Some t).

Lemma linked_entry p : linked pairs new p -> exists b, h0 !! p = Some b /\ nTx b <> 0 /\ nHeight bn <= nHeight b /\
  (p = new \/ exists q, pprev b = Some q /\ linked pairs new q).
Proof.
  induction 1 as [|a p L (b & E & _ & Hb & _) P]; [exists bn; split; [exact En|]; split; [exact Nn|]; split; [lia | now left]|].
  destruct (Q _ _ P) as (c & q & Ec & [= <-] & Pc & Nc). exists c. split; [exact Ec|]. split; [exact Nc|].
  destruct (ok_prev h0 T p c a Ec Pc) as (d & Ed & Hd). rewrite E in Ed. injection Ed as <-. split; [lia|]. right. now exists a.
Qed.

(** The predecessor is among the blocks of a set, or the block is the first one. *)
Definition rooted (P : gset ptr) (p : ptr) : Prop := p = new \/ exists b q, h0 !! p = Some b /\ pprev b = Some q /\ q ∈ P.

(** The entry of [p] is as at first but for the number of transactions up to it, which is right, and
    its own number. *)
Definition done (h : heap) (p : ptr) : Prop := exists b b' n, h0 !! p = Some b /\ h !! p = Some b' /\
  b' = set_sequence b (nChainTx b') (nSequenceId b') /\ tx_before h b = Ok n /\ nChainTx b' = n + nTx b /\ 0 <= n <= before total b.

(** After some rounds: [P] has been processed. *)
Record link_inv (s : chain_state) (queue : list ptr) (P : gset ptr) : Prop := mkLink {
  l_core : cores (cs_heap s) = cores h0;
  l_other : forall p, p ∉ P -> cs_heap s !! p = h0 !! p;
  l_done : forall p, p ∈ P -> linked pairs new p /\ done (cs_heap s) p /\ rooted P p;
  l_queue : forall p, p ∈ queue -> linked pairs new p /\ rooted P p;
  l_new : new ∈ P \/ new ∈ queue;
  l_pairs : forall e, e ∈ mapBlocksUnlinked s <-> e ∈ pairs /\ forall a, fst e = Some a -> a ∉ P;
  l_closed : forall a p, a ∈ P -> (Some a, p) ∈ pairs -> p ∈ P \/ p ∈ queue;
  l_grow : cands s0 ⊆ cands s;
  l_cands : forall p, p ∈ cands s -> p ∈ cands s0 \/ p ∈ P;
  l_better : forall p b, p ∈ P -> h0 !! p = Some b -> val (nChainWork t) < val (nChainWork b) -> p ∈ cands s;
  l_rest : chainActive s = chainActive s0 /\ mapBlockIndex s = mapBlockIndex s0 /\ cs_safe s = cs_safe s0 /\ pindexBestInvalid s = pindexBestInvalid s0 /\
    pindexBestHeader s = pindexBestHeader s0
}.

Section Round.
Context (s : chain_state) (p : ptr) (queue : list ptr) (P : gset ptr) (L : link_inv s (p :: queue) P).

(** The number of transactions up to the predecessor. *)
Lemma round_before : exists b b' n, h0 !! p = Some b /\ cs_heap s !! p = Some b' /\ b' = set_sequence b (nChainTx b') (nSequenceId b') /\ nTx b <> 0 /\
  tx_before (cs_heap s) b = Ok n /\ 0 <= n <= before total b /\ (p ∈ P -> nChainTx b' = n + nTx b).
Proof.
  destruct (l_queue _ _ _ L p ltac:(now left)) as [Lp Rp]. destruct (linked_entry p Lp) as (b & E & Nb & _).
  destruct (decide (p ∈ P)) as [I|I].
  - destruct (l_done _ _ _ L p I) as (_ & (b1 & b' & n & E1 & E' & Sb & Tb & Hn & Bn) & _). rewrite E in E1. injection E1 as <-. now exists b, b', n.
  - pose proof (l_other _ _ _ L p I) as E'. rewrite E in E'. unfold tx_before. destruct (pprev b) as [q|] eqn:Pq.
    + destruct (ok_prev h0 T p b q E Pq) as (c & Ec & Hc). destruct (decide (q ∈ P)) as [J|J].
      * destruct (l_done _ _ _ L q J) as (_ & (c1 & c' & m & E1 & Ec' & _ & _ & Hm & Bm) & _). rewrite Ec in E1. injection E1 as <-.
        exists b, b, (nChainTx c'). unfold before. rewrite Pq. unfold deref. rewrite Ec'. pose proof (C q c Ec). repeat split; try assumption; [now destruct b | lia | lia | contradiction].
      * exists b, b, (nChainTx c). unfold before. rewrite Pq. unfold deref. rewrite (l_other _ _ _ L q J), Ec. pose proof (C q c Ec). repeat split; try assumption; [now destruct b | lia | lia | contradiction].
    + exists b, b, 0. unfold before. rewrite Pq. repeat split; try assumption; [now destruct b | lia | lia | contradiction].
Qed.

Lemma round_done b b' n id : h0 !! p = Some b -> cs_heap s !! p = Some b' -> b' = set_sequence b (nChainTx b') (nSequenceId b') ->
  tx_before (cs_heap s) b = Ok n -> 0 <= n <= before total b -> (p ∈ P -> nChainTx b' = n + nTx b) ->
  forall x, x ∈ {[p]} ∪ P -> done (<[p := set_sequence b' (n + nTx b) id]> (cs_heap s)) x.
Proof.
  intros E E' Sb Tb Bn Hp. set (h' := <[p := _]> (cs_heap s)). destruct (l_queue _ _ _ L p ltac:(now left)) as [Lp _].
  assert (K : forall x bx q, x ∈ {[p]} ∪ P -> h0 !! x = Some bx -> pprev bx = Some q -> count (cs_heap s) q = count h' q).
  { intros x bx q X Ex Px. unfold count, h'. destruct (decide (q = p)) as [->|Nq]; [|now rewrite lookup_insert_ne by auto].
    rewrite lookup_insert_eq, E'. cbn. f_equal. apply Hp. destruct (ok_prev h0 T x bx p Ex Px) as (c & Ec & Hc). rewrite E in Ec. injection Ec as <-.
    apply elem_of_union in X as [X|X]; [apply elem_of_singleton in X as ->; rewrite E in Ex; injection Ex as <-; lia|].
    destruct (l_done _ _ _ L x X) as (_ & _ & [->|(b1 & q & E1 & P1 & I)]); [|congruence].
    destruct (linked_entry p Lp) as (b1 & E1 & _ & Hb & _). rewrite E in E1. injection E1 as <-. rewrite En in Ex. injection Ex as <-. lia. }
  intros x X. destruct (decide (x = p)) as [->|Nx].
  - exists b, (set_sequence b' (n + nTx b) id), n. split; [exact E|]. split; [apply lookup_insert_eq|]. split; [rewrite Sb; reflexivity|].
    rewrite <- (tx_before_count (cs_heap s) h' b (fun q => K p b q ltac:(set_solver) E)). auto.
  - apply elem_of_union in X as [X|X]; [apply elem_of_singleton in X; contradiction|].
    destruct (l_done _ _ _ L x X) as (_ & (bx & bx' & m & Ex & Ex' & Sx & Tx & Hx & Bx) & _). exists bx, bx', m. split; [exact Ex|].
    split; [unfold h'; now rewrite lookup_insert_ne by auto|]. split; [exact Sx|].
    rewrite <- (tx_before_count (cs_heap s) h' bx (fun q => K x bx q ltac:(set_solver) Ex)). auto.
Qed.

Lemma rooted_mono (P' : gset ptr) x : P ⊆ P' -> rooted P x -> rooted P' x.
Proof. intros S [->|(b & q & E & Pq & I)]; [now left | right; exists b, q; auto]. Qed.

Lemma round_inv s' more : cores (cs_heap s') = cores h0 -> (forall x, x <> p -> cs_heap s' !! x = cs_heap s !! x) ->
  (forall x, x ∈ {[p]} ∪ P -> done (cs_heap s') x) ->
  mapBlocksUnlinked s' = List.filter (fun e => negb (ptr_eqb (fst e) (Some p))) (mapBlocksUnlinked s) ->
  more = map snd (List.filter (fun e => ptr_eqb (fst e) (Some p)) (mapBlocksUnlinked s)) ->
  cands s' = cands s \/ cands s' = {[p]} ∪ cands s -> (forall b, h0 !! p = Some b -> val (nChainWork t) < val (nChainWork b) -> p ∈ cands s') ->
  chainActive s' = chainActive s /\ mapBlockIndex s' = mapBlockIndex s /\ cs_safe s' = cs_safe s /\ pindexBestInvalid s' = pindexBestInvalid s /\
    pindexBestHeader s' = pindexBestHeader s ->
  link_inv s' (queue ++ more) ({[p]} ∪ P).
Proof.
  intros Co Ot Dn Un Mo Ca Be Re. pose proof (l_queue _ _ _ L p ltac:(now left)) as [Lp Rp].
  assert (Sub : P ⊆ {[p]} ∪ P) by apply union_subseteq_r. assert (Ip : p ∈ {[p]} ∪ P) by (apply elem_of_union; left; now apply elem_of_singleton).
  assert (More : forall x, x ∈ more <-> (Some p, x) ∈ mapBlocksUnlinked s).
  { intros x. rewrite Mo, list_elem_of_fmap. split.
    - intros ([a y] & -> & X). apply list_elem_of_In, List.filter_In in X as [X F]. apply ptr_eqb_spec in F. cbn in F. subst a. now apply list_elem_of_In.
    - intros X. exists (Some p, x). split; [reflexivity|]. apply list_elem_of_In, List.filter_In. split; [now apply list_elem_of_In | apply ptr_eqb_refl]. }
  assert (New : forall x, (Some p, x) ∈ pairs -> linked pairs new x /\ rooted ({[p]} ∪ P) x).
  { intros x X. split; [exact (linked_next _ _ p x Lp X)|]. destruct (Q _ _ X) as (b & q & E & [= <-] & Pb & _). right. now exists b, p. }
  split.
  - exact Co.
  - intros x X. rewrite Ot by (intros ->; contradiction). apply (l_other _ _ _ L). auto.
  - intros x X. split; [|split; [exact (Dn x X)|]]; apply elem_of_union in X as [X|X]; try (apply elem_of_singleton in X as ->);
      [exact Lp | apply (l_done _ _ _ L x X) | exact (rooted_mono _ p Sub Rp) | apply (rooted_mono _ x Sub), (l_done _ _ _ L x X)].
  - intros x X. apply elem_of_app in X as [X|X]; [destruct (l_queue _ _ _ L x ltac:(now right)); split; [assumption | now apply rooted_mono]|].
    apply New. apply More in X. exact (proj1 (proj1 (l_pairs _ _ _ L _) X)).
  - destruct (l_new _ _ _ L) as [X|X]; [left; auto|]. apply elem_of_cons in X as [->|X]; [now left | right; apply elem_of_app; now left].
  - intros e. rewrite Un, list_elem_of_In, List.filter_In, <- list_elem_of_In, (l_pairs _ _ _ L e), negb_true_iff. split.
    + intros [[X Y] F]. split; [exact X|]. intros a A I. apply elem_of_union in I as [I|I]; [|exact (Y a A I)]. apply elem_of_singleton in I as ->. rewrite A, ptr_eqb_refl in F. discriminate.
    + intros [X Y]. split; [split; [exact X | intros a A I; exact (Y a A (Sub a I))]|]. destruct (ptr_eqb (fst e) (Some p)) eqn:F; [|reflexivity]. apply ptr_eqb_spec in F. contradiction (Y p F Ip).
  - intros a x A X. destruct (decide (a = p)) as [->|Na].
    + destruct (decide (p ∈ P)) as [I|I].
      * destruct (l_closed _ _ _ L p x I X) as [Y|Y]; [left; auto|]. apply elem_of_cons in Y as [->|Y]; [now left | right; apply elem_of_app; now left].
      * right. apply elem_of_app. right. apply More, (l_pairs _ _ _ L). split; [exact X|]. intros c [= <-]. exact I.
    + apply elem_of_union in A as [A|A]; [apply elem_of_singleton in A; contradiction|].
      destruct (l_closed _ _ _ L a x A X) as [Y|Y]; [left; auto|]. apply elem_of_cons in Y as [->|Y]; [now left | right; apply elem_of_app; now left].
  - transitivity (cands s); [apply L|]. destruct Ca as [-> | ->]; [reflexivity | apply union_subseteq_r].
  - intros x X. assert (X' : x = p \/ x ∈ cands s) by (destruct Ca as [Ca|Ca]; rewrite Ca in X; [now right|]; apply elem_of_union in X as [X|X]; [apply elem_of_singleton in X; now left | now right]).
    destruct X' as [->|X']; [now right|]. destruct (l_cands _ _ _ L x X'); auto.
  - intros x b X E B. apply elem_of_union in X as [X|X]; [apply elem_of_singleton in X as ->; exact (Be b E B)|].
    pose proof (l_better _ _ _ L x b X E B) as Y. destruct Ca as [-> | ->]; [exact Y | apply elem_of_union; now right].
  - destruct Re as (-> & -> & -> & -> & ->). apply L.
Qed.

Lemma round : nBlockSequenceId s < 2 ^ 31 - 1 -> exists s' more, link_block s p = Ok (s', more) /\ link_inv s' (queue ++ more) ({[p]} ∪ P) /\
  nBlockSequenceId s' = nBlockSequenceId s + 1 /\ (length more + length (mapBlocksUnlinked s') = length (mapBlocksUnlinked s))%nat.
Proof.
  intros Id. destruct round_before as (b & b' & n & E & E' & Sb & Nb & Tb & Bn & Hp). destruct (l_rest _ _ _ L) as (Ra & _).
  unfold link_block, deref. rewrite E'. cbn [or_abort obind].
  assert (Tb' : tx_before (cs_heap s) b' = Ok n) by (rewrite Sb; exact Tb). rewrite Tb'. cbn [obind]. destruct (Z.leb_spec (2 ^ 31 - 1) (nBlockSequenceId s)) as [X|_]; [lia|].
  replace (nTx b') with (nTx b) by (rewrite Sb; reflexivity). pose proof (C p b E) as (C1 & C2 & C3 & C4). rewrite (u32_small (n + nTx b)) by lia.
  set (b2 := set_sequence b' (n + nTx b) (nBlockSequenceId s)). set (h' := <[p := b2]> (cs_heap s)).
  assert (Co : cores h' = cores h0) by (unfold h'; rewrite (cores_insert _ p b' b2 E' eq_refl); apply L). rewrite Ra, Ht.
  destruct (cores_lookup h0 h' tip t (eq_sym Co) Et) as (t' & Et' & Ct). unfold CBlockIndexWorkComparator, deref. cbn [st_heap put]. fold (cs_heap s). fold h'.
  rewrite Et'. replace (h' !! p) with (Some b2) by (unfold h'; now rewrite lookup_insert_eq). cbn [or_abort obind].
  assert (Better : val (nChainWork t) < val (nChainWork b) -> worse p tip b2 t' = false).
  { intros B. unfold worse. replace (nChainWork b2) with (nChainWork b) by (unfold b2; rewrite Sb; reflexivity). replace (nChainWork t') with (nChainWork t) by (unfold core in Ct; congruence).
    rewrite (gt_spec _ _ (W p b E) (W tip t Et)). now destruct (Z.ltb_spec (val (nChainWork t)) (val (nChainWork b))); [|lia]. }
  eexists _, _. split; [reflexivity|]. split; [|split; [reflexivity|]; rewrite length_map; apply List.filter_length].
  pose proof (round_done b b' n (nBlockSequenceId s) E E' Sb Tb Bn Hp) as Dn. fold b2 h' in Dn.
  apply round_inv; [ | | | reflexivity | reflexivity | | | repeat split; reflexivity]; destruct (worse p tip b2 t') eqn:Wo;
    try exact Co; try exact Dn; try (intros x X; apply lookup_insert_ne; auto); try (now left); try (now right).
  - intros c E1 B. rewrite E in E1. injection E1 as <-. specialize (Better B). discriminate.
  - intros c _ _. apply elem_of_union. left. now apply elem_of_singleton.
Qed.
End Round.

Lemma link_queue_inv (fuel : nat) : forall s queue P, link_inv s queue P -> (length queue + length (mapBlocksUnlinked s) <= fuel)%nat ->
  nBlockSequenceId s + Z.of_nat (length queue + length (mapBlocksUnlinked s)) <= 2 ^ 31 - 1 ->
  exists s' P', link_queue fuel s queue = Ok s' /\ link_inv s' [] P'.
Proof.
  induction fuel as [|fuel IH]; intros s [|p queue] P L F Id; cbn [length] in *; try lia; try (exists s, P; split; [reflexivity | exact L]).
  destruct (round s p queue P L ltac:(lia)) as (s1 & more & R & L1 & I1 & Le). cbn [link_queue]. rewrite R. cbn [obind].
  apply (IH s1 (queue ++ more) _ L1); rewrite length_app; lia.
Qed.

(** After the loop the blocks that have been processed are the linked ones. *)
Lemma link_all s P : link_inv s [] P -> forall p, p ∈ P <-> linked pairs new p.
Proof.
  intros L p. split; [apply L|]. induction 1 as [|a p _ IH X].
  - destruct (l_new _ _ _ L) as [X|X]; [exact X | now apply elem_of_nil in X].
  - destruct (l_closed _ _ _ L a p IH X) as [Y|Y]; [exact Y | now apply elem_of_nil in Y].
Qed.

Lemma link_queue_spec : nBlockSequenceId s0 + Z.of_nat (length pairs) < 2 ^ 31 - 1 ->
  exists s' P, link_queue (S (length pairs)) s0 [new] = Ok s' /\ link_inv s' [] P.
Proof.
  intros Id. apply (link_queue_inv _ s0 [new] ∅); [|cbn [length]; lia..]. split; try reflexivity.
  - intros p X. now apply elem_of_empty in X.
  - intros p X. apply list_elem_of_singleton in X as ->. split; [constructor | now left].
  - right. now apply list_elem_of_singleton.
  - intros e. split; [intros X; split; [exact X|]; intros a _ Y; now apply elem_of_empty in Y | now intros [X _]].
  - intros a p X. now apply elem_of_empty in X.
  - intros p X. now left.
  - intros p b X. now apply elem_of_empty in X.
  - repeat split; reflexivity.
Qed.
End Link.

(** ** The index as blocks arrive *)

(** The search for the best chain can start; the transactions are counted within the width of the
    counters, and only for blocks whose predecessor is counted; blocks that wait do so for their
    predecessor; and every entry is found by its hash. *)
Record receive_ok (total : ptr -> Z) (s : chain_state) (tip : ptr) : Prop := mkReceive {
  ro_search : search_ok s tip;
  ro_counts : counts_ok total (cs_heap s);
  ro_linked : forall p b q c, cs_heap s !! p = Some b -> nChainTx b <> 0 -> pprev b = Some q -> cs_heap s !! q = Some c -> nChainTx c <> 0;
  ro_pairs : pairs_ok (cs_heap s) (mapBlocksUnlinked s);
  ro_map : forall p, is_Some (cs_heap s !! p) -> exists hash, mapBlockIndex s !! hash = Some p
}.

Definition parent_counted (h : heap) (b : CBlockIndex) : bool :=
  match pprev b with None => true | Some q => match h !! q with Some c => negb (nChainTx c =? 0) | None => false end end.

(** The members that the search reads are the same but for the numbers and the candidates. *)
Lemma search_frame s s' tip : search_ok s tip -> cores (cs_heap s') = cores (cs_heap s) ->
  chainActive s' = chainActive s /\ mapBlockIndex s' = mapBlockIndex s /\ cs_safe s' = cs_safe s /\ pindexBestInvalid s' = pindexBestInvalid s /\
    pindexBestHeader s' = pindexBestHeader s ->
  (forall p, p ∈ cands s' -> cand_ok (cs_heap s') (mapBlockIndex s) p) -> search_ok s' tip.
Proof.
  intros [T W C Ht (t & Et & B) HM _ S I] Co (Ra & Rm & Rs & Ri & _) D. pose proof (cores_links _ _ (eq_sym Co)) as Li.
  assert (Dom : forall p, is_Some (cs_heap s !! p) -> is_Some (cs_heap s' !! p)) by (intros p [b E]; destruct (cores_lookup _ _ p b (eq_sym Co) E) as (b' & E' & _); now exists b').
  split; rewrite ?Ra, ?Rm, ?Rs, ?Ri; [exact (tree_ok_links _ _ Li T) | | exact (chain_ok_links _ _ _ Li C) | exact Ht | | | exact D | exact (safe_ok_dom _ _ _ Dom S) | auto].
  - intros p b E. destruct (cores_lookup _ _ p b Co E) as (b' & E' & Cb). replace (nChainWork b) with (nChainWork b') by (unfold core in Cb; congruence). exact (W p b' E').
  - destruct (cores_lookup _ _ tip t (eq_sym Co) Et) as (t' & Et' & Ct). exists t'. split; [exact Et'|]. replace (nBits t') with (nBits t) by (unfold core in Ct; congruence). exact B.
  - intros hash p E. apply Dom, (HM hash p E).
Qed.

(** A block that is counted was received with all its ancestors. *)
Lemma counted_linked (h : heap) : (forall p b q c, h !! p = Some b -> nChainTx b <> 0 -> pprev b = Some q -> h !! q = Some c -> nChainTx c <> 0) ->
  forall p b, h !! p = Some b -> nChainTx b <> 0 -> counted h p.
Proof.
  intros K p b E Nz q c [k U]. left. revert p b E Nz U. induction k as [|k IH]; intros p b E Nz U; [injection U as ->; congruence|].
  cbn [up] in U. rewrite E in U. cbn in U. destruct (pprev b) as [r|] eqn:Pr; [|discriminate]. cbn in U.
  destruct (h !! r) as [d|] eqn:Er; [exact (IH r d Er (K p b r d E Nz Pr Er) U)|]. destruct k; cbn [up] in U; [congruence | rewrite Er in U; discriminate].
Qed.

(** A block stays counted when the numbers of its ancestors stay, or do not become 0. *)
Lemma counted_frame (h h' : heap) p : cores h' = cores h -> (forall q c, h' !! q = Some c -> nChainTx c <> 0 \/ exists b, h !! q = Some b /\ nChainTx c = nChainTx b) ->
  counted h p -> counted h' p.
Proof.
  intros Co K D q c [k U] E. rewrite (up_links h' h k (cores_links _ _ Co)) in U. destruct (K q c E) as [Nz|(b & Eb & ->)]; [now left|].
  destruct (cores_lookup _ _ q c Co E) as (b' & Eb' & Cb). rewrite Eb in Eb'. injection Eb' as <-. replace (nHeight c) with (nHeight b) by (unfold core in Cb; congruence).
  exact (D q b (ex_intro _ k U) Eb).
Qed.

Section Stored.
Context (total : ptr -> Z) (s : chain_state) (tip new : ptr) (b b1 : CBlockIndex) (R : receive_ok total s tip) (E : cs_heap s !! new = Some b).
Context (C1 : core b1 = core b) (T1 : 0 < nTx b1 /\ before total b + nTx b1 <= total new) (Z1 : nChainTx b1 = 0).

(** The state when the data of the block is recorded. *)
Definition stored : chain_state := set_st s (dirty (put (cs_st s) new b1) new).

Lemma stored_cores : cores (cs_heap stored) = cores (cs_heap s).
Proof. exact (cores_insert _ new b b1 E C1). Qed.

Lemma stored_other p : p <> new -> cs_heap stored !! p = cs_heap s !! p.
Proof. intros X. apply lookup_insert_ne. auto. Qed.

Lemma stored_new : cs_heap stored !! new = Some b1.
Proof. apply lookup_insert_eq. Qed.

Lemma stored_counts : counts_ok total (cs_heap stored).
Proof.
  intros p c X. destruct (decide (p = new)) as [->|D]; [|rewrite stored_other in X by exact D; exact (ro_counts _ _ _ R p c X)].
  rewrite stored_new in X. injection X as <-. pose proof (ro_counts _ _ _ R new b E) as (A1 & A2 & A3 & A4). rewrite Z1. rewrite (before_core total b b1 C1). lia.
Qed.

Lemma stored_pairs : pairs_ok (cs_heap stored) (mapBlocksUnlinked stored).
Proof.
  intros a p X. destruct (ro_pairs _ _ _ R a p X) as (c & q & Ec & -> & Pc & Nc). destruct (decide (p = new)) as [->|D]; [|exists c, q; now rewrite stored_other by exact D].
  exists b1, q. rewrite stored_new. rewrite E in Ec. injection Ec as <-. split; [reflexivity|]. split; [reflexivity|]. split; [unfold core in C1; congruence | lia].
Qed.

Lemma stored_tip : exists t, cs_heap stored !! tip = Some t.
Proof.
  destruct (so_bits _ _ (ro_search _ _ _ R)) as (t & Et & _). destruct (cores_lookup _ _ tip t (eq_sym stored_cores) Et) as (t' & Et' & _). now exists t'.
Qed.

Lemma stored_link : nBlockSequenceId s + len (mapBlocksUnlinked s) < 2 ^ 31 - 1 ->
  exists s' P t, link_queue (S (length (mapBlocksUnlinked stored))) stored [new] = Ok s' /\ cs_heap stored !! tip = Some t /\ link_inv stored new t total s' [] P.
Proof.
  intros Id. pose proof (ro_search _ _ _ R) as S. destruct stored_tip as [t Et].
  assert (T : tree_ok (cs_heap stored)) by exact (tree_ok_links _ _ (cores_links _ _ (eq_sym stored_cores)) (so_tree _ _ S)).
  assert (W : works_ok (cs_heap stored)).
  { intros p c X. destruct (cores_lookup _ _ p c stored_cores X) as (d & Ed & Cd). replace (nChainWork c) with (nChainWork d) by (unfold core in Cd; congruence). exact (so_works _ _ S p d Ed). }
  destruct (link_queue_spec stored new tip b1 t total T W stored_counts stored_pairs stored_new ltac:(lia) (so_tip _ _ S) Et Id) as (s' & P & Q & L). now exists s', P, t.
Qed.

(** The predecessor is another entry, which is the same as before. *)
Lemma stored_prev q : pprev b = Some q -> q <> new /\ exists c, cs_heap s !! q = Some c /\ cs_heap stored !! q = Some c.
Proof.
  intros Pq. destruct (ok_prev _ (so_tree _ _ (ro_search _ _ _ R)) new b q E Pq) as (c & Ec & Hc). assert (D : q <> new) by (intros ->; rewrite E in Ec; injection Ec as <-; lia).
  split; [exact D|]. exists c. rewrite stored_other by exact D. auto.
Qed.

(** The predecessor has no data, or waits itself: so did the block. *)
Lemma stored_waits q c : pprev b = Some q -> cs_heap s !! q = Some c -> nChainTx c = 0 -> forall l, pairs_ok (cs_heap stored) l -> receive_ok total (set_unlinked stored l) tip.
Proof.
  intros Pq Eq Zc l Hl. pose proof (ro_search _ _ _ R) as S.
  assert (Zb : nChainTx b = 0) by (destruct (Z.eq_dec (nChainTx b) 0) as [X|X]; [exact X | contradiction (ro_linked _ _ _ R new b q c E X Pq Eq)]).
  assert (K : forall p x, cs_heap stored !! p = Some x -> exists y, cs_heap s !! p = Some y /\ nChainTx x = nChainTx y /\ pprev x = pprev y).
  { intros p x X. destruct (decide (p = new)) as [->|D]; [|rewrite stored_other in X by exact D; now exists x].
    rewrite stored_new in X. injection X as <-. exists b. split; [exact E|]. split; [lia | unfold core in C1; congruence]. }
  split.
  - apply (search_frame s); [exact S | exact stored_cores | repeat split; reflexivity |]. intros p X. destruct (so_cands _ _ S p X) as ([x Ex] & Cx & Mx).
    split; [|split; [|exact Mx]]; [destruct (cores_lookup _ _ p x (eq_sym stored_cores) Ex) as (y & Ey & _); now exists y|].
    apply (counted_frame (cs_heap s)); [exact stored_cores | | exact Cx]. intros r d Er. right. destruct (K r d Er) as (y & Ey & Hy & _). now exists y.
  - exact stored_counts.
  - intros p x r d Ex Nx Pr Er. destruct (K p x Ex) as (y & Ey & Hy & Hp). destruct (K r d Er) as (z & Ez & Hz & _). rewrite Hz. apply (ro_linked _ _ _ R p y r z Ey); congruence.
  - exact Hl.
  - intros p [x X]. destruct (K p x X) as (y & Ey & _). apply (ro_map _ _ _ R). now exists y.
Qed.

Section Linked.
Context (Pc : parent_counted (cs_heap s) b = true) (s' : chain_state) (P : gset ptr) (t : CBlockIndex) (L : link_inv stored new t total s' [] P).

Lemma linked_nonzero p x : p ∈ P -> cs_heap s' !! p = Some x -> nChainTx x <> 0.
Proof.
  intros I X. destruct (l_done _ _ _ _ _ _ _ L p I) as (Lp & (c & x' & n & Ec & Ex & _ & _ & Hx & Bn) & _). rewrite X in Ex. injection Ex as <-.
  destruct (linked_entry stored new b1 (tree_ok_links _ _ (cores_links _ _ (eq_sym stored_cores)) (so_tree _ _ (ro_search _ _ _ R))) stored_pairs stored_new ltac:(lia) p Lp) as (c' & Ec' & Nc & _).
  rewrite Ec in Ec'. injection Ec' as <-. pose proof (stored_counts p c Ec). lia.
Qed.

Lemma linked_in p : p ∈ P <-> linked (mapBlocksUnlinked s) new p.
Proof. exact (link_all stored new t total s' P L p). Qed.

Lemma unlinked_same p : p ∉ P -> cs_heap s' !! p = cs_heap s !! p.
Proof. intros X. rewrite (l_other _ _ _ _ _ _ _ L p X). apply stored_other. intros ->. apply X, linked_in. constructor. Qed.

Lemma linked_counted p x q c : cs_heap s' !! p = Some x -> nChainTx x <> 0 -> pprev x = Some q -> cs_heap s' !! q = Some c -> nChainTx c <> 0.
Proof.
  intros X Nx Pq Eq. destruct (decide (q ∈ P)) as [I|I]; [exact (linked_nonzero q c I Eq)|]. rewrite (unlinked_same q I) in Eq.
  destruct (decide (p ∈ P)) as [J|J]; [|rewrite (unlinked_same p J) in X; exact (ro_linked _ _ _ R p x q c X Nx Pq Eq)].
  assert (Px : forall y, cs_heap s !! p = Some y -> pprev y = Some q).
  { intros y Y. destruct (cores_lookup _ _ p y ltac:(symmetry; transitivity (cores (cs_heap stored)); [apply L | exact stored_cores]) Y) as (x' & X' & Cx). rewrite X in X'. injection X' as <-. unfold core in Cx. congruence. }
  destruct (l_done _ _ _ _ _ _ _ L p J) as (_ & _ & [->|(y & r & Y & Pr & Ir)]).
  - unfold parent_counted in Pc. rewrite (Px b E), Eq in Pc. apply negb_true_iff in Pc. lia.
  - destruct (cores_lookup _ _ p y stored_cores Y) as (z & Ez & Cz). specialize (Px z Ez). unfold core in Cz. congruence.
Qed.

Lemma linked_receive_ok : receive_ok total s' tip.
Proof.
  assert (Co : cores (cs_heap s') = cores (cs_heap s)) by (transitivity (cores (cs_heap stored)); [apply L | exact stored_cores]).
  pose proof (ro_search _ _ _ R) as S. split.
  - apply (search_frame s); [exact S | exact Co | exact (l_rest _ _ _ _ _ _ _ L) |]. intros p X. destruct (l_cands _ _ _ _ _ _ _ L p X) as [Y|Y].
    + destruct (so_cands _ _ S p Y) as ([x Ex] & Cx & Mx). split; [destruct (cores_lookup _ _ p x (eq_sym Co) Ex) as (y & Ey & _); now exists y|]. split; [|exact Mx].
      apply (counted_frame (cs_heap s)); [exact Co | | exact Cx]. intros r d Er. destruct (decide (r ∈ P)) as [I|I]; [left; exact (linked_nonzero r d I Er)|].
      right. exists d. rewrite <- (unlinked_same r I). auto.
    + destruct (l_done _ _ _ _ _ _ _ L p Y) as (_ & (c & x & n & Ec & Ex & _) & _). split; [now exists x|].
      split; [exact (counted_linked _ linked_counted p x Ex (linked_nonzero p x Y Ex))|]. apply (ro_map _ _ _ R). destruct (cores_lookup _ _ p x Co Ex) as (y & Ey & _). now exists y.
  - intros p x X. destruct (decide (p ∈ P)) as [I|I]; [|rewrite (unlinked_same p I) in X; exact (ro_counts _ _ _ R p x X)].
    destruct (l_done _ _ _ _ _ _ _ L p I) as (_ & (c & x' & n & Ec & Ex & Sx & _ & Hx & Bn) & _). rewrite X in Ex. injection Ex as <-. pose proof (stored_counts p c Ec) as (A1 & A2 & A3 & A4).
    replace (nTx x) with (nTx c) by (rewrite Sx; reflexivity). replace (before total x) with (before total c) by (rewrite Sx; reflexivity). rewrite Hx. lia.
  - exact linked_counted.
  - intros a p X. apply (l_pairs _ _ _ _ _ _ _ L) in X as [X _]. destruct (stored_pairs a p X) as (c & q & Ec & -> & Pq & Nc). destruct (decide (p ∈ P)) as [I|I].
    + destruct (l_done _ _ _ _ _ _ _ L p I) as (_ & (c' & x & n & Ec' & Ex & Sx & _) & _). rewrite Ec in Ec'. injection Ec' as <-. exists x, q. split; [exact Ex|]. rewrite Sx. auto.
    + exists c, q. rewrite (l_other _ _ _ _ _ _ _ L p I). auto.
  - intros p [x X]. destruct (l_rest _ _ _ _ _ _ _ L) as (_ & -> & _). apply (ro_map _ _ _ R). destruct (cores_lookup _ _ p x Co X) as (y & Ey & _). now exists y.
Qed.

(** The count and the place of a linked block. *)
Lemma linked_block p : cs_heap stored !! tip = Some t -> linked (mapBlocksUnlinked s) new p -> exists x n, cs_heap s' !! p = Some x /\ tx_before (cs_heap s') x = Ok n /\
  nChainTx x = n + nTx x /\ nChainTx x <> 0 /\ forall t', cs_heap s' !! tip = Some t' -> val (nChainWork t') < val (nChainWork x) -> p ∈ cands s'.
Proof.
  intros Et Lp. apply linked_in in Lp as I. destruct (l_done _ _ _ _ _ _ _ L p I) as (_ & (c & x & n & Ec & Ex & Sx & Tx & Hx & _) & _). exists x, n.
  split; [exact Ex|]. split; [rewrite Sx; exact Tx|]. split; [rewrite Hx, Sx; reflexivity|]. split; [exact (linked_nonzero p x I Ex)|].
  intros t' Et' B. apply (l_better _ _ _ _ _ _ _ L p c I Ec). replace (nChainWork c) with (nChainWork x) by (rewrite Sx; reflexivity).
  destruct (cores_lookup _ _ tip t' (l_core _ _ _ _ _ _ _ L) Et') as (t0 & Et0 & Ct). rewrite Et in Et0. injection Et0 as <-. unfold core in Ct. congruence.
Qed.
End Linked.
End Stored.

(** All that is done, with the members that stay. *)
Lemma ReceivedBlockTransactions_spec (total : ptr -> Z) (s : chain_state) (tip new : ptr) (b : CBlockIndex) (block : CBlock) (state : CValidationState)
    (pos : CDiskBlockPos) (meta : CDiskBlockMetaData) : receive_ok total s tip -> cs_heap s !! new = Some b ->
  ttor_violated s block (nHeight b) = Ok false -> 0 < len (vtx block) -> before total b + len (vtx block) <= total new -> nBlockSequenceId s + len (mapBlocksUnlinked s) < 2 ^ 31 - 1 ->
  exists s' b', ReceivedBlockTransactions s block state new pos meta = Ok (s', state, true) /\ receive_ok total s' tip /\
    cores (cs_heap s') = cores (cs_heap s) /\ pindexBestHeader s' = pindexBestHeader s /\ mapBlockIndex s' = mapBlockIndex s /\ cs_safe s' = cs_safe s /\
    (forall p x, p <> new -> cs_heap s' !! p = Some x -> exists y, cs_heap s !! p = Some y /\ nStatus x = nStatus y) /\
    chainActive s' = chainActive s /\ cands s ⊆ cands s' /\
    cs_heap s' !! new = Some b' /\ hasData (nStatus b') = true /\ nTx b' = len (vtx block) /\ nFile b' = pos_nFile pos /\ nDataPos b' = nPos pos /\
    let link := linked (mapBlocksUnlinked s) new in
    if parent_counted (cs_heap s) b then
      (forall p, ~ link p -> cs_heap s' !! p = cs_heap s !! p) /\
      (forall p, link p -> exists x n, cs_heap s' !! p = Some x /\ tx_before (cs_heap s') x = Ok n /\ nChainTx x = n + nTx x /\ nChainTx x <> 0 /\
         forall t, cs_heap s' !! tip = Some t -> val (nChainWork t) < val (nChainWork x) -> p ∈ cands s') /\
      (forall e, e ∈ mapBlocksUnlinked s' <-> e ∈ mapBlocksUnlinked s /\ forall a, fst e = Some a -> ~ link a) /\
      (forall p, p ∈ cands s' -> p ∈ cands s \/ link p)
    else
      (forall p, p <> new -> cs_heap s' !! p = cs_heap s !! p) /\ nChainTx b' = 0 /\ cands s' = cands s /\
      forall q c, pprev b = Some q -> cs_heap s !! q = Some c ->
        mapBlocksUnlinked s' = mapBlocksUnlinked s ++ if isValid (nStatus c) BlockValidity.TREE then [(Some q, new)] else [].
Proof.
  intros R E V Hl Ht Id. unfold ReceivedBlockTransactions, deref. rewrite E. cbn [or_abort obind]. rewrite V. cbn [obind].
  set (b1 := SetDiskBlockData b (len (vtx block)) pos meta). fold (stored s new b1). pose proof (ro_search _ _ _ R) as S.
  assert (Hb : 0 <= before total b < 2 ^ 32 /\ total new < 2 ^ 32).
  { destruct (ro_counts _ _ _ R new b E) as (A1 & A2 & A3 & A4). split; [|exact A4]. unfold before. destruct (pprev b) as [q|] eqn:Pq; [|lia].
    destruct (ok_prev _ (so_tree _ _ S) new b q E Pq) as (c & Ec & _). destruct (ro_counts _ _ _ R q c Ec) as (_ & _ & X & Y). lia. }
  pose proof (SetDiskBlockData_core b (len (vtx block)) pos meta) as C1. destruct (SetDiskBlockData_data b (len (vtx block)) pos meta) as (D1 & D2 & D3 & D4 & D5 & D6).
  fold b1 in C1, D1, D2, D3, D4, D5, D6. rewrite u32_small in D3 by nia. assert (T1 : 0 < nTx b1 /\ before total b + nTx b1 <= total new) by lia.
  destruct (parent_counted (cs_heap s) b) eqn:Pc.
  - destruct (stored_link total s tip new b b1 R E C1 T1 D4 Id) as (s' & P & t & Lq & Et & L).
    pose proof (linked_in total s new b1 s' P t L) as In. destruct (l_done _ _ _ _ _ _ _ L new (proj2 (In new) (linked_new _ _))) as (_ & (c & b' & n & Ec & Eb' & Sb & _) & _).
    rewrite stored_new in Ec. injection Ec as <-. exists s', b'. split.
    { destruct (pprev b) as [q|] eqn:Pq; [|rewrite Lq; reflexivity]. destruct (stored_prev total s tip new b b1 R E q Pq) as (_ & c & Ec & ->). cbn [or_abort obind].
      unfold parent_counted in Pc. rewrite Pq, Ec in Pc. rewrite Pc, Lq. reflexivity. }
    split; [exact (linked_receive_ok total s tip new b b1 R E C1 T1 D4 Pc s' P t L)|].
    split; [transitivity (cores (cs_heap (stored s new b1))); [apply L | exact (stored_cores s new b b1 E C1)]|]. do 3 (split; [apply L|]). split.
    { intros p x D X. destruct (decide (p ∈ P)) as [I|I]; [|rewrite (unlinked_same total s new b1 s' P t L p I) in X; now exists x].
      destruct (l_done _ _ _ _ _ _ _ L p I) as (_ & (y & x' & m & Ey & Ex & Sx & _) & _). rewrite X in Ex. injection Ex as <-. rewrite stored_other in Ey by exact D. exists y. split; [exact Ey | rewrite Sx; reflexivity]. }
    split; [apply L|]. split; [exact (l_grow _ _ _ _ _ _ _ L)|]. split; [exact Eb'|].
    rewrite Sb. cbn [nStatus nTx nFile nDataPos set_sequence]. do 4 (split; [assumption|]). split; [|split; [|split]].
    + intros p X. apply (unlinked_same total s new b1 s' P t L). now rewrite In.
    + intros p X. exact (linked_block total s tip new b b1 R E C1 T1 D4 s' P t L p Et X).
    + intros e. rewrite (l_pairs _ _ _ _ _ _ _ L e). split; intros [X Y]; (split; [exact X|]); intros a A I; apply (Y a A), In; exact I.
    + intros p X. destruct (l_cands _ _ _ _ _ _ _ L p X) as [Y|Y]; [now left | right; now apply In].
  - unfold parent_counted in Pc. destruct (pprev b) as [q|] eqn:Pq; [|discriminate]. destruct (stored_prev total s tip new b b1 R E q Pq) as (Dq & c & Ec & ->).
    rewrite Ec in Pc. cbn [or_abort obind]. rewrite Pc. apply negb_false_iff in Pc.
    assert (Pb1 : pprev b1 = Some q) by (unfold core in C1; congruence). pose proof (stored_pairs total s tip new b b1 R E C1 T1) as Hp.
    eexists _, b1. split; [reflexivity|].
    assert (K : forall l, pairs_ok (cs_heap (stored s new b1)) l -> receive_ok total (set_unlinked (stored s new b1) l) tip) by exact (stored_waits total s tip new b b1 R E C1 T1 D4 q c Pq Ec ltac:(lia)).
    split; [destruct (isValid _ _)|].
    + apply K. intros a p X. apply elem_of_app in X as [X|X]; [exact (Hp a p X)|]. apply list_elem_of_singleton in X as [= -> ->]. exists b1, q. rewrite stored_new. repeat split; [exact Pb1 | lia].
    + exact (K _ Hp).
    + split; [destruct (isValid _ _); exact (stored_cores s new b b1 E C1)|]. do 3 (split; [now destruct (isValid _ _)|]).
      split; [intros p x D X; exists x; split; [|reflexivity]; rewrite <- X; symmetry; destruct (isValid _ _); now apply stored_other|]. do 2 (split; [now destruct (isValid _ _)|]). split; [destruct (isValid _ _); apply stored_new|]. do 4 (split; [assumption|]).
      split; [intros p X; destruct (isValid _ _); now apply stored_other|]. split; [exact D4|]. split; [now destruct (isValid _ _)|].
      intros q' c' [= <-] Ec'. rewrite Ec in Ec'. injection Ec' as <-. destruct (isValid _ _); [reflexivity | symmetry; apply app_nil_r].
Qed.

(** ** Properties *)


(** A block far below the tip and outside the active chain whose transactions are out of order is refused:
    neither it nor a block after it is a candidate any more, and it is marked. *)
Lemma ReceivedBlockTransactions_refused (s : chain_state) (tip new : ptr) (b : CBlockIndex) (block : CBlock) (state : CValidationState)
    (pos : CDiskBlockPos) (meta : CDiskBlockMetaData) : search_ok s tip -> cs_heap s !! new = Some b -> ~ anc (cs_heap s) tip new ->
  ttor_violated s block (nHeight b) = Ok true ->
  exists s' b', ReceivedBlockTransactions s block state new pos meta = Ok (s', Invalid state 0 "bad-blk-ttor", false) /\
    chainActive s' = chainActive s /\ cs_heap s' !! new = Some b' /\ isInvalid (nStatus b') = true /\ cands s' ⊆ cands s /\
    forall hash x, mapBlockIndex s !! hash = Some x -> ~ anc (cs_heap s) tip x -> anc (cs_heap s) x new -> x ∉ cands s'.
Proof.
  intros [T W C Ht (t & Et & B) HM _ Sf I] E Na V. unfold ReceivedBlockTransactions, deref. rewrite E. cbn [or_abort obind]. rewrite V. cbn [obind].
  set (b1 := set_status b _). match goal with |- context [InvalidateChain ?x] => set (s1 := x) end.
  assert (Co : cores (cs_heap s1) = cores (cs_heap s)) by exact (cores_insert _ new b b1 E eq_refl). pose proof (cores_links _ _ (eq_sym Co)) as Li.
  assert (An : forall p q, anc (cs_heap s1) p q <-> anc (cs_heap s) p q) by (intros p q; unfold anc; split; intros [k U]; exists k; [rewrite (up_links _ _ k Li) | rewrite <- (up_links _ _ k Li)]; exact U).
  assert (Dom : forall p, is_Some (cs_heap s !! p) -> is_Some (cs_heap s1 !! p)) by (intros p [d Ed]; destruct (cores_lookup _ _ p d (eq_sym Co) Ed) as (d' & Ed' & _); now exists d').
  assert (E1 : cs_heap s1 !! new = Some b1) by apply lookup_insert_eq.
  assert (In : isInvalid (nStatus b1) = true) by (cbn; unfold withFailed, FAILED_FLAG; change 0x20 with (2 ^ 5); rewrite isInvalid_bits, !with_flag_bit by lia; reflexivity).
  destruct (cores_lookup _ _ tip t (eq_sym Co) Et) as (t1 & Et1 & Ct). assert (B1 : 0 <= nBits t1 < 2 ^ 32) by (replace (nBits t1) with (nBits t) by (unfold core in Ct; congruence); exact B).
  assert (T1 : tree_ok (cs_heap s1)) by exact (tree_ok_links _ _ Li T). assert (Ch : chain_ok (cs_heap s1) (chainActive s)) by exact (chain_ok_links _ _ _ Li C).
  assert (HM1 : forall hash p, mapBlockIndex s !! hash = Some p -> is_Some (cs_heap s1 !! p)) by (intros hash p X; exact (Dom p (HM hash p X))).
  assert (G : good (cs_heap s1) tip (chainActive s) (mapBlockIndex s) s1) by (split; [apply only_failed_refl | exact (safe_ok_dom _ _ _ Dom Sf) | reflexivity | reflexivity | intros q X; exact (Dom q (I q X))]).
  destruct (InvalidateChain_spec (cs_heap s1) T1 tip t1 (chainActive s) (mapBlockIndex s) Ch Ht Et1 B1 HM1 s1 new b1 b1 G E1 ltac:(now rewrite An) E1 In) as (s2 & -> & G2 & Sh & Out).
  cbn [obind]. unfold InvalidChainFound.
  destruct (best_invalid_spec (cs_heap s1) tip (chainActive s) (mapBlockIndex s) s2 new G2 (ex_intro _ b1 E1)) as (s3 & -> & G3 & St). cbn [obind].
  rewrite (g_chain _ _ _ _ _ G3), Ht. cbn [or_abort obind].
  destruct (now_check (cs_heap s1) T1 tip t1 (chainActive s) Ch Ht Et1 B1 (cs_heap s3) (g_heap _ _ _ _ _ G3) (cs_safe s3) new (g_safe _ _ _ _ _ G3) (ex_intro _ b1 E1)) as (m & -> & _).
  assert (Bn : exists b', cs_heap s3 !! new = Some b' /\ isInvalid (nStatus b') = true).
  { destruct (g_heap _ _ _ _ _ G3 new) as [F|(d & st & _ & F & Fi & _)]; [exists b1; now rewrite F | now exists (set_status d st)]. }
  destruct Bn as (b' & Eb' & Ib'). cbn [obind]. exists (set_safe s3 m), b'. split; [reflexivity|]. split; [exact (g_chain _ _ _ _ _ G3)|].
  split; [exact Eb'|]. split; [exact Ib'|]. change (cands (set_safe s3 m)) with (setBlockIndexCandidates (cs_st s3)). rewrite St. fold (cands s2).
  assert (Er : cands s1 = cands s ∖ {[new]}) by reflexivity. destruct Sh as [Sh _]. rewrite Er in Sh. split; [set_solver|].
  intros hash x X Nx Ax Y. destruct (decide (x = new)) as [->|D]; [set_solver|]. apply (Out hash x X); [now rewrite An | now rewrite An | exact D | exact Y].
Qed.

(** An example: block 4 waits for block 3, of which the header is known; block 2 is the tip. *)
Definition late_heap : heap :=
  <[4%positive := set_links (fork_block None 0 6 0 11) (Some 3%positive) (Some 1%positive) 2]>
  (<[3%positive := fork_block (Some 1%positive) 1 4 0 2]>
  (<[2%positive := fork_block (Some 1%positive) 1 4 2 13]>
  (<[1%positive := fork_block None 0 2 1 13]> ∅))).
Definition late_map : BlockMap := {[ [1] := 1%positive; [2] := 2%positive; [3] := 3%positive; [4] := 4%positive ]}.
Definition late_state : chain_state :=
  mkChainState (mkState late_heap ∅ {[2%positive]}) late_map fork_chain [(Some 3, 4)]%positive None None (mkSafe NONE ∅) 3 (-1) zero.

Lemma late_entry (K : ptr -> CBlockIndex -> Prop) : K 4%positive (set_links (fork_block None 0 6 0 11) (Some 3%positive) (Some 1%positive) 2) ->
  K 3%positive (fork_block (Some 1%positive) 1 4 0 2) -> K 2%positive (fork_block (Some 1%positive) 1 4 2 13) -> K 1%positive (fork_block None 0 2 1 13) ->
  forall p b, late_heap !! p = Some b -> K p b.
Proof.
  intros K4 K3 K2 K1 p b E. unfold late_heap in E. rewrite !lookup_insert_Some, lookup_empty in E.
  destruct E as [[<- <-]|[_ [[<- <-]|[_ [[<- <-]|[_ [[<- <-]|[_ E]]]]]]]]; try assumption. discriminate.
Qed.

Lemma late_linked p b q c : late_heap !! p = Some b -> nChainTx b <> 0 -> pprev b = Some q -> late_heap !! q = Some c -> nChainTx c <> 0.
Proof.
  revert p b. apply (late_entry (fun p b => nChainTx b <> 0 -> pprev b = Some q -> late_heap !! q = Some c -> nChainTx c <> 0)); cbn; try congruence;
    intros _ [= <-] E; vm_compute in E; injection E as <-; discriminate.
Qed.

Definition late_total (p : ptr) : Z := match p with 1%positive => 1 | 4%positive => 3 | _ => 2 end.

Lemma late_state_ok : receive_ok late_total late_state 2.
Proof.
  assert (M : forall p, is_Some (late_heap !! p) -> exists hash, late_map !! hash = Some p).
  { intros p [b E]. revert p b E. apply late_entry; [exists [4] | exists [3] | exists [2] | exists [1]]; reflexivity. }
  split.
  - split; [|  | | reflexivity | eexists; split; [reflexivity | cbn; lia] | | | | discriminate].
    + unfold late_state, cs_heap, late_heap. cbn [cs_st st_heap]. repeat (apply tree_ok_insert; [ | reflexivity | first [split; reflexivity | eexists; repeat split; reflexivity]]). exact tree_ok_empty.
    + intros p b E. revert p b E. apply late_entry; apply of_u64_spec; lia.
    + eexists. split; [reflexivity|]. split; [reflexivity|]. intros i Hi. cbn in Hi. now do 2 (destruct i as [|i]; [reflexivity|]); lia.
    + intros hash p E. unfold late_state, late_map in E. cbn [mapBlockIndex] in E. rewrite !lookup_insert_Some, lookup_singleton_Some in E.
      destruct E as [[_ <-]|[_ [[_ <-]|[_ [[_ <-]|[_ [_ <-]]]]]]]; eexists; reflexivity.
    + intros p P. change (p ∈ ({[2%positive]} : gset ptr)) in P. apply elem_of_singleton in P as ->. split; [eexists; reflexivity|]. split; [|exists [2]; reflexivity].
      apply (counted_linked late_heap late_linked 2 (fork_block (Some 1%positive) 1 4 2 13)); [reflexivity | discriminate].
    + split; [|split; reflexivity]. intros k x E. cbn in E. rewrite lookup_empty in E. discriminate.
  - intros p b E. revert p b E. apply late_entry; cbn; lia.
  - exact late_linked.
  - intros a p X. apply list_elem_of_singleton in X as [= -> ->]. eexists _, 3%positive. repeat split; discriminate.
  - exact M.
Qed.

End Receive.
