(* ===== verification/AcceptBlock.v ===== *)
(** * The acceptance of blocks (src/src/validation.cpp)

    A block from the network until it is stored: the acceptance of its header, the checks, the place in
    the block files, the index and the pruning that may follow. What is proved is that all of this
    keeps the index in order, and stores the data only of blocks that have passed the checks. *)

From Stdlib Require Import String.
From stdpp Require Import gmap.
From S2P Require Import Prelude Outcome BigInt Pow Hash Serialize Transaction PubKey Block ArithUint256 BlockIndex Chain Coins SafeMode Disk Validation BlockCheck BlockFiles ChainState Headers Receive.
Import Hash Serialize Transaction PubKey Block ArithUint256 BlockIndex Chain Coins SafeMode Disk Validation BlockCheck BlockFiles ChainState Headers Receive.

Module AcceptBlock.
Local Open Scope Z_scope.
Local Open Scope outcome_scope.

(** [try] around [m] and [k], where [k] does not throw itself. *)
Definition try_ {A B} (m : outcome A) (handler : outcome B) (k : A -> outcome B) : outcome B :=
  match m with Throw _ => handler | _ => obind m k end.

Definition IsInvalid (s : CValidationState) : bool := match mode s with MODE_INVALID => true | _ => false end.

Section Accept.
Context {B : BIGNUM} {K : Secp256k1} {V : Type} `{CCoinsView V}.
(** The address of a new entry, the parameters, the blocks declared invalid, and whether checkpoints are
    used. *)
Context (alloc : heap -> ptr) (config : Config) (invalidBlocks : gset (list Z)) (fCheckpointsEnabled : bool).
(** The configuration of the block files, the magic number at the head of a block, and the sizes of the
    elements of vectors in memory. *)
Context (preferredBlockFileSize : Z) (fPruneMode fReindex : bool) (nPruneTarget pruneAfterHeight nCoinCacheUsage maxMempool : Z) (diskMagic : bytes).
Context (sizeofRef sizeofIn sizeofOut : Z).
(** What the operating system reports, and the text of an exception. *)
Context (CheckDiskSpace removable : Z -> bool) (what : string).

(** The globals that the chain and the files share are those of [chain_state]: before a flush they are
    handed over, and after it they are taken back. *)
Definition sync (c : chain_state) (n : node (V := V)) : node (V := V) :=
  mkNode (cs_heap c) (mapBlockIndex c) (chainActive c) (SafeMode.setDirtyBlockIndex (cs_st c)) (mapBlocksUnlinked c) (store n) (files n) (pblocktree n) (pcoinsTip n)
    (fCheckForPruning n) (fHavePruned n) (nLastWrite n) (nLastFlush n) (nLastSetChain n) (bestChains n).
Definition pull (c : chain_state) (n : node (V := V)) : chain_state :=
  set_unlinked (set_st c (mkState (BlockFiles.index n) (BlockFiles.setDirtyBlockIndex n) (cands c))) (BlockFiles.mapBlocksUnlinked n).

Definition AbortNode (state : CValidationState) (message : string) : CValidationState := Error state message.

(** The [try] block of [AcceptBlock]. When the block cannot be written the node is told to stop, and the
    block is recorded all the same. *)
Definition store_block (c : chain_state) (n : node (V := V)) (block : CBlock) (state : CValidationState) (pindex : ptr) (height : Z) (dbp : option CDiskBlockPos)
    : outcome (chain_state * node (V := V) * CValidationState * bool) :=
  let nBlockSize := block_size block in
  let blockPos := match dbp with Some pos => pos | None => CDiskBlockPos_new end in
  let fKnown := match dbp with Some _ => true | None => false end in
  let failed n state := Ok (c, n, AbortNode state (append "System error: " what), false) in
  let* r := FindBlockPos preferredBlockFileSize fPruneMode CheckDiskSpace (store n) (files n) state blockPos (u64 (nBlockSize + GetBlockFileBlockHeaderSize nBlockSize)) height
              (hdr_GetBlockTime (header block)) (fCheckForPruning n) fKnown in
  let '(st, d, state, blockPos, check, ok) := r in
  let n := set_pruning (set_store n st d (pblocktree n)) check (fHavePruned n) in
  if negb ok then Ok (c, n, state, false)
  else
    try_ (if fKnown then Ok (n, state, blockPos, CDiskBlockMetaData_new)
          else
            let* w := WriteBlockToDisk sizeofRef sizeofIn sizeofOut (blk d) block blockPos diskMagic in
            match w with
            | Some (fs, pos, meta) => Ok (set_store n st (mkDisk fs (rev d)) (pblocktree n), state, pos, meta)
            | None => Ok (n, AbortNode state "Failed to write block", blockPos, CDiskBlockMetaData_new)
            end)
      (failed n state) (fun w =>
    let '(n, state, blockPos, metaData) := w in
    try_ (ReceivedBlockTransactions c block state pindex blockPos metaData) (failed n state) (fun r =>
    let '(c, state, ok) := r in Ok (c, n, state, ok))).

(** A block that was not asked for is only processed when it is new, has more work than the tip and is
    not too far ahead. *)
Definition unwanted (c : chain_state) (b : CBlockIndex) : outcome bool :=
  let* fHasMoreWork := match Tip (chainActive c) with Some tip => let* t := deref (cs_heap c) tip in Ok (gt (nChainWork b) (nChainWork t)) | None => Ok true end in
  let* height := Height (cs_heap c) (chainActive c) in
  let fTooFarAhead := i32 (u32 (height + MIN_BLOCKS_TO_KEEP)) <? nHeight b in
  Ok (negb (nTx b =? 0) || negb fHasMoreWork || fTooFarAhead).

(** What is known when a block arrives: the clocks, the microseconds of the flush, and the memory in use
    by the pool and by the coins. *)
Record moment : Type := mkMoment { mo_clocks : clocks; mo_micros : Z; mo_mempool : Z; mo_cache : Z }.

(** The results: the globals, the state of the validation, [*ppindex], [*fNewBlock], [block.fChecked],
    and the verdict. The relay of a valid block to the peers, and what is logged, are left out. *)
Record accept_result : Type := mkAccept {
  ac_chain : chain_state; ac_node : node (V := V); ac_state : CValidationState; ac_index : option ptr; ac_new : bool; ac_checked : bool; ac_ok : bool
}.

(** The checks of a block that is to be stored. *)
Definition check_new_block (c : chain_state) (block : CBlock) (fChecked : bool) (state : CValidationState) (b : CBlockIndex) : outcome (CValidationState * bool * bool) :=
  let* height := Height (cs_heap c) (chainActive c) in
  let* r := CheckBlock config block fChecked state (nHeight b) default_options height in
  let '(state, ok, fChecked) := r in
  if ok then let* r := ContextualCheckBlock config (cs_heap c) block state (pprev b) in let '(state, ok) := r in Ok (state, ok, fChecked)
  else Ok (state, false, fChecked).

Definition AcceptBlock (c : chain_state) (n : node (V := V)) (block : CBlock) (fChecked : bool) (state : CValidationState) (fRequested : bool) (dbp : option CDiskBlockPos) (k : moment)
    : outcome accept_result :=
  let* r := AcceptBlockHeader alloc config invalidBlocks fCheckpointsEnabled c (header block) state (ck_adjusted (mo_clocks k)) (ck_now (mo_clocks k)) (ck_steady (mo_clocks k)) in
  let '(c, state, found, ok) := r in
  if negb ok then Ok (mkAccept c n state found false fChecked false)
  else
    let* pindex := or_abort found in
    let* b := deref (cs_heap c) pindex in
    let* skip := (if hasData (nStatus b) then Ok true else if fRequested then Ok false else unwanted c b) in
    if skip then Ok (mkAccept c n state found false fChecked true)
    else
      let* r := check_new_block c block fChecked state b in
      let '(state, ok, fChecked) := r in
      if negb ok then
        let c := if IsInvalid state && negb (corruptionPossible state)
                 then set_st c (dirty (put (cs_st c) pindex (set_status b (withFailed (nStatus b) true))) pindex) else c in
        Ok (mkAccept c n state found true fChecked false)
      else
        let* r := store_block c n block state pindex (nHeight b) dbp in
        let '(c, n, state, ok) := r in
        if negb ok then Ok (mkAccept c n state found true fChecked false)
        else
          let* r := (if fCheckForPruning n then
                       let* r := FlushStateToDisk fPruneMode fReindex nPruneTarget pruneAfterHeight nCoinCacheUsage maxMempool CheckDiskSpace removable
                                   (sync c n) state FLUSH_STATE_NONE 0 (mo_mempool k) (mo_cache k) (mo_micros k) in
                       let '(n, state, _) := r in Ok (pull c n, n, state)
                     else Ok (c, n, state)) in
          let '(c, n, state) := r in
          let* onActive := Contains (cs_heap c) (chainActive c) pindex in
          let* m := (if onActive then Ok (cs_safe c) else CheckSafeModeParameters (cs_heap c) (chainActive c) (cs_safe c) (Some pindex)) in
          Ok (mkAccept (set_safe c m) n state found true fChecked true).

(** [ProcessNewBlockWithAsyncBestChainActivation] up to the activation of the best chain: nothing when
    the predecessor is not there or invalid. *)
Definition ProcessNewBlock (c : chain_state) (n : node (V := V)) (block : CBlock) (fChecked fForceProcessing : bool) (k : moment) : outcome accept_result :=
  let* r := FindPreviousBlockIndex c (header block) CValidationState_new in
  let '(state, prev) := r in
  match prev with
  | None => Ok (mkAccept c n state None false fChecked false)
  | Some pindexPrev =>
      let* p := deref (cs_heap c) pindexPrev in
      let* height := Height (cs_heap c) (chainActive c) in
      let* r := CheckBlock config block fChecked state (nHeight p + 1) default_options height in
      let '(state, ok, fChecked) := r in
      if ok then AcceptBlock c n block fChecked state fForceProcessing None k
      else Ok (mkAccept c n state None false fChecked false)
  end.
End Accept.

(** ** What changes and what does not *)

(** The index of headers and the counts of transactions are in order. *)
Record index_ok (total : ptr -> Z) (config : Config) (c : chain_state) (tip : ptr) : Prop := mkIndexOk {
  io_headers : headers_ok config c tip;
  io_receive : receive_ok total c tip
}.

Section Cores.
Context (h h' : heap) (Co : cores h' = cores h).

Lemma cores_entry p b' : h' !! p = Some b' -> exists b, h !! p = Some b /\ core b = core b'.
Proof. exact (cores_lookup h' h p b' Co). Qed.

Lemma cores_some p : is_Some (h !! p) -> is_Some (h' !! p).
Proof. intros [b E]. destruct (cores_lookup h h' p b (eq_sym Co) E) as (b' & E' & _). now exists b'. Qed.

Lemma cores_header b b' : core b = core b' -> GetBlockHeader h' b' = GetBlockHeader h b.
Proof.
  intros Cb. unfold GetBlockHeader. replace (pprev b') with (pprev b) by (unfold core in Cb; congruence).
  assert (P : (match pprev b with Some q => let* p := deref h' q in Chain.GetBlockHash p | None => Ok (repeat 0 32) end) =
              (match pprev b with Some q => let* p := deref h q in Chain.GetBlockHash p | None => Ok (repeat 0 32) end)).
  { destruct (pprev b) as [q|]; [|reflexivity]. unfold deref. destruct (h' !! q) as [x|] eqn:X.
    - destruct (cores_entry q x X) as (y & Y & Cy). rewrite Y. cbn. unfold Chain.GetBlockHash. replace (phashBlock x) with (phashBlock y) by (unfold core in Cy; congruence). reflexivity.
    - destruct (h !! q) as [y|] eqn:Y; [|reflexivity]. destruct (cores_some q (ex_intro _ y Y)) as [x X']. congruence. }
  rewrite P. unfold core in Cb. injection Cb as _ _ _ _ _ -> -> -> -> ->. reflexivity.
Qed.

Lemma cores_work b b' : core b = core b' -> chain_work h' b' = chain_work h b.
Proof.
  intros Cb. unfold chain_work. replace (pprev b') with (pprev b) by (unfold core in Cb; congruence). replace (nBits b') with (nBits b) by (unfold core in Cb; congruence).
  destruct (pprev b) as [q|]; [|reflexivity]. unfold deref. destruct (h' !! q) as [x|] eqn:X.
  - destruct (cores_entry q x X) as (y & Y & Cy). rewrite Y. cbn. replace (nChainWork x) with (nChainWork y) by (unfold core in Cy; congruence). reflexivity.
  - destruct (h !! q) as [y|] eqn:Y; [|reflexivity]. destruct (cores_some q (ex_intro _ y Y)) as [x X']. congruence.
Qed.
End Cores.

(** The index of headers depends only on what does not change when blocks arrive. *)
Lemma headers_frame config c c' tip : headers_ok config c tip -> cores (cs_heap c') = cores (cs_heap c) -> chainActive c' = chainActive c ->
  mapBlockIndex c' = mapBlockIndex c -> pindexBestHeader c' = pindexBestHeader c -> safe_ok (cs_heap c') (cs_safe c') -> headers_ok config c' tip.
Proof.
  intros H Co Ec Em Eb S. pose proof (cores_links _ _ (eq_sym Co)) as Li. pose proof (cores_entry _ _ Co) as Old.
  split; rewrite ?Ec, ?Em, ?Eb.
  - exact (tree_ok_links _ _ Li (ho_tree _ _ _ H)).
  - intros p b E. destruct (Old p b E) as (y & Y & Cy). replace (nChainWork b) with (nChainWork y) by (unfold core in Cy; congruence). exact (ho_works _ _ _ H p y Y).
  - exact (chain_ok_links _ _ _ Li (ho_chain _ _ _ H)).
  - apply H.
  - exact S.
  - intros p b E. destruct (Old p b E) as (y & Y & Cy). replace (nBits b) with (nBits y) by (unfold core in Cy; congruence). exact (ho_bits _ _ _ H p y Y).
  - intros p b E. destruct (Old p b E) as (y & Y & Cy). destruct (ho_hash _ _ _ H p y Y) as (hash & hdr & E1 & E2 & E3 & E4). exists hash, hdr.
    split; [unfold core in Cy; congruence|]. split; [exact E2|]. split; [|exact E4]. now rewrite (cores_header _ _ Co y b Cy).
  - intros hash p E. destruct (ho_map _ _ _ H hash p E) as (y & Y & Hy). destruct (cores_lookup _ _ p y (eq_sym Co) Y) as (b & E' & Cb). exists b. split; [exact E' | unfold core in Cb; congruence].
  - intros p b hash E P Hh. destruct (Old p b E) as (y & Y & Cy). replace (nBits b) with (nBits y) by (unfold core in Cy; congruence).
    apply (ho_pow _ _ _ H p y hash Y); unfold core in Cy; congruence.
  - intros p b E. destruct (Old p b E) as (y & Y & Cy). rewrite (cores_work _ _ Co y b Cy), (ho_work _ _ _ H p y Y). f_equal. unfold core in Cy. congruence.
  - destruct (ho_best _ _ _ H) as (q & d & Eq & Ed & Mx). destruct (cores_lookup _ _ q d (eq_sym Co) Ed) as (d' & Ed' & Cd). exists q, d'. split; [exact Eq|]. split; [exact Ed'|].
    intros p b E. destruct (Old p b E) as (y & Y & Cy). specialize (Mx p y Y). replace (nChainWork b) with (nChainWork y) by (unfold core in Cy; congruence).
    replace (nChainWork d') with (nChainWork d) by (unfold core in Cd; congruence). exact Mx.
  - apply H.
Qed.

(** Changes of the status of entries, of where their data is, and of the safe mode; candidates and
    waiting blocks can only become fewer, and data can only go. *)
Record volatile (c c' : chain_state) : Prop := mkVolatile {
  v_cores : cores (cs_heap c') = cores (cs_heap c);
  v_entry : forall p b', cs_heap c' !! p = Some b' -> exists b, cs_heap c !! p = Some b /\ nTx b' = nTx b /\ nChainTx b' = nChainTx b /\
    (hasData (nStatus b') = true -> hasData (nStatus b) = true);
  v_cands : cands c' ⊆ cands c;
  v_pairs : forall e, e ∈ mapBlocksUnlinked c' -> e ∈ mapBlocksUnlinked c;
  v_chain : chainActive c' = chainActive c;
  v_map : mapBlockIndex c' = mapBlockIndex c;
  v_best : pindexBestHeader c' = pindexBestHeader c;
  v_safe : safe_ok (cs_heap c) (cs_safe c) -> safe_ok (cs_heap c') (cs_safe c');
  v_invalid : (forall q, pindexBestInvalid c = Some q -> is_Some (cs_heap c !! q)) -> forall q, pindexBestInvalid c' = Some q -> is_Some (cs_heap c' !! q)
}.

Lemma volatile_refl c : volatile c c.
Proof. split; auto. intros p b E. now exists b. Qed.

Lemma volatile_trans c1 c2 c3 : volatile c1 c2 -> volatile c2 c3 -> volatile c1 c3.
Proof.
  intros A B. split.
  - rewrite (v_cores _ _ B). apply A.
  - intros p b E. destruct (v_entry _ _ B p b E) as (b2 & E2 & T2 & C2 & D2). destruct (v_entry _ _ A p b2 E2) as (b1 & E1 & T1 & C1 & D1). exists b1. split; [exact E1|]. split; [congruence|]. split; [congruence | auto].
  - transitivity (cands c2); [apply B | apply A].
  - intros e X. apply A, B, X.
  - rewrite (v_chain _ _ B). apply A.
  - rewrite (v_map _ _ B). apply A.
  - rewrite (v_best _ _ B). apply A.
  - intros S. apply B, A, S.
  - intros S. apply B, A, S.
Qed.

Lemma volatile_ok total config c c' tip : index_ok total config c tip -> volatile c c' -> index_ok total config c' tip.
Proof.
  intros [H R] U. pose proof (v_cores _ _ U) as Co. pose proof (ro_search _ _ _ R) as S. pose proof (cores_some _ _ Co) as Some_.
  split; [exact (headers_frame config c c' tip H Co (v_chain _ _ U) (v_map _ _ U) (v_best _ _ U) (v_safe _ _ U (ho_safe _ _ _ H)))|].
  assert (Cand : forall p, p ∈ cands c' -> cand_ok (cs_heap c') (mapBlockIndex c) p).
  { intros p X. destruct (so_cands _ _ S p (v_cands _ _ U p X)) as (D & Cd & M). split; [exact (Some_ p D)|]. split; [|exact M].
    apply (counted_frame (cs_heap c)); [exact Co | | exact Cd]. intros q x Q. right. destruct (v_entry _ _ U q x Q) as (y & Y & _ & Hy & _). now exists y. }
  split.
  - destruct S as [T W Ch Ht (t & Et & B) HM _ Sf I]. pose proof (cores_links _ _ (eq_sym Co)) as Li.
    split; rewrite ?(v_chain _ _ U), ?(v_map _ _ U); [exact (tree_ok_links _ _ Li T) | | exact (chain_ok_links _ _ _ Li Ch) | exact Ht | | | exact Cand | exact (v_safe _ _ U Sf) | exact (v_invalid _ _ U I)].
    + intros p b E. destruct (cores_entry _ _ Co p b E) as (y & Y & Cy). replace (nChainWork b) with (nChainWork y) by (unfold core in Cy; congruence). exact (W p y Y).
    + destruct (cores_lookup _ _ tip t (eq_sym Co) Et) as (t' & Et' & Ct). exists t'. split; [exact Et'|]. replace (nBits t') with (nBits t) by (unfold core in Ct; congruence). exact B.
    + intros hash p E. apply Some_, (HM hash p E).
  - intros p b E. destruct (v_entry _ _ U p b E) as (y & Y & -> & -> & _). destruct (cores_entry _ _ Co p b E) as (y' & Y' & Cy). rewrite Y in Y'. injection Y' as <-.
    rewrite (before_core total y b (eq_sym Cy)). exact (ro_counts _ _ _ R p y Y).
  - intros p b q d E Nz P Eq. destruct (v_entry _ _ U p b E) as (y & Y & _ & Hy & _). destruct (v_entry _ _ U q d Eq) as (z & Z & _ & Hz & _). destruct (cores_entry _ _ Co p b E) as (y' & Y' & Cy).
    rewrite Y in Y'. injection Y' as <-. rewrite Hz. apply (ro_linked _ _ _ R p y q z Y); unfold core in Cy; congruence.
  - intros a p X. destruct (ro_pairs _ _ _ R a p (v_pairs _ _ U _ X)) as (y & q & Y & -> & Py & Ny). destruct (cores_lookup _ _ p y (eq_sym Co) Y) as (b & E & Cb).
    destruct (v_entry _ _ U p b E) as (y' & Y' & Tb & _). rewrite Y in Y'. injection Y' as <-. exists b, q. split; [exact E|]. split; [reflexivity|]. split; [unfold core in Cb; congruence | congruence].
  - rewrite (v_map _ _ U). intros p [b E]. destruct (cores_entry _ _ Co p b E) as (y & Y & _). apply (ro_map _ _ _ R). now exists y.
Qed.

(** ** Steps that change only this *)

Lemma volatile_st c st : cores (st_heap st) = cores (cs_heap c) ->
  (forall p b', st_heap st !! p = Some b' -> exists b, cs_heap c !! p = Some b /\ nTx b' = nTx b /\ nChainTx b' = nChainTx b /\ (hasData (nStatus b') = true -> hasData (nStatus b) = true)) ->
  setBlockIndexCandidates st ⊆ cands c -> volatile c (set_st c st).
Proof.
  intros Co En Ca. split; try reflexivity; auto.
  - intros S. exact (safe_ok_dom _ _ _ (cores_some _ _ Co) S).
  - intros I q X. apply (cores_some _ _ Co), I, X.
Qed.

Lemma volatile_status c st p b s : cs_heap c !! p = Some b -> (hasData s = true -> hasData (nStatus b) = true) -> st_heap st = <[p := set_status b s]> (cs_heap c) ->
  setBlockIndexCandidates st ⊆ cands c -> volatile c (set_st c st).
Proof.
  intros E D Eh Ca. apply volatile_st; [rewrite Eh; exact (cores_insert _ p b (set_status b s) E eq_refl) | | exact Ca].
  intros q b'. rewrite Eh, lookup_insert_Some. intros [[<- <-]|[_ X]]; [exists b; cbn; auto | exists b'; auto].
Qed.

Lemma volatile_safe c m : (safe_ok (cs_heap c) (cs_safe c) -> safe_ok (cs_heap c) m) -> volatile c (set_safe c m).
Proof. intros S. split; auto. intros p b E. now exists b. Qed.

Lemma volatile_invalid c p : is_Some (cs_heap c !! p) -> volatile c (set_invalid c (Some p)).
Proof. intros S. split; auto; [intros q b E; now exists b | intros _ q [= <-]; exact S]. Qed.

Lemma failed_status s : hasData (withFailed s true) = hasData s.
Proof. unfold withFailed, FAILED_FLAG, hasData, HAS_DATA_FLAG. change 0x08 with (2 ^ 3). change 0x20 with (2 ^ 5). rewrite !has_bit, with_flag_bit by lia. reflexivity. Qed.

Lemma fail_walk_volatile (fuel : nat) : forall c st base p, fail_walk fuel (cs_st c) base p = Ok st -> volatile c (set_st c st).
Proof.
  assert (Same : forall c, volatile c (set_st c (cs_st c))) by (intros c; apply volatile_st; [reflexivity | intros p b E; now exists b | reflexivity]).
  induction fuel as [|fuel IH]; intros c st base [p|] E; cbn [fail_walk] in E; try discriminate; (destruct (Pos.eqb p base); [apply Ok_inj in E; subst st; apply Same|]); [discriminate|].
  apply obind_ok in E as (b & Eb & E). unfold deref in Eb. destruct (st_heap (cs_st c) !! p) as [x|] eqn:Ex; [|discriminate]. apply Ok_inj in Eb. subst x.
  match type of E with fail_walk _ ?s _ _ = _ => set (s1 := s) in * end. apply (volatile_trans c (set_st c s1)); [|exact (IH (set_st c s1) st base (pprev b) E)].
  apply (volatile_status c s1 p b (withFailedParent (nStatus b) true)); [exact Ex | | reflexivity | apply subseteq_difference_l; reflexivity].
  now rewrite (proj2 (failed_parent_status (nStatus b))).
Qed.

Section Keep.
Context (total : ptr -> Z) (config : Config) (tip : ptr).

Lemma check_safe c p m : index_ok total config c tip -> is_Some (cs_heap c !! p) ->
  CheckSafeModeParameters (cs_heap c) (chainActive c) (cs_safe c) (Some p) = Ok m -> safe_ok (cs_heap c) m.
Proof.
  intros [H R] [b E] Q. destruct (so_bits _ _ (ro_search _ _ _ R)) as (t & Et & B).
  destruct (CheckSafeModeParameters_spec (cs_heap c) (chainActive c) tip p t b (cs_safe c) (ho_tree _ _ _ H) (ho_chain _ _ _ H) (ho_tip _ _ _ H) Et B (ho_safe _ _ _ H) E) as (m' & R' & S & _).
  rewrite Q in R'. apply Ok_inj in R'. now subst m'.
Qed.

Lemma descend_some (fuel : nat) h height p q : descend fuel h height p = Ok q -> is_Some (h !! p).
Proof. intros E. destruct fuel; cbn [descend] in E; unfold deref in E; destruct (h !! p); try discriminate; eauto. Qed.

Lemma invalidate_tips_volatile q height tips : forall c c', index_ok total config c tip -> invalidate_tips c q height tips = Ok c' -> volatile c c'.
Proof.
  induction tips as [|x tips IH]; intros c c' I E; cbn [invalidate_tips] in E; [apply Ok_inj in E; subst; apply volatile_refl|].
  apply obind_ok in E as (r & D & E). apply descend_some in D. destruct (Pos.eqb r q); [|exact (IH c c' I E)].
  apply obind_ok in E as (st & F & E). apply fail_walk_volatile in F as U1. apply obind_ok in E as (m & Q & E).
  pose proof (volatile_ok total config _ _ tip I U1) as I1.
  assert (U2 : volatile (set_st c st) (set_safe (set_st c st) m)) by (apply volatile_safe; intros _; apply (check_safe (set_st c st) x m I1); [apply (cores_some _ _ (v_cores _ _ U1)), D | exact Q]).
  pose proof (volatile_trans _ _ _ U1 U2) as U. exact (volatile_trans _ _ _ U (IH _ c' (volatile_ok total config _ _ tip I U) E)).
Qed.

Lemma InvalidateChain_volatile c q c' : index_ok total config c tip -> InvalidateChain c q = Ok c' -> volatile c c'.
Proof.
  intros I E. unfold InvalidateChain in E. apply obind_ok in E as (b & _ & E). unfold assert_ in E. destruct (isInvalid _); [|discriminate].
  apply obind_ok in E as (v & _ & E). apply obind_ok in E as ([tips prevs] & _ & E). exact (invalidate_tips_volatile _ _ _ c c' I E).
Qed.

Lemma best_invalid_volatile c p c' : best_invalid c p = Ok c' -> volatile c c'.
Proof.
  intros E. unfold best_invalid in E. apply obind_ok in E as (b & Eb & E). unfold deref in Eb. assert (D : is_Some (cs_heap c !! p)) by (destruct (cs_heap c !! p); [eauto | discriminate]).
  destruct (pindexBestInvalid c); [apply obind_ok in E as (x & _ & E)|]; apply Ok_inj in E; subst c'; [destruct (gt _ _)|]; try apply volatile_refl; now apply volatile_invalid.
Qed.

Lemma InvalidChainFound_volatile c p c' : index_ok total config c tip -> InvalidChainFound c p = Ok c' -> volatile c c'.
Proof.
  intros I E. unfold InvalidChainFound in E. apply obind_ok in E as (c1 & E1 & E). apply obind_ok in E as (t & _ & E). apply obind_ok in E as (m & Q & E). apply Ok_inj in E. subst c'.
  assert (D : is_Some (cs_heap c !! p)) by (unfold best_invalid, deref in E1; destruct (cs_heap c !! p); [eauto | discriminate]).
  pose proof (best_invalid_volatile c p c1 E1) as U. apply (volatile_trans _ _ _ U), volatile_safe. intros _. apply (check_safe c1 p m (volatile_ok total config _ _ tip I U)); [apply (cores_some _ _ (v_cores _ _ U)), D | exact Q].
Qed.
End Keep.

(** ** Pruning *)

Section Flush.
Context {V : Type} `{CCoinsView V}.
Implicit Type n : node (V := V).

(** What a flush does to the index. *)
Definition trimmed n n' : Prop := forall c, volatile (pull c n) (pull c n').

Lemma trimmed_trans n1 n2 n3 : trimmed n1 n2 -> trimmed n2 n3 -> trimmed n1 n3.
Proof. intros A B c. exact (volatile_trans _ _ _ (A c) (B c)). Qed.

Lemma trimmed_same n n' : BlockFiles.index n' = BlockFiles.index n -> BlockFiles.mapBlocksUnlinked n' = BlockFiles.mapBlocksUnlinked n -> trimmed n n'.
Proof.
  intros E1 E2 c. unfold pull. rewrite E1, E2. split; auto. intros p b E. now exists b.
Qed.

Lemma trimmed_entry n p b l dirty : BlockFiles.index n !! p = Some b -> (forall e, e ∈ l -> e ∈ BlockFiles.mapBlocksUnlinked n) ->
  trimmed n (set_index n (<[p := index_ClearFileInfo b]> (BlockFiles.index n)) dirty l).
Proof.
  intros E L c. assert (Co : cores (<[p := index_ClearFileInfo b]> (BlockFiles.index n)) = cores (BlockFiles.index n)) by exact (cores_insert _ p b (index_ClearFileInfo b) E eq_refl).
  split; try reflexivity; auto.
  - intros q b'. cbn. rewrite lookup_insert_Some. intros [[<- <-]|[_ X]]; [exists b | exists b'; auto]. split; [exact E|]. split; [reflexivity|]. split; [reflexivity|]. rewrite cleared. discriminate.
  - intros S. exact (safe_ok_dom _ _ _ (cores_some _ _ Co) S).
  - intros I q X. apply (cores_some _ _ Co), I, X.
Qed.

Lemma prune_index_trimmed f l : forall n n', prune_index f n l = Ok n' -> trimmed n n'.
Proof.
  induction l as [|p l IH]; intros n n' E; cbn [prune_index] in E; [apply Ok_inj in E; subst; now apply trimmed_same|].
  apply obind_ok in E as (b & Eb & E). unfold deref in Eb. destruct (BlockFiles.index n !! p) as [x|] eqn:Ex; [|discriminate]. apply Ok_inj in Eb. subst x.
  destruct (nFile b =? f); [|exact (IH _ _ E)]. eapply trimmed_trans; [|exact (IH _ _ E)]. apply trimmed_entry; [exact Ex|].
  intros e X. apply list_elem_of_In, List.filter_In in X as [X _]. now apply list_elem_of_In.
Qed.

Lemma unlink_files_trimmed removable l : forall n n', unlink_files removable n l = Ok n' -> trimmed n n'.
Proof.
  induction l as [|i l IH]; intros n n' E; cbn [unlink_files] in E; [apply Ok_inj in E; subst; now apply trimmed_same|].
  destruct (removable i); [|exact (IH _ _ E)]. apply obind_ok in E as (m & Em & E). apply (trimmed_trans n m); [|exact (IH _ _ E)]. unfold PruneOneBlockFile in Em.
  apply obind_ok in Em as (m1 & E1 & Em). apply obind_ok in Em as (st & _ & Em). apply Ok_inj in Em. subst m.
  apply (trimmed_trans n m1); [|now apply trimmed_same]. eapply trimmed_trans; [|exact (prune_index_trimmed _ _ _ _ E1)]. now apply trimmed_same.
Qed.

Lemma write_blocks_trimmed removable n L now n' : write_blocks removable n L now = Ok n' -> trimmed n n'.
Proof.
  intros E. unfold write_blocks in E. apply obind_ok in E as (d & _ & E). apply obind_ok in E as (n1 & E1 & E). apply obind_ok in E as (n2 & E2 & E). apply Ok_inj in E. subst n'.
  assert (T1 : trimmed n n1).
  { unfold WriteBatchSync in E1. apply obind_ok in E1 as ([v infos] & _ & E1). apply obind_ok in E1 as (entries & _ & E1). apply Ok_inj in E1. subst n1. now apply trimmed_same. }
  assert (T2 : trimmed n1 n2) by (destruct (negb _); [exact (unlink_files_trimmed _ _ _ _ E2) | apply Ok_inj in E2; subst; now apply trimmed_same]).
  apply (trimmed_trans n n1); [exact T1|]. apply (trimmed_trans n1 n2); [exact T2|]. now apply trimmed_same.
Qed.

Lemma find_files_trimmed fPruneMode fReindex target after n m n' L : find_files fPruneMode fReindex target after n m = Ok (n', L) -> trimmed n n'.
Proof.
  intros E. unfold find_files in E. destruct (_ && _ && _); [|apply Ok_inj in E; injection E as <- _; now apply trimmed_same]. apply obind_ok in E as ([n1 L1] & E1 & E).
  assert (T1 : trimmed n n1) by (destruct (0 <? m); apply obind_ok in E1 as (l & _ & E1); apply Ok_inj in E1; injection E1 as <- _; now apply trimmed_same).
  destruct (_ || _); apply Ok_inj in E; injection E as <- _; [exact T1|]. apply (trimmed_trans n n1); [exact T1 | now apply trimmed_same].
Qed.

Lemma FlushStateToDisk_trimmed fPruneMode fReindex target after nCoinCacheUsage maxMempool space removable n state md m usage cacheSize now n' state' ok :
  FlushStateToDisk fPruneMode fReindex target after nCoinCacheUsage maxMempool space removable n state md m usage cacheSize now = Ok (n', state', ok) -> trimmed n n'.
Proof.
  intros E. unfold FlushStateToDisk in E. apply obind_ok in E as ([n0 L] & E0 & E). apply find_files_trimmed in E0. apply (trimmed_trans n n0); [exact E0|]. clear E0. revert E.
  set (n1 := set_written _ _ _ _ _ _). assert (T1 : trimmed n0 n1) by now apply trimmed_same. clearbody n1. set (full := is_always md || _ || _ || _ || _). set (pw := is_periodic md && _). clearbody full pw.
  intros E. apply (trimmed_trans n0 n1); [exact T1|]. destruct (_ && negb (space 0)); [apply Ok_inj in E; injection E as <- _ _; now apply trimmed_same|]. apply obind_ok in E as (n2 & E2 & E).
  apply (trimmed_trans n1 n2); [destruct (full || pw); [exact (write_blocks_trimmed _ _ _ _ _ E2) | apply Ok_inj in E2; subst; now apply trimmed_same]|]. clear E2.
  destruct (full && _); [apply Ok_inj in E; injection E as <- _ _; now apply trimmed_same|]. apply obind_ok in E as ([n3 ok3] & E3 & E).
  apply (trimmed_trans n2 n3); [destruct full; [apply obind_ok in E3 as ([coins r] & _ & E3)|]; apply Ok_inj in E3; injection E3 as <- _; now apply trimmed_same|].
  destruct (negb ok3); [apply Ok_inj in E; injection E as <- _ _; now apply trimmed_same|].
  match type of E with (if ?b then _ else _) = _ => destruct b end; [apply obind_ok in E as (loc & _ & E)|]; apply Ok_inj in E; injection E as <- _ _; now apply trimmed_same.
Qed.
End Flush.

(** ** Headers *)

Section Header.
Context (total : ptr -> Z) (config : Config) (tip : ptr).

(** Room for the [n] transactions of a block: if its entry is there, within the bound for it; else after
    its predecessor. *)
Definition room (c : chain_state) (block : CBlockHeader) (n : Z) : Prop := forall q d, cs_heap c !! q = Some d ->
  (phashBlock d = hdr_GetHash block -> before total d + n <= total q) /\ (phashBlock d = Some (hashPrevBlock block) -> total q + n < 2 ^ 32).

(** The bounds when an entry is added. *)
Definition extend (p : ptr) (b : CBlockIndex) (n : Z) : ptr -> Z := fun q => if decide (q = p) then before total b + n else total q.

Lemma extend_other p b n q : q <> p -> extend p b n q = total q.
Proof. intros D. unfold extend. now destruct (decide (q = p)). Qed.

Lemma added_before c c' block hash p b n : index_ok total config c tip -> added c c' block hash p b ->
  (forall q d, cs_heap c !! q = Some d -> before (extend p b n) d = before total d) /\ before (extend p b n) b = before total b.
Proof.
  intros [H _] A. pose proof (ad_fresh _ _ _ _ _ _ A) as Fr. assert (K : forall d, (forall z, pprev d = Some z -> is_Some (cs_heap c !! z)) -> before (extend p b n) d = before total d).
  { intros d S. unfold before. destruct (pprev d) as [z|]; [|reflexivity]. destruct (S z eq_refl) as [e Ee]. apply extend_other. congruence. }
  split; [intros q d E|]; apply K; intros z Z.
  - destruct (ok_prev _ (ho_tree _ _ _ H) q d z E Z) as (e & Ee & _). now exists e.
  - destruct (ad_prev _ _ _ _ _ _ A) as (y & Py & My). rewrite Z in Py. injection Py as <-. destruct (ho_map _ _ _ H _ _ My) as (e & Ee & _). now exists e.
Qed.

Lemma added_receive c c' block hash p b n : index_ok total config c tip -> 0 <= n -> room c block n -> headers_ok config c' tip -> added c c' block hash p b -> receive_ok (extend p b n) c' tip.
Proof.
  intros I Hn Rm H' A. destruct (added_before c c' block hash p b n I A) as [Bo Bn]. destruct I as [H R]. pose proof (ro_search _ _ _ R) as S. pose proof (ad_fresh _ _ _ _ _ _ A) as Fr. pose proof (ho_tree _ _ _ H) as T. pose proof (ho_tree _ _ _ H') as T'.
  destruct (ad_empty _ _ _ _ _ _ A) as (X1 & X2 & _). destruct (ad_rest _ _ _ _ _ _ A) as (Y1 & Y2 & Y3 & _). pose proof (ad_heap _ _ _ _ _ _ A) as Eh.
  assert (Old : forall q d, cs_heap c !! q = Some d -> cs_heap c' !! q = Some d) by (intros q d E; rewrite Eh; exact (lookup_old _ p b Fr q d E)).
  assert (Cases : forall q d, cs_heap c' !! q = Some d -> (q = p /\ d = b) \/ cs_heap c !! q = Some d).
  { intros q d. rewrite Eh, lookup_insert_Some. intros [[-> ->]|[_ E]]; auto. }
  destruct (so_bits _ _ S) as (t & Et & Bt).
  split.
  - split; rewrite ?(ad_chain _ _ _ _ _ _ A), ?Y1, ?Y3; [exact T' | apply H' | rewrite <- (ad_chain _ _ _ _ _ _ A); apply H' | apply H | exists t; split; [exact (Old _ _ Et) | exact Bt] | | | apply H' |].
    + intros ha q E. destruct (ho_map _ _ _ H' ha q E) as (d & Ed & _). now exists d.
    + intros q Q. destruct (so_cands _ _ S q Q) as ([d Ed] & Cd & ha & M). split; [exists d; exact (Old q d Ed)|]. split.
      * intros r e [j U] Er. destruct (up_height (cs_heap c') T' j q r d (Old q d Ed) U) as (e' & Ee & He). pose proof (ok_height _ T' r e' Ee).
        rewrite Eh, (up_fresh (cs_heap c) T p b Fr q d j Ed) in U by lia. destruct (anc_lookup (cs_heap c) T q r d Ed (ex_intro _ j U)) as (f & Ef & _).
        rewrite (Old r f Ef) in Er. injection Er as <-. exact (Cd r f (ex_intro _ j U) Ef).
      * destruct (ho_hash _ _ _ H' q d (Old q d Ed)) as (ha' & hd & _ & M' & _). now exists ha'.
    + intros q Q. destruct (so_invalid _ _ S q Q) as [d Ed]. exists d. exact (Old q d Ed).
  - intros q d E. apply Cases in E as [[-> ->]|E].
    + rewrite Bn. destruct (ad_prev _ _ _ _ _ _ A) as (z & Pz & Mz). destruct (ho_map _ _ _ H _ _ Mz) as (e & Ee & Hz). destruct (Rm z e Ee) as [_ Lz]. specialize (Lz Hz).
      pose proof (ro_counts _ _ _ R z e Ee). unfold extend, before. rewrite Pz, X1, X2. destruct (decide (p = p)); [|contradiction]. lia.
    + rewrite (Bo q d E), extend_other by congruence. exact (ro_counts _ _ _ R q d E).
  - intros q d z e E Nz Pz Ez. apply Cases in E as [[-> ->]|E]; [congruence|]. destruct (ok_prev _ T q d z E Pz) as (f & Ef & _). rewrite (Old z f Ef) in Ez. injection Ez as <-. exact (ro_linked _ _ _ R q d z f E Nz Pz Ef).
  - rewrite Y2. intros a q Q. destruct (ro_pairs _ _ _ R a q Q) as (d & z & Ed & Rest). exists d, z. split; [exact (Old q d Ed) | exact Rest].
  - intros q [d E]. destruct (ho_hash _ _ _ H' q d E) as (ha & hd & _ & M & _). now exists ha.
Qed.

Lemma AddToBlockIndex_found alloc c block now steady c' p : AddToBlockIndex alloc c block now steady = Ok (c', p) -> exists hash, hdr_GetHash block = Some hash /\ mapBlockIndex c' !! hash = Some p.
Proof.
  intros E. unfold AddToBlockIndex in E. apply obind_ok in E as (hash & Hh & E). apply block_hash_some in Hh. exists hash. split; [exact Hh|].
  destruct (mapBlockIndex c !! hash) as [q|] eqn:M; [apply Ok_inj in E; injection E as <- <-; exact M|].
  apply obind_ok in E as (b & _ & E). apply obind_ok in E as (tm & _ & E). apply obind_ok in E as (w & _ & E). apply obind_ok in E as (best & _ & E). apply obind_ok in E as (m & _ & E).
  apply Ok_inj in E. injection E as <- <-. apply lookup_insert_eq.
Qed.

Lemma AcceptBlockHeader_found alloc invalidBlocks checkpoints c block state adjusted now steady c' state' found :
  AcceptBlockHeader alloc config invalidBlocks checkpoints c block state adjusted now steady = Ok (c', state', found, true) ->
  exists hash p, found = Some p /\ hdr_GetHash block = Some hash /\ mapBlockIndex c' !! hash = Some p.
Proof.
  assert (Add : forall st, (let* r := AddToBlockIndex alloc c block now steady in let '(s, p) := r in Ok (s, st, Some p, true)) = Ok (c', state', found, true) ->
    exists hash p, found = Some p /\ hdr_GetHash block = Some hash /\ mapBlockIndex c' !! hash = Some p).
  { intros st E. apply obind_ok in E as ([c1 p] & A & E). apply Ok_inj in E. injection E as <- _ <-. destruct (AddToBlockIndex_found _ _ _ _ _ _ _ A) as (hash & X & Y). now exists hash, p. }
  intros E. unfold AcceptBlockHeader in E. apply obind_ok in E as (hash & Hh & E). apply block_hash_some in Hh. destruct (bool_decide _); [discriminate|].
  destruct (negb _); [|exact (Add _ E)]. destruct (mapBlockIndex c !! hash) as [p|] eqn:M.
  - apply obind_ok in E as (b & _ & E). destruct (isInvalid _); [discriminate|]. apply Ok_inj in E. injection E as <- _ <-. now exists hash, p.
  - apply obind_ok in E as ([st ok] & _ & E). destruct ok; [exact (Add _ E) | discriminate].
Qed.
End Header.

(** ** Storing a block *)

Section Store.
Context (total : ptr -> Z) (config : Config) (tip : ptr).

(** The index stays in order, no entry is added, the active chain stays, and only [p] can get data. *)
Record step_ok (p : ptr) (c c' : chain_state) : Prop := mkStep {
  sk_index : index_ok total config c' tip;
  sk_cores : cores (cs_heap c') = cores (cs_heap c);
  sk_chain : chainActive c' = chainActive c;
  sk_data : forall q x, cs_heap c' !! q = Some x -> hasData (nStatus x) = true -> (exists y, cs_heap c !! q = Some y /\ hasData (nStatus y) = true) \/ q = p
}.

Lemma volatile_step p c c' : index_ok total config c tip -> volatile c c' -> step_ok p c c'.
Proof.
  intros I U. split; [exact (volatile_ok total config c c' tip I U) | apply U | apply U|].
  intros q x X D. destruct (v_entry _ _ U q x X) as (y & Y & _ & _ & Hy). left. exists y. auto.
Qed.

Lemma step_trans p c1 c2 c3 : step_ok p c1 c2 -> step_ok p c2 c3 -> step_ok p c1 c3.
Proof.
  intros A B. split; [apply B | rewrite (sk_cores _ _ _ B); apply A | rewrite (sk_chain _ _ _ B); apply A|].
  intros q x X D. destruct (sk_data _ _ _ B q x X D) as [(y & Y & Dy)| ->]; [exact (sk_data _ _ _ A q y Y Dy) | now right].
Qed.

Lemma received_step c block state p b pos meta c' state' ok : index_ok total config c tip -> cs_heap c !! p = Some b -> 0 < len (vtx block) -> before total b + len (vtx block) <= total p ->
  nBlockSequenceId c + len (mapBlocksUnlinked c) < 2 ^ 31 - 1 -> ReceivedBlockTransactions c block state p pos meta = Ok (c', state', ok) -> step_ok p c c'.
Proof.
  intros I E Hl Ht Id Q. assert (Q0 := Q). unfold ReceivedBlockTransactions, deref in Q. rewrite E in Q. cbn [or_abort obind] in Q. apply obind_ok in Q as (v & Vi & Q). destruct v.
  - match type of Q with obind (InvalidateChain ?x _) _ = _ => set (c1 := x) in * end. apply obind_ok in Q as (c2 & E2 & Q). apply obind_ok in Q as (c3 & E3 & Q). apply Ok_inj in Q. injection Q as <- _ _.
    assert (U1 : volatile c c1) by (apply (volatile_status c _ p b (withFailed (nStatus b) true)); [exact E | now rewrite failed_status | reflexivity | apply subseteq_difference_l; reflexivity]).
    pose proof (InvalidateChain_volatile total config tip c1 p c2 (volatile_ok total config _ _ tip I U1) E2) as U2. pose proof (volatile_trans _ _ _ U1 U2) as U12.
    pose proof (InvalidChainFound_volatile total config tip c2 p c3 (volatile_ok total config _ _ tip I U12) E3) as U3. exact (volatile_step p c c3 I (volatile_trans _ _ _ U12 U3)).
  - clear Q. destruct (ReceivedBlockTransactions_spec total c tip p b block state pos meta (io_receive _ _ _ _ I) E Vi Hl Ht Id)
      as (s' & b' & R & Ro & Co & Be & Ma & Sa & St & Ch & _). rewrite Q0 in R. apply Ok_inj in R. injection R as <- _ _. split; [split|exact Co | exact Ch |].
    + apply (headers_frame config c c' tip (io_headers _ _ _ _ I) Co Ch Ma Be). rewrite Sa. exact (safe_ok_dom _ _ _ (cores_some _ _ Co) (ho_safe _ _ _ (io_headers _ _ _ _ I))).
    + exact Ro.
    + intros q x X D. destruct (decide (q = p)) as [->|Nq]; [now right|]. destruct (St q x Nq X) as (y & Y & Hs). left. exists y. split; [exact Y | congruence].
Qed.

Context {B : BIGNUM} {K : Secp256k1} {V : Type} `{CCoinsView V}.

Lemma store_step pref fPrune magic sizeofRef sizeofIn sizeofOut space what c (n : node (V := V)) block state p b height dbp c' n' state' ok :
  index_ok total config c tip -> cs_heap c !! p = Some b -> 0 < len (vtx block) -> before total b + len (vtx block) <= total p -> nBlockSequenceId c + len (mapBlocksUnlinked c) < 2 ^ 31 - 1 ->
  store_block pref fPrune magic sizeofRef sizeofIn sizeofOut space what c n block state p height dbp = Ok (c', n', state', ok) -> step_ok p c c'.
Proof.
  intros I E Hl Ht Id Q. pose proof (volatile_step p c c I (volatile_refl c)) as Same.
  unfold store_block in Q. apply obind_ok in Q as ([[[[[st d] state1] pos] check] ok1] & _ & Q). destruct (negb ok1); [apply Ok_inj in Q; injection Q as <- _ _ _; exact Same|].
  unfold try_ at 1 in Q. match type of Q with match ?m with _ => _ end = _ => destruct m as [[[[n1 state2] pos2] meta]| |x| |] end; cbn [obind] in Q; try discriminate; [|apply Ok_inj in Q; injection Q as <- _ _ _; exact Same].
  unfold try_ in Q. destruct (ReceivedBlockTransactions c block state2 p pos2 meta) as [[[c2 st2] ok2]| |x| |] eqn:R; cbn [obind] in Q; try discriminate; apply Ok_inj in Q; injection Q as <- _ _ _; [|exact Same].
  exact (received_step c block state2 p b pos2 meta c2 st2 ok2 I E Hl Ht Id R).
Qed.

Lemma check_new_block_true c block fChecked state b state' fChecked' : check_new_block config c block fChecked state b = Ok (state', true, fChecked') ->
  (fChecked = true -> BlockCheck.accepted config block default_options) -> BlockCheck.accepted config block default_options /\
  exists st, ContextualCheckBlock config (cs_heap c) block st (pprev b) = Ok (state', true).
Proof.
  intros E Ck. unfold check_new_block in E. apply obind_ok in E as (h & _ & E). apply obind_ok in E as ([[st ok] fc] & E1 & E). destruct ok; [|discriminate].
  apply obind_ok in E as ([st2 ok2] & E2 & E). apply Ok_inj in E. injection E as <- -> _. split; [|now exists st].
  unfold CheckBlock in E1. destruct fChecked; [exact (Ck eq_refl)|]. apply obind_ok in E1 as ([st3 ok3] & E3 & E1). apply Ok_inj in E1. injection E1 as -> -> _.
  exact (proj1 (check_block_true config block state st (nHeight b) default_options h E3)).
Qed.

Lemma header_step alloc invalidBlocks checkpoints c block state adjusted now steady c1 state1 found ok n : (forall h, h !! alloc h = None) -> index_ok total config c tip -> 0 <= n -> room total c block n ->
  0 <= hdr_nBits block < 2 ^ 32 -> AcceptBlockHeader alloc config invalidBlocks checkpoints c block state adjusted now steady = Ok (c1, state1, found, ok) ->
  exists total', index_ok total' config c1 tip /\ (forall q, is_Some (cs_heap c !! q) -> total' q = total q) /\
    (forall q d, cs_heap c1 !! q = Some d -> phashBlock d = hdr_GetHash block -> before total' d + n <= total' q) /\
    cs_heap c ⊆ cs_heap c1 /\ chainActive c1 = chainActive c /\ nBlockSequenceId c1 = nBlockSequenceId c /\ mapBlocksUnlinked c1 = mapBlocksUnlinked c /\
    forall q x, cs_heap c1 !! q = Some x -> hasData (nStatus x) = true -> cs_heap c !! q = Some x.
Proof.
  intros Fr I Hn Rm Hb A. destruct (AcceptBlockHeader_spec alloc Fr config invalidBlocks checkpoints c tip block state _ _ _ c1 state1 found ok (io_headers _ _ _ _ I) Hb A) as (H1 & Acc & _).
  destruct Acc as [->|(hash & p & b & q & prev & Ad & _)].
  { exists total. split; [exact I|]. split; [reflexivity|]. split; [intros q d E; exact (proj1 (Rm q d E))|]. split; [reflexivity|]. do 3 (split; [reflexivity|]). auto. }
  pose proof (ad_fresh _ _ _ _ _ _ Ad) as Fp. destruct (added_before total config tip c c1 block hash p b n I Ad) as [Bo Bn]. destruct (ad_rest _ _ _ _ _ _ Ad) as (_ & Y2 & _ & Y4). destruct (ad_empty _ _ _ _ _ _ Ad) as (_ & _ & X3).
  exists (extend total p b n). split; [split; [exact H1 | exact (added_receive total config tip c c1 block hash p b n I Hn Rm H1 Ad)]|].
  split; [intros r [d E]; apply extend_other; congruence|]. split.
  { intros r d. rewrite (ad_heap _ _ _ _ _ _ Ad), lookup_insert_Some. intros [[<- <-]|[D E]] Hd.
    - rewrite Bn. unfold extend. destruct (decide (p = p)); [lia | contradiction].
    - rewrite (Bo r d E), extend_other by congruence. exact (proj1 (Rm r d E) Hd). }
  split; [rewrite (ad_heap _ _ _ _ _ _ Ad); apply insert_subseteq; apply Ad|]. split; [apply Ad|]. split; [exact Y4|]. split; [exact Y2|].
  intros r x. rewrite (ad_heap _ _ _ _ _ _ Ad), lookup_insert_Some. intros [[_ <-]|[_ E]]; [congruence | auto].
Qed.

(** The end of the function, after the block was stored. *)
Lemma finish_step fPrune fReindex target after usage maxMempool space removable c (n : node (V := V)) state p k c1 n1 state1 onActive m : index_ok total config c tip -> is_Some (cs_heap c !! p) ->
  (if fCheckForPruning n then
     let* r := FlushStateToDisk fPrune fReindex target after usage maxMempool space removable (sync c n) state FLUSH_STATE_NONE 0 (mo_mempool k) (mo_cache k) (mo_micros k) in
     let '(n, state, _) := r in Ok (pull c n, n, state)
   else Ok (c, n, state)) = Ok (c1, n1, state1) ->
  (if onActive : bool then Ok (cs_safe c1) else CheckSafeModeParameters (cs_heap c1) (chainActive c1) (cs_safe c1) (Some p)) = Ok m -> volatile c (set_safe c1 m).
Proof.
  intros I D F M. assert (U : volatile c c1).
  { destruct (fCheckForPruning n); [|apply Ok_inj in F; injection F as <- _ _; apply volatile_refl]. apply obind_ok in F as ([[n2 st2] ok2] & F & G). apply Ok_inj in G. injection G as <- _ _.
    apply FlushStateToDisk_trimmed in F. specialize (F c). assert (P : pull c (sync c n) = c) by (destruct c as [[]]; reflexivity). now rewrite P in F. }
  apply (volatile_trans c c1); [exact U|]. apply volatile_safe. destruct onActive; [apply Ok_inj in M; now subst|]. intros _.
  apply (check_safe total config tip c1 p m (volatile_ok total config c c1 tip I U)); [apply (cores_some _ _ (v_cores _ _ U)), D | exact M].
Qed.
End Store.

(** ** Properties *)

(** C6: only checked blocks are stored. Whatever block arrives in an index that is in order, when
    [AcceptBlock] returns, with whatever verdict, the index is in order again: the entries are backed by
    work, the candidates for the best chain are blocks received with all their ancestors, and the active
    chain has not changed. An entry that has data afterwards had it before, or is that of the block that
    has arrived, which then has passed all checks: proof of work, the hash of its transactions in the
    header, well-formed transactions, and the rules that depend on its predecessor. A block that comes
    with the mark [fChecked] has passed the checks that need no context before. The bounds are those of
    the counters: with the block, every chain of the index has less than 2^32 transactions ([total]
    bounds them), and fewer than 2^31 numbers of arrival have been given out. *)
Theorem only_checked_blocks_stored {B : BIGNUM} {K : Secp256k1} {V : Type} `{CCoinsView V} (alloc : heap -> ptr) (config : Config) (invalidBlocks : gset (list Z))
    (fCheckpointsEnabled : bool) (preferredBlockFileSize : Z) (fPruneMode fReindex : bool) (nPruneTarget pruneAfterHeight nCoinCacheUsage maxMempool : Z) (diskMagic : bytes)
    (sizeofRef sizeofIn sizeofOut : Z) (CheckDiskSpace removable : Z -> bool) (what : string) (total : ptr -> Z) (c : chain_state) (n : node (V := V)) (tip : ptr) (block : CBlock)
    (fChecked : bool) (state : CValidationState) (fRequested : bool) (dbp : option CDiskBlockPos) (k : moment) (r : accept_result) :
  (forall h, h !! alloc h = None) -> index_ok total config c tip -> room total c (header block) (len (vtx block)) -> 0 <= hdr_nBits (header block) < 2 ^ 32 ->
  nBlockSequenceId c + len (mapBlocksUnlinked c) < 2 ^ 31 - 1 -> (fChecked = true -> BlockCheck.accepted config block default_options) ->
  AcceptBlock alloc config invalidBlocks fCheckpointsEnabled preferredBlockFileSize fPruneMode fReindex nPruneTarget pruneAfterHeight nCoinCacheUsage maxMempool diskMagic
    sizeofRef sizeofIn sizeofOut CheckDiskSpace removable what c n block fChecked state fRequested dbp k = Ok r ->
  (exists total', index_ok total' config (ac_chain r) tip /\ forall q, is_Some (cs_heap c !! q) -> total' q = total q) /\
  chainActive (ac_chain r) = chainActive c /\
  forall p x, cs_heap (ac_chain r) !! p = Some x -> hasData (nStatus x) = true ->
    (exists y, cs_heap c !! p = Some y /\ hasData (nStatus y) = true) \/
    (exists hash, hdr_GetHash (header block) = Some hash /\ phashBlock x = Some hash /\ BlockCheck.accepted config block default_options /\
       exists h st st', cs_heap c ⊆ h /\ ContextualCheckBlock config h block st (pprev x) = Ok (st', true)).
Proof.
  intros Fr I Rm Hb Id Ck Q. unfold AcceptBlock in Q. apply obind_ok in Q as ([[[c1 st1] found] ok1] & A & Q).
  destruct (header_step total config tip alloc invalidBlocks fCheckpointsEnabled c (header block) state _ _ _ c1 st1 found ok1 _ Fr I (len_nonneg _) Rm Hb A) as (total' & I1 & Tt & Rp & Sub & Ch & Sq & Un & D1).
  enough (index_ok total' config (ac_chain r) tip /\ chainActive (ac_chain r) = chainActive c /\
    forall p x, cs_heap (ac_chain r) !! p = Some x -> hasData (nStatus x) = true -> (exists y, cs_heap c !! p = Some y /\ hasData (nStatus y) = true) \/
      exists hash, hdr_GetHash (header block) = Some hash /\ phashBlock x = Some hash /\ BlockCheck.accepted config block default_options /\
        exists h st st', cs_heap c ⊆ h /\ ContextualCheckBlock config h block st (pprev x) = Ok (st', true)) as (X1 & X2 & X3) by (split; [now exists total' | now split]).
  assert (Quiet : forall c', volatile c1 c' -> index_ok total' config c' tip /\ chainActive c' = chainActive c /\
    forall p x, cs_heap c' !! p = Some x -> hasData (nStatus x) = true -> exists y, cs_heap c !! p = Some y /\ hasData (nStatus y) = true).
  { intros c' U. split; [exact (volatile_ok total' config c1 c' tip I1 U)|]. split; [rewrite (v_chain _ _ U); exact Ch|]. intros p x X Dx.
    destruct (v_entry _ _ U p x X) as (y & Y & _ & _ & Hy). exists y. split; [apply D1; auto | auto]. }
  assert (Same : index_ok total' config c1 tip /\ chainActive c1 = chainActive c /\ forall p x, cs_heap c1 !! p = Some x -> hasData (nStatus x) = true -> exists y, cs_heap c !! p = Some y /\ hasData (nStatus y) = true) by exact (Quiet c1 (volatile_refl c1)).
  destruct ok1; cbn [negb] in Q; [|apply Ok_inj in Q; subst r; cbn [ac_chain]; destruct Same as (X1 & X2 & X3); eauto 6].
  destruct (AcceptBlockHeader_found config _ _ _ _ _ _ _ _ _ _ _ _ A) as (hash & pindex & -> & Hh & Mp). cbn [or_abort obind] in Q.
  destruct (ho_map _ _ _ (io_headers _ _ _ _ I1) hash pindex Mp) as (b & Eb & Hp). unfold deref at 1 in Q. rewrite Eb in Q. cbn [or_abort obind] in Q.
  apply obind_ok in Q as (skip & _ & Q). destruct skip; [apply Ok_inj in Q; subst r; cbn [ac_chain]; destruct Same as (X1 & X2 & X3); eauto 6|].
  apply obind_ok in Q as ([[st2 ok2] fc2] & Cn & Q). destruct ok2; cbn [negb] in Q.
  2: { apply Ok_inj in Q. subst r. cbn [ac_chain]. assert (U : volatile c1 (if IsInvalid st2 && negb (corruptionPossible st2)
         then set_st c1 (dirty (put (cs_st c1) pindex (set_status b (withFailed (nStatus b) true))) pindex) else c1)).
       { destruct (_ && _); [|apply volatile_refl]. apply (volatile_status c1 _ pindex b (withFailed (nStatus b) true)); [exact Eb | now rewrite failed_status | reflexivity | reflexivity]. }
       destruct (Quiet _ U) as (X1 & X2 & X3). eauto 6. }
  destruct (check_new_block_true config c1 block fChecked st1 b st2 fc2 Cn Ck) as (Ac & st & Cx).
  assert (Nv : 0 < len (vtx block)) by (destruct (ac_txs _ _ _ Ac) as (cb & txs & g & Ev & _); rewrite Ev, len_cons; pose proof (len_nonneg txs); lia).
  apply obind_ok in Q as ([[[c2 n2] st3] ok3] & Sb & Q).
  pose proof (store_step total' config tip _ _ _ _ _ _ _ _ c1 n block st2 pindex b (nHeight b) dbp c2 n2 st3 ok3 I1 Eb Nv (Rp pindex b Eb ltac:(congruence)) ltac:(rewrite Sq, Un; exact Id) Sb) as S2.
  assert (Fin : forall c', step_ok total' config tip pindex c1 c' -> index_ok total' config c' tip /\ chainActive c' = chainActive c /\
    forall p x, cs_heap c' !! p = Some x -> hasData (nStatus x) = true -> (exists y, cs_heap c !! p = Some y /\ hasData (nStatus y) = true) \/
      exists hash, hdr_GetHash (header block) = Some hash /\ phashBlock x = Some hash /\ BlockCheck.accepted config block default_options /\
        exists h st st', cs_heap c ⊆ h /\ ContextualCheckBlock config h block st (pprev x) = Ok (st', true)).
  { intros c' S. split; [apply S|]. split; [rewrite (sk_chain _ _ _ _ _ _ S); exact Ch|]. intros p x X Dx. destruct (sk_data _ _ _ _ _ _ S p x X Dx) as [(y & Y & Dy)| ->]; [left; exists y; split; [exact (D1 p y Y Dy) | exact Dy]|].
    right. exists hash. destruct (cores_entry _ _ (sk_cores _ _ _ _ _ _ S) pindex x X) as (y & Y & Cy). rewrite Eb in Y. injection Y as <-.
    split; [exact Hh|]. split; [unfold core in Cy; congruence|]. split; [exact Ac|]. exists (cs_heap c1), st, st2. split; [exact Sub|]. replace (pprev x) with (pprev b) by (unfold core in Cy; congruence). exact Cx. }
  destruct (negb ok3); [apply Ok_inj in Q; subst r; exact (Fin c2 S2)|].
  apply obind_ok in Q as ([[c3 n3] st4] & Fl & Q). apply obind_ok in Q as (onA & _ & Q). apply obind_ok in Q as (m & Sm & Q). apply Ok_inj in Q. subst r. cbn [ac_chain]. apply Fin.
  apply (step_trans total' config tip pindex c1 c2); [exact S2|]. apply volatile_step; [apply S2|].
  apply (finish_step total' config tip fPruneMode fReindex nPruneTarget pruneAfterHeight nCoinCacheUsage maxMempool CheckDiskSpace removable c2 n2 st3 pindex k c3 n3 st4 onA m (sk_index _ _ _ _ _ _ S2)); [|exact Fl | exact Sm].
  apply (cores_some _ _ (sk_cores _ _ _ _ _ _ S2)). now exists b.
Qed.

Lemma block_size_least (block : CBlock) : 80 <= block_size block.
Proof.
  assert (C : forall n, 0 <= GetSizeOfCompactSize n) by (intros n; unfold GetSizeOfCompactSize; repeat destruct (_ <? _); repeat destruct (_ <=? _); lia).
  assert (S : forall A (f : A -> Z) (l : list A), (forall x, 0 <= f x) -> 0 <= fold_right Z.add 0 (map f l)) by (intros A f l F; induction l as [|x l IH]; cbn; [lia | specialize (F x); lia]).
  unfold block_size. enough (0 <= fold_right Z.add 0 (map tx_size (vtx block))) by (specialize (C (len (vtx block))); lia). apply S. intros tx. unfold tx_size.
  pose proof (C (len (vin tx))). pose proof (C (len (vout tx))).
  assert (0 <= fold_right Z.add 0 (map CTxIn_size (vin tx))) by (apply S; intros i; unfold CTxIn_size, script_size; pose proof (C (len (scriptSig i))); pose proof (len_nonneg (scriptSig i)); lia).
  assert (0 <= fold_right Z.add 0 (map CTxOut_size (vout tx))) by (apply S; intros o; unfold CTxOut_size, script_size; pose proof (C (len (scriptPubKey o))); pose proof (len_nonneg (scriptPubKey o)); lia).
  lia.
Qed.

(** C10: a stored block is found again. Storing a block with proof of work in its entry either succeeds,
    and then [ReadBlockFromDisk], called with the entry of the block, returns the block; or the check of
    the disk refused room that was asked for, and then the error says so and the index is left as it is.
    The block is not one that is refused for the order of its transactions, it can be serialized, and it
    is smaller than 2^62 bytes; files are at most 4 GiB and in order, and fewer than 2^31 numbers of
    files and of arrivals have been given out; with the block every chain of the index has less than
    2^32 transactions. *)
Theorem stored_block_readable {V : Type} `{CCoinsView V} (preferredBlockFileSize : Z) (fPruneMode : bool) (diskMagic : bytes)
    (sizeofRef sizeofIn sizeofOut : Z) (CheckDiskSpace : Z -> bool) (what : string) (params : Pow.Params) (total : ptr -> Z) (c : chain_state) (n : node (V := V)) (l : list region) (tip p : ptr)
    (b : CBlockIndex) (block : CBlock) (hash : bytes) (state : CValidationState) :
  receive_ok total c tip -> cs_heap c !! p = Some b -> phashBlock b = Some hash -> hdr_GetHash (header block) = Some hash ->
  Pow.CheckProofOfWork hash (hdr_nBits (header block)) params = true -> block_valid block -> ttor_violated c block (nHeight b) = Ok false ->
  0 < len (vtx block) -> before total b + len (vtx block) <= total p -> nBlockSequenceId c + len (mapBlocksUnlinked c) < 2 ^ 31 - 1 ->
  0 < sizeofRef -> 0 < sizeofIn -> 0 < sizeofOut -> length diskMagic = 4%nat ->
  preferredBlockFileSize <= 2 ^ 32 -> store_ok (store n) l -> len (vinfoBlockFile (store n)) < 2 ^ 31 - 1 -> block_size block < 2 ^ 62 -> files_ok (blk (files n)) ->
  exists c' n' state' ok, store_block preferredBlockFileSize fPruneMode diskMagic sizeofRef sizeofIn sizeofOut CheckDiskSpace what c n block state p (nHeight b) None = Ok (c', n', state', ok) /\
    if ok then state' = state /\ exists b', cs_heap c' !! p = Some b' /\ ReadBlockFromDisk sizeofRef sizeofIn sizeofOut (blk (files n')) b' params = Ok (Some block)
    else c' = c /\ state' = Error state "out of disk space" /\ exists bytes, CheckDiskSpace bytes = false.
Proof.
  intros R E Ph Hh Pw Vb Tt Hl Ht Id Hr Hi Ho Lm Pr So Lv Bs Fo. pose proof (block_size_least block) as Bl. unfold store_block.
  assert (Gh : 8 <= GetBlockFileBlockHeaderSize (block_size block) <= 16) by (unfold GetBlockFileBlockHeaderSize; destruct (_ <=? _); lia).
  rewrite u64_small by lia. set (add := block_size block + _) in *.
  destruct (FindBlockPos_spec preferredBlockFileSize fPruneMode CheckDiskSpace (store n) l (files n) state CDiskBlockPos_new add (nHeight b) (hdr_GetBlockTime (header block)) (fCheckForPruning n) Pr So ltac:(lia) Lv)
    as (st & d & state1 & check & ok & f & k & i & j & -> & Hf & _ & _ & _ & Si & _ & _ & Ro & Hs & Fd & Full). cbn [obind].
  destruct ok; cbn [negb]; [|eexists _, _, _, _; split; [reflexivity|]; split; [reflexivity | exact (Full eq_refl)]]. rewrite (Hs eq_refl). clear Hs.
  assert (Po : pos_ok (mkPos f (nSize i))) by (destruct Si as [[S1 S2] _]; split; [unfold pos_IsNull; cbn; lia|]; cbn; lia).
  destruct (block_file_roundtrip sizeofRef sizeofIn sizeofOut (blk d) (mkPos f (nSize i)) diskMagic block params hash Hr Hi Ho (Fd Fo) Po Lm Vb Hh Pw) as (fs & pos & data & Wr & _ & _ & Rd). rewrite Wr. cbn [obind try_].
  destruct (ReceivedBlockTransactions_spec total c tip p b block state pos (mkMetaData (sha256d data) (len data)) R E Tt Hl Ht Id)
    as (c' & b' & Rc & _ & Co & _ & _ & _ & _ & _ & _ & Eb & Hd & _ & Fi & Dp & _). rewrite Rc. cbn [obind try_].
  eexists _, _, _, _. split; [reflexivity|]. split; [reflexivity|]. exists b'. split; [exact Eb|]. cbn [files set_store set_pruning blk]. unfold ReadBlockFromDisk, GetBlockPos. rewrite Hd, Fi, Dp.
  replace (mkPos (pos_nFile pos) (nPos pos)) with pos by now destruct pos. rewrite Rd, Hh. cbn [or_throw obind].
  destruct (cores_entry _ _ Co p b' Eb) as (b0 & E0 & C0). rewrite E in E0. injection E0 as <-. unfold Chain.GetBlockHash. replace (phashBlock b') with (Some hash) by (unfold core in C0; congruence). cbn [or_abort obind].
  now rewrite bool_decide_eq_true_2.
Qed.

(** Examples: a block after the genesis block of the sample of the headers, and that block itself. *)
#[local] Existing Instance no_coins.

(** A chain of one block. *)
Definition single (hash : bytes) : chain_state :=
  mkChainState (mkState {[1%positive := set_hash first_entry (Some hash)]} ∅ ∅) {[hash := 1%positive]} (mkChain [Some 1%positive] (Some 1%positive)) [] None (Some 1%positive)
    (mkSafe NONE ∅) 1 (-1) zero.

Lemma single_ok (hash : bytes) : receive_ok (fun _ => 1) (single hash) 1.
Proof.
  assert (One : forall p b, cs_heap (single hash) !! p = Some b -> p = 1%positive /\ b = set_hash first_entry (Some hash)) by (intros p b E; cbn in E; apply lookup_singleton_Some in E as [<- <-]; auto).
  split; try (intros p b E; apply One in E as [-> ->]).
  - split; [apply tree_ok_insert; [exact tree_ok_empty | reflexivity | split; reflexivity] | | | reflexivity | eexists; split; [reflexivity | cbn; lia] | | intros p X; now apply elem_of_empty in X | | discriminate].
    + intros p b E. apply One in E as [-> ->]. exact (proj1 (of_u64_spec 2 ltac:(lia))).
    + eexists. split; [reflexivity|]. split; [reflexivity|]. intros i Hi. cbn in Hi. now destruct i; [|lia].
    + intros ha p E. cbn in E. apply lookup_singleton_Some in E as [_ <-]. eexists. reflexivity.
    + split; [|split; reflexivity]. intros k x E. cbn in E. rewrite lookup_empty in E. discriminate.
  - cbn. lia.
  - intros p b q d E _ P. apply One in E as [-> ->]. discriminate.
  - intros a p X. now apply elem_of_nil in X.
  - intros p [b E]. apply One in E as [-> _]. exists hash. apply lookup_singleton_eq.
Qed.

Lemma first_index_ok : index_ok (fun _ => 1) first_config first_state 1.
Proof. split; [exact first_state_ok | exact (single_ok first_hash)]. Qed.

Definition new_coinbase : CTransaction := mkTx 10 [mkTxIn COutPoint_null [0x51; 0] 0xffffffff] [mkTxOut 5000000000 [0x51]] 0.
Definition new_id : bytes := Eval vm_compute in match TxSerializeHash new_coinbase with Some id => id | None => [] end.
Definition new_block : CBlock := mkBlock (mkHeader 4 first_hash new_id 1600000000 0x207fffff 1) [new_coinbase].
Definition new_node : node (V := unit) :=
  mkNode ∅ ∅ (mkChain [] None) ∅ [] (mkStore [mkInfo 1 0 0 0 0 100 0] 0 ∅) (mkDisk {[0 := repeat 0 100]} ∅) (mkTree ∅ ∅ None false) (CCoinsViewCache_of tt) false false 0 0 0 [].
Definition new_result : outcome (accept_result (V := unit)) :=
  AcceptBlock (B := Z_BIGNUM) (K := lenient_secp) free first_config ∅ true 0x8000000 false false 0 0 0 0 [1; 2; 3; 4] 8 72 40 (fun _ => true) (fun _ => true) "disk failure"
    first_state new_node new_block false CValidationState_new true None (mkMoment (mkClocks 1600000000 1600000000 7) 0 0 0).

Lemma only_checked_blocks_stored_witness : exists r, new_result = Ok r /\ ac_ok r = true /\ exists total', index_ok total' first_config (ac_chain r) 1.
Proof.
  assert (R : match new_result with Ok r => ac_ok r | _ => false end = true) by (vm_compute; reflexivity).
  destruct new_result as [r|?|?| |] eqn:E; try discriminate R. exists r. split; [reflexivity|]. split; [exact R|]. unfold new_result in E.
  assert (Rm : room (fun _ => 1) first_state (header new_block) (len (vtx new_block))).
  { intros p b X. cbn in X. apply lookup_singleton_Some in X as [<- <-]. split; [intros Y; vm_compute in Y; discriminate Y | intros _; vm_compute; reflexivity]. }
  destruct (proj1 (only_checked_blocks_stored (B := Z_BIGNUM) (K := lenient_secp) free first_config ∅ true 0x8000000 false false 0 0 0 0 [1; 2; 3; 4] 8 72 40 (fun _ => true) (fun _ => true)
    "disk failure" (fun _ => 1) first_state new_node 1 new_block false CValidationState_new true None (mkMoment (mkClocks 1600000000 1600000000 7) 0 0 0) r free_fresh first_index_ok Rm
    ltac:(cbn; lia) ltac:(vm_compute; reflexivity) ltac:(discriminate) E)) as (total' & I & _). now exists total'.
Defined.

Definition stored_block : CBlock := mkBlock (mkHeader 4 (repeat 0 32) easy_id 1599990000 0x207fffff 1) [easy_coinbase].
Definition stored_hash : bytes := Eval vm_compute in match hdr_GetHash (header stored_block) with Some hash => hash | None => [] end.

Lemma stored_block_valid : block_valid stored_block.
Proof.
  split; [|split; [constructor; [|constructor] | vm_compute; discriminate]].
  - unfold header_valid. cbn. repeat split; try lia; apply bytes_okb; reflexivity.
  - unfold tx_valid. repeat (split || constructor); try (apply bytes_okb; reflexivity); try (vm_compute; congruence); try reflexivity.
Qed.

Lemma stored_block_readable_witness : exists c' n' state' ok,
  store_block 0x8000000 false [1; 2; 3; 4] 16 72 40 (fun _ => true) "disk failure" (single stored_hash) new_node stored_block CValidationState_new 1 0 None =
    Ok (c', n', state', ok) /\
  if ok then exists b', cs_heap c' !! 1%positive = Some b' /\ ReadBlockFromDisk 16 72 40 (blk (files n')) b' easy_pow = Ok (Some stored_block) else False.
Proof.
  assert (So : store_ok (store new_node) []) by (split; [cbn; lia | constructor; [split; cbn; lia | constructor] | constructor | constructor]).
  assert (Fo : files_ok (blk (files new_node))) by (intros k f E; cbn in E; apply lookup_singleton_Some in E as [_ <-]; exact (zeros_ok 100)).
  destruct (stored_block_readable 0x8000000 false [1; 2; 3; 4] 16 72 40 (fun _ => true) "disk failure" easy_pow (fun _ => 1) (single stored_hash) new_node [] 1 1
    (set_hash first_entry (Some stored_hash)) stored_block stored_hash CValidationState_new (single_ok stored_hash) eq_refl eq_refl ltac:(vm_compute; reflexivity) ltac:(vm_compute; reflexivity) stored_block_valid
    eq_refl ltac:(vm_compute; reflexivity) ltac:(vm_compute; discriminate) ltac:(vm_compute; reflexivity) ltac:(lia) ltac:(lia) ltac:(lia) eq_refl ltac:(lia) So
    ltac:(vm_compute; reflexivity) ltac:(vm_compute; reflexivity) Fo) as (c' & n' & state' & ok & E & R).
  assert (T : match store_block 0x8000000 false [1; 2; 3; 4] 16 72 40 (fun _ => true) "disk failure" (single stored_hash) new_node stored_block CValidationState_new 1 0 None with
    Ok (_, _, _, ok) => ok | _ => false end = true) by (vm_compute; reflexivity).
  change (nHeight (set_hash first_entry (Some stored_hash))) with 0 in E. rewrite E in T. exists c', n', state', ok. split; [exact E|]. subst ok. exact (proj2 R).
Defined.
End AcceptBlock.
