(* ===== verification/ConnectBlock.v ===== *)
(** * Validation against the coins (src/src/validation.cpp)

    The checks of the inputs of a transaction against the coins they spend, the deferred script
    checks, and [ConnectBlock], which applies a block to the coins if it is valid. *)

From Stdlib Require Import String.
From stdpp Require Import gmap.
From S2P Require Import Prelude Endian IntSerialization Outcome BigInt ScriptNum Hash Opcodes Script Serialize.
From S2P Require Import Amount Transaction Block ScriptChecks PubKey SigHash Interpreter SigChecker Merkle.
From S2P Require Import ArithUint256 BlockIndex Chain Pow Coins Undo Compressor Disk Validation SequenceLocks BlockCheck BlockFiles.
Import BigInt ArithUint256 Script Serialize Amount Transaction Block ScriptChecks PubKey SigHash BlockIndex Chain Coins Undo Compressor Disk Validation SequenceLocks BlockCheck BlockFiles.

Module ConnectBlock.
Local Open Scope Z_scope.
Local Open Scope outcome_scope.
Local Open Scope word_scope.

(** [CScriptCheck]: what is needed to verify one input later. *)
Record CScriptCheck : Type := mkCheck {
  ck_consensus : bool;
  ck_scriptPubKey : bytes;
  ck_amount : Amount;
  ck_tx : CTransaction;
  ck_nIn : nat;
  ck_flags : Z;
  ck_txdata : PrecomputedTransactionData
}.

Definition MANDATORY_SCRIPT_VERIFY_FLAGS : Z :=
  SCRIPT_VERIFY_P2SH ||| SCRIPT_VERIFY_STRICTENC ||| SCRIPT_ENABLE_SIGHASH_FORKID ||| SCRIPT_VERIFY_LOW_S ||| SCRIPT_VERIFY_NULLFAIL.
Definition STANDARD_SCRIPT_VERIFY_FLAGS : Z :=
  MANDATORY_SCRIPT_VERIFY_FLAGS ||| SCRIPT_VERIFY_DERSIG ||| SCRIPT_VERIFY_MINIMALDATA ||| SCRIPT_VERIFY_NULLDUMMY |||
  SCRIPT_VERIFY_DISCOURAGE_UPGRADABLE_NOPS ||| SCRIPT_VERIFY_CLEANSTACK ||| SCRIPT_VERIFY_CHECKLOCKTIMEVERIFY |||
  SCRIPT_VERIFY_CHECKSEQUENCEVERIFY.
Definition STANDARD_NOT_MANDATORY_VERIFY_FLAGS : Z := STANDARD_SCRIPT_VERIFY_FLAGS &&& not32 MANDATORY_SCRIPT_VERIFY_FLAGS.
Definition COINBASE_MATURITY : Z := 1.
Definition P2SH_ACTIVATION_TIME : Z := 1333234914.

(** [StandardNonFinalVerifyFlags] *)
Definition StandardNonFinalVerifyFlags (genesisEnabled : bool) : Z :=
  if negb genesisEnabled then LOCKTIME_MEDIAN_TIME_PAST ||| LOCKTIME_VERIFY_SEQUENCE else LOCKTIME_MEDIAN_TIME_PAST.

Definition IsGenesisGracefulPeriod (config : Config) (spendHeight : Z) : bool :=
  let uSpendHeight := u64 spendHeight in
  (u64 (genesisActivationHeight config - genesisGracefulPeriod config) <? uSpendHeight) &&
  (uSpendHeight <? u64 (genesisActivationHeight config + genesisGracefulPeriod config)).

(** [GetBlockScriptFlags] *)
Definition GetBlockScriptFlags (config : Config) (h : heap) (pChainTip : ptr) : outcome Z :=
  let* b := deref h pChainTip in
  let next := nHeight b + 1 in
  let* mtp := GetMedianTimePast h pChainTip in
  let flags := SCRIPT_VERIFY_NONE in
  let flags := if P2SH_ACTIVATION_TIME <=? mtp then flags ||| SCRIPT_VERIFY_P2SH else flags in
  let flags := if BIP66Height config <=? next then flags ||| SCRIPT_VERIFY_DERSIG else flags in
  let flags := if BIP65Height config <=? next then flags ||| SCRIPT_VERIFY_CHECKLOCKTIMEVERIFY else flags in
  let flags := if CSVHeight config <=? next then flags ||| SCRIPT_VERIFY_CHECKSEQUENCEVERIFY else flags in
  let flags := if uahfHeight config <=? nHeight b then flags ||| SCRIPT_VERIFY_STRICTENC ||| SCRIPT_ENABLE_SIGHASH_FORKID else flags in
  let flags := if Pow.IsDAAEnabled (pow config) (nHeight b) then flags ||| SCRIPT_VERIFY_LOW_S ||| SCRIPT_VERIFY_NULLFAIL else flags in
  let* genesis := IsGenesisEnabled (genesisActivationHeight config) next in
  Ok (if genesis then flags ||| SCRIPT_GENESIS ||| SCRIPT_VERIFY_SIGPUSHONLY else flags).

Section Connect.
Context {B : BIGNUM} {K : Secp256k1}.
Context {V : Type} `{CCoinsView V} (usage : Coin -> Z).
(** The limits of the script engine, the polls of the cancellation token and the memory of fresh
    hashers. *)
Context (limits : Interpreter.CScriptConfig) (canceled : nat -> bool) (garbage : bytes).
Context (config : Config).
Implicit Type c : CCoinsViewCache V.

(** ** Script checks *)

(** [CScriptCheck::operator()]: nothing when the script is satisfied, else the error. Signatures are
    checked each time; the cache of signatures only saves the work. *)
Definition run_check (k : CScriptCheck) : outcome (option ScriptError) :=
  let* i := or_abort (nth_error (vin (ck_tx k)) (ck_nIn k)) in
  let checker := SigChecker.as_checker (SigChecker.mkTxChecker (ck_tx k) (Z.of_nat (ck_nIn k)) (ck_amount k) (Some (ck_txdata k))) in
  let env := Interpreter.mkEnv B limits (ck_consensus k) canceled (ck_flags k) checker garbage in
  match Interpreter.VerifyScript env (scriptSig i) (ck_scriptPubKey k) with
  | Ok _ => Ok None
  | Err e => Ok (Some e)
  | Throw x => Throw x
  | Canceled => Canceled
  | Abort => Abort
  end.

(** The queue of checks: whether all scripts are satisfied. *)
Fixpoint run_checks (l : list CScriptCheck) : outcome bool :=
  match l with
  | [] => Ok true
  | k :: l => let* r := run_check k in match r with None => run_checks l | Some _ => Ok false end
  end.

(** ** The inputs of a transaction *)

Definition GetSpendHeightAndMTP (h : heap) (mapBlockIndex : BlockMap) c : outcome (CCoinsViewCache V * Z) :=
  let '(c, best) := GetBestBlock c in
  let* pindexPrev := or_abort (mapBlockIndex !! best) in
  let* prev := deref h pindexPrev in
  let* _ := GetMedianTimePast h pindexPrev in
  Ok (c, nHeight prev + 1).

(** The loop of [CheckTxInputs]: the sum of the values, or nothing after a rejection. *)
Fixpoint sum_inputs c (state : CValidationState) (nSpendHeight : Z) (nValueIn : Amount) (ins : list CTxIn)
    : outcome (CCoinsViewCache V * CValidationState * option Amount) :=
  match ins with
  | [] => Ok (c, state, Some nValueIn)
  | i :: ins =>
      let '(c, d) := AccessCoin usage c (prevout i) in
      assert_ (negb (IsSpent d)) (
        if coin_IsCoinBase d && (u32 (nSpendHeight - GetHeight d) <? COINBASE_MATURITY) then
          Ok (c, Invalid state REJECT_INVALID "bad-txns-premature-spend-of-coinbase", None)
        else
          let* nValueIn := amount_add nValueIn (nValue (out d)) in
          if negb (MoneyRange (nValue (out d))) || negb (MoneyRange nValueIn) then
            Ok (c, DoS state 100 REJECT_INVALID "bad-txns-inputvalues-outofrange" false, None)
          else sum_inputs c state nSpendHeight nValueIn ins)
  end.

Definition CheckTxInputs (tx : CTransaction) (state : CValidationState) c (nSpendHeight : Z) : outcome (CCoinsViewCache V * CValidationState * bool) :=
  let '(c, have) := HaveInputs usage c tx in
  if negb have then Ok (c, Invalid state 0 "", false)
  else
    let* r := sum_inputs c state nSpendHeight 0 (vin tx) in
    let '(c, state, sum) := r in
    match sum with
    | None => Ok (c, state, false)
    | Some nValueIn =>
        let* nValueOut := GetValueOut tx in
        if nValueIn <? nValueOut then Ok (c, DoS state 100 REJECT_INVALID "bad-txns-in-belowout" false, false)
        else
          let* nTxFee := amount_sub nValueIn nValueOut in
          if nTxFee <? 0 then Ok (c, DoS state 100 REJECT_INVALID "bad-txns-fee-negative" false, false)
          else
            let* nFees := amount_add 0 nTxFee in
            if negb (MoneyRange nFees) then Ok (c, DoS state 100 REJECT_INVALID "bad-txns-fee-outofrange" false, false)
            else Ok (c, state, true)
    end.

Definition GetInputScriptBlockHeight (coinHeight chainHeight : Z) : Z :=
  if coinHeight =? MEMPOOL_HEIGHT then chainHeight + 1 else coinHeight.

(** What a script that failed leads to; reasons without their formatted parts. *)
Definition script_failed (state : CValidationState) (k : CScriptCheck) (e : ScriptError) (spendHeight : Z) (consensus : bool) : outcome CValidationState :=
  let graceful := IsGenesisGracefulPeriod config spendHeight in
  let mandatory := DoS state 100 REJECT_INVALID "mandatory-script-verify-flag-failed" false in
  let again flags := run_check (mkCheck true (ck_scriptPubKey k) (ck_amount k) (ck_tx k) (ck_nIn k)
    (flags &&& not32 STANDARD_NOT_MANDATORY_VERIFY_FLAGS) (ck_txdata k)) in
  if negb graceful && negb consensus && (if ScriptError_eq_dec e SCRIPT_ERR_SCRIPTNUM_OVERFLOW then true else false) then
    Ok (DoS state 10 REJECT_INVALID "max-script-num-length-policy-limit-violated" false)
  else if negb (ck_flags k &&& STANDARD_NOT_MANDATORY_VERIFY_FLAGS =? 0) then
    let* r2 := again (ck_flags k) in
    match r2 with
    | None => Ok (Invalid state REJECT_NONSTANDARD "non-mandatory-script-verify-flag")
    | Some _ =>
        if graceful then
          let* r3 := again (ck_flags k ^^^ SCRIPT_UTXO_AFTER_GENESIS) in
          match r3 with
          | None => Ok (Invalid state REJECT_NONSTANDARD "genesis-script-verify-flag-failed")
          | Some _ => Ok mandatory
          end
        else Ok mandatory
    end
  else Ok mandatory.

(** The loop of [CheckInputs] over the inputs from the index [n] on; [deferred] when the caller
    passes a vector for the checks. *)
Fixpoint check_scripts c (consensus : bool) (tx : CTransaction) (state : CValidationState) (spendHeight chainHeight flags : Z) (deferred : bool)
    (txdata : PrecomputedTransactionData) (checks : list CScriptCheck) (n : nat) (ins : list CTxIn)
    : outcome (CCoinsViewCache V * CValidationState * bool * list CScriptCheck) :=
  match ins with
  | [] => Ok (c, state, true, checks)
  | i :: ins =>
      let '(c, d) := AccessCoin usage c (prevout i) in
      assert_ (negb (IsSpent d)) (
        let inputScriptBlockHeight := GetInputScriptBlockHeight (GetHeight d) chainHeight in
        let* isGenesisEnabled := IsGenesisEnabled (genesisActivationHeight config) inputScriptBlockHeight in
        let perInputScriptFlags := if isGenesisEnabled then SCRIPT_UTXO_AFTER_GENESIS else 0 in
        let k := mkCheck consensus (scriptPubKey (out d)) (nValue (out d)) tx n (flags ||| perInputScriptFlags) txdata in
        if (824190 <=? spendHeight) && (inputScriptBlockHeight <=? 824190) then
          Ok (c, DoS state 100 REJECT_INVALID "mandatory-verify-flag-failed" false, false, checks)
        else if deferred then
          check_scripts c consensus tx state spendHeight chainHeight flags deferred txdata (checks ++ [k]) (S n) ins
        else
          let* r := run_check k in
          match r with
          | None => check_scripts c consensus tx state spendHeight chainHeight flags deferred txdata checks (S n) ins
          | Some e => let* state := script_failed state k e spendHeight consensus in Ok (c, state, false, checks)
          end)
  end.

(** [cachedScripts]: the transaction with these flags is in the cache of executed scripts. *)
Definition CheckInputs (h : heap) (mapBlockIndex : BlockMap) (consensus : bool) (tx : CTransaction) (state : CValidationState) c
    (fScriptChecks : bool) (flags : Z) (cachedScripts : bool) (txdata : PrecomputedTransactionData) (deferred : bool) (chainHeight : Z)
    : outcome (CCoinsViewCache V * CValidationState * bool * list CScriptCheck) :=
  assert_ (negb (IsCoinBase tx)) (
    let* r := GetSpendHeightAndMTP h mapBlockIndex c in
    let '(c, spendHeight) := r in
    if (824190 <=? spendHeight) && negb (Transaction.nVersion tx =? 10) then Ok (c, Invalid state 0 "", false, [])
    else
      let* r := CheckTxInputs tx state c spendHeight in
      let '(c, state, ok) := r in
      if negb ok then Ok (c, state, false, [])
      else if negb fScriptChecks then Ok (c, state, true, [])
      else if cachedScripts then Ok (c, state, true, [])
      else check_scripts c consensus tx state spendHeight chainHeight flags deferred txdata [] 0 (vin tx)).

(** ** Signature operations *)

(** The loop of [GetP2SHSigOpCount]: the count and [sigOpCountError]. *)
Fixpoint p2sh_sigops c (nSigOps : Z) (ins : list CTxIn) : outcome (CCoinsViewCache V * Z * bool) :=
  match ins with
  | [] => Ok (c, nSigOps, false)
  | i :: ins =>
      let '(c, d) := AccessCoin usage c (prevout i) in
      assert_ (negb (IsSpent d)) (
        let* genesisEnabled := (if negb (GetHeight d =? MEMPOOL_HEIGHT) then IsGenesisEnabled (genesisActivationHeight config) (GetHeight d) else Ok true) in
        if genesisEnabled then p2sh_sigops c nSigOps ins
        else if IsP2SH (scriptPubKey (out d)) then
          let* r := GetSigOpCount_p2sh (scriptPubKey (out d)) (scriptSig i) genesisEnabled in
          let nSigOps := u64 (nSigOps + fst r) in
          if snd r then Ok (c, nSigOps, true) else p2sh_sigops c nSigOps ins
        else p2sh_sigops c nSigOps ins)
  end.

Definition GetP2SHSigOpCount (tx : CTransaction) c : outcome (CCoinsViewCache V * Z * bool) :=
  if IsCoinBase tx then Ok (c, 0, false) else p2sh_sigops c 0 (vin tx).

Definition GetTransactionSigOpCount (tx : CTransaction) c (checkP2SH isGenesisEnabled : bool) : outcome (CCoinsViewCache V * Z * bool) :=
  let* r := GetSigOpCountWithoutP2SH tx isGenesisEnabled in
  let '(nSigOps, sigOpCountError) := r in
  if sigOpCountError then Ok (c, nSigOps, true)
  else if IsCoinBase tx then Ok (c, nSigOps, false)
  else if checkP2SH then
    let* r := GetP2SHSigOpCount tx c in
    let '(c, n, sigOpCountError) := r in Ok (c, u64 (nSigOps + n), sigOpCountError)
  else Ok (c, nSigOps, false).

(** ** The block *)

(** The hash whose hexadecimal form is the number [z]. *)
Definition uint256S (z : Z) : bytes := le_encode 32 z.

(** The globals that are only read: the index, the active chain, the block whose history is assumed
    valid, the best header, the least work of a chain, and the transactions whose scripts are in the
    cache with the flags of the block. *)
Context (mapBlockIndex : BlockMap) (chainActive : CChain) (hashAssumeValid : bytes) (pindexBestHeader : option ptr) (nMinimumChainWork : base_uint).
Context (cachedScripts : CTransaction -> bool).

(** [fScriptChecks] *)
Definition script_checks (h : heap) (pindex : ptr) (b : CBlockIndex) : outcome bool :=
  if hash_IsNull hashAssumeValid then Ok true
  else
    match mapBlockIndex !! hashAssumeValid with
    | None => Ok true
    | Some it =>
        let* a := GetAncestor h it (nHeight b) in
        if negb (ptr_eqb a (Some pindex)) then Ok true
        else
          let* best := or_abort pindexBestHeader in
          let* a := GetAncestor h best (nHeight b) in
          if negb (ptr_eqb a (Some pindex)) then Ok true
          else
            let* bb := deref h best in
            if negb (ge (nChainWork bb) nMinimumChainWork) then Ok true
            else
              let* time := GetBlockProofEquivalentTime bb b bb (Pow.nPowTargetSpacing (pow config)) in
              Ok (time <=? 60 * 60 * 24 * 7 * 2)
    end.

(** [fEnforceBIP30] *)
Definition enforce_bip30 (h : heap) (b : CBlockIndex) : outcome bool :=
  let fEnforceBIP30 :=
    match phashBlock b with
    | None => true
    | Some hash =>
        negb (((nHeight b =? 91842) && Merkle.hash_eqb hash (uint256S 0x00000000000a4d0a398161ffc163c503763b1f4360639393e0e4c8e300e0caec)) ||
              ((nHeight b =? 91880) && Merkle.hash_eqb hash (uint256S 0x00000000000743f190a18c5577a3c2d2a1f610ae9601ac046a38084ccb7cd721)))
    end in
  let* prev := or_abort (pprev b) in
  let* pindexBIP34height := GetAncestor h prev (BIP34Height config) in
  if fEnforceBIP30 then
    match pindexBIP34height with
    | None => Ok true
    | Some q => let* e := deref h q in let* hash := GetBlockHash e in Ok (negb (Merkle.hash_eqb hash (BIP34Hash config)))
    end
  else Ok false.

(** The loops of BIP 30: whether some output of the block is unspent already. *)
Fixpoint have_outputs c (id : bytes) (o : nat) (outs : list CTxOut) : CCoinsViewCache V * bool :=
  match outs with
  | [] => (c, false)
  | _ :: outs =>
      let '(c, have) := HaveCoin usage c (mkOutPoint id (u32 (Z.of_nat o))) in
      if have then (c, true) else have_outputs c id (S o) outs
  end.

Fixpoint overwrites c (txs : list CTransaction) : outcome (CCoinsViewCache V * bool) :=
  match txs with
  | [] => Ok (c, false)
  | tx :: txs =>
      let* id := GetId tx in
      let '(c, have) := have_outputs c id 0 (vout tx) in
      if have then Ok (c, true) else overwrites c txs
  end.

Fixpoint prev_heights c (ins : list CTxIn) : CCoinsViewCache V * list Z :=
  match ins with
  | [] => (c, [])
  | i :: ins =>
      let '(c, d) := AccessCoin usage c (prevout i) in
      let '(c, l) := prev_heights c ins in (c, GetHeight d :: l)
  end.

(** What one transaction adds to the fees and the signature operations of the block, with its
    checks and undo data. *)
Record tx_result : Type := mkTxResult { t_fees : Amount; t_sigops : Z; t_checks : list CScriptCheck; t_undo : CTxUndo }.

(** The body of the loop over the transactions; nothing after a rejection. *)
Definition connect_tx (h : heap) (pindex : ptr) (height : Z) (fScriptChecks isGenesisEnabled : bool) (flags nLockTimeFlags maxSigOps chainHeight : Z)
    c (state : CValidationState) (tx : CTransaction) (nFees : Amount) (nSigOpsCount : Z) : outcome (CCoinsViewCache V * CValidationState * option tx_result) :=
  let rejected c reason := Ok (c, DoS state 100 REJECT_INVALID reason false, None) in
  let regular := negb (IsCoinBase tx) in
  let '(c, have) := if regular then HaveInputs usage c tx else (c, true) in
  if negb have then rejected c "bad-txns-inputs-missingorspent"%string
  else
    let '(c, prevheights) := if regular then prev_heights c (vin tx) else (c, []) in
    let* final := (if regular then SequenceLocks h tx nLockTimeFlags prevheights pindex else Ok true) in
    if negb final then rejected c "bad-txns-nonfinal"%string
    else
      let* r := (if negb isGenesisEnabled then GetTransactionSigOpCount tx c (has flags SCRIPT_VERIFY_P2SH) false else Ok (c, 0, false)) in
      let '(c, txSigOpsCount, sigOpCountError) := r in
      if negb isGenesisEnabled && (sigOpCountError || (MAX_TX_SIGOPS_COUNT_BEFORE_GENESIS <? txSigOpsCount)) then rejected c "bad-txn-sigops"%string
      else
        let nSigOpsCount := u64 (nSigOpsCount + txSigOpsCount) in
        if negb isGenesisEnabled && (maxSigOps <? nSigOpsCount) then rejected c "bad-blk-sigops"%string
        else
          let* r := (if regular then
                       let* r := GetValueIn usage c tx in
                       let '(c, valueIn) := r in
                       let* valueOut := GetValueOut tx in
                       let* fee := amount_sub valueIn valueOut in
                       let* nFees := amount_add nFees fee in
                       let* txdata := Precompute tx in
                       let* r := CheckInputs h mapBlockIndex true tx state c fScriptChecks flags (cachedScripts tx) txdata true chainHeight in
                       let '(c, state, ok, vChecks) := r in Ok (c, state, ok, vChecks, nFees)
                     else Ok (c, state, true, [], nFees)) in
          let '(c, state, ok, vChecks, nFees) := r in
          if negb ok then Ok (c, state, None)
          else
            let* r := UpdateCoins usage (genesisActivationHeight config) c tx height in
            let '(c, txundo) := r in
            Ok (c, state, Some (mkTxResult nFees nSigOpsCount (if fScriptChecks then vChecks else []) txundo)).

(** The loop: the fees, all checks, and the undo data of all transactions but the first. *)
Fixpoint connect_txs (h : heap) (pindex : ptr) (height : Z) (fScriptChecks isGenesisEnabled : bool) (flags nLockTimeFlags maxSigOps chainHeight : Z)
    c (state : CValidationState) (first : bool) (nFees : Amount) (nSigOpsCount : Z) (checks : list CScriptCheck) (blockundo : CBlockUndo) (txs : list CTransaction)
    : outcome (CCoinsViewCache V * CValidationState * option (Amount * list CScriptCheck * CBlockUndo)) :=
  match txs with
  | [] => Ok (c, state, Some (nFees, checks, blockundo))
  | tx :: txs =>
      let* r := connect_tx h pindex height fScriptChecks isGenesisEnabled flags nLockTimeFlags maxSigOps chainHeight c state tx nFees nSigOpsCount in
      let '(c, state, res) := r in
      match res with
      | None => Ok (c, state, None)
      | Some t =>
          connect_txs h pindex height fScriptChecks isGenesisEnabled flags nLockTimeFlags maxSigOps chainHeight c state false (t_fees t) (t_sigops t)
            (checks ++ t_checks t) (if first then blockundo else blockundo ++ [t_undo t]) txs
      end
  end.

(** The checks of [ConnectBlock] and what they do to the view: the undo data, when the block is valid. *)
Definition connect_checks (h : heap) (block : CBlock) (state : CValidationState) (pindex : ptr) (b : CBlockIndex) c (chainHeight : Z)
    : outcome (CCoinsViewCache V * CValidationState * option CBlockUndo) :=
  let rejected c state reason := Ok (c, DoS state 100 REJECT_INVALID reason false, None) in
  let* fScriptChecks := script_checks h pindex b in
  let* fEnforceBIP30 := enforce_bip30 h b in
  let* r := (if fEnforceBIP30 then overwrites c (vtx block) else Ok (c, false)) in
  let '(c, overwritten) := r in
  if overwritten then rejected c state "bad-txns-BIP30"%string
  else
    let* prev := or_abort (pprev b) in
    let* isGenesisEnabled := IsGenesisEnabled (genesisActivationHeight config) (nHeight b) in
    let nLockTimeFlags := if CSVHeight config <=? nHeight b then StandardNonFinalVerifyFlags isGenesisEnabled else 0 in
    let* flags := GetBlockScriptFlags config h prev in
    let maxSigOps := GetMaxBlockSigOpsConsensusBeforeGenesis (block_size block) in
    let* r := connect_txs h pindex (nHeight b) fScriptChecks isGenesisEnabled flags nLockTimeFlags maxSigOps chainHeight c state true 0 0 [] [] (vtx block) in
    let '(c, state, res) := r in
    match res with
    | None => Ok (c, state, None)
    | Some (nFees, checks, blockundo) =>
        let* subsidy := GetBlockSubsidy (nHeight b) (nSubsidyHalvingInterval config) in
        let* blockReward := amount_add nFees subsidy in
        let* coinbase := or_abort (nth_error (vtx block) 0) in
        let* paid := GetValueOut coinbase in
        if blockReward <? paid then rejected c state "bad-cb-amount"%string
        else
          let* ok := run_checks checks in
          if negb ok then rejected c state "blk-bad-inputs"%string
          else Ok (c, state, Some blockundo)
    end.

(** ** The effects of a block that is connected *)

(** [CDiskTxPos] *)
Record CDiskTxPos : Type := mkTxPos { tx_pos : CDiskBlockPos; nTxOffset : Z }.

(** The globals that change: the index and the candidates for the tip, the entries to write, the
    files, and the index of transactions. *)
Record world : Type := mkWorld {
  w_index : heap;
  setBlockIndexCandidates : gset ptr;
  w_dirty : gset ptr;
  w_store : CBlockFileInfoStore;
  w_files : disk;
  w_check : bool;
  txIndex : gmap (list Z) CDiskTxPos
}.

(** [vPos] *)
Fixpoint tx_positions (pos : CDiskBlockPos) (offset : Z) (txs : list CTransaction) : outcome (list (bytes * CDiskTxPos)) :=
  match txs with
  | [] => Ok []
  | tx :: txs =>
      let* id := GetId tx in
      let* l := tx_positions pos (u64 (offset + tx_size tx)) txs in
      Ok ((id, mkTxPos pos offset) :: l)
  end.

(** What the memory of a new key held, the size of the elements of a vector in memory, the
    configuration, and what the operating system reports. *)
Context (buf : bytes) (sizeofTxUndo : Z) (fPruneMode fTxIndex : bool) (diskMagic : bytes) (CheckDiskSpace : Z -> bool).

Definition set_undo_pos (b : CBlockIndex) (pos : Z) : CBlockIndex :=
  set_status (set_file b (nTx b) (nChainTx b) (nFile b) (nDataPos b) pos (mDiskBlockMetaData b)) (withUndo (nStatus b) true).

(** The undo data is written unless it was before; nothing when there is no room. *)
Definition write_undo (w : world) (state : CValidationState) (b : CBlockIndex) (blockundo : CBlockUndo) : outcome (world * CValidationState * option CBlockIndex) :=
  if pos_IsNull (GetUndoPos b) then
    let* data := or_throw std_exception (Serialize (CBlockUndo_codec buf sizeofTxUndo) blockundo) in
    let* r := FindUndoPos fPruneMode CheckDiskSpace (w_store w) (w_files w) state (nFile b) (len data + 40) (w_check w) in
    let '(s, d, state, pos, check, ok) := r in
    let w := mkWorld (w_index w) (setBlockIndexCandidates w) (w_dirty w) s d check (txIndex w) in
    if negb ok then Ok (w, state, None)
    else
      let* prev := or_abort (pprev b) in
      let* p := deref (w_index w) prev in
      let* hash := GetBlockHash p in
      let* r := UndoWriteToDisk buf sizeofTxUndo (rev d) blockundo pos hash diskMagic in
      match r with
      | None => Ok (w, Error state "Failed to write undo data"%string, None)
      | Some (files, pos) =>
          Ok (mkWorld (w_index w) (setBlockIndexCandidates w) (w_dirty w) s (mkDisk (blk d) files) check (txIndex w), state, Some (set_undo_pos b (nPos pos)))
      end
  else Ok (w, state, Some b).

(** [tipMoved]: another block became the tip while the lock was released. [now] is the time at which
    the validation ends. The result has the globals, the view, the state, [fChecked] and the verdict. *)
Definition ConnectBlock (w : world) (parallelBlockValidation tipMoved : bool) (block : CBlock) (fChecked : bool) (state : CValidationState) (pindex : ptr) c
    (fJustCheck : bool) (now : Z) : outcome (world * CCoinsViewCache V * CValidationState * bool * bool) :=
  let h := w_index w in
  let* b := deref h pindex in
  let* chainHeight := Height h chainActive in
  let* r := CheckBlock config block fChecked state (nHeight b) (mkOptions (negb fJustCheck) (negb fJustCheck) false) chainHeight in
  let '(state, ok, fChecked) := r in
  if negb ok then Ok (w, c, state, fChecked, false)
  else
    let* hashPrevBlock := match pprev b with None => Ok (repeat 0 32) | Some q => let* p := deref h q in GetBlockHash p end in
    let '(c, best) := GetBestBlock c in
    assert_ (Merkle.hash_eqb hashPrevBlock best) (
    let* hash := block_hash (header block) in
    if Merkle.hash_eqb hash (hashGenesisBlock config) then
      if fJustCheck then Ok (w, c, state, fChecked, true)
      else let* own := GetBlockHash b in Ok (w, SetBestBlock c own, state, fChecked, true)
    else
      let* r := connect_checks h block state pindex b c chainHeight in
      let '(c, state, res) := r in
      match res with
      | None => Ok (w, c, state, fChecked, false)
      | Some blockundo =>
          if fJustCheck then Ok (w, c, state, fChecked, true)
          else
            let* r := (if pos_IsNull (GetUndoPos b) || negb (isValid (nStatus b) BlockValidity.SCRIPTS) then
                         let* r := write_undo w state b blockundo in
                         let '(w, state, res) := r in
                         match res with
                         | None => Ok (w, state, false)
                         | Some b =>
                             let b := snd (RaiseValidity now b BlockValidity.SCRIPTS) in
                             Ok (mkWorld (<[pindex := b]> (w_index w)) ({[pindex]} ∪ setBlockIndexCandidates w) ({[pindex]} ∪ w_dirty w)
                                   (w_store w) (w_files w) (w_check w) (txIndex w), state, true)
                         end
                       else Ok (w, state, true)) in
            let '(w, state, ok) := r in
            if negb ok then Ok (w, c, state, fChecked, false)
            else
              let* vPos := tx_positions (GetBlockPos b) (GetSizeOfCompactSize (len (vtx block))) (vtx block) in
              let w := if fTxIndex then
                         mkWorld (w_index w) (setBlockIndexCandidates w) (w_dirty w) (w_store w) (w_files w) (w_check w)
                           (fold_left (fun m e => <[fst e := snd e]> m) vPos (txIndex w))
                       else w in
              if parallelBlockValidation && tipMoved then Throw std_exception
              else let* own := GetBlockHash b in Ok (w, SetBestBlock c own, state, fChecked, true)
      end).
End Connect.
End ConnectBlock.
