(* ===== verification/Supply.v ===== *)
(** * The supply (src/src/validation.cpp, src/src/coins.cpp)

    What [ConnectBlock] lets the coins be worth: a block adds at most its subsidy, so that the coins of
    a chain are worth at most the sum of the subsidies, which is below 21 million. *)

From Stdlib Require Import String.
From stdpp Require Import gmap.
From S2P Require Import Prelude Endian IntSerialization Outcome BigInt ScriptNum Hash Opcodes Script Serialize.
From S2P Require Import Amount Transaction Block ScriptChecks PubKey SigHash Interpreter SigChecker Merkle.
From S2P Require Import ArithUint256 BlockIndex Chain Pow Coins CoinsDB Undo Compressor Disk Validation SequenceLocks BlockCheck BlockFiles ConnectBlock.
Import BigInt ArithUint256 Script Serialize Amount Transaction Block ScriptChecks PubKey SigHash BlockIndex Chain Coins CoinsDB Undo Compressor Disk Validation SequenceLocks BlockCheck BlockFiles ConnectBlock.

Module Supply.
Local Open Scope Z_scope.
Local Open Scope outcome_scope.

(** ** What a set of coins is worth *)

Definition value_of (s : coin_set) (x : COutPoint) : Z := match s x with Some d => nValue (out d) | None => 0 end.

Definition sum_of (s : coin_set) (l : list COutPoint) : Z := fold_right (fun x t => value_of s x + t) 0 l.

(** No choice of different coins is worth more. *)
Definition worth_at_most (s : coin_set) (v : Z) : Prop := forall l, NoDup l -> sum_of s l <= v.

Lemma sum_cons (s : coin_set) (x : COutPoint) (l : list COutPoint) : sum_of s (x :: l) = value_of s x + sum_of s l.
Proof. reflexivity. Qed.

Lemma sum_app (s : coin_set) (l k : list COutPoint) : sum_of s (l ++ k) = sum_of s l + sum_of s k.
Proof. induction l as [|x l IH]; cbn [app]; rewrite ?sum_cons; [cbn; lia | lia]. Qed.

Lemma sum_ext (s t : coin_set) (l : list COutPoint) : (forall x, In x l -> s x = t x) -> sum_of s l = sum_of t l.
Proof.
  induction l as [|x l IH]; intros E; [reflexivity|]. rewrite !sum_cons, IH by (intros y Hy; apply E; now right). unfold value_of. now rewrite (E x (or_introl eq_refl)).
Qed.

Lemma worth_ext (s t : coin_set) (v : Z) : (forall x, t x = s x) -> worth_at_most s v -> worth_at_most t v.
Proof. intros E W l N. rewrite (sum_ext t s l (fun x _ => E x)). now apply W. Qed.

Lemma worth_le (s : coin_set) (v w : Z) : v <= w -> worth_at_most s v -> worth_at_most s w.
Proof. intros L W l N. specialize (W l N). lia. Qed.

(** Different outpoints that refer to outputs of a transaction. *)
Lemma created_sum (g : Z) (id : bytes) (h : Z) (cb : bool) (outs : list CTxOut) : Forall (fun o => 0 <= nValue o <= MAX_MONEY) outs ->
  forall i l, NoDup l -> sum_of (created g id h cb i outs) l <= sum_values outs.
Proof.
  induction 1 as [|o outs Ho F IH]; intros i l N.
  - assert (E : sum_of (created g id h cb i []) l = 0) by (clear N; induction l as [|x l IHl]; [reflexivity | rewrite sum_cons, IHl; reflexivity]). rewrite E. cbn. lia.
  - assert (So : sum_values (o :: outs) = nValue o + sum_values outs) by reflexivity. rewrite So.
    assert (G : forall l, NoDup l -> ~ In (outpoint_at id i) l -> sum_of (created g id h cb i (o :: outs)) l <= sum_values outs).
    { intros k Nk Hk. rewrite (sum_ext _ (created g id h cb (S i) outs)); [now apply IH|]. intros x Hx. cbn [created]. destruct (decide (x = outpoint_at id i)) as [->|]; [contradiction | reflexivity]. }
    destruct (in_dec COutPoint_eq_dec (outpoint_at id i) l) as [I|I]; [|specialize (G l N I); lia].
    destruct (in_split _ _ I) as (l1 & l2 & ->). assert (N' := NoDup_remove_1 _ _ _ N). assert (I' := NoDup_remove_2 _ _ _ N). specialize (G _ N' I').
    rewrite sum_app, sum_cons. rewrite sum_app in G.
    assert (V : value_of (created g id h cb i (o :: outs)) (outpoint_at id i) <= nValue o).
    { unfold value_of. cbn [created]. destruct (decide (outpoint_at id i = outpoint_at id i)); [|congruence]. destruct (unspendable g _); cbn; lia. }
    lia.
Qed.

(** What is added pays for what is taken. *)
Lemma connected_worth (g h : Z) (s : coin_set) (tx : CTransaction) (id : bytes) (v : Z) : Forall (fun o => 0 <= nValue o <= MAX_MONEY) (vout tx) ->
  (IsCoinBase tx = false -> NoDup (map prevout (vin tx))) -> worth_at_most s v ->
  worth_at_most (connected g h s tx id) (v + sum_values (vout tx) - if IsCoinBase tx then 0 else sum_of s (map prevout (vin tx))).
Proof.
  intros Ov Nd W l N. set (f := created g id h (IsCoinBase tx) 0 (vout tx)). set (t := if IsCoinBase tx then s else without s (vin tx)).
  set (old := List.filter (fun x => match f x with Some _ => false | None => true end) l).
  assert (Split : sum_of (connected g h s tx id) l = sum_of f l + sum_of t old).
  { unfold old. clear N. induction l as [|x l IH]; [reflexivity|]. cbn [List.filter]. rewrite !sum_cons, IH. unfold connected, with_created, value_of. fold f. fold t.
    destruct (f x) as [d|] eqn:E; [lia|]. rewrite sum_cons. unfold value_of. lia. }
  assert (C := created_sum g id h (IsCoinBase tx) (vout tx) Ov 0 l N). fold f in C. rewrite Split.
  assert (No : NoDup old) by now apply List.NoDup_filter. unfold t. destruct (IsCoinBase tx); [specialize (W old No); lia|].
  set (kept := List.filter (fun x => if in_dec COutPoint_eq_dec x (map prevout (vin tx)) then false else true) old).
  assert (K : sum_of (without s (vin tx)) old = sum_of s kept).
  { unfold kept. clear No Split. induction old as [|x k IH]; [reflexivity|]. cbn [List.filter]. rewrite sum_cons, IH. unfold without, value_of.
    destruct (decide (In x (map prevout (vin tx)))), (in_dec COutPoint_eq_dec x (map prevout (vin tx))); try contradiction; reflexivity. }
  rewrite K. assert (A : NoDup (kept ++ map prevout (vin tx))).
  { apply List.NoDup_app; [now apply List.NoDup_filter | exact (Nd eq_refl) |]. intros x Hx Hi. apply filter_In in Hx as [_ Hx]. destruct (in_dec _ x _); [discriminate | contradiction]. }
  specialize (W _ A). rewrite sum_app in W. lia.
Qed.

(** ** Reading leaves the set as it is *)

(** [E] says that a computation returns a view, of which the fact [S] is the goal. *)
Ltac gives E S := let H := fresh in pose proof S as H; apply Ok_inj in E; inversion E; subst; exact H.

Section Reads.
Context {V : Type} `{L : CoinsViewLaws V} (usage : Coin -> Z).
Implicit Type c : CCoinsViewCache V.

Definition same c c' : Prop := cache_ok usage c' /\ forall x, cache_coin c' x = cache_coin c x.

Lemma reads_refl c : cache_ok usage c -> same c c.
Proof. now split. Qed.

Lemma reads_trans c1 c2 c3 : same c1 c2 -> same c2 c3 -> same c1 c3.
Proof. intros [_ E] [K F]. split; [exact K|]. intros x. now rewrite F, E. Qed.

Lemma access_same c x c' d : cache_ok usage c -> AccessCoin usage c x = (c', d) -> same c c' /\ unspent (Some d) = cache_coin c x.
Proof. intros K E. assert (A := AccessCoin_spec usage c x K). rewrite E in A. destruct A as (K' & S & R). split; [split; assumption | exact R]. Qed.

Lemma have_same c x c' r : cache_ok usage c -> HaveCoin usage c x = (c', r) -> same c c' /\ r = match cache_coin c x with Some _ => true | None => false end.
Proof. intros K E. assert (A := HaveCoin_spec usage c x K). rewrite E in A. destruct A as (K' & S & R). split; [split; assumption | exact R]. Qed.

Lemma have_inputs_same (l : list CTxIn) : forall c c' r, cache_ok usage c -> have_inputs usage c l = (c', r) ->
  same c c' /\ (r = true -> Forall (fun i => exists d, cache_coin c (prevout i) = Some d) l).
Proof.
  induction l as [|i l IH]; intros c c' r K E; cbn [have_inputs] in E; [injection E as <- <-; split; [now apply reads_refl | constructor]|].
  destruct (HaveCoin usage c (prevout i)) as [c1 have] eqn:E1. destruct (have_same c _ c1 have K E1) as [S1 R1].
  destruct have; [|injection E as <- <-; split; [exact S1 | discriminate]]. destruct (IH c1 c' r (proj1 S1) E) as [S2 F]. split; [exact (reads_trans _ _ _ S1 S2)|].
  intros Hr. constructor; [destruct (cache_coin c (prevout i)) as [d|]; [now exists d | discriminate]|]. eapply Forall_impl; [|exact (F Hr)]. intros j [d Hd]. exists d. now rewrite <- (proj2 S1).
Qed.

Lemma prev_heights_same (l : list CTxIn) : forall c c' r, cache_ok usage c -> prev_heights usage c l = (c', r) -> same c c'.
Proof.
  induction l as [|i l IH]; intros c c' r K E; cbn [prev_heights] in E; [injection E as <- _; now apply reads_refl|].
  destruct (AccessCoin usage c (prevout i)) as [c1 d] eqn:E1. destruct (access_same c _ c1 d K E1) as [S1 _]. destruct (prev_heights usage c1 l) as [c2 hs] eqn:E2.
  injection E as <- _. exact (reads_trans _ _ _ S1 (IH _ _ _ (proj1 S1) E2)).
Qed.

Lemma value_in_same (l : list CTxIn) : forall c acc c' r, cache_ok usage c -> value_in usage c acc l = Ok (c', r) ->
  same c c' /\ r = acc + sum_of (cache_coin c) (map prevout l).
Proof.
  induction l as [|i l IH]; intros c acc c' r K E; cbn [value_in] in E; [apply Ok_inj in E; injection E as <- <-; split; [now apply reads_refl | cbn; lia]|].
  apply obind_ok in E as ([c1 o] & E1 & E). unfold GetOutputFor in E1. destruct (AccessCoin usage c (prevout i)) as [c2 d] eqn:E2. destruct (access_same c _ c2 d K E2) as [S1 R1].
  unfold assert_ in E1. destruct (IsSpent d) eqn:Sp; [discriminate|]. cbn [negb] in E1. apply Ok_inj in E1. injection E1 as <- <-.
  apply obind_ok in E as (a & Ea & E). unfold amount_add, in_int64 in Ea. destruct (is_int64 _); [|discriminate]. apply Ok_inj in Ea. subst a.
  destruct (IH c2 _ c' r (proj1 S1) E) as [S2 ->]. split; [exact (reads_trans _ _ _ S1 S2)|]. cbn [map]. rewrite sum_cons, (sum_ext _ (cache_coin c) _ (fun x _ => proj2 S1 x)).
  unfold value_of. rewrite <- R1. cbn [unspent]. rewrite Sp. lia.
Qed.

Lemma have_outputs_same (id : bytes) (outs : list CTxOut) : forall o c c' r, cache_ok usage c -> have_outputs usage c id o outs = (c', r) ->
  same c c' /\ (r = false -> forall i, (i < length outs)%nat -> cache_coin c (outpoint_at id (o + i)) = None).
Proof.
  induction outs as [|x outs IH]; intros o c c' r K E; cbn [have_outputs] in E; [injection E as <- <-; split; [now apply reads_refl | cbn; lia]|].
  fold (outpoint_at id o) in E. destruct (HaveCoin usage c (outpoint_at id o)) as [c1 have] eqn:E1. destruct (have_same c _ c1 have K E1) as [S1 R1].
  destruct have; [injection E as <- <-; split; [exact S1 | discriminate]|]. destruct (IH (S o) c1 c' r (proj1 S1) E) as [S2 F]. split; [exact (reads_trans _ _ _ S1 S2)|].
  intros Hr [|i] Hi; [rewrite Nat.add_0_r; destruct (cache_coin c (outpoint_at id o)); [discriminate | reflexivity]|].
  rewrite <- (proj2 S1). replace (o + S i)%nat with (S o + i)%nat by lia. apply F; [exact Hr | cbn in Hi; lia].
Qed.

Lemma overwrites_same (txs : list CTransaction) : forall c c' r, cache_ok usage c -> overwrites usage c txs = Ok (c', r) ->
  same c c' /\ (r = false -> Forall (fun tx => forall id, ComputeHash tx = Some id -> forall i, (i < length (vout tx))%nat -> cache_coin c (outpoint_at id i) = None) txs).
Proof.
  induction txs as [|tx txs IH]; intros c c' r K E; cbn [overwrites] in E; [apply Ok_inj in E; injection E as <- <-; split; [now apply reads_refl | constructor]|].
  apply obind_ok in E as (id & Ei & E). unfold GetId in Ei. destruct (ComputeHash tx) as [x|] eqn:Eh; [|discriminate]. apply Ok_inj in Ei. subst x.
  destruct (have_outputs usage c id 0 (vout tx)) as [c1 have] eqn:E1. destruct (have_outputs_same id _ 0 c c1 have K E1) as [S1 F1].
  destruct have; [apply Ok_inj in E; injection E as <- <-; split; [exact S1 | discriminate]|]. destruct (IH c1 c' r (proj1 S1) E) as [S2 F2]. split; [exact (reads_trans _ _ _ S1 S2)|].
  intros Hr. constructor; [intros id' Ei; rewrite Eh in Ei; apply Some_inj in Ei; subst id'; exact (F1 eq_refl)|]. eapply Forall_impl; [|exact (F2 Hr)]. intros t Ht id' E' i Hi. rewrite <- (proj2 S1). now apply Ht.
Qed.

Context {B : BIGNUM} {K256 : Secp256k1}.
Context (limits : Interpreter.CScriptConfig) (canceled : nat -> bool) (garbage : bytes) (config : Config).

Lemma p2sh_sigops_same (l : list CTxIn) : forall c n c' r e, cache_ok usage c -> p2sh_sigops usage config c n l = Ok (c', r, e) -> same c c'.
Proof.
  induction l as [|i l IH]; intros c n c' r e K E; cbn [p2sh_sigops] in E; [gives E (reads_refl c K)|].
  destruct (AccessCoin usage c (prevout i)) as [c1 d] eqn:E1. destruct (access_same c _ c1 d K E1) as [S1 _]. unfold assert_ in E. destruct (negb (IsSpent d)); [|discriminate].
  assert (G : forall m, p2sh_sigops usage config c1 m l = Ok (c', r, e) -> same c c') by (intros m Em; exact (reads_trans _ _ _ S1 (IH _ _ _ _ _ (proj1 S1) Em))).
  apply obind_ok in E as (g & _ & E). destruct g; [exact (G _ E)|]. destruct (IsP2SH _); [|exact (G _ E)]. apply obind_ok in E as (x & _ & E).
  destruct (snd x); [gives E S1 | exact (G _ E)].
Qed.

Lemma sigops_same tx c p g c' r e : cache_ok usage c -> GetTransactionSigOpCount usage config tx c p g = Ok (c', r, e) -> same c c'.
Proof.
  intros K E. unfold GetTransactionSigOpCount in E. apply obind_ok in E as ([n er] & _ & E). destruct er; [gives E (reads_refl c K)|].
  destruct (IsCoinBase tx) eqn:Cb; [gives E (reads_refl c K)|]. destruct p; [|gives E (reads_refl c K)].
  apply obind_ok in E as ([[c1 m] er] & E1 & E). apply Ok_inj in E. injection E as <- _ _. unfold GetP2SHSigOpCount in E1. rewrite Cb in E1. exact (p2sh_sigops_same _ _ _ _ _ _ K E1).
Qed.

Lemma sum_inputs_same (l : list CTxIn) : forall c st sh acc c' st' r, cache_ok usage c -> sum_inputs usage c st sh acc l = Ok (c', st', r) -> same c c'.
Proof.
  induction l as [|i l IH]; intros c st sh acc c' st' r K E; cbn [sum_inputs] in E; [gives E (reads_refl c K)|].
  destruct (AccessCoin usage c (prevout i)) as [c1 d] eqn:E1. destruct (access_same c _ c1 d K E1) as [S1 _]. unfold assert_ in E. destruct (negb (IsSpent d)); [|discriminate].
  destruct (_ && _); [gives E S1|]. apply obind_ok in E as (a & _ & E). destruct (_ || _); [gives E S1|].
  exact (reads_trans _ _ _ S1 (IH _ _ _ _ _ _ _ (proj1 S1) E)).
Qed.

Lemma CheckTxInputs_same tx st c sh c' st' ok : cache_ok usage c -> CheckTxInputs usage tx st c sh = Ok (c', st', ok) -> same c c'.
Proof.
  intros K E. unfold CheckTxInputs in E. destruct (HaveInputs usage c tx) as [c1 have] eqn:E1.
  assert (S1 : same c c1) by (unfold HaveInputs in E1; destruct (IsCoinBase tx); [injection E1 as <- _; now apply reads_refl | exact (proj1 (have_inputs_same _ _ _ _ K E1))]).
  destruct (negb have); [gives E S1|]. apply obind_ok in E as ([[c2 s2] sum] & E2 & E).
  assert (S2 := reads_trans _ _ _ S1 (sum_inputs_same _ _ _ _ _ _ _ _ (proj1 S1) E2)). destruct sum as [v|]; [|gives E S2].
  apply obind_ok in E as (o & _ & E). destruct (v <? o); [gives E S2|]. apply obind_ok in E as (f & _ & E).
  destruct (f <? 0); [gives E S2|]. apply obind_ok in E as (g & _ & E). destruct (negb _); gives E S2.
Qed.

Lemma check_scripts_same (l : list CTxIn) consensus tx sh ch flags deferred txdata : forall c st checks n c' st' ok k, cache_ok usage c ->
  check_scripts usage limits canceled garbage config c consensus tx st sh ch flags deferred txdata checks n l = Ok (c', st', ok, k) -> same c c'.
Proof.
  induction l as [|i l IH]; intros c st checks n c' st' ok k K E; cbn [check_scripts] in E; [gives E (reads_refl c K)|].
  destruct (AccessCoin usage c (prevout i)) as [c1 d] eqn:E1. destruct (access_same c _ c1 d K E1) as [S1 _]. unfold assert_ in E. destruct (negb (IsSpent d)); [|discriminate].
  apply obind_ok in E as (g & _ & E). destruct (_ && _); [gives E S1|].
  destruct deferred; [exact (reads_trans _ _ _ S1 (IH _ _ _ _ _ _ _ _ (proj1 S1) E))|]. apply obind_ok in E as (r & _ & E).
  destruct r; [apply obind_ok in E as (s2 & _ & E); gives E S1 | exact (reads_trans _ _ _ S1 (IH _ _ _ _ _ _ _ _ (proj1 S1) E))].
Qed.

Lemma CheckInputs_same h M consensus tx st c sc flags cached txdata deferred ch c' st' ok k : cache_ok usage c ->
  CheckInputs usage limits canceled garbage config h M consensus tx st c sc flags cached txdata deferred ch = Ok (c', st', ok, k) -> same c c'.
Proof.
  intros K E. unfold CheckInputs, assert_ in E. destruct (negb (IsCoinBase tx)); [|discriminate]. apply obind_ok in E as ([c1 sh] & E1 & E).
  assert (S1 : same c c1).
  { unfold GetSpendHeightAndMTP in E1. assert (G := GetBestBlock_spec usage c K). destruct (GetBestBlock c) as [c2 best]. apply obind_ok in E1 as (p & _ & E1). apply obind_ok in E1 as (b & _ & E1).
    apply obind_ok in E1 as (m & _ & E1). apply Ok_inj in E1. injection E1 as <- _. exact G. }
  destruct (_ && _); [gives E S1|]. apply obind_ok in E as ([[c2 s2] ok2] & E2 & E).
  assert (S2 := reads_trans _ _ _ S1 (CheckTxInputs_same _ _ _ _ _ _ _ (proj1 S1) E2)).
  destruct (negb ok2); [gives E S2|]. destruct (negb sc); [gives E S2|].
  destruct cached; [gives E S2|]. exact (reads_trans _ _ _ S2 (check_scripts_same _ _ _ _ _ _ _ _ _ _ _ _ _ _ _ _ (proj1 S2) E)).
Qed.

(** ** One transaction *)

Lemma outs_below_size (tx : CTransaction) : len (vout tx) <= tx_size tx.
Proof.
  assert (C : forall n, 0 <= n -> 0 <= GetSizeOfCompactSize n) by (intros n Hn; unfold GetSizeOfCompactSize; repeat destruct (_ <? _); repeat destruct (_ <=? _); lia).
  assert (I : 0 <= fold_right Z.add 0 (map CTxIn_size (vin tx))).
  { induction (vin tx) as [|i l IH]; cbn [map fold_right]; [lia|]. assert (X := C (len (scriptSig i)) ltac:(unfold len; lia)). unfold CTxIn_size, script_size, len in *. lia. }
  assert (O : len (vout tx) <= fold_right Z.add 0 (map CTxOut_size (vout tx))).
  { unfold len. induction (vout tx) as [|o l IH]; cbn [map fold_right length]; [lia|]. assert (X := C (len (scriptPubKey o)) ltac:(unfold len; lia)). unfold CTxOut_size, script_size, len in *. lia. }
  assert (C1 := C (len (vin tx)) ltac:(unfold len; lia)). assert (C2 := C (len (vout tx)) ltac:(unfold len; lia)). unfold tx_size. lia.
Qed.

Definition fresh_in (s : coin_set) (tx : CTransaction) : Prop :=
  forall id, ComputeHash tx = Some id -> forall i, (i < length (vout tx))%nat -> s (outpoint_at id i) = None.

Context (U0 : usage Coin_new = 0) (M : BlockMap) (cachedScripts : CTransaction -> bool).

Lemma amount_add_ok a b r : amount_add a b = Ok r -> r = a + b.
Proof. unfold amount_add, in_int64. destruct (is_int64 _); [|discriminate]. intros E. now apply Ok_inj in E. Qed.

Lemma amount_sub_ok a b r : amount_sub a b = Ok r -> r = a - b.
Proof.
  unfold amount_sub, amount_neg, in_int64. intros E. apply obind_ok in E as (n & En & E). destruct (is_int64 _); [|discriminate]. apply Ok_inj in En. subst n. apply amount_add_ok in E. lia.
Qed.

Lemma GetValueOut_sum tx r : amounts_ok (vout tx) 0 -> GetValueOut tx = Ok r -> r = sum_values (vout tx).
Proof.
  intros [F _] E. unfold GetValueOut in E. rewrite GetValueOut_fold in E; [|eapply Forall_impl; [|exact F]; intros o Ho; apply MoneyRange_iff; exact Ho | unfold MAX_MONEY, COIN; lia].
  destruct (_ <=? _); [|discriminate]. apply Ok_inj in E. lia.
Qed.

(** Before a transaction changes the coins: its inputs are there, and the fee is what they leave. *)
Lemma connect_tx_reads h pindex height sc gen flags lt maxSig ch c st tx fees sig c' st' t : cache_ok usage c -> amounts_ok (vout tx) 0 ->
  connect_tx usage limits canceled garbage config M cachedScripts h pindex height sc gen flags lt maxSig ch c st tx fees sig = Ok (c', st', Some t) ->
  exists c4, same c c4 /\ (IsCoinBase tx = false -> Forall (fun i => exists d, cache_coin c (prevout i) = Some d) (vin tx)) /\
    t_fees t = fees + (if IsCoinBase tx then 0 else sum_of (cache_coin c) (map prevout (vin tx)) - sum_values (vout tx)) /\
    UpdateCoins usage (genesisActivationHeight config) c4 tx height = Ok (c', t_undo t).
Proof.
  intros K Am E. unfold connect_tx in E. set (regular := negb (IsCoinBase tx)) in E.
  destruct (if regular then HaveInputs usage c tx else (c, true)) as [c1 have] eqn:E1.
  assert (S1 : same c c1 /\ (IsCoinBase tx = false -> have = true -> Forall (fun i => exists d, cache_coin c (prevout i) = Some d) (vin tx))).
  { unfold regular, HaveInputs in E1. destruct (IsCoinBase tx); cbn [negb] in E1; [injection E1 as <- <-; split; [now apply reads_refl | discriminate]|].
    destruct (have_inputs_same _ _ _ _ K E1) as [X Y]. now split. }
  destruct S1 as [S1 Hin]. destruct have; [|discriminate]. cbn [negb] in E.
  destruct (if regular then prev_heights usage c1 (vin tx) else (c1, [])) as [c2 hs] eqn:E2.
  assert (S2 : same c c2) by (apply (reads_trans _ _ _ S1); destruct regular; [exact (prev_heights_same _ _ _ _ (proj1 S1) E2) | injection E2 as <- _; exact (reads_refl _ (proj1 S1))]).
  apply obind_ok in E as (final & _ & E). destruct final; [|discriminate]. cbn [negb] in E. apply obind_ok in E as ([[c3 n] er] & E3 & E).
  assert (S3 : same c c3) by (apply (reads_trans _ _ _ S2); destruct gen; [apply Ok_inj in E3; injection E3 as <- _ _; exact (reads_refl _ (proj1 S2)) | exact (sigops_same _ _ _ _ _ _ _ (proj1 S2) E3)]).
  destruct (_ && (er || _)); [discriminate|]. destruct (_ && _); [discriminate|]. apply obind_ok in E as ([[[[c4 s4] ok] checks] fees'] & E4 & E).
  assert (S4 : same c c4 /\ (ok = true -> fees' = fees + if IsCoinBase tx then 0 else sum_of (cache_coin c) (map prevout (vin tx)) - sum_values (vout tx))).
  { unfold regular in E4. destruct (IsCoinBase tx) eqn:Cb; cbn [negb] in E4; [apply Ok_inj in E4; injection E4 as <- _ _ _ <-; split; [exact S3 | lia]|].
    apply obind_ok in E4 as ([c5 vi] & Ev & E4). apply obind_ok in E4 as (vo & Eo & E4). apply obind_ok in E4 as (fee & Ef & E4). apply obind_ok in E4 as (f2 & Ef2 & E4).
    apply obind_ok in E4 as (data & _ & E4). apply obind_ok in E4 as ([[[c6 s6] ok6] k6] & Ec & E4). apply Ok_inj in E4. injection E4 as <- _ _ _ <-.
    unfold GetValueIn in Ev. rewrite Cb in Ev. destruct (value_in_same _ _ _ _ _ (proj1 S3) Ev) as [S5 ->]. apply amount_sub_ok in Ef. apply amount_add_ok in Ef2. apply (GetValueOut_sum tx vo Am) in Eo.
    split; [exact (reads_trans _ _ _ S3 (reads_trans _ _ _ S5 (CheckInputs_same _ _ _ _ _ _ _ _ _ _ _ _ _ _ _ _ (proj1 S5) Ec)))|].
    intros _. rewrite (sum_ext _ (cache_coin c) _ (fun x _ => proj2 S3 x)) in Ef. lia. }
  destruct S4 as [S4 Hf]. destruct ok; [|discriminate]. cbn [negb] in E. apply obind_ok in E as ([c5 u] & E5 & E). apply Ok_inj in E. injection E as <- _ <-. cbn [t_fees t_undo].
  exists c4. split; [exact S4|]. split; [auto|]. split; [exact (Hf eq_refl) | exact E5].
Qed.

Lemma connect_tx_spec h pindex height sc gen flags lt maxSig ch c st tx fees sig c' st' t v ms :
  cache_ok usage c -> worth_at_most (cache_coin c) v -> shaped tx ms -> ms < 2 ^ 32 -> (IsCoinBase tx = false -> NoDup (map prevout (vin tx))) -> fresh_in (cache_coin c) tx ->
  connect_tx usage limits canceled garbage config M cachedScripts h pindex height sc gen flags lt maxSig ch c st tx fees sig = Ok (c', st', Some t) ->
  cache_ok usage c' /\ (exists id, ComputeHash tx = Some id /\ forall x, cache_coin c' x = connected (genesisActivationHeight config) height (cache_coin c) tx id x) /\
  worth_at_most (cache_coin c') (if IsCoinBase tx then v + sum_values (vout tx) else v - (t_fees t - fees)) /\ (IsCoinBase tx = true -> t_fees t = fees).
Proof.
  intros K W (_ & _ & Sz & Am) Ms Nd Fr E. destruct (connect_tx_reads _ _ _ _ _ _ _ _ _ _ _ _ _ _ _ _ _ K Am E) as (c4 & S4 & Hin & Hf & Up).
  assert (Id : exists id, ComputeHash tx = Some id).
  { unfold UpdateCoins, AddCoins, GetId in Up. apply obind_ok in Up as ([x y] & _ & Up). destruct (ComputeHash tx) as [id|]; [now exists id | discriminate]. }
  destruct Id as [id Hid]. assert (Mc : may_connect (cache_coin c4) tx id).
  { apply (may_connect_ext (cache_coin c)); [intros x; symmetry; apply S4|]. split; [exact Hid | | | exact (Fr id Hid) | auto].
    - destruct Am as [Am _]. eapply Forall_impl; [|exact Am]. cbn. intros o Ho. lia.
    - assert (X := outs_below_size tx). lia. }
  destruct (UpdateCoins_spec usage U0 (genesisActivationHeight config) c4 tx id height (proj1 S4) Mc) as (c5 & u & Eu & K5 & _ & _ & C5). rewrite Up in Eu. apply Ok_inj in Eu. injection Eu as <- _.
  assert (C : forall x, cache_coin c' x = connected (genesisActivationHeight config) height (cache_coin c) tx id x).
  { intros x. rewrite C5. apply connected_ext. intros y. apply S4. }
  split; [exact K5|]. split; [eauto|]. split; [|intros Cb; rewrite Cb in Hf; lia]. apply (worth_ext (connected (genesisActivationHeight config) height (cache_coin c) tx id)); [exact C|].
  refine (worth_le _ _ _ _ (connected_worth _ height (cache_coin c) tx id v (proj1 Am) Nd W)). destruct (IsCoinBase tx); lia.
Qed.

(** ** One block *)

(** The outputs of the transactions are new: they have different identifiers, and none is in the set. *)
Definition fresh_block (s : coin_set) (txs : list CTransaction) : Prop := NoDup (map ComputeHash txs) /\ Forall (fresh_in s) txs.

Lemma fresh_after (g h : Z) (s : coin_set) (tx : CTransaction) (id : bytes) (txs : list CTransaction) : ComputeHash tx = Some id ->
  fresh_block s (tx :: txs) -> fresh_block (connected g h s tx id) txs.
Proof.
  intros Hid [N F]. cbn [map] in N. inversion N as [|? ? Ni N']; subst. apply Forall_cons_iff in F as [_ F]. split; [exact N'|].
  apply Stdlib.Lists.List.Forall_forall. intros t It id2 H2 i Hi. rewrite Stdlib.Lists.List.Forall_forall in F. assert (E := F t It id2 H2 i Hi).
  unfold connected, with_created. destruct (created _ id _ _ _ _ (outpoint_at id2 i)) as [d|] eqn:Cr.
  - exfalso. apply created_some in Cr as (j & _ & Ej). injection Ej as Ej _. subst id2. apply Ni. rewrite Hid, <- H2. now apply in_map.
  - destruct (IsCoinBase tx); [exact E|]. unfold without. destruct (decide _); [reflexivity | exact E].
Qed.

Lemma fresh_ext (s t : coin_set) (txs : list CTransaction) : (forall x, t x = s x) -> fresh_block s txs -> fresh_block t txs.
Proof. intros E [N F]. split; [exact N|]. eapply Forall_impl; [|exact F]. intros tx Hx id Hid i Hi. rewrite E. now apply Hx. Qed.

Lemma regular_not_coinbase (tx : CTransaction) (ms : Z) : regular tx ms -> IsCoinBase tx = false.
Proof.
  intros (_ & F & _). unfold IsCoinBase. destruct (vin tx) as [|i [|j l]]; [reflexivity | | reflexivity]. now apply Forall_cons_iff in F as [F _].
Qed.

Lemma connect_txs_spec h pindex height sc gen flags lt maxSig ch ms (txs : list CTransaction) : ms < 2 ^ 32 -> Forall (fun tx => regular tx ms) txs -> forall c st fees sig checks undo c' st' fees' checks' undo' v,
  cache_ok usage c -> worth_at_most (cache_coin c) v -> fresh_block (cache_coin c) txs ->
  connect_txs usage limits canceled garbage config M cachedScripts h pindex height sc gen flags lt maxSig ch c st false fees sig checks undo txs = Ok (c', st', Some (fees', checks', undo')) ->
  cache_ok usage c' /\ worth_at_most (cache_coin c') (v - (fees' - fees)).
Proof.
  intros Ms. induction 1 as [|tx txs Hr F IH]; intros c st fees sig checks undo c' st' fees' checks' undo' v K W Fr E; cbn [connect_txs] in E.
  - apply Ok_inj in E. injection E as <- _ <- _ _. split; [exact K|]. refine (worth_le _ _ _ _ W). lia.
  - apply obind_ok in E as ([[c1 s1] res] & E1 & E). destruct res as [t|]; [|discriminate]. assert (Cb := regular_not_coinbase tx ms Hr). destruct Hr as (Sh & _ & Nd).
    assert (Fh : fresh_in (cache_coin c) tx) by (destruct Fr as [_ Fr]; now apply Forall_cons_iff in Fr as [Fr _]).
    destruct (connect_tx_spec _ _ _ _ _ _ _ _ _ _ _ _ _ _ _ _ _ v ms K W Sh Ms (fun _ => Nd) Fh E1) as (K1 & (id & Hid & C1) & W1 & _). rewrite Cb in W1.
    assert (Fr1 := fresh_ext _ _ _ C1 (fresh_after (genesisActivationHeight config) height _ _ _ _ Hid Fr)).
    destruct (IH _ _ _ _ _ _ _ _ _ _ _ _ K1 W1 Fr1 E) as [K2 W2]. split; [exact K2|]. refine (worth_le _ _ _ _ W2). lia.
Qed.

Context (chain : CChain) (hashAssumeValid : bytes) (pindexBestHeader : option ptr) (nMinimumChainWork : base_uint).

Lemma connect_checks_spec h block st pindex b c ch c' st' undo v options :
  cache_ok usage c -> worth_at_most (cache_coin c) v -> accepted config block options -> 0 <= nHeight b -> 0 < nSubsidyHalvingInterval config ->
  NoDup (map ComputeHash (vtx block)) -> (enforce_bip30 config h b = Ok true \/ Forall (fresh_in (cache_coin c)) (vtx block)) ->
  connect_checks usage limits canceled garbage config M hashAssumeValid pindexBestHeader nMinimumChainWork cachedScripts h block st pindex b c ch = Ok (c', st', Some undo) ->
  cache_ok usage c' /\ worth_at_most (cache_coin c') (v + subsidy_at (nHeight b / nSubsidyHalvingInterval config)).
Proof.
  intros K W [_ _ _ (coinbase & txs & g & Et & Cb & Sh & Fr)] Hh Hi Nd Fb E. unfold connect_checks in E. apply obind_ok in E as (sc & _ & E). apply obind_ok in E as (e30 & E30 & E).
  apply obind_ok in E as ([c1 over] & Eo & E).
  assert (S1 : same c c1 /\ (over = false -> Forall (fresh_in (cache_coin c)) (vtx block))).
  { destruct e30; [exact (overwrites_same _ _ _ _ K Eo)|]. apply Ok_inj in Eo. injection Eo as <- <-. split; [now apply reads_refl|]. intros _. destruct Fb as [X|X]; [congruence | exact X]. }
  destruct S1 as [S1 Fo]. destruct over; [discriminate|]. specialize (Fo eq_refl). apply obind_ok in E as (prev & _ & E). apply obind_ok in E as (gen & _ & E). apply obind_ok in E as (flags & _ & E).
  apply obind_ok in E as ([[c2 s2] res] & E2 & E). destruct res as [[[fees checks] bundo]|]; [|discriminate].
  apply obind_ok in E as (sub & Es & E). apply obind_ok in E as (reward & Er & E). apply obind_ok in E as (cb & Ec & E). apply obind_ok in E as (paid & Ep & E).
  destruct (Z.ltb_spec reward paid) as [|Hp]; [discriminate|]. apply obind_ok in E as (ok & _ & E). destruct ok; [|discriminate]. apply Ok_inj in E. injection E as <- _ _.
  rewrite Et in *. cbn [nth_error or_abort] in Ec. apply Ok_inj in Ec. subst cb. apply (GetValueOut_sum coinbase paid) in Ep; [|apply Sh].
  apply amount_add_ok in Er. rewrite GetBlockSubsidy_spec in Es by assumption. apply Ok_inj in Es. cbn [connect_txs] in E2. apply obind_ok in E2 as ([[c3 s3] r3] & E3 & E2). destruct r3 as [t|]; [|discriminate].
  assert (F1 : fresh_block (cache_coin c1) (coinbase :: txs)) by (apply (fresh_ext (cache_coin c)); [apply S1 | now split]).
  assert (Ms : GetMaxTxSize g < 2 ^ 32) by (destruct g; reflexivity).
  destruct (connect_tx_spec _ _ _ _ _ _ _ _ _ _ _ _ _ _ _ _ _ v _ (proj1 S1) (worth_ext _ _ _ (proj2 S1) W) Sh Ms ltac:(congruence) (proj1 (proj1 (Forall_cons_iff _ _ _) (proj2 F1))) E3) as (K3 & (id & Hid & C3) & W3 & Hf).
  rewrite Cb in W3. specialize (Hf Cb). assert (F3 := fresh_ext _ _ _ C3 (fresh_after (genesisActivationHeight config) (nHeight b) _ _ _ _ Hid F1)).
  destruct (connect_txs_spec _ _ _ _ _ _ _ _ _ _ _ Ms Fr _ _ _ _ _ _ _ _ _ _ _ _ K3 W3 F3 E2) as [K4 W4]. split; [exact K4|]. refine (worth_le _ _ _ _ W4). lia.
Qed.

Context (buf : bytes) (sizeofTxUndo : Z) (fPruneMode fTxIndex : bool) (diskMagic : bytes) (CheckDiskSpace : Z -> bool).

(** The member [fChecked] is only set by a call of [CheckBlock] that accepts the block. *)
Definition once_checked (block : CBlock) : Prop :=
  exists st st' height options chainHeight fc, CheckBlock config block false st height options chainHeight = Ok (st', true, fc).

Lemma CheckBlock_accepted block st height options ch st' fc : CheckBlock config block false st height options ch = Ok (st', true, fc) -> exists options, accepted config block options.
Proof.
  unfold CheckBlock. intros E. apply obind_ok in E as ([s ok] & E & Eq). apply Ok_inj in Eq. injection Eq as _ -> _. apply check_block_true in E as [Ac _]. eauto.
Qed.

Lemma ConnectBlock_worth w par moved block fChecked st pindex c now w' c' st' fc v b :
  cache_ok usage c -> worth_at_most (cache_coin c) v -> w_index w !! pindex = Some b -> 0 <= nHeight b -> 0 < nSubsidyHalvingInterval config ->
  NoDup (map ComputeHash (vtx block)) -> (enforce_bip30 config (w_index w) b = Ok true \/ Forall (fresh_in (cache_coin c)) (vtx block)) ->
  (fChecked = true -> once_checked block) ->
  ConnectBlock usage limits canceled garbage config M chain hashAssumeValid pindexBestHeader nMinimumChainWork cachedScripts buf sizeofTxUndo fPruneMode fTxIndex diskMagic CheckDiskSpace
    w par moved block fChecked st pindex c false now = Ok (w', c', st', fc, true) ->
  cache_ok usage c' /\ worth_at_most (cache_coin c') (v + subsidy_at (nHeight b / nSubsidyHalvingInterval config)).
Proof.
  intros K W Eb Hh Hi Nd Fb Ck E. unfold ConnectBlock in E. unfold deref at 1 in E. rewrite Eb in E. cbn [or_abort obind] in E. apply obind_ok in E as (ch & _ & E). apply obind_ok in E as ([[s1 ok] fc1] & Ec & E).
  assert (Set_ : forall c0 own, cache_ok usage c0 -> cache_ok usage (SetBestBlock c0 own) /\ forall x, cache_coin (SetBestBlock c0 own) x = cache_coin c0 x) by (intros; now apply set_best_ok).
  destruct ok; [|discriminate]. cbn [negb] in E. assert (Ac : exists options, accepted config block options).
  { destruct fChecked; [|exact (CheckBlock_accepted _ _ _ _ _ _ _ Ec)]. destruct (Ck eq_refl) as (s & s' & ht & op & ct & f & E'). exact (CheckBlock_accepted _ _ _ _ _ _ _ E'). }
  destruct Ac as [options Ac].
  apply obind_ok in E as (hp & _ & E). assert (G := GetBestBlock_spec usage c K). destruct (GetBestBlock c) as [c1 best]. cbn [fst] in G. unfold assert_ in E. destruct (Merkle.hash_eqb hp best); [|discriminate].
  assert (W1 := worth_ext _ _ _ (proj2 G) W). apply obind_ok in E as (hash & _ & E). destruct (Merkle.hash_eqb hash _).
  - apply obind_ok in E as (own & _ & E). apply Ok_inj in E. injection E as _ <- _ _. destruct (Set_ c1 own (proj1 G)) as [K2 S2]. split; [exact K2|]. apply (worth_ext _ _ _ S2).
    refine (worth_le _ _ _ _ W1). assert (X := subsidy_nonneg (nHeight b / nSubsidyHalvingInterval config)). lia.
  - apply obind_ok in E as ([[c2 s3] res] & Ek & E). destruct res as [undo|]; [|discriminate].
    assert (Fb1 : enforce_bip30 config (w_index w) b = Ok true \/ Forall (fresh_in (cache_coin c1)) (vtx block)) by (destruct Fb as [X|X]; [now left | right; exact (proj2 (fresh_ext _ _ _ (proj2 G) (conj Nd X)))]).
    destruct (connect_checks_spec _ _ _ _ _ _ _ _ _ _ v _ (proj1 G) W1 Ac Hh Hi Nd Fb1 Ek) as [K2 W2]. apply obind_ok in E as ([[w2 s4] ok3] & _ & E). destruct ok3; [|discriminate]. cbn [negb] in E.
    apply obind_ok in E as (vPos & _ & E). destruct (par && moved); [discriminate|]. apply obind_ok in E as (own & _ & E). apply Ok_inj in E. injection E as _ <- _ _.
    destruct (Set_ c2 own K2) as [K3 S3]. split; [exact K3 | exact (worth_ext _ _ _ S3 W2)].
Qed.
End Reads.

(** ** A chain *)

(** The coins after the block at height [n] of a chain whose blocks were connected one after the other,
    whatever the caches they were connected through and the globals at the time. The genesis block
    leaves no coin. *)
Inductive chain_coins {B : BIGNUM} {K : Secp256k1} {V : Type} `{L : CoinsViewLaws V} (usage : Coin -> Z) (config : Config) : nat -> coin_set -> Prop :=
| after_genesis s : (forall x, s x = None) -> chain_coins usage config 0 s
| after_block n s limits canceled garbage M chain hashAssumeValid pindexBestHeader nMinimumChainWork cachedScripts buf sizeofTxUndo fPruneMode fTxIndex diskMagic space
    w par moved block fChecked st pindex b (c : CCoinsViewCache V) now w' c' st' fc s' :
    chain_coins usage config n s -> cache_ok usage c -> (forall x, cache_coin c x = s x) -> w_index w !! pindex = Some b -> nHeight b = Z.of_nat (S n) ->
    NoDup (map ComputeHash (vtx block)) -> (enforce_bip30 config (w_index w) b = Ok true \/ Forall (fresh_in s) (vtx block)) ->
    (fChecked = true -> once_checked config block) ->
    ConnectBlock usage limits canceled garbage config M chain hashAssumeValid pindexBestHeader nMinimumChainWork cachedScripts buf sizeofTxUndo fPruneMode fTxIndex diskMagic space
      w par moved block fChecked st pindex c false now = Ok (w', c', st', fc, true) ->
    (forall x, s' x = cache_coin c' x) -> chain_coins usage config (S n) s'.

(** C1: no inflation. The coins of a chain of blocks that [ConnectBlock] accepts one after the other are
    worth at most the sum of the subsidies of its heights, whichever different coins are added up, and,
    when the subsidy halves at least every 210000 blocks, never more than 21 million. A block may come
    with the mark [fChecked], with which [ConnectBlock] does not check it again, if a call of
    [CheckBlock] with the same configuration, the only place that sets the mark, has accepted it before.
    It is assumed of every block that its transactions have different identifiers, and that no output
    replaces a coin of the set, which BIP 30 makes sure of where it is enforced. *)
Theorem supply_bounded {B : BIGNUM} {K : Secp256k1} {V : Type} `{L : CoinsViewLaws V} (usage : Coin -> Z) (config : Config) (i n : nat) (s : coin_set) :
  usage Coin_new = 0 -> nSubsidyHalvingInterval config = Z.of_nat i -> 0 < Z.of_nat i <= 210000 -> chain_coins usage config n s ->
  worth_at_most s (issued (Z.of_nat i) (S n)) /\ worth_at_most s MAX_MONEY.
Proof.
  intros U0 Ei Hi C. assert (W : worth_at_most s (issued (Z.of_nat i) (S n))).
  { induction C as [s E|n s limits canceled garbage M chain av bh mw cs buf sz pm ti dm space w par moved block fch st pindex b c now w' c' st' fc s' C IH Kc Ec Eb Hb Nd Fb Ck E Es].
    - intros l _. assert (Z0 : sum_of s l = 0) by (induction l as [|x l IHl]; [reflexivity|]; rewrite sum_cons, IHl; unfold value_of; now rewrite E). rewrite Z0. apply issued_bound. lia.
    - assert (Fb' : enforce_bip30 config (w_index w) b = Ok true \/ Forall (fresh_in (cache_coin c)) (vtx block)).
      { destruct Fb as [X|X]; [now left|]. right. exact (proj2 (fresh_ext s (cache_coin c) _ Ec (conj Nd X))). }
      destruct (ConnectBlock_worth usage limits canceled garbage config U0 M cs chain av bh mw buf sz pm ti dm space w par moved block fch st pindex c now w' c' st' fc _ b
        Kc (worth_ext _ _ _ Ec IH) Eb ltac:(lia) ltac:(lia) Nd Fb' Ck E) as [_ W]. apply (worth_ext (cache_coin c')); [exact Es|].
      change (issued (Z.of_nat i) (S (S n))) with (issued (Z.of_nat i) (S n) + subsidy_at (Z.of_nat (S n) / Z.of_nat i)). rewrite Hb, Ei in W. exact W. }
  split; [exact W|]. refine (worth_le _ _ _ _ W). assert (X := issued_bound i (S n) ltac:(lia)). unfold MAX_MONEY, COIN. lia.
Qed.

(** An example: the block [easy_block] after a genesis block, with the mark of an earlier check. *)
Definition easy_entry (hash : bytes) (prev : option ptr) (height : Z) : CBlockIndex :=
  set_status (set_hash (set_links (CBlockIndex_of (mkHeader 1 [] [] 0 0 0)) prev None height) (Some hash)) (5 + 8 + 16).
Definition easy_world : world :=
  mkWorld {[1%positive := easy_entry (repeat 7 32) None 0; 2%positive := easy_entry (repeat 8 32) (Some 1%positive) 1]} ∅ ∅ CBlockFileInfoStore_new (mkDisk ∅ ∅) false ∅.
Definition easy_view : CCoinsViewCache CoinsDB.store := CCoinsViewCache_of (CoinsDB.mkStore ∅ (Some (repeat 7 32)) None).
Definition easy_limits : Interpreter.CScriptConfig := Interpreter.mkConfig (fun _ _ => 0) (fun _ _ => 0) (fun _ _ => 0) (fun _ _ => 0) (fun _ _ => 0).
Definition easy_connect : outcome (world * CCoinsViewCache CoinsDB.store * CValidationState * bool * bool) :=
  ConnectBlock (B := Z_BIGNUM) (K := lenient_secp) (H := db_view no_split) (fun _ => 0) easy_limits (fun _ => false) [] easy_config ∅ (mkChain [Some 1%positive] (Some 1%positive)) (repeat 0 32) None
    [] (fun _ => false) [] 24 false false [] (fun _ => true) easy_world false false easy_block true CValidationState_new 2 easy_view false 0.

Definition easy_check : outcome (CValidationState * bool * bool) :=
  CheckBlock (B := Z_BIGNUM) (K := lenient_secp) easy_config easy_block false CValidationState_new 1 default_options 0.

Lemma easy_passed : once_checked (B := Z_BIGNUM) (K256 := lenient_secp) easy_config easy_block.
Proof.
  assert (R : match easy_check with Ok (_, ok, _) => ok | _ => false end = true) by (vm_compute; reflexivity).
  destruct easy_check as [[[s ok] f]|?|?| |] eqn:E; try discriminate R. subst ok. unfold easy_check in E. exists CValidationState_new, s, 1, default_options, 0, f. exact E.
Qed.

Lemma easy_connected : exists w c st f, easy_connect = Ok (w, c, st, f, true).
Proof.
  assert (R : match easy_connect with Ok (_, _, _, _, ok) => ok | _ => false end = true) by (vm_compute; reflexivity).
  destruct easy_connect as [[[[[w c] st] f] []]|?|?| |]; try discriminate R. now exists w, c, st, f.
Qed.

Lemma supply_bounded_witness : exists s, chain_coins (B := Z_BIGNUM) (K := lenient_secp) (H := db_view no_split) (L := db_laws no_split) (fun _ => 0) easy_config 1 s /\
  worth_at_most s (issued 150 2).
Proof.
  destruct easy_connected as (w & c & st & f & E). assert (I : view_inv (CCoinsViewCache_of (CoinsDB.mkStore ∅ (Some (repeat 7 32)) None)).(base) (CoinsViewLaws := db_laws no_split)) by (split; [intros x d X; discriminate X | reflexivity]).
  destruct (cache_new (L := db_laws no_split) (fun _ => 0) _ I) as [K0 E0].
  assert (C : chain_coins (B := Z_BIGNUM) (K := lenient_secp) (H := db_view no_split) (L := db_laws no_split) (fun _ => 0) easy_config 1 (cache_coin (L := db_laws no_split) c)).
  { unfold easy_connect in E. refine (after_block (fun _ => 0) easy_config 0 (fun _ => None) _ _ _ _ _ _ _ _ _ _ _ _ _ _ _ _ _ _ _ _ _ _ (easy_entry (repeat 8 32) (Some 1%positive) 1) _ _ _ _ _ _ _ _ K0 E0 _ _ _ _ _ E _).
    - now constructor.
    - vm_compute. reflexivity.
    - reflexivity.
    - cbn [vtx easy_block map]. constructor; [intros [] | constructor].
    - left. vm_compute. reflexivity.
    - intros _. exact easy_passed.
    - reflexivity. }
  exists (cache_coin (L := db_laws no_split) c). split; [exact C|]. exact (proj1 (supply_bounded (B := Z_BIGNUM) (K := lenient_secp) (L := db_laws no_split) (fun _ => 0) easy_config 150 1 _ eq_refl eq_refl ltac:(lia) C)).
Defined.
End Supply.
